(* ===== verification/_CoqProject ===== *)
-Q . S2P
Prelude.v
Text.v
Crypto.v
Types.v
Merkle.v
ValidatorSet.v
Vrf.v
Pbft.v
VoteAccumulator.v
EvidenceVotes.v
ChainStore.v
L1Quorum.v
ForcedInclusion.v
SetHistory.v
PublisherIndex.v
Sync.v
LightClient.v
PendingPool.v
NodeState.v
RateLimit.v
Gf256.v
Shamir.v
Threshold.v
Distribution.v
KeyService.v
AccessControl.v
Admission.v
ShieldedWire.v
Pipeline.v
Staking.v
ConsensusAdmission.v
SetSync.v
SyncFollow.v
CrossChain.v
Zk.v
Settlement.v
Bridge.v
Resolver.v
Install.v
Registrations.v
ProofServer.v
NodeApi.v
Circuits.v
DoubleSign.v
Risk.v
Sandbox.v
StaticAnalysis.v
Report.v
Json.v
Float.v
ChainSpec.v
Secrets.v
Boot.v
GossipLimit.v
Relayer.v
Faucet.v
Premium.v
Insurance.v
PinningRewards.v
Pinning.v
Osv.v
