(* ===== verification/Prelude.v ===== *)
(** Verification of the Chain Registry core (CREG).

    The registry decides package publications by votes of a validator set, puts
    the decided transactions into blocks that a PBFT engine finalises, stores the
    blocks with the indexes derived from them, synchronises and reorganises with
    its peers, and serves proofs to light clients.  The development models that
    core, written in Rust under [src/crates/], as executable functions, and proves
    the theorems that make each part, and the parts together, correct.

    * Parts, files and sources

    - [Prelude]: results, integer widths, folds and counts shared by all files.
      [Text]: the string functions of the Rust standard library that the source
      uses.  [Crypto]: SHA-256, hexadecimal text and Ed25519 as the interface
      [Crypto] with the laws [CryptoLaws]; the instance [Toy] shows that the laws
      can hold and makes every witness computable.
    - [Types] (common/src/package.rs, block.rs, verdict.rs, lib.rs): the data
      model, canonical identifiers, signed publish messages, block hashes; JSON
      encoders are the interface [Serde].
    - [Merkle] (common/src/block.rs [merkle_root]; resolver/src/light_client.rs
      [build_merkle_proof], [MerkleProof::verify]).
    - [ValidatorSet] (consensus/src/validator_set.rs), [Vrf] (consensus/src/vrf.rs)
      with the seeded shuffle as the interface [Rng].
    - [Pbft] (consensus/src/pbft.rs): rounds as a state machine ([reachable]) and
      the engine as a map of rounds.
    - [VoteAccumulator] (consensus/src/vote_accumulator.rs) and [EvidenceVotes]
      (consensus/src/evidence_votes.rs, node/src/state.rs [PackageRound]): the two
      ways votes on a package are collected and decided.
    - [ChainStore] (node/src/chain_store.rs): the three RocksDB column families as
      maps, write batches as lists of puts; [Semver] is an interface.
    - [L1Quorum], [ForcedInclusion], [SetHistory], [PublisherIndex], [PendingPool],
      [RateLimit]: node/src/l1_quorum.rs, consensus/src/forced_inclusion.rs,
      node/src/validator_set_history.rs, publisher_index.rs, pending_pool.rs,
      rate_limit.rs.
    - [Sync] (node/src/sync.rs): peers are functions from heights to optional
      blocks, one argument per kind of request, so they may answer differently
      each time.
    - [LightClient] (resolver/src/light_client.rs).
    - [NodeState] (node/src/p2p.rs, block_producer.rs, state.rs, gossip.rs): the
      gossip handlers and the producer as transformers of the shared state that
      return the messages sent, composed from the components above; a node is
      the machine [node_step].

    - [Pipeline] (node/src/validator_pipeline.rs): what a validator does with a
      pending package, interleaved with the gossip handlers.  [Admission]
      (node/src/package_admission.rs, admission_scan.rs, common/src/
      feature_flags.rs): the checks before a package enters the pending pool.
    - [Staking] (contracts/Staking.sol): the life cycle of a validator on L1 with
      its events, and the interface [Ethereum]; [ConsensusAdmission]
      (node/src/consensus_admission.rs): attestations, their store and the
      submission to the contract; [SetSync] (node/src/validator_set_sync.rs): the
      worker that follows the contract's events; [SyncFollow]: its composition
      with the contract.
    - [Gf256], [Shamir] (threshold-encryption/src/shamir.rs, cli/src/recovery.rs),
      [Threshold] (lib.rs), [Distribution], [KeyService], [AccessControl] (the
      files of these names, service.rs for [KeyService]): the field, secret
      sharing, encrypted packages, the distribution of their shares, the key
      service, policies and roles.  Ciphers and key agreement are the interfaces
      [Aead] and [Ecdh]; random numbers are arguments.
    - [ShieldedWire] (common/src/shielded_wire.rs): the packages that only
      validators can read, over [Aead] and [X25519].

    - [CrossChain] (cross-chain/src/lib.rs): chain configurations and the orderer
      of cross-chain messages.  [Zk] (zk-validator/src/lib.rs, batch.rs,
      circuits.rs): keys, proofs and public inputs over the interface [Groth16].
      [Settlement] (contracts/Governance.sol, Registry.sol, ZKVerifier.sol): the
      contracts that a rollup batch passes, with the pairing as the interface
      [PairingCheck]; [Bridge] (node/src/bridge.rs, bridge_anchors.rs): the loop
      that settles the chain on them.
    - [Resolver] (resolver/src/lib.rs, cache.rs, chain_client.rs, downloader.rs,
      the handlers node/src/api.rs [get_package] and node/src/grpc/server.rs
      [get_latest_version]) and [Install] (cli/src/install.rs, policy.rs,
      lockfile.rs, retry.rs): how a client looks a package up and installs it.
    - [Registrations] (node/src/api.rs, validator_registry_gossip.rs, p2p.rs,
      main.rs): the identities that wallets register, their journal and the
      refresh from L1.  [NodeApi] (node/src/api.rs): the handlers of the REST
      server that act on the node.  [ProofServer] (node/src/proof.rs): the proofs
      that a node serves, through to the client of [LightClient].
    - [Circuits] (zk-validator/src/circuits.rs): the equations of the circuits
      over the scalar field; [DoubleSign] (zk-validator/src/slashing.rs): the
      monitor, the evidence and the proof of double signing.
    - The validator's analysis (validator/src): [Risk] (risk.rs, reputation.rs,
      bundle.rs): the publisher's record, score, evidence digest and decision, with
      floating-point scores as the interface [Scores]; [Sandbox] (sandbox.rs,
      diff.rs): the logs of the engines, the manifest check, the cache and the
      comparison with the previous version; [StaticAnalysis] (static_analysis.rs,
      typosquat.rs); [Report] (report.rs, pgp.rs, lib.rs): the stages in order, the
      auditor and the vote.

    - [Json] (common/src/chain_spec.rs): the values of serde_json and the canonical
      text over which specifications are hashed and signed.  [ChainSpec] (the same
      file, cli/src/chain_spec.rs): the specification of a network, its genesis hash,
      its signature and the check of the command-line client; [Serialize] is the
      interface of the types that have a JSON form, with the laws that the form is
      well-formed and determines the value.  [Secrets] (secrets/src, common/src/
      hot_key.rs): the backends of the hot keys and the policy
      for production.  [Boot] (node/src/config.rs, main.rs, pidlock.rs,
      chain_spec_boot.rs, and the CORS layer of api.rs): the configuration from the
      environment, its warnings and errors, the identity of the network, the lock of
      the data directory and the checks from process start to the running node.
    - [GossipLimit] (node/src/p2p_rate_limit.rs and the gate of p2p.rs): token buckets
      per peer, with bans and purges.  [Float]: the double-precision numbers of this
      file and of the insurance, over the Standard Library's [SpecFloat].
    - [Relayer] (relayer/src/main.rs): quotes, the two steps of a sponsored call as a
      step relation, nonces, quotas and their journal.  [Faucet] (faucet/src/main.rs): the
      drip handler, proof of work, cooldowns in memory and in the database.
    - [Premium] (insurance/src/risk_model.rs, lib.rs, with the answer of node/src/
      api.rs [get_package]): risk scores and premiums; [Insurance] (insurance/src/lib.rs,
      claims.rs): policies, the pool as a machine, claims and statistics.
    - [PinningRewards] (contracts/PinningRewards.sol): the contract as a step relation;
      [Pinning] (ipfs-pinner/src): the manager of pins against the interfaces
      [IpfsPinner] and [PinningContract], the client that implements the second on the
      contract, and the verifier; a transaction is sent and watched, two steps that fail
      separately ([Fate]).
    - [Osv] (ml-validator/src/osv_client.rs, osv_snapshot.rs, cli/src/osv_snapshot.rs): the
      client of the vulnerability database and its cache, the pinned snapshot of
      validators, its builder and the lookups.

    A Rust method is the definition of the same name where the name is free, with
    a prefix of its type otherwise ([PbftEngine::prepare] is [engine_prepare]).
    [&mut self] is state passing, [Result] is [result] with one error constructor
    per failure site, a panic is a separate outcome.

    * What the theorems show

    - Agreement: rounds finalise only on quorum certificates; of two finalised blocks
      the commit votes that the nodes received show more than a third of the validators
      signing both, so nodes agree when the others vote for one block only; a quorum of messages finalises; view changes are bounded
      ([Pbft]).  Whatever a node puts on its chain by consensus is certified, and a
      produced block extends the tip ([NodeState]).
    - Votes: a verdict needs a quorum of distinct voters that agree on profile and
      evidence, and of each the latest vote counts, and approvals that
      decided a package at one node pass the signature check of every other
      ([VoteAccumulator], [EvidenceVotes], [NodeState], [Sync]).
    - Storage: batches equal sequential indexing where no transaction reads what
      its block wrote; rollback and rebuild restore the canonical state
      ([ChainStore], [PublisherIndex], [PendingPool], [SetHistory]).
    - Synchronisation keeps the chain linked and verified; an adopted branch is
      strictly longer ([Sync]).
    - Light clients: Merkle proofs are complete, and sound up to a SHA-256 collision
      among the texts that the tree and the proof hash; header chains are checked exactly, and the certificate of a finalised block
      is accepted ([Merkle], [LightClient]); the proof that a node serves for a
      verified package convinces a client that trusts genesis only ([ProofServer]).
    - The REST server: a wallet is bound to a node and a key only by signatures of
      both, no two wallets share them, and the journal restores every binding
      ([Registrations]); a posted vote is a gossiped vote, a revocation needs a
      validator or the publisher and revokes, pages of blocks leave none out
      ([NodeApi]).
    - Proofs in zero knowledge: exactly which public inputs the circuits accept
      ([Circuits]); a proof of double signing survives its text form, and the
      monitor finds every contradiction of a first vote ([DoubleSign]).
    - Publication: every error of the admission is given by the first check that
      fails ([Admission]); what the pipeline publishes was decided by a quorum of
      the votes it held, its own vote is one that every peer accepts, and its
      polling ends ([Pipeline]).
    - Validators: what a node submits to the contract meets the rules, and the
      contract accepts it when the attestations are over its own values
      ([ConsensusAdmission]); the set that the worker observes is the contract's
      active set at the finalised height, for any sequence of polls of an honest
      first endpoint ([SyncFollow]); the set built from it has exactly the known
      addresses, and stake, reputation and activity of a validator are those that its
      removals, slashes and rewards leave ([ValidatorSet]).
    - Secrets: any threshold of shares restores the secret, fewer are consistent
      with every secret in the same number of ways, both implementations compute
      the same shares, packages are decrypted by any threshold of validators
      ([Shamir], [Threshold]); the confirmation count is exact ([Distribution]);
      shielded packages are read by whoever has the key ([ShieldedWire]).
    - Analysis: an approval means that no counting finding is Critical and the score
      is below the threshold, or that the pinned auditor signed; a Critical pattern
      in a source file is rejected unless that auditor cleared the package; the language model decides nothing ([Report]);
      more evidence never helps, and its order does not matter ([Risk]); the
      manifest check and the comparison find exactly what is undeclared or new
      ([Sandbox]), the typosquat check the first close name ([StaticAnalysis]).
    - Settlement on L1: the state roots form one chain and a batch needs the
      threshold of signers ([Settlement]); a bridge that no other account disturbs,
      with a governance of threshold one, settles exactly the verified publications of
      the chain, in order ([Bridge]).
    - Clients: besides the words of the user's own CREG_PM_ARGS only what policy and
      verdict admit reaches a package manager, and bytes from the swarm have the hash of
      the verdict ([Install]); the resolver
      reports what the node stores, over REST ([Resolver]); cross-chain messages
      are delivered in order, once each ([CrossChain]).
    - Start: a specification is checked before it is applied, its genesis hash and its
      signature bind what they are meant to bind, the errors of a configuration and
      the guard of production are exact, the lock excludes a second node ([ChainSpec],
      [Boot]); what a hot key may come from ([Secrets]).
    - Services: the relayer pays only for calls that their owner signed twice, and a
      quote accepted in time is honoured ([Relayer]); a drip with a confirmed
      transfer stops its address and its client until their cooldowns end, across
      restarts when a database kept it ([Faucet]); the price of a package is
      decided by its status ([Premium]), payouts never overdraw the pool and the
      statistics of claims are exact ([Insurance]); the rewards contract holds exactly
      its stakes and its pool ([PinningRewards]), and an active pin of
      the manager is registered for its operator through failures at any step, a failed
      unpinning of it excepted ([Pinning]); the snapshot that a validator reads holds what
      the database answered to its builder, and its cached copy shows ([Osv]).
    - Bounds: a ban of a peer holds until it ends ([GossipLimit]), the rate limiter, the L1 height vote and the censorship tracker are
      exact ([RateLimit], [L1Quorum], [ForcedInclusion]).

    Some theorems record where the code does less than its comments say: a view
    change strands its round or reopens a finalised one, a fallback proposer is
    refused, a node signs rival proposals, the proposer's own votes are lost, a
    revocation in the publishing block is lost, an unpublishing block needs no
    signatures, a short hash panics, a light client believes the validator list
    it is sent; a respelled or foreign attestation blocks an admission, a wiped-out
    validator stays in the set, a restart brings back those who left; distributed
    shares are wrapped under public keys, the key service releases shares without a
    check, and its client never reconstructs a package; a waiting batch is orphaned
    by the next one, a restart settles everything again, proofs reach the contract
    with their bytes swapped; over gRPC every version of a package is verified and
    none can be installed, and a failed light-client proof is ignored; old registrations are replayed and
    deleted ones come back, the signatures of one key rotation move every package,
    a cursor of the block list never ends, proofs of packages from before a change
    of the validators are rejected, a proof of double signing needs no signature,
    and the batch circuit accepts everything; the sandbox answers from a cache that
    ignores the manifest, a flooded log hides writes, a Cargo.toml in front of the
    tarball switches patterns off, a file that is not UTF-8 is not seen, and a
    restart changes the evidence of a validator; a node with a specification and a
    pinned genesis hash never starts, the values of a specification are applied
    unchecked, and identities of networks are ambiguous ([Boot]); control characters are
    written raw in canonical text ([Json]); an unreachable Vault reads as a missing
    key ([Secrets]); a request that arrives twice is paid for twice ([Relayer]); the
    count of violations that should escalate penalties is forgotten ([GossipLimit]);
    a coverage that is not a number disables the solvency check, and claims need no
    policy ([Insurance]); stakes of pinners are never returned, two of them in turns
    multiply their rewards ([PinningRewards]), a round of verification records one
    result, an unpinned package cannot be pinned again, and a transaction that is mined
    without its confirmation leaves a pin active for good ([Pinning]); another signer's
    proposal makes the bridge skip a batch ([Bridge]), a temporary path that is no text
    sends a verified package to the registry ([Install]), and a query that failed reads
    as no advisories ([Osv]).

    * Bounds and fuel

    The Merkle reduction and the walk that builds a proof take the length of the
    level as fuel and halve it at each step; [Text.strip_all] takes the length of
    the text, and so do the scan for escapes ([StaticAnalysis]) and the substitution
    of variables ([Relayer]).  The polling loop of the pipeline takes its number of rounds, the scan
    of the contract's log the number of chunks ([scan_fuel], proved enough below
    the largest block number, and proved endless at it).  The multiplication of the
    recovery code runs eight rounds.  All other recursions are structural.  [u64], [u32] and [u8] values
    are [N] and wrap or saturate where the source can reach the limit; counts of
    collections are [nat].

    * What is not modelled

    Third-party code and I/O are parameters (hashing, signatures, JSON parsing, the
    shuffle, semantic versions) or documented key-value behaviour (RocksDB, files).
    HTTP, libp2p, logging and metrics are left out, and so are the programs that run
    packages, the language model and the model scoring, whose output is an argument
    ([Engines], [Environment], [World]); in the pipeline the analysis is the interface
    [Analyzer].  A handler is atomic, as it is under the node's lock; where the source
    releases the lock between two steps ([Relayer], [Pipeline]) the steps are separate
    and interleave.  Of the command-line client only the parts named above are
    modelled, its screens and diagnostics are text.  The read handlers of the REST
    server that are not named above, the indexer, the scanners and models of ml-validator and the WASM engine are not modelled: they present,
    copy or call what the other parts decide. *)

From stdpp Require Export base tactics option list list_numbers sorting gmap strings pretty.
From Stdlib Require Export Lia.

(** ** Fallible results

    Rust's [Result<A, E>].  The error types of the components are inductive
    types with one constructor per [bail!]/[Err] site of the source; the
    formatted English text of the message is not part of the model. *)
Inductive result (E A : Type) : Type :=
| Ok (a : A)
| Err (e : E).
Arguments Ok {E A} a.
Arguments Err {E A} e.

#[export] Instance result_ret (E : Type) : MRet (result E) := fun A a => Ok a.
#[export] Instance result_bind (E : Type) : MBind (result E) := fun A B f m =>
  match m with
  | Ok a => f a
  | Err e => Err e
  end.
#[export] Instance result_fmap (E : Type) : FMap (result E) := fun A B f m =>
  match m with
  | Ok a => Ok (f a)
  | Err e => Err e
  end.

#[export] Instance result_eq_dec {E A : Type} `{EqDecision E, EqDecision A} :
  EqDecision (result E A).
Proof. solve_decision. Defined.

(** [o.ok_or(e)] *)
Definition ok_or {E A : Type} (e : E) (o : option A) : result E A :=
  match o with
  | Some a => Ok a
  | None => Err e
  end.

(** [if !b { bail!(e) }] *)
Definition ensure {E : Type} (b : bool) (e : E) : result E unit :=
  if b then Ok tt else Err e.

(** [r.map_err(f)] *)
Definition map_err {E F A : Type} (f : E → F) (r : result E A) : result F A :=
  match r with
  | Ok a => Ok a
  | Err e => Err (f e)
  end.

Definition is_ok {E A : Type} (r : result E A) : bool :=
  match r with
  | Ok _ => true
  | Err _ => false
  end.

Lemma bind_Ok {E A B : Type} (f : A → result E B) (m : result E A) (b : B) :
  m ≫= f = Ok b ↔ ∃ a, m = Ok a ∧ f a = Ok b.
Proof. destruct m; naive_solver. Qed.

(** A chain of checks succeeds when each of them does. *)
Lemma then_Ok {E A : Type} (m : result E unit) (k : result E A) (a : A) :
  m ≫= (λ _, k) = Ok a ↔ m = Ok tt ∧ k = Ok a.
Proof. destruct m as [[]|]; naive_solver. Qed.

Lemma ok_or_Ok {E A : Type} (e : E) (o : option A) (a : A) :
  ok_or e o = Ok a ↔ o = Some a.
Proof. destruct o; naive_solver. Qed.

Lemma ensure_Ok {E : Type} (b : bool) (e : E) (u : unit) :
  ensure b e = Ok u ↔ b = true.
Proof. destruct b, u; naive_solver. Qed.

Lemma map_err_Ok {E F A : Type} (f : E → F) (r : result E A) (a : A) :
  map_err f r = Ok a ↔ r = Ok a.
Proof. destruct r; naive_solver. Qed.

Lemma is_ok_Ok {E A : Type} (r : result E A) :
  is_ok r = true ↔ ∃ a, r = Ok a.
Proof. destruct r; naive_solver. Qed.

(** Invert every successful monadic step of the context. *)
Ltac res_inv :=
  repeat match goal with
  | H : _ ≫= _ = Ok _ |- _ =>
      apply bind_Ok in H; destruct H as (? & ? & H)
  | H : ok_or _ _ = Ok _ |- _ => apply ok_or_Ok in H
  | H : ensure _ _ = Ok _ |- _ => apply ensure_Ok in H
  | H : map_err _ _ = Ok _ |- _ => apply map_err_Ok in H
  | H : Ok _ = Ok _ |- _ => injection H as H; subst
  | H : Err _ = Ok _ |- _ => discriminate H
  | H : Ok _ = Err _ |- _ => discriminate H
  | u : unit |- _ => destruct u
  end.

(** Case analysis on every [match]/[if] of a hypothesis, closing the branches
    whose result contradicts it. *)
Ltac branch H :=
  repeat (case_match; try discriminate H; try (injection H as H; subst));
  res_inv.

(** ** Machine integers

    [u64], [u32] and [u8] are [N]; [usize] counts of collections are [nat].
    The wrap-around of release builds is written out where the source can
    reach it. *)
Definition u64_size : N := 2 ^ 64.
Definition u64_max : N := 2 ^ 64 - 1.
Definition u32_max : N := 2 ^ 32 - 1.
Definition u8_max : N := 255.

(** [a + b] on [u64] in a release build. *)
Definition u64_add (a b : N) : N := ((a + b) mod u64_size)%N.

(** [a.saturating_add(b)] for [u8]. *)
Definition u8_saturating_add (a b : N) : N := N.min u8_max (a + b).

(** [a - b] on [usize]: [None] is the arithmetic-overflow panic of a build with
    overflow checks; without them the subtraction wraps modulo 2^64. *)
Definition usize_sub (overflow_checks : bool) (a b : N) : option N :=
  if (b <=? a)%N then Some (a - b)%N
  else if overflow_checks then None
  else Some (a + u64_size - b)%N.

Lemma usize_sub_le (c : bool) (a b : N) :
  (b ≤ a)%N → usize_sub c a b = Some (a - b)%N.
Proof. intros H. unfold usize_sub. by rewrite (proj2 (N.leb_le b a) H). Qed.

#[global] Arguments Nat.div : simpl never.
#[global] Arguments N.sub : simpl never.

(** ** Hint database of the development *)
Create HintDb creg.

#[export] Hint Resolve usize_sub_le : creg.
Create Rewrite HintDb creg_simp.
#[export] Hint Rewrite @bind_Ok @ok_or_Ok @ensure_Ok : creg_simp.

(** ** Iterating over hash maps

    The iteration order of a Rust [HashMap] is unspecified.  [hm_values] is the
    list of values in the order of [map_to_list]; the theorems about functions
    that iterate state order-independence explicitly (through [Permutation])
    wherever the order could matter. *)
Definition hm_values {K V : Type} `{Countable K} (m : gmap K V) : list V :=
  (map_to_list m).*2.

Definition hm_keys {K V : Type} `{Countable K} (m : gmap K V) : list K :=
  (map_to_list m).*1.

Lemma elem_of_hm_values {K V : Type} `{Countable K} (m : gmap K V) (v : V) :
  v ∈ hm_values m ↔ ∃ k, m !! k = Some v.
Proof.
  unfold hm_values. rewrite list_elem_of_fmap. split.
  - intros ([k w] & -> & Hk). exists k. by apply elem_of_map_to_list.
  - intros [k Hk]. exists (k, v). by rewrite elem_of_map_to_list.
Qed.

Lemma elem_of_hm_keys {K V : Type} `{Countable K} (m : gmap K V) (k : K) :
  k ∈ hm_keys m ↔ is_Some (m !! k).
Proof.
  unfold hm_keys. rewrite list_elem_of_fmap. split.
  - intros ([k' w] & -> & Hk). exists w. by apply elem_of_map_to_list.
  - intros [v Hk]. exists (k, v). by rewrite elem_of_map_to_list.
Qed.

Lemma NoDup_hm_keys {K V : Type} `{Countable K} (m : gmap K V) : NoDup (hm_keys m).
Proof. apply NoDup_fst_map_to_list. Qed.

Lemma length_hm_values {K V : Type} `{Countable K} (m : gmap K V) :
  length (hm_values m) = size m.
Proof. unfold hm_values. by rewrite length_fmap, length_map_to_list. Qed.

(** [m.iter().filter(p).map(|(k, _)| k)], the keys a cleanup loop collects. *)
Definition keys_where {V : Type} (p : V → bool) (m : gmap string V) : list string :=
  (filter (λ kv, p kv.2 = true) (map_to_list m)).*1.

Lemma NoDup_keys_where {V : Type} (p : V → bool) (m : gmap string V) : NoDup (keys_where p m).
Proof.
  eapply sublist_NoDup; [apply (NoDup_fst_map_to_list m)|].
  apply fmap_sublist, sublist_filter.
Qed.

Lemma elem_of_keys_where {V : Type} (p : V → bool) (m : gmap string V) (k : string) :
  k ∈ keys_where p m ↔ ∃ v, m !! k = Some v ∧ p v = true.
Proof.
  unfold keys_where. rewrite list_elem_of_fmap. split.
  - intros ([k' v] & -> & [HP Hin]%list_elem_of_filter). exists v.
    by rewrite <- elem_of_map_to_list.
  - intros (v & Hv & HP). exists (k, v). split; [done|]. apply list_elem_of_filter.
    by rewrite elem_of_map_to_list.
Qed.

(** A loop that updates, or removes, the entries of the collected keys. *)
Lemma foldl_alter_lookup {V : Type} (f : V → V) (l : list string) (m : gmap string V)
    (k : string) :
  NoDup l →
  foldl (λ a c, alter f c a) m l !! k = if decide (k ∈ l) then f <$> m !! k else m !! k.
Proof.
  revert m. induction l as [|x l IH]; intros m Hnd; [done|].
  apply NoDup_cons in Hnd as [Hx Hnd]. simpl. rewrite IH, lookup_alter by done.
  destruct (decide (x = k)) as [<-|Hne].
  - rewrite decide_False by done. by rewrite decide_True by set_solver.
  - destruct (decide (k ∈ l)).
    + by rewrite decide_True by set_solver.
    + by rewrite decide_False by set_solver.
Qed.

Lemma foldl_delete_lookup {V : Type} (l : list string) (m : gmap string V) (k : string) :
  foldl (λ m h, delete h m) m l !! k = if decide (k ∈ l) then None else m !! k.
Proof.
  revert m. induction l as [|x l IH]; intros m; [done|]. simpl. rewrite IH.
  destruct (decide (k ∈ l)); [by rewrite decide_True by set_solver|].
  rewrite lookup_delete. destruct (decide (x = k)).
  - by rewrite decide_True by set_solver.
  - by rewrite decide_False by set_solver.
Qed.

Lemma foldl_alter_where {V : Type} (p : V → bool) (f : V → V) (m : gmap string V) (k : string) :
  foldl (λ a c, alter f c a) m (keys_where p m) !! k
  = (λ v, if p v then f v else v) <$> m !! k.
Proof.
  rewrite foldl_alter_lookup by apply NoDup_keys_where. case_decide as Hd.
  - apply elem_of_keys_where in Hd as (v & -> & Hv). simpl. by rewrite Hv.
  - destruct (m !! k) as [v|] eqn:Hv; [|done]. simpl.
    destruct (p v) eqn:He; [|done]. exfalso. apply Hd, elem_of_keys_where. eauto.
Qed.

Lemma foldl_delete_where {V : Type} (p : V → bool) (m : gmap string V) (k : string) :
  foldl (λ m h, delete h m) m (keys_where p m) !! k
  = match m !! k with
    | Some v => if p v then None else Some v
    | None => None
    end.
Proof.
  rewrite foldl_delete_lookup. case_decide as Hd.
  - apply elem_of_keys_where in Hd as (v & -> & ->). done.
  - destruct (m !! k) as [v|] eqn:Hv; [|done].
    destruct (p v) eqn:He; [|done]. exfalso. apply Hd, elem_of_keys_where. eauto.
Qed.

Lemma foldl_delete_size {V : Type} (l : list string) (m : gmap string V) :
  NoDup l → (∀ k, k ∈ l → is_Some (m !! k)) →
  length l + size (foldl (λ m h, delete h m) m l) = size m.
Proof.
  revert m. induction l as [|x l IH]; intros m Hnd Hdom; [done|].
  apply NoDup_cons in Hnd as [Hx Hnd]. simpl. rewrite IH; [|done|].
  - destruct (Hdom x) as [r Hr]; [set_solver|].
    rewrite map_size_delete_Some by eauto.
    pose proof (map_size_ne_0_lookup_2 m x ltac:(eauto)). lia.
  - intros k Hk. rewrite lookup_delete_ne by set_solver. apply Hdom. set_solver.
Qed.

(** [.filter(p).count()] *)
Definition count {A : Type} (p : A → bool) (l : list A) : nat :=
  length (filter (λ x, p x = true) l).

Lemma count_nil {A : Type} (p : A → bool) : count p [] = 0.
Proof. done. Qed.

Lemma count_cons {A : Type} (p : A → bool) (x : A) (l : list A) :
  count p (x :: l) = (if p x then 1 else 0) + count p l.
Proof. unfold count. rewrite filter_cons. destruct (p x); by case_decide. Qed.

Lemma count_app {A : Type} (p : A → bool) (l1 l2 : list A) :
  count p (l1 ++ l2) = count p l1 + count p l2.
Proof. unfold count. by rewrite filter_app, length_app. Qed.

Lemma count_le_length {A : Type} (p : A → bool) (l : list A) : count p l ≤ length l.
Proof. induction l as [|x l IH]; [done|]. rewrite count_cons. simpl. destruct (p x); lia. Qed.

Lemma count_Permutation {A : Type} (p : A → bool) (l1 l2 : list A) :
  l1 ≡ₚ l2 → count p l1 = count p l2.
Proof. intros H. unfold count. by rewrite H. Qed.

Lemma count_split {A : Type} (p q : A → bool) (l : list A) :
  count (λ x, p x && q x) l + count (λ x, p x && negb (q x)) l = count p l.
Proof.
  induction l as [|x l IH]; [done|]. rewrite !count_cons.
  destruct (p x), (q x); simpl; lia.
Qed.

Lemma count_mono {A : Type} (p q : A → bool) (l : list A) :
  (∀ x, p x = true → q x = true) → count p l ≤ count q l.
Proof.
  intros Hpq. induction l as [|x l IH]; [done|]. rewrite !count_cons.
  destruct (p x) eqn:Hp; [rewrite (Hpq x Hp); lia | destruct (q x); lia].
Qed.

Lemma count_filter {A : Type} (p q : A → bool) (l : list A) :
  count p (filter (λ x, q x = true) l) = count (λ x, p x && q x) l.
Proof.
  induction l as [|x l IH]; [done|]. rewrite filter_cons, count_cons.
  case_decide as Hq; rewrite ?count_cons, IH.
  - by rewrite Hq, andb_true_r.
  - apply not_true_is_false in Hq. by rewrite Hq, andb_false_r.
Qed.

Lemma count_true {A : Type} (p : A → bool) (l : list A) :
  Forall (λ x, p x = true) l → count p l = length l.
Proof.
  induction 1 as [|x l Hx Hl IH]; [done|]. rewrite count_cons, Hx, IH. done.
Qed.

Lemma count_zero {A : Type} (p : A → bool) (l : list A) :
  Forall (λ x, p x = false) l → count p l = 0.
Proof.
  induction 1 as [|x l Hx Hl IH]; [done|]. rewrite count_cons, Hx, IH. done.
Qed.

Lemma count_hm_insert {K V : Type} `{Countable K} (p : V → bool) (m : gmap K V) (k : K) (v : V) :
  m !! k = None →
  count p (hm_values (<[k := v]> m)) = (if p v then 1 else 0) + count p (hm_values m).
Proof.
  intros Hk. unfold hm_values.
  rewrite (count_Permutation p _ ((k, v) :: map_to_list m).*2).
  - by rewrite fmap_cons, count_cons.
  - by rewrite map_to_list_insert.
Qed.

(** A map filed under a field of its values lists that field without repetition. *)
Lemma hm_values_keys {K V : Type} `{Countable K} (f : V → K) (m : gmap K V) :
  map_Forall (λ k v, f v = k) m → f <$> hm_values m = hm_keys m.
Proof.
  intros Hm. unfold hm_values, hm_keys. rewrite <- list_fmap_compose. apply list_fmap_ext.
  intros i [k v] Hi%list_elem_of_lookup_2%elem_of_map_to_list. simpl. by apply Hm.
Qed.

Lemma NoDup_hm_filter {K V : Type} `{Countable K} (f : V → K) (m : gmap K V)
    (P : V → Prop) `{∀ x, Decision (P x)} :
  map_Forall (λ k v, f v = k) m → NoDup (f <$> filter P (hm_values m)).
Proof.
  intros Hm. eapply sublist_NoDup.
  - apply (NoDup_hm_keys m).
  - rewrite <- (hm_values_keys f m Hm). apply fmap_sublist, sublist_filter.
Qed.

#[export] Hint Rewrite @count_nil @count_cons @count_app : creg_simp.

(** ** Filtering *)
Lemma filter_all {A : Type} (P : A → Prop) `{∀ x, Decision (P x)} (l : list A) :
  (∀ x, x ∈ l → P x) → filter P l = l.
Proof.
  induction l as [|x l IH]; intros Hl; [done|]. rewrite filter_cons, decide_True by (apply Hl; by left).
  f_equal. apply IH. intros y Hy. apply Hl. by right.
Qed.

(** ** Pigeonhole on finite sets *)
Lemma set_overlap {A : Type} `{Countable A} (U X Y : gset A) :
  X ⊆ U → Y ⊆ U → size X + size Y ≤ size U + size (X ∩ Y).
Proof.
  intros HX HY.
  assert (size (X ∪ Y) ≤ size U) by (apply subseteq_size; set_solver).
  assert (size (X ∪ Y) = size X + size (Y ∖ X)) as Hu.
  { rewrite <- size_union by set_solver. f_equal. apply set_eq. intros a.
    destruct (decide (a ∈ X)); set_solver. }
  assert (size Y = size (Y ∖ X) + size (X ∩ Y)) as HYs.
  { rewrite <- size_union by set_solver. f_equal. apply set_eq. intros a.
    destruct (decide (a ∈ X)); set_solver. }
  lia.
Qed.

Lemma set_excess {A : Type} `{Countable A} (X B : gset A) :
  size B < size X → ∃ a, a ∈ X ∧ a ∉ B.
Proof.
  intros Hlt. destruct (decide (X ⊆ B)) as [Hs|Hn].
  - apply subseteq_size in Hs. lia.
  - destruct (set_choose_or_empty (X ∖ B)) as [[a Ha]|He]; [set_solver|].
    exfalso. apply Hn. intros a Ha. destruct (decide (a ∈ B)); [done|].
    assert (a ∈ X ∖ B) by set_solver. set_solver.
Qed.

(** ** Sorting by a boolean order *)
Section SortBy.
Context {A : Type} (le : A → A → bool).

Definition leR (a b : A) : Prop := le a b = true.
#[export] Instance leR_dec : RelDecision leR.
Proof. intros a b. unfold leR. apply _. Defined.

(** [l.sort_by(..)]: stable, and for the total antisymmetric orders used here the
    sorted list is unique. *)
Definition sort_by (l : list A) : list A := merge_sort leR l.

Lemma sort_by_Permutation (l : list A) : sort_by l ≡ₚ l.
Proof. apply merge_sort_Permutation. Qed.

Lemma elem_of_sort_by (l : list A) (x : A) : x ∈ sort_by l ↔ x ∈ l.
Proof. by rewrite sort_by_Permutation. Qed.

Lemma length_sort_by (l : list A) : length (sort_by l) = length l.
Proof. by rewrite sort_by_Permutation. Qed.

Context (le_total : ∀ a b, le a b = true ∨ le b a = true).
Context (le_trans : ∀ a b c, le a b = true → le b c = true → le a c = true).

Lemma sort_by_sorted (l : list A) : StronglySorted leR (sort_by l).
Proof.
  assert (Total leR) by (intros a b; apply le_total).
  assert (Transitive leR) by (intros a b c; apply le_trans).
  apply StronglySorted_merge_sort; apply _.
Qed.

Context (le_antisym : ∀ a b, le a b = true → le b a = true → a = b).

Lemma sort_by_unique (l1 l2 : list A) : l1 ≡ₚ l2 → sort_by l1 = sort_by l2.
Proof.
  intros Hp.
  assert (AntiSymm eq leR) by (intros a b; apply le_antisym).
  apply (StronglySorted_unique leR); auto using sort_by_sorted.
  by rewrite !sort_by_Permutation.
Qed.
End SortBy.
