(* ===== verification/Text.v ===== *)
(** Rust strings.

    A Rust [String]/[&str] is modelled by the [string] of its UTF-8 bytes, so
    that [as_bytes] is the identity and [String]'s [Ord] is the byte order.
    This file holds the standard-library string operations the registry uses
    ([trim], [to_ascii_lowercase], [strip_prefix], [trim_start_matches],
    [starts_with], [join], [repeat]) and the lemmas on separators from which the
    injectivity of the registry's message formats follows. *)

From S2P Require Import Prelude.
From Stdlib Require Import Ascii NArith.


(** ** Bytes *)
Definition byte (n : N) : ascii := ascii_of_N n.

Definition is_upper (c : ascii) : bool := ((65 <=? N_of_ascii c) && (N_of_ascii c <=? 90))%N.

(** [u8::to_ascii_lowercase] *)
Definition ascii_lower (c : ascii) : ascii :=
  if is_upper c then byte (N_of_ascii c + 32) else c.

(** [str::to_ascii_lowercase] *)
Fixpoint to_ascii_lowercase (s : string) : string :=
  match s with
  | EmptyString => EmptyString
  | String c s' => String (ascii_lower c) (to_ascii_lowercase s')
  end.

Fixpoint to_ascii_uppercase (s : string) : string :=
  match s with
  | EmptyString => EmptyString
  | String c s' =>
      let n := N_of_ascii c in
      String (if ((97 <=? n) && (n <=? 122))%N then byte (n - 32) else c) (to_ascii_uppercase s')
  end.

(** [a.eq_ignore_ascii_case(b)] *)
Definition eq_ignore_ascii_case (a b : string) : bool :=
  String.eqb (to_ascii_lowercase a) (to_ascii_lowercase b).

(** [s.is_empty()] *)
Definition is_empty (s : string) : bool :=
  match s with
  | EmptyString => true
  | String _ _ => false
  end.

(** [s.strip_prefix(p)] *)
Fixpoint strip_prefix (p s : string) : option string :=
  match p, s with
  | EmptyString, _ => Some s
  | String a p', String b s' => if Ascii.eqb a b then strip_prefix p' s' else None
  | String _ _, EmptyString => None
  end.

(** [s.starts_with(p)] *)
Definition starts_with (p s : string) : bool :=
  match strip_prefix p s with
  | Some _ => true
  | None => false
  end.

(** The UTF-8 encodings of the characters with the Unicode property
    [White_Space], which is what [str::trim] removes. *)
Definition white_space : list string :=
  let b1 a := String (byte a) "" in
  let b2 a b := String (byte a) (String (byte b) "") in
  let b3 a b c := String (byte a) (String (byte b) (String (byte c) "")) in
  [b1 9; b1 10; b1 11; b1 12; b1 13; b1 32;                         (* ASCII *)
   b2 194 133; b2 194 160;                                          (* U+0085 U+00A0 *)
   b3 225 154 128;                                                  (* U+1680 *)
   b3 226 128 128; b3 226 128 129; b3 226 128 130; b3 226 128 131;  (* U+2000.. *)
   b3 226 128 132; b3 226 128 133; b3 226 128 134; b3 226 128 135;
   b3 226 128 136; b3 226 128 137; b3 226 128 138;
   b3 226 128 168; b3 226 128 169; b3 226 128 175;                  (* U+2028 2029 202F *)
   b3 226 129 159; b3 227 128 128]%N.                               (* U+205F U+3000 *)

(** The first pattern of [ps] that is a prefix of [s], removed. *)
Fixpoint strip_one (ps : list string) (s : string) : option string :=
  match ps with
  | [] => None
  | p :: ps' =>
      match strip_prefix p s with
      | Some s' => Some s'
      | None => strip_one ps' s
      end
  end.

(** Remove prefixes among [ps] until none is left; every pattern is non-empty,
    so [String.length s] rounds are enough. *)
Fixpoint strip_all (fuel : nat) (ps : list string) (s : string) : string :=
  match fuel with
  | O => s
  | S fuel' =>
      match strip_one ps s with
      | Some s' => strip_all fuel' ps s'
      | None => s
      end
  end.

Definition trim_start (s : string) : string := strip_all (String.length s) white_space s.

Definition trim_end (s : string) : string :=
  String.rev (strip_all (String.length s) (String.rev <$> white_space) (String.rev s)).

(** [s.trim()] *)
Definition trim (s : string) : string := trim_end (trim_start s).

(** [s.is_char_boundary(i)] for UTF-8 bytes. *)
Definition char_boundary (s : string) (i : nat) : bool :=
  if (String.length s <? i)%nat then false
  else match String.get i s with
       | None => true
       | Some c => negb ((128 <=? N_of_ascii c) && (N_of_ascii c <=? 191))%N
       end.

(** [chars().take_while(|c| !c.is_whitespace())] *)
Fixpoint take_non_space (s : string) : string :=
  match s with
  | EmptyString => EmptyString
  | String c s' =>
      match strip_one white_space s with Some _ => EmptyString | None => String c (take_non_space s') end
  end.

(** [s.trim_start_matches(ps)] and [s.trim_end_matches(ps)], for the patterns of a list. *)
Definition trim_start_matches (ps : list string) (s : string) : string := strip_all (String.length s) ps s.

Definition trim_end_matches (ps : list string) (s : string) : string :=
  String.rev (strip_all (String.length s) (String.rev <$> ps) (String.rev s)).

(** [s.trim_start_matches("0x")] *)
Definition trim_0x (s : string) : string := strip_all (String.length s) ["0x"] s.

(** [l.join(sep)] *)
Fixpoint join (sep : string) (l : list string) : string :=
  match l with
  | [] => ""
  | [s] => s
  | s :: l' => s +:+ sep +:+ join sep l'
  end.

(** [s.repeat(n)] *)
Fixpoint repeat_str (s : string) (n : nat) : string :=
  match n with
  | O => ""
  | S n' => s +:+ repeat_str s n'
  end.

(** ** Comparison: the byte order of [Ord for String] *)
Definition str_le (a b : string) : bool :=
  match String.compare a b with
  | Gt => false
  | _ => true
  end.

Definition str_lt (a b : string) : bool :=
  match String.compare a b with
  | Lt => true
  | _ => false
  end.

(** ** Separators *)

(** [c] does not occur in [s]. *)
Fixpoint free_of (c : ascii) (s : string) : bool :=
  match s with
  | EmptyString => true
  | String a s' => negb (Ascii.eqb a c) && free_of c s'
  end.

Lemma free_of_cons (c a : ascii) (s : string) :
  free_of c (String a s) = true → a ≠ c ∧ free_of c s = true.
Proof.
  simpl. intros [H1 H2]%andb_prop. split; [|done].
  intros ->. by rewrite Ascii.eqb_refl in H1.
Qed.

Lemma app_cons_str (c : ascii) (a b : string) : String c a +:+ b = String c (a +:+ b).
Proof. done. Qed.

Lemma app_assoc_str (a b c : string) : (a +:+ b) +:+ c = a +:+ (b +:+ c).
Proof.
  induction a as [|x a IH]; [done|]. by rewrite !app_cons_str, IH.
Qed.

(** A separator that occurs in neither head splits a concatenation uniquely. *)
Lemma sep_split_l (c : ascii) (a1 a2 b1 b2 : string) :
  free_of c a1 = true → free_of c a2 = true →
  a1 +:+ String c b1 = a2 +:+ String c b2 → a1 = a2 ∧ b1 = b2.
Proof.
  revert a2. induction a1 as [|x a1 IH]; intros [|y a2] H1 H2 Heq.
  - by injection Heq as ->.
  - apply free_of_cons in H2 as [Hy _]. injection Heq as Hc _. congruence.
  - apply free_of_cons in H1 as [Hx _]. injection Heq as Hc _. congruence.
  - apply free_of_cons in H1 as [_ H1], H2 as [_ H2].
    rewrite !app_cons_str in Heq. injection Heq as -> Heq.
    destruct (IH a2 H1 H2 Heq) as [-> ->]. done.
Qed.

Lemma length_app_str (a b : string) :
  String.length (a +:+ b) = String.length a + String.length b.
Proof. induction a as [|x a IH]; [done|]. rewrite app_cons_str. simpl. by rewrite IH. Qed.

(** A separator that occurs in neither tail splits a concatenation uniquely. *)
Lemma sep_split_r (c : ascii) (a1 a2 b1 b2 : string) :
  free_of c b1 = true → free_of c b2 = true →
  a1 +:+ String c b1 = a2 +:+ String c b2 → a1 = a2 ∧ b1 = b2.
Proof.
  intros H1 H2. revert a2. induction a1 as [|x a1 IH]; intros [|y a2] Heq.
  - by injection Heq as ->.
  - exfalso. rewrite app_cons_str in Heq. injection Heq as <- ->.
    clear -H1. induction a2 as [|z a2 IH]; simpl in H1.
    + by rewrite Ascii.eqb_refl in H1.
    + apply andb_prop in H1 as [_ H1]. auto.
  - exfalso. rewrite app_cons_str in Heq. injection Heq as -> <-.
    clear -H2. induction a1 as [|z a1 IH]; simpl in H2.
    + by rewrite Ascii.eqb_refl in H2.
    + apply andb_prop in H2 as [_ H2]. auto.
  - rewrite !app_cons_str in Heq. injection Heq as -> Heq.
    destruct (IH a2 Heq) as [-> ->]. done.
Qed.

Lemma app_inj_len_r (a1 a2 b1 b2 : string) :
  String.length b1 = String.length b2 →
  a1 +:+ b1 = a2 +:+ b2 → a1 = a2 ∧ b1 = b2.
Proof.
  intros Hl Heq.
  assert (String.length a1 = String.length a2) as Ha.
  { apply (f_equal String.length) in Heq. rewrite !length_app_str in Heq. lia. }
  clear Hl. revert a2 Ha Heq.
  induction a1 as [|x a1 IH]; intros [|y a2] Ha Heq; simpl in Ha; try lia; [done|].
  rewrite !app_cons_str in Heq. injection Heq as -> Heq.
  destruct (IH a2 ltac:(lia) Heq) as [-> ->]. done.
Qed.

Lemma app_inj_l (a b1 b2 : string) : a +:+ b1 = a +:+ b2 → b1 = b2.
Proof. apply inj, _. Qed.

(** ** Lower-casing *)
Lemma ascii_lower_idemp (c : ascii) : ascii_lower (ascii_lower c) = ascii_lower c.
Proof. by destruct c as [[] [] [] [] [] [] [] []]; vm_compute. Qed.

Lemma to_ascii_lowercase_idemp (s : string) :
  to_ascii_lowercase (to_ascii_lowercase s) = to_ascii_lowercase s.
Proof.
  induction s as [|c s IH]; [done|]. simpl. by rewrite ascii_lower_idemp, IH.
Qed.

Lemma length_to_ascii_lowercase (s : string) :
  String.length (to_ascii_lowercase s) = String.length s.
Proof. induction s as [|c s IH]; [done|]. simpl. by rewrite IH. Qed.

(** ** Prefixes *)
Lemma strip_prefix_Some (p s r : string) : strip_prefix p s = Some r ↔ s = p +:+ r.
Proof.
  revert s. induction p as [|a p IH]; intros s; simpl.
  - naive_solver.
  - destruct s as [|b s]; [done|]. rewrite app_cons_str.
    destruct (Ascii.eqb_spec a b) as [->|Hne].
    + rewrite IH. split; [by intros ->|by intros [= ->]].
    + split; [done|]. intros [= ]. congruence.
Qed.

Lemma starts_with_app (p s : string) : starts_with p s = true ↔ ∃ r, s = p +:+ r.
Proof.
  unfold starts_with. destruct (strip_prefix p s) as [r|] eqn:H.
  - apply strip_prefix_Some in H. naive_solver.
  - split; [done|]. intros [r Hr]. apply strip_prefix_Some in Hr. congruence.
Qed.

Lemma is_empty_spec (s : string) : is_empty s = true ↔ s = "".
Proof. destruct s; naive_solver. Qed.

(** ** The byte order *)
Lemma ascii_compare_refl (a : ascii) : Ascii.compare a a = Eq.
Proof. apply N.compare_refl. Qed.

Lemma string_compare_refl (a : string) : String.compare a a = Eq.
Proof. induction a as [|c a IH]; [done|]. simpl. by rewrite ascii_compare_refl. Qed.

Lemma str_le_refl (a : string) : str_le a a = true.
Proof. unfold str_le. by rewrite string_compare_refl. Qed.

Lemma str_le_total (a b : string) : str_le a b = true ∨ str_le b a = true.
Proof.
  unfold str_le. rewrite (String.compare_antisym b a).
  destruct (String.compare a b); simpl; auto.
Qed.

Lemma str_le_antisym (a b : string) : str_le a b = true → str_le b a = true → a = b.
Proof.
  unfold str_le. rewrite (String.compare_antisym b a).
  destruct (String.compare a b) eqn:H; simpl; try done.
  intros _ _. by apply String.compare_eq_iff.
Qed.

Lemma ascii_compare_lt_iff (a b : ascii) :
  Ascii.compare a b = Lt ↔ (N_of_ascii a < N_of_ascii b)%N.
Proof. unfold Ascii.compare. apply N.compare_lt_iff. Qed.

Lemma str_le_trans (a b c : string) :
  str_le a b = true → str_le b c = true → str_le a c = true.
Proof.
  revert b c. induction a as [|x a IH]; intros [|y b] [|z c]; try done.
  unfold str_le in *. simpl. intros H1 H2.
  destruct (Ascii.compare x y) eqn:Exy; try done;
    destruct (Ascii.compare y z) eqn:Eyz; try done;
    repeat match goal with
    | H : Ascii.compare _ _ = Eq |- _ => apply Ascii.compare_eq_iff in H; subst
    end.
  - rewrite ascii_compare_refl. by apply (IH b).
  - by rewrite Eyz.
  - by rewrite Exy.
  - apply ascii_compare_lt_iff in Exy. apply ascii_compare_lt_iff in Eyz.
    rewrite (proj2 (ascii_compare_lt_iff x z)); [done|]. by transitivity (N_of_ascii y).
Qed.

Lemma str_lt_le (a b : string) : str_lt a b = negb (str_le b a).
Proof.
  unfold str_lt, str_le. rewrite (String.compare_antisym b a).
  by destruct (String.compare a b).
Qed.

#[export] Hint Resolve str_le_refl to_ascii_lowercase_idemp : creg.

(** ** Decimal text of unsigned integers ([format!("{}", n)]) *)
Definition fmt_N (n : N) : string := pretty n.

Definition fmt_bool (b : bool) : string := if b then "true" else "false".

Lemma fmt_bool_inj (a b : bool) : fmt_bool a = fmt_bool b → a = b.
Proof. by destruct a, b. Qed.

(** ** Sorted string lists and [join] *)
Definition sort_strings (l : list string) : list string := sort_by str_le l.

Lemma sort_strings_unique (l1 l2 : list string) :
  l1 ≡ₚ l2 → sort_strings l1 = sort_strings l2.
Proof.
  apply sort_by_unique; [apply str_le_total | apply str_le_trans | apply str_le_antisym].
Qed.

(** A list of non-empty strings without the separator is determined by its
    [join]. *)
Definition joinable (c : ascii) (s : string) : bool := free_of c s && negb (is_empty s).

Lemma join_cons (sep s : string) (l : list string) :
  l ≠ [] → join sep (s :: l) = s +:+ sep +:+ join sep l.
Proof. by destruct l. Qed.

Lemma free_of_app (c : ascii) (a b : string) :
  free_of c (a +:+ b) = free_of c a && free_of c b.
Proof.
  induction a as [|x a IH]; [done|]. rewrite app_cons_str. simpl. rewrite IH.
  by rewrite andb_assoc.
Qed.

Lemma join_inj (c : ascii) (l1 l2 : list string) :
  Forall (λ s, joinable c s = true) l1 → Forall (λ s, joinable c s = true) l2 →
  join (String c "") l1 = join (String c "") l2 → l1 = l2.
Proof.
  unfold joinable. revert l2.
  induction l1 as [|a l1 IH]; intros [|b l2] H1 H2 Heq; [done| | |].
  - apply Forall_cons in H2 as [[_ Hb]%andb_prop _].
    destruct b; [done|]. destruct l2; done.
  - apply Forall_cons in H1 as [[_ Ha]%andb_prop _].
    destruct a; [done|]. destruct l1; done.
  - apply Forall_cons in H1 as [[Ha _]%andb_prop H1], H2 as [[Hb _]%andb_prop H2].
    destruct (decide (l1 = [])) as [->|Hn1], (decide (l2 = [])) as [->|Hn2].
    + simpl in Heq. by subst.
    + exfalso. rewrite (join_cons _ b) in Heq by done. simpl in Heq. subst a.
      rewrite !free_of_app in Ha. simpl in Ha.
      by rewrite Ascii.eqb_refl, andb_false_r in Ha.
    + exfalso. rewrite (join_cons _ a) in Heq by done. simpl in Heq. subst b.
      rewrite !free_of_app in Hb. simpl in Hb.
      by rewrite Ascii.eqb_refl, andb_false_r in Hb.
    + rewrite !join_cons in Heq by done.
      change (String c "" +:+ ?x) with (String c x) in Heq.
      destruct (sep_split_l c a b _ _ Ha Hb Heq) as [-> Hj].
      f_equal. by apply IH.
Qed.

(** ** [str::parse::<uN>()]

    An optional leading [+], then at least one decimal digit, and a value that
    fits the type. *)
Definition digit_of (c : ascii) : option N :=
  let n := N_of_ascii c in
  if ((48 <=? n) && (n <=? 57))%N then Some (n - 48)%N else None.

Fixpoint parse_digits (max acc : N) (s : string) : option N :=
  match s with
  | EmptyString => Some acc
  | String c s' =>
      d ← digit_of c;
      if (acc * 10 + d <=? max)%N then parse_digits max (acc * 10 + d) s' else None
  end.

Definition parse_uint (max : N) (s : string) : option N :=
  match s with
  | EmptyString => None
  | String c s' =>
      if Ascii.eqb c "+" then (if is_empty s' then None else parse_digits max 0 s')
      else parse_digits max 0 s
  end.

Lemma parse_digits_le (max acc n : N) (s : string) :
  (acc ≤ max)%N → parse_digits max acc s = Some n → (n ≤ max)%N.
Proof.
  revert acc. induction s as [|c s IH]; intros acc Hacc; simpl; [by intros [= <-]|].
  destruct (digit_of c) as [d|]; simpl; [|done].
  destruct (N.leb_spec (acc * 10 + d) max); [|done]. by apply IH.
Qed.

Lemma parse_uint_le (max n : N) (s : string) : parse_uint max s = Some n → (n ≤ max)%N.
Proof.
  destruct s as [|c s]; [done|]. unfold parse_uint.
  destruct (Ascii.eqb c "+"); [destruct (is_empty s); [done|]|];
    apply parse_digits_le; apply N.le_0_l.
Qed.

Lemma digit_pretty (d : N) : (d < 10)%N → digit_of (pretty_N_char d) = Some d.
Proof.
  intros Hd. assert (d = 0 ∨ d = 1 ∨ d = 2 ∨ d = 3 ∨ d = 4 ∨ d = 5 ∨ d = 6 ∨ d = 7 ∨ d = 8 ∨ d = 9)%N as Hin by lia.
  by repeat destruct Hin as [->|Hin]; try subst.
Qed.

Lemma parse_pretty (max n : N) (s : string) :
  (0 < n ≤ max)%N → parse_digits max 0 (pretty_N_go n s) = parse_digits max n s.
Proof.
  revert s. induction (N.lt_wf_0 n) as [n _ IH]. intros s [Hn Hm].
  rewrite pretty_N_go_step by lia.
  assert (Hdm : (n = n `div` 10 * 10 + n `mod` 10)%N) by (pose proof (N.div_mod n 10 ltac:(lia)); lia).
  assert (Hd : digit_of (pretty_N_char (n `mod` 10)) = Some (n `mod` 10)%N) by (apply digit_pretty; by apply N.mod_lt).
  assert (Hc : parse_digits max (n `div` 10) (String (pretty_N_char (n `mod` 10)) s) = parse_digits max n s).
  { cbn [parse_digits]. rewrite Hd. cbn. rewrite <- Hdm. by rewrite (proj2 (N.leb_le _ _) Hm). }
  destruct (decide (n `div` 10 = 0)%N) as [H0|H0].
  - rewrite H0, pretty_N_go_0. rewrite <- Hc, H0. done.
  - pose proof (N.div_lt n 10 ltac:(lia) ltac:(lia)) as Hlt. clear Hdm Hd.
    set (q := (n `div` 10)%N) in *. rewrite IH; [done|lia|lia].
Qed.

Lemma pretty_head (n : N) (s : string) : (0 < n)%N → ∃ d t, pretty_N_go n s = String (pretty_N_char d) t.
Proof.
  revert s. induction (N.lt_wf_0 n) as [n _ IH]. intros s Hn. rewrite pretty_N_go_step by lia.
  destruct (decide (n `div` 10 = 0)%N) as [->|H0]; [rewrite pretty_N_go_0; eauto|].
  apply IH; [by apply N.div_lt|by apply N.neq_0_lt_0].
Qed.

Lemma parse_uint_fmt (max n : N) : (n ≤ max)%N → parse_uint max (fmt_N n) = Some n.
Proof.
  intros Hm. unfold fmt_N, pretty, pretty_N. destruct (decide (n = 0)%N) as [->|Hn].
  - by destruct max.
  - destruct (pretty_head n "" ltac:(lia)) as (d & t & Ht). unfold parse_uint. rewrite Ht.
    assert (Ascii.eqb (pretty_N_char d) "+" = false) as ->.
    { unfold pretty_N_char. by repeat case_match. }
    rewrite <- Ht, parse_pretty by lia. done.
Qed.

(** ** Reversed texts *)

Lemma app_nil_r_str (s : string) : s +:+ "" = s.
Proof. induction s as [|a s IH]; [done|]. rewrite app_cons_str. by rewrite IH. Qed.

Lemma rev_app_acc (s t : string) : String.rev_app s t = String.rev s +:+ t.
Proof.
  revert t. induction s as [|a s IH]; intros t; [done|]. unfold String.rev. cbn.
  rewrite IH, (IH (String a "")). by rewrite app_assoc_str.
Qed.

Lemma rev_str_cons (a : ascii) (s : string) : String.rev (String a s) = String.rev s +:+ String a "".
Proof. unfold String.rev at 1. cbn. apply rev_app_acc. Qed.

Lemma rev_str_app (s t : string) : String.rev (s +:+ t) = String.rev t +:+ String.rev s.
Proof.
  induction s as [|a s IH].
  - change (String.rev ("" +:+ t)) with (String.rev t). cbn. by rewrite app_nil_r_str.
  - rewrite app_cons_str, !rev_str_cons, IH. by rewrite app_assoc_str.
Qed.

Lemma rev_str_rev (s : string) : String.rev (String.rev s) = s.
Proof. induction s as [|a s IH]; [done|]. rewrite rev_str_cons, rev_str_app, IH. done. Qed.

(** ** Trimmed texts *)

Lemma strip_prefix_app (p s t r : string) : strip_prefix p s = Some r → strip_prefix p (s +:+ t) = Some (r +:+ t).
Proof. intros Hp. apply strip_prefix_Some in Hp as ->. apply strip_prefix_Some. by rewrite app_assoc_str. Qed.

Lemma strip_one_app (ps : list string) (s t r : string) :
  strip_one ps (s +:+ t) = None → strip_one ps s = Some r → False.
Proof.
  induction ps as [|p ps IH]; cbn; [done|]. destruct (strip_prefix p s) as [r'|] eqn:Hp.
  - by rewrite (strip_prefix_app p s t r' Hp).
  - destruct (strip_prefix p (s +:+ t)); [done|exact IH].
Qed.

Lemma strip_one_shorter (ps : list string) (s r : string) :
  Forall (λ p, p ≠ "") ps → strip_one ps s = Some r → ∃ p, s = p +:+ r ∧ p ≠ "".
Proof.
  induction 1 as [|p ps Hp _ IH]; cbn; [done|].
  destruct (strip_prefix p s) as [r'|] eqn:Hs; [|exact IH]. intros [= <-].
  apply strip_prefix_Some in Hs. by exists p.
Qed.

(** [strip_all] leaves a suffix that no pattern starts. *)
Lemma strip_all_spec (fuel : nat) (ps : list string) (s : string) :
  Forall (λ p, p ≠ "") ps → String.length s ≤ fuel →
  strip_one ps (strip_all fuel ps s) = None ∧ ∃ p, s = p +:+ strip_all fuel ps s.
Proof.
  intros Hps. revert s. induction fuel as [|fuel IH]; intros s Hl; cbn [strip_all].
  - split; [|by exists ""]. destruct s; [|cbn in Hl; lia].
    destruct (strip_one ps "") as [r|] eqn:Hs; [|done]. exfalso.
    destruct (strip_one_shorter _ _ _ Hps Hs) as (p & Hp & Hne). by destruct p.
  - destruct (strip_one ps s) as [r|] eqn:Hs; [|split; [done|by exists ""]].
    destruct (strip_one_shorter _ _ _ Hps Hs) as (p & -> & Hne).
    destruct (IH r) as [Hn [q Hq]].
    { rewrite length_app_str in Hl. destruct p; [done|]. cbn in Hl. lia. }
    split; [done|]. exists (p +:+ q). by rewrite app_assoc_str, <- Hq.
Qed.

Lemma white_space_nonempty : Forall (λ p, p ≠ "") white_space ∧ Forall (λ p, p ≠ "") (String.rev <$> white_space).
Proof. split; repeat constructor; discriminate. Qed.

Lemma length_rev_str (s : string) : String.length (String.rev s) = String.length s.
Proof.
  induction s as [|a s IH]; [done|]. rewrite rev_str_cons, length_app_str, IH. cbn. lia.
Qed.

(** A trimmed text has no white space at its ends, so trimming it again changes nothing. *)
Lemma trim_spec (s : string) :
  strip_one white_space (trim s) = None ∧ strip_one (String.rev <$> white_space) (String.rev (trim s)) = None.
Proof.
  destruct white_space_nonempty as [Hw Hr]. unfold trim, trim_start.
  destruct (strip_all_spec (String.length s) white_space s Hw (le_n _)) as [Hs _].
  set (t := strip_all _ _ s) in *. unfold trim_end.
  destruct (strip_all_spec (String.length t) (String.rev <$> white_space) (String.rev t) Hr) as [He [p Hp]].
  { by rewrite length_rev_str. }
  rewrite rev_str_rev. split; [|done].
  set (u := strip_all _ _ (String.rev t)) in *. apply (f_equal String.rev) in Hp.
  rewrite rev_str_rev, rev_str_app in Hp. rewrite Hp in Hs.
  destruct (strip_one white_space (String.rev u)) as [r|] eqn:Hn; [|done].
  exfalso. by apply (strip_one_app _ _ _ _ Hs Hn).
Qed.

Lemma strip_all_stop (fuel : nat) (ps : list string) (s : string) :
  strip_one ps s = None → strip_all fuel ps s = s.
Proof. intros Hs. destruct fuel; [done|]. cbn. by rewrite Hs. Qed.

Lemma trim_stop (s : string) :
  strip_one white_space s = None → strip_one (String.rev <$> white_space) (String.rev s) = None → trim s = s.
Proof.
  intros Hs He. unfold trim, trim_start, trim_end.
  rewrite (strip_all_stop _ white_space s Hs), (strip_all_stop _ _ _ He). apply rev_str_rev.
Qed.

Lemma trim_idemp (s : string) : trim (trim s) = trim s.
Proof. destruct (trim_spec s). by apply trim_stop. Qed.

(** ** Lines and searching *)

Definition newline : ascii := byte 10.
Definition quote : string := String (byte 34) EmptyString.

(** [s.contains(p)] *)
Fixpoint str_contains (p s : string) : bool :=
  starts_with p s || match s with EmptyString => false | String _ s' => str_contains p s' end.

(** [s.find(p)] *)
Fixpoint find_str (p s : string) : option nat :=
  if starts_with p s then Some 0
  else match s with EmptyString => None | String _ s' => S <$> find_str p s' end.

(** [s.ends_with(p)] *)
Definition ends_with (p s : string) : bool := starts_with (String.rev p) (String.rev s).

(** [&s[n..]] and [&s[..n]], at the boundary of a character. *)
Fixpoint drop_str (n : nat) (s : string) : string :=
  match n, s with
  | O, _ => s
  | S n', EmptyString => EmptyString
  | S n', String _ s' => drop_str n' s'
  end.

Fixpoint take_str (n : nat) (s : string) : string :=
  match n, s with
  | O, _ | _, EmptyString => EmptyString
  | S n', String c s' => String c (take_str n' s')
  end.

(** [s.chars().take_while(p).collect()], for ASCII characters. *)
Fixpoint take_while (p : ascii → bool) (s : string) : string :=
  match s with
  | EmptyString => EmptyString
  | String c s' => if p c then String c (take_while p s') else EmptyString
  end.

(** [s.split(c)] *)
Fixpoint split_on (c : ascii) (acc s : string) : list string :=
  match s with
  | EmptyString => [acc]
  | String a s' => if Ascii.eqb a c then acc :: split_on c EmptyString s' else split_on c (acc +:+ String a EmptyString) s'
  end.

Definition split (c : ascii) (s : string) : list string := split_on c EmptyString s.

(** [c.is_ascii_digit()], [c.is_ascii_hexdigit()], [c.is_ascii_control()] *)
Definition is_digit (c : ascii) : bool := ((48 <=? N_of_ascii c) && (N_of_ascii c <=? 57))%N.

Definition is_hexdigit (c : ascii) : bool :=
  let n := N_of_ascii c in
  is_digit c || ((65 <=? n) && (n <=? 70))%N || ((97 <=? n) && (n <=? 102))%N.

Definition is_control (c : ascii) : bool := ((N_of_ascii c <? 32) || (N_of_ascii c =? 127))%N.

Fixpoint drop_cr (s : string) : string :=
  match s with
  | EmptyString => EmptyString
  | String c EmptyString => if Ascii.eqb c (byte 13) then EmptyString else s
  | String c s' => String c (drop_cr s')
  end.

(** [s.lines()]: the pieces between line feeds, [acc] the one being read; a carriage
    return before a line feed is dropped, and so is an empty piece at the end. *)
Fixpoint split_lines (acc s : string) : list string :=
  match s with
  | EmptyString => if is_empty acc then [] else [acc]
  | String c s' =>
      if Ascii.eqb c newline then drop_cr acc :: split_lines EmptyString s'
      else split_lines (acc +:+ String c EmptyString) s'
  end.

Definition lines (s : string) : list string := split_lines EmptyString s.

Lemma starts_with_cons (a b : ascii) (p s : string) :
  starts_with (String a p) (String b s) = Ascii.eqb a b && starts_with p s.
Proof. unfold starts_with. cbn. by destruct (Ascii.eqb a b). Qed.

Lemma starts_with_line (p a b : string) :
  free_of newline p = true → starts_with p (a +:+ String newline b) = starts_with p a.
Proof.
  revert a. induction p as [|x p IH]; intros a Hp; [done|].
  apply free_of_cons in Hp as [Hx Hp]. destruct a as [|y a].
  - change ("" +:+ String newline b) with (String newline b). rewrite starts_with_cons.
    by rewrite (proj2 (Ascii.eqb_neq _ _)).
  - rewrite app_cons_str, !starts_with_cons. by rewrite IH.
Qed.

(** A pattern without line feeds is found in a text exactly when it is found before or after
    a line feed of the text. *)
Lemma str_contains_line (p a b : string) :
  p ≠ "" → free_of newline p = true →
  str_contains p (a +:+ String newline b) = str_contains p a || str_contains p b.
Proof.
  intros Hne Hp. induction a as [|x a IH].
  - change ("" +:+ String newline b) with (String newline b). cbn [str_contains].
    assert (starts_with p (String newline b) = false) as ->.
    { destruct p as [|y p]; [done|]. apply free_of_cons in Hp as [Hy _]. rewrite starts_with_cons.
      by rewrite (proj2 (Ascii.eqb_neq _ _)). }
    by destruct p.
  - rewrite app_cons_str. cbn [str_contains]. rewrite <- app_cons_str, starts_with_line, IH by done.
    by rewrite orb_assoc.
Qed.

Lemma split_lines_line (acc a b : string) :
  free_of newline a = true →
  split_lines acc (a +:+ String newline b) = drop_cr (acc +:+ a) :: split_lines "" b.
Proof.
  revert acc. induction a as [|x a IH]; intros acc Ha.
  - cbn. by rewrite app_nil_r_str.
  - apply free_of_cons in Ha as [Hx Ha]. rewrite app_cons_str. cbn [split_lines].
    rewrite (proj2 (Ascii.eqb_neq _ _)) by done. rewrite IH by done. by rewrite app_assoc_str.
Qed.

Lemma drop_cr_end (s : string) (a : ascii) : a ≠ byte 13 → drop_cr (s +:+ String a "") = s +:+ String a "".
Proof.
  intros Ha. induction s as [|x s IH].
  - change ("" +:+ String a "") with (String a ""). cbn [drop_cr]. by rewrite (proj2 (Ascii.eqb_neq _ _)).
  - rewrite app_cons_str. cbn [drop_cr]. rewrite IH. by destruct s.
Qed.

Lemma str_contains_app_l (p q s : string) : str_contains (p +:+ q) s = true → str_contains p s = true.
Proof.
  induction s as [|c s IH]; cbn [str_contains]; intros H1.
  - rewrite orb_false_r in *. apply starts_with_app in H1 as [r Hr]. destruct p; [done|]. by rewrite app_cons_str in Hr.
  - apply orb_true_iff in H1 as [H1|H1]; apply orb_true_iff; [left|right; by apply IH].
    apply starts_with_app in H1 as [r Hr]. apply starts_with_app. exists (q +:+ r). by rewrite Hr, app_assoc_str.
Qed.

Lemma ends_with_app (p s : string) : ends_with p s = true ↔ ∃ r, s = r +:+ p.
Proof.
  unfold ends_with. rewrite starts_with_app. split; intros [r Hr].
  - exists (String.rev r). apply (f_equal String.rev) in Hr. by rewrite rev_str_rev, rev_str_app, rev_str_rev in Hr.
  - exists (String.rev r). by rewrite Hr, rev_str_app.
Qed.

Lemma existsb_elem {A : Type} (f : A → bool) (l : list A) : existsb f l = true ↔ ∃ x, x ∈ l ∧ f x = true.
Proof. rewrite existsb_exists. by setoid_rewrite <- list_elem_of_In. Qed.

(** ** Lists of texts and paths *)

(** [if !l.contains(&x) { l.push(x) }] *)
Definition push_new (l : list string) (x : string) : list string := if bool_decide (x ∈ l) then l else l ++ [x].

Lemma elem_of_push_new (l : list string) (x y : string) : y ∈ push_new l x ↔ y ∈ l ∨ y = x.
Proof. unfold push_new. case_bool_decide; set_solver. Qed.

Lemma foldl_push_new (l k : list string) (y : string) : y ∈ foldl push_new l k ↔ y ∈ l ∨ y ∈ k.
Proof.
  revert l. induction k as [|x k IH]; intros l; cbn [foldl]; [set_solver|]. rewrite IH, elem_of_push_new. set_solver.
Qed.

Lemma foldl_push_new_prefix (l k : list string) : l `prefix_of` foldl push_new l k.
Proof.
  revert l. induction k as [|x k IH]; intros l; cbn [foldl]; [done|]. etransitivity; [|apply IH].
  unfold push_new. case_bool_decide; [done|]. by eexists.
Qed.

Lemma foldl_push_new_NoDup (l k : list string) : NoDup l → NoDup (foldl push_new l k).
Proof.
  revert l. induction k as [|x k IH]; intros l Hl; cbn [foldl]; [done|]. apply IH. unfold push_new.
  case_bool_decide; [done|]. apply NoDup_app. split; [done|]. split; [set_solver|apply NoDup_singleton].
Qed.

(** The standard library: [str::to_lowercase], [parse::<IpAddr>().is_ok()] and the [{:?}] of a
    vector of strings, which need the tables of Unicode or the grammar of addresses. *)
Class Std := {
  to_lowercase : string → string;
  is_ip_addr : string → bool;
  debug_strings : list string → string;
}.

(** [Path::new(s).file_name()], empty when there is none. *)
Definition file_name (s : string) : string :=
  match last (filter (λ c, c ≠ "" ∧ c ≠ ".") (split "/" s)) with
  | Some c => if String.eqb c ".." then "" else c
  | None => ""
  end.

(** [Path::new(s).extension()], empty when there is none. *)
Definition extension (s : string) : string :=
  match rev (split "." (file_name s)) with
  | _ :: [] | [_; ""] | [] => ""
  | ext :: _ => ext
  end.

(** ** Binary texts of numbers, without a limit, for instances of text formats *)
Fixpoint bits (p : positive) : string :=
  match p with xH => "" | xO p' => String "0" (bits p') | xI p' => String "1" (bits p') end.

Fixpoint unbits (s : string) : positive :=
  match s with EmptyString => xH | String c s' => if Ascii.eqb c "0" then xO (unbits s') else xI (unbits s') end.

Lemma unbits_of_bits (p : positive) : unbits (bits p) = p.
Proof. induction p as [p IH|p IH|]; cbn; by rewrite ?IH. Qed.

(** ** Splitting at a separator *)

(** [s.split_once(c)] *)
Fixpoint split_once (c : ascii) (s : string) : option (string * string) :=
  match s with
  | EmptyString => None
  | String a s' =>
      if Ascii.eqb a c then Some (EmptyString, s')
      else '(l, r) ← split_once c s'; Some (String a l, r)
  end.

(** [s.rsplit_once(c)] *)
Fixpoint rsplit_once (c : ascii) (s : string) : option (string * string) :=
  match s with
  | EmptyString => None
  | String a s' =>
      match rsplit_once c s' with
      | Some (l, r) => Some (String a l, r)
      | None => if Ascii.eqb a c then Some (EmptyString, s') else None
      end
  end.

Lemma split_once_app (c : ascii) (a b : string) : free_of c a = true → split_once c (a +:+ String c b) = Some (a, b).
Proof.
  induction a as [|x a IH]; simpl; [by rewrite Ascii.eqb_refl|].
  intros [Hx Ha]%(free_of_cons c x). apply Ascii.eqb_neq in Hx as ->. by rewrite IH.
Qed.

Lemma split_once_Some (c : ascii) (s a b : string) :
  split_once c s = Some (a, b) → s = a +:+ String c b ∧ free_of c a = true.
Proof.
  revert a. induction s as [|x s IH]; intros a; cbn [split_once]; [done|].
  destruct (Ascii.eqb_spec x c) as [->|Hx]; [by intros [= <- <-]|].
  destruct (split_once c s) as [[l r]|]; [|done]. intros [= <- <-].
  destruct (IH l eq_refl) as [-> Hl]. split; [done|]. cbn [free_of]. by apply Ascii.eqb_neq in Hx as ->.
Qed.

Lemma rsplit_once_free (c : ascii) (s : string) : free_of c s = true ↔ rsplit_once c s = None.
Proof.
  induction s as [|x s IH]; [done|]. cbn [rsplit_once]. split.
  - intros [Hx Hs]%free_of_cons. rewrite (proj1 IH Hs). by apply Ascii.eqb_neq in Hx as ->.
  - destruct (rsplit_once c s) as [[l r]|]; [done|]. cbn [free_of]. destruct (Ascii.eqb x c); [done|]. intros _. by apply IH.
Qed.

Lemma rsplit_once_app (c : ascii) (a b : string) : free_of c b = true → rsplit_once c (a +:+ String c b) = Some (a, b).
Proof.
  intros Hb. induction a as [|x a IH]; simpl.
  - by rewrite (proj1 (rsplit_once_free c b) Hb), Ascii.eqb_refl.
  - by rewrite IH.
Qed.

Lemma rsplit_once_Some (c : ascii) (s a b : string) :
  rsplit_once c s = Some (a, b) → s = a +:+ String c b ∧ free_of c b = true.
Proof.
  revert a. induction s as [|x s IH]; intros a; cbn [rsplit_once]; [done|].
  destruct (rsplit_once c s) as [[l r]|] eqn:Hs.
  - intros [= <- <-]. destruct (IH l eq_refl) as [-> Hr]. done.
  - destruct (Ascii.eqb_spec x c) as [->|]; [|done]. intros [= <- <-]. split; [done|]. by apply rsplit_once_free.
Qed.
