(* ===== verification/Crypto.v ===== *)
(** The cryptographic libraries of the registry, as an interface.

    SHA-256 ([sha2]), hexadecimal text ([hex]) and Ed25519 ([ed25519_dalek]) are
    third-party crates: the model is parametric in them through the class
    [Crypto].  What the registry relies on about them is the class
    [CryptoLaws]; a theorem that needs it names it as a hypothesis, and the
    stand-in instance at the end of the file (an executable toy scheme) shows
    that the laws can hold and makes the definitions of the development
    computable in the witnesses. *)

From S2P Require Import Prelude Text.
From Stdlib Require Import Ascii NArith.


Class Crypto := {
  sha256 : string → string;                       (* Sha256::digest, raw bytes *)
  hex_encode : string → string;                   (* hex::encode *)
  hex_decode : string → option string;            (* hex::decode(..).ok() *)
  VerifyingKey : Type;
  Signature : Type;
  SigningKey : Type;
  vk_try_from : string → option VerifyingKey;     (* VerifyingKey::try_from(bytes).ok() *)
  sig_try_from : string → option Signature;       (* Signature::try_from(bytes).ok() *)
  sk_try_from : string → option SigningKey;       (* SigningKey::try_from / from_bytes *)
  sk_verifying_key : SigningKey → VerifyingKey;   (* sk.verifying_key() *)
  vk_bytes : VerifyingKey → string;               (* vk.as_bytes() *)
  sig_bytes : Signature → string;                 (* sig.to_bytes() *)
  sign : SigningKey → string → Signature;         (* sk.sign(msg) *)
  verify : VerifyingKey → string → Signature → bool;  (* vk.verify(msg, &sig).is_ok() *)
}.

(** Documented behaviour of the crates. *)
Class CryptoLaws `{Crypto} : Prop := {
  sha256_length : ∀ d, String.length (sha256 d) = 32;
  hex_length : ∀ b, String.length (hex_encode b) = 2 * String.length b;
  hex_roundtrip : ∀ b, hex_decode (hex_encode b) = Some b;
  sig_roundtrip : ∀ s, sig_try_from (sig_bytes s) = Some s;
  vk_roundtrip : ∀ k, vk_try_from (vk_bytes k) = Some k;
  sign_verify : ∀ sk m, verify (sk_verifying_key sk) m (sign sk m) = true;
}.

(** [common::sha256_hex] *)
Definition sha256_hex `{Crypto} (data : string) : string := hex_encode (sha256 data).

Lemma sha256_hex_decode `{CryptoLaws} (d : string) :
  hex_decode (sha256_hex d) = Some (sha256 d).
Proof. apply hex_roundtrip. Qed.

Lemma sha256_hex_length `{CryptoLaws} (d : string) : String.length (sha256_hex d) = 64.
Proof. unfold sha256_hex. by rewrite hex_length, sha256_length. Qed.

#[export] Hint Resolve @sha256_hex_length @sha256_hex_decode : creg.

(** Two different byte strings with the same [sha256_hex]: what a theorem that
    would otherwise need collision resistance exhibits instead. *)
Definition collision `{Crypto} : Prop :=
  ∃ a b, a ≠ b ∧ sha256_hex a = sha256_hex b.

(** A collision between an input of one list and one of another: between what two computations
    hashed.  Digests are short, so that some collision exists; that one of these is known is
    another matter. *)
Definition collision_in `{Crypto} (inputs1 inputs2 : list string) : Prop :=
  ∃ a b, a ∈ inputs1 ∧ b ∈ inputs2 ∧ a ≠ b ∧ sha256_hex a = sha256_hex b.

Lemma collision_in_weaken `{Crypto} (i1 i2 j1 j2 : list string) :
  i1 ⊆ j1 → i2 ⊆ j2 → collision_in i1 i2 → collision_in j1 j2.
Proof. intros H1 H2 (a & b & Ha & Hb & Hab). exists a, b. auto. Qed.

(** ** A stand-in instance

    Executable and lawful; it is not secure and is used by witnesses only. *)
Module Toy.

Definition nibble (n : N) : ascii :=
  if (n <? 10)%N then byte (48 + n) else byte (87 + n).

Definition unnibble (c : ascii) : option N :=
  let n := N_of_ascii c in
  if ((48 <=? n) && (n <=? 57))%N then Some (n - 48)%N
  else if ((97 <=? n) && (n <=? 102))%N then Some (n - 87)%N
  else if ((65 <=? n) && (n <=? 70))%N then Some (n - 55)%N
  else None.

Fixpoint encode (s : string) : string :=
  match s with
  | EmptyString => EmptyString
  | String c s' =>
      String (nibble (N_of_ascii c / 16)) (String (nibble (N_of_ascii c mod 16)) (encode s'))
  end.

Fixpoint decode (s : string) : option string :=
  match s with
  | EmptyString => Some EmptyString
  | String _ EmptyString => None
  | String a (String b s') =>
      hi ← unnibble a; lo ← unnibble b; rest ← decode s';
      Some (String (byte (hi * 16 + lo)) rest)
  end.

(** Exactly [n] bytes: cut, or padded with zero bytes. *)
Fixpoint fit (n : nat) (s : string) : string :=
  match n with
  | O => EmptyString
  | S n' =>
      match s with
      | EmptyString => String (byte 0) (fit n' EmptyString)
      | String c s' => String c (fit n' s')
      end
  end.

(** A rolling checksum in front of the first bytes, to tell inputs apart. *)
Fixpoint roll (acc : N) (s : string) : N :=
  match s with
  | EmptyString => acc
  | String c s' => roll (N.land (257 * acc + N_of_ascii c + 1) 1099511627775) s'
  end.

Fixpoint le_bytes (n : nat) (v : N) : string :=
  match n with
  | O => EmptyString
  | S n' => String (byte (v mod 256)) (le_bytes n' (v / 256))
  end.

Definition digest (s : string) : string := fit 32 (le_bytes 8 (roll 7 s) +:+ s).

Definition keyed (n : nat) (s : string) : option string :=
  if bool_decide (String.length s = n) then Some s else None.

Lemma length_fit (n : nat) (s : string) : String.length (fit n s) = n.
Proof. revert s. induction n as [|n IH]; intros [|c s]; simpl; auto. Qed.

Lemma decode_encode_byte (c : ascii) :
  unnibble (nibble (N_of_ascii c / 16)) = Some (N_of_ascii c / 16)%N ∧
  unnibble (nibble (N_of_ascii c mod 16)) = Some (N_of_ascii c mod 16)%N ∧
  byte (N_of_ascii c / 16 * 16 + N_of_ascii c mod 16) = c.
Proof. destruct c as [[] [] [] [] [] [] [] []]; by vm_compute. Qed.

Lemma length_encode (s : string) : String.length (encode s) = 2 * String.length s.
Proof. induction s as [|c s IH]; [done|]. simpl. rewrite IH. lia. Qed.

Lemma decode_encode (s : string) : decode (encode s) = Some s.
Proof.
  induction s as [|c s IH]; [done|]. cbn [encode decode].
  destruct (decode_encode_byte c) as (-> & -> & Hc). simpl. rewrite IH. simpl.
  by rewrite Hc.
Qed.

#[export] Instance toy_crypto : Crypto := {|
  sha256 := digest;
  hex_encode := encode;
  hex_decode := decode;
  VerifyingKey := string;
  Signature := string;
  SigningKey := string;
  vk_try_from := fun s => Some s;
  sig_try_from := fun s => Some s;
  sk_try_from := keyed 32;
  sk_verifying_key := fun sk => sk;
  vk_bytes := fun k => k;
  sig_bytes := fun s => s;
  sign := fun sk m => sk +:+ digest m;
  verify := fun vk m s => String.eqb s (vk +:+ digest m);
|}.

#[export] Instance toy_crypto_laws : CryptoLaws.
Proof.
  split; try done.
  - intros d. apply length_fit.
  - apply length_encode.
  - apply decode_encode.
  - intros sk m. apply String.eqb_refl.
Qed.

End Toy.
