(* ===== verification/Types.v ===== *)
(** The data model of crate [common]: packages, votes, chain records, blocks,
    transactions, validators and verdicts ([crates/common/src/package.rs],
    [block.rs], [verdict.rs], [lib.rs]), with the string formats that identify
    and sign them.

    Timestamps ([DateTime<Utc>]) are [Z]; [serde_json] is a third-party crate,
    a parameter of the model through the class [Serde]. *)

From S2P Require Import Prelude Text Crypto.
From Stdlib Require Import Ascii.


(** ** package.rs *)

Inductive FindingSeverity := Critical | High | Medium | Low.

Record Finding := {
  finding_id : string;
  finding_title : string;
  finding_severity : FindingSeverity;
  finding_description : string;
  finding_file : string;
  finding_line : option N;
}.

Record PackageId := {
  ecosystem : string;
  name : string;
  version : string;
}.

(** [PackageId::canonical] *)
Definition canonical (id : PackageId) : string :=
  ecosystem id +:+ ":" +:+ name id +:+ "@" +:+ version id.

Definition canonical_publisher_address (publisher_address : string) : string :=
  let trimmed := trim publisher_address in
  if is_empty trimmed then ""
  else
    let stripped := default trimmed (strip_prefix "0x" trimmed) in
    "0x" +:+ to_ascii_lowercase stripped.

Definition publish_signature_message
    (id : PackageId) (content_hash publisher_address : string) : string :=
  canonical id +:+ content_hash +:+ canonical_publisher_address publisher_address.

Record PackageManifest := {
  allowed_network_hosts : list string;
  allowed_fs_writes : list string;
  spawns_processes : bool;
  allowed_process_spawns : list string;
  description : option string;
}.

Record PublishRequest := {
  req_id : PackageId;
  req_content_hash : string;
  req_ipfs_cid : string;
  req_publisher_address : string;
  req_publisher_pubkey : string;
  req_signature : string;
  req_manifest : PackageManifest;
  req_submitted_at : Z;
  req_shielded : bool;
  req_key_bundle : option string;
  req_pgp_signature : option string;
  req_pgp_public_key : option string;
  req_threshold : nat;
  req_publisher_pubkeys : list string;
  req_signatures : list string;
}.

Record AnalysisBundleRefs := {
  policy_bundle_id : string;
  feature_schema_id : string;
  expert_bundle_id : string;
  embedding_model_id : string;
  index_epoch : string;
  threshold_profile_id : string;
  llm_prompt_profile_id : string;
  osv_snapshot_epoch : string;
}.

Definition default_osv_snapshot_epoch : string := "osv-off".

(** [impl Default for AnalysisBundleRefs] *)
Definition default_bundles : AnalysisBundleRefs := {|
  policy_bundle_id := "";
  feature_schema_id := "";
  expert_bundle_id := "";
  embedding_model_id := "";
  index_epoch := "";
  threshold_profile_id := "";
  llm_prompt_profile_id := "";
  osv_snapshot_epoch := default_osv_snapshot_epoch;
|}.

Definition effective_osv_snapshot_epoch (b : AnalysisBundleRefs) : string :=
  let trimmed := trim (osv_snapshot_epoch b) in
  if is_empty trimmed then default_osv_snapshot_epoch else trimmed.

Definition is_consensus_complete (b : AnalysisBundleRefs) : bool :=
  forallb (λ value, negb (is_empty (trim value)))
    [policy_bundle_id b; feature_schema_id b; expert_bundle_id b;
     embedding_model_id b; index_epoch b; threshold_profile_id b;
     llm_prompt_profile_id b]
  && negb (is_empty (trim (effective_osv_snapshot_epoch b))).

Definition scanner_profile_digest `{Crypto}
    (scanner_version : string) (b : AnalysisBundleRefs) : string :=
  sha256_hex
    ("creg-scanner-profile-v1|scanner=" +:+ trim scanner_version
     +:+ "|policy=" +:+ trim (policy_bundle_id b)
     +:+ "|features=" +:+ trim (feature_schema_id b)
     +:+ "|experts=" +:+ trim (expert_bundle_id b)
     +:+ "|embedding=" +:+ trim (embedding_model_id b)
     +:+ "|index=" +:+ trim (index_epoch b)
     +:+ "|thresholds=" +:+ trim (threshold_profile_id b)
     +:+ "|llm_prompt=" +:+ trim (llm_prompt_profile_id b)
     +:+ "|osv=" +:+ trim (effective_osv_snapshot_epoch b)).

Definition is_consensus_grade_vote
    (scanner_version : string) (b : AnalysisBundleRefs) (evidence_digest : string) : bool :=
  negb (starts_with "degraded" (trim scanner_version))
  && is_consensus_complete b
  && negb (is_empty (trim evidence_digest)).

Record DeterministicRiskSummary := {
  drs_score : N;
  drs_deterministic_score : N;
  drs_advisory_score : N;
  drs_band : string;
  drs_disposition : string;
  drs_deterministic_findings : nat;
  drs_advisory_findings : nat;
  drs_critical_findings : nat;
  drs_high_findings : nat;
  drs_medium_findings : nat;
  drs_low_findings : nat;
  drs_reasons : list string;
}.

(** [#[derive(Default)]] *)
Definition default_risk : DeterministicRiskSummary := {|
  drs_score := 0; drs_deterministic_score := 0; drs_advisory_score := 0;
  drs_band := ""; drs_disposition := "";
  drs_deterministic_findings := 0; drs_advisory_findings := 0;
  drs_critical_findings := 0; drs_high_findings := 0;
  drs_medium_findings := 0; drs_low_findings := 0; drs_reasons := [];
|}.

Inductive PackageStatus :=
| Verified
| Pending
| Revoked (reason : string).

Inductive ValidatorVote :=
| Approve
| Reject (reason : string).

Record ValidatorSignature := {
  vs_validator_id : string;
  vs_validator_pubkey : string;
  vs_signature : string;
  vs_vote : ValidatorVote;
  vs_signed_at : Z;
  vs_ml_model_version : string;
  vs_analysis_bundles : AnalysisBundleRefs;
  vs_evidence_digest : string;
  vs_deterministic_risk : DeterministicRiskSummary;
}.

Record ChainRecord := {
  rec_id : PackageId;
  rec_content_hash : string;
  rec_ipfs_cid : string;
  rec_publisher_pubkey : string;
  rec_block_hash : string;
  rec_published_at : Z;
  rec_validator_signatures : list ValidatorSignature;
  rec_status : PackageStatus;
  rec_shielded : bool;
  rec_key_bundle : option string;
  rec_pgp_fingerprint : option string;
  rec_findings : list Finding;
  rec_analysis_bundles : AnalysisBundleRefs;
  rec_evidence_digest : string;
  rec_deterministic_risk : DeterministicRiskSummary;
  rec_access_count : N;
  rec_last_accessed : option Z;
  rec_threshold : nat;
  rec_publisher_pubkeys : list string;
  rec_manifest : option PackageManifest;
}.

(** ** block.rs *)

Record BlockHeader := {
  height : N;
  prev_hash : string;
  header_merkle_root : string;
  proposer_id : string;
  timestamp : Z;
  validator_set_hash : string;
  vrf_output : option string;
  vrf_proof : option string;
}.

Record BlockSignature := {
  bs_validator_id : string;
  bs_pubkey : string;
  bs_signature : string;
}.

Inductive Transaction :=
| Publish (record : ChainRecord)
| Revoke (package_canonical reason revoked_by evidence_hash : string)
| Slash (validator_id : string) (amount : N) (reason : string)
| ValidatorJoin (validator_id pubkey : string) (stake : N)
| ValidatorLeave (validator_id : string)
| RotatePublisherKey (canonical_prefix old_pubkey new_pubkey sig_from_old sig_from_new : string)
    (timestamp : Z) (nonce : N).

Record Block := {
  header : BlockHeader;
  transactions : list Transaction;
  pbft_signatures : list BlockSignature;
}.

(** [serde_json::to_vec] on the hashed types; the source [expect]s success. *)
Class Serde := {
  header_json : BlockHeader → string;
  tx_json : Transaction → string;
}.

(** [Block::hash] *)
Definition header_hash `{Crypto, Serde} (h : BlockHeader) : string :=
  sha256_hex (header_json h).

Definition block_hash `{Crypto, Serde} (b : Block) : string := header_hash (header b).

(** [Block::genesis]; the timestamp is 2024-01-01T00:00:00Z in nanoseconds. *)
Definition genesis : Block := {|
  header := {|
    height := 0;
    prev_hash := repeat_str "0" 64;
    header_merkle_root := repeat_str "0" 64;
    proposer_id := "genesis";
    timestamp := 1704067200000000000;
    validator_set_hash := repeat_str "0" 64;
    vrf_output := None;
    vrf_proof := None;
  |};
  transactions := [];
  pbft_signatures := [];
|}.

(** ** lib.rs *)

Record ValidatorIdentity := {
  evm_address : string;
  node_id : string;
  ed25519_pubkey : string;
}.

Definition normalized (i : ValidatorIdentity) : ValidatorIdentity := {|
  evm_address := to_ascii_lowercase (trim (evm_address i));
  node_id := trim (node_id i);
  ed25519_pubkey := to_ascii_lowercase (trim (ed25519_pubkey i));
|}.

Definition is_complete (i : ValidatorIdentity) : bool :=
  negb (is_empty (trim (evm_address i)))
  && negb (is_empty (trim (node_id i)))
  && negb (is_empty (trim (ed25519_pubkey i))).

(** [common::Validator]; [common::ValidatorSet] is the list of them. *)
Record Validator := {
  val_id : string;
  val_alias : string;
  val_pubkey : string;
  val_eth_address : string;
  val_stake : N;
  val_reputation : N;
  val_status : string;
}.

Record CommonValidatorSet := { validators : list Validator }.

(** ** verdict.rs *)

Inductive VerdictStatus :=
| VVerified (block_hash content_hash ipfs_cid : string) (findings : list Finding)
| VUnverified
| VRevoked (reason : string) (findings : list Finding)
| VUnknown.

Definition is_safe (v : VerdictStatus) : bool :=
  match v with
  | VVerified _ _ _ _ => true
  | _ => false
  end.

Definition is_blocked (v : VerdictStatus) : bool :=
  match v with
  | VRevoked _ _ => true
  | _ => false
  end.

Definition label (v : VerdictStatus) : string :=
  match v with
  | VVerified _ _ _ _ => "VERIFIED"
  | VUnverified => "UNVERIFIED"
  | VRevoked _ _ => "REVOKED"
  | VUnknown => "UNKNOWN"
  end.

(** ** Decidable equality *)
#[export] Instance FindingSeverity_eq_dec : EqDecision FindingSeverity.
Proof. solve_decision. Defined.
#[export] Instance Finding_eq_dec : EqDecision Finding.
Proof. solve_decision. Defined.
#[export] Instance PackageId_eq_dec : EqDecision PackageId.
Proof. solve_decision. Defined.
#[export] Instance PackageManifest_eq_dec : EqDecision PackageManifest.
Proof. solve_decision. Defined.
#[export] Instance PublishRequest_eq_dec : EqDecision PublishRequest.
Proof. solve_decision. Defined.
#[export] Instance AnalysisBundleRefs_eq_dec : EqDecision AnalysisBundleRefs.
Proof. solve_decision. Defined.
#[export] Instance DeterministicRiskSummary_eq_dec : EqDecision DeterministicRiskSummary.
Proof. solve_decision. Defined.
#[export] Instance PackageStatus_eq_dec : EqDecision PackageStatus.
Proof. solve_decision. Defined.
#[export] Instance ValidatorVote_eq_dec : EqDecision ValidatorVote.
Proof. solve_decision. Defined.
#[export] Instance ValidatorSignature_eq_dec : EqDecision ValidatorSignature.
Proof. solve_decision. Defined.
#[export] Instance ChainRecord_eq_dec : EqDecision ChainRecord.
Proof. solve_decision. Defined.
#[export] Instance BlockHeader_eq_dec : EqDecision BlockHeader.
Proof. solve_decision. Defined.
#[export] Instance BlockSignature_eq_dec : EqDecision BlockSignature.
Proof. solve_decision. Defined.
#[export] Instance Transaction_eq_dec : EqDecision Transaction.
Proof. solve_decision. Defined.
#[export] Instance Block_eq_dec : EqDecision Block.
Proof. solve_decision. Defined.
#[export] Instance Validator_eq_dec : EqDecision Validator.
Proof. solve_decision. Defined.

(** A stand-in serialisation for the witnesses. *)
Module ToySerde.

Definition field (s : string) : string := s +:+ ";".
Definition opt_field (o : option string) : string :=
  match o with
  | Some s => "+" +:+ field s
  | None => "-;"
  end.

Definition tx_text (t : Transaction) : string :=
  match t with
  | Publish r => "publish;" +:+ field (canonical (rec_id r)) +:+ field (rec_content_hash r)
  | Revoke c r b e => "revoke;" +:+ field c +:+ field r +:+ field b +:+ field e
  | Slash v a r => "slash;" +:+ field v +:+ field (fmt_N a) +:+ field r
  | ValidatorJoin v p s => "join;" +:+ field v +:+ field p +:+ field (fmt_N s)
  | ValidatorLeave v => "leave;" +:+ field v
  | RotatePublisherKey c o n so sn _ k =>
      "rotate;" +:+ field c +:+ field o +:+ field n +:+ field so +:+ field sn +:+ field (fmt_N k)
  end.

#[export] Instance toy_serde : Serde := {|
  header_json := fun h =>
    field (fmt_N (height h)) +:+ field (prev_hash h) +:+ field (header_merkle_root h)
    +:+ field (proposer_id h) +:+ field (validator_set_hash h)
    +:+ opt_field (vrf_output h) +:+ opt_field (vrf_proof h);
  tx_json := tx_text;
|}.

End ToySerde.

(** ** The signed and indexed strings *)

(** An identifier whose [canonical] form can be read back: no [:] in the
    ecosystem and no [@] in the version (a scoped npm name may contain [@]). *)
Definition separable (id : PackageId) : bool :=
  free_of ":" (ecosystem id) && free_of "@" (version id).

Lemma canonical_separable_inj (a b : PackageId) :
  separable a = true → separable b = true → canonical a = canonical b → a = b.
Proof.
  unfold separable. intros [Ha1 Ha2]%andb_prop [Hb1 Hb2]%andb_prop Heq.
  unfold canonical in Heq.
  change (":" +:+ ?x) with (String ":" x) in Heq.
  destruct (sep_split_l _ _ _ _ _ Ha1 Hb1 Heq) as [He Hrest].
  change (name a +:+ String "@" (version a) = name b +:+ String "@" (version b)) in Hrest.
  destruct (sep_split_r _ _ _ _ _ Ha2 Hb2 Hrest) as [Hn Hv].
  destruct a, b. simpl in *. by subst.
Qed.

(** The canonical identifier [ecosystem:name@version], used as the key of the
    package index, the pending pool and the vote rounds, identifies a package:
    two identifiers whose ecosystem has no [:] and whose version has no [@] have
    the same canonical string only when they are equal. *)
Theorem canonical_identifies_package (a b : PackageId) :
  separable a = true → separable b = true →
  canonical a = canonical b ↔ a = b.
Proof.
  intros Ha Hb. split; [by apply canonical_separable_inj | by intros ->].
Qed.

Lemma canonical_identifies_package_witness :
  let a := {| ecosystem := "npm"; name := "@scope/pkg"; version := "1.0.0" |} in
  let b := {| ecosystem := "npm"; name := "@scope/pkg"; version := "1.0.1" |} in
  separable a = true ∧ separable b = true ∧ (canonical a = canonical b ↔ a = b).
Proof.
  intros a b. split; [reflexivity|]. split; [reflexivity|].
  apply (canonical_identifies_package a b); reflexivity.
Defined.

(** A publish signature binds the package, its content and the publisher's
    address: with content hashes of one length and address forms of one length
    (64 hex digits and [0x] plus 40 in the deployed format), two requests share a
    signed message only if they agree on all three. *)
Theorem publish_message_binds (a b : PackageId) (ha hb pa pb : string) :
  separable a = true → separable b = true →
  String.length ha = String.length hb →
  String.length (canonical_publisher_address pa)
    = String.length (canonical_publisher_address pb) →
  publish_signature_message a ha pa = publish_signature_message b hb pb →
  a = b ∧ ha = hb ∧ canonical_publisher_address pa = canonical_publisher_address pb.
Proof.
  unfold publish_signature_message. intros Ha Hb Hh Hp Heq.
  rewrite <- !app_assoc_str in Heq.
  destruct (app_inj_len_r _ _ _ _ Hp Heq) as [Heq' Hpp].
  destruct (app_inj_len_r _ _ _ _ Hh Heq') as [Hc Hhh].
  split; [by apply canonical_separable_inj|]. done.
Qed.

Lemma publish_message_binds_witness :
  let a := {| ecosystem := "npm"; name := "pkg"; version := "1.0.0" |} in
  separable a = true ∧ a = a ∧ "aa" = "aa"
  ∧ canonical_publisher_address " 0xAB " = canonical_publisher_address "0xab".
Proof.
  intros a. split; [reflexivity|].
  apply (publish_message_binds a a "aa" "aa" " 0xAB " "0xab"); vm_compute; reflexivity.
Defined.

(** Without the length conditions the binding fails: the message has no
    separator between version and content hash, so a signature over one
    (package, hash) pair is a signature over another. *)
Theorem publish_message_ambiguous :
  ∃ (a b : PackageId) (ha hb p : string),
    separable a = true ∧ separable b = true ∧ a ≠ b ∧ ha ≠ hb
    ∧ publish_signature_message a ha p = publish_signature_message b hb p.
Proof.
  exists {| ecosystem := "npm"; name := "pkg"; version := "1.0.0" |},
         {| ecosystem := "npm"; name := "pkg"; version := "1.0.0a" |}, "abc", "bc", "0x01".
  by vm_compute.
Qed.

(** The block hash covers the header only: the transaction list and the PBFT
    signatures of a block do not enter it. *)
Lemma block_hash_header `{Crypto, Serde} (b1 b2 : Block) :
  header b1 = header b2 → block_hash b1 = block_hash b2.
Proof. unfold block_hash. by intros ->. Qed.
