(* ===== verification/Merkle.v ===== *)
(** Merkle trees over the transactions of a block.

    [merkle_root] is [crates/common/src/block.rs]; the inclusion proofs
    ([MerkleProof::verify], [build_merkle_proof]) are
    [crates/resolver/src/light_client.rs].  The loops of the source halve the
    list of hashes; here they run on fuel, the length of the list, and
    [reduce_singleton] shows that this is enough.

    Soundness is stated as "... or there is a SHA-256 collision among the strings
    that the tree and the verifier hashed" ([Crypto.collision_in], [hashed],
    [walk_inputs]), so no theorem assumes that SHA-256 is injective. *)

From S2P Require Import Prelude Text Crypto Types.


Section Merkle.
Context `{!Crypto}.

(** [sha256_hex(format!("{}{}", a, b).as_bytes())] *)
Definition node_hash (a b : string) : string := sha256_hex (a +:+ b).

(** [if hashes.len() % 2 != 0 { hashes.push(last) }] *)
Definition pad (hashes : list string) : list string :=
  if Nat.odd (length hashes) then
    match last hashes with
    | Some h => hashes ++ [h]
    | None => hashes
    end
  else hashes.

(** [hashes.chunks(2).map(..)] on a list of even length. *)
Fixpoint pair_up (hashes : list string) : list string :=
  match hashes with
  | a :: b :: rest => node_hash a b :: pair_up rest
  | _ => []
  end.

(** One round of the loop. *)
Definition level_up (hashes : list string) : list string := pair_up (pad hashes).

(** [while hashes.len() > 1 { .. }] *)
Fixpoint reduce (fuel : nat) (hashes : list string) : list string :=
  match fuel with
  | O => hashes
  | S fuel' =>
      if (1 <? length hashes)%nat then reduce fuel' (level_up hashes) else hashes
  end.

(** The root of a non-empty list of leaf hashes ([hashes.remove(0)]). *)
Definition root_of (hashes : list string) : string :=
  default "" (head (reduce (length hashes) hashes)).

(** How many rounds the loop runs. *)
Fixpoint depth (fuel : nat) (hashes : list string) : nat :=
  match fuel with
  | O => 0
  | S fuel' =>
      if (1 <? length hashes)%nat then S (depth fuel' (level_up hashes)) else 0
  end.

Context `{!Serde}.

Definition leaf_hash (tx : Transaction) : string := sha256_hex (tx_json tx).

(** [common::merkle_root] *)
Definition merkle_root (txs : list Transaction) : string :=
  match txs with
  | [] => sha256_hex "empty"
  | _ => root_of (leaf_hash <$> txs)
  end.

Definition tree_depth (txs : list Transaction) : nat :=
  depth (length txs) (leaf_hash <$> txs).

(** ** Inclusion proofs *)

Record MerkleStep := {
  sibling_hash : string;
  is_right : bool;
}.

Record MerkleProof := {
  proof_tx_hash : string;
  proof_path : list MerkleStep;
  proof_expected_root : string;
}.

(** One iteration of the loop of [MerkleProof::verify]. *)
Definition step_hash (current : string) (step : MerkleStep) : string :=
  if is_right step then node_hash current (sibling_hash step)
  else node_hash (sibling_hash step) current.

Definition walk (current : string) (path : list MerkleStep) : string :=
  foldl step_hash current path.

(** [MerkleProof::verify] *)
Definition proof_verify (p : MerkleProof) : bool :=
  String.eqb (walk (proof_tx_hash p) (proof_path p)) (proof_expected_root p).

(** The loop of [build_merkle_proof] that collects the siblings. *)
Fixpoint build_path (fuel : nat) (idx : nat) (level : list string) : list MerkleStep :=
  match fuel with
  | O => []
  | S fuel' =>
      if (1 <? length level)%nat then
        let padded := pad level in
        let sibling_idx := if Nat.even idx then idx + 1 else idx - 1 in
        {| sibling_hash := default "" (padded !! sibling_idx);
           is_right := Nat.even idx |}
        :: build_path fuel' (idx / 2) (pair_up padded)
      else []
  end.

Inductive ProofError := TxIndexOutOfRange (tx_index n : nat).

(** [build_merkle_proof] *)
Definition build_merkle_proof (block : Block) (tx_index : nat) : result ProofError MerkleProof :=
  let n := length (transactions block) in
  if (n <=? tx_index)%nat then Err (TxIndexOutOfRange tx_index n)
  else
    let leaves := leaf_hash <$> transactions block in
    Ok {| proof_tx_hash := default "" (leaves !! tx_index);
          proof_path := build_path (length leaves) tx_index leaves;
          proof_expected_root := header_merkle_root (header block) |}.

(** ** What is hashed *)

Fixpoint pairs (hashes : list string) : list string :=
  match hashes with
  | a :: b :: rest => (a +:+ b) :: pairs rest
  | _ => []
  end.

(** The inputs of the inner nodes of the tree above a level. *)
Fixpoint hashed (fuel : nat) (hashes : list string) : list string :=
  match fuel with
  | O => []
  | S fuel' =>
      if (1 <? length hashes)%nat then pairs (pad hashes) ++ hashed fuel' (level_up hashes) else []
  end.

Definition tree_inputs (txs : list Transaction) : list string := hashed (length txs) (leaf_hash <$> txs).

(** The inputs of the verifier. *)
Definition step_input (current : string) (step : MerkleStep) : string :=
  if is_right step then current +:+ sibling_hash step else sibling_hash step +:+ current.

Fixpoint walk_inputs (current : string) (path : list MerkleStep) : list string :=
  match path with
  | [] => []
  | step :: path => step_input current step :: walk_inputs (step_hash current step) path
  end.

(** ** The shape of the levels *)

Lemma even_pad (l : list string) : Nat.even (length (pad l)) = true.
Proof.
  unfold pad. destruct (Nat.odd (length l)) eqn:Ho.
  - destruct (last l) as [h|] eqn:Hl.
    + rewrite length_app, Nat.even_add, <- Nat.negb_odd, Ho. done.
    + apply last_None in Hl as ->. done.
  - by rewrite <- Nat.negb_odd, Ho.
Qed.

Lemma pad_prefix (l : list string) : l `prefix_of` pad l.
Proof.
  unfold pad. destruct (Nat.odd (length l)); [|done].
  destruct (last l); [by apply prefix_app_r | done].
Qed.

Lemma elem_of_pad (l : list string) (h : string) : h ∈ pad l ↔ h ∈ l.
Proof.
  unfold pad. destruct (Nat.odd (length l)); [|done].
  destruct (last l) as [x|] eqn:Hl; [|done].
  rewrite elem_of_app, list_elem_of_singleton. split; [|auto].
  intros [?| ->]; [done|]. by apply last_Some_elem_of.
Qed.

Lemma length_pad (l : list string) :
  length (pad l) = length l + (if Nat.odd (length l) then 1 else 0).
Proof.
  unfold pad. destruct (Nat.odd (length l)) eqn:Ho; [|lia].
  destruct (last l) eqn:Hl; [by rewrite length_app|].
  apply last_None in Hl as ->. done.
Qed.

Lemma length_pair_up (l : list string) : length (pair_up l) = length l / 2.
Proof.
  remember (length l) as n eqn:Hn. revert l Hn.
  induction (lt_wf n) as [n _ IH]. intros [|a [|b l]] ->; try done.
  simpl length at 1 2. cbn [pair_up].
  rewrite (IH (length l)) by (simpl; lia).
  replace (S (S (length l))) with (length l + 1 * 2) by lia.
  rewrite Nat.div_add by lia. simpl. lia.
Qed.

Lemma length_level_up (l : list string) : length (level_up l) = (length l + 1) / 2.
Proof.
  unfold level_up. rewrite length_pair_up, length_pad.
  destruct (Nat.odd (length l)) eqn:Ho; [done|].
  assert (Nat.even (length l) = true) as [k ->]%Nat.even_spec
    by by rewrite <- Nat.negb_odd, Ho.
  rewrite Nat.add_0_r. replace (2 * k + 1) with (1 + k * 2) by lia.
  rewrite Nat.div_add by lia. rewrite Nat.mul_comm, Nat.div_mul by lia. done.
Qed.

Lemma level_up_bounds (l : list string) :
  1 < length l → 1 ≤ length (level_up l) < length l.
Proof.
  intros Hl. rewrite length_level_up.
  split; [apply Nat.div_le_lower_bound | apply Nat.Div0.div_lt_upper_bound]; lia.
Qed.

Lemma pair_up_lookup (l : list string) (i : nat) (h : string) :
  pair_up l !! i = Some h ↔
  ∃ a b, l !! (2 * i) = Some a ∧ l !! (2 * i + 1) = Some b ∧ h = node_hash a b.
Proof.
  remember (length l) as n eqn:Hn. revert l i Hn.
  induction (lt_wf n) as [n _ IH]. intros [|a [|b l]] i ->.
  - simpl. naive_solver.
  - simpl. split; [done|]. intros (x & y & _ & Hy & _).
    by rewrite Nat.add_1_r in Hy.
  - destruct i as [|i]; [simpl; naive_solver|].
    cbn [pair_up]. change ((node_hash a b :: pair_up l) !! S i) with (pair_up l !! i).
    rewrite (IH (length l) ltac:(simpl; lia) l i eq_refl).
    replace (2 * S i) with (S (S (2 * i))) by lia. done.
Qed.

Lemma elem_of_level_up (l : list string) (h : string) :
  h ∈ level_up l → ∃ a b, a ∈ l ∧ b ∈ l ∧ h = node_hash a b.
Proof.
  intros [i Hi]%list_elem_of_lookup. apply pair_up_lookup in Hi as (a & b & Ha & Hb & ->).
  exists a, b. rewrite <- !(elem_of_pad l).
  split; [|split; [|done]]; apply list_elem_of_lookup; eauto.
Qed.

Lemma elem_of_pair_up (l : list string) (h : string) :
  h ∈ pair_up l → ∃ a b, a ∈ l ∧ b ∈ l ∧ (a +:+ b) ∈ pairs l ∧ h = node_hash a b.
Proof.
  remember (length l) as n eqn:Hn. revert l Hn.
  induction (lt_wf n) as [n _ IH]. intros [|a [|b l]] ->; cbn [pair_up pairs].
  1,2: by intros ?%not_elem_of_nil.
  rewrite elem_of_cons. intros [->|Hh]; [exists a, b; set_solver|].
  destruct (IH (length l) ltac:(simpl; lia) l eq_refl Hh) as (x & y & ?). exists x, y. set_solver.
Qed.

Lemma reduce_singleton (fuel : nat) (l : list string) :
  l ≠ [] → length l ≤ fuel → ∃ h, reduce fuel l = [h].
Proof.
  revert l. induction fuel as [|fuel IH]; intros l Hne Hl.
  - destruct l; simpl in *; [done|lia].
  - simpl. destruct (Nat.ltb_spec 1 (length l)) as [Hgt|Hle].
    + pose proof (level_up_bounds l Hgt) as Hb. apply IH; [|lia].
      intros He. rewrite He in Hb. simpl in Hb. lia.
    + destruct l as [|h [|? ?]]; simpl in *; try done; [eauto|lia].
Qed.

Lemma reduce_fuel (f1 f2 : nat) (l : list string) :
  length l ≤ f1 → length l ≤ f2 → reduce f1 l = reduce f2 l.
Proof.
  revert f2 l. induction f1 as [|f1 IH]; intros [|f2] l H1 H2; simpl.
  - done.
  - destruct l; simpl in *; [done|lia].
  - destruct l; simpl in *; [done|lia].
  - destruct (Nat.ltb_spec 1 (length l)) as [Hgt|]; [|done].
    pose proof (level_up_bounds l Hgt). apply IH; lia.
Qed.

Lemma depth_fuel (f1 f2 : nat) (l : list string) :
  length l ≤ f1 → length l ≤ f2 → depth f1 l = depth f2 l.
Proof.
  revert f2 l. induction f1 as [|f1 IH]; intros [|f2] l H1 H2; simpl.
  - done.
  - destruct l; simpl in *; [done|lia].
  - destruct l; simpl in *; [done|lia].
  - destruct (Nat.ltb_spec 1 (length l)) as [Hgt|]; [|done].
    pose proof (level_up_bounds l Hgt). f_equal. apply IH; lia.
Qed.

Lemma root_of_step (l : list string) :
  1 < length l → root_of l = root_of (level_up l).
Proof.
  intros Hl. unfold root_of. pose proof (level_up_bounds l Hl) as Hb.
  destruct (length l) as [|n] eqn:Hn; [lia|]. simpl. rewrite Hn.
  destruct (Nat.ltb_spec 1 (S n)); [|lia].
  f_equal. f_equal. apply reduce_fuel; lia.
Qed.

Lemma depth_step (l : list string) :
  1 < length l → depth (length l) l = S (depth (length (level_up l)) (level_up l)).
Proof.
  intros Hl. pose proof (level_up_bounds l Hl) as Hb.
  destruct (length l) as [|n] eqn:Hn; [lia|]. simpl. rewrite Hn.
  destruct (Nat.ltb_spec 1 (S n)); [|lia].
  f_equal. apply depth_fuel; lia.
Qed.

Lemma hashed_fuel (f1 f2 : nat) (l : list string) :
  length l ≤ f1 → length l ≤ f2 → hashed f1 l = hashed f2 l.
Proof.
  revert f2 l. induction f1 as [|f1 IH]; intros [|f2] l H1 H2; simpl.
  1-3: destruct l; simpl in *; [done|lia].
  destruct (Nat.ltb_spec 1 (length l)) as [Hgt|]; [|done].
  pose proof (level_up_bounds l Hgt). f_equal. apply IH; lia.
Qed.

Lemma hashed_step (l : list string) :
  1 < length l → hashed (length l) l = pairs (pad l) ++ hashed (length (level_up l)) (level_up l).
Proof.
  intros Hl. pose proof (level_up_bounds l Hl) as Hb.
  destruct (length l) as [|n] eqn:Hn; [lia|]. simpl. rewrite Hn.
  destruct (Nat.ltb_spec 1 (S n)); [|lia]. f_equal. apply hashed_fuel; lia.
Qed.

Lemma step_hash_input (current : string) (step : MerkleStep) : step_hash current step = sha256_hex (step_input current step).
Proof. unfold step_hash, step_input. by destruct (is_right step). Qed.

End Merkle.

Section MerkleFacts.
Context `{HC : Crypto} `{HL : !CryptoLaws} `{HS : !Serde}.

(** Every element is the 64-digit text of a digest. *)
Definition digests (l : list string) : Prop := Forall (λ h, String.length h = 64) l.

Lemma digests_pad (l : list string) : digests l → digests (pad l).
Proof. unfold digests. rewrite !Forall_forall. intros Hl h Hh. apply Hl. by apply elem_of_pad. Qed.

Lemma digests_level_up (l : list string) : digests (level_up l).
Proof.
  apply Forall_forall. intros h (a & b & _ & _ & ->)%elem_of_level_up.
  apply sha256_hex_length.
Qed.

Lemma digests_leaves (txs : list Transaction) : digests (leaf_hash <$> txs).
Proof. apply Forall_fmap, Forall_true. intros tx. apply sha256_hex_length. Qed.

Lemma pair_up_inj (l1 l2 : list string) :
  digests l1 → digests l2 → length l1 = length l2 → Nat.even (length l1) = true →
  pair_up l1 = pair_up l2 → l1 = l2 ∨ collision_in (pairs l1) (pairs l2).
Proof.
  remember (length l1) as n eqn:Hn. revert l1 l2 Hn.
  induction (lt_wf n) as [n _ IH]. intros [|a [|b l1]] [|c [|d l2]]; simpl;
    intros -> H1 H2 Hl He Heq; try done; try lia; [by left|].
  apply Forall_cons in H1 as [_ H1], H2 as [_ H2].
  apply Forall_cons in H1 as [Hb H1], H2 as [Hd H2].
  injection Heq as Hnode Heq. destruct (decide (a +:+ b = c +:+ d)) as [Hab|Hab].
  - apply app_inj_len_r in Hab as [-> ->]; [|congruence].
    destruct (IH (length l1) ltac:(lia) l1 l2 eq_refl H1 H2 ltac:(lia) He Heq) as [->|Hc]; [by left|].
    right. by eapply collision_in_weaken; [| |exact Hc]; set_solver.
  - right. exists (a +:+ b), (c +:+ d). set_solver.
Qed.

Lemma pad_inj (l1 l2 : list string) : length l1 = length l2 → pad l1 = pad l2 → l1 = l2.
Proof.
  intros Hl Heq. destruct (pad_prefix l1) as [k1 H1], (pad_prefix l2) as [k2 H2].
  rewrite H1, H2 in Heq. by apply app_inj_1 in Heq as [-> _].
Qed.

Lemma level_up_inj (l1 l2 : list string) :
  digests l1 → digests l2 → length l1 = length l2 →
  level_up l1 = level_up l2 → l1 = l2 ∨ collision_in (pairs (pad l1)) (pairs (pad l2)).
Proof.
  intros H1 H2 Hl Heq. unfold level_up in Heq.
  destruct (pair_up_inj (pad l1) (pad l2)) as [Hp|]; auto using digests_pad, even_pad.
  - by rewrite !length_pad, Hl.
  - left. by apply pad_inj.
Qed.

Lemma root_of_inj (l1 l2 : list string) :
  digests l1 → digests l2 → l1 ≠ [] → length l1 = length l2 →
  root_of l1 = root_of l2 → l1 = l2 ∨ collision_in (hashed (length l1) l1) (hashed (length l2) l2).
Proof.
  remember (length l1) as n eqn:Hn. revert l1 l2 Hn.
  induction (lt_wf n) as [n _ IH]. intros l1 l2 -> H1 H2 Hne Hl Heq.
  destruct (decide (1 < length l1)) as [Hgt|Hle].
  - rewrite (root_of_step l1), (root_of_step l2) in Heq by lia.
    rewrite (hashed_step l1), (hashed_step l2) by lia.
    pose proof (level_up_bounds l1 Hgt) as Hb.
    destruct (IH (length (level_up l1)) ltac:(lia) (level_up l1) (level_up l2) eq_refl)
      as [Hu|Hc]; auto using digests_level_up.
    + intros He. rewrite He in Hb. simpl in Hb. lia.
    + by rewrite !length_level_up, Hl.
    + destruct (level_up_inj l1 l2 H1 H2 Hl Hu) as [|Hc]; [by left|]. right.
      by eapply collision_in_weaken; [| |exact Hc]; set_solver.
    + right. by eapply collision_in_weaken; [| |exact Hc]; set_solver.
  - destruct l1 as [|x [|? ?]], l2 as [|y [|? ?]]; simpl in *; try done; try lia.
    cbn in Heq. by left; subst.
Qed.

(** An inclusion path as long as the tree is high starts at a leaf. *)
Lemma walk_sound (path : list MerkleStep) : ∀ (cur : string) (l : list string),
  String.length cur = 64 → digests l → l ≠ [] →
  length path = depth (length l) l →
  walk cur path = root_of l → cur ∈ l ∨ collision_in (walk_inputs cur path) (hashed (length l) l).
Proof.
  induction path as [|s path IH]; intros cur l Hc Hd Hne Hlen Hw.
  - destruct (decide (1 < length l)) as [Hgt|Hle].
    { rewrite depth_step in Hlen by done. done. }
    destruct l as [|h [|? ?]]; simpl in *; try done; try lia.
    cbn in Hw. subst. left. apply list_elem_of_singleton. done.
  - destruct (decide (1 < length l)) as [Hgt|Hle].
    2: { destruct l as [|h [|? ?]]; simpl in *; try done; lia. }
    rewrite depth_step in Hlen by done. rewrite root_of_step in Hw by done.
    rewrite hashed_step by done. cbn [walk_inputs].
    pose proof (level_up_bounds l Hgt) as Hb.
    destruct (IH (step_hash cur s) (level_up l)) as [Hin|Hcol]; auto using digests_level_up.
    + rewrite step_hash_input. apply sha256_hex_length.
    + intros He. rewrite He in Hb. simpl in Hb. lia.
    + unfold level_up in Hin. apply elem_of_pair_up in Hin as (a & b & Ha & Hbl & Hab & Hs). rewrite elem_of_pad in Ha, Hbl.
      unfold digests in Hd. rewrite Forall_forall in Hd.
      pose proof (Hd _ Ha). pose proof (Hd _ Hbl). rewrite step_hash_input in Hs.
      destruct (decide (step_input cur s = a +:+ b)) as [Heq|]; [left|right].
      * unfold step_input in Heq. destruct (is_right s).
        -- assert (String.length (sibling_hash s) = 64) as Hsl.
           { apply (f_equal String.length) in Heq. rewrite !length_app_str in Heq. lia. }
           apply app_inj_len_r in Heq as [-> _]; [done|congruence].
        -- apply app_inj_len_r in Heq as [_ ->]; [done|congruence].
      * exists (step_input cur s), (a +:+ b). set_solver.
    + right. by eapply collision_in_weaken; [| |exact Hcol]; set_solver.
Qed.

(** The path that [build_merkle_proof] collects leads from the leaf to the root. *)
Lemma build_path_complete (fuel : nat) : ∀ (idx : nat) (l : list string) (h : string),
  length l ≤ fuel → l !! idx = Some h → walk h (build_path fuel idx l) = root_of l.
Proof.
  induction fuel as [|fuel IH]; intros idx l h Hf Hi.
  { apply lookup_lt_Some in Hi. lia. }
  cbn [build_path]. destruct (Nat.ltb_spec 1 (length l)) as [Hgt|Hle].
  - rewrite root_of_step by done. pose proof (level_up_bounds l Hgt) as Hb.
    assert (pad l !! idx = Some h) as Hp by by apply (prefix_lookup_Some l); [|apply pad_prefix].
    cbn [walk foldl]. change (pair_up (pad l)) with (level_up l).
    apply IH; [lia|]. apply pair_up_lookup. unfold step_hash; cbn [is_right sibling_hash].
    pose proof (even_pad l) as Hev.
    assert (idx < length (pad l)) as Hlt by (by apply lookup_lt_Some in Hp).
    destruct (Nat.even idx) eqn:He.
    + apply Nat.even_spec in He as [k ->].
      replace (2 * k / 2) with k by (rewrite Nat.mul_comm, Nat.div_mul; lia).
      apply Nat.even_spec in Hev as [m Hm].
      destruct (lookup_lt_is_Some_2 (pad l) (2 * k + 1)) as [b Hb2]; [lia|].
      exists h, b. rewrite Hb2. done.
    + assert (Nat.odd idx = true) as [k ->]%Nat.odd_spec by by rewrite <- Nat.negb_even, He.
      replace ((2 * k + 1) / 2) with k.
      2: { replace (2 * k + 1) with (1 + k * 2) by lia. rewrite Nat.div_add by lia. done. }
      replace (2 * k + 1 - 1) with (2 * k) by lia.
      destruct (lookup_lt_is_Some_2 (pad l) (2 * k)) as [b Hb2]; [lia|].
      exists b, h. rewrite Hb2. done.
  - destruct l as [|x [|? ?]]; simpl in *; try done; try lia.
    destruct idx; simpl in Hi; naive_solver.
Qed.

Lemma merkle_root_nonempty (txs : list Transaction) :
  txs ≠ [] → merkle_root txs = root_of (leaf_hash <$> txs).
Proof. by destruct txs. Qed.

Lemma leaves_nonempty (txs : list Transaction) : txs ≠ [] → leaf_hash <$> txs ≠ [].
Proof. by destruct txs. Qed.

Lemma build_merkle_proof_ok (b : Block) (i : nat) (tx : Transaction) :
  header_merkle_root (header b) = merkle_root (transactions b) → transactions b !! i = Some tx →
  ∃ p, build_merkle_proof b i = Ok p ∧ proof_tx_hash p = leaf_hash tx
       ∧ proof_expected_root p = header_merkle_root (header b) ∧ proof_verify p = true.
Proof.
  intros Hroot Hi. unfold build_merkle_proof. pose proof (lookup_lt_Some _ _ _ Hi) as Hlt.
  destruct (Nat.leb_spec (length (transactions b)) i); [lia|].
  eexists. split; [done|]. simpl. rewrite list_lookup_fmap, Hi. simpl.
  split; [done|]. split; [done|]. unfold proof_verify. simpl.
  rewrite (build_path_complete _ i (leaf_hash <$> transactions b) (leaf_hash tx)); [|done|].
  - rewrite Hroot, merkle_root_nonempty; [apply String.eqb_refl|].
    intros He. by rewrite He in Hi.
  - by rewrite list_lookup_fmap, Hi.
Qed.

(** Completeness of inclusion proofs: for a block whose header carries the
    Merkle root of its transactions, [build_merkle_proof] succeeds exactly for the
    indices of the block, the proof it returns is about that transaction, and
    [MerkleProof::verify] accepts it. *)
Theorem merkle_proof_complete (b : Block) (i : nat) :
  header_merkle_root (header b) = merkle_root (transactions b) →
  match transactions b !! i with
  | Some tx => ∃ p, build_merkle_proof b i = Ok p ∧ proof_tx_hash p = leaf_hash tx
                    ∧ proof_expected_root p = header_merkle_root (header b)
                    ∧ proof_verify p = true
  | None => build_merkle_proof b i = Err (TxIndexOutOfRange i (length (transactions b)))
  end.
Proof.
  intros Hroot. destruct (transactions b !! i) as [tx|] eqn:Hi; [by apply build_merkle_proof_ok|].
  apply lookup_ge_None in Hi. unfold build_merkle_proof.
  destruct (Nat.leb_spec (length (transactions b)) i); [done|lia].
Qed.

(** C26. Soundness of inclusion proofs: a proof that verifies against the Merkle
    root of a block's transactions, whose path is as long as the tree is high and
    whose claimed hash has the 64 digits of a digest, is about one of the block's
    transactions; the only alternative is a SHA-256 collision between a string
    that the verifier hashed on the way and one of the inner nodes of the tree. *)
Theorem merkle_proof_sound (txs : list Transaction) (p : MerkleProof) :
  txs ≠ [] →
  proof_verify p = true →
  proof_expected_root p = merkle_root txs →
  length (proof_path p) = tree_depth txs →
  String.length (proof_tx_hash p) = 64 →
  (∃ tx, tx ∈ txs ∧ proof_tx_hash p = leaf_hash tx)
  ∨ collision_in (walk_inputs (proof_tx_hash p) (proof_path p)) (tree_inputs txs).
Proof.
  intros Hne Hv Hr Hlen H64. apply String.eqb_eq in Hv.
  rewrite Hr, merkle_root_nonempty in Hv by done.
  unfold tree_depth in Hlen. rewrite <- (length_fmap leaf_hash txs) in Hlen.
  destruct (walk_sound _ _ _ H64 (digests_leaves txs) (leaves_nonempty txs Hne) Hlen Hv)
    as [Hin|Hc]; [left|right; by rewrite length_fmap in Hc].
  apply list_elem_of_fmap in Hin as (tx & Htx & Hin). eauto.
Qed.

(** The Merkle root commits to the transactions: two non-empty lists of the
    same length with the same root have the same transaction hashes, position by
    position, or two of the strings hashed for them collide. *)
Theorem merkle_root_binding (txs1 txs2 : list Transaction) :
  txs1 ≠ [] → length txs1 = length txs2 →
  merkle_root txs1 = merkle_root txs2 →
  leaf_hash <$> txs1 = leaf_hash <$> txs2 ∨ collision_in (tree_inputs txs1) (tree_inputs txs2).
Proof.
  intros Hne Hl Heq. unfold tree_inputs.
  assert (txs2 ≠ []) by (intros ->; by destruct txs1).
  rewrite !merkle_root_nonempty in Heq by done.
  rewrite <- (length_fmap leaf_hash txs1), <- (length_fmap leaf_hash txs2).
  apply root_of_inj; auto using digests_leaves, leaves_nonempty.
  by rewrite !length_fmap.
Qed.

Lemma pad_even (l : list string) : Nat.even (length l) = true → pad l = l.
Proof. unfold pad. rewrite <- Nat.negb_odd. by destruct (Nat.odd (length l)). Qed.

(** The root does not commit to the number of transactions: an odd level is
    padded with its last hash, so for every block with an odd number of
    transactions above one, appending a second copy of the last transaction
    leaves the Merkle root, and with it the block hash, unchanged. *)
Theorem merkle_root_ignores_padding (txs : list Transaction) (tx : Transaction) :
  Nat.odd (length txs) = true → 1 < length txs → last txs = Some tx →
  merkle_root (txs ++ [tx]) = merkle_root txs.
Proof.
  intros Hodd Hlen Hlast.
  assert (pad (leaf_hash <$> txs) = leaf_hash <$> (txs ++ [tx])) as Hpad.
  { unfold pad. by rewrite length_fmap, Hodd, fmap_last, Hlast, fmap_app. }
  rewrite !merkle_root_nonempty by (by destruct txs).
  rewrite (root_of_step (leaf_hash <$> txs)) by by rewrite length_fmap.
  rewrite root_of_step by (rewrite length_fmap, length_app; lia).
  unfold level_up. rewrite Hpad, (pad_even (_ <$> (txs ++ [tx]))); [done|].
  rewrite <- Hpad. apply even_pad.
Qed.

End MerkleFacts.

(** ** Witnesses *)
Module MerkleExamples.
Import Toy ToySerde.

Definition tx (s : string) : Transaction := ValidatorLeave s.
Definition txs5 : list Transaction := [tx "a"; tx "b"; tx "c"; tx "d"; tx "e"].

Definition block5 : Block := {|
  header := {|
    height := 1; prev_hash := "p"; header_merkle_root := merkle_root txs5;
    proposer_id := "v1"; timestamp := 0; validator_set_hash := "h";
    vrf_output := None; vrf_proof := None |};
  transactions := txs5;
  pbft_signatures := [];
|}.

Lemma merkle_proof_complete_witness :
  ∃ p, build_merkle_proof block5 4 = Ok p ∧ proof_tx_hash p = leaf_hash (tx "e")
       ∧ proof_expected_root p = header_merkle_root (header block5) ∧ proof_verify p = true.
Proof. apply (merkle_proof_complete block5 4). reflexivity. Defined.

Definition proof5 : MerkleProof :=
  match build_merkle_proof block5 2 with
  | Ok p => p
  | Err _ => {| proof_tx_hash := ""; proof_path := []; proof_expected_root := "" |}
  end.

Lemma merkle_proof_sound_witness :
  proof_verify proof5 = true
  ∧ ((∃ t, t ∈ txs5 ∧ proof_tx_hash proof5 = leaf_hash t)
     ∨ collision_in (walk_inputs (proof_tx_hash proof5) (proof_path proof5)) (tree_inputs txs5)).
Proof.
  split; [vm_compute; reflexivity|].
  apply (merkle_proof_sound txs5 proof5); [discriminate | vm_compute; reflexivity ..].
Defined.

Lemma merkle_root_binding_witness :
  leaf_hash <$> txs5 = leaf_hash <$> txs5 ∨ collision_in (tree_inputs txs5) (tree_inputs txs5).
Proof. apply (merkle_root_binding txs5 txs5); [discriminate | reflexivity | reflexivity]. Defined.

Lemma merkle_root_ignores_padding_witness :
  merkle_root (txs5 ++ [tx "e"]) = merkle_root txs5.
Proof. apply (merkle_root_ignores_padding txs5 (tx "e")); [reflexivity | simpl; lia | reflexivity]. Defined.

End MerkleExamples.
