(* ===== verification/ValidatorSet.v ===== *)
(** The active validator set ([crates/consensus/src/validator_set.rs]).

    A [ValidatorSet] is a map from validator id to [ValidatorInfo].  Removal and
    slashing only clear the [is_active] flag, so membership, the size used for
    quorums and the set hash all look at active entries. *)

From S2P Require Import Prelude Text Crypto Types.
From Stdlib Require Import Ascii.

Record ValidatorInfo := {
  info_id : string;
  info_pubkey : string;
  info_eth_address : option string;
  info_stake : N;
  info_reputation : N;
  info_is_active : bool;
}.

#[export] Instance ValidatorInfo_eq_dec : EqDecision ValidatorInfo.
Proof. solve_decision. Defined.

Abbreviation ValidatorSet := (gmap string ValidatorInfo).

(** [ValidatorSet::new] *)
Definition vset_new : ValidatorSet := ∅.

(** [ValidatorSet::add] *)
Definition vset_add (vs : ValidatorSet) (info : ValidatorInfo) : ValidatorSet :=
  <[info_id info := info]> vs.

Definition deactivate (v : ValidatorInfo) : ValidatorInfo := {|
  info_id := info_id v; info_pubkey := info_pubkey v;
  info_eth_address := info_eth_address v; info_stake := info_stake v;
  info_reputation := info_reputation v; info_is_active := false |}.

(** [ValidatorSet::remove] *)
Definition vset_remove (vs : ValidatorSet) (id : string) : ValidatorSet :=
  alter deactivate id vs.

(** [ValidatorSet::is_member] *)
Definition is_member (vs : ValidatorSet) (id : string) : bool :=
  match vs !! id with
  | Some v => info_is_active v
  | None => false
  end.

(** [ValidatorSet::len] *)
Definition vset_len (vs : ValidatorSet) : nat := count info_is_active (hm_values vs).

(** The active entries, in the iteration order of the map. *)
Definition active_infos (vs : ValidatorSet) : list ValidatorInfo :=
  filter (λ v, info_is_active v = true) (hm_values vs).

(** [ValidatorSet::active_ids] *)
Definition active_ids (vs : ValidatorSet) : list string := info_id <$> active_infos vs.

Definition slash_info (amount : N) (v : ValidatorInfo) : ValidatorInfo :=
  let stake := (info_stake v - amount)%N in     (* saturating_sub *)
  {| info_id := info_id v; info_pubkey := info_pubkey v;
     info_eth_address := info_eth_address v;
     info_stake := stake;
     info_reputation := (info_reputation v - 10)%N;
     info_is_active := if (stake =? 0)%N then false else info_is_active v |}.

(** [ValidatorSet::slash] *)
Definition vset_slash (vs : ValidatorSet) (id : string) (amount : N) : ValidatorSet :=
  alter (slash_info amount) id vs.

Definition reward_info (v : ValidatorInfo) : ValidatorInfo := {|
  info_id := info_id v; info_pubkey := info_pubkey v;
  info_eth_address := info_eth_address v; info_stake := info_stake v;
  info_reputation := N.min (u8_saturating_add (info_reputation v) 1) 100;
  info_is_active := info_is_active v |}.

(** [ValidatorSet::reward] *)
Definition vset_reward (vs : ValidatorSet) (id : string) : ValidatorSet :=
  alter reward_info id vs.

(** [ValidatorSet::set_hash] *)
Definition set_hash `{Crypto} (vs : ValidatorSet) : string :=
  sha256_hex (join "," (sort_strings (active_ids vs))).

(** [u32::try_into::<u8>().unwrap_or(100)] *)
Definition reputation_u8 (r : N) : N := if (r <=? u8_max)%N then r else 100.

Definition info_of_common (v : Validator) : ValidatorInfo := {|
  info_id := val_id v;
  info_pubkey := val_pubkey v;
  info_eth_address := Some (val_eth_address v);
  info_stake := val_stake v;
  info_reputation := reputation_u8 (val_reputation v);
  info_is_active := String.eqb (val_status v) "online" || String.eqb (val_status v) "self" |}.

(** [impl From<common::ValidatorSet> for ValidatorSet] *)
Definition vset_from (common_vs : CommonValidatorSet) : ValidatorSet :=
  foldl (λ vs v, vset_add vs (info_of_common v)) vset_new (validators common_vs).

(** ** Operations and histories *)

Inductive VsetOp :=
| OpAdd (info : ValidatorInfo)
| OpRemove (id : string)
| OpSlash (id : string) (amount : N)
| OpReward (id : string).

Definition vset_apply (vs : ValidatorSet) (op : VsetOp) : ValidatorSet :=
  match op with
  | OpAdd info => vset_add vs info
  | OpRemove id => vset_remove vs id
  | OpSlash id amount => vset_slash vs id amount
  | OpReward id => vset_reward vs id
  end.

(** Well-formedness: every entry is stored under its own id and its integers fit
    the field types. *)
Definition info_in_range (v : ValidatorInfo) : Prop :=
  (info_stake v ≤ u64_max)%N ∧ (info_reputation v ≤ u8_max)%N.

Definition vset_wf (vs : ValidatorSet) : Prop :=
  map_Forall (λ k v, info_id v = k ∧ info_in_range v) vs.

Definition op_in_range (op : VsetOp) : Prop :=
  match op with
  | OpAdd info => info_in_range info
  | _ => True
  end.

(** The set of active ids. *)
Definition members (vs : ValidatorSet) : gset string :=
  dom (filter (λ kv, info_is_active kv.2 = true) vs).

(** ** Lemmas *)

Lemma elem_of_members (vs : ValidatorSet) (id : string) :
  id ∈ members vs ↔ is_member vs id = true.
Proof.
  unfold members, is_member. rewrite elem_of_dom. unfold is_Some.
  setoid_rewrite map_lookup_filter_Some. simpl.
  destruct (vs !! id) as [v|]; naive_solver.
Qed.

Lemma count_as_filter (vs : ValidatorSet) :
  vset_len vs = size (filter (λ kv : string * ValidatorInfo, info_is_active kv.2 = true) vs).
Proof.
  unfold vset_len. induction vs as [|k v vs Hk Hf IH] using map_first_key_ind.
  - done.
  - unfold hm_values in *. rewrite map_to_list_insert_first_key by done.
    rewrite fmap_cons, count_cons, IH. simpl.
    destruct (info_is_active v) eqn:Hv.
    + rewrite map_filter_insert_True by done.
      rewrite map_size_insert_None; [done|].
      apply map_lookup_filter_None. by left.
    + rewrite map_filter_insert_False by (by simpl; rewrite Hv).
      rewrite delete_id by done. done.
Qed.

(** The size used for quorums is the number of members. *)
Lemma vset_len_members (vs : ValidatorSet) : vset_len vs = size (members vs).
Proof. unfold members. by rewrite count_as_filter, size_dom. Qed.

Lemma vset_wf_apply (vs : ValidatorSet) (op : VsetOp) :
  vset_wf vs → op_in_range op → vset_wf (vset_apply vs op).
Proof.
  intros Hwf Hop.
  assert (∀ f id, (∀ v, info_id (f v) = info_id v ∧ (info_in_range v → info_in_range (f v))) →
    vset_wf (alter f id vs)) as Halter.
  { intros f id Hf k v. rewrite lookup_alter. case_decide as Hid.
    - intros (w & Hw & ->)%fmap_Some. subst. destruct (Hwf _ _ Hw) as [<- Hr].
      destruct (Hf w). auto.
    - apply Hwf. }
  destruct op as [info|id|id a|id]; simpl.
  - apply map_Forall_insert_2; [by split|done].
  - by apply Halter.
  - apply Halter. intros v. split; [done|]. intros [Hs Hr].
    split; simpl; lia.
  - apply Halter. intros v. split; [done|]. intros [Hs Hr].
    split; simpl; [done|]. unfold u8_max in *. lia.
Qed.

Lemma is_member_alter (f : ValidatorInfo → ValidatorInfo) (vs : ValidatorSet) (id k : string) :
  is_member (alter f id vs) k =
  if decide (id = k) then
    match vs !! k with Some v => info_is_active (f v) | None => false end
  else is_member vs k.
Proof.
  unfold is_member. rewrite lookup_alter. case_decide as Hd; [|done].
  subst. by destruct (vs !! k).
Qed.

Lemma slash_member (vs : ValidatorSet) (id k : string) (a : N) :
  is_member (vset_slash vs id a) k =
  if decide (id = k) then
    match vs !! k with
    | Some v => (a <? info_stake v)%N && info_is_active v
    | None => false
    end
  else is_member vs k.
Proof.
  unfold vset_slash. rewrite is_member_alter. case_decide; [|done].
  destruct (vs !! k) as [v|]; [|done]. simpl.
  destruct (N.eqb_spec (info_stake v - a) 0), (N.ltb_spec a (info_stake v));
    try done; lia.
Qed.

(** Slashing: the named validator loses [amount] stake and 10 reputation, both
    saturating at zero, and stays a member exactly when it was one and stake
    remains; every other validator, and the domain of the set, is untouched; the
    active set never grows. *)
Theorem slash_effect (vs : ValidatorSet) (id : string) (amount : N) (v : ValidatorInfo) :
  vs !! id = Some v →
  let vs' := vset_slash vs id amount in
  vs' !! id = Some (slash_info amount v)
  ∧ (is_member vs' id = true ↔ is_member vs id = true ∧ (amount < info_stake v)%N)
  ∧ (∀ k, k ≠ id → vs' !! k = vs !! k)
  ∧ dom vs' = dom vs
  ∧ members vs' ⊆ members vs
  ∧ vset_len vs' ≤ vset_len vs ≤ vset_len vs' + 1.
Proof.
  intros Hv vs'.
  assert (members vs' ⊆ members vs) as Hsub.
  { intros k. rewrite !elem_of_members. unfold vs'. rewrite slash_member.
    case_decide; [subst|done]. unfold is_member. rewrite Hv.
    by intros [_ ?]%andb_prop. }
  split; [unfold vs', vset_slash; by rewrite lookup_alter_eq, Hv|].
  split.
  { unfold vs'. rewrite slash_member. case_decide; [|done]. unfold is_member. rewrite Hv.
    rewrite andb_true_iff, N.ltb_lt. tauto. }
  split; [intros k Hk; unfold vs', vset_slash; by rewrite lookup_alter_ne|].
  split; [apply dom_alter_L|]. split; [done|].
  rewrite !vset_len_members. split; [by apply subseteq_size|].
  transitivity (size ({[id]} ∪ members vs')).
  - apply subseteq_size. intros k Hk.
    destruct (decide (k = id)) as [->|Hne]; [set_solver|].
    apply elem_of_union_r. apply elem_of_members in Hk. apply elem_of_members.
    unfold vs'. rewrite slash_member. case_decide; [congruence|done].
  - rewrite size_union_alt, size_singleton.
    assert (size (members vs' ∖ {[id]}) ≤ size (members vs')) by (apply subseteq_size; set_solver).
    lia.
Qed.

Lemma active_ids_spec (vs : ValidatorSet) :
  vset_wf vs → active_ids vs ≡ₚ elements (members vs).
Proof.
  intros Hwf. apply NoDup_Permutation.
  - unfold active_ids, active_infos, hm_values.
    assert (∀ l : list (string * ValidatorInfo),
      Forall (λ kv, info_id kv.2 = kv.1) l → NoDup l.*1 →
      NoDup (info_id <$> filter (λ v, info_is_active v = true) l.*2)) as Hgen.
    { induction l as [|[k v] l IH]; intros Hall Hnd; [constructor|].
      apply Forall_cons in Hall as [Hk Hall]. simpl in Hk.
      rewrite fmap_cons in Hnd. apply NoDup_cons in Hnd as [Hnk Hnd].
      rewrite fmap_cons, filter_cons. simpl. case_decide; [|by apply IH].
      rewrite fmap_cons. apply NoDup_cons. split; [|by apply IH].
      intros (w & Hw & [_ Hin]%list_elem_of_filter)%list_elem_of_fmap.
      apply list_elem_of_fmap in Hin as ([k' w'] & -> & Hin).
      rewrite Forall_forall in Hall. pose proof (Hall _ Hin) as Hkw. simpl in *.
      apply Hnk. apply list_elem_of_fmap. exists (k', w'). split; [simpl; congruence|done]. }
    apply Hgen; [|apply NoDup_fst_map_to_list].
    apply Forall_forall. intros [k v] Hin%elem_of_map_to_list. by apply Hwf.
  - apply NoDup_elements.
  - intros id. rewrite elem_of_elements, elem_of_members.
    unfold active_ids, active_infos, is_member. rewrite list_elem_of_fmap. split.
    + intros (v & -> & [Ha Hv]%list_elem_of_filter).
      apply elem_of_hm_values in Hv as [k Hk]. destruct (Hwf _ _ Hk) as [<- _].
      by rewrite Hk.
    + destruct (vs !! id) as [v|] eqn:Hv; [|done]. intros Ha. exists v.
      destruct (Hwf _ _ Hv) as [-> _]. split; [done|].
      apply list_elem_of_filter. split; [done|]. apply elem_of_hm_values. eauto.
Qed.

Definition ids_joinable (vs : ValidatorSet) : Prop :=
  set_Forall (λ id, joinable ","%char id = true) (members vs).

Lemma set_hash_members `{Crypto} (vs : ValidatorSet) :
  vset_wf vs → set_hash vs = sha256_hex (join "," (sort_strings (elements (members vs)))).
Proof.
  intros Hwf. unfold set_hash. do 2 f_equal. by apply sort_strings_unique, active_ids_spec.
Qed.

(** The set hash of the block header commits to the membership and to nothing
    else: well-formed sets with the same active ids hash alike whatever their
    insertion order and inactive entries, and for non-empty ids without commas
    equal hashes force equal membership or exhibit a SHA-256 collision. *)
Theorem set_hash_commits `{Crypto} (a b : ValidatorSet) :
  vset_wf a → vset_wf b → ids_joinable a → ids_joinable b →
  (members a = members b → set_hash a = set_hash b)
  ∧ (set_hash a = set_hash b → members a = members b ∨ collision).
Proof.
  intros Ha Hb Hja Hjb. rewrite !set_hash_members by done. split; [by intros ->|].
  intros Heq.
  destruct (decide (join "," (sort_strings (elements (members a)))
                    = join "," (sort_strings (elements (members b))))) as [Hj|Hne].
  - left. apply join_inj in Hj.
    + apply set_eq. intros k. rewrite <- !elem_of_elements.
      rewrite <- (elem_of_sort_by str_le (elements (members a))).
      rewrite <- (elem_of_sort_by str_le (elements (members b))).
      unfold sort_strings in Hj. by rewrite Hj.
    + apply Forall_forall. intros k Hk%elem_of_sort_by%elem_of_elements. by apply Hja.
    + apply Forall_forall. intros k Hk%elem_of_sort_by%elem_of_elements. by apply Hjb.
  - right. by eexists _, _.
Qed.

Lemma vset_from_wf (cs : CommonValidatorSet) :
  Forall (λ v, (val_stake v ≤ u64_max)%N) (validators cs) → vset_wf (vset_from cs).
Proof.
  unfold vset_from. intros Hs.
  assert (vset_wf vset_new) as Hnew by apply map_Forall_empty.
  revert Hnew. generalize vset_new.
  induction (validators cs) as [|v l IH]; intros vs Hwf; [done|].
  apply Forall_cons in Hs as [Hv Hs]. simpl. apply IH; [done|].
  apply (vset_wf_apply vs (OpAdd (info_of_common v))); [done|].
  split; [done|]. simpl. unfold reputation_u8, u8_max. destruct (N.leb_spec (val_reputation v) 255); lia.
Qed.

(** Later duplicates of an id win, as with repeated [HashMap::insert]. *)
Lemma vset_from_lookup (cs : CommonValidatorSet) (id : string) :
  vset_from cs !! id
  = info_of_common <$> last (filter (λ v, val_id v = id) (validators cs)).
Proof.
  unfold vset_from. induction (validators cs) as [|v l IH] using rev_ind; [done|].
  rewrite foldl_app, filter_app. simpl. unfold vset_add at 1. rewrite lookup_insert.
  change (info_id (info_of_common v)) with (val_id v).
  rewrite filter_cons, filter_nil.
  destruct (decide (val_id v = id)) as [_|Hne]; [by rewrite last_snoc|].
  rewrite app_nil_r. apply IH.
Qed.

Lemma vset_from_lookup_inv (cs : CommonValidatorSet) (id : string) (info : ValidatorInfo) :
  vset_from cs !! id = Some info →
  ∃ v, v ∈ validators cs ∧ val_id v = id ∧ info = info_of_common v.
Proof.
  rewrite vset_from_lookup. intros (v & Hv & ->)%fmap_Some.
  apply last_Some_elem_of in Hv. apply list_elem_of_filter in Hv as [<- Hv]. eauto.
Qed.

Lemma vset_from_member (cs : CommonValidatorSet) (v : Validator) :
  NoDup (val_id <$> validators cs) → v ∈ validators cs →
  vset_from cs !! val_id v = Some (info_of_common v).
Proof.
  intros Hnd Hin. rewrite vset_from_lookup.
  assert (v ∈ filter (λ w, val_id w = val_id v) (validators cs)) as Hf
    by (by apply list_elem_of_filter).
  destruct (last (filter (λ w, val_id w = val_id v) (validators cs))) as [w|] eqn:Hw; simpl.
  - do 2 f_equal. apply last_Some_elem_of in Hw. apply list_elem_of_filter in Hw as [Hwid Hwin].
    apply list_elem_of_lookup in Hwin as [i Hi], Hin as [j Hj].
    assert (i = j) as <-; [|congruence].
    eapply (NoDup_lookup _ i j (val_id v) Hnd); rewrite list_lookup_fmap.
    + by rewrite Hi, <- Hwid.
    + by rewrite Hj.
  - apply last_None in Hw. rewrite Hw in Hf. by apply not_elem_of_nil in Hf.
Qed.

(** A list of distinct, active validators has as many members as entries. *)
Lemma vset_from_len (cs : CommonValidatorSet) :
  NoDup (val_id <$> validators cs) →
  Forall (λ v, info_is_active (info_of_common v) = true) (validators cs) →
  vset_len (vset_from cs) = length (validators cs).
Proof.
  intros Hnd Hact. rewrite vset_len_members.
  assert (members (vset_from cs) = list_to_set (val_id <$> validators cs)) as ->.
  { apply set_eq. intros id. rewrite elem_of_members, elem_of_list_to_set. unfold is_member.
    rewrite list_elem_of_fmap. split.
    - destruct (vset_from cs !! id) as [info|] eqn:Hl; [|done].
      destruct (vset_from_lookup_inv _ _ _ Hl) as (v & Hin & <- & _). eauto.
    - intros (v & -> & Hin). rewrite vset_from_member by done.
      rewrite Forall_forall in Hact. by apply Hact. }
  rewrite size_list_to_set by done. apply length_fmap.
Qed.

(** ** The life of an entry *)

(** What a history without additions says about the validator [id]. *)
Definition op_on (id : string) (op : VsetOp) : bool :=
  match op with OpAdd i => String.eqb (info_id i) id | OpRemove k | OpSlash k _ | OpReward k => String.eqb k id end.

Definition is_add (op : VsetOp) : bool := match op with OpAdd _ => true | _ => false end.
Definition is_remove (op : VsetOp) : bool := match op with OpRemove _ => true | _ => false end.
Definition is_slash (op : VsetOp) : bool := match op with OpSlash _ _ => true | _ => false end.

Fixpoint slashed (ops : list VsetOp) : N :=
  match ops with [] => 0 | OpSlash _ a :: ops => a + slashed ops | _ :: ops => slashed ops end.

(** The reputation after a history, counted in the integers between 0 and 100: ten less for each
    slash, one more for each reward. *)
Definition reputation_step (r : Z) (op : VsetOp) : Z :=
  match op with OpSlash _ _ => Z.max 0 (r - 10) | OpReward _ => Z.min 100 (r + 1) | _ => r end.

Lemma vset_apply_other (vs : ValidatorSet) (op : VsetOp) (id : string) :
  op_on id op = false → vset_apply vs op !! id = vs !! id.
Proof.
  destruct op; cbn; unfold vset_add, vset_remove, vset_slash, vset_reward; intros Hne%String.eqb_neq; by first [apply lookup_insert_ne|apply lookup_alter_ne].
Qed.

(** One entry under the operations that name it. *)
Definition entry_step (w : ValidatorInfo) (op : VsetOp) : ValidatorInfo :=
  match op with
  | OpAdd info => info | OpRemove _ => deactivate w | OpSlash _ a => slash_info a w | OpReward _ => reward_info w
  end.

Lemma vset_history_entry (vs : ValidatorSet) (id : string) (w : ValidatorInfo) (ops : list VsetOp) :
  vs !! id = Some w → Forall (λ op, is_add op = false) ops →
  foldl vset_apply vs ops !! id = Some (foldl entry_step w (filter (λ op, op_on id op = true) ops)).
Proof.
  intros Hw Hops. revert vs w Hw. induction Hops as [|op ops Hop Hops IH]; intros vs w Hw; [done|].
  cbn [foldl]. rewrite filter_cons. case_decide as Hon.
  - cbn [foldl]. apply IH. destruct op; [done|..]; cbn in Hon |- *; apply String.eqb_eq in Hon as ->.
    all: unfold vset_remove, vset_slash, vset_reward; by rewrite lookup_alter_eq, Hw.
  - apply IH. rewrite vset_apply_other; [done|]. by destruct (op_on id op).
Qed.

Lemma slashed_none (ops : list VsetOp) : existsb is_slash ops = false → slashed ops = 0%N.
Proof. induction ops as [|[] ops IH]; cbn; done. Qed.

Lemma entry_steps (w : ValidatorInfo) (ops : list VsetOp) :
  Forall (λ op, is_add op = false) ops → (info_reputation w ≤ u8_max)%N →
  let w' := foldl entry_step w ops in
  info_id w' = info_id w ∧ info_pubkey w' = info_pubkey w ∧ info_eth_address w' = info_eth_address w
  ∧ info_stake w' = (info_stake w - slashed ops)%N
  ∧ Z.of_N (info_reputation w') = foldl reputation_step (Z.of_N (info_reputation w)) ops
  ∧ info_is_active w' = info_is_active w && negb (existsb is_remove ops)
      && (negb (existsb is_slash ops) || (slashed ops <? info_stake w)%N).
Proof.
  intros Hops. revert w. induction Hops as [|op ops Hop Hops IH]; intros w Hr; cbn [foldl slashed existsb].
  { cbn. rewrite !andb_true_r. split_and!; try done. lia. }
  destruct (IH (entry_step w op)) as (Hid & Hpk & Heth & Hst & Hrep & Hact).
  { destruct op; cbn; unfold u8_saturating_add, u8_max in *; try done; lia. }
  rewrite Hid, Hpk, Heth, Hst, Hrep, Hact. clear IH Hid Hpk Heth Hst Hrep Hact.
  destruct op as [i|k|k a|k]; [done|..]; cbn; split_and!; try done.
  - by rewrite !andb_false_r.
  - lia.
  - do 2 f_equal. lia.
  - destruct (existsb is_slash ops) eqn:Hs; cbn; [|apply slashed_none in Hs; rewrite Hs].
    all: destruct (N.eqb_spec (info_stake w - a) 0); rewrite ?andb_false_l.
    all: repeat match goal with |- context [(?x <? ?y)%N] => destruct (N.ltb_spec x y) end;
      rewrite ?andb_true_r, ?andb_false_r; try done; lia.
  - do 2 f_equal. unfold u8_saturating_add, u8_max in *. lia.
Qed.


#[export] Hint Resolve vset_from_wf vset_wf_apply : creg.

(** ** Witnesses *)
Module ValidatorSetExamples.
Import Toy.

Definition info (id : string) (stake : N) : ValidatorInfo := {|
  info_id := id; info_pubkey := id; info_eth_address := None; info_stake := stake;
  info_reputation := 50; info_is_active := true |}.

Definition set3 : ValidatorSet := foldl vset_apply vset_new
  [OpAdd (info "v1" 100); OpAdd (info "v2" 100); OpAdd (info "v3" 5)].

Lemma set3_wf : vset_wf set3.
Proof. by apply (bool_decide_unpack _); vm_compute. Qed.

Definition listed (id : string) (stake : N) : Validator := {|
  val_id := id; val_alias := ""; val_pubkey := id; val_eth_address := "0x1"; val_stake := stake; val_reputation := 95;
  val_status := "online" |}.

(** "v3" is slashed beyond its stake and rewarded, "v1" rewarded up to the limit. *)
Definition history3 : list VsetOp :=
  [OpSlash "v3" 3; OpReward "v1"; OpSlash "v3" 7; OpReward "v3"; OpRemove "v2"].


Lemma slash_effect_witness :
  set3 !! "v3" = Some (info "v3" 5)
  ∧ vset_slash set3 "v3" 7 !! "v3" = Some (slash_info 7 (info "v3" 5)).
Proof.
  split; [reflexivity|].
  apply (slash_effect set3 "v3" 7 (info "v3" 5)). reflexivity.
Defined.

Lemma set_hash_commits_witness :
  members set3 = members (vset_remove set3 "unknown")
  ∧ set_hash set3 = set_hash (vset_remove set3 "unknown").
Proof.
  split; [vm_compute; reflexivity|].
  apply (set_hash_commits set3 (vset_remove set3 "unknown")).
  - apply set3_wf.
  - apply (vset_wf_apply set3 (OpRemove "unknown")); [apply set3_wf | done].
  - unfold ids_joinable. by apply (bool_decide_unpack _); vm_compute.
  - unfold ids_joinable. by apply (bool_decide_unpack _); vm_compute.
  - vm_compute. reflexivity.
Defined.

End ValidatorSetExamples.
