(* ===== verification/Vrf.v ===== *)
(** Validator assignment and proposer selection ([crates/consensus/src/vrf.rs]).

    [rand]'s [StdRng] and [shuffle] are third-party: the class [Rng] is the
    seeded shuffle as a function, [RngLaws] the fact that it permutes. *)

From S2P Require Import Prelude Text Crypto Types.

Class Rng := {
  shuffle : string → list nat → list nat;   (* StdRng::from_seed(seed); l.shuffle(&mut rng) *)
}.

Class RngLaws `{Rng} : Prop := {
  shuffle_permutes : ∀ seed l, shuffle seed l ≡ₚ l;
}.

Inductive VrfError :=
| NotEnoughValidators (needed active : nat)
| SeedHex
| SeedLength
| PrivateKeyHex
| PrivateKeyLength
| PublicKeyHex
| InvalidPublicKey
| ProofHex
| InvalidSignature
| ProofVerificationFailed
| OutputMismatch
| OutputHex.

#[export] Instance VrfError_eq_dec : EqDecision VrfError.
Proof. solve_decision. Defined.

(** [vrf::VrfValidator] *)
Record VrfValidator := {
  vrf_id : string;
  vrf_pubkey : string;
  vrf_val_output : option string;
  vrf_val_proof : option string;
}.

Section Vrf.
Context `{!Crypto}.

(** The assignment seed of [select_validators]. *)
Definition assignment_seed
    (package_canonical : string) (block_height : N) (output : option string) : string :=
  match output with
  | Some o => sha256_hex (o +:+ ":" +:+ fmt_N block_height +:+ ":" +:+ package_canonical)
  | None => sha256_hex (fmt_N block_height +:+ ":" +:+ package_canonical)
  end.

Definition select_validators `{!Rng} (active_validators : list string)
    (package_canonical : string) (block_height : N) (n : nat) (output : option string)
    : result VrfError (list string) :=
  if (length active_validators <? n)%nat
  then Err (NotEnoughValidators n (length active_validators))
  else
    let seed := assignment_seed package_canonical block_height output in
    seed_bytes ← ok_or SeedHex (hex_decode seed);
    _ ← ensure (bool_decide (String.length seed_bytes = 32)) SeedLength;
    let indices := shuffle seed_bytes (seq 0 (length active_validators)) in
    Ok ((λ i, default "" (active_validators !! i)) <$> take n indices).

(** [vrf::prove] *)
Definition vrf_prove (seed privkey_hex : string) : result VrfError (string * string) :=
  key_bytes ← ok_or PrivateKeyHex (hex_decode (trim privkey_hex));
  sk ← ok_or PrivateKeyLength (sk_try_from key_bytes);
  let sig := sign sk seed in
  Ok (sha256_hex (sig_bytes sig), hex_encode (sig_bytes sig)).

(** [vrf::verify] *)
Definition vrf_verify (seed pubkey_hex output_hex proof_hex : string) : result VrfError unit :=
  pk_bytes ← ok_or PublicKeyHex (hex_decode pubkey_hex);
  vk ← ok_or InvalidPublicKey (vk_try_from pk_bytes);
  raw ← ok_or ProofHex (hex_decode proof_hex);
  sig ← ok_or InvalidSignature (sig_try_from raw);
  _ ← ensure (verify vk seed sig) ProofVerificationFailed;
  ensure (String.eqb (sha256_hex raw) output_hex) OutputMismatch.

Definition vrf_score (output_hex : string) : result VrfError string :=
  bytes ← ok_or OutputHex (hex_decode output_hex);
  Ok (sha256_hex bytes).

(** The public score of a validator in an epoch. *)
Definition public_score (epoch_seed : string) (v : VrfValidator) : string :=
  sha256_hex (vrf_pubkey v +:+ ":" +:+ epoch_seed).

(** [.min_by(|a, b| a.1.cmp(&b.1))]: the first of the least elements. *)
Definition min_by_score (l : list (string * string)) : option (string * string) :=
  match l with
  | [] => None
  | x :: l' => Some (foldl (λ best y, if str_lt y.2 best.2 then y else best) x l')
  end.

Definition scored (epoch_seed : string) (vs : list VrfValidator) : list (string * string) :=
  (λ v, (vrf_id v, public_score epoch_seed v)) <$> vs.

Definition select_proposer_deterministic
    (vs : list VrfValidator) (epoch_seed : string) : option string :=
  fst <$> min_by_score (scored epoch_seed vs).

(** [a.1.cmp(&b.1).then_with(|| a.0.cmp(&b.0))] *)
Definition rank_le (a b : string * string) : bool :=
  if str_lt a.2 b.2 then true
  else if String.eqb a.2 b.2 then str_le a.1 b.1
  else false.

Definition rank_proposers (vs : list VrfValidator) (epoch_seed : string) : list string :=
  (sort_by rank_le (scored epoch_seed vs)).*1.

(** [.position(|id| id == x)] *)
Fixpoint position (x : string) (l : list string) : option nat :=
  match l with
  | [] => None
  | y :: l' => if String.eqb y x then Some 0 else S <$> position x l'
  end.

Definition proposer_rank
    (vs : list VrfValidator) (epoch_seed validator_id : string) : option nat :=
  position validator_id (rank_proposers vs epoch_seed).

(** The condition under which every score is taken from a verified proof. *)
Definition proof_ok (epoch_seed : string) (v : VrfValidator) : bool :=
  match vrf_val_output v, vrf_val_proof v with
  | Some output, Some proof => is_ok (vrf_verify epoch_seed (vrf_pubkey v) output proof)
  | _, _ => false
  end.

Definition use_vrf_scores (vs : list VrfValidator) (epoch_seed : string) : bool :=
  match vs with
  | [] => false
  | _ => forallb (proof_ok epoch_seed) vs
  end.

(** The closure of [filter_map]: an output that is not hex drops the validator. *)
Definition vrf_candidate (v : VrfValidator) : option (string * string) :=
  match vrf_val_output v with
  | Some output =>
      match vrf_score output with
      | Ok score => Some (vrf_id v, score)
      | Err _ => None
      end
  | None => None
  end.

Definition select_proposer (vs : list VrfValidator) (epoch_seed : string) : option string :=
  if use_vrf_scores vs epoch_seed
  then fst <$> min_by_score (omap vrf_candidate vs)
  else select_proposer_deterministic vs epoch_seed.

(** ** Lemmas *)

Lemma position_Some (x : string) (l : list string) (i : nat) :
  position x l = Some i → l !! i = Some x ∧ x ∉ take i l.
Proof.
  revert i. induction l as [|y l IH]; intros i; simpl; [done|].
  destruct (String.eqb_spec y x) as [->|Hne].
  - intros [= <-]. split; [done|]. apply not_elem_of_nil.
  - intros (j & Hj & ->)%fmap_Some. destruct (IH j Hj) as [Hl Ht].
    split; [done|]. simpl. apply not_elem_of_cons. split; [congruence|done].
Qed.

Lemma position_None (x : string) (l : list string) : position x l = None ↔ x ∉ l.
Proof.
  induction l as [|y l IH]; simpl; [split; [intros _; apply not_elem_of_nil|done]|].
  destruct (String.eqb_spec y x) as [->|Hne].
  - split; [done|]. intros Hx. exfalso. apply Hx. constructor.
  - rewrite fmap_None, IH, not_elem_of_cons. naive_solver.
Qed.

Lemma position_NoDup (l : list string) (i : nat) (x : string) :
  NoDup l → l !! i = Some x → position x l = Some i.
Proof.
  intros Hnd Hi. destruct (position x l) as [j|] eqn:Hj.
  - apply position_Some in Hj as [Hj _]. f_equal. by eapply NoDup_lookup.
  - apply position_None in Hj. exfalso. apply Hj. by eapply list_elem_of_lookup_2.
Qed.

Lemma min_by_score_spec (l : list (string * string)) :
  match min_by_score l with
  | None => l = []
  | Some m => m ∈ l ∧ ∀ y, y ∈ l → str_le m.2 y.2 = true
  end.
Proof.
  destruct l as [|x l]; [done|]. simpl.
  induction l as [|y l IH] using rev_ind.
  - simpl. split; [constructor|]. intros y ->%list_elem_of_singleton. apply str_le_refl.
  - rewrite foldl_app. simpl.
    set (m := foldl _ x l) in *. destruct IH as [Hin Hle].
    rewrite str_lt_le. destruct (str_le m.2 y.2) eqn:Hmy; simpl.
    + split; [set_solver|]. intros z Hz.
      assert (z ∈ x :: l ∨ z = y) as [Hz'| ->] by set_solver; auto.
    + assert (str_le y.2 m.2 = true) as Hym
        by (destruct (str_le_total m.2 y.2); congruence).
      split; [set_solver|]. intros z Hz.
      assert (z ∈ x :: l ∨ z = y) as [Hz'| ->] by set_solver; auto using str_le_refl.
      eapply str_le_trans; eauto.
Qed.

Lemma rank_le_total (a b : string * string) : rank_le a b = true ∨ rank_le b a = true.
Proof.
  unfold rank_le. rewrite !str_lt_le.
  destruct (str_le b.2 a.2) eqn:H1, (str_le a.2 b.2) eqn:H2; simpl; auto.
  - assert (a.2 = b.2) as -> by by apply str_le_antisym.
    rewrite !String.eqb_refl. apply str_le_total.
Qed.

Lemma rank_le_spec (a b : string * string) :
  rank_le a b = true ↔
  (str_le a.2 b.2 = true ∧ a.2 ≠ b.2) ∨ (a.2 = b.2 ∧ str_le a.1 b.1 = true).
Proof.
  unfold rank_le. rewrite str_lt_le.
  destruct (str_le b.2 a.2) eqn:H1; simpl.
  - destruct (String.eqb_spec a.2 b.2) as [He|Hne]; [naive_solver|].
    split; [done|]. intros [[Hle ?]|[? _]]; [|done].
    exfalso. apply Hne. by apply str_le_antisym.
  - split; [|done]. intros _. left. split.
    + destruct (str_le_total a.2 b.2); congruence.
    + intros He. rewrite He, str_le_refl in H1. done.
Qed.

Lemma rank_le_trans (a b c : string * string) :
  rank_le a b = true → rank_le b c = true → rank_le a c = true.
Proof.
  rewrite !rank_le_spec. intros [[H1 N1]|[E1 L1]] [[H2 N2]|[E2 L2]].
  - left. split; [by eapply str_le_trans|]. intros He. apply N1.
    apply str_le_antisym; [done|]. by rewrite He.
  - left. by rewrite <- E2.
  - left. by rewrite E1.
  - right. split; [congruence|]. by eapply str_le_trans.
Qed.

Lemma rank_le_antisym (a b : string * string) :
  rank_le a b = true → rank_le b a = true → a = b.
Proof.
  rewrite !rank_le_spec. destruct a as [a1 a2], b as [b1 b2]. simpl.
  intros [[H1 N1]|[E1 L1]] [[H2 N2]|[E2 L2]]; try congruence.
  - exfalso. apply N1. by apply str_le_antisym.
  - f_equal; [by apply str_le_antisym|done].
Qed.

Lemma rank_proposers_perm (vs vs' : list VrfValidator) (seed : string) :
  vs ≡ₚ vs' → rank_proposers vs seed = rank_proposers vs' seed.
Proof.
  intros Hp. unfold rank_proposers. f_equal.
  apply sort_by_unique; auto using rank_le_total, rank_le_antisym.
  - intros a b c. apply rank_le_trans.
  - unfold scored. by rewrite Hp.
Qed.

Lemma rank_proposers_ids (vs : list VrfValidator) (seed : string) :
  rank_proposers vs seed ≡ₚ (vrf_id <$> vs).
Proof.
  unfold rank_proposers, scored. rewrite sort_by_Permutation.
  by rewrite <- list_fmap_compose.
Qed.

(** The head of a sorted list is below every element. *)
Lemma sort_head_le (l : list (string * string)) (m y : string * string) :
  head (sort_by rank_le l) = Some m → y ∈ l → m ∈ l ∧ rank_le m y = true.
Proof.
  intros Hm Hy. pose proof (sort_by_sorted rank_le rank_le_total
    (λ a b c, rank_le_trans a b c) l) as Hs.
  pose proof (elem_of_sort_by rank_le l) as Hin.
  destruct (sort_by rank_le l) as [|x l'] eqn:Hl; [done|]. injection Hm as ->.
  assert (m ∈ l) by (apply Hin; constructor). split; [done|].
  apply Hin in Hy. apply elem_of_cons in Hy as [->|Hy].
  - apply rank_le_spec. right. split; [done|apply str_le_refl].
  - apply StronglySorted_inv in Hs as [_ Hall]. rewrite Forall_forall in Hall. by apply Hall.
Qed.

(** Distinct scores: what SHA-256 gives for distinct public keys, up to
    collisions. *)
Definition distinct_scores (vs : list VrfValidator) (seed : string) : Prop :=
  NoDup (public_score seed <$> vs).

Lemma scored_by_score (vs : list VrfValidator) (seed : string) (a b : string * string) :
  distinct_scores vs seed → a ∈ scored seed vs → b ∈ scored seed vs → a.2 = b.2 → a = b.
Proof.
  intros Hd Ha Hb Heq. unfold scored in *.
  apply list_elem_of_lookup in Ha as [i Hi], Hb as [j Hj].
  rewrite list_lookup_fmap in Hi, Hj.
  apply fmap_Some in Hi as (va & Hva & ->), Hj as (vb & Hvb & ->). simpl in Heq.
  assert (i = j) as <-.
  { eapply (NoDup_lookup (public_score seed <$> vs)); [done| |].
    - rewrite list_lookup_fmap, Hva. done.
    - rewrite list_lookup_fmap, Hvb. simpl. by rewrite Heq. }
  congruence.
Qed.

Lemma select_is_rank_head (vs : list VrfValidator) (seed : string) :
  distinct_scores vs seed →
  select_proposer_deterministic vs seed = head (rank_proposers vs seed).
Proof.
  intros Hd. unfold select_proposer_deterministic, rank_proposers.
  pose proof (min_by_score_spec (scored seed vs)) as Hmin.
  destruct (min_by_score (scored seed vs)) as [m|].
  - destruct Hmin as [Hin Hle].
    destruct (sort_by rank_le (scored seed vs)) as [|h l] eqn:Hs.
    + apply (elem_of_sort_by rank_le) in Hin. rewrite Hs in Hin. by apply elem_of_nil in Hin.
    + simpl. f_equal. destruct (sort_head_le (scored seed vs) h m) as [Hh Hhm].
      * by rewrite Hs.
      * done.
      * f_equal. apply (scored_by_score vs seed); [done..|].
        apply str_le_antisym; [auto|].
        apply rank_le_spec in Hhm as [[? _]|[-> _]]; auto using str_le_refl.
  - unfold scored in *. rewrite Hmin. done.
Qed.

End Vrf.

(** ** Properties *)
Section VrfProperties.
Context `{!Crypto}.

Lemma lookup_default_NoDup (l : list string) (ixs : list nat) :
  NoDup l → NoDup ixs → Forall (λ i, i < length l) ixs →
  NoDup ((λ i, default "" (l !! i)) <$> ixs).
Proof.
  intros Hl His Hb. apply NoDup_fmap_2_strong; [|done].
  rewrite Forall_forall in Hb. intros i j Hi Hj Heq.
  destruct (lookup_lt_is_Some_2 l i (Hb i Hi)) as [x Hx].
  destruct (lookup_lt_is_Some_2 l j (Hb j Hj)) as [y Hy].
  rewrite Hx, Hy in Heq. simpl in Heq. subst y. exact (NoDup_lookup l i j x Hl Hx Hy).
Qed.

(** Validator assignment: with enough active validators the selection always
    succeeds and yields exactly [n] distinct members of the active set; with too
    few it reports the shortfall and selects nobody. *)
Theorem select_validators_spec `{!CryptoLaws, !Rng, !RngLaws} (active : list string)
    (canonical : string) (h : N) (n : nat) (out : option string) :
  NoDup active →
  if (length active <? n)%nat
  then select_validators active canonical h n out = Err (NotEnoughValidators n (length active))
  else ∃ sel, select_validators active canonical h n out = Ok sel
       ∧ length sel = n ∧ NoDup sel ∧ sel ⊆ active.
Proof.
  intros Hnd. unfold select_validators.
  destruct (Nat.ltb_spec (length active) n) as [Hlt|Hge]; [done|].
  assert (∃ d, assignment_seed canonical h out = sha256_hex d) as [d ->]
    by (unfold assignment_seed; destruct out; eauto).
  rewrite sha256_hex_decode. simpl. rewrite bool_decide_eq_true_2 by apply sha256_length.
  simpl. set (idx := shuffle _ _).
  assert (idx ≡ₚ seq 0 (length active)) as Hp by apply shuffle_permutes.
  assert (Forall (λ i, i < length active) (take n idx)) as Hb.
  { apply Forall_take. rewrite Hp. apply Forall_seq. lia. }
  eexists. split; [done|]. rewrite length_fmap, length_take.
  assert (length idx = length active) as -> by by rewrite Hp, length_seq.
  split; [lia|]. split.
  - apply lookup_default_NoDup; [done| |done].
    eapply sublist_NoDup; [|apply sublist_take]. rewrite Hp. apply NoDup_seq.
  - intros x (i & -> & Hi)%list_elem_of_fmap. rewrite Forall_forall in Hb.
    destruct (lookup_lt_is_Some_2 active i (Hb i Hi)) as [y Hy]. rewrite Hy. simpl.
    by eapply list_elem_of_lookup_2.
Qed.

(** A VRF proof made with a well-formed private key verifies under the matching
    public key, for the same seed and the returned output; and verification
    accepts no other output for a given proof. *)
Theorem vrf_prove_verify `{!CryptoLaws} (seed privkey_hex key : string) (sk : SigningKey) :
  hex_decode (trim privkey_hex) = Some key → sk_try_from key = Some sk →
  ∃ out proof, vrf_prove seed privkey_hex = Ok (out, proof)
  ∧ ∀ o, vrf_verify seed (hex_encode (vk_bytes (sk_verifying_key sk))) o proof = Ok tt ↔ o = out.
Proof.
  intros Hk Hsk. unfold vrf_prove. rewrite Hk. simpl. rewrite Hsk. simpl.
  eexists _, _. split; [done|]. intros o. unfold vrf_verify.
  rewrite !hex_roundtrip. simpl. rewrite vk_roundtrip. simpl.
  rewrite sig_roundtrip. simpl. rewrite sign_verify. simpl. unfold ensure.
  destruct (String.eqb_spec (sha256_hex (sig_bytes (sign sk seed))) o); naive_solver.
Qed.

(** Proposer agreement: nodes that hold the same validators in any order, with
    distinct scores, name the same proposer; it is rank 0 of the fallback order;
    the fallback order lists every validator once, and [proposer_rank] is its
    inverse. *)
Theorem proposer_agreement (vs vs' : list VrfValidator) (seed : string) :
  vs ≡ₚ vs' → distinct_scores vs seed → NoDup (vrf_id <$> vs) →
  select_proposer_deterministic vs seed = select_proposer_deterministic vs' seed
  ∧ (∀ id, select_proposer_deterministic vs seed = Some id ↔ proposer_rank vs' seed id = Some 0)
  ∧ rank_proposers vs seed ≡ₚ (vrf_id <$> vs)
  ∧ (∀ i id, proposer_rank vs seed id = Some i ↔ rank_proposers vs' seed !! i = Some id).
Proof.
  intros Hp Hd Hnd.
  assert (distinct_scores vs' seed) as Hd' by (unfold distinct_scores; by rewrite <- Hp).
  assert (NoDup (rank_proposers vs' seed)) as Hndr
    by (rewrite rank_proposers_ids; by rewrite <- Hp).
  assert (∀ i id, proposer_rank vs' seed id = Some i ↔ rank_proposers vs' seed !! i = Some id)
    as Hrank.
  { intros i id. unfold proposer_rank. split; [by intros [? _]%position_Some|].
    by apply position_NoDup. }
  rewrite !select_is_rank_head by done.
  split; [f_equal; by apply rank_proposers_perm|]. split.
  { intros id. rewrite Hrank, head_lookup. by rewrite (rank_proposers_perm vs vs'). }
  split; [apply rank_proposers_ids|].
  intros i id. unfold proposer_rank. rewrite (rank_proposers_perm vs vs') by done. apply Hrank.
Qed.

Lemma min_by_score_fst_in (l : list (string * string)) (id : string) :
  fst <$> min_by_score l = Some id → ∃ s, (id, s) ∈ l.
Proof.
  intros ([i s] & Hm & ->)%fmap_Some. pose proof (min_by_score_spec l) as Hs.
  rewrite Hm in Hs. destruct Hs as [Hin _]. by exists s.
Qed.

(** Proof-based selection: the chosen proposer is always one of the candidates;
    a single candidate whose proof is absent or does not verify makes every node
    fall back to the public score; and when every proof verifies, the chosen
    validator has the least score of all verified outputs. *)
Theorem select_proposer_spec `{!CryptoLaws} (vs : list VrfValidator) (seed id : string) :
  select_proposer vs seed = Some id →
  id ∈ (vrf_id <$> vs)
  ∧ ((∃ v, v ∈ vs ∧ proof_ok seed v = false) →
     select_proposer_deterministic vs seed = Some id)
  ∧ ((∀ v, v ∈ vs → proof_ok seed v = true) →
     ∃ v o s, v ∈ vs ∧ vrf_id v = id ∧ vrf_val_output v = Some o ∧ vrf_score o = Ok s
     ∧ ∀ w o' s', w ∈ vs → vrf_val_output w = Some o' → vrf_score o' = Ok s' →
         str_le s s' = true).
Proof.
  unfold select_proposer, use_vrf_scores. intros Hsel.
  assert (∀ s, select_proposer_deterministic vs seed = Some s → s ∈ (vrf_id <$> vs)) as Hdet.
  { unfold select_proposer_deterministic, scored. intros s (sc & Hs)%min_by_score_fst_in.
    apply list_elem_of_fmap in Hs as (v & [= -> ->] & Hv).
    apply list_elem_of_fmap. eauto. }
  destruct vs as [|v0 vs']; [done|]. set (vs := v0 :: vs') in *.
  destruct (forallb (proof_ok seed) vs) eqn:Hall.
  - rewrite forallb_forall in Hall.
    apply fmap_Some in Hsel as ([i s] & Hm & ->).
    pose proof (min_by_score_spec (omap vrf_candidate vs)) as Hspec. rewrite Hm in Hspec.
    destruct Hspec as [Hin Hle].
    apply list_elem_of_omap in Hin as (v & Hv & Hvs). unfold vrf_candidate in Hvs.
    destruct (vrf_val_output v) as [o|] eqn:Ho; [|done].
    destruct (vrf_score o) as [sc|] eqn:Hsc; [|done]. injection Hvs as <- <-.
    split; [apply list_elem_of_fmap; eauto|]. split.
    + intros (w & Hw & Hf). rewrite Hall in Hf; [done|]. by apply list_elem_of_In.
    + intros _. exists v, o, sc. do 4 (split; [done|]). intros w o' s' Hw Ho' Hs'.
      apply (Hle (vrf_id w, s')). apply list_elem_of_omap. exists w. split; [done|].
      unfold vrf_candidate. by rewrite Ho', Hs'.
  - split; [by apply Hdet|]. split; [done|]. intros Hok. exfalso.
    apply not_true_iff_false in Hall. apply Hall. apply forallb_forall.
    intros v Hv. apply Hok. by apply list_elem_of_In.
Qed.

End VrfProperties.

(** ** Witnesses *)
Module VrfExamples.
Import Toy.

#[export] Instance id_rng : Rng := {| shuffle := fun _ l => rev l |}.
#[export] Instance id_rng_laws : RngLaws.
Proof. constructor. intros seed l. simpl. symmetry. apply Permutation_rev. Qed.

Definition cand (id pk : string) : VrfValidator :=
  {| vrf_id := id; vrf_pubkey := pk; vrf_val_output := None; vrf_val_proof := None |}.

Definition cands : list VrfValidator := [cand "v1" "aa"; cand "v2" "bb"; cand "v3" "cc"].

Lemma cands_distinct : distinct_scores cands "s1".
Proof. unfold distinct_scores. by apply (bool_decide_unpack _); vm_compute. Qed.

Lemma select_validators_spec_witness :
  ∃ sel, select_validators ["a"; "b"; "c"] "npm:p@1" 7 2 None = Ok sel
    ∧ length sel = 2 ∧ NoDup sel ∧ sel ⊆ ["a"; "b"; "c"].
Proof.
  apply (select_validators_spec ["a"; "b"; "c"] "npm:p@1" 7 2 None).
  by apply (bool_decide_unpack _); vm_compute.
Defined.

Definition toy_key : string := Toy.fit 32 "k1".

Lemma vrf_prove_verify_witness :
  ∃ out proof, vrf_prove "seed" (hex_encode toy_key) = Ok (out, proof)
  ∧ ∀ o, vrf_verify "seed" (hex_encode (vk_bytes (@sk_verifying_key toy_crypto toy_key))) o proof = Ok tt
         ↔ o = out.
Proof.
  apply (@vrf_prove_verify toy_crypto _ "seed" (hex_encode toy_key) toy_key toy_key); vm_compute; reflexivity.
Defined.

Lemma proposer_agreement_witness :
  select_proposer_deterministic cands "s1" = select_proposer_deterministic (rev cands) "s1".
Proof.
  refine (proj1 (proposer_agreement cands (rev cands) "s1" _ _ _)).
  - apply Permutation_rev.
  - apply cands_distinct.
  - by apply (bool_decide_unpack _); vm_compute.
Defined.

Lemma select_proposer_spec_witness :
  ∃ id, select_proposer cands "s1" = Some id ∧ id ∈ (vrf_id <$> cands).
Proof.
  eexists. split; [vm_compute; reflexivity|].
  eapply (select_proposer_spec cands "s1"). vm_compute. reflexivity.
Defined.

End VrfExamples.
