(* ===== verification/Pbft.v ===== *)
(** Three-phase PBFT block consensus ([crates/consensus/src/pbft.rs]).

    A round is the record [PbftRound], an engine a map from block hash to round.
    A method with [&mut self] that can fail returns the new state beside its
    result, because some error paths mutate before they fail.  The monotonic
    clock ([Instant::now()]) is an explicit argument [now], in nanoseconds;
    [elapsed] saturates at zero.  The tracing calls are not modelled. *)

From S2P Require Import Prelude Text Crypto Types ValidatorSet Vrf.
From Stdlib Require Import Ascii.

Definition DEFAULT_ROUND_PHASE_TIMEOUT_SECS : N := 30.
Definition DEFAULT_MAX_VIEW_CHANGES : N := 3.
Definition DEFAULT_STALE_ROUND_TTL_SECS : N := 120.
Definition DEFAULT_ALLOW_SMALL_CLUSTER_QUORUM : bool := false.
Definition PBFT_SIGNATURE_DOMAIN : string := "creg-pbft-v1".

Definition nanos_per_sec : N := 1000000000.

Inductive PbftError :=
| NotInPrePreparePhase
| ProposerNotMember
| ProposerNotFound
| VrfVerificationFailed (e : VrfError)
| NoActiveValidators
| NotSelectedProposer (expected : string)
| NotInPreparePhase
| NotInCommitPhase
| ValidatorMismatch
| ValidatorNotInSet
| ValidatorNotActive
| PubkeyMismatch
| InvalidPubkeyHex
| InvalidPubkey
| InvalidSignatureHex
| InvalidSignatureFormat
| InvalidPbftSignature
| ViewChangeLimitExhausted (limit : N)
| NoActiveRound.

#[export] Instance PbftError_eq_dec : EqDecision PbftError.
Proof. solve_decision. Defined.

Inductive PbftPhase := PrePrepare | Prepare | Commit | Finalised | Failed.

#[export] Instance PbftPhase_eq_dec : EqDecision PbftPhase.
Proof. solve_decision. Defined.

(** Durations are nanoseconds. *)
Record PbftConfig := {
  round_phase_timeout : N;
  max_view_changes : N;
  stale_round_ttl : N;
  allow_small_cluster_quorum : bool;
}.

Definition env_flag (env : string → option string) (name : string) (dflt : bool) : bool :=
  match env name with
  | None => dflt
  | Some value =>
      let v := to_ascii_lowercase (trim value) in
      if bool_decide (v ∈ ["1"; "true"; "yes"; "on"]) then true
      else if bool_decide (v ∈ ["0"; "false"; "no"; "off"]) then false
      else dflt
  end.

(** [std::env::var(name).ok().and_then(|v| v.parse().ok()).unwrap_or(dflt)] *)
Definition env_uint (env : string → option string) (max : N) (name : string) (dflt : N) : N :=
  default dflt (env name ≫= parse_uint max).

(** [impl Default for PbftConfig] *)
Definition default_config (env : string → option string) : PbftConfig := {|
  round_phase_timeout :=
    env_uint env u64_max "CREG_PBFT_TIMEOUT" DEFAULT_ROUND_PHASE_TIMEOUT_SECS * nanos_per_sec;
  max_view_changes :=
    env_uint env u32_max "CREG_PBFT_MAX_VIEW_CHANGES" DEFAULT_MAX_VIEW_CHANGES;
  stale_round_ttl :=
    env_uint env u64_max "CREG_PBFT_STALE_TTL" DEFAULT_STALE_ROUND_TTL_SECS * nanos_per_sec;
  allow_small_cluster_quorum :=
    env_flag env "CREG_PBFT_ALLOW_SMALL_CLUSTER_QUORUM" DEFAULT_ALLOW_SMALL_CLUSTER_QUORUM |}.

Record PbftRound := {
  block : Block;
  phase : PbftPhase;
  prepare_sigs : gmap string BlockSignature;
  commit_sigs : gmap string BlockSignature;
  validator_set : ValidatorSet;
  phase_entered_at : N;
  view_number : N;
  view_change_count : N;
  created_at : N;
  config : PbftConfig;
  view_change_votes : gmap N (gset string);
}.

Definition quorum_threshold (validator_count : nat) (allow_small_cluster_quorum : bool) : nat :=
  match validator_count with
  | 0 => 0
  | 3 => if allow_small_cluster_quorum then 2 else 2 * 3 / 3 + 1
  | n => 2 * n / 3 + 1
  end.

(** [PbftRound::with_config] *)
Definition with_config (now : N) (block : Block) (vs : ValidatorSet) (cfg : PbftConfig)
    : PbftRound := {|
  block := block;
  phase := PrePrepare;
  prepare_sigs := ∅;
  commit_sigs := ∅;
  validator_set := vs;
  phase_entered_at := now;
  view_number := 0;
  view_change_count := 0;
  created_at := now;
  config := cfg;
  view_change_votes := ∅ |}.

(** Field assignments of [&mut self]. *)
Definition set_phase (r : PbftRound) (p : PbftPhase) (entered : N) : PbftRound := {|
  block := block r; phase := p; prepare_sigs := prepare_sigs r; commit_sigs := commit_sigs r;
  validator_set := validator_set r; phase_entered_at := entered;
  view_number := view_number r; view_change_count := view_change_count r;
  created_at := created_at r; config := config r; view_change_votes := view_change_votes r |}.

Definition set_sigs (r : PbftRound) (ps cs : gmap string BlockSignature) : PbftRound := {|
  block := block r; phase := phase r; prepare_sigs := ps; commit_sigs := cs;
  validator_set := validator_set r; phase_entered_at := phase_entered_at r;
  view_number := view_number r; view_change_count := view_change_count r;
  created_at := created_at r; config := config r; view_change_votes := view_change_votes r |}.

Definition set_votes (r : PbftRound) (vv : gmap N (gset string)) : PbftRound := {|
  block := block r; phase := phase r; prepare_sigs := prepare_sigs r; commit_sigs := commit_sigs r;
  validator_set := validator_set r; phase_entered_at := phase_entered_at r;
  view_number := view_number r; view_change_count := view_change_count r;
  created_at := created_at r; config := config r; view_change_votes := vv |}.

Definition bump_view (r : PbftRound) : PbftRound := {|
  block := block r; phase := phase r; prepare_sigs := prepare_sigs r; commit_sigs := commit_sigs r;
  validator_set := validator_set r; phase_entered_at := phase_entered_at r;
  view_number := view_number r + 1; view_change_count := view_change_count r + 1;
  created_at := created_at r; config := config r; view_change_votes := view_change_votes r |}.

Section Pbft.
Context `{!Crypto, !Serde}.

Definition pbft_signature_message (phase block_hash : string) : string :=
  PBFT_SIGNATURE_DOMAIN +:+ ":" +:+ phase +:+ ":" +:+ block_hash.

Definition verify_pbft_phase_signature
    (phase block_hash pubkey_hex signature_hex : string) : result PbftError unit :=
  let expected_pubkey := to_ascii_lowercase (trim_0x pubkey_hex) in
  pubkey_bytes ← ok_or InvalidPubkeyHex (hex_decode expected_pubkey);
  verifying_key ← ok_or InvalidPubkey (vk_try_from pubkey_bytes);
  signature_bytes ← ok_or InvalidSignatureHex (hex_decode (trim_0x signature_hex));
  signature ← ok_or InvalidSignatureFormat (sig_try_from signature_bytes);
  let message := pbft_signature_message phase block_hash in
  ensure (verify verifying_key message signature) InvalidPbftSignature.

(** [PbftRound::quorum] *)
Definition quorum (r : PbftRound) : nat :=
  quorum_threshold (vset_len (validator_set r)) (allow_small_cluster_quorum (config r)).

(** The candidates of [pre_prepare]: active validators without VRF data. *)
Definition vrf_view (v : ValidatorInfo) : VrfValidator := {|
  vrf_id := info_id v; vrf_pubkey := info_pubkey v;
  vrf_val_output := None; vrf_val_proof := None |}.

Definition proposer_candidates (vs : ValidatorSet) : list VrfValidator :=
  vrf_view <$> active_infos vs.

Definition check_vrf (r : PbftRound) (proposer_id : string) : result PbftError unit :=
  match vrf_proof (header (block r)), vrf_output (header (block r)) with
  | Some proof, Some output =>
      validator ← ok_or ProposerNotFound (validator_set r !! proposer_id);
      map_err VrfVerificationFailed
        (vrf_verify (prev_hash (header (block r))) (info_pubkey validator) output proof)
  | _, _ => Ok tt
  end.

(** The guards of [pre_prepare], in their order. *)
Definition pre_prepare_checks (r : PbftRound) (proposer_id : string) : result PbftError unit :=
  _ ← ensure (bool_decide (phase r = PrePrepare)) NotInPrePreparePhase;
  _ ← ensure (is_member (validator_set r) proposer_id) ProposerNotMember;
  _ ← check_vrf r proposer_id;
  selected ← ok_or NoActiveValidators
    (select_proposer_deterministic (proposer_candidates (validator_set r))
       (prev_hash (header (block r))));
  ensure (String.eqb selected proposer_id) (NotSelectedProposer selected).

Definition pre_prepare (now : N) (r : PbftRound) (proposer_id : string)
    : PbftRound * result PbftError string :=
  match pre_prepare_checks r proposer_id with
  | Err e => (r, Err e)
  | Ok _ => (set_phase r Prepare now, Ok (block_hash (block r)))
  end.

Definition verify_block_signature
    (r : PbftRound) (ph validator_id : string) (sig : BlockSignature) : result PbftError unit :=
  _ ← ensure (String.eqb (bs_validator_id sig) validator_id) ValidatorMismatch;
  validator ← ok_or ValidatorNotInSet (validator_set r !! validator_id);
  _ ← ensure (info_is_active validator) ValidatorNotActive;
  let expected_pubkey := to_ascii_lowercase (trim_0x (info_pubkey validator)) in
  let supplied_pubkey := to_ascii_lowercase (trim_0x (bs_pubkey sig)) in
  _ ← ensure (String.eqb supplied_pubkey expected_pubkey) PubkeyMismatch;
  verify_pbft_phase_signature ph (block_hash (block r)) expected_pubkey (bs_signature sig).

Definition receive_prepare (now : N) (r : PbftRound) (validator_id : string)
    (sig : BlockSignature) : PbftRound * result PbftError bool :=
  if bool_decide (phase r = Prepare) then
    match verify_block_signature r "prepare" validator_id sig with
    | Err e => (r, Err e)
    | Ok _ =>
        let r := set_sigs r (<[validator_id := sig]> (prepare_sigs r)) (commit_sigs r) in
        if (quorum r <=? size (prepare_sigs r))%nat
        then (set_phase r Commit now, Ok true)
        else (r, Ok false)
    end
  else (r, Err NotInPreparePhase).

Definition receive_commit (r : PbftRound) (validator_id : string)
    (sig : BlockSignature) : PbftRound * result PbftError bool :=
  if bool_decide (phase r = Commit) then
    match verify_block_signature r "commit" validator_id sig with
    | Err e => (r, Err e)
    | Ok _ =>
        let r := set_sigs r (prepare_sigs r) (<[validator_id := sig]> (commit_sigs r)) in
        if (quorum r <=? size (commit_sigs r))%nat then
          let approvals := size (commit_sigs r) in
          if (quorum r <=? approvals)%nat
          then (set_phase r Finalised (phase_entered_at r), Ok true)
          else (set_phase r Failed (phase_entered_at r), Ok false)
        else (r, Ok false)
    end
  else (r, Err NotInCommitPhase).

Definition finalised_signatures (r : PbftRound) : list BlockSignature :=
  hm_values (commit_sigs r).

(** [PbftRound::is_terminal] *)
Definition is_terminal (r : PbftRound) : bool :=
  match phase r with
  | Finalised | Failed => true
  | _ => false
  end.

Definition is_phase_timed_out (now : N) (r : PbftRound) : bool :=
  match phase r with
  | Finalised | Failed => false
  | _ => (round_phase_timeout (config r) <? now - phase_entered_at r)%N
  end.

Definition trigger_view_change (now : N) (r : PbftRound) : PbftRound * result PbftError N :=
  if (max_view_changes (config r) <=? view_change_count r)%N
  then (set_phase r Failed (phase_entered_at r),
        Err (ViewChangeLimitExhausted (max_view_changes (config r))))
  else
    let r := set_phase (set_sigs (bump_view r) ∅ ∅) PrePrepare now in
    (r, Ok (view_number r)).

Definition record_view_change (now : N) (r : PbftRound) (validator_id : string) (new_view : N)
    : PbftRound * result PbftError bool :=
  let threshold := vset_len (validator_set r) / 3 + 1 in
  let votes := default ∅ (view_change_votes r !! new_view) ∪ {[validator_id]} in
  let r := set_votes r (<[new_view := votes]> (view_change_votes r)) in
  if ((threshold <=? size votes)%nat && (view_number r <? new_view)%N) then
    match trigger_view_change now r with
    | (r', Err e) => (r', Err e)
    | (r', Ok _) => (r', Ok true)
    end
  else (r, Ok false).

(** ** The engine *)

Record PbftEngine := {
  rounds : gmap string PbftRound;
  engine_config : PbftConfig;
}.

Record ViewChangeSignal := { sig_block_hash : string; sig_new_view : N }.

(** [PbftEngine::with_config] *)
Definition engine_with_config (cfg : PbftConfig) : PbftEngine :=
  {| rounds := ∅; engine_config := cfg |}.

Definition set_rounds (e : PbftEngine) (rs : gmap string PbftRound) : PbftEngine :=
  {| rounds := rs; engine_config := engine_config e |}.

(** Run a round operation on the round of a block. *)
Definition on_round {A : Type} (e : PbftEngine) (bh : string)
    (f : PbftRound → PbftRound * result PbftError A) : PbftEngine * result PbftError A :=
  match rounds e !! bh with
  | None => (e, Err NoActiveRound)
  | Some r => let '(r', res) := f r in (set_rounds e (<[bh := r']> (rounds e)), res)
  end.

Definition start_round (now : N) (e : PbftEngine) (b : Block) (vs : ValidatorSet)
    : PbftEngine * result PbftError string :=
  let hash := block_hash b in
  let round := with_config now b vs (engine_config e) in
  match pre_prepare now round (proposer_id (header b)) with
  | (_, Err err) => (e, Err err)
  | (round', Ok _) => (set_rounds e (<[hash := round']> (rounds e)), Ok hash)
  end.

(** [PbftEngine::prepare], [PbftEngine::commit], [PbftEngine::receive_view_change] *)
Definition engine_prepare (now : N) (e : PbftEngine) (bh vid : string) (sig : BlockSignature) :=
  on_round e bh (λ r, receive_prepare now r vid sig).

Definition engine_commit (e : PbftEngine) (bh vid : string) (sig : BlockSignature) :=
  on_round e bh (λ r, receive_commit r vid sig).

Definition receive_view_change (now : N) (e : PbftEngine) (bh vid : string) (new_view : N) :=
  on_round e bh (λ r, record_view_change now r vid new_view).

Definition finalised_sigs (e : PbftEngine) (bh : string) : list BlockSignature :=
  match rounds e !! bh with
  | Some r => finalised_signatures r
  | None => []
  end.

Definition get_finalised_block (e : PbftEngine) (bh : string) : option Block :=
  round ← rounds e !! bh;
  if bool_decide (phase round = Finalised) then
    Some {| header := header (block round);
            transactions := transactions (block round);
            pbft_signatures := finalised_signatures round |}
  else None.

(** One iteration of the loop of [timeout_rounds]. *)
Definition timeout_one (now : N) (acc : PbftEngine * list ViewChangeSignal) (hash : string)
    : PbftEngine * list ViewChangeSignal :=
  let '(e, signals) := acc in
  match rounds e !! hash with
  | None => (e, signals)
  | Some r =>
      match trigger_view_change now r with
      | (r', Ok new_view) =>
          (set_rounds e (<[hash := r']> (rounds e)),
           signals ++ [{| sig_block_hash := hash; sig_new_view := new_view |}])
      | (r', Err _) => (set_rounds e (<[hash := r']> (rounds e)), signals)
      end
  end.

Definition timed_out_hashes (now : N) (e : PbftEngine) : list string :=
  keys_where (is_phase_timed_out now) (rounds e).

Definition timeout_rounds (now : N) (e : PbftEngine) : PbftEngine * list ViewChangeSignal :=
  foldl (timeout_one now) (e, []) (timed_out_hashes now e).

Definition stale_hashes (now : N) (e : PbftEngine) : list string :=
  keys_where (λ r, is_terminal r && (stale_round_ttl (engine_config e) <? now - created_at r)%N)
    (rounds e).

Definition cleanup_stale_rounds (now : N) (e : PbftEngine) : PbftEngine * nat :=
  let stale := stale_hashes now e in
  (set_rounds e (foldl (λ m h, delete h m) (rounds e) stale), length stale).

Definition active_round_count (e : PbftEngine) : nat := size (rounds e).

End Pbft.

(** ** Quorum arithmetic *)

Lemma quorum_threshold_strict (n : nat) : n ≠ 0 → quorum_threshold n false = 2 * n / 3 + 1.
Proof. intros Hn. destruct n as [|[|[|[|n]]]]; done. Qed.

Lemma div3_bounds (n : nat) : 3 * (n / 3) ≤ n < 3 * (n / 3) + 3.
Proof.
  pose proof (Nat.div_mod_eq n 3). pose proof (Nat.mod_upper_bound n 3). lia.
Qed.

Lemma quorum_overlap (n : nat) :
  n ≠ 0 → n + (n / 3 + 1) ≤ 2 * quorum_threshold n false.
Proof.
  intros Hn. rewrite quorum_threshold_strict by done.
  pose proof (div3_bounds n). pose proof (div3_bounds (2 * n)). lia.
Qed.

Lemma quorum_le_live (n f : nat) :
  n ≠ 0 → 3 * f < n → quorum_threshold n false ≤ n - f.
Proof.
  intros Hn Hf. rewrite quorum_threshold_strict by done.
  pose proof (div3_bounds (2 * n)). lia.
Qed.

Lemma quorum_threshold_le (n : nat) (c : bool) : quorum_threshold n c ≤ n.
Proof.
  destruct (decide (n = 0)) as [->|Hn]; [done|].
  assert (quorum_threshold n false ≤ n) by (pose proof (quorum_le_live n 0); lia).
  destruct c; [|done]. destruct n as [|[|[|[|n]]]]; simpl in *; lia.
Qed.

Lemma quorum_threshold_pos (n : nat) (c : bool) : n ≠ 0 → 0 < quorum_threshold n c.
Proof. destruct n as [|[|[|[|n]]]], c; simpl; lia. Qed.

(** Strict PBFT quorums: any two quorums of active validators share more than
    a third of the set, hence a validator outside any set of at most a third of
    them; and any fewer than a third absent validators leave a quorum. *)
Theorem quorum_intersection (vs : ValidatorSet) (Q1 Q2 B : gset string) :
  let q := quorum_threshold (vset_len vs) false in
  Q1 ⊆ members vs → Q2 ⊆ members vs → q ≤ size Q1 → q ≤ size Q2 →
  vset_len vs ≠ 0 →
  vset_len vs / 3 + 1 ≤ size (Q1 ∩ Q2)
  ∧ (3 * size B ≤ vset_len vs → ∃ v, v ∈ Q1 ∧ v ∈ Q2 ∧ v ∉ B)
  ∧ (3 * size B < vset_len vs → q ≤ size (members vs ∖ B)).
Proof.
  intros q H1 H2 Hs1 Hs2 Hn.
  assert (vset_len vs / 3 + 1 ≤ size (Q1 ∩ Q2)) as Hint.
  { pose proof (set_overlap (members vs) Q1 Q2 H1 H2) as Ho.
    rewrite <- vset_len_members in Ho. pose proof (quorum_overlap _ Hn). lia. }
  split; [done|]. split.
  - intros HB. destruct (set_excess (Q1 ∩ Q2) B) as (v & Hv & HvB).
    + pose proof (div3_bounds (vset_len vs)). lia.
    + set_solver.
  - intros HB. pose proof (quorum_le_live _ _ Hn HB) as Hq. unfold q.
    pose proof (size_union_alt B (members vs)) as Hu.
    assert (size (members vs) ≤ size (B ∪ members vs)) by (apply subseteq_size; set_solver).
    rewrite vset_len_members in *. lia.
Qed.

(** ** Rounds as a state machine *)
Section Rounds.
Context `{!Crypto, !Serde}.

Inductive RoundOp :=
| RPrePrepare (proposer_id : string)
| RPrepare (validator_id : string) (sig : BlockSignature)
| RCommit (validator_id : string) (sig : BlockSignature)
| RViewChange (validator_id : string) (new_view : N)
| RTimeout.

Definition round_apply (now : N) (r : PbftRound) (op : RoundOp) : PbftRound :=
  match op with
  | RPrePrepare p => (pre_prepare now r p).1
  | RPrepare v s => (receive_prepare now r v s).1
  | RCommit v s => (receive_commit r v s).1
  | RViewChange v n => (record_view_change now r v n).1
  | RTimeout => (trigger_view_change now r).1
  end.

Inductive reachable (b : Block) (vs : ValidatorSet) (cfg : PbftConfig) : PbftRound → Prop :=
| reach_init now : reachable b vs cfg (with_config now b vs cfg)
| reach_step r now op : reachable b vs cfg r → reachable b vs cfg (round_apply now r op).

(** Every stored signature is filed under its signer and verifies in its phase. *)
Definition sigs_ok (r : PbftRound) (ph : string) (m : gmap string BlockSignature) : Prop :=
  map_Forall (λ v s, verify_block_signature r ph v s = Ok tt) m.

Definition phase_inv (r : PbftRound) : Prop :=
  match phase r with
  | PrePrepare => prepare_sigs r = ∅ ∧ commit_sigs r = ∅
  | Prepare => commit_sigs r = ∅
  | Commit => quorum r ≤ size (prepare_sigs r)
  | Finalised => quorum r ≤ size (prepare_sigs r) ∧ quorum r ≤ size (commit_sigs r)
  | Failed => True
  end.

Record round_inv (b : Block) (vs : ValidatorSet) (cfg : PbftConfig) (r : PbftRound) : Prop := {
  inv_block : block r = b;
  inv_vs : validator_set r = vs;
  inv_cfg : config r = cfg;
  inv_prepare : sigs_ok r "prepare" (prepare_sigs r);
  inv_commit : sigs_ok r "commit" (commit_sigs r);
  inv_phase : phase_inv r;
  inv_view : view_number r = view_change_count r;
  inv_view_max : (view_change_count r ≤ max_view_changes cfg)%N;
}.

(** Signature checks depend on the block and the validator set only. *)
Lemma verify_block_signature_ext (r r' : PbftRound) (ph v : string) (s : BlockSignature) :
  block r' = block r → validator_set r' = validator_set r →
  verify_block_signature r' ph v s = verify_block_signature r ph v s.
Proof. unfold verify_block_signature. by intros -> ->. Qed.

Lemma sigs_ok_ext (r r' : PbftRound) (ph : string) (m : gmap string BlockSignature) :
  block r' = block r → validator_set r' = validator_set r →
  sigs_ok r ph m → sigs_ok r' ph m.
Proof.
  intros Hb Hv Hok v s Hs. rewrite (verify_block_signature_ext r r') by done. by apply Hok.
Qed.

Lemma sigs_ok_insert (r : PbftRound) (ph v : string) (s : BlockSignature)
    (m : gmap string BlockSignature) :
  verify_block_signature r ph v s = Ok tt → sigs_ok r ph m → sigs_ok r ph (<[v := s]> m).
Proof. intros. by apply map_Forall_insert_2. Qed.

Lemma round_inv_init (now : N) (b : Block) (vs : ValidatorSet) (cfg : PbftConfig) :
  round_inv b vs cfg (with_config now b vs cfg).
Proof.
  constructor; simpl; try done; [apply map_Forall_empty..|apply N.le_0_l].
Qed.

Lemma round_inv_set_phase (b : Block) (vs : ValidatorSet) (cfg : PbftConfig)
    (r : PbftRound) (p : PbftPhase) (t : N) :
  round_inv b vs cfg r → phase_inv (set_phase r p t) → round_inv b vs cfg (set_phase r p t).
Proof. intros [] Hp. by constructor. Qed.

Lemma trigger_view_change_inv (b : Block) (vs : ValidatorSet) (cfg : PbftConfig)
    (now : N) (r : PbftRound) :
  round_inv b vs cfg r → round_inv b vs cfg (trigger_view_change now r).1.
Proof.
  intros Hinv. unfold trigger_view_change.
  destruct (N.leb_spec (max_view_changes (config r)) (view_change_count r)) as [Hle|Hlt]; simpl.
  - by apply round_inv_set_phase.
  - destruct Hinv. constructor; simpl; try done; [apply map_Forall_empty..| |]; subst; lia.
Qed.

Lemma round_inv_set_votes (b : Block) (vs : ValidatorSet) (cfg : PbftConfig)
    (r : PbftRound) (vv : gmap N (gset string)) :
  round_inv b vs cfg r → round_inv b vs cfg (set_votes r vv).
Proof. intros []. by constructor. Qed.

Lemma receive_prepare_inv (b : Block) (vs : ValidatorSet) (cfg : PbftConfig)
    (now : N) (r : PbftRound) (v : string) (s : BlockSignature) :
  round_inv b vs cfg r → round_inv b vs cfg (receive_prepare now r v s).1.
Proof.
  intros Hinv. unfold receive_prepare. case_bool_decide as Hp; [|done].
  destruct (verify_block_signature r "prepare" v s) as [[]|] eqn:Hs; [|done].
  set (r1 := set_sigs r _ _).
  assert (round_inv b vs cfg r1) as Hinv1.
  { destruct Hinv. constructor; try done.
    - apply (sigs_ok_ext r); [done..|]. by apply sigs_ok_insert.
    - unfold phase_inv in *. simpl. by rewrite Hp in *. }
  destruct (Nat.leb_spec (quorum r1) (size (prepare_sigs r1))); simpl; [|done].
  by apply round_inv_set_phase.
Qed.

Lemma receive_commit_inv (b : Block) (vs : ValidatorSet) (cfg : PbftConfig)
    (r : PbftRound) (v : string) (s : BlockSignature) :
  round_inv b vs cfg r → round_inv b vs cfg (receive_commit r v s).1.
Proof.
  intros Hinv. unfold receive_commit. case_bool_decide as Hp; [|done].
  destruct (verify_block_signature r "commit" v s) as [[]|] eqn:Hs; [|done].
  set (r1 := set_sigs r _ _).
  assert (round_inv b vs cfg r1 ∧ quorum r1 ≤ size (prepare_sigs r1)) as [Hinv1 Hq].
  { destruct Hinv. unfold phase_inv in *. rewrite Hp in *. split; [|done]. constructor; try done.
    - apply (sigs_ok_ext r); [done..|]. by apply sigs_ok_insert.
    - unfold phase_inv. simpl. by rewrite Hp. }
  destruct (Nat.leb_spec (quorum r1) (size (commit_sigs r1))); simpl; [|done].
  by apply round_inv_set_phase.
Qed.

Lemma record_view_change_inv (b : Block) (vs : ValidatorSet) (cfg : PbftConfig)
    (now : N) (r : PbftRound) (v : string) (n : N) :
  round_inv b vs cfg r → round_inv b vs cfg (record_view_change now r v n).1.
Proof.
  intros Hinv. unfold record_view_change. set (r1 := set_votes r _).
  assert (round_inv b vs cfg r1) as Hinv1 by by apply round_inv_set_votes.
  destruct (_ && _); [|done].
  pose proof (trigger_view_change_inv b vs cfg now r1 Hinv1).
  by destruct (trigger_view_change now r1) as [r' []].
Qed.

Lemma pre_prepare_inv (b : Block) (vs : ValidatorSet) (cfg : PbftConfig)
    (now : N) (r : PbftRound) (p : string) :
  round_inv b vs cfg r → round_inv b vs cfg (pre_prepare now r p).1.
Proof.
  intros Hinv. unfold pre_prepare, pre_prepare_checks. case_bool_decide as Hp; [|done].
  simpl. destruct (_ ≫= _); [|done]. simpl. apply round_inv_set_phase; [done|].
  destruct Hinv. unfold phase_inv in *. rewrite Hp in *. naive_solver.
Qed.

Lemma round_inv_apply (b : Block) (vs : ValidatorSet) (cfg : PbftConfig)
    (now : N) (r : PbftRound) (op : RoundOp) :
  round_inv b vs cfg r → round_inv b vs cfg (round_apply now r op).
Proof.
  destruct op; simpl; auto using pre_prepare_inv, receive_prepare_inv, receive_commit_inv,
    record_view_change_inv, trigger_view_change_inv.
Qed.

(** A history of timed operations. *)
Definition run_round (r : PbftRound) (ops : list (N * RoundOp)) : PbftRound :=
  foldl (λ r o, round_apply o.1 r o.2) r ops.

Lemma reachable_run (b : Block) (vs : ValidatorSet) (cfg : PbftConfig) (r : PbftRound)
    (ops : list (N * RoundOp)) :
  reachable b vs cfg r → reachable b vs cfg (run_round r ops).
Proof.
  unfold run_round. revert r. induction ops as [|o ops IH]; intros r Hr; [done|].
  simpl. apply IH. by constructor.
Qed.

Lemma reachable_inv (b : Block) (vs : ValidatorSet) (cfg : PbftConfig) (r : PbftRound) :
  reachable b vs cfg r → round_inv b vs cfg r.
Proof. induction 1; auto using round_inv_init, round_inv_apply. Qed.

(** What a successful check of a phase signature establishes. *)
Lemma verify_block_signature_Ok (r : PbftRound) (ph v : string) (s : BlockSignature) :
  verify_block_signature r ph v s = Ok tt ↔
  bs_validator_id s = v
  ∧ ∃ info, validator_set r !! v = Some info ∧ info_is_active info = true
    ∧ to_ascii_lowercase (trim_0x (bs_pubkey s)) = to_ascii_lowercase (trim_0x (info_pubkey info))
    ∧ verify_pbft_phase_signature ph (block_hash (block r))
        (to_ascii_lowercase (trim_0x (info_pubkey info))) (bs_signature s) = Ok tt.
Proof.
  unfold verify_block_signature. split.
  - intros Hok. res_inv. rewrite ->String.eqb_eq in *. eauto 8.
  - intros (Hv & info & Hl & Ha & Hpk & Hs). rewrite Hv, String.eqb_refl. simpl.
    rewrite Hl. simpl. rewrite Ha. simpl. rewrite Hpk, String.eqb_refl. done.
Qed.

Lemma sigs_ok_members (r : PbftRound) (ph : string) (m : gmap string BlockSignature) :
  sigs_ok r ph m → dom m ⊆ members (validator_set r).
Proof.
  intros Hok v [s Hs]%elem_of_dom. apply elem_of_members. unfold is_member.
  apply Hok, verify_block_signature_Ok in Hs as (_ & info & -> & Ha & _). done.
Qed.

End Rounds.

(** ** Safety of a round *)
Section Safety.
Context `{!Crypto, !Serde}.

(** The signature [s] is a valid vote of the active member [v] for the hash [h]: what
    [verify_block_signature] accepts in a round of the block with that hash. *)
Definition valid_vote (vs : ValidatorSet) (ph h v : string) (s : BlockSignature) : Prop :=
  bs_validator_id s = v
  ∧ ∃ info, vs !! v = Some info ∧ info_is_active info = true
    ∧ to_ascii_lowercase (trim_0x (bs_pubkey s)) = to_ascii_lowercase (trim_0x (info_pubkey info))
    ∧ verify_pbft_phase_signature ph h (to_ascii_lowercase (trim_0x (info_pubkey info)))
        (bs_signature s) = Ok tt.

(** The vote [s] of [v] is among the messages that a node received. *)
Definition got_prepare (ops : list (N * RoundOp)) (v : string) (s : BlockSignature) : Prop :=
  ∃ now, (now, RPrepare v s) ∈ ops.
Definition got_commit (ops : list (N * RoundOp)) (v : string) (s : BlockSignature) : Prop :=
  ∃ now, (now, RCommit v s) ∈ ops.

(** What a node stores for a validator in a step was there, or is the vote that arrived. *)
Lemma round_apply_stored (now : N) (r : PbftRound) (op : RoundOp) (v : string) (s : BlockSignature) :
  (prepare_sigs (round_apply now r op) !! v = Some s → op = RPrepare v s ∨ prepare_sigs r !! v = Some s)
  ∧ (commit_sigs (round_apply now r op) !! v = Some s → op = RCommit v s ∨ commit_sigs r !! v = Some s).
Proof.
  assert (∀ r', prepare_sigs (trigger_view_change now r').1 !! v = Some s → prepare_sigs r' !! v = Some s) as Htp.
  { intros r'. unfold trigger_view_change. by case_match. }
  assert (∀ r', commit_sigs (trigger_view_change now r').1 !! v = Some s → commit_sigs r' !! v = Some s) as Htc.
  { intros r'. unfold trigger_view_change. by case_match. }
  destruct op as [p|v' s'|v' s'|v' n|]; cbn [round_apply].
  - unfold pre_prepare. case_match; auto.
  - unfold receive_prepare. case_bool_decide; [|auto]. case_match; [|auto]. set (r1 := set_sigs _ _ _).
    assert (prepare_sigs r1 !! v = Some s → RPrepare v' s' = RPrepare v s ∨ prepare_sigs r !! v = Some s) as Hp.
    { cbn. rewrite lookup_insert. case_decide; [|by right]. intros [= ->]. left. by subst. }
    case_match; auto.
  - unfold receive_commit. case_bool_decide; [|auto]. case_match; [|auto]. set (r1 := set_sigs _ _ _).
    assert (commit_sigs r1 !! v = Some s → RCommit v' s' = RCommit v s ∨ commit_sigs r !! v = Some s) as Hp.
    { cbn. rewrite lookup_insert. case_decide; [|by right]. intros [= ->]. left. by subst. }
    repeat case_match; auto.
  - unfold record_view_change. set (r1 := set_votes r _). case_match; [|auto].
    pose proof (Htp r1). pose proof (Htc r1). destruct (trigger_view_change now r1) as [r' []]; auto.
  - auto.
Qed.

Lemma run_round_stored (now : N) (b : Block) (vs : ValidatorSet) (cfg : PbftConfig) (ops : list (N * RoundOp))
    (v : string) (s : BlockSignature) :
  (prepare_sigs (run_round (with_config now b vs cfg) ops) !! v = Some s → got_prepare ops v s)
  ∧ (commit_sigs (run_round (with_config now b vs cfg) ops) !! v = Some s → got_commit ops v s).
Proof.
  unfold run_round, got_prepare, got_commit. induction ops as [|[t op] ops IH] using rev_ind; [done|].
  rewrite foldl_app. cbn [foldl fst snd]. destruct IH as [IHp IHc].
  destruct (round_apply_stored t (foldl (λ r o, round_apply o.1 r o.2) (with_config now b vs cfg) ops) op v s) as [Hp Hc].
  split; intros Hs; [destruct (Hp Hs) as [->|Hs']|destruct (Hc Hs) as [->|Hs']]; try (exists t; set_solver).
  - destruct (IHp Hs') as [t' ?]. exists t'. set_solver.
  - destruct (IHc Hs') as [t' ?]. exists t'. set_solver.
Qed.

(** The certificates of a finalised round: a quorum of distinct active validators for each phase,
    whose valid votes the node received. *)
Lemma finalised_quorums (now : N) (b : Block) (vs : ValidatorSet) (cfg : PbftConfig) (ops : list (N * RoundOp)) :
  let r := run_round (with_config now b vs cfg) ops in
  phase r = Finalised →
  let q := quorum_threshold (vset_len vs) (allow_small_cluster_quorum cfg) in
  let Qp := dom (prepare_sigs r) in
  let Qc := dom (commit_sigs r) in
  Qp ⊆ members vs ∧ Qc ⊆ members vs ∧ q ≤ size Qp ∧ q ≤ size Qc
  ∧ (∀ v, v ∈ Qp → ∃ s, got_prepare ops v s ∧ valid_vote vs "prepare" (block_hash b) v s)
  ∧ (∀ v, v ∈ Qc → ∃ s, got_commit ops v s ∧ valid_vote vs "commit" (block_hash b) v s).
Proof.
  intros r Hph. pose proof (run_round_stored now b vs cfg ops) as Hst. fold r in Hst.
  assert (reachable b vs cfg r) as Hr by apply reachable_run, reach_init.
  destruct (reachable_inv _ _ _ _ Hr) as [Hb Hvs Hc Hp Hco Hphi _ _].
  unfold phase_inv, quorum in Hphi. rewrite Hph, Hvs, Hc in Hphi. cbn zeta. rewrite !size_dom.
  pose proof (sigs_ok_members _ _ _ Hp) as Hmp. pose proof (sigs_ok_members _ _ _ Hco) as Hmc. rewrite Hvs in Hmp, Hmc.
  split_and!; try naive_solver.
  - intros v [s Hs]%elem_of_dom. exists s. split; [by apply Hst|].
    apply Hp, verify_block_signature_Ok in Hs. by rewrite Hb, Hvs in Hs.
  - intros v [s Hs]%elem_of_dom. exists s. split; [by apply Hst|].
    apply Hco, verify_block_signature_Ok in Hs. by rewrite Hb, Hvs in Hs.
Qed.

(** A round finalises only on certificates: after any sequence of proposals, prepares, commits,
    view-change certificates and timeouts, a finalised block has a quorum of distinct active
    validators whose valid PREPARE votes for its hash the node received, and a quorum of COMMITs. *)
Theorem finalised_has_certificates (now : N) (b : Block) (vs : ValidatorSet) (cfg : PbftConfig)
    (ops : list (N * RoundOp)) :
  phase (run_round (with_config now b vs cfg) ops) = Finalised →
  let q := quorum_threshold (vset_len vs) (allow_small_cluster_quorum cfg) in
  ∃ Qp Qc : gset string,
    Qp ⊆ members vs ∧ Qc ⊆ members vs ∧ q ≤ size Qp ∧ q ≤ size Qc
    ∧ (∀ v, v ∈ Qp → ∃ s, got_prepare ops v s ∧ valid_vote vs "prepare" (block_hash b) v s)
    ∧ (∀ v, v ∈ Qc → ∃ s, got_commit ops v s ∧ valid_vote vs "commit" (block_hash b) v s).
Proof. intros Hph q. eexists _, _. by apply (finalised_quorums now b vs cfg ops). Qed.

(** The members whose commits finalised both of two rounds. *)
Lemma double_signers (now1 now2 : N) (b1 b2 : Block) (vs : ValidatorSet) (cfg1 cfg2 : PbftConfig)
    (ops1 ops2 : list (N * RoundOp)) :
  phase (run_round (with_config now1 b1 vs cfg1) ops1) = Finalised →
  phase (run_round (with_config now2 b2 vs cfg2) ops2) = Finalised →
  allow_small_cluster_quorum cfg1 = false → allow_small_cluster_quorum cfg2 = false →
  vset_len vs ≠ 0 →
  ∃ S : gset string, S ⊆ members vs ∧ vset_len vs / 3 + 1 ≤ size S
    ∧ ∀ v, v ∈ S → ∃ s1 s2,
        got_commit ops1 v s1 ∧ valid_vote vs "commit" (block_hash b1) v s1
        ∧ got_commit ops2 v s2 ∧ valid_vote vs "commit" (block_hash b2) v s2.
Proof.
  intros Hp1 Hp2 Hc1 Hc2 Hn.
  destruct (finalised_quorums now1 b1 vs cfg1 ops1 Hp1) as (_ & Hm1 & _ & Hq1 & _ & Hs1).
  destruct (finalised_quorums now2 b2 vs cfg2 ops2 Hp2) as (_ & Hm2 & _ & Hq2 & _ & Hs2).
  rewrite Hc1 in Hq1. rewrite Hc2 in Hq2.
  set (Q1 := dom (commit_sigs _)) in Hm1, Hq1, Hs1. set (Q2 := dom (commit_sigs _)) in Hm2, Hq2, Hs2.
  pose proof (set_overlap (members vs) Q1 Q2 Hm1 Hm2) as Ho.
  rewrite <- vset_len_members in Ho. pose proof (quorum_overlap _ Hn).
  exists (Q1 ∩ Q2). split; [set_solver|]. split; [lia|]. intros v Hv.
  destruct (Hs1 v) as (s1 & ? & ?); [set_solver|]. destruct (Hs2 v) as (s2 & ? & ?); [set_solver|]. eauto 10.
Qed.

(** C2. Accountable safety: whenever two nodes with the same validator set and strict quorums
    finalise two blocks, whatever messages each of them received, the messages that they received
    hold, for each of more than a third of the members, a valid COMMIT of that member for either
    block; so if the blocks differ, the two nodes together can show that many double signers. *)
Theorem conflicting_finality_accountable (now1 now2 : N) (b1 b2 : Block) (vs : ValidatorSet)
    (cfg1 cfg2 : PbftConfig) (ops1 ops2 : list (N * RoundOp)) :
  phase (run_round (with_config now1 b1 vs cfg1) ops1) = Finalised →
  phase (run_round (with_config now2 b2 vs cfg2) ops2) = Finalised →
  allow_small_cluster_quorum cfg1 = false → allow_small_cluster_quorum cfg2 = false →
  vset_len vs ≠ 0 →
  ∃ S : gset string, S ⊆ members vs ∧ vset_len vs / 3 + 1 ≤ size S
    ∧ ∀ v, v ∈ S → ∃ s1 s2,
        got_commit ops1 v s1 ∧ valid_vote vs "commit" (block_hash b1) v s1
        ∧ got_commit ops2 v s2 ∧ valid_vote vs "commit" (block_hash b2) v s2.
Proof. apply double_signers. Qed.

(** C1. Agreement.  Two nodes with the same validator set and strict quorums never finalise blocks
    with different hashes, when at most a third of the members are Byzantine and every other
    member sticks to one hash: of its valid COMMITs, those that either node received are for the
    hash that it chose, which may differ from member to member.  (That a member sticks to one hash
    is the assumption of the protocol; a node does not keep to it for its PREPAREs, see
    [NodeState.node_prepares_conflicting].) *)
Theorem pbft_agreement (now1 now2 : N) (b1 b2 : Block) (vs : ValidatorSet) (cfg1 cfg2 : PbftConfig)
    (ops1 ops2 : list (N * RoundOp)) (B : gset string) (choice : string → string) :
  phase (run_round (with_config now1 b1 vs cfg1) ops1) = Finalised →
  phase (run_round (with_config now2 b2 vs cfg2) ops2) = Finalised →
  allow_small_cluster_quorum cfg1 = false → allow_small_cluster_quorum cfg2 = false →
  vset_len vs ≠ 0 → 3 * size B ≤ vset_len vs →
  (∀ v s, v ∈ members vs → v ∉ B → got_commit ops1 v s →
     valid_vote vs "commit" (block_hash b1) v s → block_hash b1 = choice v) →
  (∀ v s, v ∈ members vs → v ∉ B → got_commit ops2 v s →
     valid_vote vs "commit" (block_hash b2) v s → block_hash b2 = choice v) →
  block_hash b1 = block_hash b2.
Proof.
  intros Hp1 Hp2 Hc1 Hc2 Hn HB Hh1 Hh2.
  destruct (double_signers now1 now2 b1 b2 vs cfg1 cfg2 ops1 ops2 Hp1 Hp2 Hc1 Hc2 Hn) as (S & Hm & Hsize & Hs).
  pose proof (div3_bounds (vset_len vs)).
  destruct (set_excess S B) as (v & Hv & HvB); [lia|].
  destruct (Hs v Hv) as (s1 & s2 & Hg1 & Hv1 & Hg2 & Hv2).
  rewrite (Hh1 v s1), (Hh2 v s2); auto.
Qed.

(** Domain separation: the signed PBFT message determines phase and block
    hash, so a PREPARE signature is never a COMMIT signature, for any block. *)
Theorem pbft_message_binds (ph1 ph2 h1 h2 : string) :
  free_of ":" ph1 = true → free_of ":" ph2 = true →
  pbft_signature_message ph1 h1 = pbft_signature_message ph2 h2 → ph1 = ph2 ∧ h1 = h2.
Proof.
  unfold pbft_signature_message. intros H1 H2 Heq.
  apply app_inj_l, app_inj_l in Heq. change (":" +:+ ?x) with (String ":" x) in Heq.
  by apply sep_split_l in Heq.
Qed.

(** A rejected message has no effect: proposals, prepares and commits that
    return an error leave the round exactly as it was. *)
Theorem rejected_message_no_effect (now : N) (r : PbftRound) (v : string)
    (s : BlockSignature) (e : PbftError) :
  ((pre_prepare now r v).2 = Err e → (pre_prepare now r v).1 = r)
  ∧ ((receive_prepare now r v s).2 = Err e → (receive_prepare now r v s).1 = r)
  ∧ ((receive_commit r v s).2 = Err e → (receive_commit r v s).1 = r).
Proof.
  unfold pre_prepare, receive_prepare, receive_commit. repeat split; repeat case_match; done.
Qed.

(** ** View changes *)

Lemma timeouts_count (n : nat) (now : N) (r : PbftRound) :
  (view_change_count r + N.of_nat n ≤ max_view_changes (config r))%N →
  let r' := Nat.iter n (λ r, (trigger_view_change now r).1) r in
  view_change_count r' = (view_change_count r + N.of_nat n)%N ∧ config r' = config r.
Proof.
  induction n as [|n IH]; intros Hle; [simpl; split; [lia|done]|].
  cbn zeta. rewrite Nat.iter_succ. destruct IH as [Hc Hcfg]; [lia|].
  set (r1 := Nat.iter n _ r) in *. unfold trigger_view_change.
  rewrite Hcfg. destruct (N.leb_spec (max_view_changes (config r)) (view_change_count r1)); simpl;
    [lia|]. split; [lia|done].
Qed.

(** View changes are bounded: in every reachable state the view number equals
    the number of view changes and never exceeds the configured limit (so the
    [u32] counters cannot overflow), and once the remaining budget is used up the
    next timeout abandons the round with an error. *)
Theorem view_changes_bounded (b : Block) (vs : ValidatorSet) (cfg : PbftConfig)
    (r : PbftRound) (now : N) :
  reachable b vs cfg r → (max_view_changes cfg ≤ u32_max)%N →
  let left := N.to_nat (max_view_changes cfg - view_change_count r) in
  let last := Nat.iter left (λ r, (trigger_view_change now r).1) r in
  view_number r = view_change_count r
  ∧ (view_number r ≤ u32_max)%N
  ∧ phase (trigger_view_change now last).1 = Failed
  ∧ (trigger_view_change now last).2 = Err (ViewChangeLimitExhausted (max_view_changes cfg)).
Proof.
  intros Hr Hmax left last0. destruct (reachable_inv _ _ _ _ Hr) as [_ _ Hc _ _ _ Hv Hm].
  split; [done|]. split; [lia|].
  destruct (timeouts_count left now r) as [Hcount Hcfg]; [subst; lia|]. fold last0 in Hcount, Hcfg.
  unfold trigger_view_change. rewrite Hcfg, Hc.
  destruct (N.leb_spec (max_view_changes cfg) (view_change_count last0)); [done|lia].
Qed.

(** Fewer than [n/3+1] certificates for a view are only recorded. *)
Lemma collect_below (now : N) (r : PbftRound) (nv : N) (l : list string) :
  view_change_votes r !! nv = None →
  NoDup l → length l ≤ vset_len (validator_set r) / 3 →
  ∃ vv, foldl (λ r v, (record_view_change now r v nv).1) r l = set_votes r vv
    ∧ default ∅ (vv !! nv) = (list_to_set l : gset string).
Proof.
  intros Hnone. induction l as [|y l IH] using rev_ind; intros Hnd Hlen.
  - exists (view_change_votes r). rewrite Hnone. by destruct r.
  - rewrite length_app, length_cons in Hlen. apply NoDup_app in Hnd as (Hnd & Hy & _).
    destruct IH as (vv & Hf & Hvv); [done|lia|].
    rewrite foldl_app, Hf. simpl. unfold record_view_change. simpl. rewrite Hvv.
    rewrite size_union by set_solver. rewrite size_list_to_set, size_singleton by done.
    destruct (Nat.leb_spec (vset_len (validator_set r) / 3 + 1) (length l + 1)); [lia|].
    simpl. eexists. split; [done|]. rewrite lookup_insert_eq. simpl.
    rewrite list_to_set_app_L. set_solver.
Qed.

(** A finalised round is not final: [record_view_change] checks neither that the
    voters belong to the validator set nor that the round is still open, so any
    [n/3+1] distinct names within the budget reset a finalised round to
    PRE-PREPARE and erase its commit certificate. *)
Theorem view_change_reopens_finalised (now nv : N) (r : PbftRound) (ids : list string) :
  phase r = Finalised → view_change_votes r !! nv = None → (view_number r < nv)%N →
  (view_change_count r < max_view_changes (config r))%N →
  NoDup ids → length ids = vset_len (validator_set r) / 3 + 1 →
  let r' := foldl (λ r v, (record_view_change now r v nv).1) r ids in
  phase r' = PrePrepare ∧ commit_sigs r' = ∅.
Proof.
  intros Hph Hnone Hvn Hbudget Hnd Hlen.
  destruct ids as [|x l _] using rev_ind; [by rewrite Nat.add_1_r in Hlen|].
  apply NoDup_app in Hnd as (Hnd & Hx & _). rewrite length_app in Hlen.
  cbn [length] in Hlen. destruct (collect_below now r nv l) as (vv & Hf & Hvv); [done|done|lia|].
  rewrite foldl_app, Hf. simpl. unfold record_view_change. simpl. rewrite Hvv.
  rewrite size_union by set_solver. rewrite size_list_to_set, size_singleton by done.
  rewrite (proj2 (Nat.leb_le _ _)) by lia. rewrite (proj2 (N.ltb_lt _ _)) by done. simpl.
  unfold trigger_view_change. simpl.
  destruct (N.leb_spec (max_view_changes (config r)) (view_change_count r)); [lia|done].
Qed.
End Safety.

(** ** Liveness of a round *)
Section Liveness.
Context `{!Crypto, !Serde}.

Definition valid_votes (r : PbftRound) (ph : string) (l : list (string * BlockSignature)) : Prop :=
  Forall (λ vs, verify_block_signature r ph vs.1 vs.2 = Ok tt) l.

Definition run_prepares (now : N) (r : PbftRound) (l : list (string * BlockSignature)) : PbftRound :=
  foldl (λ r vs, (receive_prepare now r vs.1 vs.2).1) r l.

Definition run_commits (r : PbftRound) (l : list (string * BlockSignature)) : PbftRound :=
  foldl (λ r vs, (receive_commit r vs.1 vs.2).1) r l.

Definition same_round (r r' : PbftRound) : Prop :=
  block r' = block r ∧ validator_set r' = validator_set r ∧ config r' = config r.

Lemma run_prepares_spec (now : N) (r : PbftRound) (l : list (string * BlockSignature)) :
  phase r = Prepare → valid_votes r "prepare" l →
  let r' := run_prepares now r l in
  same_round r r' ∧ commit_sigs r' = commit_sigs r
  ∧ (phase r' = Commit
     ∨ (phase r' = Prepare ∧ list_to_set l.*1 ⊆ dom (prepare_sigs r')
        ∧ (l ≠ [] → size (prepare_sigs r') < quorum r))).
Proof.
  intros Hph. induction l as [|[v s] l IH] using rev_ind; intros Hval.
  - simpl. split; [done|]. split; [done|]. right. split; [done|]. split; [set_solver|done].
  - apply Forall_app in Hval as [Hval [Hv _]%Forall_cons]. simpl in Hv.
    unfold run_prepares. cbn zeta. rewrite foldl_app. simpl.
    destruct (IH Hval) as ((Hb & Hvs & Hc) & Hcs & Hcase). fold (run_prepares now r l).
    set (r1 := run_prepares now r l) in *. unfold receive_prepare.
    destruct Hcase as [Hp|(Hp & Hdom & _)]; rewrite Hp.
    { rewrite bool_decide_eq_false_2 by done. simpl. by split_and!; auto. }
    rewrite bool_decide_eq_true_2 by done.
    rewrite (verify_block_signature_ext r) by done. rewrite Hv.
    assert (quorum r1 = quorum r) as Hq by (unfold quorum; by rewrite Hvs, Hc).
    change (quorum (set_sigs r1 _ _)) with (quorum r1). rewrite Hq.
    destruct (Nat.leb_spec (quorum r) (size (prepare_sigs (set_sigs r1
      (<[v := s]> (prepare_sigs r1)) (commit_sigs r1))))); simpl in *.
    + split; [done|]. split; [done|]. by left.
    + split; [done|]. split; [done|]. right. split; [done|]. split; [|done].
      rewrite fmap_app, list_to_set_app_L, dom_insert_L. simpl. set_solver.
Qed.

Lemma run_commits_spec (r : PbftRound) (l : list (string * BlockSignature)) :
  phase r = Commit → valid_votes r "commit" l →
  let r' := run_commits r l in
  same_round r r'
  ∧ (phase r' = Finalised
     ∨ (phase r' = Commit ∧ list_to_set l.*1 ⊆ dom (commit_sigs r')
        ∧ (l ≠ [] → size (commit_sigs r') < quorum r))).
Proof.
  intros Hph. induction l as [|[v s] l IH] using rev_ind; intros Hval.
  - simpl. split; [done|]. right. split; [done|]. split; [set_solver|done].
  - apply Forall_app in Hval as [Hval [Hv _]%Forall_cons]. simpl in Hv.
    unfold run_commits. cbn zeta. rewrite foldl_app. simpl.
    destruct (IH Hval) as ((Hb & Hvs & Hc) & Hcase). fold (run_commits r l).
    set (r1 := run_commits r l) in *. unfold receive_commit.
    destruct Hcase as [Hp|(Hp & Hdom & _)]; rewrite Hp.
    { rewrite bool_decide_eq_false_2 by done. simpl. by split_and!; auto. }
    rewrite bool_decide_eq_true_2 by done.
    rewrite (verify_block_signature_ext r) by done. rewrite Hv.
    assert (quorum r1 = quorum r) as Hq by (unfold quorum; by rewrite Hvs, Hc).
    change (quorum (set_sigs r1 _ _)) with (quorum r1). rewrite Hq.
    destruct (Nat.leb_spec (quorum r) (size (commit_sigs (set_sigs r1 (prepare_sigs r1)
      (<[v := s]> (commit_sigs r1)))))); simpl in *.
    + split; [done|]. by left.
    + split; [done|]. right. split; [done|]. split; [|done].
      rewrite fmap_app, list_to_set_app_L, dom_insert_L. simpl. set_solver.
Qed.

(** A quorum of distinct voters cannot all be recorded below the quorum. *)
Lemma quorum_not_below (m : gmap string BlockSignature) (l : list (string * BlockSignature))
    (q : nat) :
  NoDup l.*1 → 0 < q ≤ length l → list_to_set l.*1 ⊆ dom m → (l ≠ [] → size m < q) → False.
Proof.
  intros Hnd [Hq Hl] Hsub Hlt.
  apply subseteq_size in Hsub. rewrite size_list_to_set, length_fmap, size_dom in Hsub by done.
  assert (l ≠ []) by (intros ->; simpl in *; lia). specialize (Hlt ltac:(done)). lia.
Qed.

(** C23. Liveness: a proposed block whose PREPARE and then COMMIT messages arrive from
    a quorum of distinct validators is finalised, whatever the order within each
    phase and however many valid messages are in excess of the quorum. *)
Theorem quorum_finalises (now : N) (r : PbftRound) (ps cs : list (string * BlockSignature)) :
  phase r = Prepare → vset_len (validator_set r) ≠ 0 →
  valid_votes r "prepare" ps → valid_votes r "commit" cs →
  NoDup ps.*1 → NoDup cs.*1 → quorum r ≤ length ps → quorum r ≤ length cs →
  phase (run_commits (run_prepares now r ps) cs) = Finalised.
Proof.
  intros Hph Hn Hps Hcs Hnp Hnc Hlp Hlc.
  assert (0 < quorum r) as Hpos by by apply quorum_threshold_pos.
  destruct (run_prepares_spec now r ps Hph Hps) as ((Hb & Hvs & Hc) & _ & [Hp|(_ & Hsub & Hlt)]).
  2: { exfalso. eapply (quorum_not_below _ ps (quorum r)); eauto. }
  set (r1 := run_prepares now r ps) in *.
  assert (quorum r1 = quorum r) as Hq by (unfold quorum; by rewrite Hvs, Hc).
  assert (valid_votes r1 "commit" cs) as Hcs1.
  { eapply Forall_impl; [exact Hcs|]. intros vs. simpl.
    by rewrite (verify_block_signature_ext r r1). }
  destruct (run_commits_spec r1 cs Hp Hcs1) as (_ & [Hf|(_ & Hsub & Hlt)]); [done|].
  exfalso. rewrite Hq in Hlt. eapply (quorum_not_below _ cs (quorum r)); eauto.
Qed.

End Liveness.

(** ** The engine *)
Section Engine.
Context `{!Crypto, !Serde}.

Inductive EngineOp :=
| EStart (b : Block) (vs : ValidatorSet)
| EPrepare (bh vid : string) (sig : BlockSignature)
| ECommit (bh vid : string) (sig : BlockSignature)
| EViewChange (bh vid : string) (new_view : N)
| ETimeouts
| ECleanup.

Definition engine_apply (now : N) (e : PbftEngine) (op : EngineOp) : PbftEngine :=
  match op with
  | EStart b vs => (start_round now e b vs).1
  | EPrepare h v s => (engine_prepare now e h v s).1
  | ECommit h v s => (engine_commit e h v s).1
  | EViewChange h v n => (receive_view_change now e h v n).1
  | ETimeouts => (timeout_rounds now e).1
  | ECleanup => (cleanup_stale_rounds now e).1
  end.

Lemma timeout_one_rounds (now : N) (acc : PbftEngine * list ViewChangeSignal) (h : string) :
  rounds (timeout_one now acc h).1
  = alter (λ r, (trigger_view_change now r).1) h (rounds acc.1)
  ∧ engine_config (timeout_one now acc h).1 = engine_config acc.1.
Proof.
  destruct acc as [e sigs]. simpl. destruct (rounds e !! h) as [r|] eqn:Hr.
  - assert (alter (λ r, (trigger_view_change now r).1) h (rounds e)
            = <[h := (trigger_view_change now r).1]> (rounds e)) as ->.
    { apply map_eq. intros k. rewrite lookup_alter, lookup_insert.
      destruct (decide (h = k)) as [<-|]; [by rewrite Hr|done]. }
    by destruct (trigger_view_change now r) as [r' []].
  - simpl. split; [|done]. apply map_eq. intros k. rewrite lookup_alter.
    destruct (decide (h = k)) as [<-|]; [by rewrite Hr|done].
Qed.

Lemma timeout_fold_rounds (now : N) (l : list string) (acc : PbftEngine * list ViewChangeSignal) :
  NoDup l →
  engine_config (foldl (timeout_one now) acc l).1 = engine_config acc.1
  ∧ ∀ h, rounds (foldl (timeout_one now) acc l).1 !! h
    = if decide (h ∈ l) then (λ r, (trigger_view_change now r).1) <$> rounds acc.1 !! h
      else rounds acc.1 !! h.
Proof.
  revert acc. induction l as [|x l IH]; intros acc Hnd; [done|].
  apply NoDup_cons in Hnd as [Hx Hnd]. simpl.
  destruct (IH (timeout_one now acc x) Hnd) as [Hc Hl].
  destruct (timeout_one_rounds now acc x) as [Hr Hcfg]. split; [by rewrite Hc|].
  intros h. rewrite Hl, Hr, lookup_alter.
  destruct (decide (x = h)) as [<-|Hne].
  - rewrite decide_False by done. by rewrite decide_True by set_solver.
  - destruct (decide (h ∈ l)).
    + by rewrite decide_True by set_solver.
    + by rewrite decide_False by set_solver.
Qed.

(** Timing out is pointwise: exactly the rounds past their deadline change view. *)
Lemma timeout_rounds_lookup (now : N) (e : PbftEngine) (h : string) :
  rounds (timeout_rounds now e).1 !! h
  = (λ r, if is_phase_timed_out now r then (trigger_view_change now r).1 else r)
    <$> rounds e !! h.
Proof.
  unfold timeout_rounds.
  destruct (timeout_fold_rounds now (timed_out_hashes now e) (e, [])) as [_ ->];
    [apply NoDup_keys_where|]. simpl.
  destruct (decide (h ∈ timed_out_hashes now e)) as [Hin|Hni].
  - apply elem_of_keys_where in Hin as (r & -> & Hr). simpl in *. by rewrite Hr.
  - destruct (rounds e !! h) as [r|] eqn:Hr; [|done]. simpl.
    destruct (is_phase_timed_out now r) eqn:Ht; [|done].
    exfalso. apply Hni, elem_of_keys_where. eauto.
Qed.

(** Garbage collection removes exactly the terminal rounds older than the TTL,
    reports how many it removed, and touches nothing else. *)
Theorem cleanup_stale_rounds_spec (now : N) (e : PbftEngine) (h : string) :
  let stale r := is_terminal r && (stale_round_ttl (engine_config e) <? now - created_at r)%N in
  rounds (cleanup_stale_rounds now e).1 !! h
  = match rounds e !! h with
    | Some r => if stale r then None else Some r
    | None => None
    end
  ∧ (cleanup_stale_rounds now e).2 + active_round_count (cleanup_stale_rounds now e).1
    = active_round_count e.
Proof.
  intros stale. unfold cleanup_stale_rounds, active_round_count. split.
  - apply foldl_delete_where.
  - apply foldl_delete_size; [apply NoDup_keys_where|].
    intros k (r & Hr & _)%elem_of_keys_where. eauto.
Qed.

(** Every round of an engine is filed under its block's hash and is a reachable
    state of the round machine. *)
Definition engine_inv (vs : ValidatorSet) (cfg : PbftConfig) (e : PbftEngine) : Prop :=
  engine_config e = cfg
  ∧ map_Forall (λ h r, block_hash (block r) = h ∧ ∃ b, reachable b vs cfg r) (rounds e).

Definition starts_with_set (vs : ValidatorSet) (op : EngineOp) : Prop :=
  match op with
  | EStart _ vs' => vs' = vs
  | _ => True
  end.

Lemma reachable_block (b : Block) (vs : ValidatorSet) (cfg : PbftConfig) (r : PbftRound) :
  reachable b vs cfg r → block r = b.
Proof. intros Hr. by destruct (reachable_inv _ _ _ _ Hr). Qed.

Lemma on_round_inv {A : Type} (vs : ValidatorSet) (cfg : PbftConfig) (e : PbftEngine)
    (bh : string) (f : PbftRound → PbftRound * result PbftError A) (now : N) (op : RoundOp) :
  (∀ r, (f r).1 = round_apply now r op) →
  engine_inv vs cfg e → engine_inv vs cfg (on_round e bh f).1.
Proof.
  intros Hf [Hc Hall]. unfold on_round. destruct (rounds e !! bh) as [r|] eqn:Hr; [|done].
  specialize (Hf r). destruct (f r) as [r' res]. simpl in *. split; [done|].
  apply map_Forall_insert_2; [|done]. destruct (Hall _ _ Hr) as (<- & b & Hb).
  assert (reachable b vs cfg r') as Hr' by (rewrite Hf; by constructor).
  split; [|by exists b].
  by rewrite (reachable_block _ _ _ _ Hb), (reachable_block _ _ _ _ Hr').
Qed.

Lemma engine_inv_apply (vs : ValidatorSet) (cfg : PbftConfig) (now : N) (e : PbftEngine)
    (op : EngineOp) :
  starts_with_set vs op → engine_inv vs cfg e → engine_inv vs cfg (engine_apply now e op).
Proof.
  intros Hop Hinv. destruct op as [b vs'|h v s|h v s|h v n| |]; simpl.
  - simpl in Hop. subst vs'. destruct Hinv as [Hc Hall]. unfold start_round.
    rewrite Hc. set (r0 := with_config now b vs cfg).
    pose proof (reach_step b vs cfg r0 now (RPrePrepare (proposer_id (header b)))
      (reach_init b vs cfg now)) as Hr. simpl in Hr.
    destruct (pre_prepare now r0 (proposer_id (header b))) as [r' [h|err]]; simpl in *.
    + split; [done|]. apply map_Forall_insert_2; [|done].
      split; [by rewrite (reachable_block _ _ _ _ Hr)|by exists b].
    + done.
  - by apply (on_round_inv vs cfg e h _ now (RPrepare v s)).
  - by apply (on_round_inv vs cfg e h _ now (RCommit v s)).
  - by apply (on_round_inv vs cfg e h _ now (RViewChange v n)).
  - destruct Hinv as [Hc Hall]. split.
    + unfold timeout_rounds.
      by destruct (timeout_fold_rounds now (timed_out_hashes now e) (e, [])) as [-> _];
        [apply NoDup_keys_where|].
    + intros k r. rewrite timeout_rounds_lookup. intros (r0 & Hr0 & ->)%fmap_Some.
      destruct (Hall _ _ Hr0) as (<- & b & Hb).
      destruct (is_phase_timed_out now r0); [|by eauto].
      pose proof (reach_step _ _ _ _ now RTimeout Hb) as Hr. simpl in Hr.
      split; [|by exists b].
      by rewrite (reachable_block _ _ _ _ Hb), (reachable_block _ _ _ _ Hr).
  - destruct Hinv as [Hc Hall]. split; [done|]. intros k r. simpl.
    rewrite foldl_delete_lookup. case_decide; [done|]. apply Hall.
Qed.

Lemma engine_inv_run (vs : ValidatorSet) (cfg : PbftConfig) (ops : list (N * EngineOp))
    (e : PbftEngine) :
  Forall (λ o, starts_with_set vs o.2) ops → engine_inv vs cfg e →
  engine_inv vs cfg (foldl (λ e o, engine_apply o.1 e o.2) e ops).
Proof.
  revert e. induction ops as [|o ops IH]; intros e Hops Hinv; [done|].
  apply Forall_cons in Hops as [Ho Hops]. simpl. apply IH; [done|]. by apply engine_inv_apply.
Qed.

Lemma engine_inv_new (vs : ValidatorSet) (cfg : PbftConfig) :
  engine_inv vs cfg (engine_with_config cfg).
Proof. split; [done|]. apply map_Forall_empty. Qed.

(** Block [fb] carries a quorum certificate of [vs]: signatures of distinct active
    members, each valid for the COMMIT message of the block's hash. *)
Definition certified (vs : ValidatorSet) (cfg : PbftConfig) (fb : Block) : Prop :=
  NoDup (bs_validator_id <$> pbft_signatures fb)
  ∧ quorum_threshold (vset_len vs) (allow_small_cluster_quorum cfg)
      ≤ length (pbft_signatures fb)
  ∧ Forall (λ s, ∃ info, vs !! bs_validator_id s = Some info ∧ info_is_active info = true
       ∧ to_ascii_lowercase (trim_0x (bs_pubkey s))
         = to_ascii_lowercase (trim_0x (info_pubkey info))
       ∧ verify_pbft_phase_signature "commit" (block_hash fb)
           (to_ascii_lowercase (trim_0x (info_pubkey info))) (bs_signature s) = Ok tt)
      (pbft_signatures fb).

Lemma engine_inv_released (vs : ValidatorSet) (cfg : PbftConfig) (e : PbftEngine) (bh : string)
    (fb : Block) :
  engine_inv vs cfg e → get_finalised_block e bh = Some fb → block_hash fb = bh ∧ certified vs cfg fb.
Proof.
  intros [_ Hall]. unfold get_finalised_block.
  intros (r & Hr & Hfb)%bind_Some. case_bool_decide as Hph; [|done]. injection Hfb as <-.
  destruct (Hall _ _ Hr) as (Hh & b & Hb).
  destruct (reachable_inv _ _ _ _ Hb) as [Hbb Hvs Hc _ Hok Hphi _ _].
  unfold phase_inv in Hphi. rewrite Hph in Hphi. destruct Hphi as [_ Hq].
  unfold quorum in Hq. rewrite Hvs, Hc in Hq.
  split; [done|]. unfold certified, finalised_signatures. simpl.
  rewrite length_hm_values. split; [|split; [done|]].
  - rewrite hm_values_keys; [apply NoDup_hm_keys|].
    intros k s Hk. by apply Hok, verify_block_signature_Ok in Hk as [-> _].
  - apply Forall_forall. intros s [k Hk]%elem_of_hm_values.
    apply Hok, verify_block_signature_Ok in Hk as (<- & info & Hl & Ha & Hpk & Hv).
    rewrite Hvs in Hl. by exists info.
Qed.

(** What the engine releases: after any history of engine calls that start rounds
    with one validator set, a block returned by [get_finalised_block] has the
    requested hash, and its embedded signatures are those of a quorum of distinct
    active validators, each valid for the COMMIT message of that hash. *)
Theorem engine_releases_certified (vs : ValidatorSet) (cfg : PbftConfig)
    (ops : list (N * EngineOp)) (bh : string) (fb : Block) :
  Forall (λ o, starts_with_set vs o.2) ops →
  get_finalised_block (foldl (λ e o, engine_apply o.1 e o.2) (engine_with_config cfg) ops) bh
    = Some fb →
  block_hash fb = bh ∧ certified vs cfg fb.
Proof. intros Hops. by apply engine_inv_released, engine_inv_run, engine_inv_new. Qed.

End Engine.

Section EngineLiveness.
Context `{!Crypto, !Serde}.

Lemma start_round_Ok (now : N) (e : PbftEngine) (b : Block) (vs : ValidatorSet) :
  let r := with_config now b vs (engine_config e) in
  match pre_prepare_checks r (proposer_id (header b)) with
  | Ok _ => start_round now e b vs
      = (set_rounds e (<[block_hash b := set_phase r Prepare now]> (rounds e)), Ok (block_hash b))
  | Err err => start_round now e b vs = (e, Err err)
  end.
Proof.
  intros r. unfold start_round, pre_prepare. fold r.
  by destruct (pre_prepare_checks r (proposer_id (header b))).
Qed.

Lemma pre_prepare_selected (r : PbftRound) (p : string) :
  pre_prepare_checks r p = Ok tt →
  select_proposer_deterministic (proposer_candidates (validator_set r))
    (prev_hash (header (block r))) = Some p.
Proof.
  unfold pre_prepare_checks. intros Hok. res_inv. rewrite ->String.eqb_eq in *. by subst.
Qed.

(** Only the primary can propose: [start_round] refuses every block whose proposer
    is not the selected one and keeps the engine unchanged, so a validator with a
    fallback rank above 0 never gets a block into a round. *)
Theorem fallback_proposer_rejected (now : N) (e : PbftEngine) (b : Block) (vs : ValidatorSet)
    (i : nat) :
  distinct_scores (proposer_candidates vs) (prev_hash (header b)) →
  proposer_rank (proposer_candidates vs) (prev_hash (header b)) (proposer_id (header b))
    = Some (S i) →
  ∃ err, start_round now e b vs = (e, Err err).
Proof.
  intros Hd Hrank. pose proof (start_round_Ok now e b vs) as Hs. simpl in Hs.
  set (r := with_config now b vs (engine_config e)) in *.
  destruct (pre_prepare_checks r (proposer_id (header b))) as [[]|err] eqn:Hc; [|by exists err].
  exfalso. apply pre_prepare_selected in Hc.
  unfold r in Hc. simpl in Hc. rewrite (select_is_rank_head _ _ Hd) in Hc.
  apply position_Some in Hrank as [_ Hnin].
  destruct (rank_proposers (proposer_candidates vs) (prev_hash (header b))) as [|x l]; [done|].
  injection Hc as ->. apply Hnin. simpl. constructor.
Qed.

(** The selected active proposer of a block without VRF data is accepted. *)
Lemma primary_accepted (now : N) (e : PbftEngine) (b : Block) (vs : ValidatorSet) :
  vrf_proof (header b) = None →
  is_member vs (proposer_id (header b)) = true →
  select_proposer_deterministic (proposer_candidates vs) (prev_hash (header b))
    = Some (proposer_id (header b)) →
  (start_round now e b vs).2 = Ok (block_hash b).
Proof.
  intros Hv Hm Hsel. pose proof (start_round_Ok now e b vs) as Hs. simpl in Hs.
  unfold pre_prepare_checks, check_vrf in Hs. simpl in Hs.
  rewrite Hm, Hv, Hsel in Hs. simpl in Hs. rewrite String.eqb_refl in Hs. simpl in Hs.
  by rewrite Hs.
Qed.

Definition restarts (h : string) (op : EngineOp) : Prop :=
  match op with
  | EStart b _ => block_hash b = h
  | _ => False
  end.

(** A round that waits for a proposal, or was abandoned. *)
Definition stranded (h : string) (e : PbftEngine) : Prop :=
  ∀ r, rounds e !! h = Some r → phase r = PrePrepare ∨ phase r = Failed.

Lemma trigger_stranded (now : N) (r : PbftRound) :
  phase (trigger_view_change now r).1 = PrePrepare ∨ phase (trigger_view_change now r).1 = Failed.
Proof. unfold trigger_view_change. case_match; auto. Qed.

Lemma record_stranded (now : N) (r : PbftRound) (v : string) (n : N) :
  (phase r = PrePrepare ∨ phase r = Failed) →
  phase (record_view_change now r v n).1 = PrePrepare
  ∨ phase (record_view_change now r v n).1 = Failed.
Proof.
  intros Hr. unfold record_view_change. set (r1 := set_votes r _).
  destruct (_ && _); [|done]. pose proof (trigger_stranded now r1).
  by destruct (trigger_view_change now r1) as [r' []].
Qed.

Lemma on_round_stranded {A : Type} (e : PbftEngine) (h bh : string)
    (f : PbftRound → PbftRound * result PbftError A) :
  (∀ r, phase r = PrePrepare ∨ phase r = Failed →
        phase (f r).1 = PrePrepare ∨ phase (f r).1 = Failed) →
  stranded h e → stranded h (on_round e bh f).1.
Proof.
  intros Hf Hs. unfold on_round. destruct (rounds e !! bh) as [r|] eqn:Hr; [|done].
  specialize (Hf r). destruct (f r) as [r' res] eqn:Hfr. simpl in *.
  intros r2. simpl. rewrite lookup_insert. destruct (decide (bh = h)) as [->|]; [|by apply Hs].
  intros [= <-]. by apply Hf, Hs.
Qed.

Lemma stranded_apply (h : string) (now : N) (e : PbftEngine) (op : EngineOp) :
  ¬ restarts h op → stranded h e → stranded h (engine_apply now e op).
Proof.
  intros Hop Hs. destruct op as [b vs|bh v s|bh v s|bh v n| |]; simpl in *.
  - pose proof (start_round_Ok now e b vs) as Hst. simpl in Hst.
    case_match; rewrite Hst; [|done]. intros r. simpl. rewrite lookup_insert_ne by done. apply Hs.
  - apply on_round_stranded; [|done]. intros r Hr. unfold receive_prepare.
    rewrite bool_decide_eq_false_2 by (destruct Hr; congruence). done.
  - apply on_round_stranded; [|done]. intros r Hr. unfold receive_commit.
    rewrite bool_decide_eq_false_2 by (destruct Hr; congruence). done.
  - apply on_round_stranded; [|done]. intros r. apply record_stranded.
  - intros r. rewrite timeout_rounds_lookup. intros (r0 & Hr0 & ->)%fmap_Some.
    destruct (is_phase_timed_out now r0); [apply trigger_stranded|by apply Hs].
  - intros r. simpl. rewrite foldl_delete_lookup. case_decide; [done|]. apply Hs.
Qed.

(** A view change strands its round: it returns the round to PRE-PREPARE, and no
    engine call other than starting the same block anew ever proposes it again,
    so however many valid prepares and commits arrive the block is never
    released. *)
Theorem view_change_strands_round (h : string) (e : PbftEngine) (r : PbftRound) (now : N)
    (ops : list (N * EngineOp)) :
  rounds e !! h = Some r → is_phase_timed_out now r = true →
  Forall (λ o, ¬ restarts h o.2) ops →
  get_finalised_block
    (foldl (λ e o, engine_apply o.1 e o.2) (timeout_rounds now e).1 ops) h = None.
Proof.
  intros Hr Ht Hops.
  assert (stranded h (timeout_rounds now e).1) as Hs.
  { intros r'. rewrite timeout_rounds_lookup, Hr. simpl. rewrite Ht. intros [= <-].
    apply trigger_stranded. }
  revert Hs. generalize (timeout_rounds now e).1 as e'.
  induction Hops as [|o ops Ho Hops IH]; intros e' Hs; simpl.
  - unfold get_finalised_block. destruct (rounds e' !! h) as [r'|] eqn:Hr'; [|done]. simpl.
    rewrite bool_decide_eq_false_2; [done|]. destruct (Hs r' Hr'); congruence.
  - apply IH. by apply stranded_apply.
Qed.

End EngineLiveness.

(** ** Witnesses *)
Module PbftExamples.
Import Toy ToySerde.

Definition cfg : PbftConfig := default_config (λ _, None).

Definition pk (id : string) : string := hex_encode (Toy.fit 32 id).

Definition mk (id : string) : ValidatorInfo := {|
  info_id := id; info_pubkey := pk id; info_eth_address := None; info_stake := 100;
  info_reputation := 50; info_is_active := true |}.

Definition vs4 : ValidatorSet :=
  foldl vset_add vset_new [mk "v1"; mk "v2"; mk "v3"; mk "v4"].

Definition primary : string :=
  default "" (select_proposer_deterministic (proposer_candidates vs4) "genesis").

Definition blk (p : string) : Block := {|
  header := {| height := 1; prev_hash := "genesis"; header_merkle_root := "";
    proposer_id := p; timestamp := 0; validator_set_hash := "";
    vrf_output := None; vrf_proof := None |};
  transactions := []; pbft_signatures := [] |}.

(** A toy signature of validator [id] over the block in a phase. *)
Definition vote (ph : string) (b : Block) (id : string) : string * BlockSignature :=
  (id, {| bs_validator_id := id; bs_pubkey := pk id;
          bs_signature := hex_encode (@sign toy_crypto (Toy.fit 32 id)
            (pbft_signature_message ph (block_hash b))) |}).

Definition b0 : Block := blk primary.
Definition r0 : PbftRound := with_config 1 b0 vs4 cfg.
Definition ids : list string := ["v1"; "v2"; "v4"].
Definition ps : list (string * BlockSignature) := vote "prepare" b0 <$> ids.
Definition cs : list (string * BlockSignature) := vote "commit" b0 <$> ids.
Definition proposal : list (N * RoundOp) := [(1%N, RPrePrepare primary)].
Definition votes : list (N * RoundOp) :=
  ((λ v, (2%N, RPrepare v.1 v.2)) <$> ps) ++ ((λ v, (2%N, RCommit v.1 v.2)) <$> cs).
Definition r1 : PbftRound := run_round r0 proposal.
Definition r2 : PbftRound := run_round r0 (proposal ++ votes).

Lemma r2_reachable : reachable b0 vs4 cfg r2.
Proof. exact (reachable_run b0 vs4 cfg r0 (proposal ++ votes) (reach_init b0 vs4 cfg 1)). Qed.

Lemma r2_finalised : phase r2 = Finalised.
Proof. by vm_compute. Qed.

Lemma quorum_intersection_witness :
  vset_len vs4 / 3 + 1 ≤ size ({["v1"; "v2"; "v3"]} ∩ {["v2"; "v3"; "v4"]} : gset string).
Proof.
  refine (proj1 (quorum_intersection vs4 {["v1"; "v2"; "v3"]} {["v2"; "v3"; "v4"]} ∅ _ _ _ _ _)).
  - by apply (bool_decide_unpack _); vm_compute.
  - by apply (bool_decide_unpack _); vm_compute.
  - apply (bool_decide_unpack _); by vm_compute.
  - apply (bool_decide_unpack _); by vm_compute.
  - by vm_compute.
Defined.

Definition good_ops : list (N * RoundOp) := proposal ++ votes.

Lemma finalised_has_certificates_witness :
  let q := quorum_threshold (vset_len vs4) (allow_small_cluster_quorum cfg) in
  ∃ Qp Qc : gset string, Qp ⊆ members vs4 ∧ Qc ⊆ members vs4 ∧ q ≤ size Qp ∧ q ≤ size Qc
    ∧ (∀ v, v ∈ Qp → ∃ s, got_prepare good_ops v s ∧ valid_vote vs4 "prepare" (block_hash b0) v s)
    ∧ (∀ v, v ∈ Qc → ∃ s, got_commit good_ops v s ∧ valid_vote vs4 "commit" (block_hash b0) v s).
Proof. apply (finalised_has_certificates 1 b0 vs4 cfg good_ops). vm_compute. reflexivity. Defined.

(** A second block of the same height, finalised by three validators, two of them the same. *)
Definition b0' : Block := {|
  header := {| height := 1; prev_hash := "genesis"; header_merkle_root := "other";
    proposer_id := primary; timestamp := 0; validator_set_hash := "";
    vrf_output := None; vrf_proof := None |};
  transactions := []; pbft_signatures := [] |}.

(** The messages of a node that finalises [b] with the votes of [l]. *)
Definition ops_of (b : Block) (l : list string) : list (N * RoundOp) :=
  (1%N, RPrePrepare primary)
  :: ((λ v, (2%N, RPrepare v.1 v.2)) <$> (vote "prepare" b <$> l))
  ++ ((λ v, (2%N, RCommit v.1 v.2)) <$> (vote "commit" b <$> l)).

Lemma conflicting_finality_accountable_witness :
  block_hash b0 ≠ block_hash b0'
  ∧ ∃ S : gset string, S ⊆ members vs4 ∧ 2 ≤ size S
    ∧ ∀ v, v ∈ S → ∃ s1 s2,
        got_commit (ops_of b0 ["v1"; "v2"; "v4"]) v s1 ∧ valid_vote vs4 "commit" (block_hash b0) v s1
        ∧ got_commit (ops_of b0' ["v1"; "v3"; "v4"]) v s2 ∧ valid_vote vs4 "commit" (block_hash b0') v s2.
Proof.
  split; [vm_compute; discriminate|].
  apply (conflicting_finality_accountable 1 1 b0 b0' vs4 cfg cfg (ops_of b0 ["v1"; "v2"; "v4"])
    (ops_of b0' ["v1"; "v3"; "v4"])).
  1,2: vm_compute; reflexivity.
  1,2: reflexivity.
  by vm_compute.
Defined.

(** Validators "v1", "v3" and "v4" choose [b0], "v2" is Byzantine, and its commit for the other block
    reaches the second node, which finalises [b0] with the others. *)
Definition agreed (v : string) : string := block_hash b0.
Definition ops_split : list (N * RoundOp) :=
  ops_of b0 ["v1"; "v3"; "v4"] ++ [(3%N, RCommit "v2" (vote "commit" b0' "v2").2)].

Lemma pbft_agreement_witness : block_hash b0 = block_hash {| header := header b0; transactions := []; pbft_signatures := [(vote "commit" b0' "v2").2] |}.
Proof.
  apply (pbft_agreement 1 2 b0 {| header := header b0; transactions := []; pbft_signatures := [(vote "commit" b0' "v2").2] |}
    vs4 cfg cfg (ops_of b0 ids) ops_split {["v2"]} agreed).
  1,2: vm_compute; reflexivity.
  1,2: reflexivity.
  - by vm_compute.
  - apply (bool_decide_unpack _); by vm_compute.
  - reflexivity.
  - reflexivity.
Defined.

Lemma pbft_message_binds_witness : "commit" = "commit" ∧ "h1" = "h1".
Proof. apply (pbft_message_binds "commit" "commit" "h1" "h1"); reflexivity. Defined.

Lemma rejected_message_no_effect_witness :
  (receive_commit r1 "v1" (vote "commit" b0 "v1").2).1 = r1.
Proof.
  refine (proj2 (proj2 (rejected_message_no_effect 3 r1 "v1" (vote "commit" b0 "v1").2
    NotInCommitPhase)) _).
  vm_compute. reflexivity.
Defined.

Lemma view_changes_bounded_witness :
  view_number r2 = view_change_count r2.
Proof.
  refine (proj1 (view_changes_bounded b0 vs4 cfg r2 9 r2_reachable _)). by vm_compute.
Defined.

Lemma view_change_reopens_finalised_witness :
  phase (foldl (λ r v, (record_view_change 5 r v 1).1) r2 ["mallory-1"; "mallory-2"]) = PrePrepare.
Proof.
  refine (proj1 (view_change_reopens_finalised 5 1 r2 ["mallory-1"; "mallory-2"] _ _ _ _ _ _)).
  - exact r2_finalised.
  - by vm_compute.
  - by vm_compute.
  - by vm_compute.
  - by apply (bool_decide_unpack _); vm_compute.
  - by vm_compute.
Defined.

Lemma quorum_finalises_witness : phase (run_commits (run_prepares 2 r1 ps) cs) = Finalised.
Proof.
  apply (quorum_finalises 2 r1 ps cs).
  - by vm_compute.
  - by vm_compute.
  - by apply (bool_decide_unpack _); vm_compute.
  - by apply (bool_decide_unpack _); vm_compute.
  - by apply (bool_decide_unpack _); vm_compute.
  - by apply (bool_decide_unpack _); vm_compute.
  - apply (bool_decide_unpack _); by vm_compute.
  - apply (bool_decide_unpack _); by vm_compute.
Defined.

Definition history : list (N * EngineOp) :=
  (1%N, EStart b0 vs4)
  :: ((λ v, (2%N, EPrepare (block_hash b0) v.1 v.2)) <$> ps)
  ++ ((λ v, (2%N, ECommit (block_hash b0) v.1 v.2)) <$> cs).

Definition e2 : PbftEngine :=
  foldl (λ e o, engine_apply o.1 e o.2) (engine_with_config cfg) history.

Lemma history_starts : Forall (λ o, starts_with_set vs4 o.2) history.
Proof. repeat constructor. Qed.

Lemma engine_releases_certified_witness :
  ∃ fb, get_finalised_block e2 (block_hash b0) = Some fb ∧ block_hash fb = block_hash b0.
Proof.
  eexists. split; [vm_compute; reflexivity|].
  refine (proj1 (engine_releases_certified vs4 cfg history (block_hash b0) _ history_starts _)).
  vm_compute. reflexivity.
Defined.

Definition backup : string :=
  default "" (rank_proposers (proposer_candidates vs4) "genesis" !! 1).

Lemma fallback_proposer_rejected_witness :
  ∃ err, start_round 1 (engine_with_config cfg) (blk backup) vs4
         = (engine_with_config cfg, Err err).
Proof.
  apply (fallback_proposer_rejected 1 (engine_with_config cfg) (blk backup) vs4 0).
  - unfold distinct_scores. by apply (bool_decide_unpack _); vm_compute.
  - by vm_compute.
Defined.

Definition e1 : PbftEngine := engine_apply 1 (engine_with_config cfg) (EStart b0 vs4).

Lemma view_change_strands_round_witness :
  get_finalised_block (foldl (λ e o, engine_apply o.1 e o.2)
    (timeout_rounds 40000000000 e1).1 (tail history)) (block_hash b0) = None.
Proof.
  apply (view_change_strands_round (block_hash b0) e1 r1 40000000000 (tail history)).
  - by vm_compute.
  - by vm_compute.
  - repeat constructor; by intros [].
Defined.

End PbftExamples.
