(* ===== verification/VoteAccumulator.v ===== *)
(** Accumulation of package votes ([crates/consensus/src/vote_accumulator.rs]).

    [record_commit] subtracts on [usize]; its result is [None] where a build with
    overflow checks panics, and the wrapped value is used otherwise (argument
    [checks]).  The warnings about degraded validators are log output and not
    modelled. *)

From S2P Require Import Prelude Text Crypto Types.
From Stdlib Require Import Ascii.

Definition VOTE_MESSAGE_DOMAIN : string := "creg-vote-v2".

Definition canonical_vote_message
    (canonical content_hash : string) (approved : bool)
    (validator_pubkey scanner_profile_digest evidence_digest : string) : string :=
  VOTE_MESSAGE_DOMAIN +:+ "|" +:+ canonical +:+ "|" +:+ content_hash +:+ "|"
  +:+ fmt_bool approved +:+ "|" +:+ validator_pubkey +:+ "|" +:+ scanner_profile_digest
  +:+ "|" +:+ evidence_digest.

Inductive VotePhase :=
| Collecting
| PrepareQuorumReached
| CommitQuorumReached
| VFinalised
| VFailed (reason : string)
| TimedOut.

#[export] Instance VotePhase_eq_dec : EqDecision VotePhase.
Proof. solve_decision. Defined.

Record IncomingVote := {
  iv_validator_id : string;
  iv_validator_pubkey : string;
  iv_content_hash : string;
  iv_approved : bool;
  iv_reject_reason : option string;
  iv_signature : string;
  iv_received_at : Z;
  iv_ml_model_version : option string;
  iv_analysis_bundles : AnalysisBundleRefs;
  iv_evidence_digest : string;
}.

Record PackageVoteState := {
  pvs_canonical : string;
  started_at : Z;
  vphase : VotePhase;
  prepare_votes : gmap string IncomingVote;
  commit_votes : gmap string IncomingVote;
  assigned_count : nat;
}.

Inductive SignatureVerification :=
| Valid
| Invalid
| Malformed.

#[export] Instance SignatureVerification_eq_dec : EqDecision SignatureVerification.
Proof. solve_decision. Defined.

Inductive CommitOutcome :=
| OutVerified (sigs : list ValidatorSignature)
| OutRejected (reason : string).

Inductive VoteError :=
| VoteInvalidSignature
| VoteMalformedSignature
| NoActiveVoteRound
| UnknownVotePhase.

(** [PackageVoteState::new] *)
Definition vote_state_new (now : Z) (canonical : string) (assigned : nat) : PackageVoteState := {|
  pvs_canonical := canonical; started_at := now; vphase := Collecting;
  prepare_votes := ∅; commit_votes := ∅; assigned_count := assigned |}.

Definition set_vphase (s : PackageVoteState) (p : VotePhase) : PackageVoteState := {|
  pvs_canonical := pvs_canonical s; started_at := started_at s; vphase := p;
  prepare_votes := prepare_votes s; commit_votes := commit_votes s;
  assigned_count := assigned_count s |}.

Definition add_prepare (s : PackageVoteState) (v : IncomingVote) : PackageVoteState := {|
  pvs_canonical := pvs_canonical s; started_at := started_at s; vphase := vphase s;
  prepare_votes := <[iv_validator_id v := v]> (prepare_votes s);
  commit_votes := commit_votes s; assigned_count := assigned_count s |}.

Definition add_commit (s : PackageVoteState) (v : IncomingVote) : PackageVoteState := {|
  pvs_canonical := pvs_canonical s; started_at := started_at s; vphase := vphase s;
  prepare_votes := prepare_votes s;
  commit_votes := <[iv_validator_id v := v]> (commit_votes s);
  assigned_count := assigned_count s |}.

Definition is_consensus_grade (v : IncomingVote) : bool :=
  is_consensus_grade_vote (default "" (iv_ml_model_version v))
    (iv_analysis_bundles v) (iv_evidence_digest v).

(** [PackageVoteState::quorum] *)
Definition vote_quorum (s : PackageVoteState) : nat := 2 * assigned_count s / 3 + 1.

Section VoteAccumulator.
Context `{!Crypto}.

(** The message a vote has to sign in a round. *)
Definition vote_message (canonical : string) (v : IncomingVote) : string :=
  canonical_vote_message canonical (iv_content_hash v) (iv_approved v) (iv_validator_pubkey v)
    (scanner_profile_digest (default "" (iv_ml_model_version v)) (iv_analysis_bundles v))
    (iv_evidence_digest v).

Definition verify_signature (s : PackageVoteState) (v : IncomingVote) : SignatureVerification :=
  match hex_decode (iv_signature v) with
  | None => Malformed
  | Some sig_bytes =>
      match sig_try_from sig_bytes with
      | None => Malformed
      | Some signature =>
          match hex_decode (trim_0x (iv_validator_pubkey v)) with
          | None => Malformed
          | Some pubkey_bytes =>
              if negb (String.length pubkey_bytes =? 32)%nat then Malformed
              else
                match vk_try_from pubkey_bytes with
                | None => Malformed
                | Some verifying_key =>
                    if verify verifying_key (vote_message (pvs_canonical s) v) signature
                    then Valid else Invalid
                end
          end
      end
  end.

(** The [skip_verification] gate shared by both phases. *)
Definition check_vote (s : PackageVoteState) (v : IncomingVote) (skip : bool)
    : result VoteError unit :=
  if skip then Ok tt
  else
    match verify_signature s v with
    | Valid => Ok tt
    | Invalid => Err VoteInvalidSignature
    | Malformed => Err VoteMalformedSignature
    end.

Definition record_prepare (s : PackageVoteState) (v : IncomingVote) (skip : bool)
    : PackageVoteState * result VoteError bool :=
  match check_vote s v skip with
  | Err e => (s, Err e)
  | Ok _ =>
      let s := add_prepare s v in
      let effective_count := count is_consensus_grade (hm_values (prepare_votes s)) in
      if (vote_quorum s <=? effective_count)%nat && bool_decide (vphase s = Collecting)
      then (set_vphase s PrepareQuorumReached, Ok true)
      else (s, Ok false)
  end.

Definition validator_sig_of (v : IncomingVote) : ValidatorSignature := {|
  vs_validator_id := iv_validator_id v;
  vs_validator_pubkey := iv_validator_pubkey v;
  vs_signature := iv_signature v;
  vs_vote := if iv_approved v then Approve else Reject (default "" (iv_reject_reason v));
  vs_signed_at := iv_received_at v;
  vs_ml_model_version := default "" (iv_ml_model_version v);
  vs_analysis_bundles := iv_analysis_bundles v;
  vs_evidence_digest := iv_evidence_digest v;
  vs_deterministic_risk := default_risk |}.

Definition build_validator_sigs (s : PackageVoteState) (approvers_only : bool)
    : list ValidatorSignature :=
  validator_sig_of
    <$> filter (λ v, negb approvers_only || iv_approved v = true) (hm_values (commit_votes s)).

(** The reason of the first rejection, in the iteration order of the map. *)
Definition primary_reason (s : PackageVoteState) : string :=
  default "Consensus rejected"
    (head (omap iv_reject_reason
             (filter (λ v, negb (iv_approved v) = true) (hm_values (commit_votes s))))).

Definition approvals_of (s : PackageVoteState) : nat :=
  count (λ v, is_consensus_grade v && iv_approved v) (hm_values (commit_votes s)).

Definition rejections_of (s : PackageVoteState) : nat :=
  count (λ v, is_consensus_grade v && negb (iv_approved v)) (hm_values (commit_votes s)).

(** [None] is an arithmetic-overflow panic. *)
Definition record_commit (checks : bool) (s : PackageVoteState) (v : IncomingVote) (skip : bool)
    : PackageVoteState * option (result VoteError (option CommitOutcome)) :=
  match check_vote s v skip with
  | Err e => (s, Some (Err e))
  | Ok _ =>
      let s := add_commit s v in
      let quorum := vote_quorum s in
      if (quorum <=? approvals_of s)%nat then
        let s := set_vphase s VFinalised in
        (s, Some (Ok (Some (OutVerified (build_validator_sigs s true)))))
      else
        match usize_sub checks (N.of_nat (assigned_count s)) (N.of_nat (rejections_of s)) with
        | None => (s, None)
        | Some max_possible_approvals =>
            if (max_possible_approvals <? N.of_nat quorum)%N then
              let reason := primary_reason s in
              (set_vphase s (VFailed reason), Some (Ok (Some (OutRejected reason))))
            else (s, Some (Ok None))
        end
  end.

(** [PackageVoteState::is_timed_out]; [num_seconds] truncates toward zero. *)
Definition vote_timed_out (now : Z) (s : PackageVoteState) : bool :=
  (120 <? Z.quot (now - started_at s) 1000000000)%Z.

(** ** The accumulator: canonical → state *)

Definition Accumulator := gmap string PackageVoteState.

Definition open_round (now : Z) (a : Accumulator) (canonical : string) (assigned : nat)
    : Accumulator := <[canonical := vote_state_new now canonical assigned]> a.

(** [VoteAccumulator::record_vote], the vote already built from the arguments. *)
Definition record_vote (checks : bool) (a : Accumulator) (canonical ph : string)
    (v : IncomingVote) (skip : bool)
    : Accumulator * option (result VoteError (option CommitOutcome)) :=
  match a !! canonical with
  | None => (a, Some (Err NoActiveVoteRound))
  | Some s =>
      if String.eqb ph "prepare" then
        let '(s', r) := record_prepare s v skip in
        (<[canonical := s']> a, Some ((λ _, None) <$> r))
      else if String.eqb ph "commit" then
        let '(s', r) := record_commit checks s v skip in
        (<[canonical := s']> a, r)
      else (a, Some (Err UnknownVotePhase))
  end.

Definition expirable (now : Z) (s : PackageVoteState) : bool :=
  vote_timed_out now s
  && match vphase s with
     | Collecting | PrepareQuorumReached => true
     | _ => false
     end.

Definition expire_timed_out (now : Z) (a : Accumulator) : Accumulator * list string :=
  let timed_out := keys_where (expirable now) a in
  (foldl (λ a c, alter (λ s, set_vphase s TimedOut) c a) a timed_out, timed_out).

(** [VoteAccumulator::remove] *)
Definition acc_remove (a : Accumulator) (canonical : string) : Accumulator := delete canonical a.

End VoteAccumulator.

(** ** Properties *)
Section VoteProperties.
Context `{!Crypto}.

(** What a vote signature commits to: for '|'-free fields the signed message
    determines package, content hash, verdict, public key, scanner profile and
    evidence, so a signature cannot be replayed for another of any of them. *)
Theorem vote_message_binds (c1 c2 h1 h2 k1 k2 p1 p2 e1 e2 : string) (a1 a2 : bool) :
  Forall (λ s, free_of "|" s = true) [c1; c2; h1; h2; k1; k2; p1; p2] →
  canonical_vote_message c1 h1 a1 k1 p1 e1 = canonical_vote_message c2 h2 a2 k2 p2 e2 →
  c1 = c2 ∧ h1 = h2 ∧ a1 = a2 ∧ k1 = k2 ∧ p1 = p2 ∧ e1 = e2.
Proof.
  intros Hfree Heq. rewrite !Forall_cons in Hfree.
  destruct Hfree as (?&?&?&?&?&?&?&?&_).
  unfold canonical_vote_message in Heq. apply app_inj_l, app_inj_l in Heq.
  change ("|" +:+ ?x) with (String "|" x) in Heq.
  apply sep_split_l in Heq as [-> Heq]; [|done..].
  apply sep_split_l in Heq as [-> Heq]; [|done..].
  apply sep_split_l in Heq as [Ha%fmt_bool_inj Heq]; [|by destruct a1|by destruct a2].
  apply sep_split_l in Heq as [-> Heq]; [|done..].
  apply sep_split_l in Heq as [-> Heq]; [|done..]. done.
Qed.

(** Stored votes are filed under their validator and carry valid signatures. *)
Definition votes_ok (s : PackageVoteState) (m : gmap string IncomingVote) : Prop :=
  map_Forall (λ k v, iv_validator_id v = k ∧ verify_signature s v = Valid) m.

Definition state_ok (s : PackageVoteState) : Prop :=
  votes_ok s (prepare_votes s) ∧ votes_ok s (commit_votes s).

Lemma verify_signature_ext (s s' : PackageVoteState) (v : IncomingVote) :
  pvs_canonical s' = pvs_canonical s → verify_signature s' v = verify_signature s v.
Proof. unfold verify_signature. by intros ->. Qed.

Lemma votes_ok_ext (s s' : PackageVoteState) (m : gmap string IncomingVote) :
  pvs_canonical s' = pvs_canonical s → votes_ok s m → votes_ok s' m.
Proof.
  intros Hc Hm k v Hv. rewrite (verify_signature_ext s s') by done. by apply Hm.
Qed.

Lemma check_vote_Ok (s : PackageVoteState) (v : IncomingVote) :
  check_vote s v false = Ok tt ↔ verify_signature s v = Valid.
Proof. unfold check_vote. destruct (verify_signature s v); split; congruence. Qed.

Lemma add_commit_ok (s : PackageVoteState) (v : IncomingVote) :
  state_ok s → check_vote s v false = Ok tt → state_ok (add_commit s v).
Proof.
  intros [Hp Hc] Hv%check_vote_Ok. split; [by eapply votes_ok_ext|].
  apply (votes_ok_ext s); [done|]. by apply map_Forall_insert_2.
Qed.

Lemma state_ok_set_vphase (s : PackageVoteState) (p : VotePhase) :
  state_ok s → state_ok (set_vphase s p).
Proof. intros [Hp Hc]. split; by eapply votes_ok_ext. Qed.

Lemma record_commit_ok (checks : bool) (s : PackageVoteState) (v : IncomingVote) :
  state_ok s → state_ok (record_commit checks s v false).1.
Proof.
  intros Hs. unfold record_commit. destruct (check_vote s v false) as [[]|] eqn:Hc; [|done].
  pose proof (add_commit_ok s v Hs Hc). set (s1 := add_commit s v) in *.
  repeat case_match; simpl; auto using state_ok_set_vphase.
Qed.

Lemma record_prepare_ok (s : PackageVoteState) (v : IncomingVote) :
  state_ok s → state_ok (record_prepare s v false).1.
Proof.
  intros [Hp Hc]. unfold record_prepare.
  destruct (check_vote s v false) as [[]|] eqn:Hv; [|done]. apply check_vote_Ok in Hv.
  assert (state_ok (add_prepare s v)) as Hs1.
  { split; [|by eapply votes_ok_ext]. apply (votes_ok_ext s); [done|].
    by apply map_Forall_insert_2. }
  set (s1 := add_prepare s v) in *. case_match; simpl; auto using state_ok_set_vphase.
Qed.

(** A history of verified votes. *)
Definition vote_step (checks : bool) (s : PackageVoteState) (pv : bool * IncomingVote)
    : PackageVoteState :=
  if pv.1 then (record_commit checks s pv.2 false).1 else (record_prepare s pv.2 false).1.

Lemma vote_history_ok (checks : bool) (l : list (bool * IncomingVote)) (s : PackageVoteState) :
  state_ok s → state_ok (foldl (vote_step checks) s l).
Proof.
  revert s. induction l as [|[ph v] l IH]; intros s Hs; [done|]. simpl. apply IH.
  unfold vote_step. destruct ph; [by apply record_commit_ok|by apply record_prepare_ok].
Qed.

Lemma vote_state_new_ok (now : Z) (c : string) (n : nat) : state_ok (vote_state_new now c n).
Proof. split; apply map_Forall_empty. Qed.

(** A package is verified only on a quorum: after any history of verified
    PREPARE and COMMIT votes, a [Verified] outcome means that at least
    [2n/3+1] distinct validator ids have approving, consensus-grade commit votes
    with valid signatures, and the returned signatures are those of distinct
    approving voters. *)
Theorem commit_verified_sound (checks : bool) (now : Z) (c : string) (n : nat)
    (l : list (bool * IncomingVote)) (v : IncomingVote) (sigs : list ValidatorSignature) :
  let s := foldl (vote_step checks) (vote_state_new now c n) l in
  (record_commit checks s v false).2 = Some (Ok (Some (OutVerified sigs))) →
  vphase (record_commit checks s v false).1 = VFinalised
  ∧ ∃ votes, sigs = validator_sig_of <$> votes
    ∧ NoDup (iv_validator_id <$> votes)
    ∧ Forall (λ w, iv_approved w = true ∧ verify_signature s w = Valid) votes
    ∧ vote_quorum s ≤ count is_consensus_grade votes.
Proof.
  intros s Hout.
  assert (state_ok s) as Hs by (apply vote_history_ok, vote_state_new_ok).
  pose proof (record_commit_ok checks s v Hs) as [_ Hok]. revert Hout Hok.
  unfold record_commit. destruct (check_vote s v false); [|done].
  destruct (Nat.leb_spec (vote_quorum (add_commit s v)) (approvals_of (add_commit s v))) as [Hq|].
  2: { repeat case_match; naive_solver. }
  simpl. intros [= <-] Hok. split; [done|]. eexists. split; [done|].
  split; [|split].
  - apply NoDup_hm_filter. intros k w Hw. by destruct (Hok _ _ Hw).
  - apply Forall_forall. intros w [Ha [k Hk]%elem_of_hm_values]%list_elem_of_filter.
    split; [done|]. by destruct (Hok _ _ Hk).
  - simpl. rewrite (count_filter is_consensus_grade (λ w, iv_approved w)). exact Hq.
Qed.

(** Decision table of [record_commit] while the rejections do not outnumber the
    assigned validators: [Verified] exactly on an approval quorum, [Rejected]
    exactly when no approval quorum is possible any more, undecided otherwise, and
    never a panic. *)
Theorem record_commit_decides (checks skip : bool) (s : PackageVoteState) (v : IncomingVote) :
  let s1 := add_commit s v in
  check_vote s v skip = Ok tt → rejections_of s1 ≤ assigned_count s1 →
  match (record_commit checks s v skip).2 with
  | None => False
  | Some (Err _) => False
  | Some (Ok (Some (OutVerified _))) => vote_quorum s1 ≤ approvals_of s1
  | Some (Ok (Some (OutRejected _))) =>
      approvals_of s1 < vote_quorum s1 ∧ assigned_count s1 < vote_quorum s1 + rejections_of s1
  | Some (Ok None) =>
      approvals_of s1 < vote_quorum s1 ∧ vote_quorum s1 + rejections_of s1 ≤ assigned_count s1
  end.
Proof.
  intros s1 Hc Hle. unfold record_commit. rewrite Hc. fold s1.
  destruct (Nat.leb_spec (vote_quorum s1) (approvals_of s1)) as [Hq|Hq]; [done|].
  rewrite usize_sub_le by lia.
  destruct (N.ltb_spec (N.of_nat (assigned_count s1) - N.of_nat (rejections_of s1))
    (N.of_nat (vote_quorum s1))); cbn [snd]; split; lia.
Qed.

(** Rejections from more ids than were assigned break the decision: nothing
    limits voters to the assigned set, and the subtraction of rejections from the
    assigned count then panics in a checked build; unchecked it wraps, and a round
    that can no longer be approved is reported as undecided. *)
Theorem record_commit_overflow (s : PackageVoteState) (v : IncomingVote) (skip : bool) :
  let s1 := add_commit s v in
  check_vote s v skip = Ok tt →
  approvals_of s1 < vote_quorum s1 → assigned_count s1 < rejections_of s1 →
  (N.of_nat (rejections_of s1) + N.of_nat (vote_quorum s1) ≤ u64_size)%N →
  record_commit true s v skip = (s1, None)
  ∧ record_commit false s v skip = (s1, Some (Ok None)).
Proof.
  intros s1 Hc Ha Hr Hb. unfold record_commit. rewrite Hc. fold s1.
  destruct (Nat.leb_spec (vote_quorum s1) (approvals_of s1)) as [Hq|_]; [lia|].
  unfold usize_sub.
  destruct (N.leb_spec (N.of_nat (rejections_of s1)) (N.of_nat (assigned_count s1))); [lia|].
  split; [done|].
  destruct (N.ltb_spec (N.of_nat (assigned_count s1) + u64_size - N.of_nat (rejections_of s1))
    (N.of_nat (vote_quorum s1))); [lia|done].
Qed.

(** The same vote under another validator id. *)
Definition relabel (id : string) (v : IncomingVote) : IncomingVote := {|
  iv_validator_id := id; iv_validator_pubkey := iv_validator_pubkey v;
  iv_content_hash := iv_content_hash v; iv_approved := iv_approved v;
  iv_reject_reason := iv_reject_reason v; iv_signature := iv_signature v;
  iv_received_at := iv_received_at v; iv_ml_model_version := iv_ml_model_version v;
  iv_analysis_bundles := iv_analysis_bundles v; iv_evidence_digest := iv_evidence_digest v |}.

Lemma relabel_valid (s : PackageVoteState) (id : string) (v : IncomingVote) :
  verify_signature s (relabel id v) = verify_signature s v.
Proof. done. Qed.

Lemma relabelled_votes (checks : bool) (s : PackageVoteState) (v : IncomingVote) (l : list string) :
  verify_signature s v = Valid → is_consensus_grade v = true → iv_approved v = true →
  commit_votes s = ∅ → NoDup l →
  let s' := foldl (λ s id, (record_commit checks s (relabel id v) false).1) s l in
  pvs_canonical s' = pvs_canonical s ∧ assigned_count s' = assigned_count s
  ∧ dom (commit_votes s') = list_to_set l
  ∧ approvals_of s' = length l ∧ rejections_of s' = 0
  ∧ (l ≠ [] → vote_quorum s ≤ length l → vphase s' = VFinalised).
Proof.
  intros Hv Hg Ha He. induction l as [|id l IH] using rev_ind; intros Hnd.
  - simpl. rewrite He. unfold approvals_of, rejections_of. rewrite He. naive_solver.
  - apply NoDup_app in Hnd as (Hnd & Hid & _).
    destruct (IH Hnd) as (Hc & Hn & Hd & Hap & Hrj & _). cbn zeta. rewrite foldl_app. simpl.
    set (s1 := foldl _ s l) in *. unfold record_commit.
    assert (check_vote s1 (relabel id v) false = Ok tt) as ->.
    { apply check_vote_Ok. rewrite relabel_valid. by rewrite (verify_signature_ext s s1). }
    assert (commit_votes s1 !! id = None) as Hnone.
    { apply not_elem_of_dom. rewrite Hd. set_solver. }
    set (s2 := add_commit s1 (relabel id v)).
    assert (approvals_of s2 = length l + 1) as Hap2.
    { unfold approvals_of, s2. simpl. rewrite count_hm_insert by done.
      change (is_consensus_grade (relabel id v)) with (is_consensus_grade v).
      change (iv_approved (relabel id v)) with (iv_approved v). rewrite Hg, Ha.
      fold (approvals_of s1). rewrite Hap. simpl. lia. }
    assert (rejections_of s2 = 0) as Hrj2.
    { unfold rejections_of, s2. simpl. rewrite count_hm_insert by done. simpl.
      rewrite Ha, andb_false_r. fold (rejections_of s1). rewrite Hrj. done. }
    assert (vote_quorum s2 = vote_quorum s) as Hq2 by (unfold vote_quorum; simpl; by rewrite Hn).
    assert (dom (commit_votes s2) = list_to_set (l ++ [id])) as Hd2.
    { simpl. rewrite dom_insert_L, Hd, list_to_set_app_L. set_solver. }
    rewrite Hap2, Hrj2, Hq2, usize_sub_le by lia. rewrite length_app. simpl.
    destruct (Nat.leb_spec (vote_quorum s) (length l + 1)) as [Hle|Hlt].
    + split_and!; done.
    + case_match; (split_and!; [done..|lia]).
Qed.

(** Votes are not bound to the validator they are counted for: verification uses
    the public key carried in the vote and the signed message does not contain the
    validator id, so one valid approving vote repeated under a quorum of made-up
    ids finalises the round. *)
Theorem one_key_fills_quorum (checks : bool) (s : PackageVoteState) (v : IncomingVote)
    (ids : list string) :
  verify_signature s v = Valid → is_consensus_grade v = true → iv_approved v = true →
  commit_votes s = ∅ → NoDup ids → vote_quorum s ≤ length ids →
  vphase (foldl (λ s id, (record_commit checks s (relabel id v) false).1) s ids) = VFinalised.
Proof.
  intros Hv Hg Ha He Hnd Hq.
  destruct (relabelled_votes checks s v ids) as (_ & _ & _ & _ & _ & Hf); [done..|].
  apply Hf; [|done]. intros ->. unfold vote_quorum in Hq. simpl in Hq. lia.
Qed.

(** Expiry marks exactly the open rounds past two minutes as timed out, returns
    exactly their names, and leaves every other round, decided ones included, as it
    was. *)
Theorem expire_timed_out_spec (now : Z) (a : Accumulator) (c : string) :
  (expire_timed_out now a).1 !! c
    = (λ s, if expirable now s then set_vphase s TimedOut else s) <$> a !! c
  ∧ (c ∈ (expire_timed_out now a).2 ↔ ∃ s, a !! c = Some s ∧ expirable now s = true).
Proof.
  split; [apply foldl_alter_where | apply elem_of_keys_where].
Qed.

End VoteProperties.

(** ** Witnesses *)
Module VoteExamples.
Import Toy.

Definition full_bundles : AnalysisBundleRefs := {|
  policy_bundle_id := "p"; feature_schema_id := "f"; expert_bundle_id := "e";
  embedding_model_id := "m"; index_epoch := "i"; threshold_profile_id := "t";
  llm_prompt_profile_id := "l"; osv_snapshot_epoch := "osv-off" |}.

(** A signed vote of key [key] over the package, under validator id [id]. *)
Definition ballot (canonical key id : string) (ok : bool) : IncomingVote :=
  let unsigned sig := {|
    iv_validator_id := id; iv_validator_pubkey := hex_encode (Toy.fit 32 key);
    iv_content_hash := "c0ffee"; iv_approved := ok;
    iv_reject_reason := if ok then None else Some "malware";
    iv_signature := sig; iv_received_at := 0; iv_ml_model_version := Some "model-1";
    iv_analysis_bundles := full_bundles; iv_evidence_digest := "ev" |} in
  unsigned (hex_encode (@sign toy_crypto (Toy.fit 32 key) (vote_message canonical (unsigned "")))).

Definition pkg : string := "npm:p@1".
Definition st (n : nat) : PackageVoteState := vote_state_new 0 pkg n.

Lemma vote_message_binds_witness : pkg = pkg ∧ "h" = "h" ∧ true = true ∧ "k" = "k" ∧ "p" = "p" ∧ "e" = "e".
Proof.
  apply (vote_message_binds pkg pkg "h" "h" "k" "k" "p" "p" "e" "e" true true).
  - repeat constructor.
  - reflexivity.
Defined.

Lemma commit_verified_sound_witness :
  let l := [(true, ballot pkg "a" "a" true); (true, ballot pkg "b" "b" true)] in
  let s := foldl (vote_step true) (vote_state_new 0 pkg 3) l in
  vphase (record_commit true s (ballot pkg "c" "c" true) false).1 = VFinalised.
Proof.
  intros l s.
  eapply (commit_verified_sound true 0 pkg 3 l (ballot pkg "c" "c" true)).
  vm_compute. reflexivity.
Defined.

Lemma record_commit_decides_witness :
  let s1 := add_commit (st 3) (ballot pkg "a" "a" false) in
  approvals_of s1 < vote_quorum s1 ∧ assigned_count s1 < vote_quorum s1 + rejections_of s1.
Proof.
  refine (@record_commit_decides toy_crypto true false (st 3) (ballot pkg "a" "a" false) _ _).
  - vm_compute. reflexivity.
  - apply (bool_decide_unpack _). by vm_compute.
Defined.

Definition st1 : PackageVoteState := (record_commit true (st 1) (ballot pkg "a" "a" false) false).1.

Lemma record_commit_overflow_witness :
  record_commit true st1 (ballot pkg "b" "b" false) false
    = (add_commit st1 (ballot pkg "b" "b" false), None).
Proof.
  refine (proj1 (record_commit_overflow st1 (ballot pkg "b" "b" false) false _ _ _ _)).
  - vm_compute. reflexivity.
  - apply (bool_decide_unpack _); by vm_compute.
  - apply (bool_decide_unpack _); by vm_compute.
  - by vm_compute.
Defined.

Lemma one_key_fills_quorum_witness :
  vphase (foldl (λ s id, (record_commit true s (relabel id (ballot pkg "mallory" "m" true)) false).1)
    (st 4) ["v1"; "v2"; "v3"]) = VFinalised.
Proof.
  apply (one_key_fills_quorum true (st 4) (ballot pkg "mallory" "m" true) ["v1"; "v2"; "v3"]).
  - by vm_compute.
  - by vm_compute.
  - reflexivity.
  - reflexivity.
  - by apply (bool_decide_unpack _); vm_compute.
  - apply (bool_decide_unpack _); by vm_compute.
Defined.

End VoteExamples.
