(* ===== verification/EvidenceVotes.v ===== *)
(** Package votes: the live rounds of the node and their aggregation into a
    verdict ([crates/node/src/state.rs], [crates/consensus/src/evidence_votes.rs]).

    The node stores votes with [PackageRound::record_vote]; the pipeline decides
    with [aggregate_evidence_votes].  Both keep one vote per voter key, by two
    different algorithms that are proved equal. *)

From S2P Require Import Prelude Text Crypto Types.
From Stdlib Require Import Ascii.

Inductive EvidenceVoteOutcome :=
| EVerified (sigs : list ValidatorSignature)
| ERejected (reason : string).

(** [package_round_vote_key]; the loop of [aggregate_evidence_votes] builds the
    same key. *)
Definition package_round_vote_key (sig : ValidatorSignature) : string :=
  if is_empty (vs_validator_pubkey sig)
  then "id:" +:+ to_ascii_lowercase (vs_validator_id sig)
  else "pubkey:" +:+ to_ascii_lowercase (vs_validator_pubkey sig).

(** ** state.rs: PackageRound *)

Record PackageRound := {
  subject : string;
  first_vote_at : Z;
  last_vote_at : Z;
  signatures : list ValidatorSignature;
}.

(** [.min()] and [.max()] of the signing times. *)
Definition min_time (l : list ValidatorSignature) : option Z :=
  match vs_signed_at <$> l with
  | [] => None
  | t :: ts => Some (foldl Z.min t ts)
  end.

Definition max_time (l : list ValidatorSignature) : option Z :=
  match vs_signed_at <$> l with
  | [] => None
  | t :: ts => Some (foldl Z.max t ts)
  end.

Definition refresh_timestamps (now : Z) (r : PackageRound) : PackageRound := {|
  subject := subject r;
  first_vote_at := default now (min_time (signatures r));
  last_vote_at := default now (max_time (signatures r));
  signatures := signatures r |}.

Definition from_vote (now : Z) (subj : string) (vote : ValidatorSignature) : PackageRound :=
  refresh_timestamps now
    {| subject := subj; first_vote_at := now; last_vote_at := now; signatures := [vote] |}.

(** [iter_mut().find(..)] then overwrite, or push. *)
Fixpoint upsert (vote : ValidatorSignature) (l : list ValidatorSignature)
    : list ValidatorSignature :=
  match l with
  | [] => [vote]
  | x :: l' =>
      if String.eqb (package_round_vote_key x) (package_round_vote_key vote)
      then vote :: l' else x :: upsert vote l'
  end.

(** [PackageRound::record_vote] *)
Definition round_record_vote (now : Z) (r : PackageRound) (vote : ValidatorSignature)
    : PackageRound :=
  refresh_timestamps now
    {| subject := subject r; first_vote_at := first_vote_at r; last_vote_at := last_vote_at r;
       signatures := upsert vote (signatures r) |}.

Definition vote_count (r : PackageRound) : nat := length (signatures r).

(** [NodeState::record_package_vote] and [clear_package_round], on the field
    [package_rounds]. *)
Definition record_package_vote (now : Z) (rounds : gmap string PackageRound)
    (subj : string) (vote : ValidatorSignature) : gmap string PackageRound :=
  match rounds !! subj with
  | Some r => <[subj := round_record_vote now r vote]> rounds
  | None => <[subj := from_vote now subj vote]> rounds
  end.

Definition clear_package_round (rounds : gmap string PackageRound) (subj : string)
    : gmap string PackageRound := delete subj rounds.

(** ** evidence_votes.rs *)
Section Evidence.
Context `{!Crypto}.

Definition consensus_profile_key (sig : ValidatorSignature) : option string :=
  if is_consensus_grade_vote (vs_ml_model_version sig) (vs_analysis_bundles sig)
       (vs_evidence_digest sig)
  then Some (scanner_profile_digest (vs_ml_model_version sig) (vs_analysis_bundles sig)
             +:+ ":" +:+ vs_evidence_digest sig)
  else None.

(** First loop: [seen_indices] and [unique_votes]. *)
Definition dedup_step (st : gmap string nat * list ValidatorSignature)
    (sig : ValidatorSignature) : gmap string nat * list ValidatorSignature :=
  let '(seen_indices, unique_votes) := st in
  let unique_key := package_round_vote_key sig in
  match seen_indices !! unique_key with
  | Some index => (seen_indices, <[index := sig]> unique_votes)
  | None => (<[unique_key := length unique_votes]> seen_indices, unique_votes ++ [sig])
  end.

Definition unique_votes (sigs : list ValidatorSignature) : list ValidatorSignature :=
  (foldl dedup_step (∅, []) sigs).2.

(** Second loop: an early return is [inl], the collected rejection reasons [inr]. *)
Fixpoint tally (quorum_size : nat)
    (approvals_by_profile : gmap string (list ValidatorSignature)) (rejections : list string)
    (votes : list ValidatorSignature) : list ValidatorSignature + list string :=
  match votes with
  | [] => inr rejections
  | sig :: votes =>
      match consensus_profile_key sig with
      | None => tally quorum_size approvals_by_profile rejections votes
      | Some profile_key =>
          match vs_vote sig with
          | Approve =>
              let approvals := default [] (approvals_by_profile !! profile_key) ++ [sig] in
              if (quorum_size <=? length approvals)%nat then inl approvals
              else tally quorum_size (<[profile_key := approvals]> approvals_by_profile)
                     rejections votes
          | Reject reason =>
              tally quorum_size approvals_by_profile (rejections ++ [reason]) votes
          end
      end
  end.

Definition evidence_quorum (assigned_count : nat) : nat := assigned_count * 2 / 3 + 1.

Definition aggregate_evidence_votes (sigs : list ValidatorSignature) (assigned_count : nat)
    : option EvidenceVoteOutcome :=
  let quorum_size := evidence_quorum assigned_count in
  match tally quorum_size ∅ [] (unique_votes sigs) with
  | inl approvals => Some (EVerified approvals)
  | inr rejections =>
      let max_possible_approvals := assigned_count - length rejections in
      if (max_possible_approvals <? quorum_size)%nat
      then Some (ERejected (default "Consensus rejected" (head rejections)))
      else None
  end.

(** ** One vote per voter *)

Definition key := package_round_vote_key.

Lemma upsert_fresh (v : ValidatorSignature) (l : list ValidatorSignature) :
  key v ∉ (key <$> l) → upsert v l = l ++ [v].
Proof.
  induction l as [|x l IH]; [done|]. rewrite fmap_cons. intros [Hx Hl]%not_elem_of_cons. simpl.
  destruct (String.eqb_spec (package_round_vote_key x) (package_round_vote_key v)) as [He|_].
  - by destruct Hx.
  - by rewrite IH.
Qed.

Lemma upsert_existing (v : ValidatorSignature) (l : list ValidatorSignature) (i : nat) :
  NoDup (key <$> l) → (key <$> l) !! i = Some (key v) → upsert v l = <[i := v]> l.
Proof.
  revert i. induction l as [|x l IH]; intros i Hnd Hi; [done|].
  rewrite fmap_cons in *. apply NoDup_cons in Hnd as [Hx Hnd]. simpl.
  destruct (String.eqb_spec (package_round_vote_key x) (package_round_vote_key v)) as [He|Hne];
    destruct i as [|i]; simpl in *.
  - done.
  - exfalso. apply Hx. unfold key at 1. rewrite He. by eapply list_elem_of_lookup_2.
  - injection Hi as Hi. by destruct Hne.
  - f_equal. by apply IH.
Qed.

Lemma upsert_keys (v : ValidatorSignature) (l : list ValidatorSignature) :
  NoDup (key <$> l) →
  NoDup (key <$> upsert v l) ∧ ∀ k, k ∈ (key <$> upsert v l) ↔ k = key v ∨ k ∈ (key <$> l).
Proof.
  intros Hnd. destruct (decide (key v ∈ (key <$> l))) as [Hin|Hni].
  - apply list_elem_of_lookup in Hin as [i Hi]. rewrite (upsert_existing v l i Hnd Hi).
    assert (key <$> <[i := v]> l = key <$> l) as ->.
    { rewrite list_fmap_insert. by apply list_insert_id. }
    split; [done|]. intros k. split; [by right|]. intros [->|?]; [|done].
    by eapply list_elem_of_lookup_2.
  - rewrite upsert_fresh by done. rewrite fmap_app. simpl. split.
    + apply NoDup_app. split; [done|]. split; [|apply NoDup_singleton].
      intros k Hk ->%list_elem_of_singleton. done.
    + intros k. rewrite elem_of_app, list_elem_of_singleton. tauto.
Qed.

Definition upserts (l : list ValidatorSignature) : list ValidatorSignature :=
  foldl (λ acc v, upsert v acc) [] l.

Lemma upserts_NoDup (l : list ValidatorSignature) : NoDup (key <$> upserts l).
Proof.
  unfold upserts. induction l as [|v l IH] using rev_ind; [constructor|].
  rewrite foldl_app. simpl. by apply upsert_keys.
Qed.

(** The index map of the loop points at the vote of each key. *)
Lemma dedup_loop (l : list ValidatorSignature) :
  let st := foldl dedup_step (∅, []) l in
  st.2 = upserts l ∧ ∀ k i, st.1 !! k = Some i ↔ (key <$> upserts l) !! i = Some k.
Proof.
  induction l as [|v l IH] using rev_ind.
  { split; [done|]. intros k i. simpl. by rewrite lookup_empty. }
  unfold upserts. cbn zeta. rewrite !foldl_app. simpl. fold (upserts l).
  destruct (foldl dedup_step (∅, []) l) as [seen uniq]. simpl in IH.
  destruct IH as [-> Hidx]. unfold dedup_step. fold (key v).
  pose proof (upserts_NoDup l) as Hnd.
  destruct (seen !! key v) as [i|] eqn:Hs; simpl.
  - apply Hidx in Hs as Hi. rewrite (upsert_existing v _ i) by done. split; [done|].
    intros k j. rewrite list_fmap_insert. rewrite list_insert_id by done. apply Hidx.
  - assert (key v ∉ (key <$> upserts l)) as Hni.
    { intros [i Hi]%list_elem_of_lookup. apply Hidx in Hi. congruence. }
    rewrite upsert_fresh by done. split; [done|]. intros k j.
    rewrite fmap_app. simpl. rewrite lookup_insert, lookup_snoc_Some, length_fmap.
    destruct (decide (key v = k)) as [<-|Hne].
    + split; [intros [= <-]; naive_solver|]. intros [[_ Hj]|[<- _]]; [|done].
      exfalso. apply Hni. by eapply list_elem_of_lookup_2.
    + rewrite Hidx. split; [|naive_solver]. intros Hj. left. split; [|done].
      apply lookup_lt_Some in Hj. by rewrite length_fmap in Hj.
Qed.

Lemma unique_votes_upserts (l : list ValidatorSignature) : unique_votes l = upserts l.
Proof. unfold unique_votes. by destruct (dedup_loop l). Qed.

Lemma upserts_id (l : list ValidatorSignature) : NoDup (key <$> l) → upserts l = l.
Proof.
  unfold upserts. induction l as [|v l IH] using rev_ind; [done|]. intros Hnd.
  rewrite fmap_app in Hnd. apply NoDup_app in Hnd as (Hnd & Hv & _).
  rewrite foldl_app. simpl. rewrite IH by done. apply upsert_fresh.
  intros Hin. apply (Hv _ Hin). simpl. constructor.
Qed.

(** The surviving vote of a key is the last one cast. *)
Lemma upsert_NoDup (v : ValidatorSignature) (l : list ValidatorSignature) :
  NoDup (key <$> l) → NoDup (key <$> upsert v l).
Proof.
  intros Hl. rewrite <- (upserts_id l Hl). pose proof (upserts_NoDup (l ++ [v])) as Hnd.
  unfold upserts in *. by rewrite foldl_app in Hnd.
Qed.

Lemma upsert_last (v : ValidatorSignature) (l : list ValidatorSignature) (w : ValidatorSignature) :
  NoDup (key <$> l) →
  w ∈ upsert v l ↔ w = v ∨ (w ∈ l ∧ key w ≠ key v).
Proof.
  intros Hnd. destruct (decide (key v ∈ (key <$> l))) as [Hin|Hni].
  - apply list_elem_of_lookup in Hin as [i Hi]. rewrite (upsert_existing v l i Hnd Hi).
    rewrite list_lookup_fmap in Hi. apply fmap_Some in Hi as (x & Hx & Hkx).
    rewrite list_elem_of_lookup. split.
    + intros [j Hj]. destruct (decide (i = j)) as [<-|Hne].
      * rewrite list_lookup_insert_eq in Hj by (by eapply lookup_lt_Some).
        injection Hj as <-. by left.
      * rewrite list_lookup_insert_ne in Hj by done. right.
        split; [by eapply list_elem_of_lookup_2|]. intros He. apply Hne.
        eapply (NoDup_lookup _ i j (key v) Hnd); rewrite list_lookup_fmap.
        -- by rewrite Hx, Hkx.
        -- by rewrite Hj, <- He.
    + intros [->|[Hw Hk]].
      * exists i. apply list_lookup_insert_eq. by eapply lookup_lt_Some.
      * apply list_elem_of_lookup in Hw as [j Hj]. exists j.
        rewrite list_lookup_insert_ne; [done|]. intros <-. rewrite Hx in Hj.
        injection Hj as ->. by rewrite Hkx in Hk.
  - rewrite upsert_fresh by done. rewrite elem_of_app, list_elem_of_singleton. split.
    + intros [Hw| ->]; [|by left]. right. split; [done|]. intros He. apply Hni.
      rewrite <- He. apply list_elem_of_fmap. eauto.
    + tauto.
Qed.

(** One vote per voter, the last one: the index-based deduplication of the
    aggregator equals the node's find-or-push store; its result has one vote per
    key, exactly the keys that voted, and for each key the latest vote. *)
Theorem unique_votes_spec (l : list ValidatorSignature) :
  unique_votes l = foldl (λ acc v, upsert v acc) [] l
  ∧ NoDup (package_round_vote_key <$> unique_votes l)
  ∧ ∀ w, w ∈ unique_votes l ↔
      ∃ l1 l2, l = l1 ++ w :: l2
        ∧ ∀ x, x ∈ l2 → package_round_vote_key x ≠ package_round_vote_key w.
Proof.
  rewrite unique_votes_upserts. split; [done|]. split; [apply upserts_NoDup|].
  induction l as [|v l IH] using rev_ind; intros w.
  { split; [by intros ?%not_elem_of_nil|]. intros ([] & l2 & [=] & _). }
  unfold upserts. rewrite foldl_app. simpl. fold (upserts l).
  rewrite upsert_last by apply upserts_NoDup. rewrite IH. split.
  - intros [->|[(l1 & l2 & -> & Hl2) Hk]].
    + exists l, []. split; [done|]. intros x ?%not_elem_of_nil. done.
    + exists l1, (l2 ++ [v]). split; [by rewrite <- app_assoc|].
      intros x [Hx| ->%list_elem_of_singleton]%elem_of_app; [by apply Hl2|].
      by apply not_eq_sym.
  - intros (l1 & l2 & Heq & Hl2). destruct l2 as [|y l2 _] using rev_ind.
    + apply app_inj_tail in Heq as [_ ->]. by left.
    + rewrite app_comm_cons, app_assoc in Heq. apply app_inj_tail in Heq as [-> <-].
      right. split; [|apply not_eq_sym, Hl2; set_solver].
      exists l1, l2. split; [done|]. intros x Hx. apply Hl2. set_solver.
Qed.

(** ** The tally *)

(** Approvals of one scanner profile and evidence digest. *)
Definition approves (k : string) (s : ValidatorSignature) : bool :=
  bool_decide (vs_vote s = Approve) && bool_decide (consensus_profile_key s = Some k).

Definition approvals_for (k : string) (l : list ValidatorSignature) : list ValidatorSignature :=
  filter (λ s, approves k s = true) l.

(** Reasons of the consensus-grade rejections. *)
Definition rejection_of (s : ValidatorSignature) : option string :=
  match consensus_profile_key s, vs_vote s with
  | Some _, Reject reason => Some reason
  | _, _ => None
  end.

Lemma approvals_for_snoc (k : string) (l : list ValidatorSignature) (s : ValidatorSignature) :
  approvals_for k (l ++ [s]) = approvals_for k l ++ (if approves k s then [s] else []).
Proof.
  unfold approvals_for. rewrite filter_app, filter_cons, filter_nil.
  destruct (approves k s); by case_decide.
Qed.

Lemma tally_spec (q : nat) (m : gmap string (list ValidatorSignature)) (rej : list string)
    (pre l : list ValidatorSignature) :
  (∀ k, default [] (m !! k) = approvals_for k pre) →
  (∀ k, length (approvals_for k pre) < q) →
  match tally q m rej l with
  | inl a => length a = q ∧ ∃ k l1 l2, l = l1 ++ l2 ∧ a = approvals_for k (pre ++ l1)
  | inr rej' => (∀ k, length (approvals_for k (pre ++ l)) < q) ∧ rej' = rej ++ omap rejection_of l
  end.
Proof.
  revert m rej pre. induction l as [|s l IH]; intros m rej pre Hm Hlt.
  { simpl. rewrite !app_nil_r. done. }
  cbn [tally].
  assert (∀ k, approves k s = false → approvals_for k (pre ++ [s]) = approvals_for k pre) as Hskip.
  { intros k Hk. by rewrite approvals_for_snoc, Hk, app_nil_r. }
  assert (∀ m' rej',
    (∀ k, default [] (m' !! k) = approvals_for k (pre ++ [s])) →
    (∀ k, length (approvals_for k (pre ++ [s])) < q) →
    rej' = rej ++ omap rejection_of [s] →
    match tally q m' rej' l with
    | inl a => length a = q ∧ ∃ k l1 l2, s :: l = l1 ++ l2 ∧ a = approvals_for k (pre ++ l1)
    | inr rej'' => (∀ k, length (approvals_for k (pre ++ s :: l)) < q)
                   ∧ rej'' = rej ++ omap rejection_of (s :: l)
    end) as Hnext.
  { intros m' rej' Hm' Hlt' ->. specialize (IH m' (rej ++ omap rejection_of [s]) _ Hm' Hlt').
    destruct (tally q m' _ l) as [a|rej''].
    - destruct IH as (Ha & k & l1 & l2 & -> & ->). split; [done|].
      exists k, (s :: l1), l2. split; [done|]. by rewrite <- app_assoc.
    - destruct IH as [Hk ->]. split; [intros k; rewrite (cons_middle s pre l), app_assoc; apply Hk|].
      rewrite <- app_assoc. f_equal. by rewrite <- omap_app. }
  destruct (consensus_profile_key s) as [pk|] eqn:Hpk.
  2: { assert (∀ k, approves k s = false) as Hno
         by (intros k; unfold approves; rewrite Hpk; by rewrite andb_false_r).
       apply Hnext; [intros k; by rewrite Hskip|intros k; by rewrite Hskip|].
       simpl. unfold rejection_of. by rewrite Hpk, app_nil_r. }
  destruct (vs_vote s) as [|reason] eqn:Hv.
  2: { assert (∀ k, approves k s = false) as Hno
         by (intros k; unfold approves; by rewrite Hv).
       apply Hnext; [intros k; by rewrite Hskip|intros k; by rewrite Hskip|].
       simpl. unfold rejection_of. by rewrite Hpk, Hv. }
  assert (∀ k, approves k s = bool_decide (pk = k)) as Hap.
  { intros k. unfold approves. rewrite Hv, Hpk. simpl. apply bool_decide_ext. naive_solver. }
  rewrite Hm. destruct (Nat.leb_spec q (length (approvals_for pk pre ++ [s]))) as [Hq|Hq].
  - specialize (Hlt pk). rewrite length_app in *. simpl in *. split; [lia|].
    exists pk, [s], l. split; [done|].
    by rewrite approvals_for_snoc, Hap, bool_decide_eq_true_2.
  - assert (∀ k, length (approvals_for k (pre ++ [s])) < q) as Hlt'.
    { intros k. rewrite approvals_for_snoc, Hap. case_bool_decide; [by subst|].
      by rewrite app_nil_r. }
    apply Hnext; [|done|].
    + intros k. rewrite approvals_for_snoc, Hap, lookup_insert.
      case_decide; case_bool_decide; try congruence; [by subst|]. by rewrite app_nil_r.
    + simpl. unfold rejection_of. by rewrite Hpk, Hv, app_nil_r.
Qed.

(** The tally over the deduplicated votes, from its initial state. *)
Lemma tally_unique (sigs : list ValidatorSignature) (n : nat) :
  let u := unique_votes sigs in
  match tally (evidence_quorum n) ∅ [] u with
  | inl a => length a = evidence_quorum n ∧ ∃ k l1 l2, u = l1 ++ l2 ∧ a = approvals_for k l1
  | inr rej => (∀ k, length (approvals_for k u) < evidence_quorum n) ∧ rej = omap rejection_of u
  end.
Proof.
  apply (tally_spec (evidence_quorum n) ∅ [] []).
  - intros k. by rewrite lookup_empty.
  - intros k. unfold evidence_quorum. simpl. lia.
Qed.

Lemma verified_sublist (sigs : list ValidatorSignature) (n : nat) (a : list ValidatorSignature) :
  aggregate_evidence_votes sigs n = Some (EVerified a) →
  length a = evidence_quorum n
  ∧ a `sublist_of` unique_votes sigs
  ∧ ∃ k, Forall (λ s, vs_vote s = Approve ∧ consensus_profile_key s = Some k) a.
Proof.
  unfold aggregate_evidence_votes. pose proof (tally_unique sigs n) as Ht. simpl in Ht.
  destruct (tally _ _ _ _) as [a'|rej]; [|by case_match].
  intros [= <-]. destruct Ht as (Hlen & k & l1 & l2 & Hu & Ha). split; [done|]. split.
  - rewrite Hu, Ha. etrans; [apply sublist_filter|]. by apply sublist_inserts_r.
  - exists k. rewrite Ha. apply Forall_forall.
    intros s [Hs _]%list_elem_of_filter. unfold approves in Hs.
    apply andb_prop in Hs as [?%bool_decide_eq_true_1 ?%bool_decide_eq_true_1]. done.
Qed.

(** C9. A [Verified] verdict is backed by exactly a quorum [2n/3+1] of votes from
    distinct voters, each an approval with consensus-grade metadata, all agreeing
    on one scanner profile and evidence digest, and each the latest vote of its
    voter: after it in the list, that voter does not vote again. *)
Theorem evidence_verified_sound (sigs : list ValidatorSignature) (n : nat)
    (a : list ValidatorSignature) :
  aggregate_evidence_votes sigs n = Some (EVerified a) →
  length a = 2 * n / 3 + 1
  ∧ NoDup (package_round_vote_key <$> a)
  ∧ (∀ w, w ∈ a → ∃ before later, sigs = before ++ w :: later
       ∧ ∀ x, x ∈ later → package_round_vote_key x ≠ package_round_vote_key w)
  ∧ ∃ k, Forall (λ s, vs_vote s = Approve ∧ consensus_profile_key s = Some k) a.
Proof.
  intros (Hlen & Hsub & Hk)%verified_sublist.
  destruct (unique_votes_spec sigs) as (_ & Hnd & Hlast).
  split; [rewrite Hlen; unfold evidence_quorum; by rewrite Nat.mul_comm|]. split.
  - eapply sublist_NoDup; [done|by apply fmap_sublist].
  - split; [|done]. intros w Hw. apply Hlast. by eapply sublist_subseteq.
Qed.

(** The verdict is complete and exclusive: [Verified] exactly when some profile has
    a quorum of approvals among the latest votes; otherwise [Rejected] exactly when
    the consensus-grade rejections leave fewer than a quorum of the assigned
    validators; otherwise still open. *)
Theorem evidence_decision (sigs : list ValidatorSignature) (n : nat) :
  let u := unique_votes sigs in
  let quorum_met := ∃ k, evidence_quorum n ≤ length (approvals_for k u) in
  match aggregate_evidence_votes sigs n with
  | Some (EVerified _) => quorum_met
  | Some (ERejected _) => ¬ quorum_met ∧ n < evidence_quorum n + length (omap rejection_of u)
  | None => ¬ quorum_met ∧ evidence_quorum n + length (omap rejection_of u) ≤ n
  end.
Proof.
  intros u quorum_met. unfold aggregate_evidence_votes.
  pose proof (tally_unique sigs n) as Ht. simpl in Ht. fold u in Ht |- *.
  destruct (tally _ _ _ _) as [a|rej].
  - destruct Ht as (Hlen & k & l1 & l2 & Hu & Ha). exists k.
    rewrite Hu. unfold approvals_for. rewrite filter_app, length_app.
    fold (approvals_for k l1). rewrite <- Ha, Hlen. lia.
  - destruct Ht as [Hlt ->].
    assert (¬ quorum_met) by (intros [k Hk]; specialize (Hlt k); lia).
    assert (0 < evidence_quorum n) by (unfold evidence_quorum; lia).
    destruct (Nat.ltb_spec (n - length (omap rejection_of u)) (evidence_quorum n));
      split; try done; lia.
Qed.

(** ** Rounds of the node *)

Lemma record_history (now : Z) (subj : string) (vs : list ValidatorSignature) :
  match foldl (λ m v, record_package_vote now m subj v) ∅ vs !! subj with
  | Some r => signatures r = upserts vs
              ∧ Some (first_vote_at r) = min_time (signatures r)
              ∧ Some (last_vote_at r) = max_time (signatures r)
  | None => vs = []
  end.
Proof.
  induction vs as [|v vs IH] using rev_ind; [done|].
  rewrite foldl_app. simpl. unfold record_package_vote at 1.
  assert (∀ r, signatures r ≠ [] →
    Some (default now (min_time (signatures r))) = min_time (signatures r)
    ∧ Some (default now (max_time (signatures r))) = max_time (signatures r)) as Htimes.
  { intros r Hne. unfold min_time, max_time. by destruct (signatures r). }
  destruct (foldl _ ∅ vs !! subj) as [r|] eqn:Hr; rewrite lookup_insert_eq; simpl.
  - destruct IH as [Hs _]. unfold upserts. rewrite foldl_app. simpl. fold (upserts vs).
    rewrite Hs. split; [done|].
    apply (Htimes {| subject := ""; first_vote_at := 0; last_vote_at := 0;
                     signatures := upsert v (upserts vs) |}). simpl.
    by destruct (upserts vs); simpl; [|case_match].
  - subst vs. done.
Qed.

(** The round store loses nothing the verdict depends on: aggregating the
    signatures of a live round gives the same outcome as aggregating the whole
    history of votes recorded for the subject, and the round's first and last vote
    times are the extremes over its votes. *)
Theorem round_aggregate_history (now : Z) (subj : string) (vs : list ValidatorSignature)
    (n : nat) (r : PackageRound) :
  foldl (λ m v, record_package_vote now m subj v) ∅ vs !! subj = Some r →
  aggregate_evidence_votes (signatures r) n = aggregate_evidence_votes vs n
  ∧ NoDup (package_round_vote_key <$> signatures r)
  ∧ Some (first_vote_at r) = min_time (signatures r)
  ∧ Some (last_vote_at r) = max_time (signatures r).
Proof.
  intros Hr. pose proof (record_history now subj vs) as Hh. rewrite Hr in Hh.
  destruct Hh as (Hs & Hmin & Hmax). unfold aggregate_evidence_votes.
  rewrite !unique_votes_upserts, Hs, (upserts_id (upserts vs)) by apply upserts_NoDup.
  split; [done|]. split; [apply upserts_NoDup|]. by rewrite <- Hs.
Qed.

End Evidence.

(** ** Witnesses *)
Module EvidenceExamples.
Import Toy.

Definition bundles : AnalysisBundleRefs := {|
  policy_bundle_id := "p"; feature_schema_id := "f"; expert_bundle_id := "e";
  embedding_model_id := "m"; index_epoch := "i"; threshold_profile_id := "t";
  llm_prompt_profile_id := "l"; osv_snapshot_epoch := "osv-off" |}.

Definition vsig (id : string) (v : ValidatorVote) (t : Z) : ValidatorSignature := {|
  vs_validator_id := id; vs_validator_pubkey := id +:+ "-pk"; vs_signature := "s";
  vs_vote := v; vs_signed_at := t; vs_ml_model_version := "m1";
  vs_analysis_bundles := bundles; vs_evidence_digest := "ev";
  vs_deterministic_risk := default_risk |}.

Definition ballots : list ValidatorSignature :=
  [vsig "v1" (Reject "late") 1; vsig "v2" Approve 2; vsig "v1" Approve 3; vsig "v3" Approve 4].

Lemma evidence_verified_sound_witness :
  ∃ a, aggregate_evidence_votes ballots 3 = Some (EVerified a) ∧ length a = 2 * 3 / 3 + 1.
Proof.
  eexists. split; [vm_compute; reflexivity|].
  refine (proj1 (evidence_verified_sound ballots 3 _ _)). vm_compute. reflexivity.
Defined.

Lemma round_aggregate_history_witness :
  ∃ r, foldl (λ m v, record_package_vote 9 m "pkg" v) ∅ ballots !! "pkg" = Some r
    ∧ aggregate_evidence_votes (signatures r) 3 = aggregate_evidence_votes ballots 3.
Proof.
  eexists. split; [vm_compute; reflexivity|].
  refine (proj1 (round_aggregate_history 9 "pkg" ballots 3 _ _)). vm_compute. reflexivity.
Defined.

End EvidenceExamples.
