(* ===== verification/ChainStore.v ===== *)
(** The chain database ([crates/node/src/chain_store.rs]).

    RocksDB's three column families are three maps; a value is stored as the
    value its JSON bytes decode to, and the I/O error of the database is not
    modelled.  Height keys are big-endian, so the last key is the greatest
    height.  A [WriteBatch] is a list of puts computed from reads of the
    database before the batch, applied at the end; this order is kept, because
    the source reads the database and not the batch.  [semver] is a third-party
    crate, the class [Semver]. *)

From S2P Require Import Prelude Text Crypto Types.

Class Semver := {
  SemVersion : Type;
  semver_parse : string → option SemVersion;        (* semver::Version::parse(..).ok() *)
  semver_gtb : SemVersion → SemVersion → bool;      (* nv > cv *)
}.

Record ChainStore := {
  blocks_by_hash : gmap string Block;
  blocks_by_height : gmap N string;
  packages : gmap string ChainRecord;
}.

Definition empty_store : ChainStore :=
  {| blocks_by_hash := ∅; blocks_by_height := ∅; packages := ∅ |}.

Record BlockInsertOutcome := { outcome_hash : string; replaced_hash : option string }.

Record ChainStats := {
  st_tip_height : N; st_tip_hash : string; st_package_count : nat; st_block_count : nat }.

(** Field updates of a record. *)
Definition set_block_hash (r : ChainRecord) (h : string) : ChainRecord := {|
  rec_id := rec_id r; rec_content_hash := rec_content_hash r; rec_ipfs_cid := rec_ipfs_cid r;
  rec_publisher_pubkey := rec_publisher_pubkey r; rec_block_hash := h;
  rec_published_at := rec_published_at r;
  rec_validator_signatures := rec_validator_signatures r; rec_status := rec_status r;
  rec_shielded := rec_shielded r; rec_key_bundle := rec_key_bundle r;
  rec_pgp_fingerprint := rec_pgp_fingerprint r; rec_findings := rec_findings r;
  rec_analysis_bundles := rec_analysis_bundles r; rec_evidence_digest := rec_evidence_digest r;
  rec_deterministic_risk := rec_deterministic_risk r; rec_access_count := rec_access_count r;
  rec_last_accessed := rec_last_accessed r; rec_threshold := rec_threshold r;
  rec_publisher_pubkeys := rec_publisher_pubkeys r; rec_manifest := rec_manifest r |}.

Definition set_status (r : ChainRecord) (st : PackageStatus) : ChainRecord := {|
  rec_id := rec_id r; rec_content_hash := rec_content_hash r; rec_ipfs_cid := rec_ipfs_cid r;
  rec_publisher_pubkey := rec_publisher_pubkey r; rec_block_hash := rec_block_hash r;
  rec_published_at := rec_published_at r;
  rec_validator_signatures := rec_validator_signatures r; rec_status := st;
  rec_shielded := rec_shielded r; rec_key_bundle := rec_key_bundle r;
  rec_pgp_fingerprint := rec_pgp_fingerprint r; rec_findings := rec_findings r;
  rec_analysis_bundles := rec_analysis_bundles r; rec_evidence_digest := rec_evidence_digest r;
  rec_deterministic_risk := rec_deterministic_risk r; rec_access_count := rec_access_count r;
  rec_last_accessed := rec_last_accessed r; rec_threshold := rec_threshold r;
  rec_publisher_pubkeys := rec_publisher_pubkeys r; rec_manifest := rec_manifest r |}.

Definition set_publisher (r : ChainRecord) (pk : string) : ChainRecord := {|
  rec_id := rec_id r; rec_content_hash := rec_content_hash r; rec_ipfs_cid := rec_ipfs_cid r;
  rec_publisher_pubkey := pk; rec_block_hash := rec_block_hash r;
  rec_published_at := rec_published_at r;
  rec_validator_signatures := rec_validator_signatures r; rec_status := rec_status r;
  rec_shielded := rec_shielded r; rec_key_bundle := rec_key_bundle r;
  rec_pgp_fingerprint := rec_pgp_fingerprint r; rec_findings := rec_findings r;
  rec_analysis_bundles := rec_analysis_bundles r; rec_evidence_digest := rec_evidence_digest r;
  rec_deterministic_risk := rec_deterministic_risk r; rec_access_count := rec_access_count r;
  rec_last_accessed := rec_last_accessed r; rec_threshold := rec_threshold r;
  rec_publisher_pubkeys := rec_publisher_pubkeys r; rec_manifest := rec_manifest r |}.

Definition set_access (r : ChainRecord) (n : N) (t : Z) : ChainRecord := {|
  rec_id := rec_id r; rec_content_hash := rec_content_hash r; rec_ipfs_cid := rec_ipfs_cid r;
  rec_publisher_pubkey := rec_publisher_pubkey r; rec_block_hash := rec_block_hash r;
  rec_published_at := rec_published_at r;
  rec_validator_signatures := rec_validator_signatures r; rec_status := rec_status r;
  rec_shielded := rec_shielded r; rec_key_bundle := rec_key_bundle r;
  rec_pgp_fingerprint := rec_pgp_fingerprint r; rec_findings := rec_findings r;
  rec_analysis_bundles := rec_analysis_bundles r; rec_evidence_digest := rec_evidence_digest r;
  rec_deterministic_risk := rec_deterministic_risk r; rec_access_count := n;
  rec_last_accessed := Some t; rec_threshold := rec_threshold r;
  rec_publisher_pubkeys := rec_publisher_pubkeys r; rec_manifest := rec_manifest r |}.

(** Entries in key order, as a RocksDB iterator yields them. *)
Definition key_le (a b : string * ChainRecord) : bool := str_le a.1 b.1.

Definition iterate (m : gmap string ChainRecord) : list (string * ChainRecord) :=
  sort_by key_le (map_to_list m).

(** [prefix_iterator_cf] followed by the [starts_with] / [break] loop: keys with one
    prefix are contiguous in key order. *)
Definition iterate_prefix (m : gmap string ChainRecord) (prefix : string)
    : list (string * ChainRecord) :=
  filter (λ kr, starts_with prefix kr.1 = true) (iterate m).

Section ChainStore.
Context `{!Crypto, !Serde}.

(** The puts one transaction adds to the batch, reading the database [db]. *)
Definition tx_puts (db : gmap string ChainRecord) (hash : string) (tx : Transaction)
    : list (string * ChainRecord) :=
  match tx with
  | Publish record => [(canonical (rec_id record), set_block_hash record hash)]
  | Revoke package_canonical reason _ _ =>
      match db !! package_canonical with
      | Some rec => [(package_canonical, set_status rec (Revoked reason))]
      | None => []
      end
  | RotatePublisherKey canonical_prefix old_pubkey new_pubkey _ _ _ _ =>
      (λ kr, (kr.1, set_publisher kr.2 new_pubkey))
        <$> filter (λ kr, rec_publisher_pubkey kr.2 = old_pubkey)
              (iterate_prefix db canonical_prefix)
  | _ => []
  end.

Definition apply_puts (m : gmap string ChainRecord) (puts : list (string * ChainRecord))
    : gmap string ChainRecord :=
  foldl (λ m kr, <[kr.1 := kr.2]> m) m puts.

(** The package puts of a block, in transaction order. *)
Definition block_puts (db : gmap string ChainRecord) (b : Block) : list (string * ChainRecord) :=
  concat (tx_puts db (block_hash b) <$> transactions b).

Definition insert_block (s : ChainStore) (b : Block) : ChainStore := {|
  blocks_by_hash := <[block_hash b := b]> (blocks_by_hash s);
  blocks_by_height := <[height (header b) := block_hash b]> (blocks_by_height s);
  packages := apply_puts (packages s) (block_puts (packages s) b) |}.

Definition get_block_by_hash (s : ChainStore) (hash : string) : option Block :=
  blocks_by_hash s !! hash.

Definition get_block_by_height (s : ChainStore) (h : N) : option Block :=
  blocks_by_height s !! h ≫= get_block_by_hash s.

Definition insert_block_with_outcome (s : ChainStore) (b : Block)
    : ChainStore * BlockInsertOutcome :=
  let new_hash := block_hash b in
  let replaced :=
    match get_block_by_height s (height (header b)) with
    | Some existing =>
        let existing_hash := block_hash existing in
        if String.eqb existing_hash new_hash then None else Some existing_hash
    | None => None
    end in
  (insert_block s b, {| outcome_hash := new_hash; replaced_hash := replaced |}).

Definition tip_height (s : ChainStore) : N := foldr N.max 0%N (hm_keys (blocks_by_height s)).

Definition tip_hash (s : ChainStore) : string :=
  match get_block_by_height s (tip_height s) with
  | Some b => block_hash b
  | None => repeat_str "0" 64
  end.

Definition block_count (s : ChainStore) : nat := size (blocks_by_height s).
Definition package_count (s : ChainStore) : nat := size (packages s).

(** [ChainStore::open] on an existing or empty database. *)
Definition open_store (s : ChainStore) : ChainStore :=
  if (tip_height s =? 0)%N && (block_count s =? 0)%nat then insert_block s genesis else s.

(** [lo..=hi] *)
Definition heights (lo hi : N) : list N :=
  (λ i, (lo + N.of_nat i)%N) <$> seq 0 (N.to_nat (hi + 1 - lo)).

Definition set_heights (s : ChainStore) (m : gmap N string) : ChainStore :=
  {| blocks_by_hash := blocks_by_hash s; blocks_by_height := m; packages := packages s |}.

Definition set_packages (s : ChainStore) (m : gmap string ChainRecord) : ChainStore :=
  {| blocks_by_hash := blocks_by_hash s; blocks_by_height := blocks_by_height s; packages := m |}.

Definition rollback_to_height (s : ChainStore) (h : N) : ChainStore * list string :=
  let tip := tip_height s in
  if (tip <=? h)%N then (s, [])
  else
    let hs := rev (heights (h + 1) tip) in
    (set_heights s (foldl (λ m k, delete k m) (blocks_by_height s) hs),
     omap (λ k, blocks_by_height s !! k) hs).

(** One step of the replay loop of [rebuild_package_index]. *)
Definition replay_height (s : ChainStore) (h : N) : ChainStore :=
  match get_block_by_height s h with
  | Some b => insert_block s b
  | None => s
  end.

Definition rebuild_package_index (s : ChainStore) : ChainStore :=
  foldl replay_height (set_packages s ∅) (heights 0 (tip_height s)).

Fixpoint list_from (s : ChainStore) (h : N) (limit : nat) : list Block :=
  match limit with
  | O => []
  | S limit' =>
      match get_block_by_height s h with
      | None => []
      | Some b => b :: (if (h =? 0)%N then [] else list_from s (h - 1) limit')
      end
  end.

Definition list_blocks (s : ChainStore) (offset : N) (limit : nat) : list Block :=
  let tip := tip_height s in
  if (tip =? 0)%N then [] else list_from s (tip - offset) limit.

Definition get_package (s : ChainStore) (c : string) : option ChainRecord := packages s !! c.

Definition save_package (s : ChainStore) (r : ChainRecord) : ChainStore :=
  set_packages s (<[canonical (rec_id r) := r]> (packages s)).

Definition mark_accessed (now : Z) (s : ChainStore) (c : string) : ChainStore :=
  match get_package s c with
  | Some r => save_package s (set_access r (rec_access_count r + 1) now)
  | None => s
  end.

Definition has_publisher_for_prefix (s : ChainStore) (prefix publisher_pubkey : string) : bool :=
  existsb (λ kr, String.eqb (rec_publisher_pubkey kr.2) publisher_pubkey)
    (iterate_prefix (packages s) prefix).

(** The nonce of the first rotation by [pubkey] in a transaction list. *)
Fixpoint first_rotation (pubkey : string) (txs : list Transaction) : option N :=
  match txs with
  | [] => None
  | RotatePublisherKey _ old_pubkey _ _ _ _ nonce :: txs' =>
      if String.eqb old_pubkey pubkey then Some nonce else first_rotation pubkey txs'
  | _ :: txs' => first_rotation pubkey txs'
  end.

(** Search the canonical blocks from the tip down. *)
Fixpoint search_down {A : Type} (f : Block → option A) (s : ChainStore) (hs : list N) : option A :=
  match hs with
  | [] => None
  | h :: hs' =>
      match get_block_by_height s h with
      | Some b => match f b with Some a => Some a | None => search_down f s hs' end
      | None => search_down f s hs'
      end
  end.

Definition publisher_rotation_nonce (s : ChainStore) (pubkey : string) : option N :=
  match search_down (λ b, first_rotation pubkey (transactions b)) s
          (rev (heights 0 (tip_height s))) with
  | Some n => Some n
  | None => Some 0%N
  end.

Definition publisher_last_rotation_time (s : ChainStore) (pubkey : string) : option Z :=
  search_down (λ b, (λ _, timestamp (header b)) <$> first_rotation pubkey (transactions b)) s
    (rev (heights 0 (tip_height s))).

Definition status_matches (st actual : PackageStatus) : bool :=
  match st, actual with
  | Verified, Verified => true
  | Pending, Pending => true
  | Revoked _, Revoked _ => true
  | _, _ => false
  end.

Definition list_packages (s : ChainStore) (offset limit : nat) (eco : option string)
    (status : option PackageStatus) : list ChainRecord * nat :=
  let entries :=
    match eco with
    | Some e => iterate_prefix (packages s) (e +:+ ":")
    | None => iterate (packages s)
    end in
  let matching :=
    filter (λ r, match status with Some st => status_matches st (rec_status r) | None => true end
                 = true) (entries.*2) in
  (take limit (drop offset matching), length matching).

Definition stats (s : ChainStore) : ChainStats := {|
  st_tip_height := tip_height s; st_tip_hash := tip_hash s;
  st_package_count := package_count s; st_block_count := block_count s |}.

(** [is_newer] of [get_latest_version]. *)
Definition is_newer `{!Semver} (record : ChainRecord) (latest : option ChainRecord) : bool :=
  match latest with
  | None => true
  | Some current =>
      match semver_parse (version (rec_id record)), semver_parse (version (rec_id current)) with
      | Some nv, Some cv => semver_gtb nv cv
      | _, _ => str_lt (version (rec_id current)) (version (rec_id record))
      end
  end.

Definition latest_step `{!Semver} (latest : option ChainRecord) (kr : string * ChainRecord)
    : option ChainRecord :=
  if bool_decide (rec_status kr.2 = Verified) && is_newer kr.2 latest
  then Some kr.2 else latest.

Definition get_latest_version `{!Semver} (s : ChainStore) (eco name : string)
    : option ChainRecord :=
  foldl latest_step None (iterate_prefix (packages s) (eco +:+ ":" +:+ name)).

End ChainStore.

(** ** Iteration and batches *)

Lemma elem_of_iterate (m : gmap string ChainRecord) (k : string) (r : ChainRecord) :
  (k, r) ∈ iterate m ↔ m !! k = Some r.
Proof. unfold iterate. by rewrite elem_of_sort_by, elem_of_map_to_list. Qed.

Lemma elem_of_iterate_prefix (m : gmap string ChainRecord) (p k : string) (r : ChainRecord) :
  (k, r) ∈ iterate_prefix m p ↔ m !! k = Some r ∧ starts_with p k = true.
Proof. unfold iterate_prefix. rewrite list_elem_of_filter, elem_of_iterate. naive_solver. Qed.

Lemma NoDup_iterate_prefix (m : gmap string ChainRecord) (p : string) (P : string * ChainRecord → Prop)
    `{∀ x, Decision (P x)} :
  NoDup (filter P (iterate_prefix m p)).*1.
Proof.
  eapply sublist_NoDup.
  - assert (NoDup (iterate m).*1) as Hnd; [|exact Hnd].
    unfold iterate. rewrite sort_by_Permutation. apply NoDup_fst_map_to_list.
  - apply fmap_sublist. etrans; [apply sublist_filter|]. apply sublist_filter.
Qed.

Lemma apply_puts_app (m : gmap string ChainRecord) (p q : list (string * ChainRecord)) :
  apply_puts m (p ++ q) = apply_puts (apply_puts m p) q.
Proof. unfold apply_puts. by rewrite foldl_app. Qed.

Lemma apply_puts_not (m : gmap string ChainRecord) (p : list (string * ChainRecord)) (c : string) :
  c ∉ p.*1 → apply_puts m p !! c = m !! c.
Proof.
  unfold apply_puts. revert m. induction p as [|[k r] p IH]; intros m Hc; [done|].
  rewrite fmap_cons in Hc. apply not_elem_of_cons in Hc as [Hk Hp]. simpl in *.
  rewrite IH by done. by rewrite lookup_insert_ne.
Qed.

Lemma apply_puts_in (m : gmap string ChainRecord) (p : list (string * ChainRecord)) (c : string)
    (r : ChainRecord) :
  NoDup p.*1 → (c, r) ∈ p → apply_puts m p !! c = Some r.
Proof.
  unfold apply_puts. revert m. induction p as [|[k r'] p IH]; intros m Hnd Hin.
  { by apply not_elem_of_nil in Hin. }
  rewrite fmap_cons in Hnd. apply NoDup_cons in Hnd as [Hk Hnd]. simpl in *.
  apply elem_of_cons in Hin as [[= -> ->]|Hin]; [|by apply IH].
  fold (apply_puts (<[k := r']> m) p). rewrite apply_puts_not by done. by rewrite lookup_insert_eq.
Qed.

(** What a transaction writes at one key, given the value it reads there. *)
Definition put_effect (cur : option ChainRecord) (hash : string) (tx : Transaction) (c : string)
    : option ChainRecord :=
  match tx with
  | Publish r => if String.eqb (canonical (rec_id r)) c then Some (set_block_hash r hash) else None
  | Revoke pc reason _ _ =>
      if String.eqb pc c then (λ r, set_status r (Revoked reason)) <$> cur else None
  | RotatePublisherKey prefix old_pubkey new_pubkey _ _ _ _ =>
      match cur with
      | Some r =>
          if starts_with prefix c && String.eqb (rec_publisher_pubkey r) old_pubkey
          then Some (set_publisher r new_pubkey) else None
      | None => None
      end
  | _ => None
  end.

Definition put_over (cur : option ChainRecord) (new : option ChainRecord) : option ChainRecord :=
  match new with
  | Some r => Some r
  | None => cur
  end.

Lemma tx_puts_lookup (db m : gmap string ChainRecord) (hash : string) (tx : Transaction) (c : string) :
  apply_puts m (tx_puts db hash tx) !! c = put_over (m !! c) (put_effect (db !! c) hash tx c).
Proof.
  destruct tx as [r|pc reason ? ?|? ? ?|? ? ?|?|prefix old new ? ? ? ?]; try done; simpl.
  - rewrite lookup_insert. destruct (String.eqb_spec (canonical (rec_id r)) c);
      by case_decide.
  - destruct (String.eqb_spec pc c) as [->|Hne].
    + destruct (db !! c); simpl; [by rewrite lookup_insert_eq|done].
    + destruct (db !! pc); simpl; [by rewrite lookup_insert_ne|done].
  - set (sel := filter _ (iterate_prefix db prefix)).
    set (puts := (λ kr : string * ChainRecord, (kr.1, set_publisher kr.2 new)) <$> sel).
    assert (puts.*1 = sel.*1) as Hkeys.
    { unfold puts. by rewrite <- list_fmap_compose. }
    assert (NoDup puts.*1) as Hnd by (rewrite Hkeys; apply NoDup_iterate_prefix).
    assert (∀ k r, (k, r) ∈ sel ↔
      db !! k = Some r ∧ starts_with prefix k = true ∧ rec_publisher_pubkey r = old) as Hsel.
    { intros k r. unfold sel. rewrite list_elem_of_filter, elem_of_iterate_prefix. naive_solver. }
    assert ((∀ r, db !! c = Some r → ¬ (starts_with prefix c = true ∧ rec_publisher_pubkey r = old)) →
      apply_puts m puts !! c = m !! c) as Hout.
    { intros Hno. apply apply_puts_not. rewrite Hkeys.
      intros ([k r] & -> & Hin)%list_elem_of_fmap. apply Hsel in Hin as (Hr & Hp & Ho).
      by apply (Hno r). }
    destruct (db !! c) as [r|] eqn:Hr; [|by apply Hout].
    destruct (starts_with prefix c) eqn:Hp; simpl; [|by apply Hout; naive_solver].
    destruct (String.eqb_spec (rec_publisher_pubkey r) old) as [Ho|Ho]; simpl;
      [|by apply Hout; naive_solver].
    apply apply_puts_in; [done|]. unfold puts. apply list_elem_of_fmap. exists (c, r).
    split; [done|]. by apply Hsel.
Qed.

Section StoreProperties.
Context `{!Crypto, !Serde}.

(** The package index after one block: all reads before all writes. *)
Definition index_block (m : gmap string ChainRecord) (b : Block) : gmap string ChainRecord :=
  apply_puts m (block_puts m b).

Lemma insert_block_packages (s : ChainStore) (b : Block) :
  packages (insert_block s b) = index_block (packages s) b.
Proof. done. Qed.

Lemma index_block_lookup (m : gmap string ChainRecord) (b : Block) (c : string) :
  index_block m b !! c
  = foldl (λ cur tx, put_over cur (put_effect (m !! c) (block_hash b) tx c)) (m !! c)
      (transactions b).
Proof.
  unfold index_block, block_puts.
  assert (∀ (txs : list Transaction) (m0 : gmap string ChainRecord),
    apply_puts m0 (concat (tx_puts m (block_hash b) <$> txs)) !! c
    = foldl (λ cur tx, put_over cur (put_effect (m !! c) (block_hash b) tx c)) (m0 !! c) txs)
    as Hgen; [|apply Hgen].
  induction txs as [|tx txs IH]; intros m0; [done|]. simpl.
  by rewrite apply_puts_app, IH, tx_puts_lookup.
Qed.

(** The reference semantics: transactions take effect one after the other. *)
Definition index_block_seq (m : gmap string ChainRecord) (b : Block) : gmap string ChainRecord :=
  foldl (λ m tx, apply_puts m (tx_puts m (block_hash b) tx)) m (transactions b).

Lemma index_block_seq_lookup (m : gmap string ChainRecord) (b : Block) (c : string) :
  index_block_seq m b !! c
  = foldl (λ cur tx, put_over cur (put_effect cur (block_hash b) tx c)) (m !! c) (transactions b).
Proof.
  unfold index_block_seq. generalize (transactions b) as txs. intros txs. revert m.
  induction txs as [|tx txs IH]; intros m; [done|]. simpl. by rewrite IH, tx_puts_lookup.
Qed.

Definition writes (tx : Transaction) (c : string) : bool :=
  match tx with
  | Publish r => String.eqb (canonical (rec_id r)) c
  | Revoke pc _ _ _ => String.eqb pc c
  | RotatePublisherKey prefix _ _ _ _ _ _ => starts_with prefix c
  | _ => false
  end.

Definition reads (tx : Transaction) (c : string) : bool :=
  match tx with
  | Revoke pc _ _ _ => String.eqb pc c
  | RotatePublisherKey prefix _ _ _ _ _ _ => starts_with prefix c
  | _ => false
  end.

(** No transaction reads a package an earlier one of the list may write. *)
Fixpoint read_after_write_free (txs : list Transaction) (c : string) : bool :=
  match txs with
  | [] => true
  | tx :: txs' =>
      (negb (writes tx c) || forallb (λ t, negb (reads t c)) txs') && read_after_write_free txs' c
  end.

Lemma put_effect_no_read (cur cur' : option ChainRecord) (h : string) (tx : Transaction) (c : string) :
  reads tx c = false → put_effect cur h tx c = put_effect cur' h tx c.
Proof.
  destruct tx; simpl; try done; intros ->; [done|]. by destruct cur, cur'.
Qed.

Lemma put_effect_no_write (cur : option ChainRecord) (h : string) (tx : Transaction) (c : string) :
  writes tx c = false → put_effect cur h tx c = None.
Proof. destruct tx; simpl; try done; intros ->; [done..|]. by destruct cur. Qed.

Lemma batch_is_sequential (txs : list Transaction) (h c : string) (cur0 cur : option ChainRecord) :
  read_after_write_free txs c = true →
  (cur = cur0 ∨ forallb (λ t, negb (reads t c)) txs = true) →
  foldl (λ cur tx, put_over cur (put_effect cur0 h tx c)) cur txs
  = foldl (λ cur tx, put_over cur (put_effect cur h tx c)) cur txs.
Proof.
  revert cur. induction txs as [|tx txs IH]; intros cur Hfree Hcur; [done|]. simpl in *.
  apply andb_prop in Hfree as [Hw Hfree].
  assert (put_effect cur0 h tx c = put_effect cur h tx c) as ->.
  { destruct Hcur as [->|Hr]; [done|]. apply andb_prop in Hr as [Hr%negb_true_iff _].
    by apply put_effect_no_read. }
  apply IH; [done|]. destruct (writes tx c) eqn:Hwr; simpl in Hw; [by right|].
  rewrite put_effect_no_write by done. simpl.
  destruct Hcur as [->|Hr]; [by left|]. right. by apply andb_prop in Hr as [_ ?].
Qed.

(** C21. Atomic batch against sequential meaning: inserting a block indexes its
    publications, revocations and key rotations as if they took effect one after
    the other, for every block in which no transaction reads a package that an
    earlier transaction of the same block writes. *)
Theorem block_index_sequential (s : ChainStore) (b : Block) :
  (∀ c, read_after_write_free (transactions b) c = true) →
  packages (insert_block s b) = index_block_seq (packages s) b.
Proof.
  intros Hfree. apply map_eq. intros c.
  rewrite insert_block_packages, index_block_lookup, index_block_seq_lookup.
  apply batch_is_sequential; [apply Hfree|by left].
Qed.

(** Without that condition a revocation is lost: a block that publishes a package
    and then revokes it leaves the package indexed with the published status. *)
Theorem same_block_revocation_lost (s : ChainStore) (b : Block) (r : ChainRecord)
    (reason by_ ev : string) :
  transactions b = [Publish r; Revoke (canonical (rec_id r)) reason by_ ev] →
  get_package s (canonical (rec_id r)) = None →
  get_package (insert_block s b) (canonical (rec_id r)) = Some (set_block_hash r (block_hash b)).
Proof.
  unfold get_package. intros Htx Hnone. rewrite insert_block_packages, index_block_lookup, Hnone, Htx. simpl.
  by rewrite String.eqb_refl.
Qed.

(** ** Heights *)

Lemma elem_of_heights (lo hi h : N) : h ∈ heights lo hi ↔ (lo ≤ h ≤ hi)%N.
Proof.
  unfold heights. rewrite list_elem_of_fmap. split.
  - intros (i & -> & Hi%elem_of_seq). lia.
  - intros Hh. exists (N.to_nat (h - lo)). rewrite elem_of_seq. lia.
Qed.

Lemma foldr_max_spec (l : list N) :
  (∀ h, h ∈ l → (h ≤ foldr N.max 0 l)%N) ∧ (foldr N.max 0%N l ∈ l ∨ l = []).
Proof.
  induction l as [|x l [IH1 IH2]]; [split; [by intros ? ?%not_elem_of_nil|by right]|]. simpl. split.
  - intros h [->|Hh]%elem_of_cons; [lia|]. specialize (IH1 h Hh). lia.
  - left. destruct IH2 as [Hin| ->]; [|simpl; rewrite N.max_0_r; constructor].
    destruct (N.max_spec x (foldr N.max 0%N l)) as [[_ ->]|[_ ->]]; by constructor.
Qed.

Lemma tip_height_ge (s : ChainStore) (h : N) :
  is_Some (blocks_by_height s !! h) → (h ≤ tip_height s)%N.
Proof. intros Hh. apply foldr_max_spec, elem_of_hm_keys, Hh. Qed.

Lemma tip_height_in (s : ChainStore) :
  is_Some (blocks_by_height s !! tip_height s) ∨ blocks_by_height s = ∅.
Proof.
  destruct (foldr_max_spec (hm_keys (blocks_by_height s))) as [_ [Hin|Hnil]].
  - left. by apply elem_of_hm_keys.
  - right. unfold hm_keys in Hnil. apply fmap_nil_inv in Hnil. by apply map_to_list_empty_iff.
Qed.

Lemma tip_height_unique (s : ChainStore) (t : N) :
  is_Some (blocks_by_height s !! t) → (∀ h, is_Some (blocks_by_height s !! h) → (h ≤ t)%N) →
  tip_height s = t.
Proof.
  intros Ht Hmax. pose proof (tip_height_ge s t Ht).
  destruct (tip_height_in s) as [Hin|He].
  - specialize (Hmax _ Hin). lia.
  - rewrite He, lookup_empty in Ht. by destruct Ht.
Qed.

Lemma tip_height_insert (s : ChainStore) (b : Block) :
  tip_height (insert_block s b) = N.max (tip_height s) (height (header b)).
Proof.
  apply tip_height_unique; simpl.
  - destruct (N.max_spec (tip_height s) (height (header b))) as [[_ ->]|[Hle ->]];
      [by rewrite lookup_insert_eq|].
    destruct (decide (height (header b) = tip_height s)) as [->|Hne];
      [by rewrite lookup_insert_eq|]. rewrite lookup_insert_ne by done.
    destruct (tip_height_in s) as [?|He]; [done|]. exfalso. apply Hne.
    unfold tip_height in *. rewrite He in *. unfold hm_keys in *.
    rewrite map_to_list_empty in *. simpl in *. lia.
  - intros h. rewrite lookup_insert. case_decide as Hd; [subst; lia|].
    intros Hh. pose proof (tip_height_ge s h Hh). lia.
Qed.

(** Inserting a block makes it retrievable by hash and by height, moves the tip to
    the greater of old tip and new height, reports the hash it displaces exactly
    when a different block was canonical at that height, and keeps every other
    height that does not already point at its hash. *)
Theorem insert_block_spec (s : ChainStore) (b : Block) :
  let '(s', out) := insert_block_with_outcome s b in
  get_block_by_hash s' (block_hash b) = Some b
  ∧ get_block_by_height s' (height (header b)) = Some b
  ∧ tip_height s' = N.max (tip_height s) (height (header b))
  ∧ (∀ h, h ≠ height (header b) → blocks_by_height s !! h ≠ Some (block_hash b) →
       get_block_by_height s' h = get_block_by_height s h)
  ∧ (∀ old, replaced_hash out = Some old ↔
       ∃ b0, get_block_by_height s (height (header b)) = Some b0 ∧ block_hash b0 = old
             ∧ old ≠ block_hash b).
Proof.
  assert (get_block_by_hash (insert_block s b) (block_hash b) = Some b) as Hhash
    by apply lookup_insert_eq.
  unfold insert_block_with_outcome, get_block_by_height. simpl. rewrite lookup_insert_eq. simpl.
  split; [done|]. split; [done|]. split; [|split].
  - apply tip_height_insert.
  - intros h Hne Hh. rewrite lookup_insert_ne by done.
    destruct (blocks_by_height s !! h) as [hash|]; simpl; [|done].
    unfold get_block_by_hash. simpl. rewrite lookup_insert_ne; [done|]. congruence.
  - intros old. destruct (blocks_by_height s !! height (header b) ≫= _) as [b0|]; [|naive_solver].
    destruct (String.eqb_spec (block_hash b0) (block_hash b)); naive_solver.
Qed.

Lemma foldl_delete_heights (m : gmap N string) (l : list N) (k : N) :
  foldl (λ m k, delete k m) m l !! k = if decide (k ∈ l) then None else m !! k.
Proof.
  revert m. induction l as [|x l IH]; intros m; [done|]. simpl. rewrite IH.
  destruct (decide (k ∈ l)); [by rewrite decide_True by set_solver|].
  rewrite lookup_delete. destruct (decide (x = k)).
  - by rewrite decide_True by set_solver.
  - by rewrite decide_False by set_solver.
Qed.

Lemma rollback_heights (s : ChainStore) (h k : N) :
  blocks_by_height (rollback_to_height s h).1 !! k
  = if decide (k ≤ h)%N then blocks_by_height s !! k else None.
Proof.
  unfold rollback_to_height. destruct (N.leb_spec (tip_height s) h) as [Hle|Hgt]; simpl.
  - case_decide; [done|]. destruct (blocks_by_height s !! k) eqn:Hk; [|done].
    pose proof (tip_height_ge s k ltac:(eauto)). lia.
  - rewrite foldl_delete_heights.
    assert (k ∈ rev (heights (h + 1) (tip_height s)) ↔ (h + 1 ≤ k ≤ tip_height s)%N) as Hin.
    { rewrite <- elem_of_heights, !list_elem_of_In, <- in_rev. done. }
    destruct (decide (k ≤ h)%N), (decide (k ∈ rev (heights (h + 1) (tip_height s)))) as [Hk|Hk];
      try done; rewrite Hin in Hk; [lia|].
    destruct (blocks_by_height s !! k) eqn:Hs; [|done].
    pose proof (tip_height_ge s k ltac:(eauto)). lia.
Qed.

(** Rolling back keeps the canonical chain up to the target, removes every height
    above it, reports exactly the hashes removed, and leaves abandoned blocks
    retrievable by hash; it does not touch the package index. *)
Theorem rollback_spec (s : ChainStore) (h : N) :
  let '(s', abandoned) := rollback_to_height s h in
  (∀ k, (k ≤ h)%N → get_block_by_height s' k = get_block_by_height s k)
  ∧ (∀ k, (h < k)%N → get_block_by_height s' k = None)
  ∧ (tip_height s' ≤ h)%N
  ∧ (∀ x, x ∈ abandoned ↔ ∃ k, (h < k)%N ∧ blocks_by_height s !! k = Some x)
  ∧ (∀ x, get_block_by_hash s' x = get_block_by_hash s x)
  ∧ packages s' = packages s.
Proof.
  destruct (rollback_to_height s h) as [s' abandoned] eqn:Hroll.
  assert (∀ k, blocks_by_height s' !! k
    = if decide (k ≤ h)%N then blocks_by_height s !! k else None) as Hh
    by (intros k; rewrite <- rollback_heights; by rewrite Hroll).
  assert (blocks_by_hash s' = blocks_by_hash s ∧ packages s' = packages s) as [Hbh Hpk].
  { revert Hroll. unfold rollback_to_height. case_match; intros [= <- _]; done. }
  unfold get_block_by_height, get_block_by_hash. rewrite Hbh.
  split; [intros k Hk; by rewrite Hh, decide_True|].
  split; [intros k Hk; by rewrite Hh, decide_False by lia|].
  split.
  { destruct (tip_height_in s') as [Hin|He].
    - rewrite Hh in Hin. case_decide; [done|]. by destruct Hin.
    - unfold tip_height. rewrite He. unfold hm_keys. rewrite map_to_list_empty. simpl. lia. }
  split; [|done]. intros x. revert Hroll. unfold rollback_to_height.
  destruct (N.leb_spec (tip_height s) h) as [Hle|Hgt]; intros [= _ <-].
  - split; [by intros ?%not_elem_of_nil|]. intros (k & Hk & Hx).
    pose proof (tip_height_ge s k ltac:(eauto)). lia.
  - rewrite list_elem_of_omap. split.
    + intros (k & Hk & Hx). exists k. rewrite list_elem_of_In, <- in_rev, <- list_elem_of_In in Hk.
      apply elem_of_heights in Hk. split; [lia|done].
    + intros (k & Hk & Hx). exists k. split; [|done].
      rewrite list_elem_of_In, <- in_rev, <- list_elem_of_In. apply elem_of_heights.
      pose proof (tip_height_ge s k ltac:(eauto)). lia.
Qed.

(** ** Reorganisation *)

(** [c] is a chain from genesis: block [i] has height [i]. *)
Definition contiguous (c : list Block) : Prop :=
  ∀ i b, c !! i = Some b → height (header b) = N.of_nat i.

Definition insert_all (s : ChainStore) (bs : list Block) : ChainStore := foldl insert_block s bs.

Lemma insert_all_packages (s : ChainStore) (bs : list Block) :
  packages (insert_all s bs) = foldl index_block (packages s) bs.
Proof.
  unfold insert_all. revert s. induction bs as [|b bs IH]; intros s; [done|]. simpl. by rewrite IH.
Qed.

Lemma insert_all_hash_old (s : ChainStore) (bs : list Block) (x : string) :
  x ∉ (block_hash <$> bs) → blocks_by_hash (insert_all s bs) !! x = blocks_by_hash s !! x.
Proof.
  unfold insert_all. revert s. induction bs as [|b bs IH]; intros s Hx; [done|].
  rewrite fmap_cons in Hx. apply not_elem_of_cons in Hx as [Hb Hx]. simpl.
  rewrite IH by done. simpl. by rewrite lookup_insert_ne.
Qed.

Lemma insert_all_height_old (s : ChainStore) (bs : list Block) (h : N) :
  Forall (λ b, height (header b) ≠ h) bs →
  blocks_by_height (insert_all s bs) !! h = blocks_by_height s !! h.
Proof.
  unfold insert_all. revert s. induction bs as [|b bs IH]; intros s Hall; [done|].
  apply Forall_cons in Hall as [Hb Hall]. simpl. rewrite IH by done. simpl.
  by rewrite lookup_insert_ne.
Qed.

(** The store of a contiguous chain with distinct hashes holds exactly that chain. *)
Lemma contiguous_store (c : list Block) :
  contiguous c → NoDup (block_hash <$> c) →
  (∀ i b, c !! i = Some b →
     blocks_by_height (insert_all empty_store c) !! N.of_nat i = Some (block_hash b)
     ∧ blocks_by_hash (insert_all empty_store c) !! block_hash b = Some b)
  ∧ (∀ h, (N.of_nat (length c) ≤ h)%N →
     blocks_by_height (insert_all empty_store c) !! h = None).
Proof.
  induction c as [|b c IH] using rev_ind; [done|]. intros Hc Hnd.
  rewrite fmap_app in Hnd. apply NoDup_app in Hnd as (Hnd & Hb & _).
  assert (height (header b) = N.of_nat (length c)) as Hh.
  { apply Hc. by apply list_lookup_middle. }
  destruct IH as [IH1 IH2]; [|done|].
  { intros i b' Hi. apply Hc. by apply lookup_app_l_Some. }
  unfold insert_all. rewrite foldl_app. simpl. fold (insert_all empty_store c). split.
  - intros i b' Hi. apply lookup_snoc_Some in Hi as [[Hlt Hi]|[-> <-]].
    + destruct (IH1 _ _ Hi) as [H1 H2]. rewrite !lookup_insert_ne; [done| |lia].
      intros He. apply (Hb (block_hash b')); [|simpl; rewrite He; constructor].
      apply list_elem_of_fmap. exists b'. split; [done|]. by eapply list_elem_of_lookup_2.
    + by rewrite Hh, !lookup_insert_eq.
  - intros h Hle. rewrite length_app in Hle. simpl in Hle.
    rewrite lookup_insert_ne by lia. apply IH2. lia.
Qed.

(** Replaying the heights of a stored chain re-indexes its blocks in order and
    changes nothing else. *)
Lemma replay_spec (s : ChainStore) (c : list Block) :
  contiguous c →
  (∀ i b, c !! i = Some b →
     blocks_by_height s !! N.of_nat i = Some (block_hash b)
     ∧ blocks_by_hash s !! block_hash b = Some b) →
  foldl replay_height s (N.of_nat <$> seq 0 (length c))
  = set_packages s (foldl index_block (packages s) c).
Proof.
  induction c as [|b c IH] using rev_ind; intros Hc Hs; [by destruct s|].
  rewrite length_app, Nat.add_1_r, seq_S, fmap_app, !foldl_app. simpl.
  rewrite IH.
  2: { intros i b' Hi. apply Hc. by apply lookup_app_l_Some. }
  2: { intros i b' Hi. apply Hs. by apply lookup_app_l_Some. }
  destruct (Hs (length c) b) as [H1 H2]; [by apply list_lookup_middle|].
  assert (height (header b) = N.of_nat (length c)) as Hh
    by (apply Hc; by apply list_lookup_middle).
  unfold replay_height, get_block_by_height, get_block_by_hash. simpl. rewrite H1. simpl.
  rewrite H2. unfold insert_block, set_packages. simpl.
  rewrite Hh, !insert_id by done. done.
Qed.

Lemma heights_seq (n : nat) : 0 < n → heights 0 (N.of_nat n - 1) = N.of_nat <$> seq 0 n.
Proof.
  intros Hn. unfold heights. replace (N.to_nat (N.of_nat n - 1 + 1 - 0)) with n by lia.
  apply list_fmap_ext. intros i x _. lia.
Qed.

(** C22. Reorganisation recovers the canonical state: after a chain [c1] and any blocks
    [c2] above it (with distinct hashes), rolling back to the tip of [c1] and
    rebuilding yields exactly the package index and the height index of a store
    that only ever saw [c1]; no record of an abandoned block lingers. *)
Theorem rollback_rebuild_canonical (c1 c2 : list Block) :
  c1 ≠ [] → contiguous c1 → NoDup (block_hash <$> c1) →
  Forall (λ b, (N.of_nat (length c1) ≤ height (header b))%N
               ∧ block_hash b ∉ (block_hash <$> c1)) c2 →
  let tip := (N.of_nat (length c1) - 1)%N in
  let s := insert_all empty_store (c1 ++ c2) in
  let s' := rebuild_package_index (rollback_to_height s tip).1 in
  packages s' = packages (insert_all empty_store c1)
  ∧ blocks_by_height s' = blocks_by_height (insert_all empty_store c1)
  ∧ tip_height s' = tip.
Proof.
  intros Hne Hc Hnd Hc2 tip s. destruct (contiguous_store c1 Hc Hnd) as [Hst1 Hst2].
  assert (0 < length c1) as Hlen by (destruct c1; [done|simpl; lia]).
  set (s1 := insert_all empty_store c1) in *. set (r := (rollback_to_height s tip).1).
  assert (s = insert_all s1 c2) as Hs by (unfold s, insert_all; by rewrite foldl_app).
  assert (blocks_by_height r = blocks_by_height s1) as Hrh.
  { apply map_eq. intros k. unfold r. rewrite rollback_heights, Hs. case_decide.
    - apply insert_all_height_old. eapply Forall_impl; [exact Hc2|].
      intros b [Hb _]. simpl. unfold tip in *. lia.
    - symmetry. apply Hst2. unfold tip in *. lia. }
  assert (∀ i b, c1 !! i = Some b → blocks_by_hash r !! block_hash b = Some b) as Hrb.
  { intros i b Hi. unfold r, rollback_to_height. case_match; simpl; rewrite Hs;
      (rewrite insert_all_hash_old; [by apply (Hst1 i)|]);
      intros (b' & He & Hin)%list_elem_of_fmap; rewrite Forall_forall in Hc2;
      destruct (Hc2 b' Hin) as [_ Hni]; apply Hni; rewrite <- He; apply list_elem_of_fmap;
      exists b; (split; [done|]); by eapply list_elem_of_lookup_2. }
  assert (∀ s', blocks_by_height s' = blocks_by_height s1 → tip_height s' = tip) as Htip.
  { intros s' Hs'. apply tip_height_unique; rewrite Hs'.
    - destruct (lookup_lt_is_Some_2 c1 (length c1 - 1)) as [b Hb]; [lia|].
      destruct (Hst1 _ _ Hb) as [Hx _]. exists (block_hash b). rewrite <- Hx. f_equal.
      unfold tip. lia.
    - intros h Hh. destruct (decide (h ≤ tip)%N); [done|].
      rewrite Hst2 in Hh by (unfold tip in *; lia). by destruct Hh. }
  unfold rebuild_package_index. rewrite (Htip r Hrh). unfold tip at 1 2 3.
  rewrite heights_seq by done. rewrite replay_spec; [|done|].
  - simpl. split; [unfold s1; by rewrite insert_all_packages|]. split; [done|]. by apply Htip.
  - intros i b Hi. simpl. rewrite Hrh. split; [by apply (Hst1 i)|by apply (Hrb i)].
Qed.

(** Pagination walks the canonical chain downwards: for a contiguous chain the page
    at [offset] consists of the blocks at heights [tip - offset],
    [tip - offset - 1], ..., at most [limit] of them, stopping at genesis. *)
Theorem list_blocks_descending (c : list Block) (offset limit : nat) :
  contiguous c → NoDup (block_hash <$> c) → 1 < length c →
  list_blocks (insert_all empty_store c) (N.of_nat offset) limit
  = take limit (rev (take (length c - 1 - offset + 1) c)).
Proof.
  intros Hc Hnd Hlen. destruct (contiguous_store c Hc Hnd) as [Hst1 Hst2].
  set (s := insert_all empty_store c) in *.
  assert (tip_height s = N.of_nat (length c - 1)) as Htip.
  { apply tip_height_unique.
    - destruct (lookup_lt_is_Some_2 c (length c - 1)) as [b Hb]; [lia|].
      destruct (Hst1 _ _ Hb) as [-> _]. eauto.
    - intros h Hh. destruct (decide (h ≤ N.of_nat (length c - 1))%N); [done|].
      rewrite Hst2 in Hh by lia. by destruct Hh. }
  unfold list_blocks. rewrite Htip. destruct (N.eqb_spec (N.of_nat (length c - 1)) 0); [lia|].
  replace (N.of_nat (length c - 1) - N.of_nat offset)%N
    with (N.of_nat (length c - 1 - offset)) by lia.
  assert (length c - 1 - offset < length c) as Hi by lia. revert Hi.
  generalize (length c - 1 - offset) as i. clear -Hst1. intros i.
  revert i. induction limit as [|limit IH]; intros i Hi; [done|]. simpl.
  destruct (lookup_lt_is_Some_2 c i Hi) as [b Hb]. destruct (Hst1 _ _ Hb) as [H1 H2].
  unfold get_block_by_height at 1. rewrite H1. simpl. unfold get_block_by_hash. rewrite H2.
  rewrite Nat.add_1_r, (take_S_r _ _ _ Hb), rev_app_distr. simpl. f_equal.
  destruct (N.eqb_spec (N.of_nat i) 0) as [Hz|Hz].
  - assert (i = 0) as -> by lia. simpl. by rewrite take_nil.
  - replace (N.of_nat i - 1)%N with (N.of_nat (i - 1)) by lia. rewrite IH by lia.
    by replace (i - 1 + 1) with i by lia.
Qed.

(** The latest-version query can answer with another package: its key prefix is
    [ecosystem:name] without the [@] that ends the name, so every package whose name
    merely starts with the queried one is a candidate. *)
Theorem latest_version_other_package `{!Semver} (s : ChainStore) (eco nm : string)
    (r : ChainRecord) (suffix : string) :
  packages s = {[canonical (rec_id r) := r]} → rec_status r = Verified →
  ecosystem (rec_id r) = eco → name (rec_id r) = nm +:+ suffix →
  get_latest_version s eco nm = Some r.
Proof.
  intros Hp Hv He Hn. unfold get_latest_version, iterate_prefix, iterate. rewrite Hp.
  rewrite map_to_list_singleton.
  rewrite (proj1 (Permutation_singleton_r _ _) (sort_by_Permutation key_le [_])).
  rewrite filter_cons, filter_nil. simpl. rewrite decide_True.
  - simpl. unfold latest_step. simpl. by rewrite bool_decide_eq_true_2.
  - apply starts_with_app. unfold canonical. rewrite He, Hn.
    exists (suffix +:+ "@" +:+ version (rec_id r)). by rewrite !app_assoc_str.
Qed.

End StoreProperties.

(** ** Witnesses *)
Module ChainStoreExamples.
Import Toy ToySerde.

Definition blk (h : N) (prev : string) (txs : list Transaction) : Block := {|
  header := {| height := h; prev_hash := prev; header_merkle_root := ""; proposer_id := "p";
    timestamp := 0; validator_set_hash := ""; vrf_output := None; vrf_proof := None |};
  transactions := txs; pbft_signatures := [] |}.

Definition record (nm : string) : ChainRecord := {|
  rec_id := {| ecosystem := "npm"; name := nm; version := "1.0.0" |};
  rec_content_hash := "h"; rec_ipfs_cid := "cid"; rec_publisher_pubkey := "pk";
  rec_block_hash := ""; rec_published_at := 0; rec_validator_signatures := [];
  rec_status := Verified; rec_shielded := false; rec_key_bundle := None;
  rec_pgp_fingerprint := None; rec_findings := []; rec_analysis_bundles := default_bundles;
  rec_evidence_digest := ""; rec_deterministic_risk := default_risk; rec_access_count := 0;
  rec_last_accessed := None; rec_threshold := 1; rec_publisher_pubkeys := [];
  rec_manifest := None |}.

Definition c1 : list Block := [blk 0 "" []; blk 1 "a" [Publish (record "a")]].
Definition c2 : list Block := [blk 2 "b" [Publish (record "evil")]].

Lemma c1_contiguous : contiguous c1.
Proof. intros [|[|[|i]]] b [= <-]; done. Qed.

Lemma c1_hashes : NoDup (block_hash <$> c1).
Proof. by apply (bool_decide_unpack _); vm_compute. Qed.

Definition b_seq : Block := blk 1 "a" [Revoke "npm:a@1.0.0" "r" "x" "e"; Publish (record "a")].

Lemma block_index_sequential_witness :
  packages (insert_block empty_store b_seq) = index_block_seq ∅ b_seq.
Proof.
  apply (block_index_sequential empty_store b_seq). intros c.
  unfold b_seq, blk. simpl. by rewrite !andb_true_r, orb_true_r.
Defined.

Definition b_lost : Block :=
  blk 1 "a" [Publish (record "a"); Revoke (canonical (rec_id (record "a"))) "malware" "x" "e"].

Lemma same_block_revocation_lost_witness :
  get_package (insert_block empty_store b_lost) (canonical (rec_id (record "a")))
  = Some (set_block_hash (record "a") (block_hash b_lost)).
Proof.
  apply (same_block_revocation_lost empty_store b_lost (record "a") "malware" "x" "e");
    reflexivity.
Defined.

Lemma rollback_rebuild_canonical_witness :
  packages (rebuild_package_index
    (rollback_to_height (insert_all empty_store (c1 ++ c2)) (N.of_nat (length c1) - 1)).1)
  = packages (insert_all empty_store c1).
Proof.
  refine (proj1 (rollback_rebuild_canonical c1 c2 _ c1_contiguous c1_hashes _)); [done|].
  by apply (bool_decide_unpack _); vm_compute.
Defined.

Lemma list_blocks_descending_witness :
  list_blocks (insert_all empty_store c1) (N.of_nat 0) 5 = take 5 (rev (take 2 c1)).
Proof.
  apply (list_blocks_descending c1 0 5 c1_contiguous c1_hashes).
  apply (bool_decide_unpack _); by vm_compute.
Defined.

#[export] Instance no_semver : Semver := {|
  SemVersion := string; semver_parse := fun _ => None; semver_gtb := fun _ _ => false |}.

Definition only_react_dom : ChainStore := {|
  blocks_by_hash := ∅; blocks_by_height := ∅;
  packages := {[canonical (rec_id (record "react-dom")) := record "react-dom"]} |}.

Lemma latest_version_other_package_witness :
  get_latest_version only_react_dom "npm" "react" = Some (record "react-dom").
Proof.
  apply (latest_version_other_package only_react_dom "npm" "react" (record "react-dom") "-dom");
    reflexivity.
Defined.

End ChainStoreExamples.
