(* ===== verification/L1Quorum.v ===== *)
(** Aggregation of the answers of several L1 endpoints
    ([crates/node/src/l1_quorum.rs]). *)

From S2P Require Import Prelude Text.

Module L1.

Definition aggregate_height (values : list N) : option N :=
  match values with
  | [] => None
  | [v] => Some v
  | [a; b] => Some (N.min a b)
  | _ =>
      let sorted := sort_by N.leb values in
      sorted !! (length sorted / 2)
  end.

Definition normalize (h : string) : string := to_ascii_lowercase (trim h).

(** [*counts.entry(..).or_default() += 1] over the responses. *)
Definition tally_hashes (hashes : list string) : gmap string nat :=
  foldl (λ m h, <[normalize h := default 0 (m !! normalize h) + 1]> m) ∅ hashes.

(** [max_by_key]: the last of the greatest elements in iteration order. *)
Definition max_by_count (l : list (string * nat)) : option (string * nat) :=
  match l with
  | [] => None
  | x :: l' => Some (foldl (λ best y, if (best.2 <=? y.2)%nat then y else best) x l')
  end.

Definition majority_hash (hashes : list string) : option string :=
  match hashes with
  | [] => None
  | _ =>
      '(best, cnt) ← max_by_count (map_to_list (tally_hashes hashes));
      if (length hashes <? cnt * 2)%nat then Some best else None
  end.

Lemma tally_lookup (hs : list string) (k : string) :
  tally_hashes hs !! k =
  match count (λ h, String.eqb (normalize h) k) hs with
  | 0 => None
  | n => Some n
  end.
Proof.
  unfold tally_hashes. induction hs as [|h hs IH] using rev_ind; [done|].
  rewrite foldl_app, count_app, count_cons, count_nil. simpl. rewrite lookup_insert.
  destruct (decide (normalize h = k)) as [<-|Hne].
  - rewrite String.eqb_refl, IH. rewrite Nat.add_1_r.
    destruct (count _ hs); [done|]. simpl. by rewrite Nat.add_1_r.
  - destruct (String.eqb_spec (normalize h) k); [done|]. rewrite IH. by rewrite Nat.add_0_r.
Qed.

Lemma max_by_count_spec (l : list (string * nat)) :
  match max_by_count l with
  | None => l = []
  | Some m => m ∈ l ∧ ∀ y, y ∈ l → y.2 ≤ m.2
  end.
Proof.
  destruct l as [|x l]; [done|]. simpl. induction l as [|y l IH] using rev_ind.
  - simpl. split; [constructor|]. intros y ->%list_elem_of_singleton. done.
  - rewrite foldl_app. simpl. set (m := foldl _ x l) in *. destruct IH as [Hin Hle].
    destruct (Nat.leb_spec m.2 y.2); (split; [set_solver|]); intros z Hz;
      (assert (z ∈ x :: l ∨ z = y) as [Hz'| ->] by set_solver);
      try specialize (Hle z Hz'); lia.
Qed.

(** Two strict majorities of one list are the same. *)
Lemma majority_unique (hs : list string) (a b : string) :
  length hs < count (λ h, String.eqb (normalize h) a) hs * 2 →
  length hs < count (λ h, String.eqb (normalize h) b) hs * 2 → a = b.
Proof.
  intros Ha Hb. destruct (decide (a = b)) as [|Hne]; [done|]. exfalso.
  assert (count (λ h, String.eqb (normalize h) a) hs + count (λ h, String.eqb (normalize h) b) hs
          ≤ length hs); [|lia].
  clear -Hne. induction hs as [|h hs IH]; [done|]. rewrite !count_cons. simpl.
  destruct (String.eqb_spec (normalize h) a), (String.eqb_spec (normalize h) b);
    try congruence; lia.
Qed.

(** The hash vote needs a strict majority and finds it whenever there is one,
    independently of the hash map's iteration order: the result is [h] exactly when
    more than half of the normalised responses equal [h]. *)
Theorem majority_hash_spec (hs : list string) (h : string) :
  majority_hash hs = Some h ↔
  length hs < count (λ x, String.eqb (normalize x) h) hs * 2.
Proof.
  destruct (decide (hs = [])) as [->|Hne]; [split; [done|simpl; lia]|].
  assert (majority_hash hs = max_by_count (map_to_list (tally_hashes hs)) ≫= λ '(best, cnt),
    if (length hs <? cnt * 2)%nat then Some best else None) as -> by by destruct hs.
  pose proof (max_by_count_spec (map_to_list (tally_hashes hs))) as Hmax.
  destruct (max_by_count (map_to_list (tally_hashes hs))) as [[best cnt]|]; simpl.
  - destruct Hmax as [Hin Hle]. apply elem_of_map_to_list in Hin.
    rewrite tally_lookup in Hin.
    assert (cnt = count (λ x, String.eqb (normalize x) best) hs) as Hcnt
      by (destruct (count _ hs); congruence).
    destruct (Nat.ltb_spec (length hs) (cnt * 2)) as [Hlt|Hge].
    + split; [intros [= He]; subst h; lia|]. intros Hh. f_equal.
      apply (majority_unique hs); lia.
    + split; [done|]. intros Hh.
      assert (tally_hashes hs !! h = Some (count (λ x, String.eqb (normalize x) h) hs)) as Ht.
      { rewrite tally_lookup. destruct (count (λ x, String.eqb (normalize x) h) hs); [lia|done]. }
      apply elem_of_map_to_list, Hle in Ht. simpl in Ht. lia.
  - split; [done|]. intros Hh. exfalso.
    apply map_to_list_empty_iff in Hmax.
    assert (tally_hashes hs !! h = None) as Hn by (rewrite Hmax; apply lookup_empty).
    rewrite tally_lookup in Hn.
    destruct (count (λ x, String.eqb (normalize x) h) hs); [lia|done].
Qed.

Lemma Nleb_total (a b : N) : N.leb a b = true ∨ N.leb b a = true.
Proof. rewrite !N.leb_le. lia. Qed.

Lemma Nleb_trans (a b c : N) : N.leb a b = true → N.leb b c = true → N.leb a c = true.
Proof. rewrite !N.leb_le. lia. Qed.

Lemma sorted_lookup_le (l : list N) (i j : nat) (x y : N) :
  StronglySorted (leR N.leb) l → i ≤ j → l !! i = Some x → l !! j = Some y → (x ≤ y)%N.
Proof.
  intros Hs. revert i j. induction Hs as [|a l Hs IH Hall]; intros i j Hij Hx Hy; [done|].
  destruct i as [|i], j as [|j]; simpl in *; try lia.
  - injection Hx as ->. injection Hy as ->. lia.
  - injection Hx as ->. apply list_elem_of_lookup_2 in Hy.
    rewrite Forall_forall in Hall. apply Hall in Hy. by apply N.leb_le.
  - eapply (IH i j); [lia|done|done].
Qed.

(** A value that fails a test at every index of a range bounds the count. *)
Lemma count_take_drop (p : N → bool) (l : list N) (lo hi : nat) :
  (∀ i x, lo ≤ i < hi → l !! i = Some x → p x = false) → hi ≤ length l → lo ≤ hi →
  count p l + (hi - lo) ≤ length l.
Proof.
  intros Hno Hhi Hlo. rewrite <- (take_drop hi l) at 1. rewrite <- (take_drop lo (take hi l)).
  rewrite !count_app.
  assert (count p (drop lo (take hi l)) = 0) as ->.
  { apply count_zero, Forall_forall. intros x [i Hi]%list_elem_of_lookup.
    rewrite lookup_drop, lookup_take_Some in Hi. destruct Hi as [Hi Hlt].
    apply (Hno (lo + i)); [lia|done]. }
  pose proof (count_le_length p (take lo (take hi l))) as H1.
  pose proof (count_le_length p (drop hi l)) as H2.
  rewrite take_take, length_take in H1. rewrite length_drop in H2. rewrite take_take. lia.
Qed.

(** The aggregated L1 height resists a minority: whenever more than half of the
    endpoints report a height in an interval, so does the aggregate, whatever the
    others report. *)
Theorem aggregate_height_robust (values : list N) (lo hi : N) :
  length values < count (λ v, (lo <=? v)%N && (v <=? hi)%N) values * 2 →
  ∃ h, aggregate_height values = Some h ∧ (lo ≤ h ≤ hi)%N.
Proof.
  set (p := λ v, (lo <=? v)%N && (v <=? hi)%N). intros Hmaj.
  destruct values as [|a [|b [|c l]]].
  - simpl in Hmaj. lia.
  - exists a. split; [done|]. rewrite count_cons in Hmaj. simpl in Hmaj.
    unfold p in Hmaj. destruct (N.leb_spec lo a), (N.leb_spec a hi); simpl in Hmaj; lia.
  - exists (N.min a b). split; [done|]. rewrite !count_cons in Hmaj. simpl in Hmaj.
    unfold p in Hmaj. destruct (N.leb_spec lo a), (N.leb_spec a hi), (N.leb_spec lo b),
      (N.leb_spec b hi); simpl in Hmaj; lia.
  - set (vs := a :: b :: c :: l) in *.
    change (aggregate_height vs) with (sort_by N.leb vs !! (length (sort_by N.leb vs) / 2)).
    set (s := sort_by N.leb vs).
    assert (s ≡ₚ vs) as Hp by apply sort_by_Permutation.
    assert (length s = length vs) as Hlen by by rewrite Hp.
    assert (StronglySorted (leR N.leb) s) as Hs
      by (apply sort_by_sorted; [apply Nleb_total|apply Nleb_trans]).
    rewrite <- (count_Permutation p s vs Hp), <- Hlen in Hmaj.
    set (mid := length s / 2).
    assert (mid * 2 ≤ length s < mid * 2 + 2) as Hmid.
    { unfold mid. pose proof (Nat.div_mod_eq (length s) 2).
      pose proof (Nat.mod_upper_bound (length s) 2). lia. }
    assert (3 ≤ length s) by (rewrite Hlen; unfold vs; simpl; lia).
    destruct (lookup_lt_is_Some_2 s mid) as [m Hm]; [lia|].
    exists m. split; [done|].
    destruct (decide (lo ≤ m ≤ hi)%N) as [|Hout]; [done|]. exfalso.
    destruct (decide (m < lo)%N) as [Hl|Hl].
    + assert (count p s + (mid + 1 - 0) ≤ length s); [|lia].
      apply count_take_drop; [|lia|lia]. intros i x Hi Hx.
      pose proof (sorted_lookup_le s i mid x m Hs ltac:(lia) Hx Hm).
      unfold p. destruct (N.leb_spec lo x); [lia|done].
    + assert (count p s + (length s - mid) ≤ length s); [|lia].
      apply count_take_drop; [|lia|lia]. intros i x Hi Hx.
      pose proof (sorted_lookup_le s mid i m x Hs ltac:(lia) Hm Hx).
      unfold p. destruct (N.leb_spec x hi); [lia|]. by rewrite andb_false_r.
Qed.

Lemma aggregate_height_robust_witness :
  ∃ h, aggregate_height [100; 101; 99999; 102; 3]%N = Some h ∧ (100 ≤ h ≤ 102)%N.
Proof.
  apply (aggregate_height_robust [100; 101; 99999; 102; 3]%N 100 102).
  apply (bool_decide_unpack _); by vm_compute.
Defined.

End L1.
