(* ===== verification/ForcedInclusion.v ===== *)
(** Tracking of censored transactions
    ([crates/consensus/src/forced_inclusion.rs]): submissions, inclusions and the
    evidence against a proposer that omits an overdue transaction.  The wall-clock
    time of a submission is kept and never read, as in the source. *)

From S2P Require Import Prelude Text.

Module Forced.

Record PendingTransaction := {
  pt_tx_hash : string;
  submitted_at_height : N;
  submitted_at : N;
}.

Record CensorshipEvidence := {
  ce_proposer_id : string;
  ce_block_height : N;
  omitted_tx_hashes : list string;
}.

Abbreviation Tracker := (gmap string PendingTransaction).

Definition forced_inclusion_block_delay (env : string → option string) : N :=
  default 5%N (env "CREG_FORCED_INCLUSION_DELAY" ≫= parse_uint u64_max).

Definition submit (now : N) (t : Tracker) (tx_hash : string) (current_height : N) : Tracker :=
  match t !! tx_hash with
  | Some _ => t
  | None => <[tx_hash := {| pt_tx_hash := tx_hash; submitted_at_height := current_height;
                            submitted_at := now |}]> t
  end.

Definition mark_included (t : Tracker) (tx_hashes : list string) : Tracker :=
  foldl (λ t h, delete h t) t tx_hashes.

Definition forced_transactions (delay : N) (t : Tracker) (current_height : N)
    : list PendingTransaction :=
  filter (λ tx, (delay <=? current_height - submitted_at_height tx)%N = true) (hm_values t).

Definition check_block (delay : N) (t : Tracker) (proposer_id : string) (block_height : N)
    (included : list string) : option CensorshipEvidence :=
  let forced := forced_transactions delay t block_height in
  match forced with
  | [] => None
  | _ =>
      let omitted := pt_tx_hash <$> filter (λ tx, pt_tx_hash tx ∉ included) forced in
      match omitted with
      | [] => None
      | _ => Some {| ce_proposer_id := proposer_id; ce_block_height := block_height;
                     omitted_tx_hashes := omitted |}
      end
  end.

Definition pending_count (t : Tracker) : nat := size t.

Inductive TrackerOp :=
| Submit (now : N) (tx_hash : string) (h : N)
| MarkIncluded (tx_hashes : list string).

Definition tracker_apply (t : Tracker) (op : TrackerOp) : Tracker :=
  match op with
  | Submit now x h => submit now t x h
  | MarkIncluded l => mark_included t l
  end.

Definition tracker_wf (t : Tracker) : Prop := map_Forall (λ k tx, pt_tx_hash tx = k) t.

Lemma tracker_wf_run (ops : list TrackerOp) (t : Tracker) :
  tracker_wf t → tracker_wf (foldl tracker_apply t ops).
Proof.
  revert t. induction ops as [|op ops IH]; intros t Hwf; [done|]. simpl. apply IH.
  destruct op as [now x h|l]; simpl.
  - unfold submit. destruct (t !! x); [done|]. by apply map_Forall_insert_2.
  - intros k tx. unfold mark_included. rewrite foldl_delete_lookup. case_decide; [done|].
    apply Hwf.
Qed.

(** The deadline of a pending transaction has passed. *)
Definition overdue (delay : N) (t : Tracker) (h : N) (x : string) : Prop :=
  ∃ tx, t !! x = Some tx ∧ (delay ≤ h - submitted_at_height tx)%N.

(** Censorship detection is exact: after any history of submissions and inclusions,
    a block yields evidence exactly when it omits some overdue transaction, and the
    evidence lists precisely the omitted overdue hashes. *)
Theorem check_block_exact (delay : N) (ops : list TrackerOp) (p : string) (h : N)
    (included : list string) :
  let t := foldl tracker_apply ∅ ops in
  match check_block delay t p h included with
  | None => ∀ x, overdue delay t h x → x ∈ included
  | Some ev => omitted_tx_hashes ev ≠ []
      ∧ ∀ x, x ∈ omitted_tx_hashes ev ↔ overdue delay t h x ∧ x ∉ included
  end.
Proof.
  intros t. assert (tracker_wf t) as Hwf by (apply tracker_wf_run, map_Forall_empty).
  set (om := pt_tx_hash <$> filter (λ tx, pt_tx_hash tx ∉ included) (forced_transactions delay t h)).
  assert (∀ x, x ∈ om ↔ overdue delay t h x ∧ x ∉ included) as Hom.
  { intros x. unfold om, overdue, forced_transactions. rewrite list_elem_of_fmap.
    setoid_rewrite list_elem_of_filter. setoid_rewrite list_elem_of_filter.
    setoid_rewrite N.leb_le. split.
    - intros (tx & -> & Hni & Hd & [k Hk]%elem_of_hm_values).
      rewrite (Hwf _ _ Hk) in *. split; [by exists tx|done].
    - intros [(tx & Htx & Hd) Hni]. exists tx. rewrite (Hwf _ _ Htx).
      do 3 (split; [done|]). apply elem_of_hm_values. eauto. }
  assert (check_block delay t p h included
    = match om with [] => None | _ => Some {| ce_proposer_id := p; ce_block_height := h;
                                              omitted_tx_hashes := om |} end) as ->.
  { unfold check_block, om. by destruct (forced_transactions delay t h). }
  destruct om as [|x0 om0] eqn:He.
  - intros x Hx. destruct (decide (x ∈ included)); [done|]. exfalso.
    apply (not_elem_of_nil x). by apply Hom.
  - split; [done|]. apply Hom.
Qed.

(** Resubmitting cannot postpone the deadline: a pending transaction keeps the
    height of its first submission until it is included. *)
Theorem resubmission_keeps_deadline (now : N) (t : Tracker) (x y : string) (h : N)
    (tx : PendingTransaction) :
  t !! x = Some tx → submit now t y h !! x = Some tx.
Proof.
  intros Hx. unfold submit. destruct (t !! y) eqn:Hy; [done|].
  rewrite lookup_insert_ne; [done|]. congruence.
Qed.

Lemma resubmission_keeps_deadline_witness :
  let tx := {| pt_tx_hash := "a"; submitted_at_height := 3; submitted_at := 0 |} in
  submit 9 {["a" := tx]} "a" 50 !! "a" = Some tx.
Proof. apply (resubmission_keeps_deadline 9 {["a" := _]} "a" "a" 50). reflexivity. Defined.

End Forced.
