(* ===== verification/SetHistory.v ===== *)
(** History of the validator set by block height
    ([crates/node/src/validator_set_history.rs]).  The history file is the list of
    snapshots it decodes to; reading and writing it are not modelled. *)

From S2P Require Import Prelude Text Types.

Module History.

Definition MAX_SNAPSHOTS : nat := 512.

Record Snapshot := {
  effective_from_height : N;
  snap_validators : CommonValidatorSet;
}.

Definition height_le (a b : Snapshot) : bool :=
  (effective_from_height a <=? effective_from_height b)%N.

(** [load]: the decoded file, sorted by height. *)
Definition load (file : list Snapshot) : list Snapshot := sort_by height_le file.

Definition membership_key (set : CommonValidatorSet) : list string :=
  sort_strings ((λ v, to_ascii_lowercase (val_pubkey v)) <$> validators set).

(** [max_by_key]: the last of the greatest. *)
Definition max_by_height (l : list Snapshot) : option Snapshot :=
  match l with
  | [] => None
  | x :: l' => Some (foldl (λ best y, if height_le best y then y else best) x l')
  end.

Definition select_at (snapshots : list Snapshot) (h : N) : option Snapshot :=
  max_by_height (filter (λ s, (effective_from_height s <=? h)%N = true) snapshots).

Definition set_at (file : list Snapshot) (h : N) : option CommonValidatorSet :=
  snap ← select_at (load file) h;
  match validators (snap_validators snap) with
  | [] => None
  | _ => Some (snap_validators snap)
  end.

(** [record]: the new content of the file. *)
Definition record (file : list Snapshot) (h : N) (set : CommonValidatorSet) : list Snapshot :=
  match validators set with
  | [] => file
  | _ =>
      let snapshots := load file in
      let unchanged :=
        match last snapshots with
        | Some l => bool_decide (membership_key (snap_validators l) = membership_key set)
        | None => false
        end in
      if unchanged then file
      else
        let kept := filter (λ s, effective_from_height s ≠ h) snapshots in
        let all := sort_by height_le
          (kept ++ [{| effective_from_height := h; snap_validators := set |}]) in
        if (MAX_SNAPSHOTS <? length all)%nat then drop (length all - MAX_SNAPSHOTS) all else all
  end.

(** Each height has at most one snapshot, and the file stays bounded. *)
Definition history_wf (file : list Snapshot) : Prop :=
  NoDup (effective_from_height <$> file) ∧ length file ≤ MAX_SNAPSHOTS.

Lemma max_by_height_spec (l : list Snapshot) :
  match max_by_height l with
  | None => l = []
  | Some m => m ∈ l ∧ ∀ y, y ∈ l → (effective_from_height y ≤ effective_from_height m)%N
  end.
Proof.
  destruct l as [|x l]; [done|]. simpl. induction l as [|y l IH] using rev_ind.
  - simpl. split; [constructor|]. intros y ->%list_elem_of_singleton. lia.
  - rewrite foldl_app. simpl. set (m := foldl _ x l) in *. destruct IH as [Hin Hle].
    unfold height_le. destruct (N.leb_spec (effective_from_height m) (effective_from_height y));
      (split; [set_solver|]); intros z Hz;
      (assert (z ∈ x :: l ∨ z = y) as [Hz'| ->] by set_solver);
      try specialize (Hle z Hz'); lia.
Qed.

Lemma select_at_spec (l : list Snapshot) (h : N) (s : Snapshot) :
  NoDup (effective_from_height <$> l) →
  select_at l h = Some s ↔
  s ∈ l ∧ (effective_from_height s ≤ h)%N
  ∧ ∀ y, y ∈ l → (effective_from_height y ≤ h)%N →
      (effective_from_height y ≤ effective_from_height s)%N.
Proof.
  intros Hnd. unfold select_at.
  set (f := filter (λ s, (effective_from_height s <=? h)%N = true) l).
  assert (∀ y, y ∈ f ↔ y ∈ l ∧ (effective_from_height y ≤ h)%N) as Hf.
  { intros y. unfold f. rewrite list_elem_of_filter, N.leb_le. tauto. }
  pose proof (max_by_height_spec f) as Hmax.
  destruct (max_by_height f) as [m|].
  - destruct Hmax as [[Hm Hmh]%Hf Hle]. split.
    + intros [= <-]. split; [done|]. split; [done|]. intros y Hy Hyh. apply Hle. by apply Hf.
    + intros (Hs & Hsh & Hmax). f_equal.
      assert (effective_from_height m = effective_from_height s) as He.
      { assert (s ∈ f) as Hsf by by apply Hf.
        pose proof (Hle s Hsf). pose proof (Hmax m Hm Hmh). lia. }
      apply list_elem_of_lookup in Hm as [i Hi], Hs as [j Hj].
      assert (i = j) as <-.
      { eapply (NoDup_lookup _ i j (effective_from_height m) Hnd); rewrite list_lookup_fmap.
        - by rewrite Hi.
        - by rewrite Hj, He. }
      congruence.
  - split; [done|]. intros (Hs & Hsh & _). exfalso. apply (not_elem_of_nil s).
    rewrite <- Hmax. by apply Hf.
Qed.

(** The unbounded part of [record]. *)
Definition recorded (file : list Snapshot) (h : N) (set : CommonValidatorSet) : list Snapshot :=
  sort_by height_le (filter (λ s, effective_from_height s ≠ h) (load file)
    ++ [{| effective_from_height := h; snap_validators := set |}]).

Lemma recorded_perm (file : list Snapshot) (h : N) (set : CommonValidatorSet) :
  recorded file h set
  ≡ₚ {| effective_from_height := h; snap_validators := set |}
     :: filter (λ s, effective_from_height s ≠ h) file.
Proof.
  unfold recorded, load. rewrite sort_by_Permutation, Permutation_app_comm. simpl.
  by rewrite sort_by_Permutation.
Qed.

Lemma recorded_NoDup (file : list Snapshot) (h : N) (set : CommonValidatorSet) :
  NoDup (effective_from_height <$> file) →
  NoDup (effective_from_height <$> recorded file h set).
Proof.
  intros Hnd. rewrite recorded_perm. simpl. apply NoDup_cons. split.
  - intros (s & Hs & [Hne _]%list_elem_of_filter)%list_elem_of_fmap. by apply Hne.
  - eapply sublist_NoDup; [exact Hnd|]. apply fmap_sublist, sublist_filter.
Qed.

Lemma record_cases (file : list Snapshot) (h : N) (set : CommonValidatorSet) :
  record file h set = file
  ∨ record file h set = recorded file h set ∧ length (recorded file h set) ≤ MAX_SNAPSHOTS
  ∨ record file h set = drop (length (recorded file h set) - MAX_SNAPSHOTS) (recorded file h set)
    ∧ MAX_SNAPSHOTS < length (recorded file h set).
Proof.
  unfold record. destruct (validators set) eqn:Hv; [by left|].
  destruct (match last (load file) with Some l => _ | None => false end); [by left|]. right.
  fold (recorded file h set).
  destruct (Nat.ltb_spec MAX_SNAPSHOTS (length (recorded file h set))); [by right|by left].
Qed.

(** The validator-set history stays well-formed: however often sets are recorded, it
    holds at most one snapshot per height and at most [MAX_SNAPSHOTS] of them. *)
Theorem history_records_wf (ops : list (N * CommonValidatorSet)) :
  history_wf (foldl (λ f o, record f o.1 o.2) [] ops).
Proof.
  induction ops as [|o ops IH] using rev_ind.
  { split; [constructor|simpl; lia]. }
  rewrite foldl_app. simpl. set (f := foldl _ [] ops) in *. destruct IH as [Hnd Hlen].
  pose proof (recorded_NoDup f o.1 o.2 Hnd) as Hnd'.
  destruct (record_cases f o.1 o.2) as [->|[[-> Hl]|[-> Hl]]]; [done|done|].
  split; [|rewrite length_drop; lia].
  eapply sublist_NoDup; [exact Hnd'|]. apply fmap_sublist, sublist_drop.
Qed.

(** Lookup after a recorded change: from the recorded height up to the next snapshot
    the new set is returned; below it, while the history is not full, every lookup
    is what it was, so a membership rotation never changes the set older blocks are
    verified against. *)
Theorem history_lookup (file : list Snapshot) (h k : N) (set : CommonValidatorSet) :
  NoDup (effective_from_height <$> file) → length file < MAX_SNAPSHOTS →
  record file h set ≠ file →
  ((h ≤ k)%N → (∀ s, s ∈ file → (effective_from_height s ≤ k)%N → (effective_from_height s ≤ h)%N) →
   set_at (record file h set) k = Some set)
  ∧ ((k < h)%N → set_at (record file h set) k = set_at file k).
Proof.
  intros Hnd Hlen Hchg.
  assert (validators set ≠ []) as Hne.
  { intros He. apply Hchg. unfold record. by rewrite He. }
  assert (length (recorded file h set) ≤ MAX_SNAPSHOTS) as Hle.
  { rewrite recorded_perm. simpl.
    pose proof (length_filter (λ s, effective_from_height s ≠ h) file). lia. }
  destruct (record_cases file h set) as [He|[[-> _]|[_ Hgt]]]; [done| |lia].
  assert (∀ l, NoDup (effective_from_height <$> l) → NoDup (effective_from_height <$> load l)) as Hload.
  { intros l Hl. unfold load. by rewrite sort_by_Permutation. }
  pose proof (Hload _ (recorded_NoDup file h set Hnd)) as Hnd'.
  assert (∀ s, s ∈ load (recorded file h set) ↔
    s = {| effective_from_height := h; snap_validators := set |}
    ∨ s ∈ file ∧ effective_from_height s ≠ h) as Hin.
  { intros s. unfold load. rewrite elem_of_sort_by, recorded_perm, elem_of_cons,
      list_elem_of_filter. tauto. }
  unfold set_at. split.
  - intros Hk Hmax. rewrite (proj2 (select_at_spec _ k
      {| effective_from_height := h; snap_validators := set |} Hnd')).
    2: { split; [by apply Hin; left|]. split; [done|]. intros y [->|[Hy _]]%Hin Hyk; [done|].
         by apply Hmax. }
    simpl. by destruct (validators set).
  - intros Hk. f_equal.
    assert (∀ s, select_at (load (recorded file h set)) k = Some s
                 ↔ select_at (load file) k = Some s) as Hsame.
    { intros s. rewrite !select_at_spec by auto.
      assert (∀ y, y ∈ load file ↔ y ∈ file) as Hl by (intros; apply elem_of_sort_by).
      setoid_rewrite Hin. setoid_rewrite Hl. split.
      - intros ([->|[Hs _]] & Hsk & Hmax); [simpl in Hsk; lia|].
        split; [done|]. split; [done|]. intros y Hy Hyk. apply Hmax; [|done]. right.
        split; [done|lia].
      - intros (Hs & Hsk & Hmax). split; [right; split; [done|lia]|]. split; [done|].
        intros y [->|[Hy _]] Hyk; [simpl in Hyk; lia|]. by apply Hmax. }
    destruct (select_at (load (recorded file h set)) k) as [s|] eqn:H1.
    + symmetry. by apply Hsame.
    + destruct (select_at (load file) k) as [s|] eqn:H2; [|done].
      assert (None = Some s); [|done]. by apply Hsame.
Qed.

Definition member (pk : string) : CommonValidatorSet := {| validators := [{|
  val_id := pk; val_alias := ""; val_pubkey := pk; val_eth_address := ""; val_stake := 1;
  val_reputation := 50; val_status := "online" |}] |}.

Lemma history_lookup_witness :
  set_at (record [{| effective_from_height := 5; snap_validators := member "a" |}] 9 (member "b")) 7
  = set_at [{| effective_from_height := 5; snap_validators := member "a" |}] 7.
Proof.
  apply (history_lookup [{| effective_from_height := 5; snap_validators := member "a" |}] 9 7
    (member "b")).
  - by apply (bool_decide_unpack _); vm_compute.
  - apply (bool_decide_unpack _); by vm_compute.
  - by vm_compute.
  - by vm_compute.
Defined.

End History.
