(* ===== verification/PublisherIndex.v ===== *)
(** Per-publisher statistics replayed from the chain
    ([crates/node/src/publisher_index.rs]).

    The [u32] counters are [N]: they grow by one per transaction. *)

From S2P Require Import Prelude Text Types.

Record PublisherStats := {
  ps_pubkey : string;
  total_packages : N;
  verified_count : N;
  revoked_count : N;
  stake_wei : N;
  first_seen_at : option Z;
  first_seen_days : N;
}.

Definition default_stats (pubkey : string) : PublisherStats := {|
  ps_pubkey := pubkey; total_packages := 0; verified_count := 0; revoked_count := 0;
  stake_wei := 0; first_seen_at := None; first_seen_days := 0 |}.

Record PublisherIndex := {
  pstats : gmap string PublisherStats;
  canonical_to_pubkey : gmap string string;
}.

Definition index_new : PublisherIndex := {| pstats := ∅; canonical_to_pubkey := ∅ |}.

Definition day_nanos : Z := 86400000000000.

(** [(Utc::now() - t).num_days().max(0) as u32] *)
Definition days_since (now t : Z) : N :=
  (Z.to_N (Z.max 0 (Z.quot (now - t) day_nanos)) mod 2 ^ 32)%N.

Definition count_publish (now ts : Z) (st : PublisherStats) : PublisherStats :=
  let first := match first_seen_at st with None => Some ts | Some t => Some t end in
  {| ps_pubkey := ps_pubkey st;
     total_packages := total_packages st + 1;
     verified_count := verified_count st + 1;
     revoked_count := revoked_count st;
     stake_wei := stake_wei st;
     first_seen_at := first;
     first_seen_days := match first with Some t => days_since now t | None => 0 end |}.

Definition count_revoke (st : PublisherStats) : PublisherStats :=
  {| ps_pubkey := ps_pubkey st; total_packages := total_packages st;
     verified_count := (verified_count st - 1)%N;      (* saturating_sub *)
     revoked_count := revoked_count st + 1;
     stake_wei := stake_wei st; first_seen_at := first_seen_at st;
     first_seen_days := first_seen_days st |}.

Definition count_slash (amount : N) (st : PublisherStats) : PublisherStats :=
  {| ps_pubkey := ps_pubkey st; total_packages := total_packages st;
     verified_count := verified_count st; revoked_count := revoked_count st;
     stake_wei := (stake_wei st - amount)%N; first_seen_at := first_seen_at st;
     first_seen_days := first_seen_days st |}.

Definition rename_stats (pk : string) (st : PublisherStats) : PublisherStats :=
  {| ps_pubkey := pk; total_packages := total_packages st;
     verified_count := verified_count st; revoked_count := revoked_count st;
     stake_wei := stake_wei st; first_seen_at := first_seen_at st;
     first_seen_days := first_seen_days st |}.

(** The canonicals a rotation reassigns. *)
Definition keys_to_update (m : gmap string string) (prefix old_pubkey : string) : list string :=
  (filter (λ kv, starts_with prefix kv.1 && String.eqb kv.2 old_pubkey = true)
     (map_to_list m)).*1.

Definition apply_tx (now : Z) (ix : PublisherIndex) (tx : Transaction) (ts : Z) : PublisherIndex :=
  match tx with
  | Publish record =>
      let pubkey := rec_publisher_pubkey record in
      let entry := default (default_stats pubkey) (pstats ix !! pubkey) in
      {| pstats := <[pubkey := count_publish now ts entry]> (pstats ix);
         canonical_to_pubkey := <[canonical (rec_id record) := pubkey]> (canonical_to_pubkey ix) |}
  | Revoke package_canonical _ _ _ =>
      match canonical_to_pubkey ix !! package_canonical with
      | Some pubkey =>
          {| pstats := alter count_revoke pubkey (pstats ix);
             canonical_to_pubkey := canonical_to_pubkey ix |}
      | None => ix
      end
  | Slash validator_id amount _ =>
      {| pstats := alter (count_slash amount) validator_id (pstats ix);
         canonical_to_pubkey := canonical_to_pubkey ix |}
  | RotatePublisherKey canonical_prefix old_pubkey new_pubkey _ _ _ _ =>
      let c2p := foldl (λ m c, <[c := new_pubkey]> m) (canonical_to_pubkey ix)
                   (keys_to_update (canonical_to_pubkey ix) canonical_prefix old_pubkey) in
      match pstats ix !! old_pubkey with
      | Some st =>
          {| pstats := <[new_pubkey := rename_stats new_pubkey st]> (delete old_pubkey (pstats ix));
             canonical_to_pubkey := c2p |}
      | None => {| pstats := pstats ix; canonical_to_pubkey := c2p |}
      end
  | _ => ix
  end.

Definition apply_block (now : Z) (ix : PublisherIndex) (b : Block) : PublisherIndex :=
  foldl (λ ix tx, apply_tx now ix tx (timestamp (header b))) ix (transactions b).

Definition rebuild_from_chain (now : Z) (ix : PublisherIndex) (blocks : list Block)
    : PublisherIndex := foldl (apply_block now) index_new blocks.

Definition index_get (ix : PublisherIndex) (pubkey : string) : option PublisherStats :=
  pstats ix !! pubkey.

(** ** Properties *)

Definition is_rotation (tx : Transaction) : bool :=
  match tx with
  | RotatePublisherKey _ _ _ _ _ _ _ => true
  | _ => false
  end.

Definition publishes_by (pk : string) (tx : Transaction) : bool :=
  match tx with
  | Publish r => String.eqb (rec_publisher_pubkey r) pk
  | _ => false
  end.

(** Replaying the transactions of a chain, each with its block's timestamp. *)
Definition replay (now : Z) (txs : list (Transaction * Z)) : PublisherIndex :=
  foldl (λ ix t, apply_tx now ix t.1 t.2) index_new txs.

Definition chain_txs (blocks : list Block) : list (Transaction * Z) :=
  concat ((λ b, (λ tx, (tx, timestamp (header b))) <$> transactions b) <$> blocks).

Lemma rebuild_replay (now : Z) (ix : PublisherIndex) (blocks : list Block) :
  rebuild_from_chain now ix blocks = replay now (chain_txs blocks).
Proof.
  unfold rebuild_from_chain, replay, chain_txs. generalize index_new as ix0.
  induction blocks as [|b bs IH]; intros ix0; [done|]. simpl. rewrite foldl_app, IH. f_equal.
  unfold apply_block. generalize (transactions b) as txs. intros txs. revert ix0.
  induction txs as [|tx txs IHt]; intros ix0; [done|]. simpl. apply IHt.
Qed.

(** Counters of one publisher after a rotation-free history. *)
Definition stats_match (pk : string) (n : nat) (o : option PublisherStats) : Prop :=
  match o with
  | Some st => total_packages st = N.of_nat n ∧ (verified_count st ≤ total_packages st)%N
               ∧ (total_packages st ≤ verified_count st + revoked_count st)%N ∧ 0 < n
               ∧ ps_pubkey st = pk
  | None => n = 0
  end.

Lemma stats_match_alter (pk k : string) (n : nat) (f : PublisherStats → PublisherStats)
    (m : gmap string PublisherStats) :
  (∀ st, stats_match pk n (Some st) → stats_match pk n (Some (f st))) →
  stats_match pk n (m !! pk) → stats_match pk n (alter f k m !! pk).
Proof.
  intros Hf Hm. rewrite lookup_alter. case_decide; [subst|done].
  destruct (m !! pk) as [st|]; [|done]. by apply Hf.
Qed.

(** Without key rotations the rebuilt index is exact: a publisher has an entry
    exactly when it published, its package total is the number of its publications,
    and verified and revoked counts bracket it. *)
Theorem publisher_totals_exact (now : Z) (ix : PublisherIndex) (blocks : list Block) (pk : string) :
  Forall (λ t, is_rotation t.1 = false) (chain_txs blocks) →
  stats_match pk (count (λ t, publishes_by pk t.1) (chain_txs blocks))
    (index_get (rebuild_from_chain now ix blocks) pk).
Proof.
  rewrite rebuild_replay. generalize (chain_txs blocks) as txs. intros txs Hrot.
  unfold index_get, replay. induction txs as [|[tx ts] txs IH] using rev_ind; [done|].
  apply Forall_app in Hrot as [Hrot [Hr _]%Forall_cons]. specialize (IH Hrot).
  rewrite foldl_app, count_app, count_cons, count_nil. simpl.
  set (ix1 := foldl _ index_new txs) in *. set (n := count _ txs) in *.
  destruct tx as [r|pc ? ? ?|v a ?|? ? ?|?|? ? ? ? ? ? ?]; simpl in *; try done;
    rewrite ?Nat.add_0_r; try done.
  - rewrite lookup_insert. destruct (String.eqb_spec (rec_publisher_pubkey r) pk) as [->|Hne].
    + rewrite decide_True by done. unfold stats_match in IH |- *. simpl.
      destruct (pstats ix1 !! pk) as [st|]; simpl; [|split_and!; try done; lia].
      destruct IH as (Ht & Hv & Hle & Hn & Hpk). split_and!; try done; lia.
    + rewrite decide_False by done. by rewrite Nat.add_0_r.
  - destruct (canonical_to_pubkey ix1 !! pc); simpl; [|done].
    apply stats_match_alter; [|done]. unfold stats_match. simpl.
    intros st (Ht & Hv & Hle & Hn & Hpk). split_and!; try done; lia.
  - apply stats_match_alter; [|done]. done.
Qed.

(** A rotation orphans the publisher's other packages: it moves the statistics of
    the old key wholesale but reassigns only the packages under the rotated prefix,
    so revoking a package of the old key outside the prefix changes no statistics. *)
Theorem rotation_orphans_revocations (now ts ts' : Z) (ix : PublisherIndex)
    (prefix old new so sn c reason by_ ev : string) (t : Z) (nonce : N) :
  old ≠ new → canonical_to_pubkey ix !! c = Some old → starts_with prefix c = false →
  let ix1 := apply_tx now ix (RotatePublisherKey prefix old new so sn t nonce) ts in
  pstats (apply_tx now ix1 (Revoke c reason by_ ev) ts') = pstats ix1.
Proof.
  intros Hne Hc Hp ix1.
  set (c2p := foldl (λ m c, <[c := new]> m) (canonical_to_pubkey ix)
    (keys_to_update (canonical_to_pubkey ix) prefix old)).
  assert (c2p !! c = Some old) as Hold.
  { assert (c ∉ keys_to_update (canonical_to_pubkey ix) prefix old) as Hni.
    { intros ([k v] & -> & [Hk _]%list_elem_of_filter)%list_elem_of_fmap. simpl in *.
      by rewrite Hp in Hk. }
    unfold c2p. revert Hni Hc. generalize (keys_to_update (canonical_to_pubkey ix) prefix old) as l.
    generalize (canonical_to_pubkey ix) as m. intros m l. revert m.
    induction l as [|x l IH]; intros m Hni Hm; [done|].
    apply not_elem_of_cons in Hni as [Hx Hl]. simpl. apply IH; [done|].
    by rewrite lookup_insert_ne. }
  assert (canonical_to_pubkey ix1 = c2p ∧ pstats ix1 !! old = None) as [Hc2p Hnone].
  { unfold ix1, apply_tx. fold c2p. destruct (pstats ix !! old) eqn:Hst; simpl; [|done].
    split; [done|]. rewrite lookup_insert_ne by done. apply lookup_delete_eq. }
  unfold apply_tx. rewrite Hc2p, Hold. simpl. apply map_eq. intros k. rewrite lookup_alter.
  case_decide; [subst|done]. by rewrite Hnone.
Qed.

Lemma rotation_orphans_revocations_witness :
  let ix := {| pstats := {["old" := count_publish 0 0 (default_stats "old")]};
               canonical_to_pubkey := {["npm:b@1" := "old"]} |} in
  let ix1 := apply_tx 0 ix (RotatePublisherKey "npm:a" "old" "new" "" "" 0 1) 0 in
  pstats (apply_tx 0 ix1 (Revoke "npm:b@1" "malware" "v" "e") 0) = pstats ix1.
Proof.
  intros ix. apply (rotation_orphans_revocations 0 0 0 ix "npm:a" "old" "new" "" "" "npm:b@1"
    "malware" "v" "e" 0 1).
  - done.
  - reflexivity.
  - reflexivity.
Defined.

Definition idle_block : Block := {| header := header genesis;
  transactions := [ValidatorLeave "v"]; pbft_signatures := [] |}.

Lemma publisher_totals_exact_witness :
  stats_match "pk" 0 (index_get (rebuild_from_chain 0 index_new [idle_block]) "pk").
Proof.
  apply (publisher_totals_exact 0 index_new [idle_block] "pk"). repeat constructor.
Defined.
