(* ===== verification/Sync.v ===== *)
(** Chain synchronisation ([crates/node/src/sync.rs]).

    The answers of the peers are functions of the height: [fetch] for the blocks
    of the linear loop, [probe] for the walk back to the common ancestor and
    [refetch] for the branch of a reorganisation (a peer may answer differently
    each time).  The parts of [NodeState] that synchronisation reads and writes
    are the record [Node]; other tasks do not run between two steps of one pass.
    A string slice [&s[..12]] of a log call panics when byte 12 is not a
    character boundary; that outcome is [SyncPanic]. *)

From S2P Require Import Prelude Text Crypto Types VoteAccumulator SetHistory ChainStore.
From S2P Require Import PublisherIndex.
From Stdlib Require Import Ascii.

Definition MAX_REORG_DEPTH : N := 64.
Definition MAX_REORG_EVENTS : nat := 100.

Inductive SyncError :=
| EmptyValidatorSet
| TooFewSignatures (tx_idx approvals quorum : nat).

Record ReorgEvent := {
  re_depth : N;
  abandoned_blocks : list string;
  re_new_tip : string;
}.

Record Node := {
  chain : ChainStore;
  publisher_index : PublisherIndex;
  node_validator_set : CommonValidatorSet;
  set_history : list History.Snapshot;
  reorgs : list ReorgEvent;
}.

Definition set_chain (n : Node) (c : ChainStore) (ix : PublisherIndex) : Node := {|
  chain := c; publisher_index := ix; node_validator_set := node_validator_set n;
  set_history := set_history n; reorgs := reorgs n |}.

(** [NodeState::record_reorg]; the random id and the wall-clock time are left out. *)
Definition record_reorg (n : Node) (depth : N) (abandoned : list string) (new_tip : string)
    : Node := {|
  chain := chain n; publisher_index := publisher_index n;
  node_validator_set := node_validator_set n; set_history := set_history n;
  reorgs := take MAX_REORG_EVENTS
    ({| re_depth := depth; abandoned_blocks := abandoned; re_new_tip := new_tip |} :: reorgs n) |}.

Section Sync.
Context `{!Crypto, !Serde}.

(** ** verify_block_signatures *)

Definition known_keys (vs : CommonValidatorSet) : gset string :=
  list_to_set ((λ v, to_ascii_lowercase (val_pubkey v)) <$> validators vs).

(** The profile a signature approves under, when the signature itself is valid. *)
Definition checked_profile (record : ChainRecord) (sig : ValidatorSignature) : option string :=
  pubkey_bytes ← hex_decode (vs_validator_pubkey sig);
  vk ← vk_try_from pubkey_bytes;
  raw ← hex_decode (vs_signature sig);
  ed_sig ← sig_try_from raw;
  let profile := scanner_profile_digest (vs_ml_model_version sig) (vs_analysis_bundles sig) in
  let message :=
    canonical_vote_message (canonical (rec_id record)) (rec_content_hash record)
      (bool_decide (vs_vote sig = Approve)) (vs_validator_pubkey sig) profile
      (vs_evidence_digest sig) in
  if verify vk message ed_sig then Some (profile +:+ ":" +:+ vs_evidence_digest sig) else None.

(** One iteration of the signature loop: [approval_groups] and [seen]. *)
Definition sig_step (known : gset string) (record : ChainRecord)
    (st : gmap string nat * gset string) (sig : ValidatorSignature)
    : gmap string nat * gset string :=
  let '(groups, seen) := st in
  if negb (bool_decide (vs_vote sig = Approve)) then st
  else if negb (is_consensus_grade_vote (vs_ml_model_version sig) (vs_analysis_bundles sig)
                  (vs_evidence_digest sig)) then st
  else
    let pubkey_key := to_ascii_lowercase (vs_validator_pubkey sig) in
    if bool_decide (pubkey_key ∉ known) then st
    else if bool_decide (pubkey_key ∈ seen) then st
    else
      let seen := {[pubkey_key]} ∪ seen in
      match checked_profile record sig with
      | Some k => (<[k := default 0 (groups !! k) + 1]> groups, seen)
      | None => (groups, seen)
      end.

Definition max_group (groups : gmap string nat) : nat := foldr Nat.max 0 (hm_values groups).

Definition record_approvals (known : gset string) (record : ChainRecord) : nat :=
  max_group (foldl (sig_step known record) (∅, ∅) (rec_validator_signatures record)).1.

Fixpoint verify_txs (known : gset string) (quorum idx : nat) (txs : list Transaction)
    : result SyncError unit :=
  match txs with
  | [] => Ok tt
  | Publish record :: txs' =>
      let approvals := record_approvals known record in
      if (approvals <? quorum)%nat then Err (TooFewSignatures idx approvals quorum)
      else verify_txs known quorum (S idx) txs'
  | _ :: txs' => verify_txs known quorum (S idx) txs'
  end.

Definition verify_block_signatures (b : Block) (vs : CommonValidatorSet)
    : result SyncError unit :=
  if (height (header b) =? 0)%N then Ok tt
  else
    let n := length (validators vs) in
    if (n =? 0)%nat then Err EmptyValidatorSet
    else verify_txs (known_keys vs) (2 * n / 3 + 1) 0 (transactions b).

(** The set a block at height [h] is verified against. *)
Definition effective_set (n : Node) (h : N) : CommonValidatorSet :=
  default (node_validator_set n) (History.set_at (set_history n) h).

(** ** attempt_reorg_recovery *)

(** Step 1: walk back; [Err false] is the early [return Ok(false)]. *)
Fixpoint find_ancestor (probe : N → option Block) (c : ChainStore) (hs : list N)
    : result bool (option (N * string)) :=
  match hs with
  | [] => Ok None
  | k :: hs' =>
      match get_block_by_height c k with
      | None => find_ancestor probe c hs'
      | Some ours =>
          match probe k with
          | None => Err false
          | Some theirs =>
              if String.eqb (block_hash ours) (block_hash theirs)
              then Ok (Some (k, block_hash ours))
              else find_ancestor probe c hs'
          end
      end
  end.

(** Step 2: fetch and validate the branch; [None] is the early [return Ok(false)]. *)
Fixpoint fetch_branch (refetch : N → option Block) (n : Node) (link_hash : string) (hs : list N)
    : option (list Block * string) :=
  match hs with
  | [] => Some ([], link_hash)
  | h :: hs' =>
      b ← refetch h;
      if negb (height (header b) =? h)%N then None
      else if negb (String.eqb (prev_hash (header b)) link_hash) then None
      else if negb (is_ok (verify_block_signatures b (effective_set n (height (header b))))) then None
      else
        '(branch, tip) ← fetch_branch refetch n (block_hash b) hs';
        Some (b :: branch, tip)
  end.

Definition canonical_blocks (c : ChainStore) : list Block :=
  omap (get_block_by_height c) (heights 0 (tip_height c)).

Definition attempt_reorg_recovery (now : Z) (probe refetch : N → option Block) (n : Node)
    (local_tip peer_height : N) : Node * bool :=
  let floor := (local_tip - MAX_REORG_DEPTH)%N in
  match find_ancestor probe (chain n) (rev (heights floor local_tip)) with
  | Err _ => (n, false)
  | Ok None => (n, false)
  | Ok (Some (fork_height, ancestor_hash)) =>
      match fetch_branch refetch n ancestor_hash (heights (fork_height + 1) peer_height) with
      | None => (n, false)
      | Some (new_branch, link_hash) =>
          let new_tip_height := (fork_height + N.of_nat (length new_branch))%N in
          if (new_tip_height <=? local_tip)%N then (n, false)
          else
            let '(c, abandoned) := rollback_to_height (chain n) fork_height in
            let c := foldl insert_block c new_branch in
            let c := rebuild_package_index c in
            let ix := rebuild_from_chain now (publisher_index n) (canonical_blocks c) in
            let depth := (local_tip - fork_height)%N in
            (record_reorg (set_chain n c ix) depth abandoned link_hash, true)
      end
  end.

(** ** sync_once *)

Inductive SyncResult :=
| SyncDone (n : Node)
| SyncPanic (n : Node).

Definition result_node (r : SyncResult) : Node :=
  match r with
  | SyncDone n | SyncPanic n => n
  end.

Fixpoint sync_loop (now : Z) (fetch probe refetch : N → option Block) (peer_height : N)
    (n : Node) (prev : string) (hs : list N) : SyncResult :=
  match hs with
  | [] => SyncDone n
  | h :: hs' =>
      match fetch h with
      | None => SyncDone n
      | Some b =>
          if negb (String.eqb (prev_hash (header b)) prev) then
            if char_boundary prev 12 && char_boundary (prev_hash (header b)) 12
            then SyncDone (attempt_reorg_recovery now probe refetch n (h - 1) peer_height).1
            else SyncPanic n
          else if negb (height (header b) =? h)%N then SyncDone n
          else
            match verify_block_signatures b (effective_set n (height (header b))) with
            | Err _ => SyncDone n
            | Ok _ =>
                let n := set_chain n (insert_block (chain n) b)
                           (apply_block now (publisher_index n) b) in
                sync_loop now fetch probe refetch peer_height n (block_hash b) hs'
            end
      end
  end.

(** [peer_stats]: the tip heights of the peers that answered. *)
Definition sync_once (now : Z) (peer_stats : list N) (fetch probe refetch : N → option Block)
    (n : Node) : SyncResult :=
  let our_height := tip_height (chain n) in
  let peer_height := foldl N.max 0%N peer_stats in
  if (peer_height <=? our_height)%N then SyncDone n
  else sync_loop now fetch probe refetch peer_height n (tip_hash (chain n))
         (heights (our_height + 1) peer_height).

End Sync.

(** ** Signature quorums *)
Section SyncVerify.
Context `{!Crypto, !Serde}.

Definition sig_key (s : ValidatorSignature) : string := to_ascii_lowercase (vs_validator_pubkey s).

Definition sig_grade (s : ValidatorSignature) : bool :=
  is_consensus_grade_vote (vs_ml_model_version s) (vs_analysis_bundles s) (vs_evidence_digest s).

(** An approving, consensus-grade vote of a known key. *)
Definition eligible (known : gset string) (s : ValidatorSignature) : Prop :=
  vs_vote s = Approve ∧ sig_grade s = true ∧ sig_key s ∈ known.

(** The signatures that were counted, as a ghost list. *)
Lemma sig_fold_counted (known : gset string) (r : ChainRecord) (sigs : list ValidatorSignature) :
  let st := foldl (sig_step known r) (∅, ∅) sigs in
  ∃ acc, NoDup (sig_key <$> acc)
    ∧ (∀ s, s ∈ acc → s ∈ sigs ∧ eligible known s ∧ sig_key s ∈ st.2)
    ∧ ∀ k, default 0 (st.1 !! k) = count (λ s, bool_decide (checked_profile r s = Some k)) acc.
Proof.
  induction sigs as [|s sigs IH] using rev_ind.
  { exists []. split; [constructor|]. split; [by intros s ?%not_elem_of_nil|]. done. }
  cbn zeta. rewrite foldl_app. simpl.
  destruct (foldl (sig_step known r) (∅, ∅) sigs) as [groups seen].
  destruct IH as (acc & Hnd & Hacc & Hcnt). simpl in Hacc, Hcnt.
  assert (∀ seen', seen ⊆ seen' →
    ∀ x, x ∈ acc → x ∈ sigs ++ [s] ∧ eligible known x ∧ sig_key x ∈ seen') as Hmono.
  { intros seen' Hsub x Hx. destruct (Hacc x Hx) as (Hin & He & Hs). set_solver. }
  assert (∃ acc0, NoDup (sig_key <$> acc0)
    ∧ (∀ x, x ∈ acc0 → x ∈ sigs ++ [s] ∧ eligible known x ∧ sig_key x ∈ seen)
    ∧ ∀ k, default 0 (groups !! k)
           = count (λ x, bool_decide (checked_profile r x = Some k)) acc0) as Hskip
    by (exists acc; eauto).
  unfold sig_step. case_bool_decide as Hv; simpl; [|exact Hskip].
  destruct (is_consensus_grade_vote _ _ _) eqn:Hg; simpl; [|exact Hskip].
  case_bool_decide as Hk; [exact Hskip|].
  case_bool_decide as Hs; [exact Hskip|]. fold (sig_key s) in *.
  destruct (checked_profile r s) as [k0|] eqn:Hp; simpl.
  - exists (s :: acc). split; [|split].
    + rewrite fmap_cons. apply NoDup_cons. split; [|done].
      intros (x & Hx & Hxa)%list_elem_of_fmap. destruct (Hacc x Hxa) as (_ & _ & Hxs).
      rewrite <- Hx in Hxs. done.
    + intros x [->|Hx]%elem_of_cons; [|by apply Hmono; [set_solver|]].
      split; [set_solver|]. split; [done|set_solver].
    + intros k. rewrite count_cons, lookup_insert, Hp. case_decide as Hd.
      * subst k0. rewrite bool_decide_eq_true_2 by done. simpl. rewrite Hcnt. lia.
      * rewrite bool_decide_eq_false_2 by congruence. apply Hcnt.
  - exists acc. split; [done|]. split; [|done]. apply Hmono. set_solver.
Qed.

Lemma foldr_max_nat (l : list nat) : foldr Nat.max 0 l ∈ l ∨ foldr Nat.max 0 l = 0.
Proof.
  induction l as [|x l IH]; [by right|]. simpl.
  destruct (Nat.max_spec x (foldr Nat.max 0 l)) as [[_ ->]|[_ ->]].
  - destruct IH; [left; by constructor|by right].
  - left. constructor.
Qed.

Lemma record_approvals_sound (known : gset string) (r : ChainRecord) :
  ∃ k acc, NoDup (sig_key <$> acc) ∧ record_approvals known r = length acc
    ∧ ∀ s, s ∈ acc → s ∈ rec_validator_signatures r ∧ eligible known s
                     ∧ checked_profile r s = Some k.
Proof.
  destruct (sig_fold_counted known r (rec_validator_signatures r)) as (acc & Hnd & Hacc & Hcnt).
  unfold record_approvals, max_group.
  set (st := foldl (sig_step known r) (∅, ∅) (rec_validator_signatures r)) in *.
  destruct (foldr_max_nat (hm_values st.1)) as [[k Hk]%elem_of_hm_values|Hz].
  - exists k, (filter (λ s, bool_decide (checked_profile r s = Some k) = true) acc).
    split; [|split].
    + eapply sublist_NoDup; [exact Hnd|]. apply fmap_sublist, sublist_filter.
    + specialize (Hcnt k). rewrite Hk in Hcnt. exact Hcnt.
    + intros s [Hb%bool_decide_eq_true_1 Hs]%list_elem_of_filter.
      destruct (Hacc s Hs) as (H1 & H2 & _). done.
  - exists "", []. split; [constructor|]. split; [done|]. by intros s ?%not_elem_of_nil.
Qed.

Lemma verify_txs_publish (known : gset string) (q idx : nat) (txs : list Transaction)
    (r : ChainRecord) :
  verify_txs known q idx txs = Ok tt → Publish r ∈ txs → q ≤ record_approvals known r.
Proof.
  revert idx. induction txs as [|tx txs IH]; intros idx Hv Hin; [by apply not_elem_of_nil in Hin|].
  apply elem_of_cons in Hin as [<-|Hin]; simpl in Hv.
  - destruct (Nat.ltb_spec (record_approvals known r) q); [done|lia].
  - destruct tx; try (by eapply IH).
    destruct (record_approvals known record <? q)%nat; [done|]. by eapply IH.
Qed.

(** Block verification during synchronisation: an accepted block above genesis
    carries, for every package it publishes, at least [2n/3+1] valid approving
    signatures of distinct keys of the effective validator set, all over this
    package and content and under one scanner profile and evidence digest. *)
Theorem verified_block_quorum (b : Block) (vs : CommonValidatorSet) (r : ChainRecord) :
  verify_block_signatures b vs = Ok tt → (0 < height (header b))%N →
  Publish r ∈ transactions b →
  ∃ k acc, NoDup (sig_key <$> acc)
    ∧ 2 * length (validators vs) / 3 + 1 ≤ length acc
    ∧ ∀ s, s ∈ acc → s ∈ rec_validator_signatures r ∧ eligible (known_keys vs) s
                     ∧ checked_profile r s = Some k.
Proof.
  unfold verify_block_signatures. intros Hv Hh Hin.
  destruct (N.eqb_spec (height (header b)) 0); [lia|].
  destruct (length (validators vs) =? 0)%nat; [done|].
  apply (verify_txs_publish _ _ _ _ r) in Hv; [|done].
  destruct (record_approvals_sound (known_keys vs) r) as (k & acc & Hnd & Hlen & Hacc).
  exists k, acc. split; [done|]. split; [lia|done].
Qed.

Definition is_publish (tx : Transaction) : bool :=
  match tx with
  | Publish _ => true
  | _ => false
  end.

Lemma verify_txs_skip (known : gset string) (q idx : nat) (txs : list Transaction) :
  Forall (λ tx, is_publish tx = false) txs → verify_txs known q idx txs = Ok tt.
Proof.
  intros Hall. revert idx. induction Hall as [|tx txs Htx Hall IH]; intros idx; [done|].
  destruct tx; try done; simpl; apply IH.
Qed.

(** Verification looks at publications only: a block without [Publish] transactions
    is accepted whatever revocations, slashes or key rotations it contains and
    whatever signatures, merkle root and proposer it carries. *)
Theorem unpublishing_block_unverified (b : Block) (vs : CommonValidatorSet) :
  validators vs ≠ [] → Forall (λ tx, is_publish tx = false) (transactions b) →
  verify_block_signatures b vs = Ok tt.
Proof.
  intros Hne Hall. unfold verify_block_signatures.
  destruct (height (header b) =? 0)%N; [done|].
  destruct (Nat.eqb_spec (length (validators vs)) 0) as [Hz|_].
  { destruct (validators vs); done. }
  by apply verify_txs_skip.
Qed.

End SyncVerify.

(** ** Linked chains *)
Section SyncChain.
Context `{!Crypto, !Serde}.

(** The canonical chain starts at genesis, every height points at a stored block of
    that height which links to the height below, and every canonical block
    satisfies [Q]. *)
Record chain_ok (Q : Block → Prop) (c : ChainStore) : Prop := {
  ok_genesis : is_Some (blocks_by_height c !! 0%N);
  ok_hash : map_Forall (λ x b, block_hash b = x) (blocks_by_hash c);
  ok_height : ∀ h x, blocks_by_height c !! h = Some x →
    ∃ b, blocks_by_hash c !! x = Some b ∧ height (header b) = h ∧ Q b
      ∧ ((0 < h)%N → blocks_by_height c !! (h - 1)%N = Some (prev_hash (header b)));
}.

(** Two blocks of different heights with one hash: what the conclusions below
    exhibit in place of assuming collision resistance. *)
Definition height_collision : Prop :=
  ∃ b b' : Block, block_hash b = block_hash b' ∧ height (header b) ≠ height (header b').

Lemma chain_ok_impl (Q Q' : Block → Prop) (c : ChainStore) :
  (∀ h b, get_block_by_height c h = Some b → height (header b) = h → Q b → Q' b) →
  chain_ok Q c → chain_ok Q' c.
Proof.
  intros HQ [Hg Hh Hb]. split; [done|done|]. intros h x Hx.
  destruct (Hb h x Hx) as (b & Hxb & Hht & HQb & Hp). exists b. split_and!; try done.
  apply (HQ h); [|done|done]. unfold get_block_by_height. by rewrite Hx.
Qed.

Lemma chain_ok_get (Q : Block → Prop) (c : ChainStore) (h : N) (b : Block) :
  chain_ok Q c → get_block_by_height c h = Some b →
  blocks_by_height c !! h = Some (block_hash b) ∧ height (header b) = h.
Proof.
  intros [Hg Hh Hb] Hget. unfold get_block_by_height in Hget.
  apply bind_Some in Hget as (x & Hx & Hxb). unfold get_block_by_hash in Hxb.
  destruct (Hb h x Hx) as (b' & Hb' & Hht & _). assert (b' = b) as -> by congruence.
  by rewrite (Hh _ _ Hxb).
Qed.

(** Appending a linked block above the tip. *)
Lemma insert_linked (Q : Block → Prop) (c : ChainStore) (b : Block) :
  chain_ok Q c → Q b → height (header b) = (tip_height c + 1)%N →
  blocks_by_height c !! tip_height c = Some (prev_hash (header b)) →
  chain_ok Q (insert_block c b) ∨ height_collision.
Proof.
  intros [Hg Hh Hb] HQ Hheight Hprev.
  assert (height_collision ∨ ∀ b0, blocks_by_hash c !! block_hash b = Some b0 →
    height (header b0) = height (header b)) as [|Hsame]; [|by right|].
  { destruct (blocks_by_hash c !! block_hash b) as [b0|] eqn:Hb0; [|by right].
    destruct (decide (height (header b0) = height (header b))) as [He|Hne].
    - right. by intros ? [= <-].
    - left. exists b0, b. split; [by apply Hh|done]. }
  left. split; simpl.
  - destruct (decide (height (header b) = 0%N)) as [->|Hne]; [by rewrite lookup_insert_eq|].
    by rewrite lookup_insert_ne.
  - by apply map_Forall_insert_2.
  - intros h x. rewrite lookup_insert. case_decide as Hd.
    + intros [= <-]. exists b. rewrite lookup_insert_eq. split_and!; try done.
      intros Hpos. rewrite lookup_insert_ne by lia.
      replace (h - 1)%N with (tip_height c) by lia. done.
    + intros Hx. destruct (Hb h x Hx) as (b1 & Hb1 & Hht & HQ1 & Hp1).
      assert (x ≠ block_hash b) as Hxne.
      { intros ->. apply Hd. rewrite <- Hht. symmetry. by apply Hsame. }
      exists b1. rewrite lookup_insert_ne by done. split_and!; try done.
      intros Hpos. rewrite lookup_insert_ne; [by apply Hp1|].
      pose proof (tip_height_ge c h ltac:(eauto)). lia.
Qed.

(** A branch that links upwards from [link] at height [lo]. *)
Fixpoint branch_ok (Q : Block → Prop) (link : string) (lo : N) (bs : list Block) : Prop :=
  match bs with
  | [] => True
  | b :: bs' =>
      height (header b) = lo ∧ prev_hash (header b) = link ∧ Q b
      ∧ branch_ok Q (block_hash b) (lo + 1) bs'
  end.

Lemma insert_branch (Q : Block → Prop) (c : ChainStore) (link : string) (bs : list Block) :
  chain_ok Q c → blocks_by_height c !! tip_height c = Some link →
  branch_ok Q link (tip_height c + 1) bs →
  (chain_ok Q (foldl insert_block c bs)
   ∧ tip_height (foldl insert_block c bs) = (tip_height c + N.of_nat (length bs))%N)
  ∨ height_collision.
Proof.
  revert c link. induction bs as [|b bs IH]; intros c link Hok Hlink Hbs.
  { left. split; [done|]. simpl. lia. }
  destruct Hbs as (Hht & Hp & HQ & Hbs). cbn [foldl].
  destruct (insert_linked Q c b Hok HQ Hht) as [Hok'|]; [by rewrite Hp| |by right].
  assert (tip_height (insert_block c b) = (tip_height c + 1)%N) as Htip
    by (rewrite tip_height_insert; lia).
  destruct (IH (insert_block c b) (block_hash b)) as [[Hok'' Htip'']|]; [done| | | |by right].
  - rewrite Htip. simpl. rewrite Hht. apply lookup_insert_eq.
  - by rewrite Htip.
  - left. split; [done|]. rewrite Htip'', Htip, length_cons. lia.
Qed.

Lemma rollback_ok (Q : Block → Prop) (c : ChainStore) (h : N) :
  chain_ok Q c → is_Some (blocks_by_height c !! h) →
  chain_ok Q (rollback_to_height c h).1 ∧ tip_height (rollback_to_height c h).1 = h
  ∧ blocks_by_height (rollback_to_height c h).1 !! h = blocks_by_height c !! h.
Proof.
  intros [Hg Hh Hb] Hsome.
  assert (blocks_by_hash (rollback_to_height c h).1 = blocks_by_hash c) as Hbh
    by (unfold rollback_to_height; by case_match).
  split; [|split].
  - split.
    + rewrite rollback_heights, decide_True by lia. done.
    + by rewrite Hbh.
    + intros k x. rewrite rollback_heights. case_decide as Hk; [|done]. intros Hx.
      destruct (Hb k x Hx) as (b & Hxb & Hht & HQ & Hp). exists b. rewrite Hbh.
      split_and!; try done. intros Hpos. rewrite rollback_heights, decide_True by lia.
      by apply Hp.
  - apply tip_height_unique; setoid_rewrite rollback_heights; [by rewrite decide_True|].
    intros k. case_decide; [done|]. by intros [].
  - by rewrite rollback_heights, decide_True.
Qed.

(** Rebuilding the package index re-inserts stored blocks and moves nothing. *)
Lemma rebuild_blocks (Q : Block → Prop) (c : ChainStore) :
  chain_ok Q c →
  blocks_by_hash (rebuild_package_index c) = blocks_by_hash c
  ∧ blocks_by_height (rebuild_package_index c) = blocks_by_height c.
Proof.
  intros Hok. unfold rebuild_package_index.
  assert (∀ hs c', blocks_by_hash c' = blocks_by_hash c → blocks_by_height c' = blocks_by_height c →
    blocks_by_hash (foldl replay_height c' hs) = blocks_by_hash c
    ∧ blocks_by_height (foldl replay_height c' hs) = blocks_by_height c) as Hgen; [|by apply Hgen].
  induction hs as [|h hs IH]; intros c' H1 H2; [done|]. simpl.
  destruct (get_block_by_height c' h) as [b|] eqn:Hb; unfold replay_height; rewrite Hb;
    apply IH; try done; simpl; rewrite ?H1, ?H2; apply insert_id;
    (assert (get_block_by_height c h = Some b) as Hget
      by (unfold get_block_by_height, get_block_by_hash in *; by rewrite <- H1, <- H2));
    destruct (chain_ok_get Q c h b Hok Hget) as [Hx Hht].
  - unfold get_block_by_height in Hget. rewrite Hx in Hget. exact Hget.
  - by rewrite Hht.
Qed.

Lemma chain_ok_ext (Q : Block → Prop) (c c' : ChainStore) :
  blocks_by_hash c' = blocks_by_hash c → blocks_by_height c' = blocks_by_height c →
  chain_ok Q c → chain_ok Q c'.
Proof. intros H1 H2 [Hg Hh Hb]. split; by rewrite ?H1, ?H2. Qed.

Lemma find_ancestor_Some (probe : N → option Block) (c : ChainStore) (hs : list N)
    (k : N) (x : string) :
  find_ancestor probe c hs = Ok (Some (k, x)) →
  k ∈ hs ∧ ∃ b, get_block_by_height c k = Some b ∧ block_hash b = x.
Proof.
  induction hs as [|h hs IH]; simpl; [done|].
  destruct (get_block_by_height c h) as [ours|] eqn:Ho.
  - destruct (probe h) as [theirs|]; [|done].
    destruct (String.eqb (block_hash ours) (block_hash theirs)).
    + intros [= <- <-]. split; [constructor|]. eauto.
    + intros [Hin Hb]%IH. split; [by constructor|done].
  - intros [Hin Hb]%IH. split; [by constructor|done].
Qed.

(** Consecutive heights. *)
Lemma heights_cons (lo hi : N) (h : N) (hs : list N) :
  heights lo hi = h :: hs → h = lo ∧ hs = heights (lo + 1) hi ∧ (lo ≤ hi)%N.
Proof.
  unfold heights. destruct (N.to_nat (hi + 1 - lo)) as [|m] eqn:Hm; [done|].
  rewrite <- cons_seq, fmap_cons. intros [= <- <-]. split; [lia|]. split; [|lia].
  replace (N.to_nat (hi + 1 - (lo + 1))) with m by lia.
  rewrite <- fmap_S_seq, <- list_fmap_compose. apply list_fmap_ext. intros i x _. simpl. lia.
Qed.

(** The blocks a node accepts at their height. *)
Definition accepts (n : Node) (b : Block) : Prop :=
  verify_block_signatures b (effective_set n (height (header b))) = Ok tt.

Lemma fetch_branch_ok (refetch : N → option Block) (n : Node) (hi : N) (hs : list N)
    (lo : N) (link tip : string) (bs : list Block) :
  hs = heights lo hi → fetch_branch refetch n link hs = Some (bs, tip) →
  branch_ok (accepts n) link lo bs ∧ length bs = length hs.
Proof.
  revert lo link bs. induction hs as [|h hs IH]; intros lo link bs Hhs Hf; simpl in Hf.
  { by injection Hf as <- <-. }
  symmetry in Hhs. apply heights_cons in Hhs as (-> & Hhs & Hle).
  apply bind_Some in Hf as (b & Hb & Hf).
  destruct (N.eqb_spec (height (header b)) lo) as [Hht|]; simpl in Hf; [|done].
  destruct (String.eqb_spec (prev_hash (header b)) link) as [Hp|]; simpl in Hf; [|done].
  destruct (is_ok _) eqn:Hv; simpl in Hf; [|done].
  apply bind_Some in Hf as ([bs' tip'] & Hrec & [= <- <-]).
  destruct (IH (lo + 1)%N (block_hash b) bs' Hhs Hrec) as [Hok Hlen].
  split; [|simpl; by rewrite Hlen]. simpl. split_and!; try done.
  apply is_ok_Ok in Hv as [[] Hv]. done.
Qed.

Lemma length_heights (lo hi : N) : length (heights lo hi) = N.to_nat (hi + 1 - lo).
Proof. unfold heights. by rewrite length_fmap, length_seq. Qed.

(** The blocks allowed in the chain after a pass that started in [n0]. *)
Definition provenance (n0 : Node) (b : Block) : Prop :=
  get_block_by_height (chain n0) (height (header b)) = Some b ∨ accepts n0 b.

Definition same_sets (n n' : Node) : Prop :=
  node_validator_set n' = node_validator_set n ∧ set_history n' = set_history n.

Lemma accepts_ext (n n' : Node) (b : Block) : same_sets n n' → accepts n' b → accepts n b.
Proof. unfold accepts, effective_set. by intros [-> ->]. Qed.

Lemma branch_ok_impl (Q Q' : Block → Prop) (link : string) (lo : N) (bs : list Block) :
  (∀ b, Q b → Q' b) → branch_ok Q link lo bs → branch_ok Q' link lo bs.
Proof.
  intros HQ. revert link lo. induction bs as [|b bs IH]; intros link lo; [done|].
  simpl. intros (H1 & H2 & H3 & H4). split_and!; auto.
Qed.

(** What an applied reorganisation leaves behind. *)
Lemma reorg_ok (now : Z) (probe refetch : N → option Block) (Q : Block → Prop) (n n' : Node)
    (local_tip peer_height : N) :
  chain_ok Q (chain n) → (∀ b, accepts n b → Q b) →
  attempt_reorg_recovery now probe refetch n local_tip peer_height = (n', true) →
  (chain_ok Q (chain n') ∧ same_sets n n' ∧ (local_tip < tip_height (chain n'))%N
   ∧ publisher_index n' = rebuild_from_chain now (publisher_index n) (canonical_blocks (chain n'))
   ∧ ∃ ev rest, reorgs n' = ev :: rest ∧ (re_depth ev ≤ MAX_REORG_DEPTH)%N)
  ∨ height_collision.
Proof.
  intros Hok HQ. unfold attempt_reorg_recovery.
  destruct (find_ancestor probe (chain n) _) as [[[k x]|]|] eqn:Hanc; [|done..].
  apply find_ancestor_Some in Hanc as (Hk & b0 & Hb0 & Hx).
  rewrite list_elem_of_In, <- in_rev, <- list_elem_of_In in Hk. apply elem_of_heights in Hk.
  destruct (chain_ok_get Q _ _ _ Hok Hb0) as [Hkx _].
  destruct (fetch_branch refetch n x _) as [[bs link]|] eqn:Hf; [|done].
  apply (fetch_branch_ok _ _ peer_height _ (k + 1)) in Hf as [Hbs Hlen]; [|done].
  destruct (N.leb_spec (k + N.of_nat (length bs)) local_tip) as [|Hlong]; [done|].
  destruct (rollback_ok Q (chain n) k Hok) as (Hroll & Htip & Hkk); [eauto|].
  destruct (rollback_to_height (chain n) k) as [c0 abandoned]. simpl in Hroll, Htip, Hkk.
  destruct (insert_branch Q c0 x bs) as [[Hok1 Htip1]|]; [done| | | |by right].
  { by rewrite Htip, Hkk, Hkx, Hx. }
  { rewrite Htip. by eapply branch_ok_impl. }
  intros [= <-]. left. set (c1 := foldl insert_block c0 bs) in *.
  destruct (rebuild_blocks Q c1 Hok1) as [Hr1 Hr2].
  split; [by apply (chain_ok_ext Q c1)|]. split; [done|]. split.
  { simpl. unfold tip_height. rewrite Hr2. fold (tip_height c1). lia. }
  split; [done|]. eexists _, _. split; [done|]. simpl. lia.
Qed.

Lemma reorg_declined (now : Z) (probe refetch : N → option Block) (n n' : Node)
    (local_tip peer_height : N) :
  attempt_reorg_recovery now probe refetch n local_tip peer_height = (n', false) → n' = n.
Proof.
  unfold attempt_reorg_recovery. repeat case_match; congruence.
Qed.

(** Reorganisation safety: a declined recovery changes nothing; an applied one keeps
    the canonical chain linked, contains besides the old blocks only blocks whose
    signatures were verified, is strictly longer than the local chain, forks at most
    64 blocks back, is recorded, and rebuilds the publisher index from the new chain
    (or exhibits two blocks of different heights with one hash). *)
Theorem reorg_recovery_safe (now : Z) (probe refetch : N → option Block) (n n' : Node)
    (local_tip peer_height : N) (applied : bool) :
  chain_ok (λ _, True) (chain n) →
  attempt_reorg_recovery now probe refetch n local_tip peer_height = (n', applied) →
  if applied then
    (chain_ok (provenance n) (chain n') ∧ (local_tip < tip_height (chain n'))%N
     ∧ publisher_index n' = rebuild_from_chain now (publisher_index n) (canonical_blocks (chain n'))
     ∧ ∃ ev rest, reorgs n' = ev :: rest ∧ (re_depth ev ≤ MAX_REORG_DEPTH)%N)
    ∨ height_collision
  else n' = n.
Proof.
  intros Hok Hre. destruct applied; [|by eapply reorg_declined].
  assert (chain_ok (provenance n) (chain n)) as Hok'.
  { eapply chain_ok_impl; [|exact Hok]. intros h b Hb Hh _. left. by rewrite Hh. }
  destruct (reorg_ok _ _ _ _ _ _ _ _ Hok' (λ b H, or_intror H) Hre)
    as [(H1 & _ & H2 & H3 & H4)|]; [left; by split_and!|by right].
Qed.

Lemma sync_loop_ok (now : Z) (fetch probe refetch : N → option Block) (Q : Block → Prop)
    (peer_height : N) (hs : list N) (n : Node) (prev : string) :
  hs = heights (tip_height (chain n) + 1) peer_height →
  chain_ok Q (chain n) → (∀ b, accepts n b → Q b) →
  blocks_by_height (chain n) !! tip_height (chain n) = Some prev →
  chain_ok Q (chain (result_node (sync_loop now fetch probe refetch peer_height n prev hs)))
  ∨ height_collision.
Proof.
  revert n prev. induction hs as [|h hs IH]; intros n prev Hhs Hok HQ Hprev; [by left|].
  symmetry in Hhs. apply heights_cons in Hhs as (-> & Hhs & _). cbn [sync_loop].
  destruct (fetch (tip_height (chain n) + 1)%N) as [b|]; [|by left].
  destruct (String.eqb_spec (prev_hash (header b)) prev) as [Hp|_]; cbn [negb].
  2: { destruct (_ && _); [|by left].
       destruct (attempt_reorg_recovery now probe refetch n _ peer_height) as [n' []] eqn:Hre.
       - destruct (reorg_ok _ _ _ _ _ _ _ _ Hok HQ Hre) as [[? _]|]; [by left|by right].
       - apply reorg_declined in Hre as ->. by left. }
  destruct (N.eqb_spec (height (header b)) (tip_height (chain n) + 1)) as [Hht|_];
    cbn [negb]; [|by left].
  destruct (verify_block_signatures b _) as [[]|] eqn:Hv; [|by left].
  destruct (insert_linked Q (chain n) b Hok) as [Hok'|]; [by apply HQ|done|by rewrite Hp| |by right].
  assert (tip_height (insert_block (chain n) b) = (tip_height (chain n) + 1)%N) as Htip
    by (rewrite tip_height_insert; lia).
  apply IH; [by rewrite Hhs, <- Htip|done|exact HQ|].
  cbn [chain set_chain]. rewrite Htip, <- Hht. apply lookup_insert_eq.
Qed.

(** C6. Synchronisation safety: whatever the peers answer, a pass that starts from a
    linked chain ends in a linked chain, all of whose blocks were there before or
    passed signature verification against the validator set of their height (or it
    exhibits two blocks of different heights with one hash). *)
Theorem sync_preserves_chain (now : Z) (peer_stats : list N) (fetch probe refetch : N → option Block)
    (n : Node) :
  chain_ok (λ _, True) (chain n) →
  chain_ok (provenance n)
    (chain (result_node (sync_once now peer_stats fetch probe refetch n)))
  ∨ height_collision.
Proof.
  intros Hok.
  assert (chain_ok (provenance n) (chain n)) as Hok'.
  { eapply chain_ok_impl; [|exact Hok]. intros h b Hb Hh _. left. by rewrite Hh. }
  unfold sync_once. case_match; [by left|].
  apply sync_loop_ok; [done|done|by right|].
  destruct (tip_height_in (chain n)) as [[x Hx]|He].
  - unfold tip_hash, get_block_by_height. rewrite Hx. simpl.
    destruct (ok_height _ _ Hok _ _ Hx) as (b & Hb & _). unfold get_block_by_hash. rewrite Hb.
    by rewrite (ok_hash _ _ Hok _ _ Hb).
  - destruct (ok_genesis _ _ Hok) as [y Hy]. by rewrite He, lookup_empty in Hy.
Qed.

(** A peer can stop synchronisation: a served block whose [prev_hash] is shorter
    than twelve bytes and does not link makes the log statement of the fork path
    panic, so the pass ends in a panic with nothing recorded. *)
Theorem short_prev_hash_panics (now : Z) (peer_stats : list N)
    (fetch probe refetch : N → option Block) (n : Node) (b : Block) :
  (tip_height (chain n) < foldl N.max 0 peer_stats)%N →
  fetch (tip_height (chain n) + 1)%N = Some b →
  String.length (prev_hash (header b)) < 12 → prev_hash (header b) ≠ tip_hash (chain n) →
  sync_once now peer_stats fetch probe refetch n = SyncPanic n.
Proof.
  intros Hlt Hf Hlen Hne. unfold sync_once.
  destruct (N.leb_spec (foldl N.max 0%N peer_stats) (tip_height (chain n))); [lia|].
  destruct (heights (tip_height (chain n) + 1) (foldl N.max 0%N peer_stats)) as [|h hs] eqn:Hhs.
  { apply (f_equal length) in Hhs. rewrite length_heights in Hhs. simpl in Hhs. lia. }
  apply heights_cons in Hhs as (-> & _ & _). cbn [sync_loop]. rewrite Hf.
  destruct (String.eqb_spec (prev_hash (header b)) (tip_hash (chain n))); [done|]. cbn [negb].
  assert (char_boundary (prev_hash (header b)) 12 = false) as ->.
  { unfold char_boundary. destruct (Nat.ltb_spec (String.length (prev_hash (header b))) 12);
      [done|lia]. }
  by rewrite andb_false_r.
Qed.

End SyncChain.

(** ** Witnesses *)
Module SyncExamples.
Import Toy ToySerde VoteExamples.

Definition pkhex : string := hex_encode "k1".

Definition vset : CommonValidatorSet := {| validators := [{|
  val_id := "v1"; val_alias := ""; val_pubkey := pkhex; val_eth_address := ""; val_stake := 1;
  val_reputation := 50; val_status := "online" |}] |}.

Definition unsigned_record (sigs : list ValidatorSignature) : ChainRecord := {|
  rec_id := {| ecosystem := "npm"; name := "a"; version := "1.0.0" |};
  rec_content_hash := "h"; rec_ipfs_cid := "cid"; rec_publisher_pubkey := "pk";
  rec_block_hash := ""; rec_published_at := 0; rec_validator_signatures := sigs;
  rec_status := Verified; rec_shielded := false; rec_key_bundle := None;
  rec_pgp_fingerprint := None; rec_findings := []; rec_analysis_bundles := default_bundles;
  rec_evidence_digest := ""; rec_deterministic_risk := default_risk; rec_access_count := 0;
  rec_last_accessed := None; rec_threshold := 1; rec_publisher_pubkeys := [];
  rec_manifest := None |}.

Definition approval : ValidatorSignature := {|
  vs_validator_id := "v1"; vs_validator_pubkey := pkhex;
  vs_signature := hex_encode (@sign toy_crypto "k1"
    (canonical_vote_message "npm:a@1.0.0" "h" true pkhex
       (scanner_profile_digest "m" full_bundles) "ev"));
  vs_vote := Approve; vs_signed_at := 0; vs_ml_model_version := "m";
  vs_analysis_bundles := full_bundles; vs_evidence_digest := "ev";
  vs_deterministic_risk := default_risk |}.

Definition rec1 : ChainRecord := unsigned_record [approval].

Definition blk (h : N) (prev : string) (txs : list Transaction) : Block := {|
  header := {| height := h; prev_hash := prev; header_merkle_root := ""; proposer_id := "p";
    timestamp := 0; validator_set_hash := ""; vrf_output := None; vrf_proof := None |};
  transactions := txs; pbft_signatures := [] |}.

Definition node0 : Node := {|
  chain := open_store empty_store; publisher_index := index_new;
  node_validator_set := vset; set_history := []; reorgs := [] |}.

Definition b1 : Block := blk 1 (tip_hash (chain node0)) [Publish rec1].

Lemma node0_ok : chain_ok (λ _, True) (chain node0).
Proof.
  split.
  - eexists. vm_compute. reflexivity.
  - by apply (bool_decide_unpack _); vm_compute.
  - intros h x Hx. vm_compute in Hx. destruct h as [|h]; [|by destruct h].
    injection Hx as <-. exists genesis. by split_and!.
Qed.

Lemma verified_block_quorum_witness :
  ∃ k acc, NoDup (sig_key <$> acc) ∧ 2 * length (validators vset) / 3 + 1 ≤ length acc
    ∧ ∀ s, s ∈ acc → s ∈ rec_validator_signatures rec1 ∧ eligible (known_keys vset) s
                     ∧ checked_profile rec1 s = Some k.
Proof.
  apply (verified_block_quorum b1 vset rec1).
  - vm_compute. reflexivity.
  - by vm_compute.
  - constructor.
Defined.

Lemma unpublishing_block_unverified_witness :
  verify_block_signatures (blk 1 "x" [Revoke "npm:left-pad@1.0.0" "because" "mallory" ""]) vset
  = Ok tt.
Proof.
  apply (unpublishing_block_unverified
    (blk 1 "x" [Revoke "npm:left-pad@1.0.0" "because" "mallory" ""]) vset); [done|].
  repeat constructor.
Defined.

Definition serve (h : N) : option Block :=
  if (h =? 0)%N then Some genesis else if (h =? 1)%N then Some b1 else None.

Lemma sync_preserves_chain_witness :
  chain_ok (provenance node0) (chain (result_node (sync_once 0 [1%N] serve serve serve node0)))
  ∨ height_collision.
Proof. apply (sync_preserves_chain 0 [1%N] serve serve serve node0), node0_ok. Defined.

Lemma reorg_recovery_safe_witness :
  ∃ n', attempt_reorg_recovery 0 serve serve node0 0 1 = (n', true)
  ∧ ((chain_ok (provenance node0) (chain n') ∧ (0 < tip_height (chain n'))%N
     ∧ publisher_index n' = rebuild_from_chain 0 (publisher_index node0) (canonical_blocks (chain n'))
     ∧ ∃ ev rest, reorgs n' = ev :: rest ∧ (re_depth ev ≤ MAX_REORG_DEPTH)%N)
    ∨ height_collision).
Proof.
  exists (attempt_reorg_recovery 0 serve serve node0 0 1).1.
  assert (attempt_reorg_recovery 0 serve serve node0 0 1
    = ((attempt_reorg_recovery 0 serve serve node0 0 1).1, true)) as He
    by (vm_compute; reflexivity).
  split; [exact He|].
  exact (reorg_recovery_safe 0 serve serve node0 _ 0 1 true node0_ok He).
Defined.

Lemma short_prev_hash_panics_witness :
  sync_once 0 [1%N] (λ _, Some (blk 1 "" [])) serve serve node0 = SyncPanic node0.
Proof.
  apply (short_prev_hash_panics 0 [1%N] (λ _, Some (blk 1 "" [])) serve serve node0 (blk 1 "" [])).
  - by vm_compute.
  - reflexivity.
  - simpl. lia.
  - by vm_compute.
Defined.

End SyncExamples.
