(* ===== verification/LightClient.v ===== *)
(** The light client of the resolver ([crates/resolver/src/light_client.rs]):
    PBFT certificates, header chains back to a checkpoint, and the verdict of
    [verify_package] on the node's answer.

    The HTTP exchange is not modelled: the decoded answer is the argument
    [LightClientResponse].  The [usize]/[u64] additions [height + 1] are on [N]. *)

From S2P Require Import Prelude Text Crypto Types Merkle ValidatorSet Vrf Pbft.
From Stdlib Require Import Ascii.

Record Checkpoint := { cp_height : N; cp_hash : string }.

Inductive LcError :=
| SetHashMismatch
| EmptySet
| LcPubkeyHex (id : string)
| LcPubkey (id : string)
| LcSignatureHex (id : string)
| LcSignatureFormat (id : string)
| LcSignatureInvalid (id : string)
| InsufficientSignatures (approvals quorum n : nat)
| HeaderHashMismatch
| HeightMismatch
| ChainBreak
| MerkleProofFailed
| MerkleRootMismatch
| TerminalOmitted
| TerminalMismatch
| CheckpointMismatch
| LcPanic.                  (* a slice inside a character *)

#[export] Instance LcError_eq_dec : EqDecision LcError.
Proof. solve_decision. Defined.

Record LightClientResponse := {
  resp_status : string;
  resp_block_hash : string;
  resp_block_header : BlockHeader;
  resp_proof : MerkleProof;
  resp_header_chain : list (BlockHeader * string);
  resp_pbft_signatures : list BlockSignature;
  resp_active_validators : list Validator;
}.

Section LightClient.
Context `{!Crypto, !Serde}.

(** [Checkpoint::genesis] *)
Definition genesis_checkpoint : Checkpoint :=
  {| cp_height := 0; cp_hash := block_hash genesis |}.

(** The bytes fed to the hasher: each sorted id and a NUL. *)
Fixpoint nul_terminated (ids : list string) : string :=
  match ids with
  | [] => ""
  | id :: ids' => id +:+ String (byte 0) (nul_terminated ids')
  end.

Definition compute_validator_set_hash (validators : list Validator) : string :=
  sha256_hex (nul_terminated (sort_strings (val_id <$> validators))).

(** [v == "true" || v == "1"], default false *)
Definition lc_small_cluster_flag (env : string → option string) : bool :=
  match env "CREG_PBFT_ALLOW_SMALL_CLUSTER_QUORUM" with
  | Some v => String.eqb v "true" || String.eqb v "1"
  | None => false
  end.

Definition lc_quorum (n : nat) (allow_small_cluster_quorum : bool) : nat :=
  match n with
  | 3 => if allow_small_cluster_quorum then 2 else 2 * 3 / 3 + 1
  | _ => 2 * n / 3 + 1
  end.

Definition clean_key (k : string) : string := to_ascii_lowercase (trim_0x k).

(** [.collect::<HashMap<_, _>>()]: a later duplicate id wins. *)
Definition validator_pubkeys (validators : list Validator) : gmap string string :=
  foldl (λ m v, <[val_id v := clean_key (val_pubkey v)]> m) ∅ validators.

(** The signature check of one counted signer. *)
Definition check_commit_sig (message expected_pubkey : string) (sig : BlockSignature)
    : result LcError unit :=
  let id := bs_validator_id sig in
  pubkey_bytes ← ok_or (LcPubkeyHex id) (hex_decode expected_pubkey);
  verifying_key ← ok_or (LcPubkey id) (vk_try_from pubkey_bytes);
  signature_bytes ← ok_or (LcSignatureHex id) (hex_decode (trim_0x (bs_signature sig)));
  signature ← ok_or (LcSignatureFormat id) (sig_try_from signature_bytes);
  ensure (verify verifying_key message signature) (LcSignatureInvalid id).

(** The loop over the signatures; the result is [seen_validators]. *)
Fixpoint collect_signers (pubkeys : gmap string string) (message : string)
    (seen : gset string) (sigs : list BlockSignature) : result LcError (gset string) :=
  match sigs with
  | [] => Ok seen
  | sig :: sigs' =>
      match pubkeys !! bs_validator_id sig with
      | None => collect_signers pubkeys message seen sigs'
      | Some expected_pubkey =>
          if negb (String.eqb (clean_key (bs_pubkey sig)) expected_pubkey)
          then collect_signers pubkeys message seen sigs'
          else if bool_decide (bs_validator_id sig ∈ seen)
          then collect_signers pubkeys message seen sigs'
          else
            _ ← check_commit_sig message expected_pubkey sig;
            collect_signers pubkeys message ({[bs_validator_id sig]} ∪ seen) sigs'
      end
  end.

Definition commit_message (bh : string) : string := "creg-pbft-v1:commit:" +:+ bh.

Definition verify_pbft_consensus (small : bool) (bh : string) (block_header : BlockHeader)
    (active_validators : list Validator) (sigs : list BlockSignature) : result LcError unit :=
  _ ← ensure (String.eqb (compute_validator_set_hash active_validators)
                (validator_set_hash block_header)) SetHashMismatch;
  let n := length active_validators in
  _ ← ensure (negb (n =? 0)%nat) EmptySet;
  let quorum := lc_quorum n small in
  seen ← collect_signers (validator_pubkeys active_validators) (commit_message bh) ∅ sigs;
  ensure (quorum <=? size seen)%nat (InsufficientSignatures (size seen) quorum n).

(** [&value[..value.len().min(12)]] *)
Definition hash_prefix (value : string) : option string :=
  let n := Nat.min (String.length value) 12 in
  if char_boundary value n then Some (String.substring 0 n value) else None.

(** An error whose message shows the prefixes of some texts. *)
Definition with_prefixes (e : LcError) (shown : list string) : LcError :=
  if forallb (λ s, bool_decide (is_Some (hash_prefix s))) shown then e else LcPanic.

Definition verify_header (h : BlockHeader) (expected_hash : string) (expected_height : N)
    : result LcError unit :=
  _ ← ensure (String.eqb (header_hash h) expected_hash)
         (with_prefixes HeaderHashMismatch [expected_hash; header_hash h]);
  ensure (height h =? expected_height)%N HeightMismatch.

(** [headers.windows(2)] *)
Fixpoint verify_windows (prev : BlockHeader * string) (rest : list (BlockHeader * string))
    : result LcError unit :=
  match rest with
  | [] => Ok tt
  | next :: rest' =>
      _ ← verify_header next.1 next.2 (height prev.1 + 1);
      _ ← ensure (String.eqb (prev_hash next.1) prev.2) (with_prefixes ChainBreak [prev.2; prev_hash next.1]);
      verify_windows next rest'
  end.

Definition verify_header_chain (headers : list (BlockHeader * string)) (cp : Checkpoint)
    : result LcError unit :=
  match headers with
  | [] => Ok tt
  | first :: rest =>
      _ ← verify_header first.1 first.2 (cp_height cp + 1);
      _ ← ensure (String.eqb (prev_hash first.1) (cp_hash cp))
             (with_prefixes ChainBreak [cp_hash cp; prev_hash first.1]);
      verify_windows first rest
  end.

(** [verify_package], from the decoded answer on.  The prefix of the block's hash that the last line
    logs is of a digest in hexadecimal digits, which [verify_header] has compared. *)
Definition verify_package (small : bool) (canonical : string) (resp : LightClientResponse)
    (cp : Checkpoint) : result LcError bool :=
  if negb (String.eqb (resp_status resp) "verified") then Ok false
  else
    _ ← ensure (proof_verify (resp_proof resp)) MerkleProofFailed;
    _ ← ensure (String.eqb (proof_expected_root (resp_proof resp))
                  (header_merkle_root (resp_block_header resp))) MerkleRootMismatch;
    _ ← verify_header (resp_block_header resp) (resp_block_hash resp)
          (height (resp_block_header resp));
    _ ← verify_pbft_consensus small (resp_block_hash resp) (resp_block_header resp)
          (resp_active_validators resp) (resp_pbft_signatures resp);
    let relevant :=
      filter (λ hh, (cp_height cp <? height hh.1)%N = true) (resp_header_chain resp) in
    _ ← ensure (negb ((cp_height cp <? height (resp_block_header resp))%N
                      && bool_decide (relevant = []))) TerminalOmitted;
    match last relevant with
    | Some terminal =>
        _ ← ensure (String.eqb terminal.2 (resp_block_hash resp)
                    && (height terminal.1 =? height (resp_block_header resp))%N) TerminalMismatch;
        _ ← verify_header_chain relevant cp;
        Ok true
    | None =>
        _ ← ensure ((height (resp_block_header resp) =? cp_height cp)%N
                    && String.eqb (resp_block_hash resp) (cp_hash cp)) CheckpointMismatch;
        Ok true
    end.

(** ** Certificates *)

(** A valid commit signature of a validator of the list. *)
Definition valid_commit (pubkeys : gmap string string) (bh : string) (sig : BlockSignature) : Prop :=
  ∃ pk, pubkeys !! bs_validator_id sig = Some pk ∧ clean_key (bs_pubkey sig) = pk
        ∧ check_commit_sig (commit_message bh) pk sig = Ok tt.

Lemma collect_signers_sound (pubkeys : gmap string string) (bh : string) (seen seen' : gset string)
    (sigs : list BlockSignature) :
  collect_signers pubkeys (commit_message bh) seen sigs = Ok seen' →
  ∀ v, v ∈ seen' → v ∈ seen ∨ ∃ s, s ∈ sigs ∧ bs_validator_id s = v ∧ valid_commit pubkeys bh s.
Proof.
  revert seen. induction sigs as [|s sigs IH]; intros seen Hc v Hv; simpl in Hc.
  { injection Hc as <-. by left. }
  assert (∀ seen0, collect_signers pubkeys (commit_message bh) seen0 sigs = Ok seen' →
    v ∈ seen0 ∨ ∃ s0, s0 ∈ s :: sigs ∧ bs_validator_id s0 = v ∧ valid_commit pubkeys bh s0) as Hrec.
  { intros seen0 Hc0. destruct (IH seen0 Hc0 v Hv) as [?|(s0 & Hs0 & Hid & Hval)]; [by left|].
    right. exists s0. split_and!; try done. by constructor. }
  destruct (pubkeys !! bs_validator_id s) as [pk|] eqn:Hpk; [|by apply Hrec].
  destruct (String.eqb_spec (clean_key (bs_pubkey s)) pk) as [Hk|]; simpl in Hc; [|by apply Hrec].
  case_bool_decide; [by apply Hrec|]. apply bind_Ok in Hc as ([] & Hsig & Hc).
  destruct (Hrec _ Hc) as [[->%elem_of_singleton|?]%elem_of_union|?]; [|by left|by right].
  right. exists s. split_and!; [constructor|done|]. by exists pk.
Qed.

(** A light client that accepts a certificate has seen a quorum of the listed
    validators: distinct ids, each with a valid COMMIT signature over the block hash
    under the key listed for it, and the listed set is the one the header commits
    to. *)
Theorem light_certificate_sound (small : bool) (bh : string) (h : BlockHeader)
    (vals : list Validator) (sigs : list BlockSignature) :
  verify_pbft_consensus small bh h vals sigs = Ok tt →
  compute_validator_set_hash vals = validator_set_hash h
  ∧ ∃ Q : gset string, lc_quorum (length vals) small ≤ size Q
    ∧ ∀ v, v ∈ Q → ∃ s, s ∈ sigs ∧ bs_validator_id s = v
                        ∧ valid_commit (validator_pubkeys vals) bh s.
Proof.
  unfold verify_pbft_consensus. intros Hok. res_inv. rewrite ->String.eqb_eq in *.
  split; [done|]. eexists. split; [by apply Nat.leb_le|]. intros v Hv.
  eapply collect_signers_sound in Hv as [?%not_elem_of_empty|?]; [done|done|eauto].
Qed.

Lemma collect_signers_complete (pubkeys : gmap string string) (bh : string) (seen : gset string)
    (sigs : list BlockSignature) :
  Forall (valid_commit pubkeys bh) sigs → NoDup (bs_validator_id <$> sigs) →
  (∀ s, s ∈ sigs → bs_validator_id s ∉ seen) →
  collect_signers pubkeys (commit_message bh) seen sigs
  = Ok (list_to_set (bs_validator_id <$> sigs) ∪ seen).
Proof.
  revert seen. induction sigs as [|s sigs IH]; intros seen Hall Hnd Hns.
  { simpl. f_equal. set_solver. }
  apply Forall_cons in Hall as [(pk & Hpk & Hk & Hsig) Hall].
  rewrite fmap_cons in Hnd. apply NoDup_cons in Hnd as [Hs Hnd]. simpl. rewrite Hpk, Hk.
  rewrite String.eqb_refl. simpl. rewrite bool_decide_eq_false_2 by (apply Hns; constructor).
  rewrite Hsig. simpl. rewrite IH; [f_equal; set_solver|done|done|].
  intros s' Hs'. apply not_elem_of_union. split; [|apply Hns; by constructor].
  intros He%elem_of_singleton. apply Hs. rewrite <- He. apply list_elem_of_fmap. eauto.
Qed.

(** The PBFT engine's per-signature check is the light client's. *)
Lemma commit_check_agrees (bh pk : string) (s : BlockSignature) :
  to_ascii_lowercase (trim_0x pk) = pk →
  verify_pbft_phase_signature "commit" bh pk (bs_signature s) = Ok tt →
  check_commit_sig (commit_message bh) pk s = Ok tt.
Proof.
  unfold verify_pbft_phase_signature, check_commit_sig. intros ->. intros Hok. res_inv.
  repeat match goal with H : _ = Some _ |- _ => rewrite H; clear H; simpl end.
  change (commit_message bh) with (pbft_signature_message "commit" bh).
  match goal with H : verify _ _ _ = true |- _ => by rewrite H end.
Qed.

Lemma validator_pubkeys_lookup (vals : list Validator) (v : Validator) :
  NoDup (val_id <$> vals) → v ∈ vals →
  validator_pubkeys vals !! val_id v = Some (clean_key (val_pubkey v)).
Proof.
  unfold validator_pubkeys. induction vals as [|w vals IH] using rev_ind; intros Hnd Hin.
  { by apply not_elem_of_nil in Hin. }
  rewrite fmap_app in Hnd. apply NoDup_app in Hnd as (Hnd & Hw & _).
  rewrite foldl_app. simpl. apply elem_of_app in Hin as [Hin| ->%list_elem_of_singleton].
  - rewrite lookup_insert_ne; [by apply IH|]. intros He.
    apply (Hw (val_id v)); [apply list_elem_of_fmap; eauto|]. rewrite <- He. simpl. constructor.
  - apply lookup_insert_eq.
Qed.

Lemma lc_quorum_threshold (n : nat) (c : bool) : n ≠ 0 → lc_quorum n c = quorum_threshold n c.
Proof. intros Hn. by destruct n as [|[|[|[|n]]]]. Qed.

(** The signatures of a finalised round, as the light client sees them. *)
Lemma finalised_sigs_valid (cs : CommonValidatorSet) (cfg : PbftConfig) (b : Block)
    (r : PbftRound) :
  reachable b (vset_from cs) cfg r → NoDup (val_id <$> validators cs) →
  Forall (λ v, clean_key (clean_key (val_pubkey v)) = clean_key (val_pubkey v)) (validators cs) →
  Forall (valid_commit (validator_pubkeys (validators cs)) (block_hash b)) (finalised_signatures r)
  ∧ NoDup (bs_validator_id <$> finalised_signatures r).
Proof.
  intros Hr Hnd Hclean. destruct (reachable_inv _ _ _ _ Hr) as [Hb Hvs _ _ Hok _ _ _]. split.
  - apply Forall_forall. intros s [k Hk]%elem_of_hm_values.
    apply Hok, verify_block_signature_Ok in Hk as (<- & info & Hl & Ha & Hpk & Hv).
    rewrite Hvs in Hl. destruct (vset_from_lookup_inv _ _ _ Hl) as (v & Hin & Hid & ->).
    rewrite Forall_forall in Hclean.
    exists (clean_key (val_pubkey v)). rewrite <- Hid.
    split; [by apply validator_pubkeys_lookup|]. split; [exact Hpk|].
    apply commit_check_agrees; [exact (Hclean v Hin)|]. rewrite Hb in Hv. exact Hv.
  - unfold finalised_signatures. rewrite hm_values_keys; [apply NoDup_hm_keys|].
    intros k s Hk. by apply Hok, verify_block_signature_Ok in Hk as [-> _].
Qed.

(** C10. Engine and light client agree: a block that the PBFT engine finalises on a
    validator list (distinct ids, every member active, keys in clean form) carries a
    certificate the light client accepts for that list, under the same quorum rule. *)
Theorem finalised_block_light_verified (cs : CommonValidatorSet) (cfg : PbftConfig)
    (b : Block) (r : PbftRound) :
  let vals := validators cs in
  reachable b (vset_from cs) cfg r → phase r = Finalised → vals ≠ [] →
  NoDup (val_id <$> vals) →
  Forall (λ v, info_is_active (info_of_common v) = true) vals →
  Forall (λ v, clean_key (clean_key (val_pubkey v)) = clean_key (val_pubkey v)) vals →
  compute_validator_set_hash vals = validator_set_hash (header b) →
  verify_pbft_consensus (allow_small_cluster_quorum cfg) (block_hash b) (header b) vals
    (finalised_signatures r) = Ok tt.
Proof.
  intros vals Hr Hph Hne Hnd Hact Hclean Hset.
  destruct (finalised_sigs_valid cs cfg b r Hr Hnd Hclean) as [Hvalid Hsnd].
  destruct (reachable_inv _ _ _ _ Hr) as [_ Hvs Hc _ _ Hphi _ _].
  unfold phase_inv, quorum in Hphi. rewrite Hph, Hvs, Hc, vset_from_len in Hphi by done.
  destruct Hphi as [_ Hq]. fold vals in Hq, Hvalid.
  unfold verify_pbft_consensus. rewrite Hset, String.eqb_refl. simpl.
  destruct (Nat.eqb_spec (length vals) 0) as [Hz|Hnz]; [by destruct vals|]. simpl.
  rewrite (collect_signers_complete _ _ ∅) by (try done; set_solver). simpl.
  rewrite union_empty_r_L, size_list_to_set, length_fmap by done.
  unfold finalised_signatures. rewrite length_hm_values.
  rewrite lc_quorum_threshold by done. by rewrite (proj2 (Nat.leb_le _ _) Hq).
Qed.

(** ** Header chains *)

(** [headers] links upwards from [link] at height [lo]: hashes are right, heights
    consecutive. *)
Fixpoint headers_linked (link : string) (lo : N) (headers : list (BlockHeader * string)) : Prop :=
  match headers with
  | [] => True
  | (h, x) :: rest =>
      header_hash h = x ∧ height h = lo ∧ prev_hash h = link ∧ headers_linked x (lo + 1) rest
  end.

Lemma verify_header_Ok (h : BlockHeader) (x : string) (n : N) :
  verify_header h x n = Ok tt ↔ header_hash h = x ∧ height h = n.
Proof.
  unfold verify_header. rewrite bind_Ok. split.
  - intros (? & H1%ensure_Ok & H2%ensure_Ok).
    by rewrite String.eqb_eq in H1; rewrite N.eqb_eq in H2.
  - intros [-> ->]. exists tt. by rewrite String.eqb_refl, N.eqb_refl.
Qed.

Lemma verify_windows_Ok (prev : BlockHeader * string) (rest : list (BlockHeader * string)) :
  verify_windows prev rest = Ok tt ↔ headers_linked prev.2 (height prev.1 + 1) rest.
Proof.
  revert prev. induction rest as [|[h x] rest IH]; intros prev; simpl; [done|].
  rewrite bind_Ok. split.
  - intros ([] & [H1 Hh]%verify_header_Ok & H2).
    apply bind_Ok in H2 as ([] & H2%ensure_Ok & H3%IH). rewrite String.eqb_eq in H2.
    simpl in H3. by rewrite Hh in H3.
  - intros (H1 & H2 & H3 & H4). exists tt. split; [by apply verify_header_Ok|].
    rewrite H3, String.eqb_refl. simpl. apply IH. simpl. by rewrite H2.
Qed.

(** Header chains are verified exactly: the client accepts a list of headers iff it
    is a hash-linked chain of consecutive heights starting right above the
    checkpoint and at its hash. *)
Theorem header_chain_exact (headers : list (BlockHeader * string)) (cp : Checkpoint) :
  verify_header_chain headers cp = Ok tt ↔
  headers_linked (cp_hash cp) (cp_height cp + 1) headers.
Proof.
  destruct headers as [|[h x] rest]; [done|]. simpl. rewrite bind_Ok. split.
  - intros ([] & [H1 Hh]%verify_header_Ok & H2). apply bind_Ok in H2 as ([] & H2%ensure_Ok & H3).
    rewrite String.eqb_eq in H2. apply verify_windows_Ok in H3. simpl in H3. by rewrite Hh in H3.
  - intros (H1 & H2 & H3 & H4). exists tt. split; [by apply verify_header_Ok|].
    rewrite H3, String.eqb_refl. simpl. apply verify_windows_Ok. simpl. by rewrite H2.
Qed.

(** What an accepted package verdict means: the proof's leaf is under the merkle
    root of the block header, the header has the stated hash, its block has a quorum
    certificate of the listed validators, and either the header ends a hash-linked
    chain of consecutive headers from the checkpoint, or it is the checkpoint. *)
Theorem verify_package_sound (small : bool) (c : string) (resp : LightClientResponse)
    (cp : Checkpoint) :
  verify_package small c resp cp = Ok true →
  let h := resp_block_header resp in
  walk (proof_tx_hash (resp_proof resp)) (proof_path (resp_proof resp)) = header_merkle_root h
  ∧ header_hash h = resp_block_hash resp
  ∧ (∃ Q : gset string, lc_quorum (length (resp_active_validators resp)) small ≤ size Q
     ∧ ∀ v, v ∈ Q → ∃ s, s ∈ resp_pbft_signatures resp ∧ bs_validator_id s = v
         ∧ valid_commit (validator_pubkeys (resp_active_validators resp)) (resp_block_hash resp) s)
  ∧ ((∃ headers hh, headers_linked (cp_hash cp) (cp_height cp + 1) headers
       ∧ last headers = Some hh ∧ hh.2 = resp_block_hash resp ∧ height hh.1 = height h)
     ∨ (height h = cp_height cp ∧ resp_block_hash resp = cp_hash cp)).
Proof.
  unfold verify_package. destruct (String.eqb (resp_status resp) "verified"); simpl; [|done].
  intros Hok. apply bind_Ok in Hok as ([] & Hm%ensure_Ok & Hok).
  apply bind_Ok in Hok as ([] & Hr%ensure_Ok & Hok).
  apply bind_Ok in Hok as ([] & [Hh _]%verify_header_Ok & Hok).
  apply bind_Ok in Hok as ([] & Hcert & Hok). apply bind_Ok in Hok as ([] & _ & Hok).
  unfold proof_verify in Hm. rewrite ->String.eqb_eq in *.
  split; [congruence|]. split; [done|]. split.
  { unfold verify_pbft_consensus in Hcert. res_inv. eexists. split; [by apply Nat.leb_le|].
    intros v Hv. eapply collect_signers_sound in Hv as [?%not_elem_of_empty|?]; [done|done|eauto]. }
  set (rel := filter _ (resp_header_chain resp)) in *.
  destruct (last rel) as [hh|] eqn:Hlast.
  - left. apply bind_Ok in Hok as ([] & Ht%ensure_Ok & Hok).
    apply andb_prop in Ht as [Ht1 Ht2]. rewrite String.eqb_eq in Ht1. rewrite N.eqb_eq in Ht2.
    apply bind_Ok in Hok as ([] & Hchain & _). exists rel, hh. split_and!; try done.
    destruct rel as [|[h0 x0] rest]; [done|]. simpl in Hchain |- *. res_inv.
    match goal with H : verify_header _ _ _ = _ |- _ => apply verify_header_Ok in H as [? Hh0] end.
    rewrite ->String.eqb_eq in *. apply verify_windows_Ok in Hchain. simpl in Hchain.
    rewrite Hh0 in Hchain. done.
  - right. res_inv. match goal with H : _ && _ = true |- _ => apply andb_prop in H as [H1 H2] end.
    rewrite N.eqb_eq in H1. by rewrite String.eqb_eq in H2.
Qed.

(** ** What an accepted verdict does not mean *)

Definition forger (pk : string) : Validator := {|
  val_id := "forger"; val_alias := ""; val_pubkey := pk; val_eth_address := ""; val_stake := 0;
  val_reputation := 0; val_status := "online" |}.

Definition forged_header (cp : Checkpoint) (pk leaf : string) : BlockHeader := {|
  height := cp_height cp + 1; prev_hash := cp_hash cp; header_merkle_root := leaf;
  proposer_id := "forger"; timestamp := 0;
  validator_set_hash := compute_validator_set_hash [forger pk];
  vrf_output := None; vrf_proof := None |}.

Definition forged_response (cp : Checkpoint) (pk leaf : string) (sk : SigningKey)
    : LightClientResponse :=
  let h := forged_header cp pk leaf in
  {| resp_status := "verified"; resp_block_hash := header_hash h; resp_block_header := h;
     resp_proof := {| proof_tx_hash := leaf; proof_path := []; proof_expected_root := leaf |};
     resp_header_chain := [(h, header_hash h)];
     resp_pbft_signatures := [{| bs_validator_id := "forger"; bs_pubkey := pk;
       bs_signature := hex_encode (sig_bytes (sign sk (commit_message (header_hash h)))) |}];
     resp_active_validators := [forger pk] |}.

Lemma forged_certificate `{!CryptoLaws} (small : bool) (cp : Checkpoint) (leaf : string)
    (sk : SigningKey) :
  let pk := hex_encode (vk_bytes (sk_verifying_key sk)) in
  clean_key pk = pk →
  (∀ s, trim_0x (hex_encode (sig_bytes s)) = hex_encode (sig_bytes s)) →
  let resp := forged_response cp pk leaf sk in
  verify_pbft_consensus small (resp_block_hash resp) (resp_block_header resp)
    (resp_active_validators resp) (resp_pbft_signatures resp) = Ok tt.
Proof.
  intros pk Hpk Hsig resp. unfold verify_pbft_consensus.
  rewrite (collect_signers_complete _ _ ∅).
  - set (seen := list_to_set _ ∪ ∅).
    assert (size seen = 1) as Hsz.
    { unfold seen. rewrite union_empty_r_L, size_list_to_set; [done|apply NoDup_singleton]. }
    clearbody seen. unfold resp. simpl. rewrite String.eqb_refl. simpl. by rewrite Hsz.
  - constructor; [|constructor]. exists pk.
    split; [unfold validator_pubkeys; simpl; by rewrite lookup_insert_eq, Hpk|].
    split; [done|]. unfold check_commit_sig. simpl. unfold pk.
    rewrite hex_roundtrip. simpl. rewrite vk_roundtrip. simpl. rewrite Hsig, hex_roundtrip. simpl.
    rewrite sig_roundtrip. simpl. by rewrite sign_verify.
  - apply NoDup_singleton.
  - set_solver.
Qed.

(** The verdict is only as good as the answering node: nothing ties the validator
    list of an answer to the checkpoint, nor the proven leaf to the requested
    package, so the owner of any single key pair can answer any query, for any
    checkpoint and any leaf, with a response that is accepted as verified. *)
Theorem forged_response_accepted `{!CryptoLaws} (small : bool) (c leaf : string)
    (cp : Checkpoint) (sk : SigningKey) :
  let pk := hex_encode (vk_bytes (sk_verifying_key sk)) in
  clean_key pk = pk →
  (∀ s, trim_0x (hex_encode (sig_bytes s)) = hex_encode (sig_bytes s)) →
  verify_package small c (forged_response cp pk leaf sk) cp = Ok true.
Proof.
  intros pk Hpk Hsig. pose proof (forged_certificate small cp leaf sk Hpk Hsig) as Hcert.
  cbn zeta in Hcert. fold pk in Hcert. unfold verify_package. rewrite Hcert. clear Hcert. simpl.
  unfold proof_verify. simpl. rewrite String.eqb_refl. simpl.
  rewrite (proj2 (verify_header_Ok _ _ _)) by done. simpl.
  rewrite filter_cons, filter_nil. simpl.
  rewrite (proj2 (N.ltb_lt _ _)) by lia. simpl. rewrite String.eqb_refl, N.eqb_refl. simpl.
  rewrite (proj2 (verify_header_Ok _ _ _)) by done. simpl. rewrite String.eqb_refl. done.
Qed.

(** Engine and light client read the small-cluster switch differently: with the
    variable set to [on] the engine finalises a three-validator block on two
    signatures while the light client demands three. *)
Theorem small_cluster_flag_divergence :
  let env := λ _ : string, Some "on" in
  quorum_threshold 3 (allow_small_cluster_quorum (default_config env)) = 2
  ∧ lc_quorum 3 (lc_small_cluster_flag env) = 3.
Proof. by vm_compute. Qed.

(** Offline members shrink the engine's quorum only: the engine counts validators
    whose status is [online] or [self], the light client every listed one, so with
    one of four validators online a single signature finalises a block that light
    clients reject for want of three. *)
Theorem offline_members_shrink_quorum :
  ∃ cs : CommonValidatorSet, length (validators cs) = 4
    ∧ NoDup (val_id <$> validators cs)
    ∧ quorum_threshold (vset_len (vset_from cs)) false = 1
    ∧ lc_quorum (length (validators cs)) false = 3.
Proof.
  set (mk := λ id st, {| val_id := id; val_alias := ""; val_pubkey := id; val_eth_address := "";
    val_stake := 1; val_reputation := 50; val_status := st |}).
  exists {| validators := [mk "a" "online"; mk "b" "offline"; mk "c" "offline"; mk "d" "offline"] |}.
  split; [done|]. split; [by apply (bool_decide_unpack _); vm_compute|]. by vm_compute.
Qed.

End LightClient.

(** ** Witnesses *)
Module LightClientExamples.
Import Toy ToySerde PbftExamples.

Definition vals4 : CommonValidatorSet := {| validators :=
  (λ id, {| val_id := id; val_alias := ""; val_pubkey := pk id; val_eth_address := "";
            val_stake := 100; val_reputation := 50; val_status := "online" |})
  <$> ["v1"; "v2"; "v3"; "v4"] |}.

Definition lc_primary : string :=
  default "" (select_proposer_deterministic (proposer_candidates (vset_from vals4)) "genesis").

Definition lc_block : Block := {|
  header := {| height := 1; prev_hash := "genesis"; header_merkle_root := "leaf";
    proposer_id := lc_primary; timestamp := 0;
    validator_set_hash := compute_validator_set_hash (validators vals4);
    vrf_output := None; vrf_proof := None |};
  transactions := []; pbft_signatures := [] |}.

Definition lc_ops : list (N * RoundOp) :=
  (1%N, RPrePrepare lc_primary)
  :: ((λ v, (2%N, RPrepare v.1 v.2)) <$> (vote "prepare" lc_block <$> ids))
  ++ ((λ v, (2%N, RCommit v.1 v.2)) <$> (vote "commit" lc_block <$> ids)).

Definition lc_round0 : PbftRound := with_config 1 lc_block (vset_from vals4) cfg.
Definition lc_round : PbftRound := run_round lc_round0 lc_ops.

Lemma lc_round_reachable : reachable lc_block (vset_from vals4) cfg lc_round.
Proof.
  exact (reachable_run lc_block (vset_from vals4) cfg lc_round0 lc_ops
    (reach_init lc_block (vset_from vals4) cfg 1)).
Qed.

Lemma finalised_block_light_verified_witness :
  verify_pbft_consensus (allow_small_cluster_quorum cfg) (block_hash lc_block) (header lc_block)
    (validators vals4) (finalised_signatures lc_round) = Ok tt.
Proof.
  apply (finalised_block_light_verified vals4 cfg lc_block lc_round).
  - exact lc_round_reachable.
  - vm_compute. reflexivity.
  - done.
  - by apply (bool_decide_unpack _); vm_compute.
  - by apply (bool_decide_unpack _); vm_compute.
  - by apply (bool_decide_unpack _); vm_compute.
  - vm_compute. reflexivity.
Defined.

Lemma light_certificate_sound_witness :
  compute_validator_set_hash (validators vals4) = validator_set_hash (header lc_block).
Proof.
  refine (proj1 (light_certificate_sound false (block_hash lc_block) (header lc_block)
    (validators vals4) (finalised_signatures lc_round) _)).
  vm_compute. reflexivity.
Defined.

Definition toy_sk : string := Toy.fit 32 "mallory".

Definition cp0 : Checkpoint := {| cp_height := 7; cp_hash := "cp" |}.

Definition forged : LightClientResponse :=
  @forged_response toy_crypto toy_serde cp0 (hex_encode toy_sk) "leaf" toy_sk.

(** Toy hexadecimal text never starts with [0x]. *)
Lemma toy_hex_no_0x (s : string) : trim_0x (Toy.encode s) = Toy.encode s.
Proof.
  destruct s as [|c s]; [done|]. unfold trim_0x. cbn [Toy.encode].
  destruct c as [[] [] [] [] [] [] [] []]; reflexivity.
Qed.

Lemma forged_response_accepted_witness :
  verify_package false "npm:left-pad@1.0.0"
    (@forged_response toy_crypto toy_serde cp0 (hex_encode toy_sk) "leaf" toy_sk) cp0 = Ok true.
Proof.
  apply (@forged_response_accepted toy_crypto toy_serde toy_crypto_laws false "npm:left-pad@1.0.0"
    "leaf" cp0 toy_sk).
  - vm_compute. reflexivity.
  - intros s. apply toy_hex_no_0x.
Defined.

Lemma verify_package_sound_witness :
  verify_package false "npm:left-pad@1.0.0" forged cp0 = Ok true
  ∧ header_hash (resp_block_header forged) = resp_block_hash forged.
Proof.
  split; [vm_compute; reflexivity|].
  refine (proj1 (proj2 (verify_package_sound false "npm:left-pad@1.0.0" forged cp0 _))).
  vm_compute. reflexivity.
Defined.

End LightClientExamples.
