(* ===== verification/PendingPool.v ===== *)
(** The pool of submitted packages ([crates/node/src/pending_pool.rs]).

    The pool file is the map it decodes to, rewritten after each mutation; failed
    writes and corrupt files are not modelled.  [Utc::now()] is the argument
    [now], in nanoseconds; the [u32] attempt counter is an [N]
    that wraps, as in release builds. *)

From S2P Require Import Prelude Text Types.

Record PendingEntry := {
  pe_request : PublishRequest;
  pe_received_at : Z;
  attempt_count : N;
  in_progress : bool;
}.

(** The entries in memory and the last persisted snapshot. *)
Record PendingPool := {
  entries : gmap string PendingEntry;
  file : gmap string PendingEntry;
}.

Definition release (e : PendingEntry) : PendingEntry := {|
  pe_request := pe_request e; pe_received_at := pe_received_at e;
  attempt_count := attempt_count e; in_progress := false |}.

(** [PendingPool::open]: entries come back eligible. *)
Definition pool_open (f : gmap string PendingEntry) : PendingPool :=
  {| entries := release <$> f; file := f |}.

Definition persist (p : PendingPool) : PendingPool :=
  {| entries := entries p; file := entries p |}.

Definition set_entries (p : PendingPool) (m : gmap string PendingEntry) : PendingPool :=
  {| entries := m; file := file p |}.

Definition fresh_entry (now : Z) (request : PublishRequest) : PendingEntry := {|
  pe_request := request; pe_received_at := now; attempt_count := 0; in_progress := false |}.

Definition pool_insert (now : Z) (p : PendingPool) (request : PublishRequest)
    : PendingPool * bool :=
  let key := canonical (req_id request) in
  let duplicate :=
    match entries p !! key with
    | Some existing => String.eqb (req_content_hash (pe_request existing)) (req_content_hash request)
    | None => false
    end in
  if duplicate then (p, false)
  else (persist (set_entries p (<[key := fresh_entry now request]> (entries p))), true).

Definition pool_contains (p : PendingPool) (c : string) : bool :=
  bool_decide (is_Some (entries p !! c)).

Definition pool_get (p : PendingPool) (c : string) : option PendingEntry := entries p !! c.

Definition pool_remove (p : PendingPool) (c : string) : PendingPool * option PendingEntry :=
  match entries p !! c with
  | Some e => (persist (set_entries p (delete c (entries p))), Some e)
  | None => (p, None)
  end.

Definition five_minutes : Z := 300000000000.

Definition is_eligible (now : Z) (e : PendingEntry) : bool :=
  negb (in_progress e) || (pe_received_at e <? now - five_minutes)%Z.

Definition take_entry (e : PendingEntry) : PendingEntry := {|
  pe_request := pe_request e; pe_received_at := pe_received_at e;
  attempt_count := (attempt_count e + 1) mod 2 ^ 32; in_progress := true |}.

Definition ready_for_validation (now : Z) (p : PendingPool)
    : PendingPool * list PublishRequest :=
  let requests := pe_request <$> filter (λ e, is_eligible now e = true) (hm_values (entries p)) in
  let p := set_entries p ((λ e, if is_eligible now e then take_entry e else e) <$> entries p) in
  match requests with
  | [] => (p, [])
  | _ => (persist p, requests)
  end.

Definition pool_len (p : PendingPool) : nat := size (entries p).
Definition all_canonicals (p : PendingPool) : list string := hm_keys (entries p).

Inductive PoolOp :=
| PInsert (now : Z) (request : PublishRequest)
| PRemove (c : string)
| PReady (now : Z)
| PRestart.

Definition pool_apply (p : PendingPool) (op : PoolOp) : PendingPool :=
  match op with
  | PInsert now r => (pool_insert now p r).1
  | PRemove c => (pool_remove p c).1
  | PReady now => (ready_for_validation now p).1
  | PRestart => pool_open (file p)
  end.

(** Entries sit under the canonical name of their request, and the file agrees with
    memory up to the progress flag. *)
Definition pool_ok (p : PendingPool) : Prop :=
  map_Forall (λ k e, canonical (req_id (pe_request e)) = k) (entries p)
  ∧ release <$> file p = release <$> entries p.

Lemma release_idemp (e : PendingEntry) : release (release e) = release e.
Proof. done. Qed.

Lemma ready_noop (now : Z) (m : gmap string PendingEntry) :
  filter (λ e, is_eligible now e = true) (hm_values m) = [] →
  (λ e, if is_eligible now e then take_entry e else e) <$> m = m.
Proof.
  intros Hnil. apply map_eq. intros k. rewrite lookup_fmap.
  destruct (m !! k) as [e|] eqn:He; [|done]. simpl.
  destruct (is_eligible now e) eqn:Hel; [|done]. exfalso.
  assert (e ∈ filter (λ e, is_eligible now e = true) (hm_values m)) as Hin.
  { apply list_elem_of_filter. split; [done|]. apply elem_of_hm_values. eauto. }
  rewrite Hnil in Hin. by apply not_elem_of_nil in Hin.
Qed.

Lemma pool_ok_apply (p : PendingPool) (op : PoolOp) : pool_ok p → pool_ok (pool_apply p op).
Proof.
  intros [Hk Hf]. destruct op as [now r|c|now|]; simpl.
  - unfold pool_insert. case_match; [done|]. split; simpl; [|done].
    by apply map_Forall_insert_2.
  - unfold pool_remove. destruct (entries p !! c) eqn:Hc; [|done]. split; simpl; [|done].
    by apply map_Forall_delete.
  - unfold ready_for_validation. set (m := _ <$> entries p).
    assert (map_Forall (λ k e, canonical (req_id (pe_request e)) = k) m) as Hm.
    { intros k e. unfold m. rewrite lookup_fmap. intros (e0 & He0 & ->)%fmap_Some.
      destruct (is_eligible now e0); simpl; by apply Hk. }
    destruct (pe_request <$> filter _ _) as [|x l] eqn:Hl; simpl; [|done].
    apply fmap_nil_inv, ready_noop in Hl. split; [done|]. simpl. unfold m. rewrite Hf. by rewrite Hl.
  - split; simpl.
    + intros k e. rewrite lookup_fmap. intros (e0 & He0 & ->)%fmap_Some. simpl.
      assert ((release <$> entries p) !! k = Some (release e0)) as He.
      { rewrite <- Hf, lookup_fmap, He0. done. }
      rewrite lookup_fmap in He. apply fmap_Some in He as (e1 & He1 & Heq).
      pose proof (Hk _ _ He1) as Hkey. by injection Heq as ->.
    + apply map_eq. intros k. rewrite !lookup_fmap. by destruct (file p !! k).
Qed.

(** No submission is lost in a restart: after any history of submissions, removals,
    dispatches and earlier restarts, reopening the pool from its file restores every
    pending entry, with its submission time and attempts, and makes it eligible
    again. *)
Theorem restart_restores_pool (ops : list PoolOp) :
  let p := foldl pool_apply (pool_open ∅) ops in
  entries (pool_open (file p)) = release <$> entries p
  ∧ map_Forall (λ k e, canonical (req_id (pe_request e)) = k) (entries p).
Proof.
  intros p. assert (pool_ok p) as [Hk Hf]; [|done].
  unfold p. generalize (pool_open ∅) (conj (map_Forall_empty _) eq_refl : pool_ok (pool_open ∅)).
  induction ops as [|op ops IH]; intros p0 Hp0; [done|]. simpl. apply IH. by apply pool_ok_apply.
Qed.

(** Dispatch hands out every eligible request once and marks it: each entry that was
    eligible is returned and is in progress with one more attempt, and the others
    are untouched. *)
Theorem ready_dispatches_eligible (now : Z) (p : PendingPool) (k : string) (e : PendingEntry) :
  entries p !! k = Some e →
  let '(p', reqs) := ready_for_validation now p in
  (is_eligible now e = true → pe_request e ∈ reqs ∧ entries p' !! k = Some (take_entry e))
  ∧ (is_eligible now e = false → entries p' !! k = Some e)
  ∧ length reqs = count (is_eligible now) (hm_values (entries p)).
Proof.
  intros He. unfold ready_for_validation.
  set (reqs := pe_request <$> filter (λ e, is_eligible now e = true) (hm_values (entries p))).
  assert (is_eligible now e = true → pe_request e ∈ reqs) as Hin.
  { intros Hel. apply list_elem_of_fmap. exists e. split; [done|]. apply list_elem_of_filter.
    split; [done|]. apply elem_of_hm_values. eauto. }
  assert (((λ e, if is_eligible now e then take_entry e else e) <$> entries p) !! k
          = Some (if is_eligible now e then take_entry e else e)) as Hk
    by by rewrite lookup_fmap, He.
  assert (length reqs = count (is_eligible now) (hm_values (entries p))) as Hlen
    by apply length_fmap.
  assert (is_eligible now e = false → (if is_eligible now e then take_entry e else e) = e) as Hf
    by by intros ->.
  assert (is_eligible now e = true → (if is_eligible now e then take_entry e else e) = take_entry e)
    as Ht by by intros ->.
  destruct reqs as [|x l]; simpl; rewrite Hk;
    (split_and!; [intros Hel; split; [by apply Hin|by rewrite Ht]
                 |intros Hel; by rewrite Hf|exact Hlen]).
Qed.

(** Packages older than five minutes are dispatched again at once: eligibility of an
    entry in progress is measured from its submission, not from its dispatch, so two
    successive calls both return the same old request. *)
Theorem old_entry_dispatched_twice (now now' : Z) (p : PendingPool) (k : string)
    (e : PendingEntry) :
  entries p !! k = Some e → (pe_received_at e + five_minutes < now)%Z → (now ≤ now')%Z →
  let '(p', reqs) := ready_for_validation now p in
  pe_request e ∈ reqs ∧ pe_request e ∈ (ready_for_validation now' p').2.
Proof.
  intros He Hold Hle.
  assert (∀ t q e', entries q !! k = Some e' → pe_request e' = pe_request e →
    is_eligible t e' = true → pe_request e ∈ (ready_for_validation t q).2
    ∧ entries (ready_for_validation t q).1 !! k = Some (take_entry e')) as Hgen.
  { intros t q e' Hq <- Hel.
    assert (pe_request e' ∈ pe_request <$> filter (λ e, is_eligible t e = true) (hm_values (entries q)))
      as Hin.
    { apply list_elem_of_fmap. exists e'. split; [done|]. apply list_elem_of_filter.
      split; [done|]. apply elem_of_hm_values. eauto. }
    unfold ready_for_validation.
    destruct (pe_request <$> filter _ _) as [|x l]; [by apply not_elem_of_nil in Hin|].
    split; [done|]. simpl. rewrite lookup_fmap, Hq. simpl. by rewrite Hel. }
  destruct (Hgen now p e) as [H1 H2]; [done|done| |].
  { unfold is_eligible. rewrite (proj2 (Z.ltb_lt _ _)); [apply orb_true_r|lia]. }
  destruct (ready_for_validation now p) as [p' reqs]. simpl in H1, H2. split; [done|].
  apply (Hgen now' p' (take_entry e)); [done|done|].
  unfold is_eligible. simpl. apply Z.ltb_lt. lia.
Qed.

(** ** Witnesses *)
Module PendingPoolExamples.

Definition req : PublishRequest := {|
  req_id := {| ecosystem := "npm"; name := "a"; version := "1" |};
  req_content_hash := "h"; req_ipfs_cid := ""; req_publisher_address := "";
  req_publisher_pubkey := ""; req_signature := "";
  req_manifest := {| allowed_network_hosts := []; allowed_fs_writes := [];
    spawns_processes := false; allowed_process_spawns := []; description := None |};
  req_submitted_at := 0; req_shielded := false; req_key_bundle := None;
  req_pgp_signature := None; req_pgp_public_key := None; req_threshold := 1;
  req_publisher_pubkeys := []; req_signatures := [] |}.

Definition pool1 : PendingPool := (pool_insert 0 (pool_open ∅) req).1.

Lemma ready_dispatches_eligible_witness :
  pe_request (fresh_entry 0 req) ∈ (ready_for_validation 1 pool1).2.
Proof.
  pose proof (ready_dispatches_eligible 1 pool1 "npm:a@1" (fresh_entry 0 req) eq_refl) as Hr.
  destruct (ready_for_validation 1 pool1) as [p' reqs]. by apply Hr.
Defined.

Lemma old_entry_dispatched_twice_witness :
  let '(p', reqs) := ready_for_validation 400000000000 pool1 in
  pe_request (fresh_entry 0 req) ∈ reqs
  ∧ pe_request (fresh_entry 0 req) ∈ (ready_for_validation 400000000001 p').2.
Proof.
  apply (old_entry_dispatched_twice 400000000000 400000000001 pool1 "npm:a@1" (fresh_entry 0 req));
    [reflexivity|by vm_compute|by vm_compute].
Defined.

End PendingPoolExamples.
