(* ===== verification/NodeState.v ===== *)
(** The consensus side of a running node: the gossip handlers of
    [crates/node/src/p2p.rs] and the block producer of
    [crates/node/src/block_producer.rs] over the shared [NodeState].

    Each handler is a state transformer that also returns the messages it
    publishes, in order.  A handler is atomic: the source holds the write lock while
    it changes the state, and the reads it makes under an earlier read lock (the
    validator set, the tip of the producer) are taken to be of the same state; a
    view-change message that finds the lock taken is dropped.  Decoding of the JSON
    payload, peer scoring, rate limits and the event bus are not modelled.  [now] is
    the monotonic clock of the PBFT engine and [utc] the wall clock. *)

From S2P Require Import Prelude Text Crypto Types Merkle ValidatorSet Vrf Pbft VoteAccumulator.
From S2P Require Import EvidenceVotes ChainStore PublisherIndex Sync LightClient PendingPool.

(** [common::GossipMessage]; a registration only reaches the validator registry. *)
Inductive GossipMessage :=
| GPublishRequest (request : PublishRequest)
| GVrfProof (validator_id pubkey epoch_seed output proof : string)
| GViewChange (block_hash : string) (new_view : N) (validator_id signature : string)
| GPbftPrePrepare (block : Block)
| GPbftPrepare (block_hash validator_id signature : string)
| GPbftCommit (block_hash validator_id signature : string)
| GValidatorRegistration (evm_address node_id ed25519_pubkey : string) (alias : option string)
    (nonce evm_signature ed25519_signature : string).

(** [gossip::VoteGossip] *)
Record VoteGossip := {
  consensus_subject : string;
  vg_content_hash : string;
  vg_validator_id : string;
  vg_validator_pubkey : string;
  vg_ml_model_version : string;
  vg_analysis_bundles : AnalysisBundleRefs;
  vg_evidence_digest : string;
  vg_deterministic_risk : DeterministicRiskSummary;
  vg_phase : string;
  vg_approved : bool;
  vg_reject_reason : option string;
  vg_signature : string;
}.

Inductive PbftValidationError :=
| PUnknownValidator
| PMissingValidatorPubkey
| PSignatureVerificationFailed.

Inductive VoteValidationError :=
| UnknownValidator
| MissingValidatorPubkey
| ValidatorPubkeyMismatch
| InvalidValidatorPubkeyHex
| InvalidValidatorPubkey
| MissingConsensusEvidence
| BadSignatureHex
| BadSignatureFormat
| SignatureVerificationFailed.

(** The fields of [NodeState] that consensus reads and writes; [core] holds those
    shared with synchronisation. *)
Record NodeState := {
  core : Node;
  pbft_engine : PbftEngine;
  cfg_node_id : string;
  cfg_privkey : option string;
  vrf_proofs : gmap string (string * string);
  view_change_certs : gmap string (gmap N (gset string));
  package_rounds : gmap string PackageRound;
  pending_pool : PendingPool;
}.

(** Field assignments. *)
Definition set_core (st : NodeState) (n : Node) : NodeState := {|
  core := n; pbft_engine := pbft_engine st; cfg_node_id := cfg_node_id st;
  cfg_privkey := cfg_privkey st; vrf_proofs := vrf_proofs st;
  view_change_certs := view_change_certs st; package_rounds := package_rounds st;
  pending_pool := pending_pool st |}.

Definition set_engine (st : NodeState) (e : PbftEngine) : NodeState := {|
  core := core st; pbft_engine := e; cfg_node_id := cfg_node_id st;
  cfg_privkey := cfg_privkey st; vrf_proofs := vrf_proofs st;
  view_change_certs := view_change_certs st; package_rounds := package_rounds st;
  pending_pool := pending_pool st |}.

Definition set_vrf_proofs (st : NodeState) (m : gmap string (string * string)) : NodeState := {|
  core := core st; pbft_engine := pbft_engine st; cfg_node_id := cfg_node_id st;
  cfg_privkey := cfg_privkey st; vrf_proofs := m;
  view_change_certs := view_change_certs st; package_rounds := package_rounds st;
  pending_pool := pending_pool st |}.

Definition set_certs (st : NodeState) (m : gmap string (gmap N (gset string))) : NodeState := {|
  core := core st; pbft_engine := pbft_engine st; cfg_node_id := cfg_node_id st;
  cfg_privkey := cfg_privkey st; vrf_proofs := vrf_proofs st;
  view_change_certs := m; package_rounds := package_rounds st;
  pending_pool := pending_pool st |}.

Definition set_rounds_pool (st : NodeState) (m : gmap string PackageRound) (p : PendingPool)
    : NodeState := {|
  core := core st; pbft_engine := pbft_engine st; cfg_node_id := cfg_node_id st;
  cfg_privkey := cfg_privkey st; vrf_proofs := vrf_proofs st;
  view_change_certs := view_change_certs st; package_rounds := m; pending_pool := p |}.

(** [validators.iter().find(|v| v.id == id)] *)
Definition find_validator (vs : CommonValidatorSet) (id : string) : option Validator :=
  snd <$> list_find (λ v, val_id v = id) (validators vs).

Section Handlers.
Context `{!Crypto, !Serde}.

Definition node_set (st : NodeState) : CommonValidatorSet := node_validator_set (core st).

(** [hex::decode(privkey)] and [SigningKey::try_from]. *)
Definition signing_key (st : NodeState) : option SigningKey :=
  privkey_hex ← cfg_privkey st; pk_bytes ← hex_decode privkey_hex; sk_try_from pk_bytes.

(** The node's own vote for a phase of a block. *)
Definition own_vote (st : NodeState) (sk : SigningKey) (ph bh : string) : BlockSignature := {|
  bs_validator_id := cfg_node_id st;
  bs_pubkey := hex_encode (vk_bytes (sk_verifying_key sk));
  bs_signature := hex_encode (sig_bytes (sign sk (pbft_signature_message ph bh))) |}.

Definition validate_pbft_phase_message (vs : CommonValidatorSet)
    (ph bh vid signature_hex : string) : result PbftValidationError BlockSignature :=
  validator ← ok_or PUnknownValidator (find_validator vs vid);
  _ ← ensure (negb (is_empty (val_pubkey validator))) PMissingValidatorPubkey;
  _ ← map_err (λ _, PSignatureVerificationFailed)
        (verify_pbft_phase_signature ph bh (val_pubkey validator) signature_hex);
  Ok {| bs_validator_id := vid; bs_pubkey := val_pubkey validator;
        bs_signature := signature_hex |}.

(** Adoption of a finalised block: [insert_block_with_outcome], the reorg log and the
    publisher index. *)
Definition adopt (utc : Z) (n : Node) (final_block : Block) : Node :=
  let '(c, outcome) := insert_block_with_outcome (chain n) final_block in
  let n := set_chain n c (publisher_index n) in
  let n := match replaced_hash outcome with
           | Some replaced => record_reorg n 1 [replaced] (outcome_hash outcome)
           | None => n
           end in
  set_chain n (chain n) (apply_block utc (publisher_index n) final_block).

(** Adoption of the block of a round that has just been finalised. *)
Definition adopt_finalised (utc : Z) (st : NodeState) (bh : string) : NodeState :=
  match get_finalised_block (pbft_engine st) bh with
  | Some final_block => set_core st (adopt utc (core st) final_block)
  | None => st
  end.

(** ** Topic [blocks] *)

Definition on_pre_prepare (now : N) (st : NodeState) (b : Block)
    : NodeState * list GossipMessage :=
  match start_round now (pbft_engine st) b (vset_from (node_set st)) with
  | (_, Err _) => (st, [])
  | (e, Ok _) =>
      let st := set_engine st e in
      match signing_key st with
      | None => (st, [])
      | Some sk =>
          let bh := block_hash b in
          let vote := own_vote st sk "prepare" bh in
          let e := (engine_prepare now (pbft_engine st) bh (cfg_node_id st) vote).1 in
          (set_engine st e, [GPbftPrepare bh (cfg_node_id st) (bs_signature vote)])
      end
  end.

Definition on_prepare (now : N) (st : NodeState) (bh vid signature_hex : string)
    : NodeState * list GossipMessage :=
  match validate_pbft_phase_message (node_set st) "prepare" bh vid signature_hex with
  | Err _ => (st, [])
  | Ok sig =>
      match engine_prepare now (pbft_engine st) bh vid sig with
      | (e, Ok true) =>
          let st := set_engine st e in
          match signing_key st with
          | None => (st, [])
          | Some sk =>
              let vote := own_vote st sk "commit" bh in
              let e := (engine_commit (pbft_engine st) bh (cfg_node_id st) vote).1 in
              (set_engine st e, [GPbftCommit bh (cfg_node_id st) (bs_signature vote)])
          end
      | (e, _) => (set_engine st e, [])
      end
  end.

Definition on_commit (utc : Z) (st : NodeState) (bh vid signature_hex : string)
    : NodeState * list GossipMessage :=
  match validate_pbft_phase_message (node_set st) "commit" bh vid signature_hex with
  | Err _ => (st, [])
  | Ok sig =>
      match engine_commit (pbft_engine st) bh vid sig with
      | (e, Ok true) => (adopt_finalised utc (set_engine st e) bh, [])
      | (e, _) => (set_engine st e, [])
      end
  end.

Definition on_block_message (now : N) (utc : Z) (st : NodeState) (msg : GossipMessage)
    : NodeState * list GossipMessage :=
  match msg with
  | GPbftPrePrepare b => on_pre_prepare now st b
  | GPbftPrepare bh vid signature_hex => on_prepare now st bh vid signature_hex
  | GPbftCommit bh vid signature_hex => on_commit utc st bh vid signature_hex
  | _ => (st, [])
  end.

(** ** Topic [votes] *)

Definition validate_vote_gossip_message (vote : VoteGossip) (vs : CommonValidatorSet)
    : result VoteValidationError VoteGossip :=
  validator ← ok_or UnknownValidator (find_validator vs (vg_validator_id vote));
  _ ← ensure (negb (is_empty (val_pubkey validator))) MissingValidatorPubkey;
  _ ← ensure (String.eqb (vg_validator_pubkey vote) (val_pubkey validator))
        ValidatorPubkeyMismatch;
  _ ← ensure (is_consensus_grade_vote (vg_ml_model_version vote) (vg_analysis_bundles vote)
                (vg_evidence_digest vote)) MissingConsensusEvidence;
  pubkey_bytes ← ok_or InvalidValidatorPubkeyHex (hex_decode (vg_validator_pubkey vote));
  verifying_key ← ok_or InvalidValidatorPubkey (vk_try_from pubkey_bytes);
  signature_bytes ← ok_or BadSignatureHex (hex_decode (vg_signature vote));
  signature ← ok_or BadSignatureFormat (sig_try_from signature_bytes);
  let message :=
    canonical_vote_message (consensus_subject vote) (vg_content_hash vote) (vg_approved vote)
      (vg_validator_pubkey vote)
      (scanner_profile_digest (vg_ml_model_version vote) (vg_analysis_bundles vote))
      (vg_evidence_digest vote) in
  _ ← ensure (verify verifying_key message signature) SignatureVerificationFailed;
  Ok vote.

Definition vote_gossip_to_signature (utc : Z) (vote : VoteGossip) : ValidatorSignature := {|
  vs_validator_id := vg_validator_id vote;
  vs_validator_pubkey := vg_validator_pubkey vote;
  vs_signature := vg_signature vote;
  vs_vote := if vg_approved vote then Approve else Reject (default "" (vg_reject_reason vote));
  vs_signed_at := utc;
  vs_ml_model_version := vg_ml_model_version vote;
  vs_analysis_bundles := vg_analysis_bundles vote;
  vs_evidence_digest := vg_evidence_digest vote;
  vs_deterministic_risk := vg_deterministic_risk vote |}.

Definition on_vote (utc : Z) (st : NodeState) (vote : VoteGossip) : NodeState :=
  match validate_vote_gossip_message vote (node_set st) with
  | Ok vote =>
      set_rounds_pool st
        (record_package_vote utc (package_rounds st) (consensus_subject vote)
           (vote_gossip_to_signature utc vote))
        (pending_pool st)
  | Err _ => st
  end.

(** ** Topics [vrf-proofs], [view-change] and [submissions] *)

Definition on_vrf_proof (st : NodeState) (validator_id pubkey epoch_seed output proof : string)
    : NodeState :=
  if String.eqb epoch_seed (tip_hash (chain (core st))) then
    match vrf_verify epoch_seed pubkey output proof with
    | Err _ => st
    | Ok _ => set_vrf_proofs st (<[validator_id := (output, proof)]> (vrf_proofs st))
    end
  else st.

(** The closure that checks a view-change certificate. *)
Definition view_change_sig_valid (vs : CommonValidatorSet) (bh : string) (new_view : N)
    (vid signature_hex : string) : bool :=
  let msg := bh +:+ ":view_change:" +:+ fmt_N new_view in
  default false (
    validator ← find_validator vs vid;
    pk_bytes ← hex_decode (val_pubkey validator);
    vk ← vk_try_from pk_bytes;
    raw ← hex_decode signature_hex;
    sig ← sig_try_from raw;
    Some (verify vk msg sig)).

(** The second component is the logged verdict: the view change is authorised. *)
Definition on_view_change (st : NodeState) (bh : string) (new_view : N)
    (vid signature_hex : string) : NodeState * bool :=
  if view_change_sig_valid (node_set st) bh new_view vid signature_hex then
    let threshold := length (validators (node_set st)) / 3 + 1 in
    let by_block := default ∅ (view_change_certs st !! bh) in
    let by_view := default ∅ (by_block !! new_view) ∪ {[vid]} in
    (set_certs st (<[bh := <[new_view := by_view]> by_block]> (view_change_certs st)),
     (threshold <=? size by_view)%nat)
  else (st, false).

(** [admitted] is the verdict of the YARA gate, which runs before the lock is taken. *)
Definition on_submission (utc : Z) (admitted : bool) (st : NodeState) (request : PublishRequest)
    : NodeState :=
  if admitted && negb (pool_contains (pending_pool st) (canonical (req_id request)))
  then set_rounds_pool st (package_rounds st) (pool_insert utc (pending_pool st) request).1
  else st.

End Handlers.

(** ** block_producer.rs *)

Inductive ProduceError :=
| ProveFailed (e : VrfError)
| NoActiveProposer
| NotItsTurn (rank effective_rank : nat)
| NotInProposerSet
| RoundRefused (e : PbftError).

(** [CREG_PROPOSER_FALLBACK_SECS], else twice the block interval, at least 1. *)
Definition fallback_window_secs (env : string → option string) (block_interval : N) : N :=
  match env "CREG_PROPOSER_FALLBACK_SECS" ≫= (λ v, parse_uint u64_max (trim v)) with
  | Some n => if (0 <? n)%N then n else N.max (N.min (block_interval * 2) u64_max) 1
  | None => N.max (N.min (block_interval * 2) u64_max) 1
  end.

(** The loop variables of [run]; times in seconds. *)
Record ProducerLoop := { last_seen_tip : N; tip_unchanged_since : N }.

Definition observe_tip (now_secs tip : N) (l : ProducerLoop) : ProducerLoop :=
  if (tip =? last_seen_tip l)%N then l
  else {| last_seen_tip := tip; tip_unchanged_since := now_secs |}.

Definition allowed_fallback_rank (now_secs window : N) (l : ProducerLoop) : nat :=
  N.to_nat ((now_secs - tip_unchanged_since l) / window).

Definition set_vrf_data (v : VrfValidator) (out prf : string) : VrfValidator := {|
  vrf_id := vrf_id v; vrf_pubkey := vrf_pubkey v;
  vrf_val_output := Some out; vrf_val_proof := Some prf |}.

(** The turn rule: the primary always proceeds, another rank only when it is the
    promoted one. *)
Definition proposer_turn (ranking : list string) (id : string) (allowed : nat)
    : result ProduceError unit :=
  if (length ranking =? 0)%nat then Err NoActiveProposer
  else
    let effective_rank := Nat.min allowed (length ranking - 1) in
    match position id ranking with
    | Some O => Ok tt
    | Some rank => ensure (rank =? effective_rank)%nat (NotItsTurn rank effective_rank)
    | None => Err NotInProposerSet
    end.

Section Producer.
Context `{!Crypto, !Serde}.

Definition is_online (v : Validator) : bool :=
  String.eqb (val_status v) "online" || String.eqb (val_status v) "self".

(** An active validator with the VRF proof cached for it. *)
Definition cached_candidate (st : NodeState) (v : Validator) : VrfValidator := {|
  vrf_id := val_id v; vrf_pubkey := val_pubkey v;
  vrf_val_output := fst <$> vrf_proofs st !! val_id v;
  vrf_val_proof := snd <$> vrf_proofs st !! val_id v |}.

Definition active_candidates (st : NodeState) : list VrfValidator :=
  cached_candidate st <$> filter (λ v, is_online v = true) (validators (node_set st)).

Definition inject_proof (id out prf : string) (l : list VrfValidator) : list VrfValidator :=
  (λ v, if String.eqb (vrf_id v) id then set_vrf_data v out prf else v) <$> l.

(** The selection step: the messages sent and the VRF fields of the header. *)
Definition select_turn (st : NodeState) (allowed : nat)
    : list GossipMessage * result ProduceError (option (string * string)) :=
  let epoch_seed := tip_hash (chain (core st)) in
  let active := active_candidates st in
  match active, cfg_privkey st with
  | _ :: _, Some privkey =>
      match vrf_prove epoch_seed privkey with
      | Err e => ([], Err (ProveFailed e))
      | Ok (out, prf) =>
          let active := inject_proof (cfg_node_id st) out prf active in
          let our_pubkey := default "" (val_pubkey <$> find_validator (node_set st) (cfg_node_id st)) in
          let msg := GVrfProof (cfg_node_id st) our_pubkey epoch_seed out prf in
          match proposer_turn (rank_proposers active epoch_seed) (cfg_node_id st) allowed with
          | Err e => ([msg], Err e)
          | Ok _ => ([msg], Ok (Some (out, prf)))
          end
      end
  | _, _ => ([], Ok None)
  end.

Definition build_block (utc : Z) (st : NodeState) (txs : list Transaction)
    (vrf : option (string * string)) : Block := {|
  header := {|
    height := tip_height (chain (core st)) + 1;
    prev_hash := tip_hash (chain (core st));
    header_merkle_root := merkle_root txs;
    proposer_id := cfg_node_id st;
    timestamp := utc;
    validator_set_hash := compute_validator_set_hash (validators (node_set st));
    vrf_output := fst <$> vrf;
    vrf_proof := snd <$> vrf |};
  transactions := txs;
  pbft_signatures := [] |}.

(** The proposer's own PREPARE and, on a prepare quorum, COMMIT. *)
Definition cast_own_votes (now : N) (utc : Z) (st : NodeState) (sk : SigningKey) (bh : string)
    : NodeState * list GossipMessage :=
  let id := cfg_node_id st in
  let prep := own_vote st sk "prepare" bh in
  let prep_msg := GPbftPrepare bh id (bs_signature prep) in
  match engine_prepare now (pbft_engine st) bh id prep with
  | (e, Ok true) =>
      let com := own_vote st sk "commit" bh in
      let com_msg := GPbftCommit bh id (bs_signature com) in
      match engine_commit e bh id com with
      | (e, Ok true) => (adopt_finalised utc (set_engine st e) bh, [prep_msg; com_msg])
      | (e, _) => (set_engine st e, [prep_msg; com_msg])
      end
  | (e, _) => (set_engine st e, [prep_msg])
  end.

Definition produce_block (now : N) (utc : Z) (st : NodeState) (txs : list Transaction)
    (allowed : nat) : NodeState * list GossipMessage * result ProduceError Block :=
  match select_turn st allowed with
  | (msgs, Err e) => (st, msgs, Err e)
  | (msgs, Ok vrf) =>
      let block := build_block utc st txs vrf in
      match start_round now (pbft_engine st) block (vset_from (node_set st)) with
      | (_, Err e) => (st, msgs, Err (RoundRefused e))
      | (e, Ok _) =>
          let st := set_engine st e in
          let '(st, votes) :=
            match signing_key st with
            | Some sk => cast_own_votes now utc st sk (block_hash block)
            | None => (st, [])
            end in
          (set_vrf_proofs st ∅, msgs ++ votes, Ok block)
      end
  end.

(** One tick of the producer loop after the finalised transactions are drained: the
    block is broadcast after the messages of [produce_block]. *)
Definition producer_tick (now : N) (utc : Z) (st : NodeState) (txs : list Transaction)
    (allowed : nat) : NodeState * list GossipMessage :=
  match txs with
  | [] => (st, [])
  | _ =>
      match produce_block now utc st txs allowed with
      | (st, msgs, Ok block) => (st, msgs ++ [GPbftPrePrepare block])
      | (st, msgs, Err _) => (st, msgs)
      end
  end.

End Producer.

(** ** A node as a machine *)
Section NodeSafety.
Context `{!Crypto, !Serde}.

Inductive NodeEvent :=
| NBlock (now : N) (utc : Z) (msg : GossipMessage)
| NVote (utc : Z) (vote : VoteGossip)
| NVrfProof (validator_id pubkey epoch_seed output proof : string)
| NViewChange (bh : string) (new_view : N) (vid signature_hex : string)
| NSubmission (utc : Z) (admitted : bool) (request : PublishRequest)
| NTick (now : N) (utc : Z) (txs : list Transaction) (allowed : nat).

Definition node_step (st : NodeState) (ev : NodeEvent) : NodeState * list GossipMessage :=
  match ev with
  | NBlock now utc msg => on_block_message now utc st msg
  | NVote utc vote => (on_vote utc st vote, [])
  | NVrfProof id pk seed out prf => (on_vrf_proof st id pk seed out prf, [])
  | NViewChange bh v id s => ((on_view_change st bh v id s).1, [])
  | NSubmission utc ok req => (on_submission utc ok st req, [])
  | NTick now utc txs allowed => producer_tick now utc st txs allowed
  end.

Definition node_run (st : NodeState) (evs : list NodeEvent) : NodeState :=
  foldl (λ st ev, (node_step st ev).1) st evs.

(** The chain of the node consists of blocks of [c0] and certified blocks. *)
Record node_inv (vs : CommonValidatorSet) (cfg : PbftConfig) (c0 : ChainStore) (st : NodeState)
    : Prop := {
  ninv_set : node_set st = vs;
  ninv_engine : engine_inv (vset_from vs) cfg (pbft_engine st);
  ninv_chain : ∀ h b, get_block_by_height (chain (core st)) h = Some b →
    get_block_by_height c0 h = Some b ∨ certified (vset_from vs) cfg b;
}.

Lemma get_by_height_insert (s : ChainStore) (b x : Block) (h : N) :
  get_block_by_height (insert_block s b) h = Some x → x = b ∨ get_block_by_height s h = Some x.
Proof.
  unfold get_block_by_height, get_block_by_hash. simpl.
  intros (k & Hk & Hx)%bind_Some. apply lookup_insert_Some in Hx as [[_ <-]|[Hne Hx]]; [by left|].
  right. apply lookup_insert_Some in Hk as [[_ <-]|[_ Hk]]; [done|]. by rewrite Hk.
Qed.

Lemma adopt_chain (utc : Z) (n : Node) (b : Block) :
  chain (adopt utc n b) = insert_block (chain n) b
  ∧ node_validator_set (adopt utc n b) = node_validator_set n.
Proof. unfold adopt, insert_block_with_outcome. simpl. by case_match; [case_match|]. Qed.

Lemma node_inv_engine (vs : CommonValidatorSet) (cfg : PbftConfig) (c0 : ChainStore)
    (st : NodeState) (e : PbftEngine) :
  engine_inv (vset_from vs) cfg e → node_inv vs cfg c0 st → node_inv vs cfg c0 (set_engine st e).
Proof. intros He []. by constructor. Qed.

Lemma node_inv_adopt (vs : CommonValidatorSet) (cfg : PbftConfig) (c0 : ChainStore) (utc : Z)
    (st : NodeState) (bh : string) :
  node_inv vs cfg c0 st → node_inv vs cfg c0 (adopt_finalised utc st bh).
Proof.
  intros Hinv. unfold adopt_finalised.
  destruct (get_finalised_block (pbft_engine st) bh) as [fb|] eqn:Hfb; [|done].
  destruct Hinv as [Hs He Hc]. destruct (adopt_chain utc (core st) fb) as [Hch Hvs].
  constructor; [by etrans; [exact Hvs|]|done|].
  change (core (set_core st ?n)) with n.
  intros h b. rewrite Hch. intros [->|Hold]%get_by_height_insert; [|by apply Hc].
  right. by apply (engine_inv_released (vset_from vs) cfg (pbft_engine st) bh).
Qed.

(** The engine calls of the handlers keep the engine invariant. *)
Lemma start_round_inv (vs : ValidatorSet) (cfg : PbftConfig) (now : N) (e : PbftEngine)
    (b : Block) : engine_inv vs cfg e → engine_inv vs cfg (start_round now e b vs).1.
Proof. by apply (engine_inv_apply vs cfg now e (EStart b vs)). Qed.

Lemma engine_prepare_inv (vs : ValidatorSet) (cfg : PbftConfig) (now : N) (e : PbftEngine)
    (bh vid : string) (s : BlockSignature) :
  engine_inv vs cfg e → engine_inv vs cfg (engine_prepare now e bh vid s).1.
Proof. by apply (engine_inv_apply vs cfg now e (EPrepare bh vid s)). Qed.

Lemma engine_commit_inv (vs : ValidatorSet) (cfg : PbftConfig) (e : PbftEngine)
    (bh vid : string) (s : BlockSignature) :
  engine_inv vs cfg e → engine_inv vs cfg (engine_commit e bh vid s).1.
Proof. by apply (engine_inv_apply vs cfg 0 e (ECommit bh vid s)). Qed.

Lemma on_block_message_inv (vs : CommonValidatorSet) (cfg : PbftConfig) (c0 : ChainStore)
    (now : N) (utc : Z) (st : NodeState) (msg : GossipMessage) :
  node_inv vs cfg c0 st → node_inv vs cfg c0 (on_block_message now utc st msg).1.
Proof.
  intros Hinv. pose proof (ninv_set _ _ _ _ Hinv) as Hset.
  pose proof (ninv_engine _ _ _ _ Hinv) as He.
  destruct msg as [| | |b|bh vid s|bh vid s|]; simpl; try done.
  - unfold on_pre_prepare. rewrite Hset.
    pose proof (start_round_inv (vset_from vs) cfg now _ b He) as He1.
    destruct (start_round now (pbft_engine st) b (vset_from vs)) as [e [h|err]]; [|done].
    destruct (signing_key _); simpl in *; repeat apply node_inv_engine; try done.
    by apply engine_prepare_inv.
  - unfold on_prepare. destruct (validate_pbft_phase_message _ _ _ _ _) as [sig|]; [|done].
    pose proof (engine_prepare_inv (vset_from vs) cfg now _ bh vid sig He) as He1.
    destruct (engine_prepare _ _ _ _ _) as [e [[]|err]]; try by apply node_inv_engine.
    destruct (signing_key _); simpl in *; repeat apply node_inv_engine; try done.
    by apply engine_commit_inv.
  - unfold on_commit. destruct (validate_pbft_phase_message _ _ _ _ _) as [sig|]; [|done].
    pose proof (engine_commit_inv (vset_from vs) cfg _ bh vid sig He) as He1.
    destruct (engine_commit _ _ _ _) as [e [[]|err]]; try by apply node_inv_engine.
    by apply node_inv_adopt, node_inv_engine.
Qed.

Lemma cast_own_votes_inv (vs : CommonValidatorSet) (cfg : PbftConfig) (c0 : ChainStore)
    (now : N) (utc : Z) (st : NodeState) (sk : SigningKey) (bh : string) :
  node_inv vs cfg c0 st → node_inv vs cfg c0 (cast_own_votes now utc st sk bh).1.
Proof.
  intros Hinv. unfold cast_own_votes. set (prep := own_vote st sk "prepare" bh).
  pose proof (engine_prepare_inv (vset_from vs) cfg now _ bh (cfg_node_id st) prep
    (ninv_engine _ _ _ _ Hinv)) as He.
  destruct (engine_prepare _ _ _ _ _) as [e [[]|err]]; try by apply node_inv_engine.
  set (com := own_vote st sk "commit" bh).
  pose proof (engine_commit_inv (vset_from vs) cfg e bh (cfg_node_id st) com He) as He1.
  destruct (engine_commit _ _ _ _) as [e1 [[]|err]]; try by apply node_inv_engine.
  by apply node_inv_adopt, node_inv_engine.
Qed.

Lemma producer_tick_inv (vs : CommonValidatorSet) (cfg : PbftConfig) (c0 : ChainStore)
    (now : N) (utc : Z) (st : NodeState) (txs : list Transaction) (allowed : nat) :
  node_inv vs cfg c0 st → node_inv vs cfg c0 (producer_tick now utc st txs allowed).1.
Proof.
  intros Hinv. unfold producer_tick, produce_block. destruct txs as [|tx txs]; [done|].
  destruct (select_turn st allowed) as [msgs [vrf|]]; [|done].
  set (b := build_block _ _ _ _). rewrite (ninv_set _ _ _ _ Hinv).
  pose proof (start_round_inv (vset_from vs) cfg now _ b (ninv_engine _ _ _ _ Hinv)) as He.
  destruct (start_round now (pbft_engine st) b (vset_from vs)) as [e [h|err]]; [|done].
  pose proof (node_inv_engine vs cfg c0 st e He Hinv) as Hinv1.
  destruct (signing_key (set_engine st e)) as [sk|].
  - pose proof (cast_own_votes_inv vs cfg c0 now utc _ sk (block_hash b) Hinv1) as [].
    destruct (cast_own_votes _ _ _ _ _) as [st2 votes]. by constructor.
  - destruct Hinv1. by constructor.
Qed.

Lemma node_inv_step (vs : CommonValidatorSet) (cfg : PbftConfig) (c0 : ChainStore)
    (st : NodeState) (ev : NodeEvent) :
  node_inv vs cfg c0 st → node_inv vs cfg c0 (node_step st ev).1.
Proof.
  destruct ev as [now utc msg|utc v|id pk seed out prf|bh v id s|utc ok req|now utc txs n];
    cbn [node_step fst].
  - apply on_block_message_inv.
  - intros []. unfold on_vote. case_match; by constructor.
  - intros []. unfold on_vrf_proof. repeat case_match; by constructor.
  - intros []. unfold on_view_change. case_match; by constructor.
  - intros []. unfold on_submission. case_match; by constructor.
  - apply producer_tick_inv.
Qed.

(** C3. What consensus puts on the chain: in every history of gossip messages, votes,
    submissions and producer ticks of a node that starts with an empty engine, each
    canonical block was there at the start or carries a quorum certificate of the
    node's validator set. *)
Theorem node_chain_certified (cfg : PbftConfig) (st : NodeState) (evs : list NodeEvent) (h : N)
    (b : Block) :
  pbft_engine st = engine_with_config cfg →
  get_block_by_height (chain (core (node_run st evs))) h = Some b →
  get_block_by_height (chain (core st)) h = Some b
  ∨ certified (vset_from (node_set st)) cfg b.
Proof.
  intros He. assert (node_inv (node_set st) cfg (chain (core st)) (node_run st evs)) as [_ _ Hc];
    [|by apply Hc].
  assert (node_inv (node_set st) cfg (chain (core st)) st) as Hinv.
  { constructor; [done|rewrite He; apply engine_inv_new|by left]. }
  revert Hinv. generalize (node_set st) (chain (core st)). clear He. unfold node_run.
  revert st. induction evs as [|ev evs IH]; intros st vs c0 Hinv; [done|].
  simpl. by apply IH, node_inv_step.
Qed.

End NodeSafety.

(** ** What the handlers leave alone *)
Section NodeVotes.
Context `{!Crypto, !Serde}.

Definition frame (st st' : NodeState) : Prop :=
  node_set st' = node_set st ∧ cfg_node_id st' = cfg_node_id st
  ∧ cfg_privkey st' = cfg_privkey st ∧ package_rounds st' = package_rounds st
  ∧ view_change_certs st' = view_change_certs st.

Lemma frame_engine (st : NodeState) (e : PbftEngine) : frame st (set_engine st e).
Proof. done. Qed.

Lemma frame_trans (a b c : NodeState) : frame a b → frame b c → frame a c.
Proof. unfold frame. intuition congruence. Qed.

Lemma frame_adopt (utc : Z) (st : NodeState) (bh : string) : frame st (adopt_finalised utc st bh).
Proof.
  unfold adopt_finalised. destruct (get_finalised_block _ _) as [fb|]; [|done].
  split; [|done]. by apply adopt_chain.
Qed.

Lemma frame_block_message (now : N) (utc : Z) (st : NodeState) (msg : GossipMessage) :
  frame st (on_block_message now utc st msg).1.
Proof.
  destruct msg; simpl; try done.
  - unfold on_pre_prepare. by repeat (case_match; try done).
  - unfold on_prepare. by repeat (case_match; try done).
  - unfold on_commit. repeat (case_match; try done).
    by eapply frame_trans; [apply frame_engine|apply frame_adopt].
Qed.

Lemma frame_tick (now : N) (utc : Z) (st : NodeState) (txs : list Transaction) (allowed : nat) :
  frame st (producer_tick now utc st txs allowed).1.
Proof.
  unfold producer_tick, produce_block. destruct txs as [|tx txs]; [done|].
  destruct (select_turn st allowed) as [msgs [vrf|]]; [|done].
  destruct (start_round _ _ _ _) as [e [h|err]]; [|done].
  destruct (signing_key _) as [sk|]; [|done].
  assert (frame (set_engine st e) (cast_own_votes now utc (set_engine st e) sk
    (block_hash (build_block utc st (tx :: txs) vrf))).1) as Hf.
  { unfold cast_own_votes. repeat (case_match; try done).
    by eapply frame_trans; [apply frame_engine|apply frame_adopt]. }
  by destruct (cast_own_votes _ _ _ _ _) as [st2 votes].
Qed.

Lemma frame_step (st : NodeState) (ev : NodeEvent) :
  match ev with
  | NVote _ _ | NViewChange _ _ _ _ => True
  | _ => frame st (node_step st ev).1
  end.
Proof.
  destruct ev as [now utc msg|utc v|id pk seed out prf|bh v id s|utc ok req|now utc txs n];
    cbn [node_step fst]; try done.
  - apply frame_block_message.
  - unfold on_vrf_proof. by repeat case_match.
  - unfold on_submission. by case_match.
  - apply frame_tick.
Qed.

Lemma node_set_step (st : NodeState) (ev : NodeEvent) : node_set (node_step st ev).1 = node_set st.
Proof.
  pose proof (frame_step st ev) as Hf. destruct ev; try by apply Hf.
  - simpl. unfold on_vote. by case_match.
  - simpl. unfold on_view_change. by case_match.
Qed.

Lemma node_set_run (st : NodeState) (evs : list NodeEvent) : node_set (node_run st evs) = node_set st.
Proof.
  unfold node_run. revert st. induction evs as [|ev evs IH]; intros st; [done|].
  simpl. by rewrite IH, node_set_step.
Qed.

Lemma node_run_snoc (st : NodeState) (evs : list NodeEvent) (ev : NodeEvent) :
  node_run st (evs ++ [ev]) = (node_step (node_run st evs) ev).1.
Proof. unfold node_run. by rewrite foldl_app. Qed.

(** ** Package votes *)

(** A stored vote comes from a validated message of the history. *)
Definition vote_origin (vs : CommonValidatorSet) (evs : list NodeEvent) (subj : string)
    (s : ValidatorSignature) : Prop :=
  ∃ utc v, NVote utc v ∈ evs ∧ validate_vote_gossip_message v vs = Ok v
    ∧ consensus_subject v = subj ∧ s = vote_gossip_to_signature utc v.

Lemma elem_of_upsert (v w : ValidatorSignature) (l : list ValidatorSignature) :
  w ∈ upsert v l → w = v ∨ w ∈ l.
Proof.
  induction l as [|x l IH]; simpl; [set_solver|].
  case_match; rewrite !elem_of_cons; naive_solver.
Qed.

Lemma validate_vote_id (v v' : VoteGossip) (vs : CommonValidatorSet) :
  validate_vote_gossip_message v vs = Ok v' → v' = v.
Proof. unfold validate_vote_gossip_message. intros Hv. by res_inv. Qed.

Lemma rounds_origin (st : NodeState) (evs : list NodeEvent) (subj : string) (r : PackageRound) :
  package_rounds st = ∅ → package_rounds (node_run st evs) !! subj = Some r →
  Forall (vote_origin (node_set st) evs subj) (signatures r)
  ∧ NoDup (package_round_vote_key <$> signatures r).
Proof.
  intros Hempty. revert r. induction evs as [|ev evs IH] using rev_ind; intros r Hr.
  { simpl in Hr. by rewrite Hempty in Hr. }
  rewrite node_run_snoc in Hr.
  assert (∀ r0, package_rounds (node_run st evs) !! subj = Some r0 →
    Forall (vote_origin (node_set st) (evs ++ [ev]) subj) (signatures r0)
    ∧ NoDup (package_round_vote_key <$> signatures r0)) as Hold.
  { intros r0 [Hall Hnd]%IH. split; [|done]. eapply Forall_impl; [exact Hall|].
    intros s (utc & v & Hin & Hrest). exists utc, v. split; [set_solver|done]. }
  pose proof (frame_step (node_run st evs) ev) as Hf.
  destruct ev as [now utc msg|utc v|id pk seed out prf|bh v id s|utc ok req|now utc txs n];
    try (destruct Hf as (_ & _ & _ & Hf & _); rewrite Hf in Hr; by apply Hold).
  - simpl in Hr. unfold on_vote in Hr. rewrite node_set_run in Hr.
    destruct (validate_vote_gossip_message v (node_set st)) as [v'|] eqn:Hv; [|by apply Hold].
    pose proof (validate_vote_id _ _ _ Hv) as ->. simpl in Hr.
    set (s := vote_gossip_to_signature utc v) in *.
    assert (consensus_subject v = subj → vote_origin (node_set st) (evs ++ [NVote utc v]) subj s) as Hs.
    { intros Hsubj. exists utc, v. split; [set_solver|done]. }
    unfold record_package_vote in Hr.
    destruct (package_rounds (node_run st evs) !! consensus_subject v) as [r0|] eqn:Hr0;
      apply lookup_insert_Some in Hr as [[Hsubj <-]|[_ Hr]]; try (by apply Hold); simpl.
    + rewrite Hsubj in Hr0. destruct (Hold _ Hr0) as [Hall Hnd].
      split; [|by apply upsert_NoDup].
      apply Forall_forall. intros w [->|Hw]%elem_of_upsert; [by apply Hs|].
      by eapply Forall_forall in Hall.
    + split; [by constructor; [apply Hs|]|]. apply NoDup_singleton.
  - simpl in Hr. unfold on_view_change in Hr.
    apply Hold. by destruct (view_change_sig_valid _ _ _ _ _).
Qed.

Lemma validate_vote_Ok (v : VoteGossip) (vs : CommonValidatorSet) :
  validate_vote_gossip_message v vs = Ok v →
  (∃ val, val ∈ validators vs ∧ val_id val = vg_validator_id v
     ∧ val_pubkey val = vg_validator_pubkey v)
  ∧ is_empty (vg_validator_pubkey v) = false
  ∧ is_consensus_grade_vote (vg_ml_model_version v) (vg_analysis_bundles v)
      (vg_evidence_digest v) = true
  ∧ ∃ pk vk raw sig, hex_decode (vg_validator_pubkey v) = Some pk ∧ vk_try_from pk = Some vk
     ∧ hex_decode (vg_signature v) = Some raw ∧ sig_try_from raw = Some sig
     ∧ verify vk (canonical_vote_message (consensus_subject v) (vg_content_hash v)
         (vg_approved v) (vg_validator_pubkey v)
         (scanner_profile_digest (vg_ml_model_version v) (vg_analysis_bundles v))
         (vg_evidence_digest v)) sig = true.
Proof.
  unfold validate_vote_gossip_message. intros Hv. res_inv.
  unfold find_validator in *.
  match goal with H : snd <$> list_find _ _ = Some ?a |- _ =>
    apply fmap_Some in H as ([i val] & Hf & ->); apply list_find_Some in Hf as (Hi & Hid & _) end.
  simpl in *. rewrite ->String.eqb_eq, negb_true_iff in *.
  split_and!; [|congruence|done|by eauto 10].
  exists val. split; [by eapply list_elem_of_lookup_2|]. done.
Qed.

(** A validated approval counts for synchronisation of a record with its content. *)
Lemma vote_counts (vs : CommonValidatorSet) (utc : Z) (v : VoteGossip) (rec : ChainRecord)
    (k : string) :
  let s := vote_gossip_to_signature utc v in
  validate_vote_gossip_message v vs = Ok v →
  canonical (rec_id rec) = consensus_subject v → rec_content_hash rec = vg_content_hash v →
  vs_vote s = Approve → consensus_profile_key s = Some k →
  eligible (known_keys vs) s ∧ checked_profile rec s = Some k.
Proof.
  intros s ((val & Hval & _ & Hpk) & _ & Hg & pk & vk & raw & sig & E1 & E2 & E3 & E4 & Hver)%validate_vote_Ok
    Hc Hh Ha Hk.
  assert (vg_approved v = true) as Happ by (simpl in Ha; by destruct (vg_approved v)).
  split; [split; [done|split; [done|]]|].
  - apply elem_of_list_to_set, list_elem_of_fmap. exists val. by rewrite Hpk.
  - unfold checked_profile. simpl. rewrite E1. simpl. rewrite E2. simpl. rewrite E3. simpl.
    rewrite E4. simpl. rewrite Hc, Hh. rewrite Happ in *. simpl in *. rewrite Hver.
    unfold consensus_profile_key in Hk. simpl in Hk. by rewrite Hg in Hk.
Qed.

(** Distinct eligible signatures of one profile are all counted. *)
Lemma sig_fold_complete (known : gset string) (rec : ChainRecord) (k : string)
    (sigs : list ValidatorSignature) :
  NoDup (sig_key <$> sigs) →
  Forall (λ s, eligible known s ∧ checked_profile rec s = Some k) sigs →
  let st := foldl (sig_step known rec) (∅, ∅) sigs in
  default 0 (st.1 !! k) = length sigs ∧ st.2 = list_to_set (sig_key <$> sigs).
Proof.
  induction sigs as [|s sigs IH] using rev_ind; [done|]. cbn zeta.
  rewrite fmap_app, foldl_app, length_app.
  intros (Hnd & Hdis & _)%NoDup_app [Hall Hs]%Forall_app.
  apply Forall_singleton in Hs as [(Hv & Hg & Hk) Hp].
  destruct (IH Hnd Hall) as [Hc Hseen]. simpl. unfold sig_step at 1 3.
  destruct (foldl (sig_step known rec) (∅, ∅) sigs) as [groups seen]. simpl in Hc, Hseen.
  fold (sig_grade s) (sig_key s). rewrite Hg.
  rewrite bool_decide_eq_true_2 by done. simpl.
  rewrite bool_decide_eq_false_2 by set_solver.
  rewrite bool_decide_eq_false_2.
  - rewrite Hp. simpl. rewrite lookup_insert_eq. simpl. split; [lia|]. set_solver.
  - subst seen. intros Hin%elem_of_list_to_set. apply (Hdis _ Hin). set_solver.
Qed.

Lemma foldr_max_ge (l : list nat) (x : nat) : x ∈ l → x ≤ foldr Nat.max 0 l.
Proof. induction 1; simpl; lia. Qed.

Lemma record_approvals_complete (known : gset string) (rec : ChainRecord) (k : string) :
  NoDup (sig_key <$> rec_validator_signatures rec) →
  Forall (λ s, eligible known s ∧ checked_profile rec s = Some k) (rec_validator_signatures rec) →
  length (rec_validator_signatures rec) ≤ record_approvals known rec.
Proof.
  intros Hnd Hall. destruct (sig_fold_complete known rec k _ Hnd Hall) as [Hc _].
  unfold record_approvals, max_group. rewrite <- Hc.
  destruct ((foldl _ _ _).1 !! k) as [c|] eqn:Hk; simpl; [|lia].
  apply foldr_max_ge, elem_of_hm_values. eauto.
Qed.

(** C7. Votes decided by one node convince every other: when the votes gossiped for a
    package all concern one content, the approvals of a [Verified] verdict on its
    round, taken over the whole validator set, make a record with that content
    pass the signature check of every synchronising node with the same set. *)
Theorem verified_votes_sync (st : NodeState) (evs : list NodeEvent) (r : PackageRound)
    (rec : ChainRecord) :
  let vs := node_set st in
  let subj := canonical (rec_id rec) in
  package_rounds st = ∅ →
  (∀ utc v, NVote utc v ∈ evs → consensus_subject v = subj →
     vg_content_hash v = rec_content_hash rec) →
  package_rounds (node_run st evs) !! subj = Some r →
  aggregate_evidence_votes (signatures r) (length (validators vs))
    = Some (EVerified (rec_validator_signatures rec)) →
  2 * length (validators vs) / 3 + 1 ≤ record_approvals (known_keys vs) rec.
Proof.
  intros vs subj Hempty Hcontent Hr Hver.
  destruct (rounds_origin st evs subj r Hempty Hr) as [Horig Hnd].
  apply verified_sublist in Hver as (Hlen & Hsub & k & Hk).
  rewrite unique_votes_upserts, upserts_id in Hsub by done.
  unfold evidence_quorum in Hlen. rewrite Nat.mul_comm, <- Hlen.
  rewrite ->Forall_forall in Horig, Hk.
  assert (∀ s, s ∈ rec_validator_signatures rec → s ∈ signatures r) as Hin
    by (intros s Hs; by eapply elem_of_sublist).
  apply (record_approvals_complete _ _ k).
  - apply (NoDup_fmap_1 (λ x, "pubkey:" +:+ x)). rewrite <- list_fmap_compose.
    rewrite (list_fmap_ext _ package_round_vote_key).
    + eapply sublist_NoDup; [exact Hnd|]. by apply fmap_sublist.
    + intros i s Hs%list_elem_of_lookup_2.
      destruct (Horig s (Hin s Hs)) as (utc & v & _ & Hval & _ & ->).
      apply validate_vote_Ok in Hval as (_ & He & _). unfold package_round_vote_key. simpl.
      by rewrite He.
  - apply Forall_forall. intros s Hs. destruct (Hk s Hs) as [Ha Hp].
    destruct (Horig s (Hin s Hs)) as (utc & v & Hev & Hval & Hsubj & ->).
    apply vote_counts; try done. by rewrite (Hcontent utc v).
Qed.

(** ** View-change certificates *)

(** Every collected certificate was signed. *)
Definition certs_ok (vs : CommonValidatorSet) (st : NodeState) : Prop :=
  ∀ bh v S x, view_change_certs st !! bh ≫= (λ m, m !! v) = Some S → x ∈ S →
    ∃ s, view_change_sig_valid vs bh v x s = true.

Lemma default_bind_elem (o : option (gmap N (gset string))) (v : N) (x : string) :
  x ∈ default ∅ (default ∅ o !! v) → ∃ S, (o ≫= λ m, m !! v) = Some S ∧ x ∈ S.
Proof.
  destruct o as [m|]; simpl; [|rewrite lookup_empty; set_solver].
  destruct (m !! v) as [S|]; simpl; [by eauto|set_solver].
Qed.

Lemma certs_ok_view_change (st : NodeState) (bh : string) (v : N) (id s : string) :
  certs_ok (node_set st) st → certs_ok (node_set st) (on_view_change st bh v id s).1.
Proof.
  intros Hok. unfold on_view_change.
  destruct (view_change_sig_valid (node_set st) bh v id s) eqn:Hs; [|done].
  intros bh' v' S x. simpl. intros (m & Hm & HS)%bind_Some Hx.
  apply lookup_insert_Some in Hm as [[<- <-]|[_ Hm]].
  2: { apply (Hok bh' v' S x); [|done]. by rewrite Hm. }
  apply lookup_insert_Some in HS as [[<- <-]|[_ HS]].
  - apply elem_of_union in Hx as [(S0 & HS0 & HxS)%default_bind_elem|Hx%elem_of_singleton].
    + by apply (Hok bh v S0 x).
    + subst x. eauto.
  - apply (Hok bh v' S x); [|done]. destruct (view_change_certs st !! bh) as [m|]; [done|].
    change ((∅ : gmap N (gset string)) !! v' = Some S) in HS. by rewrite lookup_empty in HS.
Qed.

Lemma certs_ok_run (st : NodeState) (evs : list NodeEvent) :
  view_change_certs st = ∅ → certs_ok (node_set st) (node_run st evs).
Proof.
  intros Hempty. induction evs as [|ev evs IH] using rev_ind.
  { intros bh v S x. simpl. by rewrite Hempty, lookup_empty. }
  rewrite node_run_snoc. pose proof (frame_step (node_run st evs) ev) as Hf.
  destruct ev as [now utc msg|utc v|id pk seed out prf|bh v id s|utc ok req|now utc txs n];
    try (destruct Hf as (_ & _ & _ & _ & Hf); unfold certs_ok; by rewrite Hf).
  - simpl. unfold on_vote. by destruct (validate_vote_gossip_message _ _).
  - simpl. rewrite <- (node_set_run st evs) in IH |- *. by apply certs_ok_view_change.
Qed.

(** A view change is authorised only by more than a third of the validators: the
    message that triggers the verdict completes certificates over the same block
    and view from at least [n/3+1] distinct ids with valid signatures of their
    registered keys.  The verdict is only logged: the PBFT engine stays as it is. *)
Theorem view_change_authorised (st : NodeState) (evs : list NodeEvent) (bh : string) (v : N)
    (id s : string) :
  let st' := node_run st evs in
  view_change_certs st = ∅ → (on_view_change st' bh v id s).2 = true →
  (∃ S : gset string, length (validators (node_set st)) / 3 + 1 ≤ size S
     ∧ ∀ x, x ∈ S → ∃ sx, view_change_sig_valid (node_set st) bh v x sx = true)
  ∧ pbft_engine (on_view_change st' bh v id s).1 = pbft_engine st'.
Proof.
  intros st' Hempty Hauth. split; [|by unfold on_view_change; case_match].
  pose proof (certs_ok_run st evs Hempty) as Hok. fold st' in Hok.
  rewrite <- (node_set_run st evs) in Hok |- *. fold st' in Hok |- *.
  apply (certs_ok_view_change st' bh v id s) in Hok. unfold on_view_change in *.
  destruct (view_change_sig_valid (node_set st') bh v id s); [|done].
  apply Nat.leb_le in Hauth. simpl in Hok. eexists. split; [exact Hauth|].
  intros x Hx. eapply Hok; [|exact Hx]. simpl. by rewrite lookup_insert_eq; simpl; rewrite lookup_insert_eq.
Qed.

(** ** Proposals *)

Lemma start_round_result (now : N) (e e' : PbftEngine) (b : Block) (vs : ValidatorSet) :
  engine_config e = engine_config e' → (start_round now e b vs).2 = (start_round now e' b vs).2.
Proof.
  intros He. pose proof (start_round_Ok now e b vs) as H1.
  pose proof (start_round_Ok now e' b vs) as H2. simpl in H1, H2. rewrite He in H1.
  destruct (pre_prepare_checks _ _); by rewrite H1, H2.
Qed.

Lemma on_round_config {A : Type} (e : PbftEngine) (bh : string)
    (f : PbftRound → PbftRound * result PbftError A) :
  engine_config (on_round e bh f).1 = engine_config e.
Proof. unfold on_round. destruct (rounds e !! bh) as [r|]; [|done]. by destruct (f r). Qed.

Lemma start_round_config (now : N) (e : PbftEngine) (b : Block) (vs : ValidatorSet) :
  engine_config (start_round now e b vs).1 = engine_config e.
Proof. unfold start_round. by destruct (pre_prepare _ _ _) as [r []]. Qed.

(** The answer of a node with a key to an acceptable proposal. *)
Lemma on_pre_prepare_signs (now : N) (st : NodeState) (b : Block) (sk : SigningKey) (h : string) :
  signing_key st = Some sk →
  (start_round now (pbft_engine st) b (vset_from (node_set st))).2 = Ok h →
  let '(st', msgs) := on_pre_prepare now st b in
  msgs = [GPbftPrepare (block_hash b) (cfg_node_id st)
            (hex_encode (sig_bytes (sign sk (pbft_signature_message "prepare" (block_hash b)))))]
  ∧ engine_config (pbft_engine st') = engine_config (pbft_engine st) ∧ frame st st'.
Proof.
  intros Hsk Hok. pose proof (start_round_config now (pbft_engine st) b (vset_from (node_set st))) as Hc.
  unfold on_pre_prepare. destruct (start_round _ _ _ _) as [e [h'|]]; [|done]. simpl in Hc.
  change (signing_key (set_engine st e)) with (signing_key st). rewrite Hsk.
  split; [done|]. split; [|done]. simpl. by rewrite <- Hc; apply on_round_config.
Qed.

(** A node signs conflicting proposals: PREPARE is signed for every proposal whose
    proposer is the one selected for the [prev_hash] it names; height, chain tip and
    earlier signatures are not consulted, so two competing blocks of one height both
    get the node's signature. *)
Theorem node_prepares_conflicting (now1 now2 : N) (st : NodeState) (b1 b2 : Block)
    (sk : SigningKey) (h1 h2 : string) :
  signing_key st = Some sk →
  (start_round now1 (pbft_engine st) b1 (vset_from (node_set st))).2 = Ok h1 →
  (start_round now2 (pbft_engine st) b2 (vset_from (node_set st))).2 = Ok h2 →
  let '(st1, m1) := on_pre_prepare now1 st b1 in
  let '(st2, m2) := on_pre_prepare now2 st1 b2 in
  let vote b := GPbftPrepare (block_hash b) (cfg_node_id st)
    (hex_encode (sig_bytes (sign sk (pbft_signature_message "prepare" (block_hash b))))) in
  m1 = [vote b1] ∧ m2 = [vote b2].
Proof.
  intros Hsk H1 H2. pose proof (on_pre_prepare_signs now1 st b1 sk h1 Hsk H1) as Hp1.
  destruct (on_pre_prepare now1 st b1) as [st1 m1].
  destruct Hp1 as (-> & Hcfg & Hset & Hid & Hpk & _).
  assert (signing_key st1 = Some sk) as Hsk1 by (unfold signing_key in *; by rewrite Hpk).
  rewrite <- Hset, (start_round_result now2 _ (pbft_engine st1)) in H2 by done.
  pose proof (on_pre_prepare_signs now2 st1 b2 sk h2 Hsk1 H2) as Hp2.
  destruct (on_pre_prepare now2 st1 b2) as [st2 m2]. destruct Hp2 as (-> & _).
  by rewrite Hid.
Qed.

(** ** The producer and its peers *)

Lemma produce_block_inv (now : N) (utc : Z) (st st' : NodeState) (txs : list Transaction)
    (allowed : nat) (msgs : list GossipMessage) (b : Block) :
  produce_block now utc st txs allowed = (st', msgs, Ok b) →
  ∃ vrf sel e h, select_turn st allowed = (sel, Ok vrf) ∧ b = build_block utc st txs vrf
    ∧ start_round now (pbft_engine st) b (vset_from (node_set st)) = (e, Ok h)
    ∧ ((st' = set_vrf_proofs (set_engine st e) ∅ ∧ msgs = sel)
       ∨ ∃ sk, st' = set_vrf_proofs (cast_own_votes now utc (set_engine st e) sk (block_hash b)).1 ∅
           ∧ msgs = sel ++ (cast_own_votes now utc (set_engine st e) sk (block_hash b)).2).
Proof.
  unfold produce_block. destruct (select_turn st allowed) as [sel [vrf|]]; [|done].
  destruct (start_round _ _ _ _) as [e [h|]] eqn:He; [|done].
  destruct (signing_key (set_engine st e)) as [sk|].
  - destruct (cast_own_votes _ _ _ sk _) as [st2 votes] eqn:Hc. intros [= <- <- <-].
    exists vrf, sel, e, h. split_and!; try done. right. exists sk. by rewrite Hc.
  - intros [= <- <- <-]. exists vrf, sel, e, h. split_and!; try done. left.
    by rewrite app_nil_r.
Qed.

Lemma receive_prepare_block (now : N) (r : PbftRound) (v : string) (s : BlockSignature) :
  block (receive_prepare now r v s).1 = block r.
Proof. unfold receive_prepare. by repeat case_match. Qed.

Lemma receive_commit_block (r : PbftRound) (v : string) (s : BlockSignature) :
  block (receive_commit r v s).1 = block r.
Proof. unfold receive_commit. by repeat case_match. Qed.

Lemma on_round_block {A : Type} (e : PbftEngine) (bh : string) (r : PbftRound)
    (f : PbftRound → PbftRound * result PbftError A) :
  (∀ r, block (f r).1 = block r) → rounds e !! bh = Some r →
  ∃ r', rounds (on_round e bh f).1 !! bh = Some r' ∧ block r' = block r.
Proof.
  intros Hf Hr. unfold on_round. rewrite Hr. specialize (Hf r). destruct (f r) as [r' res].
  exists r'. split; [|done]. simpl. apply lookup_insert_eq.
Qed.

Lemma adopt_engine (utc : Z) (st : NodeState) (bh : string) :
  pbft_engine (adopt_finalised utc st bh) = pbft_engine st.
Proof. unfold adopt_finalised. by case_match. Qed.

Lemma cast_own_votes_round (now : N) (utc : Z) (st : NodeState) (sk : SigningKey) (bh : string)
    (r : PbftRound) :
  rounds (pbft_engine st) !! bh = Some r →
  ∃ r', rounds (pbft_engine (cast_own_votes now utc st sk bh).1) !! bh = Some r'
    ∧ block r' = block r.
Proof.
  intros Hr. unfold cast_own_votes. set (prep := own_vote st sk "prepare" bh).
  destruct (on_round_block (pbft_engine st) bh r
    (λ r, receive_prepare now r (cfg_node_id st) prep)) as (r1 & Hr1 & Hb1);
    [intros; apply receive_prepare_block|done|].
  fold (engine_prepare now (pbft_engine st) bh (cfg_node_id st) prep) in Hr1.
  destruct (engine_prepare _ _ _ _ _) as [e [[]|err]]; simpl in Hr1; try (by eauto).
  set (com := own_vote st sk "commit" bh).
  destruct (on_round_block e bh r1 (λ r, receive_commit r (cfg_node_id st) com)) as (r2 & Hr2 & Hb2);
    [intros; apply receive_commit_block|done|].
  fold (engine_commit e bh (cfg_node_id st) com) in Hr2.
  destruct (engine_commit _ _ _ _) as [e1 [[]|err]]; cbn [fst]; rewrite ?adopt_engine;
    exists r2; by rewrite Hb2.
Qed.

(** A produced block extends the tip and is the producer's to make: its height and
    [prev_hash] follow the tip, its Merkle root and set hash are those of its
    transactions and of the validator list, a round for it is open in the engine,
    and the node is the validator the engine selects for that tip, whatever
    fallback rank the stall timer granted. *)
Theorem produced_block_valid (now : N) (utc : Z) (st st' : NodeState) (txs : list Transaction)
    (allowed : nat) (msgs : list GossipMessage) (b : Block) :
  produce_block now utc st txs allowed = (st', msgs, Ok b) →
  height (header b) = (tip_height (chain (core st)) + 1)%N
  ∧ prev_hash (header b) = tip_hash (chain (core st))
  ∧ transactions b = txs ∧ header_merkle_root (header b) = merkle_root txs
  ∧ validator_set_hash (header b) = compute_validator_set_hash (validators (node_set st))
  ∧ (∃ r, rounds (pbft_engine st') !! block_hash b = Some r ∧ block r = b)
  ∧ select_proposer_deterministic (proposer_candidates (vset_from (node_set st)))
      (tip_hash (chain (core st))) = Some (cfg_node_id st).
Proof.
  intros (vrf & sel & e & h & _ & Hb & Hst & Hcase)%produce_block_inv.
  assert (∃ r, rounds e !! block_hash b = Some r ∧ block r = b
    ∧ pre_prepare_checks (with_config now b (vset_from (node_set st))
        (engine_config (pbft_engine st))) (proposer_id (header b)) = Ok tt) as (r & Hr & Hrb & Hck).
  { pose proof (start_round_Ok now (pbft_engine st) b (vset_from (node_set st))) as Hs.
    simpl in Hs. destruct (pre_prepare_checks _ _) as [[]|]; [|by rewrite Hs in Hst].
    rewrite Hs in Hst. injection Hst as <- <-. eexists. split; [apply lookup_insert_eq|done]. }
  apply pre_prepare_selected in Hck. simpl in Hck.
  split_and!; try (by subst b).
  destruct Hcase as [[-> _]|(sk & -> & _)]; simpl; [by eauto|].
  destruct (cast_own_votes_round now utc (set_engine st e) sk (block_hash b) r Hr)
    as (r' & Hr' & Hb'). exists r'. by rewrite Hb'.
Qed.

(** The messages of [produce_block] are votes for its block. *)
Definition early_vote (bh : string) (m : GossipMessage) : Prop :=
  match m with
  | GVrfProof _ _ _ _ _ => True
  | GPbftPrepare h _ _ | GPbftCommit h _ _ => h = bh
  | _ => False
  end.

Lemma produce_msgs (now : N) (utc : Z) (st st' : NodeState) (txs : list Transaction)
    (allowed : nat) (msgs : list GossipMessage) (b : Block) :
  produce_block now utc st txs allowed = (st', msgs, Ok b) → Forall (early_vote (block_hash b)) msgs.
Proof.
  intros (vrf & sel & e & h & Hsel & Hb & Hst & Hcase)%produce_block_inv.
  assert (Forall (early_vote (block_hash b)) sel) as Hs.
  { unfold select_turn in Hsel. repeat case_match; simplify_eq; by repeat constructor. }
  destruct Hcase as [[_ ->]|(sk & _ & ->)]; [done|]. apply Forall_app. split; [done|].
  unfold cast_own_votes. repeat case_match; by repeat constructor.
Qed.

Lemma set_engine_id (st : NodeState) : set_engine st (pbft_engine st) = st.
Proof. by destruct st. Qed.

(** Votes for a block without a round are dropped. *)
Lemma early_vote_dropped (now : N) (utc : Z) (st : NodeState) (bh : string) (m : GossipMessage) :
  rounds (pbft_engine st) !! bh = None → early_vote bh m →
  (on_block_message now utc st m).1 = st.
Proof.
  intros Hr Hm. destruct m as [| | |b|h vid s|h vid s|]; simpl in Hm; try done; subst h; simpl.
  - unfold on_prepare. destruct (validate_pbft_phase_message _ _ _ _ _); [|done].
    unfold engine_prepare, on_round. rewrite Hr. simpl. apply set_engine_id.
  - unfold on_commit. destruct (validate_pbft_phase_message _ _ _ _ _); [|done].
    unfold engine_commit, on_round. rewrite Hr. simpl. apply set_engine_id.
Qed.

Lemma receive_prepare_dom (now : N) (r : PbftRound) (v : string) (s : BlockSignature) :
  prepare_sigs r = ∅ → commit_sigs r = ∅ →
  dom (prepare_sigs (receive_prepare now r v s).1) ⊆ {[v]}
  ∧ commit_sigs (receive_prepare now r v s).1 = ∅.
Proof.
  intros Hp Hc. unfold receive_prepare.
  repeat case_match; simpl; rewrite Hp; (split; [set_solver|done]).
Qed.

(** A proposal opens a fresh round that holds at most the receiver's own vote. *)
Lemma on_pre_prepare_fresh (now : N) (st : NodeState) (b : Block) (r : PbftRound) :
  rounds (pbft_engine (on_pre_prepare now st b).1) !! block_hash b = Some r →
  rounds (pbft_engine st) !! block_hash b = Some r
  ∨ (dom (prepare_sigs r) ⊆ {[cfg_node_id st]} ∧ commit_sigs r = ∅).
Proof.
  unfold on_pre_prepare. pose proof (start_round_Ok now (pbft_engine st) b
    (vset_from (node_set st))) as Hs. simpl in Hs.
  destruct (pre_prepare_checks _ _) as [u|err]; rewrite Hs; [|by left].
  intros Hr. right. revert Hr.
  change (signing_key (set_engine st ?e)) with (signing_key st) in *.
  set (r0 := set_phase _ Prepare now) in *.
  destruct (signing_key st) as [sk|]; cbn [pbft_engine set_engine fst].
  - unfold engine_prepare, on_round. cbn [rounds set_rounds]. rewrite lookup_insert_eq.
    change (cfg_node_id (set_engine st ?e)) with (cfg_node_id st).
    set (vote := own_vote _ _ _ _).
    pose proof (receive_prepare_dom now r0 (cfg_node_id st) vote eq_refl eq_refl) as Hd.
    destruct (receive_prepare now r0 _ _) as [r1 res]. cbn [fst rounds set_rounds] in *.
    rewrite lookup_insert_eq. by intros [= <-].
  - cbn [rounds set_rounds]. rewrite lookup_insert_eq. intros [= <-]. simpl.
    split; [set_solver|done].
Qed.

(** The proposer's votes never reach its peers: a tick sends the proposer's PREPARE
    (and COMMIT) before the proposal itself, so a peer without a round for the block
    drops them, and the round it then opens holds no vote but its own. *)
Theorem proposer_votes_lost (now now' : N) (utc utc' : Z) (st st' peer : NodeState)
    (tx : Transaction) (txs : list Transaction) (allowed : nat) (msgs : list GossipMessage)
    (b : Block) (r : PbftRound) :
  produce_block now utc st (tx :: txs) allowed = (st', msgs, Ok b) →
  rounds (pbft_engine peer) !! block_hash b = None →
  let sent := (producer_tick now utc st (tx :: txs) allowed).2 in
  let peer' := foldl (λ p m, (on_block_message now' utc' p m).1) peer sent in
  rounds (pbft_engine peer') !! block_hash b = Some r →
  dom (prepare_sigs r) ⊆ {[cfg_node_id peer]} ∧ commit_sigs r = ∅.
Proof.
  intros Hp Hnone sent peer'.
  assert (sent = msgs ++ [GPbftPrePrepare b]) as Hsent
    by (unfold sent, producer_tick; by rewrite Hp).
  assert (foldl (λ p m, (on_block_message now' utc' p m).1) peer msgs = peer) as Hdrop.
  { pose proof (produce_msgs _ _ _ _ _ _ _ _ Hp) as Hall. clear Hsent. clear sent peer' Hp.
    induction Hall as [|m msgs Hm Hall IH]; [done|]. simpl.
    by rewrite (early_vote_dropped now' utc' peer (block_hash b) m). }
  unfold peer'. rewrite Hsent, foldl_app, Hdrop. simpl.
  intros [Hr|Hr]%on_pre_prepare_fresh; [congruence|done].
Qed.

End NodeVotes.

(** ** Witnesses *)
Module NodeExamples.
Import Toy ToySerde PbftExamples LightClientExamples.

Definition node (id : string) : NodeState := {|
  core := {| chain := open_store empty_store; publisher_index := index_new;
             node_validator_set := vals4; set_history := []; reorgs := [] |};
  pbft_engine := engine_with_config cfg; cfg_node_id := id;
  cfg_privkey := Some (hex_encode (Toy.fit 32 id)); vrf_proofs := ∅; view_change_certs := ∅;
  package_rounds := ∅; pending_pool := pool_open ∅ |}.

Definition tip : string := tip_hash (open_store empty_store).

Definition leader : string :=
  default "" (select_proposer_deterministic (proposer_candidates (vset_from vals4)) tip).

Definition tx0 : Transaction := ValidatorLeave "retired".
Definition proposed : Block :=
  match (produce_block 1 0 (node leader) [tx0] 0).2 with
  | Ok b => b
  | Err _ => genesis
  end.
Definition bh0 : string := block_hash proposed.

Definition others : list string := filter (λ id, id ≠ leader) ["v1"; "v2"; "v3"; "v4"].

Definition phase_msg (ph id : string) : string :=
  bs_signature (own_vote (node id) (Toy.fit 32 id : @SigningKey toy_crypto) ph bh0).

Definition history0 : list NodeEvent :=
  NTick 1 0 [tx0] 0
  :: ((λ id, NBlock 2 0 (GPbftPrepare bh0 id (phase_msg "prepare" id))) <$> others)
  ++ ((λ id, NBlock 3 0 (GPbftCommit bh0 id (phase_msg "commit" id))) <$> others).

Lemma node_chain_certified_witness :
  ∃ fb, get_block_by_height (chain (core (node_run (node leader) history0))) 1 = Some fb
    ∧ certified (vset_from vals4) cfg fb.
Proof.
  eexists. assert (get_block_by_height (chain (core (node_run (node leader) history0))) 1
    = Some {| header := header proposed; transactions := transactions proposed;
              pbft_signatures :=
                finalised_sigs (pbft_engine (node_run (node leader) history0)) bh0 |}) as Hg
    by (vm_compute; reflexivity).
  split; [exact Hg|].
  destruct (node_chain_certified cfg (node leader) history0 1 _ eq_refl Hg) as [Hbad|Hc].
  - vm_compute in Hbad. discriminate.
  - exact Hc.
Defined.

Lemma produced_block_valid_witness : height (header proposed) = 1%N.
Proof.
  refine (proj1 (produced_block_valid 1 0 (node leader)
    (produce_block 1 0 (node leader) [tx0] 0).1.1 [tx0] 0
    (produce_block 1 0 (node leader) [tx0] 0).1.2 proposed _)).
  vm_compute. reflexivity.
Defined.

Definition peer0 : NodeState := node (default "" (head others)).

Lemma proposer_votes_lost_witness :
  let sent := (producer_tick 1 0 (node leader) [tx0] 0).2 in
  let peer' := foldl (λ p m, (on_block_message 2 0 p m).1) peer0 sent in
  ∃ r, rounds (pbft_engine peer') !! bh0 = Some r
    ∧ dom (prepare_sigs r) ⊆ {[cfg_node_id peer0]}.
Proof.
  eexists. split; [vm_compute; reflexivity|].
  refine (proj1 (proposer_votes_lost 1 2 0 0 (node leader)
    (produce_block 1 0 (node leader) [tx0] 0).1.1 peer0 tx0 [] 0
    (produce_block 1 0 (node leader) [tx0] 0).1.2 proposed _ _ _ _)); vm_compute; reflexivity.
Defined.

(** Two blocks of one height. *)
Definition rival (t : Z) : Block := {|
  header := {| height := 1; prev_hash := tip; header_merkle_root := ""; proposer_id := leader;
    timestamp := t; validator_set_hash := ""; vrf_output := None; vrf_proof := None |};
  transactions := []; pbft_signatures := [] |}.

Lemma node_prepares_conflicting_witness :
  ∃ s1 s2, (on_pre_prepare 1 peer0 (rival 1)).2 = [GPbftPrepare (block_hash (rival 1)) (cfg_node_id peer0) s1]
    ∧ (on_pre_prepare 2 (on_pre_prepare 1 peer0 (rival 1)).1 (rival 2)).2
      = [GPbftPrepare (block_hash (rival 2)) (cfg_node_id peer0) s2].
Proof.
  pose proof (node_prepares_conflicting 1 2 peer0 (rival 1) (rival 2)
    (Toy.fit 32 (cfg_node_id peer0) : @SigningKey toy_crypto)
    (block_hash (rival 1)) (block_hash (rival 2))
    ltac:(vm_compute; reflexivity) ltac:(vm_compute; reflexivity)
    ltac:(vm_compute; reflexivity)) as Hc.
  destruct (on_pre_prepare 1 peer0 (rival 1)) as [st1 m1]. cbn [fst snd].
  destruct (on_pre_prepare 2 st1 (rival 2)) as [st2 m2]. destruct Hc as [-> ->]. eauto.
Defined.

Definition vc_sig (id : string) : string :=
  hex_encode (@sign toy_crypto (Toy.fit 32 id) (bh0 +:+ ":view_change:" +:+ "1")).

Lemma view_change_authorised_witness :
  ∃ S : gset string, 2 ≤ size S
    ∧ ∀ x, x ∈ S → ∃ sx, view_change_sig_valid vals4 bh0 1 x sx = true.
Proof.
  refine (proj1 (view_change_authorised (node leader) [NViewChange bh0 1 "v1" (vc_sig "v1")]
    bh0 1 "v2" (vc_sig "v2") _ _)); vm_compute; reflexivity.
Defined.

(** Votes of three validators for one package. *)
Definition gossip_vote (id : string) : VoteGossip :=
  let unsigned sig := {|
    consensus_subject := "npm:a@1"; vg_content_hash := "h"; vg_validator_id := id;
    vg_validator_pubkey := pk id; vg_ml_model_version := "m";
    vg_analysis_bundles := VoteExamples.full_bundles; vg_evidence_digest := "ev";
    vg_deterministic_risk := default_risk; vg_phase := "commit"; vg_approved := true;
    vg_reject_reason := None; vg_signature := sig |} in
  unsigned (hex_encode (@sign toy_crypto (Toy.fit 32 id)
    (canonical_vote_message "npm:a@1" "h" true (pk id)
       (scanner_profile_digest "m" VoteExamples.full_bundles) "ev"))).

Definition ballots : list NodeEvent := (λ id, NVote 0 (gossip_vote id)) <$> ["v1"; "v2"; "v4"].

Definition voted : ChainRecord := {|
  rec_id := {| ecosystem := "npm"; name := "a"; version := "1" |};
  rec_content_hash := "h"; rec_ipfs_cid := ""; rec_publisher_pubkey := ""; rec_block_hash := "";
  rec_published_at := 0;
  rec_validator_signatures := (λ id, vote_gossip_to_signature 0 (gossip_vote id)) <$> ["v1"; "v2"; "v4"];
  rec_status := Verified; rec_shielded := false; rec_key_bundle := None;
  rec_pgp_fingerprint := None; rec_findings := []; rec_analysis_bundles := default_bundles;
  rec_evidence_digest := ""; rec_deterministic_risk := default_risk; rec_access_count := 0;
  rec_last_accessed := None; rec_threshold := 1; rec_publisher_pubkeys := [];
  rec_manifest := None |}.

Lemma verified_votes_sync_witness : 3 ≤ record_approvals (known_keys vals4) voted.
Proof.
  eapply (verified_votes_sync (node "v1") ballots _ voted).
  - reflexivity.
  - intros utc v Hin _. unfold ballots in Hin.
    apply list_elem_of_fmap in Hin as (id & [= -> ->] & _). reflexivity.
  - vm_compute. reflexivity.
  - vm_compute. reflexivity.
Defined.

End NodeExamples.
