(* ===== verification/RateLimit.v ===== *)
(** The request limiter of the REST API ([crates/node/src/rate_limit.rs]).

    Instants are nanoseconds on the monotonic clock; a window that reaches before
    the clock's origin is not modelled.  Each map is behind a mutex, so requests
    and purges are atomic steps in some order. *)

From S2P Require Import Prelude Text.

Record RateLimitConfig := {
  general_limit : N;
  publish_limit : N;
  vote_limit : N;
  window : Z;
}.

Definition default_rate_config : RateLimitConfig := {|
  general_limit := 3000; publish_limit := 10; vote_limit := 60; window := 60000000000 |}.

(** The timestamps of [Bucket]. *)
Abbreviation Bucket := (list Z).

Definition is_allowed (now window : Z) (limit : N) (b : Bucket) : Bucket * bool :=
  let cutoff := (now - window)%Z in
  let ts := filter (λ t, (cutoff < t)%Z) b in
  if (N.of_nat (length ts) <? limit)%N then (ts ++ [now], true) else (ts, false).

Inductive EndpointClass := General | PublishSubmit | ConsensusVote.

#[export] Instance EndpointClass_eq_dec : EqDecision EndpointClass.
Proof. solve_decision. Defined.

(** The three maps from address to bucket. *)
Record RateLimiter := {
  general : gmap string Bucket;
  publish : gmap string Bucket;
  vote : gmap string Bucket;
  rl_config : RateLimitConfig;
}.

Definition limiter_new (cfg : RateLimitConfig) : RateLimiter :=
  {| general := ∅; publish := ∅; vote := ∅; rl_config := cfg |}.

Definition buckets (l : RateLimiter) (c : EndpointClass) : gmap string Bucket :=
  match c with
  | General => general l
  | PublishSubmit => publish l
  | ConsensusVote => vote l
  end.

Definition set_buckets (l : RateLimiter) (c : EndpointClass) (m : gmap string Bucket) : RateLimiter :=
  match c with
  | General => {| general := m; publish := publish l; vote := vote l; rl_config := rl_config l |}
  | PublishSubmit => {| general := general l; publish := m; vote := vote l; rl_config := rl_config l |}
  | ConsensusVote => {| general := general l; publish := publish l; vote := m; rl_config := rl_config l |}
  end.

Definition limit_of (cfg : RateLimitConfig) (c : EndpointClass) : N :=
  match c with
  | General => general_limit cfg
  | PublishSubmit => publish_limit cfg
  | ConsensusVote => vote_limit cfg
  end.

(** [check_general], [check_publish] and [check_vote]. *)
Definition check (now : Z) (l : RateLimiter) (c : EndpointClass) (ip : string)
    : RateLimiter * bool :=
  let '(b, ok) := is_allowed now (window (rl_config l)) (limit_of (rl_config l) c)
                    (default [] (buckets l c !! ip)) in
  (set_buckets l c (<[ip := b]> (buckets l c)), ok).

(** [now - t] saturates at zero. *)
Definition purge_bucket (now window : Z) (b : Bucket) : option Bucket :=
  match filter (λ t, (Z.max 0 (now - t) < window)%Z) b with
  | [] => None
  | ts => Some ts
  end.

Definition purge_expired (now : Z) (l : RateLimiter) : RateLimiter := {|
  general := omap (purge_bucket now (window (rl_config l))) (general l);
  publish := omap (purge_bucket now (window (rl_config l))) (publish l);
  vote := omap (purge_bucket now (window (rl_config l))) (vote l);
  rl_config := rl_config l |}.

Definition is_publish_submit (path method : string) : bool :=
  String.eqb method "POST"
  && (String.eqb path "/v1/packages" || String.eqb path "/v1/publisher/packages").

Definition is_consensus_vote (path method : string) : bool :=
  String.eqb method "POST"
  && (String.eqb path "/v1/consensus/vote" || String.eqb path "/v1/validator/consensus/vote").

(** The bucket a request is charged to by the middleware. *)
Definition endpoint_class (path method : string) : EndpointClass :=
  if is_publish_submit path method then PublishSubmit
  else if is_consensus_vote path method then ConsensusVote
  else General.

(** [rate_limit_middleware] up to the call of the next service: [false] answers with
    429; a request without connection info counts as local. *)
Definition rate_limit_middleware (now : Z) (l : RateLimiter) (connect_info : option string)
    (path method : string) : RateLimiter * bool :=
  check now l (endpoint_class path method) (default "127.0.0.1" connect_info).

(** ** Histories *)

Inductive LimiterEvent :=
| LRequest (connect_info : option string) (path method : string)
| LPurge.

(** The limiter and the log of allowed requests. *)
Definition limiter_step (s : RateLimiter * list (EndpointClass * string * Z))
    (ev : Z * LimiterEvent) : RateLimiter * list (EndpointClass * string * Z) :=
  match ev.2 with
  | LRequest ci path method =>
      let '(l, ok) := rate_limit_middleware ev.1 s.1 ci path method in
      (l, if ok then s.2 ++ [(endpoint_class path method, default "127.0.0.1" ci, ev.1)] else s.2)
  | LPurge => (purge_expired ev.1 s.1, s.2)
  end.

Definition run_limiter (cfg : RateLimitConfig) (evs : list (Z * LimiterEvent)) :=
  foldl limiter_step (limiter_new cfg, []) evs.

(** Times at which requests of one client in one class were allowed. *)
Definition allowed_times (log : list (EndpointClass * string * Z)) (c : EndpointClass)
    (ip : string) : list Z :=
  snd <$> filter (λ e, e.1 = (c, ip)) log.

(** How many of them fall in the window that ends at [t]. *)
Definition in_window (w t : Z) (ts : list Z) : nat :=
  count (λ x, ((t - w <? x) && (x <=? t))%Z) ts.

(** ** The sliding window *)

(** Bucket [b] serves a client whose allowed requests so far are [ts]: up to time
    [cur], what it holds of the current window is exactly the log's. *)
Definition bucket_ok (w : Z) (limit : N) (cur : Z) (b : Bucket) (ts : list Z) : Prop :=
  Forall (λ t, (t ≤ cur)%Z) ts
  ∧ Forall (λ t, (t ≤ cur)%Z) b
  ∧ filter (λ t, (cur - w < t)%Z) b = filter (λ t, (cur - w < t)%Z) ts
  ∧ ∀ T, (N.of_nat (in_window w T ts) ≤ limit)%N.

Lemma Forall_filter (P Q : Z → Prop) `{!∀ x, Decision (Q x)} (l : list Z) :
  Forall P l → Forall P (filter Q l).
Proof. rewrite !Forall_forall. intros Hl x [_ Hx]%list_elem_of_filter. by apply Hl. Qed.

Lemma filter_later (w cur now : Z) (b ts : list Z) :
  (cur ≤ now)%Z →
  filter (λ t, (cur - w < t)%Z) b = filter (λ t, (cur - w < t)%Z) ts →
  filter (λ t, (now - w < t)%Z) b = filter (λ t, (now - w < t)%Z) ts.
Proof.
  intros Hle Heq.
  assert (∀ l : list Z, filter (λ t, (now - w < t)%Z) (filter (λ t, (cur - w < t)%Z) l)
               = filter (λ t, (now - w < t)%Z) l) as Hff.
  { intros l. rewrite list_filter_filter. apply list_filter_iff. intros x. lia. }
  by rewrite <- (Hff b), Heq, Hff.
Qed.

Lemma bucket_ok_later (w : Z) (limit : N) (cur now : Z) (b : Bucket) (ts : list Z) :
  (cur ≤ now)%Z → bucket_ok w limit cur b ts → bucket_ok w limit now b ts.
Proof.
  intros Hle (Hts & Hb & Heq & Hwin).
  split; [|split; [|split; [by apply (filter_later w cur)|done]]];
    (eapply Forall_impl; [eassumption|]; simpl; lia).
Qed.

Lemma in_window_filter (w t : Z) (ts : list Z) :
  Forall (λ x, (x ≤ t)%Z) ts → in_window w t ts = length (filter (λ x, (t - w < x)%Z) ts).
Proof.
  intros Hle. unfold in_window, count. f_equal.
  induction Hle as [|x ts Hx Hall IH]; [done|]. rewrite !filter_cons, IH.
  repeat case_decide; try done; lia.
Qed.

Lemma in_window_snoc (w t now : Z) (ts : list Z) :
  Forall (λ x, (x ≤ now)%Z) ts →
  in_window w t (ts ++ [now]) ≤ in_window w t ts
  ∨ in_window w t (ts ++ [now]) ≤ S (in_window w now ts).
Proof.
  intros Hle. unfold in_window. rewrite count_app. rewrite count_cons, count_nil.
  destruct ((t - w <? now)%Z && (now <=? t)%Z) eqn:Hin; [right|left; lia].
  apply andb_prop in Hin as [H1 H2].
  assert (count (λ x, (t - w <? x)%Z && (x <=? t)%Z) ts
          ≤ count (λ x, (now - w <? x)%Z && (x <=? now)%Z) ts); [|lia].
  clear H1. induction Hle as [|x ts Hx Hall IH]; [done|]. rewrite !count_cons.
  destruct (Z.ltb_spec (t - w) x), (Z.leb_spec x t), (Z.ltb_spec (now - w) x),
    (Z.leb_spec x now); simpl; lia.
Qed.

(** A request is allowed exactly when fewer than [limit] requests were allowed in the
    window that ends with it. *)
Lemma is_allowed_ok (w : Z) (limit : N) (now : Z) (b : Bucket) (ts : list Z) :
  bucket_ok w limit now b ts →
  let '(b', ok) := is_allowed now w limit b in
  ok = (N.of_nat (in_window w now ts) <? limit)%N
  ∧ bucket_ok w limit now b' (if ok then ts ++ [now] else ts).
Proof.
  intros (Hts & Hb & Heq & Hwin). unfold is_allowed.
  rewrite (in_window_filter w now ts Hts), Heq.
  set (f := filter (λ t, (now - w < t)%Z) ts).
  assert (Forall (λ t, (t ≤ now)%Z) f) as Hf by (unfold f; by apply Forall_filter).
  assert (filter (λ t, (now - w < t)%Z) f = f) as Hidem.
  { unfold f. rewrite list_filter_filter. apply list_filter_iff. intros x. tauto. }
  destruct (N.ltb_spec (N.of_nat (length f)) limit) as [Hlt|Hge]; (split; [done|]).
  - split; [by apply Forall_app; split; [|constructor]|].
    split; [by apply Forall_app; split; [|constructor]|].
    split; [by rewrite !filter_app, Hidem|].
    intros T. specialize (Hwin T). destruct (in_window_snoc w T now ts Hts) as [H|H]; [lia|].
    rewrite (in_window_filter w now ts Hts) in H. fold f in H. lia.
  - split; [done|]. split; [done|]. split; [done|done].
Qed.

Lemma purge_bucket_ok (w : Z) (limit : N) (now : Z) (b : Bucket) (ts : list Z) :
  bucket_ok w limit now b ts → bucket_ok w limit now (default [] (purge_bucket now w b)) ts.
Proof.
  intros (Hts & Hb & Heq & Hwin).
  assert (default [] (purge_bucket now w b) = filter (λ t, (Z.max 0 (now - t) < w)%Z) b) as ->
    by (unfold purge_bucket; by case_match).
  split; [done|]. split; [by apply Forall_filter|]. split; [|done].
  rewrite <- Heq, list_filter_filter. clear Heq Hts Hwin.
  induction Hb as [|x b Hx Hall IH]; [done|]. rewrite !filter_cons, IH.
  repeat case_decide; try done; lia.
Qed.

(** ** The limiter *)

Definition limiter_ok (cfg : RateLimitConfig) (cur : Z)
    (s : RateLimiter * list (EndpointClass * string * Z)) : Prop :=
  rl_config s.1 = cfg
  ∧ ∀ c ip, bucket_ok (window cfg) (limit_of cfg c) cur
              (default [] (buckets s.1 c !! ip)) (allowed_times s.2 c ip).

Lemma buckets_set (l : RateLimiter) (c c' : EndpointClass) (m : gmap string Bucket) :
  buckets (set_buckets l c m) c' = (if decide (c' = c) then m else buckets l c').
Proof. by destruct c, c'. Qed.

Lemma allowed_times_snoc (log : list (EndpointClass * string * Z)) (c c' : EndpointClass)
    (ip ip' : string) (t : Z) :
  allowed_times (log ++ [(c, ip, t)]) c' ip'
  = allowed_times log c' ip' ++ (if decide ((c, ip) = (c', ip')) then [t] else []).
Proof.
  unfold allowed_times. rewrite filter_app, fmap_app, filter_cons, filter_nil. simpl.
  by destruct (decide ((c, ip) = (c', ip'))).
Qed.

Lemma purge_buckets (now : Z) (l : RateLimiter) (c : EndpointClass) (ip : string) :
  default [] (buckets (purge_expired now l) c !! ip)
  = default [] (purge_bucket now (window (rl_config l)) (default [] (buckets l c !! ip))).
Proof.
  assert (∀ m : gmap string Bucket,
    default [] (omap (purge_bucket now (window (rl_config l))) m !! ip)
    = default [] (purge_bucket now (window (rl_config l)) (default [] (m !! ip)))) as Hm.
  { intros m. rewrite lookup_omap. by destruct (m !! ip). }
  destruct c; apply Hm.
Qed.

Lemma limiter_ok_step (cfg : RateLimitConfig) (s : RateLimiter * list (EndpointClass * string * Z))
    (ev : Z * LimiterEvent) :
  limiter_ok cfg ev.1 s → limiter_ok cfg ev.1 (limiter_step s ev).
Proof.
  destruct s as [l log], ev as [now [ci path method|]]; intros [Hcfg Hall];
    simpl in Hcfg, Hall; unfold limiter_step; simpl.
  - unfold rate_limit_middleware, check. set (c := endpoint_class path method).
    set (ip := default _ ci). rewrite Hcfg.
    pose proof (is_allowed_ok _ _ _ _ _ (Hall c ip)) as Ha.
    destruct (is_allowed now (window cfg) (limit_of cfg c) _) as [b ok].
    destruct Ha as [_ Hb]. split; [simpl; by destruct c|]. simpl. intros c' ip'.
    rewrite buckets_set.
    assert (allowed_times (if ok then log ++ [(c, ip, now)] else log) c' ip'
            = if ok then allowed_times log c' ip' ++ (if decide ((c, ip) = (c', ip')) then [now] else [])
              else allowed_times log c' ip') as ->.
    { destruct ok; [apply allowed_times_snoc|done]. }
    destruct (decide ((c, ip) = (c', ip'))) as [[= <- <-]|Hne].
    + rewrite decide_True by done. by rewrite lookup_insert_eq.
    + rewrite app_nil_r. replace (if ok then allowed_times log c' ip' else allowed_times log c' ip')
        with (allowed_times log c' ip') by by destruct ok.
      case_decide as Hc; [|done]. subst c'. rewrite lookup_insert_ne by congruence. done.
  - split; [done|]. simpl. intros c ip. rewrite purge_buckets, Hcfg. by apply purge_bucket_ok.
Qed.

Lemma limiter_ok_run (cfg : RateLimitConfig) (evs : list (Z * LimiterEvent)) (now : Z) :
  StronglySorted Z.le (evs.*1 ++ [now]) → limiter_ok cfg now (run_limiter cfg evs).
Proof.
  revert now. induction evs as [|ev evs IH] using rev_ind; intros now.
  - intros _. split; [done|]. intros c ip.
    change (bucket_ok (window cfg) (limit_of cfg c) now (default [] (buckets (limiter_new cfg) c !! ip)) []).
    replace (default [] _) with (@nil Z) by (destruct c; simpl; by rewrite lookup_empty).
    split; [done|]. split; [done|]. split; [done|]. intros T. apply N.le_0_l.
  - rewrite fmap_app. simpl. intros Hs. unfold run_limiter. rewrite foldl_app. simpl.
    assert (ev.1 ≤ now)%Z as Hle
      by (apply (StronglySorted_app_1_elem_of _ _ _ _ _ Hs); set_solver).
    apply StronglySorted_app_1_l, IH, limiter_ok_step in Hs as [Hc Hall].
    split; [done|]. intros c ip. by apply (bucket_ok_later _ _ ev.1).
Qed.

(** C28. The limiter is exact: after any history of requests and purges in time order, a
    request is let through iff fewer than the limit of its client's requests to its
    class of endpoints were let through in the window before it, and in no window
    whatsoever has any client more than the limit let through. *)
Theorem rate_limit_exact (cfg : RateLimitConfig) (evs : list (Z * LimiterEvent)) (now : Z)
    (ci : option string) (path method : string) (T : Z) :
  StronglySorted Z.le (evs.*1 ++ [now]) →
  let c := endpoint_class path method in
  let past := allowed_times (run_limiter cfg evs).2 c (default "127.0.0.1" ci) in
  (rate_limit_middleware now (run_limiter cfg evs).1 ci path method).2
    = (N.of_nat (in_window (window cfg) now past) <? limit_of cfg c)%N
  ∧ (N.of_nat (in_window (window cfg) T past) ≤ limit_of cfg c)%N.
Proof.
  intros [Hcfg Hall]%(limiter_ok_run cfg) c past.
  specialize (Hall c (default "127.0.0.1" ci)). split; [|by apply Hall].
  unfold rate_limit_middleware, check. fold c. rewrite Hcfg.
  apply is_allowed_ok in Hall. by destruct (is_allowed _ _ _ _) as [b ok], Hall as [-> _].
Qed.

(** ** Witnesses *)
Module RateLimitExamples.

Definition small : RateLimitConfig :=
  {| general_limit := 9; publish_limit := 2; vote_limit := 1; window := 60 |}.

Definition post (t : Z) : Z * LimiterEvent := (t, LRequest (Some "10.0.0.1") "/v1/packages" "POST").

Definition burst : list (Z * LimiterEvent) := [post 0; post 10; post 20; (30%Z, LPurge); post 65].

(** Allowed at 0, 10 and 65; refused at 20 and again at 66. *)
Lemma rate_limit_exact_witness :
  (run_limiter small burst).2.*2 = [0; 10; 65]%Z
  ∧ (rate_limit_middleware 66 (run_limiter small burst).1 (Some "10.0.0.1") "/v1/packages" "POST").2
    = false.
Proof.
  split; [vm_compute; reflexivity|].
  refine (proj1 (rate_limit_exact small burst 66 (Some "10.0.0.1") "/v1/packages" "POST" 66 _)).
  repeat constructor; done.
Defined.

End RateLimitExamples.
