(* ===== verification/Gf256.v ===== *)
(** Arithmetic in GF(2^8), in the two implementations the registry has.

    crates/threshold-encryption/src/shamir.rs multiplies by logarithm tables of
    the generator 3; crates/cli/src/recovery.rs multiplies by shift and add.  A
    [u8] field element is an [ascii], the byte type of the [string]s of the
    development, so that the field laws hold of the whole type and [ring] and
    [field] apply.  The tables are computed at compile time, as the [const fn]s
    of the source are; the facts about single elements and pairs are decided by
    evaluation, associativity follows from the logarithms, and distributivity
    from the shift-and-add loop, whose steps are linear. *)

From S2P Require Import Prelude Text.
From Stdlib Require Import Ascii NArith Ring Field.

Abbreviation u8 := ascii.

(** [(0..n)] on an integer type. *)
Definition below (n : nat) : list N := map N.of_nat (seq 0 n).

Lemma elem_of_below (n : nat) (i : N) : (i < N.of_nat n)%N → In i (below n).
Proof.
  intros H. apply in_map_iff. exists (N.to_nat i). rewrite in_seq. split; lia.
Qed.

(** ** The table implementation (shamir.rs) *)
Definition IRREDUCIBLE_POLY : N := 283.     (* 0x11b *)

(** One turn of the loop of [build_exp_table] on the [u16] accumulator. *)
Definition exp_step (val : N) : N :=
  let val := N.lxor (N.shiftl val 1) val in
  if negb (N.land val 256 =? 0)%N then N.lxor val IRREDUCIBLE_POLY else val.

Fixpoint build_exp_loop (n : nat) (val : N) : list u8 :=
  match n with
  | O => []
  | S n' => byte (val mod 256) :: build_exp_loop n' (exp_step val)
  end.

Definition build_exp_table : list u8 := build_exp_loop 256 1.
Definition EXP_TABLE : list u8 := Eval vm_compute in build_exp_table.

Definition exp_at (i : N) : u8 := nth (N.to_nat i) EXP_TABLE "000"%char.

(** [table[exp[i]] = i] for [i] from 0 to 254. *)
Definition build_log_table : list N :=
  foldl (λ t i, <[N.to_nat (N_of_ascii (exp_at i)) := i]> t) (replicate 256 0%N) (below 255).
Definition LOG_TABLE : list N := Eval vm_compute in build_log_table.

Definition log_at (a : u8) : N := nth (N.to_nat (N_of_ascii a)) LOG_TABLE 0%N.

Definition gf_zero : u8 := byte 0.
Definition gf_one : u8 := byte 1.

Definition gf_add (a b : u8) : u8 := byte (N.lxor (N_of_ascii a) (N_of_ascii b)).
Definition gf_sub (a b : u8) : u8 := byte (N.lxor (N_of_ascii a) (N_of_ascii b)).

Definition gf_mul (a b : u8) : u8 :=
  if Ascii.eqb a gf_zero || Ascii.eqb b gf_zero then gf_zero
  else exp_at ((log_at a + log_at b) mod 255).

Definition gf_div (a b : u8) : u8 :=
  if Ascii.eqb a gf_zero || Ascii.eqb b gf_zero then gf_zero
  else exp_at ((log_at a + 255 - log_at b) mod 255).

Definition gf_inverse (a : u8) : u8 :=
  if Ascii.eqb a gf_zero then gf_zero
  else exp_at ((255 - log_at a) mod 255).

(** ** The shift-and-add implementation (recovery.rs) *)
Definition gf256_double (a : u8) : u8 :=
  let shifted := byte (N.shiftl (N_of_ascii a) 1 mod 256) in
  if negb (N.land (N_of_ascii a) 128 =? 0)%N then byte (N.lxor (N_of_ascii shifted) 27)
  else shifted.

Fixpoint gf256_mul_loop (n : nat) (a : u8) (b : N) (res : u8) : u8 :=
  match n with
  | O => res
  | S n' =>
      let res := if negb (N.land b 1 =? 0)%N then gf_add res a else res in
      gf256_mul_loop n' (gf256_double a) (N.shiftr b 1) res
  end.

Definition gf256_mul (a b : u8) : u8 := gf256_mul_loop 8 a (N_of_ascii b) gf_zero.

Definition gf256_inv (a : u8) : u8 :=
  if Ascii.eqb a gf_zero then gf_zero
  else
    let res := Nat.iter 6 (λ r, gf256_mul (gf256_mul r r) a) a in
    gf256_mul res res.

(** ** Deciding facts about bytes by evaluation *)
Definition all_u8 : list u8 := map byte (below 256).

Lemma elem_of_all_u8 (a : u8) : In a all_u8.
Proof.
  unfold all_u8. apply in_map_iff. exists (N_of_ascii a). split; [apply ascii_N_embedding|].
  apply elem_of_below. apply N_ascii_bounded.
Qed.

Lemma u8_forall (P : u8 → bool) : forallb P all_u8 = true → ∀ a, P a = true.
Proof. intros H a. rewrite forallb_forall in H. apply H, elem_of_all_u8. Qed.

Lemma u8_eq_forall (f g : u8 → u8) :
  forallb (λ a, Ascii.eqb (f a) (g a)) all_u8 = true → ∀ a, f a = g a.
Proof. intros H a. apply Ascii.eqb_eq. by apply (u8_forall (λ a, Ascii.eqb (f a) (g a))). Qed.

Ltac by_evaluation := apply u8_eq_forall; vm_compute; reflexivity.

(** ** Addition

    [gf_add] is the exclusive or of the bits. *)
Lemma lxor_digit (a b : bool) (x y : N) :
  N.lxor ((if a then 1 else 0) + 2 * x) ((if b then 1 else 0) + 2 * y)
  = ((if xorb a b then 1 else 0) + 2 * N.lxor x y)%N.
Proof.
  apply N.bits_inj. intros i. rewrite N.lxor_spec, !(N.add_comm _ (2 * _)).
  destruct (N.zero_or_succ i) as [->|[j ->]].
  - destruct a, b; cbn [xorb]; by rewrite ?N.add_0_r, ?N.testbit_odd_0, ?N.testbit_even_0.
  - assert (H : ∀ (c : bool) z, N.testbit (2 * z + (if c then 1 else 0)) (N.succ j) = N.testbit z j).
    { intros [] z; rewrite ?N.add_0_r; [apply N.testbit_odd_succ | apply N.testbit_even_succ]; lia. }
    by rewrite !H, N.lxor_spec.
Qed.

Lemma lxor_digits (l k : list bool) :
  length l = length k →
  N.lxor (N_of_digits l) (N_of_digits k) = N_of_digits (zip_with xorb l k).
Proof.
  revert k. induction l as [|a l IH]; intros [|b k] Hlen; try done.
  injection Hlen as Hlen. simpl zip_with. cbn [N_of_digits]. by rewrite lxor_digit, IH.
Qed.

Lemma gf_add_bits (a0 a1 a2 a3 a4 a5 a6 a7 b0 b1 b2 b3 b4 b5 b6 b7 : bool) :
  gf_add (Ascii a0 a1 a2 a3 a4 a5 a6 a7) (Ascii b0 b1 b2 b3 b4 b5 b6 b7)
  = Ascii (xorb a0 b0) (xorb a1 b1) (xorb a2 b2) (xorb a3 b3)
      (xorb a4 b4) (xorb a5 b5) (xorb a6 b6) (xorb a7 b7).
Proof.
  unfold gf_add, byte, N_of_ascii. rewrite lxor_digits by done. cbn [zip_with].
  apply (ascii_N_embedding (Ascii _ _ _ _ _ _ _ _)).
Qed.

Ltac bits a := destruct a as [? ? ? ? ? ? ? ?].

Lemma gf_add_comm (a b : u8) : gf_add a b = gf_add b a.
Proof. unfold gf_add. by rewrite N.lxor_comm. Qed.

Lemma gf_add_assoc (a b c : u8) : gf_add a (gf_add b c) = gf_add (gf_add a b) c.
Proof. bits a; bits b; bits c. rewrite !gf_add_bits. f_equal; symmetry; apply xorb_assoc_reverse. Qed.

Lemma gf_add_zero_l (a : u8) : gf_add gf_zero a = a.
Proof. bits a. change gf_zero with (Ascii false false false false false false false false).
  rewrite gf_add_bits. f_equal; apply xorb_false_l. Qed.

Lemma gf_add_self (a : u8) : gf_add a a = gf_zero.
Proof. unfold gf_add. by rewrite N.lxor_nilpotent. Qed.

(** ** The tables *)
Lemma exp_log (a : u8) : a ≠ gf_zero → exp_at (log_at a) = a.
Proof.
  intros Ha. pose proof (u8_forall (λ a, Ascii.eqb a gf_zero || Ascii.eqb (exp_at (log_at a)) a)) as H.
  specialize (H ltac:(vm_compute; reflexivity) a). apply orb_true_iff in H as [H|H].
  - by apply Ascii.eqb_eq in H.
  - by apply Ascii.eqb_eq in H.
Qed.

Lemma log_exp (i : N) : (i < 255)%N → log_at (exp_at i) = i ∧ exp_at i ≠ gf_zero.
Proof.
  intros Hi.
  assert (H : forallb (λ i, (log_at (exp_at i) =? i)%N && negb (Ascii.eqb (exp_at i) gf_zero))
                (below 255) = true) by (vm_compute; reflexivity).
  rewrite forallb_forall in H. specialize (H i (elem_of_below 255 i Hi)). apply andb_true_iff in H as [H1 H2].
  apply N.eqb_eq in H1. split; [done|]. intros He. rewrite He in H2. done.
Qed.

Lemma log_lt (a : u8) : (log_at a < 255)%N.
Proof. apply N.ltb_lt. revert a. apply u8_forall. vm_compute. reflexivity. Qed.

Lemma gf_mul_zero_l (a : u8) : gf_mul gf_zero a = gf_zero.
Proof. done. Qed.

Lemma gf_mul_zero_r (a : u8) : gf_mul a gf_zero = gf_zero.
Proof. unfold gf_mul. by destruct (Ascii.eqb a gf_zero). Qed.

Lemma gf_mul_nz (a b : u8) :
  a ≠ gf_zero → b ≠ gf_zero → gf_mul a b = exp_at ((log_at a + log_at b) mod 255).
Proof.
  intros Ha Hb. unfold gf_mul. apply Ascii.eqb_neq in Ha as ->, Hb as ->. done.
Qed.

Lemma log_mul (a b : u8) :
  a ≠ gf_zero → b ≠ gf_zero →
  log_at (gf_mul a b) = ((log_at a + log_at b) mod 255)%N ∧ gf_mul a b ≠ gf_zero.
Proof.
  intros Ha Hb. rewrite gf_mul_nz by done. apply log_exp. by apply N.mod_lt.
Qed.

Lemma gf_mul_integral (a b : u8) : gf_mul a b = gf_zero → a = gf_zero ∨ b = gf_zero.
Proof.
  intros H. destruct (decide (a = gf_zero)), (decide (b = gf_zero)); auto.
  by destruct (log_mul a b).
Qed.

Lemma gf_mul_comm (a b : u8) : gf_mul a b = gf_mul b a.
Proof. unfold gf_mul. by rewrite orb_comm, (N.add_comm (log_at a)). Qed.

Lemma gf_mul_assoc (a b c : u8) : gf_mul a (gf_mul b c) = gf_mul (gf_mul a b) c.
Proof.
  destruct (decide (a = gf_zero)) as [->|Ha]; [by rewrite !gf_mul_zero_l|].
  destruct (decide (b = gf_zero)) as [->|Hb]; [by rewrite (gf_mul_zero_l c), (gf_mul_zero_r a)|].
  destruct (decide (c = gf_zero)) as [->|Hc]; [by rewrite !gf_mul_zero_r|].
  destruct (log_mul a b) as [Eab Hab]; [done..|]. destruct (log_mul b c) as [Ebc Hbc]; [done..|].
  rewrite (gf_mul_nz a (gf_mul b c)), (gf_mul_nz (gf_mul a b) c), Eab, Ebc by done. f_equal.
  rewrite N.Div0.add_mod_idemp_r, N.Div0.add_mod_idemp_l. f_equal. lia.
Qed.

Lemma gf_mul_one_l (a : u8) : gf_mul gf_one a = a.
Proof. revert a. by_evaluation. Qed.

Lemma gf_inverse_l (a : u8) : a ≠ gf_zero → gf_mul (gf_inverse a) a = gf_one.
Proof.
  intros Ha. pose proof (u8_forall (λ a, Ascii.eqb a gf_zero || Ascii.eqb (gf_mul (gf_inverse a) a) gf_one)) as H.
  specialize (H ltac:(vm_compute; reflexivity) a). apply orb_true_iff in H as [H|H];
    by apply Ascii.eqb_eq in H.
Qed.

Lemma gf_inverse_nz (a : u8) : a ≠ gf_zero → gf_inverse a ≠ gf_zero.
Proof. intros Ha Hi. apply gf_inverse_l in Ha. rewrite Hi in Ha. done. Qed.

Lemma gf_div_inverse (a b : u8) : gf_div a b = gf_mul a (gf_inverse b).
Proof.
  destruct (decide (a = gf_zero)) as [->|Ha]; [done|].
  destruct (decide (b = gf_zero)) as [->|Hb].
  { unfold gf_div. change (gf_inverse gf_zero) with gf_zero. rewrite gf_mul_zero_r.
    by destruct (Ascii.eqb a gf_zero). }
  rewrite gf_mul_nz by auto using gf_inverse_nz. unfold gf_div, gf_inverse.
  apply Ascii.eqb_neq in Ha as ->, Hb as ->. cbn [orb]. f_equal.
  pose proof (log_lt b). destruct (log_exp ((255 - log_at b) mod 255)) as [-> _];
    [by apply N.mod_lt|].
  rewrite N.Div0.add_mod_idemp_r. f_equal. lia.
Qed.

(** ** Distributivity

    Multiplying by the generator is linear, and every product with a non-zero
    element is a power of it. *)
Definition gf_two : u8 := byte 2.
Definition times3 (a : u8) : u8 := gf_add (gf256_double a) a.

Lemma gf256_double_bits (b0 b1 b2 b3 b4 b5 b6 b7 : bool) :
  gf256_double (Ascii b0 b1 b2 b3 b4 b5 b6 b7)
  = Ascii b7 (xorb b0 b7) b1 (xorb b2 b7) (xorb b3 b7) b4 b5 b6.
Proof. destruct b0, b1, b2, b3, b4, b5, b6, b7; reflexivity. Qed.

Lemma xorb_shuffle (a b c d : bool) : xorb (xorb a b) (xorb c d) = xorb (xorb a c) (xorb b d).
Proof. by destruct a, b, c, d. Qed.

Lemma gf256_double_add (a b : u8) :
  gf256_double (gf_add a b) = gf_add (gf256_double a) (gf256_double b).
Proof.
  bits a; bits b. rewrite gf_add_bits, !gf256_double_bits, gf_add_bits. f_equal;
    apply xorb_shuffle.
Qed.

Lemma gf_add_shuffle (a b c d : u8) :
  gf_add (gf_add a b) (gf_add c d) = gf_add (gf_add a c) (gf_add b d).
Proof.
  rewrite !gf_add_assoc. f_equal. rewrite <- !gf_add_assoc. f_equal. apply gf_add_comm.
Qed.

Lemma iter_S {A : Type} (n : nat) (f : A → A) (x : A) : Nat.iter (S n) f x = f (Nat.iter n f x).
Proof. done. Qed.

Lemma times3_iter_add (n : nat) (a b : u8) :
  Nat.iter n times3 (gf_add a b) = gf_add (Nat.iter n times3 a) (Nat.iter n times3 b).
Proof.
  induction n as [|n IH]; [done|]. rewrite !iter_S, IH. unfold times3 at 1.
  by rewrite gf256_double_add, gf_add_shuffle.
Qed.

Lemma times3_exp (i : N) : (i < 255)%N → times3 (exp_at i) = exp_at ((i + 1) mod 255).
Proof.
  intros Hi.
  assert (H : forallb (λ i, Ascii.eqb (times3 (exp_at i)) (exp_at ((i + 1) mod 255)))
                (below 255) = true) by (vm_compute; reflexivity).
  rewrite forallb_forall in H. apply Ascii.eqb_eq, (H i (elem_of_below 255 i Hi)).
Qed.

Lemma times3_iter_exp (n : nat) (i : N) :
  (i < 255)%N → Nat.iter n times3 (exp_at i) = exp_at ((i + N.of_nat n) mod 255).
Proof.
  intros Hi. induction n as [|n IH].
  - rewrite N.add_0_r, N.mod_small; done.
  - rewrite !iter_S, IH, times3_exp by (by apply N.mod_lt).
    rewrite N.Div0.add_mod_idemp_l. f_equal. f_equal. lia.
Qed.

Lemma gf_mul_times3 (a c : u8) :
  c ≠ gf_zero → gf_mul a c = Nat.iter (N.to_nat (log_at c)) times3 a.
Proof.
  intros Hc. destruct (decide (a = gf_zero)) as [->|Ha].
  - rewrite gf_mul_zero_l. induction (N.to_nat (log_at c)) as [|n IH]; [done|].
    rewrite iter_S. by rewrite <- IH.
  - rewrite gf_mul_nz by done. rewrite <- (exp_log a) at 2 by done.
    rewrite times3_iter_exp by apply log_lt. by rewrite N2Nat.id.
Qed.

Lemma gf_mul_add_l (a b c : u8) : gf_mul (gf_add a b) c = gf_add (gf_mul a c) (gf_mul b c).
Proof.
  destruct (decide (c = gf_zero)) as [->|Hc]; [by rewrite !gf_mul_zero_r, gf_add_self|].
  rewrite !gf_mul_times3 by done. apply times3_iter_add.
Qed.

(** ** The field *)
Lemma gf_field_theory :
  field_theory gf_zero gf_one gf_add gf_mul gf_sub (λ a, a) gf_div gf_inverse (@eq u8).
Proof.
  split; [split| | |].
  - apply gf_add_zero_l.
  - apply gf_add_comm.
  - apply gf_add_assoc.
  - apply gf_mul_one_l.
  - apply gf_mul_comm.
  - apply gf_mul_assoc.
  - apply gf_mul_add_l.
  - done.
  - apply gf_add_self.
  - done.
  - apply gf_div_inverse.
  - apply gf_inverse_l.
Qed.

(** ** The two implementations agree *)
Section Agreement.
Add Field gf_field : gf_field_theory.

Lemma gf256_double_two (a : u8) : gf256_double a = gf_mul a gf_two.
Proof. revert a. by_evaluation. Qed.

Lemma byte_halve (b : N) :
  (b < 256)%N →
  byte b = gf_add (if negb (N.land b 1 =? 0)%N then gf_one else gf_zero) (gf_mul gf_two (byte (N.shiftr b 1))).
Proof.
  intros Hb.
  assert (H : forallb (λ b, Ascii.eqb (byte b)
      (gf_add (if negb (N.land b 1 =? 0)%N then gf_one else gf_zero) (gf_mul gf_two (byte (N.shiftr b 1)))))
      (below 256) = true) by (vm_compute; reflexivity).
  rewrite forallb_forall in H. apply Ascii.eqb_eq, (H b (elem_of_below 256 b Hb)).
Qed.

Lemma gf256_mul_loop_spec (n : nat) (a : u8) (b : N) (r : u8) :
  n ≤ 8 → (b < 2 ^ N.of_nat n)%N → gf256_mul_loop n a b r = gf_add r (gf_mul a (byte b)).
Proof.
  revert a b r. induction n as [|n IH]; intros a b r Hn Hb.
  - assert (b = 0%N) as -> by (simpl in Hb; lia). change (byte 0) with gf_zero. simpl. ring.
  - cbn [gf256_mul_loop]. assert (Hb' : (b < 256)%N).
    { eapply N.lt_le_trans; [exact Hb|]. apply (N.pow_le_mono_r 2 _ 8); lia. }
    rewrite IH; [|lia|].
    + rewrite (byte_halve b Hb'), gf256_double_two. destruct (negb _); ring.
    + rewrite N.shiftr_div_pow2. apply N.Div0.div_lt_upper_bound.
      change (2 ^ 1)%N with 2%N. by rewrite Nat2N.inj_succ, N.pow_succ_r' in Hb.
Qed.

Lemma gf256_mul_gf_mul (a b : u8) : gf256_mul a b = gf_mul a b.
Proof.
  unfold gf256_mul. rewrite gf256_mul_loop_spec by (try lia; apply N_ascii_bounded).
  unfold byte. rewrite ascii_N_embedding. ring.
Qed.

Lemma gf256_inv_gf_inverse (a : u8) : gf256_inv a = gf_inverse a.
Proof. revert a. by_evaluation. Qed.

End Agreement.

Create Rewrite HintDb gf.
#[export] Hint Rewrite gf256_mul_gf_mul gf256_inv_gf_inverse : gf.
