(* ===== verification/Shamir.v ===== *)
(** Secret sharing over GF(2^8).

    [Sharing] is crates/threshold-encryption/src/shamir.rs, [Recovery] the social
    key recovery of crates/cli/src/recovery.rs, which has its own arithmetic and
    its own interpolation.  Random coefficients are an argument: [gen i j] is the
    [j]-th value drawn for byte [i] of the secret.  [None] is a panic of the
    source (an index out of range).  The polynomials behind both are the lists of
    their coefficients; a non-zero polynomial has fewer roots than coefficients,
    from which interpolation, reconstruction and secrecy follow. *)

From S2P Require Import Prelude Text Crypto Gf256.
From Stdlib Require Import Ascii NArith Ring Field.

(** [iter().enumerate()] *)
Definition enumerate {A : Type} (l : list A) : list (nat * A) := zip (seq 0 (length l)) l.

(** [1..=n] on [u8] *)
Definition one_to (n : nat) : list u8 := map (λ i, byte (N.of_nat i)) (seq 1 n).

(** ** shamir.rs *)
Module Sharing.

Record Share := { index : u8; value : list u8 }.

#[global] Instance share_eq_dec : EqDecision Share.
Proof. solve_decision. Defined.

(** The texts are those of the source; values formatted into them and the texts of
    library errors are left out. *)
Inductive ThresholdError :=
| InvalidThreshold (threshold total : nat)
| ReconstructionFailed (what : string)
| EncryptionError (what : string)
| DecryptionError (what : string)
| InvalidShare (what : string)
| InsufficientShares (got : N) (need : nat)
| IoError (what : string).

(** [ShamirSecretSharing { threshold, total_shares }] *)
Record ShamirSecretSharing := { threshold : nat; total_shares : nat }.

Definition evaluate_polynomial (coefficients : list u8) (x : u8) : u8 :=
  (foldl (λ '(res, power) coeff, (gf_add res (gf_mul coeff power), gf_mul power x))
     (gf_zero, gf_one) coefficients).1.

(** The random polynomial of one byte of the secret. *)
Definition coefficients (gen : nat → nat → u8) (t i : nat) (b : u8) : list u8 :=
  b :: map (gen i) (seq 1 (t - 1)).

Definition split_secret (sss : ShamirSecretSharing) (gen : nat → nat → u8) (secret : list u8)
    : list Share :=
  let xs := one_to (total_shares sss) in
  let shares := foldl
    (λ shares '(i, b),
      zip_with (λ x v, v ++ [evaluate_polynomial (coefficients gen (threshold sss) i b) x]) xs shares)
    (replicate (total_shares sss) []) (enumerate secret) in
  zip_with (λ i v, {| index := i; value := v |}) xs shares.

Definition lagrange_interpolate_at_zero (points : list (u8 * u8)) : u8 :=
  foldl (λ res '(i, (x_i, y_i)),
    let '(numerator, denominator) :=
      foldl (λ '(num, den) '(j, (x_j, _)),
        if i =? j then (num, den) else (gf_mul num x_j, gf_mul den (gf_sub x_j x_i)))
        (gf_one, gf_one) (enumerate points) in
    gf_add res (gf_mul y_i (gf_div numerator denominator)))
  gf_zero (enumerate points).

Definition reconstruct_secret (sss : ShamirSecretSharing) (shares : list Share)
    : option (result ThresholdError (list u8)) :=
  if length shares <? threshold sss then
    Some (Err (InsufficientShares (N.of_nat (length shares) mod 256) (threshold sss)))
  else
    s0 ← shares !! 0;
    secret ← mapM (λ i,
      points ← mapM (λ s, y ← value s !! i; Some (index s, y)) shares;
      Some (lagrange_interpolate_at_zero points)) (seq 0 (length (value s0)));
    Some (Ok secret).

End Sharing.

(** ** recovery.rs *)
Module Recovery.
Section Recovery.
Context `{!Crypto}.

Record GuardianShare := {
  index : u8;
  guardian : string;
  data : string;
  total : nat;
  threshold : nat;
}.

#[global] Instance recovery_share_eq_dec : EqDecision GuardianShare.
Proof. solve_decision. Defined.

Inductive RecoveryError :=
| InvalidPrivateKeyHex
| TooManyGuardians
| ThresholdTooSmall
| ThresholdTooLarge
| NoShares
| NeedMoreShares
| InvalidShareHex.

Definition eval_poly_gf256 (coeffs : list u8) (x : u8) : u8 :=
  (foldl (λ '(res, power) coeff, (gf_add res (gf256_mul coeff power), gf256_mul power x))
     (gf_zero, gf_one) coeffs).1.

Definition lagrange_interpolate_gf256 (points : list (u8 * u8)) (x : u8) : u8 :=
  foldl (λ res '(i, (xi, yi)),
    let '(numerator, denominator) :=
      foldl (λ '(num, den) '(j, (xj, _)),
        if i =? j then (num, den) else (gf256_mul num (gf_add x xj), gf256_mul den (gf_add xi xj)))
        (gf_one, gf_one) (enumerate points) in
    gf_add res (gf256_mul yi (gf256_mul numerator (gf256_inv denominator))))
  gf_zero (enumerate points).

Definition split (gen : nat → nat → u8) (privkey_hex : string) (guardians : list string)
    (threshold : nat) : result RecoveryError (list GuardianShare) :=
  secret ← ok_or InvalidPrivateKeyHex (hex_decode (trim privkey_hex));
  let n := length guardians in
  _ ← ensure (n <=? 255) TooManyGuardians;
  _ ← ensure (negb (threshold <? 2)) ThresholdTooSmall;
  _ ← ensure (negb (n <? threshold)) ThresholdTooLarge;
  let xs := one_to n in
  let shares := foldl
    (λ shares '(i, b),
      zip_with (λ x v, v ++ [eval_poly_gf256 (b :: map (gen i) (seq 1 (threshold - 1))) x]) xs shares)
    (replicate n []) (enumerate (String.list_ascii_of_string secret)) in
  Ok (zip_with (λ '(x, name) bytes,
        {| index := x; guardian := name; data := hex_encode (String.string_of_list_ascii bytes);
           total := n; threshold := threshold |}) (zip xs guardians) shares).

Definition reconstruct (shares : list GuardianShare) : option (result RecoveryError string) :=
  match shares with
  | [] => Some (Err NoShares)
  | s0 :: _ =>
      if length shares <? threshold s0 then Some (Err NeedMoreShares)
      else
        match mapM (λ s, d ← hex_decode (data s); Some (index s, String.list_ascii_of_string d)) shares with
        | None => Some (Err InvalidShareHex)
        | Some share_data =>
            d0 ← share_data !! 0;
            secret ← mapM (λ i,
              points ← mapM (λ '(x, d), y ← d !! i; Some (x, y)) (take (threshold s0) share_data);
              Some (lagrange_interpolate_gf256 points gf_zero)) (seq 0 (length d0.2));
            Some (Ok (hex_encode (String.string_of_list_ascii secret)))
        end
  end.

End Recovery.
End Recovery.

(** ** Polynomials as coefficient lists *)
Section Polynomials.

(** Horner's scheme. *)
Fixpoint peval (p : list u8) (x : u8) : u8 :=
  match p with
  | [] => gf_zero
  | c :: p' => gf_add c (gf_mul x (peval p' x))
  end.

Add Field gf_field' : gf_field_theory.

Lemma gf_sub_zero (a b : u8) : gf_sub a b = gf_zero → a = b.
Proof. intros H. transitivity (gf_add (gf_sub a b) b); [ring|]. rewrite H. ring. Qed.

Lemma gf_sub_ne (a b : u8) : a ≠ b → gf_sub a b ≠ gf_zero.
Proof. intros Hne H. by apply Hne, gf_sub_zero. Qed.

(** Synthetic division of [c :: p] by [x - a]: remainder and quotient. *)
Fixpoint sdiv (a c : u8) (p : list u8) : u8 * list u8 :=
  match p with
  | [] => (c, [])
  | c' :: p' => let '(r, q) := sdiv a c' p' in (gf_add c (gf_mul a r), r :: q)
  end.

Lemma sdiv_spec (a c : u8) (p : list u8) :
  let '(r, q) := sdiv a c p in
  length q = length p ∧
  r = peval (c :: p) a ∧
  (∀ x, peval (c :: p) x = gf_add r (gf_mul (gf_sub x a) (peval q x))) ∧
  (r = gf_zero → Forall (.= gf_zero) q → Forall (.= gf_zero) (c :: p)).
Proof.
  revert c. induction p as [|c' p IH]; intros c; simpl.
  - split_and!; [done|ring|intros x; ring|]. intros -> _. by constructor.
  - specialize (IH c'). destruct (sdiv a c' p) as [r q]. destruct IH as (Hl & Hr & Hx & Hz).
    split_and!; [simpl; congruence | by rewrite Hr | |].
    + intros x. change (gf_add c' (gf_mul x (peval p x))) with (peval (c' :: p) x). rewrite Hx.
      simpl. ring.
    + intros H0 [Hr0 Hq]%Forall_cons. specialize (Hz Hr0 Hq). constructor; [|done].
      rewrite <- H0, Hr0. ring.
Qed.

(** A polynomial with at least as many distinct roots as coefficients has only
    zero coefficients. *)
Lemma roots_zero (xs p : list u8) :
  NoDup xs → length p ≤ length xs → Forall (λ x, peval p x = gf_zero) xs → Forall (.= gf_zero) p.
Proof.
  revert p. induction xs as [|a xs IH]; intros p Hnd Hlen Hroots.
  - by destruct p; [|simpl in Hlen; lia].
  - destruct p as [|c p]; [done|]. apply NoDup_cons in Hnd as [Ha Hnd].
    apply Forall_cons in Hroots as [Hroot Hroots].
    pose proof (sdiv_spec a c p) as Hs. destruct (sdiv a c p) as [r q].
    destruct Hs as (Hl & Hr & Hx & Hz). rewrite Hroot in Hr. apply Hz; [done|].
    apply IH; [done | simpl in Hlen; lia |]. rewrite Forall_forall in Hroots |- *.
    intros x Hin. pose proof (Hroots x Hin) as H0. rewrite Hx, Hr, gf_add_zero_l in H0.
    apply gf_mul_integral in H0 as [H0|H0]; [|done].
    apply gf_sub_zero in H0 as ->. contradiction.
Qed.

Lemma peval_zero (p : list u8) (x : u8) : Forall (.= gf_zero) p → peval p x = gf_zero.
Proof. induction 1 as [|c p -> Hp IH]; simpl; [done|]. rewrite IH. ring. Qed.

(** Pointwise sum of coefficient lists. *)
Fixpoint padd (p q : list u8) : list u8 :=
  match p, q with
  | [], _ => q
  | _, [] => p
  | a :: p', b :: q' => gf_add a b :: padd p' q'
  end.

Lemma length_padd (p q : list u8) : length (padd p q) = max (length p) (length q).
Proof. revert q. induction p as [|a p IH]; intros [|b q]; simpl; try done. by rewrite IH. Qed.

Lemma peval_padd (p q : list u8) (x : u8) :
  peval (padd p q) x = gf_add (peval p x) (peval q x).
Proof. revert q. induction p as [|a p IH]; intros [|b q]; simpl; try rewrite IH; ring. Qed.

Lemma peval_scale (c : u8) (p : list u8) (x : u8) :
  peval (map (gf_mul c) p) x = gf_mul c (peval p x).
Proof. induction p as [|a p IH]; simpl; [ring|]. rewrite IH. ring. Qed.

(** Functions given by a polynomial with at most [n] coefficients. *)
Definition is_poly (n : nat) (f : u8 → u8) : Prop :=
  ∃ p, length p ≤ n ∧ ∀ x, f x = peval p x.

Lemma is_poly_eval (p : list u8) : is_poly (length p) (peval p).
Proof. by exists p. Qed.

Lemma is_poly_zero (n : nat) : is_poly n (λ _, gf_zero).
Proof. exists []. simpl. split; [lia|done]. Qed.

Lemma is_poly_add (n : nat) (f g : u8 → u8) :
  is_poly n f → is_poly n g → is_poly n (λ x, gf_add (f x) (g x)).
Proof.
  intros (p & Hp & Hf) (q & Hq & Hg). exists (padd p q). rewrite length_padd. split; [lia|].
  intros x. by rewrite peval_padd, Hf, Hg.
Qed.

Lemma is_poly_scale (n : nat) (c : u8) (f : u8 → u8) :
  is_poly n f → is_poly n (λ x, gf_mul c (f x)).
Proof.
  intros (p & Hp & Hf). exists (map (gf_mul c) p). rewrite length_map. split; [done|].
  intros x. by rewrite peval_scale, Hf.
Qed.

Lemma is_poly_linear (n : nat) (a : u8) (f : u8 → u8) :
  is_poly n f → is_poly (S n) (λ x, gf_mul (gf_sub x a) (f x)).
Proof.
  intros (p & Hp & Hf). exists (padd (gf_zero :: p) (map (gf_mul a) p)).
  rewrite length_padd, length_map. split; [simpl; lia|].
  intros x. rewrite peval_padd, peval_scale, Hf. simpl.
  change (gf_sub x a) with (gf_add x a). ring.
Qed.

(** Two polynomials with at most [n] coefficients that agree at [n] points are
    the same function. *)
Lemma is_poly_unique (n : nat) (f g : u8 → u8) (xs : list u8) :
  is_poly n f → is_poly n g → NoDup xs → n ≤ length xs →
  Forall (λ x, f x = g x) xs → ∀ x, f x = g x.
Proof.
  intros Hf Hg Hnd Hlen Hagree x.
  destruct (is_poly_add n f g Hf Hg) as (p & Hp & He).
  assert (Hz : Forall (.= gf_zero) p).
  { apply (roots_zero xs); [done|lia|]. eapply Forall_impl; [exact Hagree|]. simpl.
    intros y Hy. rewrite <- He, Hy. apply gf_add_self. }
  apply gf_sub_zero. change (gf_sub (f x) (g x)) with (gf_add (f x) (g x)).
  rewrite He. by apply peval_zero.
Qed.

End Polynomials.

(** ** The loops compute polynomials and interpolation *)
Section Loops.
Add Field gf_field'' : gf_field_theory.

Lemma evaluate_loop (cs : list u8) (x r pw : u8) :
  (foldl (λ '(res, power) coeff, (gf_add res (gf_mul coeff power), gf_mul power x)) (r, pw) cs).1
  = gf_add r (gf_mul pw (peval cs x)).
Proof.
  revert r pw. induction cs as [|c cs IH]; intros r pw; simpl; [ring|]. rewrite IH. ring.
Qed.

Lemma evaluate_polynomial_peval (cs : list u8) (x : u8) :
  Sharing.evaluate_polynomial cs x = peval cs x.
Proof. unfold Sharing.evaluate_polynomial. rewrite evaluate_loop. ring. Qed.

Lemma foldl_ext_all {A B : Type} (f g : A → B → A) (a : A) (l : list B) :
  (∀ a b, f a b = g a b) → foldl f a l = foldl g a l.
Proof. intros H. revert a. induction l as [|b l IH]; intros a; simpl; [done|]. by rewrite H, IH. Qed.

Lemma eval_poly_gf256_peval (cs : list u8) (x : u8) :
  Recovery.eval_poly_gf256 cs x = peval cs x.
Proof.
  rewrite <- evaluate_polynomial_peval. unfold Recovery.eval_poly_gf256, Sharing.evaluate_polynomial.
  f_equal. apply foldl_ext_all. intros [r p] c. by autorewrite with gf.
Qed.

(** The product of [x - x_j]. *)
Definition prod (xs : list u8) (x : u8) : u8 := foldr (λ a acc, gf_mul (gf_sub x a) acc) gf_one xs.

Lemma is_poly_prod (xs : list u8) : is_poly (S (length xs)) (prod xs).
Proof.
  induction xs as [|a xs IH]; simpl.
  - exists [gf_one]. split; [simpl; lia|]. intros x. simpl. ring.
  - by apply is_poly_linear.
Qed.

Lemma prod_zero (xs : list u8) (x : u8) : x ∈ xs → prod xs x = gf_zero.
Proof.
  induction 1 as [xs|a xs b _ IH]; simpl; [ring|]. rewrite IH. ring.
Qed.

Lemma prod_nz (xs : list u8) (x : u8) : x ∉ xs → prod xs x ≠ gf_zero.
Proof.
  induction xs as [|a xs IH]; intros Hx; simpl; [done|].
  apply not_elem_of_cons in Hx as [Hne Hx]. intros [H|H]%gf_mul_integral.
  - by apply gf_sub_ne in Hne.
  - by apply IH.
Qed.

(** The inner loop of interpolation skips the point of its own index. *)
Lemma skip_loop {A B : Type} (g : A → B → A) (i k : nat) (a : A) (l : list B) :
  foldl (λ acc '(j, p), if i =? j then acc else g acc p) a (zip (seq k (length l)) l)
  = foldl g a (if decide (k ≤ i) then delete (i - k) l else l).
Proof.
  revert k a. induction l as [|b l IH]; intros k a; simpl.
  { destruct (decide _); [|done]. by destruct (i - k). }
  destruct (Nat.eqb_spec i k) as [->|Hne].
  - rewrite IH, decide_False by lia. rewrite decide_True by lia. by rewrite Nat.sub_diag.
  - rewrite IH. destruct (decide (k ≤ i)) as [Hle|Hle].
    + rewrite decide_True by lia. destruct (i - k) as [|m] eqn:E; [lia|]. simpl.
      by replace (i - S k) with m by lia.
    + by rewrite decide_False by lia.
Qed.

Lemma basis_loop (x xi n d : u8) (l : list (u8 * u8)) :
  foldl (λ '(num, den) (p : u8 * u8),
     (gf_mul num (gf_sub x p.1), gf_mul den (gf_sub xi p.1))) (n, d) l
  = (gf_mul n (prod l.*1 x), gf_mul d (prod l.*1 xi)).
Proof.
  revert n d. induction l as [|p l IH]; intros n d; simpl; [apply f_equal2; ring|].
  by rewrite IH, !gf_mul_assoc.
Qed.

Definition gsum (l : list u8) : u8 := foldr gf_add gf_zero l.

Lemma foldl_gsum {A : Type} (f : A → u8) (r : u8) (l : list A) :
  foldl (λ res p, gf_add res (f p)) r l = gf_add r (gsum (f <$> l)).
Proof.
  revert r. induction l as [|a l IH]; intros r; simpl; [ring|]. by rewrite IH, gf_add_assoc.
Qed.

(** The Lagrange term of the point with index [i]. *)
Definition term (points : list (u8 * u8)) (x : u8) (i : nat) (p : u8 * u8) : u8 :=
  let others := (delete i points).*1 in
  gf_mul p.2 (gf_mul (prod others x) (gf_inverse (prod others p.1))).

Lemma interpolate_terms (points : list (u8 * u8)) (x : u8) :
  Recovery.lagrange_interpolate_gf256 points x
  = gsum ((λ '(i, p), term points x i p) <$> enumerate points).
Proof.
  unfold Recovery.lagrange_interpolate_gf256.
  transitivity (foldl (λ res ip, gf_add res (term points x ip.1 ip.2)) gf_zero (enumerate points)).
  - apply foldl_ext_all. intros r [i [xi yi]]. simpl.
    rewrite (foldl_ext_all _ (λ acc '(j, p), if i =? j then acc
      else (λ '(num, den) (p : u8 * u8),
              (gf_mul num (gf_sub x p.1), gf_mul den (gf_sub xi p.1))) acc p)).
    2:{ intros [n d] [j [xj yj]]. autorewrite with gf. by destruct (i =? j). }
    unfold enumerate. rewrite skip_loop, decide_True, Nat.sub_0_r, basis_loop by lia.
    autorewrite with gf. unfold term. simpl. rewrite !gf_mul_one_l. done.
  - rewrite (foldl_gsum (λ ip, term points x ip.1 ip.2)), gf_add_zero_l. f_equal.
    apply list_fmap_ext. by intros ? [i p] _.
Qed.

Lemma gsum_cons (a : u8) (l : list u8) : gsum (a :: l) = gf_add a (gsum l).
Proof. done. Qed.

Lemma gsum_zero (l : list u8) : Forall (.= gf_zero) l → gsum l = gf_zero.
Proof. induction 1 as [|a l -> _ IH]; [done|]. by rewrite gsum_cons, IH. Qed.

Lemma gsum_single {A : Type} (f : nat → A → u8) (k m : nat) (l : list A) (a : A) :
  l !! m = Some a → (∀ i b, i ≠ k + m → f i b = gf_zero) →
  gsum ((λ '(i, p), f i p) <$> zip (seq k (length l)) l) = f (k + m) a.
Proof.
  revert k m. induction l as [|b l IH]; intros k m Hm Hz; [done|].
  cbn [length seq zip_with]. rewrite fmap_cons, gsum_cons. destruct m as [|m]; simpl in Hm.
  - injection Hm as ->. rewrite gsum_zero, Nat.add_0_r; [ring|].
    apply Forall_fmap, Forall_forall. intros [i c] Hin. simpl. apply Hz.
    apply elem_of_zip_l, elem_of_seq in Hin. lia.
  - rewrite (IH (S k) m Hm); [|intros i c Hi; apply Hz; lia].
    rewrite (Hz k) by lia. rewrite gf_add_zero_l. f_equal. lia.
Qed.

Lemma is_poly_gsum {A : Type} (n : nat) (f : A → u8 → u8) (l : list A) :
  Forall (λ a, is_poly n (f a)) l → is_poly n (λ x, gsum ((λ a, f a x) <$> l)).
Proof.
  induction 1 as [|a l Ha _ IH]; [apply is_poly_zero|]. by apply (is_poly_add n (f a)).
Qed.

(** Interpolation is a polynomial with as many coefficients as points ... *)
Lemma interpolate_is_poly (points : list (u8 * u8)) :
  is_poly (length points) (Recovery.lagrange_interpolate_gf256 points).
Proof.
  destruct (is_poly_gsum (length points) (λ '(i, p) x, term points x i p) (enumerate points))
    as (q & Hq & He).
  - apply Forall_forall. intros [i p] Hin. apply elem_of_zip_l, elem_of_seq in Hin.
    unfold term. apply is_poly_scale.
    destruct (is_poly_prod (delete i points).*1) as (r & Hr & Hx).
    exists (map (gf_mul (gf_inverse (prod (delete i points).*1 p.1))) r).
    rewrite length_map. rewrite length_fmap, length_delete in Hr by (apply lookup_lt_is_Some; lia).
    split; [lia|]. intros x. rewrite peval_scale, Hx. apply gf_mul_comm.
  - exists q. split; [done|]. intros x. rewrite interpolate_terms, <- He. f_equal.
    apply list_fmap_ext. by intros ? [i p] _.
Qed.

(** ... that goes through every point. *)
Lemma interpolate_point (points : list (u8 * u8)) (k : nat) (p : u8 * u8) :
  NoDup points.*1 → points !! k = Some p →
  Recovery.lagrange_interpolate_gf256 points p.1 = p.2.
Proof.
  intros Hnd Hk. rewrite interpolate_terms. unfold enumerate.
  assert (Hin : ∀ i, i ≠ k → p.1 ∈ (delete i points).*1).
  { intros i Hi. apply list_elem_of_fmap. exists p. split; [done|].
    apply list_elem_of_lookup. destruct (decide (k < i)).
    - exists k. by rewrite list_lookup_delete_lt.
    - exists (k - 1). rewrite list_lookup_delete_ge by lia. by replace (S (k - 1)) with k by lia. }
  rewrite (gsum_single (term points p.1) 0 k points p Hk).
  - unfold term. simpl. set (others := (delete k points).*1).
    assert (prod others p.1 ≠ gf_zero) as Hnz; [|field; done].
    apply prod_nz. unfold others. rewrite (delete_take_drop _ k), fmap_app.
    rewrite <- (take_drop_middle points k p Hk), fmap_app, fmap_cons in Hnd.
    apply NoDup_app in Hnd as (_ & Hd & [Hd' _]%NoDup_cons). intros [H|H]%elem_of_app; [|done].
    apply (Hd p.1 H). by left.
  - intros i q Hi. unfold term. rewrite prod_zero by (apply Hin; lia). ring.
Qed.

End Loops.

(** ** Splitting *)
Section Splitting.
Add Field gf_field3 : gf_field_theory.

Lemma zip_with_map_r {A B C : Type} (h : A → B → C) (g : A → B) (xs : list A) :
  zip_with h xs (map g xs) = map (λ x, h x (g x)) xs.
Proof. induction xs as [|x xs IH]; simpl; [done|]. by rewrite IH. Qed.

(** Pushing one value per element onto every vector, in order. *)
Lemma push_loop {A E : Type} (f : E → A → u8) (xs : list A) (g : A → list u8) (l : list E) :
  foldl (λ shares e, zip_with (λ x v, v ++ [f e x]) xs shares) (map g xs) l
  = map (λ x, g x ++ map (λ e, f e x) l) xs.
Proof.
  revert g. induction l as [|e l IH]; intros g; simpl.
  - apply map_ext. intros x. by rewrite app_nil_r.
  - rewrite (zip_with_map_r (λ x v, v ++ [f e x])), (IH (λ x, g x ++ [f e x])).
    apply map_ext. intros x. by rewrite <- app_assoc.
Qed.

Lemma length_one_to (n : nat) : length (one_to n) = n.
Proof. unfold one_to. by rewrite length_map, length_seq. Qed.

Lemma replicate_map {A : Type} (xs : list A) :
  replicate (length xs) (@nil u8) = map (λ _, []) xs.
Proof. induction xs as [|x xs IH]; simpl; [done|]. by rewrite IH. Qed.

Lemma replicate_one_to (n : nat) : replicate n (@nil u8) = map (λ _, []) (one_to n).
Proof. rewrite <- replicate_map. by rewrite length_one_to. Qed.

Lemma byte_inj (i j : nat) :
  i ≤ 255 → j ≤ 255 → byte (N.of_nat i) = byte (N.of_nat j) → i = j.
Proof.
  intros Hi Hj H. apply (f_equal N_of_ascii) in H. unfold byte in H.
  rewrite !N_ascii_embedding in H by lia. lia.
Qed.

Lemma NoDup_one_to (n : nat) : n ≤ 255 → NoDup (one_to n) ∧ gf_zero ∉ one_to n.
Proof.
  intros Hn. unfold one_to. split.
  - apply NoDup_ListNoDup, NoDup_map_NoDup_ForallPairs; [|apply seq_NoDup].
    intros i j Hi Hj. apply in_seq in Hi, Hj. apply byte_inj; lia.
  - intros Hin. apply list_elem_of_In, in_map_iff in Hin as (i & Hi & Hin). apply in_seq in Hin.
    change gf_zero with (byte (N.of_nat 0)) in Hi. apply byte_inj in Hi; lia.
Qed.

(** The value of the share at [x]: byte by byte, the polynomial of the byte. *)
Definition share_at (gen : nat → nat → u8) (t : nat) (secret : list u8) (x : u8) : list u8 :=
  map (λ '(i, b), peval (Sharing.coefficients gen t i b) x) (enumerate secret).

Lemma split_secret_spec (sss : Sharing.ShamirSecretSharing) (gen : nat → nat → u8) (secret : list u8) :
  Sharing.split_secret sss gen secret
  = map (λ x, {| Sharing.index := x;
                 Sharing.value := share_at gen (Sharing.threshold sss) secret x |})
      (one_to (Sharing.total_shares sss)).
Proof.
  unfold Sharing.split_secret.
  rewrite (foldl_ext_all _ (λ shares e, zip_with (λ x v,
    v ++ [(λ '(i, b) x, peval (Sharing.coefficients gen (Sharing.threshold sss) i b) x) e x])
    (one_to (Sharing.total_shares sss)) shares)).
  2:{ intros shares [i b]. apply zip_with_ext; [|done..]. intros x v.
      by rewrite evaluate_polynomial_peval. }
  rewrite replicate_one_to, push_loop, zip_with_map_r. apply map_ext. intros x. f_equal.
  simpl. apply map_ext. by intros [i b].
Qed.

Lemma length_enumerate {A : Type} (l : list A) : length (enumerate l) = length l.
Proof. unfold enumerate. rewrite length_zip_with, length_seq. lia. Qed.

Lemma lookup_enumerate {A : Type} (l : list A) (i : nat) : enumerate l !! i = (λ a, (i, a)) <$> l !! i.
Proof.
  unfold enumerate. rewrite lookup_zip_with. destruct (l !! i) as [a|] eqn:Hi; simpl.
  - by rewrite lookup_seq_lt by (eapply lookup_lt_Some; eauto).
  - by destruct (seq _ _ !! i).
Qed.

Lemma length_share_at gen t secret x : length (share_at gen t secret x) = length secret.
Proof. unfold share_at. by rewrite length_map, length_enumerate. Qed.

Lemma lookup_share_at gen t secret x i b :
  secret !! i = Some b →
  share_at gen t secret x !! i = Some (peval (Sharing.coefficients gen t i b) x).
Proof.
  intros Hi. unfold share_at. change @map with (λ A B, @fmap list _ A B). cbv beta.
  rewrite list_lookup_fmap, lookup_enumerate, Hi. done.
Qed.

Lemma coefficients_length gen t i b : 1 ≤ t → length (Sharing.coefficients gen t i b) = t.
Proof. intros Ht. unfold Sharing.coefficients. simpl. rewrite length_map, length_seq. lia. Qed.

Lemma peval_at_zero (c : u8) (p : list u8) : peval (c :: p) gf_zero = c.
Proof. simpl. ring. Qed.

(** Points of one polynomial give back its value at zero. *)
Lemma interpolate_polynomial (cs xs : list u8) (x : u8) :
  NoDup xs → length cs ≤ length xs →
  Recovery.lagrange_interpolate_gf256 (map (λ x, (x, peval cs x)) xs) x = peval cs x.
Proof.
  intros Hnd Hlen. set (points := map (λ x, (x, peval cs x)) xs).
  assert (Hfst : points.*1 = xs).
  { unfold points. clear. induction xs as [|y xs IH]; [done|]. cbn [map]. rewrite fmap_cons, IH. done. }
  assert (Hl : length points = length xs) by (unfold points; apply length_map).
  apply (is_poly_unique (length xs) _ _ xs); [| | done | done |].
  - rewrite <- Hl. apply interpolate_is_poly.
  - destruct (is_poly_eval cs) as (p & Hp & He). exists p. split; [lia|done].
  - apply Forall_forall. intros y [k Hk]%list_elem_of_lookup.
    apply (interpolate_point points k (y, peval cs y)); [by rewrite Hfst|].
    unfold points. change @map with (λ A B, @fmap list _ A B). cbv beta.
    by rewrite list_lookup_fmap, Hk.
Qed.

(** The two interpolations are the same function of the points. *)
Lemma lagrange_at_zero_eq (points : list (u8 * u8)) :
  Sharing.lagrange_interpolate_at_zero points = Recovery.lagrange_interpolate_gf256 points gf_zero.
Proof.
  unfold Sharing.lagrange_interpolate_at_zero, Recovery.lagrange_interpolate_gf256.
  apply foldl_ext_all. intros r [i [xi yi]].
  rewrite (foldl_ext_all _ (λ '(num, den) '(j, (x_j, _)),
    if i =? j then (num, den)
    else (gf256_mul num (gf_add gf_zero x_j), gf256_mul den (gf_add xi x_j)))).
  - destruct (foldl _ _ _) as [n d]. autorewrite with gf. by rewrite gf_div_inverse.
  - intros [n d] [j [xj yj]]. destruct (i =? j); [done|]. autorewrite with gf.
    by rewrite gf_add_zero_l, (gf_add_comm xi).
Qed.
End Splitting.

(** ** Reconstruction *)
Section Reconstruction.
Context (sss : Sharing.ShamirSecretSharing) (gen : nat → nat → u8).

Lemma mapM_map {A B : Type} (f : A → option B) (g : A → B) (l : list A) :
  Forall (λ a, f a = Some (g a)) l → mapM f l = Some (map g l).
Proof. induction 1 as [|a l Ha _ IH]; [done|]. simpl. by rewrite Ha; simpl; rewrite IH. Qed.

Lemma map_seq_lookup {A : Type} (l : list A) (f : nat → A) :
  (∀ i a, l !! i = Some a → f i = a) → map f (seq 0 (length l)) = l.
Proof.
  intros Hf. apply list_eq. intros i. change @map with (λ A B, @fmap list _ A B). cbv beta.
  rewrite list_lookup_fmap. destruct (l !! i) as [a|] eqn:Hi.
  - rewrite lookup_seq_lt by (eapply lookup_lt_Some; eauto). simpl. f_equal. by apply Hf.
  - apply lookup_ge_None in Hi. rewrite lookup_seq_ge by lia. done.
Qed.

(** The bytes both reconstructions compute from shares of [secret]: any list of
    at least [t] different points, whatever the interpolation is given them by. *)
Lemma interpolate_shares (t : nat) (secret xs : list u8) :
  1 ≤ t → NoDup xs → t ≤ length xs →
  mapM (λ i, points ← mapM (λ x, y ← share_at gen t secret x !! i; Some (x, y)) xs;
             Some (Recovery.lagrange_interpolate_gf256 points gf_zero)) (seq 0 (length secret))
  = Some secret.
Proof.
  intros Ht Hnd Hlen.
  set (coeffs i := Sharing.coefficients gen t i (default gf_zero (secret !! i))).
  rewrite (mapM_map _ (λ i, peval (coeffs i) gf_zero)).
  - f_equal. apply map_seq_lookup. intros i b Hi. unfold coeffs. rewrite Hi. apply peval_at_zero.
  - apply Forall_forall. intros i Hi%elem_of_seq.
    destruct (lookup_lt_is_Some_2 secret i ltac:(lia)) as [b Hb].
    rewrite (mapM_map _ (λ x, (x, peval (coeffs i) x))).
    + cbn [mbind option_bind]. f_equal. apply interpolate_polynomial; [done|]. unfold coeffs.
      by rewrite coefficients_length.
    + apply Forall_forall. intros x _. rewrite (lookup_share_at _ _ _ _ _ _ Hb). simpl.
      unfold coeffs. by rewrite Hb.
Qed.

Definition as_share (t : nat) (secret : list u8) (x : u8) : Sharing.Share :=
  {| Sharing.index := x; Sharing.value := share_at gen t secret x |}.

Lemma selected_shares (secret : list u8) (sel : list Sharing.Share) :
  sel ⊆ Sharing.split_secret sss gen secret →
  sel = map (as_share (Sharing.threshold sss) secret) (map Sharing.index sel).
Proof.
  intros Hsub. rewrite split_secret_spec in Hsub. induction sel as [|s sel IH]; [done|]. simpl.
  rewrite <- IH by set_solver. f_equal.
  assert (Hs : In s (map (as_share (Sharing.threshold sss) secret)
                      (one_to (Sharing.total_shares sss)))).
  { apply list_elem_of_In. set_solver. }
  apply in_map_iff in Hs as (x & <- & _). done.
Qed.

Lemma mapM_map_in {A B C : Type} (f : B → option C) (g : A → B) (l : list A) :
  mapM f (map g l) = mapM (λ a, f (g a)) l.
Proof. induction l as [|a l IH]; [done|]. simpl. by rewrite IH. Qed.

Lemma mapM_ext_all {A B : Type} (f g : A → option B) (l : list A) :
  (∀ a, f a = g a) → mapM f l = mapM g l.
Proof. intros H. induction l as [|a l IH]; [done|]. simpl. by rewrite H, IH. Qed.
End Reconstruction.

Lemma reconstruct_shares (sss : Sharing.ShamirSecretSharing) (gen : nat → nat → u8)
    (secret : list u8) (sel : list Sharing.Share) :
  1 ≤ Sharing.threshold sss →
  sel ⊆ Sharing.split_secret sss gen secret →
  NoDup (map Sharing.index sel) →
  Sharing.threshold sss ≤ length sel →
  Sharing.reconstruct_secret sss sel = Some (Ok secret).
Proof.
  intros Ht Hsub Hnd Hlen. unfold Sharing.reconstruct_secret.
  rewrite (proj2 (Nat.ltb_ge _ _) Hlen).
  apply selected_shares in Hsub. set (xs := map Sharing.index sel) in *.
  assert (Hxs : length xs = length sel) by apply length_map.
  assert (∃ x, sel !! 0 = Some (as_share gen (Sharing.threshold sss) secret x)) as [x ->].
  { rewrite Hsub. destruct xs as [|x ?]; [simpl in Hxs; lia|]. by exists x. }
  cbn [mbind option_bind as_share Sharing.value]. rewrite length_share_at, Hsub.
  rewrite (mapM_ext_all _ (λ i,
    points ← mapM (λ x, y ← share_at gen (Sharing.threshold sss) secret x !! i; Some (x, y)) xs;
    Some (Recovery.lagrange_interpolate_gf256 points gf_zero))).
  - by rewrite interpolate_shares by (try done; lia).
  - intros i. rewrite mapM_map_in. cbn [as_share Sharing.value Sharing.index].
    by destruct (mapM _ xs); simpl; rewrite ?lagrange_at_zero_eq.
Qed.

(** C18. Any shares with different indices, at least as many as the threshold, in any
    order, give back the secret. *)
Theorem split_reconstruct (sss : Sharing.ShamirSecretSharing) (gen : nat → nat → u8)
    (secret : list u8) (sel : list Sharing.Share) :
  1 ≤ Sharing.threshold sss →
  sel ⊆ Sharing.split_secret sss gen secret →
  NoDup (map Sharing.index sel) →
  Sharing.threshold sss ≤ length sel →
  Sharing.reconstruct_secret sss sel = Some (Ok secret).
Proof. apply reconstruct_shares. Qed.

(** Fewer shares than the threshold are refused with the two counts. *)
Lemma reconstruct_insufficient (sss : Sharing.ShamirSecretSharing) (sel : list Sharing.Share) :
  length sel < Sharing.threshold sss →
  Sharing.reconstruct_secret sss sel
  = Some (Err (Sharing.InsufficientShares (N.of_nat (length sel) mod 256) (Sharing.threshold sss))).
Proof. intros H. unfold Sharing.reconstruct_secret. by rewrite (proj2 (Nat.ltb_lt _ _) H). Qed.

(** Shares of one length never make [reconstruct_secret] panic. *)
Lemma reconstruct_total (sss : Sharing.ShamirSecretSharing) (sel : list Sharing.Share) (n : nat) :
  sel ≠ [] → Forall (λ s, length (Sharing.value s) = n) sel → Sharing.threshold sss ≤ length sel →
  ∃ secret, Sharing.reconstruct_secret sss sel = Some (Ok secret) ∧ length secret = n.
Proof.
  intros Hne Hlen Ht. unfold Sharing.reconstruct_secret. rewrite (proj2 (Nat.ltb_ge _ _) Ht).
  destruct sel as [|s0 sel'] eqn:Esel; [done|]. rewrite <- Esel in *.
  assert (sel !! 0 = Some s0) as -> by (by rewrite Esel). cbn [mbind option_bind].
  assert (length (Sharing.value s0) = n) as ->.
  { rewrite Esel in Hlen. by apply Forall_cons in Hlen as [? _]. }
  set (points i := map (λ s, (Sharing.index s, default gf_zero (Sharing.value s !! i))) sel).
  rewrite (mapM_map _ (λ i, Sharing.lagrange_interpolate_at_zero (points i))).
  - simpl. eexists. split; [done|]. by rewrite length_map, length_seq.
  - apply Forall_forall. intros i Hi%elem_of_seq.
    rewrite (mapM_map _ (λ s, (Sharing.index s, default gf_zero (Sharing.value s !! i)))); [done|].
    eapply Forall_impl; [exact Hlen|]. intros s Hs. simpl in *.
    by destruct (lookup_lt_is_Some_2 (Sharing.value s) i ltac:(lia)) as [y ->].
Qed.

(** ** Secrecy *)
Section Secrecy.
Add Field gf_field4 : gf_field_theory.

Lemma peval_pad (p : list u8) (n : nat) (x : u8) :
  peval (p ++ replicate n gf_zero) x = peval p x.
Proof.
  induction p as [|c p IH]; simpl; [|by rewrite IH].
  apply peval_zero. apply Forall_replicate. done.
Qed.

(** One byte: a value at zero and at the points of fewer shares than coefficients
    is met by some polynomial, ... *)
Lemma byte_fit (xs : list u8) (s : u8) (f : u8 → u8) :
  NoDup (gf_zero :: xs) →
  ∃ cs, length cs = length xs ∧ ∀ x, x ∈ xs → peval (s :: cs) x = f x.
Proof.
  intros Hnd. set (points := (gf_zero, s) :: map (λ x, (x, f x)) xs).
  assert (Hfst : points.*1 = gf_zero :: xs).
  { unfold points. rewrite fmap_cons. f_equal. change @map with (λ A B, @fmap list _ A B).
    cbv beta. rewrite <- list_fmap_compose. apply list_fmap_id. }
  assert (Hlen : length points = S (length xs)) by (unfold points; simpl; by rewrite length_map).
  assert (Hat : ∀ p, p ∈ points → Recovery.lagrange_interpolate_gf256 points p.1 = p.2).
  { intros p [k Hk]%list_elem_of_lookup. apply (interpolate_point points k p); [|done].
    by rewrite Hfst. }
  destruct (interpolate_is_poly points) as (p & Hp & He).
  set (p' := p ++ replicate (length points - length p) gf_zero).
  assert (Hp' : length p' = S (length xs)).
  { unfold p'. rewrite length_app, length_replicate. lia. }
  assert (He' : ∀ x, peval p' x = Recovery.lagrange_interpolate_gf256 points x).
  { intros x. unfold p'. by rewrite peval_pad, He. }
  destruct p' as [|c cs]; [done|]. exists cs. injection Hp' as Hcs. split; [done|].
  assert (c = s) as ->.
  { rewrite <- (peval_at_zero c cs), He'. apply (Hat (gf_zero, s)). left. }
  intros x Hx. rewrite He'. apply (Hat (x, f x)). right.
  apply list_elem_of_In, in_map_iff. exists x. split; [done|]. by apply list_elem_of_In.
Qed.

(** ... and by one only. *)
Lemma padd_zero_eq (p q : list u8) :
  length p = length q → Forall (.= gf_zero) (padd p q) → p = q.
Proof.
  revert q. induction p as [|a p IH]; intros [|b q] Hlen Hz; try done. simpl in Hz.
  injection Hlen as Hlen. apply Forall_cons in Hz as [Hab Hz]. f_equal; [|by apply IH].
  by apply gf_sub_zero.
Qed.

Lemma byte_fit_unique (xs : list u8) (s : u8) (cs cs' : list u8) :
  NoDup (gf_zero :: xs) → length cs = length xs → length cs' = length xs →
  (∀ x, x ∈ xs → peval (s :: cs) x = peval (s :: cs') x) → cs = cs'.
Proof.
  intros Hnd Hl Hl' Hx.
  enough (s :: cs = s :: cs') by congruence. apply padd_zero_eq; [simpl; congruence|].
  apply (roots_zero (gf_zero :: xs)); [done | rewrite length_padd; simpl; lia |].
  apply Forall_forall. intros x Hin. rewrite peval_padd. apply elem_of_cons in Hin as [->|Hin].
  - rewrite !peval_at_zero. apply gf_add_self.
  - rewrite Hx by done. apply gf_add_self.
Qed.

Lemma bounded_choice {A : Type} `{Inhabited A} (P : nat → A → Prop) (n : nat) :
  (∀ i, i < n → ∃ a, P i a) → ∃ f, ∀ i, i < n → P i (f i).
Proof.
  induction n as [|n IH]; intros HP; [exists (λ _, inhabitant); intros; lia|].
  destruct IH as [f Hf]; [intros; apply HP; lia|]. destruct (HP n) as [a Ha]; [lia|].
  exists (λ i, if decide (i = n) then a else f i). intros i Hi. case_decide; [by subst|].
  apply Hf. lia.
Qed.

Lemma map_seq_nth (cs : list u8) (n : nat) :
  length cs = n → map (λ j, nth (j - 1) cs gf_zero) (seq 1 n) = cs.
Proof.
  intros <-. rewrite <- seq_shift, map_map. induction cs as [|c cs IH]; [done|].
  cbn [length seq map]. f_equal. rewrite <- seq_shift, map_map.
  transitivity (map (λ x, nth (S x - 1) cs gf_zero) (seq 0 (length cs))); [|exact IH].
  apply map_ext. intros j. simpl. by rewrite Nat.sub_0_r.
Qed.

(** The shares of [split_secret] with an index in [xs]. *)
Definition held (sss : Sharing.ShamirSecretSharing) (xs : list u8) (gen : nat → nat → u8)
    (secret : list u8) : list Sharing.Share :=
  filter (λ sh, Sharing.index sh ∈ xs) (Sharing.split_secret sss gen secret).

Lemma held_spec sss xs gen secret :
  held sss xs gen secret
  = map (as_share gen (Sharing.threshold sss) secret)
      (filter (λ x, x ∈ xs) (one_to (Sharing.total_shares sss))).
Proof.
  unfold held. rewrite split_secret_spec. generalize (one_to (Sharing.total_shares sss)) as l.
  induction l as [|y l IH]; [done|].
  cbn [map]. rewrite !filter_cons. cbn [Sharing.index]. case_decide; [|exact IH].
  cbn [map]. by rewrite IH.
Qed.

(** Two runs give the same shares at [xs] exactly when the polynomials of every
    byte agree there. *)
Lemma held_agree sss xs gen gen' secret secret' :
  xs ⊆ one_to (Sharing.total_shares sss) → length secret' = length secret →
  held sss xs gen' secret' = held sss xs gen secret ↔
  ∀ i b b', secret !! i = Some b → secret' !! i = Some b' → ∀ x, x ∈ xs →
    peval (Sharing.coefficients gen' (Sharing.threshold sss) i b') x
    = peval (Sharing.coefficients gen (Sharing.threshold sss) i b) x.
Proof.
  intros Hxs Hlen. rewrite !held_spec. split.
  - intros He i b b' Hb Hb' x Hx.
    assert (Hin : In x (filter (λ x, x ∈ xs) (one_to (Sharing.total_shares sss)))).
    { apply list_elem_of_In, list_elem_of_filter. auto. }
    apply (ext_in_map He) in Hin. injection Hin as Hin. apply (f_equal (.!! i)) in Hin.
    rewrite (lookup_share_at _ _ _ _ _ _ Hb), (lookup_share_at _ _ _ _ _ _ Hb') in Hin.
    by injection Hin.
  - intros He. apply map_ext_in. intros x [Hx _]%list_elem_of_In%list_elem_of_filter.
    unfold as_share. f_equal. apply list_eq. intros i. destruct (secret !! i) as [b|] eqn:Hb.
    + destruct (lookup_lt_is_Some_2 secret' i) as [b' Hb'].
      { rewrite Hlen. by eapply lookup_lt_Some. }
      rewrite (lookup_share_at _ _ _ _ _ _ Hb), (lookup_share_at _ _ _ _ _ _ Hb').
      f_equal. by apply He.
    + apply lookup_ge_None in Hb.
      rewrite !lookup_ge_None_2; [done|..]; rewrite length_share_at; lia.
Qed.

(** Draws that fit the shares of another secret, byte by byte. *)
Lemma refit (xs : list u8) (gen : nat → nat → u8) (t : nat) (secret secret' : list u8) :
  NoDup (gf_zero :: xs) → length secret' = length secret →
  ∃ cs : nat → list u8, ∀ i, i < length secret →
    length (cs i) = length xs ∧
    ∀ b b', secret !! i = Some b → secret' !! i = Some b' → ∀ x, x ∈ xs →
      peval (b' :: cs i) x = peval (Sharing.coefficients gen t i b) x.
Proof.
  intros Hnd Hlen. apply (bounded_choice (λ i cs, length cs = length xs ∧
    ∀ b b', secret !! i = Some b → secret' !! i = Some b' → ∀ x, x ∈ xs →
      peval (b' :: cs) x = peval (Sharing.coefficients gen t i b) x)). intros i Hi.
  destruct (lookup_lt_is_Some_2 secret i Hi) as [b Hb].
  destruct (lookup_lt_is_Some_2 secret' i ltac:(lia)) as [b' Hb'].
  destruct (byte_fit xs b' (peval (Sharing.coefficients gen t i b)) Hnd) as (cs & Hl & Hx).
  exists cs. split; [done|]. intros ? ? Hc Hc'. rewrite Hb in Hc. rewrite Hb' in Hc'.
  by simplify_eq.
Qed.

End Secrecy.

(** C19. The holders of [threshold - 1] shares learn nothing: for every other secret of
    the same length there are random coefficients that give them exactly the
    shares they hold, and only one choice of the coefficients does, so every
    secret is met by the same number of draws. *)
Theorem shares_hide_secret (sss : Sharing.ShamirSecretSharing) (gen : nat → nat → u8)
    (secret secret' xs : list u8) :
  Sharing.total_shares sss ≤ 255 →
  NoDup xs → xs ⊆ one_to (Sharing.total_shares sss) →
  S (length xs) = Sharing.threshold sss →
  length secret' = length secret →
  ∃ gen', held sss xs gen' secret' = held sss xs gen secret ∧
    ∀ gen'', held sss xs gen'' secret' = held sss xs gen secret →
    ∀ i j, i < length secret → 1 ≤ j < Sharing.threshold sss → gen'' i j = gen' i j.
Proof.
  intros Htot Hnd Hxs Ht Hlen. destruct (NoDup_one_to _ Htot) as [Hnd' H0].
  assert (Hnd0 : NoDup (gf_zero :: xs)).
  { apply NoDup_cons. split; [|done]. intros Hin. by apply H0, Hxs. }
  destruct (refit xs gen (Sharing.threshold sss) secret secret' Hnd0 Hlen) as [cs Hcs].
  assert (Ht1 : Sharing.threshold sss - 1 = length xs) by lia.
  exists (λ i j, nth (j - 1) (cs i) gf_zero). rewrite held_agree by done. split.
  - intros i b b' Hb Hb' x Hx. destruct (Hcs i (lookup_lt_Some _ _ _ Hb)) as [Hl Hp].
    unfold Sharing.coefficients at 1. rewrite Ht1, map_seq_nth by done. by apply (Hp b b').
  - intros gen'' Hg i j Hi Hj. rewrite held_agree in Hg by done.
    destruct (lookup_lt_is_Some_2 secret i Hi) as [b Hb].
    destruct (lookup_lt_is_Some_2 secret' i ltac:(lia)) as [b' Hb'].
    destruct (Hcs i Hi) as [Hl Hp].
    assert (He : map (gen'' i) (seq 1 (Sharing.threshold sss - 1)) = cs i).
    { apply (byte_fit_unique xs b'); [done | rewrite length_map, length_seq; lia | done |].
      intros x Hx. rewrite (Hp b b' Hb Hb' x Hx). by apply Hg. }
    rewrite <- He, (nth_indep _ gf_zero (gen'' i 0)).
    + rewrite map_nth, seq_nth by lia. f_equal. lia.
    + rewrite length_map, length_seq. lia.
Qed.

(** ** Key recovery *)
Section KeyRecovery.
Context `{!Crypto}.

(** The share of the guardian [name] at [x]. *)
Definition guardian_share (gen : nat → nat → u8) (secret : list u8) (n t : nat)
    (xn : u8 * string) : Recovery.GuardianShare :=
  {| Recovery.index := xn.1; Recovery.guardian := xn.2;
     Recovery.data := hex_encode (String.string_of_list_ascii (share_at gen t secret xn.1));
     Recovery.total := n; Recovery.threshold := t |}.

Lemma zip_with_zip_map {A B C D : Type} (h : A * B → C → D) (g : A → C) (xs : list A) (ys : list B) :
  length xs = length ys →
  zip_with h (zip xs ys) (map g xs) = map (λ p, h p (g p.1)) (zip xs ys).
Proof.
  revert ys. induction xs as [|x xs IH]; intros [|y ys] Hlen; try done.
  injection Hlen as Hlen. simpl. by rewrite IH.
Qed.

Lemma recovery_shares gen t guardians secret :
  zip_with (λ '(x, name) bytes,
      {| Recovery.index := x; Recovery.guardian := name;
         Recovery.data := hex_encode (String.string_of_list_ascii bytes);
         Recovery.total := length guardians; Recovery.threshold := t |})
    (zip (one_to (length guardians)) guardians)
    (foldl (λ shares '(i, b), zip_with (λ x v, v ++ [Recovery.eval_poly_gf256
        (b :: map (gen i) (seq 1 (t - 1))) x]) (one_to (length guardians)) shares)
      (replicate (length guardians) []) (enumerate secret))
  = map (guardian_share gen secret (length guardians) t)
      (zip (one_to (length guardians)) guardians).
Proof.
  rewrite (foldl_ext_all _ (λ shares e, zip_with (λ x v,
    v ++ [(λ '(i, b) x, peval (Sharing.coefficients gen t i b) x) e x])
    (one_to (length guardians)) shares)).
  2:{ intros l [i b]. apply zip_with_ext; [|done..]. intros x v.
      by rewrite eval_poly_gf256_peval. }
  rewrite replicate_one_to, push_loop, zip_with_zip_map by apply length_one_to.
  apply map_ext. intros [x name]. unfold guardian_share. simpl. do 3 f_equal.
  apply map_ext. by intros [i b].
Qed.

(** [split] succeeds exactly on a hexadecimal key, with at most 255 guardians and
    a threshold between 2 and their number. *)
Lemma recovery_split_spec (gen : nat → nat → u8) (pk : string) (guardians : list string) (t : nat)
    (shares : list Recovery.GuardianShare) :
  Recovery.split gen pk guardians t = Ok shares ↔
  ∃ secret, hex_decode (trim pk) = Some secret ∧ length guardians ≤ 255 ∧
    2 ≤ t ≤ length guardians ∧
    shares = map (guardian_share gen (String.list_ascii_of_string secret) (length guardians) t)
               (zip (one_to (length guardians)) guardians).
Proof.
  unfold Recovery.split. split.
  - intros Hok. res_inv. eexists. rewrite recovery_shares.
    repeat match goal with Hb : negb _ = true |- _ => apply negb_true_iff, Nat.ltb_ge in Hb end.
    match goal with Hb : (_ <=? _) = true |- _ => apply Nat.leb_le in Hb end.
    split_and!; try done.
  - intros (secret & -> & Hn & [Ht1 Ht2] & ->). cbn [ok_or mbind result_bind].
    rewrite (proj2 (Nat.leb_le _ _) Hn), (proj2 (Nat.ltb_ge _ _) Ht1), (proj2 (Nat.ltb_ge _ _) Ht2).
    cbn [ensure negb mbind result_bind]. by rewrite recovery_shares.
Qed.
End KeyRecovery.

(** Any guardians, at least as many as the threshold, recover the key that was
    split, in canonical hexadecimal. *)
Theorem recovery_roundtrip `{!Crypto, !CryptoLaws} (gen : nat → nat → u8) (pk : string)
    (guardians : list string) (t : nat) (shares sel : list Recovery.GuardianShare) :
  Recovery.split gen pk guardians t = Ok shares →
  sel ⊆ shares →
  NoDup (map Recovery.index sel) →
  t ≤ length sel →
  ∃ secret, hex_decode (trim pk) = Some secret ∧
    Recovery.reconstruct sel = Some (Ok (hex_encode secret)).
Proof.
  intros Hsplit Hsub Hnd Hlen.
  apply recovery_split_spec in Hsplit as (secret & Hdec & Hn & Ht & ->).
  exists secret. split; [done|]. set (bytes := String.list_ascii_of_string secret) in *.
  assert (Hsel : Forall (λ s, ∃ xn, s = guardian_share gen bytes (length guardians) t xn) sel).
  { apply Forall_forall. intros s Hs. apply Hsub, list_elem_of_In, in_map_iff in Hs
      as (xn & <- & _). by exists xn. }
  destruct sel as [|s0 sel'] eqn:Esel; [simpl in Hlen; lia|]. unfold Recovery.reconstruct.
  assert (Recovery.threshold s0 = t) as -> by (apply Forall_cons in Hsel as [[xn ->] _]; done).
  rewrite <- Esel in *. rewrite (proj2 (Nat.ltb_ge _ _) Hlen).
  rewrite (mapM_map _ (λ s, (Recovery.index s, share_at gen t bytes (Recovery.index s)))).
  2:{ eapply Forall_impl; [exact Hsel|]. intros s [xn ->]. simpl. rewrite hex_roundtrip. simpl.
      by rewrite String.list_ascii_of_string_of_list_ascii. }
  assert (Hhd : ∃ x, map (λ s, (Recovery.index s, share_at gen t bytes (Recovery.index s))) sel !! 0
      = Some (x, share_at gen t bytes x)) by (rewrite Esel; eexists; done).
  destruct Hhd as [x ->]. cbn [mbind option_bind snd]. rewrite length_share_at.
  set (xs := take t (map Recovery.index sel)).
  rewrite (mapM_ext_all _ (λ i,
    points ← mapM (λ x, y ← share_at gen t bytes x !! i; Some (x, y)) xs;
    Some (Recovery.lagrange_interpolate_gf256 points gf_zero))).
  - rewrite interpolate_shares.
    + simpl. unfold bytes. by rewrite String.string_of_list_ascii_of_string.
    + lia.
    + unfold xs. eapply sublist_NoDup; [exact Hnd|]. apply sublist_take.
    + unfold xs. rewrite length_take, length_map. lia.
  - intros i. unfold xs. rewrite !firstn_map, !mapM_map_in. done.
Qed.

(** The command-line client and the threshold crate share a secret in the same
    way: with the same draws the guardians' shares are the validators' shares,
    and both reconstruct the same bytes from the same points. *)
Theorem recovery_same_shares `{!Crypto} (gen : nat → nat → u8) (pk secret : string)
    (guardians : list string) (t : nat) (shares : list Recovery.GuardianShare) :
  Recovery.split gen pk guardians t = Ok shares →
  hex_decode (trim pk) = Some secret →
  map (λ s, (Recovery.index s, Recovery.data s)) shares
  = map (λ s, (Sharing.index s, hex_encode (String.string_of_list_ascii (Sharing.value s))))
      (Sharing.split_secret {| Sharing.threshold := t; Sharing.total_shares := length guardians |}
         gen (String.list_ascii_of_string secret)) ∧
  ∀ points, Sharing.lagrange_interpolate_at_zero points
            = Recovery.lagrange_interpolate_gf256 points gf_zero.
Proof.
  intros Hsplit Hdec. split; [|apply lagrange_at_zero_eq].
  apply recovery_split_spec in Hsplit as (secret' & Hdec' & _ & _ & ->).
  rewrite Hdec in Hdec'. injection Hdec' as <-.
  rewrite split_secret_spec, !map_map. simpl.
  rewrite <- (map_map fst (λ x, (x, hex_encode (String.string_of_list_ascii
    (share_at gen t (String.list_ascii_of_string secret) x))))). f_equal.
  rewrite <- (fst_zip (one_to (length guardians)) guardians) at 2; [done|].
  by rewrite length_one_to.
Qed.

(** A repeated share passes the count check and yields a wrong secret without an
    error: 7 is split with threshold 2, and the first share twice gives 0. *)
Theorem repeated_share_wrong_secret :
  let sss := {| Sharing.threshold := 2; Sharing.total_shares := 3 |} in
  ∃ s, s ∈ Sharing.split_secret sss (λ _ _, byte 5) [byte 7] ∧
    Sharing.reconstruct_secret sss [s; s] = Some (Ok [gf_zero]).
Proof. eexists. split; [left|]. vm_compute. reflexivity. Qed.

(** ** Witnesses *)
Module Demo.
Import Toy.

Definition sss23 : Sharing.ShamirSecretSharing :=
  {| Sharing.threshold := 2; Sharing.total_shares := 3 |}.
Definition draws (i j : nat) : u8 := byte (N.of_nat (17 * i + 3 * j + 90)).
Definition secret : list u8 := [byte 1; byte 200; byte 0].

Definition two_shares : list Sharing.Share :=
  match Sharing.split_secret sss23 draws secret with
  | [a; _; c] => [c; a]
  | l => l
  end.

(** Inclusion and distinctness, decided by evaluation. *)
Lemma sub_by_evaluation {A : Type} `{EqDecision A} (l k : list A) :
  forallb (λ a, bool_decide (a ∈ k)) l = true → l ⊆ k.
Proof.
  intros Hl a Ha%list_elem_of_In. rewrite forallb_forall in Hl.
  by apply (bool_decide_eq_true_1 _ (Hl a Ha)).
Qed.

Lemma NoDup_by_evaluation {A : Type} `{EqDecision A} (l : list A) :
  bool_decide (NoDup l) = true → NoDup l.
Proof. apply bool_decide_eq_true_1. Qed.

Lemma split_reconstruct_witness :
  Sharing.reconstruct_secret sss23 two_shares = Some (Ok secret).
Proof.
  apply (split_reconstruct sss23 draws secret two_shares).
  - simpl. lia.
  - apply sub_by_evaluation. vm_compute. reflexivity.
  - apply NoDup_by_evaluation. vm_compute. reflexivity.
  - apply Nat.leb_le. vm_compute. reflexivity.
Defined.

(** One of the three holders cannot tell the secret from another one. *)
Lemma shares_hide_secret_witness :
  ∃ gen', held sss23 [byte 2] gen' [byte 9; byte 9; byte 9] = held sss23 [byte 2] draws secret ∧
    ∀ gen'', held sss23 [byte 2] gen'' [byte 9; byte 9; byte 9] = held sss23 [byte 2] draws secret →
    ∀ i j, i < length secret → 1 ≤ j < Sharing.threshold sss23 → gen'' i j = gen' i j.
Proof.
  apply (shares_hide_secret sss23 draws secret [byte 9; byte 9; byte 9] [byte 2]).
  - simpl. lia.
  - apply NoDup_by_evaluation. vm_compute. reflexivity.
  - apply sub_by_evaluation. vm_compute. reflexivity.
  - reflexivity.
  - reflexivity.
Defined.

Definition guardians : list string := ["alice"; "bob"; "carol"].
Definition key_hex : string := "  0aff07 ".
Definition guardian_shares : list Recovery.GuardianShare :=
  match Recovery.split draws key_hex guardians 2 with
  | Ok l => l
  | Err _ => []
  end.

Lemma recovery_roundtrip_witness :
  ∃ secret, hex_decode (trim key_hex) = Some secret ∧
    Recovery.reconstruct (drop 1 guardian_shares) = Some (Ok (hex_encode secret)).
Proof.
  apply (recovery_roundtrip draws key_hex guardians 2 guardian_shares).
  - vm_compute. reflexivity.
  - apply sub_by_evaluation. vm_compute. reflexivity.
  - apply NoDup_by_evaluation. vm_compute. reflexivity.
  - apply Nat.leb_le. vm_compute. reflexivity.
Defined.

Definition key_bytes : string := default "" (hex_decode (trim key_hex)).

Lemma recovery_same_shares_witness :
  map (λ s, (Recovery.index s, Recovery.data s)) guardian_shares
  = map (λ s, (Sharing.index s, hex_encode (String.string_of_list_ascii (Sharing.value s))))
      (Sharing.split_secret {| Sharing.threshold := 2; Sharing.total_shares := length guardians |}
         draws (String.list_ascii_of_string key_bytes)) ∧
  ∀ points, Sharing.lagrange_interpolate_at_zero points
            = Recovery.lagrange_interpolate_gf256 points gf_zero.
Proof.
  apply (recovery_same_shares draws key_hex key_bytes guardians 2 guardian_shares);
    vm_compute; reflexivity.
Defined.
End Demo.
