(* ===== verification/Threshold.v ===== *)
(** Threshold encryption of packages (crates/threshold-encryption/src/lib.rs).

    A package is encrypted with AES-256-GCM under a random key, the key is split
    with [Shamir], and each share is sealed for one validator with ECIES over
    secp256k1.  The ciphers are the interfaces [Aead] and [Ecdh] with the laws the
    crate relies on; random values are arguments ([Draws]).  Byte vectors are
    [bytes]; [None] is a panic. *)

From S2P Require Import Prelude Text Crypto Gf256 Shamir.
From Stdlib Require Import Ascii NArith.
Import Sharing.

Abbreviation bytes := (list u8).

Definition to_str (b : bytes) : string := String.string_of_list_ascii b.
Definition of_str (s : string) : bytes := String.list_ascii_of_string s.

Lemma of_to_str (b : bytes) : of_str (to_str b) = b.
Proof. apply String.list_ascii_of_string_of_list_ascii. Qed.

Lemma to_of_str (s : string) : to_str (of_str s) = s.
Proof. apply String.string_of_list_ascii_of_string. Qed.

Lemma of_str_app (a b : string) : of_str (a +:+ b) = of_str a ++ of_str b.
Proof.
  induction a as [|c a IH]; [done|]. rewrite app_cons_str.
  unfold of_str in *. simpl. f_equal. exact IH.
Qed.

Lemma length_of_str (s : string) : length (of_str s) = String.length s.
Proof. induction s as [|c s IH]; [done|]. cbn. f_equal. exact IH. Qed.

(** [n.to_be_bytes()] for an integer of [k] bytes, and [from_be_bytes]. *)
Fixpoint be_bytes (k : nat) (n : N) : bytes :=
  match k with
  | O => []
  | S k' => byte (n / 256 ^ N.of_nat k' mod 256) :: be_bytes k' n
  end.

Definition from_be_bytes (b : bytes) : N := foldl (λ acc c, acc * 256 + N_of_ascii c)%N 0%N b.

Lemma length_be_bytes (k : nat) (n : N) : length (be_bytes k n) = k.
Proof. induction k as [|k IH]; simpl; [done|]. by rewrite IH. Qed.

Lemma from_be_loop (k : nat) (n acc : N) :
  foldl (λ acc c, acc * 256 + N_of_ascii c)%N acc (be_bytes k n)
  = (acc * 256 ^ N.of_nat k + n mod 256 ^ N.of_nat k)%N.
Proof.
  revert acc. induction k as [|k IH]; intros acc.
  - simpl be_bytes. simpl foldl. change (256 ^ N.of_nat 0)%N with 1%N. rewrite N.mod_1_r. lia.
  - cbn [be_bytes foldl]. rewrite IH. unfold byte.
    rewrite N_ascii_embedding by (by apply N.mod_lt).
    rewrite Nat2N.inj_succ, N.pow_succ_r'. set (p := (256 ^ N.of_nat k)%N).
    assert (p ≠ 0)%N by (unfold p; by apply N.pow_nonzero).
    rewrite (N.mul_comm 256 p), N.Div0.mod_mul_r. lia.
Qed.

Lemma from_be_bytes_be (k : nat) (n : N) :
  (n < 256 ^ N.of_nat k)%N → from_be_bytes (be_bytes k n) = n.
Proof. intros Hn. unfold from_be_bytes. rewrite from_be_loop, N.mod_small; lia. Qed.

(** ** The ciphers *)
Class Aead := {
  (* Aes256Gcm::encrypt(nonce, Payload { msg, aad }) under a 32-byte key *)
  aead_encrypt : bytes → bytes → bytes → bytes → option bytes;
  (* Aes256Gcm::decrypt *)
  aead_decrypt : bytes → bytes → bytes → bytes → option bytes;
}.

Class AeadLaws `{Aead} : Prop := {
  aead_roundtrip : ∀ k n aad m c,
    aead_encrypt k n aad m = Some c → aead_decrypt k n aad c = Some m;
  aead_tag : ∀ k n aad m c,
    aead_encrypt k n aad m = Some c → length c = length m + 16;
}.

Class Ecdh := {
  PublicKey : Type;
  SecretKey : Type;
  pk_from_sec1 : bytes → option PublicKey;       (* PublicKey::from_sec1_bytes *)
  pk_sec1 : PublicKey → bytes;                   (* to_encoded_point(true) *)
  sk_from_slice : bytes → option SecretKey;      (* SecretKey::from_slice *)
  sk_public : SecretKey → PublicKey;             (* public_key() *)
  diffie_hellman : SecretKey → PublicKey → bytes;  (* raw_secret_bytes() *)
}.

Class EcdhLaws `{Ecdh} : Prop := {
  pk_sec1_roundtrip : ∀ k, pk_from_sec1 (pk_sec1 k) = Some k;
  pk_sec1_length : ∀ k, length (pk_sec1 k) = 33;
  dh_comm : ∀ a b, diffie_hellman a (sk_public b) = diffie_hellman b (sk_public a);
}.

(** ** Key shares *)
Record KeyShare := { ks_index : u8; ks_value : bytes; ks_public_key : bytes }.

#[export] Instance key_share_eq_dec : EqDecision KeyShare.
Proof. solve_decision. Defined.

(** [KeyShare::to_bytes] *)
Definition to_bytes (s : KeyShare) : bytes :=
  ks_index s :: be_bytes 4 (N.of_nat (length (ks_value s)) mod 2 ^ 32)
    ++ ks_value s ++ ks_public_key s.

(** [KeyShare::from_bytes] *)
Definition from_bytes (b : bytes) : result ThresholdError KeyShare :=
  match b with
  | index :: b1 :: b2 :: b3 :: b4 :: rest =>
      let value_len := N.to_nat (from_be_bytes [b1; b2; b3; b4]) in
      if length b <? 5 + value_len then Err (InvalidShare "Invalid length")
      else Ok {| ks_index := index; ks_value := take value_len rest;
                 ks_public_key := drop value_len rest |}
  | _ => Err (InvalidShare "Too short")
  end.

Record EncryptedPackage := {
  ciphertext : bytes;
  nonce : bytes;
  content_hash : bytes;
  ep_threshold : nat;
  ep_total_shares : nat;
  encrypted_shares : gmap ascii bytes;
}.

(** [ThresholdEncryption]; its three fields are the two counts, once for itself
    and once for its [ShamirSecretSharing]. *)
Definition ThresholdEncryption : Type := ShamirSecretSharing.

(** [ThresholdEncryption::new] *)
Definition te_new (threshold total_shares : nat) : result ThresholdError ThresholdEncryption :=
  if (threshold =? 0) || (total_shares <? threshold) then Err (InvalidThreshold threshold total_shares)
  else Ok {| threshold := threshold; total_shares := total_shares |}.

(** The random values of one encryption: the key, the coefficients of the shares,
    the nonce of the content, and per share the ephemeral key and the nonce. *)
Record Draws `{Ecdh} := {
  d_key : bytes;
  d_coefficients : nat → nat → u8;
  d_nonce : bytes;
  d_ephemeral : nat → SecretKey;
  d_share_nonce : nat → bytes;
}.

(** [thread_rng().fill_bytes] on the 32-byte key and the 12-byte nonces. *)
Definition draws_ok `{Ecdh} (d : Draws) : Prop :=
  length (d_key d) = 32 ∧ length (d_nonce d) = 12 ∧ ∀ i, length (d_share_nonce d i) = 12.

Section Threshold.
Context `{!Crypto, !Aead, !Ecdh}.

Definition compute_hash (data : bytes) : bytes := of_str (sha256 (to_str data)).
Definition derive_public_key (share_value : bytes) : bytes := compute_hash share_value.

Definition generate_shares (te : ThresholdEncryption) (gen : nat → nat → u8) (secret : bytes)
    : list KeyShare :=
  map (λ s, {| ks_index := index s; ks_value := value s;
               ks_public_key := derive_public_key (value s) |})
    (split_secret te gen secret).

(** [SHA256("creg-ecies-v1" || shared)] *)
Definition ecies_key (shared : bytes) : bytes := compute_hash (of_str "creg-ecies-v1" ++ shared).

Definition encrypt_share (eph : SecretKey) (nonce_bytes : bytes) (share : KeyShare)
    (validator_key : bytes) : result ThresholdError bytes :=
  validator_pubkey ← ok_or (EncryptionError "invalid validator pubkey") (pk_from_sec1 validator_key);
  let aes_key := ecies_key (diffie_hellman eph validator_pubkey) in
  ct ← ok_or (EncryptionError "AES-GCM encrypt")
         (aead_encrypt aes_key nonce_bytes [ks_index share] (ks_value share));
  Ok (ks_index share :: pk_sec1 (sk_public eph) ++ nonce_bytes ++ ct).

Definition decrypt_share (encrypted_share validator_private_key : bytes)
    : result ThresholdError KeyShare :=
  if length encrypted_share <? 62 then
    Err (InvalidShare "encrypted share too short for ECIES format")
  else
    let index := nth 0 encrypted_share gf_zero in
    let eph_pub_bytes := take 33 (drop 1 encrypted_share) in
    let nonce_bytes := take 12 (drop 34 encrypted_share) in
    let ct := drop 46 encrypted_share in
    ephemeral_public ← ok_or (DecryptionError "invalid ephemeral pubkey") (pk_from_sec1 eph_pub_bytes);
    our_secret ← ok_or (DecryptionError "invalid validator private key")
                   (sk_from_slice validator_private_key);
    let aes_key := ecies_key (diffie_hellman our_secret ephemeral_public) in
    value ← ok_or (DecryptionError "AES-GCM decrypt") (aead_decrypt aes_key nonce_bytes [index] ct);
    Ok {| ks_index := index; ks_value := value; ks_public_key := derive_public_key value |}.

(** [Aes256Gcm::new_from_slice]: the key must have 32 bytes. *)
Definition new_from_slice (e : ThresholdError) (key : bytes) : result ThresholdError unit :=
  ensure (length key =? 32) e.

(** The loop that seals the [i]-th share for the [i]-th validator. *)
Fixpoint seal_shares (d : Draws) (i : nat) (shares : list KeyShare) (validator_keys : list bytes)
    (acc : gmap ascii bytes) : option (result ThresholdError (gmap ascii bytes)) :=
  match shares with
  | [] => Some (Ok acc)
  | share :: shares' =>
      validator_key ← validator_keys !! i;
      match encrypt_share (d_ephemeral d i) (d_share_nonce d i) share validator_key with
      | Err e => Some (Err e)
      | Ok sealed => seal_shares d (S i) shares' validator_keys (<[ks_index share := sealed]> acc)
      end
  end.

Definition encrypt_package (te : ThresholdEncryption) (d : Draws) (content : bytes)
    (validator_keys : list bytes) : option (result ThresholdError EncryptedPackage) :=
  if negb (length validator_keys =? total_shares te) then
    Some (Err (InvalidShare "Expected validator keys"))
  else
    let shares := generate_shares te (d_coefficients d) (d_key d) in
    match (_ ← new_from_slice (EncryptionError "key length") (d_key d);
           ok_or (EncryptionError "AES-GCM encrypt") (aead_encrypt (d_key d) (d_nonce d) [] content))
    with
    | Err e => Some (Err e)
    | Ok ct =>
        r ← seal_shares d 0 shares validator_keys ∅;
        Some (match r with
              | Err e => Err e
              | Ok sealed => Ok {| ciphertext := ct; nonce := d_nonce d;
                                   content_hash := compute_hash content;
                                   ep_threshold := threshold te;
                                   ep_total_shares := total_shares te;
                                   encrypted_shares := sealed |}
              end)
    end.

Definition reconstruct_key (te : ThresholdEncryption) (shares : list KeyShare)
    : option (result ThresholdError bytes) :=
  r ← reconstruct_secret te (map (λ ks, {| index := ks_index ks; value := ks_value ks |}) shares);
  Some (match r with
        | Err e => Err e
        | Ok secret =>
            if negb (length secret =? 32) then Err (ReconstructionFailed "Invalid key length")
            else Ok secret
        end).

Definition decrypt_with_shares (te : ThresholdEncryption) (package : EncryptedPackage)
    (shares : list KeyShare) : option (result ThresholdError bytes) :=
  if length shares <? threshold te then
    Some (Err (InsufficientShares (N.of_nat (length shares) mod 256) (threshold te)))
  else
    r ← reconstruct_key te (take (threshold te) shares);
    Some (encryption_key ← r;
          _ ← new_from_slice (DecryptionError "key length") encryption_key;
          plaintext ← ok_or (DecryptionError "AES-GCM decrypt")
                        (aead_decrypt encryption_key (nonce package) [] (ciphertext package));
          if bool_decide (compute_hash plaintext = content_hash package) then Ok plaintext
          else Err (DecryptionError "Content hash mismatch - possible tampering")).


(** ** Sealing and opening a share *)
Context `{!CryptoLaws, !AeadLaws, !EcdhLaws}.

(** A share sealed for a validator is opened by its secret key. *)
Lemma open_sealed (eph sk : SecretKey) (nonce_bytes skb out : bytes) (s : KeyShare) :
  length nonce_bytes = 12 → sk_from_slice skb = Some sk →
  encrypt_share eph nonce_bytes s (pk_sec1 (sk_public sk)) = Ok out →
  decrypt_share out skb = Ok {| ks_index := ks_index s; ks_value := ks_value s;
                                ks_public_key := derive_public_key (ks_value s) |}.
Proof.
  intros Hn Hsk Henc. unfold encrypt_share in Henc. rewrite pk_sec1_roundtrip in Henc.
  cbn [ok_or mbind result_bind] in Henc. res_inv.
  match goal with Hc : aead_encrypt _ _ _ _ = Some _ |- _ => rename Hc into Hct end.
  pose proof (aead_tag _ _ _ _ _ Hct) as Htag. apply aead_roundtrip in Hct as Hdec.
  pose proof (pk_sec1_length (sk_public eph)) as Hpk. unfold decrypt_share.
  rewrite (proj2 (Nat.ltb_ge _ _)) by (simpl; rewrite !length_app; lia).
  cbn [nth]. rewrite !skipn_cons, skipn_0. rewrite take_app_length' by lia. rewrite pk_sec1_roundtrip, Hsk.
  cbn [ok_or mbind result_bind].
  rewrite (drop_app_length' _ _ 33), take_app_length' by lia.
  rewrite app_assoc, drop_app_length' by (rewrite length_app; lia).
  by rewrite dh_comm, Hdec.
Qed.

(** ** The sealed shares of a package *)
Lemma seal_shares_total (d : Draws) (i : nat) (shares : list KeyShare) (keys : list bytes) acc :
  i + length shares ≤ length keys → ∃ r, seal_shares d i shares keys acc = Some r.
Proof.
  revert i acc. induction shares as [|s shares IH]; intros i acc Hlen; [by eexists|]. simpl in *.
  destruct (lookup_lt_is_Some_2 keys i ltac:(lia)) as [k ->]. simpl.
  destruct (encrypt_share _ _ _ _); [|by eexists]. apply IH. lia.
Qed.

Lemma seal_shares_other (d : Draws) (i : nat) (shares : list KeyShare) (keys : list bytes) acc sealed x :
  seal_shares d i shares keys acc = Some (Ok sealed) →
  Forall (λ s, ks_index s ≠ x) shares → sealed !! x = acc !! x.
Proof.
  revert i acc. induction shares as [|s shares IH]; intros i acc Hs Hx; simpl in Hs; [by simplify_eq|].
  apply Forall_cons in Hx as [Hne Hx]. destruct (keys !! i); [|done]. simpl in Hs.
  destruct (encrypt_share _ _ _ _); [|done]. rewrite (IH _ _ Hs Hx). by apply lookup_insert_ne.
Qed.

Lemma seal_shares_lookup (d : Draws) (i j : nat) (shares : list KeyShare) (keys : list bytes)
    acc sealed (s : KeyShare) (key : bytes) :
  seal_shares d i shares keys acc = Some (Ok sealed) →
  NoDup (map ks_index shares) → shares !! j = Some s → keys !! (i + j) = Some key →
  ∃ out, sealed !! ks_index s = Some out ∧
    encrypt_share (d_ephemeral d (i + j)) (d_share_nonce d (i + j)) s key = Ok out.
Proof.
  revert i j acc. induction shares as [|s0 shares IH]; intros i j acc Hs Hnd Hj Hkey; [done|].
  simpl in Hs, Hnd. apply NoDup_cons in Hnd as [Hnin Hnd].
  destruct (keys !! i) as [k|] eqn:Hk; [|done]. simpl in Hs.
  destruct (encrypt_share _ _ s0 _) as [out|] eqn:Hout; [|done]. destruct j as [|j]; simpl in Hj.
  - simplify_eq. rewrite Nat.add_0_r in *. simplify_eq. exists out. split; [|done].
    rewrite (seal_shares_other _ _ _ _ _ _ _ Hs); [apply lookup_insert_eq|].
    apply Forall_forall. intros s' Hs' He. apply Hnin. rewrite <- He.
    apply list_elem_of_In, in_map, list_elem_of_In, Hs'.
  - rewrite <- Nat.add_succ_comm in Hkey |- *. eauto.
Qed.

Lemma generated_share (te : ThresholdEncryption) gen secret i :
  i < total_shares te →
  generate_shares te gen secret !! i
  = Some {| ks_index := byte (N.of_nat (S i)); ks_value := share_at gen (threshold te) secret (byte (N.of_nat (S i)));
            ks_public_key := derive_public_key (share_at gen (threshold te) secret (byte (N.of_nat (S i)))) |}.
Proof.
  intros Hi. unfold generate_shares, one_to. rewrite split_secret_spec, map_map. unfold one_to.
  rewrite map_map. change @map with (λ A B, @fmap list _ A B). cbv beta.
  rewrite list_lookup_fmap, lookup_seq_lt by done. done.
Qed.

Lemma generated_indices (te : ThresholdEncryption) gen secret :
  map ks_index (generate_shares te gen secret) = one_to (total_shares te).
Proof.
  unfold generate_shares. rewrite split_secret_spec, !map_map. simpl. apply map_id.
Qed.

(** [encrypt_package] never runs past the end of the list of validator keys. *)
Lemma encrypt_package_total (te : ThresholdEncryption) (d : Draws) content keys :
  ∃ r, encrypt_package te d content keys = Some r.
Proof.
  unfold encrypt_package. destruct (Nat.eqb_spec (length keys) (total_shares te)) as [Hk|]; [|by eexists].
  simpl. case_match; [|by eexists].
  destruct (seal_shares_total d 0 (generate_shares te (d_coefficients d) (d_key d)) keys ∅) as [r ->].
  - rewrite <- (length_map ks_index), generated_indices, length_one_to. lia.
  - by eexists.
Qed.

(** What the validator at position [i] does with the package: it looks up the
    share of its index and opens it. *)
Definition open_share (p : EncryptedPackage) (privs : list bytes) (i : nat) : option KeyShare :=
  sealed ← encrypted_shares p !! byte (N.of_nat (S i));
  skb ← privs !! i;
  match decrypt_share sealed skb with
  | Ok s => Some s
  | Err _ => None
  end.

Lemma open_package_share te d content sks privs p i :
  draws_ok d → total_shares te ≤ 255 →
  Forall2 (λ skb sk, sk_from_slice skb = Some sk) privs sks →
  encrypt_package te d content (map (λ sk, pk_sec1 (sk_public sk)) sks) = Some (Ok p) →
  i < total_shares te →
  open_share p privs i = generate_shares te (d_coefficients d) (d_key d) !! i.
Proof.
  intros (Hk & _ & Hn) Htot Hprivs Henc Hi. unfold encrypt_package in Henc.
  destruct (Nat.eqb_spec (length (map (λ sk, pk_sec1 (sk_public sk)) sks)) (total_shares te)) as [Hl|];
    [|done]. rewrite length_map in Hl. cbn [negb] in Henc.
  case_match; [|done]. destruct (seal_shares _ _ _ _ _) as [[sealed|]|] eqn:Hseal; try done.
  simpl in Henc. simplify_eq. unfold open_share. cbn [encrypted_shares].
  destruct (lookup_lt_is_Some_2 sks i ltac:(lia)) as [sk Hsk].
  destruct (Forall2_lookup_r _ _ _ _ _ Hprivs Hsk) as (skb & Hskb & Hfrom).
  pose proof (generated_share te (d_coefficients d) (d_key d) i Hi) as Hs.
  edestruct (seal_shares_lookup d 0 i) as (out & Hout & Hok); [exact Hseal | | exact Hs | |].
  - rewrite generated_indices. by apply NoDup_one_to.
  - simpl. change @map with (λ A B, @fmap list _ A B). cbv beta. by rewrite list_lookup_fmap, Hsk.
  - rewrite Hs, Hskb. cbn [ks_index] in Hout. rewrite Hout. cbn [mbind option_bind].
    by rewrite (open_sealed _ _ _ _ _ _ (Hn _) Hfrom Hok).
Qed.

Lemma opened_shares te gen key (who : list nat) :
  total_shares te ≤ 255 → NoDup who → Forall (λ i, i < total_shares te) who →
  ∃ shares, mapM (λ i, generate_shares te gen key !! i) who = Some shares ∧
    shares ⊆ generate_shares te gen key ∧ NoDup (map ks_index shares) ∧ length shares = length who.
Proof.
  intros Htot Hnd Hwho. set (ix i := byte (N.of_nat (S i))).
  set (sh i := {| ks_index := ix i; ks_value := share_at gen (threshold te) key (ix i);
                  ks_public_key := derive_public_key (share_at gen (threshold te) key (ix i)) |}).
  assert (Hsh : Forall (λ i, generate_shares te gen key !! i = Some (sh i)) who).
  { eapply Forall_impl; [exact Hwho|]. intros i Hi. by rewrite generated_share. }
  exists (map sh who). split_and!.
  - by apply mapM_map.
  - intros s Hs. apply list_elem_of_In, in_map_iff in Hs as (i & <- & Hi).
    rewrite Forall_forall in Hsh. eapply list_elem_of_lookup_2, Hsh. by apply list_elem_of_In.
  - rewrite map_map. apply NoDup_ListNoDup, NoDup_map_NoDup_ForallPairs; [|by apply NoDup_ListNoDup].
    intros i j Hi Hj Heq. rewrite Forall_forall in Hwho.
    apply list_elem_of_In, Hwho in Hi. apply list_elem_of_In, Hwho in Hj.
    apply byte_inj in Heq; simpl in *; lia.
  - apply length_map.
Qed.

Lemma reconstruct_key_generated te gen key sel :
  1 ≤ threshold te → length key = 32 →
  sel ⊆ generate_shares te gen key → NoDup (map ks_index sel) → threshold te ≤ length sel →
  reconstruct_key te sel = Some (Ok key).
Proof.
  intros Ht Hk Hsub Hnd Hlen. unfold reconstruct_key.
  erewrite reconstruct_shares; [cbn; by rewrite Hk | done | | by rewrite map_map | by rewrite length_map].
  intros s Hs. apply list_elem_of_In, in_map_iff in Hs as (ks & <- & Hks).
  apply list_elem_of_In, Hsub in Hks. unfold generate_shares in Hks.
  apply list_elem_of_In, in_map_iff in Hks as (s & <- & Hs). simpl.
  apply list_elem_of_In. by destruct s.
Qed.

End Threshold.

Lemma from_to_bytes (s : KeyShare) :
  (N.of_nat (length (ks_value s)) < 2 ^ 32)%N → from_bytes (to_bytes s) = Ok s.
Proof.
  intros Hlen. unfold to_bytes. rewrite N.mod_small by done.
  pose proof (from_be_bytes_be 4 (N.of_nat (length (ks_value s))) Hlen) as Hbe.
  pose proof (length_be_bytes 4 (N.of_nat (length (ks_value s)))) as Hl4.
  destruct (be_bytes 4 _) as [|b1 [|b2 [|b3 [|b4 [|? ?]]]]]; try done.
  unfold from_bytes. cbn [app]. rewrite Hbe, Nat2N.id.
  rewrite (proj2 (Nat.ltb_ge _ _)) by (simpl; rewrite length_app; lia).
  rewrite take_app_length, drop_app_length. by destruct s.
Qed.

(** A key share survives serialisation, up to the 32-bit length field. *)
Theorem key_share_roundtrip (s : KeyShare) :
  (N.of_nat (length (ks_value s)) < 2 ^ 32)%N → from_bytes (to_bytes s) = Ok s.
Proof. apply from_to_bytes. Qed.

(** C20. End to end: whatever validators, at least as many as the threshold, open the
    shares that [encrypt_package] sealed for them, every share opens, and the
    shares decrypt the package to its content. *)
Theorem package_roundtrip `{!Crypto, !CryptoLaws, !Aead, !AeadLaws, !Ecdh, !EcdhLaws}
    (t n : nat) (te : ThresholdEncryption) (d : Draws) (content : bytes)
    (sks : list SecretKey) (privs : list bytes) (p : EncryptedPackage) (who : list nat) :
  te_new t n = Ok te → n ≤ 255 → draws_ok d →
  Forall2 (λ skb sk, sk_from_slice skb = Some sk) privs sks →
  encrypt_package te d content (map (λ sk, pk_sec1 (sk_public sk)) sks) = Some (Ok p) →
  NoDup who → Forall (λ i, i < n) who → t ≤ length who →
  ∃ shares, mapM (open_share p privs) who = Some shares ∧
    decrypt_with_shares te p shares = Some (Ok content).
Proof.
  intros Hnew Htot Hd Hprivs Henc Hnd Hwho Hlen. unfold te_new in Hnew.
  destruct (Nat.eqb_spec t 0); [done|]. destruct (Nat.ltb_spec n t); [done|]. simpl in Hnew.
  injection Hnew as <-. set (te := {| threshold := t; total_shares := n |}) in *.
  set (all := generate_shares te (d_coefficients d) (d_key d)).
  assert (Hopen : Forall (λ i, open_share p privs i = all !! i) who).
  { eapply Forall_impl; [exact Hwho|]. intros i Hi.
    by apply (open_package_share te d content sks privs p i). }
  destruct (opened_shares te (d_coefficients d) (d_key d) who Htot Hnd Hwho)
    as (shares & Hshares & Hsub & Hndi & Hls).
  exists shares. split.
  { rewrite <- Hshares. clear -Hopen. induction Hopen as [|i l Hi _ IH]; [done|]. simpl.
    by rewrite Hi, IH. }
  unfold decrypt_with_shares. rewrite (proj2 (Nat.ltb_ge _ _)) by (simpl; lia).
  destruct Hd as (Hk & _ & _).
  rewrite (reconstruct_key_generated te (d_coefficients d) (d_key d)).
  - cbn [mbind option_bind]. unfold encrypt_package in Henc.
    destruct (negb _); [done|]. unfold new_from_slice in *. rewrite Hk in Henc. cbn in Henc |- *. rewrite Hk. cbn.
    destruct (aead_encrypt _ _ _ _) as [ct|] eqn:Hct; [|done]. simpl in Henc.
    destruct (seal_shares _ _ _ _ _) as [[sealed|]|]; try done. simpl in Henc. simplify_eq.
    cbn [nonce ciphertext content_hash]. apply aead_roundtrip in Hct. rewrite Hct. simpl.
    by rewrite bool_decide_eq_true_2.
  - simpl. lia.
  - done.
  - intros s Hs. apply Hsub. by apply elem_of_take in Hs as (i & Hs & _); eapply list_elem_of_lookup_2.
  - rewrite <- firstn_map. eapply sublist_NoDup; [exact Hndi | apply sublist_take].
  - simpl. rewrite length_take. lia.
Qed.

(** ** Stand-in ciphers

    Executable and lawful, not secure; used by witnesses only. *)
Module ToyCipher.
Import Toy.

Definition tag (k n aad : bytes) : bytes := of_str (fit 16 (digest (to_str (k ++ n ++ aad)))).

Lemma length_tag (k n aad : bytes) : length (tag k n aad) = 16.
Proof. unfold tag. by rewrite length_of_str, length_fit. Qed.

#[export] Instance toy_aead : Aead := {|
  aead_encrypt := fun k n aad m => Some (tag k n aad ++ m);
  aead_decrypt := fun k n aad c =>
    if bool_decide (take 16 c = tag k n aad) then Some (drop 16 c) else None;
|}.

#[export] Instance toy_aead_laws : AeadLaws.
Proof.
  split; cbn [aead_encrypt aead_decrypt toy_aead]; intros k n aad m c Hc;
    apply (inj Some) in Hc as <-.
  - rewrite take_app_length' by (symmetry; apply length_tag). rewrite bool_decide_eq_true_2 by done.
    by rewrite drop_app_length' by (symmetry; apply length_tag).
  - rewrite length_app, length_tag. lia.
Qed.

#[export] Instance toy_ecdh : Ecdh := {|
  PublicKey := u8;
  SecretKey := u8;
  pk_from_sec1 := fun b => b !! 32;
  pk_sec1 := fun k => replicate 32 gf_zero ++ [k];
  sk_from_slice := fun b => b !! 0;
  sk_public := fun k => k;
  diffie_hellman := fun a b => [gf_mul a b];
|}.

#[export] Instance toy_ecdh_laws : EcdhLaws.
Proof. split; simpl; try done. intros a b. by rewrite gf_mul_comm. Qed.
End ToyCipher.

Module ThresholdDemo.
Import Toy ToyCipher.

Definition share7 : KeyShare :=
  {| ks_index := byte 7; ks_value := [byte 1; byte 2]; ks_public_key := [byte 9] |}.

Lemma key_share_roundtrip_witness : from_bytes (to_bytes share7) = Ok share7.
Proof. apply (key_share_roundtrip share7). vm_compute. reflexivity. Defined.

Definition demo_draws : Draws := {|
  d_key := replicate 32 (byte 77);
  d_coefficients := λ i j, byte (N.of_nat (5 * i + j));
  d_nonce := replicate 12 (byte 3);
  d_ephemeral := λ i, byte (N.of_nat (i + 40));
  d_share_nonce := λ i, replicate 12 (byte (N.of_nat i));
|}.

Definition demo_sks : list u8 := [byte 11; byte 12; byte 13].
Definition demo_privs : list bytes := map (λ k, [k]) demo_sks.
Definition te23 : ThresholdEncryption := {| threshold := 2; total_shares := 3 |}.
Definition demo_content : bytes := of_str "package".

Definition demo_package : EncryptedPackage :=
  match encrypt_package te23 demo_draws demo_content (map pk_sec1 demo_sks) with
  | Some (Ok p) => p
  | _ => {| ciphertext := []; nonce := []; content_hash := []; ep_threshold := 0;
            ep_total_shares := 0; encrypted_shares := ∅ |}
  end.

Lemma package_roundtrip_witness :
  ∃ shares, mapM (open_share demo_package demo_privs) [2; 0] = Some shares ∧
    decrypt_with_shares te23 demo_package shares = Some (Ok demo_content).
Proof.
  apply (package_roundtrip 2 3 te23 demo_draws demo_content demo_sks demo_privs demo_package [2; 0]).
  - reflexivity.
  - lia.
  - repeat split; intros; simpl; reflexivity.
  - repeat constructor.
  - vm_compute. reflexivity.
  - apply (bool_decide_unpack _). vm_compute. done.
  - repeat constructor; lia.
  - simpl. lia.
Defined.
End ThresholdDemo.
