(* ===== verification/Distribution.v ===== *)
(** Distribution of key shares and collection of decryptions
    (crates/threshold-encryption/src/distribution.rs).

    [ShareDistributor] hands the shares of a package key to validators and records
    who confirmed; [DecryptionCoordinator] admits decryption requests and collects
    the validators' responses.  The clock is the argument [now]; the order in which
    the hash map of validators is iterated is the argument [order]. *)

From S2P Require Import Prelude Text Crypto Gf256 Shamir Threshold.
From Stdlib Require Import Ascii NArith.
Import Sharing.

Record DistributedShare := {
  ds_validator_id : string;
  ds_encrypted_share : bytes;
  ds_share_index : u8;
  distributed_at : N;
  confirmed : bool;
}.

(** [AccessPolicy] of distribution.rs; the other type of that name is in
    access_control.rs. *)
Record AccessPolicy := {
  authorized_decryptors : list string;
  organization_only : bool;
  organization_id : option string;
  expires_at : option N;
  max_decryptions : option N;
}.

Record ShareDistributor := {
  te : ThresholdEncryption;
  validator_keys : gmap string bytes;
  distributed_shares : gmap string (list DistributedShare);
}.

Definition distributor_new (threshold total : nat) : result ThresholdError ShareDistributor :=
  te ← te_new threshold total;
  Ok {| te := te; validator_keys := ∅; distributed_shares := ∅ |}.

Definition register_validator (d : ShareDistributor) (id : string) (key : bytes) : ShareDistributor :=
  {| te := te d; validator_keys := <[id := key]> (validator_keys d);
     distributed_shares := distributed_shares d |}.

(** The policy is an argument of the source that it does not use. *)
Definition select_validators (d : ShareDistributor) (order : list string) (policy : AccessPolicy)
    : result ThresholdError (list string) :=
  if length order <? total_shares (te d) then
    Err (InvalidThreshold (total_shares (te d)) (length order mod 256))
  else Ok (take (total_shares (te d)) order).

Section Distribution.
Context `{!Crypto, !Aead}.

(** The key of the cipher, derived from the validator's public key. *)
Definition share_key (key : bytes) : bytes := compute_hash (key ++ of_str "share-encryption-salt").

(** [ShareDistributor::encrypt_share] *)
Definition encrypt_share (nonce_bytes : bytes) (share : KeyShare) (public_key : bytes)
    : result ThresholdError bytes :=
  ct ← ok_or (EncryptionError "AES-GCM encrypt")
         (aead_encrypt (share_key public_key) nonce_bytes [] (to_bytes share));
  Ok (nonce_bytes ++ ct).

(** The loop of [distribute_shares]; [nonces i] is drawn for the [i]-th share. *)
Fixpoint seal_for (keys : gmap string bytes) (now : N) (nonces : nat → bytes) (i : nat)
    (pairs : list (KeyShare * string)) : result ThresholdError (list DistributedShare) :=
  match pairs with
  | [] => Ok []
  | (share, id) :: pairs' =>
      public_key ← ok_or (InvalidShare "No public key for validator") (keys !! id);
      sealed ← encrypt_share (nonces i) share public_key;
      rest ← seal_for keys now nonces (S i) pairs';
      Ok ({| ds_validator_id := id; ds_encrypted_share := sealed; ds_share_index := ks_index share;
             distributed_at := now; confirmed := false |} :: rest)
  end.

Definition distribute_shares (d : ShareDistributor) (order : list string) (now : N)
    (gen : nat → nat → u8) (nonces : nat → bytes) (package_canonical : string)
    (encryption_key : bytes) (policy : AccessPolicy)
    : result ThresholdError (ShareDistributor * list DistributedShare) :=
  let shares := generate_shares (te d) gen encryption_key in
  selected ← select_validators d order policy;
  _ ← ensure (negb (length selected <? threshold (te d)))
        (InvalidThreshold (threshold (te d)) (length selected mod 256));
  distributed ← seal_for (validator_keys d) now nonces 0 (zip shares selected);
  Ok ({| te := te d; validator_keys := validator_keys d;
         distributed_shares := <[package_canonical := distributed]> (distributed_shares d) |},
      distributed).

Definition get_shares (d : ShareDistributor) (canonical : string) : option (list DistributedShare) :=
  distributed_shares d !! canonical.

Definition confirm (s : DistributedShare) : DistributedShare :=
  {| ds_validator_id := ds_validator_id s; ds_encrypted_share := ds_encrypted_share s;
     ds_share_index := ds_share_index s; distributed_at := distributed_at s; confirmed := true |}.

(** The loop of [confirm_share]: the first share of the validator. *)
Fixpoint confirm_first (id : string) (shares : list DistributedShare)
    : option (list DistributedShare) :=
  match shares with
  | [] => None
  | s :: shares' =>
      if String.eqb (ds_validator_id s) id then Some (confirm s :: shares')
      else rest ← confirm_first id shares'; Some (s :: rest)
  end.

Definition confirm_share (d : ShareDistributor) (canonical id : string)
    : result ThresholdError ShareDistributor :=
  shares ← ok_or (InvalidShare "Share not found")
             (shares ← distributed_shares d !! canonical; confirm_first id shares);
  Ok {| te := te d; validator_keys := validator_keys d;
        distributed_shares := <[canonical := shares]> (distributed_shares d) |}.

Definition can_decrypt (d : ShareDistributor) (canonical : string) : bool :=
  match distributed_shares d !! canonical with
  | Some shares => threshold (te d) <=? count confirmed shares
  | None => false
  end.

(** ** Requests and responses *)
Record DecryptionRequest := {
  rq_canonical : string;
  requestor : string;
  requestor_pubkey : bytes;
  rq_timestamp : N;
  rq_signature : bytes;
  purpose : string;
}.

Record DecryptionResponse := {
  rs_validator_id : string;
  rs_canonical : string;
  rs_encrypted_share : bytes;
  rs_share_index : u8;
  rs_timestamp : N;
  rs_signature : bytes;
}.

Record DecryptionCoordinator := {
  distributor : ShareDistributor;
  pending_requests : gmap string DecryptionRequest;
  partial_shares : gmap string (list DecryptionResponse);
  validator_pubkeys : gmap string bytes;
}.

Definition coordinator_new (d : ShareDistributor) : DecryptionCoordinator :=
  {| distributor := d; pending_requests := ∅; partial_shares := ∅; validator_pubkeys := ∅ |}.

Definition register_validator_pubkey (c : DecryptionCoordinator) (id : string) (key : bytes)
    : DecryptionCoordinator :=
  {| distributor := distributor c; pending_requests := pending_requests c;
     partial_shares := partial_shares c; validator_pubkeys := <[id := key]> (validator_pubkeys c) |}.

(** [Err] is an input that cannot be decoded. *)
Definition verify_ed25519_signature (pubkey_bytes signature_bytes msg : bytes) : result unit bool :=
  _ ← ensure (length pubkey_bytes =? 32) tt;
  _ ← ensure (length signature_bytes =? 64) tt;
  key ← ok_or tt (vk_try_from (to_str pubkey_bytes));
  sig ← ok_or tt (sig_try_from (to_str signature_bytes));
  Ok (verify key (to_str msg) sig).

(** [canonical || purpose || timestamp_be8] *)
Definition request_message (r : DecryptionRequest) : bytes :=
  of_str (rq_canonical r) ++ of_str (purpose r) ++ be_bytes 8 (rq_timestamp r).

(** [canonical || encrypted_share || timestamp_be8] *)
Definition response_message (r : DecryptionResponse) : bytes :=
  of_str (rs_canonical r) ++ rs_encrypted_share r ++ be_bytes 8 (rs_timestamp r).

Definition validate_request (now : N) (request : DecryptionRequest) : bool :=
  if (3600 <? now - rq_timestamp request)%N then false
  else if negb (bool_decide (rq_signature request = [])) &&
          negb (bool_decide (requestor_pubkey request = [])) then
    match verify_ed25519_signature (requestor_pubkey request) (rq_signature request)
            (request_message request) with
    | Ok true => true
    | Ok false => false
    | Err _ => false
    end
  else true.

Definition verify_response (c : DecryptionCoordinator) (response : DecryptionResponse) : bool :=
  match validator_pubkeys c !! rs_validator_id response with
  | None => true
  | Some pubkey_bytes =>
      if bool_decide (rs_signature response = []) then true
      else
        match verify_ed25519_signature pubkey_bytes (rs_signature response)
                (response_message response) with
        | Ok valid => valid
        | Err _ => false
        end
  end.

Definition request_decryption (now : N) (c : DecryptionCoordinator) (request : DecryptionRequest)
    : result ThresholdError DecryptionCoordinator :=
  if negb (validate_request now request) then Err (InvalidShare "Invalid decryption request")
  else Ok {| distributor := distributor c;
             pending_requests := <[rq_canonical request := request]> (pending_requests c);
             partial_shares := <[rq_canonical request := []]> (partial_shares c);
             validator_pubkeys := validator_pubkeys c |}.

Definition submit_partial (c : DecryptionCoordinator) (canonical : string)
    (response : DecryptionResponse) : result ThresholdError DecryptionCoordinator :=
  if negb (verify_response c response) then Err (InvalidShare "Invalid response signature")
  else
    Ok {| distributor := distributor c; pending_requests := pending_requests c;
          partial_shares := alter (λ shares, shares ++ [response]) canonical (partial_shares c);
          validator_pubkeys := validator_pubkeys c |}.

Definition is_ready (c : DecryptionCoordinator) (canonical : string) : bool :=
  match partial_shares c !! canonical with
  | Some shares => threshold (te (distributor c)) <=? length shares
  | None => false
  end.

Definition get_collected_shares (c : DecryptionCoordinator) (canonical : string)
    : option (list DecryptionResponse) := partial_shares c !! canonical.

End Distribution.

(** ** Confirmations *)
Section Confirmations.
Context `{!Crypto, !Aead}.

(** A distributor and, per package, the validators that confirmed since the last
    distribution. *)
Inductive dreach : ShareDistributor → gmap string (gset string) → Prop :=
| dreach_new (m n : nat) (d : ShareDistributor) :
    distributor_new m n = Ok d → dreach d ∅
| dreach_register d conf id key :
    dreach d conf → dreach (register_validator d id key) conf
| dreach_distribute d conf order now gen nonces c key policy d' ds :
    dreach d conf → order ≡ₚ hm_keys (validator_keys d) →
    distribute_shares d order now gen nonces c key policy = Ok (d', ds) →
    dreach d' (<[c := ∅]> conf)
| dreach_confirm d conf c id d' :
    dreach d conf → confirm_share d c id = Ok d' →
    dreach d' (<[c := {[id]} ∪ default ∅ (conf !! c)]> conf).

Definition ids (shares : list DistributedShare) : list string := map ds_validator_id shares.
Definition confirmed_ids (shares : list DistributedShare) : list string :=
  ids (filter (λ s, confirmed s = true) shares).

Lemma length_confirmed_ids (shares : list DistributedShare) :
  length (confirmed_ids shares) = count confirmed shares.
Proof. unfold confirmed_ids, ids, count. by rewrite length_map. Qed.

Lemma confirmed_ids_cons s shares :
  confirmed_ids (s :: shares)
  = (if confirmed s then [ds_validator_id s] else []) ++ confirmed_ids shares.
Proof. unfold confirmed_ids. rewrite filter_cons. destruct (confirmed s); by case_decide. Qed.

Lemma confirmed_ids_sub shares : confirmed_ids shares ⊆ ids shares.
Proof.
  induction shares as [|s shares IH]; [done|]. rewrite confirmed_ids_cons.
  unfold ids in *. simpl. destruct (confirmed s); set_solver.
Qed.

Lemma seal_for_ids keys now nonces i pairs ds :
  seal_for keys now nonces i pairs = Ok ds → ids ds = pairs.*2 ∧ confirmed_ids ds = [].
Proof.
  revert i ds. induction pairs as [|[s id] pairs IH]; intros i ds Hds; simpl in Hds.
  - by simplify_eq.
  - res_inv. edestruct IH as [IH1 IH2]; [eassumption|]. rewrite confirmed_ids_cons, IH2.
    unfold ids in *. simpl. by rewrite IH1.
Qed.

Lemma confirm_first_spec id shares shares' :
  confirm_first id shares = Some shares' → NoDup (ids shares) →
  ids shares' = ids shares ∧ id ∈ ids shares ∧
  ∀ x, x ∈ confirmed_ids shares' ↔ x = id ∨ x ∈ confirmed_ids shares.
Proof.
  revert shares'. induction shares as [|s shares IH]; intros shares' Hc Hnd; simpl in Hc; [done|].
  unfold ids in Hnd. simpl in Hnd. apply NoDup_cons in Hnd as [Hnin Hnd].
  destruct (String.eqb_spec (ds_validator_id s) id) as [He|Hne].
  - simplify_eq. unfold ids. simpl. split_and!; [done | set_solver |]. intros x.
    rewrite !confirmed_ids_cons, !elem_of_app. simpl. rewrite list_elem_of_singleton.
    destruct (confirmed s); rewrite ?list_elem_of_singleton, ?elem_of_nil; subst; tauto.
  - destruct (confirm_first id shares) as [rest|] eqn:Hr; [|done]. simpl in Hc. simplify_eq.
    destruct (IH rest eq_refl Hnd) as (IH1 & IH2 & IH3). unfold ids in *. simpl. rewrite IH1.
    split_and!; [done | by right |]. intros x. rewrite !confirmed_ids_cons, !elem_of_app, IH3.
    tauto.
Qed.

Lemma selected_validators d order policy sel :
  select_validators d order policy = Ok sel →
  sel = take (total_shares (te d)) order ∧ total_shares (te d) ≤ length order.
Proof.
  unfold select_validators. destruct (Nat.ltb_spec (length order) (total_shares (te d)));
    intros [= <-]. split; [done|lia].
Qed.

Lemma distribute_shares_inv d order now gen nonces c key policy d' ds :
  distribute_shares d order now gen nonces c key policy = Ok (d', ds) →
  d' = {| te := te d; validator_keys := validator_keys d;
          distributed_shares := <[c := ds]> (distributed_shares d) |} ∧
  total_shares (te d) ≤ length order ∧
  seal_for (validator_keys d) now nonces 0
    (zip (generate_shares (te d) gen key) (take (total_shares (te d)) order)) = Ok ds.
Proof.
  unfold distribute_shares. intros Hd. res_inv.
  match goal with Hs : select_validators _ _ _ = Ok _ |- _ =>
    apply selected_validators in Hs as [-> ?] end.
  by simplify_eq.
Qed.

Lemma zip_NoDup_snd {A B : Type} (l : list A) (k : list B) : NoDup k → NoDup (zip l k).*2.
Proof.
  revert k. induction l as [|a l IH]; intros [|b k] Hnd; simpl; try constructor.
  - apply NoDup_cons in Hnd as [Hb _]. intros Hin. apply Hb. clear -Hin.
    apply list_elem_of_fmap in Hin as ([x y] & -> & Hin). by eapply elem_of_zip_r.
  - apply IH. by apply NoDup_cons in Hnd as [_ ?].
Qed.

Lemma dreach_invariant d conf :
  dreach d conf →
  (∀ c, c ∉ dom (distributed_shares d) → conf !! c = None) ∧
  ∀ c shares, distributed_shares d !! c = Some shares →
    NoDup (ids shares) ∧
    ∀ x, x ∈ confirmed_ids shares ↔ x ∈ default ∅ (conf !! c).
Proof.
  induction 1 as [m n d Hnew | d conf id key _ IH
    | d conf order now gen nonces c key policy d' ds _ [IH0 IH] Hperm Hd | d conf c id d' _ [IH0 IH] Hc].
  - unfold distributor_new in Hnew. res_inv. by split.
  - exact IH.
  - apply distribute_shares_inv in Hd as (-> & Hlen & Hseal). cbn [distributed_shares]. split.
    + intros c' Hc'. rewrite lookup_insert_ne by set_solver. apply IH0. set_solver.
    + intros c' shares Hl. destruct (decide (c' = c)) as [->|Hne].
      * rewrite lookup_insert_eq in Hl. rewrite lookup_insert_eq. simplify_eq.
        apply seal_for_ids in Hseal as [Hids Hconf]. rewrite Hids, Hconf. split; [|set_solver].
        apply zip_NoDup_snd. eapply sublist_NoDup; [|apply sublist_take].
        rewrite Hperm. apply NoDup_hm_keys.
      * rewrite lookup_insert_ne in Hl by done. rewrite lookup_insert_ne by done. by apply IH.
  - unfold confirm_share in Hc. res_inv. cbn [distributed_shares].
    destruct (distributed_shares d !! c) as [old|] eqn:Hold; [|done].
    match goal with Hf : _ = Some _ |- _ => rename Hf into Hfirst; simpl in Hfirst end.
    destruct (IH c old Hold) as [Hnd Hiff].
    destruct (confirm_first_spec _ _ _ Hfirst Hnd) as (Hids & Hid & Hx). split.
    + intros c' Hc'. rewrite lookup_insert_ne by set_solver. apply IH0. set_solver.
    + intros c' shares Hl. destruct (decide (c' = c)) as [->|Hne].
      * rewrite lookup_insert_eq in Hl. rewrite lookup_insert_eq. simplify_eq. rewrite Hids. split; [done|].
        intros x. rewrite Hx, Hiff. simpl. rewrite elem_of_union, elem_of_singleton. done.
      * rewrite lookup_insert_ne in Hl by done. rewrite lookup_insert_ne by done. by apply IH.
Qed.
End Confirmations.

(** The confirmation count is exact: a package can be decrypted exactly when it was
    distributed and at least [threshold] different validators, all of them holders
    of its shares, confirmed since the last distribution. *)
Theorem can_decrypt_exact `{!Crypto, !Aead} (d : ShareDistributor)
    (conf : gmap string (gset string)) (c : string) :
  dreach d conf →
  (can_decrypt d c = true ↔
     is_Some (get_shares d c) ∧ threshold (te d) ≤ size (default ∅ (conf !! c))) ∧
  ∀ shares id, get_shares d c = Some shares → id ∈ default ∅ (conf !! c) → id ∈ ids shares.
Proof.
  intros Hr. destruct (dreach_invariant d conf Hr) as [H0' Hinv]. unfold can_decrypt, get_shares.
  destruct (distributed_shares d !! c) as [shares|] eqn:Hs.
  - destruct (Hinv c shares Hs) as [Hnd Hiff].
    assert (Hsize : size (default ∅ (conf !! c)) = count confirmed shares).
    { rewrite <- length_confirmed_ids, <- (size_list_to_set (C := gset string)).
      - f_equal. apply set_eq. intros x. by rewrite elem_of_list_to_set, Hiff.
      - unfold confirmed_ids, ids in *. change @map with (λ A B, @fmap list _ A B) in *. cbv beta in *.
        eapply sublist_NoDup; [exact Hnd|]. apply fmap_sublist, sublist_filter. }
    rewrite Hsize, Nat.leb_le. split; [split; [intros; split; [by eexists|done] | by intros [_ ?]]|].
    intros ? id [= <-] Hid. apply confirmed_ids_sub. by apply Hiff.
  - split; [|done]. split; [done|]. by intros [[? ?] _].
Qed.

(** ** What protects a distributed share

    The key of [encrypt_share] is derived from the validator's public key. *)
Definition open_with_public `{!Crypto, !Aead} (keys : gmap string bytes) (s : DistributedShare)
    : option KeyShare :=
  public_key ← keys !! ds_validator_id s;
  plain ← aead_decrypt (share_key public_key) (take 12 (ds_encrypted_share s)) []
            (drop 12 (ds_encrypted_share s));
  match from_bytes plain with
  | Ok ks => Some ks
  | Err _ => None
  end.

Section PublicKeys.
Context `{!Crypto, !CryptoLaws, !Aead, !AeadLaws}.

Lemma seal_for_open keys now nonces i pairs ds :
  (∀ j, length (nonces j) = 12) →
  Forall (λ p : KeyShare * string, N.of_nat (length (ks_value p.1)) < 2 ^ 32)%N pairs →
  seal_for keys now nonces i pairs = Ok ds →
  mapM (open_with_public keys) ds = Some pairs.*1.
Proof.
  intros Hn. revert i ds. induction pairs as [|[s id] pairs IH]; intros i ds Hlen Hds; cbn [seal_for] in Hds.
  - by simplify_eq.
  - apply Forall_cons in Hlen as [Hs Hlen]. unfold encrypt_share in Hds. res_inv. simpl mapM.
    match goal with |- open_with_public keys ?e ≫= _ = _ =>
      assert (open_with_public keys e = Some s) as -> end; [|by simpl; erewrite IH].
    unfold open_with_public. cbn [ds_validator_id ds_encrypted_share].
    match goal with Hk : keys !! id = Some _ |- _ => rewrite Hk end. cbn [mbind option_bind].
    rewrite take_app_length', drop_app_length' by (by rewrite Hn).
    match goal with Hc : aead_encrypt _ _ _ _ = Some _ |- _ =>
      rewrite (aead_roundtrip _ _ _ _ _ Hc) end.
    cbn [mbind option_bind]. by rewrite from_to_bytes.
Qed.

Lemma generated_lengths te gen key :
  Forall (λ s, length (ks_value s) = length key) (generate_shares te gen key).
Proof.
  unfold generate_shares. rewrite split_secret_spec, map_map. apply Forall_forall.
  intros s Hs%list_elem_of_In. apply in_map_iff in Hs as (x & <- & _). simpl. apply length_share_at.
Qed.
End PublicKeys.

(** Whoever knows the public keys the shares were distributed to opens every
    distributed share and reconstructs the package key: no private key is needed. *)
Theorem public_keys_open_shares `{!Crypto, !CryptoLaws, !Aead, !AeadLaws} (m n : nat)
    (d d' : ShareDistributor) order now gen nonces c key policy ds :
  te_new m n = Ok (te d) → (N.of_nat (length key) < 2 ^ 32)%N → n ≤ 255 →
  (∀ j, length (nonces j) = 12) →
  distribute_shares d order now gen nonces c key policy = Ok (d', ds) →
  ∃ shares, mapM (open_with_public (validator_keys d)) ds = Some shares ∧
    reconstruct_secret (te d)
      (map (λ ks, {| index := ks_index ks; value := ks_value ks |}) shares) = Some (Ok key).
Proof.
  intros Hnew Hkey Htot Hn Hd. apply distribute_shares_inv in Hd as (-> & Hlen & Hseal).
  unfold te_new in Hnew. destruct (Nat.eqb_spec m 0); [done|]. destruct (Nat.ltb_spec n m); [done|].
  simpl in Hnew. injection Hnew as Hte. rewrite <- Hte in *. simpl in Hlen.
  set (te0 := {| threshold := m; total_shares := n |}) in *.
  set (shares := generate_shares te0 gen key) in *.
  assert (Hls : length shares = n).
  { unfold shares. rewrite <- (length_map ks_index), generated_indices, length_one_to. done. }
  assert (Hfst : (zip shares (take (total_shares te0) order)).*1 = shares).
  { apply fst_zip. rewrite length_take. simpl. lia. }
  exists shares. split.
  - rewrite (seal_for_open _ _ _ _ _ _ Hn) with (2 := Hseal); [by rewrite Hfst|].
    apply Forall_forall. intros [s id] Hin. apply elem_of_zip_l in Hin. simpl.
    pose proof (generated_lengths te0 gen key) as Hf. rewrite Forall_forall in Hf.
    by rewrite (Hf s Hin).
  - apply (reconstruct_shares te0 gen).
    + simpl. lia.
    + unfold shares, generate_shares. rewrite map_map. simpl. intros s Hs.
      apply list_elem_of_In, in_map_iff in Hs as (s' & <- & Hs). apply list_elem_of_In.
      by destruct s'.
    + rewrite map_map. simpl. unfold shares. rewrite generated_indices. by apply NoDup_one_to.
    + rewrite length_map, Hls. simpl. lia.
Qed.

(** ** Readiness counts responses, not validators *)
(** An unsigned request, whoever names himself in it, is admitted, and one response
    of a validator the coordinator does not know, submitted [threshold] times,
    makes the package ready. *)
Theorem ready_by_repetition `{!Crypto} (now : N) (c : DecryptionCoordinator)
    (request : DecryptionRequest) (response : DecryptionResponse) :
  (now - rq_timestamp request ≤ 3600)%N → rq_signature request = [] →
  validator_pubkeys c !! rs_validator_id response = None →
  let submit r := c ← r; submit_partial c (rq_canonical request) response in
  ∃ c', Nat.iter (threshold (te (distributor c))) submit (request_decryption now c request) = Ok c' ∧
    is_ready c' (rq_canonical request) = true ∧
    get_collected_shares c' (rq_canonical request)
    = Some (replicate (threshold (te (distributor c))) response).
Proof.
  intros Hnow Hsig Hunk submit. set (k := rq_canonical request).
  assert (Hreq : ∃ c1, request_decryption now c request = Ok c1 ∧ partial_shares c1 !! k = Some [] ∧
            distributor c1 = distributor c ∧ validator_pubkeys c1 = validator_pubkeys c).
  { unfold request_decryption, validate_request. rewrite (proj2 (N.ltb_ge _ _) Hnow).
    rewrite (bool_decide_eq_true_2 _ Hsig). simpl. eexists. split_and!; [done| |done..]. simpl.
    apply lookup_insert_eq. }
  assert (Hit : ∀ n, ∃ c', Nat.iter n submit (request_decryption now c request) = Ok c' ∧
     partial_shares c' !! k = Some (replicate n response) ∧
     distributor c' = distributor c ∧ validator_pubkeys c' = validator_pubkeys c).
  { induction n as [|n (c' & Hc' & Hp & Hdd & Hv)]; [exact Hreq|]. rewrite iter_S, Hc'. simpl.
    unfold submit_partial, verify_response. rewrite Hv, Hunk. simpl.
    eexists. split_and!; [done| |done..]. simpl. rewrite lookup_alter_eq.
    fold k. rewrite Hp. simpl. f_equal. by rewrite <- replicate_S_end. }
  destruct (Hit (threshold (te (distributor c)))) as (c' & Hc' & Hp & Hdd & _).
  exists c'. split_and!; [done| |done]. unfold is_ready. rewrite Hp, Hdd, length_replicate.
  by apply Nat.leb_le.
Qed.

Module DistributionDemo.
Import Toy ToyCipher.

Definition d0 : ShareDistributor :=
  match distributor_new 2 3 with
  | Ok d => d
  | Err _ => {| te := {| threshold := 0; total_shares := 0 |}; validator_keys := ∅;
                distributed_shares := ∅ |}
  end.
Definition d3 : ShareDistributor :=
  register_validator (register_validator (register_validator d0 "v1" [byte 1]) "v2" [byte 2])
    "v3" [byte 3].
Definition open_policy : AccessPolicy :=
  {| authorized_decryptors := []; organization_only := false; organization_id := None;
     expires_at := None; max_decryptions := None |}.
Definition nonces (i : nat) : bytes := replicate 12 (byte (N.of_nat i)).
Definition key : bytes := replicate 32 (byte 9).
Definition ran : ShareDistributor * list DistributedShare :=
  match distribute_shares d3 (hm_keys (validator_keys d3)) 10 (λ _ _, byte 4) nonces "npm:a@1" key
          open_policy with
  | Ok r => r
  | Err _ => (d3, [])
  end.
Definition d4 : ShareDistributor :=
  match confirm_share ran.1 "npm:a@1" "v1" with
  | Ok d => d
  | Err _ => ran.1
  end.
Definition d5 : ShareDistributor :=
  match confirm_share d4 "npm:a@1" "v3" with
  | Ok d => d
  | Err _ => d4
  end.

Definition conf0 : gmap string (gset string) := <["npm:a@1" := ∅]> ∅.
Definition conf1 : gmap string (gset string) :=
  <["npm:a@1" := {["v1"]} ∪ default ∅ (conf0 !! "npm:a@1")]> conf0.
Definition conf2 : gmap string (gset string) :=
  <["npm:a@1" := {["v3"]} ∪ default ∅ (conf1 !! "npm:a@1")]> conf1.

Lemma d5_reach : dreach d5 conf2.
Proof.
  apply (dreach_confirm d4 conf1); [|vm_compute; reflexivity].
  apply (dreach_confirm ran.1 conf0); [|vm_compute; reflexivity].
  apply (dreach_distribute d3 ∅ (hm_keys (validator_keys d3)) 10 (λ _ _, byte 4) nonces "npm:a@1" key
    open_policy ran.1 ran.2); [|done|vm_compute; reflexivity].
  unfold d3. do 3 apply dreach_register. apply (dreach_new 2 3). reflexivity.
Qed.

(** Two of three validators confirmed: the package can be decrypted. *)
Lemma can_decrypt_exact_witness :
  can_decrypt d5 "npm:a@1" = true ∧ is_Some (get_shares d5 "npm:a@1").
Proof.
  split; [vm_compute; reflexivity|].
  apply (proj1 (can_decrypt_exact d5 conf2 "npm:a@1" d5_reach)). vm_compute. reflexivity.
Defined.

Lemma public_keys_open_shares_witness :
  ∃ shares, mapM (open_with_public (validator_keys d3)) ran.2 = Some shares ∧
    reconstruct_secret (te d3)
      (map (λ ks, {| index := ks_index ks; value := ks_value ks |}) shares) = Some (Ok key).
Proof.
  apply (public_keys_open_shares 2 3 d3 ran.1 (hm_keys (validator_keys d3)) 10 (λ _ _, byte 4) nonces
    "npm:a@1" key open_policy ran.2).
  - reflexivity.
  - vm_compute. reflexivity.
  - lia.
  - intros j. unfold nonces. apply length_replicate.
  - vm_compute. reflexivity.
Defined.

Definition anyone : DecryptionRequest :=
  {| rq_canonical := "npm:a@1"; requestor := "anyone"; requestor_pubkey := [byte 8];
     rq_timestamp := 100; rq_signature := []; purpose := "" |}.
Definition fake : DecryptionResponse :=
  {| rs_validator_id := "nobody"; rs_canonical := "npm:a@1"; rs_encrypted_share := [];
     rs_share_index := byte 1; rs_timestamp := 0; rs_signature := [] |}.

Lemma ready_by_repetition_witness :
  ∃ c', Nat.iter 2 (λ r, c ← r; submit_partial c "npm:a@1" fake)
          (request_decryption 100 (coordinator_new ran.1) anyone) = Ok c' ∧
    is_ready c' "npm:a@1" = true ∧
    get_collected_shares c' "npm:a@1" = Some (replicate 2 fake).
Proof.
  apply (ready_by_repetition 100 (coordinator_new ran.1) anyone fake).
  - vm_compute. done.
  - reflexivity.
  - reflexivity.
Defined.
End DistributionDemo.
