(* ===== verification/KeyService.v ===== *)
(** The decryption service of a validator and its client
    (crates/threshold-encryption/src/service.rs).

    The service is a state machine over the commands of its channel; the responses
    it sends are the output of a step.  The client's requests and reconstruction
    are functions.  Clock values and nonces are arguments, [None] is a panic. *)

From S2P Require Import Prelude Text Crypto Gf256 Shamir Threshold Distribution.
From Stdlib Require Import Ascii NArith.
Import Sharing.

Record ServiceConfig := {
  cf_validator_id : string;
  cf_validator_key : bytes;
  cf_validator_pubkey : bytes;
  cf_threshold : nat;
  cf_total_shares : nat;
  request_timeout : N;
  max_concurrent : nat;
}.

Definition default_config : ServiceConfig := {|
  cf_validator_id := ""; cf_validator_key := []; cf_validator_pubkey := [];
  cf_threshold := 3; cf_total_shares := 5; request_timeout := 300; max_concurrent := 10;
|}.

Record DecryptionService := {
  config : ServiceConfig;
  sv_te : ThresholdEncryption;
  shares : gmap string KeyShare;
  active_count : nat;
}.

Inductive DecryptionCommand :=
| StoreShare (canonical : string) (encrypted_share : bytes)
| ProcessRequest (request : DecryptionRequest)
| GetStatus.

Record ServiceStatus := {
  st_validator_id : string;
  stored_shares : nat;
  active_decryptions : nat;
  total_decryptions : N;
  st_is_ready : bool;
}.

Definition service_new (cfg : ServiceConfig) : result ThresholdError DecryptionService :=
  t ← te_new (cf_threshold cfg) (cf_total_shares cfg);
  Ok {| config := cfg; sv_te := t; shares := ∅; active_count := 0 |}.

Definition get_status (s : DecryptionService) : ServiceStatus :=
  let stored := size (shares s) in
  {| st_validator_id := cf_validator_id (config s); stored_shares := stored;
     active_decryptions := active_count s; total_decryptions := 0;
     st_is_ready := 0 <? stored |}.

(** [DecryptionService::bytes_to_share] *)
Definition bytes_to_share (b : bytes) : result ThresholdError KeyShare :=
  match b with
  | index :: b1 :: b2 :: b3 :: b4 :: ((_ :: _) as rest) =>
      let value_len := N.to_nat (from_be_bytes [b1; b2; b3; b4]) in
      if length b <? 5 + value_len + 32 then Err (InvalidShare "Invalid share format")
      else Ok {| ks_index := index; ks_value := take value_len rest;
                 ks_public_key := take 32 (drop value_len rest) |}
  | _ => Err (InvalidShare "Share bytes too short")
  end.

Section Service.
Context `{!Crypto, !Aead}.

(** [DecryptionService::decrypt_share]; [share_key] hashes its argument with the
    salt of the source, here the validator's private key. *)
Definition decrypt_share (cfg : ServiceConfig) (encrypted : bytes) : result ThresholdError bytes :=
  if length encrypted <? 12 then Err (DecryptionError "Encrypted data too short")
  else
    ok_or (DecryptionError "AES-GCM decrypt")
      (aead_decrypt (share_key (cf_validator_key cfg)) (take 12 encrypted) [] (drop 12 encrypted)).

Definition store_share (s : DecryptionService) (canonical : string) (encrypted_share : bytes)
    : result ThresholdError DecryptionService :=
  share_bytes ← decrypt_share (config s) encrypted_share;
  share ← bytes_to_share share_bytes;
  Ok {| config := config s; sv_te := sv_te s; shares := <[canonical := share]> (shares s);
        active_count := active_count s |}.

(** The key of a response, from the two public keys. *)
Definition response_key (requestor_pubkey validator_pubkey : bytes) : bytes :=
  compute_hash (requestor_pubkey ++ validator_pubkey).

Definition encrypt_to_requestor (cfg : ServiceConfig) (nonce_bytes : bytes) (share : KeyShare)
    (requestor_pubkey : bytes) : option bytes :=
  ct ← aead_encrypt (response_key requestor_pubkey (cf_validator_pubkey cfg)) nonce_bytes []
         (to_bytes share);
  Some (nonce_bytes ++ ct).

(** [SigningKey::from_bytes] is total on 32 bytes. *)
Definition sign_response (cfg : ServiceConfig) (canonical : string) (encrypted_share : bytes)
    (timestamp : N) : bytes :=
  if negb (length (cf_validator_key cfg) =? 32) then []
  else
    match sk_try_from (to_str (cf_validator_key cfg)) with
    | Some signing_key =>
        of_str (sig_bytes (sign signing_key
          (to_str (of_str canonical ++ encrypted_share ++ be_bytes 8 timestamp))))
    | None => []
    end.

Definition create_response (cfg : ServiceConfig) (now : N) (nonce_bytes : bytes)
    (request : DecryptionRequest) (share : KeyShare) : option DecryptionResponse :=
  encrypted ← encrypt_to_requestor cfg nonce_bytes share (requestor_pubkey request);
  Some {| rs_validator_id := cf_validator_id cfg; rs_canonical := rq_canonical request;
          rs_encrypted_share := encrypted; rs_share_index := ks_index share;
          rs_timestamp := now;
          rs_signature := sign_response cfg (rq_canonical request) encrypted now |}.

Definition with_active (s : DecryptionService) (n : nat) : DecryptionService :=
  {| config := config s; sv_te := sv_te s; shares := shares s; active_count := n |}.

Definition process_request (s : DecryptionService) (now : N) (nonce_bytes : bytes)
    (request : DecryptionRequest) : option (DecryptionService * list DecryptionResponse) :=
  match shares s !! rq_canonical request with
  | None => Some (s, [])
  | Some share =>
      if max_concurrent (config s) <=? active_count s then Some (s, [])
      else
        let s := with_active s (active_count s + 1) in
        response ← create_response (config s) now nonce_bytes request share;
        Some (with_active s (active_count s - 1), [response])
  end.

(** One turn of [run]; a failed command is logged and leaves the service as it was. *)
Definition service_step (s : DecryptionService) (now : N) (nonce_bytes : bytes)
    (cmd : DecryptionCommand) : option (DecryptionService * list DecryptionResponse) :=
  match cmd with
  | StoreShare canonical encrypted_share =>
      match store_share s canonical encrypted_share with
      | Ok s' => Some (s', [])
      | Err _ => Some (s, [])
      end
  | ProcessRequest request => process_request s now nonce_bytes request
  | GetStatus => Some (s, [])
  end.

(** [run] over the commands received until the channel closes. *)
Fixpoint service_run (s : DecryptionService) (cmds : list (N * bytes * DecryptionCommand))
    : option (DecryptionService * list DecryptionResponse) :=
  match cmds with
  | [] => Some (s, [])
  | (now, nonce_bytes, cmd) :: cmds' =>
      '(s', out) ← service_step s now nonce_bytes cmd;
      '(s'', out') ← service_run s' cmds';
      Some (s'', out ++ out')
  end.

(** ** The client *)
Record DecryptionClient := {
  requestor_key : bytes;
  cl_requestor_pubkey : bytes;
  cl_threshold : nat;
  cl_total_shares : nat;
}.

Definition client_new (requestor_key requestor_pubkey : bytes) : DecryptionClient :=
  {| requestor_key := requestor_key; cl_requestor_pubkey := requestor_pubkey;
     cl_threshold := 3; cl_total_shares := 5 |}.

Definition with_params (c : DecryptionClient) (threshold total_shares : nat) : DecryptionClient :=
  {| requestor_key := requestor_key c; cl_requestor_pubkey := cl_requestor_pubkey c;
     cl_threshold := threshold; cl_total_shares := total_shares |}.

(** The request that [request_decryption] signs and sends. *)
Definition client_request (c : DecryptionClient) (now : N) (canonical purpose : string)
    : DecryptionRequest :=
  let signed :=
    if length (requestor_key c) =? 32 then sk_try_from (to_str (requestor_key c)) else None in
  {| rq_canonical := canonical;
     requestor := match signed with
                  | Some sk => hex_encode (vk_bytes (sk_verifying_key sk))
                  | None => hex_encode (to_str (cl_requestor_pubkey c))
                  end;
     requestor_pubkey := cl_requestor_pubkey c;
     rq_timestamp := now;
     rq_signature := match signed with
                     | Some sk => of_str (sig_bytes (sign sk
                         (to_str (of_str canonical ++ of_str purpose ++ be_bytes 8 now))))
                     | None => []
                     end;
     purpose := purpose |}.

(** What the client's receive loop sees before the deadline. *)
Inductive ClientEvent :=
| Received (r : DecryptionResponse)
| ChannelClosed
| ReceiveTimeout.

Fixpoint collect_responses (canonical : string) (events : list ClientEvent)
    : list DecryptionResponse :=
  match events with
  | [] => []
  | Received r :: events' =>
      if String.eqb (rs_canonical r) canonical then r :: collect_responses canonical events'
      else collect_responses canonical events'
  | ChannelClosed :: events' => collect_responses canonical events'
  | ReceiveTimeout :: _ => []
  end.

Definition decrypt_response_share (c : DecryptionClient) (response : DecryptionResponse)
    : option (result ThresholdError Share) :=
  let key := compute_hash (cl_requestor_pubkey c ++ requestor_key c) in
  let encrypted := rs_encrypted_share response in
  if length encrypted <? 12 then Some (Err (DecryptionError "Invalid share"))
  else
    match aead_decrypt key (take 12 encrypted) [] (drop 12 encrypted) with
    | None => Some (Err (DecryptionError "AES-GCM decrypt"))
    | Some plaintext =>
        index ← plaintext !! 0;
        Some (Ok {| index := index; value := drop 1 plaintext |})
    end.

(** The loop that opens the responses. *)
Fixpoint open_responses (c : DecryptionClient) (responses : list DecryptionResponse)
    : option (result ThresholdError (list KeyShare)) :=
  match responses with
  | [] => Some (Ok [])
  | r :: responses' =>
      o ← decrypt_response_share c r;
      match o with
      | Err e => Some (Err e)
      | Ok share =>
          rest ← open_responses c responses';
          Some (rest ← rest;
                Ok ({| ks_index := index share; ks_value := value share; ks_public_key := [] |} :: rest))
      end
  end.

Definition reconstruct_package (c : DecryptionClient) (encrypted_package : bytes)
    (responses : list DecryptionResponse) : option (result ThresholdError bytes) :=
  opened ← open_responses c responses;
  match (key_shares ← opened; te ← te_new (cl_threshold c) (cl_total_shares c); Ok (te, key_shares)) with
  | Err e => Some (Err e)
  | Ok (te, key_shares) =>
      key ← reconstruct_key te key_shares;
      Some (key ← key;
            if length encrypted_package <? 12 then Err (DecryptionError "Invalid package")
            else
              _ ← new_from_slice (DecryptionError "key length") key;
              ok_or (DecryptionError "AES-GCM decrypt")
                (aead_decrypt key (take 12 encrypted_package) [] (drop 12 encrypted_package)))
  end.

End Service.

(** ** The service *)
Section ServiceProofs.
Context `{!Crypto, !CryptoLaws, !Aead, !AeadLaws}.

Lemma service_step_idle s now n cmd s' out :
  service_step s now n cmd = Some (s', out) →
  config s' = config s ∧ active_count s' = active_count s ∧ length out ≤ 1.
Proof.
  destruct cmd as [c e|r|]; simpl.
  - unfold store_share. destruct (_ ≫= _) eqn:Hs; intros [= <- <-]; res_inv; auto.
  - unfold process_request. destruct (shares s !! _); [|by intros [= <- <-]; auto].
    destruct (_ <=? _); [by intros [= <- <-]; auto|].
    destruct (create_response _ _ _ _ _); simpl; intros [= <- <-]. simpl. split_and!; [done|lia|lia].
  - intros [= <- <-]. auto.
Qed.

Lemma bytes_to_share_to_bytes (s : KeyShare) :
  (N.of_nat (length (ks_value s)) < 2 ^ 32)%N → length (ks_public_key s) = 32 →
  bytes_to_share (to_bytes s) = Ok s.
Proof.
  intros Hlen Hpk. unfold to_bytes. rewrite N.mod_small by done.
  pose proof (from_be_bytes_be 4 (N.of_nat (length (ks_value s))) Hlen) as Hbe.
  pose proof (length_be_bytes 4 (N.of_nat (length (ks_value s)))) as Hl4.
  destruct (be_bytes 4 _) as [|b1 [|b2 [|b3 [|b4 [|? ?]]]]]; try done. cbn [app].
  destruct (ks_value s ++ ks_public_key s) as [|r0 rest] eqn:Hr.
  { apply (f_equal length) in Hr. rewrite length_app in Hr. simpl in Hr. lia. }
  unfold bytes_to_share. cbv beta iota zeta. rewrite <- Hr, Hbe, Nat2N.id.
  rewrite (proj2 (Nat.ltb_ge _ _)) by (simpl; rewrite length_app; lia).
  rewrite take_app_length, drop_app_length, take_ge by lia. by destruct s.
Qed.

Lemma share_key_inj (a b : bytes) : share_key a = share_key b → a = b ∨ collision.
Proof.
  unfold share_key, compute_hash. intros Heq. apply (f_equal to_str) in Heq. rewrite !to_of_str in Heq.
  destruct (decide (a = b)) as [|Hne]; [by left|]. right.
  exists (to_str (a ++ of_str "share-encryption-salt")), (to_str (b ++ of_str "share-encryption-salt")).
  split; [|unfold sha256_hex; by rewrite Heq]. intros He. apply Hne.
  apply (f_equal of_str) in He. rewrite !of_to_str in He. by apply app_inv_tail in He.
Qed.

End ServiceProofs.

(** The concurrency limit: commands are handled one at a time, so between commands
    no decryption is active, whatever was received, and the limit refuses a request
    only if it is zero. *)
Theorem service_always_idle `{!Crypto, !Aead} (cfg : ServiceConfig) (s s' : DecryptionService)
    (cmds : list (N * bytes * DecryptionCommand)) (out : list DecryptionResponse) :
  service_new cfg = Ok s → service_run s cmds = Some (s', out) →
  active_count s' = 0 ∧ config s' = cfg ∧ length out ≤ length cmds.
Proof.
  intros Hnew Hrun.
  assert (Hs : active_count s = 0 ∧ config s = cfg) by (unfold service_new in Hnew; by res_inv).
  clear Hnew. revert s Hs out Hrun. induction cmds as [|[[now n] cmd] cmds IH]; intros s Hs out Hrun;
    simpl in Hrun; [simplify_eq; destruct Hs; auto|].
  destruct (service_step s now n cmd) as [[s1 out1]|] eqn:Hstep; [|done]. simpl in Hrun.
  destruct (service_run s1 cmds) as [[s2 out2]|] eqn:Hr; [|done]. simpl in Hrun. simplify_eq.
  apply service_step_idle in Hstep as (Hc & Ha & Hl).
  destruct (IH s1 ltac:(destruct Hs; split; congruence) out2 Hr) as (? & ? & ?).
  split_and!; [done..|]. rewrite length_app. simpl. lia.
Qed.

(** An idle service that holds the share of a package answers every request for it
    with one response, whoever asks and whatever the signature, and the response
    opens under a key made of public values only. *)
Theorem service_releases_share `{!Crypto, !Aead, !AeadLaws} (s s' : DecryptionService) (now : N)
    (nonce_bytes : bytes) (request : DecryptionRequest) (share : KeyShare)
    (out : list DecryptionResponse) :
  shares s !! rq_canonical request = Some share →
  active_count s < max_concurrent (config s) → length nonce_bytes = 12 →
  process_request s now nonce_bytes request = Some (s', out) →
  s' = s ∧ ∃ r, out = [r] ∧
    aead_decrypt (response_key (requestor_pubkey request) (cf_validator_pubkey (config s)))
      (take 12 (rs_encrypted_share r)) [] (drop 12 (rs_encrypted_share r)) = Some (to_bytes share).
Proof.
  intros Hshare Hact Hn Hp. unfold process_request in Hp. rewrite Hshare in Hp.
  rewrite (proj2 (Nat.leb_gt _ _) Hact) in Hp. unfold create_response, encrypt_to_requestor in Hp.
  cbn [config with_active] in Hp.
  destruct (aead_encrypt _ _ _ _) as [ct|] eqn:Hct; [|done]. simpl in Hp. simplify_eq. split.
  { unfold with_active. simpl. destruct s. simpl. f_equal. lia. }
  eexists. split; [done|]. cbn [rs_encrypted_share].
  rewrite take_app_length', drop_app_length' by done. by eapply aead_roundtrip.
Qed.

(** Handing a share over: the service stores the distributed share when its private
    key is the public key the distributor sealed for, and the two sides derive the
    same cipher key in that case only (or SHA-256 collides). *)
Theorem stored_share_keys `{!Crypto, !CryptoLaws, !Aead, !AeadLaws} (s : DecryptionService)
    (canonical : string) (nonce_bytes public_key sealed : bytes) (share : KeyShare) :
  (N.of_nat (length (ks_value share)) < 2 ^ 32)%N → length (ks_public_key share) = 32 →
  length nonce_bytes = 12 →
  Distribution.encrypt_share nonce_bytes share public_key = Ok sealed →
  (cf_validator_key (config s) = public_key →
     ∃ s', store_share s canonical sealed = Ok s' ∧ shares s' = <[canonical := share]> (shares s)) ∧
  (share_key (cf_validator_key (config s)) = share_key public_key →
     cf_validator_key (config s) = public_key ∨ collision).
Proof.
  intros Hlen Hpk Hn Henc. split; [|by intros ?%share_key_inj]. intros Hkey.
  unfold Distribution.encrypt_share in Henc. res_inv. unfold store_share, decrypt_share.
  rewrite (proj2 (Nat.ltb_ge _ _)) by (rewrite length_app; lia).
  rewrite take_app_length', drop_app_length' by done.
  match goal with Hc : aead_encrypt _ _ _ _ = Some _ |- _ => rewrite (aead_roundtrip _ _ _ _ _ Hc) end.
  cbn [ok_or mbind result_bind]. rewrite bytes_to_share_to_bytes by done. by eexists.
Qed.

(** ** The client *)
Section ClientProofs.
Context `{!Crypto, !Aead}.

(** The response opens, under the key of the client, to the serialised share. *)
Definition opens_to (c : DecryptionClient) (r : DecryptionResponse) (share : KeyShare) : Prop :=
  12 ≤ length (rs_encrypted_share r) ∧
  aead_decrypt (compute_hash (cl_requestor_pubkey c ++ requestor_key c))
    (take 12 (rs_encrypted_share r)) [] (drop 12 (rs_encrypted_share r)) = Some (to_bytes share).

Lemma open_responses_serialised c responses kss :
  Forall2 (opens_to c) responses kss →
  ∃ opened, open_responses c responses = Some (Ok opened) ∧ length opened = length kss ∧
    Forall2 (λ o ks, length (ks_value o) = 4 + length (ks_value ks) + length (ks_public_key ks))
      opened kss.
Proof.
  induction 1 as [|r ks responses kss [H12 Hdec] _ (opened & IH1 & IH2 & IH3)];
    [by exists []|].
  cbn [open_responses]. unfold decrypt_response_share.
  rewrite (proj2 (Nat.ltb_ge _ _) H12), Hdec. unfold to_bytes. cbn [lookup list_lookup mbind option_bind].
  rewrite IH1. cbn [mbind option_bind result_bind]. eexists. split; [done|]. split; [simpl; by rewrite IH2|].
  constructor; [|done]. cbn [ks_value value]. rewrite skipn_cons, skipn_0.
  rewrite !length_app, length_be_bytes. lia.
Qed.
End ClientProofs.

(** The client reads the index and takes the rest of an opened response for the
    share value, but the rest holds the length field and the public key as well: the
    responses of a service, even under the right key, never reconstruct a package. *)
Theorem client_never_reconstructs `{!Crypto, !Aead} (c : DecryptionClient)
    (encrypted_package : bytes) (responses : list DecryptionResponse) (kss : list KeyShare) :
  Forall2 (opens_to c) responses kss →
  Forall (λ ks, length (ks_value ks) = 32 ∧ length (ks_public_key ks) = 32) kss →
  0 < cl_threshold c ≤ cl_total_shares c →
  reconstruct_package c encrypted_package responses
  = Some (Err (if length responses <? cl_threshold c
               then InsufficientShares (N.of_nat (length responses) mod 256) (cl_threshold c)
               else ReconstructionFailed "Invalid key length")).
Proof.
  intros Hopen H32 Ht. pose proof (Forall2_length _ _ _ Hopen) as Hl.
  destruct (open_responses_serialised c responses kss Hopen) as (opened & Ho & Hlo & Hval).
  unfold reconstruct_package, te_new. rewrite Ho. cbn [mbind option_bind result_bind].
  destruct (Nat.eqb_spec (cl_threshold c) 0); [lia|].
  rewrite (proj2 (Nat.ltb_ge _ _)) by lia. cbn [orb mbind option_bind result_bind].
  unfold reconstruct_key. set (sss := {| threshold := cl_threshold c; total_shares := cl_total_shares c |}).
  set (sel := map _ opened). assert (Hsel : length sel = length responses).
  { unfold sel. rewrite length_map. lia. }
  destruct (Nat.ltb_spec (length responses) (cl_threshold c)) as [Hlt|Hge].
  - rewrite reconstruct_insufficient by (simpl; lia). by rewrite Hsel.
  - destruct (reconstruct_total sss sel 68) as (secret & -> & Hs).
    + intros Hnil. rewrite Hnil in Hsel. simpl in Hsel. lia.
    + unfold sel. apply Forall_map. clear -Hval H32. induction Hval as [|o ks opened kss Ho _ IH];
        constructor; apply Forall_cons in H32 as [[H1 H2] H32]; [simpl; lia | by apply IH].
    + simpl. lia.
    + simpl. by rewrite Hs.
Qed.

(** A response of the service passes the coordinator's signature check under the
    verifying key of the service, at any time and for any request. *)
Theorem response_verifies `{!Crypto, !CryptoLaws, !Aead} (cfg : ServiceConfig) (sk : SigningKey)
    (c : DecryptionCoordinator) (now : N) (nonce_bytes : bytes) (request : DecryptionRequest)
    (share : KeyShare) (r : DecryptionResponse) :
  sk_try_from (to_str (cf_validator_key cfg)) = Some sk →
  String.length (vk_bytes (sk_verifying_key sk)) = 32 →
  (∀ m, String.length (sig_bytes (sign sk m)) = 64) →
  validator_pubkeys c !! cf_validator_id cfg = Some (of_str (vk_bytes (sk_verifying_key sk))) →
  create_response cfg now nonce_bytes request share = Some r →
  verify_response c r = true.
Proof.
  intros Hsk Hvk Hsig Hreg Hr. unfold create_response in Hr.
  destruct (encrypt_to_requestor _ _ _ _) as [e|]; [|done]. simpl in Hr. simplify_eq.
  unfold verify_response. cbn [rs_validator_id rs_signature]. rewrite Hreg.
  unfold sign_response. destruct (negb _); [done|]. rewrite Hsk.
  case_bool_decide; [done|]. unfold verify_ed25519_signature.
  rewrite !length_of_str, Hvk, Hsig, !to_of_str, vk_roundtrip, sig_roundtrip. simpl.
  apply sign_verify.
Qed.

Module ServiceDemo.
Import Toy ToyCipher.

Definition cfg : ServiceConfig :=
  {| cf_validator_id := "v1"; cf_validator_key := replicate 32 (byte 5);
     cf_validator_pubkey := replicate 32 (byte 5); cf_threshold := 1; cf_total_shares := 2;
     request_timeout := 300; max_concurrent := 10 |}.
Definition share : KeyShare :=
  {| ks_index := byte 1; ks_value := replicate 32 (byte 6); ks_public_key := replicate 32 (byte 7) |}.
Definition nonce12 : bytes := replicate 12 (byte 2).
Definition sealed : bytes :=
  match Distribution.encrypt_share nonce12 share (cf_validator_key cfg) with
  | Ok b => b
  | Err _ => []
  end.
Definition s0 : DecryptionService :=
  {| config := cfg; sv_te := {| threshold := 1; total_shares := 2 |}; shares := ∅; active_count := 0 |}.
Definition request : DecryptionRequest := DistributionDemo.anyone.
Definition cmds : list (N * bytes * DecryptionCommand) :=
  [(1%N, nonce12, StoreShare "npm:a@1" sealed); (2%N, nonce12, ProcessRequest request)].
Definition ran : DecryptionService * list DecryptionResponse := default (s0, []) (service_run s0 cmds).
Definition answers : list DecryptionResponse := Eval vm_compute in ran.2.

Lemma service_always_idle_witness :
  active_count ran.1 = 0 ∧ config ran.1 = cfg ∧ length ran.2 ≤ length cmds.
Proof. apply (service_always_idle cfg s0 ran.1 cmds ran.2); vm_compute; reflexivity. Defined.

Lemma service_releases_share_witness :
  ran.1 = ran.1 ∧ ∃ r, ran.2 = [r] ∧
    aead_decrypt (response_key (requestor_pubkey request) (cf_validator_pubkey cfg))
      (take 12 (rs_encrypted_share r)) [] (drop 12 (rs_encrypted_share r)) = Some (to_bytes share).
Proof.
  apply (service_releases_share ran.1 ran.1 2 nonce12 request share ran.2).
  - vm_compute. reflexivity.
  - apply Nat.ltb_lt. vm_compute. reflexivity.
  - reflexivity.
  - vm_compute. reflexivity.
Defined.

Lemma stored_share_keys_witness :
  (cf_validator_key (config s0) = cf_validator_key cfg →
     ∃ s', store_share s0 "npm:a@1" sealed = Ok s' ∧ shares s' = <["npm:a@1" := share]> (shares s0)) ∧
  (share_key (cf_validator_key (config s0)) = share_key (cf_validator_key cfg) →
     cf_validator_key (config s0) = cf_validator_key cfg ∨ collision).
Proof.
  apply (stored_share_keys s0 "npm:a@1" nonce12 (cf_validator_key cfg) sealed share);
    vm_compute; reflexivity.
Defined.

(** A client whose private key is the validator's public key, so that the response
    opens. *)
Definition client : DecryptionClient :=
  with_params (client_new (cf_validator_pubkey cfg) (requestor_pubkey request)) 1 2.

Lemma client_never_reconstructs_witness :
  reconstruct_package client [] answers
  = Some (Err (if length answers <? cl_threshold client
               then InsufficientShares (N.of_nat (length answers) mod 256) (cl_threshold client)
               else ReconstructionFailed "Invalid key length")).
Proof.
  apply (client_never_reconstructs client [] answers [share]).
  - constructor; [|constructor]. split; [apply Nat.leb_le|]; vm_compute; reflexivity.
  - repeat constructor.
  - split; [apply Nat.ltb_lt | apply Nat.leb_le]; vm_compute; reflexivity.
Defined.

Definition coordinator : DecryptionCoordinator :=
  register_validator_pubkey (coordinator_new DistributionDemo.d0) "v1" (cf_validator_key cfg).
Definition answer : DecryptionResponse := default DistributionDemo.fake (head answers).

Lemma response_verifies_witness : verify_response coordinator answer = true.
Proof.
  apply (@response_verifies toy_crypto _ _ cfg (to_str (cf_validator_key cfg)) coordinator 2 nonce12 request share).
  - vm_compute. reflexivity.
  - vm_compute. reflexivity.
  - intros m. cbn [sign sig_bytes toy_crypto]. rewrite length_app_str.
    unfold digest. by rewrite length_fit.
  - vm_compute. reflexivity.
  - vm_compute. reflexivity.
Defined.
End ServiceDemo.
