(* ===== verification/AccessControl.v ===== *)
(** Organisation policies and roles
    (crates/threshold-encryption/src/access_control.rs). *)

From S2P Require Import Prelude Text.

(** [AccessPolicy] of access_control.rs. *)
Record OrgPolicy := {
  requires_approval : bool;
  max_package_size : N;
  min_stake : N;
  allow_external_publishers : bool;
  allowed_ecosystems : list string;
  custom_rules : gmap string string;
}.

Definition default_policy : OrgPolicy := {|
  requires_approval := true; max_package_size := 100 * 1024 * 1024; min_stake := 0;
  allow_external_publishers := false; allowed_ecosystems := []; custom_rules := ∅;
|}.

Definition strict : OrgPolicy := {|
  requires_approval := true; max_package_size := 10 * 1024 * 1024; min_stake := 100000;
  allow_external_publishers := false; allowed_ecosystems := ["npm"; "pypi"]; custom_rules := ∅;
|}.

Definition relaxed : OrgPolicy := {|
  requires_approval := false; max_package_size := 500 * 1024 * 1024; min_stake := 0;
  allow_external_publishers := true; allowed_ecosystems := []; custom_rules := ∅;
|}.

Inductive PolicyError :=
| PackageTooLarge
| EcosystemNotAllowed
| InsufficientStake.

Definition validate_package (p : OrgPolicy) (size : N) (ecosystem : string) (publisher_stake : N)
    : result PolicyError unit :=
  if (max_package_size p <? size)%N then Err PackageTooLarge
  else if negb (bool_decide (allowed_ecosystems p = [])) &&
          negb (bool_decide (ecosystem ∈ allowed_ecosystems p)) then Err EcosystemNotAllowed
  else if (publisher_stake <? min_stake p)%N then Err InsufficientStake
  else Ok tt.

Definition with_custom_rule (p : OrgPolicy) (key value : string) : OrgPolicy := {|
  requires_approval := requires_approval p; max_package_size := max_package_size p;
  min_stake := min_stake p; allow_external_publishers := allow_external_publishers p;
  allowed_ecosystems := allowed_ecosystems p; custom_rules := <[key := value]> (custom_rules p);
|}.

Inductive Role := Admin | Publisher | Reader | Validator | Observer.
Inductive Permission := Publish | Read | Decrypt | Validate | Manage.

#[export] Instance role_eq_dec : EqDecision Role.
Proof. solve_decision. Defined.

Definition role_has_permission (r : Role) (p : Permission) : bool :=
  match r, p with
  | Admin, _ => true
  | Publisher, Publish => true
  | Publisher, Read => true
  | Reader, Read => true
  | Reader, Decrypt => true
  | Validator, Validate => true
  | Validator, Read => true
  | Observer, Read => true
  | _, _ => false
  end.

Record Member := { member_id : string; roles : list Role; added_at : N; added_by : string }.

Definition member_has_permission (m : Member) (p : Permission) : bool :=
  existsb (λ r, role_has_permission r p) (roles m).

Definition with_roles (m : Member) (rs : list Role) : Member :=
  {| member_id := member_id m; roles := rs; added_at := added_at m; added_by := added_by m |}.

Definition add_role (m : Member) (r : Role) : Member :=
  if bool_decide (r ∈ roles m) then m else with_roles m (roles m ++ [r]).

Definition remove_role (m : Member) (r : Role) : Member :=
  with_roles m (filter (λ x, x ≠ r) (roles m)).

(** A history of grants and revocations of one member. *)
Inductive RoleOp := Grant (r : Role) | Revoke (r : Role).

Definition role_apply (m : Member) (op : RoleOp) : Member :=
  match op with
  | Grant r => add_role m r
  | Revoke r => remove_role m r
  end.

(** The last grant or revocation of [r], if there is one. *)
Fixpoint last_grant (r : Role) (ops : list RoleOp) : option bool :=
  match ops with
  | [] => None
  | op :: ops' =>
      match last_grant r ops' with
      | Some b => Some b
      | None =>
          match op with
          | Grant x => if bool_decide (x = r) then Some true else None
          | Revoke x => if bool_decide (x = r) then Some false else None
          end
      end
  end.

Lemma add_role_mem (m : Member) (r x : Role) : x ∈ roles (add_role m r) ↔ x ∈ roles m ∨ x = r.
Proof.
  unfold add_role. case_bool_decide; simpl; [set_solver|]. rewrite elem_of_app. set_solver.
Qed.

Lemma remove_role_mem (m : Member) (r x : Role) : x ∈ roles (remove_role m r) ↔ x ∈ roles m ∧ x ≠ r.
Proof. unfold remove_role. simpl. rewrite list_elem_of_filter. tauto. Qed.

Lemma roles_last_grant (m : Member) (ops : list RoleOp) (r : Role) :
  r ∈ roles (foldl role_apply m ops) ↔
  match last_grant r ops with
  | Some b => b = true
  | None => r ∈ roles m
  end.
Proof.
  revert m. induction ops as [|op ops IH]; intros m; simpl; [done|]. rewrite IH.
  destruct (last_grant r ops); [done|]. destruct op as [x|x]; simpl role_apply;
    rewrite ?add_role_mem, ?remove_role_mem; case_bool_decide; intuition congruence.
Qed.

Lemma role_apply_NoDup (m : Member) (op : RoleOp) : NoDup (roles m) → NoDup (roles (role_apply m op)).
Proof.
  intros Hnd. destruct op as [r|r]; simpl.
  - unfold add_role. case_bool_decide; [done|]. simpl. apply NoDup_app. split_and!; [done| |].
    + set_solver.
    + apply NoDup_singleton.
  - by apply NoDup_filter.
Qed.

(** Permissions follow the history: after any sequence of grants and revocations, a
    member may do something exactly when some role that allows it was granted last,
    or was held from the beginning and never touched; and roles stay distinct. *)
Theorem permission_history (m : Member) (ops : list RoleOp) (p : Permission) :
  NoDup (roles m) →
  NoDup (roles (foldl role_apply m ops)) ∧
  (member_has_permission (foldl role_apply m ops) p = true ↔
   ∃ r, role_has_permission r p = true ∧
     match last_grant r ops with
     | Some b => b = true
     | None => r ∈ roles m
     end).
Proof.
  intros Hnd. split.
  - revert m Hnd. induction ops as [|op ops IH]; intros m Hnd; simpl; [done|].
    by apply IH, role_apply_NoDup.
  - unfold member_has_permission. rewrite existsb_exists. split.
    + intros (r & Hr & Hp). exists r. split; [done|]. apply roles_last_grant. by apply list_elem_of_In.
    + intros (r & Hp & Hr). exists r. split; [|done]. apply list_elem_of_In. by apply roles_last_grant.
Qed.

(** [validate_package] accepts exactly the packages within the size, with an allowed
    ecosystem and enough stake, and reports the first violated rule in that order. *)
Lemma validate_package_spec (p : OrgPolicy) (size : N) (ecosystem : string) (stake : N) :
  validate_package p size ecosystem stake = Ok tt ↔
  (size ≤ max_package_size p)%N ∧
  (allowed_ecosystems p = [] ∨ ecosystem ∈ allowed_ecosystems p) ∧
  (min_stake p ≤ stake)%N.
Proof.
  unfold validate_package. destruct (N.ltb_spec (max_package_size p) size).
  { split; [done|]. intros (? & _). lia. }
  destruct (N.ltb_spec stake (min_stake p)); repeat case_bool_decide; simpl; split; try done;
    naive_solver lia.
Qed.

Module AccessDemo.
Definition alice : Member := {| member_id := "alice"; roles := [Reader]; added_at := 0; added_by := "root" |}.

Lemma permission_history_witness :
  NoDup (roles (foldl role_apply alice [Grant Publisher; Revoke Reader])) ∧
  (member_has_permission (foldl role_apply alice [Grant Publisher; Revoke Reader]) Publish = true ↔
   ∃ r, role_has_permission r Publish = true ∧
     match last_grant r [Grant Publisher; Revoke Reader] with
     | Some b => b = true
     | None => r ∈ roles alice
     end).
Proof.
  apply (permission_history alice [Grant Publisher; Revoke Reader] Publish). simpl.
  apply NoDup_singleton.
Defined.
End AccessDemo.
