(* ===== verification/Admission.v ===== *)
(** Admission of publish requests into the pending pool
    (crates/node/src/package_admission.rs, admission_scan.rs and
    crates/common/src/feature_flags.rs).

    The node reads its shared state, releases the lock while the content is fetched
    and scanned, and takes the lock again to insert: [admit_publish_request] is given
    what the other tasks of the node do in between.  Environment variables, IPFS, the
    YARA scanner, address parsing and the staking contract are the interface
    [AdmissionEnv].  RocksDB errors ([AdmissionError::Storage]) do not occur in the
    model of the store. *)

From S2P Require Import Prelude Text Crypto Types ChainStore PendingPool.
From Stdlib Require Import Ascii NArith.

Record YaraMatch := {
  rule_name : string;
  threat_level : N;
  ym_description : string;
  ym_category : string;
  matched_file : string;
}.

(** What [POST /api/v0/cat] gives: an error of the client or of the connection, a
    status that is not a success, or a body with an optional announced length. *)
Inductive IpfsReply :=
| RequestFailed
| HttpError
| HttpBody (content_length : option N) (body : option string).

Class AdmissionEnv := {
  env_var : string → option string;              (* std::env::var(..).ok() *)
  rules_available : bool;                        (* yara_scanner::rules_available() *)
  ipfs_cat : string → IpfsReply;                 (* POST url *)
  scan_tarball_with_yara : string → string → option (list YaraMatch);
  Address : Type;
  parse_address : string → option Address;       (* str::parse::<Address>() *)
  parse_url : string → bool;                     (* the RPC url parses *)
  staked_balance : string → Address → Address → option N;  (* rpc, contract, publisher *)
}.

(** ** feature_flags.rs *)
Definition env_bool `{AdmissionEnv} (key : string) (default : bool) : bool :=
  match env_var key with
  | Some value =>
      bool_decide (trim value ∈ ["1"; "true"; "TRUE"; "True"; "yes"; "YES"; "Yes"])
  | None => default
  end.

Definition shielded_publish_enabled `{AdmissionEnv} : bool :=
  env_bool "CREG_SHIELDED_PUBLISH_ENABLED" false.

(** ** admission_scan.rs *)
Definition DEFAULT_MAX_SCAN_BYTES : N := 64 * 1024 * 1024.
Definition BLOCKING_YARA_THREAT_LEVEL : N := 4.

Inductive AdmissionScanError :=
| RulesUnavailable
| IpfsFetch (cid : string)
| PayloadTooLarge (cid : string) (size limit : N)
| ContentHashMismatch (canonical declared computed : string)
| ExtractionFailed (canonical : string)
| Rejected (canonical summary : string).

Definition max_scan_bytes `{AdmissionEnv} : N :=
  default DEFAULT_MAX_SCAN_BYTES
    (v ← env_var "CREG_PRE_MEMPOOL_SCAN_MAX_BYTES"; parse_uint u64_max v).

(** [s.trim_end_matches('/')] *)
Definition trim_end_slash (s : string) : string :=
  String.rev (strip_all (String.length s) ["/"] (String.rev s)).

Definition fetch_ipfs_payload `{AdmissionEnv} (cid ipfs_url : string)
    : result AdmissionScanError string :=
  let limit := max_scan_bytes in
  let url := trim_end_slash ipfs_url +:+ "/api/v0/cat?arg=" +:+ cid in
  match ipfs_cat url with
  | RequestFailed => Err (IpfsFetch cid)
  | HttpError => Err (IpfsFetch cid)
  | HttpBody content_length body =>
      _ ← match content_length with
          | Some size => if (limit <? size)%N then Err (PayloadTooLarge cid size limit) else Ok tt
          | None => Ok tt
          end;
      payload ← ok_or (IpfsFetch cid) body;
      let size := N.of_nat (String.length payload) in
      if (limit <? size)%N then Err (PayloadTooLarge cid size limit) else Ok payload
  end.

Definition match_summary (m : YaraMatch) : string :=
  rule_name m +:+ ":" +:+ pretty (threat_level m) +:+ ":" +:+ ym_category m +:+ ":" +:+ matched_file m.

Definition run_pre_mempool_yara_gate `{AdmissionEnv, Crypto} (request : PublishRequest)
    (ipfs_url : string) : result AdmissionScanError unit :=
  if req_shielded request then Ok tt
  else if negb rules_available then Err RulesUnavailable
  else
    let canonical := canonical (req_id request) in
    payload ← fetch_ipfs_payload (req_ipfs_cid request) ipfs_url;
    let computed_hash := sha256_hex payload in
    if negb (String.eqb computed_hash (req_content_hash request)) then
      Err (ContentHashMismatch canonical (req_content_hash request) computed_hash)
    else
      matches ← ok_or (ExtractionFailed canonical)
                  (scan_tarball_with_yara payload (ecosystem (req_id request)));
      let blocking := filter (λ m, BLOCKING_YARA_THREAT_LEVEL ≤ threat_level m)%N matches in
      if bool_decide (blocking = []) then Ok tt
      else Err (Rejected canonical (join ", " (match_summary <$> take 5 blocking))).

(** ** package_admission.rs *)
Inductive AdmissionSurface := Rest | Grpc.
Record AdmissionOptions := { surface : AdmissionSurface; verify_publisher_auth : bool }.
Record AdmissionReceipt := { rc_canonical : string; pending_count : nat }.

Inductive PublisherAdmissionError :=
| InvalidAddress
| Unstaked
| Unavailable.

Inductive SigError :=
| AddressRequired
| BadHex
| InvalidKey
| InvalidSignature
| VerificationFailed
| CountMismatch
| TooFewValid (valid total threshold : nat).

Inductive AdmissionError :=
| InvalidPackageId
| InvalidPublisherSignature (e : SigError)
| PublisherError (e : PublisherAdmissionError)
| Scanner (e : AdmissionScanError)
| AlreadyVerified
| RevokedPackage
| AlreadyPending
| ShieldedPublishDisabled.

(** The part of the shared state that admission uses. *)
Record AdmState := {
  adm_chain : ChainStore;
  adm_pool : PendingPool;
  cfg_ipfs_url : string;
  cfg_eth_rpc_url : string;
  cfg_staking_addr : string;
}.

Definition set_pool (st : AdmState) (p : PendingPool) : AdmState :=
  {| adm_chain := adm_chain st; adm_pool := p; cfg_ipfs_url := cfg_ipfs_url st;
     cfg_eth_rpc_url := cfg_eth_rpc_url st; cfg_staking_addr := cfg_staking_addr st |}.

Definition validate_package_id (request : PublishRequest) : result AdmissionError unit :=
  if is_empty (trim (ecosystem (req_id request))) || is_empty (trim (name (req_id request))) ||
     is_empty (trim (version (req_id request)))
  then Err InvalidPackageId
  else Ok tt.

(** One pair of the multi-signature loop: does it count as valid? *)
Definition valid_pair `{Crypto} (msg : string) (pair : string * string) : bool :=
  match (pk_bytes ← hex_decode pair.1; sig_bytes ← hex_decode pair.2;
         vk ← vk_try_from pk_bytes; sig ← sig_try_from sig_bytes; Some (verify vk msg sig)) with
  | Some b => b
  | None => false
  end.

Definition verify_publish_sig `{Crypto} (req : PublishRequest) : result SigError unit :=
  if is_empty (trim (req_publisher_address req)) then Err AddressRequired
  else
    let msg := publish_signature_message (req_id req) (req_content_hash req)
                 (req_publisher_address req) in
    match req_publisher_pubkeys req with
    | [] =>
        pubkey_bytes ← ok_or BadHex (hex_decode (req_publisher_pubkey req));
        sig_bytes ← ok_or BadHex (hex_decode (req_signature req));
        vk ← ok_or InvalidKey (vk_try_from pubkey_bytes);
        sig ← ok_or InvalidSignature (sig_try_from sig_bytes);
        ensure (verify vk msg sig) VerificationFailed
    | pubkeys =>
        let threshold := if req_threshold req =? 0 then 2 else req_threshold req in
        if negb (length (req_signatures req) =? length pubkeys) then Err CountMismatch
        else
          let valid := count (valid_pair msg) (zip pubkeys (req_signatures req)) in
          if threshold <=? valid then Ok tt
          else Err (TooFewValid valid (length pubkeys) threshold)
    end.

Definition parse_publisher_address `{AdmissionEnv} (publisher_address : string)
    : result PublisherAdmissionError Address :=
  let normalized := canonical_publisher_address publisher_address in
  if is_empty normalized then Err InvalidAddress
  else ok_or InvalidAddress (parse_address normalized).

Definition ensure_publisher_staked `{AdmissionEnv} (st : AdmState) (publisher_address : string)
    : result PublisherAdmissionError unit :=
  publisher ← parse_publisher_address publisher_address;
  if is_empty (trim (cfg_eth_rpc_url st)) then Err Unavailable
  else if is_empty (trim (cfg_staking_addr st)) ||
          eq_ignore_ascii_case (cfg_staking_addr st) "0x0000000000000000000000000000000000000000"
  then Err Unavailable
  else
    staking_addr ← ok_or Unavailable (parse_address (cfg_staking_addr st));
    _ ← ensure (parse_url (cfg_eth_rpc_url st)) Unavailable;
    staked ← ok_or Unavailable (staked_balance (cfg_eth_rpc_url st) staking_addr publisher);
    if (staked =? 0)%N then Err Unstaked else Ok tt.

Definition verify_publish_auth `{AdmissionEnv, Crypto} (st : AdmState) (request : PublishRequest)
    : result AdmissionError unit :=
  _ ← validate_package_id request;
  _ ← map_err InvalidPublisherSignature (verify_publish_sig request);
  map_err PublisherError (ensure_publisher_staked st (req_publisher_address request)).

(** The checks under the read lock. *)
Definition check_state (st : AdmState) (request : PublishRequest) : result AdmissionError unit :=
  let c := canonical (req_id request) in
  _ ← match get_package (adm_chain st) c with
      | Some record =>
          match rec_status record with
          | Verified => Err AlreadyVerified
          | Revoked _ => Err RevokedPackage
          | Pending => Ok tt
          end
      | None => Ok tt
      end;
  match pool_get (adm_pool st) c with
  | Some existing =>
      if String.eqb (req_content_hash (pe_request existing)) (req_content_hash request)
      then Err AlreadyPending else Ok tt
  | None => Ok tt
  end.

(** Everything before the write lock. *)
Definition admit_check `{AdmissionEnv, Crypto} (st : AdmState) (request : PublishRequest)
    (options : AdmissionOptions) : result AdmissionError unit :=
  _ ← validate_package_id request;
  _ ← ensure (negb (req_shielded request && negb shielded_publish_enabled)) ShieldedPublishDisabled;
  _ ← (if verify_publisher_auth options then verify_publish_auth st request else Ok tt);
  _ ← check_state st request;
  map_err Scanner (run_pre_mempool_yara_gate request (cfg_ipfs_url st)).

(** The insertion under the write lock. *)
Definition admit_insert (now : Z) (st : AdmState) (request : PublishRequest)
    : AdmState * result AdmissionError AdmissionReceipt :=
  let '(pool, inserted) := pool_insert now (adm_pool st) request in
  if negb inserted then (st, Err AlreadyPending)
  else (set_pool st pool,
        Ok {| rc_canonical := canonical (req_id request); pending_count := pool_len pool |}).

(** [others] is what the node does to its state while the content is scanned. *)
Definition admit_publish_request `{AdmissionEnv, Crypto} (now : Z) (st : AdmState)
    (others : AdmState → AdmState) (request : PublishRequest) (options : AdmissionOptions)
    : AdmState * result AdmissionError AdmissionReceipt :=
  match admit_check st request options with
  | Err e => (st, Err e)
  | Ok _ => admit_insert now (others st) request
  end.

(** ** What is admitted *)
Section Admissible.
Context `{!AdmissionEnv, !Crypto}.

Definition blank (s : string) : bool := is_empty (trim s).

(** The content was fetched within the limit, has the declared hash and no match of
    a blocking level. *)
Definition scanned_clean (request : PublishRequest) (ipfs_url : string) : Prop :=
  rules_available = true ∧
  ∃ payload matches,
    fetch_ipfs_payload (req_ipfs_cid request) ipfs_url = Ok payload ∧
    sha256_hex payload = req_content_hash request ∧
    scan_tarball_with_yara payload (ecosystem (req_id request)) = Some matches ∧
    Forall (λ m, threat_level m < BLOCKING_YARA_THREAT_LEVEL)%N matches.

(** The rules of admission, independently of the order of the checks. *)
Definition admissible (st : AdmState) (request : PublishRequest) (options : AdmissionOptions) : Prop :=
  (blank (ecosystem (req_id request)) = false ∧ blank (name (req_id request)) = false ∧
   blank (version (req_id request)) = false) ∧
  (req_shielded request = true → shielded_publish_enabled = true) ∧
  (verify_publisher_auth options = true →
     verify_publish_sig request = Ok tt ∧
     ensure_publisher_staked st (req_publisher_address request) = Ok tt) ∧
  (∀ r, get_package (adm_chain st) (canonical (req_id request)) = Some r → rec_status r = Pending) ∧
  (∀ e, pool_get (adm_pool st) (canonical (req_id request)) = Some e →
        req_content_hash (pe_request e) ≠ req_content_hash request) ∧
  (req_shielded request = false → scanned_clean request (cfg_ipfs_url st)).

Lemma filter_nil_Forall {A : Type} (P : A → Prop) `{∀ x, Decision (P x)} (l : list A) :
  filter P l = [] ↔ Forall (λ x, ¬ P x) l.
Proof.
  induction l as [|x l IH]; [done|]. rewrite filter_cons, Forall_cons. case_decide; naive_solver.
Qed.

Lemma yara_gate_spec (request : PublishRequest) (url : string) :
  run_pre_mempool_yara_gate request url = Ok tt ↔
  (req_shielded request = false → scanned_clean request url).
Proof.
  unfold run_pre_mempool_yara_gate, scanned_clean.
  destruct (req_shielded request); [by split|].
  destruct rules_available; simpl; [|split; [done|]; intros Hc; by destruct (Hc eq_refl)].
  destruct (fetch_ipfs_payload _ _) as [payload|e]; simpl.
  2:{ split; [done|]. intros Hc. by destruct (Hc eq_refl) as (_ & ? & ? & ? & _). }
  destruct (String.eqb_spec (sha256_hex payload) (req_content_hash request)) as [Hh|Hh]; simpl.
  2:{ split; [done|]. intros Hc. destruct (Hc eq_refl) as (_ & ? & ? & ? & ? & _). congruence. }
  destruct (scan_tarball_with_yara _ _) as [ms|] eqn:Hms; simpl.
  2:{ split; [done|]. intros Hc. destruct (Hc eq_refl) as (_ & ? & ? & ? & _ & ? & _). congruence. }
  set (P := λ m, (BLOCKING_YARA_THREAT_LEVEL ≤ threat_level m)%N).
  assert (Hf : filter P ms = [] ↔ Forall (λ m, threat_level m < BLOCKING_YARA_THREAT_LEVEL)%N ms).
  { rewrite filter_nil_Forall. apply Forall_iff. intros m. unfold P. lia. }
  case_bool_decide as Hb.
  - split; [|done]. intros _ _. split; [done|]. exists payload, ms. by apply Hf in Hb.
  - split; [done|]. intros Hc. destruct (Hc eq_refl) as (_ & p & m' & Hp & _ & Hm & Hall).
    simplify_eq. destruct Hb. apply Hf. congruence.
Qed.

Lemma check_state_spec (st : AdmState) (request : PublishRequest) :
  check_state st request = Ok tt ↔
  (∀ r, get_package (adm_chain st) (canonical (req_id request)) = Some r → rec_status r = Pending) ∧
  (∀ e, pool_get (adm_pool st) (canonical (req_id request)) = Some e →
        req_content_hash (pe_request e) ≠ req_content_hash request).
Proof.
  unfold check_state.
  assert (Hp : match pool_get (adm_pool st) (canonical (req_id request)) with
    | Some existing =>
        if String.eqb (req_content_hash (pe_request existing)) (req_content_hash request)
        then Err AlreadyPending else Ok tt
    | None => Ok tt end = Ok tt ↔
    ∀ e, pool_get (adm_pool st) (canonical (req_id request)) = Some e →
        req_content_hash (pe_request e) ≠ req_content_hash request).
  { destruct (pool_get _ _) as [e|]; [|by split]. split.
    - destruct (String.eqb_spec (req_content_hash (pe_request e)) (req_content_hash request));
        [done|]. by intros _ ? [= <-].
    - intros Hne. specialize (Hne e eq_refl). by apply String.eqb_neq in Hne as ->. }
  destruct (get_package _ _) as [r|]; simpl; [|naive_solver].
  destruct (rec_status r) eqn:Hr; simpl; split; try done; try naive_solver;
    intros [Hc _]; specialize (Hc r eq_refl); congruence.
Qed.

Lemma validate_package_id_spec (request : PublishRequest) :
  validate_package_id request = Ok tt ↔
  blank (ecosystem (req_id request)) = false ∧ blank (name (req_id request)) = false ∧
  blank (version (req_id request)) = false.
Proof.
  unfold validate_package_id, blank.
  destruct (is_empty _), (is_empty _), (is_empty _); naive_solver.
Qed.

Lemma verify_publish_auth_spec (st : AdmState) (request : PublishRequest) :
  verify_publish_auth st request = Ok tt ↔
  validate_package_id request = Ok tt ∧ verify_publish_sig request = Ok tt ∧
  ensure_publisher_staked st (req_publisher_address request) = Ok tt.
Proof. unfold verify_publish_auth. by rewrite !then_Ok, !map_err_Ok. Qed.

Lemma admit_check_spec (st : AdmState) (request : PublishRequest) (options : AdmissionOptions) :
  admit_check st request options = Ok tt ↔ admissible st request options.
Proof.
  unfold admit_check, admissible.
  rewrite !then_Ok, map_err_Ok, yara_gate_spec, check_state_spec, ensure_Ok, validate_package_id_spec.
  assert (Hsh : negb (req_shielded request && negb shielded_publish_enabled) = true ↔
                (req_shielded request = true → shielded_publish_enabled = true)).
  { destruct (req_shielded request), shielded_publish_enabled; simpl; naive_solver. }
  rewrite Hsh. destruct (verify_publisher_auth options).
  - rewrite verify_publish_auth_spec, validate_package_id_spec. split.
    + intros (? & ? & (_ & ? & ?) & (? & ?) & ?). done.
    + intros (Hid & ? & Ha & ? & ? & ?). destruct (Ha eq_refl). done.
  - split.
    + intros (? & ? & _ & (? & ?) & ?). done.
    + intros (Hid & ? & Ha & ? & ? & ?). done.
Qed.
End Admissible.

(** C24. Admission is exact: without interference a request is admitted exactly when it is
    [admissible]; it then is in the pool, in place of an earlier submission of the
    same package with other content, and the receipt counts the pool.  Every error
    leaves the node's state as it was. *)
Theorem admission_exact `{!AdmissionEnv, !Crypto} (now : Z) (st : AdmState)
    (request : PublishRequest) (options : AdmissionOptions) :
  match admit_publish_request now st id request options with
  | (st', Ok receipt) =>
      admissible st request options ∧ adm_chain st' = adm_chain st ∧
      entries (adm_pool st')
        = <[canonical (req_id request) := fresh_entry now request]> (entries (adm_pool st)) ∧
      rc_canonical receipt = canonical (req_id request) ∧
      pending_count receipt = size (entries (adm_pool st'))
  | (st', Err _) => ¬ admissible st request options ∧ st' = st
  end.
Proof.
  unfold admit_publish_request. destruct (admit_check st request options) as [[]|e] eqn:Hc.
  - apply admit_check_spec in Hc as Hadm. destruct Hadm as (_ & _ & _ & _ & Hpool & _).
    unfold admit_insert, pool_insert, pool_get in *. cbv [id]. simpl.
    destruct (entries (adm_pool st) !! canonical (req_id request)) as [e|] eqn:He.
    + specialize (Hpool e eq_refl). apply String.eqb_neq in Hpool as ->. simpl.
      by apply admit_check_spec in Hc.
    + simpl. by apply admit_check_spec in Hc.
  - split; [|done]. rewrite <- admit_check_spec, Hc. done.
Qed.

(** The state is not looked at again after the scan: a package that was verified, or
    revoked, while its content was being scanned still enters the pool. *)
Theorem admitted_despite_chain `{!AdmissionEnv, !Crypto} (now : Z) (st : AdmState)
    (others : AdmState → AdmState) (request : PublishRequest) (options : AdmissionOptions)
    (r : ChainRecord) :
  admissible st request options →
  get_package (adm_chain (others st)) (canonical (req_id request)) = Some r →
  entries (adm_pool (others st)) !! canonical (req_id request) = None →
  let '(st', res) := admit_publish_request now st others request options in
  is_ok res = true ∧ get_package (adm_chain st') (canonical (req_id request)) = Some r ∧
  pool_contains (adm_pool st') (canonical (req_id request)) = true.
Proof.
  intros Hadm Hr He. unfold admit_publish_request. apply admit_check_spec in Hadm as ->.
  unfold admit_insert, pool_insert. rewrite He. simpl. split_and!; [done|done|].
  unfold pool_contains. simpl. apply bool_decide_eq_true_2. rewrite lookup_insert_eq. by eexists.
Qed.

(** The multi-signature check counts signatures, not signers, and does not look at
    the publisher's key: one key, listed as often as the threshold the request itself
    names, passes, whatever [publisher_pubkey] says. *)
Theorem multisig_one_key `{!Crypto, !CryptoLaws} (req : PublishRequest) (sk : SigningKey) (n : nat) :
  is_empty (trim (req_publisher_address req)) = false →
  req_publisher_pubkeys req = replicate n (hex_encode (vk_bytes (sk_verifying_key sk))) →
  req_signatures req = replicate n (hex_encode (sig_bytes (sign sk
    (publish_signature_message (req_id req) (req_content_hash req) (req_publisher_address req))))) →
  0 < n → (if req_threshold req =? 0 then 2 else req_threshold req) ≤ n →
  verify_publish_sig req = Ok tt.
Proof.
  intros Haddr Hpk Hsig Hn Ht. unfold verify_publish_sig. rewrite Haddr, Hpk, Hsig.
  set (m := publish_signature_message _ _ _). set (pk := hex_encode (vk_bytes _)).
  set (sg := hex_encode (sig_bytes _)). destruct n as [|n]; [lia|].
  change (replicate (S n) pk) with (pk :: replicate n pk). cbv iota beta.
  change (pk :: replicate n pk) with (replicate (S n) pk).
  rewrite !length_replicate, Nat.eqb_refl. cbn [negb]. rewrite count_true.
  - rewrite length_zip_with, !length_replicate, Nat.min_id. by apply Nat.leb_le in Ht as ->.
  - rewrite zip_with_replicate by done. apply Forall_replicate. unfold valid_pair. simpl.
    unfold pk, sg. rewrite !hex_roundtrip. simpl. rewrite vk_roundtrip. simpl.
    rewrite sig_roundtrip. simpl. apply sign_verify.
Qed.

(** ** Witnesses *)
Module AdmissionDemo.
Import Toy.

#[export] Instance demo_env : AdmissionEnv := {|
  env_var := fun _ => None;
  rules_available := true;
  ipfs_cat := fun url => HttpBody None (Some "tarball");
  scan_tarball_with_yara := fun payload eco => Some [];
  Address := string;
  parse_address := fun s => Some s;
  parse_url := fun s => true;
  staked_balance := fun rpc contract publisher => Some 5%N;
|}.

Definition key : string := "0123456789abcdef0123456789abcdef".
Definition pid : PackageId := {| ecosystem := "npm"; name := "a"; version := "1.0.0" |}.
Definition msg : string := publish_signature_message pid (sha256_hex "tarball") "0xabc".

Definition request (pubkeys signatures : list string) : PublishRequest := {|
  req_id := pid; req_content_hash := sha256_hex "tarball"; req_ipfs_cid := "cid";
  req_publisher_address := "0xabc"; req_publisher_pubkey := hex_encode key;
  req_signature := hex_encode (sig_bytes (sign (Crypto := toy_crypto) key msg));
  req_manifest := {| allowed_network_hosts := []; allowed_fs_writes := []; spawns_processes := false;
                     allowed_process_spawns := []; description := None |};
  req_submitted_at := 0; req_shielded := false; req_key_bundle := None; req_pgp_signature := None;
  req_pgp_public_key := None; req_threshold := 0; req_publisher_pubkeys := pubkeys;
  req_signatures := signatures |}.

Definition st0 : AdmState := {|
  adm_chain := empty_store; adm_pool := pool_open ∅; cfg_ipfs_url := "http://ipfs/";
  cfg_eth_rpc_url := "http://l1"; cfg_staking_addr := "0x01" |}.
Definition opts : AdmissionOptions := {| surface := Rest; verify_publisher_auth := true |}.

Example admitted_once :
  is_ok (admit_publish_request 7 st0 id (request [] []) opts).2 = true ∧
  (admit_publish_request 8 (admit_publish_request 7 st0 id (request [] []) opts).1 id
     (request [] []) opts).2 = Err AlreadyPending.
Proof. split; vm_compute; reflexivity. Qed.

Lemma demo_admissible : admissible st0 (request [] []) opts.
Proof. apply admit_check_spec. vm_compute. reflexivity. Qed.

(** Another task puts the verified package on the chain during the scan. *)
Definition verified : ChainRecord := ChainStoreExamples.record "a".
Definition finalise (st : AdmState) : AdmState := {|
  adm_chain := save_package (adm_chain st) verified; adm_pool := adm_pool st;
  cfg_ipfs_url := cfg_ipfs_url st; cfg_eth_rpc_url := cfg_eth_rpc_url st;
  cfg_staking_addr := cfg_staking_addr st |}.

Lemma admitted_despite_chain_witness :
  let '(st', res) := admit_publish_request 7 st0 finalise (request [] []) opts in
  is_ok res = true ∧ get_package (adm_chain st') (canonical pid) = Some verified ∧
  pool_contains (adm_pool st') (canonical pid) = true.
Proof.
  apply (admitted_despite_chain 7 st0 finalise (request [] []) opts verified).
  - exact demo_admissible.
  - vm_compute. reflexivity.
  - vm_compute. reflexivity.
Defined.

Lemma multisig_one_key_witness :
  verify_publish_sig (request (replicate 2 (hex_encode key))
    (replicate 2 (hex_encode (sig_bytes (sign (Crypto := toy_crypto) key msg))))) = Ok tt.
Proof.
  apply (@multisig_one_key toy_crypto _ (request (replicate 2 (hex_encode key))
    (replicate 2 (hex_encode (sig_bytes (sign (Crypto := toy_crypto) key msg))))) key 2).
  - reflexivity.
  - reflexivity.
  - vm_compute. reflexivity.
  - lia.
  - simpl. lia.
Defined.
End AdmissionDemo.
