(* ===== verification/ShieldedWire.v ===== *)
(** The wire format of shielded packages (crates/common/src/shielded_wire.rs).

    The package on IPFS is [nonce || AES-256-GCM ciphertext]; the key bundle of the
    publish request holds the AES key, in plain text or wrapped for the validators
    with X25519.  The cipher is [Threshold.Aead]; X25519 is the interface [X25519].
    Random values and the validators' secret in the environment are arguments. *)

From S2P Require Import Prelude Text Crypto Gf256 Shamir Threshold.
From Stdlib Require Import Ascii NArith.

(** ** Text functions of the standard library *)

(** [s.split(c).collect()] *)
Fixpoint split_char (c : ascii) (s : string) : list string :=
  match s with
  | EmptyString => [EmptyString]
  | String a s' =>
      if Ascii.eqb a c then EmptyString :: split_char c s'
      else
        match split_char c s' with
        | [] => [String a EmptyString]
        | w :: ws => String a w :: ws
        end
  end.

Definition in_range (lo hi : N) (a : ascii) : bool :=
  ((lo <=? N_of_ascii a) && (N_of_ascii a <=? hi))%N.

(** [std::str::from_utf8]: the byte sequences of RFC 3629. *)
Fixpoint is_utf8 (b : bytes) : bool :=
  match b with
  | [] => true
  | a :: b1 =>
      if in_range 0 127 a then is_utf8 b1
      else
        match b1 with
        | [] => false
        | a1 :: b2 =>
            if in_range 194 223 a then in_range 128 191 a1 && is_utf8 b2
            else
              match b2 with
              | [] => false
              | a2 :: b3 =>
                  let second :=
                    if in_range 224 224 a then in_range 160 191 a1
                    else if in_range 237 237 a then in_range 128 159 a1
                    else in_range 128 191 a1 in
                  if in_range 224 239 a then second && in_range 128 191 a2 && is_utf8 b3
                  else
                    match b3 with
                    | [] => false
                    | a3 :: b4 =>
                        let second :=
                          if in_range 240 240 a then in_range 144 191 a1
                          else if in_range 244 244 a then in_range 128 143 a1
                          else in_range 128 191 a1 in
                        in_range 240 244 a && second && in_range 128 191 a2 &&
                        in_range 128 191 a3 && is_utf8 b4
                    end
              end
        end
  end.

Class X25519 := {
  x_public : bytes → bytes;              (* PublicKey::from(&secret) *)
  x_diffie_hellman : bytes → bytes → bytes;
}.

Class X25519Laws `{X25519} : Prop := {
  x_public_length : ∀ s, length (x_public s) = 32;
  x_dh_comm : ∀ a b, x_diffie_hellman a (x_public b) = x_diffie_hellman b (x_public a);
}.

Inductive WireError :=
| EncryptFailed
| WrapFailed
| MalformedPlain
| BundleHex
| KeyLength
| NonceLength
| MalformedEcies
| EphemeralLength
| SecretNotSet
| SecretLength
| UnwrapFailed
| NotUtf8
| MalformedRaw
| UnsupportedBundle
| TooShort
| NonceMismatch
| DecryptFailed.

Section Wire.
Context `{!Crypto, !Aead, !X25519}.

(** [hex::decode(s)?] as bytes. *)
Definition decode_hex (s : string) : result WireError bytes :=
  b ← ok_or BundleHex (hex_decode s); Ok (of_str b).

(** [.try_into::<[u8; n]>()] *)
Definition exactly (n : nat) (e : WireError) (b : bytes) : result WireError bytes :=
  if length b =? n then Ok b else Err e.

Definition ecies_wrap_bundle (ephemeral wrap_nonce validator_pubkey : bytes) (raw_bundle : string)
    : result WireError string :=
  let shared := x_diffie_hellman ephemeral validator_pubkey in
  wrapped ← ok_or WrapFailed (aead_encrypt (compute_hash shared) wrap_nonce [] (of_str raw_bundle));
  Ok ("ecies:" +:+ hex_encode (to_str (x_public ephemeral)) +:+ ":" +:+
      hex_encode (to_str wrap_nonce) +:+ ":" +:+ hex_encode (to_str wrapped)).

Definition encrypt_shielded_package (aes_key nonce_bytes ephemeral wrap_nonce plaintext : bytes)
    (validator_pubkey_x25519 : option bytes) : result WireError (bytes * string) :=
  ct ← ok_or EncryptFailed (aead_encrypt aes_key nonce_bytes [] plaintext);
  let raw_bundle := hex_encode (to_str aes_key) +:+ ":" +:+ hex_encode (to_str nonce_bytes) in
  bundle ← match validator_pubkey_x25519 with
           | Some pubkey => ecies_wrap_bundle ephemeral wrap_nonce pubkey raw_bundle
           | None => Ok ("plain:" +:+ raw_bundle)
           end;
  Ok (nonce_bytes ++ ct, bundle).

(** The key and the nonce of [<key_hex>:<nonce_hex>]. *)
Definition parse_pair (malformed : WireError) (s : string) : result WireError (bytes * bytes) :=
  '(k_hex, n_hex) ← ok_or malformed (split_once ":" s);
  key ← decode_hex k_hex;
  key ← exactly 32 KeyLength key;
  nonce ← decode_hex n_hex;
  nonce ← exactly 12 NonceLength nonce;
  Ok (key, nonce).

(** [secret_env] is [CREG_VALIDATOR_PRIVKEY_X25519]. *)
Definition parse_key_bundle (secret_env : option string) (bundle : string)
    : result WireError (bytes * bytes) :=
  match strip_prefix "plain:" bundle with
  | Some rest => parse_pair MalformedPlain rest
  | None =>
      match strip_prefix "ecies:" bundle with
      | Some rest =>
          match split_char ":" rest with
          | [p0; p1; p2] =>
              eph_pub ← decode_hex p0;
              eph_pub ← exactly 32 EphemeralLength eph_pub;
              wrap_nonce ← decode_hex p1;
              wrap_nonce ← exactly 12 NonceLength wrap_nonce;
              wrapped ← decode_hex p2;
              secret_hex ← ok_or SecretNotSet secret_env;
              secret ← decode_hex (trim secret_hex);
              secret ← exactly 32 SecretLength secret;
              let shared := x_diffie_hellman secret eph_pub in
              raw ← ok_or UnwrapFailed (aead_decrypt (compute_hash shared) wrap_nonce [] wrapped);
              _ ← ensure (is_utf8 raw) NotUtf8;
              parse_pair MalformedRaw (to_str raw)
          | _ => Err MalformedEcies
          end
      | None => Err UnsupportedBundle
      end
  end.

Definition decrypt_shielded_package (secret_env : option string) (wire : bytes) (bundle : string)
    : result WireError bytes :=
  '(aes_key, aes_nonce) ← parse_key_bundle secret_env bundle;
  if length wire <? 12 + 16 then Err TooShort
  else if negb (bool_decide (take 12 wire = aes_nonce)) then Err NonceMismatch
  else ok_or DecryptFailed (aead_decrypt aes_key aes_nonce [] (drop 12 wire)).

End Wire.

(** ** Round trip *)

(** [hex::encode] writes lower-case hexadecimal digits. *)
Definition hex_digit (c : ascii) : bool := in_range 48 57 c || in_range 97 102 c.

Class HexDigits `{Crypto} : Prop :=
  hex_digits : ∀ b, Forall (λ c, hex_digit c = true) (of_str (hex_encode b)).

Section RoundTrip.
Context `{!Crypto, !CryptoLaws, !HexDigits, !Aead, !AeadLaws, !X25519, !X25519Laws}.

Lemma digits_free (s : string) :
  Forall (λ c, hex_digit c = true) (of_str s) → free_of ":" s = true.
Proof.
  induction s as [|c s IH]; [done|]. cbn [of_str String.list_ascii_of_string]. intros [Hc Hs]%Forall_cons.
  simpl. rewrite IH by done. rewrite andb_true_r.
  destruct (Ascii.eqb_spec c ":") as [->|]; [vm_compute in Hc|]; done.
Qed.

Lemma split_char_free (a : string) : free_of ":" a = true → split_char ":" a = [a].
Proof.
  induction a as [|c a IH]; [done|]. simpl. intros [Hc Ha]%andb_true_iff.
  apply negb_true_iff in Hc as ->. by rewrite IH.
Qed.

Lemma split_char_app (a b : string) :
  free_of ":" a = true → split_char ":" (a +:+ ":" +:+ b) = a :: split_char ":" b.
Proof.
  induction a as [|c a IH]; [done|]. simpl. intros [Hc Ha]%andb_true_iff.
  apply negb_true_iff in Hc as ->. by rewrite IH.
Qed.

Lemma hex_free (b : string) : free_of ":" (hex_encode b) = true.
Proof. apply digits_free, hex_digits. Qed.

Lemma decode_hex_encode (b : bytes) : decode_hex (hex_encode (to_str b)) = Ok b.
Proof. unfold decode_hex. rewrite hex_roundtrip. simpl. by rewrite of_to_str. Qed.

Lemma exactly_Ok (n : nat) (e : WireError) (b : bytes) : length b = n → exactly n e b = Ok b.
Proof. intros <-. unfold exactly. by rewrite Nat.eqb_refl. Qed.

Lemma parse_pair_raw (e : WireError) (key nonce : bytes) :
  length key = 32 → length nonce = 12 →
  parse_pair e (hex_encode (to_str key) +:+ ":" +:+ hex_encode (to_str nonce)) = Ok (key, nonce).
Proof.
  intros Hk Hn. unfold parse_pair. change (":" +:+ ?x) with (String ":" x). rewrite split_once_app by apply hex_free.
  cbn [ok_or mbind result_bind]. rewrite !decode_hex_encode. cbn [mbind result_bind].
  rewrite (exactly_Ok 32) by done. cbn [mbind result_bind]. by rewrite (exactly_Ok 12) by done.
Qed.

Lemma is_utf8_ascii (b : bytes) : Forall (λ c, in_range 0 127 c = true) b → is_utf8 b = true.
Proof. induction 1 as [|c b Hc _ IH]; [done|]. cbn [is_utf8]. by rewrite Hc. Qed.

Lemma hex_digit_ascii (c : ascii) : hex_digit c = true → in_range 0 127 c = true.
Proof. destruct c as [[] [] [] [] [] [] [] []]; vm_compute; done. Qed.

Lemma raw_bundle_utf8 (a b : string) :
  is_utf8 (of_str (hex_encode a +:+ ":" +:+ hex_encode b)) = true.
Proof.
  apply is_utf8_ascii. rewrite !of_str_app. apply Forall_app. split; [|apply Forall_app; split].
  - eapply Forall_impl; [apply hex_digits | apply hex_digit_ascii].
  - by repeat constructor.
  - eapply Forall_impl; [apply hex_digits | apply hex_digit_ascii].
Qed.
End RoundTrip.

(** Whoever holds the right secret decrypts what was encrypted: a plain bundle for
    everyone, a wrapped one with the X25519 secret of the key it was wrapped for. *)
Theorem shielded_roundtrip `{!Crypto, !CryptoLaws, !HexDigits, !Aead, !AeadLaws, !X25519, !X25519Laws}
    (aes_key nonce_bytes ephemeral wrap_nonce plaintext wire : bytes) (bundle : string)
    (recipient : option bytes) (secret_env : option string) :
  length aes_key = 32 → length nonce_bytes = 12 → length wrap_nonce = 12 →
  (∀ secret, recipient = Some secret → length secret = 32 ∧
     ∃ text, secret_env = Some text ∧ hex_decode (trim text) = Some (to_str secret)) →
  encrypt_shielded_package aes_key nonce_bytes ephemeral wrap_nonce plaintext (x_public <$> recipient)
    = Ok (wire, bundle) →
  decrypt_shielded_package secret_env wire bundle = Ok plaintext.
Proof.
  intros Hk Hn Hw Hsec Henc. unfold encrypt_shielded_package in Henc. res_inv.
  match goal with Hc : aead_encrypt aes_key _ _ _ = Some _ |- _ => rename Hc into Hct end.
  pose proof (aead_tag _ _ _ _ _ Hct) as Htag. apply aead_roundtrip in Hct as Hdec.
  enough (Hparse : parse_key_bundle secret_env bundle = Ok (aes_key, nonce_bytes)).
  { unfold decrypt_shielded_package. rewrite Hparse. cbn [mbind result_bind].
    rewrite (proj2 (Nat.ltb_ge _ _)) by (rewrite length_app; lia).
    rewrite take_app_length', drop_app_length', bool_decide_eq_true_2 by done.
    cbn [negb]. by rewrite Hdec. }
  destruct recipient as [secret|]; simpl in *; simplify_eq.
  - destruct (Hsec secret eq_refl) as (Hlen & text & -> & Htext).
    unfold ecies_wrap_bundle in *. res_inv.
    match goal with Hc : aead_encrypt (compute_hash _) _ _ _ = Some _ |- _ =>
      apply aead_roundtrip in Hc as Hunwrap end.
    unfold parse_key_bundle. set (rest := hex_encode (to_str (x_public ephemeral)) +:+ _).
    assert (strip_prefix "plain:" ("ecies:" +:+ rest) = None) as -> by reflexivity.
    assert (strip_prefix "ecies:" ("ecies:" +:+ rest) = Some rest) as -> by (by apply strip_prefix_Some).
    unfold rest. rewrite !split_char_app, split_char_free by apply hex_free.
    rewrite !decode_hex_encode. cbn [mbind result_bind].
    rewrite (exactly_Ok 32 EphemeralLength) by apply x_public_length. cbn [mbind result_bind].
    rewrite (exactly_Ok 12) by done. cbn [mbind result_bind ok_or].
    unfold decode_hex at 1. rewrite Htext. cbn [mbind result_bind ok_or]. rewrite of_to_str.
    rewrite (exactly_Ok 32) by done. cbn [mbind result_bind].
    rewrite x_dh_comm, Hunwrap. cbn [mbind result_bind ok_or]. rewrite raw_bundle_utf8.
    cbn [ensure mbind result_bind]. rewrite to_of_str. by apply parse_pair_raw.
  - unfold parse_key_bundle. set (rest := hex_encode (to_str aes_key) +:+ _).
    assert (strip_prefix "plain:" ("plain:" +:+ rest) = Some rest) as -> by (by apply strip_prefix_Some).
    by apply parse_pair_raw.
Qed.

Module ShieldedDemo.
Import Toy ToyCipher.

#[export] Instance toy_x25519 : X25519 := {|
  x_public := fun s => take 32 (s ++ replicate 32 gf_zero);
  x_diffie_hellman := fun a b =>
    zip_with gf_add (take 32 (a ++ replicate 32 gf_zero)) (take 32 (b ++ replicate 32 gf_zero));
|}.

#[export] Instance toy_x25519_laws : X25519Laws.
Proof.
  assert (Hlen : ∀ s : bytes, length (take 32 (s ++ replicate 32 gf_zero)) = 32).
  { intros s. rewrite length_take, length_app, length_replicate. lia. }
  assert (Hfix : ∀ s : bytes, take 32 (take 32 (s ++ replicate 32 gf_zero) ++ replicate 32 gf_zero)
                              = take 32 (s ++ replicate 32 gf_zero)).
  { intros s. by rewrite take_app_length' by (by rewrite Hlen). }
  split; [exact Hlen|]. intros a b. cbn [x_diffie_hellman x_public toy_x25519]. rewrite !Hfix.
  generalize (take 32 (a ++ replicate 32 gf_zero)) as l.
  generalize (take 32 (b ++ replicate 32 gf_zero)) as k. clear.
  intros k l. revert k. induction l as [|x l IH]; intros [|y k]; simpl; try done.
  by rewrite gf_add_comm, IH.
Qed.

#[export] Instance toy_hex_digits : HexDigits.
Proof.
  intros b. cbn [hex_encode toy_crypto]. induction b as [|c b IH]; [constructor|].
  change (of_str (encode (String c b))) with
    (nibble (N_of_ascii c / 16) :: nibble (N_of_ascii c mod 16) :: of_str (encode b)).
  constructor; [|constructor; [|exact IH]]; destruct c as [[] [] [] [] [] [] [] []]; reflexivity.
Qed.

Definition secret : bytes := replicate 32 (byte 21).
Definition sealed : bytes * string :=
  match encrypt_shielded_package (replicate 32 (byte 1)) (replicate 12 (byte 2)) [byte 3]
          (replicate 12 (byte 4)) (of_str "payload") (Some (x_public secret)) with
  | Ok r => r
  | Err _ => ([], "")
  end.

Lemma shielded_roundtrip_witness :
  decrypt_shielded_package (Some (hex_encode (to_str secret))) sealed.1 sealed.2
  = Ok (of_str "payload").
Proof.
  apply (shielded_roundtrip (replicate 32 (byte 1)) (replicate 12 (byte 2)) [byte 3]
    (replicate 12 (byte 4)) (of_str "payload") sealed.1 sealed.2 (Some secret)).
  - reflexivity.
  - reflexivity.
  - reflexivity.
  - intros s [= <-]. split; [reflexivity|]. eexists. split; [reflexivity|]. vm_compute. reflexivity.
  - vm_compute. reflexivity.
Defined.
End ShieldedDemo.
