(* ===== verification/Pipeline.v ===== *)
(** The validator pipeline (crates/node/src/validator_pipeline.rs).

    A package taken from the pending pool is fetched, decrypted if it is shielded,
    hashed, analysed and voted on; the pipeline then polls the votes collected by the
    gossip handlers until they decide or the time is up, emits one transaction and
    forgets the package.  The analysis (static scanners, sandbox, model) is the
    interface [Analyzer].  The state is shared with the other tasks of the node:
    [others i] is what they do to it at the [i]-th point where the task awaits.  The
    broadcast and the transaction channel are the outputs of a run; serialisation of
    the vote does not fail on these types. *)

From S2P Require Import Prelude Text Crypto Types Merkle ValidatorSet Vrf Pbft VoteAccumulator.
From S2P Require Import EvidenceVotes ChainStore PublisherIndex Sync LightClient PendingPool NodeState.
From S2P Require Import Threshold ShieldedWire Admission.
From Stdlib Require Import NArith.

Definition VOTE_POLL_MS : N := 500.
Definition MAX_IPFS_PAYLOAD_BYTES : N := 512 * 1024 * 1024.

(** The configuration of the pipeline; [x25519_secret] is the environment variable
    [CREG_VALIDATOR_PRIVKEY_X25519]. *)
Record PipelineConfig := {
  is_validator : bool;
  pl_ipfs_url : string;
  vote_timeout_secs : N;
  x25519_secret : option string;
}.

(** [validator::ValidationResult], as far as the pipeline uses it. *)
Record ValidationResult := {
  vr_vote : ValidatorVote;
  vr_pgp_fingerprint : option string;
  vr_findings : list Finding;
  vr_analysis_bundles : AnalysisBundleRefs;
  vr_evidence_digest : string;
  vr_deterministic_risk : DeterministicRiskSummary;
}.

Class Analyzer := {
  SandboxResult : Type;
  sandbox_result : string → option SandboxResult;     (* sandbox::get_result *)
  analyze : PublishRequest → string → string → option PackageManifest → option SandboxResult →
            option ValidationResult;                  (* validator::validate_package *)
  model_version : string;                             (* DeepScanner::model_version *)
}.

Section Pipeline.
Context `{!Crypto, !Serde, !Semver, !AdmissionEnv, !Aead, !X25519, !Analyzer}.

Definition fetch_from_ipfs (cid ipfs_url : string) : option string :=
  match ipfs_cat (trim_end_slash ipfs_url +:+ "/api/v0/cat?arg=" +:+ cid) with
  | RequestFailed => None
  | HttpError => None
  | HttpBody content_length body =>
      if match content_length with
         | Some len => (MAX_IPFS_PAYLOAD_BYTES <? len)%N
         | None => false
         end then None
      else
        bytes ← body;
        if (MAX_IPFS_PAYLOAD_BYTES <? N.of_nat (String.length bytes))%N then None else Some bytes
  end.

Definition decrypt_shielded (cfg : PipelineConfig) (data bundle : string) : option string :=
  match decrypt_shielded_package (x25519_secret cfg) (of_str data) bundle with
  | Ok plain => Some (to_str plain)
  | Err _ => None
  end.

(** The tarball that is analysed: fetched, not empty, decrypted if shielded and a
    bundle is given. *)
Definition obtain_tarball (cfg : PipelineConfig) (req : PublishRequest) : option string :=
  tarball ← fetch_from_ipfs (req_ipfs_cid req) (pl_ipfs_url cfg);
  if is_empty tarball then None
  else if req_shielded req then
    match req_key_bundle req with
    | Some bundle => decrypt_shielded cfg tarball bundle
    | None => Some tarball
    end
  else Some tarball.

(** What a task does with a package before it votes. *)
Inductive Analysis :=
| Dropped                                          (* logged, cleaned up *)
| HashMismatch (tx : Transaction)
| Voted (res : ValidationResult) (our_sig : ValidatorSignature).

Definition mismatch_tx (node_id canonical : string) : Transaction :=
  Revoke canonical "Content hash mismatch — possible tampering" node_id "".

(** The signature over the canonical vote message. *)
Definition sign_vote (utc : Z) (node_id : string) (sk : SigningKey) (req : PublishRequest)
    (res : ValidationResult) : ValidatorSignature :=
  let validator_pubkey := hex_encode (vk_bytes (sk_verifying_key sk)) in
  let approved := match vr_vote res with Approve => true | Reject _ => false end in
  let msg := canonical_vote_message (canonical (req_id req)) (req_content_hash req) approved
               validator_pubkey (scanner_profile_digest model_version (vr_analysis_bundles res))
               (vr_evidence_digest res) in
  {| vs_validator_id := node_id; vs_validator_pubkey := validator_pubkey;
     vs_signature := hex_encode (sig_bytes (sign sk msg)); vs_vote := vr_vote res;
     vs_signed_at := utc; vs_ml_model_version := model_version;
     vs_analysis_bundles := vr_analysis_bundles res; vs_evidence_digest := vr_evidence_digest res;
     vs_deterministic_risk := vr_deterministic_risk res |}.

(** From the fetch to the signature; the private key is a hexadecimal string of 32
    bytes ([SigningKey::from_bytes]). *)
Definition analyse_package (cfg : PipelineConfig) (utc : Z) (st : NodeState) (req : PublishRequest)
    : Analysis :=
  match obtain_tarball cfg req with
  | None => Dropped
  | Some tarball =>
      if negb (String.eqb (sha256_hex tarball) (req_content_hash req)) then
        HashMismatch (mismatch_tx (cfg_node_id st) (canonical (req_id req)))
      else if negb (is_validator cfg) then Dropped
      else
        let prev := get_latest_version (chain (core st)) (ecosystem (req_id req)) (name (req_id req)) in
        match (privkey ← cfg_privkey st;
               res ← analyze req tarball privkey (prev ≫= rec_manifest)
                       (((λ r, canonical (rec_id r)) <$> prev) ≫= sandbox_result);
               key_bytes ← hex_decode privkey;
               sk ← (if String.length key_bytes =? 32 then sk_try_from key_bytes else None);
               Some (res, sign_vote utc (cfg_node_id st) sk req res)) with
        | Some (res, our_sig) => Voted res our_sig
        | None => Dropped
        end
  end.

Definition gossip_vote (req : PublishRequest) (res : ValidationResult) (our_sig : ValidatorSignature)
    : VoteGossip := {|
  consensus_subject := canonical (req_id req); vg_content_hash := req_content_hash req;
  vg_validator_id := vs_validator_id our_sig; vg_validator_pubkey := vs_validator_pubkey our_sig;
  vg_ml_model_version := vs_ml_model_version our_sig;
  vg_analysis_bundles := vr_analysis_bundles res; vg_evidence_digest := vr_evidence_digest res;
  vg_deterministic_risk := vr_deterministic_risk res; vg_phase := "commit";
  vg_approved := match vr_vote res with Approve => true | Reject _ => false end;
  vg_reject_reason := match vr_vote res with Approve => None | Reject reason => Some reason end;
  vg_signature := vs_signature our_sig |}.

(** [vote_timeout_secs.max(1).saturating_mul(1000).div_ceil(VOTE_POLL_MS)] *)
Definition max_iterations (vote_timeout_secs : N) : N :=
  let ms := N.min u64_max (N.max vote_timeout_secs 1 * 1000) in
  (ms + VOTE_POLL_MS - 1) / VOTE_POLL_MS.

(** The decision of the votes that the state holds for the package. *)
Definition decided (st : NodeState) (c : string) (assigned_validator_count : nat)
    : option EvidenceVoteOutcome :=
  round ← package_rounds st !! c;
  aggregate_evidence_votes (signatures round) assigned_validator_count.

(** The polling loop: look, then sleep while the other tasks run. *)
Fixpoint poll (n : nat) (others : nat → NodeState → NodeState) (i : nat) (c : string)
    (assigned_validator_count : nat) (st : NodeState) : NodeState * option EvidenceVoteOutcome :=
  match n with
  | O => (st, None)
  | S n' =>
      match decided st c assigned_validator_count with
      | Some outcome => (st, Some outcome)
      | None => poll n' others (S i) c assigned_validator_count (others i st)
      end
  end.

Definition cleanup (st : NodeState) (c : string) : NodeState :=
  set_rounds_pool st (clear_package_round (package_rounds st) c) (pool_remove (pending_pool st) c).1.

(** What [summarize_vote_round] counts; [None] is the panic of the byte slice
    [&evidence_digest[..12]] inside a character. *)
Record VoteSummary := {
  sum_votes : nat;
  sum_degraded : nat;
  sum_rejects : nat;
  sum_quorum : nat;
  sum_top : nat;
}.

Definition consensus_grade (s : ValidatorSignature) : bool :=
  is_consensus_grade_vote (vs_ml_model_version s) (vs_analysis_bundles s) (vs_evidence_digest s).

Definition summary_profile (s : ValidatorSignature) : string :=
  scanner_profile_digest (vs_ml_model_version s) (vs_analysis_bundles s) +:+ ":" +:+
  String.substring 0 (Nat.min (String.length (vs_evidence_digest s)) 12) (vs_evidence_digest s).

Definition approves_summary (s : ValidatorSignature) : bool :=
  consensus_grade s && match vs_vote s with Approve => true | Reject _ => false end.

Definition summarize_vote_round (sigs : list ValidatorSignature) (assigned_validator_count : nat)
    : option VoteSummary :=
  if forallb (λ s, negb (consensus_grade s) ||
       char_boundary (vs_evidence_digest s) (Nat.min (String.length (vs_evidence_digest s)) 12)) sigs
  then
    let approvals := filter (λ s, approves_summary s = true) sigs in
    Some {| sum_votes := length sigs;
            sum_degraded := count (λ s, negb (consensus_grade s)) sigs;
            sum_rejects := count (λ s, consensus_grade s && negb (approves_summary s)) sigs;
            sum_quorum := assigned_validator_count * 2 / 3 + 1;
            sum_top := foldr Nat.max 0
              ((λ s, count (λ t, String.eqb (summary_profile t) (summary_profile s)) approvals)
                 <$> approvals) |}
  else None.

Definition publish_record (utc : Z) (req : PublishRequest) (res : ValidationResult)
    (final_sigs : list ValidatorSignature) : ChainRecord := {|
  rec_id := req_id req; rec_content_hash := req_content_hash req; rec_ipfs_cid := req_ipfs_cid req;
  rec_publisher_pubkey := req_publisher_pubkey req; rec_block_hash := "pending";
  rec_published_at := utc; rec_validator_signatures := final_sigs; rec_status := Verified;
  rec_shielded := req_shielded req; rec_key_bundle := req_key_bundle req;
  rec_pgp_fingerprint := vr_pgp_fingerprint res; rec_findings := vr_findings res;
  rec_analysis_bundles := vr_analysis_bundles res; rec_evidence_digest := vr_evidence_digest res;
  rec_deterministic_risk := vr_deterministic_risk res; rec_access_count := 0;
  rec_last_accessed := None; rec_threshold := 0;
  rec_publisher_pubkeys := req_publisher_pubkeys req; rec_manifest := Some (req_manifest req) |}.

Definition final_tx (utc : Z) (node_id : string) (req : PublishRequest) (res : ValidationResult)
    (outcome : EvidenceVoteOutcome) : Transaction :=
  match outcome with
  | EVerified final_sigs => Publish (publish_record utc req res final_sigs)
  | ERejected reason => Revoke (canonical (req_id req)) reason node_id (vr_evidence_digest res)
  end.

(** The result of a task: the state, the transactions and votes it sent, and whether
    it panicked. *)
Record PipelineRun := {
  run_state : NodeState;
  run_txs : list Transaction;
  run_votes : list VoteGossip;
  run_panicked : bool;
}.

Definition process_package (cfg : PipelineConfig) (utc : Z) (st : NodeState) (req : PublishRequest)
    (others : nat → NodeState → NodeState) : PipelineRun :=
  let c := canonical (req_id req) in
  let st := others 0 st in
  match analyse_package cfg utc st req with
  | Dropped =>
      {| run_state := cleanup st c; run_txs := []; run_votes := []; run_panicked := false |}
  | HashMismatch tx =>
      {| run_state := cleanup st c; run_txs := [tx]; run_votes := []; run_panicked := false |}
  | Voted res our_sig =>
      let st := set_rounds_pool st (record_package_vote utc (package_rounds st) c our_sig)
                  (pending_pool st) in
      let votes := [gossip_vote req res our_sig] in
      let st := others 1 st in
      let assigned := length (validators (node_set st)) in
      let '(st, outcome) :=
        poll (N.to_nat (max_iterations (vote_timeout_secs cfg))) others 2 c assigned st in
      match outcome with
      | None =>
          let panics :=
            match package_rounds st !! c with
            | Some round => negb (bool_decide (is_Some (summarize_vote_round (signatures round) assigned)))
            | None => false
            end in
          {| run_state := if panics then st else cleanup st c; run_txs := [];
             run_votes := votes; run_panicked := panics |}
      | Some outcome =>
          {| run_state := cleanup st c; run_txs := [final_tx utc (vs_validator_id our_sig) req res outcome];
             run_votes := votes; run_panicked := false |}
      end
  end.

(** The requests a tick hands to its tasks. *)
Definition tick (cfg : PipelineConfig) (utc : Z) (st : NodeState)
    : NodeState * list PublishRequest :=
  if negb (is_validator cfg) then (st, [])
  else
    let '(p, reqs) := ready_for_validation utc (pending_pool st) in
    (set_rounds_pool st (package_rounds st) p, reqs).

End Pipeline.

(** ** The polling loop *)
Section PipelineProofs.
Context `{!Crypto, !CryptoLaws, !Serde, !Semver, !AdmissionEnv, !Aead, !X25519, !Analyzer}.

(** The state at the [k]-th look. *)
Fixpoint state_at (others : nat → NodeState → NodeState) (i k : nat) (st : NodeState) : NodeState :=
  match k with
  | O => st
  | S k' => state_at others (S i) k' (others i st)
  end.

Lemma poll_spec (n : nat) others i c assigned st :
  let '(st', outcome) := poll n others i c assigned st in
  match outcome with
  | Some o => ∃ k, k < n ∧ st' = state_at others i k st ∧ decided st' c assigned = Some o ∧
                ∀ j, j < k → decided (state_at others i j st) c assigned = None
  | None => st' = state_at others i n st ∧
            ∀ j, j < n → decided (state_at others i j st) c assigned = None
  end.
Proof.
  revert i st. induction n as [|n IH]; intros i st; simpl; [split; [done|lia]|].
  destruct (decided st c assigned) as [o|] eqn:Hd.
  - exists 0. split_and!; [lia|done|done|lia].
  - specialize (IH (S i) (others i st)).
    destruct (poll n others (S i) c assigned (others i st)) as [st' [o|]].
    + destruct IH as (k & Hk & Hst & Ho & Hj). exists (S k). split_and!; [lia|done|done|].
      intros [|j] Hlt; [done|]. apply Hj. lia.
    + destruct IH as [Hst Hj]. split; [done|]. intros [|j] Hlt; [done|]. apply Hj. lia.
Qed.

Lemma max_iterations_exact (t : N) :
  (N.max t 1 * 1000 ≤ u64_max)%N → max_iterations t = (2 * N.max t 1)%N.
Proof.
  intros Ht. unfold max_iterations, VOTE_POLL_MS. rewrite N.min_r by done.
  replace (N.max t 1 * 1000 + 500 - 1)%N with (499 + 2 * N.max t 1 * 500)%N by lia.
  rewrite N.div_add by lia. by change (499 / 500)%N with 0%N.
Qed.

Lemma cleanup_clean (st : NodeState) (c : string) :
  package_rounds (cleanup st c) !! c = None ∧ pool_get (pending_pool (cleanup st c)) c = None.
Proof.
  unfold cleanup, clear_package_round, pool_get, pool_remove. cbn [package_rounds pending_pool set_rounds_pool].
  split; [apply lookup_delete_eq|]. destruct (entries (pending_pool st) !! c) eqn:He; [|done].
  simpl. apply lookup_delete_eq.
Qed.

Lemma cleanup_other (st : NodeState) (c d : string) :
  d ≠ c →
  package_rounds (cleanup st c) !! d = package_rounds st !! d ∧
  pool_get (pending_pool (cleanup st c)) d = pool_get (pending_pool st) d.
Proof.
  intros Hne. unfold cleanup, clear_package_round, pool_get, pool_remove.
  cbn [package_rounds pending_pool set_rounds_pool].
  split; [by apply lookup_delete_ne|]. destruct (entries (pending_pool st) !! c) eqn:He; [|done].
  simpl. by apply lookup_delete_ne.
Qed.

Lemma analyse_voted cfg utc st req res our_sig :
  analyse_package cfg utc st req = Voted res our_sig →
  is_validator cfg = true ∧
  (∃ tarball, obtain_tarball cfg req = Some tarball ∧ sha256_hex tarball = req_content_hash req) ∧
  ∃ sk, our_sig = sign_vote utc (cfg_node_id st) sk req res.
Proof.
  unfold analyse_package. destruct (obtain_tarball cfg req) as [tarball|]; [|done].
  destruct (String.eqb_spec (sha256_hex tarball) (req_content_hash req)) as [Hh|]; [|done]. simpl.
  destruct (is_validator cfg); [|done]. simpl. intros Hv. case_match eqn:Hm; [|done].
  destruct p as [r s]. simplify_eq. split; [done|]. split; [by eexists|].
  destruct (cfg_privkey st) as [pk|]; [|done]. simpl in Hm.
  destruct (analyze _ _ _ _ _) as [res'|]; [|done]. simpl in Hm.
  destruct (hex_decode pk) as [kb|]; [|done]. simpl in Hm.
  destruct (_ =? 32); [|done]. destruct (sk_try_from kb) as [sk|]; [|done]. simpl in Hm.
  simplify_eq. by exists sk.
Qed.
End PipelineProofs.

(** C25. The pipeline terminates: whatever the other tasks do, the loop looks at the votes
    at most [2 * max(timeout, 1)] times, once per half second, and stops at the first
    look at which they decide; it gives up only if they decide at none of them. *)
Theorem poll_terminates `{!Crypto, !Serde} (t : N) (others : nat → NodeState → NodeState)
    (i : nat) (c : string) (assigned : nat) (st : NodeState) :
  (N.max t 1 * 1000 ≤ u64_max)%N →
  let n := N.to_nat (2 * N.max t 1) in
  let '(st', outcome) := poll (N.to_nat (max_iterations t)) others i c assigned st in
  match outcome with
  | Some o => ∃ k, k < n ∧ st' = state_at others i k st ∧ decided st' c assigned = Some o ∧
                ∀ j, j < k → decided (state_at others i j st) c assigned = None
  | None => st' = state_at others i n st ∧
            ∀ j, j < n → decided (state_at others i j st) c assigned = None
  end.
Proof. intros Ht. rewrite max_iterations_exact by done. apply poll_spec. Qed.

(** C5. A published record is justified: the content that was fetched has the declared
    hash, and the record carries the approvals of a quorum of different voters that
    agree on the scanner profile and the evidence, as the state held them at one look;
    the task sends at most one transaction and one vote. *)
Theorem published_by_quorum `{!Crypto, !Serde, !Semver, !AdmissionEnv, !Aead, !X25519, !Analyzer}
    (cfg : PipelineConfig) (utc : Z) (st : NodeState) (req : PublishRequest)
    (others : nat → NodeState → NodeState) (r : ChainRecord) :
  Publish r ∈ run_txs (process_package cfg utc st req others) →
  length (run_txs (process_package cfg utc st req others)) = 1 ∧
  length (run_votes (process_package cfg utc st req others)) = 1 ∧
  rec_id r = req_id req ∧ rec_content_hash r = req_content_hash req ∧ rec_status r = Verified ∧
  (∃ tarball, obtain_tarball cfg req = Some tarball ∧ sha256_hex tarball = rec_content_hash r) ∧
  ∃ our_sig k round,
    let c := canonical (req_id req) in
    let st0 := others 0 st in
    let st1 := others 1 (set_rounds_pool st0 (record_package_vote utc (package_rounds st0) c our_sig)
                           (pending_pool st0)) in
    let assigned := length (validators (node_set st1)) in
    package_rounds (state_at others 2 k st1) !! c = Some round ∧
    rec_validator_signatures r ⊆ unique_votes (signatures round) ∧
    NoDup (package_round_vote_key <$> rec_validator_signatures r) ∧
    length (rec_validator_signatures r) = evidence_quorum assigned ∧
    ∃ key, Forall (λ s, vs_vote s = Approve ∧ consensus_profile_key s = Some key)
             (rec_validator_signatures r).
Proof.
  unfold process_package. destruct (analyse_package _ _ _ _) as [|tx|res our_sig] eqn:Ha.
  - simpl. by intros ?%not_elem_of_nil.
  - simpl. intros Hin%list_elem_of_singleton. unfold analyse_package in Ha.
    by repeat case_match; simplify_eq.
  - apply analyse_voted in Ha as (_ & (tarball & Ht & Hh) & _).
    match goal with |- context [poll ?n ?o ?i ?c ?a ?s] =>
      pose proof (poll_spec n o i c a s) as Hp; set (assigned := a) in *;
      destruct (poll n o i c assigned s) as [st' [o'|]] end; simpl;
      [|by intros ?%not_elem_of_nil].
    intros Hin%list_elem_of_singleton. destruct Hp as (k & _ & Hst & Hd & _). rewrite Hst in Hd.
    destruct o' as [sigs|reason]; simpl in Hin; [|done]. injection Hin as ->. simpl.
    unfold decided in Hd. destruct (package_rounds _ !! _) as [round|] eqn:Hr; [|done]. simpl in Hd.
    apply verified_sublist in Hd as (Hlen & Hsub & Hk).
    split_and!; [done..| by exists tarball |]. exists our_sig, k, round. cbv zeta. split_and!; [exact Hr| | |done|done].
    + intros x Hx. eapply elem_of_sublist; eauto.
    + eapply sublist_NoDup; [|by apply fmap_sublist]. rewrite unique_votes_upserts. apply upserts_NoDup.
Qed.

(** Every task that does not panic forgets its package: the pool entry and the votes
    are gone, those of other packages are as the other tasks left them. *)
Theorem processed_package_forgotten `{!Crypto, !Serde, !Semver, !AdmissionEnv, !Aead, !X25519, !Analyzer}
    (cfg : PipelineConfig) (utc : Z) (st : NodeState) (req : PublishRequest)
    (others : nat → NodeState → NodeState) :
  let run := process_package cfg utc st req others in
  run_panicked run = false →
  package_rounds (run_state run) !! canonical (req_id req) = None ∧
  pool_get (pending_pool (run_state run)) (canonical (req_id req)) = None.
Proof.
  unfold process_package. destruct (analyse_package _ _ _ _) as [|tx|res our_sig];
    [intros _; apply cleanup_clean..|].
  destruct (poll _ _ _ _ _ _) as [st' [o|]]; simpl; [intros _; apply cleanup_clean|].
  intros ->. apply cleanup_clean.
Qed.

(** The vote a task broadcasts is accepted by every node whose validator set lists
    the voter with its key, provided the analysis is complete enough to count. *)
Theorem own_vote_accepted `{!Crypto, !CryptoLaws, !Serde, !Semver, !AdmissionEnv, !Aead, !X25519, !Analyzer}
    (cfg : PipelineConfig) (utc : Z) (st peer : NodeState) (req : PublishRequest)
    (res : ValidationResult) (our_sig : ValidatorSignature) (v : Validator) :
  analyse_package cfg utc st req = Voted res our_sig →
  find_validator (node_set peer) (cfg_node_id st) = Some v →
  val_pubkey v = vs_validator_pubkey our_sig → is_empty (val_pubkey v) = false →
  is_consensus_grade_vote model_version (vr_analysis_bundles res) (vr_evidence_digest res) = true →
  validate_vote_gossip_message (gossip_vote req res our_sig) (node_set peer)
    = Ok (gossip_vote req res our_sig) ∧
  vote_gossip_to_signature utc (gossip_vote req res our_sig) = our_sig.
Proof.
  intros (_ & _ & sk & ->)%analyse_voted Hfind Hpk Hne Hgrade. split.
  - unfold validate_vote_gossip_message.
    cbn [gossip_vote vg_validator_id vg_validator_pubkey vg_ml_model_version vg_analysis_bundles
         vg_evidence_digest vg_signature consensus_subject vg_content_hash vg_approved sign_vote
         vs_validator_id vs_validator_pubkey vs_ml_model_version vs_signature].
    rewrite Hfind. cbn [ok_or mbind result_bind]. rewrite Hne. cbn [negb ensure mbind result_bind].
    rewrite Hpk. cbn [sign_vote vs_validator_pubkey]. rewrite String.eqb_refl, Hgrade.
    cbn [ensure mbind result_bind]. rewrite !hex_roundtrip. cbn [ok_or mbind result_bind].
    rewrite vk_roundtrip, sig_roundtrip. cbn [ok_or mbind result_bind]. by rewrite sign_verify.
  - unfold gossip_vote, sign_vote, vote_gossip_to_signature. simpl. f_equal. by destruct (vr_vote res).
Qed.

(** A node whose gateway serves other bytes revokes the package on its own: it sends a
    revocation without having voted or seen a vote. *)
Theorem mismatch_revokes_alone `{!Crypto, !Serde, !Semver, !AdmissionEnv, !Aead, !X25519, !Analyzer}
    (cfg : PipelineConfig) (utc : Z) (st : NodeState) (req : PublishRequest)
    (others : nat → NodeState → NodeState) (tarball : string) :
  obtain_tarball cfg req = Some tarball → sha256_hex tarball ≠ req_content_hash req →
  ∃ reason node, run_txs (process_package cfg utc st req others)
    = [Revoke (canonical (req_id req)) reason node ""] ∧
  run_votes (process_package cfg utc st req others) = [].
Proof.
  intros Ht Hne. unfold process_package, analyse_package. rewrite Ht.
  apply String.eqb_neq in Hne as ->. simpl. by repeat eexists.
Qed.

(** A submission with other content, admitted while the previous one is processed, is
    forgotten with it: nothing the task publishes is about it. *)
Theorem resubmission_lost `{!Crypto, !Serde, !Semver, !AdmissionEnv, !Aead, !X25519, !Analyzer}
    (cfg : PipelineConfig) (utc now : Z) (st : NodeState) (req req' : PublishRequest)
    (others : nat → NodeState → NodeState) (p' : PendingPool) :
  canonical (req_id req') = canonical (req_id req) →
  req_content_hash req' ≠ req_content_hash req →
  pool_insert now (pending_pool st) req' = (p', true) →
  others 0 st = set_rounds_pool st (package_rounds st) p' →
  let run := process_package cfg utc st req others in
  run_panicked run = false →
  pool_get (pending_pool (others 0 st)) (canonical (req_id req')) = Some (fresh_entry now req') ∧
  pool_get (pending_pool (run_state run)) (canonical (req_id req')) = None ∧
  ∀ r, Publish r ∈ run_txs run → rec_content_hash r ≠ req_content_hash req'.
Proof.
  intros Hc Hh Hins Ho run Hrun. split_and!.
  - rewrite Ho. cbn [pending_pool set_rounds_pool]. unfold pool_insert in Hins.
    case_match; simplify_eq. unfold pool_get. simpl. apply lookup_insert_eq.
  - rewrite Hc. subst run. revert Hrun. unfold process_package.
    destruct (analyse_package _ _ _ _) as [|tx|res our_sig]; [intros _; apply cleanup_clean..|].
    destruct (poll _ _ _ _ _ _) as [st' [o|]]; simpl; [intros _; apply cleanup_clean|].
    intros ->. apply cleanup_clean.
  - intros r Hr. subst run. unfold process_package in Hr.
    destruct (analyse_package _ _ _ _) as [|tx|res our_sig] eqn:Ha.
    + by apply not_elem_of_nil in Hr.
    + apply list_elem_of_singleton in Hr. unfold analyse_package in Ha.
      by repeat case_match; simplify_eq.
    + destruct (poll _ _ _ _ _ _) as [st' [o|]]; simpl in Hr; [|by apply not_elem_of_nil in Hr].
      apply list_elem_of_singleton in Hr. destruct o; simpl in Hr; simplify_eq. simpl. congruence.
Qed.

(** ** Witnesses *)
Module PipelineDemo.
Import Toy ToySerde ToyCipher ShieldedDemo AdmissionDemo ChainStoreExamples.

Definition node : string → NodeState := NodeExamples.node.

#[export] Instance demo_analyzer : Analyzer := {|
  SandboxResult := unit;
  sandbox_result := fun _ => None;
  analyze := fun req tarball privkey prev sandbox => Some {|
    vr_vote := Approve; vr_pgp_fingerprint := None; vr_findings := [];
    vr_analysis_bundles := VoteExamples.full_bundles; vr_evidence_digest := "ev";
    vr_deterministic_risk := default_risk |};
  model_version := "m";
|}.

Definition pcfg : PipelineConfig :=
  {| is_validator := true; pl_ipfs_url := "http://ipfs"; vote_timeout_secs := 1; x25519_secret := None |}.
Definition req : PublishRequest := AdmissionDemo.request [] [].

Definition vote_of (id : string) : list VoteGossip :=
  match analyse_package pcfg 0 (node id) req with
  | Voted res our_sig => [gossip_vote req res our_sig]
  | _ => []
  end.

(** The votes of two peers arrive during the first sleep. *)
Definition peers (i : nat) (st : NodeState) : NodeState :=
  if i =? 2 then foldl (on_vote 0) st (vote_of "v2" ++ vote_of "v3") else st.

Definition run1 : PipelineRun := process_package pcfg 0 (node "v1") req peers.

Lemma poll_terminates_witness :
  let st := run_state run1 in
  let '(st', outcome) := poll (N.to_nat (max_iterations 1)) peers 2 "npm:a@1.0.0" 4 st in
  match outcome with
  | Some o => ∃ k, k < N.to_nat (2 * N.max 1 1) ∧ st' = state_at peers 2 k st ∧
                decided st' "npm:a@1.0.0" 4 = Some o ∧
                ∀ j, j < k → decided (state_at peers 2 j st) "npm:a@1.0.0" 4 = None
  | None => st' = state_at peers 2 (N.to_nat (2 * N.max 1 1)) st ∧
            ∀ j, j < N.to_nat (2 * N.max 1 1) →
              decided (state_at peers 2 j st) "npm:a@1.0.0" 4 = None
  end.
Proof. apply (poll_terminates 1 peers 2 "npm:a@1.0.0" 4 (run_state run1)). vm_compute. done. Defined.

(** Three of four validators approve: the package is published. *)
Definition published : ChainRecord :=
  match run_txs run1 with
  | [Publish r] => r
  | _ => ChainStoreExamples.record "none"
  end.

Lemma published_by_quorum_witness :
  NoDup (package_round_vote_key <$> rec_validator_signatures published) ∧
  ∃ k, Forall (λ s, vs_vote s = Approve ∧ consensus_profile_key s = Some k)
         (rec_validator_signatures published).
Proof.
  destruct (published_by_quorum pcfg 0 (node "v1") req peers published)
    as (_ & _ & _ & _ & _ & _ & our_sig & k & round & _ & _ & Hnd & _ & Hk).
  - apply list_elem_of_In. vm_compute. by left.
  - by split.
Defined.

Definition res1 : ValidationResult :=
  {| vr_vote := Approve; vr_pgp_fingerprint := None; vr_findings := [];
     vr_analysis_bundles := VoteExamples.full_bundles; vr_evidence_digest := "ev";
     vr_deterministic_risk := default_risk |}.
Definition sig1 : ValidatorSignature :=
  sign_vote 0 "v1" (Toy.fit 32 "v1" : @SigningKey toy_crypto) req res1.
Definition v1 : Validator :=
  default {| val_id := ""; val_alias := ""; val_pubkey := ""; val_eth_address := "";
             val_stake := 0; val_reputation := 0; val_status := "" |}
    (find_validator (node_set (node "v2")) "v1").

Lemma own_vote_accepted_witness :
  validate_vote_gossip_message (gossip_vote req res1 sig1) (node_set (node "v2"))
    = Ok (gossip_vote req res1 sig1) ∧
  vote_gossip_to_signature 0 (gossip_vote req res1 sig1) = sig1.
Proof.
  apply (own_vote_accepted pcfg 0 (node "v1") (node "v2") req res1 sig1 v1);
    vm_compute; reflexivity.
Defined.

(** The gateway serves "tarball", the request declares other content. *)
Definition forged : PublishRequest := {|
  req_id := AdmissionDemo.pid; req_content_hash := "other"; req_ipfs_cid := "cid";
  req_publisher_address := "0xabc"; req_publisher_pubkey := ""; req_signature := "";
  req_manifest := req_manifest req; req_submitted_at := 0; req_shielded := false;
  req_key_bundle := None; req_pgp_signature := None; req_pgp_public_key := None;
  req_threshold := 0; req_publisher_pubkeys := []; req_signatures := [] |}.

Lemma mismatch_revokes_alone_witness :
  ∃ reason n, run_txs (process_package pcfg 0 (node "v1") forged (λ _ st, st))
    = [Revoke "npm:a@1.0.0" reason n ""] ∧
  run_votes (process_package pcfg 0 (node "v1") forged (λ _ st, st)) = [].
Proof.
  apply (mismatch_revokes_alone pcfg 0 (node "v1") forged (λ _ st, st) "tarball").
  - vm_compute. reflexivity.
  - vm_compute. discriminate.
Defined.

Definition replaced : PendingPool := (pool_insert 5 (pending_pool (node "v1")) forged).1.
Definition replacing (i : nat) (st : NodeState) : NodeState :=
  if i =? 0 then set_rounds_pool st (package_rounds st) replaced else peers i st.

Lemma resubmission_lost_witness :
  let run := process_package pcfg 0 (node "v1") req replacing in
  pool_get (pending_pool (replacing 0 (node "v1"))) "npm:a@1.0.0" = Some (fresh_entry 5 forged) ∧
  pool_get (pending_pool (run_state run)) "npm:a@1.0.0" = None ∧
  ∀ r, Publish r ∈ run_txs run → rec_content_hash r ≠ req_content_hash forged.
Proof.
  apply (resubmission_lost pcfg 0 5 (node "v1") req forged replacing replaced).
  - reflexivity.
  - vm_compute. discriminate.
  - vm_compute. reflexivity.
  - reflexivity.
  - vm_compute. reflexivity.
Defined.

Lemma processed_package_forgotten_witness :
  package_rounds (run_state run1) !! "npm:a@1.0.0" = None ∧
  pool_get (pending_pool (run_state run1)) "npm:a@1.0.0" = None.
Proof. apply (processed_package_forgotten pcfg 0 (node "v1") req peers). vm_compute. reflexivity. Defined.

(** An evidence digest whose twelfth byte is inside a character: when the votes do not
    decide in time, the report of the round panics and the package stays in the pool
    and in the rounds. *)
Definition bad_vote : ValidatorSignature :=
  {| vs_validator_id := "v9"; vs_validator_pubkey := "p9"; vs_signature := ""; vs_vote := Approve;
     vs_signed_at := 0; vs_ml_model_version := "m"; vs_analysis_bundles := VoteExamples.full_bundles;
     vs_evidence_digest := "0123456789a" +:+ String (byte 195) (String (byte 169) "");
     vs_deterministic_risk := default_risk |}.
Definition poisoned (i : nat) (st : NodeState) : NodeState :=
  if i =? 0 then set_rounds_pool st (record_package_vote 0 (package_rounds st) "npm:a@1.0.0" bad_vote)
                   (pool_insert 0 (pending_pool st) req).1
  else st.

Example digest_panics_report :
  let run := process_package pcfg 0 (node "v1") req poisoned in
  run_panicked run = true ∧ pool_contains (pending_pool (run_state run)) "npm:a@1.0.0" = true.
Proof. vm_compute. done. Qed.
End PipelineDemo.
