(* ===== verification/Staking.v ===== *)
(** The contract that holds the validators' stakes (contracts/Staking.sol).

    The life cycle of a validator (application, approval, expiry, unbonding, withdrawal,
    slashing) with the events that the node reads, and the admission by consensus.
    Addresses and 256-bit integers are [N]; keccak, secp256k1 signatures and the text
    formats of the alloy library are the interface [Ethereum].  The token transfers of
    the contract succeed or revert the call ([transfer_ok]). *)

From S2P Require Import Prelude Text Crypto Gf256 Shamir Threshold.
From Stdlib Require Import Ascii NArith.

Class Ethereum := {
  keccak256 : string → string;
  addr_parse : string → option N;            (* str::parse::<Address> *)
  addr_hex : N → string;                     (* format!("{:040x}", address) *)
  u256_hex : N → string;                     (* format!("{:x}", u256) *)
  u256_from_hex : string → option N;         (* U256::from_str_radix(s, 16) *)
  EthKey : Type;
  key_parse : string → option EthKey;        (* str::parse::<PrivateKeySigner> *)
  eth_address : EthKey → N;
  eth_sign : EthKey → string → string;       (* sign_hash(..).as_bytes() *)
  eth_recover : string → string → option N;  (* Signature::try_from, recover_address_from_prehash *)
  sol_recover : string → string → N;         (* Staking._recoverSigner: ecrecover, 0 on failure *)
}.

(** What the node and the contract rely on: signatures made by a key recover to its
    address in both worlds, and the text formats are read back. *)
Class EthereumLaws `{Ethereum} : Prop := {
  addr_parse_hex : ∀ a, addr_parse ("0x" +:+ addr_hex a) = Some a;
  addr_hex_lower : ∀ a, to_ascii_lowercase (addr_hex a) = addr_hex a;
  u256_parse_hex : ∀ n, u256_from_hex (u256_hex n) = Some n;
  u256_hex_lower : ∀ n, to_ascii_lowercase (u256_hex n) = u256_hex n;
  u256_hex_plain : ∀ n, free_of "x" (u256_hex n) = true ∧ free_of "X" (u256_hex n) = true;
  eth_sign_length : ∀ k d, String.length (eth_sign k d) = 65;
  eth_sign_recover : ∀ k d, eth_recover d (eth_sign k d) = Some (eth_address k);
  eth_sign_sol : ∀ k d, sol_recover d (eth_sign k d) = eth_address k;
  eth_address_pos : ∀ k, (0 < eth_address k)%N;
}.

Definition u256_size : N := 2 ^ 256.

(** ** EIP-712 digest *)

(** The 32 bytes of a word, most significant first. *)
Definition word (v : N) : string := to_str (be_bytes 32 v).

Section Digest.
Context `{!Ethereum}.

Definition DOMAIN_NAME : string := "Chain Registry Validator Admission".
Definition DOMAIN_VERSION : string := "1".
Definition STRUCT_TYPE : string :=
  "ValidatorAdmission(address applicant,uint256 stake,uint256 nonce,uint256 ruleSetVersion)".
Definition DOMAIN_TYPE : string :=
  "EIP712Domain(string name,string version,uint256 chainId,address verifyingContract)".

(** [abi_encode] of a tuple of static values is the concatenation of their words. *)
Definition domain_separator (chain_id staking_addr : N) : string :=
  keccak256 (keccak256 DOMAIN_TYPE +:+ keccak256 DOMAIN_NAME +:+ keccak256 DOMAIN_VERSION +:+
             word chain_id +:+ word staking_addr).

Definition struct_hash (applicant stake nonce rule_set_version : N) : string :=
  keccak256 (keccak256 STRUCT_TYPE +:+ word applicant +:+ word stake +:+ word nonce +:+
             word rule_set_version).

Definition admission_digest (chain_id staking_addr applicant stake nonce rule_set_version : N)
    : string :=
  keccak256 (String (byte 25) (String (byte 1) EmptyString) +:+
             domain_separator chain_id staking_addr +:+
             struct_hash applicant stake nonce rule_set_version).

End Digest.

(** ** The contract *)

Inductive ValidatorState := VNone | Pending | Active | Unbonding | Withdrawn | Rejected | Expired.
#[export] Instance ValidatorState_eq_dec : EqDecision ValidatorState.
Proof. solve_decision. Defined.

Record ValidatorEntry := {
  ve_stake : N;
  ve_state : ValidatorState;
  ve_unbondingAt : N;
  ve_slashCount : N;
  ve_ejectedAt : N;
  ve_appliedAt : N;
}.

Definition no_entry : ValidatorEntry :=
  {| ve_stake := 0; ve_state := VNone; ve_unbondingAt := 0; ve_slashCount := 0; ve_ejectedAt := 0; ve_appliedAt := 0 |}.

(** The storage of the contract that the life cycle of a validator uses. *)
Record Staking := {
  sk_address : N;
  sk_chain_id : N;
  sk_validators : gmap N ValidatorEntry;
  sk_validatorList : list N;
  sk_publisherStakes : gmap N N;
  sk_nonceUsed : gset (N * N);
  sk_minValidatorStake : N;
  sk_timeout : N;
  sk_ruleSetVersion : N;
}.

Definition entry (s : Staking) (a : N) : ValidatorEntry := default no_entry (sk_validators s !! a).

Definition is_active (s : Staking) (a : N) : bool := bool_decide (ve_state (entry s a) = Active).

Definition countActive (s : Staking) : N := N.of_nat (count (is_active s) (sk_validatorList s)).

Inductive Revert :=
| NotPending
| BelowMinStake
| ApplicationExpired
| NonceAlreadyUsed
| InvalidSignerLength
| DuplicateOrUnsortedSigner
| NotAnActiveSigner (signer : N)
| InvalidSignature (signer : N)
| InsufficientQuorum
| AlreadyApplied
| RestakeCooldownActive
| ApplicationNotYetExpired
| NotActive
| NotUnbonding
| StillUnbonding
| TransferFailed
| ArithmeticOverflow.

Section Contract.
Context `{!Ethereum}.

Definition consensusMessageHash (s : Staking) (applicant stake nonce : N) : string :=
  admission_digest (sk_chain_id s) (sk_address s) applicant stake nonce (sk_ruleSetVersion s).

(** The loop over the signers. *)
Fixpoint check_signers (s : Staking) (digest : string) (prev : N) (signers : list (N * string))
    : result Revert unit :=
  match signers with
  | [] => Ok ()
  | (signer, sig) :: rest =>
      if (signer <=? prev)%N then Err DuplicateOrUnsortedSigner
      else if negb (is_active s signer) then Err (NotAnActiveSigner signer)
      else if negb (sol_recover digest sig =? signer)%N then Err (InvalidSignature signer)
      else check_signers s digest signer rest
  end.

Definition activate (e : ValidatorEntry) : ValidatorEntry :=
  {| ve_stake := ve_stake e; ve_state := Active; ve_unbondingAt := ve_unbondingAt e;
     ve_slashCount := ve_slashCount e; ve_ejectedAt := ve_ejectedAt e;
     ve_appliedAt := ve_appliedAt e |}.

(** Arithmetic of the contract is checked: an overflow reverts. *)
Definition checked256 (n : N) : result Revert N :=
  if (n <? u256_size)%N then Ok n else Err ArithmeticOverflow.

Definition approveByConsensus (s : Staking) (block_timestamp applicant nonce : N)
    (signers : list N) (sigs : list string) : result Revert Staking :=
  let v := entry s applicant in
  _ ← ensure (bool_decide (ve_state v = Pending)) NotPending;
  _ ← ensure (negb (ve_stake v <? sk_minValidatorStake s)%N) BelowMinStake;
  expiry ← checked256 (ve_appliedAt v + sk_timeout s);
  _ ← ensure (negb (expiry <=? block_timestamp)%N) ApplicationExpired;
  _ ← ensure (negb (bool_decide ((applicant, nonce) ∈ sk_nonceUsed s))) NonceAlreadyUsed;
  _ ← ensure (negb (length signers =? 0) && (length signers =? length sigs)) InvalidSignerLength;
  _ ← check_signers s (consensusMessageHash s applicant (ve_stake v) nonce) 0 (zip signers sigs);
  three ← checked256 (N.of_nat (length signers) * 3);
  two ← checked256 (countActive s * 2);
  _ ← ensure (negb (three <? two)%N) InsufficientQuorum;
  Ok {| sk_address := sk_address s; sk_chain_id := sk_chain_id s;
        sk_validators := <[applicant := activate v]> (sk_validators s);
        sk_validatorList := sk_validatorList s; sk_publisherStakes := sk_publisherStakes s;
        sk_nonceUsed := {[(applicant, nonce)]} ∪ sk_nonceUsed s;
        sk_minValidatorStake := sk_minValidatorStake s; sk_timeout := sk_timeout s;
        sk_ruleSetVersion := sk_ruleSetVersion s |}.

End Contract.

(** ** Life cycle *)

Definition UNBONDING_PERIOD : N := 14 * 86400.
Definition RESTAKE_COOLDOWN : N := 7 * 86400.
Definition MAX_SLASH_COUNT : N := 3.

(** The events that the synchronisation of the node follows. *)
Inductive StakingEvent :=
| ValidatorApplied (validator stake : N)
| ValidatorApproved (validator : N)
| ValidatorApprovedByConsensus (validator nonce signerCount : N)
| ValidatorRejected (validator : N)
| ValidatorApplicationExpired (validator refunded : N)
| ValidatorUnbonding (validator unbondingAt : N)
| ValidatorWithdrawn (validator amount : N)
| ValidatorLeft (validator : N)
| Slashed (account amount : N) (reason : string).

Definition with_entry (s : Staking) (a : N) (e : ValidatorEntry) : Staking :=
  {| sk_address := sk_address s; sk_chain_id := sk_chain_id s;
     sk_validators := <[a := e]> (sk_validators s); sk_validatorList := sk_validatorList s;
     sk_publisherStakes := sk_publisherStakes s; sk_nonceUsed := sk_nonceUsed s;
     sk_minValidatorStake := sk_minValidatorStake s; sk_timeout := sk_timeout s;
     sk_ruleSetVersion := sk_ruleSetVersion s |}.

Definition with_list (s : Staking) (l : list N) : Staking :=
  {| sk_address := sk_address s; sk_chain_id := sk_chain_id s;
     sk_validators := sk_validators s; sk_validatorList := l;
     sk_publisherStakes := sk_publisherStakes s; sk_nonceUsed := sk_nonceUsed s;
     sk_minValidatorStake := sk_minValidatorStake s; sk_timeout := sk_timeout s;
     sk_ruleSetVersion := sk_ruleSetVersion s |}.

Definition with_publisher (s : Staking) (a amount : N) : Staking :=
  {| sk_address := sk_address s; sk_chain_id := sk_chain_id s;
     sk_validators := sk_validators s; sk_validatorList := sk_validatorList s;
     sk_publisherStakes := <[a := amount]> (sk_publisherStakes s); sk_nonceUsed := sk_nonceUsed s;
     sk_minValidatorStake := sk_minValidatorStake s; sk_timeout := sk_timeout s;
     sk_ruleSetVersion := sk_ruleSetVersion s |}.

(** An entry with another stake and state, and its ejection time. *)
Definition set_state (e : ValidatorEntry) (stake : N) (st : ValidatorState)
    (unbondingAt slashCount ejectedAt : N) : ValidatorEntry :=
  {| ve_stake := stake; ve_state := st; ve_unbondingAt := unbondingAt; ve_slashCount := slashCount;
     ve_ejectedAt := ejectedAt; ve_appliedAt := ve_appliedAt e |}.

Definition applyToBeValidator (s : Staking) (now validator amount : N) (transfer_ok : bool)
    : result Revert (Staking * list StakingEvent) :=
  let v := entry s validator in
  _ ← ensure (negb (bool_decide (ve_state v = Pending ∨ ve_state v = Active))) AlreadyApplied;
  until ← checked256 (ve_ejectedAt v + RESTAKE_COOLDOWN);
  _ ← ensure (negb ((0 <? ve_ejectedAt v) && (now <? until)))%N RestakeCooldownActive;
  _ ← ensure (negb (amount <? sk_minValidatorStake s)%N) BelowMinStake;
  _ ← ensure transfer_ok TransferFailed;
  Ok (with_list
        (with_entry s validator {| ve_stake := amount; ve_state := Pending; ve_unbondingAt := 0;
                                   ve_slashCount := 0; ve_ejectedAt := 0; ve_appliedAt := now |})
        (sk_validatorList s ++ [validator]), [ValidatorApplied validator amount]).

(** The governance paths, called by the governance while they are enabled. *)
Definition approveValidator (s : Staking) (validator : N) : result Revert (Staking * list StakingEvent) :=
  let v := entry s validator in
  _ ← ensure (bool_decide (ve_state v = Pending)) NotPending;
  Ok (with_entry s validator (activate v), [ValidatorApproved validator]).

Definition rejectValidator (s : Staking) (validator : N) (transfer_ok : bool)
    : result Revert (Staking * list StakingEvent) :=
  let v := entry s validator in
  _ ← ensure (bool_decide (ve_state v = Pending)) NotPending;
  _ ← ensure transfer_ok TransferFailed;
  Ok (with_entry s validator (set_state v 0 Rejected (ve_unbondingAt v) (ve_slashCount v) (ve_ejectedAt v)),
      [ValidatorRejected validator]).

Definition expireApplication (s : Staking) (now applicant : N) (transfer_ok : bool)
    : result Revert (Staking * list StakingEvent) :=
  let v := entry s applicant in
  _ ← ensure (bool_decide (ve_state v = Pending)) NotPending;
  expiresAt ← checked256 (ve_appliedAt v + sk_timeout s);
  _ ← ensure (negb (now <? expiresAt)%N) ApplicationNotYetExpired;
  _ ← ensure transfer_ok TransferFailed;
  Ok (with_entry s applicant (set_state v 0 Expired (ve_unbondingAt v) (ve_slashCount v) (ve_ejectedAt v)),
      [ValidatorApplicationExpired applicant (ve_stake v)]).

Definition initiateUnbonding (s : Staking) (now sender : N) : result Revert (Staking * list StakingEvent) :=
  let v := entry s sender in
  _ ← ensure (bool_decide (ve_state v = Active)) NotActive;
  Ok (with_entry s sender (set_state v (ve_stake v) Unbonding now (ve_slashCount v) (ve_ejectedAt v)),
      [ValidatorUnbonding sender now]).

Definition withdrawValidatorStake (s : Staking) (now sender : N) (transfer_ok : bool)
    : result Revert (Staking * list StakingEvent) :=
  let v := entry s sender in
  _ ← ensure (bool_decide (ve_state v = Unbonding)) NotUnbonding;
  availableAt ← checked256 (ve_unbondingAt v + UNBONDING_PERIOD);
  _ ← ensure (negb (now <? availableAt)%N) StillUnbonding;
  _ ← ensure transfer_ok TransferFailed;
  Ok (with_entry s sender (set_state v 0 Withdrawn (ve_unbondingAt v) (ve_slashCount v) (ve_ejectedAt v)),
      [ValidatorWithdrawn sender (ve_stake v); ValidatorLeft sender]).

(** [_executeSlash]: an active validator whose stake covers the amount is slashed and
    ejected at the third time; a publisher pays from its stake; otherwise the account
    loses everything.  Amounts are bounded by the supply of the token: sums do not
    overflow. *)
Definition executeSlash (s : Staking) (now account amount : N) (reason : string)
    : Staking * list StakingEvent :=
  let v := entry s account in
  let pub := default 0%N (sk_publisherStakes s !! account) in
  let isActiveVal := bool_decide (ve_state v = Active) && (0 <? ve_stake v)%N in
  if isActiveVal && (amount <=? ve_stake v)%N then
    let stake := (ve_stake v - amount)%N in
    let slashes := (ve_slashCount v + 1)%N in
    if (MAX_SLASH_COUNT <=? slashes)%N then
      (with_entry s account (set_state v stake Unbonding now slashes now),
       [ValidatorLeft account; Slashed account amount reason])
    else
      (with_entry s account (set_state v stake Active (ve_unbondingAt v) slashes (ve_ejectedAt v)),
       [Slashed account amount reason])
  else if negb isActiveVal && (amount <=? pub)%N then
    (with_publisher s account (pub - amount), [Slashed account amount reason])
  else
    (with_publisher (with_entry s account
       (set_state v 0 Withdrawn (ve_unbondingAt v) (ve_slashCount v) now)) account 0,
     [Slashed account (pub + ve_stake v) reason]).
