(* ===== verification/ConsensusAdmission.v ===== *)
(** Admission of validators by consensus (crates/node/src/consensus_admission.rs) and
    its composition with the contract that executes it ([Staking]).

    Every active validator evaluates the same rules for a pending applicant, signs an
    EIP-712 attestation and gossips it; the node with the lowest address among the
    signers submits the collected signatures to [approveByConsensus].  What the node
    reads over RPC is a [View]: every read can fail. *)

From S2P Require Import Prelude Text Crypto Types Shamir Threshold ShieldedWire Staking.
From Stdlib Require Import Ascii NArith.

(** ** Attestations and their store *)

Record AdmissionAttestation := {
  at_applicant : string;
  at_stake : string;
  at_nonce : string;
  at_rule_set_version : string;
  at_signer : string;
  at_signature : string;
}.

(** [AttestationKey]: the applicant and the nonce. *)
Abbreviation AttestationKey := (string * string)%type.

Definition att_key (a : AdmissionAttestation) : AttestationKey :=
  (to_ascii_lowercase (at_applicant a), to_ascii_lowercase (at_nonce a)).

(** The attestations per applicant and nonce, by signer. *)
Abbreviation AttestationStore := (gmap AttestationKey (gmap string AdmissionAttestation)).

Definition bucket (s : AttestationStore) (k : AttestationKey) : gmap string AdmissionAttestation :=
  default ∅ (s !! k).

(** [true] when the signer had no entry. *)
Definition att_insert (s : AttestationStore) (a : AdmissionAttestation) : AttestationStore * bool :=
  let signer := to_ascii_lowercase (at_signer a) in
  let by_signer := bucket s (att_key a) in
  (<[att_key a := <[signer := a]> by_signer]> s, bool_decide (by_signer !! signer = None)).

Definition snapshot (s : AttestationStore) (k : AttestationKey) : list AdmissionAttestation :=
  hm_values (bucket s k).

Definition drop_applicant (s : AttestationStore) (applicant : string) : AttestationStore :=
  filter (λ kv, kv.1.1 ≠ to_ascii_lowercase applicant) s.

Section Node.
Context `{!Crypto, !Ethereum}.

(** [s.trim_start_matches("0x").trim_start_matches("0X")] *)
Definition trim_hex (s : string) : string :=
  let t := trim_0x s in strip_all (String.length t) ["0X"] t.

Definition parse_u256 (s : string) : option N := u256_from_hex (trim_hex s).
Definition eth_hex_decode (s : string) : option string := hex_decode (trim_hex s).

Definition sign_attestation (priv_key : string) (chain_id staking_addr applicant stake nonce
    rule_set_version : N) : option AdmissionAttestation :=
  signer ← key_parse priv_key;
  let digest := admission_digest chain_id staking_addr applicant stake nonce rule_set_version in
  Some {| at_applicant := "0x" +:+ addr_hex applicant; at_stake := "0x" +:+ u256_hex stake;
          at_nonce := "0x" +:+ u256_hex nonce;
          at_rule_set_version := "0x" +:+ u256_hex rule_set_version;
          at_signer := "0x" +:+ addr_hex (eth_address signer);
          at_signature := "0x" +:+ hex_encode (eth_sign signer digest) |}.

(** [None] is an error, [Some false] a signature of the wrong length or signer. *)
Definition verify_attestation (a : AdmissionAttestation) (chain_id staking_addr : N) : option bool :=
  applicant ← addr_parse (at_applicant a);
  stake ← parse_u256 (at_stake a);
  nonce ← parse_u256 (at_nonce a);
  rsv ← parse_u256 (at_rule_set_version a);
  claimed_signer ← addr_parse (at_signer a);
  let digest := admission_digest chain_id staking_addr applicant stake nonce rsv in
  raw ← eth_hex_decode (at_signature a);
  if negb (String.length raw =? 65) then Some false
  else
    recovered ← eth_recover digest raw;
    Some (recovered =? claimed_signer)%N.

(** The endpoint that receives attestations of peers: the new store and whether the
    attestation was new; [None] when it is refused. *)
Definition accept_peer_attestation (s : AttestationStore) (chain_id staking_addr : N)
    (a : AdmissionAttestation) : option (AttestationStore * bool) :=
  ok ← verify_attestation a chain_id staking_addr;
  if ok : bool then Some (att_insert s a) else None.

End Node.

(** ** The node *)

(** The answers of the RPC endpoint during one tick; [None] is a failed call. *)
Record View := {
  view_validators : N → option ValidatorEntry;
  view_nonceUsed : N → N → option bool;
  view_activeCount : option N;
}.

Definition view_of (s : Staking) : View := {|
  view_validators a := Some (entry s a);
  view_nonceUsed a n := Some (bool_decide ((a, n) ∈ sk_nonceUsed s));
  view_activeCount := Some (countActive s);
|}.

(** The constants of a tick ([TickCtx] and what [tick] reads from the contract). *)
Record Tick := {
  tk_staking_addr : N;
  tk_bridge_priv : option string;
  tk_chain_id : N;
  tk_rule_set_version : N;
  tk_min_stake : N;
  tk_timeout_secs : N;
  tk_self_addr : option N;
  tk_we_are_active : bool;
}.

(** [ValidatorRegistrationStatus]: what the node knows of an applicant. *)
Record Registration := {
  rg_alias : string;
  rg_identity : ValidatorIdentity;
  rg_registered_with_node : bool;
  rg_applied_on_chain : bool;
  rg_governance_approved : bool;
  rg_admitted_to_consensus : bool;
  rg_active : bool;
  rg_staking_state : string;
  rg_status : string;
  rg_stake : N;
  rg_reputation : N;
}.

Inductive Rules :=
| CallFailed                  (* [?] on a call or on the address *)
| Skip                        (* a rule fails, the attestations stay *)
| Purge                       (* the applicant is decided or expired *)
| Eligible (applicant stake nonce : N).

Record Submission := {
  sb_applicant : N;
  sb_nonce : N;
  sb_filtered : list (N * AdmissionAttestation);
}.

Section Applicant.
Context `{!Crypto, !Ethereum}.

Definition sb_signers (sb : Submission) : list N := (sb_filtered sb).*1.

Definition sb_sigs (sb : Submission) : list string :=
  (λ p, default "" (eth_hex_decode (at_signature p.2))) <$> sb_filtered sb.

Definition have_identity (regs : gmap string Registration) (applicant_key : string) : bool :=
  match regs !! applicant_key with
  | Some r => rg_registered_with_node r && is_complete (normalized (rg_identity r))
  | None => false
  end.

(** The five rules and the used nonce; additions of 256-bit values wrap. *)
Definition evaluate_rules (tk : Tick) (vw : View) (regs : gmap string Registration) (now : N)
    (applicant_key : string) : Rules :=
  match (applicant ← addr_parse applicant_key; v ← view_validators vw applicant; Some (applicant, v)) with
  | None => CallFailed
  | Some (applicant, v) =>
      if negb (bool_decide (ve_state v = Pending)) then Purge
      else if (ve_stake v <? tk_min_stake tk)%N then Skip
      else if negb (have_identity regs applicant_key) then Skip
      else if ((0 <? ve_ejectedAt v) && (ve_appliedAt v <=? ve_ejectedAt v))%N then Skip
      else if ((ve_appliedAt v + tk_timeout_secs tk) mod u256_size <=? now)%N then Purge
      else
        match view_nonceUsed vw applicant (ve_appliedAt v) with
        | None => CallFailed
        | Some true => Purge
        | Some false => Eligible applicant (ve_stake v) (ve_appliedAt v)
        end
  end.

(** The own attestation: the store and what is broadcast; [None] when the key does not
    parse. *)
Definition attest (tk : Tick) (s : AttestationStore) (applicant stake nonce : N)
    : option (AttestationStore * list AdmissionAttestation) :=
  match tk_we_are_active tk, tk_bridge_priv tk with
  | true, Some pk =>
      att ← sign_attestation pk (tk_chain_id tk) (tk_staking_addr tk) applicant stake nonce
              (tk_rule_set_version tk);
      let '(s', fresh) := att_insert s att in
      Some (s', if fresh : bool then [att] else [])
  | _, _ => Some (s, [])
  end.

Definition att_verified (tk : Tick) (a : AdmissionAttestation) : bool :=
  default false (verify_attestation a (tk_chain_id tk) (tk_staking_addr tk)).

(** The attestations of signers that are active; a failed call ends the tick. *)
Fixpoint active_signers (vw : View) (l : list AdmissionAttestation)
    : option (list (N * AdmissionAttestation)) :=
  match l with
  | [] => Some []
  | a :: l' =>
      signer_addr ← addr_parse (at_signer a);
      info ← view_validators vw signer_addr;
      rest ← active_signers vw l';
      Some (if bool_decide (ve_state info = Active) then (signer_addr, a) :: rest else rest)
  end.

Definition addr_le (p q : N * AdmissionAttestation) : bool := (p.1 <=? q.1)%N.

(** The signatures collected for the applicant, and the decision to submit them:
    [Some None] is standing down. *)
Definition collect (tk : Tick) (vw : View) (s : AttestationStore) (applicant_key : string)
    (applicant nonce : N) : option (option Submission) :=
  let atts := snapshot s (to_ascii_lowercase applicant_key, "0x" +:+ u256_hex nonce) in
  filtered ← active_signers vw (filter (λ a, att_verified tk a = true) atts);
  let filtered := sort_by addr_le filtered in
  active_count ← view_activeCount vw;
  if ((N.of_nat (length filtered) * 3) mod u256_size <? (active_count * 2) mod u256_size)%N
  then Some None
  else if bool_decide (tk_self_addr tk = None ∨ fst <$> head filtered ≠ tk_self_addr tk) then Some None
  else Some (Some {| sb_applicant := applicant; sb_nonce := nonce; sb_filtered := filtered |}).

Record ApplicantRun := {
  ar_store : AttestationStore;
  ar_broadcast : list AdmissionAttestation;
  ar_submitted : option Submission;
}.

(** [mined] is whether the submission is accepted ([send] and [get_receipt] succeed). *)
Definition process_applicant (tk : Tick) (vw : View) (regs : gmap string Registration) (now : N)
    (mined : Submission → bool) (s : AttestationStore) (applicant_key : string) : ApplicantRun :=
  match evaluate_rules tk vw regs now applicant_key with
  | CallFailed | Skip => {| ar_store := s; ar_broadcast := []; ar_submitted := None |}
  | Purge => {| ar_store := drop_applicant s applicant_key; ar_broadcast := []; ar_submitted := None |}
  | Eligible applicant stake nonce =>
      match attest tk s applicant stake nonce with
      | None => {| ar_store := s; ar_broadcast := []; ar_submitted := None |}
      | Some (s', out) =>
          match collect tk vw s' applicant_key applicant nonce with
          | Some (Some sb) =>
              (* submit_consensus_approval needs a key that parses *)
              if bool_decide (is_Some (tk_bridge_priv tk ≫= key_parse)) then
                {| ar_store := if mined sb then drop_applicant s' applicant_key else s';
                   ar_broadcast := out; ar_submitted := Some sb |}
              else {| ar_store := s'; ar_broadcast := out; ar_submitted := None |}
          | _ => {| ar_store := s'; ar_broadcast := out; ar_submitted := None |}
          end
      end
  end.

(** [load_ctx]: the applicants whose registration is pending; [None] when the staking
    address is not configured. *)
Definition pending_applicants (staking_addr : string) (regs : gmap string Registration)
    : option (list string) :=
  if is_empty (trim staking_addr) ||
     eq_ignore_ascii_case staking_addr "0x0000000000000000000000000000000000000000" then None
  else
    match keys_where (λ r, String.eqb (rg_staking_state r) "pending") regs with
    | [] => None
    | pending => Some pending
    end.

(** The constants of a tick: the node is active when its own address is. *)
Definition tick_ctx (staking_addr chain_id rsv min_stake timeout_secs : N)
    (bridge_priv : option string) (vw : View) : option Tick :=
  self ← match bridge_priv with
         | Some pk =>
             signer ← key_parse pk;
             v ← view_validators vw (eth_address signer);
             Some (Some (eth_address signer), bool_decide (ve_state v = Active))
         | None => Some (None, false)
         end;
  Some {| tk_staking_addr := staking_addr; tk_bridge_priv := bridge_priv; tk_chain_id := chain_id;
          tk_rule_set_version := rsv; tk_min_stake := min_stake; tk_timeout_secs := timeout_secs;
          tk_self_addr := self.1; tk_we_are_active := self.2 |}.

(** The applicants one after the other. *)
Fixpoint process_applicants (tk : Tick) (vw : View) (regs : gmap string Registration) (now : N)
    (mined : Submission → bool) (s : AttestationStore) (keys : list string)
    : AttestationStore * list ApplicantRun :=
  match keys with
  | [] => (s, [])
  | k :: keys' =>
      let r := process_applicant tk vw regs now mined s k in
      let '(s', rs) := process_applicants tk vw regs now mined (ar_store r) keys' in
      (s', r :: rs)
  end.

End Applicant.

(** ** The store and the submissions *)
Section Submissions.
Context `{!Crypto, !Ethereum}.

(** Every attestation is stored under its own key and signer. *)
Definition store_wf (s : AttestationStore) : Prop :=
  ∀ k m signer a, s !! k = Some m → m !! signer = Some a →
    att_key a = k ∧ to_ascii_lowercase (at_signer a) = signer.

Lemma bucket_wf (s : AttestationStore) k signer a :
  store_wf s → bucket s k !! signer = Some a →
  att_key a = k ∧ to_ascii_lowercase (at_signer a) = signer.
Proof.
  unfold bucket. intros Hw Ha. destruct (s !! k) as [m|] eqn:Hm; [by eapply Hw|done].
Qed.

Lemma att_insert_wf (s : AttestationStore) a : store_wf s → store_wf (att_insert s a).1.
Proof.
  intros Hw k m signer b. unfold att_insert. cbn [fst]. destruct (decide (k = att_key a)) as [->|Hk].
  - rewrite lookup_insert_eq. intros [= <-].
    destruct (decide (signer = to_ascii_lowercase (at_signer a))) as [->|Hs].
    + rewrite lookup_insert_eq. by intros [= <-].
    + rewrite lookup_insert_ne by done. by apply bucket_wf.
  - rewrite lookup_insert_ne by done. apply Hw.
Qed.

Lemma drop_applicant_wf (s : AttestationStore) applicant :
  store_wf s → store_wf (drop_applicant s applicant).
Proof. intros Hw k m signer a [Hk _]%map_lookup_filter_Some. by apply Hw. Qed.

Lemma attest_wf tk s applicant stake nonce s' out :
  attest tk s applicant stake nonce = Some (s', out) → store_wf s → store_wf s'.
Proof.
  unfold attest. destruct (tk_we_are_active tk), (tk_bridge_priv tk); intros Hs; simplify_option_eq; auto.
  by apply (att_insert_wf s).
Qed.

Lemma process_applicant_wf tk vw regs now mined s key :
  store_wf s → store_wf (ar_store (process_applicant tk vw regs now mined s key)).
Proof.
  intros Hw. unfold process_applicant. destruct (evaluate_rules _ _ _ _ _); try done.
  - by apply drop_applicant_wf.
  - destruct (attest _ _ _ _ _) as [[s' out]|] eqn:Ha; [|done].
    eapply attest_wf in Ha; [|done]. destruct (collect _ _ _ _ _ _) as [[sb|]|]; try done.
    case_bool_decide; [|done]. simpl. destruct (mined sb); auto using drop_applicant_wf.
Qed.

Lemma process_applicants_wf tk vw regs now mined keys s :
  store_wf s → store_wf (process_applicants tk vw regs now mined s keys).1.
Proof.
  revert s. induction keys as [|k keys IH]; intros s Hw; [done|]. simpl.
  pose proof (IH _ (process_applicant_wf tk vw regs now mined s k Hw)) as Hs.
  by destruct (process_applicants _ _ _ _ _ _ _).
Qed.

(** ** What is submitted *)

Lemma active_signers_elem vw l r p :
  active_signers vw l = Some r →
  p ∈ r ↔ p.2 ∈ l ∧ addr_parse (at_signer p.2) = Some p.1 ∧
          ve_state <$> view_validators vw p.1 = Some Active.
Proof.
  revert r. induction l as [|a l IH]; intros r Hr; simpl in Hr.
  - injection Hr as <-. set_solver.
  - destruct (addr_parse (at_signer a)) as [x|] eqn:Hx; [|done]. simpl in Hr.
    destruct (view_validators vw x) as [i|] eqn:Hi; [|done]. simpl in Hr.
    destruct (active_signers vw l) as [rest|]; [|done]. injection Hr as <-.
    specialize (IH rest eq_refl). destruct p as [y b]. simpl in *.
    case_bool_decide as Hs; rewrite ?elem_of_cons, IH; clear IH.
    + split.
      * intros [[= -> ->]|Hy]; [|naive_solver]. rewrite Hi. simpl. rewrite Hs. auto.
      * intros ([->|Hb] & Hy & Hv); [left; congruence|right; auto].
    + split; [naive_solver|]. intros ([->|Hb] & Hy & Hv); [|auto].
      exfalso. rewrite Hx in Hy. injection Hy as ->. rewrite Hi in Hv. simpl in Hv. congruence.
Qed.

Lemma active_signers_submseteq vw l r :
  active_signers vw l = Some r → sublist r.*2 l.
Proof.
  revert r. induction l as [|a l IH]; intros r Hr; simpl in Hr.
  { injection Hr as <-. constructor. }
  destruct (addr_parse (at_signer a)) as [x|]; [simpl in Hr|done].
  destruct (view_validators vw x) as [i|]; [simpl in Hr|done].
  destruct (active_signers vw l) as [rest|]; [|done]. injection Hr as <-.
  case_bool_decide; simpl; by constructor; apply IH.
Qed.

Lemma process_applicant_submits tk vw regs now mined s key sb :
  ar_submitted (process_applicant tk vw regs now mined s key) = Some sb →
  ∃ applicant stake nonce s' out,
    evaluate_rules tk vw regs now key = Eligible applicant stake nonce ∧
    attest tk s applicant stake nonce = Some (s', out) ∧
    collect tk vw s' key applicant nonce = Some (Some sb).
Proof.
  unfold process_applicant. destruct (evaluate_rules _ _ _ _ _) as [| | |applicant stake nonce]; try done.
  destruct (attest _ _ _ _ _) as [[s' out]|] eqn:Ha; [|done].
  destruct (collect _ _ _ _ _ _) as [[sb'|]|] eqn:Hc; try done.
  case_bool_decide; [|done]. simpl. intros [= ->]. naive_solver.
Qed.

Lemma evaluate_rules_eligible tk vw regs now key applicant stake nonce :
  evaluate_rules tk vw regs now key = Eligible applicant stake nonce ↔
  ∃ v, addr_parse key = Some applicant ∧ view_validators vw applicant = Some v ∧
    ve_state v = Pending ∧ (tk_min_stake tk ≤ ve_stake v)%N ∧ have_identity regs key = true ∧
    (ve_ejectedAt v = 0 ∨ ve_ejectedAt v < ve_appliedAt v)%N ∧
    (now < (ve_appliedAt v + tk_timeout_secs tk) mod u256_size)%N ∧
    view_nonceUsed vw applicant (ve_appliedAt v) = Some false ∧
    stake = ve_stake v ∧ nonce = ve_appliedAt v.
Proof.
  unfold evaluate_rules. split.
  - destruct (addr_parse key) as [a|]; [simpl|done].
    destruct (view_validators vw a) as [v|] eqn:Hv; [simpl|done].
    case_bool_decide as Hp; [simpl|done].
    destruct (N.ltb_spec (ve_stake v) (tk_min_stake tk)) as [|Hmin]; [done|].
    destruct (have_identity regs key); [simpl|done].
    destruct ((0 <? ve_ejectedAt v) && (ve_appliedAt v <=? ve_ejectedAt v))%N eqn:Hej; [done|].
    destruct (N.leb_spec ((ve_appliedAt v + tk_timeout_secs tk) mod u256_size) now) as [|Hnow]; [done|].
    destruct (view_nonceUsed vw a (ve_appliedAt v)) as [[]|] eqn:Hn; try done.
    intros [= <- <- <-]. exists v. apply andb_false_iff in Hej as [Hej|Hej];
      [apply N.ltb_ge in Hej|apply N.leb_gt in Hej];
      repeat match goal with |- _ ∧ _ => split end; auto; lia.
  - intros (v & -> & Hv & Hp & Hmin & -> & Hej & Hnow & Hn & -> & ->). simpl. rewrite Hv. simpl.
    rewrite bool_decide_true by done. simpl.
    destruct (N.ltb_spec (ve_stake v) (tk_min_stake tk)); [lia|].
    destruct ((0 <? ve_ejectedAt v) && (ve_appliedAt v <=? ve_ejectedAt v))%N eqn:Hb.
    { apply andb_true_iff in Hb as [Hlt%N.ltb_lt Hle%N.leb_le]. lia. }
    destruct (N.leb_spec ((ve_appliedAt v + tk_timeout_secs tk) mod u256_size) now); [lia|].
    by rewrite Hn.
Qed.

Lemma addr_le_total p q : addr_le p q = true ∨ addr_le q p = true.
Proof. unfold addr_le. rewrite !N.leb_le. lia. Qed.

Lemma addr_le_trans p q r : addr_le p q = true → addr_le q r = true → addr_le p r = true.
Proof. unfold addr_le. rewrite !N.leb_le. lia. Qed.

Lemma collect_submits tk vw s key applicant nonce sb :
  collect tk vw s key applicant nonce = Some (Some sb) →
  ∃ filtered active_count,
    active_signers vw (filter (λ a, att_verified tk a = true)
      (snapshot s (to_ascii_lowercase key, "0x" +:+ u256_hex nonce))) = Some filtered ∧
    view_activeCount vw = Some active_count ∧
    ((active_count * 2) mod u256_size ≤ (N.of_nat (length filtered) * 3) mod u256_size)%N ∧
    sb = {| sb_applicant := applicant; sb_nonce := nonce; sb_filtered := sort_by addr_le filtered |} ∧
    is_Some (tk_self_addr tk) ∧ fst <$> head (sb_filtered sb) = tk_self_addr tk.
Proof.
  unfold collect. destruct (active_signers _ _) as [filtered|]; [simpl|done].
  destruct (view_activeCount vw) as [n|]; [simpl|done].
  rewrite length_sort_by.
  destruct (N.ltb_spec ((N.of_nat (length filtered) * 3) mod u256_size) ((n * 2) mod u256_size)) as [|Hq];
    [done|].
  case_bool_decide as Hd; [done|]. intros [= <-]. exists filtered, n. simpl.
  apply Decidable.not_or in Hd as [Hs Hl]. apply dec_stable in Hl.
  destruct (tk_self_addr tk); [|done]. repeat split; eauto.
Qed.

Lemma zip_signers (sb : Submission) :
  zip (sb_signers sb) (sb_sigs sb) =
  (λ p, (p.1, default "" (eth_hex_decode (at_signature p.2)))) <$> sb_filtered sb.
Proof.
  unfold sb_signers, sb_sigs. induction (sb_filtered sb) as [|p l IH]; [done|].
  cbn. f_equal. exact IH.
Qed.

Lemma sorted_addresses (l : list (N * AdmissionAttestation)) : StronglySorted N.le (sort_by addr_le l).*1.
Proof.
  pose proof (sort_by_sorted addr_le addr_le_total addr_le_trans l) as Hs.
  induction Hs as [|p q Hs IH Hp]; [constructor|]. simpl. constructor; [done|].
  rewrite Forall_fmap. eapply Forall_impl; [exact Hp|]. intros x. unfold leR, addr_le. simpl. by rewrite N.leb_le.
Qed.

Lemma collect_quorum tk vw s key applicant nonce sb :
  collect tk vw s key applicant nonce = Some (Some sb) →
  sb_applicant sb = applicant ∧ sb_nonce sb = nonce ∧ ∃ n, view_activeCount vw = Some n ∧
  ((n * 2) mod u256_size ≤ (N.of_nat (length (sb_signers sb)) * 3) mod u256_size)%N.
Proof.
  intros (filtered & n & _ & Hn & Hq & -> & _)%collect_submits. unfold sb_signers. simpl.
  rewrite length_fmap, length_sort_by. eauto.
Qed.

Lemma approve_accepts st ts applicant nonce signers sigs :
  let v := entry st applicant in
  ve_state v = Pending → (sk_minValidatorStake st ≤ ve_stake v)%N →
  (ve_appliedAt v + sk_timeout st < u256_size)%N → (ts < ve_appliedAt v + sk_timeout st)%N →
  (applicant, nonce) ∉ sk_nonceUsed st → signers ≠ [] → length signers = length sigs →
  check_signers st (consensusMessageHash st applicant (ve_stake v) nonce) 0 (zip signers sigs) = Ok () →
  (N.of_nat (length signers) * 3 < u256_size)%N → (countActive st * 2 < u256_size)%N →
  (countActive st * 2 ≤ N.of_nat (length signers) * 3)%N →
  ∃ st', approveByConsensus st ts applicant nonce signers sigs = Ok st' ∧
    is_active st' applicant = true ∧ (applicant, nonce) ∈ sk_nonceUsed st' ∧
    ∀ a, a ≠ applicant → entry st' a = entry st a.
Proof.
  intros v Hp Hm Hov Hts Hu Hne Hlen Hc Hs3 Ha2 Hq. unfold approveByConsensus. fold v.
  rewrite (bool_decide_true (ve_state v = Pending)) by done.
  rewrite (proj2 (N.ltb_ge _ _) Hm). unfold checked256.
  rewrite (proj2 (N.ltb_lt _ _) Hov). cbn [ensure negb mbind result_bind].
  rewrite (proj2 (N.leb_gt _ _) Hts), bool_decide_false by done. cbn [ensure negb mbind result_bind].
  rewrite Hlen, Nat.eqb_refl, <- Hlen. destruct (length signers =? 0) eqn:Hl.
  { apply Nat.eqb_eq in Hl. by destruct signers. }
  cbn [ensure negb andb mbind result_bind]. rewrite Hc. cbn [mbind result_bind].
  rewrite (proj2 (N.ltb_lt _ _) Hs3), (proj2 (N.ltb_lt _ _) Ha2). cbn [mbind result_bind].
  rewrite (proj2 (N.ltb_ge _ _) Hq). cbn [ensure negb mbind result_bind].
  eexists. split; [done|]. unfold is_active, entry. cbn [sk_validators sk_nonceUsed].
  rewrite lookup_insert_eq. split; [done|]. split; [set_solver|].
  intros a Ha. by rewrite lookup_insert_ne.
Qed.

Lemma strict_fst_inj {A : Type} (l : list (N * A)) p q :
  StronglySorted N.lt l.*1 → p ∈ l → q ∈ l → p.1 = q.1 → p = q.
Proof.
  induction l as [|x l IH]; simpl; [set_solver|]. intros [Hs Hx]%StronglySorted_inv.
  rewrite Forall_fmap, Forall_forall in Hx.
  intros [->|Hp]%elem_of_cons [->|Hq]%elem_of_cons Hpq; auto.
  - specialize (Hx q Hq). simpl in Hx. lia.
  - specialize (Hx p Hp). simpl in Hx. lia.
Qed.

Lemma approve_checks st ts applicant nonce signers sigs :
  is_ok (approveByConsensus st ts applicant nonce signers sigs) = true →
  check_signers st (consensusMessageHash st applicant (ve_stake (entry st applicant)) nonce) 0
    (zip signers sigs) = Ok ().
Proof.
  intros [st' Hok]%is_ok_Ok. unfold approveByConsensus in Hok.
  repeat (apply bind_Ok in Hok as (? & ? & Hok)). by repeat match goal with u : unit |- _ => destruct u end.
Qed.

End Submissions.

(** ** Attestations of the node's own format *)
Section Proofs.
Context `{!Crypto, !CryptoLaws, !HexDigits, !Ethereum, !EthereumLaws}.

Lemma strip_0x_free (s : string) : free_of "x" s = true → strip_one ["0x"] s = None.
Proof.
  intros Hs. cbn [strip_one]. destruct (strip_prefix "0x" s) as [r|] eqn:Hr; [|done].
  apply strip_prefix_Some in Hr as ->. by vm_compute in Hs.
Qed.

Lemma strip_0X_free (s : string) : free_of "X" s = true → strip_one ["0X"] s = None.
Proof.
  intros Hs. cbn [strip_one]. destruct (strip_prefix "0X" s) as [r|] eqn:Hr; [|done].
  apply strip_prefix_Some in Hr as ->. by vm_compute in Hs.
Qed.

Lemma strip_all_none (fuel : nat) ps s : strip_one ps s = None → strip_all fuel ps s = s.
Proof. intros Hs. destruct fuel; [done|]. simpl. by rewrite Hs. Qed.

Lemma trim_hex_0x (s : string) :
  free_of "x" s = true → free_of "X" s = true → trim_hex ("0x" +:+ s) = s.
Proof.
  intros Hx HX. unfold trim_hex.
  assert (trim_0x ("0x" +:+ s) = s) as ->.
  { unfold trim_0x. rewrite !app_cons_str. cbn [strip_all String.length].
    assert (strip_one ["0x"] ("0x" +:+ s) = Some s) as Hs.
    { cbn [strip_one]. destruct (strip_prefix "0x" ("0x" +:+ s)) as [r|] eqn:Hr.
      - apply strip_prefix_Some in Hr. by apply app_inj_l in Hr as ->.
      - by rewrite (proj2 (strip_prefix_Some "0x" _ s) eq_refl) in Hr. }
    rewrite !app_cons_str in Hs. rewrite Hs.
    by apply (strip_all_none (S _)), strip_0x_free. }
  by apply strip_all_none, strip_0X_free.
Qed.

Lemma parse_u256_hex (n : N) : parse_u256 ("0x" +:+ u256_hex n) = Some n.
Proof.
  unfold parse_u256. destruct (u256_hex_plain n). rewrite trim_hex_0x by done. apply u256_parse_hex.
Qed.

Lemma digits_free_of (c : ascii) (s : string) :
  hex_digit c = false → Forall (λ c, hex_digit c = true) (of_str s) → free_of c s = true.
Proof.
  intros Hc. induction s as [|a s IH]; [done|].
  cbn [of_str String.list_ascii_of_string]. intros [Ha Hs]%Forall_cons.
  simpl. rewrite IH, andb_true_r by done. destruct (Ascii.eqb_spec a c) as [->|]; [congruence|done].
Qed.

Lemma eth_hex_decode_encode (b : string) : eth_hex_decode ("0x" +:+ hex_encode b) = Some b.
Proof.
  unfold eth_hex_decode. rewrite trim_hex_0x; [apply hex_roundtrip|..];
    by apply digits_free_of, hex_digits.
Qed.

Lemma lower_app (a b : string) :
  to_ascii_lowercase (a +:+ b) = to_ascii_lowercase a +:+ to_ascii_lowercase b.
Proof. induction a as [|c a IH]; [done|]. rewrite app_cons_str. simpl. by rewrite IH. Qed.

(** An attestation of the node's own making verifies. *)
Lemma sign_attestation_verifies pk chain_id staking_addr applicant stake nonce rsv a :
  sign_attestation pk chain_id staking_addr applicant stake nonce rsv = Some a →
  verify_attestation a chain_id staking_addr = Some true.
Proof.
  unfold sign_attestation, verify_attestation. intros Hs. simplify_option_eq.
  rewrite !addr_parse_hex. simpl. rewrite !parse_u256_hex. simpl.
  rewrite eth_hex_decode_encode. simpl. rewrite eth_sign_length. simpl.
  rewrite eth_sign_recover. simpl. by rewrite N.eqb_refl.
Qed.

(** ** The contract accepts *)

(** An attestation of a key over the values that the contract holds. *)
Definition honest (st : Staking) (applicant nonce : N) (a : AdmissionAttestation) : Prop :=
  ∃ pk, sign_attestation pk (sk_chain_id st) (sk_address st) applicant
          (ve_stake (entry st applicant)) nonce (sk_ruleSetVersion st) = Some a.

Definition tick_matches (tk : Tick) (st : Staking) : Prop :=
  tk_staking_addr tk = sk_address st ∧ tk_chain_id tk = sk_chain_id st ∧
  tk_rule_set_version tk = sk_ruleSetVersion st ∧ tk_min_stake tk = sk_minValidatorStake st ∧
  tk_timeout_secs tk = sk_timeout st.

Lemma check_signers_exact st d prev l :
  check_signers st d prev l = Ok () ↔
  StronglySorted N.lt (prev :: l.*1) ∧
  Forall (λ p, is_active st p.1 = true ∧ sol_recover d p.2 = p.1) l.
Proof.
  revert prev. induction l as [|[x sig] l IH]; intros prev; simpl.
  { split; [repeat constructor|done]. }
  destruct (N.leb_spec x prev) as [Hle|Hlt].
  { split; [done|]. intros [[_ Hs]%StronglySorted_inv _]. apply Forall_cons in Hs as [Hs _]. lia. }
  destruct (is_active st x) eqn:Ha; simpl.
  2:{ split; [done|]. intros [_ [[Hx _] _]%Forall_cons]. simpl in Hx. congruence. }
  destruct (N.eqb_spec (sol_recover d sig) x) as [Hr|Hr]; simpl.
  2:{ split; [done|]. intros [_ [[_ Hx] _]%Forall_cons]. by simpl in Hx. }
  rewrite IH, Forall_cons. simpl. split.
  - intros [Hs Hf]. apply StronglySorted_inv in Hs as Hs'. destruct Hs' as [_ Hx].
    split; [|auto]. constructor; [done|]. constructor; [done|].
    eapply Forall_impl; [exact Hx|]. simpl. lia.
  - intros [[Hs _]%StronglySorted_inv [_ Hf]]. auto.
Qed.

Lemma sorted_strict (l : list N) :
  StronglySorted N.le l → NoDup l → StronglySorted N.lt l.
Proof.
  induction 1 as [|x l Hs IH Hx]; intros Hn; [constructor|].
  apply NoDup_cons in Hn as [Hin Hn]. constructor; [auto|].
  rewrite Forall_forall in Hx |- *. intros y Hy. specialize (Hx y Hy).
  assert (x ≠ y) by congruence. lia.
Qed.

Lemma attest_honest tk st s key applicant nonce s' out a :
  tick_matches tk st → attest tk s applicant (ve_stake (entry st applicant)) nonce = Some (s', out) →
  a ∈ snapshot s' key → a ∈ snapshot s key ∨ honest st applicant nonce a.
Proof.
  intros (Ht1 & Ht2 & Ht3 & _). unfold attest.
  destruct (tk_we_are_active tk), (tk_bridge_priv tk) as [pk|]; try (intros [= <- <-]; by left).
  destruct (sign_attestation _ _ _ _ _ _ _) as [b|] eqn:Hb; [|done].
  cbn [mbind option_bind]. unfold att_insert. intros [= <- <-].
  unfold snapshot. rewrite !elem_of_hm_values. intros [signer Ha].
  unfold bucket in Ha at 1. destruct (decide (key = att_key b)) as [->|Hk].
  - rewrite lookup_insert_eq in Ha. simpl in Ha. apply lookup_insert_Some in Ha as [[_ <-]|[_ Ha]]; [|eauto].
    right. exists pk. congruence.
  - rewrite lookup_insert_ne in Ha by done. left. eauto.
Qed.

Lemma honest_signer st applicant nonce a :
  honest st applicant nonce a →
  ∃ k, at_signer a = "0x" +:+ addr_hex (eth_address k) ∧
    at_signature a =
      "0x" +:+ hex_encode (eth_sign k (consensusMessageHash st applicant (ve_stake (entry st applicant)) nonce)).
Proof. intros [pk Hs]. unfold sign_attestation in Hs. simplify_option_eq. eauto. Qed.

(** Distinct entries of a bucket of honest attestations have distinct signers. *)
Lemma honest_NoDup tk vw st s key applicant nonce filtered :
  store_wf s → (∀ a, a ∈ snapshot s key → honest st applicant nonce a) →
  active_signers vw (filter (λ a, att_verified tk a = true) (snapshot s key)) = Some filtered →
  NoDup filtered.*1.
Proof.
  intros Hw Hh Hf.
  assert (NoDup (to_ascii_lowercase ∘ at_signer <$> filtered.*2)) as Hn.
  { eapply sublist_NoDup; [|by apply fmap_sublist, (active_signers_submseteq vw _ _ Hf)].
    apply NoDup_hm_filter. intros k a Ha. by eapply bucket_wf in Ha as [_ Ha]. }
  assert (to_ascii_lowercase ∘ at_signer <$> filtered.*2 =
          (λ x, "0x" +:+ addr_hex x) <$> filtered.*1) as He.
  { rewrite <- !list_fmap_compose. apply list_fmap_ext. intros i p Hp%list_elem_of_lookup_2.
    apply (active_signers_elem _ _ _ _ Hf) in Hp as (Hp & Hx & _).
    apply list_elem_of_filter in Hp as [_ Hp]. apply Hh, honest_signer in Hp as (k & Hk & _).
    simpl. rewrite Hk in Hx |- *. rewrite addr_parse_hex in Hx. injection Hx as Hx.
    by rewrite lower_app, addr_hex_lower, Hx. }
  rewrite He in Hn. by apply NoDup_fmap_1 in Hn.
Qed.

Lemma submission_checks tk st s key applicant nonce sb :
  store_wf s →
  (∀ a, a ∈ snapshot s (to_ascii_lowercase key, "0x" +:+ u256_hex nonce) → honest st applicant nonce a) →
  collect tk (view_of st) s key applicant nonce = Some (Some sb) →
  check_signers st (consensusMessageHash st applicant (ve_stake (entry st applicant)) nonce) 0
    (zip (sb_signers sb) (sb_sigs sb)) = Ok ().
Proof.
  intros Hw Hh (filtered & n & Hf & _ & _ & -> & _)%collect_submits.
  pose proof (honest_NoDup _ _ _ _ _ _ _ _ Hw Hh Hf) as Hn.
  assert (∀ p, p ∈ filtered → is_active st p.1 = true ∧ ∃ k, p.1 = eth_address k ∧
    at_signature p.2 = "0x" +:+ hex_encode (eth_sign k
      (consensusMessageHash st applicant (ve_stake (entry st applicant)) nonce))) as Hp.
  { intros p (Ha & Hx & Hv)%(active_signers_elem _ _ _ _ Hf). apply list_elem_of_filter in Ha as [_ Ha].
    apply Hh, honest_signer in Ha as (k & Hk & Hsig).
    rewrite Hk, addr_parse_hex in Hx. injection Hx as Hx. simpl in Hv. injection Hv as Hv.
    split; [by apply bool_decide_eq_true|eauto]. }
  rewrite zip_signers. apply check_signers_exact. rewrite <- list_fmap_compose. split.
  - constructor.
    + apply sorted_strict; [apply sorted_addresses|]. simpl. by rewrite sort_by_Permutation.
    + apply Forall_fmap, Forall_forall. intros p Hin%elem_of_sort_by. simpl.
      destruct (Hp p Hin) as (_ & k & -> & _). apply eth_address_pos.
  - apply Forall_fmap, Forall_forall. intros p Hin%elem_of_sort_by. simpl.
    destruct (Hp p Hin) as (Ha & k & Hk & Hs). split; [done|].
    rewrite Hs, eth_hex_decode_encode, Hk. apply eth_sign_sol.
Qed.

Lemma collect_nonempty tk vw s key applicant nonce sb :
  collect tk vw s key applicant nonce = Some (Some sb) → sb_filtered sb ≠ [].
Proof.
  intros (filtered & n & _ & _ & _ & _ & [x Hx] & Hl)%collect_submits Hnil.
  rewrite Hnil, Hx in Hl. done.
Qed.

End Proofs.

(** What a node submits passes the rules: the applicant is pending with the stake, its
    identity is known, the application is after any ejection and not expired, and the
    signers, in ascending order and at least two thirds of the active set, are active
    and their signatures recover; the submitter is the first of them. *)
Theorem submission_sound `{!Crypto, !Ethereum} (tk : Tick) (vw : View)
    (regs : gmap string Registration) (now : N) (mined : Submission → bool) (s : AttestationStore)
    (key : string) (sb : Submission) :
  ar_submitted (process_applicant tk vw regs now mined s key) = Some sb →
  ∃ v n,
    addr_parse key = Some (sb_applicant sb) ∧ view_validators vw (sb_applicant sb) = Some v ∧
    ve_state v = Pending ∧ (tk_min_stake tk ≤ ve_stake v)%N ∧ have_identity regs key = true ∧
    (ve_ejectedAt v = 0 ∨ ve_ejectedAt v < ve_appliedAt v)%N ∧
    (now < (ve_appliedAt v + tk_timeout_secs tk) mod u256_size)%N ∧ sb_nonce sb = ve_appliedAt v ∧
    view_nonceUsed vw (sb_applicant sb) (sb_nonce sb) = Some false ∧
    StronglySorted N.le (sb_signers sb) ∧
    Forall (λ p, addr_parse (at_signer p.2) = Some p.1 ∧
                 ve_state <$> view_validators vw p.1 = Some Active ∧
                 verify_attestation p.2 (tk_chain_id tk) (tk_staking_addr tk) = Some true)
      (sb_filtered sb) ∧
    view_activeCount vw = Some n ∧
    ((n * 2) mod u256_size ≤ (N.of_nat (length (sb_signers sb)) * 3) mod u256_size)%N ∧
    head (sb_signers sb) = tk_self_addr tk.
Proof.
  intros (applicant & stake & nonce & s' & out & Hr & _ & Hc)%process_applicant_submits.
  apply evaluate_rules_eligible in Hr as (v & Hk & Hv & Hp & Hm & Hi & Hej & Hnow & Hu & -> & ->).
  apply collect_submits in Hc as (filtered & n & Hf & Hn & Hq & -> & _ & Hl).
  exists v, n. unfold sb_signers. simpl in *. rewrite length_fmap, length_sort_by.
  rewrite head_lookup, list_lookup_fmap, <- head_lookup.
  do 9 (split; [done|]). split; [apply sorted_addresses|]. split; [|done].
  apply Forall_forall. intros p Hin%elem_of_sort_by.
  destruct (proj1 (active_signers_elem _ _ _ p Hf) Hin) as (Ha & Hx & Hs).
  apply list_elem_of_filter in Ha as [Ha _]. unfold att_verified in Ha.
  by destruct (verify_attestation _ _ _) as [[]|].
Qed.

(** C8. Composition with the contract: when every attestation collected for the applicant
    was made by some key over the stake and the rule version that the contract holds,
    the contract accepts what the node submits before the application expires, and
    admits the applicant. *)
Theorem submission_accepted `{!Crypto, !CryptoLaws, !HexDigits, !Ethereum, !EthereumLaws}
    (st : Staking) (tk : Tick) (regs : gmap string Registration) (now ts : N)
    (mined : Submission → bool) (s : AttestationStore) (key : string) (sb : Submission) :
  tick_matches tk st → store_wf s →
  (∀ a nonce, a ∈ snapshot s (to_ascii_lowercase key, "0x" +:+ u256_hex nonce) →
     honest st (sb_applicant sb) nonce a) →
  ar_submitted (process_applicant tk (view_of st) regs now mined s key) = Some sb →
  (ve_appliedAt (entry st (sb_applicant sb)) + sk_timeout st < u256_size)%N →
  (ts < ve_appliedAt (entry st (sb_applicant sb)) + sk_timeout st)%N →
  (N.of_nat (length (sb_signers sb)) * 3 < u256_size)%N → (countActive st * 2 < u256_size)%N →
  ∃ st', approveByConsensus st ts (sb_applicant sb) (sb_nonce sb) (sb_signers sb) (sb_sigs sb) = Ok st' ∧
    is_active st' (sb_applicant sb) = true ∧ (sb_applicant sb, sb_nonce sb) ∈ sk_nonceUsed st' ∧
    ∀ a, a ≠ sb_applicant sb → entry st' a = entry st a.
Proof.
  intros Ht Hw Hh (x & stake & nonce & s' & out & Hr & Ha & Hc)%process_applicant_submits.
  intros Hov Hts H3s H2a.
  apply evaluate_rules_eligible in Hr as (v & _ & Hv & Hp & Hm & _ & _ & _ & Hu & -> & ->).
  simpl in Hv, Hu. injection Hv as <-. injection Hu as Hu%bool_decide_eq_false.
  pose proof (collect_nonempty _ _ _ _ _ _ _ Hc) as Hne.
  destruct (collect_quorum _ _ _ _ _ _ _ Hc) as (Hx & Hnc & n & [= <-] & Hq).
  rewrite Hx in *. rewrite Hnc in *. rewrite !N.mod_small in Hq by done.
  destruct (approve_accepts st ts x (ve_appliedAt (entry st x)) (sb_signers sb) (sb_sigs sb))
    as (st' & Hok & Hst); try done.
  - by destruct Ht as (_ & _ & _ & <- & _).
  - unfold sb_signers. by destruct (sb_filtered sb).
  - unfold sb_sigs, sb_signers. by rewrite !length_fmap.
  - eapply (submission_checks tk st s' key); [by eauto using attest_wf| |done].
    intros a Ha'. edestruct (attest_honest tk st s) as [|]; eauto.
  - eauto.
Qed.

(** The store tells signers apart by their text and the contract by their address: two
    verified attestations of one active address under different spellings are both
    submitted, and the contract rejects the whole submission. *)
Theorem respelled_signer_blocks `{!Crypto, !Ethereum} (st : Staking) (tk : Tick)
    (s : AttestationStore) (key : string) (applicant nonce ts x : N) (sb : Submission)
    (a b : AdmissionAttestation) :
  collect tk (view_of st) s key applicant nonce = Some (Some sb) →
  a ∈ snapshot s (to_ascii_lowercase key, "0x" +:+ u256_hex nonce) →
  b ∈ snapshot s (to_ascii_lowercase key, "0x" +:+ u256_hex nonce) →
  at_signer a ≠ at_signer b → addr_parse (at_signer a) = Some x → addr_parse (at_signer b) = Some x →
  att_verified tk a = true → att_verified tk b = true → is_active st x = true →
  is_ok (approveByConsensus st ts (sb_applicant sb) (sb_nonce sb) (sb_signers sb) (sb_sigs sb)) = false.
Proof.
  intros (filtered & n & Hf & _ & _ & -> & _)%collect_submits Ha Hb Hne Hxa Hxb Hva Hvb Hx.
  apply not_true_is_false. intros Hs%approve_checks. rewrite zip_signers in Hs.
  apply check_signers_exact in Hs as [[Hs _]%StronglySorted_inv _]. simpl in Hs.
  apply bool_decide_eq_true in Hx.
  rewrite <- list_fmap_compose in Hs.
  assert ((x, a) = (x, b)) as [= ->]; [|done].
  apply (strict_fst_inj (sort_by addr_le filtered)); [done|..|done];
    apply elem_of_sort_by, (active_signers_elem _ _ _ _ Hf); simpl;
    (split; [by apply list_elem_of_filter|]); split; try done; by rewrite Hx.
Qed.

(** So does one attestation of an active signer over values other than the contract's:
    the node checks it against the values it carries. *)
Theorem foreign_attestation_blocks `{!Crypto, !Ethereum} (st : Staking) (tk : Tick)
    (s : AttestationStore) (key : string) (applicant nonce ts x : N) (sb : Submission)
    (a : AdmissionAttestation) (raw : string) :
  collect tk (view_of st) s key applicant nonce = Some (Some sb) →
  a ∈ snapshot s (to_ascii_lowercase key, "0x" +:+ u256_hex nonce) →
  att_verified tk a = true → addr_parse (at_signer a) = Some x → is_active st x = true →
  eth_hex_decode (at_signature a) = Some raw →
  sol_recover (consensusMessageHash st applicant (ve_stake (entry st applicant)) nonce) raw ≠ x →
  is_ok (approveByConsensus st ts (sb_applicant sb) (sb_nonce sb) (sb_signers sb) (sb_sigs sb)) = false.
Proof.
  intros (filtered & n & Hf & _ & _ & -> & _)%collect_submits Ha Hva Hxa Hx Hraw Hne.
  apply not_true_is_false. intros Hs%approve_checks. rewrite zip_signers in Hs.
  apply check_signers_exact in Hs as [_ Hs]. rewrite Forall_fmap, Forall_forall in Hs.
  destruct (Hs (x, a)) as [_ Hr]; [|by simpl in Hr; rewrite Hraw in Hr].
  apply bool_decide_eq_true in Hx.
  apply elem_of_sort_by, (active_signers_elem _ _ _ _ Hf). simpl.
  split; [by apply list_elem_of_filter|]. by rewrite Hx.
Qed.

(** ** Examples *)
Module ConsensusDemo.
Import Toy ShieldedDemo.

Fixpoint marks (n : nat) : string :=
  match n with O => EmptyString | S n' => String "1" (marks n') end.

Definition tally_marks (n : N) : string := marks (N.to_nat n).

#[export] Instance toy_ethereum : Ethereum := {|
  keccak256 := digest;
  addr_parse s := Some (N.of_nat (String.length (default s (strip_prefix "0x" s))));
  addr_hex := tally_marks;
  u256_hex := tally_marks;
  u256_from_hex s := Some (N.of_nat (String.length s));
  EthKey := ascii;
  key_parse s := match s with String c EmptyString => Some c | _ => None end;
  eth_address c := (N_of_ascii c - 64 + 1)%N;
  eth_sign c d := String c (fit 64 d);
  eth_recover d sig :=
    match sig with
    | String c rest => if String.eqb rest (fit 64 d) then Some (N_of_ascii c - 64 + 1)%N else None
    | EmptyString => None
    end;
  sol_recover d sig :=
    match sig with
    | String c rest => if String.eqb rest (fit 64 d) then (N_of_ascii c - 64 + 1)%N else 0%N
    | EmptyString => 0%N
    end;
|}.

Lemma marks_length (n : nat) : String.length (marks n) = n.
Proof. induction n as [|n IH]; [done|]. simpl. by rewrite IH. Qed.

Lemma marks_lower (n : nat) : to_ascii_lowercase (marks n) = marks n.
Proof. induction n as [|n IH]; [done|]. simpl. by rewrite IH. Qed.

Lemma marks_free (c : ascii) (n : nat) : c ≠ "1"%char → free_of c (marks n) = true.
Proof.
  intros Hc. induction n as [|n IH]; [done|]. cbn [marks free_of]. rewrite IH.
  by destruct (Ascii.eqb_spec "1" c) as [<-|].
Qed.

#[export] Instance toy_ethereum_laws : EthereumLaws.
Proof.
  assert (Hlen : ∀ n, String.length (tally_marks n) = N.to_nat n) by (intros n; apply marks_length).
  split; cbn -[fit tally_marks String.length strip_prefix]; intros.
  - rewrite (proj2 (strip_prefix_Some "0x" _ _) eq_refl). simpl. by rewrite Hlen, N2Nat.id.
  - apply marks_lower.
  - by rewrite Hlen, N2Nat.id.
  - apply marks_lower.
  - by split; apply marks_free.
  - change (S (String.length (fit 64 d)) = 65). by rewrite length_fit.
  - by rewrite String.eqb_refl.
  - by rewrite String.eqb_refl.
  - lia.
Qed.

(** Three active validators with the keys A, B and C (addresses 2, 3 and 4) and the
    applicant 9, which applied at time 5. *)
Definition active_entry : ValidatorEntry :=
  {| ve_stake := 7; ve_state := Active; ve_unbondingAt := 0; ve_slashCount := 0; ve_ejectedAt := 0; ve_appliedAt := 1 |}.

Definition st0 : Staking := {|
  sk_address := 1; sk_chain_id := 2;
  sk_validators := {[ 2%N := active_entry; 3%N := active_entry; 4%N := active_entry;
                      9%N := {| ve_stake := 6; ve_state := Pending; ve_unbondingAt := 0; ve_slashCount := 0;
                                ve_ejectedAt := 0; ve_appliedAt := 5 |} ]};
  sk_validatorList := [2; 3; 4; 9]%N; sk_publisherStakes := ∅; sk_nonceUsed := ∅;
  sk_minValidatorStake := 6; sk_timeout := 10; sk_ruleSetVersion := 1;
|}.

Definition applicant_key : string := "0x" +:+ tally_marks 9.

Definition reg0 : Registration := {|
  rg_alias := "nine";
  rg_identity := {| evm_address := applicant_key; node_id := "n9"; ed25519_pubkey := "k9" |};
  rg_registered_with_node := true; rg_applied_on_chain := true; rg_governance_approved := false;
  rg_admitted_to_consensus := false; rg_active := false; rg_staking_state := "pending";
  rg_status := "applied-on-chain"; rg_stake := 6; rg_reputation := 0 |}.

Definition regs0 : gmap string Registration := {[ applicant_key := reg0 ]}.

Definition tick_of (pk : string) : option Tick := tick_ctx 1 2 1 6 10 (Some pk) (view_of st0).

Definition tkA : Tick := {|
  tk_staking_addr := 1; tk_bridge_priv := Some "A"; tk_chain_id := 2; tk_rule_set_version := 1;
  tk_min_stake := 6; tk_timeout_secs := 10; tk_self_addr := Some 2%N; tk_we_are_active := true |}.

Example tick_of_A : tick_of "A" = Some tkA.
Proof. vm_compute. reflexivity. Qed.

Definition att (pk : string) (stake : N) : AdmissionAttestation :=
  default {| at_applicant := ""; at_stake := ""; at_nonce := ""; at_rule_set_version := "";
             at_signer := ""; at_signature := "" |}
    (sign_attestation pk 2 1 9 stake 5 1).

(** The store after the attestation of B has arrived. *)
Definition storeB : AttestationStore := (att_insert ∅ (att "B" 6)).1.

Definition sbA : Submission :=
  {| sb_applicant := 9; sb_nonce := 5; sb_filtered := [(2%N, att "A" 6); (3%N, att "B" 6)] |}.

Definition runA (s : AttestationStore) : ApplicantRun :=
  process_applicant tkA (view_of st0) regs0 8 (λ _, true) s applicant_key.

Lemma runA_submits : ar_submitted (runA storeB) = Some sbA.
Proof. vm_compute. reflexivity. Qed.

Lemma submission_sound_witness :
  ∃ v, view_validators (view_of st0) (sb_applicant sbA) = Some v ∧ ve_state v = Pending.
Proof.
  destruct (submission_sound tkA (view_of st0) regs0 8 (λ _, true) storeB applicant_key sbA)
    as (v & n & _ & Hv & Hp & _); [vm_compute; reflexivity|eauto].
Defined.

Lemma storeB_honest a nonce :
  a ∈ snapshot storeB (to_ascii_lowercase applicant_key, "0x" +:+ u256_hex nonce) → honest st0 9 nonce a.
Proof.
  unfold snapshot. rewrite elem_of_hm_values. intros [k Hk].
  assert (att_key (att "B" 6) = (to_ascii_lowercase applicant_key, "0x" +:+ u256_hex 5)) as He by done.
  assert (nonce = 5%N) as ->.
  { unfold bucket, storeB, att_insert in Hk. cbn [fst] in Hk. rewrite He in Hk.
    destruct (decide (nonce = 5%N)) as [|Hn]; [done|].
    rewrite lookup_insert_ne in Hk; [done|]. intros [_ Hm%app_inj_l]%pair_equal_spec.
    apply (f_equal u256_from_hex) in Hm. rewrite !u256_parse_hex in Hm. congruence. }
  unfold bucket, storeB, att_insert in Hk. cbn [fst] in Hk. rewrite He, lookup_insert_eq in Hk.
  cbn [default from_option id] in Hk. apply lookup_insert_Some in Hk as [[_ <-]|[_ Hk]]; [|done]. exists "B". vm_compute. reflexivity.
Qed.

Lemma storeB_wf : store_wf storeB.
Proof. by apply att_insert_wf. Qed.

Lemma submission_accepted_witness :
  ∃ st', approveByConsensus st0 9 9 5 (sb_signers sbA) (sb_sigs sbA) = Ok st' ∧ is_active st' 9 = true.
Proof.
  destruct (submission_accepted st0 tkA regs0 8 9 (λ _, true) storeB applicant_key sbA)
    as (st' & Hok & Ha & _); [done|apply storeB_wf|apply storeB_honest|apply runA_submits|
      vm_compute; reflexivity|vm_compute; reflexivity|vm_compute; reflexivity|vm_compute; reflexivity|eauto].
Defined.

(** A stranger sends the attestation of B again with the address written without its
    prefix: the endpoint accepts it as new, the node submits, the contract refuses. *)
Definition respelled : AdmissionAttestation := {|
  at_applicant := at_applicant (att "B" 6); at_stake := at_stake (att "B" 6);
  at_nonce := at_nonce (att "B" 6); at_rule_set_version := at_rule_set_version (att "B" 6);
  at_signer := addr_hex 3; at_signature := at_signature (att "B" 6) |}.

Definition storeBB : AttestationStore := (att_insert storeB respelled).1.
Definition storeBBA : AttestationStore := (att_insert storeBB (att "A" 6)).1.

Definition sbBB : Submission :=
  {| sb_applicant := 9; sb_nonce := 5;
     sb_filtered := [(2%N, att "A" 6); (3%N, respelled); (3%N, att "B" 6)] |}.

Example respelled_accepted :
  accept_peer_attestation storeB 2 1 respelled = Some (att_insert storeB respelled) ∧
  (att_insert storeB respelled).2 = true.
Proof.
  assert (verify_attestation respelled 2 1 = Some true) as Hv by (vm_compute; reflexivity).
  unfold accept_peer_attestation. rewrite Hv. split; [done|vm_compute; reflexivity].
Qed.

Lemma respelled_signer_blocks_witness :
  is_ok (approveByConsensus st0 9 9 5 [2; 3; 3]%N (sb_sigs sbBB)) = false.
Proof.
  assert (Hs : snapshot storeBBA (to_ascii_lowercase applicant_key, "0x" +:+ u256_hex 5)
               ≡ₚ [att "A" 6; att "B" 6; respelled]) by (vm_compute; solve_Permutation).
  apply (respelled_signer_blocks st0 tkA storeBBA applicant_key 9 5 9 3 sbBB (att "B" 6) respelled);
    [|rewrite Hs; set_solver|rewrite Hs; set_solver|..]; vm_compute; (reflexivity || discriminate).
Defined.

(** The attestation of B over a stake of 1: its signature verifies, and the node submits
    what the contract refuses. *)
Definition storeF : AttestationStore := (att_insert (att_insert ∅ (att "A" 6)).1 (att "B" 1)).1.

Definition sbF : Submission :=
  {| sb_applicant := 9; sb_nonce := 5; sb_filtered := [(2%N, att "A" 6); (3%N, att "B" 1)] |}.

Lemma foreign_attestation_blocks_witness :
  is_ok (approveByConsensus st0 9 9 5 [2; 3]%N (sb_sigs sbF)) = false.
Proof.
  apply (foreign_attestation_blocks st0 tkA storeF applicant_key 9 5 9 3 sbF (att "B" 1)
           (default "" (eth_hex_decode (at_signature (att "B" 1)))));
    [vm_compute; reflexivity|apply elem_of_hm_values; eexists (to_ascii_lowercase (at_signer (att "B" 1)))|..];
    vm_compute; (reflexivity || discriminate).
Defined.

End ConsensusDemo.
