(* ===== verification/SetSync.v ===== *)
(** Synchronisation of the validator set with the staking contract
    (crates/node/src/validator_set_sync.rs).

    A worker reads the contract's events from several L1 endpoints, folds them into the
    set of observed active addresses behind a finality lag, and rebuilds the node's
    validator set from it.  The endpoints' answers of a poll are a record [L1Rpc]; the
    generated ABI decoders are the interface [SolEvents]; writing the cursor file
    succeeds or fails ([disk_ok]).  [SyncFollow] proves what the worker does. *)

From S2P Require Import Prelude Text Crypto Types L1Quorum SetHistory Shamir Threshold ShieldedWire.
From S2P Require Import Staking ConsensusAdmission.
From Stdlib Require Import Ascii NArith.

(** ** Text *)

(** [s.contains(p)] *)
Fixpoint contains (p s : string) : bool :=
  starts_with p s ||
  match s with EmptyString => false | String _ s' => contains p s' end.

Definition hex_value (c : ascii) : option N :=
  let n := N_of_ascii c in
  if ((48 <=? n) && (n <=? 57))%N then Some (n - 48)%N
  else if ((97 <=? n) && (n <=? 102))%N then Some (n - 87)%N
  else if ((65 <=? n) && (n <=? 70))%N then Some (n - 55)%N
  else None.

Fixpoint parse_hex_digits (max acc : N) (s : string) : option N :=
  match s with
  | EmptyString => Some acc
  | String c s' =>
      d ← hex_value c;
      if (acc * 16 + d <=? max)%N then parse_hex_digits max (acc * 16 + d) s' else None
  end.

(** [uN::from_str_radix(s, 16)] *)
Definition parse_radix16 (max : N) (s : string) : option N :=
  match s with
  | EmptyString => None
  | String c s' =>
      if Ascii.eqb c "+" then (if is_empty s' then None else parse_hex_digits max 0 s')
      else parse_hex_digits max 0 s
  end.

(** ** Deltas *)

Inductive DeltaKind :=
| Add (stake_wei : string) (signer_count : option N)
| Apply (stake_wei : string)
| Remove
| Unbond (unbonding_at : N)
| Slash (amount_wei reason : string)
| DropApplicant.

Record ValidatorSetDelta := {
  d_kind : DeltaKind;
  d_addr : string;
  d_block_height : N;
  d_log_index : N;
  d_tx_hash : string;
}.

Record LogView := {
  lv_topics : list string;
  lv_data : string;
  lv_block_number : N;
  lv_log_index : N;
  lv_tx_hash : string;
}.

Inductive DecodeError := NoTopics | UnknownTopic (topic0 : string) | SolError.

Inductive EventName :=
| EApplied | EApproved | EApprovedByConsensus | ERejectedEvent | EExpired | EUnbonding
| EWithdrawn | ELeft | ESlashed.
#[export] Instance EventName_eq_dec : EqDecision EventName.
Proof. solve_decision. Defined.

(** The declarations of [IStakingEvents], in the order in which [decode] tries them. *)
Definition event_names : list EventName :=
  [EApplied; EApproved; EApprovedByConsensus; ERejectedEvent; EExpired; EUnbonding; EWithdrawn; ELeft;
   ESlashed].

Definition event_signature (n : EventName) : string :=
  match n with
  | EApplied => "ValidatorApplied(address,uint256)"
  | EApproved => "ValidatorApproved(address)"
  | EApprovedByConsensus => "ValidatorApprovedByConsensus(address,uint256,uint256)"
  | ERejectedEvent => "ValidatorRejected(address)"
  | EExpired => "ValidatorApplicationExpired(address,uint256)"
  | EUnbonding => "ValidatorUnbonding(address,uint256)"
  | EWithdrawn => "ValidatorWithdrawn(address,uint256)"
  | ELeft => "ValidatorLeft(address)"
  | ESlashed => "Slashed(address,uint256,string)"
  end.

Definition event_name (e : StakingEvent) : EventName :=
  match e with
  | ValidatorApplied _ _ => EApplied
  | ValidatorApproved _ => EApproved
  | ValidatorApprovedByConsensus _ _ _ => EApprovedByConsensus
  | ValidatorRejected _ => ERejectedEvent
  | ValidatorApplicationExpired _ _ => EExpired
  | ValidatorUnbonding _ _ => EUnbonding
  | ValidatorWithdrawn _ _ => EWithdrawn
  | ValidatorLeft _ => ELeft
  | Slashed _ _ _ => ESlashed
  end.

(** [decode_log_data] of the event types that [sol!] generates, and how the contract
    writes an event to the log. *)
Class SolEvents := {
  decode_log_data : EventName → list string → string → option StakingEvent;
  encode_topics : StakingEvent → list string;
  encode_data : StakingEvent → string;
}.

Class SolEventsLaws `{Ethereum, SolEvents} : Prop := {
  encode_topic0 : ∀ e, head (encode_topics e) = Some (keccak256 (event_signature (event_name e)));
  decode_encode_event : ∀ e,
    decode_log_data (event_name e) (encode_topics e) (encode_data e) = Some e;
  signatures_distinct : ∀ n m,
    keccak256 (event_signature n) = keccak256 (event_signature m) → n = m;
}.

Section Decode.
Context `{!Crypto, !Ethereum, !SolEvents}.

Definition signature_hash (n : EventName) : string := keccak256 (event_signature n).

Definition event_account (e : StakingEvent) : N :=
  match e with
  | ValidatorApplied a _ | ValidatorApproved a | ValidatorApprovedByConsensus a _ _
  | ValidatorRejected a | ValidatorApplicationExpired a _ | ValidatorUnbonding a _
  | ValidatorWithdrawn a _ | ValidatorLeft a | Slashed a _ _ => a
  end.

Definition event_kind (e : StakingEvent) : DeltaKind :=
  match e with
  | ValidatorApplied _ stake => Apply (fmt_N stake)
  | ValidatorApproved _ => Add (fmt_N 0) None
  | ValidatorApprovedByConsensus _ _ signerCount =>
      Add (fmt_N 0) (if (signerCount <=? u32_max)%N then Some signerCount else None)
  | ValidatorRejected _ => DropApplicant
  | ValidatorApplicationExpired _ _ => DropApplicant
  | ValidatorUnbonding _ unbondingAt => Unbond (N.min unbondingAt u64_max)
  | ValidatorWithdrawn _ _ => Remove
  | ValidatorLeft _ => Remove
  | Slashed _ amount reason => Slash (fmt_N amount) reason
  end.

Definition addr_text (a : N) : string := "0x" +:+ addr_hex a.

(** The event type whose signature hash is the first topic. *)
Definition event_of_topic (topic0 : string) : option EventName :=
  snd <$> list_find (λ n, topic0 = signature_hash n) event_names.

Definition decode_log (log : LogView) : result DecodeError (option ValidatorSetDelta) :=
  topic0 ← ok_or NoTopics (head (lv_topics log));
  n ← ok_or (UnknownTopic (hex_encode topic0)) (event_of_topic topic0);
  ev ← ok_or SolError (decode_log_data n (lv_topics log) (lv_data log));
  Ok (Some {| d_kind := event_kind ev; d_addr := addr_text (event_account ev);
              d_block_height := lv_block_number log; d_log_index := lv_log_index log;
              d_tx_hash := "0x" +:+ hex_encode (lv_tx_hash log) |}).

End Decode.

(** ** The worker's state *)

Record WorkerState := {
  cursor : option (N * N);
  cursor_block_hash : option string;
  observed_active : gset string;
}.

Definition pos_le (a b : N * N) : bool :=
  (a.1 <? b.1)%N || ((a.1 =? b.1)%N && (a.2 <=? b.2)%N).

Definition d_pos (d : ValidatorSetDelta) : N * N := (d_block_height d, d_log_index d).

(** The effect of an event on the observed set. *)
Definition observe (d : ValidatorSetDelta) (active : gset string) : gset string :=
  match d_kind d with
  | Add _ _ => {[d_addr d]} ∪ active
  | Remove | Unbond _ => active ∖ {[d_addr d]}
  | Slash _ _ | Apply _ | DropApplicant => active
  end.

Definition apply_delta (w : WorkerState) (d : ValidatorSetDelta) : WorkerState :=
  if match cursor w with Some c => pos_le (d_pos d) c | None => false end then w
  else {| cursor := Some (d_pos d); cursor_block_hash := cursor_block_hash w;
          observed_active := observe d (observed_active w) |}.

Definition delta_le (a b : ValidatorSetDelta) : bool := pos_le (d_pos a) (d_pos b).
Definition sort_deltas (l : list ValidatorSetDelta) : list ValidatorSetDelta := sort_by delta_le l.

(** After a scan the cursor is at least at the end of the safe block. *)
Definition advance (w : WorkerState) (safe_block : N) : WorkerState :=
  if match cursor w with Some (h, _) => (h <? safe_block)%N | None => true end then
    {| cursor := Some (safe_block, u32_max); cursor_block_hash := cursor_block_hash w;
       observed_active := observed_active w |}
  else w.

Definition set_cursor_hash (w : WorkerState) (h : option string) : WorkerState :=
  {| cursor := cursor w; cursor_block_hash := h; observed_active := observed_active w |}.

Definition cursor_reorged (w : WorkerState) (current_hash : string) : bool :=
  match cursor_block_hash w with
  | Some saved => negb (eq_ignore_ascii_case saved current_hash)
  | None => false
  end.

(** ** Reading the endpoints *)

(** A log as [eth_getLogs] returns it; [None] is a member that is missing or of another
    JSON type. *)
Record RawLog := {
  rl_topics : option (list (option string));
  rl_data : option string;
  rl_blockNumber : option string;
  rl_logIndex : option string;
  rl_transactionHash : option string;
}.

(** The answers of the endpoints; [logs_of url from to i] is that of the [i]-th attempt,
    an error carries its text. *)
Record L1Rpc := {
  block_number_of : string → option string;
  block_hash_of : string → N → option string;
  logs_of : string → N → N → nat → result string (list RawLog);
  b256_parse : string → option string;
  disk_ok : bool;
}.

Record SyncConfig := {
  sc_eth_rpc_url : string;
  sc_extra_rpc_urls : list string;
  sc_finality_lag_blocks : N;
  sc_start_block : option N;
  sc_log_chunk : N;                 (* CREG_ETH_LOG_CHUNK_BLOCKS, never 0 *)
}.

Definition rpc_endpoints (cfg : SyncConfig) : list string :=
  foldl (λ endpoints url,
    let url := trim url in
    if negb (is_empty url) && negb (bool_decide (url ∈ endpoints)) then endpoints ++ [url] else endpoints)
    [sc_eth_rpc_url cfg] (sc_extra_rpc_urls cfg).

(** [eth_get_logs_block_chunk]: the value of the environment variable. *)
Definition eth_get_logs_block_chunk (env : option string) : N :=
  match env ≫= parse_uint u64_max with
  | Some n => if (0 <? n)%N then n else 10000
  | None => 10000
  end.

Section Fetch.
Context `{!Crypto, !Ethereum, !SolEvents}.
Variable rpc : L1Rpc.

Definition fetch_latest_block (url : string) : option N :=
  hex ← block_number_of rpc url; parse_radix16 u64_max (trim_0x hex).

Definition fetch_latest_block_quorum (endpoints : list string) : option N :=
  L1.aggregate_height (omap fetch_latest_block endpoints).

(** The first endpoint that answers. *)
Fixpoint fetch_block_hash_failover (endpoints : list string) (block_number : N) : option string :=
  match endpoints with
  | [] => None
  | ep :: rest =>
      match block_hash_of rpc ep block_number with
      | Some h => Some h
      | None => fetch_block_hash_failover rest block_number
      end
  end.

Inductive HashQuorum := Agreed (hash : string) | NoMajority | Unavailable.

Definition fetch_block_hash_quorum (endpoints : list string) (block_number : N) : HashQuorum :=
  match omap (λ ep, block_hash_of rpc ep block_number) endpoints with
  | [] => Unavailable
  | hashes =>
      match L1.majority_hash hashes with
      | Some h => Agreed h
      | None => NoMajority
      end
  end.

Definition zero_hash : string := Threshold.to_str (replicate 32 Ascii.zero).

Definition log_view (l : RawLog) : LogView := {|
  lv_topics := omap (λ t, t ≫= b256_parse rpc) (default [] (rl_topics l));
  lv_data := default "" (hex_decode (trim_0x (default "0x" (rl_data l))));
  lv_block_number := default 0%N (parse_radix16 u64_max (trim_0x (default "0x0" (rl_blockNumber l))));
  lv_log_index := default 0%N (parse_radix16 u32_max (trim_0x (default "0x0" (rl_logIndex l))));
  lv_tx_hash := default zero_hash (rl_transactionHash l ≫= b256_parse rpc);
|}.

(** The logs that decode; the others are logged and skipped. *)
Definition decode_logs (logs : list RawLog) : list ValidatorSetDelta :=
  omap (λ l, match decode_log (log_view l) with Ok d => d | Err _ => None end) logs.

Definition eth_get_logs_retryable (msg : string) : bool :=
  contains "eth_getLogs returned no result array" msg || contains "Too Many Requests" msg ||
  contains "rate limit" msg || contains "429" msg.

(** Five attempts ([left] more after this one); only transient errors are retried. *)
Fixpoint fetch_attempts (left attempt : nat) (url : string) (from_block to_block : N)
    : result string (list ValidatorSetDelta) :=
  match logs_of rpc url from_block to_block attempt with
  | Ok logs => Ok (decode_logs logs)
  | Err e =>
      match left with
      | S left' =>
          if eth_get_logs_retryable e then fetch_attempts left' (S attempt) url from_block to_block
          else Err e
      | O => Err e
      end
  end.

Definition fetch_deltas_chunk (url : string) (from_block to_block : N)
    : result string (list ValidatorSetDelta) := fetch_attempts 4 0 url from_block to_block.

Definition sat_add (a b : N) : N := N.min u64_max (a + b).

(** The [while] loop over the chunks; [None] when the fuel is used up. *)
Fixpoint scan_chunks (fuel : nat) (url : string) (chunk start to_block : N)
    (acc : list ValidatorSetDelta) : option (result string (list ValidatorSetDelta)) :=
  match fuel with
  | O => None
  | S fuel' =>
      if (start <=? to_block)%N then
        let end_ := N.min (sat_add start (chunk - 1)) to_block in
        match fetch_deltas_chunk url start end_ with
        | Err e => Some (Err e)
        | Ok ds => scan_chunks fuel' url chunk (sat_add end_ 1) to_block (acc ++ ds)
        end
      else Some (Ok acc)
  end.

Definition fetch_deltas (fuel : nat) (url : string) (chunk from_block to_block : N)
    : option (result string (list ValidatorSetDelta)) :=
  if (to_block <? from_block)%N then Some (Ok [])
  else
    r ← scan_chunks fuel url chunk from_block to_block [];
    Some (match r with Ok ds => Ok (sort_deltas ds) | Err e => Err e end).

Fixpoint fetch_deltas_failover (fuel : nat) (endpoints : list string) (chunk from_block to_block : N)
    (last_err : string) : option (result string (list ValidatorSetDelta)) :=
  match endpoints with
  | [] => Some (Err last_err)
  | ep :: rest =>
      r ← fetch_deltas fuel ep chunk from_block to_block;
      match r with
      | Ok ds => Some (Ok ds)
      | Err e => fetch_deltas_failover fuel rest chunk from_block to_block e
      end
  end.

End Fetch.

(** ** The node's validator set *)

Inductive SyncMode := Shadow | ChainAuthoritative.

(** [ValidatorSetSyncStatus] without the time of the last poll and the mode. *)
Record SyncStatus := {
  ss_enabled : bool;
  ss_state : string;
  ss_last_finalized : option N;
  ss_cursor : option (N * N);
  ss_cursor_hash : option string;
  ss_last_error : bool;
}.

(** The part of [NodeState] that the worker reads and writes; [sn_cursor_file] is the
    decoded file [validator-set-sync.cursor.json]. *)
Record SyncNode := {
  sn_node_id : string;
  sn_set : CommonValidatorSet;
  sn_bootstrap : CommonValidatorSet;
  sn_registrations : gmap string Registration;
  sn_tip_height : N;
  sn_history : list History.Snapshot;
  sn_cursor_file : option WorkerState;
  sn_status : SyncStatus;
}.

Definition set_status (n : SyncNode) (st : SyncStatus) : SyncNode :=
  {| sn_node_id := sn_node_id n; sn_set := sn_set n; sn_bootstrap := sn_bootstrap n;
     sn_registrations := sn_registrations n; sn_tip_height := sn_tip_height n;
     sn_history := sn_history n; sn_cursor_file := sn_cursor_file n; sn_status := st |}.

Definition set_cursor_file (n : SyncNode) (w : WorkerState) : SyncNode :=
  {| sn_node_id := sn_node_id n; sn_set := sn_set n; sn_bootstrap := sn_bootstrap n;
     sn_registrations := sn_registrations n; sn_tip_height := sn_tip_height n;
     sn_history := sn_history n; sn_cursor_file := Some w; sn_status := sn_status n |}.

Definition normalized_validator_key (evm : string) : string := to_ascii_lowercase (trim evm).

Definition validator_registration_status_text (r : Registration) : string :=
  if rg_active r then "active"
  else if rg_admitted_to_consensus r then "admitted-to-consensus"
  else if rg_governance_approved r then "governance-approved"
  else if rg_applied_on_chain r then "applied-on-chain"
  else if rg_registered_with_node r then "identity-registered"
  else "unregistered".

Definition active_status_for (node_id validator_id : string) : string :=
  if String.eqb validator_id node_id then "self" else "online".

Definition validator_from_registration (r : Registration) (fallback_stake : N) (nid : string)
    : option Validator :=
  let identity := normalized (rg_identity r) in
  if negb (is_complete identity) then None
  else Some {| val_id := node_id identity;
               val_alias := if is_empty (trim (rg_alias r)) then node_id identity else trim (rg_alias r);
               val_pubkey := ed25519_pubkey identity; val_eth_address := evm_address identity;
               val_stake := N.max (rg_stake r) fallback_stake;
               val_reputation := N.max (rg_reputation r) 100;
               val_status := active_status_for nid (node_id identity) |}.

(** The seed of the observed set: the bootstrap validators that are not pending, jailed
    or offline. *)
Definition seed_address (v : Validator) : option string :=
  let addr := normalized_validator_key (val_eth_address v) in
  if is_empty addr then None
  else if bool_decide (to_ascii_lowercase (trim (val_status v)) ∈ ["pending"; "jailed"; "offline"]) then None
  else Some addr.

Definition seed_worker_state_from_bootstrap (n : SyncNode) : WorkerState :=
  {| cursor := None; cursor_block_hash := None;
     observed_active := list_to_set (omap seed_address (validators (sn_bootstrap n))) |}.

(** [collect] into a map: the last validator of an address stays. *)
Definition by_addr (vs : CommonValidatorSet) : gmap string Validator :=
  foldl (λ m v, let addr := normalized_validator_key (val_eth_address v) in
                if is_empty addr then m else <[addr := v]> m) ∅ (validators vs).

(** The fields taken from a complete registration. *)
Definition update_from_registration (n : SyncNode) (addr : string) (existing : Validator) : Validator :=
  match sn_registrations n !! addr ≫= λ r, validator_from_registration r (val_stake existing) (sn_node_id n) with
  | Some r =>
      {| val_id := val_id r; val_alias := val_alias r; val_pubkey := val_pubkey r;
         val_eth_address := val_eth_address existing;
         val_stake := N.max (val_stake existing) (val_stake r);
         val_reputation := N.max (val_reputation existing) (val_reputation r);
         val_status := val_status existing |}
  | None => existing
  end.

(** The validator of an active address: from the current set, from the bootstrap set or
    from the registration. *)
Definition known_validator (n : SyncNode) (addr : string) : option Validator :=
  match by_addr (sn_set n) !! addr with
  | Some v => Some v
  | None =>
      match by_addr (sn_bootstrap n) !! addr with
      | Some v => Some v
      | None => sn_registrations n !! addr ≫= λ r, validator_from_registration r 0 (sn_node_id n)
      end
  end.

Definition next_validator (n : SyncNode) (addr : string) : option Validator :=
  v ← known_validator n addr;
  let v := update_from_registration n addr v in
  Some {| val_id := val_id v;
          val_alias := if is_empty (trim (val_alias v)) then val_id v else val_alias v;
          val_pubkey := val_pubkey v; val_eth_address := addr; val_stake := val_stake v;
          val_reputation := val_reputation v;
          val_status := active_status_for (sn_node_id n) (val_id v) |}.

Definition next_set (n : SyncNode) (active : gset string) : CommonValidatorSet :=
  {| validators := omap (next_validator n) (sort_strings (elements active)) |}.

Definition mark_registration (active : gset string) (r : Registration) : Registration :=
  let key := normalized_validator_key (evm_address (rg_identity r)) in
  let a := negb (is_empty key) && bool_decide (key ∈ active) in
  let r' := {| rg_alias := rg_alias r; rg_identity := rg_identity r;
               rg_registered_with_node := rg_registered_with_node r;
               rg_applied_on_chain := rg_applied_on_chain r;
               rg_governance_approved := rg_governance_approved r;
               rg_admitted_to_consensus := a; rg_active := a; rg_staking_state := rg_staking_state r;
               rg_status := rg_status r; rg_stake := rg_stake r; rg_reputation := rg_reputation r |} in
  {| rg_alias := rg_alias r'; rg_identity := rg_identity r';
     rg_registered_with_node := rg_registered_with_node r'; rg_applied_on_chain := rg_applied_on_chain r';
     rg_governance_approved := rg_governance_approved r';
     rg_admitted_to_consensus := rg_admitted_to_consensus r'; rg_active := rg_active r';
     rg_staking_state := rg_staking_state r'; rg_status := validator_registration_status_text r';
     rg_stake := rg_stake r'; rg_reputation := rg_reputation r' |}.

Definition reconcile_state_from_worker (n : SyncNode) (w : WorkerState) : SyncNode :=
  let set := next_set n (observed_active w) in
  {| sn_node_id := sn_node_id n; sn_set := set; sn_bootstrap := sn_bootstrap n;
     sn_registrations := mark_registration (observed_active w) <$> sn_registrations n;
     sn_tip_height := sn_tip_height n;
     sn_history := History.record (sn_history n) (sat_add (sn_tip_height n) 1) set;
     sn_cursor_file := sn_cursor_file n; sn_status := sn_status n |}.

Definition reconcile_after_identity_registration (n : SyncNode) : SyncNode :=
  if ss_enabled (sn_status n) then
    match sn_cursor_file n with
    | Some w => reconcile_state_from_worker n w
    | None => n
    end
  else n.

Section Worker.
Context `{!Crypto, !Ethereum, !SolEvents}.

(** [rebuild_worker_state]: [None] is an error, or a scan that does not end. *)
Definition rebuild_worker_state (fuel : nat) (cfg : SyncConfig) (rpc : L1Rpc) (n : SyncNode)
    (safe_block : N) : option WorkerState :=
  let endpoints := rpc_endpoints cfg in
  let seed := seed_worker_state_from_bootstrap n in
  w ← match sc_start_block cfg with
      | Some start =>
          h ← fetch_block_hash_failover rpc endpoints start;
          Some {| cursor := Some (start, u32_max); cursor_block_hash := Some h;
                  observed_active := observed_active seed |}
      | None => Some seed
      end;
  let from_block := match cursor w with
                    | Some (height, _) => sat_add height 1
                    | None => (safe_block - 1000)%N
                    end in
  w ← (if (from_block <=? safe_block)%N then
         r ← fetch_deltas_failover rpc fuel endpoints (sc_log_chunk cfg) from_block safe_block "";
         match r with
         | Ok ds => Some (advance (foldl apply_delta w (sort_deltas ds)) safe_block)
         | Err _ => None
         end
       else Some w);
  match cursor w with
  | Some (height, _) =>
      h ← fetch_block_hash_failover rpc endpoints height;
      Some (set_cursor_hash w (Some h))
  | None => Some w
  end.

Definition save_cursor (rpc : L1Rpc) (n : SyncNode) (w : WorkerState) : option SyncNode :=
  if disk_ok rpc then Some (set_cursor_file n w) else None.

Definition reconcile_if (mode : SyncMode) (n : SyncNode) (w : WorkerState) : SyncNode :=
  match mode with
  | ChainAuthoritative => reconcile_state_from_worker n w
  | Shadow => n
  end.

(** The bootstrap validators are merged into the observed set at every start. *)
Definition merge_bootstrap (n : SyncNode) (w : WorkerState) : WorkerState :=
  {| cursor := cursor w; cursor_block_hash := cursor_block_hash w;
     observed_active := observed_active w ∪ observed_active (seed_worker_state_from_bootstrap n) |}.

(** [run] up to the loop; [None] ends the worker. *)
Definition sync_start (fuel : nat) (cfg : SyncConfig) (mode : SyncMode) (rpc : L1Rpc) (n : SyncNode)
    : option (WorkerState * SyncNode) :=
  w ← match sn_cursor_file n with
      | Some saved => Some saved
      | None => rebuild_worker_state fuel cfg rpc n (default 0%N (sc_start_block cfg))
      end;
  let w := merge_bootstrap n w in
  w ← match cursor w, sc_start_block cfg with
      | None, Some start =>
          h ← fetch_block_hash_failover rpc (rpc_endpoints cfg) start;
          Some {| cursor := Some (start, u32_max); cursor_block_hash := Some h;
                  observed_active := observed_active w |}
      | _, _ => Some w
      end;
  let n := reconcile_if mode n w in
  n ← save_cursor rpc n w;
  Some (w, n).

(** The outcome of one round of the loop. *)
Inductive Poll :=
| Continue (w : WorkerState) (n : SyncNode)
| Stopped (w : WorkerState) (n : SyncNode).      (* [?]: the worker ends *)

Definition status_with (n : SyncNode) (state : string) (w : WorkerState) (err : bool) : SyncNode :=
  let st := sn_status n in
  set_status n {| ss_enabled := ss_enabled st; ss_state := state;
    ss_last_finalized := ss_last_finalized st; ss_cursor := cursor w;
    ss_cursor_hash := cursor_block_hash w; ss_last_error := err |}.

(** The check of the cursor block: a majority that disagrees with the saved hash rebuilds
    the state. *)
Definition reorg_check (fuel : nat) (cfg : SyncConfig) (mode : SyncMode) (rpc : L1Rpc)
    (w : WorkerState) (n : SyncNode) (safe_block : N) : Poll :=
  match cursor w with
  | None => Continue w n
  | Some (cursor_block, _) =>
      match fetch_block_hash_quorum rpc (rpc_endpoints cfg) cursor_block with
      | Agreed current_hash =>
          if cursor_reorged w current_hash then
            let n := set_status n (let st := sn_status n in
              {| ss_enabled := ss_enabled st; ss_state := "reorg-replaying";
                 ss_last_finalized := ss_last_finalized st; ss_cursor := ss_cursor st;
                 ss_cursor_hash := ss_cursor_hash st; ss_last_error := false |}) in
            match rebuild_worker_state fuel cfg rpc n safe_block with
            | None => Stopped w n
            | Some w' =>
                let n := reconcile_if mode n w' in
                match save_cursor rpc n w' with
                | Some n => Continue w' n
                | None => Stopped w' n
                end
            end
          else
            match cursor_block_hash w with
            | None =>
                let w' := set_cursor_hash w (Some current_hash) in
                match save_cursor rpc n w' with
                | Some n => Continue w' n
                | None => Stopped w' n
                end
            | Some _ => Continue w n
            end
      | NoMajority | Unavailable => Continue w n
      end
  end.

(** The deltas of a scan, each followed by a reconciliation in authoritative mode. *)
Fixpoint apply_deltas (mode : SyncMode) (w : WorkerState) (n : SyncNode) (ds : list ValidatorSetDelta)
    : WorkerState * SyncNode :=
  match ds with
  | [] => (w, n)
  | d :: ds' =>
      let w := apply_delta w d in
      apply_deltas mode w (reconcile_if mode n w) ds'
  end.

Definition scan (fuel : nat) (cfg : SyncConfig) (mode : SyncMode) (rpc : L1Rpc)
    (w : WorkerState) (n : SyncNode) (safe_block : N) : Poll :=
  let endpoints := rpc_endpoints cfg in
  let from_block := match cursor w with
                    | Some (h, _) => (h + 1) mod u64_size
                    | None => match sc_start_block cfg with
                              | Some height => sat_add height 1
                              | None => safe_block - 1000
                              end
                    end%N in
  if (safe_block <? from_block)%N then Continue w (status_with n "synced" w false)
  else
    match fetch_deltas_failover rpc fuel endpoints (sc_log_chunk cfg) from_block safe_block "" with
    | None => Stopped w n                                   (* the scan does not end *)
    | Some (Err _) => Continue w (status_with n "degraded" w true)
    | Some (Ok ds) =>
        let '(w, n) := apply_deltas mode w n (sort_deltas ds) in
        let w := advance w safe_block in
        match cursor w with
        | None => Stopped w n
        | Some (height, _) =>
            match fetch_block_hash_failover rpc endpoints height with
            | None => Stopped w n
            | Some h =>
                let w := set_cursor_hash w (Some h) in
                let n := default n (save_cursor rpc n w) in
                Continue w (status_with n "synced" w false)
            end
        end
    end.

Definition sync_poll (fuel : nat) (cfg : SyncConfig) (mode : SyncMode) (rpc : L1Rpc)
    (w : WorkerState) (n : SyncNode) : Poll :=
  let st := sn_status n in
  let state := if String.eqb (ss_state st) "reorg-replaying" then ss_state st else "syncing" in
  let n := set_status n {| ss_enabled := true; ss_state := state;
             ss_last_finalized := ss_last_finalized st; ss_cursor := ss_cursor st;
             ss_cursor_hash := ss_cursor_hash st; ss_last_error := ss_last_error st |} in
  match fetch_latest_block_quorum rpc (rpc_endpoints cfg) with
  | None =>
      let st := sn_status n in
      Continue w (set_status n {| ss_enabled := ss_enabled st; ss_state := "degraded";
        ss_last_finalized := ss_last_finalized st; ss_cursor := ss_cursor st;
        ss_cursor_hash := ss_cursor_hash st; ss_last_error := true |})
  | Some latest_block =>
      let safe_block := (latest_block - sc_finality_lag_blocks cfg)%N in
      let st := sn_status n in
      let n := set_status n {| ss_enabled := ss_enabled st; ss_state := ss_state st;
        ss_last_finalized := Some safe_block; ss_cursor := ss_cursor st;
        ss_cursor_hash := ss_cursor_hash st; ss_last_error := ss_last_error st |} in
      match reorg_check fuel cfg mode rpc w n safe_block with
      | Stopped w n => Stopped w n
      | Continue w n => scan fuel cfg mode rpc w n safe_block
      end
  end.

End Worker.

(** ** The order of the events *)

Lemma pos_le_refl (a : N * N) : pos_le a a = true.
Proof. unfold pos_le. by rewrite N.eqb_refl, N.leb_refl, orb_true_r. Qed.

Lemma pos_le_spec (a b : N * N) :
  pos_le a b = true ↔ (a.1 < b.1 ∨ a.1 = b.1 ∧ a.2 ≤ b.2)%N.
Proof.
  unfold pos_le. rewrite orb_true_iff, andb_true_iff, N.ltb_lt, N.eqb_eq, N.leb_le. done.
Qed.

Lemma pos_le_total (a b : N * N) : pos_le a b = true ∨ pos_le b a = true.
Proof. rewrite !pos_le_spec. lia. Qed.

Lemma pos_le_trans (a b c : N * N) : pos_le a b = true → pos_le b c = true → pos_le a c = true.
Proof. rewrite !pos_le_spec. lia. Qed.

(** Strictly before. *)
Definition pos_lt (a b : N * N) : Prop := pos_le b a = false.

Lemma pos_lt_spec (a b : N * N) : pos_lt a b ↔ (a.1 < b.1 ∨ a.1 = b.1 ∧ a.2 < b.2)%N.
Proof.
  unfold pos_lt. rewrite <- not_true_iff_false, pos_le_spec. lia.
Qed.

(** The log of the contract: strictly ordered positions. *)
Definition ordered (ds : list ValidatorSetDelta) : Prop :=
  StronglySorted (λ a b, pos_lt (d_pos a) (d_pos b)) ds.

Lemma ordered_app (a b : list ValidatorSetDelta) :
  ordered (a ++ b) ↔ ordered a ∧ ordered b ∧ ∀ x y, x ∈ a → y ∈ b → pos_lt (d_pos x) (d_pos y).
Proof.
  unfold ordered. induction a as [|d a IH]; simpl.
  { split; [intros Hs; split; [constructor|split; [done|set_solver]]|naive_solver]. }
  split.
  - intros [Hs Hd]%StronglySorted_inv. apply IH in Hs as (Ha & Hb & Hab).
    rewrite Forall_app in Hd. destruct Hd as [Hda Hdb]. rewrite Forall_forall in Hdb.
    split; [by constructor|]. split; [done|]. intros x y [->|Hx]%elem_of_cons Hy; auto.
  - intros ([Ha Hd]%StronglySorted_inv & Hb & Hab). constructor.
    + apply IH. split; [done|]. split; [done|]. intros x y Hx. apply Hab. by right.
    + rewrite Forall_app. split; [done|]. apply Forall_forall. intros y Hy. apply Hab; [by left|done].
Qed.

(** An ordered list is its own sorting. *)
Lemma delta_le_total a b : delta_le a b = true ∨ delta_le b a = true.
Proof. apply pos_le_total. Qed.
Lemma delta_le_trans a b c : delta_le a b = true → delta_le b c = true → delta_le a c = true.
Proof. apply pos_le_trans. Qed.

Lemma ordered_pos_inj ds a b : ordered ds → a ∈ ds → b ∈ ds → d_pos a = d_pos b → a = b.
Proof.
  intros Ho. induction Ho as [|d ds Ho IH Hd]; [set_solver|]. rewrite Forall_forall in Hd.
  intros [->|Ha]%elem_of_cons [->|Hb]%elem_of_cons Hp; auto.
  - specialize (Hd b Hb). rewrite pos_lt_spec, Hp in Hd. lia.
  - specialize (Hd a Ha). rewrite pos_lt_spec, Hp in Hd. lia.
Qed.

Lemma pos_antisym (a b : N * N) : pos_le a b = true → pos_le b a = true → a = b.
Proof. destruct a, b. rewrite !pos_le_spec. simpl. intros. f_equal; lia. Qed.

Lemma sorted_ordered (l ds : list ValidatorSetDelta) :
  StronglySorted (leR delta_le) l → l ≡ₚ ds → ordered ds → l = ds.
Proof.
  revert ds. induction l as [|x l IH]; intros ds Hs Hp Ho.
  { by apply Permutation_nil in Hp. }
  destruct ds as [|d ds]; [by symmetry in Hp; apply Permutation_nil in Hp|].
  apply StronglySorted_inv in Hs as [Hs Hx]. apply StronglySorted_inv in Ho as Ho'.
  destruct Ho' as [Ho' Hd]. rewrite Forall_forall in Hx, Hd.
  assert (x = d) as ->.
  { apply (ordered_pos_inj (d :: ds)); [done|rewrite <- Hp; by left|by left|].
    assert (d ∈ x :: l) as [->|Hin]%elem_of_cons by (rewrite Hp; by left); [done|].
    assert (x ∈ d :: ds) as [->|Hin']%elem_of_cons by (rewrite <- Hp; by left); [done|].
    apply pos_antisym; [apply Hx, Hin|]. specialize (Hd x Hin'). unfold pos_lt in Hd.
    destruct (pos_le_total (d_pos d) (d_pos x)); [done|congruence]. }
  f_equal. apply IH; [done| |done]. by apply Permutation_cons_inv in Hp.
Qed.

Lemma sort_ordered (ds : list ValidatorSetDelta) : ordered ds → sort_deltas ds = ds.
Proof.
  intros Ho. apply sorted_ordered; [|apply sort_by_Permutation|done].
  apply sort_by_sorted; [apply delta_le_total|apply delta_le_trans].
Qed.

(** ** Folding events *)

Definition observed_after (ds : list ValidatorSetDelta) (active : gset string) : gset string :=
  foldl (λ A d, observe d A) active ds.

(** Events after the cursor, in order, are all applied. *)
Lemma apply_ordered (w : WorkerState) ds :
  ordered ds → (∀ d c, d ∈ ds → cursor w = Some c → pos_lt c (d_pos d)) →
  let w' := foldl apply_delta w ds in
  observed_active w' = observed_after ds (observed_active w) ∧
  cursor_block_hash w' = cursor_block_hash w ∧
  cursor w' = match last ds with Some d => Some (d_pos d) | None => cursor w end.
Proof.
  revert w. induction ds as [|d ds IH]; intros w Ho Hc; [done|].
  apply StronglySorted_inv in Ho as [Ho Hd]. rewrite Forall_forall in Hd.
  assert (apply_delta w d = {| cursor := Some (d_pos d); cursor_block_hash := cursor_block_hash w;
            observed_active := observe d (observed_active w) |}) as He.
  { unfold apply_delta. destruct (cursor w) as [c|] eqn:Hw; [|done].
    specialize (Hc d c ltac:(by left) eq_refl). unfold pos_lt in Hc. by rewrite Hc. }
  cbn [foldl]. rewrite He.
  destruct (IH {| cursor := Some (d_pos d); cursor_block_hash := cursor_block_hash w;
            observed_active := observe d (observed_active w) |}) as (H1 & H2 & H3).
  - done.
  - simpl. intros e c Hin [= <-]. by apply Hd.
  - rewrite H1, H2, H3. split; [done|]. split; [done|]. simpl. destruct ds as [|e ds]; [done|].
    rewrite last_cons_cons. by destruct (last (e :: ds)) eqn:Hl; [|apply last_None in Hl].
Qed.

(** Deltas are idempotent: what has been applied once changes nothing. *)
Lemma apply_seen (w : WorkerState) ds :
  (∀ d, d ∈ ds → ∃ c, cursor w = Some c ∧ pos_le (d_pos d) c = true) → foldl apply_delta w ds = w.
Proof.
  induction ds as [|d ds IH]; [done|]. intros Hs. simpl.
  assert (apply_delta w d = w) as ->.
  { destruct (Hs d ltac:(by left)) as (c & Hc & Hle). unfold apply_delta. by rewrite Hc, Hle. }
  apply IH. set_solver.
Qed.

(** ** The scan of a range *)
Section Scan.
Context `{!Crypto, !Ethereum, !SolEvents}.

(** The fuel that a scan of a range needs. *)
Definition scan_fuel (chunk from_block to_block : N) : nat :=
  S (N.to_nat ((to_block + 1 - from_block + (chunk - 1)) / chunk)).

Lemma fuel_step (chunk start to_block : N) :
  (0 < chunk)%N → (start <= to_block)%N →
  let next := (N.min (start + (chunk - 1)) to_block + 1)%N in
  ((to_block + 1 - next + (chunk - 1)) / chunk < (to_block + 1 - start + (chunk - 1)) / chunk)%N.
Proof.
  intros Hc Hs. simpl.
  pose (n := (to_block + 1 - start)%N). fold n.
  assert (Hd : ((n + (chunk - 1)) = (n - 1) + 1 * chunk)%N) by (unfold n; lia).
  destruct (N.le_gt_cases (start + (chunk - 1)) to_block) as [Hle|Hgt].
  - rewrite N.min_l by done.
    assert (Hn : (n + (chunk - 1) = (to_block + 1 - (start + (chunk - 1) + 1) + (chunk - 1)) + 1 * chunk)%N) by (unfold n; lia).
    rewrite Hn, N.div_add by lia. generalize (((to_block + 1 - (start + (chunk - 1) + 1) + (chunk - 1)) / chunk)%N). lia.
  - rewrite N.min_r by lia.
    replace (to_block + 1 - (to_block + 1) + (chunk - 1))%N with (chunk - 1)%N by lia.
    rewrite N.div_small by lia. rewrite Hd, N.div_add by lia. generalize ((n - 1) / chunk)%N. lia.
Qed.

Lemma fuel_next (chunk start to_block : N) :
  (0 < chunk)%N → (start <= to_block)%N →
  scan_fuel chunk (N.min (start + (chunk - 1)) to_block + 1) to_block < scan_fuel chunk start to_block.
Proof.
  intros Hc Hs. pose proof (fuel_step chunk start to_block Hc Hs) as Hlt. simpl in Hlt.
  unfold scan_fuel. revert Hlt. generalize ((to_block + 1 - start + (chunk - 1)) / chunk)%N as a.
  generalize ((to_block + 1 - (N.min (start + (chunk - 1)) to_block + 1) + (chunk - 1)) / chunk)%N as b. lia.
Qed.

Lemma fuel_pos (chunk start to_block : N) : 0 < scan_fuel chunk start to_block.
Proof. apply Nat.lt_0_succ. Qed.

(** Below the largest block number the loop ends, whatever the endpoint answers. *)
Lemma scan_chunks_terminates rpc url chunk start to_block acc fuel :
  (0 < chunk)%N → (to_block < u64_max)%N → scan_fuel chunk start to_block ≤ fuel →
  is_Some (scan_chunks rpc fuel url chunk start to_block acc).
Proof.
  intros Hc Ht. revert start acc. induction fuel as [|fuel IH]; intros start acc Hf.
  { pose proof (fuel_pos chunk start to_block). lia. }
  cbn [scan_chunks]. destruct (N.leb_spec start to_block) as [Hs|]; [|by eexists].
  destruct (fetch_deltas_chunk _ _ _ _) as [ds|e]; [|by eexists].
  apply IH. unfold sat_add.
  replace (N.min u64_max (N.min (N.min u64_max (start + (chunk - 1))) to_block + 1))
    with (N.min (start + (chunk - 1)) to_block + 1)%N by lia.
  pose proof (fuel_next chunk start to_block Hc Hs). lia.
Qed.

(** With the largest block number as the end, the loop condition always holds. *)
Lemma scan_chunks_diverges rpc url chunk start acc fuel :
  (∀ f t, is_ok (fetch_deltas_chunk rpc url f t) = true) → (start ≤ u64_max)%N →
  scan_chunks rpc fuel url chunk start u64_max acc = None.
Proof.
  intros Hok. revert start acc. induction fuel as [|fuel IH]; intros start acc Hle; [done|].
  cbn [scan_chunks]. rewrite (proj2 (N.leb_le _ _) Hle). cbv zeta.
  set (e := N.min _ _). pose proof (Hok start e) as Hs'.
  destruct (fetch_deltas_chunk rpc url start e) as [ds|]; [|done].
  apply IH. unfold sat_add. lia.
Qed.

(** *** Honest endpoints *)

Definition in_range (from_block to_block : N) (d : ValidatorSetDelta) : bool :=
  (from_block <=? d_block_height d)%N && (d_block_height d <=? to_block)%N.

Lemma in_range_spec f t d : in_range f t d = true ↔ (f ≤ d_block_height d ∧ d_block_height d ≤ t)%N.
Proof. unfold in_range. by rewrite andb_true_iff, !N.leb_le. Qed.

Definition range (log : list ValidatorSetDelta) (from_block to_block : N) : list ValidatorSetDelta :=
  filter (λ d, in_range from_block to_block d = true) log.

(** The endpoint serves the log up to the block [limit]. *)
Definition serves (rpc : L1Rpc) (log : list ValidatorSetDelta) (limit : N) (url : string) : Prop :=
  ∀ f t, (t ≤ limit)%N → ∃ raw, logs_of rpc url f t 0 = Ok raw ∧ decode_logs rpc raw = range log f t.

Lemma ordered_filter (P : ValidatorSetDelta → Prop) `{∀ d, Decision (P d)} ds :
  ordered ds → ordered (filter P ds).
Proof.
  unfold ordered. induction 1 as [|d ds Ho IH Hd]; [constructor|].
  rewrite filter_cons. case_decide; [|done]. constructor; [done|].
  rewrite Forall_forall in Hd |- *. intros x [_ Hx]%list_elem_of_filter. by apply Hd.
Qed.

(** Adjacent ranges of an ordered log are concatenated. *)
Lemma range_split log f m t :
  ordered log → (f ≤ m + 1)%N → (m ≤ t)%N → range log f m ++ range log (m + 1) t = range log f t.
Proof.
  intros Ho Hf Ht. unfold range. induction Ho as [|d ds Ho IH Hd]; [done|].
  rewrite !filter_cons. rewrite Forall_forall in Hd.
  repeat case_decide; repeat match goal with Hr : in_range _ _ _ = true |- _ => apply in_range_spec in Hr end;
    repeat match goal with Hr : ¬ in_range _ _ _ = true |- _ => rewrite in_range_spec in Hr end;
    try lia; rewrite <- IH; try done.
  assert (filter (λ d, in_range f m d = true) ds = []) as ->; [|done].
  apply elem_of_nil_inv. intros x [Hx%in_range_spec Hin]%list_elem_of_filter.
  specialize (Hd x Hin). apply pos_lt_spec in Hd. simpl in Hd. lia.
Qed.

Lemma serves_chunk rpc log limit url f t :
  serves rpc log limit url → (t ≤ limit)%N → fetch_deltas_chunk rpc url f t = Ok (range log f t).
Proof.
  intros Hs Ht. destruct (Hs f t Ht) as (raw & Hr & Hd). unfold fetch_deltas_chunk.
  cbn [fetch_attempts]. by rewrite Hr, Hd.
Qed.

Lemma scan_chunks_range rpc log url chunk start to_block acc fuel :
  serves rpc log to_block url → ordered log → (0 < chunk)%N → (to_block < u64_max)%N → (start ≤ to_block + 1)%N →
  scan_fuel chunk start to_block ≤ fuel →
  scan_chunks rpc fuel url chunk start to_block acc = Some (Ok (acc ++ range log start to_block)).
Proof.
  intros Hsv Ho Hc Ht. revert start acc. induction fuel as [|fuel IH]; intros start acc Hst Hf.
  { pose proof (fuel_pos chunk start to_block). lia. }
  cbn [scan_chunks]. destruct (N.leb_spec start to_block) as [Hs|Hs].
  - rewrite (serves_chunk _ log to_block) by (done || lia). unfold sat_add.
    replace (N.min u64_max (N.min (N.min u64_max (start + (chunk - 1))) to_block + 1))
      with (N.min (start + (chunk - 1)) to_block + 1)%N by lia.
    replace (N.min (N.min u64_max (start + (chunk - 1))) to_block)
      with (N.min (start + (chunk - 1)) to_block) by lia.
    pose proof (fuel_next chunk start to_block Hc Hs).
    rewrite IH by lia. rewrite <- app_assoc, range_split; [done..|lia|lia].
  - assert (range log start to_block = []) as ->; [|by rewrite app_nil_r].
    apply elem_of_nil_inv. intros x [Hx%in_range_spec _]%list_elem_of_filter. lia.
Qed.

Lemma failover_range rpc log ep rest chunk from_block to_block fuel e :
  serves rpc log to_block ep → ordered log → (0 < chunk)%N → (to_block < u64_max)%N →
  scan_fuel chunk from_block to_block ≤ fuel →
  fetch_deltas_failover rpc fuel (ep :: rest) chunk from_block to_block e =
    Some (Ok (range log from_block to_block)).
Proof.
  intros Hsv Ho Hc Ht Hf. cbn [fetch_deltas_failover]. unfold fetch_deltas.
  destruct (N.ltb_spec to_block from_block) as [Hlt|Hge].
  - cbn. assert (range log from_block to_block = []) as ->; [|done].
    apply elem_of_nil_inv. intros x [Hx%in_range_spec _]%list_elem_of_filter. lia.
  - rewrite (scan_chunks_range _ log) by (done || lia). cbn.
    rewrite sort_ordered; [done|]. by apply ordered_filter.
Qed.

Lemma rpc_endpoints_head cfg : ∃ rest, rpc_endpoints cfg = sc_eth_rpc_url cfg :: rest.
Proof.
  unfold rpc_endpoints. generalize (sc_eth_rpc_url cfg) as u. intros u.
  assert (∀ l acc, ∃ rest, foldl (λ endpoints url, let url := trim url in
    if negb (is_empty url) && negb (bool_decide (url ∈ endpoints)) then endpoints ++ [url] else endpoints)
    (u :: acc) l = u :: rest) as Hg; [|apply Hg].
  induction l as [|x l IH]; intros acc; simpl; [eauto|]. case_match; [|apply IH]. apply IH.
Qed.
End Scan.

(** ** The worker follows the chain *)
Section Follow.
Context `{!Crypto, !Ethereum, !SolEvents}.
Variable cfg : SyncConfig.
Variable log : list ValidatorSetDelta.
Variable chain_hash : N → string.

(** The state after the events of the blocks from [start + 1] to [h] on [seed]. *)
Definition follows (seed : gset string) (start h : N) (w : WorkerState) : Prop :=
  (∃ i, cursor w = Some (h, i)) ∧ (start ≤ h)%N ∧ (h < u64_max)%N ∧
  cursor_block_hash w = Some (chain_hash h) ∧
  observed_active w = observed_after (range log (start + 1) h) seed.

(** Up to the safe block the first endpoint serves the log and the hashes of the chain,
    and no majority agrees on another hash. *)
Definition honest_rpc (rpc : L1Rpc) : Prop :=
  (∀ latest, fetch_latest_block_quorum rpc (rpc_endpoints cfg) = Some latest →
     (latest < u64_max)%N ∧
     serves rpc log (latest - sc_finality_lag_blocks cfg) (sc_eth_rpc_url cfg) ∧
     ∀ n, (n ≤ latest - sc_finality_lag_blocks cfg)%N →
       block_hash_of rpc (sc_eth_rpc_url cfg) n = Some (chain_hash n)) ∧
  (∀ n h, fetch_block_hash_quorum rpc (rpc_endpoints cfg) n = Agreed h →
     eq_ignore_ascii_case (chain_hash n) h = true).

Lemma apply_deltas_worker mode w n ds : (apply_deltas mode w n ds).1 = foldl apply_delta w ds.
Proof. revert w n. induction ds as [|d ds IH]; intros w n; [done|]. apply IH. Qed.

Lemma failover_hash rpc n :
  block_hash_of rpc (sc_eth_rpc_url cfg) n = Some (chain_hash n) →
  fetch_block_hash_failover rpc (rpc_endpoints cfg) n = Some (chain_hash n).
Proof.
  intros Hh. destruct (rpc_endpoints_head cfg) as [rest ->].
  cbn [fetch_block_hash_failover]. by rewrite Hh.
Qed.

Lemma failover_log rpc f t fuel e :
  serves rpc log t (sc_eth_rpc_url cfg) → ordered log → (0 < sc_log_chunk cfg)%N → (t < u64_max)%N →
  scan_fuel (sc_log_chunk cfg) f t ≤ fuel →
  fetch_deltas_failover rpc fuel (rpc_endpoints cfg) (sc_log_chunk cfg) f t e = Some (Ok (range log f t)).
Proof. intros Hs Ho Hc Ht Hf. destruct (rpc_endpoints_head cfg) as [rest ->]. by apply failover_range. Qed.

Lemma scan_fuel_mono (chunk f t : N) : (0 < chunk)%N → scan_fuel chunk f t ≤ scan_fuel chunk 0 t.
Proof.
  intros Hc. unfold scan_fuel.
  pose proof (N.Div0.div_le_mono (t + 1 - f + (chunk - 1)) (t + 1 - 0 + (chunk - 1)) chunk ltac:(lia)) as Hd.
  revert Hd. generalize ((t + 1 - f + (chunk - 1)) / chunk)%N as a.
  generalize ((t + 1 - 0 + (chunk - 1)) / chunk)%N as b. lia.
Qed.

(** The blocks after the cursor, applied in one go. *)
Lemma apply_range seed start h w safe :
  ordered log → follows seed start h w → (h < safe)%N →
  let w' := advance (foldl apply_delta w (range log (h + 1) safe)) safe in
  (∃ i, cursor w' = Some (safe, i)) ∧
  observed_active w' = observed_after (range log (start + 1) safe) seed.
Proof.
  intros Ho ([i Hc] & Hs & _ & _ & Hobs) Hlt.
  destruct (apply_ordered w (range log (h + 1) safe)) as (Ha & _ & Hcur).
  { by apply ordered_filter. }
  { intros d c [Hd%in_range_spec _]%list_elem_of_filter Hw. rewrite Hc in Hw. injection Hw as <-.
    apply pos_lt_spec. simpl. lia. }
  assert (observed_active (foldl apply_delta w (range log (h + 1) safe))
          = observed_after (range log (start + 1) safe) seed) as Hob.
  { rewrite Ha, Hobs. unfold observed_after. rewrite <- foldl_app, range_split by (done || lia). done. }
  cbv zeta. unfold advance. rewrite Hcur.
  destruct (last (range log (h + 1) safe)) as [d|] eqn:Hl.
  - apply last_Some_elem_of, list_elem_of_filter in Hl as [Hd%in_range_spec _].
    unfold d_pos. destruct (N.ltb_spec (d_block_height d) safe); [by split; [eexists|exact Hob]|].
    assert (safe = d_block_height d) as -> by lia. by split; [eexists; rewrite Hcur|exact Hob].
  - rewrite Hc. rewrite (proj2 (N.ltb_lt _ _) Hlt). by split; [eexists|exact Hob].
Qed.

Lemma no_reorg fuel mode rpc seed start h w n safe :
  honest_rpc rpc → follows seed start h w → reorg_check fuel cfg mode rpc w n safe = Continue w n.
Proof.
  intros (_ & Hq) ([i Hc] & _ & _ & Hh & _). unfold reorg_check. rewrite Hc.
  destruct (fetch_block_hash_quorum rpc (rpc_endpoints cfg) h) as [x| |] eqn:Hx; try done.
  unfold cursor_reorged. rewrite Hh, (Hq _ _ Hx). done.
Qed.

Lemma scan_follows fuel mode rpc seed start h w n safe :
  serves rpc log safe (sc_eth_rpc_url cfg) →
  block_hash_of rpc (sc_eth_rpc_url cfg) safe = Some (chain_hash safe) →
  ordered log → (0 < sc_log_chunk cfg)%N → (safe < u64_max)%N →
  scan_fuel (sc_log_chunk cfg) 0 safe ≤ fuel → follows seed start h w →
  ∃ w' n', scan fuel cfg mode rpc w n safe = Continue w' n' ∧ follows seed start (N.max h safe) w'.
Proof.
  intros Hr Hsh Ho Hc Hsafe Hf Hw. pose proof Hw as ([i Hcur] & Hs & Hh & Hhash & Hobs).
  unfold scan. rewrite Hcur.
  rewrite N.mod_small by (unfold u64_max, u64_size in *; lia).
  destruct (N.ltb_spec safe (h + 1)) as [Hlt|Hge].
  { replace (N.max h safe) with h by lia. eauto. }
  rewrite (failover_log rpc) by (done || (etrans; [by apply scan_fuel_mono|done])).
  rewrite sort_ordered by (by apply ordered_filter).
  destruct (apply_deltas mode w n (range log (h + 1) safe)) as [w1 n1] eqn:Hap.
  pose proof (apply_deltas_worker mode w n (range log (h + 1) safe)) as Hw1. rewrite Hap in Hw1.
  simpl in Hw1. subst w1.
  destruct (apply_range seed start h w safe Ho Hw ltac:(lia)) as ([j Hj] & Hobs').
  rewrite Hj. rewrite failover_hash by done. eexists _, _. split; [done|].
  replace (N.max h safe) with safe by lia. split; [by eexists|]. split; [lia|]. split; [done|].
  split; [done|]. exact Hobs'.
Qed.

Lemma poll_follows fuel mode rpc seed start h w n :
  honest_rpc rpc → ordered log → (0 < sc_log_chunk cfg)%N →
  (∀ latest, fetch_latest_block_quorum rpc (rpc_endpoints cfg) = Some latest →
     scan_fuel (sc_log_chunk cfg) 0 (latest - sc_finality_lag_blocks cfg) ≤ fuel) →
  follows seed start h w →
  ∃ w' n', sync_poll fuel cfg mode rpc w n = Continue w' n' ∧
    follows seed start
      (match fetch_latest_block_quorum rpc (rpc_endpoints cfg) with
       | Some latest => N.max h (latest - sc_finality_lag_blocks cfg)
       | None => h
       end) w'.
Proof.
  intros Hr Ho Hc Hl Hw. unfold sync_poll.
  destruct (fetch_latest_block_quorum rpc (rpc_endpoints cfg)) as [latest|] eqn:Hlat; [|eauto].
  assert (scan_fuel (sc_log_chunk cfg) 0 (latest - sc_finality_lag_blocks cfg) ≤ fuel) as Hf by auto. rewrite (no_reorg _ _ _ seed start h) by done.
  destruct Hr as [Hr _]. destruct (Hr latest Hlat) as (Hlt & Hs & Hh).
  apply scan_follows; [done|by apply Hh|done..|lia|done|done].
Qed.

(** A sequence of polls; [None] when the worker ends. *)
Fixpoint polls (fuel : nat) (mode : SyncMode) (rpcs : list L1Rpc) (w : WorkerState) (n : SyncNode)
    : option (WorkerState * SyncNode) :=
  match rpcs with
  | [] => Some (w, n)
  | rpc :: rest =>
      match sync_poll fuel cfg mode rpc w n with
      | Continue w' n' => polls fuel mode rest w' n'
      | Stopped _ _ => None
      end
  end.

(** The height that the polls reach. *)
Definition reached (rpcs : list L1Rpc) (h : N) : N :=
  foldl (λ h rpc, match fetch_latest_block_quorum rpc (rpc_endpoints cfg) with
                  | Some latest => N.max h (latest - sc_finality_lag_blocks cfg)
                  | None => h
                  end) h rpcs.

Lemma polls_follow_gen fuel mode rpcs seed start h w n :
  Forall honest_rpc rpcs → ordered log → (0 < sc_log_chunk cfg)%N →
  (∀ rpc latest, rpc ∈ rpcs → fetch_latest_block_quorum rpc (rpc_endpoints cfg) = Some latest →
     scan_fuel (sc_log_chunk cfg) 0 (latest - sc_finality_lag_blocks cfg) ≤ fuel) →
  follows seed start h w →
  ∃ w' n', polls fuel mode rpcs w n = Some (w', n') ∧ follows seed start (reached rpcs h) w'.
Proof.
  intros Hr Ho Hc Hl. revert h w n. induction Hr as [|rpc rpcs Hr1 Hr IH]; intros h w n Hw; [simpl; eauto|].
  destruct (poll_follows fuel mode rpc seed start h w n) as (w1 & n1 & Hp & Hw1); try done.
  { intros latest. apply Hl. by left. }
  cbn [polls reached foldl]. rewrite Hp. apply IH; [|done]. intros rpc' latest Hin. apply Hl. by right.
Qed.
End Follow.

(** ** Termination of the scan *)

(** Below the largest block number the scan of an endpoint ends whatever it answers. *)
Theorem fetch_deltas_terminates `{!Crypto, !Ethereum, !SolEvents} (rpc : L1Rpc) (url : string)
    (chunk from_block to_block : N) (fuel : nat) :
  (0 < chunk)%N → (to_block < u64_max)%N → scan_fuel chunk from_block to_block ≤ fuel →
  is_Some (fetch_deltas rpc fuel url chunk from_block to_block).
Proof.
  intros Hc Ht Hf. unfold fetch_deltas. case_match; [by eexists|].
  destruct (scan_chunks_terminates rpc url chunk from_block to_block [] fuel) as [r ->]; [done..|].
  by eexists.
Qed.

(** An endpoint that reports the largest block number and answers every request keeps
    the scan running for ever. *)
Theorem fetch_deltas_diverges `{!Crypto, !Ethereum, !SolEvents} (rpc : L1Rpc) (url : string)
    (chunk from_block : N) (fuel : nat) :
  (∀ f t, is_ok (fetch_deltas_chunk rpc url f t) = true) → (from_block ≤ u64_max)%N →
  fetch_deltas rpc fuel url chunk from_block u64_max = None.
Proof.
  intros Hok Hle. unfold fetch_deltas. rewrite (proj2 (N.ltb_ge _ _)) by done.
  by rewrite scan_chunks_diverges.
Qed.

(** ** The rebuilt set *)

Lemma next_validator_addr n addr v : next_validator n addr = Some v → val_eth_address v = addr.
Proof. unfold next_validator. destruct (known_validator n addr); [|done]. by intros [= <-]. Qed.

Lemma next_validator_known n addr : is_Some (next_validator n addr) ↔ is_Some (known_validator n addr).
Proof.
  unfold next_validator. destruct (known_validator n addr) as [v|]; simpl; [|done].
  by split; intros _; eexists.
Qed.

Lemma next_set_addresses n active :
  val_eth_address <$> validators (next_set n active) =
  filter (λ a, is_Some (known_validator n a)) (sort_strings (elements active)).
Proof.
  unfold next_set. cbn [validators]. induction (sort_strings (elements active)) as [|a l IH]; [done|].
  rewrite filter_cons. cbn [omap list_omap]. destruct (next_validator n a) as [v|] eqn:Hv.
  - rewrite decide_True by (apply next_validator_known; by eexists). cbn [fmap list_fmap].
    f_equal; [by apply (next_validator_addr n)|exact IH].
  - rewrite decide_False; [exact IH|]. intros Hk%next_validator_known. rewrite Hv in Hk. by destruct Hk.
Qed.

(** The rebuilt set has one validator for every observed address whose identity is known,
    in the order of the addresses, and the registrations are flagged accordingly. *)
Theorem reconcile_exact (n : SyncNode) (w : WorkerState) :
  let n' := reconcile_state_from_worker n w in
  val_eth_address <$> validators (sn_set n') =
    filter (λ a, is_Some (known_validator n a)) (sort_strings (elements (observed_active w))) ∧
  NoDup (val_eth_address <$> validators (sn_set n')) ∧
  ∀ key r', sn_registrations n' !! key = Some r' →
    let k := normalized_validator_key (evm_address (rg_identity r')) in
    rg_active r' = (negb (is_empty k) && bool_decide (k ∈ observed_active w)) ∧
    rg_admitted_to_consensus r' = rg_active r' ∧
    (rg_active r' = true → rg_status r' = "active").
Proof.
  intros n'. split; [apply next_set_addresses|]. split.
  - subst n'. cbn [sn_set reconcile_state_from_worker]. rewrite next_set_addresses. apply NoDup_filter.
    unfold sort_strings. rewrite sort_by_Permutation. apply NoDup_elements.
  - intros key r' Hr. subst n'. cbn [sn_registrations reconcile_state_from_worker] in Hr.
    rewrite lookup_fmap in Hr. destruct (sn_registrations n !! key) as [r|]; [|done].
    injection Hr as <-. cbn. split; [done|]. split; [done|]. intros Ha.
    unfold validator_registration_status_text. cbn. by rewrite Ha.
Qed.
