(* ===== verification/SyncFollow.v ===== *)
(** The validator-set worker against the contract.

    The events of every transaction of [Staking], folded by the worker of [SetSync],
    give the contract's set of active validators: the theorems compose the contract, its
    log, the endpoints, the scan and the cursor, and state where the composition fails
    (a total slash, a restart, a rebuild, the largest block number). *)

From S2P Require Import Prelude Text Crypto Types L1Quorum SetHistory Shamir Threshold ShieldedWire.
From S2P Require Import Staking ConsensusAdmission SetSync.
From Stdlib Require Import Ascii NArith.

(** ** The events and the contract's active validators *)

Inductive StakingOp :=
| OpApply (now validator amount : N) (transfer_ok : bool)
| OpApprove (validator : N)
| OpReject (validator : N) (transfer_ok : bool)
| OpConsensus (now applicant nonce : N) (signers : list N) (sigs : list string)
| OpExpire (now applicant : N) (transfer_ok : bool)
| OpUnbond (now sender : N)
| OpWithdraw (now sender : N) (transfer_ok : bool)
| OpSlash (now account amount : N) (reason : string).

Section Track.
Context `{!Crypto, !Ethereum, !EthereumLaws}.

(** A transaction: the new storage and the events; a revert changes nothing. *)
Definition staking_step (s : Staking) (op : StakingOp) : Staking * list StakingEvent :=
  let r :=
    match op with
    | OpApply now v amount ok => applyToBeValidator s now v amount ok
    | OpApprove v => approveValidator s v
    | OpReject v ok => rejectValidator s v ok
    | OpConsensus now a nonce signers sigs =>
        s' ← approveByConsensus s now a nonce signers sigs;
        Ok (s', [ValidatorApprovedByConsensus a nonce (N.of_nat (length signers))])
    | OpExpire now a ok => expireApplication s now a ok
    | OpUnbond now a => initiateUnbonding s now a
    | OpWithdraw now a ok => withdrawValidatorStake s now a ok
    | OpSlash now a amount reason => Ok (executeSlash s now a amount reason)
    end in
  match r with Ok r => r | Err _ => (s, []) end.

Fixpoint staking_run (s : Staking) (ops : list StakingOp) : Staking * list StakingEvent :=
  match ops with
  | [] => (s, [])
  | op :: ops' =>
      let '(s1, evs) := staking_step s op in
      let '(s2, evs') := staking_run s1 ops' in
      (s2, evs ++ evs')
  end.

(** A slash that takes everything from an active validator ([_executeSlash], case 3). *)
Definition wipes (s : Staking) (op : StakingOp) : bool :=
  match op with
  | OpSlash now a amount reason =>
      is_active s a && bool_decide (ve_state (entry (executeSlash s now a amount reason).1 a) = Withdrawn)
  | _ => false
  end.

Fixpoint never_wipes (s : Staking) (ops : list StakingOp) : bool :=
  match ops with
  | [] => true
  | op :: ops' => negb (wipes s op) && never_wipes (staking_step s op).1 ops'
  end.

(** The observed set is the contract's active set. *)
Definition tracks (s : Staking) (A : gset string) : Prop :=
  ∀ a, addr_text a ∈ A ↔ is_active s a = true.

Definition observe_event (A : gset string) (e : StakingEvent) : gset string :=
  match event_kind e with
  | Add _ _ => {[addr_text (event_account e)]} ∪ A
  | Remove | Unbond _ => A ∖ {[addr_text (event_account e)]}
  | Slash _ _ | Apply _ | DropApplicant => A
  end.

Lemma addr_text_inj a b : addr_text a = addr_text b → a = b.
Proof.
  intros He. apply (f_equal addr_parse) in He. unfold addr_text in He. rewrite !addr_parse_hex in He. congruence.
Qed.

Lemma entry_with s a e b : entry (with_entry s a e) b = if decide (a = b) then e else entry s b.
Proof.
  unfold entry, with_entry. cbn [sk_validators]. rewrite lookup_insert. by case_decide.
Qed.

Lemma is_active_with s a e b :
  is_active (with_entry s a e) b = if decide (a = b) then bool_decide (ve_state e = Active) else is_active s b.
Proof. unfold is_active. rewrite entry_with. by case_decide. Qed.

Lemma is_active_list s l a : is_active (with_list s l) a = is_active s a.
Proof. done. Qed.

Lemma is_active_publisher s x n a : is_active (with_publisher s x n) a = is_active s a.
Proof. done. Qed.

(** Activation, deactivation and changes of inactive entries. *)
Lemma tracks_add s A a e :
  tracks s A → ve_state e = Active → tracks (with_entry s a e) ({[addr_text a]} ∪ A).
Proof.
  intros Ht He b. rewrite is_active_with, elem_of_union, elem_of_singleton, (Ht b).
  case_decide as Hb; [subst; rewrite bool_decide_true by done; naive_solver|].
  split; [intros [Hx%addr_text_inj|]; [congruence|done]|auto].
Qed.

Lemma tracks_remove s A a e :
  tracks s A → ve_state e ≠ Active → tracks (with_entry s a e) (A ∖ {[addr_text a]}).
Proof.
  intros Ht He b. rewrite is_active_with, elem_of_difference, elem_of_singleton, (Ht b).
  case_decide as Hb; [subst; rewrite bool_decide_false by done; naive_solver|].
  split; [naive_solver|]. intros Hx. split; [done|]. intros Hy%addr_text_inj. congruence.
Qed.

Lemma tracks_same s A a e :
  tracks s A → (ve_state e = Active ↔ ve_state (entry s a) = Active) → tracks (with_entry s a e) A.
Proof.
  intros Ht He b. rewrite is_active_with, (Ht b). case_decide as Hb; [subst|done].
  unfold is_active. by rewrite (bool_decide_ext _ _ He).
Qed.

Lemma tracks_validators s s' A : sk_validators s' = sk_validators s → tracks s A → tracks s' A.
Proof. intros He Ht a. rewrite (Ht a). unfold is_active, entry. by rewrite He. Qed.

Lemma approveByConsensus_entry s now a nonce signers sigs s' :
  approveByConsensus s now a nonce signers sigs = Ok s' →
  sk_validators s' = sk_validators (with_entry s a (activate (entry s a))).
Proof.
  unfold approveByConsensus. intros Hok. repeat (apply bind_Ok in Hok as (? & ? & Hok)).
  by injection Hok as <-.
Qed.

Lemma tracks_slash s A now a amount reason :
  tracks s A → wipes s (OpSlash now a amount reason) = false →
  let r := executeSlash s now a amount reason in tracks r.1 (foldl observe_event A r.2).
Proof.
  intros Ht Hw r. subst r. unfold wipes in Hw.
  destruct (is_active s a) eqn:Ha; simpl in Hw.
  - unfold executeSlash in *.
    destruct (bool_decide (ve_state (entry s a) = Active) && (0 <? ve_stake (entry s a))%N) eqn:Hav.
    + apply andb_true_iff in Hav as [Hact%bool_decide_eq_true _]. simpl in *.
      destruct (amount <=? ve_stake (entry s a))%N.
      * case_match; simpl; [by apply tracks_remove|]. by apply tracks_same.
      * simpl in Hw. apply bool_decide_eq_false in Hw. exfalso. apply Hw.
        unfold with_publisher, entry. simpl. by rewrite lookup_insert_eq.
    + simpl in *. case_match; [done|]. simpl in Hw. apply bool_decide_eq_false in Hw. exfalso. apply Hw.
      unfold with_publisher, entry. simpl. by rewrite lookup_insert_eq.
  - assert (ve_state (entry s a) ≠ Active) as Hna by by apply bool_decide_eq_false in Ha.
    unfold executeSlash. rewrite (bool_decide_false (ve_state (entry s a) = Active)) by done. simpl.
    case_match; [done|]. simpl. eapply (tracks_validators (with_entry s a _)); [reflexivity|].
    by apply tracks_same.
Qed.

Lemma tracks_step s A op :
  tracks s A → wipes s op = false →
  tracks (staking_step s op).1 (foldl observe_event A (staking_step s op).2).
Proof.
  intros Ht Hw. unfold staking_step.
  destruct op as [now v amount ok|v|v ok|now a nonce signers sigs|now a ok|now a|now a ok|now a amount reason];
    [| | | | | | |by apply tracks_slash];
    match goal with |- context [match ?m with _ => _ end] => destruct m as [[s' evs]|] eqn:Hok; [|done] end;
    repeat (apply bind_Ok in Hok as (? & ?%ensure_Ok & Hok) || apply bind_Ok in Hok as (? & ? & Hok));
    injection Hok as <- <-; cbn [fst snd foldl observe_event event_kind event_account];
    repeat match goal with Hb : bool_decide _ = true |- _ => apply bool_decide_eq_true in Hb end.
  - apply (tracks_validators (with_entry s v {| ve_stake := amount; ve_state := Pending; ve_unbondingAt := 0;
      ve_slashCount := 0; ve_ejectedAt := 0; ve_appliedAt := now |})); [done|].
    apply tracks_same; [done|]. simpl.
    match goal with Hn : negb (bool_decide (_ ∨ _)) = true |- _ =>
      apply negb_true_iff, bool_decide_eq_false in Hn end. naive_solver.
  - by apply tracks_add.
  - apply tracks_same; [done|]. simpl. naive_solver congruence.
  - eapply tracks_validators; [by eapply approveByConsensus_entry|]. by apply tracks_add.
  - apply tracks_same; [done|]. simpl. naive_solver congruence.
  - by apply tracks_remove.
  - assert (A ∖ {[addr_text a]} ∖ {[addr_text a]} = A ∖ {[addr_text a]}) as -> by set_solver.
    by apply tracks_remove.
Qed.

Lemma tracks_run s A ops :
  tracks s A → never_wipes s ops = true →
  tracks (staking_run s ops).1 (foldl observe_event A (staking_run s ops).2).
Proof.
  revert s A. induction ops as [|op ops IH]; intros s A Ht Hw; [done|].
  simpl in Hw. apply andb_true_iff in Hw as [Hw Hws]. apply negb_true_iff in Hw.
  pose proof (tracks_step s A op Ht Hw) as Hs. simpl.
  destruct (staking_step s op) as [s1 evs]. simpl in *. specialize (IH _ _ Hs Hws).
  destruct (staking_run s1 ops) as [s2 evs']. simpl in *. by rewrite foldl_app.
Qed.

(** *** The log of a history of blocks *)

(** The transaction hash of the log at a height and an index, as text. *)
Variable tx_of : N → N → string.

Fixpoint number (h i : N) (evs : list StakingEvent) : list ValidatorSetDelta :=
  match evs with
  | [] => []
  | e :: evs' =>
      {| d_kind := event_kind e; d_addr := addr_text (event_account e); d_block_height := h;
         d_log_index := i; d_tx_hash := tx_of h i |} :: number h (i + 1) evs'
  end.

(** The transactions of each block, by height. *)
Fixpoint chain_log (s : Staking) (blocks : list (N * list StakingOp)) : list ValidatorSetDelta :=
  match blocks with
  | [] => []
  | (h, ops) :: rest => let '(s', evs) := staking_run s ops in number h 0 evs ++ chain_log s' rest
  end.

(** The transactions of the blocks up to a height. *)
Definition ops_until (blocks : list (N * list StakingOp)) (h : N) : list StakingOp :=
  concat (snd <$> filter (λ b, (b.1 ≤ h)%N) blocks).

Definition state_at (s : Staking) (blocks : list (N * list StakingOp)) (h : N) : Staking :=
  (staking_run s (ops_until blocks h)).1.

Lemma number_spec h i evs d :
  d ∈ number h i evs → d_block_height d = h ∧ (i ≤ d_log_index d)%N.
Proof.
  revert i. induction evs as [|e evs IH]; intros i; simpl; [set_solver|].
  intros [->|Hd]%elem_of_cons; [simpl; lia|]. apply IH in Hd. lia.
Qed.

Lemma ordered_number h i evs : ordered (number h i evs).
Proof.
  unfold ordered. revert i. induction evs as [|e evs IH]; intros i; simpl; constructor; [done|].
  apply Forall_forall. intros d Hd%number_spec. apply pos_lt_spec. simpl. lia.
Qed.

Lemma observed_number h i evs A : observed_after (number h i evs) A = foldl observe_event A evs.
Proof. revert i A. induction evs as [|e evs IH]; intros i A; [done|]. exact (IH (i + 1)%N _). Qed.

Lemma chain_log_heights s blocks d : d ∈ chain_log s blocks → d_block_height d ∈ blocks.*1.
Proof.
  revert s. induction blocks as [|[h ops] blocks IH]; intros s; simpl; [set_solver|].
  destruct (staking_run s ops) as [s' evs]. intros [Hd|Hd]%elem_of_app.
  - apply number_spec in Hd as [-> _]. set_solver.
  - apply IH in Hd. set_solver.
Qed.

Lemma ordered_chain_log s blocks :
  StronglySorted N.lt blocks.*1 → ordered (chain_log s blocks).
Proof.
  revert s. induction blocks as [|[h ops] blocks IH]; intros s Hs; [constructor|]. simpl in *.
  apply StronglySorted_inv in Hs as [Hs Hh]. rewrite Forall_forall in Hh.
  destruct (staking_run s ops) as [s' evs]. apply ordered_app. split; [apply ordered_number|].
  split; [by apply IH|]. intros x y [Hx _]%number_spec Hy%chain_log_heights%Hh. apply pos_lt_spec. simpl. lia.
Qed.

Lemma staking_run_app s a b :
  staking_run s (a ++ b) =
  (let '(s1, e1) := staking_run s a in let '(s2, e2) := staking_run s1 b in (s2, e1 ++ e2)).
Proof.
  revert s. induction a as [|op a IH]; intros s; simpl; [by destruct (staking_run s b)|].
  destruct (staking_step s op) as [s1 evs]. rewrite IH. destruct (staking_run s1 a) as [s2 e2].
  destruct (staking_run s2 b) as [s3 e3]. by rewrite app_assoc.
Qed.

Lemma observed_chain_log s blocks start h A :
  StronglySorted N.lt blocks.*1 → Forall (λ b, (start < b.1)%N) blocks →
  observed_after (range (chain_log s blocks) (start + 1) h) A =
  foldl observe_event A (staking_run s (ops_until blocks h)).2.
Proof.
  revert s A. induction blocks as [|[hb ops] blocks IH]; intros s A Hs Hst; [done|].
  simpl in Hs. apply StronglySorted_inv in Hs as [Hs Hh]. rewrite Forall_forall in Hh.
  apply Forall_cons in Hst as [Hsb Hst]. simpl in Hsb. cbn [chain_log]. unfold ops_until. rewrite filter_cons.
  destruct (staking_run s ops) as [s' evs] eqn:Hrun.
  unfold range. rewrite filter_app. unfold observed_after. rewrite foldl_app.
  fold (range (chain_log s' blocks) (start + 1) h).
  case_decide as Hle; simpl in Hle.
  - assert (filter (λ d, in_range (start + 1) h d = true) (number hb 0 evs) = number hb 0 evs) as ->.
    { apply filter_all. intros d [Hd _]%number_spec. apply in_range_spec. lia. }
    fold (observed_after (number hb 0 evs) A). rewrite observed_number.
    fold (observed_after (range (chain_log s' blocks) (start + 1) h) (foldl observe_event A evs)).
    rewrite IH by done. cbn [fmap list_fmap snd concat]. rewrite staking_run_app, Hrun.
    unfold ops_until. destruct (staking_run s' _) as [s2 e2]. simpl. by rewrite foldl_app.
  - assert (filter (λ b : N * list StakingOp, (b.1 ≤ h)%N) blocks = []) as ->.
    { apply elem_of_nil_inv. intros b [Hb Hin]%list_elem_of_filter.
      specialize (Hh b.1 ltac:(by apply list_elem_of_fmap_2)). lia. }
    assert (filter (λ d, in_range (start + 1) h d = true) (number hb 0 evs) = []) as ->.
    { apply elem_of_nil_inv. intros d [Hd%in_range_spec [Hn _]%number_spec]%list_elem_of_filter. lia. }
    assert (range (chain_log s' blocks) (start + 1) h = []) as ->; [|done].
    apply elem_of_nil_inv. intros d [Hd%in_range_spec Hin%chain_log_heights%Hh]%list_elem_of_filter. lia.
Qed.
End Track.

(** C4. The observed set of the worker is the contract's active set at the finalised height:
    after any polls whose first endpoint is honest and whose majority does not contradict
    it, an address is observed exactly when the contract, after the transactions of all
    blocks up to the reached height, has it active.  No transaction may wipe out an
    active validator. *)
Theorem observed_follows_contract `{!Crypto, !Ethereum, !EthereumLaws, !SolEvents}
    (cfg : SyncConfig) (chain_hash : N → string) (fuel : nat) (mode : SyncMode) (rpcs : list L1Rpc)
    (tx_of : N → N → string) (s0 : Staking) (blocks : list (N * list StakingOp)) (start : N) (w : WorkerState) (n : SyncNode)
    (A : gset string) :
  StronglySorted N.lt blocks.*1 → Forall (λ b, (start < b.1)%N) blocks →
  Forall (honest_rpc cfg (chain_log tx_of s0 blocks) chain_hash) rpcs → (0 < sc_log_chunk cfg)%N →
  (∀ rpc latest, rpc ∈ rpcs → fetch_latest_block_quorum rpc (rpc_endpoints cfg) = Some latest →
     scan_fuel (sc_log_chunk cfg) 0 (latest - sc_finality_lag_blocks cfg) ≤ fuel) →
  tracks s0 A → follows (chain_log tx_of s0 blocks) chain_hash A start start w →
  never_wipes s0 (ops_until blocks (reached cfg rpcs start)) = true →
  ∃ w' n', polls cfg fuel mode rpcs w n = Some (w', n') ∧
    ∀ a, addr_text a ∈ observed_active w' ↔
         is_active (state_at s0 blocks (reached cfg rpcs start)) a = true.
Proof.
  intros Hs Hst Hr Hc Hf Ht Hw Hn.
  destruct (polls_follow_gen cfg (chain_log tx_of s0 blocks) chain_hash fuel mode rpcs A start start w n)
    as (w' & n' & Hp & _ & _ & _ & _ & Hobs); try done; [by apply ordered_chain_log|].
  exists w', n'. split; [done|]. rewrite Hobs, observed_chain_log by done. by apply tracks_run.
Qed.

(** A slash that takes everything from an active validator emits only [Slashed], which
    changes nothing in the observed set: the validator stays. *)
Theorem wiped_validator_stays `{!Crypto, !Ethereum, !EthereumLaws} (s : Staking) (A : gset string)
    (now a amount : N) (reason : string) :
  tracks s A → wipes s (OpSlash now a amount reason) = true →
  let r := staking_step s (OpSlash now a amount reason) in
  is_active r.1 a = false ∧ addr_text a ∈ foldl observe_event A r.2.
Proof.
  intros Ht Hw r. simpl in Hw. apply andb_true_iff in Hw as [Ha Hst%bool_decide_eq_true]. split.
  - apply bool_decide_eq_false.
    change (ve_state (entry (executeSlash s now a amount reason).1 a) ≠ Active). by rewrite Hst.
  - assert (addr_text a ∈ A) as Hin by by apply Ht. subst r.
    change (addr_text a ∈ foldl observe_event A (executeSlash s now a amount reason).2).
    unfold executeSlash in *. repeat case_match; try done. exfalso. revert Hst.
    unfold with_entry, entry. simpl. by rewrite lookup_insert_eq.
Qed.

(** ** Decoding and restarts *)

Lemma event_of_topic_signature `{!Ethereum, !SolEvents, !SolEventsLaws} (n : EventName) :
  event_of_topic (signature_hash n) = Some n.
Proof.
  unfold event_of_topic.
  destruct (list_find (λ m, signature_hash n = signature_hash m) event_names) as [[i m]|] eqn:Hf.
  - apply list_find_Some in Hf as (_ & Hm & _). simpl. f_equal. by apply signatures_distinct.
  - exfalso. apply list_find_None in Hf. rewrite Forall_forall in Hf.
    apply (Hf n); [|done]. by destruct n; repeat constructor.
Qed.

(** What the contract writes to its log is decoded to the delta of the event. *)
Theorem decode_log_event `{!Crypto, !Ethereum, !SolEvents, !SolEventsLaws} (e : StakingEvent)
    (height index : N) (tx : string) :
  decode_log {| lv_topics := encode_topics e; lv_data := encode_data e; lv_block_number := height;
                lv_log_index := index; lv_tx_hash := tx |} =
  Ok (Some {| d_kind := event_kind e; d_addr := addr_text (event_account e);
              d_block_height := height; d_log_index := index; d_tx_hash := "0x" +:+ hex_encode tx |}).
Proof.
  unfold decode_log. simpl. rewrite encode_topic0. cbn [ok_or mbind result_bind].
  fold (signature_hash (event_name e)). rewrite event_of_topic_signature.
  cbn [ok_or mbind result_bind]. by rewrite decode_encode_event.
Qed.

Lemma by_addr_known vs v addr :
  v ∈ validators vs → normalized_validator_key (val_eth_address v) = addr → is_empty addr = false →
  is_Some (by_addr vs !! addr).
Proof.
  unfold by_addr. induction (validators vs) as [|u l IH] using rev_ind; [set_solver|].
  rewrite foldl_app. cbn [foldl]. intros [Hv| ->%list_elem_of_singleton]%elem_of_app Ha He.
  - specialize (IH Hv Ha He). case_match; [done|].
    destruct (decide (normalized_validator_key (val_eth_address u) = addr)) as [->|Hne].
    + rewrite lookup_insert_eq. by eexists.
    + by rewrite lookup_insert_ne.
  - rewrite Ha, He, lookup_insert_eq. by eexists.
Qed.

Lemma seed_address_Some v addr :
  seed_address v = Some addr →
  normalized_validator_key (val_eth_address v) = addr ∧ is_empty addr = false.
Proof.
  unfold seed_address. destruct (is_empty _) eqn:He; [done|]. case_bool_decide; [done|].
  intros [= <-]. done.
Qed.

(** Every start of the worker puts the bootstrap validators back, also those that the
    saved state, beyond whose cursor no event is read again, had removed. *)
Theorem restart_resurrects `{!Crypto, !Ethereum, !SolEvents} (fuel : nat) (cfg : SyncConfig)
    (rpc : L1Rpc) (n n' : SyncNode) (saved w : WorkerState) (v : Validator) (addr : string) :
  sn_cursor_file n = Some saved → v ∈ validators (sn_bootstrap n) → seed_address v = Some addr →
  sync_start fuel cfg ChainAuthoritative rpc n = Some (w, n') →
  addr ∈ observed_active w ∧ (is_Some (cursor saved) → cursor w = cursor saved) ∧
  addr ∈ val_eth_address <$> validators (sn_set n').
Proof.
  intros Hf Hv Hs. unfold sync_start. rewrite Hf. cbn [mbind option_bind].
  assert (addr ∈ observed_active (merge_bootstrap n saved)) as Hin.
  { unfold merge_bootstrap, seed_worker_state_from_bootstrap. cbn [observed_active].
    apply elem_of_union_r, elem_of_list_to_set, list_elem_of_omap. eauto. }
  assert (∀ w1, observed_active w1 = observed_active (merge_bootstrap n saved) →
    (is_Some (cursor saved) → cursor w1 = cursor saved) →
    save_cursor rpc (reconcile_state_from_worker n w1) w1 ≫= (λ n, Some (w1, n)) = Some (w, n') →
    addr ∈ observed_active w ∧ (is_Some (cursor saved) → cursor w = cursor saved) ∧
    addr ∈ val_eth_address <$> validators (sn_set n')) as Hall.
  { intros w1 Hobs Hc. unfold save_cursor. destruct (disk_ok rpc); [|done].
    cbn [mbind option_bind]. intros [= <- <-]. rewrite Hobs. split; [done|]. split; [done|].
    cbn [sn_set set_cursor_file reconcile_state_from_worker]. rewrite next_set_addresses.
    apply list_elem_of_filter. rewrite Hobs. split.
    - apply seed_address_Some in Hs as [Ha He]. unfold known_validator.
      destruct (by_addr (sn_set n) !! addr); [by eexists|].
      destruct (by_addr_known _ _ _ Hv Ha He) as [u ->]. by eexists.
    - unfold sort_strings. by rewrite sort_by_Permutation, elem_of_elements. }
  cbn [reconcile_if].
  destruct (cursor (merge_bootstrap n saved)) as [c|] eqn:Hc; [|destruct (sc_start_block cfg) as [start|]].
  - cbn [mbind option_bind]. intros Hr. eapply Hall; [..|exact Hr]; done.
  - destruct (fetch_block_hash_failover _ _ _) as [h|]; [|done]. cbn [mbind option_bind].
    intros Hr. eapply Hall; [..|exact Hr]; [done|]. cbn in Hc. rewrite Hc. by intros [].
  - cbn [mbind option_bind]. intros Hr. eapply Hall; [..|exact Hr]; done.
Qed.

Lemma observed_untouched ds A addr :
  (∀ d, d ∈ ds → d_addr d ≠ addr) → addr ∈ observed_after ds A ↔ addr ∈ A.
Proof.
  unfold observed_after. revert A. induction ds as [|d ds IH]; intros A Hd; [done|]. cbn [foldl].
  rewrite IH by (intros e He; apply Hd; by right).
  assert (d_addr d ≠ addr) as Hne by (apply Hd; by left).
  unfold observe. destruct (d_kind d); set_solver.
Qed.

(** Without a start block a rebuild reads only the last thousand blocks: a validator that
    was admitted before them and is not in the bootstrap set is forgotten. *)
Theorem rebuild_forgets `{!Crypto, !Ethereum, !SolEvents} (cfg : SyncConfig) (rpc : L1Rpc)
    (log : list ValidatorSetDelta) (n : SyncNode) (safe : N) (fuel : nat) (w : WorkerState) (addr : string) :
  sc_start_block cfg = None → serves rpc log safe (sc_eth_rpc_url cfg) → ordered log →
  (0 < sc_log_chunk cfg)%N → (safe < u64_max)%N →
  scan_fuel (sc_log_chunk cfg) (safe - 1000) safe ≤ fuel →
  rebuild_worker_state fuel cfg rpc n safe = Some w →
  addr ∉ observed_active (seed_worker_state_from_bootstrap n) →
  (∀ d, d ∈ log → (safe - 1000 ≤ d_block_height d)%N → d_addr d ≠ addr) →
  addr ∉ observed_active w.
Proof.
  intros Hst Hsv Ho Hc Hsafe Hf. unfold rebuild_worker_state. rewrite Hst. cbn [mbind option_bind].
  cbn [cursor seed_worker_state_from_bootstrap]. rewrite (proj2 (N.leb_le _ _)) by lia.
  rewrite (failover_log cfg log rpc) by done. cbn [mbind option_bind].
  rewrite sort_ordered by (by apply ordered_filter).
  destruct (apply_ordered (seed_worker_state_from_bootstrap n) (range log (safe - 1000) safe))
    as (Hobs & _); [by apply ordered_filter|done|].
  set (w1 := foldl apply_delta _ _) in *.
  assert (observed_active (advance w1 safe) = observed_active w1) as Hadv.
  { unfold advance. by case_match. }
  intros Hw Hseed Hd. assert (observed_active w = observed_active w1) as ->.
  { destruct (cursor (advance w1 safe)) as [[h i]|].
    - destruct (fetch_block_hash_failover _ _ _); [|done]. by injection Hw as <-.
    - by injection Hw as <-. }
  rewrite Hobs, observed_untouched; [done|].
  intros d [Hr%in_range_spec Hin]%list_elem_of_filter. apply Hd; [done|lia].
Qed.

(** ** Examples *)
Module SyncDemo.
Import Toy ShieldedDemo ConsensusDemo.

(** Two numbers and a text. *)
Definition pack (x y : N) (r : string) : string := tally_marks x +:+ "," +:+ tally_marks y +:+ "," +:+ r.

Definition unpack (s : string) : option (N * N * string) :=
  '(x, s1) ← split_once "," s;
  '(y, r) ← split_once "," s1;
  Some (N.of_nat (String.length x), N.of_nat (String.length y), r).

Definition fields (e : StakingEvent) : N * N * string :=
  match e with
  | ValidatorApplied _ x | ValidatorApplicationExpired _ x | ValidatorUnbonding _ x
  | ValidatorWithdrawn _ x => (x, 0%N, "")
  | ValidatorApprovedByConsensus _ x y => (x, y, "")
  | Slashed _ x r => (x, 0%N, r)
  | ValidatorApproved _ | ValidatorRejected _ | ValidatorLeft _ => (0%N, 0%N, "")
  end.

Definition event_from (n : EventName) (a x y : N) (r : string) : StakingEvent :=
  match n with
  | EApplied => ValidatorApplied a x
  | EApproved => ValidatorApproved a
  | EApprovedByConsensus => ValidatorApprovedByConsensus a x y
  | ERejectedEvent => ValidatorRejected a
  | EExpired => ValidatorApplicationExpired a x
  | EUnbonding => ValidatorUnbonding a x
  | EWithdrawn => ValidatorWithdrawn a x
  | ELeft => ValidatorLeft a
  | ESlashed => Slashed a x r
  end.

#[export] Instance toy_sol_events : SolEvents := {|
  decode_log_data n topics data :=
    match topics with
    | [_; a] => '(x, y, r) ← unpack data; Some (event_from n (N.of_nat (String.length a)) x y r)
    | _ => None
    end;
  encode_topics e := [keccak256 (event_signature (event_name e)); tally_marks (event_account e)];
  encode_data e := pack (fields e).1.1 (fields e).1.2 (fields e).2;
|}.

Lemma marks_split (n : nat) (s : string) : split_once "," (marks n +:+ "," +:+ s) = Some (marks n, s).
Proof. induction n as [|n IH]; [done|]. simpl in *. by rewrite IH. Qed.

Lemma unpack_pack x y r : unpack (pack x y r) = Some (x, y, r).
Proof.
  unfold unpack, pack, tally_marks. rewrite marks_split. cbn [mbind option_bind].
  rewrite marks_split. cbn [mbind option_bind]. by rewrite !marks_length, !N2Nat.id.
Qed.

Lemma toy_signatures :
  forallb (λ n, forallb (λ m, negb (String.eqb (digest (event_signature n)) (digest (event_signature m)))
    || bool_decide (n = m)) event_names) event_names = true.
Proof. vm_compute. reflexivity. Qed.

Lemma event_names_all n : n ∈ event_names.
Proof. by destruct n; repeat constructor. Qed.

#[export] Instance toy_sol_events_laws : SolEventsLaws.
Proof.
  split; [done| |].
  - intros e. cbn [decode_log_data toy_sol_events encode_topics encode_data].
    rewrite unpack_pack. cbn [mbind option_bind]. unfold tally_marks at 1. rewrite marks_length, N2Nat.id.
    by destruct e.
  - intros n m Hd. pose proof toy_signatures as Ht. rewrite forallb_forall in Ht.
    specialize (Ht n (proj1 (list_elem_of_In _ _) (event_names_all n))). rewrite forallb_forall in Ht.
    specialize (Ht m (proj1 (list_elem_of_In _ _) (event_names_all m))).
    cbn [keccak256 toy_ethereum] in Hd. rewrite Hd, String.eqb_refl in Ht. by apply bool_decide_eq_true in Ht.
Qed.

Lemma decode_log_event_witness :
  decode_log {| lv_topics := encode_topics (ValidatorLeft 3); lv_data := encode_data (ValidatorLeft 3);
                lv_block_number := 5; lv_log_index := 0; lv_tx_hash := "t" |} =
  Ok (Some {| d_kind := Remove; d_addr := "0x111"; d_block_height := 5; d_log_index := 0;
              d_tx_hash := "0x74" |}).
Proof. exact (decode_log_event (ValidatorLeft 3) 5 0 "t"). Defined.

(** The contract of [ConsensusDemo]: in block 5 the applicant 9 is approved, in block 7
    the validator 3 starts to unbond. *)
Definition blocks : list (N * list StakingOp) := [(5%N, [OpApprove 9]); (7%N, [OpUnbond 100 3])].

Definition raw_of (h : string) (e : StakingEvent) : RawLog := {|
  rl_topics := Some (Some <$> encode_topics e); rl_data := Some ("0x" +:+ hex_encode (encode_data e));
  rl_blockNumber := Some h; rl_logIndex := Some "0x0"; rl_transactionHash := Some "" |}.

Definition raws : list (N * RawLog) :=
  [(5%N, raw_of "0x5" (ValidatorApproved 9)); (7%N, raw_of "0x7" (ValidatorUnbonding 3 100))].

(** One endpoint; [head] is the number of its latest block. *)
Definition rpc_at (head : string) : L1Rpc := {|
  block_number_of url := Some head;
  block_hash_of url n := Some "hash";
  logs_of url f t i := Ok (snd <$> filter (λ r, ((f <=? r.1)%N && (r.1 <=? t)%N) = true) raws);
  b256_parse s := Some s;
  disk_ok := true;
|}.

Definition cfg0 : SyncConfig := {| sc_eth_rpc_url := "http://l1"; sc_extra_rpc_urls := [];
  sc_finality_lag_blocks := 2; sc_start_block := Some 1%N; sc_log_chunk := 2 |}.

Definition A0 : gset string := {[ addr_text 2; addr_text 3; addr_text 4 ]}.

Definition w0 : WorkerState :=
  {| cursor := Some (1%N, u32_max); cursor_block_hash := Some "hash"; observed_active := A0 |}.

Definition boot (a : N) : Validator := {| val_id := "b"; val_alias := ""; val_pubkey := "k";
  val_eth_address := addr_text a; val_stake := 1; val_reputation := 1; val_status := "online" |}.

Definition n0 : SyncNode := {| sn_node_id := "n1"; sn_set := {| validators := [] |};
  sn_bootstrap := {| validators := [boot 3] |}; sn_registrations := ∅; sn_tip_height := 0;
  sn_history := []; sn_cursor_file := Some w0;
  sn_status := {| ss_enabled := true; ss_state := "synced"; ss_last_finalized := None; ss_cursor := None;
                  ss_cursor_hash := None; ss_last_error := false |} |}.

Definition log0 : list ValidatorSetDelta := chain_log (λ _ _, "0x") st0 blocks.

Lemma range_two f t a b :
  range [a; b] f t = (if in_range f t a then [a] else []) ++ (if in_range f t b then [b] else []).
Proof. unfold range. rewrite !filter_cons, filter_nil. by destruct (in_range f t a), (in_range f t b). Qed.

Lemma rpc_serves head limit url : serves (rpc_at head) log0 limit url.
Proof.
  intros f t _. eexists. split; [reflexivity|].
  assert (log0 = [{| d_kind := Add "0" None; d_addr := addr_text 9; d_block_height := 5; d_log_index := 0;
                     d_tx_hash := "0x" |};
                  {| d_kind := Unbond 100; d_addr := addr_text 3; d_block_height := 7; d_log_index := 0;
                     d_tx_hash := "0x" |}]) as -> by (vm_compute; reflexivity).
  rewrite range_two. unfold raws, in_range. rewrite !filter_cons, filter_nil. cbn [fst d_block_height].
  destruct ((f <=? 5)%N && (5 <=? t)%N), ((f <=? 7)%N && (7 <=? t)%N); vm_compute; reflexivity.
Qed.

Lemma rpc_honest head latest :
  parse_radix16 u64_max (trim_0x head) = Some latest → (latest < u64_max)%N →
  honest_rpc cfg0 log0 (λ _, "hash") (rpc_at head).
Proof.
  intros Hp Hl. split.
  - intros l Hlat. change (rpc_endpoints cfg0) with ["http://l1"] in Hlat.
    unfold fetch_latest_block_quorum, fetch_latest_block in Hlat. cbn in Hlat. rewrite Hp in Hlat.
    injection Hlat as <-. split; [done|]. split; [apply rpc_serves|done].
  - intros n h. change (rpc_endpoints cfg0) with ["http://l1"]. vm_compute. by intros [= <-].
Qed.

Lemma tracks0 : tracks st0 A0.
Proof.
  intros a. unfold A0, is_active, entry, st0. cbn [sk_validators].
  rewrite bool_decide_eq_true, !lookup_insert, lookup_singleton.
  repeat case_decide; subst; simpl; (split; [intros Hin|intros Hs]); try done; try set_solver;
    repeat (apply elem_of_union in Hin as [Hin|Hin]); apply elem_of_singleton, addr_text_inj in Hin; congruence.
Qed.

Definition rpcs0 : list L1Rpc := [rpc_at "0x7"; rpc_at "0x9"].

Lemma observed_follows_contract_witness :
  ∃ w' n', polls cfg0 20 ChainAuthoritative rpcs0 w0 n0 = Some (w', n') ∧
    (addr_text 9 ∈ observed_active w' ↔ is_active (state_at st0 blocks 7) 9 = true) ∧
    is_active (state_at st0 blocks 7) 9 = true ∧ is_active (state_at st0 blocks 7) 3 = false.
Proof.
  destruct (observed_follows_contract cfg0 (λ _, "hash") 20 ChainAuthoritative rpcs0 (λ _ _, "0x") st0 blocks
              1 w0 n0 A0) as (w' & n' & Hp & Ho).
  - repeat constructor.
  - repeat constructor.
  - apply Forall_cons. split; [apply (rpc_honest _ 7); reflexivity|].
    apply Forall_cons. split; [apply (rpc_honest _ 9); reflexivity|done].
  - reflexivity.
  - intros rpc latest Hin Hl. change (rpc_endpoints cfg0) with ["http://l1"] in Hl.
    apply elem_of_cons in Hin as [->|[->|[]%elem_of_nil]%elem_of_cons]; vm_compute in Hl; injection Hl as <-;
      apply Nat.leb_le; vm_compute; reflexivity.
  - apply tracks0.
  - split; [by eexists|]. split; [lia|]. split; [reflexivity|]. split; [reflexivity|]. reflexivity.
  - vm_compute. reflexivity.
  - assert (reached cfg0 rpcs0 1 = 7%N) as Hreach by (vm_compute; reflexivity). rewrite Hreach in Ho.
    exists w', n'. split; [exact Hp|]. split; [apply Ho|]. split; vm_compute; reflexivity.
Defined.

(** Validator 3 has a stake of 7: a slash of 8 takes everything. *)
Lemma wiped_validator_stays_witness :
  let r := staking_step st0 (OpSlash 50 3 8 "fraud") in
  is_active r.1 3 = false ∧ addr_text 3 ∈ foldl observe_event A0 r.2.
Proof. apply (wiped_validator_stays st0 A0 50 3 8 "fraud"); [apply tracks0|vm_compute; reflexivity]. Defined.

Lemma fetch_deltas_terminates_witness :
  is_Some (fetch_deltas (rpc_at "0x9") (scan_fuel 2 2 9) "http://l1" 2 2 9).
Proof. apply fetch_deltas_terminates; [reflexivity|reflexivity|reflexivity]. Defined.

Lemma fetch_deltas_diverges_witness :
  fetch_deltas (rpc_at "0xffffffffffffffff") 1000 "http://l1" 2 0 u64_max = None.
Proof. apply fetch_deltas_diverges; [reflexivity|]. vm_compute. discriminate. Defined.

(** The saved state has removed validator 3; the bootstrap file still lists it. *)
Definition saved0 : WorkerState :=
  {| cursor := Some (7%N, u32_max); cursor_block_hash := Some "hash"; observed_active := {[ addr_text 2 ]} |}.

Definition n1 : SyncNode := set_cursor_file n0 saved0.

Lemma restart_resurrects_witness :
  ∃ w n', sync_start 20 cfg0 ChainAuthoritative (rpc_at "0x9") n1 = Some (w, n') ∧
    addr_text 3 ∈ observed_active w ∧ addr_text 3 ∈ val_eth_address <$> validators (sn_set n').
Proof.
  destruct (sync_start 20 cfg0 ChainAuthoritative (rpc_at "0x9") n1) as [[w n']|] eqn:Hs; [|done].
  exists w, n'. split; [done|].
  destruct (restart_resurrects 20 cfg0 (rpc_at "0x9") n1 n' saved0 w (boot 3) (addr_text 3))
    as (Hin & _ & Hset); [reflexivity|by left|vm_compute; reflexivity|exact Hs|].
  split; [exact Hin|exact Hset].
Defined.

(** Block 5 is out of the window at the safe block 2000: the applicant 9 is forgotten. *)
Definition cfg1 : SyncConfig := {| sc_eth_rpc_url := "http://l1"; sc_extra_rpc_urls := [];
  sc_finality_lag_blocks := 2; sc_start_block := None; sc_log_chunk := 10000 |}.

Lemma rebuild_forgets_witness :
  ∃ w, rebuild_worker_state 3 cfg1 (rpc_at "0x7d2") n0 2000 = Some w ∧ addr_text 9 ∉ observed_active w.
Proof.
  destruct (rebuild_worker_state 3 cfg1 (rpc_at "0x7d2") n0 2000) as [w|] eqn:Hw; [|done].
  exists w. split; [reflexivity|].
  apply (rebuild_forgets cfg1 (rpc_at "0x7d2") log0 n0 2000 3 w (addr_text 9)).
  - reflexivity.
  - apply rpc_serves.
  - apply ordered_chain_log. repeat constructor.
  - reflexivity.
  - reflexivity.
  - apply Nat.leb_le. vm_compute. reflexivity.
  - exact Hw.
  - apply (bool_decide_unpack _). vm_compute. exact I.
  - intros d Hd%chain_log_heights Hh. cbn in Hd.
    apply elem_of_cons in Hd as [Hd|[Hd|[]%elem_of_nil]%elem_of_cons]; rewrite Hd in Hh; by vm_compute in Hh.
Defined.

End SyncDemo.
