(* ===== verification/CrossChain.v ===== *)
(** Cross-chain messages and chain configurations (cross-chain/src/lib.rs).

    [MessageOrderer] numbers outgoing messages and delivers the incoming ones of each
    source chain in the order of their sequence numbers, buffering those that come early.
    The client part holds the configured chains and says whether they can be used.
    [oc] is rustc's [overflow-checks]: with it the [+= 1] of a [u64] at its maximum panics
    ([None]), without it the counter wraps. *)

From S2P Require Import Prelude Text.
From Stdlib Require Import Ascii NArith.

(** ** Chain configurations *)

Definition ENV_PREFIX : string := "CREG_CHAIN".
Definition NULL_ADDRESS : string := "0x0000000000000000000000000000000000000000".

Definition is_real_address (addr : string) : bool :=
  negb (is_empty addr) && negb (String.eqb addr NULL_ADDRESS).

Record ContractAddresses := { registry : string; cross_chain : string; zk_verifier : option string }.

Record ChainConfig := {
  cc_name : string;
  chain_id : N;
  layerzero_id : N;
  rpc_urls : list string;
  explorer : string;
  contracts : ContractAddresses;
}.

(** [configs.into_iter().map(|c| (c.name.clone(), c)).collect()]: the last of a name stays. *)
Definition client_new (configs : list ChainConfig) : gmap string ChainConfig :=
  foldl (λ m c, <[cc_name c := c]> m) ∅ configs.

Inductive ConfigError := RegistryNotConfigured (name : string) | CrossChainNotConfigured (name : string).

Definition config_errors (kc : string * ChainConfig) : list ConfigError :=
  (if is_real_address (registry (contracts kc.2)) then [] else [RegistryNotConfigured kc.1]) ++
  (if is_real_address (cross_chain (contracts kc.2)) then [] else [CrossChainNotConfigured kc.1]).

Definition validate_configs (chains : gmap string ChainConfig) : list ConfigError :=
  concat (config_errors <$> map_to_list chains).

Definition is_operational (chains : gmap string ChainConfig) : bool :=
  bool_decide (validate_configs chains = []).

Definition get_chain (chains : gmap string ChainConfig) (name : string) : option ChainConfig :=
  chains !! name.

Definition list_chains (chains : gmap string ChainConfig) : list string := hm_keys chains.

Definition ascii_upper (c : ascii) : ascii :=
  let n := N_of_ascii c in if ((97 <=? n) && (n <=? 122))%N then byte (n - 32) else c.

(** [to_uppercase] on the ASCII names of the built-in chains. *)
Fixpoint to_uppercase (s : string) : string :=
  match s with
  | EmptyString => EmptyString
  | String c s' => String (ascii_upper c) (to_uppercase s')
  end.

(** The environment of the process is a map. *)
Definition env_override (env : gmap string string) (cfg : ChainConfig) : ChainConfig :=
  let var suffix := env !! (ENV_PREFIX +:+ "_" +:+ to_uppercase (cc_name cfg) +:+ suffix) in
  {| cc_name := cc_name cfg; chain_id := chain_id cfg; layerzero_id := layerzero_id cfg;
     rpc_urls := rpc_urls cfg; explorer := explorer cfg;
     contracts := {|
       registry := default (registry (contracts cfg)) (var "_REGISTRY");
       cross_chain := default (cross_chain (contracts cfg)) (var "_CROSS_CHAIN");
       zk_verifier := match var "_ZK_VERIFIER" with
                      | Some v => Some v
                      | None => zk_verifier (contracts cfg)
                      end |} |}.

Definition placeholder : ContractAddresses :=
  {| registry := NULL_ADDRESS; cross_chain := NULL_ADDRESS; zk_verifier := None |}.

Definition arbitrum (env : gmap string string) : ChainConfig :=
  env_override env
    {| cc_name := "arbitrum"; chain_id := 42161; layerzero_id := 110;
       rpc_urls := ["https://arb1.arbitrum.io/rpc"]; explorer := "https://arbiscan.io";
       contracts := placeholder |}.

Definition optimism (env : gmap string string) : ChainConfig :=
  env_override env
    {| cc_name := "optimism"; chain_id := 10; layerzero_id := 111;
       rpc_urls := ["https://mainnet.optimism.io"]; explorer := "https://optimistic.etherscan.io";
       contracts := placeholder |}.

Definition polygon (env : gmap string string) : ChainConfig :=
  env_override env
    {| cc_name := "polygon"; chain_id := 137; layerzero_id := 109;
       rpc_urls := ["https://polygon-rpc.com"]; explorer := "https://polygonscan.com";
       contracts := placeholder |}.

(** ** Ordering of messages *)

Record CrossChainMessage := {
  msg_id : string;
  source_chain : string;
  dest_chain : string;
  sequence : N;
  msg_canonical : string;
  payload_hash : string;
  msg_timestamp : N;
}.

Record MessageOrderer := {
  next_sequence : gmap string N;
  mo_pending : gmap (string * N) CrossChainMessage;
  delivered : gset string;
  delivered_order : list string;
  outbound_seq : gmap string N;
}.

Definition orderer_new : MessageOrderer :=
  {| next_sequence := ∅; mo_pending := ∅; delivered := ∅; delivered_order := []; outbound_seq := ∅ |}.

(** [n += 1] on a [u64]. *)
Definition u64_succ (oc : bool) (n : N) : option N :=
  if (n =? u64_max)%N then if oc then None else Some 0%N else Some (n + 1)%N.

Definition next_outbound_seq (oc : bool) (st : MessageOrderer) (dest : string)
    : option (MessageOrderer * N) :=
  let current := default 0%N (outbound_seq st !! dest) in
  succ ← u64_succ oc current;
  Some ({| next_sequence := next_sequence st; mo_pending := mo_pending st; delivered := delivered st;
           delivered_order := delivered_order st;
           outbound_seq := <[dest := succ]> (outbound_seq st) |}, current).

(** [while let Some(m) = self.pending.remove(&(source, seq))]: every round removes a
    message, so the number of buffered messages is fuel enough. *)
Fixpoint drain (oc : bool) (fuel : nat) (source : string) (seq : N) (st : MessageOrderer)
    (deliverable : list CrossChainMessage) : option (MessageOrderer * list CrossChainMessage * N) :=
  match fuel with
  | O => Some (st, deliverable, seq)
  | S fuel' =>
      match mo_pending st !! (source, seq) with
      | None => Some (st, deliverable, seq)
      | Some m =>
          succ ← u64_succ oc seq;
          drain oc fuel' source succ
            {| next_sequence := next_sequence st;
               mo_pending := delete (source, seq) (mo_pending st);
               delivered := {[msg_id m]} ∪ delivered st;
               delivered_order := delivered_order st ++ [msg_id m];
               outbound_seq := outbound_seq st |}
            (deliverable ++ [m])
      end
  end.

Definition set_next (st : MessageOrderer) (source : string) (seq : N) : MessageOrderer :=
  {| next_sequence := <[source := seq]> (next_sequence st); mo_pending := mo_pending st;
     delivered := delivered st; delivered_order := delivered_order st;
     outbound_seq := outbound_seq st |}.

Definition buffer (st : MessageOrderer) (msg : CrossChainMessage) : MessageOrderer :=
  {| next_sequence := next_sequence st;
     mo_pending := <[(source_chain msg, sequence msg) := msg]> (mo_pending st);
     delivered := delivered st; delivered_order := delivered_order st;
     outbound_seq := outbound_seq st |}.

Definition expected_seq (st : MessageOrderer) (source : string) : N :=
  default 0%N (next_sequence st !! source).

Definition ingest (oc : bool) (st : MessageOrderer) (msg : CrossChainMessage)
    : option (MessageOrderer * list CrossChainMessage) :=
  if bool_decide (msg_id msg ∈ delivered st) then Some (st, [])
  else
    let source := source_chain msg in
    let expected := expected_seq st source in
    let st1 := set_next st source expected in
    if (sequence msg <? expected)%N then Some (st1, [])
    else
      let st2 := buffer st1 msg in
      '(st3, deliverable, seq) ← drain oc (size (mo_pending st2)) source expected st2 [];
      Some (set_next st3 source seq, deliverable).

Definition pending_count (st : MessageOrderer) : nat := size (mo_pending st).

(** [while self.delivered.len() > max_entries { .. }] over the queue. *)
Fixpoint prune_loop (max_entries : nat) (order : list string) (ids : gset string)
    : list string * gset string :=
  if (max_entries <? size ids)%nat then
    match order with
    | oldest :: rest => prune_loop max_entries rest (ids ∖ {[oldest]})
    | [] => ([], ∅)
    end
  else (order, ids).

Definition prune_delivered (st : MessageOrderer) (max_entries : nat) : MessageOrderer :=
  let '(order, ids) := prune_loop max_entries (delivered_order st) (delivered st) in
  {| next_sequence := next_sequence st; mo_pending := mo_pending st; delivered := ids;
     delivered_order := order; outbound_seq := outbound_seq st |}.

(** What happens to an orderer, and the messages that it delivers meanwhile. *)
Inductive OrdererEvent := Ingest (msg : CrossChainMessage) | Prune (max_entries : nat).

Definition orderer_step (oc : bool) (st : MessageOrderer) (ev : OrdererEvent)
    : option (MessageOrderer * list CrossChainMessage) :=
  match ev with
  | Ingest msg => ingest oc st msg
  | Prune n => Some (prune_delivered st n, [])
  end.

Fixpoint orderer_run (oc : bool) (st : MessageOrderer) (evs : list OrdererEvent)
    : option (MessageOrderer * list CrossChainMessage) :=
  match evs with
  | [] => Some (st, [])
  | ev :: rest =>
      '(st1, out1) ← orderer_step oc st ev;
      '(st2, out2) ← orderer_run oc st1 rest;
      Some (st2, out1 ++ out2)
  end.

Definition ingested (evs : list OrdererEvent) : list CrossChainMessage :=
  omap (λ ev, match ev with Ingest m => Some m | Prune _ => None end) evs.

Definition from_source (s : string) (l : list CrossChainMessage) : list CrossChainMessage :=
  filter (λ m, source_chain m = s) l.

(** ** Lemmas *)

(** Buffered messages stand under their own source and number, which can be counted past. *)
Definition pend_ok (st : MessageOrderer) : Prop :=
  ∀ k m, mo_pending st !! k = Some m →
    (source_chain m, sequence m) = k ∧ (sequence m < u64_max)%N.

Definition counting (start : N) (ms : list CrossChainMessage) : Prop :=
  sequence <$> ms = (λ i, (start + N.of_nat i)%N) <$> seq 0 (length ms).

Lemma counting_cons (start : N) (m : CrossChainMessage) (ms : list CrossChainMessage) :
  sequence m = start → counting (start + 1) ms → counting start (m :: ms).
Proof.
  unfold counting. intros Hm Hms. cbn [length seq]. rewrite !fmap_cons. f_equal; [lia|].
  rewrite Hms, <- fmap_S_seq, <- list_fmap_compose. apply list_fmap_ext. intros i x _.
  simpl. lia.
Qed.

Lemma u64_succ_below (oc : bool) (n : N) : (n < u64_max)%N → u64_succ oc n = Some (n + 1)%N.
Proof. intros Hn. unfold u64_succ. case_match eqn:E; [apply N.eqb_eq in E; lia|done]. Qed.

(** What a drain from [seq] does: it takes the longest run of buffered messages. *)
Definition drained (source : string) (seq : N) (st st' : MessageOrderer)
    (ms : list CrossChainMessage) : Prop :=
  next_sequence st' = next_sequence st ∧
  delivered st' = list_to_set (msg_id <$> ms) ∪ delivered st ∧
  delivered_order st' = delivered_order st ++ (msg_id <$> ms) ∧
  counting seq ms ∧
  (∀ m, m ∈ ms → mo_pending st !! (source, sequence m) = Some m) ∧
  mo_pending st' !! (source, seq + N.of_nat (length ms))%N = None ∧
  (∀ q, (seq ≤ q < seq + N.of_nat (length ms))%N → mo_pending st' !! (source, q) = None) ∧
  (∀ s q, s ≠ source ∨ (q < seq)%N ∨ (seq + N.of_nat (length ms) ≤ q)%N →
     mo_pending st' !! (s, q) = mo_pending st !! (s, q)).

Lemma drained_nil (source : string) (seq : N) (st : MessageOrderer) :
  mo_pending st !! (source, seq) = None → drained source seq st st [].
Proof.
  intros Hn. unfold drained, counting. cbn [length]. rewrite N.add_0_r, app_nil_r.
  repeat split; try done.
  - set_solver.
  - intros m Hm. by apply elem_of_nil in Hm.
  - intros q Hq. lia.
Qed.

Lemma drain_spec (oc : bool) (fuel : nat) (source : string) (seq : N) (st : MessageOrderer)
    (acc : list CrossChainMessage) :
  pend_ok st → size (mo_pending st) ≤ fuel →
  ∃ st' ms, drain oc fuel source seq st acc = Some (st', acc ++ ms, (seq + N.of_nat (length ms))%N) ∧
    drained source seq st st' ms.
Proof.
  revert seq st acc. induction fuel as [|fuel IH]; intros seq st acc Hok Hsize.
  - exists st, []. rewrite app_nil_r, N.add_0_r. split; [done|]. apply drained_nil.
    apply Nat.le_0_r, map_size_empty_inv in Hsize. rewrite Hsize. apply lookup_empty.
  - cbn [drain]. destruct (mo_pending st !! (source, seq)) as [m|] eqn:Hm.
    2:{ exists st, []. rewrite app_nil_r, N.add_0_r. auto using drained_nil. }
    destruct (Hok _ _ Hm) as [[= Hsrc Hseq] Hlt].
    rewrite (u64_succ_below oc seq) by (rewrite <- Hseq; done).
    cbn [mbind option_bind].
    set (st1 := {| next_sequence := _; mo_pending := delete (source, seq) _; delivered := _;
                   delivered_order := _; outbound_seq := _ |}).
    destruct (IH (seq + 1)%N st1 (acc ++ [m])) as (st' & ms & -> & Hd).
    + intros k m' Hk. apply (Hok k). cbn in Hk. by apply lookup_delete_Some in Hk as [_ Hk].
    + cbn. rewrite map_size_delete_Some by eauto. lia.
    + exists st', (m :: ms). rewrite <- app_assoc. cbn [app length].
      assert (seq + N.of_nat (S (length ms)) = seq + 1 + N.of_nat (length ms))%N as Hlen by lia.
      rewrite Hlen. split; [done|]. unfold drained. cbn [length]. rewrite Hlen.
      destruct Hd as (Hn & Hdel & Hord & Hc & Hin & Hend & Hgone & Hsame).
      split_and!.
      * done.
      * rewrite Hdel. cbn. set_solver.
      * rewrite Hord. cbn. by rewrite <- app_assoc.
      * by apply counting_cons.
      * intros m' [->|Hm']%elem_of_cons; [by rewrite Hseq|].
        pose proof (Hin _ Hm') as Hl. cbn in Hl. by apply lookup_delete_Some in Hl as [_ Hl].
      * done.
      * intros q Hq. destruct (decide (q = seq)) as [->|Hne]; [|apply Hgone; lia].
        rewrite Hsame by lia. cbn. apply lookup_delete_eq.
      * intros s q Hq.
        rewrite Hsame by (destruct Hq as [?|[?|?]]; [by left|right; left; lia|right; right; lia]).
        cbn. apply lookup_delete_ne. intros [= <- <-]. destruct Hq as [?|[?|?]]; [done|lia|lia].
Qed.

Lemma counting_app (start : N) (l1 l2 : list CrossChainMessage) :
  counting start l1 → counting (start + N.of_nat (length l1)) l2 → counting start (l1 ++ l2).
Proof.
  unfold counting. intros H1 H2. rewrite fmap_app, H1, H2, length_app, seq_app, fmap_app. f_equal.
  replace (seq (0 + length l1) (length l2)) with (Nat.add (length l1) <$> seq 0 (length l2))
    by (rewrite fmap_add_seq; f_equal; lia).
  rewrite <- list_fmap_compose. apply list_fmap_ext. intros i x _. simpl. lia.
Qed.

Lemma counting_elem (start : N) (l : list CrossChainMessage) (m : CrossChainMessage) :
  counting start l → m ∈ l → (start ≤ sequence m < start + N.of_nat (length l))%N.
Proof.
  intros Hc Hm. assert (sequence m ∈ sequence <$> l) as Hs by (apply list_elem_of_fmap; eauto).
  rewrite Hc in Hs. apply list_elem_of_fmap in Hs as (i & -> & Hi). apply elem_of_seq in Hi. lia.
Qed.

Lemma from_source_app (s : string) (l1 l2 : list CrossChainMessage) :
  from_source s (l1 ++ l2) = from_source s l1 ++ from_source s l2.
Proof. apply filter_app. Qed.

Lemma from_source_all (s t : string) (l : list CrossChainMessage) :
  (∀ m, m ∈ l → source_chain m = t) → from_source s l = if decide (s = t) then l else [].
Proof.
  intros Hl. unfold from_source. induction l as [|m l IH]; [by case_decide|].
  rewrite filter_cons, IH by (intros; apply Hl; set_solver).
  pose proof (Hl m ltac:(set_solver)). repeat case_decide; congruence.
Qed.

Lemma expected_set_next (st : MessageOrderer) (source s : string) (seq : N) :
  expected_seq (set_next st source seq) s = if decide (s = source) then seq else expected_seq st s.
Proof.
  unfold expected_seq, set_next. cbn. case_decide; subst.
  - by rewrite lookup_insert_eq.
  - by rewrite lookup_insert_ne by done.
Qed.

(** The invariant of an orderer that has received [seen] and delivered [out]. *)
Record ordered (seen out : list CrossChainMessage) (st : MessageOrderer) : Prop := {
  o_pend : pend_ok st;
  o_contig : ∀ s, counting 0 (from_source s out) ∧
                  N.of_nat (length (from_source s out)) = expected_seq st s;
  o_ahead : ∀ s q m, mo_pending st !! (s, q) = Some m → (expected_seq st s < q)%N;
  o_seen : (∀ m, m ∈ out → m ∈ seen) ∧ (∀ k m, mo_pending st !! k = Some m → m ∈ seen);
  o_ids : ∀ x, x ∈ delivered st → ∃ m, m ∈ out ∧ msg_id m = x;
}.

(** An identifier belongs to one position of one source. *)
Definition ids_ok (l : list CrossChainMessage) : Prop :=
  ∀ m m', m ∈ l → m' ∈ l → msg_id m = msg_id m' →
    source_chain m = source_chain m' ∧ sequence m = sequence m'.

(** Every message received has been delivered, or a message waits in its place. *)
Definition complete (seen : list CrossChainMessage) (st : MessageOrderer) : Prop :=
  ∀ m, m ∈ seen → (sequence m < expected_seq st (source_chain m))%N ∨
                  is_Some (mo_pending st !! (source_chain m, sequence m)).

Lemma ordered_out_lt (seen out : list CrossChainMessage) (st : MessageOrderer) (m : CrossChainMessage) :
  ordered seen out st → m ∈ out → (sequence m < expected_seq st (source_chain m))%N.
Proof.
  intros Ho Hm. destruct (o_contig _ _ _ Ho (source_chain m)) as [Hc <-].
  apply (counting_elem 0 (from_source (source_chain m) out)); [done|].
  by apply list_elem_of_filter.
Qed.

Lemma ordered_new : ordered [] [] orderer_new ∧ complete [] orderer_new.
Proof.
  split; [split|]; unfold orderer_new, pend_ok, complete, counting, expected_seq; cbn;
    try (set_unfold; naive_solver); intros; rewrite ?lookup_empty in *; simplify_eq/=; auto.
Qed.

Lemma ordered_same (seen out : list CrossChainMessage) (st st' : MessageOrderer) (msg : CrossChainMessage) :
  ordered seen out st → mo_pending st' = mo_pending st → delivered st' ⊆ delivered st →
  (∀ s, expected_seq st' s = expected_seq st s) → ordered (seen ++ [msg]) (out ++ []) st'.
Proof.
  intros [Hp Hc Ha [Hs1 Hs2] Hi] Hpe Hde Hex. rewrite app_nil_r.
  split; unfold pend_ok; rewrite ?Hpe; try done.
  - intros s. rewrite Hex. auto.
  - intros s q m Hm. rewrite Hex. eauto.
  - split; intros; apply elem_of_app; left; eauto.
  - intros x Hx. apply Hi. by apply Hde.
Qed.

(** What delivering a drained run does to the invariant. *)
Lemma ordered_drained (seen out : list CrossChainMessage) (st st' : MessageOrderer)
    (msg : CrossChainMessage) (ms : list CrossChainMessage) :
  let source := source_chain msg in
  let start := expected_seq st source in
  ordered seen out st → (sequence msg < u64_max)%N → (start ≤ sequence msg)%N →
  drained source start (buffer (set_next st source start) msg) st' ms →
  ordered (seen ++ [msg]) (out ++ ms) (set_next st' source (start + N.of_nat (length ms))) ∧
  (complete seen st →
   complete (seen ++ [msg]) (set_next st' source (start + N.of_nat (length ms)))).
Proof.
  intros source start Ho Hlt Hge (Hn & Hdel & _ & Hc & Hin & Hend & Hgone & Hsame).
  set (st2 := buffer _ _) in *. set (stop := (start + N.of_nat (length ms))%N) in *.
  assert (∀ k m, mo_pending st2 !! k = Some m →
            m ∈ seen ++ [msg] ∧ (source_chain m, sequence m) = k ∧ (sequence m < u64_max)%N ∧
            (expected_seq st (source_chain m) ≤ sequence m)%N) as Hp2.
  { intros k m Hk. unfold st2 in Hk. cbn in Hk.
    apply lookup_insert_Some in Hk as [[<- <-]|[_ Hk]]; [set_solver|].
    destruct (o_pend _ _ _ Ho _ _ Hk) as [<- ?]. pose proof (o_ahead _ _ _ Ho _ _ _ Hk).
    pose proof (proj2 (o_seen _ _ _ Ho) _ _ Hk). split_and!; [set_solver|done|done|lia]. }
  assert (∀ k m, mo_pending st' !! k = Some m → mo_pending st2 !! k = Some m) as Hsub.
  { intros [s q] m Hk. destruct (decide (s = source ∧ start ≤ q < stop)%N) as [[-> Hq]|Hne].
    - by rewrite Hgone in Hk.
    - rewrite <- Hsame; [done|]. destruct (decide (s = source)); [|auto]. right.
      assert (¬ (start ≤ q < stop)%N) by tauto. lia. }
  assert (∀ s, expected_seq (set_next st' source stop) s
               = if decide (s = source) then stop else expected_seq st s) as Hex.
  { intros s. rewrite expected_set_next. case_decide; [done|]. unfold expected_seq. rewrite Hn.
    unfold st2. cbn. by rewrite lookup_insert_ne by done. }
  assert (∀ m, m ∈ ms → source_chain m = source) as Hsrc.
  { intros m Hm. destruct (Hp2 _ _ (Hin _ Hm)) as (_ & [= ->] & _). done. }
  split; [split|].
  - intros k m Hk. destruct (Hp2 _ _ (Hsub _ _ Hk)) as (_ & ? & ? & _). auto.
  - intros s. rewrite from_source_app, (from_source_all s source ms) by done.
    rewrite Hex, length_app. destruct (o_contig _ _ _ Ho s) as [Hcs Hls].
    case_decide as Hs; subst; [|rewrite app_nil_r; simpl; split; [done|lia]].
    fold source start in Hls. split; [|unfold stop; lia]. apply counting_app; [done|].
    by rewrite Hls.
  - intros s q m Hk. rewrite Hex. cbn in Hk. destruct (Hp2 _ _ (Hsub _ _ Hk)) as (_ & [= -> ->] & _ & Hle).
    destruct (decide (s = source)) as [->|Hne].
    + apply N.nle_gt. intros Hq. destruct (decide (q = stop)) as [->|?]; [by rewrite Hend in Hk|].
      rewrite Hgone in Hk; [done|]. fold start in Hle. lia.
    + rewrite Hsame in Hk by auto. unfold st2 in Hk. cbn in Hk.
      rewrite lookup_insert_ne in Hk by (intros [= <- <-]; done). eapply o_ahead; eauto.
  - split.
    + intros m [Hm|Hm]%elem_of_app.
      * apply elem_of_app. left. by apply (o_seen _ _ _ Ho).
      * by apply (Hp2 _ _ (Hin _ Hm)).
    + intros k m Hk. by apply (Hp2 _ _ (Hsub _ _ Hk)).
  - intros x Hx. cbn in Hx. rewrite Hdel in Hx.
    apply elem_of_union in Hx as [(m & -> & Hm)%elem_of_list_to_set%list_elem_of_fmap|Hx].
    + exists m. set_solver.
    + destruct (o_ids _ _ _ Ho x Hx) as (m & ? & ?). exists m. set_solver.
  - intros Hcm m Hm. rewrite Hex. cbn [set_next mo_pending].
    destruct (decide (source_chain m = source ∧ sequence m < stop)%N) as [[-> ?]|Hne];
      [left; by rewrite decide_True|].
    assert ((sequence m < expected_seq st (source_chain m))%N ∨
            is_Some (mo_pending st2 !! (source_chain m, sequence m))) as [Hl|Hl].
    { apply elem_of_app in Hm as [Hm|Hm%list_elem_of_singleton].
      - destruct (Hcm m Hm) as [?|Hpm]; [by left|right]. unfold st2. cbn.
        apply lookup_insert_is_Some'. by right.
      - subst m. right. unfold st2. cbn. rewrite lookup_insert_eq. eauto. }
    + left. case_decide as Hs; [|done]. rewrite Hs in Hl. fold start in Hl. lia.
    + right. rewrite Hsame; [done|]. destruct (decide (source_chain m = source)); [|auto].
      right. assert (¬ (sequence m < stop)%N) by tauto. lia.
Qed.

Lemma ingest_ordered (oc : bool) (seen out : list CrossChainMessage) (st : MessageOrderer)
    (msg : CrossChainMessage) :
  ordered seen out st → (sequence msg < u64_max)%N →
  ∃ st' ms, ingest oc st msg = Some (st', ms) ∧ ordered (seen ++ [msg]) (out ++ ms) st' ∧
    (ids_ok (seen ++ [msg]) → complete seen st → complete (seen ++ [msg]) st').
Proof.
  intros Ho Hlt. unfold ingest. case_bool_decide as Hdup.
  { exists st, []. split_and!; [done|by apply ordered_same with st|].
    intros Hids Hcm m [Hm| ->%list_elem_of_singleton]%elem_of_app; [auto|left].
    destruct (o_ids _ _ _ Ho _ Hdup) as (m' & Hm' & Hid).
    destruct (Hids m' msg) as [<- <-]; [|set_solver|done|by eapply ordered_out_lt].
    apply elem_of_app. left. by apply (o_seen _ _ _ Ho). }
  set (source := source_chain msg). set (start := expected_seq st source).
  assert (∀ s, expected_seq (set_next st source start) s = expected_seq st s) as Hex.
  { intros s. rewrite expected_set_next. by case_decide; subst. }
  case_match eqn:Hold.
  { apply N.ltb_lt in Hold. exists (set_next st source start), [].
    split_and!; [done|by apply ordered_same with st|].
    intros _ Hcm m [Hm| ->%list_elem_of_singleton]%elem_of_app; rewrite Hex; [by apply Hcm|by left]. }
  apply N.ltb_ge in Hold. set (st2 := buffer _ _).
  destruct (drain_spec oc (size (mo_pending st2)) source start st2 []) as (st' & ms & -> & Hd).
  - intros k m Hk. unfold st2 in Hk. cbn in Hk.
    apply lookup_insert_Some in Hk as [[<- <-]|[_ Hk]]; [done|by apply (o_pend _ _ _ Ho)].
  - done.
  - cbn. eexists _, ms. split; [done|].
    destruct (ordered_drained seen out st st' msg ms) as [? ?]; auto.
Qed.

Lemma prune_subset (n : nat) (order : list string) (ids : gset string) :
  (prune_loop n order ids).2 ⊆ ids.
Proof.
  revert ids. induction order as [|x order IH]; intros ids; simpl; case_match; simpl; try done.
  etrans; [apply IH|]. set_solver.
Qed.

Lemma run_ordered (oc : bool) (evs : list OrdererEvent) (seen out : list CrossChainMessage)
    (st : MessageOrderer) :
  ordered seen out st → Forall (λ m, (sequence m < u64_max)%N) (ingested evs) →
  ∃ st' ms, orderer_run oc st evs = Some (st', ms) ∧ ordered (seen ++ ingested evs) (out ++ ms) st' ∧
    (ids_ok (seen ++ ingested evs) → complete seen st → complete (seen ++ ingested evs) st').
Proof.
  revert seen out st. induction evs as [|[msg|n] evs IH]; intros seen out st Ho Hlt; cbn in Hlt |- *.
  - exists st, []. rewrite !app_nil_r. auto.
  - apply Forall_cons in Hlt as [Hm Hlt].
    destruct (ingest_ordered oc seen out st msg Ho Hm) as (st1 & ms1 & -> & Ho1 & Hc1). cbn.
    destruct (IH _ _ _ Ho1 Hlt) as (st2 & ms2 & -> & Ho2 & Hc2). cbn.
    rewrite <- !app_assoc in *. cbn [app] in *. exists st2, (ms1 ++ ms2). split_and!; [done..|].
    intros Hids Hcm. apply Hc2; [done|]. apply Hc1; [|done]. intros m m' ? ?.
    apply Hids; set_solver.
  - assert (ordered seen out (prune_delivered st n)) as Ho1.
    { unfold prune_delivered. pose proof (prune_subset n (delivered_order st) (delivered st)) as Hsub.
      destruct (prune_loop _ _ _) as [order ids]. destruct Ho as [Hp Hc Ha Hs Hi].
      split; cbn; try done. intros x Hx. apply Hi. by apply Hsub. }
    destruct (IH _ _ _ Ho1 Hlt) as (st2 & ms2 & -> & Ho2 & Hc2). cbn.
    exists st2, ms2. split_and!; [done..|]. intros Hids Hcm. apply Hc2; [done|].
    unfold prune_delivered. by destruct (prune_loop _ _ _).
Qed.

(** ** Delivery *)

(** Whatever arrives, in whatever order, with replays and pruning in between, the
    messages delivered of every source carry the numbers 0, 1, 2, .. without gap or
    repetition and are messages that arrived; and when an identifier belongs to one
    position of one source, the delivery of a source stops only at a number of which no
    message has arrived. *)
Theorem delivery_exact (oc : bool) (evs : list OrdererEvent) :
  Forall (λ m, (sequence m < u64_max)%N) (ingested evs) →
  ∃ st out, orderer_run oc orderer_new evs = Some (st, out) ∧
    (∀ m, m ∈ out → m ∈ ingested evs) ∧
    ∀ s, ∃ k, sequence <$> from_source s out = N.of_nat <$> seq 0 k ∧
              expected_seq st s = N.of_nat k ∧
              (ids_ok (ingested evs) →
               ¬ ∃ m, m ∈ ingested evs ∧ source_chain m = s ∧ sequence m = N.of_nat k).
Proof.
  intros Hlt. destruct ordered_new as [Ho Hc].
  destruct (run_ordered oc evs [] [] orderer_new Ho Hlt) as (st & out & Hrun & Hord & Hcomp).
  exists st, out. split; [done|]. split; [apply (o_seen _ _ _ Hord)|].
  intros s. destruct (o_contig _ _ _ Hord s) as [Hcs Hls]. cbn [app] in Hcs, Hls.
  exists (length (from_source s out)). split_and!; [done|done|].
  intros Hids (m & Hm & <- & Hseq). destruct (Hcomp Hids Hc m Hm) as [Hl|[m' Hl]].
  - lia.
  - apply (o_ahead _ _ _ Hord) in Hl. lia.
Qed.

(** The identifier [x] has been delivered, and the next message of [s] is not here. *)
Definition blocked (st : MessageOrderer) (s x : string) : Prop :=
  x ∈ delivered st ∧ mo_pending st !! (s, expected_seq st s) = None.

Lemma drain_missing (oc : bool) (fuel : nat) (source : string) (seq : N) (st : MessageOrderer)
    (acc : list CrossChainMessage) :
  mo_pending st !! (source, seq) = None → drain oc fuel source seq st acc = Some (st, acc, seq).
Proof. intros Hn. destruct fuel; simpl; by rewrite ?Hn. Qed.

Lemma ingest_blocked (oc : bool) (st st' : MessageOrderer) (msg : CrossChainMessage)
    (ms : list CrossChainMessage) (s x : string) :
  blocked st s x → pend_ok st → (sequence msg < u64_max)%N →
  (source_chain msg = s → sequence msg = expected_seq st s → msg_id msg = x) →
  ingest oc st msg = Some (st', ms) →
  blocked st' s x ∧ expected_seq st' s = expected_seq st s ∧ pend_ok st' ∧ from_source s ms = [].
Proof.
  intros [Hx Hn] Hok Hlt Hid. unfold ingest. case_bool_decide as Hdup; [by intros [= <- <-]|].
  set (source := source_chain msg) in *. set (start := expected_seq st source).
  assert (∀ s, expected_seq (set_next st source start) s = expected_seq st s) as Hex.
  { intros s'. rewrite expected_set_next. by case_decide; subst. }
  case_match eqn:Hold; [intros [= <- <-]; unfold blocked; by rewrite Hex|].
  set (st2 := buffer _ _).
  assert (pend_ok st2) as Hok2.
  { intros k m Hk. unfold st2 in Hk. cbn in Hk.
    apply lookup_insert_Some in Hk as [[<- <-]|[_ Hk]]; [done|by apply Hok]. }
  assert (mo_pending st2 !! (s, expected_seq st s) = None) as Hn2.
  { unfold st2. cbn. rewrite lookup_insert_ne; [done|]. intros [= Hs Hq].
    apply Hdup. by rewrite Hid. }
  destruct (drain_spec oc (size (mo_pending st2)) source start st2 [] Hok2 ltac:(done))
    as (st3 & ms3 & Hdr & Hd). rewrite Hdr. cbn. intros [= <- <-].
  destruct Hd as (Hnx & Hdel & _ & _ & Hin & Hend & Hgone & Hsame).
  assert (pend_ok st3) as Hok3.
  { intros [s' q] m Hk. apply Hok2.
    destruct (decide (s' = source ∧ start ≤ q < start + N.of_nat (length ms3))%N) as [[-> Hq]|Hne].
    - by rewrite Hgone in Hk.
    - rewrite <- Hsame; [done|]. destruct (decide (s' = source)); [right|auto].
      assert (¬ (start ≤ q < start + N.of_nat (length ms3))%N) by tauto. lia. }
  destruct (decide (s = source)) as [->|Hne].
  - fold start in Hn2. rewrite drain_missing in Hdr by done. injection Hdr as <- Hms Hlen.
    rewrite <- Hms in *. cbn [length] in *. unfold blocked. rewrite expected_set_next, decide_True by done.
    rewrite N.add_0_r. fold start. done.
  - unfold blocked. rewrite expected_set_next, decide_False by done.
    assert (expected_seq st3 s = expected_seq st s) as ->.
    { unfold expected_seq. rewrite Hnx. unfold st2. cbn. by rewrite lookup_insert_ne by done. }
    split_and!; [|cbn|done|done|].
    + cbn. rewrite Hdel. set_solver.
    + rewrite Hsame by auto. done.
    + cbn. rewrite (from_source_all s source); [by rewrite decide_False|].
      intros m Hm. destruct (Hok2 _ _ (Hin m Hm)) as [[= ->] _]. done.
Qed.

(** A source is stuck for good when the identifier of its next message has already been
    delivered, under another source or another number: whatever else arrives, nothing of
    it is delivered any more. *)
Theorem reused_id_blocks_source (oc : bool) (msgs : list CrossChainMessage)
    (st st' : MessageOrderer) (out : list CrossChainMessage) (s x : string) :
  blocked st s x → pend_ok st →
  Forall (λ m, (sequence m < u64_max)%N ∧
               (source_chain m = s → sequence m = expected_seq st s → msg_id m = x)) msgs →
  orderer_run oc st (Ingest <$> msgs) = Some (st', out) →
  expected_seq st' s = expected_seq st s ∧ from_source s out = [].
Proof.
  revert st out. induction msgs as [|m msgs IH]; intros st out Hb Hok Hm Hrun; cbn in Hrun.
  { by simplify_eq/=. }
  apply Forall_cons in Hm as [[Hlt Hid] Hms].
  destruct (ingest oc st m) as [[st1 out1]|] eqn:Hi; [|done]. cbn in Hrun.
  destruct (ingest_blocked oc st st1 m out1 s x Hb Hok Hlt Hid Hi) as (Hb1 & Hex1 & Hok1 & Hout1).
  destruct (orderer_run _ _ _) as [[st2 out2]|] eqn:Hr; [|done]. simplify_eq/=.
  rewrite <- Hex1 in Hms. destruct (IH st1 out2 Hb1 Hok1 Hms Hr) as [-> Hout].
  split; [done|]. by rewrite from_source_app, Hout1, Hout.
Qed.

(** ** Pruning *)

(** The queue holds the identifiers of the last deliveries, and the set the same ones. *)
Definition recent (out : list CrossChainMessage) (st : MessageOrderer) : Prop :=
  ∃ k, k ≤ length out ∧ delivered_order st = drop k (msg_id <$> out) ∧
       delivered st = list_to_set (delivered_order st).

Lemma NoDup_drop {A : Type} (k : nat) (l : list A) : NoDup l → NoDup (drop k l).
Proof. intros Hl. eapply sublist_NoDup; [done|apply sublist_drop]. Qed.

Lemma prune_loop_spec (n : nat) (order : list string) :
  NoDup order →
  prune_loop n order (list_to_set order) =
    (drop (length order - n) order, list_to_set (drop (length order - n) order)).
Proof.
  induction order as [|x order IH]; intros Hnd; cbn [prune_loop].
  { by case_match. }
  rewrite size_list_to_set by done. cbn [length].
  case_match eqn:E; [apply Nat.ltb_lt in E|apply Nat.ltb_ge in E].
  - apply NoDup_cons in Hnd as [Hx Hnd].
    replace (list_to_set (x :: order) ∖ {[x]} : gset string) with (list_to_set order : gset string)
      by (apply leibniz_equiv; set_solver).
    rewrite IH by done. by replace (S (length order) - n) with (S (length order - n)) by lia.
  - by replace (S (length order) - n) with 0 by lia.
Qed.

Lemma ordered_ids_nodup (seen out : list CrossChainMessage) (st : MessageOrderer) :
  ordered seen out st → ids_ok seen → NoDup (msg_id <$> out).
Proof.
  intros Ho Hids. assert (∀ s, NoDup (sequence <$> from_source s out)) as Hnd.
  { intros s. destruct (o_contig _ _ _ Ho s) as [-> _]. apply NoDup_fmap_2, NoDup_seq.
    intros i j. lia. }
  assert (∀ m, m ∈ out → m ∈ seen) as Hsub by apply (o_seen _ _ _ Ho). clear Ho.
  induction out as [|m out IH]; [constructor|]. rewrite fmap_cons. apply NoDup_cons. split.
  - intros (m' & Hid & Hm')%list_elem_of_fmap.
    destruct (Hids m m') as [Hs Hq]; [apply Hsub; set_solver..|done|].
    specialize (Hnd (source_chain m)). unfold from_source in Hnd.
    rewrite filter_cons_True, fmap_cons in Hnd by done.
    apply NoDup_cons in Hnd as [Hnd _]. apply Hnd. rewrite Hq. apply list_elem_of_fmap.
    exists m'. split; [done|]. by apply list_elem_of_filter.
  - apply IH; [|set_solver]. intros s. specialize (Hnd s). unfold from_source in *.
    rewrite filter_cons in Hnd. case_decide; [|done]. by apply NoDup_cons in Hnd as [_ ?].
Qed.

Lemma ingest_recent (oc : bool) (seen out ms : list CrossChainMessage) (st st' : MessageOrderer)
    (msg : CrossChainMessage) :
  ordered seen out st → (sequence msg < u64_max)%N → recent out st →
  ingest oc st msg = Some (st', ms) → recent (out ++ ms) st'.
Proof.
  intros Ho Hlt (k & Hk & Hord & Hdel). unfold ingest.
  case_bool_decide; [intros [= <- <-]; rewrite app_nil_r; by exists k|].
  case_match; [intros [= <- <-]; rewrite app_nil_r; by exists k|].
  set (st2 := buffer _ _).
  assert (pend_ok st2) as Hok2.
  { intros key m Hm. unfold st2 in Hm. cbn in Hm.
    apply lookup_insert_Some in Hm as [[<- <-]|[_ Hm]]; [done|by apply (o_pend _ _ _ Ho)]. }
  destruct (drain_spec oc (size (mo_pending st2)) (source_chain msg) (expected_seq st (source_chain msg))
              st2 [] Hok2 ltac:(done)) as (st3 & ms3 & -> & Hd).
  cbn. intros [= <- <-]. destruct Hd as (_ & Hdel3 & Hord3 & _). cbn in Hdel3, Hord3.
  exists k. cbn. rewrite length_app. split_and!; [lia| |].
  - rewrite Hord3, Hord, fmap_app, drop_app_le by (by rewrite length_fmap). done.
  - rewrite Hdel3, Hord3, Hdel. apply leibniz_equiv. set_solver.
Qed.

Lemma run_recent (oc : bool) (evs : list OrdererEvent) (seen out : list CrossChainMessage)
    (st st' : MessageOrderer) (ms : list CrossChainMessage) :
  ordered seen out st → Forall (λ m, (sequence m < u64_max)%N) (ingested evs) →
  ids_ok (seen ++ ingested evs) → recent out st → orderer_run oc st evs = Some (st', ms) →
  recent (out ++ ms) st'.
Proof.
  revert seen out st ms. induction evs as [|[msg|n] evs IH]; intros seen out st ms Ho Hlt Hids Hr Hrun;
    cbn in Hlt, Hids, Hrun.
  - simplify_eq. by rewrite app_nil_r.
  - apply Forall_cons in Hlt as [Hm Hlt].
    destruct (ingest_ordered oc seen out st msg Ho Hm) as (st1 & ms1 & Hi & Ho1 & _).
    rewrite Hi in Hrun. cbn in Hrun.
    destruct (orderer_run oc st1 evs) as [[st2 ms2]|] eqn:Hrun2; [|done]. simplify_eq/=.
    rewrite app_assoc. eapply IH; try done; [by rewrite <- app_assoc|by eapply ingest_recent].
  - destruct (orderer_run oc _ evs) as [[st2 ms2]|] eqn:Hrun2; [|done]. simplify_eq/=.
    assert (NoDup (msg_id <$> out)) as Hnd.
    { eapply ordered_ids_nodup; [done|]. intros m m' ? ?. apply Hids; set_solver. }
    assert (recent out (prune_delivered st n) ∧ ordered seen out (prune_delivered st n)) as [Hr1 Ho1].
    { destruct Hr as (k & Hk & Hord & Hdel). unfold prune_delivered. rewrite Hdel, prune_loop_spec
        by (rewrite Hord; by apply NoDup_drop). split.
      - exists (k + (length (delivered_order st) - n)). cbn. rewrite Hord, drop_drop, length_drop, length_fmap.
        split_and!; [lia|done|done].
      - destruct Ho as [Hp Hc Ha Hs Hi]. split; cbn; try done. intros x Hx. apply Hi. rewrite Hdel.
        apply elem_of_list_to_set in Hx. apply elem_of_list_to_set.
        rewrite <- (take_drop (length (delivered_order st) - n) (delivered_order st)).
        apply elem_of_app. by right. }
    eapply IH; [exact Ho1|done|done|exact Hr1|done].
Qed.

(** When identifiers are unique, pruning keeps exactly the identifiers of the last
    deliveries, at most as many as asked for, and the queue and the set never diverge. *)
Theorem prune_keeps_newest (oc : bool) (evs : list OrdererEvent) (st : MessageOrderer)
    (out : list CrossChainMessage) (n : nat) :
  Forall (λ m, (sequence m < u64_max)%N) (ingested evs) → ids_ok (ingested evs) →
  orderer_run oc orderer_new evs = Some (st, out) →
  let st' := prune_delivered st n in
  delivered_order st' = drop (length (delivered_order st) - n) (delivered_order st) ∧
  delivered st' = list_to_set (delivered_order st') ∧ size (delivered st') ≤ n ∧
  delivered_order st' `suffix_of` (msg_id <$> out).
Proof.
  intros Hlt Hids Hrun. destruct ordered_new as [Ho _].
  assert (recent [] orderer_new) as Hr0 by (exists 0; done).
  destruct (run_recent oc evs [] [] _ _ _ Ho Hlt Hids Hr0 Hrun) as (k & Hk & Hord & Hdel).
  destruct (run_ordered oc evs [] [] _ Ho Hlt) as (st1 & out1 & Hrun1 & Ho1 & _).
  rewrite Hrun in Hrun1. injection Hrun1 as <- <-. cbn in Hord, Ho1.
  pose proof (ordered_ids_nodup _ _ _ Ho1 Hids) as Hnd.
  assert (NoDup (delivered_order st)) as Hndo by (rewrite Hord; by apply NoDup_drop).
  cbn. unfold prune_delivered. rewrite Hdel, prune_loop_spec by done. cbn. split_and!; [done|done| |].
  - rewrite size_list_to_set by by apply NoDup_drop. rewrite length_drop. lia.
  - rewrite Hord, drop_drop. apply suffix_drop.
Qed.

(** ** The client *)

Lemma operational_exact (chains : gmap string ChainConfig) :
  is_operational chains = true ↔
  ∀ n c, chains !! n = Some c →
    is_real_address (registry (contracts c)) = true ∧ is_real_address (cross_chain (contracts c)) = true.
Proof.
  unfold is_operational, validate_configs. rewrite bool_decide_eq_true.
  assert (∀ kc : string * ChainConfig, config_errors kc = [] ↔
    is_real_address (registry (contracts kc.2)) = true ∧
    is_real_address (cross_chain (contracts kc.2)) = true) as Hcfg.
  { intros [n c]. unfold config_errors. repeat case_match; naive_solver. }
  rewrite concat_nil_Forall, Forall_fmap, Forall_forall. split.
  - intros Hall n c Hc. apply (Hcfg (n, c)), (Hall (n, c)). by apply elem_of_map_to_list.
  - intros Hall [n c] Hc. apply Hcfg, (Hall n). by apply elem_of_map_to_list.
Qed.

(** Without variables in the environment no built-in chain can be used. *)
Lemma defaults_not_operational (chains : gmap string ChainConfig) (c : ChainConfig) :
  c ∈ [arbitrum ∅; optimism ∅; polygon ∅] → chains !! cc_name c = Some c →
  is_operational chains = false.
Proof.
  intros Hc Hl. apply not_true_iff_false. rewrite operational_exact. intros Hall.
  destruct (Hall _ _ Hl) as [Hr _]. revert Hr.
  repeat (apply elem_of_cons in Hc as [->|Hc]; [by vm_compute|]). by apply elem_of_nil in Hc.
Qed.

(** ** Outgoing numbers *)

(** Below the largest number, the messages to a destination are numbered one after the
    other, whatever is numbered for the others. *)
Lemma outbound_counts (oc : bool) (st : MessageOrderer) (dest other : string) :
  let cur := default 0%N (outbound_seq st !! dest) in
  (cur < u64_max)%N →
  ∃ st', next_outbound_seq oc st dest = Some (st', cur) ∧
    default 0%N (outbound_seq st' !! dest) = (cur + 1)%N ∧
    (other ≠ dest → outbound_seq st' !! other = outbound_seq st !! other).
Proof.
  intros cur Hcur. unfold next_outbound_seq. fold cur. rewrite u64_succ_below by done. cbn.
  eexists. split; [done|]. cbn. rewrite lookup_insert_eq. split; [done|]. intros ?.
  by rewrite lookup_insert_ne.
Qed.

(** ** Witnesses *)

Module CrossChainWitness.

Definition msg (id s : string) (n : N) : CrossChainMessage :=
  {| msg_id := id; source_chain := s; dest_chain := "local"; sequence := n;
     msg_canonical := "npm:pkg"; payload_hash := "abc"; msg_timestamp := 1000 |}.

(** Out of order, replayed after pruning, and a second source in between. *)
Definition evs : list OrdererEvent :=
  [Ingest (msg "a2" "arb" 2); Ingest (msg "a0" "arb" 0); Ingest (msg "o0" "opt" 0);
   Prune 1; Ingest (msg "a0" "arb" 0); Ingest (msg "a1" "arb" 1); Ingest (msg "a4" "arb" 4)].

Example evs_delivered :
  (λ r : MessageOrderer * list CrossChainMessage, msg_id <$> r.2) <$> orderer_run true orderer_new evs = Some ["a0"; "o0"; "a1"; "a2"].
Proof. vm_compute. reflexivity. Qed.

Lemma evs_bounded : Forall (λ m, (sequence m < u64_max)%N) (ingested evs).
Proof. repeat constructor. Qed.

Lemma evs_ids : ids_ok (ingested evs).
Proof.
  unfold ids_ok. cbn. intros m m' Hm Hm'.
  repeat (apply elem_of_cons in Hm as [->|Hm];
    [repeat (apply elem_of_cons in Hm' as [->|Hm']; [done || (cbn; congruence)|]);
     by apply elem_of_nil in Hm'|]).
  by apply elem_of_nil in Hm.
Qed.

Lemma delivery_exact_witness :
  ∃ st out, orderer_run true orderer_new evs = Some (st, out) ∧
    (∀ m, m ∈ out → m ∈ ingested evs) ∧
    ∀ s, ∃ k, sequence <$> from_source s out = N.of_nat <$> seq 0 k ∧
              expected_seq st s = N.of_nat k ∧
              (ids_ok (ingested evs) →
               ¬ ∃ m, m ∈ ingested evs ∧ source_chain m = s ∧ sequence m = N.of_nat k).
Proof. apply delivery_exact. apply evs_bounded. Defined.

(** The second source reuses an identifier of the first. *)
Definition after_evil : MessageOrderer :=
  default orderer_new (fst <$> ingest true orderer_new (msg "arb-0" "evil" 0)).

Lemma reused_id_blocks_source_witness :
  ∃ st out, orderer_run true after_evil (Ingest <$> [msg "arb-0" "arb" 0; msg "arb-1" "arb" 1]) = Some (st, out) ∧
    expected_seq st "arb" = expected_seq after_evil "arb" ∧ from_source "arb" out = [].
Proof.
  eexists _, _. split; [vm_compute; reflexivity|].
  eapply (reused_id_blocks_source true [msg "arb-0" "arb" 0; msg "arb-1" "arb" 1] after_evil _ _ "arb" "arb-0");
    [| | |vm_compute; reflexivity].
  - split; [apply (bool_decide_unpack _); vm_compute; exact I|vm_compute; reflexivity].
  - assert (mo_pending after_evil = ∅) as He by (vm_compute; reflexivity).
    intros k m Hk. rewrite He, lookup_empty in Hk. discriminate.
  - repeat constructor; vm_compute; congruence.
Defined.

Lemma prune_keeps_newest_witness :
  ∃ st out, orderer_run true orderer_new evs = Some (st, out) ∧
  let st' := prune_delivered st 1 in
  delivered_order st' = drop (length (delivered_order st) - 1) (delivered_order st) ∧
  delivered st' = list_to_set (delivered_order st') ∧ size (delivered st') ≤ 1 ∧
  delivered_order st' `suffix_of` (msg_id <$> out).
Proof.
  eexists _, _. split; [vm_compute; reflexivity|].
  eapply (prune_keeps_newest true evs); [apply evs_bounded|apply evs_ids|vm_compute; reflexivity].
Defined.

(** Two buffered messages with one identifier are both delivered, and pruning then forgets
    an identifier that its queue still holds. *)
Example duplicate_in_buffer :
  (λ r : MessageOrderer * list CrossChainMessage, (msg_id <$> r.2, elements (delivered (prune_delivered r.1 1)), delivered_order (prune_delivered r.1 1)))
    <$> orderer_run true orderer_new
          (Ingest <$> [msg "x" "arb" 2; msg "x" "arb" 1; msg "y" "arb" 0])
  = Some (["y"; "x"; "x"], ["x"], ["x"; "x"]).
Proof. vm_compute. reflexivity. Qed.

(** The message that comes last for a number replaces the one that waits there. *)
Example waiting_replaced :
  (λ r : MessageOrderer * list CrossChainMessage, msg_id <$> r.2)
    <$> orderer_run true orderer_new (Ingest <$> [msg "a1" "arb" 1; msg "forged" "arb" 1; msg "a0" "arb" 0])
  = Some ["a0"; "forged"].
Proof. vm_compute. reflexivity. Qed.

(** At the largest number the counter wraps in a release build and panics in a debug build. *)
Definition at_end : MessageOrderer := set_next orderer_new "arb" u64_max.

Example counter_wraps :
  (λ r : MessageOrderer * list CrossChainMessage, expected_seq r.1 "arb") <$> ingest false at_end (msg "z" "arb" u64_max) = Some 0%N ∧
  ingest true at_end (msg "z" "arb" u64_max) = None.
Proof. by vm_compute. Qed.

End CrossChainWitness.
