(* ===== verification/Zk.v ===== *)
(** Zero-knowledge proofs of the registry (zk-validator/src/lib.rs, batch.rs, circuits.rs).

    The statements that are proved (packages, double signing, batches of the rollup), their
    public inputs, the trusted-setup keys and the form in which proofs go on chain.
    Groth16 over BN254 (the arkworks crates) is the interface [Groth16]; what it does with
    the constraints of a circuit is behind [g16_prove].  Files and random numbers are
    arguments: a key directory is the contents of its two files. *)

From S2P Require Import Prelude Text Crypto Gf256 Shamir Threshold.
From Stdlib Require Import Ascii NArith.

(** ** Statements *)

Record PackageValidationCircuit := {
  pc_content_hash : bytes;
  pc_manifest_hash : bytes;
  pc_static_analysis_score : N;
  pc_sandbox_safe : bool;
  pc_no_vulnerable_deps : bool;
  pc_complexity_score : N;
}.

Record DoubleSignCircuit := {
  validator_pubkey_lo : bytes;
  validator_pubkey_hi : bytes;
  package_hash_lo : bytes;
  package_hash_hi : bytes;
  vote1_hash_lo : bytes;
  vote1_hash_hi : bytes;
  vote2_hash_lo : bytes;
  vote2_hash_hi : bytes;
}.

Record BatchStateTransitionCircuit := {
  prev_root_lo : bytes;
  prev_root_hi : bytes;
  data_root_lo : bytes;
  data_root_hi : bytes;
  next_root_lo : bytes;
  next_root_hi : bytes;
  tc_tx_count : N;
}.

Inductive Circuit :=
| PackageC (c : PackageValidationCircuit)
| DoubleSignC (c : DoubleSignCircuit)
| BatchC (c : BatchStateTransitionCircuit).

(** ** Groth16 *)

Class Groth16 := {
  Fr : Type;
  fr_from_le_bytes : bytes → Fr;                  (* Fr::from_le_bytes_mod_order *)
  fr_from_u64 : N → Fr;
  fr_bytes : Fr → bytes;                          (* serialize_uncompressed *)
  ProvingKey : Type;
  VerifyingKeyG : Type;
  ZkProof : Type;
  g16_setup : Circuit → N → option (ProvingKey * VerifyingKeyG);
  g16_prove : ProvingKey → Circuit → N → option ZkProof;
  g16_verify : VerifyingKeyG → list Fr → ZkProof → option bool;
  pk_serialize : ProvingKey → bytes;
  pk_deserialize : bytes → option ProvingKey;
  vk_serialize : VerifyingKeyG → bytes;
  vk_deserialize : bytes → option VerifyingKeyG;
  proof_words : ZkProof → list N;                 (* A.x A.y B.x.c0 B.x.c1 B.y.c0 B.y.c1 C.x C.y *)
  proof_serialize : ZkProof → bytes;              (* serialize_uncompressed *)
  proof_deserialize : bytes → option ZkProof;
}.

(** [n.to_le_bytes()] *)
Definition le_bytes (k : nat) (n : N) : bytes := rev (be_bytes k n).

(** Documented behaviour of the crates: keys and proofs are read back, field elements and
    coordinates are written as 32 bytes, least significant first (the words of a proof
    carry the flags of the format in their top bits). *)
Class Groth16Laws `{Groth16} : Prop := {
  pk_round : ∀ k, pk_deserialize (pk_serialize k) = Some k;
  vk_round : ∀ k, vk_deserialize (vk_serialize k) = Some k;
  proof_round : ∀ p, proof_deserialize (proof_serialize p) = Some p;
  proof_words_length : ∀ p, length (proof_words p) = 8;
  proof_words_bound : ∀ p w, w ∈ proof_words p → (w < u64_size ^ 4)%N;
  proof_layout : ∀ p, proof_serialize p = concat (le_bytes 32 <$> proof_words p);
  fr_limb : ∀ b, length b = 16 → fr_bytes (fr_from_le_bytes b) = b ++ replicate 16 (byte 0);
  fr_small : ∀ n, (n < u64_size)%N → fr_bytes (fr_from_u64 n) = le_bytes 8 n ++ replicate 24 (byte 0);
}.

Definition split_hash (h : bytes) : bytes * bytes := (take 16 h, drop 16 h).

(** [DoubleSignCircuit::from_hashes] *)
Definition from_hashes (validator_pubkey package_hash vote1_hash vote2_hash : bytes) : DoubleSignCircuit :=
  let '(vpk_lo, vpk_hi) := split_hash validator_pubkey in
  let '(pkg_lo, pkg_hi) := split_hash package_hash in
  let '(v1_lo, v1_hi) := split_hash vote1_hash in
  let '(v2_lo, v2_hi) := split_hash vote2_hash in
  {| validator_pubkey_lo := vpk_lo; validator_pubkey_hi := vpk_hi; package_hash_lo := pkg_lo;
     package_hash_hi := pkg_hi; vote1_hash_lo := v1_lo; vote1_hash_hi := v1_hi;
     vote2_hash_lo := v2_lo; vote2_hash_hi := v2_hi |}.

(** [BatchStateTransitionCircuit::from_roots] *)
Definition from_roots (prev_root data_root next_root : bytes) (tx_count : N) : BatchStateTransitionCircuit :=
  let '(pr_lo, pr_hi) := split_hash prev_root in
  let '(dr_lo, dr_hi) := split_hash data_root in
  let '(nr_lo, nr_hi) := split_hash next_root in
  {| prev_root_lo := pr_lo; prev_root_hi := pr_hi; data_root_lo := dr_lo; data_root_hi := dr_hi;
     next_root_lo := nr_lo; next_root_hi := nr_hi; tc_tx_count := tx_count |}.

Definition default_batch_circuit : BatchStateTransitionCircuit :=
  from_roots (replicate 32 (byte 0)) (replicate 32 (byte 0)) (replicate 32 (byte 0)) 1.

Definition default_package_circuit : PackageValidationCircuit :=
  {| pc_content_hash := replicate 32 (byte 0); pc_manifest_hash := replicate 32 (byte 0);
     pc_static_analysis_score := 0; pc_sandbox_safe := false; pc_no_vulnerable_deps := false;
     pc_complexity_score := 0 |}.

Record PackageInputs := {
  pi_content_hash : bytes;
  pi_manifest_hash : bytes;
  pi_static_analysis_score : N;
  pi_sandbox_safe : bool;
  pi_no_vulnerable_deps : bool;
  pi_complexity_score : N;
}.

Definition package_inputs_new (content_hash manifest_hash : bytes) (score : N) (safe : bool) : PackageInputs :=
  {| pi_content_hash := content_hash; pi_manifest_hash := manifest_hash;
     pi_static_analysis_score := score; pi_sandbox_safe := safe; pi_no_vulnerable_deps := true;
     pi_complexity_score := 50 |}.

Definition from_inputs (i : PackageInputs) : PackageValidationCircuit :=
  {| pc_content_hash := pi_content_hash i; pc_manifest_hash := pi_manifest_hash i;
     pc_static_analysis_score := pi_static_analysis_score i; pc_sandbox_safe := pi_sandbox_safe i;
     pc_no_vulnerable_deps := pi_no_vulnerable_deps i; pc_complexity_score := pi_complexity_score i |}.

Record BatchInputs := {
  bi_prev_root : bytes;
  bi_data_root : bytes;
  bi_next_root : bytes;
  bi_tx_count : N;
}.

Inductive ZkError :=
| CircuitError | ProofGenerationError | VerificationError | SerializationError | InvalidInput.

(** The two files of a key directory; [production] is CREG_PRODUCTION. *)
Record KeyDir := { pk_file : option bytes; vk_file : option bytes }.

Section Proofs.
Context `{!Groth16}.

(** ** Public inputs *)

Definition hash32_to_fr_limbs (hash : bytes) : Fr * Fr :=
  (fr_from_le_bytes (take 16 hash), fr_from_le_bytes (drop 16 hash)).

Definition fr_of_bool (b : bool) : Fr := fr_from_u64 (if b then 1 else 0).

Definition package_public_inputs (i : PackageInputs) : list Fr :=
  let '(content_lo, content_hi) := hash32_to_fr_limbs (pi_content_hash i) in
  let '(manifest_lo, manifest_hi) := hash32_to_fr_limbs (pi_manifest_hash i) in
  [content_lo; content_hi; manifest_lo; manifest_hi; fr_from_u64 (pi_static_analysis_score i);
   fr_of_bool (pi_sandbox_safe i); fr_of_bool (pi_no_vulnerable_deps i)].

Definition to_field_elements (i : PackageInputs) : list Fr :=
  package_public_inputs i ++ [fr_from_u64 (pi_complexity_score i)].

Definition double_sign_public_inputs (c : DoubleSignCircuit) : list Fr :=
  fr_from_le_bytes <$>
    [validator_pubkey_lo c; validator_pubkey_hi c; package_hash_lo c; package_hash_hi c;
     vote1_hash_lo c; vote1_hash_hi c; vote2_hash_lo c; vote2_hash_hi c].

Definition batch_public_inputs (c : BatchStateTransitionCircuit) : list Fr :=
  fr_from_le_bytes <$>
    [prev_root_lo c; prev_root_hi c; data_root_lo c; data_root_hi c; next_root_lo c; next_root_hi c].

Definition batch_circuit (i : BatchInputs) : BatchStateTransitionCircuit :=
  from_roots (bi_prev_root i) (bi_data_root i) (bi_next_root i) (bi_tx_count i).

Definition batch_inputs_public (i : BatchInputs) : list Fr := batch_public_inputs (batch_circuit i).

(** [out[32 - n..].copy_from_slice(&src[..n])] over 32 zero bytes, [n] at most 32. *)
Definition right_align (src : bytes) : bytes :=
  let n := Nat.min (length src) 32 in replicate (32 - n) (byte 0) ++ take n src.

Definition public_inputs_bytes (i : BatchInputs) : list bytes :=
  (λ fr, right_align (rev (fr_bytes fr))) <$> batch_inputs_public i.

(** ** Keys *)

Definition deserialize_pair (pk vk : bytes) : result ZkError (ProvingKey * VerifyingKeyG) :=
  k ← ok_or SerializationError (pk_deserialize pk);
  v ← ok_or SerializationError (vk_deserialize vk);
  Ok (k, v).

Definition saved (keys : ProvingKey * VerifyingKeyG) : KeyDir :=
  {| pk_file := Some (pk_serialize keys.1); vk_file := Some (vk_serialize keys.2) |}.

(** The keys of batches: [cache] is the process-wide [OnceLock]; [disk_ok] is whether the
    directory can be written (a failure is logged). *)
Definition load_or_generate_keys (production disk_ok : bool) (seed : N)
    (st : option (ProvingKey * VerifyingKeyG) * KeyDir)
    : (option (ProvingKey * VerifyingKeyG) * KeyDir) * result ZkError (ProvingKey * VerifyingKeyG) :=
  let '(cache, dir) := st in
  match cache with
  | Some keys => (st, Ok keys)
  | None =>
      match pk_file dir, vk_file dir with
      | Some pk, Some vk =>
          match deserialize_pair pk vk with
          | Ok keys => ((Some keys, dir), Ok keys)
          | Err e => (st, Err e)
          end
      | _, _ =>
          if production then (st, Err InvalidInput)
          else
            match g16_setup (BatchC default_batch_circuit) seed with
            | None => (st, Err ProofGenerationError)
            | Some keys => ((Some keys, if disk_ok then saved keys else dir), Ok keys)
            end
      end
  end.

(** [BatchStateTransitionValidator::generate_proof] with the keys at hand. *)
Definition generate_batch_proof (keys : ProvingKey * VerifyingKeyG) (seed : N) (i : BatchInputs)
    : result ZkError ZkProof :=
  _ ← ensure (negb (bi_tx_count i =? 0)%N) InvalidInput;
  proof ← ok_or ProofGenerationError (g16_prove keys.1 (BatchC (batch_circuit i)) seed);
  valid ← ok_or VerificationError (g16_verify keys.2 (batch_inputs_public i) proof);
  _ ← ensure valid VerificationError;
  Ok proof.

Definition verify_batch_proof (keys : ProvingKey * VerifyingKeyG) (proof : ZkProof) (i : BatchInputs)
    : result ZkError bool :=
  ok_or VerificationError (g16_verify keys.2 (batch_inputs_public i) proof).

(** [bytes.chunks(32).take(8)] *)
Fixpoint chunks32 (n : nat) (b : bytes) : list bytes :=
  match n, b with
  | O, _ | _, [] => []
  | S n', _ => take 32 b :: chunks32 n' (drop 32 b)
  end.

Definition proof_to_chunks (p : ZkProof) : list bytes :=
  right_align <$> chunks32 8 (proof_serialize p).

(** ** The package validator *)

Definition zk_generate_proof (keys : ProvingKey * VerifyingKeyG) (seed : N) (i : PackageInputs)
    : result ZkError ZkProof :=
  ok_or ProofGenerationError (g16_prove keys.1 (PackageC (from_inputs i)) seed).

Definition zk_verify_proof (keys : ProvingKey * VerifyingKeyG) (p : ZkProof) (inputs : list Fr)
    : result ZkError bool :=
  ok_or VerificationError (g16_verify keys.2 inputs p).

Definition smoke_test_inputs : PackageInputs :=
  package_inputs_new (replicate 32 (byte 0)) (replicate 32 (byte 0)) 95 true.

Definition smoke_test_keys (keys : ProvingKey * VerifyingKeyG) (seed : N) : result ZkError unit :=
  proof ← zk_generate_proof keys seed smoke_test_inputs;
  valid ← zk_verify_proof keys proof (package_public_inputs smoke_test_inputs);
  ensure valid VerificationError.

(** [ZkValidator::new]: the keys and what is on disk afterwards. *)
Definition validator_new (production disk_ok : bool) (seed smoke_seed : N) (dir : KeyDir)
    : KeyDir * result ZkError (ProvingKey * VerifyingKeyG) :=
  let fresh :=
    if production then (dir, Err InvalidInput)
    else
      match g16_setup (PackageC default_package_circuit) seed with
      | None => (dir, Err ProofGenerationError)
      | Some keys => (if disk_ok then saved keys else dir, Ok keys)
      end in
  match pk_file dir, vk_file dir with
  | Some pk, Some vk =>
      match deserialize_pair pk vk with
      | Err e => (dir, Err e)
      | Ok keys => if is_ok (smoke_test_keys keys smoke_seed) then (dir, Ok keys) else fresh
      end
  | _, _ => fresh
  end.

(** [proofs.iter().zip(..).map(..).collect::<Result<Vec<_>, _>>()] *)
Fixpoint batch_verify (keys : ProvingKey * VerifyingKeyG) (proofs : list ZkProof)
    (inputs : list (list Fr)) : result ZkError (list bool) :=
  match proofs, inputs with
  | p :: proofs', i :: inputs' =>
      b ← zk_verify_proof keys p i;
      rest ← batch_verify keys proofs' inputs';
      Ok (b :: rest)
  | _, _ => Ok []
  end.

End Proofs.

(** ** Lemmas *)

Lemma from_be_app (acc : N) (b : bytes) :
  foldl (λ acc c, acc * 256 + N_of_ascii c)%N acc b
  = (acc * 256 ^ N.of_nat (length b) + from_be_bytes b)%N.
Proof.
  unfold from_be_bytes. revert acc. induction b as [|c b IH]; intros acc.
  - cbn [foldl length]. change (256 ^ N.of_nat 0)%N with 1%N. lia.
  - cbn [foldl length]. rewrite (IH (acc * 256 + N_of_ascii c)%N), (IH (0 * 256 + N_of_ascii c)%N).
    rewrite Nat2N.inj_succ, N.pow_succ_r'. lia.
Qed.

Lemma from_be_lt (b : bytes) : (from_be_bytes b < 256 ^ N.of_nat (length b))%N.
Proof.
  induction b as [|c b IH]; [done|]. unfold from_be_bytes. cbn [foldl length].
  rewrite from_be_app, Nat2N.inj_succ, N.pow_succ_r'.
  pose proof (N_ascii_bounded c) as Hc. unfold lt in *. nia.
Qed.

Lemma from_be_inj (b1 b2 : bytes) :
  length b1 = length b2 → from_be_bytes b1 = from_be_bytes b2 → b1 = b2.
Proof.
  revert b2. induction b1 as [|c1 b1 IH]; intros [|c2 b2] Hlen Heq; try discriminate; [done|].
  injection Hlen as Hlen. unfold from_be_bytes in Heq. cbn [foldl] in Heq. rewrite !from_be_app in Heq.
  pose proof (from_be_lt b1) as H1. pose proof (from_be_lt b2) as H2. rewrite Hlen in *.
  set (p := (256 ^ N.of_nat (length b2))%N) in *.
  assert (N_of_ascii c1 = N_of_ascii c2) as Hc by nia.
  f_equal; [|apply IH; [done|nia]].
  rewrite <- (ascii_N_embedding c1), <- (ascii_N_embedding c2). by f_equal.
Qed.

Lemma length_le_bytes (k : nat) (n : N) : length (le_bytes k n) = k.
Proof. unfold le_bytes. by rewrite length_rev, length_be_bytes. Qed.

Lemma right_align_32 (b : bytes) : length b = 32 → right_align b = b.
Proof. intros Hb. unfold right_align. rewrite Hb, Nat.min_id. simpl. by apply take_ge; lia. Qed.

(** A 32-byte integer written least significant byte first and read most significant byte
    first is itself only when its bytes are a palindrome. *)
Lemma swapped_iff (w : N) :
  (w < 256 ^ 32)%N → from_be_bytes (le_bytes 32 w) = w ↔ rev (be_bytes 32 w) = be_bytes 32 w.
Proof.
  intros Hw. pose proof (from_be_bytes_be 32 w Hw) as Hbe. split.
  - intros Hle. apply from_be_inj; [by rewrite length_rev|]. by rewrite Hbe.
  - intros Hrev. unfold le_bytes. by rewrite Hrev.
Qed.

Lemma chunks32_concat (ws : list bytes) :
  Forall (λ b, length b = 32) ws → chunks32 (length ws) (concat ws) = ws.
Proof.
  induction ws as [|b ws IH]; intros Hws; [done|]. apply Forall_cons in Hws as [Hb Hws].
  cbn [length concat chunks32]. destruct (b ++ concat ws) as [|c l] eqn:E.
  - apply (f_equal length) in E. rewrite length_app in E. simpl in E. lia.
  - rewrite <- E, take_app_length', drop_app_length' by done. by rewrite IH.
Qed.

Section Laws.
Context `{Groth16Laws}.

Lemma proof_to_chunks_words (p : ZkProof) : proof_to_chunks p = le_bytes 32 <$> proof_words p.
Proof.
  pose proof (chunks32_concat (le_bytes 32 <$> proof_words p)) as Hc.
  rewrite length_fmap, proof_words_length in Hc. unfold proof_to_chunks. rewrite proof_layout, Hc.
  - rewrite <- list_fmap_compose. apply list_fmap_ext. intros i w _. simpl.
    apply right_align_32, length_le_bytes.
  - apply Forall_fmap, Forall_true. intros w. apply length_le_bytes.
Qed.

(** What the contract receives for a coordinate of a proof is the coordinate with its 32
    bytes in the opposite order: it is the coordinate itself only when the bytes read the
    same in both directions. *)
Theorem proof_chunks_byte_swapped (p : ZkProof) (i : nat) (w : N) :
  proof_words p !! i = Some w →
  ∃ chunk, proof_to_chunks p !! i = Some chunk ∧ length chunk = 32 ∧
    chunk = rev (be_bytes 32 w) ∧
    (from_be_bytes chunk = w ↔ rev (be_bytes 32 w) = be_bytes 32 w).
Proof.
  intros Hw. exists (le_bytes 32 w). rewrite proof_to_chunks_words, list_lookup_fmap, Hw.
  split_and!; [done|apply length_le_bytes|done|]. apply swapped_iff.
  apply (proof_words_bound p). by eapply list_elem_of_lookup_2.
Qed.

(** A limb on chain: sixteen zero bytes and the limb, most significant byte first. *)
Lemma limb_word (b : bytes) :
  length b = 16 → right_align (rev (fr_bytes (fr_from_le_bytes b))) = replicate 16 (byte 0) ++ rev b.
Proof.
  intros Hb. rewrite fr_limb by done. rewrite right_align_32.
  - rewrite rev_app_distr. f_equal.
  - rewrite length_rev, length_app, length_replicate, Hb. done.
Qed.

Lemma limb_word_inj (a b : bytes) :
  length a = 16 → length b = 16 →
  right_align (rev (fr_bytes (fr_from_le_bytes a))) = right_align (rev (fr_bytes (fr_from_le_bytes b))) →
  a = b.
Proof.
  intros Ha Hb. rewrite !limb_word by done. intros Heq%app_inv_head.
  by rewrite <- (rev_involutive a), Heq, rev_involutive.
Qed.

Lemma split_hash_inj (h g : bytes) : take 16 h = take 16 g → drop 16 h = drop 16 g → h = g.
Proof. intros Ht Hd. rewrite <- (take_drop 16 h), <- (take_drop 16 g). congruence. Qed.

(** The six words that a batch shows to the contract determine its three roots; they do
    not depend on the number of transactions, which a proof therefore leaves open. *)
Theorem batch_inputs_bind_roots (i j : BatchInputs) :
  Forall (λ h, length h = 32)
    [bi_prev_root i; bi_data_root i; bi_next_root i; bi_prev_root j; bi_data_root j; bi_next_root j] →
  length (public_inputs_bytes i) = 6 ∧
  (public_inputs_bytes i = public_inputs_bytes j ↔
   bi_prev_root i = bi_prev_root j ∧ bi_data_root i = bi_data_root j ∧ bi_next_root i = bi_next_root j).
Proof.
  intros Hlen. rewrite !Forall_cons in Hlen. destruct Hlen as (H1 & H2 & H3 & H4 & H5 & H6 & _).
  split; [done|]. split.
  - intros Heq. unfold public_inputs_bytes, batch_inputs_public, batch_public_inputs, batch_circuit,
      from_roots in Heq. cbn [fmap list_fmap split_hash prev_root_lo prev_root_hi data_root_lo data_root_hi
      next_root_lo next_root_hi] in Heq. injection Heq as E1 E2 E3 E4 E5 E6.
    apply limb_word_inj in E1, E2, E3, E4, E5, E6;
      try (rewrite ?length_take, ?length_drop; lia).
    split_and!; by apply split_hash_inj.
  - intros (E1 & E2 & E3). unfold public_inputs_bytes, batch_inputs_public, batch_circuit.
    by rewrite E1, E2, E3.
Qed.

End Laws.

Section Keys.
Context `{Groth16Laws}.

Lemma deserialize_saved (keys : ProvingKey * VerifyingKeyG) :
  deserialize_pair (pk_serialize keys.1) (vk_serialize keys.2) = Ok keys.
Proof. unfold deserialize_pair. rewrite pk_round, vk_round. by destruct keys. Qed.

(** A node in production never makes keys of its own: it works with the keys of its
    directory or not at all, and leaves the directory alone.  Outside production, keys
    that were made and written are the keys of every later start. *)
Theorem production_keys (disk_ok : bool) (seed smoke_seed : N) (dir : KeyDir) :
  (validator_new true disk_ok seed smoke_seed dir).1 = dir ∧
  (∀ keys, (validator_new true disk_ok seed smoke_seed dir).2 = Ok keys →
     ∃ pk vk, pk_file dir = Some pk ∧ vk_file dir = Some vk ∧ deserialize_pair pk vk = Ok keys ∧
              smoke_test_keys keys smoke_seed = Ok tt) ∧
  (∀ keys dir' production disk_ok' seed' smoke_seed',
     validator_new false true seed smoke_seed dir = (dir', Ok keys) → dir' ≠ dir →
     smoke_test_keys keys smoke_seed' = Ok tt →
     validator_new production disk_ok' seed' smoke_seed' dir' = (dir', Ok keys)).
Proof.
  unfold validator_new. split_and!.
  - by repeat case_match.
  - intros keys Hk. repeat case_match; simplify_eq/=.
    match goal with E : is_ok _ = true |- _ => apply is_ok_Ok in E as [[] E] end. eauto 10.
  - intros keys dir' production disk_ok' seed' smoke' Hnew Hne Hsmoke.
    assert (dir' = saved keys) as ->.
    { repeat case_match; simplify_eq/=; done. }
    unfold saved. cbn [pk_file vk_file]. rewrite deserialize_saved, Hsmoke. done.
Qed.

(** What a batch proof that was made is worth: it verifies under the keys that made it. *)
Lemma batch_proof_verifies (keys : ProvingKey * VerifyingKeyG) (seed : N) (i : BatchInputs) (p : ZkProof) :
  generate_batch_proof keys seed i = Ok p →
  (0 < bi_tx_count i)%N ∧ verify_batch_proof keys p i = Ok true.
Proof.
  unfold generate_batch_proof, verify_batch_proof. intros Hg. res_inv.
  match goal with E : negb _ = true |- _ => apply negb_true_iff, N.eqb_neq in E end.
  split; [lia|]. match goal with E : g16_verify _ _ _ = Some _ |- _ => rewrite E end. simpl. congruence.
Qed.

End Keys.

(** ** A stand-in instance and witnesses *)
Module ToyZk.

(** Field elements are their little-endian bytes, a proof is whether its statement held. *)
Definition words (p : bool) : list N := if p then [1; 2; 3; 4; 5; 6; 7; 8]%N else replicate 8 0%N.

Definition fit32 (b : bytes) : bytes := take 32 (b ++ replicate 32 (byte 0)).

Definition statement (c : Circuit) : bool :=
  match c with
  | PackageC c => (80 <=? pc_static_analysis_score c)%N && pc_sandbox_safe c && pc_no_vulnerable_deps c
  | DoubleSignC c => bool_decide (vote1_hash_lo c ≠ vote2_hash_lo c ∨ vote1_hash_hi c ≠ vote2_hash_hi c)
  | BatchC c => negb (tc_tx_count c =? 0)%N
  end.

#[export] Instance toy_groth16 : Groth16 := {|
  Fr := bytes; fr_from_le_bytes := id; fr_from_u64 := le_bytes 8; fr_bytes := fit32;
  ProvingKey := bytes; VerifyingKeyG := bytes; ZkProof := bool;
  g16_setup := λ _ seed, Some (le_bytes 8 seed, le_bytes 8 seed);
  g16_prove := λ _ c _, if statement c then Some true else None;
  g16_verify := λ _ _ p, Some p;
  pk_serialize := id; pk_deserialize := Some; vk_serialize := id; vk_deserialize := Some;
  proof_words := words;
  proof_serialize := λ p, concat (le_bytes 32 <$> words p);
  proof_deserialize := λ b, Some (bool_decide (b = concat (le_bytes 32 <$> words true)));
|}.

#[export] Instance toy_groth16_laws : Groth16Laws.
Proof.
  split; cbn; try done.
  - intros []; [by rewrite bool_decide_eq_true_2|]. rewrite bool_decide_eq_false_2; [done|].
    intros E. apply (f_equal head) in E. by vm_compute in E.
  - by intros [].
  - intros [] w Hw; cbn in Hw;
      repeat (apply elem_of_cons in Hw as [->|Hw]; [done|]); by apply elem_of_nil in Hw.
  - intros b Hb. unfold fit32. rewrite take_app_ge by lia. f_equal. by rewrite Hb.
Qed.

End ToyZk.

Module ZkWitness.
Import ToyZk.

Definition good : @ZkProof toy_groth16 := true.

Lemma proof_chunks_byte_swapped_witness :
  ∃ chunk, proof_to_chunks good !! 1 = Some chunk ∧ length chunk = 32 ∧
    chunk = rev (be_bytes 32 2) ∧
    (from_be_bytes chunk = 2%N ↔ rev (be_bytes 32 2) = be_bytes 32 2).
Proof. apply (proof_chunks_byte_swapped good 1 2). reflexivity. Defined.

(** The second coordinate, 2, is read as 2 times 256 to the 31. *)
Example swapped_coordinate : from_be_bytes <$> proof_to_chunks good !! 1 = Some (2 * 256 ^ 31)%N.
Proof. vm_compute. reflexivity. Qed.

Definition root (c : N) : bytes := replicate 32 (byte c).
Definition batch (n : N) : BatchInputs :=
  {| bi_prev_root := root 1; bi_data_root := root 2; bi_next_root := root 3; bi_tx_count := n |}.

Lemma batch_inputs_bind_roots_witness :
  length (public_inputs_bytes (batch 1)) = 6 ∧
  (public_inputs_bytes (batch 1) = public_inputs_bytes (batch 1000) ↔
   root 1 = root 1 ∧ root 2 = root 2 ∧ root 3 = root 3).
Proof. apply (batch_inputs_bind_roots (batch 1) (batch 1000)). repeat constructor. Defined.

Lemma production_keys_witness :
  let dir := {| pk_file := Some (le_bytes 8 7); vk_file := Some (le_bytes 8 7) |} in
  (validator_new true true 9 3 dir).1 = dir ∧
  (∀ keys, (validator_new true true 9 3 dir).2 = Ok keys →
     ∃ pk vk, pk_file dir = Some pk ∧ vk_file dir = Some vk ∧ deserialize_pair pk vk = Ok keys ∧
              smoke_test_keys keys 3 = Ok tt).
Proof.
  destruct (production_keys true 9 3 {| pk_file := Some (le_bytes 8 7); vk_file := Some (le_bytes 8 7) |})
    as (H1 & H2 & _).
  split; [exact H1|exact H2].
Defined.

(** Ephemeral keys outside production, then the same keys in production. *)
Example production_keys_run :
  let none := {| pk_file := None; vk_file := None |} in
  let '(dir, keys) := validator_new false true 7 1 none in
  validator_new true true 8 2 none = (none, Err InvalidInput) ∧
  is_ok keys = true ∧ (validator_new true true 9 3 dir).2 = keys.
Proof. vm_compute. done. Qed.

End ZkWitness.
