(* ===== verification/Settlement.v ===== *)
(** The settlement of rollup batches on L1 (contracts/Governance.sol, Registry.sol).

    The multisignature governance (proposals, votes, automatic execution, signer
    management) and the part of the registry contract that it drives: the state roots of
    the batches.  A transaction is a message with its sender and block time; one that
    reverts leaves the storage as it was.  The pairing check of the proof verifier is the
    interface [PairingCheck]; calls of proposals other than the functions of the two
    contracts at their own addresses are its [other_call], which change none of the storage of
    this file. *)

From S2P Require Import Prelude Text.
From Stdlib Require Import NArith.

Inductive SettleRevert :=
| NotSigner
| AlreadyVoted
| ProposalNotPending
| VotingPeriodExpired
| ExecutionFailed
| SystemPaused
| NotGovernance
| InvalidPreviousRoot
| InvalidProofLength
| InvalidPublicInputLength
| PairingReverted
| InvalidZKProof
| OnlyViaProposal
| AlreadyASigner
| NotASigner
| WouldBreakThreshold
| InvalidThreshold
| OtherCallFailed.
#[export] Instance SettleRevert_eq_dec : EqDecision SettleRevert.
Proof. solve_decision. Defined.

(** ** Registry *)

Record Batch := {
  b_prevRoot : string;
  b_nextRoot : string;
  b_txCount : N;
  b_dataRoot : string;
  b_proof : list N;
  b_publicInputs : list N;
}.

Record RegistryL1 := {
  rg_address : N;
  rg_governance : N;
  rg_latestStateRoot : string;
  rg_totalBatches : N;
  rg_batchRoots : gmap N string;
  rg_batchDataRoots : gmap N string;
}.

(** The encoded calls of proposals, by the function that the target decodes. *)
Inductive CallData :=
| SubmitRollupBatch (b : Batch)
| AddSigner (newSigner : N)
| RemoveSigner (signer : N)
| UpdateThreshold (newThreshold : N)
| OtherCall (data : string).

Class PairingCheck := {
  pairing_check : list N → list N → option bool;   (* _linearCombination and _pairingCheck *)
  vk_ic_length : nat;                              (* vk.ic.length *)
  other_call : N → CallData → bool;                (* p.target.call(..) elsewhere: success *)
}.

Section Registry.
Context `{PC : !PairingCheck}.

(** [ZKVerifier.verifyProof] *)
Definition verifyProof (proof publicInputs : list N) : result SettleRevert bool :=
  _ ← ensure (length proof =? 8) InvalidProofLength;
  _ ← ensure (S (length publicInputs) =? vk_ic_length) InvalidPublicInputLength;
  ok_or PairingReverted (pairing_check proof publicInputs).

Definition submitRollupBatch (r : RegistryL1) (sender : N) (b : Batch) : result SettleRevert RegistryL1 :=
  _ ← ensure (sender =? rg_governance r)%N NotGovernance;
  _ ← ensure (String.eqb (b_prevRoot b) (rg_latestStateRoot r)) InvalidPreviousRoot;
  proofValid ← verifyProof (b_proof b) (b_publicInputs b);
  _ ← ensure proofValid InvalidZKProof;
  let n := (rg_totalBatches r + 1)%N in
  Ok {| rg_address := rg_address r; rg_governance := rg_governance r;
        rg_latestStateRoot := b_nextRoot b; rg_totalBatches := n;
        rg_batchRoots := <[n := b_nextRoot b]> (rg_batchRoots r);
        rg_batchDataRoots := <[n := b_dataRoot b]> (rg_batchDataRoots r) |}.

End Registry.

(** ** Governance *)

Inductive ProposalStatus := Pending | Executed | Cancelled.
#[export] Instance ProposalStatus_eq_dec : EqDecision ProposalStatus.
Proof. solve_decision. Defined.

Record Proposal := {
  p_target : N;
  p_callData : CallData;
  p_description : string;
  p_submittedAt : N;
  p_executedAt : N;
  p_status : ProposalStatus;
  p_approvalCount : N;
  p_rejectionCount : N;
  p_voted : gmap N bool;   (* voted and approval: absent, or how the signer voted *)
}.

(** The storage of an identifier that was never submitted. *)
Definition no_proposal : Proposal :=
  {| p_target := 0; p_callData := OtherCall ""; p_description := ""; p_submittedAt := 0;
     p_executedAt := 0; p_status := Pending; p_approvalCount := 0; p_rejectionCount := 0;
     p_voted := ∅ |}.

Record Governance := {
  gv_address : N;
  gv_signers : list N;
  gv_isSigner : gset N;
  gv_threshold : N;
  gv_proposalCount : N;
  gv_votingPeriod : N;
  gv_paused : bool;
  gv_proposals : gmap N Proposal;
}.

Record L1 := { l1_gov : Governance; l1_reg : RegistryL1 }.

Definition proposal (g : Governance) (id : N) : Proposal := default no_proposal (gv_proposals g !! id).

Definition with_proposals (g : Governance) (count : N) (m : gmap N Proposal) : Governance :=
  {| gv_address := gv_address g; gv_signers := gv_signers g; gv_isSigner := gv_isSigner g;
     gv_threshold := gv_threshold g; gv_proposalCount := count; gv_votingPeriod := gv_votingPeriod g;
     gv_paused := gv_paused g; gv_proposals := m |}.

Definition with_signers (g : Governance) (signers : list N) (isSigner : gset N) (threshold : N) : Governance :=
  {| gv_address := gv_address g; gv_signers := signers; gv_isSigner := isSigner;
     gv_threshold := threshold; gv_proposalCount := gv_proposalCount g;
     gv_votingPeriod := gv_votingPeriod g; gv_paused := gv_paused g; gv_proposals := gv_proposals g |}.

Definition is_signer (g : Governance) (a : N) : bool := bool_decide (a ∈ gv_isSigner g).

Definition submit (l : L1) (now sender target : N) (callData : CallData) (description : string)
    : result SettleRevert (L1 * N) :=
  let g := l1_gov l in
  _ ← ensure (negb (gv_paused g)) SystemPaused;
  _ ← ensure (is_signer g sender) NotSigner;
  let id := gv_proposalCount g in
  let old := proposal g id in
  let p := {| p_target := target; p_callData := callData; p_description := description;
              p_submittedAt := now; p_executedAt := p_executedAt old; p_status := Pending;
              p_approvalCount := p_approvalCount old; p_rejectionCount := p_rejectionCount old;
              p_voted := p_voted old |} in
  Ok ({| l1_gov := with_proposals g (id + 1) (<[id := p]> (gv_proposals g)); l1_reg := l1_reg l |}, id).

Definition addSigner (g : Governance) (sender newSigner : N) : result SettleRevert Governance :=
  _ ← ensure (sender =? gv_address g)%N OnlyViaProposal;
  _ ← ensure (negb (is_signer g newSigner)) AlreadyASigner;
  Ok (with_signers g (gv_signers g ++ [newSigner]) ({[newSigner]} ∪ gv_isSigner g) (gv_threshold g)).

(** Replace the first occurrence by the last element and drop the last one. *)
Fixpoint swap_and_pop (signers : list N) (signer last : N) : list N :=
  match signers with
  | [] => []
  | [s] => if (s =? signer)%N then [] else [s]
  | s :: rest => if (s =? signer)%N then last :: removelast rest else s :: swap_and_pop rest signer last
  end.

Definition removeSigner (g : Governance) (sender signer : N) : result SettleRevert Governance :=
  _ ← ensure (sender =? gv_address g)%N OnlyViaProposal;
  _ ← ensure (is_signer g signer) NotASigner;
  _ ← ensure (gv_threshold g <=? N.of_nat (length (gv_signers g)) - 1)%N WouldBreakThreshold;
  Ok (with_signers g (swap_and_pop (gv_signers g) signer (List.last (gv_signers g) 0%N))
        (gv_isSigner g ∖ {[signer]}) (gv_threshold g)).

Definition updateThreshold (g : Governance) (sender newThreshold : N) : result SettleRevert Governance :=
  _ ← ensure (sender =? gv_address g)%N OnlyViaProposal;
  _ ← ensure ((0 <? newThreshold) && (newThreshold <=? N.of_nat (length (gv_signers g))))%N InvalidThreshold;
  Ok (with_signers g (gv_signers g) (gv_isSigner g) newThreshold).

Section Execution.
Context `{PC : !PairingCheck}.

(** [p.target.call(p.callData)], dispatched on the contract at the target: the functions of the two
    contracts at their own addresses, [other_call] for anything else. *)
Definition call_target (l : L1) (target : N) (data : CallData) : result SettleRevert L1 :=
  let g := l1_gov l in
  let on_gov r := g' ← r; Ok {| l1_gov := g'; l1_reg := l1_reg l |} in
  let elsewhere := if other_call target data then Ok l else Err OtherCallFailed in
  match data with
  | SubmitRollupBatch b =>
      if (target =? rg_address (l1_reg l))%N then
        r ← submitRollupBatch (l1_reg l) (gv_address g) b;
        Ok {| l1_gov := g; l1_reg := r |}
      else elsewhere
  | AddSigner s => if (target =? gv_address g)%N then on_gov (addSigner g (gv_address g) s) else elsewhere
  | RemoveSigner s => if (target =? gv_address g)%N then on_gov (removeSigner g (gv_address g) s) else elsewhere
  | UpdateThreshold n => if (target =? gv_address g)%N then on_gov (updateThreshold g (gv_address g) n) else elsewhere
  | OtherCall s => elsewhere
  end.

Definition set_proposal (l : L1) (id : N) (p : Proposal) : L1 :=
  {| l1_gov := with_proposals (l1_gov l) (gv_proposalCount (l1_gov l)) (<[id := p]> (gv_proposals (l1_gov l)));
     l1_reg := l1_reg l |}.

Definition with_status (p : Proposal) (executedAt : N) (st : ProposalStatus) : Proposal :=
  {| p_target := p_target p; p_callData := p_callData p; p_description := p_description p;
     p_submittedAt := p_submittedAt p; p_executedAt := executedAt; p_status := st;
     p_approvalCount := p_approvalCount p; p_rejectionCount := p_rejectionCount p; p_voted := p_voted p |}.

Definition execute (l : L1) (now id : N) : result SettleRevert L1 :=
  let p := proposal (l1_gov l) id in
  map_err (λ _, ExecutionFailed)
    (call_target (set_proposal l id (with_status p now Executed)) (p_target p) (p_callData p)).

Definition record_ballot (p : Proposal) (sender : N) (approve : bool) : Proposal :=
  {| p_target := p_target p; p_callData := p_callData p; p_description := p_description p;
     p_submittedAt := p_submittedAt p; p_executedAt := p_executedAt p; p_status := p_status p;
     p_approvalCount := p_approvalCount p + (if approve then 1 else 0);
     p_rejectionCount := p_rejectionCount p + (if approve then 0 else 1);
     p_voted := <[sender := approve]> (p_voted p) |}.

Definition vote (l : L1) (now sender id : N) (approve : bool) : result SettleRevert L1 :=
  let g := l1_gov l in
  let p := proposal g id in
  _ ← ensure (is_signer g sender) NotSigner;
  _ ← ensure (bool_decide (p_status p = Pending)) ProposalNotPending;
  _ ← ensure (now <=? p_submittedAt p + gv_votingPeriod g)%N VotingPeriodExpired;
  _ ← ensure (bool_decide (p_voted p !! sender = None)) AlreadyVoted;
  let p' := record_ballot p sender approve in
  let l' := set_proposal l id p' in
  if (gv_threshold g <=? p_approvalCount p')%N then execute l' now id else Ok l'.

Definition cancel (l : L1) (sender id : N) : result SettleRevert L1 :=
  let p := proposal (l1_gov l) id in
  _ ← ensure (is_signer (l1_gov l) sender) NotSigner;
  _ ← ensure (bool_decide (p_status p = Pending)) ProposalNotPending;
  Ok (set_proposal l id (with_status p (p_executedAt p) Cancelled)).

(** ** Transactions *)

Inductive L1Tx :=
| TxSubmit (now sender target : N) (data : CallData) (description : string)
| TxVote (now sender id : N) (approve : bool)
| TxCancel (sender id : N).

Definition exec_tx (l : L1) (t : L1Tx) : result SettleRevert L1 :=
  match t with
  | TxSubmit now sender target data d => fst <$> submit l now sender target data d
  | TxVote now sender id approve => vote l now sender id approve
  | TxCancel sender id => cancel l sender id
  end.

Definition apply_tx (l : L1) (t : L1Tx) : L1 :=
  match exec_tx l t with
  | Ok l' => l'
  | Err _ => l
  end.

Definition apply_txs (l : L1) (txs : list L1Tx) : L1 := foldl apply_tx l txs.

End Execution.

(** ** State roots *)

Section Roots.
Context `{PC : !PairingCheck}.

Lemma call_target_registry (l l' : L1) (target : N) (data : CallData) :
  call_target l target data = Ok l' →
  l1_reg l' = l1_reg l ∨
  ∃ b, submitRollupBatch (l1_reg l) (gv_address (l1_gov l)) b = Ok (l1_reg l').
Proof.
  destruct data as [b|s|s|n|s]; cbn [call_target]; intros Hc; repeat case_match; try discriminate Hc;
    res_inv; simplify_eq; eauto.
Qed.

(** A transaction leaves the registry alone or settles one batch in it. *)
Lemma exec_tx_registry (l l' : L1) (t : L1Tx) :
  exec_tx l t = Ok l' →
  l1_reg l' = l1_reg l ∨
  ∃ b now sender id approve, t = TxVote now sender id approve ∧
    submitRollupBatch (l1_reg l) (gv_address (l1_gov l)) b = Ok (l1_reg l').
Proof.
  destruct t as [now sender target data d|now sender id approve|sender id]; cbn [exec_tx].
  - intros H. left. destruct (submit _ _ _ _ _ _) as [[l1 id]|] eqn:Hs; [|discriminate H].
    injection H as <-. unfold submit in Hs. res_inv. done.
  - unfold vote. intros H. res_inv. case_match; [|injection H as <-; by left].
    unfold execute in H. res_inv. destruct (call_target_registry _ _ _ _ H) as [->|[b Hb]]; [by left|].
    right. eauto 10.
  - unfold cancel. intros H. res_inv. by left.
Qed.

Fixpoint chained (root : string) (bs : list Batch) : Prop :=
  match bs with
  | [] => True
  | b :: rest => b_prevRoot b = root ∧ verifyProof (b_proof b) (b_publicInputs b) = Ok true ∧
                 chained (b_nextRoot b) rest
  end.

Definition end_root (root : string) (bs : list Batch) : string :=
  foldl (λ _ b, b_nextRoot b) root bs.

(** [r'] is [r] after the batches [bs]. *)
Definition settles (r r' : RegistryL1) (bs : list Batch) : Prop :=
  chained (rg_latestStateRoot r) bs ∧
  rg_latestStateRoot r' = end_root (rg_latestStateRoot r) bs ∧
  rg_totalBatches r' = (rg_totalBatches r + N.of_nat (length bs))%N ∧
  (∀ n, (n ≤ rg_totalBatches r)%N →
     rg_batchRoots r' !! n = rg_batchRoots r !! n ∧ rg_batchDataRoots r' !! n = rg_batchDataRoots r !! n) ∧
  (∀ i b, bs !! i = Some b →
     rg_batchRoots r' !! (rg_totalBatches r + 1 + N.of_nat i)%N = Some (b_nextRoot b) ∧
     rg_batchDataRoots r' !! (rg_totalBatches r + 1 + N.of_nat i)%N = Some (b_dataRoot b)).

Lemma settles_refl (r : RegistryL1) : settles r r [].
Proof. repeat split; cbn; try done; lia. Qed.

Lemma submit_settles (r r' : RegistryL1) (sender : N) (b : Batch) :
  submitRollupBatch r sender b = Ok r' → settles r r' [b].
Proof.
  unfold submitRollupBatch. intros H. res_inv.
  match goal with E : String.eqb _ _ = true |- _ => apply String.eqb_eq in E end.
  unfold settles. cbn. split_and!; try done.
  - intros n Hn. rewrite !lookup_insert_ne by lia. done.
  - intros [|i] b' Hi; [injection Hi as <-|discriminate Hi].
    rewrite N.add_0_r, !lookup_insert_eq. done.
Qed.

Lemma chained_app (root : string) (bs1 bs2 : list Batch) :
  chained root (bs1 ++ bs2) ↔ chained root bs1 ∧ chained (end_root root bs1) bs2.
Proof.
  revert root. induction bs1 as [|b bs1 IH]; intros root; cbn; [tauto|].
  rewrite IH. unfold end_root. cbn. tauto.
Qed.

Lemma settles_trans (r1 r2 r3 : RegistryL1) (bs1 bs2 : list Batch) :
  settles r1 r2 bs1 → settles r2 r3 bs2 → settles r1 r3 (bs1 ++ bs2).
Proof.
  intros (Hc1 & Hr1 & Ht1 & Hold1 & Hnew1) (Hc2 & Hr2 & Ht2 & Hold2 & Hnew2). unfold settles.
  rewrite chained_app, length_app. split_and!.
  - done.
  - by rewrite <- Hr1.
  - rewrite Hr2, Hr1. unfold end_root. by rewrite foldl_app.
  - lia.
  - intros n Hn. destruct (Hold1 n Hn) as [<- <-]. apply Hold2. lia.
  - intros i b Hi. apply lookup_app_Some in Hi as [Hi|[Hlen Hi]].
    + destruct (Hnew1 i b Hi) as [<- <-]. apply lookup_lt_Some in Hi. apply Hold2. lia.
    + destruct (Hnew2 _ b Hi) as [H1 H2]. rewrite Ht1 in H1, H2.
      replace (rg_totalBatches r1 + 1 + N.of_nat i)%N
        with (rg_totalBatches r1 + N.of_nat (length bs1) + 1 + N.of_nat (i - length bs1))%N by lia. done.
Qed.

(** Whatever transactions the chain sees, the registry's roots are those of a sequence of
    batches that starts at the root it had, each batch taking up the root of the one before
    it with a proof that was checked; the roots recorded earlier stay. *)
Theorem state_roots_form_chain (l : L1) (txs : list L1Tx) :
  ∃ bs, settles (l1_reg l) (l1_reg (apply_txs l txs)) bs.
Proof.
  revert l. induction txs as [|t txs IH]; intros l; [exists []; apply settles_refl|].
  cbn. destruct (IH (apply_tx l t)) as [bs Hbs].
  assert (∃ bs0, settles (l1_reg l) (l1_reg (apply_tx l t)) bs0) as [bs0 Hbs0].
  { unfold apply_tx. destruct (exec_tx l t) as [l'|] eqn:Hx; [|exists []; apply settles_refl].
    destruct (exec_tx_registry _ _ _ Hx) as [->|(b & ? & ? & ? & ? & _ & Hb)];
      [exists []; apply settles_refl|]. exists [b]. by eapply submit_settles. }
  exists (bs0 ++ bs). by eapply settles_trans.
Qed.

End Roots.

(** ** Ballots *)

Section Ballots.
Context `{PC : !PairingCheck}.

(** Who voted [approve] on a proposal. *)
Definition ballots (approve : bool) (p : Proposal) : gset N :=
  dom (filter (λ kv : N * bool, kv.2 = approve) (p_voted p)).

Definition counts_ok (p : Proposal) : Prop :=
  p_approvalCount p = N.of_nat (size (ballots true p)) ∧
  p_rejectionCount p = N.of_nat (size (ballots false p)).

Definition gov_ok (g : Governance) : Prop := ∀ id, counts_ok (proposal g id).

Lemma counts_no_proposal : counts_ok no_proposal.
Proof. split; vm_compute; reflexivity. Qed.

Lemma ballots_record (p : Proposal) (sender : N) (approve b : bool) :
  p_voted p !! sender = None →
  ballots b (record_ballot p sender approve)
  = if Bool.eqb approve b then {[sender]} ∪ ballots b p else ballots b p.
Proof.
  intros Hn. unfold ballots. cbn [p_voted record_ballot]. destruct (Bool.eqb_spec approve b).
  - rewrite map_filter_insert_True by done. by rewrite dom_insert_L.
  - by rewrite map_filter_insert_not' by (simpl; naive_solver congruence).
Qed.

Lemma counts_record (p : Proposal) (sender : N) (approve : bool) :
  p_voted p !! sender = None → counts_ok p → counts_ok (record_ballot p sender approve).
Proof.
  intros Hn [Ha Hr].
  assert (∀ b, sender ∉ ballots b p) as Hnew.
  { intros b Hb. unfold ballots in Hb. apply elem_of_dom in Hb as [v Hv].
    apply map_lookup_filter_Some in Hv as [Hv _]. congruence. }
  unfold counts_ok. rewrite !ballots_record by done.
  destruct approve; cbn [Bool.eqb record_ballot p_approvalCount p_rejectionCount];
    rewrite ?size_union, ?size_singleton by (pose proof (Hnew true); pose proof (Hnew false); set_solver);
    lia.
Qed.

Lemma proposal_insert (g : Governance) (count id id' : N) (p : Proposal) :
  proposal (with_proposals g count (<[id := p]> (gv_proposals g))) id'
  = if decide (id' = id) then p else proposal g id'.
Proof.
  unfold proposal. cbn. case_decide; subst; by rewrite ?lookup_insert_eq, ?lookup_insert_ne by done.
Qed.

Lemma gov_ok_set (l : L1) (id : N) (p : Proposal) :
  gov_ok (l1_gov l) → counts_ok p → gov_ok (l1_gov (set_proposal l id p)).
Proof. intros Hg Hp id'. cbn. rewrite proposal_insert. by case_decide. Qed.

Lemma call_target_gov (l l' : L1) (target : N) (data : CallData) :
  call_target l target data = Ok l' → gv_proposals (l1_gov l') = gv_proposals (l1_gov l).
Proof.
  destruct data as [b|s|s|n|s]; cbn [call_target]; intros Hc; repeat case_match; try discriminate Hc;
    res_inv; simplify_eq; try done; unfold addSigner, removeSigner, updateThreshold in *; res_inv; done.
Qed.

Lemma exec_tx_gov (l l' : L1) (t : L1Tx) :
  gov_ok (l1_gov l) → exec_tx l t = Ok l' → gov_ok (l1_gov l').
Proof.
  intros Hg. destruct t as [now sender target data d|now sender id approve|sender id]; cbn [exec_tx].
  - intros Hx. destruct (submit _ _ _ _ _ _) as [[l1 id]|] eqn:Hs; [|discriminate Hx].
    injection Hx as <-. unfold submit in Hs. res_inv. intros id'. cbn. rewrite proposal_insert.
    case_decide; [|apply Hg]. apply (Hg (gv_proposalCount (l1_gov l))).
  - unfold vote. intros Hx. res_inv.
    match goal with E : bool_decide (_ !! _ = None) = true |- _ => apply bool_decide_eq_true in E; rename E into Hv end.
    assert (gov_ok (l1_gov (set_proposal l id (record_ballot (proposal (l1_gov l) id) sender approve)))) as Hg1
      by (apply gov_ok_set; [done|]; by apply counts_record).
    case_match; [|by injection Hx as <-]. unfold execute in Hx. res_inv.
    apply call_target_gov in Hx. intros id'. unfold proposal. rewrite Hx.
    apply gov_ok_set; [done|]. apply (Hg1 id).
  - unfold cancel. intros Hx. res_inv. apply gov_ok_set; [done|]. apply (Hg id).
Qed.

Lemma apply_txs_gov (l : L1) (txs : list L1Tx) : gov_ok (l1_gov l) → gov_ok (l1_gov (apply_txs l txs)).
Proof.
  revert l. induction txs as [|t txs IH]; intros l Hg; [done|]. cbn. apply IH.
  unfold apply_tx. destruct (exec_tx l t) eqn:Hx; [|done]. by eapply exec_tx_gov.
Qed.


End Ballots.

(** ** Witnesses *)
Module SettlementWitness.

#[export] Instance open_check : PairingCheck :=
  {| pairing_check := λ _ _, Some true; vk_ic_length := 7; other_call := λ _ _, true |}.

Definition deployed : L1 :=
  {| l1_gov := {| gv_address := 2000; gv_signers := [1; 2; 3]%N; gv_isSigner := {[1; 2; 3]}%N;
                  gv_threshold := 2; gv_proposalCount := 0; gv_votingPeriod := 259200;
                  gv_paused := false; gv_proposals := ∅ |};
     l1_reg := {| rg_address := 1000; rg_governance := 2000; rg_latestStateRoot := "r0";
                  rg_totalBatches := 0; rg_batchRoots := ∅; rg_batchDataRoots := ∅ |} |}.

Definition batch (prev next : string) : Batch :=
  {| b_prevRoot := prev; b_nextRoot := next; b_txCount := 1; b_dataRoot := "d";
     b_proof := repeat 1%N 8; b_publicInputs := repeat 1%N 6 |}.

Definition history : list L1Tx :=
  [TxSubmit 5 1 1000 (SubmitRollupBatch (batch "r0" "r1")) ""; TxVote 6 1 0 true; TxVote 7 9 0 true;
   TxVote 7 1 0 true].

Example history_waits : rg_latestStateRoot (l1_reg (apply_txs deployed history)) = "r0".
Proof. vm_compute. reflexivity. Qed.


(** A lowered threshold lets a vote against a proposal execute it, on the approval of an
    account that is no longer a signer. *)
Definition lowering : list L1Tx :=
  [TxSubmit 5 1 1000 (SubmitRollupBatch (batch "r0" "r1")) ""; TxVote 6 1 0 true;
   TxSubmit 6 2 2000 (UpdateThreshold 1) ""; TxVote 6 2 1 true; TxVote 6 3 1 true;
   TxSubmit 7 2 2000 (RemoveSigner 1) ""; TxVote 7 2 2 true].

Example rejection_executes :
  let l := apply_txs deployed lowering in
  is_signer (l1_gov l) 1 = false ∧ rg_latestStateRoot (l1_reg l) = "r0" ∧
  rg_latestStateRoot (l1_reg (apply_tx l (TxVote 8 3 0 false))) = "r1".
Proof. by vm_compute. Qed.

End SettlementWitness.
