(* ===== verification/Bridge.v ===== *)
(** The bridge to L1 (node/src/bridge.rs, bridge_anchors.rs).

    A tick reads the registry's root, gathers the verified publications of the blocks since
    the last tick, proves the batch, proposes it to the governance and votes for it, and
    writes the anchor journal and the status of the node.  The answers of the L1 endpoint
    and what other accounts do on L1 meanwhile are the record [TickEnv]; a transaction is
    estimated when it is sent and runs when it is included, on the storage of that moment,
    and the bridge does not look at the status in its receipt.  The journal file is [None]
    when it is missing or cannot be read. *)

From S2P Require Import Prelude Text Crypto Types Merkle ChainStore Gf256 Shamir Threshold Staking Zk Settlement.
From Stdlib Require Import Ascii NArith.

(** ** The anchor journal *)

Record AnchorRecord := {
  l2_height_start : N;
  l2_height : N;
  l1_tx_hash : option string;
  l1_block : option N;
  an_prev_root : string;
  an_state_root : string;
  an_data_root : string;
  an_tx_count : N;
  proposal_id : string;
  committed_at : string;
  an_proof_mode : string;
}.

Definition MAX_ANCHORS : nat := 500.

Definition load (journal : option (list AnchorRecord)) : list AnchorRecord := default [] journal.

(** The file after the call, and the number of records; [ok] is whether it could be written. *)
Definition append (ok : bool) (journal : option (list AnchorRecord)) (record : AnchorRecord)
    : option (list AnchorRecord) * option nat :=
  let anchors := take MAX_ANCHORS (record :: load journal) in
  if ok then (Some anchors, Some (length anchors)) else (journal, None).

(** ** Batches *)

Section Batches.
Context `{!Crypto}.

Definition raw_node (a b : string) : string := sha256 (a +:+ b).

Fixpoint raw_pair_up (hashes : list string) : list string :=
  match hashes with
  | a :: b :: rest => raw_node a b :: raw_pair_up rest
  | _ => []
  end.

(** [while current.len() > 1 { .. }]: each round halves the level. *)
Fixpoint raw_reduce (fuel : nat) (current : list string) : list string :=
  match fuel with
  | O => current
  | S fuel' => if (1 <? length current)%nat then raw_reduce fuel' (raw_pair_up (pad current)) else current
  end.

Definition bridge_merkle_root (leaves : list string) : string :=
  match leaves with
  | [] => to_str (replicate 32 (byte 0))
  | _ => default "" (head (raw_reduce (length leaves) leaves))
  end.

Definition batch_leaf (r : ChainRecord) : string :=
  sha256 (canonical (rec_id r) +:+ rec_content_hash r).

Definition verified_publish (tx : Transaction) : option ChainRecord :=
  match tx with
  | Publish record => if bool_decide (rec_status record = Verified) then Some record else None
  | _ => None
  end.

(** The verified publications of the blocks of the heights after [last] up to [tip]. *)
Definition batch_transactions (chain : ChainStore) (last tip : N) : list ChainRecord :=
  concat ((λ h, match get_block_by_height chain h with
                | Some b => omap verified_publish (transactions b)
                | None => []
                end) <$> heights (last + 1) tip).

Definition data_root_of (records : list ChainRecord) : string :=
  bridge_merkle_root (batch_leaf <$> records).

Definition next_root_of (prev_root data_root : string) : string := sha256 (prev_root +:+ data_root).

End Batches.

(** ** A tick *)

Definition PROOF_MODE : string := "checkpoint-attestation".

(** CREG_BRIDGE_SELF_APPROVE *)
Definition bridge_self_approve_enabled (var : option string) : bool :=
  match var with
  | Some v => eq_ignore_ascii_case (trim v) "true" || String.eqb (trim v) "1"
  | None => true
  end.

Definition NULL_GOVERNANCE : string := "0x0000000000000000000000000000000000000000".

Record BridgeConfig := {
  bc_rpc_url_ok : bool;             (* eth_rpc_url.parse() succeeds *)
  bc_registry_addr : string;
  bc_governance_addr : string;
  bc_bridge_privkey : option string;
  bc_self_approve : option string;
}.

Record BridgeStatus := {
  bridge_sync_status : string;
  last_finalized_eth_block : N;
  finalized_l1_block : option N;
  current_state_root : string;
  last_anchor_tx_hash : option string;
  last_anchor_at : option string;
  proof_mode : string;
  anchor_count : nat;
}.

Record BridgeWorld := {
  w_l1 : L1;
  w_journal : option (list AnchorRecord);
  w_status : BridgeStatus;
  w_last : N;
}.

(** A transaction as the endpoint treats it: whether it could be sent, what is included
    before it, and whether the bridge saw it included. *)
Record SendEnv := { se_sent : bool; se_pending : list L1Tx; se_watched : bool }.

Section Tick.
Context `{!Crypto, !Ethereum, !PairingCheck, !Groth16}.

Record TickEnv := {
  te_now : N;                              (* time of the L1 blocks *)
  te_root_ok : bool;                       (* latestStateRoot() answered *)
  te_keys : result ZkError (ProvingKey * VerifyingKeyG);
  te_seed : N;
  te_task_ok : bool;                       (* the proof task did not panic *)
  te_meanwhile : list L1Tx;                (* included while the proof is made *)
  te_count_ok : bool;                      (* proposalCount() answered *)
  te_before_submit : list L1Tx;
  te_submit : SendEnv;
  te_before_vote : list L1Tx;
  te_vote : SendEnv;
  te_vote_hash : string;
  te_receipt_block : option N;
  te_finalized : option N;
  te_head : option N;
  te_committed_at : string;
  te_append_ok : bool;
}.

Inductive TickError :=
| BadBridgeKey | BadRpcUrl | BadRegistryAddr | BadGovernanceAddr | RootReadFailed
| ProofTaskPanicked | ProofFailed | CountReadFailed | RollupFailed.

Definition send (l : L1) (t : L1Tx) (e : SendEnv) : L1 * bool :=
  if se_sent e && is_ok (exec_tx l t) then
    (apply_tx (apply_txs l (se_pending e)) t, se_watched e)
  else (l, false).

(** The proof as eight integers and the public inputs, as the contract receives them. *)
Definition to_u256s (n : nat) (chunks : list bytes) : list N :=
  take n ((from_be_bytes <$> chunks) ++ replicate n 0%N).

Definition batch_proof (env : TickEnv) (i : BatchInputs) : result TickError (list N * list N) :=
  _ ← ensure (te_task_ok env) ProofTaskPanicked;
  keys ← map_err (λ _, ProofFailed) (te_keys env);
  proof ← map_err (λ _, ProofFailed) (generate_batch_proof keys (te_seed env) i);
  Ok (to_u256s 8 (proof_to_chunks proof), from_be_bytes <$> public_inputs_bytes i).

(** The two governance transactions: [Ok None] while the approval of others is awaited. *)
Definition propose (env : TickEnv) (self_approve : bool) (bridge registry : N) (b : Batch)
    (proposal_id : N) (l : L1) : L1 * result TickError (option string) :=
  let l := apply_txs l (te_before_submit env) in
  let '(l, ok) := send l (TxSubmit (te_now env) bridge registry (SubmitRollupBatch b)
                            ("Submit rollup batch " +:+ fmt_N proposal_id)) (te_submit env) in
  if negb ok then (l, Err RollupFailed)
  else if negb self_approve then (l, Ok None)
  else
    let l := apply_txs l (te_before_vote env) in
    let '(l, ok) := send l (TxVote (te_now env) bridge proposal_id true) (te_vote env) in
    if negb ok then (l, Err RollupFailed) else (l, Ok (Some (te_vote_hash env))).

Definition with_sync_status (s : BridgeStatus) (text : string) : BridgeStatus :=
  {| bridge_sync_status := text; last_finalized_eth_block := last_finalized_eth_block s;
     finalized_l1_block := finalized_l1_block s; current_state_root := current_state_root s;
     last_anchor_tx_hash := last_anchor_tx_hash s; last_anchor_at := last_anchor_at s;
     proof_mode := proof_mode s; anchor_count := anchor_count s |}.

Definition with_text (w : BridgeWorld) (text : string) : BridgeWorld :=
  {| w_l1 := w_l1 w; w_journal := w_journal w; w_status := with_sync_status (w_status w) text;
     w_last := w_last w |}.

Definition with_l1 (w : BridgeWorld) (l : L1) : BridgeWorld :=
  {| w_l1 := l; w_journal := w_journal w; w_status := w_status w; w_last := w_last w |}.

Definition with_last (w : BridgeWorld) (last : N) : BridgeWorld :=
  {| w_l1 := w_l1 w; w_journal := w_journal w; w_status := w_status w; w_last := last |}.

Definition hex0x (root : string) : string := "0x" +:+ hex_encode root.

(** After the submission: the journal, the height and the status. *)
Definition record_anchor (env : TickEnv) (w : BridgeWorld) (l : L1) (tip : N) (prev_root data_root next_root : string)
    (tx_count proposal_id : N) (hash : option string) : BridgeWorld :=
  let executed := match hash with Some _ => true | None => false end in
  let anchor_l1_block := hash ≫= λ _, te_receipt_block env in
  let anchor :=
    {| l2_height_start := w_last w + 1; l2_height := tip; l1_tx_hash := hash;
       l1_block := anchor_l1_block; an_prev_root := hex0x prev_root; an_state_root := hex0x next_root;
       an_data_root := hex0x data_root; an_tx_count := tx_count; proposal_id := fmt_N proposal_id;
       committed_at := te_committed_at env; an_proof_mode := PROOF_MODE |} in
  let '(journal, written) := append (te_append_ok env) (w_journal w) anchor in
  let count := match written with Some n => n | None => length (load journal) end in
  {| w_l1 := l; w_journal := journal; w_last := tip;
     w_status :=
       {| bridge_sync_status :=
            if executed then "Anchored (checkpoint)"
            else "Batch proposal " +:+ fmt_N proposal_id +:+ " pending external governance approval";
          last_finalized_eth_block := default (default 0%N (te_head env)) anchor_l1_block;
          finalized_l1_block := te_finalized env;
          current_state_root := if executed then hex0x next_root else current_state_root (w_status w);
          last_anchor_tx_hash := hash;
          last_anchor_at := Some (te_committed_at env);
          proof_mode := PROOF_MODE;
          anchor_count := count |} |}.

Definition rollup_error (w : BridgeWorld) (l : L1) : BridgeWorld :=
  let s := w_status w in
  {| w_l1 := l; w_journal := w_journal w; w_last := w_last w;
     w_status :=
       {| bridge_sync_status := "Rollup Error"; last_finalized_eth_block := last_finalized_eth_block s;
          finalized_l1_block := finalized_l1_block s; current_state_root := current_state_root s;
          last_anchor_tx_hash := last_anchor_tx_hash s; last_anchor_at := last_anchor_at s;
          proof_mode := PROOF_MODE; anchor_count := anchor_count s |} |}.

(** From the batch on: the proof, the proposal and the records. *)
Definition settle_batch (env : TickEnv) (cfg : BridgeConfig) (w : BridgeWorld) (tip : N) (bridge registry : N)
    (prev_root : string) (records : list ChainRecord) : BridgeWorld * result TickError unit :=
  let data_root := data_root_of records in
  let next_root := next_root_of prev_root data_root in
  let tx_count := N.of_nat (length records) in
  let inputs := {| bi_prev_root := of_str prev_root; bi_data_root := of_str data_root;
                   bi_next_root := of_str next_root; bi_tx_count := tx_count |} in
  match batch_proof env inputs with
  | Err e => (w, Err e)
  | Ok (proof, public_inputs) =>
      let l := apply_txs (w_l1 w) (te_meanwhile env) in
      if negb (te_count_ok env) then (with_l1 w l, Err CountReadFailed)
      else
        let proposal_id := gv_proposalCount (l1_gov l) in
        let b := {| b_prevRoot := prev_root; b_nextRoot := next_root; b_txCount := tx_count;
                    b_dataRoot := data_root; b_proof := proof; b_publicInputs := public_inputs |} in
        match propose env (bridge_self_approve_enabled (bc_self_approve cfg)) bridge registry b proposal_id l with
        | (l, Ok hash) =>
            (record_anchor env w l tip prev_root data_root next_root tx_count proposal_id hash, Ok tt)
        | (l, Err e) => (rollup_error w l, Err e)
        end
  end.

Definition tick (env : TickEnv) (cfg : BridgeConfig) (chain : ChainStore) (w : BridgeWorld)
    : BridgeWorld * result TickError unit :=
  let current_tip := tip_height chain in
  if (current_tip <=? w_last w)%N then (w, Ok tt)
  else
    match bc_bridge_privkey cfg with
    | None => (with_text w "Bridge disabled: CREG_BRIDGE_KEY not configured", Ok tt)
    | Some priv_key =>
        if String.eqb (bc_governance_addr cfg) NULL_GOVERNANCE then
          (with_text w "Bridge disabled: CREG_GOVERNANCE_ADDR not configured", Ok tt)
        else
          match key_parse priv_key with
          | None => (w, Err BadBridgeKey)
          | Some key =>
              if negb (bc_rpc_url_ok cfg) then (w, Err BadRpcUrl)
              else
                match addr_parse (bc_registry_addr cfg), addr_parse (bc_governance_addr cfg) with
                | None, _ => (w, Err BadRegistryAddr)
                | _, None => (w, Err BadGovernanceAddr)
                | Some registry, Some governance =>
                    if negb (te_root_ok env && (registry =? rg_address (l1_reg (w_l1 w)))%N) then
                      (w, Err RootReadFailed)
                    else
                      let prev_root := rg_latestStateRoot (l1_reg (w_l1 w)) in
                      let records := batch_transactions chain (w_last w) current_tip in
                      if bool_decide (records = []) then (with_last w current_tip, Ok tt)
                      else if negb (governance =? gv_address (l1_gov (w_l1 w)))%N then
                        match batch_proof env {| bi_prev_root := of_str prev_root;
                                bi_data_root := of_str (data_root_of records);
                                bi_next_root := of_str (next_root_of prev_root (data_root_of records));
                                bi_tx_count := N.of_nat (length records) |} with
                        | Err e => (w, Err e)
                        | Ok _ => (w, Err CountReadFailed)
                        end
                      else settle_batch env cfg w current_tip (eth_address key) registry prev_root records
                end
          end
    end.

(** [run] after the endpoint has answered: errors are logged and the next tick follows. *)
Definition bridge_run (cfg : BridgeConfig) (w : BridgeWorld) (ticks : list (TickEnv * ChainStore)) : BridgeWorld :=
  foldl (λ w ec, (tick ec.1 cfg ec.2 w).1) w ticks.

(** The variable of the bridge starts at zero with every start of the node. *)
Definition restart (w : BridgeWorld) : BridgeWorld := with_last w 0.

End Tick.

(** ** Lemmas *)

Section Lemmas.
Context `{CR : !Crypto, ET : !Ethereum, PC : !PairingCheck, GR : !Groth16}.

(** The bridge of [cfg] can work with the contracts of [l]. *)
Record bridge_ready (cfg : BridgeConfig) (key : EthKey) (l : L1) : Prop := {
  br_key : bc_bridge_privkey cfg ≫= key_parse = Some key;
  br_rpc : bc_rpc_url_ok cfg = true;
  br_self : bridge_self_approve_enabled (bc_self_approve cfg) = true;
  br_registry : addr_parse (bc_registry_addr cfg) = Some (rg_address (l1_reg l));
  br_governance : addr_parse (bc_governance_addr cfg) = Some (gv_address (l1_gov l));
  br_not_null : bc_governance_addr cfg ≠ NULL_GOVERNANCE;
  br_signer : eth_address key ∈ gv_isSigner (l1_gov l);
  br_active : gv_paused (l1_gov l) = false;
  br_owner : rg_governance (l1_reg l) = gv_address (l1_gov l);
  br_fresh : ∀ id, (gv_proposalCount (l1_gov l) ≤ id)%N → gv_proposals (l1_gov l) !! id = None;
}.

(** Every call to the endpoint succeeds and no other account acts during the tick. *)
Definition prompt (e : SendEnv) : Prop := se_sent e = true ∧ se_pending e = [] ∧ se_watched e = true.

Record quiet (env : TickEnv) : Prop := {
  q_root : te_root_ok env = true;
  q_task : te_task_ok env = true;
  q_count : te_count_ok env = true;
  q_meanwhile : te_meanwhile env = [];
  q_before_submit : te_before_submit env = [];
  q_submit : prompt (te_submit env);
  q_before_vote : te_before_vote env = [];
  q_vote : prompt (te_vote env);
}.

(** The prover of the node has keys and proves every non-empty batch. *)
Definition proves (env : TickEnv) : Prop :=
  ∃ keys, te_keys env = Ok keys ∧
    ∀ i, (0 < bi_tx_count i)%N → is_ok (generate_batch_proof keys (te_seed env) i) = true.

(** The contract accepts what the provers of nodes make. *)
Definition verifier_accepts : Prop :=
  ∀ keys seed i p, generate_batch_proof keys seed i = Ok p →
    verifyProof (to_u256s 8 (proof_to_chunks p)) (from_be_bytes <$> public_inputs_bytes i) = Ok true.

Definition batch_proposal (now target : N) (b : Batch) (id : N) : Proposal :=
  {| p_target := target; p_callData := SubmitRollupBatch b;
     p_description := "Submit rollup batch " +:+ fmt_N id; p_submittedAt := now; p_executedAt := 0;
     p_status := Settlement.Pending; p_approvalCount := 0; p_rejectionCount := 0; p_voted := ∅ |}.

Definition with_proposal (l : L1) (p : Proposal) : L1 :=
  {| l1_gov := with_proposals (l1_gov l) (gv_proposalCount (l1_gov l) + 1)
                 (<[gv_proposalCount (l1_gov l) := p]> (gv_proposals (l1_gov l)));
     l1_reg := l1_reg l |}.

Lemma send_prompt (l : L1) (t : L1Tx) (e : SendEnv) (l' : L1) :
  prompt e → exec_tx l t = Ok l' → send l t e = (l', true).
Proof.
  intros (Hs & Hp & Hw) Hx. unfold send. rewrite Hs, Hx, Hp, Hw. cbn. unfold apply_tx. by rewrite Hx.
Qed.

Lemma submit_ready (cfg : BridgeConfig) (key : EthKey) (l : L1) (now target : N) (b : Batch) :
  bridge_ready cfg key l →
  let id := gv_proposalCount (l1_gov l) in
  exec_tx l (TxSubmit now (eth_address key) target (SubmitRollupBatch b) ("Submit rollup batch " +:+ fmt_N id))
  = Ok (with_proposal l (batch_proposal now target b id)).
Proof.
  intros Hr id. cbn [exec_tx]. unfold submit, is_signer. rewrite (br_active _ _ _ Hr).
  rewrite bool_decide_eq_true_2 by apply (br_signer _ _ _ Hr). cbn.
  assert (proposal (l1_gov l) id = no_proposal) as Hno.
  { unfold proposal. by rewrite (br_fresh _ _ _ Hr) by done. }
  fold id. rewrite Hno. done.
Qed.

(** The vote of the bridge on its new proposal, before the check of the threshold. *)
Lemma vote_new (cfg : BridgeConfig) (key : EthKey) (l : L1) (now target : N) (b : Batch) :
  bridge_ready cfg key l →
  let id := gv_proposalCount (l1_gov l) in
  let p := record_ballot (batch_proposal now target b id) (eth_address key) true in
  exec_tx (with_proposal l (batch_proposal now target b id)) (TxVote now (eth_address key) id true)
  = if (gv_threshold (l1_gov l) <=? 1)%N then execute (with_proposal l p) now id
    else Ok (with_proposal l p).
Proof.
  intros Hr id p. cbn [exec_tx]. unfold vote.
  assert (proposal (l1_gov (with_proposal l (batch_proposal now target b id))) id = batch_proposal now target b id) as ->.
  { cbn. rewrite proposal_insert. by rewrite decide_True. }
  unfold is_signer. cbn [with_proposal l1_gov with_proposals gv_isSigner gv_votingPeriod gv_threshold].
  rewrite (bool_decide_eq_true_2 (eth_address key ∈ _)) by apply (br_signer _ _ _ Hr).
  rewrite (bool_decide_eq_true_2 (p_status _ = _)) by done. cbn [ensure mbind result_bind].
  assert ((now <=? p_submittedAt (batch_proposal now target b id) + gv_votingPeriod (l1_gov l))%N = true) as ->
    by (apply N.leb_le; cbn; lia).
  rewrite bool_decide_eq_true_2 by done. cbn [ensure mbind result_bind]. fold p.
  assert (set_proposal (with_proposal l (batch_proposal now target b id)) id p = with_proposal l p) as ->.
  { unfold set_proposal, with_proposal, with_proposals. cbn. by rewrite insert_insert_eq. }
  done.
Qed.

(** With a threshold of one the vote settles the batch. *)
Lemma execute_new (l : L1) (p : Proposal) (now : N) (b : Batch) (r : RegistryL1) :
  p_target p = rg_address (l1_reg l) → p_callData p = SubmitRollupBatch b →
  submitRollupBatch (l1_reg l) (gv_address (l1_gov l)) b = Ok r →
  execute (with_proposal l p) now (gv_proposalCount (l1_gov l))
  = Ok {| l1_gov := l1_gov (with_proposal l (with_status p now Executed)); l1_reg := r |}.
Proof.
  intros Ht Hd Hs. unfold execute.
  assert (proposal (l1_gov (with_proposal l p)) (gv_proposalCount (l1_gov l)) = p) as ->.
  { cbn. rewrite proposal_insert. by rewrite decide_True. }
  rewrite Hd, Ht. cbn. rewrite N.eqb_refl, Hs. cbn. do 2 f_equal.
  unfold with_proposals. cbn. by rewrite insert_insert_eq.
Qed.

(** The proposal of the bridge with its own vote. *)
Definition own_proposal (key : EthKey) (now target : N) (b : Batch) (id : N) : Proposal :=
  record_ballot (batch_proposal now target b id) (eth_address key) true.

Definition settled_l1 (l : L1) (key : EthKey) (now : N) (b : Batch) (r : RegistryL1) : L1 :=
  {| l1_gov := l1_gov (with_proposal l (with_status
       (own_proposal key now (rg_address (l1_reg l)) b (gv_proposalCount (l1_gov l))) now Executed));
     l1_reg := r |}.

Lemma propose_quiet (env : TickEnv) (cfg : BridgeConfig) (key : EthKey) (l : L1) (b : Batch) :
  bridge_ready cfg key l → quiet env →
  let id := gv_proposalCount (l1_gov l) in
  let reg := rg_address (l1_reg l) in
  ∀ l', (if (gv_threshold (l1_gov l) <=? 1)%N
         then ∃ r, submitRollupBatch (l1_reg l) (gv_address (l1_gov l)) b = Ok r ∧
                   l' = settled_l1 l key (te_now env) b r
         else l' = with_proposal l (own_proposal key (te_now env) reg b id)) →
  propose env true (eth_address key) reg b id l = (l', Ok (Some (te_vote_hash env))).
Proof.
  intros Hr Hq id reg l' Hl'. unfold propose. rewrite (q_before_submit _ Hq). cbn [apply_txs foldl].
  rewrite (send_prompt _ _ _ _ (q_submit _ Hq) (submit_ready cfg key l _ reg b Hr)). cbn [negb].
  rewrite (q_before_vote _ Hq). cbn [apply_txs foldl].
  rewrite (send_prompt _ _ _ l' (q_vote _ Hq)); [done|].
  rewrite (vote_new cfg key l _ reg b Hr). fold id. case_match.
  - destruct Hl' as (r & Hs & ->). by apply (execute_new l _ (te_now env) b r).
  - by rewrite Hl'.
Qed.

Definition inputs_of (prev_root : string) (records : list ChainRecord) : BatchInputs :=
  {| bi_prev_root := of_str prev_root; bi_data_root := of_str (data_root_of records);
     bi_next_root := of_str (next_root_of prev_root (data_root_of records));
     bi_tx_count := N.of_nat (length records) |}.

Definition batch_of (prev_root : string) (records : list ChainRecord) (proof : list N * list N) : Batch :=
  {| b_prevRoot := prev_root; b_nextRoot := next_root_of prev_root (data_root_of records);
     b_txCount := N.of_nat (length records); b_dataRoot := data_root_of records;
     b_proof := proof.1; b_publicInputs := proof.2 |}.

Lemma batch_proof_ready (env : TickEnv) (prev_root : string) (records : list ChainRecord) :
  quiet env → proves env → records ≠ [] →
  ∃ proof, batch_proof env (inputs_of prev_root records) = Ok proof ∧
    (verifier_accepts → verifyProof proof.1 proof.2 = Ok true).
Proof.
  intros Hq (keys & Hk & Hp) Hne. unfold batch_proof. rewrite (q_task _ Hq), Hk. cbn.
  specialize (Hp (inputs_of prev_root records)). apply is_ok_Ok in Hp as [p Hp].
  - rewrite Hp. cbn. eexists. split; [done|]. intros Hv. by apply (Hv _ _ _ _ Hp).
  - cbn. destruct records; [done|]. cbn. lia.
Qed.

(** A tick of a bridge that is ready, with something to settle. *)
Lemma tick_batch (env : TickEnv) (cfg : BridgeConfig) (key : EthKey) (chain : ChainStore) (w : BridgeWorld)
    (proof : list N * list N) (l' : L1) :
  let l := w_l1 w in
  let tip := tip_height chain in
  let root := rg_latestStateRoot (l1_reg l) in
  let records := batch_transactions chain (w_last w) tip in
  bridge_ready cfg key l → quiet env → (w_last w < tip)%N → records ≠ [] →
  batch_proof env (inputs_of root records) = Ok proof →
  propose env true (eth_address key) (rg_address (l1_reg l)) (batch_of root records proof)
    (gv_proposalCount (l1_gov l)) l = (l', Ok (Some (te_vote_hash env))) →
  tick env cfg chain w =
    (record_anchor env w l' tip root (data_root_of records) (next_root_of root (data_root_of records))
       (N.of_nat (length records)) (gv_proposalCount (l1_gov l)) (Some (te_vote_hash env)), Ok tt).
Proof.
  intros l tip root records Hr Hq Hlast Hne Hproof Hprop. unfold tick. fold tip.
  rewrite (proj2 (N.leb_gt tip (w_last w))) by done.
  pose proof (br_key _ _ _ Hr) as Hkey. destruct (bc_bridge_privkey cfg) as [pk|]; [|done]. cbn in Hkey.
  rewrite (proj2 (String.eqb_neq _ _) (br_not_null _ _ _ Hr)), Hkey, (br_rpc _ _ _ Hr).
  rewrite (br_registry _ _ _ Hr), (br_governance _ _ _ Hr), (q_root _ Hq), N.eqb_refl. cbn [negb andb].
  fold l root records. rewrite bool_decide_eq_false_2, N.eqb_refl by done. cbn [negb].
  unfold settle_batch. fold (inputs_of root records). rewrite Hproof. destruct proof as [pf pi].
  rewrite (q_meanwhile _ Hq), (q_count _ Hq). cbn [negb apply_txs foldl].
  rewrite (br_self _ _ _ Hr). unfold batch_of in Hprop. cbn [fst snd] in Hprop. fold l. by rewrite Hprop.
Qed.

End Lemmas.

(** ** Histories of batches *)

Section History.
Context `{CR : !Crypto, ET : !Ethereum, PC : !PairingCheck, GR : !Groth16}.

Lemma heights_split (lo mid hi : N) :
  (lo <= mid)%N → (mid <= hi)%N → heights (lo + 1) hi = heights (lo + 1) mid ++ heights (mid + 1) hi.
Proof.
  intros H1 H2. unfold heights.
  replace (N.to_nat (hi + 1 - (lo + 1))) with (N.to_nat (mid + 1 - (lo + 1)) + N.to_nat (hi + 1 - (mid + 1))) by lia.
  rewrite seq_app, fmap_app. f_equal. set (k := N.to_nat (mid + 1 - (lo + 1))).
  replace (seq (0 + k) (N.to_nat (hi + 1 - (mid + 1)))) with (Nat.add k <$> seq 0 (N.to_nat (hi + 1 - (mid + 1))))
    by (rewrite fmap_add_seq; f_equal; lia).
  rewrite <- list_fmap_compose. apply list_fmap_ext. intros i x _. simpl. lia.
Qed.

Lemma batch_split (c : ChainStore) (lo mid hi : N) :
  (lo <= mid)%N → (mid <= hi)%N →
  batch_transactions c lo hi = batch_transactions c lo mid ++ batch_transactions c mid hi.
Proof.
  intros H1 H2. unfold batch_transactions. by rewrite (heights_split lo mid hi), fmap_app, concat_app.
Qed.

Lemma batch_empty (c : ChainStore) (lo : N) : batch_transactions c lo lo = [].
Proof.
  unfold batch_transactions, heights. by replace (N.to_nat (lo + 1 - (lo + 1))) with 0 by lia.
Qed.

(** The chain [c1] of an earlier tick has the blocks of [c] up to its tip. *)
Definition agrees (c1 c : ChainStore) : Prop :=
  ∀ h, (h <= tip_height c1)%N → get_block_by_height c1 h = get_block_by_height c h.

Lemma batch_agrees (c1 c : ChainStore) (lo : N) :
  agrees c1 c → batch_transactions c1 lo (tip_height c1) = batch_transactions c lo (tip_height c1).
Proof.
  intros Hag. unfold batch_transactions. f_equal. apply list_fmap_ext. intros i h Hh.
  apply list_elem_of_lookup_2, elem_of_heights in Hh. by rewrite Hag by lia.
Qed.

Definition next_of (root : string) (records : list ChainRecord) : string :=
  next_root_of root (data_root_of records).

(** What one tick of a working bridge does to L1: nothing, or the settlement of what is new. *)
Definition settled_by (l l' : L1) (last last' : N) (c : ChainStore) (bss : list (list ChainRecord)) : Prop :=
  (last <= last')%N ∧
  concat bss = batch_transactions c last last' ∧ Forall (λ b, b ≠ []) bss ∧
  rg_latestStateRoot (l1_reg l') = foldl next_of (rg_latestStateRoot (l1_reg l)) bss ∧
  rg_totalBatches (l1_reg l') = (rg_totalBatches (l1_reg l) + N.of_nat (length bss))%N ∧
  (∀ n, (n <= rg_totalBatches (l1_reg l))%N →
     rg_batchDataRoots (l1_reg l') !! n = rg_batchDataRoots (l1_reg l) !! n) ∧
  (∀ i b, bss !! i = Some b →
     rg_batchDataRoots (l1_reg l') !! (rg_totalBatches (l1_reg l) + 1 + N.of_nat i)%N = Some (data_root_of b)).

Lemma settled_refl (l : L1) (last : N) (c : ChainStore) : settled_by l l last last c [].
Proof. unfold settled_by. rewrite batch_empty. cbn. repeat split; try done; lia. Qed.

Lemma settled_trans (l1 l2 l3 : L1) (n1 n2 n3 : N) (c : ChainStore) (b1 b2 : list (list ChainRecord)) :
  settled_by l1 l2 n1 n2 c b1 → settled_by l2 l3 n2 n3 c b2 → settled_by l1 l3 n1 n3 c (b1 ++ b2).
Proof.
  intros (Hn1 & Hc1 & Hf1 & Hr1 & Ht1 & Ho1 & Hd1) (Hn2 & Hc2 & Hf2 & Hr2 & Ht2 & Ho2 & Hd2).
  unfold settled_by. split_and!.
  - lia.
  - rewrite concat_app, Hc1, Hc2. symmetry. by apply batch_split.
  - by apply Forall_app.
  - by rewrite foldl_app, <- Hr1.
  - rewrite length_app. lia.
  - intros n Hn. rewrite Ho2 by lia. by apply Ho1.
  - intros i b Hi. apply lookup_app_Some in Hi as [Hi|[Hlen Hi]].
    + rewrite <- (Hd1 i b Hi). apply lookup_lt_Some in Hi. apply Ho2. lia.
    + rewrite <- (Hd2 _ b Hi). f_equal. lia.
Qed.

(** A batch over the current root is settled when its proof is accepted. *)
Lemma submit_batch (l : L1) (records : list ChainRecord) (proof : list N * list N) :
  let r := l1_reg l in
  rg_governance r = gv_address (l1_gov l) → verifyProof proof.1 proof.2 = Ok true →
  ∃ r', submitRollupBatch r (gv_address (l1_gov l)) (batch_of (rg_latestStateRoot r) records proof) = Ok r' ∧
    rg_address r' = rg_address r ∧ rg_governance r' = rg_governance r ∧
    rg_latestStateRoot r' = next_of (rg_latestStateRoot r) records ∧
    rg_totalBatches r' = (rg_totalBatches r + 1)%N ∧
    rg_batchDataRoots r' = <[(rg_totalBatches r + 1)%N := data_root_of records]> (rg_batchDataRoots r).
Proof.
  intros r Ho Hv. unfold submitRollupBatch, r in *. clear r. rewrite Ho, N.eqb_refl. cbn [ensure mbind result_bind].
  cbn [batch_of b_prevRoot b_proof b_publicInputs]. rewrite String.eqb_refl, Hv.
  cbn. eexists. split; [done|]. done.
Qed.

Lemma ready_settled (cfg : BridgeConfig) (key : EthKey) (l : L1) (now : N) (b : Batch) (r : RegistryL1) :
  bridge_ready cfg key l → rg_address r = rg_address (l1_reg l) → rg_governance r = rg_governance (l1_reg l) →
  bridge_ready cfg key (settled_l1 l key now b r).
Proof.
  intros [] Ha Hg. split; cbn; try done; [by rewrite Ha|by rewrite Hg|].
  intros id Hid. rewrite lookup_insert_ne by lia. apply br_fresh0. lia.
Qed.

(** One tick of a bridge whose governance needs one approval. *)
Lemma tick_settles (env : TickEnv) (cfg : BridgeConfig) (key : EthKey) (chain c : ChainStore) (w : BridgeWorld) :
  bridge_ready cfg key (w_l1 w) → (gv_threshold (l1_gov (w_l1 w)) <= 1)%N → verifier_accepts →
  quiet env → proves env → agrees chain c →
  ∃ w' bss, tick env cfg chain w = (w', Ok tt) ∧
    bridge_ready cfg key (w_l1 w') ∧ gv_threshold (l1_gov (w_l1 w')) = gv_threshold (l1_gov (w_l1 w)) ∧
    w_last w' = N.max (w_last w) (tip_height chain) ∧
    settled_by (w_l1 w) (w_l1 w') (w_last w) (w_last w') c bss.
Proof.
  intros Hr Hthr Hacc Hq Hp Hag. set (l := w_l1 w) in *. set (tip := tip_height chain) in *.
  destruct (decide (tip <= w_last w)%N) as [Hold|Hnew].
  { exists w, []. unfold tick. fold tip. rewrite (proj2 (N.leb_le _ _)) by done.
    split_and!; try done; [lia|apply settled_refl]. }
  set (records := batch_transactions chain (w_last w) tip).
  assert (records = batch_transactions c (w_last w) tip) as Hrec by by apply batch_agrees.
  destruct (decide (records = [])) as [He|Hne].
  { exists (with_last w tip), []. split_and!; try done.
    - unfold tick. fold tip. rewrite (proj2 (N.leb_gt _ _)) by lia.
      pose proof (br_key _ _ _ Hr) as Hkey. destruct (bc_bridge_privkey cfg) as [pk|]; [|done]. cbn in Hkey.
      rewrite (proj2 (String.eqb_neq _ _) (br_not_null _ _ _ Hr)), Hkey, (br_rpc _ _ _ Hr).
      rewrite (br_registry _ _ _ Hr), (br_governance _ _ _ Hr), (q_root _ Hq). unfold l.
      rewrite N.eqb_refl. cbn [negb andb]. fold records. by rewrite bool_decide_eq_true_2.
    - cbn. lia.
    - unfold settled_by. cbn [w_l1 w_last with_last concat foldl length]. fold l. rewrite <- Hrec, He.
      split_and!; try done; try lia. }
  destruct (batch_proof_ready env (rg_latestStateRoot (l1_reg l)) records Hq Hp Hne) as (proof & Hproof & Hv).
  specialize (Hv Hacc).
  destruct (submit_batch l records proof (br_owner _ _ _ Hr) Hv) as (r & Hs & Hra & Hrg & Hroot & Htot & Hdata).
  eexists _, [records]. split; [eapply (tick_batch env cfg key chain w proof); [done|done|fold tip; lia|done|exact Hproof|]|].
  { eapply propose_quiet; [done|done|]. fold l. rewrite (proj2 (N.leb_le _ _)) by done. exists r. done. }
  fold l tip. unfold record_anchor. destruct (append _ _ _) as [journal written]. cbn [w_l1 w_last].
  split_and!; [by apply ready_settled|done|lia|].
  unfold settled_by. cbn [l1_reg settled_l1 foldl length]. split_and!; try done.
  - lia.
  - simpl. by rewrite app_nil_r.
  - repeat constructor. done.
  - intros n Hn. rewrite Hdata, lookup_insert_ne by lia. done.
  - intros [|i] b Hi; [|discriminate Hi]. injection Hi as <-. by rewrite N.add_0_r, Hdata, lookup_insert_eq.
Qed.


(** After a restart the bridge settles the whole chain a second time: its height is kept in
    memory only, so the first tick makes one batch of every publication since the first block
    on top of the roots that already contain them. *)
Theorem restart_settles_again (cfg : BridgeConfig) (key : EthKey) (chain : ChainStore) (w : BridgeWorld)
    (env : TickEnv) :
  bridge_ready cfg key (w_l1 w) → (gv_threshold (l1_gov (w_l1 w)) <= 1)%N → verifier_accepts →
  quiet env → proves env →
  w_last w = tip_height chain → batch_transactions chain 0 (tip_height chain) ≠ [] →
  tick env cfg chain w = (w, Ok tt) ∧
  ∃ w', tick env cfg chain (restart w) = (w', Ok tt) ∧
    rg_latestStateRoot (l1_reg (w_l1 w')) =
      next_of (rg_latestStateRoot (l1_reg (w_l1 w))) (batch_transactions chain 0 (tip_height chain)) ∧
    rg_totalBatches (l1_reg (w_l1 w')) = (rg_totalBatches (l1_reg (w_l1 w)) + 1)%N.
Proof.
  intros Hr Hthr Hacc Hq Hp Hlast Hne. split.
  { unfold tick. by rewrite (proj2 (N.leb_le _ _)) by lia. }
  set (l := w_l1 (restart w)).
  destruct (batch_proof_ready env (rg_latestStateRoot (l1_reg l)) _ Hq Hp Hne) as (proof & Hproof & Hv).
  specialize (Hv Hacc).
  destruct (submit_batch l (batch_transactions chain 0 (tip_height chain)) proof (br_owner _ _ _ Hr) Hv) as (r & Hs & Hra & Hrg & Hroot & Htot & Hdata).
  assert (0 < tip_height chain)%N as Htip.
  { apply N.neq_0_lt_0. intros H0. rewrite H0, batch_empty in Hne. done. }
  eexists. split; [eapply (tick_batch env cfg key chain (restart w) proof); [done|done|done|done|exact Hproof|]|].
  { eapply propose_quiet; [done|done|]. rewrite (proj2 (N.leb_le _ _)) by done. exists r. done. }
  unfold record_anchor. destruct (append _ _ _) as [journal written]. cbn [w_l1 l1_reg settled_l1]. done.
Qed.

End History.

(** ** Batches that wait for a second signer *)

Section Waiting.
Context `{CR : !Crypto, ET : !Ethereum, PC : !PairingCheck, GR : !Groth16}.

Lemma ready_waiting (cfg : BridgeConfig) (key : EthKey) (l : L1) (p : Proposal) :
  bridge_ready cfg key l → bridge_ready cfg key (with_proposal l p).
Proof.
  intros []. split; cbn; try done. intros id Hid. rewrite lookup_insert_ne by lia. apply br_fresh0. lia.
Qed.

(** A tick that leaves its batch to other signers. *)
Lemma tick_waits (env : TickEnv) (cfg : BridgeConfig) (key : EthKey) (chain : ChainStore) (w : BridgeWorld) :
  let l := w_l1 w in
  let root := rg_latestStateRoot (l1_reg l) in
  let records := batch_transactions chain (w_last w) (tip_height chain) in
  bridge_ready cfg key l → (1 < gv_threshold (l1_gov l))%N → quiet env → proves env →
  (w_last w < tip_height chain)%N → records ≠ [] →
  ∃ w' proof, tick env cfg chain w = (w', Ok tt) ∧ w_last w' = tip_height chain ∧
    w_l1 w' = with_proposal l (own_proposal key (te_now env) (rg_address (l1_reg l))
                (batch_of root records proof) (gv_proposalCount (l1_gov l))) ∧
    (verifier_accepts → verifyProof proof.1 proof.2 = Ok true) ∧
    bridge_sync_status (w_status w') = "Anchored (checkpoint)" ∧
    current_state_root (w_status w') = hex0x (next_of root records).
Proof.
  intros l root records Hr Hthr Hq Hp Hlast Hne.
  destruct (batch_proof_ready env root records Hq Hp Hne) as (proof & Hproof & Hv).
  eexists _, proof. split; [eapply (tick_batch env cfg key chain w proof); [done..|exact Hproof|]|].
  { eapply propose_quiet; [done|done|]. fold l. rewrite (proj2 (N.leb_gt _ _)) by done. done. }
  unfold record_anchor. destruct (append _ _ _) as [journal written]. done.
Qed.

(** The vote of a further signer that reaches the threshold on a batch. *)
Lemma vote_reaches (l : L1) (now s id : N) (p : Proposal) (b : Batch) :
  proposal (l1_gov l) id = p → p_target p = rg_address (l1_reg l) → p_callData p = SubmitRollupBatch b →
  p_status p = Settlement.Pending → p_voted p !! s = None → s ∈ gv_isSigner (l1_gov l) →
  (now <= p_submittedAt p + gv_votingPeriod (l1_gov l))%N →
  (gv_threshold (l1_gov l) <= p_approvalCount p + 1)%N →
  vote l now s id true =
    match submitRollupBatch (l1_reg l) (gv_address (l1_gov l)) b with
    | Ok r => Ok {| l1_gov := l1_gov (set_proposal (set_proposal l id (record_ballot p s true)) id
                                 (with_status (record_ballot p s true) now Executed)); l1_reg := r |}
    | Err _ => Err ExecutionFailed
    end.
Proof.
  intros Hp Ht Hd Hst Hv Hs Hnow Hthr. unfold vote. rewrite Hp.
  unfold is_signer. rewrite (bool_decide_eq_true_2 (s ∈ _)) by done. rewrite (bool_decide_eq_true_2 (p_status p = _)) by done.
  rewrite (proj2 (N.leb_le _ _) Hnow), (bool_decide_eq_true_2 (p_voted p !! s = None)) by done.
  cbn [ensure mbind result_bind]. rewrite (proj2 (N.leb_le _ _)) by (cbn; done).
  unfold execute.
  assert (proposal (l1_gov (set_proposal l id (record_ballot p s true))) id = record_ballot p s true) as ->.
  { cbn. rewrite proposal_insert. by rewrite decide_True. }
  cbn [record_ballot p_target p_callData]. rewrite Ht, Hd. cbn [call_target]. cbn [set_proposal l1_reg].
  rewrite N.eqb_refl. cbn [l1_gov with_proposals gv_address]. by destruct (submitRollupBatch _ _ _).
Qed.

Lemma proposal_own (l : L1) (p : Proposal) (id : N) :
  proposal (l1_gov (with_proposal l p)) id
  = if decide (id = gv_proposalCount (l1_gov l)) then p else proposal (l1_gov l) id.
Proof. cbn. apply proposal_insert. Qed.

(** With a governance that needs two approvals the batches of two ticks are proposed over
    the same root.  The node reports the first as anchored, with its root, although the root
    on L1 has not moved; once a second signer has approved the first, the approval of the
    second reverts, and the bridge, which has moved on, never settles its publications. *)
Theorem waiting_batch_orphaned (cfg : BridgeConfig) (key : EthKey) (w : BridgeWorld) (env1 env2 : TickEnv)
    (chain1 chain2 : ChainStore) (s now : N) :
  let l := w_l1 w in
  let root := rg_latestStateRoot (l1_reg l) in
  let id := gv_proposalCount (l1_gov l) in
  let records1 := batch_transactions chain1 (w_last w) (tip_height chain1) in
  let records2 := batch_transactions chain2 (tip_height chain1) (tip_height chain2) in
  let w1 := (tick env1 cfg chain1 w).1 in
  let w2 := (tick env2 cfg chain2 w1).1 in
  bridge_ready cfg key l → gv_threshold (l1_gov l) = 2%N → verifier_accepts →
  quiet env1 → proves env1 → quiet env2 → proves env2 →
  (w_last w < tip_height chain1 < tip_height chain2)%N → records1 ≠ [] → records2 ≠ [] →
  s ∈ gv_isSigner (l1_gov l) → s ≠ eth_address key →
  (now <= te_now env1 + gv_votingPeriod (l1_gov l))%N → (now <= te_now env2 + gv_votingPeriod (l1_gov l))%N →
  next_of root records1 ≠ root →
  bridge_sync_status (w_status w1) = "Anchored (checkpoint)" ∧
  current_state_root (w_status w1) = hex0x (next_of root records1) ∧
  l1_reg (w_l1 w2) = l1_reg l ∧ w_last w2 = tip_height chain2 ∧
  ∃ l3, vote (w_l1 w2) now s id true = Ok l3 ∧
    rg_latestStateRoot (l1_reg l3) = next_of root records1 ∧
    vote l3 now s (id + 1) true = Err ExecutionFailed.
Proof.
  intros l root id records1 records2 w1 w2 Hr Hthr Hacc Hq1 Hp1 Hq2 Hp2 [Ht1 Ht2] Hne1 Hne2 Hs Hkey Hn1 Hn2 Hroot.
  destruct (tick_waits env1 cfg key chain1 w Hr ltac:(fold l; lia) Hq1 Hp1 Ht1 Hne1)
    as (w1' & proof1 & E1 & Hlast1 & Hl1 & Hv1 & Hst1 & Hcur1).
  subst w2. subst w1. rewrite E1. cbn [fst]. fold l root records1 id in Hl1, Hcur1.
  assert (Hr1 : bridge_ready cfg key (w_l1 w1')) by (rewrite Hl1; by apply ready_waiting).
  destruct (tick_waits env2 cfg key chain2 w1' Hr1 ltac:(rewrite Hl1; cbn; fold l; lia) Hq2 Hp2
              ltac:(lia) ltac:(by rewrite Hlast1))
    as (w2' & proof2 & E2 & Hlast2 & Hl2 & Hv2 & _ & _).
  rewrite E2. cbn [fst]. rewrite Hlast1 in Hl2. fold records2 in Hl2.
  rewrite Hl1 in Hl2. cbn [with_proposal l1_reg l1_gov with_proposals gv_proposalCount] in Hl2.
  fold root id in Hl2.
  set (p1 := own_proposal key (te_now env1) _ _ id) in *.
  set (p2 := own_proposal key (te_now env2) _ _ (id + 1)) in Hl2.
  set (l2 := with_proposal (with_proposal l p1) p2).
  assert (w_l1 w2' = l2) as Hw2 by exact Hl2.
  split_and!; [done|done|by rewrite Hw2|done|].
  destruct (submit_batch l records1 proof1 (br_owner _ _ _ Hr) (Hv1 Hacc)) as (r & Hsub & Hra & Hrg & Hrr & _).
  eexists. rewrite Hw2. split_and!.
  - rewrite (vote_reaches l2 now s id p1 (batch_of root records1 proof1)); try done.
    + cbn [l2 with_proposal l1_reg l1_gov with_proposals gv_address]. fold root in Hsub. rewrite Hsub. reflexivity.
    + unfold l2. rewrite proposal_own, decide_False by (unfold id; cbn; lia). rewrite proposal_own, decide_True by done. done.
    + cbn. by rewrite lookup_insert_ne by done.
    + cbn. rewrite Hthr. done.
  - done.
  - rewrite (vote_reaches _ now s (id + 1) p2 (batch_of root records2 proof2)); try done.
    + cbn [l1_reg l1_gov set_proposal with_proposals gv_address]. unfold submitRollupBatch at 1.
      rewrite Hrr. cbn [batch_of b_prevRoot].
      fold root. rewrite (proj2 (String.eqb_neq root (next_of root records1))) by done.
      by destruct (gv_address _ =? _)%N.
    + cbn [l1_gov]. unfold set_proposal. cbn [l1_gov]. rewrite !proposal_insert, !decide_False by lia.
      unfold l2. rewrite proposal_own, decide_True by (unfold id; cbn; lia). done.
    + cbn. by rewrite lookup_insert_ne by done.
    + cbn. rewrite Hthr. done.
Qed.

End Waiting.

(** ** One verifier for two statements *)

Section Verifier.
Context `{PC : !PairingCheck, GR : !Groth16}.

(** The registry checks batches and packages with one verifying key, which fixes the number
    of public inputs: at most one of the two kinds of proof can ever be accepted. *)
Lemma one_verifier_one_statement (i : BatchInputs) (j : PackageInputs) (proof1 proof2 : list N)
    (f : Fr → N) :
  length proof1 = 8 → length proof2 = 8 →
  verifyProof proof1 (from_be_bytes <$> public_inputs_bytes i) = Err InvalidPublicInputLength ∨
  verifyProof proof2 (f <$> package_public_inputs j) = Err InvalidPublicInputLength.
Proof.
  intros H1 H2. unfold verifyProof. rewrite H1, H2, !length_fmap, Nat.eqb_refl. cbn [ensure mbind result_bind].
  change (length (package_public_inputs j)) with 7. change (length (public_inputs_bytes i)) with 6.
  destruct (Nat.eqb_spec 7 vk_ic_length) as [<-|Hne]; [by right|by left].
Qed.

End Verifier.

(** ** Data roots and the journal *)

Section Roots.
Context `{CR : !Crypto}.

(** The two fields of a leaf are not separated: moving characters from the hash to the
    version gives the same leaf. *)
Lemma leaf_ambiguous (r1 r2 : ChainRecord) :
  canonical (rec_id r1) +:+ rec_content_hash r1 = canonical (rec_id r2) +:+ rec_content_hash r2 →
  batch_leaf r1 = batch_leaf r2.
Proof. unfold batch_leaf. by intros ->. Qed.

(** A batch of an odd number of packages has the data root of the batch in which the last
    package stands twice. *)
Lemma raw_reduce_padded (l : list string) (h : string) (fuel : nat) :
  (1 < length l)%nat → Nat.odd (length l) = true → last l = Some h →
  raw_reduce (S fuel) (l ++ [h]) = raw_reduce (S fuel) l.
Proof.
  intros Hlen Hodd Hlast. cbn [raw_reduce]. rewrite length_app. cbn [length].
  rewrite !(proj2 (Nat.ltb_lt _ _)) by lia. f_equal. f_equal. unfold pad.
  rewrite length_app, Hodd, Hlast. cbn [length].
  by rewrite Nat.add_1_r, Nat.odd_succ, <- Nat.negb_odd, Hodd.
Qed.

(** The journal keeps the newest records, newest first. *)
Lemma append_newest (journal : option (list AnchorRecord)) (a : AnchorRecord) :
  length (load journal) ≤ MAX_ANCHORS →
  load (append true journal a).1 = a :: take (MAX_ANCHORS - 1) (load journal) ∧
  length (load (append true journal a).1) ≤ MAX_ANCHORS ∧
  (append false journal a).1 = journal.
Proof.
  intros Hlen.
  assert (load (append true journal a).1 = take MAX_ANCHORS (a :: load journal)) as -> by done.
  split_and!; [done| |done]. rewrite length_take. lia.
Qed.

End Roots.

(** ** Witnesses *)
Module BridgeWitness.
Import Toy ToySerde ToyZk ChainStoreExamples.

(** Decimal addresses, one-letter keys, and a verifier that accepts every proof. *)
#[export] Instance toy_l1 : Ethereum := {|
  keccak256 := digest; addr_parse := parse_uint u64_max; addr_hex := fmt_N; u256_hex := fmt_N;
  u256_from_hex := parse_uint u64_max; EthKey := N;
  key_parse s := match s with String c EmptyString => Some (N_of_ascii c) | _ => None end;
  eth_address := id; eth_sign := λ _ d, d; eth_recover := λ _ _, None; sol_recover := λ _ _, 0%N;
|}.

#[export] Instance open_verifier : PairingCheck :=
  {| pairing_check := λ _ _, Some true; vk_ic_length := 7; other_call := λ _ _, true |}.

Lemma length_to_u256s (n : nat) (l : list bytes) : length (to_u256s n l) = n.
Proof. unfold to_u256s. rewrite length_take, length_app, length_replicate. lia. Qed.

Lemma toy_accepts : verifier_accepts.
Proof.
  intros keys seed i p _. unfold verifyProof. rewrite length_to_u256s. cbn [Nat.eqb ensure mbind result_bind].
  rewrite length_fmap. done.
Qed.

Definition key0 : @EthKey toy_l1 := 65%N.

Definition cfg0 : BridgeConfig :=
  {| bc_rpc_url_ok := true; bc_registry_addr := "1000"; bc_governance_addr := "2000";
     bc_bridge_privkey := Some "A"; bc_self_approve := None |}.

Definition l1_0 (threshold : N) : L1 :=
  {| l1_gov := {| gv_address := 2000; gv_signers := [65; 66]%N; gv_isSigner := {[65; 66]}%N;
                  gv_threshold := threshold; gv_proposalCount := 0; gv_votingPeriod := 259200;
                  gv_paused := false; gv_proposals := ∅ |};
     l1_reg := {| rg_address := 1000; rg_governance := 2000; rg_latestStateRoot := "r0";
                  rg_totalBatches := 0; rg_batchRoots := ∅; rg_batchDataRoots := ∅ |} |}.

Definition w0 (threshold last : N) : BridgeWorld :=
  {| w_l1 := l1_0 threshold; w_journal := None; w_last := last;
     w_status := {| bridge_sync_status := ""; last_finalized_eth_block := 0; finalized_l1_block := None;
       current_state_root := ""; last_anchor_tx_hash := None; last_anchor_at := None; proof_mode := "";
       anchor_count := 0 |} |}.

Definition at_once : SendEnv := {| se_sent := true; se_pending := []; se_watched := true |}.

Definition env0 : TickEnv :=
  {| te_now := 10; te_root_ok := true; te_keys := Ok (Zk.le_bytes 8 7, Zk.le_bytes 8 7); te_seed := 1;
     te_task_ok := true; te_meanwhile := []; te_count_ok := true; te_before_submit := [];
     te_submit := at_once; te_before_vote := []; te_vote := at_once; te_vote_hash := "0xabc";
     te_receipt_block := Some 5%N; te_finalized := None; te_head := Some 6%N; te_committed_at := "now";
     te_append_ok := true |}.

Lemma env0_quiet : quiet env0.
Proof. repeat split. Qed.

Lemma env0_proves : proves env0.
Proof.
  eexists. split; [reflexivity|]. intros i Hi. unfold generate_batch_proof. cbn.
  by rewrite (proj2 (N.eqb_neq _ _)) by lia.
Qed.

Lemma cfg0_ready (threshold : N) : bridge_ready cfg0 key0 (l1_0 threshold).
Proof.
  split; try reflexivity; vm_compute; congruence.
Qed.

(** One block with a publication, and a chain with one more. *)
Definition chain1 : ChainStore := insert_all empty_store c1.
Definition chain2 : ChainStore := insert_all chain1 c2.

Lemma chain1_agrees : agrees chain1 chain2.
Proof.
  intros h Hh. replace (tip_height chain1) with 1%N in Hh by by vm_compute.
  assert (h = 0 ∨ h = 1)%N as [-> | ->] by lia; by vm_compute.
Qed.


(** Another signer proposes between the reading of [proposalCount] and the bridge's own proposal: the
    bridge votes for that one, which executes it, and goes on to the next blocks, with its batch
    pending. *)
Definition overtaken : TickEnv :=
  {| te_now := 10; te_root_ok := true; te_keys := te_keys env0; te_seed := 1;
     te_task_ok := true; te_meanwhile := []; te_count_ok := true;
     te_before_submit := [TxSubmit 9 66 77 (OtherCall "pay") "something else"];
     te_submit := at_once; te_before_vote := []; te_vote := at_once; te_vote_hash := "0xabc";
     te_receipt_block := Some 5%N; te_finalized := None; te_head := Some 6%N; te_committed_at := "now";
     te_append_ok := true |}.

Example overtaken_batch_skipped :
  let '(w, r) := tick overtaken cfg0 chain1 (w0 1 0) in
  let g := l1_gov (w_l1 w) in
  r = Ok tt ∧ w_last w = 1%N ∧ rg_latestStateRoot (l1_reg (w_l1 w)) = "r0" ∧
  p_callData (proposal g 0) = OtherCall "pay" ∧ p_status (proposal g 0) = Executed ∧ p_status (proposal g 1) = Settlement.Pending.
Proof. vm_compute. repeat split. Qed.

Lemma restart_settles_again_witness :
  tick env0 cfg0 chain1 (w0 1 1) = (w0 1 1, Ok tt) ∧
  ∃ w', tick env0 cfg0 chain1 (restart (w0 1 1)) = (w', Ok tt) ∧
    rg_latestStateRoot (l1_reg (w_l1 w')) = next_of "r0" (batch_transactions chain1 0 (tip_height chain1)) ∧
    rg_totalBatches (l1_reg (w_l1 w')) = 1%N.
Proof.
  apply (restart_settles_again cfg0 key0 chain1 (w0 1 1) env0).
  - apply cfg0_ready.
  - done.
  - apply toy_accepts.
  - apply env0_quiet.
  - apply env0_proves.
  - by vm_compute.
  - by vm_compute.
Defined.

Lemma waiting_batch_orphaned_witness :
  let w1 := (tick env0 cfg0 chain1 (w0 2 0)).1 in
  let w2 := (tick env0 cfg0 chain2 w1).1 in
  let next := next_of "r0" (batch_transactions chain1 0 (tip_height chain1)) in
  bridge_sync_status (w_status w1) = "Anchored (checkpoint)" ∧
  current_state_root (w_status w1) = hex0x next ∧
  l1_reg (w_l1 w2) = l1_reg (l1_0 2) ∧ w_last w2 = tip_height chain2 ∧
  ∃ l3, vote (w_l1 w2) 20 66 0 true = Ok l3 ∧ rg_latestStateRoot (l1_reg l3) = next ∧
    vote l3 20 66 1 true = Err ExecutionFailed.
Proof.
  apply (waiting_batch_orphaned cfg0 key0 (w0 2 0) env0 env0 chain1 chain2 66 20).
  - apply cfg0_ready.
  - done.
  - apply toy_accepts.
  - apply env0_quiet.
  - apply env0_proves.
  - apply env0_quiet.
  - apply env0_proves.
  - by vm_compute.
  - by vm_compute.
  - by vm_compute.
  - cbn. set_solver.
  - done.
  - done.
  - done.
  - by vm_compute.
Defined.

(** The vote of the second signer is all that is missing, so the node is early. *)
Example anchored_too_early :
  let w1 := (tick env0 cfg0 chain1 (w0 2 0)).1 in
  rg_latestStateRoot (l1_reg (w_l1 w1)) = "r0" ∧ length (load (w_journal w1)) = 1.
Proof. by vm_compute. Qed.

End BridgeWitness.
