(* ===== verification/Resolver.v ===== *)
(** The resolver (resolver/src/lib.rs, cache.rs, chain_client.rs, downloader.rs) and the two
    handlers of the node that answer it (node/src/api.rs [get_package], node/src/grpc/server.rs
    [get_latest_version]).

    A package is looked up in the local cache, then at the node by gRPC and by REST; the
    light client can confirm the answer.  Answers over the network are arguments; times are
    seconds.  The cache is the map that its database holds. *)

From S2P Require Import Prelude Text Crypto Types Merkle ValidatorSet Pbft ChainStore PendingPool LightClient.
From Stdlib Require Import Ascii NArith ZArith.

(** ** Verdicts *)

Inductive VerdictSource := FromCache (expires_at : Z) | FromChain (node_url : string).

Record TrustVerdict := {
  tv_package : PackageId;
  tv_status : VerdictStatus;
  tv_resolved_at : Z;
  tv_source : VerdictSource;
  tv_risk : option DeterministicRiskSummary;
}.

Definition with_tv_status (v : TrustVerdict) (s : VerdictStatus) : TrustVerdict :=
  {| tv_package := tv_package v; tv_status := s; tv_resolved_at := tv_resolved_at v;
     tv_source := tv_source v; tv_risk := tv_risk v |}.

(** ** Cache *)

Record CacheEntry := { ce_verdict : TrustVerdict; ce_expires_at : Z }.

Abbreviation VerdictCache := (gmap string CacheEntry).

Definition cache_ttl (s : VerdictStatus) : Z :=
  match s with
  | VVerified _ _ _ _ => 24 * 3600
  | VRevoked _ _ => 48 * 3600
  | VUnverified => 5 * 60
  | VUnknown => 5 * 60
  end.

Definition cache_get (now : Z) (c : VerdictCache) (id : PackageId) : VerdictCache * option TrustVerdict :=
  match c !! canonical id with
  | None => (c, None)
  | Some e =>
      if (ce_expires_at e <? now)%Z then (delete (canonical id) c, None)
      else
        let v := ce_verdict e in
        (c, Some {| tv_package := tv_package v; tv_status := tv_status v; tv_resolved_at := tv_resolved_at v;
                    tv_source := FromCache (ce_expires_at e); tv_risk := tv_risk v |})
  end.

Definition cache_set (now : Z) (c : VerdictCache) (id : PackageId) (v : TrustVerdict) : VerdictCache :=
  <[canonical id := {| ce_verdict := v; ce_expires_at := now + cache_ttl (tv_status v) |}]> c.

Definition cache_clear (c : VerdictCache) : VerdictCache := ∅.

(** ** What the node answers *)

Record GetVersionResponse := {
  found : bool;
  gvr_version : string;
  gvr_content_hash : string;
}.

Record PackageApiResp := {
  pr_canonical : string;
  pr_status : string;
  pr_block_hash : option string;
  pr_content_hash : option string;
  pr_ipfs_cid : option string;
  pr_revocation_reason : option string;
  pr_risk : option DeterministicRiskSummary;
}.

Inductive GrpcAnswer := GrpcUnreachable | GrpcFailed | GrpcReply (r : GetVersionResponse).

Inductive RestAnswer :=
| RestUnreachable
| RestNotFound           (* 404 *)
| RestUnsupported        (* 405, 501 *)
| RestFailed             (* other error statuses *)
| RestBadJson
| RestReply (r : PackageApiResp).

Record NodeAnswers := { na_grpc : GrpcAnswer; na_grouped : RestAnswer; na_legacy : RestAnswer }.

Inductive FetchError := NodeUnreachable | NodeError | InvalidJson.

Section Handlers.
Context `{!Semver}.

(** [RegistryService::get_latest_version] *)
Definition grpc_get_latest_version (s : ChainStore) (eco name : string) : GetVersionResponse :=
  match get_latest_version s eco name with
  | Some record =>
      {| found := true; gvr_version := version (rec_id record); gvr_content_hash := rec_content_hash record |}
  | None => {| found := false; gvr_version := ""; gvr_content_hash := "" |}
  end.

(** [api::get_package] *)
Definition api_get_package (s : ChainStore) (pool : PendingPool) (c : string) : RestAnswer :=
  match get_package s c with
  | Some record =>
      RestReply
        {| pr_canonical := canonical (rec_id record);
           pr_status := match rec_status record with
                        | Verified => "verified"
                        | Revoked _ => "revoked"
                        | Pending => "pending"
                        end;
           pr_block_hash := Some (rec_block_hash record);
           pr_content_hash := Some (rec_content_hash record);
           pr_ipfs_cid := Some (rec_ipfs_cid record);
           pr_revocation_reason := match rec_status record with Revoked reason => Some reason | _ => None end;
           pr_risk := Some (rec_deterministic_risk record) |}
  | None =>
      if pool_contains pool c then
        RestReply {| pr_canonical := c; pr_status := "pending"; pr_block_hash := None; pr_content_hash := None;
                     pr_ipfs_cid := None; pr_revocation_reason := None; pr_risk := None |}
      else RestNotFound
  end.

(** What a node of this version answers about [id]. *)
Definition node_answers (s : ChainStore) (pool : PendingPool) (grpc : bool) (id : PackageId) : NodeAnswers :=
  {| na_grpc := if grpc then GrpcReply (grpc_get_latest_version s (ecosystem id) (name id)) else GrpcUnreachable;
     na_grouped := api_get_package s pool (canonical id);
     na_legacy := api_get_package s pool (canonical id) |}.

End Handlers.

(** ** The client *)

Definition chain_verdict (id : PackageId) (now : Z) (url : string) (s : VerdictStatus)
    (risk : option DeterministicRiskSummary) : TrustVerdict :=
  {| tv_package := id; tv_status := s; tv_resolved_at := now; tv_source := FromChain url; tv_risk := risk |}.

Definition rest_status (r : PackageApiResp) : VerdictStatus :=
  if String.eqb (pr_status r) "verified" then
    VVerified (default "" (pr_block_hash r)) (default "" (pr_content_hash r)) (default "" (pr_ipfs_cid r)) []
  else if String.eqb (pr_status r) "revoked" then
    VRevoked (default "Revoked" (pr_revocation_reason r)) []
  else VUnverified.

Definition fetch_verdict_rest (id : PackageId) (now : Z) (url : string) (a : NodeAnswers)
    : result FetchError TrustVerdict :=
  let resp := match na_grouped a with
              | RestNotFound | RestUnsupported => na_legacy a
              | r => r
              end in
  match resp with
  | RestUnreachable => Err NodeUnreachable
  | RestNotFound => Ok (chain_verdict id now url VUnknown None)
  | RestUnsupported | RestFailed => Err NodeError
  | RestBadJson => Err InvalidJson
  | RestReply r => Ok (chain_verdict id now url (rest_status r) (pr_risk r))
  end.

Definition fetch_verdict (id : PackageId) (now : Z) (url : string) (a : NodeAnswers)
    : result FetchError TrustVerdict :=
  match na_grpc a with
  | GrpcReply res =>
      if found res then Ok (chain_verdict id now url (VVerified "" (gvr_content_hash res) "" []) None)
      else fetch_verdict_rest id now url a
  | GrpcUnreachable | GrpcFailed => fetch_verdict_rest id now url a
  end.

Definition resolve_id (now : Z) (c : VerdictCache) (url : string) (a : NodeAnswers) (id : PackageId)
    : VerdictCache * TrustVerdict :=
  match cache_get now c id with
  | (c', Some v) => (c', v)
  | (c', None) =>
      let v := match fetch_verdict id now url a with
               | Ok v => v
               | Err _ => chain_verdict id now url VUnknown None
               end in
      (cache_set now c' id v, v)
  end.

(** [s.rfind(c)] and the parts before and after it. *)
Fixpoint rsplit (c : ascii) (s : string) : option (string * string) :=
  match s with
  | EmptyString => None
  | String a s' =>
      match rsplit c s' with
      | Some (x, y) => Some (String a x, y)
      | None => if Ascii.eqb a c then Some (EmptyString, s') else None
      end
  end.

(** The name and version of ["express@4.18.2"] and of ["@scope/pkg@1.0"]. *)
Definition split_version (clean : string) : string * option string :=
  match strip_prefix "@" clean with
  | Some rest =>
      match rsplit "@" rest with
      | Some (n, v) => ("@" +:+ n, Some v)
      | None => (clean, None)
      end
  | None =>
      match rsplit "@" clean with
      | Some (n, v) => (n, Some v)
      | None => (clean, None)
      end
  end.

Definition first_prefix (prefixes : list string) (raw : string) : string :=
  default raw (head (omap (λ p, strip_prefix p raw) prefixes)).

Definition parse_pkg (raw : string) : string * option string :=
  split_version (first_prefix ["npm:"; "pypi:"; "cargo:"; "rubygems:"; "maven:"] raw).

Definition resolve (now : Z) (c : VerdictCache) (url : string) (eco : option string) (raw : string)
    (answers : PackageId → NodeAnswers) : VerdictCache * TrustVerdict :=
  let '(n, v) := parse_pkg raw in
  let id := {| ecosystem := default "npm" eco; name := n; version := default "latest" v |} in
  resolve_id now c url (answers id) id.

Section Light.
Context `{!Crypto, !Serde}.

(** What comes of the proof that the node sends, [None] when the exchange itself fails. *)
Inductive LightOutcome := LightAnswer (b : bool) | LightFailed | LightPanicked.

Definition light_verdict (small : bool) (c : string) (cp : Checkpoint) (proof : option LightClientResponse) : LightOutcome :=
  match proof with
  | None => LightFailed
  | Some resp =>
      match verify_package small c resp cp with
      | Ok b => LightAnswer b
      | Err LcPanic => LightPanicked
      | Err _ => LightFailed
      end
  end.

(** No verdict when the client panics. *)
Definition resolve_verified (now : Z) (c : VerdictCache) (url : string) (a : NodeAnswers) (id : PackageId)
    (small : bool) (cp : Checkpoint) (proof : option LightClientResponse) : VerdictCache * option TrustVerdict :=
  let '(c', v) := resolve_id now c url a id in
  if is_safe (tv_status v) then
    match light_verdict small (canonical id) cp proof with
    | LightAnswer true => (c', Some v)
    | LightAnswer false => (c', Some (with_tv_status v VUnknown))
    | LightFailed => (c', Some v)
    | LightPanicked => (c', None)
    end
  else (c', Some v).

(** [P2PDownloader::download]: the answers of the nodes in the order of their arrival. *)
Inductive DownloadError := NoNodes | NoVerifiedBytes.

Definition download (nodes : list string) (arrivals : list (option string)) (expected_hash : string)
    : result DownloadError string :=
  _ ← ensure (negb (bool_decide (nodes = []))) NoNodes;
  ok_or NoVerifiedBytes
    (head (omap (λ r, match r with
                      | Some b => if String.eqb (sha256_hex b) expected_hash then Some b else None
                      | None => None
                      end) arrivals)).

End Light.

(** ** Names *)

Lemma rsplit_app (c : ascii) (n v : string) :
  free_of c v = true → rsplit c (n +:+ String c v) = Some (n, v).
Proof.
  intros Hv. assert (rsplit c v = None) as Hnone.
  { induction v as [|a v IH]; [done|]. apply free_of_cons in Hv as [Hne Hv].
    simpl. rewrite IH by done. by rewrite (proj2 (Ascii.eqb_neq _ _)). }
  induction n as [|a n IH].
  - change ("" +:+ String c v) with (String c v). simpl. by rewrite Hnone, Ascii.eqb_refl.
  - rewrite app_cons_str. cbn [rsplit]. by rewrite IH.
Qed.

Lemma split_version_join (n v : string) :
  n ≠ "" → free_of "@" v = true → split_version (n +:+ "@" +:+ v) = (n, Some v).
Proof.
  intros Hn Hv. unfold split_version. destruct n as [|a n]; [done|]. rewrite app_cons_str.
  change ("@" +:+ v) with (String "@" v).
  destruct (ascii_dec a "@") as [->|Hne].
  - cbn [strip_prefix]. rewrite Ascii.eqb_refl. rewrite rsplit_app by done. done.
  - cbn [strip_prefix]. rewrite (proj2 (Ascii.eqb_neq _ _)) by congruence.
    rewrite <- app_cons_str, rsplit_app by done. done.
Qed.

Definition ecosystems : list string := ["npm"; "pypi"; "cargo"; "rubygems"; "maven"].

Lemma first_prefix_eco (e rest : string) :
  e ∈ ecosystems →
  first_prefix ["npm:"; "pypi:"; "cargo:"; "rubygems:"; "maven:"] (e +:+ ":" +:+ rest) = rest.
Proof.
  intros He. repeat (apply elem_of_cons in He as [->|He]; [reflexivity|]). by apply elem_of_nil in He.
Qed.

(** The canonical name of a package of a known ecosystem is read back as its name and
    version, scoped names included, when the version has no at sign. *)
Theorem parse_canonical (id : PackageId) :
  ecosystem id ∈ ecosystems → name id ≠ "" → free_of "@" (version id) = true →
  parse_pkg (canonical id) = (name id, Some (version id)).
Proof.
  intros He Hn Hv. unfold parse_pkg, canonical. rewrite first_prefix_eco by done.
  by apply split_version_join.
Qed.

(** ** Verdicts of the node *)

Section Verdicts.
Context `{SV : !Semver}.

(** What the chain and the pool say about a package. *)
Definition status_of (s : ChainStore) (pool : PendingPool) (c : string) : VerdictStatus :=
  match get_package s c with
  | Some r =>
      match rec_status r with
      | Verified => VVerified (rec_block_hash r) (rec_content_hash r) (rec_ipfs_cid r) []
      | Revoked reason => VRevoked reason []
      | Pending => VUnverified
      end
  | None => if pool_contains pool c then VUnverified else VUnknown
  end.

Lemma rest_status_of (id : PackageId) (now : Z) (url : string) (s : ChainStore) (pool : PendingPool) (g : GrpcAnswer) :
  ∃ risk, fetch_verdict_rest id now url
            {| na_grpc := g; na_grouped := api_get_package s pool (canonical id);
               na_legacy := api_get_package s pool (canonical id) |}
          = Ok (chain_verdict id now url (status_of s pool (canonical id)) risk).
Proof.
  unfold fetch_verdict_rest, status_of, api_get_package. cbn [na_grouped na_legacy].
  destruct (get_package s (canonical id)) as [r|].
  - eexists. unfold rest_status. cbn. by destruct (rec_status r).
  - destruct (pool_contains pool (canonical id)); eexists; done.
Qed.

Lemma cache_hit (now now' : Z) (c : VerdictCache) (id : PackageId) (v : TrustVerdict) (url : string) (a : NodeAnswers) :
  (now' <= now + cache_ttl (tv_status v))%Z →
  tv_status (resolve_id now' (cache_set now c id v) url a id).2 = tv_status v.
Proof.
  intros Hnow. unfold resolve_id, cache_get, cache_set. rewrite lookup_insert_eq.
  cbn [ce_expires_at]. by rewrite (proj2 (Z.ltb_ge _ _)) by lia.
Qed.

Lemma cache_miss (now : Z) (c : VerdictCache) (id : PackageId) (url : string) (a : NodeAnswers) (v : TrustVerdict) :
  c !! canonical id = None → fetch_verdict id now url a = Ok v →
  resolve_id now c url a id = (cache_set now c id v, v).
Proof. intros Hc Hf. unfold resolve_id, cache_get. by rewrite Hc, Hf. Qed.

(** Over REST the resolver reports exactly what the chain and the pending pool hold, and
    keeps reporting it until the cached verdict expires, whatever becomes of the package
    meanwhile. *)
Theorem rest_verdict_exact (s : ChainStore) (pool : PendingPool) (c : VerdictCache) (id : PackageId)
    (now now' : Z) (url : string) (later : NodeAnswers) :
  c !! canonical id = None →
  let '(c1, v) := resolve_id now c url (node_answers s pool false id) id in
  tv_status v = status_of s pool (canonical id) ∧
  ((now' <= now + cache_ttl (tv_status v))%Z → tv_status (resolve_id now' c1 url later id).2 = tv_status v).
Proof.
  intros Hc. destruct (rest_status_of id now url s pool GrpcUnreachable) as [risk Hr].
  rewrite (cache_miss now c id url (node_answers s pool false id) _ Hc Hr).
  split; [done|]. intros Hn. by apply cache_hit.
Qed.

(** Once the node answers by gRPC, the version that was asked for plays no part: a
    revoked version, or one that never existed, is reported verified, with the content hash
    of the latest verified version, as long as the package has one; and the verdict is
    served from the cache for a day. *)
Theorem grpc_verifies_any_version (s : ChainStore) (pool : PendingPool) (c : VerdictCache) (id : PackageId)
    (latest : ChainRecord) (now now' : Z) (url : string) (later : NodeAnswers) :
  c !! canonical id = None → get_latest_version s (ecosystem id) (name id) = Some latest →
  let '(c1, v) := resolve_id now c url (node_answers s pool true id) id in
  tv_status v = VVerified "" (rec_content_hash latest) "" [] ∧
  ((now' <= now + 24 * 3600)%Z →
   tv_status (resolve_id now' c1 url later id).2 = VVerified "" (rec_content_hash latest) "" []).
Proof.
  intros Hc Hl.
  assert (fetch_verdict id now url (node_answers s pool true id)
          = Ok (chain_verdict id now url (VVerified "" (rec_content_hash latest) "" []) None)) as Hf.
  { unfold fetch_verdict, node_answers. cbn [na_grpc]. unfold grpc_get_latest_version. by rewrite Hl. }
  rewrite (cache_miss _ _ _ _ _ _ Hc Hf). split; [done|]. intros Hn.
  rewrite cache_hit; [done|]. cbn. lia.
Qed.

(** The verdicts of the node carry no findings. *)
Lemma fetch_no_findings (id : PackageId) (now : Z) (url : string) (a : NodeAnswers) (v : TrustVerdict)
    (bh ch cid : string) (fs : list Finding) :
  fetch_verdict id now url a = Ok v → tv_status v = VVerified bh ch cid fs → fs = [].
Proof.
  intros Hf Hv. assert (∀ x, fetch_verdict_rest id now url a = Ok x → tv_status x = VVerified bh ch cid fs → fs = []) as Hr.
  { intros x Hx Hs. unfold fetch_verdict_rest in Hx.
    set (resp := match na_grouped a with RestNotFound | RestUnsupported => _ | r => r end) in Hx.
    destruct resp as [| | | | |r]; try discriminate Hx; injection Hx as <-; [done|].
    cbn in Hs. unfold rest_status in Hs. repeat case_match; simplify_eq/=; done. }
  unfold fetch_verdict in Hf. destruct (na_grpc a) as [| |res]; eauto.
  destruct (found res); [|by eauto]. injection Hf as <-. cbn in Hv. by simplify_eq.
Qed.

End Verdicts.

(** ** The light client and the downloads *)

Section LightProperties.
Context `{CR : !Crypto, SE : !Serde}.

(** Asking for a verified resolution adds nothing against a lying node: unless the node
    itself says in its proof that the package is not verified, the verdict is the plain one,
    in particular when the Merkle proof, the certificate or the header chain is wrong, or the
    client panics over the message of that error. *)
Theorem light_proof_failures_ignored (now : Z) (c : VerdictCache) (url : string) (a : NodeAnswers)
    (id : PackageId) (small : bool) (cp : Checkpoint) (proof : option LightClientResponse) :
  (∀ resp, proof = Some resp → resp_status resp = "verified") →
  let '(c', v) := resolve_id now c url a id in
  resolve_verified now c url a id small cp proof = (c', Some v) ∨
  resolve_verified now c url a id small cp proof = (c', None) ∧ light_verdict small (canonical id) cp proof = LightPanicked.
Proof.
  intros Hp. unfold resolve_verified. destruct (resolve_id now c url a id) as [c' v].
  destruct (is_safe _); [|by left]. destruct proof as [resp|]; [|by left]. unfold light_verdict.
  destruct (verify_package small (canonical id) resp cp) as [b|e] eqn:Hv; [|destruct e; auto].
  destruct b; [by left|]. exfalso. unfold verify_package in Hv. rewrite (Hp resp eq_refl) in Hv.
  rewrite String.eqb_refl in Hv. cbn [negb] in Hv.
  res_inv. destruct (last _); res_inv; discriminate.
Qed.

(** A download yields bytes with the expected hash, and yields some as soon as one node
    sends them. *)
Theorem download_exact (nodes : list string) (arrivals : list (option string)) (h : string) :
  nodes ≠ [] →
  (∀ b, download nodes arrivals h = Ok b → Some b ∈ arrivals ∧ sha256_hex b = h) ∧
  (is_ok (download nodes arrivals h) = true ↔ ∃ b, Some b ∈ arrivals ∧ sha256_hex b = h).
Proof.
  intros Hn. unfold download. rewrite bool_decide_eq_false_2 by done. cbn [negb ensure mbind result_bind].
  set (f := λ r : option string, match r with
              | Some b => if String.eqb (sha256_hex b) h then Some b else None | None => None end).
  assert (∀ b, b ∈ omap f arrivals ↔ Some b ∈ arrivals ∧ sha256_hex b = h) as Hf.
  { intros b. rewrite list_elem_of_omap. split.
    - intros ([x|] & Hx & Hb); [|done]. cbn in Hb. case_match eqn:E; [|done].
      apply String.eqb_eq in E. by injection Hb as ->.
    - intros [Hb Hh]. exists (Some b). split; [done|]. cbn. by rewrite (proj2 (String.eqb_eq _ _) Hh). }
  split.
  - intros b Hb. apply ok_or_Ok in Hb. apply Hf. destruct (omap f arrivals); [done|]. injection Hb as ->.
    by left.
  - split.
    + intros Hok. destruct (omap f arrivals) as [|b l] eqn:E; [done|]. exists b. apply Hf. by left.
    + intros [b Hb]. apply Hf in Hb. by destruct (omap f arrivals); [apply elem_of_nil in Hb|].
Qed.

End LightProperties.

(** ** Witnesses *)
Module ResolverWitness.
Import Toy ToySerde ChainStoreExamples PendingPoolExamples.

Lemma parse_canonical_witness :
  parse_pkg "npm:@scope/pkg@1.0" = ("@scope/pkg", Some "1.0").
Proof.
  apply (parse_canonical {| ecosystem := "npm"; name := "@scope/pkg"; version := "1.0" |});
    [by left|done|reflexivity].
Defined.

(** [npm:a@1.0.0] is verified, [npm:a@0.9.0] is revoked. *)
Definition old_a : PackageId := {| ecosystem := "npm"; name := "a"; version := "0.9.0" |}.
Definition revoked_a : ChainRecord := set_status {|
  rec_id := old_a; rec_content_hash := "malware"; rec_ipfs_cid := "cid0"; rec_publisher_pubkey := "pk";
  rec_block_hash := "b0"; rec_published_at := 0; rec_validator_signatures := [];
  rec_status := Verified; rec_shielded := false; rec_key_bundle := None;
  rec_pgp_fingerprint := None; rec_findings := []; rec_analysis_bundles := default_bundles;
  rec_evidence_digest := ""; rec_deterministic_risk := default_risk; rec_access_count := 0;
  rec_last_accessed := None; rec_threshold := 1; rec_publisher_pubkeys := []; rec_manifest := None |}
  (Revoked "stolen key").

Definition store_a : ChainStore := {|
  blocks_by_hash := ∅; blocks_by_height := ∅;
  packages := {[ canonical old_a := revoked_a; canonical (rec_id (record "a")) := record "a" ]} |}.

Definition no_answers : NodeAnswers :=
  {| na_grpc := GrpcUnreachable; na_grouped := RestUnreachable; na_legacy := RestUnreachable |}.

Lemma rest_verdict_exact_witness :
  let '(c1, v) := resolve_id 0 ∅ "u" (node_answers store_a pool1 false old_a) old_a in
  tv_status v = VRevoked "stolen key" [] ∧
  ((3600 <= 0 + cache_ttl (tv_status v))%Z →
   tv_status (resolve_id 3600 c1 "u" no_answers old_a).2 = tv_status v).
Proof. apply (rest_verdict_exact store_a pool1 ∅ old_a 0 3600 "u" no_answers). reflexivity. Defined.

Lemma grpc_verifies_any_version_witness :
  let '(c1, v) := resolve_id 0 ∅ "u" (node_answers store_a pool1 true old_a) old_a in
  tv_status v = VVerified "" "h" "" [] ∧
  ((86400 <= 0 + 24 * 3600)%Z →
   tv_status (resolve_id 86400 c1 "u" no_answers old_a).2 = VVerified "" "h" "" []).
Proof.
  apply (grpc_verifies_any_version store_a pool1 ∅ old_a (record "a") 0 86400 "u" no_answers);
    [reflexivity|vm_compute; reflexivity].
Defined.

(** A proof whose Merkle path leads nowhere. *)
Definition bad_proof : LightClientResponse := {|
  resp_status := "verified"; resp_block_hash := ""; resp_block_header := header (blk 1 "" []);
  resp_proof := {| proof_tx_hash := "x"; proof_path := []; proof_expected_root := "y" |};
  resp_header_chain := []; resp_pbft_signatures := []; resp_active_validators := [] |}.

Lemma light_proof_failures_ignored_witness :
  let '(c', v) := resolve_id 0 ∅ "u" (node_answers store_a pool1 true old_a) old_a in
  resolve_verified 0 ∅ "u" (node_answers store_a pool1 true old_a) old_a false
    {| cp_height := 0; cp_hash := "g" |} (Some bad_proof) = (c', Some v).
Proof.
  destruct (light_proof_failures_ignored 0 ∅ "u" (node_answers store_a pool1 true old_a) old_a false
    {| cp_height := 0; cp_hash := "g" |} (Some bad_proof)) as [H|[_ H]]; [|exact H|].
  - intros resp [= <-]. reflexivity.
  - vm_compute in H. discriminate H.
Defined.

Lemma download_exact_witness :
  let arrivals := [None; Some "forged"; Some "bytes"] in
  (∀ b, download ["n1"; "n2"; "n3"] arrivals (sha256_hex "bytes") = Ok b →
     Some b ∈ arrivals ∧ sha256_hex b = sha256_hex "bytes") ∧
  (is_ok (download ["n1"; "n2"; "n3"] arrivals (sha256_hex "bytes")) = true ↔
   ∃ b, Some b ∈ arrivals ∧ sha256_hex b = sha256_hex "bytes").
Proof. apply download_exact. done. Defined.

End ResolverWitness.
