(* ===== verification/Install.v ===== *)
(** Installing packages (cli/src/install.rs, policy.rs, lockfile.rs, retry.rs).

    The client resolves a package, applies the policy of the organisation and the trust
    decision, writes an audit receipt, downloads verified content and hands over to the real
    package manager, with the arguments of CREG_PM_ARGS behind its own.  What the user
    answers, what the network sends and what is on disk are the record [InstallEnv]; the audit
    receipts are lines of a text file, their JSON the interface [ReceiptJson]. *)

From S2P Require Import Prelude Text Crypto Types Merkle ValidatorSet Pbft ChainStore PendingPool LightClient Resolver.
From Stdlib Require Import Ascii NArith ZArith.

(** ** Retries *)

(** [with_retry]: the first success or the last error of [max_attempts] attempts. *)
Fixpoint with_retry {E A : Type} (attempts : nat) (i : nat) (op : nat → result E A) (last_err : E)
    : result E A :=
  match attempts with
  | O => Err last_err
  | S n =>
      match op i with
      | Ok a => Ok a
      | Err e => with_retry n (S i) op e
      end
  end.

(** ** Policies *)

Record PolicyFile := {
  po_description : string;
  block_on_findings : list string;
  enforce_ecosystems : list string;
  require_verified : bool;
  min_age_days : N;
  allowed_publishers : list string;
  allowlist : list string;
  blocklist : list string;
}.

Inductive Violation :=
| Blocklisted (entry : string)
| NotAllowlisted
| NotChainVerified (status : string)
| PublisherNotAllowed
| FindingBlocked (severity description : string).

Definition evaluate (p : PolicyFile) (canonical status publisher : string) : list Violation :=
  (Blocklisted <$> filter (λ b, str_contains b canonical = true) (blocklist p)) ++
  (if negb (bool_decide (allowlist p = [])) && negb (existsb (λ a, str_contains a canonical) (allowlist p))
   then [NotAllowlisted] else []) ++
  (if require_verified p && negb (String.eqb status "verified") then [NotChainVerified status] else []) ++
  (if negb (bool_decide (allowed_publishers p = []))
      && negb (existsb (λ a, starts_with a publisher) (allowed_publishers p))
   then [PublisherNotAllowed] else []).

(** [format!("{:?}", severity)] *)
Definition severity_debug (s : FindingSeverity) : string :=
  match s with
  | Critical => "Critical" | High => "High" | Medium => "Medium" | Low => "Low"
  end.

Definition finding_violations (p : PolicyFile) (s : VerdictStatus) : list Violation :=
  match s with
  | VVerified _ _ _ findings =>
      omap (λ f, let sev := severity_debug (finding_severity f) in
                 if existsb (λ b, eq_ignore_ascii_case b sev) (block_on_findings p)
                 then Some (FindingBlocked sev (finding_description f)) else None) findings
  | _ => []
  end.

(** The file of the policy: none, one that cannot be read, or a policy. *)
Inductive PolicyState := NoPolicy | UnreadablePolicy | LoadedPolicy (p : PolicyFile).

Definition policy_violations (st : PolicyState) (eco canonical : string) (s : VerdictStatus) : list Violation :=
  match st with
  | NoPolicy | UnreadablePolicy => []
  | LoadedPolicy p =>
      if bool_decide (enforce_ecosystems p = []) || existsb (String.eqb eco) (enforce_ecosystems p)
      then evaluate p canonical (to_ascii_lowercase (label s)) "" ++ finding_violations p s
      else []
  end.

(** ** Audit receipts *)

Record AuditReceipt := {
  ar_canonical : string;
  ar_status : string;
  ar_block_hash : option string;
  ar_content_hash : option string;
  ar_ts : string;
  ar_source : string;
}.

Class ReceiptJson := {
  receipt_to_json : AuditReceipt → string;
  receipt_of_json : string → option AuditReceipt;
}.


(** The text by which an existing receipt of a package is recognised. *)
Definition canonical_field (c : string) : string :=
  quote +:+ "canonical" +:+ quote +:+ ":" +:+ quote +:+ c +:+ quote.

(** A name that JSON writes as it is: no control character, quote or backslash. *)
Definition plain_char (a : ascii) : bool :=
  (32 <=? N_of_ascii a)%N && negb (N_of_ascii a =? 34)%N && negb (N_of_ascii a =? 92)%N.

Fixpoint plain (c : string) : bool :=
  match c with EmptyString => true | String a c' => plain_char a && plain c' end.

Class ReceiptJsonLaws `{ReceiptJson} : Prop := {
  receipt_round : ∀ r, receipt_of_json (receipt_to_json r) = Some r;
  receipt_shape : ∀ r, ∃ s, receipt_to_json r = "{" +:+ s +:+ "}" ∧ free_of newline s = true;
  receipt_field : ∀ r c, plain c = true →
    str_contains (canonical_field c) (receipt_to_json r) = true ↔ ar_canonical r = c;
}.

Definition LOCKFILE_HEADER : string :=
  "# pkg-lock.chain — chain registry audit receipts" +:+ String newline
  ("# Do not edit manually. Commit this file alongside your lockfile." +:+ String newline EmptyString).

Definition from_verdict (ts : string) (v : TrustVerdict) : AuditReceipt :=
  let '(status, bh, ch) :=
    match tv_status v with
    | VVerified block_hash content_hash _ _ => ("verified", Some block_hash, Some content_hash)
    | VUnverified => ("unverified", None, None)
    | VRevoked _ _ => ("revoked", None, None)
    | VUnknown => ("unknown", None, None)
    end in
  {| ar_canonical := canonical (tv_package v); ar_status := status; ar_block_hash := bh;
     ar_content_hash := ch; ar_ts := ts;
     ar_source := match tv_source v with FromCache _ => "cache" | FromChain _ => "chain" end |}.

(** [find_lockfile_path]: the directories from the start up to the root, each with whether
    it has a manifest of a package manager. *)
Definition find_lockfile_dir (dirs : list (string * bool)) : option string :=
  match filter (λ d : string * bool, d.2 = true) dirs with
  | d :: _ => Some d.1
  | [] => fst <$> head dirs
  end.

Section Lockfile.
Context `{!ReceiptJson}.

(** [write_receipt] on the text of the file, [None] when there is none. *)
Definition write_receipt (file : option string) (ts : string) (v : TrustVerdict) : option string :=
  let receipt := from_verdict ts v in
  let content := default LOCKFILE_HEADER file in
  if str_contains (canonical_field (ar_canonical receipt)) content then file
  else Some (content +:+ receipt_to_json receipt +:+ String newline EmptyString).

Definition receipt_of_line (l : string) : option AuditReceipt :=
  let l := trim l in
  if is_empty l || starts_with "#" l then None else receipt_of_json l.

Definition read_receipts (file : option string) : list AuditReceipt :=
  match file with
  | None => []
  | Some content => omap receipt_of_line (lines content)
  end.

End Lockfile.

(** [lockfile::diff]: the status on chain of a receipt and whether it has drifted. *)
Definition diff_status (a : RestAnswer) : string :=
  match a with
  | RestReply r => pr_status r
  | RestBadJson => "unknown"
  | _ => "unreachable"
  end.

Definition drifted (local chain_status : string) : bool :=
  let chain_changed := negb (String.eqb chain_status local) && negb (String.eqb chain_status "unreachable") in
  let now_revoked := String.eqb chain_status "revoked" && negb (String.eqb local "revoked") in
  now_revoked || chain_changed.

Definition diff_lockfile (receipts : list AuditReceipt) (answers : string → RestAnswer) : nat :=
  count (λ r, drifted (ar_status r) (diff_status (answers (ar_canonical r)))) receipts.

(** ** Installing *)

Inductive InstallError :=
| PolicyBlocked (violations : list Violation)
| PromptFailed
| CancelledFindings
| CancelledUnverified
| IsRevoked (reason : string)
| UnknownPackage
| NoIpfsCid
| SwarmFailed (e : DownloadError)
| UnknownEcosystem
| PackageManagerFailed.

(** What the package manager is asked to install: a file that was written with content from the
    swarm, or the argument as the user wrote it, from the public registry. *)
Inductive Target := FromSwarm (path bytes : string) | FromRegistry (raw : string).

(** One run: the policy file, the flag, the answer at the prompt ([None]: no terminal), the
    time, the node, what it answers and sends on each download attempt, the directory of temporary
    files ([None]: its path is not UTF-8), CREG_PM_ARGS ([None]: not set), and whether the package
    manager succeeds ([None]: it is not found). *)
Record InstallEnv := {
  ie_policy : PolicyState;
  ie_allow_unverified : bool;
  ie_confirm : option bool;
  ie_now : Z;
  ie_ts : string;
  ie_url : string;
  ie_answers : PackageId → NodeAnswers;
  ie_arrivals : nat → list (option string);
  ie_temp_dir : option string;
  ie_pm_args : option string;
  ie_package_manager : option bool;
}.

(** An argument of the package manager: a word, or what to install. *)
Inductive PmArg := Word (w : string) | Asked (t : Target).

Record Invocation := { iv_pm : string; iv_args : list PmArg }.

(** The files after a run and the invocation of the package manager. *)
Record InstallOutcome := {
  io_cache : VerdictCache;
  io_lockfile : option string;
  io_handed : option Invocation;
  io_result : result InstallError unit;
}.

(** [parse_package_arg] *)
Definition parse_package_arg (raw : string) : string * option string := split_version raw.

(** [detect_ecosystem] on the names of the files of the working directory. *)
Definition detect_ecosystem (files : list string) : string :=
  let exists_ f := existsb (String.eqb f) files in
  if exists_ "package.json" then "npm"
  else if exists_ "Cargo.toml" then "cargo"
  else if exists_ "requirements.txt" || exists_ "pyproject.toml" then "pypi"
  else if exists_ "Gemfile" then "rubygems"
  else if exists_ "pom.xml" then "maven"
  else "unknown".

(** [split_whitespace]; a word has a character at least, so [String.length s] of them are enough. *)
Fixpoint split_words (fuel : nat) (s : string) : list string :=
  match fuel with
  | O => []
  | S fuel =>
      let s := trim_start s in
      if is_empty s then []
      else let w := take_non_space s in w :: split_words fuel (drop_str (String.length w) s)
  end.

Definition split_whitespace (s : string) : list string := split_words (String.length s) s.

(** The package manager of an ecosystem and its arguments, those of CREG_PM_ARGS last; Maven is not
    told what to install. *)
Definition real_pm (ecosystem : string) (t : Target) (extra : list string) : option Invocation :=
  let call pm args := Some {| iv_pm := pm; iv_args := args ++ (Word <$> extra) |} in
  if String.eqb ecosystem "npm" then call "npm" [Word "install"; Asked t]
  else if String.eqb ecosystem "pypi" then call "pip" [Word "install"; Asked t]
  else if String.eqb ecosystem "cargo" then call "cargo" [Word "add"; Asked t]
  else if String.eqb ecosystem "rubygems" then call "gem" [Word "install"; Asked t]
  else if String.eqb ecosystem "maven" then call "mvn" [Word "dependency:resolve"]
  else None.

Definition pm_args (env : InstallEnv) : list string := split_whitespace (default "" (ie_pm_args env)).

(** [name.replace('/', "_")] *)
Fixpoint flat_name (s : string) : string :=
  match s with
  | EmptyString => EmptyString
  | String c s' => String (if Ascii.eqb c "/" then "_" else c)%char (flat_name s')
  end.

(** The path of the temporary file, when [to_str] gives it. *)
Definition temp_file (env : InstallEnv) (raw : string) : option string :=
  (λ dir, dir +:+ (if ends_with "/" dir then "" else "/") +:+ flat_name (parse_package_arg raw).1 +:+ ".tgz") <$> ie_temp_dir env.

Definition confirm (env : InstallEnv) (cancelled : InstallError) : result InstallError unit :=
  match ie_confirm env with
  | None => Err PromptFailed
  | Some true => Ok tt
  | Some false => Err cancelled
  end.

Definition severe (f : Finding) : bool :=
  match finding_severity f with Critical | High => true | Medium | Low => false end.

(** Step 3, the trust decision. *)
Definition trust_decision (env : InstallEnv) (s : VerdictStatus) : result InstallError unit :=
  match s with
  | VVerified _ _ _ findings =>
      if existsb severe findings && negb (ie_allow_unverified env) then confirm env CancelledFindings else Ok tt
  | VUnverified => if ie_allow_unverified env then Ok tt else confirm env CancelledUnverified
  | VRevoked reason _ => Err (IsRevoked reason)
  | VUnknown => if ie_allow_unverified env then Ok tt else Err UnknownPackage
  end.

Section Install.
Context `{!Crypto, !ReceiptJson}.

(** Step 4, the content to install, and the argument of step 5: the temporary file, or the argument of
    the user when its path is no text. *)
Definition install_target (env : InstallEnv) (raw : string) (s : VerdictStatus) : result InstallError Target :=
  match s with
  | VVerified _ content_hash ipfs_cid _ =>
      if is_empty ipfs_cid then Err NoIpfsCid
      else
        match with_retry 3 0 (λ i, download [ie_url env] (ie_arrivals env i) content_hash) NoVerifiedBytes with
        | Ok bytes => Ok (match temp_file env raw with Some path => FromSwarm path bytes | None => FromRegistry raw end)
        | Err e => Err (SwarmFailed e)
        end
  | _ => Ok (FromRegistry raw)
  end.

(** [delegate_to_real_pm] *)
Definition delegate_to_real_pm (env : InstallEnv) (eco : string) (target : Target)
    : option Invocation * result InstallError unit :=
  match real_pm eco target (pm_args env) with
  | None => (None, Err UnknownEcosystem)
  | Some call =>
      match ie_package_manager env with
      | None => (None, Err PackageManagerFailed)
      | Some success => (Some call, if success then Ok tt else Err PackageManagerFailed)
      end
  end.

Definition install_id (eco raw : string) : PackageId :=
  let '(n, v) := parse_package_arg raw in
  {| ecosystem := eco; name := n; version := default "latest" v |}.

(** [install::run], for the ecosystem given, configured or detected. *)
Definition install (env : InstallEnv) (c : VerdictCache) (file : option string) (eco raw : string)
    : InstallOutcome :=
  let id := install_id eco raw in
  let '(c', v) := resolve_id (ie_now env) c (ie_url env) (ie_answers env id) id in
  let stop f e := {| io_cache := c'; io_lockfile := f; io_handed := None; io_result := Err e |} in
  let violations := policy_violations (ie_policy env) eco (canonical id) (tv_status v) in
  if negb (bool_decide (violations = [])) then stop file (PolicyBlocked violations)
  else
    match trust_decision env (tv_status v) with
    | Err e => stop file e
    | Ok _ =>
        let file' := write_receipt file (ie_ts env) v in
        match install_target env raw (tv_status v) with
        | Err e => stop file' e
        | Ok target =>
            let '(handed, res) := delegate_to_real_pm env eco target in
            {| io_cache := c'; io_lockfile := file'; io_handed := handed; io_result := res |}
        end
    end.

End Install.

(** ** Retries and policies *)

(** A retried operation succeeds exactly when one of its attempts does, with the result of the
    first. *)
Lemma with_retry_Ok {E A : Type} (n i : nat) (op : nat → result E A) (e : E) (a : A) :
  with_retry n i op e = Ok a → ∃ k, i ≤ k < i + n ∧ op k = Ok a ∧ ∀ j, i ≤ j < k → is_ok (op j) = false.
Proof.
  revert i e. induction n as [|n IH]; intros i e; cbn; [done|].
  destruct (op i) as [b|b] eqn:Hop; [intros [= <-]; exists i; split_and!; [lia|lia|done|intros; lia]|].
  intros (k & Hk & Ha & Hj)%IH. exists k. split_and!; [lia|lia|done|].
  intros j Hij. destruct (decide (j = i)) as [->|]; [by rewrite Hop|]. apply Hj. lia.
Qed.

(** A policy that names publishers blocks every package, because no verdict carries one. *)
Lemma publishers_block_everything (p : PolicyFile) (eco c : string) (s : VerdictStatus) :
  allowed_publishers p ≠ [] → "" ∉ allowed_publishers p →
  enforce_ecosystems p = [] ∨ eco ∈ enforce_ecosystems p →
  PublisherNotAllowed ∈ policy_violations (LoadedPolicy p) eco c s.
Proof.
  intros Hne Hempty Heco. unfold policy_violations.
  assert (bool_decide (enforce_ecosystems p = []) || existsb (String.eqb eco) (enforce_ecosystems p) = true) as ->.
  { apply orb_true_iff. destruct Heco as [He|He]; [left; by apply bool_decide_eq_true_2|right].
    apply existsb_exists. exists eco. split; [by apply list_elem_of_In|apply String.eqb_refl]. }
  apply elem_of_app. left. unfold evaluate. rewrite !elem_of_app. right. right. right.
  rewrite bool_decide_eq_false_2 by done. cbn [negb andb].
  assert (existsb (λ a, starts_with a "") (allowed_publishers p) = false) as ->; [|by left].
  apply not_true_iff_false. intros (a & Ha & Hs)%existsb_exists. apply list_elem_of_In in Ha.
  destruct a; [done|discriminate Hs].
Qed.

(** A minimum age changes nothing. *)
Lemma min_age_ignored (p : PolicyFile) (days : N) (eco c : string) (s : VerdictStatus) :
  policy_violations (LoadedPolicy {|
    po_description := po_description p; block_on_findings := block_on_findings p;
    enforce_ecosystems := enforce_ecosystems p; require_verified := require_verified p;
    min_age_days := days; allowed_publishers := allowed_publishers p;
    allowlist := allowlist p; blocklist := blocklist p |}) eco c s
  = policy_violations (LoadedPolicy p) eco c s.
Proof. done. Qed.

(** ** What may be installed *)

Section InstallProperties.
Context `{CR : !Crypto, RJ : !ReceiptJson}.

(** The verdict that a run acts on. *)
Definition install_verdict (env : InstallEnv) (c : VerdictCache) (eco raw : string) : VerdictStatus :=
  let id := install_id eco raw in
  tv_status (resolve_id (ie_now env) c (ie_url env) (ie_answers env id) id).2.

(** Content of the swarm with the hash of the verdict, and consent when there are severe findings. *)
Definition verified_content (env : InstallEnv) (content_hash cid : string) (fs : list Finding) (bytes : string) : Prop :=
  cid ≠ "" ∧ sha256_hex bytes = content_hash ∧ (∃ i, i < 3 ∧ Some bytes ∈ ie_arrivals env i) ∧
  (existsb severe fs = true → ie_allow_unverified env = true ∨ ie_confirm env = Some true).

(** When what is handed over to the package manager is admissible for a verdict. *)
Definition admissible (env : InstallEnv) (raw : string) (s : VerdictStatus) (t : Target) : Prop :=
  match s, t with
  | VVerified _ content_hash cid fs, FromSwarm path bytes =>
      temp_file env raw = Some path ∧ verified_content env content_hash cid fs bytes
  | VVerified _ content_hash cid fs, FromRegistry raw' =>
      raw' = raw ∧ ie_temp_dir env = None ∧ ∃ bytes, verified_content env content_hash cid fs bytes
  | VUnverified, FromRegistry raw' =>
      raw' = raw ∧ (ie_allow_unverified env = true ∨ ie_confirm env = Some true)
  | VUnknown, FromRegistry raw' => raw' = raw ∧ ie_allow_unverified env = true
  | _, _ => False
  end.

Lemma confirm_Ok (env : InstallEnv) (e : InstallError) (u : unit) :
  confirm env e = Ok u → ie_confirm env = Some true.
Proof. unfold confirm. by destruct (ie_confirm env) as [[|]|]. Qed.

Lemma download_bytes (nodes : list string) (arrivals : list (option string)) (h b : string) :
  download nodes arrivals h = Ok b → Some b ∈ arrivals ∧ sha256_hex b = h.
Proof.
  unfold download. intros H. res_inv.
  match goal with H : head _ = Some _ |- _ => rename H into Hh end.
  destruct (omap _ arrivals) as [|b' l] eqn:Ho; [done|]. injection Hh as ->.
  assert (b ∈ b :: l) as Hb by by left. rewrite <- Ho in Hb. apply list_elem_of_omap in Hb as ([x|] & Hx & Hf); [|done].
  cbn in Hf. case_match eqn:E; [|done]. apply String.eqb_eq in E. by injection Hf as ->.
Qed.

Lemma target_admissible (env : InstallEnv) (raw : string) (s : VerdictStatus) (t : Target) (u : unit) :
  trust_decision env s = Ok u → install_target env raw s = Ok t → admissible env raw s t.
Proof.
  destruct s as [bh ch cid fs| |reason fs|]; cbn [trust_decision install_target admissible]; intros Ht Hi.
  - destruct (is_empty cid) eqn:Hc; [done|].
    destruct (with_retry 3 0 _ NoVerifiedBytes) as [bytes|] eqn:Hr; [|done].
    apply with_retry_Ok in Hr as (k & Hk & Hd & _). apply download_bytes in Hd as [Harr Hh].
    assert (verified_content env ch cid fs bytes) as Hv.
    { split_and!; [by intros ->|done|exists k; split; [lia|done]|].
      intros Hs. rewrite Hs in Ht. cbn in Ht. destruct (ie_allow_unverified env); [by left|right].
      cbn in Ht. by apply confirm_Ok in Ht. }
    destruct (temp_file env raw) as [path|] eqn:Hf; injection Hi as <-; [done|]. split_and!; [done| |by exists bytes].
    unfold temp_file in Hf. by destruct (ie_temp_dir env).
  - injection Hi as <-. split; [done|]. destruct (ie_allow_unverified env); [by left|right].
    by apply confirm_Ok in Ht.
  - done.
  - injection Hi as <-. by destruct (ie_allow_unverified env).
Qed.

(** C31. A package manager is only ever run when the policy has no objection.  Its arguments are its
    subcommand, what to install and the words of the user's own CREG_PM_ARGS, and what to install
    is what the verdict admits: for a verified package a file written with bytes that came from
    the swarm and have the content hash of the verdict, after consent when it has severe findings;
    for an unverified one the user's own argument after consent, for an unknown one after the
    flag, for a revoked one never.  Where the path of the temporary file is no text, a verified
    package is installed from the registry by the user's argument.  Maven is not told what to
    install. *)
Theorem install_safe (env : InstallEnv) (c : VerdictCache) (file : option string) (eco raw : string)
    (call : Invocation) :
  io_handed (install env c file eco raw) = Some call →
  policy_violations (ie_policy env) eco (canonical (install_id eco raw)) (install_verdict env c eco raw) = [] ∧
  ∃ t command, admissible env raw (install_verdict env c eco raw) t ∧
    real_pm eco t (pm_args env) = Some call ∧
    iv_args call = Word command :: (if String.eqb eco "maven" then [] else [Asked t]) ++ (Word <$> pm_args env).
Proof.
  unfold install, install_verdict.
  destruct (resolve_id _ c _ _ _) as [c' v]. cbn [snd].
  destruct (bool_decide _) eqn:Hp; cbn [negb]; [|done]. apply bool_decide_eq_true_1 in Hp.
  destruct (trust_decision env (tv_status v)) as [u|] eqn:Ht; [|done].
  destruct (install_target env raw (tv_status v)) as [t|] eqn:Hi; [|done].
  unfold delegate_to_real_pm. destruct (real_pm eco t (pm_args env)) as [call'|] eqn:Hpm; [|done].
  destruct (ie_package_manager env); [|done]. intros [= <-].
  split; [done|]. exists t. assert (admissible env raw (tv_status v) t) as Ha by (by eapply target_admissible).
  enough (∃ command, iv_args call' = Word command :: (if String.eqb eco "maven" then [] else [Asked t]) ++ (Word <$> pm_args env))
    as [command H] by eauto.
  unfold real_pm in Hpm.
  do 5 (case_match; [match goal with H : String.eqb eco _ = true |- _ => apply String.eqb_eq in H as -> end;
                     injection Hpm as <-; by eexists|]). done.
Qed.

(** A verified package without a content identifier is never installed, under any policy,
    with any flag and any answer. *)
Lemma no_cid_no_install (env : InstallEnv) (c : VerdictCache) (file : option string) (eco raw bh ch : string)
    (fs : list Finding) :
  install_verdict env c eco raw = VVerified bh ch "" fs → io_handed (install env c file eco raw) = None.
Proof.
  unfold install, install_verdict. destruct (resolve_id _ c _ _ _) as [c' v]. cbn [snd]. intros Hv.
  destruct (bool_decide _); cbn [negb]; [|done]. rewrite Hv. cbn [install_target is_empty].
  by destruct (trust_decision env _).
Qed.

(** A node that answers by gRPC makes its verified packages impossible to install: the
    verdict of the gRPC path has no content identifier, so the run ends without running a
    package manager, and so does every run of the next day, whatever the node answers then;
    the audit file nevertheless has a receipt that says verified. *)
Theorem grpc_blocks_install `{SV : !Semver} (s : ChainStore) (pool : PendingPool) (env env' : InstallEnv)
    (c : VerdictCache) (file file' : option string) (eco raw : string) (latest : ChainRecord) :
  let id := install_id eco raw in
  ie_answers env id = node_answers s pool true id →
  c !! canonical id = None → get_latest_version s eco (name id) = Some latest →
  (ie_now env' <= ie_now env + 24 * 3600)%Z →
  let out := install env c file eco raw in
  io_handed out = None ∧
  io_handed (install env' (io_cache out) file' eco raw) = None ∧
  (ie_policy env = NoPolicy →
   io_result out = Err NoIpfsCid ∧
   io_lockfile out = write_receipt file (ie_ts env)
     (chain_verdict id (ie_now env) (ie_url env) (VVerified "" (rec_content_hash latest) "" []) None)).
Proof.
  intros id Ha Hc Hl Hnow out.
  assert (fetch_verdict id (ie_now env) (ie_url env) (ie_answers env id)
          = Ok (chain_verdict id (ie_now env) (ie_url env) (VVerified "" (rec_content_hash latest) "" []) None)) as Hf.
  { rewrite Ha. unfold fetch_verdict, node_answers. cbn [na_grpc]. unfold grpc_get_latest_version.
    assert (ecosystem id = eco) as ->; [|by rewrite Hl].
    unfold id, install_id. by destruct (parse_package_arg raw). }
  pose proof (cache_miss _ _ _ _ _ _ Hc Hf) as Hr.
  assert (io_cache out = (resolve_id (ie_now env) c (ie_url env) (ie_answers env id) id).1) as Hcache.
  { unfold out, install. fold id. destruct (resolve_id _ _ _ _ _) as [c' v]. cbn [fst].
    destruct (bool_decide _); cbn [negb]; [|done]. destruct (trust_decision _ _); [|done].
    destruct (install_target _ _ _); [|done]. by destruct (delegate_to_real_pm _ _ _). }
  split_and!.
  - eapply no_cid_no_install. unfold install_verdict. fold id. by rewrite Hr.
  - eapply no_cid_no_install. unfold install_verdict. fold id. rewrite Hcache, Hr. cbn [fst].
    rewrite cache_hit; [done|]. cbn. lia.
  - intros Hp. unfold out, install. fold id. rewrite Hr, Hp. cbn [policy_violations].
    rewrite bool_decide_eq_true_2 by done. done.
Qed.

End InstallProperties.

(** ** The audit file *)

Lemma plain_free (c : string) (a : ascii) : plain c = true → plain_char a = false → free_of a c = true.
Proof.
  intros Hc Ha. induction c as [|x c IH]; [done|]. cbn in *. apply andb_true_iff in Hc as [Hx Hc].
  rewrite IH by done. rewrite andb_true_r. apply negb_true_iff, Ascii.eqb_neq. congruence.
Qed.

Lemma field_free (c : string) : plain c = true → free_of newline (canonical_field c) = true.
Proof.
  intros Hc. unfold canonical_field, quote. rewrite !free_of_app.
  by rewrite (plain_free c newline Hc) by reflexivity.
Qed.

(** Texts in braces are left alone by [trim] and [drop_cr]. *)
Lemma trim_braces (s : string) : trim ("{" +:+ s +:+ "}") = "{" +:+ s +:+ "}".
Proof.
  unfold trim. assert (trim_start ("{" +:+ s +:+ "}") = "{" +:+ s +:+ "}") as -> by reflexivity.
  unfold trim_end. rewrite <- app_assoc_str.
  assert (strip_all (String.length (("{" +:+ s) +:+ "}")) (String.rev <$> white_space)
            (String.rev (("{" +:+ s) +:+ "}")) = String.rev (("{" +:+ s) +:+ "}")) as ->; [|apply rev_str_rev].
  rewrite (rev_str_app _ "}"). reflexivity.
Qed.

Section Receipts.
Context `{RJ : !ReceiptJson, RL : !ReceiptJsonLaws}.

(** The text after the header with the given receipts, and the file that holds them. *)
Fixpoint receipt_lines (rs : list AuditReceipt) : string :=
  match rs with [] => "" | r :: rs' => receipt_to_json r +:+ String newline (receipt_lines rs') end.

Definition audit_file (rs : list AuditReceipt) : option string :=
  match rs with [] => None | _ => Some (LOCKFILE_HEADER +:+ receipt_lines rs) end.

Lemma receipt_lines_app (rs : list AuditReceipt) (r : AuditReceipt) :
  receipt_lines (rs ++ [r]) = receipt_lines rs +:+ receipt_to_json r +:+ String newline "".
Proof.
  induction rs as [|r' rs IH]; [done|].
  change ((r' :: rs) ++ [r]) with (r' :: (rs ++ [r])). cbn [receipt_lines].
  by rewrite IH, app_assoc_str, app_cons_str.
Qed.

Lemma contains_lines (c : string) (rs : list AuditReceipt) :
  plain c = true →
  str_contains (canonical_field c) (receipt_lines rs) = existsb (λ r, String.eqb (ar_canonical r) c) rs.
Proof.
  intros Hc. induction rs as [|r rs IH]; [done|]. cbn [receipt_lines existsb].
  rewrite str_contains_line by (done || by apply field_free). rewrite IH. f_equal.
  apply eq_true_iff_eq. rewrite receipt_field by done. symmetry. apply String.eqb_eq.
Qed.

Lemma contains_header (c s : string) :
  plain c = true → str_contains (canonical_field c) (LOCKFILE_HEADER +:+ s) = str_contains (canonical_field c) s.
Proof.
  intros Hc.
  change (LOCKFILE_HEADER +:+ s) with ("# pkg-lock.chain — chain registry audit receipts" +:+ String newline
    ("# Do not edit manually. Commit this file alongside your lockfile." +:+ String newline s)).
  rewrite !str_contains_line by (done || by apply field_free). reflexivity.
Qed.

Lemma receipt_of_json_line (r : AuditReceipt) : receipt_of_line (drop_cr (receipt_to_json r)) = Some r.
Proof.
  destruct (receipt_shape r) as (s & Hs & _). unfold receipt_of_line.
  assert (drop_cr (receipt_to_json r) = receipt_to_json r) as ->.
  { rewrite Hs, <- app_assoc_str. by apply drop_cr_end. }
  assert (trim (receipt_to_json r) = receipt_to_json r) as -> by (rewrite Hs; apply trim_braces).
  rewrite receipt_round. by rewrite Hs.
Qed.

Lemma read_audit_file (rs : list AuditReceipt) : read_receipts (audit_file rs) = rs.
Proof.
  assert (omap receipt_of_line (split_lines "" (receipt_lines rs)) = rs) as Hl.
  { induction rs as [|r rs IH]; [done|]. cbn [receipt_lines]. destruct (receipt_shape r) as (s & Hs & Hf).
    rewrite split_lines_line by (rewrite Hs, !free_of_app, Hf; done).
    change ("" +:+ receipt_to_json r) with (receipt_to_json r). cbn [omap list_omap].
    by rewrite receipt_of_json_line, IH. }
  destruct rs as [|r rs]; [done|]. unfold audit_file, read_receipts, lines.
  change (LOCKFILE_HEADER +:+ receipt_lines (r :: rs)) with
    ("# pkg-lock.chain — chain registry audit receipts" +:+ String newline
      ("# Do not edit manually. Commit this file alongside your lockfile." +:+ String newline (receipt_lines (r :: rs)))).
  rewrite !split_lines_line by reflexivity. cbn [omap list_omap]. exact Hl.
Qed.

(** The receipts after one more write. *)
Definition add_receipt (rs : list AuditReceipt) (r : AuditReceipt) : list AuditReceipt :=
  if existsb (λ r', String.eqb (ar_canonical r') (ar_canonical r)) rs then rs else rs ++ [r].

Lemma write_audit_file (rs : list AuditReceipt) (ts : string) (v : TrustVerdict) :
  plain (canonical (tv_package v)) = true →
  write_receipt (audit_file rs) ts v = audit_file (add_receipt rs (from_verdict ts v)).
Proof.
  intros Hp. assert (ar_canonical (from_verdict ts v) = canonical (tv_package v)) as Hc.
  { unfold from_verdict. by destruct (tv_status v). }
  unfold write_receipt, add_receipt. rewrite Hc.
  assert (default LOCKFILE_HEADER (audit_file rs) = LOCKFILE_HEADER +:+ receipt_lines rs) as ->.
  { destruct rs; [|done]. cbn [audit_file default receipt_lines]. by rewrite app_nil_r_str. }
  rewrite contains_header, contains_lines by done.
  destruct (existsb _ rs); [done|]. rewrite app_assoc_str, <- receipt_lines_app. by destruct rs.
Qed.

Lemma add_receipt_NoDup (rs : list AuditReceipt) (r : AuditReceipt) :
  NoDup (ar_canonical <$> rs) → NoDup (ar_canonical <$> add_receipt rs r).
Proof.
  intros Hnd. unfold add_receipt. destruct (existsb _ rs) eqn:He; [done|].
  rewrite fmap_app. apply NoDup_app. split_and!; [done| |apply NoDup_singleton].
  intros c Hc Hr. apply list_elem_of_singleton in Hr as ->. apply list_elem_of_fmap in Hc as (r' & Hrr & Hin).
  apply not_true_iff_false in He. apply He. apply existsb_exists. exists r'.
  split; [by apply list_elem_of_In|]. rewrite Hrr. apply String.eqb_refl.
Qed.

Definition receipt_for (c : string) (rs : list AuditReceipt) : option AuditReceipt :=
  List.find (λ r, String.eqb (ar_canonical r) c) rs.

Lemma receipt_for_app (c : string) (l1 l2 : list AuditReceipt) :
  receipt_for c (l1 ++ l2) = match receipt_for c l1 with Some r => Some r | None => receipt_for c l2 end.
Proof. unfold receipt_for. induction l1 as [|r l1 IH]; [done|]. cbn. by destruct (String.eqb _ _). Qed.

Lemma receipt_for_add (c : string) (rs : list AuditReceipt) (r : AuditReceipt) :
  receipt_for c (add_receipt rs r) = receipt_for c (rs ++ [r]).
Proof.
  unfold add_receipt. destruct (existsb _ rs) eqn:He; [|done]. rewrite receipt_for_app.
  destruct (receipt_for c rs) as [r'|] eqn:Hf; [done|]. cbn. case_match eqn:E; [|done]. exfalso.
  apply String.eqb_eq in E. subst c. apply existsb_exists in He as (r' & Hin & Heq).
  unfold receipt_for in Hf. pose proof (find_none _ _ Hf r' Hin) as Hn. cbn in Hn. congruence.
Qed.

(** However many installs of a project write their receipts, the audit file reads back
    with one receipt per package, and it is the receipt of the first of them: a package that
    was installed unverified stays so in the file when it is installed verified later. *)
Theorem first_receipt_stays (writes : list (string * TrustVerdict)) :
  Forall (λ w, plain (canonical (tv_package w.2)) = true) writes →
  let file := foldl (λ f w, write_receipt f w.1 w.2) None writes in
  let receipts := (λ w, from_verdict w.1 w.2) <$> writes in
  NoDup (ar_canonical <$> read_receipts file) ∧
  ∀ c, receipt_for c (read_receipts file) = receipt_for c receipts.
Proof.
  intros Hw file receipts.
  assert (∃ rs, file = audit_file rs ∧ NoDup (ar_canonical <$> rs) ∧
                ∀ c, receipt_for c rs = receipt_for c receipts) as (rs & -> & Hnd & Hc).
  { unfold file, receipts. clear file receipts. induction writes as [|w ws IH] using rev_ind.
    - exists []. split_and!; [done|apply NoDup_nil_2|done].
    - apply Forall_app in Hw as [Hws Hw]. destruct (IH Hws) as (rs & Hf & Hnd & Hc).
      apply Forall_cons in Hw as [Hp _]. exists (add_receipt rs (from_verdict w.1 w.2)).
      rewrite foldl_app. cbn [foldl]. rewrite Hf, write_audit_file by done.
      split_and!; [done|by apply add_receipt_NoDup|]. intros c.
      rewrite receipt_for_add, fmap_app, !receipt_for_app, Hc. done. }
  by rewrite read_audit_file.
Qed.

End Receipts.

(** ** Comparing the audit file with the chain *)

Definition status_word (s : PackageStatus) : string :=
  match s with Verified => "verified" | Revoked _ => "revoked" | Pending => "pending" end.

Lemma drifted_reached (chain l : string) :
  chain ≠ "unreachable" → drifted l chain = negb (String.eqb chain l).
Proof.
  intros Hc. unfold drifted. rewrite (proj2 (String.eqb_neq _ _) Hc), andb_true_r.
  destruct (String.eqb_spec chain l) as [->|]; [|by rewrite orb_true_r].
  destruct (String.eqb_spec l "revoked") as [->|]; done.
Qed.

(** A receipt has drifted exactly when the chain has a record with another status, or the
    package waits in the pool and the receipt does not say pending, which no receipt does; a
    package that the chain no longer has counts as in sync. *)
Lemma drifted_exact (s : ChainStore) (pool : PendingPool) (c l : string) :
  drifted l (diff_status (api_get_package s pool c)) =
  match get_package s c with
  | Some r => negb (String.eqb (status_word (rec_status r)) l)
  | None => pool_contains pool c && negb (String.eqb "pending" l)
  end.
Proof.
  unfold api_get_package, diff_status. destruct (get_package s c) as [r|]; cbn [pr_status].
  - rewrite drifted_reached; by destruct (rec_status r).
  - destruct (pool_contains pool c); [by apply drifted_reached|].
    unfold drifted. by rewrite String.eqb_refl, andb_false_r.
Qed.

(** The receipt of a package that waits in the pool has drifted at once. *)
Lemma pending_drifts (ts url : string) (now : Z) (risk : option DeterministicRiskSummary) (id : PackageId)
    (s : ChainStore) (pool : PendingPool) :
  get_package s (canonical id) = None → pool_contains pool (canonical id) = true →
  let receipt := from_verdict ts (chain_verdict id now url (status_of s pool (canonical id)) risk) in
  drifted (ar_status receipt) (diff_status (api_get_package s pool (ar_canonical receipt))) = true.
Proof.
  intros Hg Hp. unfold status_of. rewrite Hg, Hp. cbn [from_verdict chain_verdict tv_status tv_package ar_status ar_canonical].
  rewrite drifted_exact, Hg, Hp. reflexivity.
Qed.

(** ** Witnesses *)
Module ToyReceipts.

(** A receipt as a number in binary, followed by the field of its name when that is plain. *)
Definition fields (r : AuditReceipt) :=
  (ar_canonical r, ar_status r, ar_block_hash r, ar_content_hash r, ar_ts r, ar_source r).

Definition of_fields (f : string * string * option string * option string * string * string) : AuditReceipt :=
  let '(c, s, b, h, t, src) := f in
  {| ar_canonical := c; ar_status := s; ar_block_hash := b; ar_content_hash := h; ar_ts := t; ar_source := src |}.

Fixpoint bits (p : positive) : string :=
  match p with xH => "" | xO p' => String "0" (bits p') | xI p' => String "1" (bits p') end.

(** The bits up to the first other character. *)
Fixpoint unbits (s : string) : positive :=
  match s with
  | String "0" s' => xO (unbits s')
  | String "1" s' => xI (unbits s')
  | _ => xH
  end.

Definition field_if_plain (c : string) : string := if plain c then canonical_field c else "".

Definition to_json (r : AuditReceipt) : string :=
  "{" +:+ (bits (encode (fields r)) +:+ field_if_plain (ar_canonical r)) +:+ "}".

Definition of_json (s : string) : option AuditReceipt :=
  match s with
  | String "{" s' => of_fields <$> decode (unbits s')
  | _ => None
  end.

#[export] Instance toy_receipts : ReceiptJson := {| receipt_to_json := to_json; receipt_of_json := of_json |}.

Lemma unbits_bits (p : positive) (s : string) : unbits s = xH → unbits (bits p +:+ s) = p.
Proof.
  intros Hs. induction p as [p IH|p IH|]; cbn [bits]; rewrite ?app_cons_str; cbn [unbits]; rewrite ?IH; done.
Qed.

Lemma bits_free (p : positive) (a : ascii) : a ≠ "0"%char → a ≠ "1"%char → free_of a (bits p) = true.
Proof.
  intros H0 H1. induction p; cbn [bits free_of]; [| |done];
    rewrite (proj2 (Ascii.eqb_neq _ _)) by congruence; done.
Qed.

(** A pattern that starts with a quote is not found before the first quote. *)
Lemma contains_skip (p a b : string) :
  free_of (byte 34) a = true → str_contains (quote +:+ p) (a +:+ b) = str_contains (quote +:+ p) b.
Proof.
  intros Ha. induction a as [|x a IH]; [done|]. apply free_of_cons in Ha as [Hx Ha].
  rewrite app_cons_str. change (quote +:+ p) with (String (byte 34) p) in *. cbn [str_contains].
  rewrite starts_with_cons, (proj2 (Ascii.eqb_neq _ _)) by congruence. by apply IH.
Qed.

Lemma contains_none (p a : string) : free_of (byte 34) a = true → str_contains (quote +:+ p) a = false.
Proof. intros Ha. rewrite <- (app_nil_r_str a), contains_skip by done. by destruct p. Qed.

(** A quoted pattern against a quoted text. *)
Lemma starts_quoted (x y z w : string) :
  free_of (byte 34) x = true → free_of (byte 34) y = true →
  starts_with (quote +:+ x +:+ quote +:+ z) (quote +:+ y +:+ quote +:+ w) = true → y = x ∧ starts_with z w = true.
Proof.
  intros Hx Hy Hs. apply starts_with_app in Hs as (t & Ht).
  change (String (byte 34) (y +:+ String (byte 34) w) = String (byte 34) ((x +:+ String (byte 34) z) +:+ t)) in Ht.
  injection Ht as Ht. rewrite app_assoc_str, app_cons_str in Ht.
  destruct (sep_split_l (byte 34) y x w (z +:+ t) Hy Hx Ht) as [-> ->].
  split; [done|]. apply starts_with_app. by exists t.
Qed.

Lemma contains_quoted (p y w : string) :
  free_of (byte 34) y = true →
  str_contains (quote +:+ p) (quote +:+ y +:+ quote +:+ w)
  = starts_with (quote +:+ p) (quote +:+ y +:+ quote +:+ w) || str_contains (quote +:+ p) (quote +:+ w).
Proof.
  intros Hy. change (quote +:+ y +:+ quote +:+ w) with (String (byte 34) (y +:+ quote +:+ w)) at 1.
  cbn [str_contains]. f_equal. by apply contains_skip.
Qed.

(** The field of [c] occurs in the field of [c'] only when they are the same. *)
Lemma contains_field (c c' : string) :
  plain c = true → plain c' = true →
  str_contains (canonical_field c) (canonical_field c' +:+ "}") = true ↔ c' = c.
Proof.
  intros Hc Hc'. pose proof (plain_free c (byte 34) Hc eq_refl) as Hq.
  pose proof (plain_free c' (byte 34) Hc' eq_refl) as Hq'.
  assert (canonical_field c' +:+ "}" = quote +:+ "canonical" +:+ quote +:+ ":" +:+ quote +:+ c' +:+ quote +:+ "}") as ->.
  { unfold canonical_field. by rewrite !app_assoc_str. }
  unfold canonical_field. rewrite !contains_quoted by done. rewrite !orb_true_iff. split.
  - intros [Hs|[Hs|[Hs|Hs]]].
    + apply (starts_quoted "canonical" "canonical") in Hs as [_ Hs]; [|done..].
      change (starts_with (":" +:+ quote +:+ c +:+ quote) (":" +:+ quote +:+ c' +:+ quote +:+ "}"))
        with (starts_with (quote +:+ c +:+ quote +:+ "") (quote +:+ c' +:+ quote +:+ "}")) in Hs.
      by apply starts_quoted in Hs as [Hs _].
    + by apply starts_quoted in Hs as [Hs _].
    + by apply starts_quoted in Hs as [_ Hs].
    + done.
  - intros ->. left. apply starts_with_app. exists "}". by rewrite !app_assoc_str.
Qed.

#[export] Instance toy_receipts_laws : ReceiptJsonLaws.
Proof.
  split.
  - intros r. change (of_fields <$> decode (unbits ((bits (encode (fields r)) +:+ field_if_plain (ar_canonical r)) +:+ "}")) = Some r).
    rewrite app_assoc_str, unbits_bits.
    + rewrite decode_encode. by destruct r.
    + unfold field_if_plain. by destruct (plain _).
  - intros r. eexists. split; [reflexivity|]. rewrite free_of_app, bits_free by done.
    unfold field_if_plain. destruct (plain _) eqn:Hp; [by apply field_free|done].
  - intros r c Hc. cbn [receipt_to_json toy_receipts]. unfold to_json. rewrite app_assoc_str, <- app_assoc_str.
    unfold canonical_field at 1. rewrite contains_skip by (rewrite free_of_app, bits_free; done).
    fold (canonical_field c). unfold field_if_plain. destruct (plain (ar_canonical r)) eqn:Hp.
    + by apply contains_field.
    + split; [done|]. intros Heq. congruence.
Qed.

End ToyReceipts.

Module InstallWitness.
Import Toy ToySerde ToyReceipts ResolverWitness ChainStoreExamples PendingPoolExamples.

Definition good : PackageApiResp :=
  {| pr_canonical := "npm:a@1.0"; pr_status := "verified"; pr_block_hash := Some "b";
     pr_content_hash := Some (sha256_hex "bytes"); pr_ipfs_cid := Some "cid";
     pr_revocation_reason := None; pr_risk := None |}.

(** The first attempt brings forged bytes only, the second one the right ones. *)
Definition env1 : InstallEnv := {|
  ie_policy := NoPolicy; ie_allow_unverified := false; ie_confirm := None; ie_now := 0; ie_ts := "t";
  ie_url := "u"; ie_answers _ := {| na_grpc := GrpcUnreachable; na_grouped := RestReply good; na_legacy := RestNotFound |};
  ie_arrivals i := match i with O => [Some "forged"] | _ => [None; Some "bytes"] end;
  ie_temp_dir := Some "/tmp"; ie_pm_args := Some " --offline  -g"; ie_package_manager := Some true |}.

Definition npm_call : Invocation :=
  {| iv_pm := "npm"; iv_args := [Word "install"; Asked (FromSwarm "/tmp/a.tgz" "bytes"); Word "--offline"; Word "-g"] |}.

Lemma install_safe_witness :
  policy_violations NoPolicy "npm" (canonical (install_id "npm" "a@1.0")) (install_verdict env1 ∅ "npm" "a@1.0") = [] ∧
  ∃ t command, admissible env1 "a@1.0" (install_verdict env1 ∅ "npm" "a@1.0") t ∧
    real_pm "npm" t ["--offline"; "-g"] = Some npm_call ∧ iv_args npm_call = [Word command; Asked t; Word "--offline"; Word "-g"].
Proof. apply (install_safe env1 ∅ None "npm" "a@1.0" npm_call). vm_compute. reflexivity. Defined.

(** A verified package where the path of the temporary directory is no text. *)
Example verified_from_registry :
  io_handed (install {|
    ie_policy := NoPolicy; ie_allow_unverified := false; ie_confirm := None; ie_now := 0; ie_ts := "t"; ie_url := "u";
    ie_answers := ie_answers env1; ie_arrivals := ie_arrivals env1; ie_temp_dir := None; ie_pm_args := None;
    ie_package_manager := Some true |} ∅ None "npm" "a@1.0")
  = Some {| iv_pm := "npm"; iv_args := [Word "install"; Asked (FromRegistry "a@1.0")] |}.
Proof. vm_compute. reflexivity. Qed.

(** The package [npm:a@1.0.0] of the store, asked for over gRPC. *)
Definition env2 : InstallEnv := {|
  ie_policy := NoPolicy; ie_allow_unverified := true; ie_confirm := Some true; ie_now := 0; ie_ts := "t";
  ie_url := "u"; ie_answers := node_answers store_a pool1 true;
  ie_arrivals _ := [Some "bytes"]; ie_temp_dir := Some "/tmp"; ie_pm_args := None; ie_package_manager := Some true |}.

Lemma grpc_blocks_install_witness :
  let id := install_id "npm" "a@1.0.0" in
  let out := install env2 ∅ None "npm" "a@1.0.0" in
  io_handed out = None ∧
  io_handed (install env1 (io_cache out) None "npm" "a@1.0.0") = None ∧
  (NoPolicy = NoPolicy →
   io_result out = Err NoIpfsCid ∧
   io_lockfile out = write_receipt None "t"
     (chain_verdict id 0 "u" (VVerified "" (rec_content_hash (record "a")) "" []) None)).
Proof.
  apply (grpc_blocks_install store_a pool1 env2 env1 ∅ None None "npm" "a@1.0.0" (record "a"));
    [reflexivity|reflexivity|vm_compute; reflexivity|cbn; lia].
Defined.

Definition verdict_a (s : VerdictStatus) : TrustVerdict := chain_verdict old_a 0 "u" s None.

Definition two_writes : list (string * TrustVerdict) :=
  [("t1", verdict_a VUnverified); ("t2", verdict_a (VVerified "b" "h" "cid" []))].

Lemma first_receipt_stays_witness :
  let file := foldl (λ f w, write_receipt f w.1 w.2) None two_writes in
  NoDup (ar_canonical <$> read_receipts file) ∧
  ∀ c, receipt_for c (read_receipts file) = receipt_for c ((λ w, from_verdict w.1 w.2) <$> two_writes).
Proof. apply (first_receipt_stays two_writes). repeat constructor. Defined.

(** The policy template of the tool, with a publisher. *)
Example policy_blocks :
  policy_violations (LoadedPolicy {|
    po_description := ""; block_on_findings := ["Critical"]; enforce_ecosystems := ["npm"];
    require_verified := true; min_age_days := 7; allowed_publishers := ["ab12"]; allowlist := [];
    blocklist := ["evil"] |}) "npm" "npm:evil@1.0" (VVerified "b" "h" "cid" [])
  = [Blocklisted "evil"; PublisherNotAllowed].
Proof. reflexivity. Qed.

End InstallWitness.
