(* ===== verification/Registrations.v ===== *)
(** Validator identity registrations (node/src/api.rs, validator_registry_gossip.rs, p2p.rs,
    main.rs).

    A wallet binds a node identifier and an Ed25519 key to its address by two signatures.  A
    registration is applied by one function however it arrives (HTTP, gossip, the journal at a
    restart), kept in a map by wallet, written to a journal file and gossiped.  A worker
    copies the state of each wallet's stake from L1 into it.  ECDSA recovery is the interface
    [K256], the rest of Ethereum the interface of [Staking]. *)

From S2P Require Import Prelude Text Crypto Types Threshold Staking ConsensusAdmission SetSync NodeState.
From Stdlib Require Import Ascii NArith.

(** K256Signature::try_from and VerifyingKey::recover_from_prehash: digest, 64 bytes of the
    signature and recovery id to the 65 bytes of the uncompressed key. *)
Class K256 := { k256_recover : string → string → N → option string }.

(** ** Proofs *)

Record RegistrationProof := {
  rp_evm_address : string;
  rp_node_id : string;
  rp_ed25519_pubkey : string;
  rp_alias : option string;
  rp_nonce : string;
  rp_evm_signature : string;
  rp_ed25519_signature : string;
}.

Definition into_gossip (p : RegistrationProof) : GossipMessage :=
  GValidatorRegistration (rp_evm_address p) (rp_node_id p) (rp_ed25519_pubkey p) (rp_alias p)
    (rp_nonce p) (rp_evm_signature p) (rp_ed25519_signature p).

Inductive RegError :=
| InvalidEvmAddress | NodeIdRequired | PubkeyLength (n : nat) | PubkeyHex
| NonceRequired | NonceTooLong
| EvmSigHex | EvmSigLength (n : nat) | RecoveryId (v : N) | EvmRecover | WrongSigner (recovered : string)
| EdPubkeyHex | EdPubkey | EdSigHex | EdSigFormat | EdSigInvalid
| RegConflict.

(** The HTTP status of an error. *)
Definition reg_status_code (e : RegError) : N :=
  match e with
  | InvalidEvmAddress | NodeIdRequired | PubkeyLength _ | PubkeyHex | NonceRequired | NonceTooLong => 400
  | RegConflict => 409
  | _ => 401
  end.

Section Checks.
Context `{!Crypto, !Ethereum, !K256}.

Definition validate_evm_address (value : string) : result RegError string :=
  a ← ok_or InvalidEvmAddress (addr_parse (trim value)); Ok (addr_text a).

Definition validate_node_id (value : string) : result RegError string :=
  if is_empty (trim value) then Err NodeIdRequired else Ok (trim value).

Definition validate_ed25519_pubkey (value : string) : result RegError string :=
  let trimmed := to_ascii_lowercase (trim_0x (trim value)) in
  match hex_decode trimmed with
  | Some bytes => if String.length bytes =? 32 then Ok trimmed else Err (PubkeyLength (String.length bytes))
  | None => Err PubkeyHex
  end.

Definition validate_registration_nonce (value : string) : result RegError string :=
  if is_empty (trim value) then Err NonceRequired
  else if 128 <? String.length (trim value) then Err NonceTooLong
  else Ok (trim value).

Definition lf : string := String (byte 10) "".

Definition validator_identity_registration_message (chain_id evm_address node_id ed25519_pubkey nonce : string)
    : string :=
  "creg-validator-identity-v1" +:+ lf +:+ "chain_id:" +:+ chain_id +:+ lf +:+
  "evm_address:" +:+ evm_address +:+ lf +:+ "node_id:" +:+ node_id +:+ lf +:+
  "ed25519_pubkey:" +:+ ed25519_pubkey +:+ lf +:+ "nonce:" +:+ nonce.

Definition parse_ecdsa_signature_bytes (signature_hex : string) : result RegError string :=
  decoded ← ok_or EvmSigHex (hex_decode (trim_0x (trim signature_hex)));
  if String.length decoded =? 65 then Ok decoded else Err (EvmSigLength (String.length decoded)).

(** [RecoveryId::from_byte] accepts 0 and 1. *)
Definition normalize_recovery_id (v : N) : result RegError N :=
  if (v =? 0)%N || (v =? 1)%N then Ok v
  else if (v =? 27)%N || (v =? 28)%N then Ok (v - 27)%N
  else Err (RecoveryId v).

Definition ethereum_personal_message_digest (message : string) : string :=
  keccak256 (String (byte 25) ("Ethereum Signed Message:" +:+ lf +:+
             fmt_N (N.of_nat (String.length message)) +:+ message)).

(** The address of an uncompressed public key. *)
Definition key_address (pubkey : string) : N :=
  from_be_bytes (drop 12 (of_str (keccak256 (to_str (drop 1 (of_str pubkey)))))).

(** The last byte of 65. *)
Definition recovery_byte (b : string) : N := from_be_bytes (drop 64 (of_str b)).

Definition recover_evm_personal_signer (message signature_hex : string) : result RegError string :=
  let digest := ethereum_personal_message_digest message in
  b ← parse_ecdsa_signature_bytes signature_hex;
  recovery_id ← normalize_recovery_id (recovery_byte b);
  pubkey ← ok_or EvmRecover (k256_recover digest (to_str (take 64 (of_str b))) recovery_id);
  Ok (addr_text (key_address pubkey)).

Definition verify_ed25519_identity_signature (message ed25519_pubkey signature_hex : string)
    : result RegError unit :=
  pubkey_bytes ← ok_or EdPubkeyHex (hex_decode ed25519_pubkey);
  verifying_key ← ok_or EdPubkey (vk_try_from pubkey_bytes);
  signature_bytes ← ok_or EdSigHex (hex_decode (trim_0x (trim signature_hex)));
  signature ← ok_or EdSigFormat (sig_try_from signature_bytes);
  ensure (verify verifying_key message signature) EdSigInvalid.

Definition verify_validator_identity_proofs
    (chain_id evm_address node_id ed25519_pubkey nonce evm_signature ed25519_signature : string)
    : result RegError unit :=
  let message := validator_identity_registration_message chain_id evm_address node_id ed25519_pubkey nonce in
  recovered ← recover_evm_personal_signer message evm_signature;
  _ ← ensure (String.eqb recovered evm_address) (WrongSigner recovered);
  verify_ed25519_identity_signature message ed25519_pubkey ed25519_signature.

(** The validated fields of a proof whose signatures hold. *)
Definition check_proof (chain_id : string) (p : RegistrationProof) : result RegError ValidatorIdentity :=
  evm_address ← validate_evm_address (rp_evm_address p);
  node_id ← validate_node_id (rp_node_id p);
  ed25519_pubkey ← validate_ed25519_pubkey (rp_ed25519_pubkey p);
  nonce ← validate_registration_nonce (rp_nonce p);
  _ ← verify_validator_identity_proofs chain_id evm_address node_id ed25519_pubkey nonce
        (rp_evm_signature p) (rp_ed25519_signature p);
  Ok {| evm_address := evm_address; node_id := node_id; ed25519_pubkey := ed25519_pubkey |}.

End Checks.

(** ** The node *)

(** The node: its synchronised state, its configuration and the journal on disk, [None] when
    there is no readable file. *)
Record RegNode := {
  rn_node : SyncNode;
  rn_chain_id : string;
  rn_is_testnet : bool;
  rn_journal : option (list RegistrationProof);
}.

Definition node_chain_id (n : RegNode) : string :=
  if negb (is_empty (trim (rn_chain_id n))) then rn_chain_id n
  else if rn_is_testnet n then "creg-testnet-1" else "creg-mainnet-1".

Definition with_node (n : RegNode) (s : SyncNode) : RegNode :=
  {| rn_node := s; rn_chain_id := rn_chain_id n; rn_is_testnet := rn_is_testnet n; rn_journal := rn_journal n |}.

Definition with_journal (n : RegNode) (j : option (list RegistrationProof)) : RegNode :=
  {| rn_node := rn_node n; rn_chain_id := rn_chain_id n; rn_is_testnet := rn_is_testnet n; rn_journal := j |}.

Definition registrations (n : RegNode) : gmap string Registration := sn_registrations (rn_node n).

Definition with_registrations (s : SyncNode) (m : gmap string Registration) : SyncNode :=
  {| sn_node_id := sn_node_id s; sn_set := sn_set s; sn_bootstrap := sn_bootstrap s;
     sn_registrations := m; sn_tip_height := sn_tip_height s; sn_history := sn_history s;
     sn_cursor_file := sn_cursor_file s; sn_status := sn_status s |}.

Definition with_set (s : SyncNode) (vs : CommonValidatorSet) : SyncNode :=
  {| sn_node_id := sn_node_id s; sn_set := vs; sn_bootstrap := sn_bootstrap s;
     sn_registrations := sn_registrations s; sn_tip_height := sn_tip_height s; sn_history := sn_history s;
     sn_cursor_file := sn_cursor_file s; sn_status := sn_status s |}.

(** [..ValidatorRegistrationStatus::default()] with the reputation of a newcomer. *)
Definition new_registration : Registration :=
  {| rg_alias := ""; rg_identity := {| evm_address := ""; node_id := ""; ed25519_pubkey := "" |};
     rg_registered_with_node := false; rg_applied_on_chain := false; rg_governance_approved := false;
     rg_admitted_to_consensus := false; rg_active := false; rg_staking_state := ""; rg_status := "";
     rg_stake := 0; rg_reputation := 100 |}.

Definition with_status_text (r : Registration) : Registration :=
  {| rg_alias := rg_alias r; rg_identity := rg_identity r;
     rg_registered_with_node := rg_registered_with_node r; rg_applied_on_chain := rg_applied_on_chain r;
     rg_governance_approved := rg_governance_approved r;
     rg_admitted_to_consensus := rg_admitted_to_consensus r; rg_active := rg_active r;
     rg_staking_state := rg_staking_state r; rg_status := validator_registration_status_text r;
     rg_stake := rg_stake r; rg_reputation := rg_reputation r |}.

(** The registration with the identity of a new proof. *)
Definition identified (r : Registration) (alias : string) (identity : ValidatorIdentity) : Registration :=
  with_status_text
    {| rg_alias := alias; rg_identity := identity; rg_registered_with_node := true;
       rg_applied_on_chain := rg_applied_on_chain r; rg_governance_approved := rg_governance_approved r;
       rg_admitted_to_consensus := rg_admitted_to_consensus r; rg_active := rg_active r;
       rg_staking_state := rg_staking_state r; rg_status := rg_status r; rg_stake := rg_stake r;
       rg_reputation := rg_reputation r |}.

(** Another wallet holds the node identifier or the key. *)
Definition taken (m : gmap string Registration) (key : string) (i : ValidatorIdentity) : bool :=
  existsb (λ kr : string * Registration,
    negb (String.eqb kr.1 key) &&
    (String.eqb (node_id (rg_identity kr.2)) (node_id i)
     || String.eqb (ed25519_pubkey (rg_identity kr.2)) (ed25519_pubkey i))) (map_to_list m).

Definition alias_of (p : RegistrationProof) (i : ValidatorIdentity) : string :=
  trim (default (node_id i) (rp_alias p)).

Section Node.
Context `{!Crypto, !Ethereum, !K256}.

Definition apply_validator_registration (n : RegNode) (p : RegistrationProof)
    : result RegError (RegNode * Registration) :=
  i ← check_proof (node_chain_id n) p;
  let key := normalized_validator_key (evm_address i) in
  let m := registrations n in
  _ ← ensure (negb (taken m key i)) RegConflict;
  let r := identified (default new_registration (m !! key)) (alias_of p i) (normalized i) in
  Ok (with_node n (reconcile_after_identity_registration (with_registrations (rn_node n) (<[key := r]> m))), r).

(** ** The journal *)

Definition load_all (journal : option (list RegistrationProof)) : list RegistrationProof := default [] journal.

Definition journal_key (p : RegistrationProof) : string := to_ascii_lowercase (trim (rp_evm_address p)).

Definition persist (journal : option (list RegistrationProof)) (p : RegistrationProof) : list RegistrationProof :=
  filter (λ q, journal_key q ≠ journal_key p) (load_all journal) ++ [p].

(** The journal after [persist] with a disk that works or does not. *)
Definition persisted (n : RegNode) (disk_ok : bool) (p : RegistrationProof) : RegNode :=
  if disk_ok then with_journal n (Some (persist (rn_journal n) p)) else n.

(** [register_validator_identity]: the state, the message gossiped and the answer. *)
Definition register_validator_identity (n : RegNode) (disk_ok : bool) (p : RegistrationProof)
    : RegNode * list GossipMessage * result RegError Registration :=
  match apply_validator_registration n p with
  | Ok (n', r) => (persisted n' disk_ok p, [into_gossip p], Ok r)
  | Err e => (n, [], Err e)
  end.

(** A registration received by gossip. *)
Definition on_registration (n : RegNode) (disk_ok : bool) (p : RegistrationProof) : RegNode :=
  match apply_validator_registration n p with
  | Ok (n', _) => persisted n' disk_ok p
  | Err _ => n
  end.

(** [delete_validator_registration]: [None] is an invalid address or no registration. *)
Definition delete_validator_registration (n : RegNode) (raw : string) : option RegNode :=
  match validate_evm_address raw with
  | Err _ => None
  | Ok address =>
      let key := normalized_validator_key address in
      removed ← registrations n !! key;
      let identity := normalized (rg_identity removed) in
      let s := with_registrations (rn_node n) (delete key (registrations n)) in
      Some (with_node n (with_set s {| validators :=
        filter (λ v, val_id v ≠ node_id identity ∧ val_pubkey v ≠ ed25519_pubkey identity ∧
                     eq_ignore_ascii_case (val_eth_address v) (evm_address identity) = false)
          (validators (sn_set s)) |}))
  end.

(** The state of [main] before the worker starts: the bootstrap set, no registration and the
    synchronisation not enabled yet. *)
Definition booted (s : SyncNode) : SyncNode :=
  {| sn_node_id := sn_node_id s; sn_set := sn_bootstrap s; sn_bootstrap := sn_bootstrap s;
     sn_registrations := ∅; sn_tip_height := sn_tip_height s; sn_history := sn_history s;
     sn_cursor_file := sn_cursor_file s;
     sn_status := {| ss_enabled := false; ss_state := "disabled"; ss_last_finalized := None;
                     ss_cursor := None; ss_cursor_hash := None; ss_last_error := false |} |}.

(** A restart: the journal is applied in its order. *)
Definition restore (n : RegNode) (ps : list RegistrationProof) : RegNode :=
  foldl (λ n p, match apply_validator_registration n p with Ok (n', _) => n' | Err _ => n end) n ps.

Definition reg_restart (n : RegNode) : RegNode :=
  restore (with_node n (booted (rn_node n))) (load_all (rn_journal n)).

(** ** The stakes of the wallets on L1 *)

Definition staking_state_label (state : N) : string :=
  if (state =? 0)%N then "none" else if (state =? 1)%N then "pending" else if (state =? 2)%N then "active"
  else if (state =? 3)%N then "unbonding" else if (state =? 4)%N then "withdrawn"
  else if (state =? 5)%N then "rejected" else if (state =? 6)%N then "expired" else "unknown".

Definition wei_to_creg_u64 (value : N) : N :=
  let whole_creg := (value / 10 ^ 18)%N in
  if (whole_creg <=? u64_max)%N then whole_creg else u64_max.

(** The answers for the registrations of a snapshot: stake in wei and state of the entry,
    [None] when the call or the address fails. *)
Definition staking_updates (view : N → option (N * N)) (m : gmap string Registration)
    : gmap string (option (N * N)) :=
  (λ r, a ← addr_parse (evm_address (normalized (rg_identity r))); '(stake, st) ← view a;
        Some (wei_to_creg_u64 stake, st)) <$> m.

Definition update_registration (set : CommonValidatorSet) (update : option (N * N)) (r : Registration)
    : Registration :=
  with_status_text
    match update with
    | Some (stake, state) =>
        let identity := normalized (rg_identity r) in
        let should_admit :=
          (state =? 2)%N && is_complete identity &&
          existsb (λ v, eq_ignore_ascii_case (val_eth_address v) (evm_address identity)) (validators set) in
        {| rg_alias := rg_alias r; rg_identity := rg_identity r; rg_registered_with_node := true;
           rg_applied_on_chain := negb (state =? 0)%N;
           rg_governance_approved := (state =? 2)%N || (state =? 3)%N || (state =? 4)%N;
           rg_admitted_to_consensus := should_admit; rg_active := should_admit;
           rg_staking_state := staking_state_label state; rg_status := rg_status r;
           rg_stake := stake; rg_reputation := rg_reputation r |}
    | None =>
        {| rg_alias := rg_alias r; rg_identity := rg_identity r; rg_registered_with_node := true;
           rg_applied_on_chain := rg_applied_on_chain r; rg_governance_approved := rg_governance_approved r;
           rg_admitted_to_consensus := rg_admitted_to_consensus r; rg_active := rg_active r;
           rg_staking_state := rg_staking_state r; rg_status := rg_status r; rg_stake := rg_stake r;
           rg_reputation := rg_reputation r |}
    end.

Definition apply_updates (s : SyncNode) (updates : gmap string (option (N * N))) : SyncNode :=
  with_registrations s
    (map_imap (λ key r, Some match updates !! key with
                             | Some u => update_registration (sn_set s) u r
                             | None => r
                             end) (sn_registrations s)).

(** [sync_validator_registrations_once] over the snapshot [m] taken at its start. *)
Definition sync_validator_registrations_once (staking_addr : string) (view : N → option (N * N))
    (m : gmap string Registration) (n : RegNode) : RegNode :=
  if bool_decide (m = ∅) || is_empty (trim staking_addr)
     || eq_ignore_ascii_case staking_addr "0x0000000000000000000000000000000000000000" then n
  else match addr_parse staking_addr with
       | None => n
       | Some _ => with_node n (apply_updates (rn_node n) (staking_updates view m))
       end.

(** ** Histories *)

Inductive RegEvent :=
| RPost (disk_ok : bool) (p : RegistrationProof)
| RGossip (disk_ok : bool) (p : RegistrationProof)
| RDelete (raw : string)
| RSync (staking_addr : string) (view : N → option (N * N)) (m : gmap string Registration)
| RReconcile (w : WorkerState)
| RRestart.

Definition reg_step (n : RegNode) (ev : RegEvent) : RegNode :=
  match ev with
  | RPost ok p => (register_validator_identity n ok p).1.1
  | RGossip ok p => on_registration n ok p
  | RDelete raw => default n (delete_validator_registration n raw)
  | RSync a view m => sync_validator_registrations_once a view m n
  | RReconcile w => with_node n (reconcile_state_from_worker (rn_node n) w)
  | RRestart => reg_restart n
  end.

Definition reg_run (n : RegNode) (evs : list RegEvent) : RegNode := foldl reg_step n evs.

End Node.

(** ** What a registration changes *)

(** Hexadecimal text has no white space around it. *)
Class HexText `{Crypto} : Prop := { hex_trim : ∀ s b, hex_decode s = Some b → trim s = s }.

(** The alias and identity of each wallet. *)
Definition bindings (m : gmap string Registration) : gmap string (string * ValidatorIdentity) :=
  (λ r, (rg_alias r, rg_identity r)) <$> m.

Lemma bindings_mark (active : gset string) (m : gmap string Registration) :
  bindings (mark_registration active <$> m) = bindings m.
Proof. unfold bindings. rewrite <- map_fmap_compose. apply map_fmap_ext. intros k r _. done. Qed.

Lemma bindings_reconcile (s : SyncNode) (w : WorkerState) :
  bindings (sn_registrations (reconcile_state_from_worker s w)) = bindings (sn_registrations s).
Proof. apply bindings_mark. Qed.

Lemma bindings_after (s : SyncNode) :
  bindings (sn_registrations (reconcile_after_identity_registration s)) = bindings (sn_registrations s).
Proof.
  unfold reconcile_after_identity_registration.
  destruct (ss_enabled _); [|done]. destruct (sn_cursor_file s); [apply bindings_reconcile|done].
Qed.

Lemma bindings_updates (s : SyncNode) (u : gmap string (option (N * N))) :
  bindings (sn_registrations (apply_updates s u)) = bindings (sn_registrations s).
Proof.
  apply map_eq. intros k. unfold bindings, apply_updates, with_registrations. cbn [sn_registrations].
  rewrite !lookup_fmap, map_lookup_imap. destruct (sn_registrations s !! k) as [r|]; [|done].
  cbn. f_equal. destruct (u !! k) as [[[stake state]|]|]; done.
Qed.

Section Registering.
Context `{CR : !Crypto, ET : !Ethereum, KR : !K256}.

(** What the signatures of an accepted proof establish. *)
Definition authentic (chain_id : string) (p : RegistrationProof) (i : ValidatorIdentity) : Prop :=
  ∃ nonce, let message := validator_identity_registration_message chain_id (evm_address i) (node_id i)
                            (ed25519_pubkey i) nonce in
    recover_evm_personal_signer message (rp_evm_signature p) = Ok (evm_address i) ∧
    verify_ed25519_identity_signature message (ed25519_pubkey i) (rp_ed25519_signature p) = Ok tt.

Lemma check_proof_authentic (chain_id : string) (p : RegistrationProof) (i : ValidatorIdentity) :
  check_proof chain_id p = Ok i → authentic chain_id p i.
Proof.
  unfold check_proof. intros H. res_inv. simplify_eq.
  match goal with H : verify_validator_identity_proofs _ _ _ _ ?n _ _ = Ok _ |- _ =>
    exists n; unfold verify_validator_identity_proofs in H; res_inv end.
  cbn [evm_address node_id ed25519_pubkey].
  match goal with H : String.eqb _ _ = true |- _ => apply String.eqb_eq in H; subst end.
  match goal with H : verify_ed25519_identity_signature _ _ _ = Ok ?u |- _ => destruct u end.
  by split.
Qed.

(** The validated fields are normal already. *)
Lemma check_proof_normal `{HT : !HexText} (chain_id : string) (p : RegistrationProof) (i : ValidatorIdentity) :
  check_proof chain_id p = Ok i →
  node_id (normalized i) = node_id i ∧ ed25519_pubkey (normalized i) = ed25519_pubkey i.
Proof.
  unfold check_proof. intros H. res_inv. simplify_eq. cbn [normalized node_id ed25519_pubkey].
  match goal with H : validate_node_id _ = Ok _ |- _ => unfold validate_node_id in H end.
  match goal with H : validate_ed25519_pubkey _ = Ok _ |- _ => unfold validate_ed25519_pubkey in H end.
  destruct (is_empty (trim (rp_node_id p))); [done|].
  destruct (hex_decode _) as [b|] eqn:Hh; [|done]. destruct (String.length b =? 32); [|done].
  simplify_eq. rewrite trim_idemp, (hex_trim _ _ Hh), to_ascii_lowercase_idemp. done.
Qed.

Definition wallet (i : ValidatorIdentity) : string := normalized_validator_key (evm_address i).

Lemma taken_false (m : gmap string Registration) (key : string) (i : ValidatorIdentity) :
  taken m key i = false ↔
  ∀ k b, bindings m !! k = Some b → k ≠ key → node_id b.2 ≠ node_id i ∧ ed25519_pubkey b.2 ≠ ed25519_pubkey i.
Proof.
  unfold taken, bindings. rewrite <- not_true_iff_false, existsb_exists. split.
  - intros Hn k b Hb Hk. rewrite lookup_fmap in Hb.
    destruct (m !! k) as [r|] eqn:Hr; [|done]. injection Hb as <-. cbn [snd].
    split; intros Heq; apply Hn; exists (k, r); (split; [by apply list_elem_of_In, elem_of_map_to_list|]);
      cbn; rewrite (proj2 (String.eqb_neq _ _) Hk), Heq, String.eqb_refl; [done|by rewrite orb_true_r].
  - intros Hn ([k r] & Hin & Hc). cbn in Hc. apply list_elem_of_In, elem_of_map_to_list in Hin.
    apply andb_true_iff in Hc as [Hk Ho]. apply negb_true_iff, String.eqb_neq in Hk.
    destruct (Hn k (rg_alias r, rg_identity r)) as [H1 H2]; [by rewrite lookup_fmap, Hin|done|].
    apply orb_true_iff in Ho as [Ho|Ho]; apply String.eqb_eq in Ho; contradiction.
Qed.

(** A registration is accepted exactly when its fields and both signatures are in order and
    no other wallet holds its node identifier or key; it then binds the wallet to them and
    leaves every other wallet alone.  The nonce plays no part: nothing remembers it. *)
Theorem registration_exact (n : RegNode) (p : RegistrationProof) :
  match apply_validator_registration n p with
  | Ok (n', r) =>
      ∃ i, check_proof (node_chain_id n) p = Ok i ∧ taken (registrations n) (wallet i) i = false ∧
           bindings (registrations n') = <[wallet i := (alias_of p i, normalized i)]> (bindings (registrations n)) ∧
           rg_identity r = normalized i ∧ rn_journal n' = rn_journal n ∧ node_chain_id n' = node_chain_id n
  | Err e =>
      check_proof (node_chain_id n) p = Err e ∨
      ∃ i, check_proof (node_chain_id n) p = Ok i ∧ taken (registrations n) (wallet i) i = true ∧ e = RegConflict
  end.
Proof.
  unfold apply_validator_registration. destruct (check_proof _ p) as [i|e] eqn:Hc; [|by left].
  cbn [mbind result_bind]. fold (wallet i). destruct (taken _ _ i) eqn:Ht; cbn [negb ensure mbind result_bind].
  - right. by exists i.
  - exists i. split_and!; try done. unfold registrations, with_node. cbn [rn_node].
    rewrite bindings_after. unfold with_registrations. cbn [sn_registrations]. unfold bindings.
    by rewrite fmap_insert.
Qed.

(** ** Histories *)

Definition proofs_of (ev : RegEvent) : list RegistrationProof :=
  match ev with RPost _ p | RGossip _ p => [p] | _ => [] end.

Definition submitted (evs : list RegEvent) : list RegistrationProof := concat (proofs_of <$> evs).

(** The bindings are authentic and no two wallets share a node identifier or a key. *)
Record sound (chain_id : string) (seen : list RegistrationProof) (n : RegNode) : Prop := {
  sound_chain : node_chain_id n = chain_id;
  sound_unique : ∀ k1 k2 b1 b2,
    bindings (registrations n) !! k1 = Some b1 → bindings (registrations n) !! k2 = Some b2 → k1 ≠ k2 →
    node_id b1.2 ≠ node_id b2.2 ∧ ed25519_pubkey b1.2 ≠ ed25519_pubkey b2.2;
  sound_auth : ∀ k b, bindings (registrations n) !! k = Some b →
    ∃ p i, p ∈ seen ∧ k = wallet i ∧ b = (alias_of p i, normalized i) ∧ check_proof chain_id p = Ok i;
  sound_journal : ∀ p, p ∈ load_all (rn_journal n) → p ∈ seen;
}.

Lemma sound_mono (c : string) (seen seen' : list RegistrationProof) (n : RegNode) :
  seen ⊆ seen' → sound c seen n → sound c seen' n.
Proof.
  intros Hs [Hc Hu Ha Hj]. split; [done|done| |by auto].
  intros k b Hb. destruct (Ha k b Hb) as (p & i & Hp & H). exists p, i. split; [by apply Hs|done].
Qed.

(** Only the bindings, the chain and the journal matter. *)
Lemma sound_same (c : string) (seen : list RegistrationProof) (n n' : RegNode) :
  bindings (registrations n') = bindings (registrations n) → node_chain_id n' = node_chain_id n →
  (∀ p, p ∈ load_all (rn_journal n') → p ∈ seen) → sound c seen n → sound c seen n'.
Proof. intros Hb Hc Hj [Hc' Hu Ha _]. split; rewrite ?Hb; congruence || done. Qed.

Lemma sound_subset (c : string) (seen : list RegistrationProof) (n n' : RegNode) :
  bindings (registrations n') ⊆ bindings (registrations n) → node_chain_id n' = node_chain_id n →
  rn_journal n' = rn_journal n → sound c seen n → sound c seen n'.
Proof.
  intros Hb Hc Hj [Hc' Hu Ha HJ]. split; [congruence| | |by rewrite Hj].
  - intros k1 k2 b1 b2 H1 H2. apply Hu; by eapply lookup_weaken.
  - intros k b H1. apply Ha. by eapply lookup_weaken.
Qed.

Lemma sound_apply `{HT : !HexText} (c : string) (seen : list RegistrationProof) (n n' : RegNode)
    (p : RegistrationProof) (r : Registration) :
  p ∈ seen → sound c seen n → apply_validator_registration n p = Ok (n', r) → sound c seen n'.
Proof.
  intros Hp [Hc Hu Ha Hj] Happ. pose proof (registration_exact n p) as He. rewrite Happ in He.
  destruct He as (i & Hi & Ht & Hb & _ & HJ & Hc'). rewrite Hc in Hi.
  destruct (check_proof_normal c p i Hi) as [Hn Hk]. rewrite taken_false in Ht.
  split; [congruence| | |by rewrite HJ]; rewrite Hb.
  - intros k1 k2 b1 b2 H1 H2 Hne.
    destruct (decide (k1 = wallet i)) as [->|H1w], (decide (k2 = wallet i)) as [->|H2w]; [done|..].
    + rewrite lookup_insert_eq in H1. rewrite lookup_insert_ne in H2 by done. injection H1 as <-.
      destruct (Ht k2 b2 H2 H2w). cbn [snd]. rewrite Hn, Hk. by split; apply not_eq_sym.
    + rewrite lookup_insert_eq in H2. rewrite lookup_insert_ne in H1 by done. injection H2 as <-.
      destruct (Ht k1 b1 H1 H1w). cbn [snd]. rewrite Hn, Hk. by split.
    + rewrite lookup_insert_ne in H1, H2 by done. by eapply Hu.
  - intros k b H1. destruct (decide (k = wallet i)) as [->|Hw].
    + rewrite lookup_insert_eq in H1. injection H1 as <-. by exists p, i.
    + rewrite lookup_insert_ne in H1 by done. by apply Ha.
Qed.

Lemma sound_persisted (c : string) (seen : list RegistrationProof) (n : RegNode) (ok : bool) (p : RegistrationProof) :
  p ∈ seen → sound c seen n → sound c seen (persisted n ok p).
Proof.
  intros Hp Hs. destruct ok; [|done]. apply (sound_same c seen n); try done.
  intros q Hq. cbn in Hq. unfold persist in Hq. apply elem_of_app in Hq as [Hq|Hq].
  - apply list_elem_of_filter in Hq as [_ Hq]. by eapply sound_journal.
  - by apply list_elem_of_singleton in Hq as ->.
Qed.

Lemma sound_restore `{HT : !HexText} (c : string) (seen : list RegistrationProof) (ps : list RegistrationProof) (n : RegNode) :
  (∀ p, p ∈ ps → p ∈ seen) → sound c seen n → sound c seen (restore n ps).
Proof.
  revert n. induction ps as [|p ps IH]; intros n Hps Hs; [done|]. cbn [restore foldl]. apply IH.
  - intros q Hq. apply Hps. by right.
  - destruct (apply_validator_registration n p) as [[n' r]|e] eqn:Ha; [|done].
    eapply sound_apply; [|exact Hs|exact Ha]. apply Hps. by left.
Qed.

Lemma registrations_with (n : RegNode) (s : SyncNode) : registrations (with_node n s) = sn_registrations s.
Proof. done. Qed.

Lemma delete_spec (n n' : RegNode) (raw : string) :
  delete_validator_registration n raw = Some n' →
  ∃ key, registrations n' = delete key (registrations n) ∧ rn_journal n' = rn_journal n ∧
         node_chain_id n' = node_chain_id n.
Proof.
  unfold delete_validator_registration. destruct (validate_evm_address raw) as [a|]; [|done].
  destruct (registrations n !! _) as [r|]; [|done]. intros [= <-]. by exists (normalized_validator_key a).
Qed.

Lemma sound_step `{HT : !HexText} (c : string) (seen : list RegistrationProof) (n : RegNode) (ev : RegEvent) :
  (∀ p, p ∈ proofs_of ev → p ∈ seen) → sound c seen n → sound c seen (reg_step n ev).
Proof.
  intros Hp Hs. destruct ev as [ok p|ok p|raw|sa view m|w|]; cbn [reg_step].
  - unfold register_validator_identity. destruct (apply_validator_registration n p) as [[n' r]|e] eqn:Ha; [|done].
    assert (p ∈ seen) as Hin by (apply Hp; by left). apply sound_persisted; [done|]. by eapply sound_apply.
  - unfold on_registration. destruct (apply_validator_registration n p) as [[n' r]|e] eqn:Ha; [|done].
    assert (p ∈ seen) as Hin by (apply Hp; by left). apply sound_persisted; [done|]. by eapply sound_apply.
  - destruct (delete_validator_registration n raw) as [n'|] eqn:Hd; [|done].
    change (default n (Some n')) with n'.
    destruct (delete_spec n n' raw Hd) as (key & Hr & Hj & Hc). apply (sound_subset c seen n); [|done|done|done].
    rewrite Hr. unfold bindings. rewrite fmap_delete. apply delete_subseteq.
  - unfold sync_validator_registrations_once. destruct (_ || _); [done|]. destruct (addr_parse sa); [|done].
    apply (sound_same c seen n); try done; [|by apply Hs]. rewrite registrations_with. apply bindings_updates.
  - apply (sound_same c seen n); try done; [|by apply Hs]. rewrite registrations_with. apply bindings_reconcile.
  - unfold reg_restart. apply sound_restore; [by apply Hs|]. apply (sound_subset c seen n); try done.
    rewrite registrations_with. unfold bindings. cbn [booted sn_registrations]. rewrite fmap_empty. apply map_empty_subseteq.
Qed.

(** A node that has never run. *)
Definition reg_fresh (s : SyncNode) (chain_id : string) (testnet : bool) : RegNode :=
  {| rn_node := booted s; rn_chain_id := chain_id; rn_is_testnet := testnet; rn_journal := None |}.

Lemma sound_run `{HT : !HexText} (s : SyncNode) (chain_id : string) (testnet : bool) (evs : list RegEvent) :
  sound (node_chain_id (reg_fresh s chain_id testnet)) (submitted evs) (reg_run (reg_fresh s chain_id testnet) evs).
Proof.
  induction evs as [|ev evs IH] using rev_ind.
  - split; [done|..]; cbn; unfold registrations, bindings; cbn; try (intros; by rewrite fmap_empty in *).
    intros p Hp. by apply elem_of_nil in Hp.
  - unfold reg_run in *. rewrite foldl_app. cbn [foldl]. unfold submitted in *.
    rewrite fmap_app, concat_app. cbn [fmap list_fmap concat]. rewrite app_nil_r. apply sound_step.
    + intros p Hp. apply elem_of_app. by right.
    + eapply sound_mono; [|exact IH]. intros p Hp. apply elem_of_app. by left.
Qed.

(** C12. Whatever registrations are posted, gossiped, deleted, refreshed from L1, reconciled and
    restored at restarts: every wallet in the map signed the node identifier and the key that
    it is bound to, the key signed them too, and no two wallets share a node identifier or a
    key. *)
Theorem registrations_sound `{HT : !HexText} (s : SyncNode) (chain_id : string) (testnet : bool)
    (evs : list RegEvent) :
  let n := reg_run (reg_fresh s chain_id testnet) evs in
  (∀ k r, registrations n !! k = Some r →
     ∃ p i, p ∈ submitted evs ∧ k = wallet i ∧ rg_identity r = normalized i ∧ authentic (node_chain_id n) p i) ∧
  (∀ k1 k2 r1 r2, registrations n !! k1 = Some r1 → registrations n !! k2 = Some r2 → k1 ≠ k2 →
     node_id (rg_identity r1) ≠ node_id (rg_identity r2) ∧
     ed25519_pubkey (rg_identity r1) ≠ ed25519_pubkey (rg_identity r2)).
Proof.
  intros n. destruct (sound_run s chain_id testnet evs) as [Hc Hu Ha _]. fold n in Hc, Hu, Ha.
  assert (∀ k r, registrations n !! k = Some r →
            bindings (registrations n) !! k = Some (rg_alias r, rg_identity r)) as Hb.
  { intros k r Hr. unfold bindings. by rewrite lookup_fmap, Hr. }
  split.
  - intros k r Hr. destruct (Ha k _ (Hb k r Hr)) as (p & i & Hp & Hk & Heq & Hi).
    exists p, i. split_and!; [done|done|by injection Heq|]. rewrite Hc. by apply check_proof_authentic.
  - intros k1 k2 r1 r2 H1 H2 Hne. exact (Hu k1 k2 _ _ (Hb _ _ H1) (Hb _ _ H2) Hne).
Qed.

(** ** Restarts *)

(** The binding that an entry of the journal stands for. *)
Definition entry (c : string) (p : RegistrationProof) : option (string * (string * ValidatorIdentity)) :=
  match check_proof c p with
  | Ok i => Some (wallet i, (alias_of p i, normalized i))
  | Err _ => None
  end.

Definition journal_map (c : string) (ps : list RegistrationProof) : gmap string (string * ValidatorIdentity) :=
  list_to_map (omap (entry c) ps).

(** The address of the proof is written as it is stored. *)
Definition spelled (c : string) (p : RegistrationProof) : Prop :=
  ∀ i, check_proof c p = Ok i → journal_key p = wallet i.

Definition valid_entry (c : string) (p : RegistrationProof) : Prop :=
  ∃ i, check_proof c p = Ok i ∧ journal_key p = wallet i.

Lemma entry_valid (c : string) (p : RegistrationProof) (kb : string * (string * ValidatorIdentity)) :
  valid_entry c p → entry c p = Some kb → kb.1 = journal_key p.
Proof. intros (i & Hi & Hk). unfold entry. rewrite Hi, Hk. by intros [= <-]. Qed.

Lemma journal_keys (c : string) (ps : list RegistrationProof) :
  Forall (valid_entry c) ps → (omap (entry c) ps).*1 = journal_key <$> ps.
Proof.
  induction 1 as [|p ps (i & Hi & Hk) _ IH]; [done|]. cbn [omap list_omap]. unfold entry at 1.
  rewrite Hi. cbn. by rewrite IH, Hk.
Qed.

Lemma journal_map_cons (c : string) (p : RegistrationProof) (ps : list RegistrationProof) (i : ValidatorIdentity) :
  check_proof c p = Ok i → journal_map c (p :: ps) = <[wallet i := (alias_of p i, normalized i)]> (journal_map c ps).
Proof. intros Hi. unfold journal_map. cbn [omap list_omap]. unfold entry at 1. by rewrite Hi. Qed.

Lemma journal_map_filter (c : string) (ps : list RegistrationProof) (p : RegistrationProof) :
  Forall (valid_entry c) ps →
  journal_map c (filter (λ q, journal_key q ≠ journal_key p) ps) = delete (journal_key p) (journal_map c ps).
Proof.
  induction 1 as [|q ps (i & Hi & Hk) _ IH]; [unfold journal_map; cbn; by rewrite delete_empty|]. rewrite filter_cons.
  rewrite (journal_map_cons c q ps i Hi). destruct (decide (journal_key q ≠ journal_key p)) as [Hne|He].
  - rewrite (journal_map_cons c q _ i Hi), IH, delete_insert_ne; [done|]. congruence.
  - destruct (decide (journal_key q = journal_key p)) as [Heq|]; [|done].
    by rewrite IH, <- Hk, Heq, delete_insert_eq.
Qed.

Lemma journal_map_snoc (c : string) (ps : list RegistrationProof) (p : RegistrationProof) (i : ValidatorIdentity) :
  Forall (valid_entry c) ps → journal_key p ∉ journal_key <$> ps → check_proof c p = Ok i → journal_key p = wallet i →
  journal_map c (ps ++ [p]) = <[wallet i := (alias_of p i, normalized i)]> (journal_map c ps).
Proof.
  intros Hv Hni Hi Hk. unfold journal_map. rewrite omap_app. cbn [omap list_omap]. unfold entry at 2. rewrite Hi.
  apply list_to_map_snoc. by rewrite journal_keys, <- Hk.
Qed.

Definition unique_bindings (m : gmap string (string * ValidatorIdentity)) : Prop :=
  ∀ k1 k2 b1 b2, m !! k1 = Some b1 → m !! k2 = Some b2 → k1 ≠ k2 →
    node_id b1.2 ≠ node_id b2.2 ∧ ed25519_pubkey b1.2 ≠ ed25519_pubkey b2.2.

Lemma restore_snoc (n : RegNode) (ps : list RegistrationProof) (p : RegistrationProof) :
  restore n (ps ++ [p]) =
  match apply_validator_registration (restore n ps) p with Ok (n', _) => n' | Err _ => restore n ps end.
Proof. unfold restore. by rewrite foldl_app. Qed.

Lemma restore_journal `{HT : !HexText} (n : RegNode) (ps : list RegistrationProof) :
  bindings (registrations n) = ∅ → Forall (valid_entry (node_chain_id n)) ps → NoDup (journal_key <$> ps) →
  unique_bindings (journal_map (node_chain_id n) ps) →
  bindings (registrations (restore n ps)) = journal_map (node_chain_id n) ps ∧
  node_chain_id (restore n ps) = node_chain_id n ∧ rn_journal (restore n ps) = rn_journal n.
Proof.
  intros He. set (c := node_chain_id n). induction ps as [|p ps IH] using rev_ind; intros Hv Hnd Hu; [done|].
  apply Forall_app in Hv as [Hv Hp]. apply Forall_cons in Hp as [(i & Hi & Hk) _].
  rewrite fmap_app in Hnd. apply NoDup_app in Hnd as (Hnd & Hd & _).
  assert (journal_key p ∉ journal_key <$> ps) as Hni.
  { intros Hin. apply (Hd _ Hin). by left. }
  rewrite (journal_map_snoc c ps p i Hv Hni Hi Hk) in *.
  assert (journal_map c ps !! wallet i = None) as Hnone.
  { apply not_elem_of_list_to_map_1. by rewrite journal_keys, <- Hk. }
  destruct IH as (Hb & Hc & Hj); [done|done| |].
  { intros k1 k2 b1 b2 H1 H2. apply Hu; rewrite lookup_insert_ne; try done; congruence. }
  rewrite restore_snoc. pose proof (registration_exact (restore n ps) p) as Hr.
  destruct (apply_validator_registration _ p) as [[n' r]|e].
  - destruct Hr as (i' & Hi' & _ & Hb' & _ & Hj' & Hc'). rewrite Hc in Hi'. rewrite Hi in Hi'. injection Hi' as <-.
    rewrite Hb', Hb. split_and!; [done|by rewrite Hc'|by rewrite Hj'].
  - rewrite Hc, Hi in Hr. destruct Hr as [Hr|(i' & Hi' & Ht & _)]; [done|]. exfalso. injection Hi' as <-.
    assert (taken (registrations (restore n ps)) (wallet i) i = false) as Hf; [|congruence].
    apply taken_false. rewrite Hb. intros k b H1 Hne.
    destruct (check_proof_normal c p i Hi) as [Hn' Hk']. rewrite <- Hn', <- Hk'.
    apply (Hu k (wallet i) b (alias_of p i, normalized i)); [by rewrite lookup_insert_ne|apply lookup_insert_eq|done].
Qed.

(** The journal holds exactly the bindings of the map. *)
Record mirrored (n : RegNode) : Prop := {
  mir_valid : Forall (valid_entry (node_chain_id n)) (load_all (rn_journal n));
  mir_nodup : NoDup (journal_key <$> load_all (rn_journal n));
  mir_map : bindings (registrations n) = journal_map (node_chain_id n) (load_all (rn_journal n));
}.

Lemma mirrored_apply (n n' : RegNode) (p : RegistrationProof) (r : Registration) :
  spelled (node_chain_id n) p → mirrored n → apply_validator_registration n p = Ok (n', r) →
  mirrored (persisted n' true p).
Proof.
  intros Hs [Hv Hnd Hm] Ha. pose proof (registration_exact n p) as He. rewrite Ha in He.
  destruct He as (i & Hi & _ & Hb & _ & Hj & Hc). pose proof (Hs i Hi) as Hk.
  assert (Forall (valid_entry (node_chain_id n)) (filter (λ q, journal_key q ≠ journal_key p) (load_all (rn_journal n)))) as Hvf.
  { apply Forall_forall. intros q Hq. apply list_elem_of_filter in Hq as [_ Hq].
    rewrite Forall_forall in Hv. by apply Hv. }
  assert (journal_key p ∉ journal_key <$> filter (λ q, journal_key q ≠ journal_key p) (load_all (rn_journal n))) as Hni.
  { intros Hin. apply list_elem_of_fmap in Hin as (q & Hq & Hin). apply list_elem_of_filter in Hin as [Hne _]. by apply Hne. }
  assert (node_chain_id (persisted n' true p) = node_chain_id n) as Hcp by exact Hc.
  assert (load_all (rn_journal (persisted n' true p)) =
          filter (λ q, journal_key q ≠ journal_key p) (load_all (rn_journal n)) ++ [p]) as Hjp.
  { cbn. unfold persist. by rewrite Hj. }
  split; rewrite Hjp, ?Hcp.
  - apply Forall_app. split; [done|]. apply Forall_singleton. by exists i.
  - rewrite fmap_app. apply NoDup_app. split_and!.
    + eapply sublist_NoDup; [exact Hnd|]. apply fmap_sublist, sublist_filter.
    + intros k Hin Hk'. apply list_elem_of_singleton in Hk' as ->. contradiction.
    + apply NoDup_singleton.
  - rewrite (journal_map_snoc _ _ p i Hvf Hni Hi Hk), journal_map_filter by done.
    change (registrations (persisted n' true p)) with (registrations n').
    by rewrite Hb, Hm, Hk, insert_delete_eq.
Qed.

(** Events that leave the journal complete. *)
Definition journalled (c : string) (ev : RegEvent) : Prop :=
  match ev with
  | RPost ok p | RGossip ok p => ok = true ∧ spelled c p
  | RDelete _ => False
  | _ => True
  end.

Lemma mirrored_same (n n' : RegNode) :
  bindings (registrations n') = bindings (registrations n) → node_chain_id n' = node_chain_id n →
  rn_journal n' = rn_journal n → mirrored n → mirrored n'.
Proof. intros Hb Hc Hj [Hv Hnd Hm]. split; rewrite ?Hj, ?Hc, ?Hb; done. Qed.

Lemma restart_mirrored `{HT : !HexText} (seen : list RegistrationProof) (n : RegNode) :
  sound (node_chain_id n) seen n → mirrored n →
  bindings (registrations (reg_restart n)) = bindings (registrations n) ∧
  node_chain_id (reg_restart n) = node_chain_id n ∧ rn_journal (reg_restart n) = rn_journal n.
Proof.
  intros Hs [Hv Hnd Hm]. unfold reg_restart.
  destruct (restore_journal (with_node n (booted (rn_node n))) (load_all (rn_journal n))) as (Hb & Hc & Hj); try done.
  - change (node_chain_id (with_node n (booted (rn_node n)))) with (node_chain_id n). rewrite <- Hm.
    intros k1 k2 b1 b2. apply (sound_unique _ _ _ Hs).
  - by rewrite Hb, Hm.
Qed.

Lemma mirrored_step `{HT : !HexText} (seen : list RegistrationProof) (n : RegNode) (ev : RegEvent) :
  journalled (node_chain_id n) ev → sound (node_chain_id n) seen n → mirrored n → mirrored (reg_step n ev).
Proof.
  intros Hj Hs Hm. destruct ev as [ok p|ok p|raw|sa view m|w|]; cbn [reg_step journalled] in *.
  - destruct Hj as [-> Hp]. unfold register_validator_identity.
    destruct (apply_validator_registration n p) as [[n' r]|e] eqn:Ha; [|done]. by eapply mirrored_apply.
  - destruct Hj as [-> Hp]. unfold on_registration.
    destruct (apply_validator_registration n p) as [[n' r]|e] eqn:Ha; [|done]. by eapply mirrored_apply.
  - done.
  - unfold sync_validator_registrations_once. destruct (_ || _); [done|]. destruct (addr_parse sa); [|done].
    apply (mirrored_same n); try done. rewrite registrations_with. apply bindings_updates.
  - apply (mirrored_same n); try done. rewrite registrations_with. apply bindings_reconcile.
  - destruct (restart_mirrored seen n Hs Hm) as (Hb & Hc & Hjr). by apply (mirrored_same n).
Qed.

Lemma deletes_keep (n : RegNode) (raws : list string) :
  rn_journal (reg_run n (RDelete <$> raws)) = rn_journal n ∧
  node_chain_id (reg_run n (RDelete <$> raws)) = node_chain_id n.
Proof.
  revert n. induction raws as [|raw raws IH]; intros n; [done|]. unfold reg_run in *. cbn [fmap list_fmap foldl reg_step].
  destruct (IH (default n (delete_validator_registration n raw))) as [-> ->].
  destruct (delete_validator_registration n raw) as [n'|] eqn:Hd; [|done].
  destruct (delete_spec n n' raw Hd) as (key & _ & Hj & Hc). by split.
Qed.

(** The journal restores every binding: after any history of registrations, and of
    refreshes and restarts in between, a restart gives each wallet the alias and identity it
    had.  Deleting registrations first changes nothing of it: the journal keeps them. *)
Theorem journal_restores `{HT : !HexText} (s : SyncNode) (chain_id : string) (testnet : bool)
    (evs : list RegEvent) (deleted : list string) :
  let n0 := reg_fresh s chain_id testnet in
  Forall (journalled (node_chain_id n0)) evs →
  let n := reg_run n0 evs in
  bindings (registrations (reg_restart (reg_run n (RDelete <$> deleted)))) = bindings (registrations n).
Proof.
  intros n0 Hevs n. pose proof (sound_run s chain_id testnet evs) as Hs. fold n0 in Hs. fold n in Hs.
  assert (node_chain_id n = node_chain_id n0) as Hc by apply (sound_chain _ _ _ Hs).
  assert (mirrored n) as Hm.
  { unfold n. clear Hs Hc n. induction evs as [|ev evs IH] using rev_ind.
    - split; [by apply Forall_nil|by apply NoDup_nil|]. cbn. unfold registrations, bindings. cbn. by rewrite fmap_empty.
    - apply Forall_app in Hevs as [Hevs Hev]. apply Forall_cons in Hev as [Hev _].
      pose proof (sound_run s chain_id testnet evs) as Hs. fold n0 in Hs. unfold reg_run. rewrite foldl_app.
      cbn [foldl]. pose proof (sound_chain _ _ _ Hs) as Hc.
      eapply mirrored_step; [unfold reg_run in Hc; by rewrite Hc|unfold reg_run in Hc; rewrite Hc; exact Hs|by apply IH]. }
  rewrite <- Hc in Hs. destruct (deletes_keep n deleted) as [Hj Hcd].
  set (d := reg_run n (RDelete <$> deleted)) in *. destruct Hm as [Hv Hnd Hmap].
  unfold reg_restart. destruct (restore_journal (with_node d (booted (rn_node d))) (load_all (rn_journal d))) as (Hb & _).
  - rewrite registrations_with. unfold bindings. cbn [booted sn_registrations]. apply fmap_empty.
  - change (node_chain_id (with_node d (booted (rn_node d)))) with (node_chain_id d). by rewrite Hj, Hcd.
  - by rewrite Hj.
  - change (node_chain_id (with_node d (booted (rn_node d)))) with (node_chain_id d). rewrite Hj, Hcd, <- Hmap.
    intros k1 k2 b1 b2. apply (sound_unique _ _ _ Hs).
  - rewrite Hb. change (node_chain_id (with_node d (booted (rn_node d)))) with (node_chain_id d).
    by rewrite Hj, Hcd.
Qed.

(** ** Replayed proofs and ambiguous messages *)

(** A proof that was accepted once can be sent again by anybody who saw it: after the wallet
    has replaced it by another one, the old one is accepted again and restores the old alias
    and identity, unless another wallet holds them by then. *)
Theorem old_registration_replayed (n n1 n2 : RegNode) (p q : RegistrationProof) (r1 r2 : Registration)
    (i j : ValidatorIdentity) :
  check_proof (node_chain_id n) p = Ok i → check_proof (node_chain_id n) q = Ok j → wallet j = wallet i →
  apply_validator_registration n p = Ok (n1, r1) → apply_validator_registration n1 q = Ok (n2, r2) →
  ∃ n3 r3, apply_validator_registration n2 p = Ok (n3, r3) ∧
           bindings (registrations n3) = bindings (registrations n1).
Proof.
  intros Hi Hj Hw H1 H2. pose proof (registration_exact n p) as E1. pose proof (registration_exact n1 q) as E2.
  rewrite H1 in E1. rewrite H2 in E2. destruct E1 as (i' & Hi' & Ht & Hb1 & _ & _ & Hc1).
  destruct E2 as (j' & Hj' & _ & Hb2 & _ & _ & Hc2). rewrite Hc1 in Hj'.
  assert (i' = i) as -> by congruence. assert (j' = j) as -> by congruence.
  pose proof (registration_exact n2 p) as E3. rewrite Hc2, Hc1 in E3.
  destruct (apply_validator_registration n2 p) as [[n3 r3]|e].
  - destruct E3 as (i' & Hi3 & _ & Hb3 & _). assert (i' = i) as -> by congruence. exists n3, r3.
    by rewrite Hb3, Hb2, Hb1, Hw, !insert_insert_eq.
  - exfalso. destruct E3 as [E3|(i' & Hi3 & Ht3 & _)]; [congruence|]. assert (i' = i) as -> by congruence.
    assert (taken (registrations n2) (wallet i) i = false) as Hf; [|congruence].
    apply taken_false. intros k b Hk Hne. rewrite Hb2, Hb1, Hw in Hk.
    rewrite !lookup_insert_ne in Hk by done. by apply (proj1 (taken_false _ _ _) Ht k).
Qed.

(** The message does not separate its fields: a line end in the node identifier or in the nonce
    moves the boundary, so one signature stands for two identities. *)
Lemma identity_message_ambiguous (chain address node key key' nonce nonce' : string) :
  validator_identity_registration_message chain address node key
    (nonce +:+ lf +:+ "ed25519_pubkey:" +:+ key' +:+ lf +:+ "nonce:" +:+ nonce') =
  validator_identity_registration_message chain address
    (node +:+ lf +:+ "ed25519_pubkey:" +:+ key +:+ lf +:+ "nonce:" +:+ nonce) key' nonce'.
Proof. unfold validator_identity_registration_message. by rewrite !app_assoc_str. Qed.

(** ** The stakes *)

(** A refresh whose snapshot holds a wallet sets its registration from the answer of L1: it is
    admitted exactly when the entry is active there, the identity is complete and the set
    has the address. *)
Lemma refresh_status (staking_addr : string) (view : N → option (N * N)) (m : gmap string Registration)
    (n : RegNode) (k : string) (r r' : Registration) (a sa stake st : N) :
  is_empty (trim staking_addr) = false →
  eq_ignore_ascii_case staking_addr "0x0000000000000000000000000000000000000000" = false →
  addr_parse staking_addr = Some sa → m !! k = Some r' →
  addr_parse (evm_address (normalized (rg_identity r'))) = Some a → view a = Some (stake, st) →
  registrations n !! k = Some r →
  ∃ r'', registrations (sync_validator_registrations_once staking_addr view m n) !! k = Some r'' ∧
    rg_stake r'' = wei_to_creg_u64 stake ∧ rg_staking_state r'' = staking_state_label st ∧
    rg_applied_on_chain r'' = negb (st =? 0)%N ∧
    (rg_admitted_to_consensus r'' = true ↔
     st = 2%N ∧ is_complete (normalized (rg_identity r)) = true ∧
     ∃ v, v ∈ validators (sn_set (rn_node n)) ∧
          eq_ignore_ascii_case (val_eth_address v) (evm_address (normalized (rg_identity r))) = true).
Proof.
  intros He Hz Hsa Hm Ha Hv Hr. unfold sync_validator_registrations_once.
  rewrite bool_decide_eq_false_2 by (intros ->; by rewrite lookup_empty in Hm). rewrite He, Hz, Hsa.
  cbn [orb]. rewrite registrations_with. unfold apply_updates, with_registrations. cbn [sn_registrations].
  rewrite map_lookup_imap. unfold registrations in Hr. rewrite Hr. cbn [mbind option_bind].
  unfold staking_updates. rewrite lookup_fmap, Hm. cbn [fmap option_fmap option_map]. rewrite Ha.
  cbn [mbind option_bind]. rewrite Hv. eexists. split; [done|]. cbn. split_and!; try done.
  rewrite !andb_true_iff, N.eqb_eq, existsb_exists. setoid_rewrite list_elem_of_In. tauto.
Qed.

End Registering.

(** ** Witnesses *)
Module RegistrationWitness.
Import Toy.

(** Decimal addresses of twenty bytes; a key hashes to its first bytes; a signature starts
    with the key that made it and the digest that it signs. *)
#[export] Instance toy_wallets : Ethereum := {|
  keccak256 s := if String.length s =? 64 then to_str (replicate 12 (byte 0) ++ take 20 (of_str s)) else digest s;
  addr_parse s := t ← strip_prefix "0x" s; parse_uint (2 ^ 160) t;
  addr_hex := fmt_N; u256_hex := fmt_N; u256_from_hex := parse_uint u64_max; EthKey := N;
  key_parse := λ _, None; eth_address := id; eth_sign := λ _ d, d; eth_recover := λ _ _, None;
  sol_recover := λ _ _, 0%N;
|}.

#[export] Instance toy_k256 : K256 := {|
  k256_recover d sig _ :=
    if String.eqb (to_str (drop 32 (of_str sig))) d
    then Some (String (byte 4) (to_str (take 32 (of_str sig)) +:+ to_str (replicate 32 (byte 0)))) else None;
|}.

Definition hex_char (c : ascii) : bool := match unnibble c with Some _ => true | None => false end.

Fixpoint all_hex (s : string) : bool := match s with EmptyString => true | String c s' => hex_char c && all_hex s' end.

Lemma decode_all_hex (n : nat) (s b : string) : String.length s <= n → decode s = Some b → all_hex s = true.
Proof.
  revert s b. induction n as [|n IH]; intros s b Hn H; [destruct s; cbn in Hn; [done|lia]|].
  destruct s as [|c [|d s]]; [done|done|]. cbn [decode] in H. cbn [all_hex]. unfold hex_char.
  destruct (unnibble c); [|done]. destruct (unnibble d); [|done]. cbn in H.
  destruct (decode s) as [t|] eqn:Ht; [|done]. cbn. apply (IH s t); [cbn in Hn; lia|done].
Qed.

Lemma all_hex_app (s t : string) : all_hex (s +:+ t) = all_hex s && all_hex t.
Proof. induction s as [|c s IH]; [done|]. rewrite app_cons_str. cbn [all_hex]. by rewrite IH, andb_assoc. Qed.

Lemma all_hex_rev (s : string) : all_hex (String.rev s) = all_hex s.
Proof.
  induction s as [|c s IH]; [done|]. rewrite rev_str_cons, all_hex_app, IH. cbn [all_hex].
  rewrite andb_true_r. apply andb_comm.
Qed.

Definition not_hex_head (p : string) : bool := match p with String c _ => negb (hex_char c) | EmptyString => false end.

Lemma strip_one_hex (ps : list string) (s : string) :
  forallb not_hex_head ps = true → all_hex s = true → strip_one ps s = None.
Proof.
  intros Hps Hs. induction ps as [|p ps IH]; [done|]. cbn [forallb] in Hps. apply andb_true_iff in Hps as [Hp Hps].
  cbn [strip_one]. destruct (strip_prefix p s) as [t|] eqn:Ht; [|by apply IH].
  apply strip_prefix_Some in Ht as ->. rewrite all_hex_app in Hs. apply andb_true_iff in Hs as [Hs _].
  destruct p as [|c p]; [done|]. cbn in Hp, Hs. destruct (hex_char c); done.
Qed.

#[export] Instance toy_hex_text : HexText.
Proof.
  split. intros s b Hs. pose proof (decode_all_hex _ s b (le_n _) Hs) as Ha.
  apply trim_stop; apply strip_one_hex; [done|done|done|by rewrite all_hex_rev].
Qed.

Definition key_of (owner : N) : string := to_str (replicate 19 (byte 0)) +:+ String (byte owner) (to_str (replicate 12 (byte 0))).

Definition message_of (address node : string) (key : string) (nonce : string) : string :=
  validator_identity_registration_message "creg-testnet-1" address node key nonce.

(** The proof of an owner for a node and a key. *)
Definition proof_of (owner : N) (node key nonce : string) : RegistrationProof :=
  let address := "0x" +:+ fmt_N owner in
  let m := message_of address node (hex_encode key) nonce in
  {| rp_evm_address := address; rp_node_id := node; rp_ed25519_pubkey := hex_encode key; rp_alias := None;
     rp_nonce := nonce;
     rp_evm_signature := hex_encode (key_of owner +:+ ethereum_personal_message_digest m +:+ String (byte 27) "");
     rp_ed25519_signature := hex_encode (sign key m) |}.

Definition p1 : RegistrationProof := proof_of 7 "node-a" (fit 32 "key-a") "1".
Definition p2 : RegistrationProof := proof_of 7 "node-b" (fit 32 "key-b") "2".

Definition s0 : SyncNode :=
  {| sn_node_id := "n1"; sn_set := {| validators := [] |}; sn_bootstrap := {| validators := [] |};
     sn_registrations := ∅; sn_tip_height := 0; sn_history := []; sn_cursor_file := None;
     sn_status := {| ss_enabled := true; ss_state := "synced"; ss_last_finalized := None; ss_cursor := None;
                     ss_cursor_hash := None; ss_last_error := false |} |}.

Definition n0 : RegNode := reg_fresh s0 "" true.

Definition evs0 : list RegEvent := [RPost true p1; RSync "0x9" (λ _, Some (10 ^ 18, 2)%N) ∅; RGossip true p2; RRestart].

Lemma spelled_as_stored (p : RegistrationProof) (i : ValidatorIdentity) :
  check_proof "creg-testnet-1" p = Ok i → journal_key p = wallet i → spelled "creg-testnet-1" p.
Proof. intros Hp Hk j Hj. congruence. Qed.

Definition identity_of (p : RegistrationProof) : ValidatorIdentity :=
  {| evm_address := rp_evm_address p; node_id := rp_node_id p; ed25519_pubkey := rp_ed25519_pubkey p |}.

(** The second proof holds after the restart, although it was deleted before. *)
Lemma journal_restores_witness :
  bindings (registrations (reg_restart (reg_run (reg_run n0 evs0) (RDelete <$> ["0x7"])))) =
  bindings (registrations (reg_run n0 evs0)).
Proof.
  apply (journal_restores s0 "" true evs0 ["0x7"]).
  repeat (apply Forall_cons_2; [try exact I|]); try apply Forall_nil; split; try reflexivity.
  - apply (spelled_as_stored _ (identity_of p1)); vm_compute; reflexivity.
  - apply (spelled_as_stored _ (identity_of p2)); vm_compute; reflexivity.
Defined.

Lemma registrations_sound_witness :
  ∃ r p i, registrations (reg_run n0 evs0) !! "0x7" = Some r ∧ p ∈ submitted evs0 ∧ "0x7" = wallet i ∧
           rg_identity r = normalized i ∧ authentic (node_chain_id (reg_run n0 evs0)) p i.
Proof.
  destruct (registrations (reg_run n0 evs0) !! "0x7") as [r|] eqn:Hr; [|vm_compute in Hr; discriminate Hr].
  destruct (proj1 (registrations_sound s0 "" true evs0) "0x7" r Hr) as (p & i & H).
  exists r, p, i. split; [reflexivity | exact H].
Defined.

Definition after (n : RegNode) (p : RegistrationProof) : RegNode * Registration :=
  match apply_validator_registration n p with Ok nr => nr | Err _ => (n, new_registration) end.

Definition n1 : RegNode := (after n0 p1).1.

Lemma old_registration_replayed_witness :
  ∃ n3 r3, apply_validator_registration (after n1 p2).1 p1 = Ok (n3, r3) ∧
           bindings (registrations n3) = bindings (registrations n1).
Proof.
  apply (old_registration_replayed n0 n1 (after n1 p2).1 p1 p2 (after n0 p1).2 (after n1 p2).2
           (identity_of p1) (identity_of p2)); vm_compute; reflexivity.
Defined.

Example deleted_then_restored :
  (registrations (reg_run n0 (evs0 ++ [RDelete "0x7"])) = ∅) ∧
  (node_id ∘ rg_identity <$> registrations (reg_run n0 (evs0 ++ [RDelete "0x7"; RRestart])) !! "0x7") = Some "node-b".
Proof. split; vm_compute; reflexivity. Qed.

End RegistrationWitness.
