(* ===== verification/ProofServer.v ===== *)
(** The proofs that a node serves to light clients (node/src/proof.rs), and their way through
    the client of LightClient.v: the composition of chain store, Merkle tree and client. *)

From S2P Require Import Prelude Text Crypto Types Merkle ValidatorSet Vrf Pbft ChainStore LightClient.

(** The errors of [build_proof]; the database has none in this model. *)
Inductive ProofServeError :=
| NotInBlock (canonical : string)
| NoProof (e : ProofError).

Section ProofServer.
Context `{!Crypto, !Serde}.

Definition publishes (c : string) (tx : Transaction) : bool :=
  match tx with Publish r => String.eqb (canonical (rec_id r)) c | _ => false end.

(** [transactions.iter().position(..)] *)
Definition publish_position (c : string) (txs : list Transaction) : option nat :=
  fst <$> list_find (λ tx, publishes c tx = true) txs.

(** The headers from height 1 to below the block, then its own. *)
Definition header_chain_to (s : ChainStore) (b : Block) : list (BlockHeader * string) :=
  omap (λ h, (λ b', (header b', block_hash b')) <$> get_block_by_height s h)
    (heights 1 (height (header b) - 1)) ++ [(header b, block_hash b)].

Definition build_proof (c : string) (s : ChainStore) (active_validators : list Validator)
    : result ProofServeError (option LightClientResponse) :=
  match get_package s c with
  | None => Ok None
  | Some record =>
      if negb (bool_decide (rec_status record = Verified)) then Ok None
      else match get_block_by_hash s (rec_block_hash record) with
           | None => Ok None
           | Some block =>
               tx_index ← ok_or (NotInBlock c) (publish_position c (transactions block));
               proof ← match build_merkle_proof block tx_index with
                       | Ok p => Ok p
                       | Err e => Err (NoProof e)
                       end;
               Ok (Some {| resp_status := "verified"; resp_block_hash := block_hash block;
                           resp_block_header := header block; resp_proof := proof;
                           resp_header_chain := header_chain_to s block;
                           resp_pbft_signatures := pbft_signatures block;
                           resp_active_validators := active_validators |})
           end
  end.

(** ** Where the records of the index come from *)

(** The block that a record names published the package. *)
Definition published_in (c : list Block) (k : string) (r : ChainRecord) : Prop :=
  ∃ b tx, b ∈ c ∧ rec_block_hash r = block_hash b ∧ tx ∈ transactions b ∧ publishes k tx = true.

Lemma published_in_app (c c' : list Block) (k : string) (r : ChainRecord) :
  published_in c k r → published_in (c ++ c') k r.
Proof. intros (b & tx & Hb & Hrest). exists b, tx. split; [|done]. apply elem_of_app. by left. Qed.

Lemma put_effect_published (c : list Block) (b : Block) (cur : option ChainRecord) (tx : Transaction) (k : string)
    (r : ChainRecord) :
  b ∈ c → tx ∈ transactions b → (∀ r, cur = Some r → published_in c k r) →
  put_effect cur (block_hash b) tx k = Some r → published_in c k r.
Proof.
  intros Hb Htx Hcur He.
  destruct tx as [q|pc reason ? ?|? ? ?|? ? ?|?|prefix old new ? ? ? ?]; cbn [put_effect] in He; try done.
  - destruct (String.eqb (canonical (rec_id q)) k) eqn:Hk; [|done]. injection He as <-.
    exists b, (Publish q). by split_and!.
  - destruct (String.eqb pc k); [|done]. destruct cur as [r0|]; [|done]. injection He as <-. by apply (Hcur r0).
  - destruct cur as [r0|]; [|done]. destruct (_ && _); [|done]. injection He as <-. by apply (Hcur r0).
Qed.

Lemma index_block_published (c : list Block) (b : Block) (m : gmap string ChainRecord) :
  b ∈ c → (∀ k r, m !! k = Some r → published_in c k r) →
  ∀ k r, index_block m b !! k = Some r → published_in c k r.
Proof.
  intros Hb Hm k r. rewrite index_block_lookup.
  assert (∀ txs cur, (∀ tx, tx ∈ txs → tx ∈ transactions b) → (∀ r, cur = Some r → published_in c k r) →
    foldl (λ cur tx, put_over cur (put_effect (m !! k) (block_hash b) tx k)) cur txs = Some r →
    published_in c k r) as Hgen; [|apply Hgen; [done|by apply Hm]].
  induction txs as [|tx txs IH]; intros cur Htx Hcur; [by apply Hcur|]. cbn [foldl]. apply IH.
  - intros t Ht. apply Htx. by right.
  - intros r' Hr'. destruct (put_effect _ _ _ _) as [r''|] eqn:He; cbn [put_over] in Hr'; [|by apply Hcur].
    injection Hr' as ->. eapply put_effect_published; [exact Hb|apply Htx; by left| |exact He].
    intros r0 Hr0. by apply (Hm k).
Qed.

Lemma store_published (c : list Block) (k : string) (r : ChainRecord) :
  packages (insert_all empty_store c) !! k = Some r → published_in c k r.
Proof.
  rewrite insert_all_packages. revert r. induction c as [|b c IH] using rev_ind; intros r; [done|].
  rewrite foldl_app. cbn [foldl]. apply index_block_published.
  - apply elem_of_app. right. by left.
  - intros k' r' Hr'. apply published_in_app.
    clear IH. revert k' r' Hr'. induction c as [|b' c IH] using rev_ind; intros k' r'; [done|].
    rewrite foldl_app. cbn [foldl]. apply index_block_published.
    + apply elem_of_app. right. by left.
    + intros k2 r2 H2. apply published_in_app. by apply IH.
Qed.

Lemma publish_position_Some (k : string) (txs : list Transaction) (tx : Transaction) :
  tx ∈ txs → publishes k tx = true →
  ∃ i t, publish_position k txs = Some i ∧ txs !! i = Some t ∧ publishes k t = true.
Proof.
  intros Hin Hp. destruct (list_find_elem_of (λ tx, publishes k tx = true) txs tx Hin Hp) as [[i t] Hf].
  exists i, t. unfold publish_position. rewrite Hf. apply list_find_Some in Hf as (Hi & Ht & _). done.
Qed.

(** ** The chain of headers *)

(** Every block names its predecessor. *)
Definition linked (c : list Block) : Prop :=
  ∀ i b b', c !! i = Some b → c !! S i = Some b' → prev_hash (header b') = block_hash b.

Definition header_entry (b : Block) : BlockHeader * string := (header b, block_hash b).

Lemma heights_from_one (n : nat) : heights 1 (N.of_nat n) = N.of_nat <$> seq 1 n.
Proof.
  unfold heights. replace (N.to_nat (N.of_nat n + 1 - 1)) with n by lia.
  rewrite <- (fmap_S_seq 0 n), <- list_fmap_compose. apply list_fmap_ext. intros i x _. cbn. lia.
Qed.

Lemma header_chain_store (c : list Block) (i : nat) (b : Block) :
  contiguous c → NoDup (block_hash <$> c) → c !! S i = Some b →
  header_chain_to (insert_all empty_store c) b = header_entry <$> take (S i) (drop 1 c).
Proof.
  intros Hc Hnd Hb. destruct (contiguous_store c Hc Hnd) as [Hs _]. unfold header_chain_to.
  rewrite (Hc _ _ Hb). replace (N.of_nat (S i) - 1)%N with (N.of_nat i) by lia. rewrite heights_from_one.
  assert (drop 1 c !! i = Some b) as Hd by (rewrite lookup_drop; exact Hb).
  rewrite (take_S_r _ _ _ Hd), fmap_app. f_equal. assert (i ≤ length (drop 1 c)) as Hlen by (apply lookup_lt_Some in Hd; lia).
  clear Hd Hb b. induction i as [|i IH]; [done|].
  rewrite seq_S, fmap_app, omap_app, IH by lia.
  destruct (lookup_lt_is_Some_2 (drop 1 c) i) as [b Hb]; [lia|]. rewrite (take_S_r _ _ _ Hb), fmap_app. f_equal.
  rewrite lookup_drop in Hb. destruct (Hs _ _ Hb) as [H1 H2]. cbn [fmap list_fmap omap list_omap].
  unfold get_block_by_height, get_block_by_hash. cbn [Nat.add] in *. rewrite H1. cbn [mbind option_bind].
  by rewrite H2.
Qed.

Lemma headers_linked_suffix (c : list Block) (i n : nat) (link : string) :
  contiguous c → linked c → (∀ b, c !! i = Some b → prev_hash (header b) = link) →
  headers_linked link (N.of_nat i) (header_entry <$> take n (drop i c)).
Proof.
  intros Hc Hl. revert i link. induction n as [|n IH]; intros i link Hlink; [done|].
  destruct (c !! i) as [b|] eqn:Hb.
  - rewrite (drop_S _ _ _ Hb). cbn [take fmap list_fmap headers_linked header_entry].
    split_and!; [done|by apply Hc|by apply Hlink|].
    replace (N.of_nat i + 1)%N with (N.of_nat (S i)) by lia. apply IH. intros b' Hb'. by apply (Hl i).
  - apply lookup_ge_None in Hb. by rewrite drop_ge.
Qed.

(** C11. The proof that a node serves convinces the light client: on a chain from genesis that is
    linked and whose headers carry the Merkle roots of their transactions, a verified package
    has a proof, it is about a transaction that publishes the package, and a client that
    trusts nothing but genesis accepts it, provided the block's certificate is good for the
    validators that the node sends along. *)
Theorem served_proof_accepted (small : bool) (c : list Block) (k : string) (r : ChainRecord)
    (vals : list Validator) :
  contiguous c → NoDup (block_hash <$> c) → linked c → head c = Some genesis →
  Forall (λ b, header_merkle_root (header b) = merkle_root (transactions b)) (drop 1 c) →
  packages (insert_all empty_store c) !! k = Some r → rec_status r = Verified →
  (∀ b, b ∈ c → block_hash b = rec_block_hash r →
     verify_pbft_consensus small (block_hash b) (header b) vals (pbft_signatures b) = Ok tt) →
  ∃ resp tx, build_proof k (insert_all empty_store c) vals = Ok (Some resp)
    ∧ publishes k tx = true ∧ proof_tx_hash (resp_proof resp) = leaf_hash tx
    ∧ verify_package small k resp genesis_checkpoint = Ok true.
Proof.
  intros Hc Hnd Hl Hg Hroots Hr Hv Hcert. destruct (store_published c k r Hr) as (b & tx0 & Hb & Hh & Htx0 & Hp0).
  pose proof Hb as [i Hi]%list_elem_of_lookup.
  destruct i as [|i]. { destruct c; [done|]. simplify_eq/=. by apply not_elem_of_nil in Htx0. }
  destruct (contiguous_store c Hc Hnd) as [Hs _]. destruct (Hs _ _ Hi) as [_ Hhash].
  destruct (publish_position_Some k _ tx0 Htx0 Hp0) as (j & tx & Hpos & Hj & Hp).
  assert (drop 1 c !! i = Some b) as Hd by (by rewrite lookup_drop).
  assert (header_merkle_root (header b) = merkle_root (transactions b)) as Hroot.
  { rewrite Forall_forall in Hroots. apply Hroots. by eapply list_elem_of_lookup_2. }
  destruct (build_merkle_proof_ok b j tx Hroot Hj) as (p & Hpf & Hleaf & Hexp & Hok).
  unfold build_proof, get_package. rewrite Hr, bool_decide_eq_true_2 by done. cbn [negb].
  unfold get_block_by_hash. rewrite Hh, Hhash, Hpos. cbn [ok_or mbind result_bind]. rewrite Hpf. cbn [mbind result_bind].
  eexists. exists tx. split; [done|]. split; [done|]. split; [done|].
  rewrite (header_chain_store c i b Hc Hnd Hi).
  unfold verify_package.
  cbn [resp_status resp_proof resp_block_header resp_block_hash resp_active_validators resp_pbft_signatures resp_header_chain].
  cbn [String.eqb Ascii.eqb Bool.eqb negb]. rewrite Hok, Hexp, String.eqb_refl. cbn [ensure mbind result_bind].
  rewrite (proj2 (verify_header_Ok _ _ _)) by done. rewrite Hcert by done. cbn [mbind result_bind].
  assert (filter (λ hh : BlockHeader * string, (cp_height genesis_checkpoint <? height hh.1)%N = true)
            (header_entry <$> take (S i) (drop 1 c)) = header_entry <$> take (S i) (drop 1 c)) as ->.
  { apply filter_all. intros hh (b' & -> & Hb')%list_elem_of_fmap.
    apply list_elem_of_lookup in Hb' as [n Hn]. apply lookup_take_Some in Hn as [Hn _]. rewrite lookup_drop in Hn.
    cbn. rewrite (Hc _ _ Hn). done. }
  rewrite (take_S_r _ _ _ Hd), fmap_app. change (header_entry <$> [b]) with [header_entry b]. rewrite last_snoc.
  cbn [header_entry fst snd].
  rewrite bool_decide_eq_false_2 by (by destruct (header_entry <$> take i (drop 1 c))).
  rewrite andb_false_r, String.eqb_refl, N.eqb_refl. cbn [negb andb ensure mbind result_bind].
  rewrite (proj2 (header_chain_exact _ _)); [done|].
  replace (cp_height genesis_checkpoint + 1)%N with (N.of_nat 1) by done.
  change [header_entry b] with (header_entry <$> [b]).
  rewrite <- fmap_app, <- (take_S_r _ _ _ Hd). apply headers_linked_suffix; [done|done|].
  intros b1 H1. destruct c as [|g c]; [done|]. injection Hg as ->. by apply (Hl 0 genesis b1).
Qed.

(** ** After a change of the validator set *)

(** The node sends its present validators, and the client compares them with the set that
    the block committed to: once the set has changed, every proof of an older package that
    the node serves is rejected. *)
Theorem old_proofs_rejected (small : bool) (s : ChainStore) (k : string) (vals : list Validator)
    (resp : LightClientResponse) (cp : Checkpoint) :
  build_proof k s vals = Ok (Some resp) →
  compute_validator_set_hash vals ≠ validator_set_hash (resp_block_header resp) →
  verify_package small k resp cp ≠ Ok true.
Proof.
  unfold build_proof. intros Hb Hne. destruct (get_package s k) as [r|]; [|done].
  destruct (negb _); [done|]. destruct (get_block_by_hash s _) as [blk|]; [|done]. res_inv. simplify_eq.
  unfold verify_package. cbn [resp_status resp_active_validators resp_block_header resp_block_hash] in *.
  cbn [String.eqb Ascii.eqb Bool.eqb negb]. intros Hv. res_inv.
  match goal with H : verify_pbft_consensus _ _ _ _ _ = Ok _ |- _ => unfold verify_pbft_consensus in H; res_inv end.
  match goal with H : String.eqb (compute_validator_set_hash _) _ = true |- _ => apply String.eqb_eq in H end.
  done.
Qed.

End ProofServer.

(** ** Witnesses *)
Module ProofServerWitness.
Import Toy ToySerde.

Definition validators4 : list Validator := validators LightClientExamples.vals4.

(** A block on [prev] that three of the four validators committed. *)
Definition block_on (h : N) (prev : Block) (txs : list Transaction) : Block :=
  let b := {| header := {| height := h; prev_hash := block_hash prev; header_merkle_root := merkle_root txs;
                proposer_id := "v1"; timestamp := 0;
                validator_set_hash := compute_validator_set_hash validators4;
                vrf_output := None; vrf_proof := None |};
              transactions := txs; pbft_signatures := [] |} in
  {| header := header b; transactions := txs;
     pbft_signatures := snd <$> (PbftExamples.vote "commit" b <$> PbftExamples.ids) |}.

Definition b1 : Block := block_on 1 genesis [ValidatorLeave "x"; Publish (ChainStoreExamples.record "a")].
Definition b2 : Block := block_on 2 b1 [Publish (ChainStoreExamples.record "b")].
Definition b3 : Block := block_on 3 b2 [Revoke "npm:b@1.0.0" "r" "v1" ""].
Definition c0 : list Block := [genesis; b1; b2; b3].
Definition s0 : ChainStore := insert_all empty_store c0.
Definition r0 : ChainRecord := default (ChainStoreExamples.record "") (packages s0 !! "npm:a@1.0.0").

Lemma c0_linked : linked c0.
Proof. intros [|[|[|[|i]]]] b b' [= <-] Hb'; [injection Hb' as <-; done..|done]. Qed.

Lemma c0_certified :
  Forall (λ b, block_hash b = rec_block_hash r0 →
    verify_pbft_consensus false (block_hash b) (header b) validators4 (pbft_signatures b) = Ok tt) c0.
Proof. apply (bool_decide_unpack _). vm_compute. exact I. Qed.

Lemma served_proof_accepted_witness :
  ∃ resp tx, build_proof "npm:a@1.0.0" s0 validators4 = Ok (Some resp)
    ∧ publishes "npm:a@1.0.0" tx = true ∧ proof_tx_hash (resp_proof resp) = leaf_hash tx
    ∧ verify_package false "npm:a@1.0.0" resp genesis_checkpoint = Ok true.
Proof.
  apply (served_proof_accepted false c0 "npm:a@1.0.0" r0 validators4).
  - intros [|[|[|[|i]]]] b Hb; try (injection Hb as <-; reflexivity). done.
  - by apply (bool_decide_unpack _); vm_compute.
  - exact c0_linked.
  - reflexivity.
  - repeat (apply Forall_cons_2; [reflexivity|]). apply Forall_nil. exact I.
  - vm_compute. reflexivity.
  - vm_compute. reflexivity.
  - rewrite <- Forall_forall. exact c0_certified.
Defined.

(** After a fifth validator has joined. *)
Definition validators5 : list Validator := forger "k5" :: validators4.

Definition served5 : option LightClientResponse :=
  match build_proof "npm:a@1.0.0" s0 validators5 with Ok r => r | Err _ => None end.

Lemma old_proofs_rejected_witness :
  match served5 with
  | Some resp => verify_package false "npm:a@1.0.0" resp genesis_checkpoint ≠ Ok true
  | None => False
  end.
Proof.
  destruct served5 as [resp|] eqn:Hs; [|vm_compute in Hs; discriminate].
  apply (old_proofs_rejected false s0 "npm:a@1.0.0" validators5 resp genesis_checkpoint).
  - unfold served5 in Hs. destruct (build_proof _ _ _) as [o|e]; [by rewrite Hs|discriminate].
  - vm_compute in Hs. injection Hs as <-. apply (bool_decide_unpack _). vm_compute. exact I.
Defined.

End ProofServerWitness.
