(* ===== verification/NodeApi.v ===== *)
(** Handlers of the REST server that act on the node or page through its chain
    (node/src/api.rs): the key of the private routes, publication, revocation, key rotation,
    votes, block announcements and the block list.

    A handler that sends a transaction to the block producer returns it; [open] is whether
    the channel is.  Statuses are the HTTP codes.  Times are in nanoseconds. *)

From S2P Require Import Prelude Text Crypto Types Merkle ValidatorSet Vrf Pbft VoteAccumulator EvidenceVotes ChainStore PublisherIndex Sync PendingPool NodeState Admission Threshold.
From Stdlib Require Import Ascii NArith.

(** ** The private routes *)

Definition configured_operator_secret (env : string → option string) : option string :=
  value ← match env "CREG_OPERATOR_API_KEY" with
          | Some v => Some v
          | None => env "CREG_OPERATOR_PUBKEY"
          end;
  if is_empty (trim value) then None else Some (trim value).

Definition constant_time_eq (left right : string) : bool :=
  let l := N_of_ascii <$> of_str left in
  let r := N_of_ascii <$> of_str right in
  if negb (length l =? length r) then false
  else (foldl (λ diff ab, N.lor diff (N.lxor ab.1 ab.2)) 0 (zip l r) =? 0)%N.

(** [headers] are the header values that are text. *)
Definition private_api_authorized (headers : string → option string) (secret : string) : bool :=
  let header_match :=
    match headers "x-operator-key" with Some value => constant_time_eq (trim value) secret | None => false end in
  let bearer_match :=
    match headers "authorization" ≫= strip_prefix "Bearer " with
    | Some value => constant_time_eq (trim value) secret
    | None => false
    end in
  header_match || bearer_match.

(** [Ok] runs the handler. *)
Definition private_api_acl_middleware (env headers : string → option string) : result N unit :=
  match configured_operator_secret env with
  | None => Err 503%N
  | Some secret => ensure (private_api_authorized headers secret) 401%N
  end.

(** ** Publication *)

Definition rest_admission_error (error : AdmissionError) : N :=
  match error with
  | InvalidPackageId | InvalidPublisherSignature _ | ShieldedPublishDisabled
  | Scanner (Rejected _ _) | Scanner (ContentHashMismatch _ _ _)
  | PublisherError InvalidAddress => 400
  | PublisherError Unstaked | RevokedPackage => 403
  | PublisherError Unavailable
  | Scanner RulesUnavailable | Scanner (IpfsFetch _) | Scanner (ExtractionFailed _) => 503
  | Scanner (PayloadTooLarge _ _ _) => 413
  | AlreadyVerified | AlreadyPending => 409
  end.

(** The state, what is broadcast on the topic of submissions, and the answer. *)
Definition submit_package `{AdmissionEnv, Crypto} (now : Z) (st : AdmState) (others : AdmState → AdmState)
    (request : PublishRequest) : AdmState * list GossipMessage * result N string :=
  match admit_publish_request now st others request {| surface := Rest; verify_publisher_auth := true |} with
  | (st', Ok receipt) => (st', [GPublishRequest request], Ok (rc_canonical receipt))
  | (st', Err e) => (st', [], Err (rest_admission_error e))
  end.

Section Handlers.
Context `{!Crypto, !Serde}.

(** A signature given in hexadecimal. *)
Definition hex_signature_valid (pubkey msg signature : string) : bool :=
  default false (
    pk_bytes ← hex_decode pubkey;
    vk ← vk_try_from pk_bytes;
    sig_bytes ← hex_decode signature;
    sig ← sig_try_from sig_bytes;
    Some (verify vk msg sig)).

Definition registered_key (st : NodeState) (pubkey : string) : bool :=
  existsb (λ v, String.eqb (val_pubkey v) pubkey) (validators (node_set st)).

(** ** Revocation *)

Record RevokeReq := { rv_reason : string; rv_revoker_pubkey : string; rv_signature : string }.

Definition revoke_package (st : NodeState) (open : bool) (canonical : string) (req : RevokeReq)
    : result N Transaction :=
  let sig_msg := canonical +:+ ":revoke:" +:+ rv_reason req in
  _ ← ensure (hex_signature_valid (rv_revoker_pubkey req) sig_msg (rv_signature req)) 401%N;
  let package_record := get_package (chain (core st)) canonical in
  let is_publisher :=
    match package_record with
    | Some r => String.eqb (rec_publisher_pubkey r) (rv_revoker_pubkey req)
    | None => false
    end in
  _ ← ensure (registered_key st (rv_revoker_pubkey req) || is_publisher) 403%N;
  record ← ok_or 404%N package_record;
  _ ← ensure open 500%N;
  Ok (Revoke canonical (rv_reason req) (rv_revoker_pubkey req) (rec_content_hash record)).

(** ** Key rotation *)

Record RotateKeyRequest := {
  rk_canonical_prefix : string;
  rk_old_pubkey : string;
  rk_new_pubkey : string;
  rk_sig_from_old : string;
  rk_sig_from_new : string;
  rk_nonce : N;
}.

Definition ROTATION_COOLDOWN_SECS : Z := 3600.

(** [signed_duration_since(..).num_seconds()] *)
Definition seconds_since (now earlier : Z) : Z := Z.quot (now - earlier) 1000000000.

Definition rotate_publisher_key (now : Z) (st : NodeState) (open : bool) (req : RotateKeyRequest)
    : result N Transaction :=
  let s := chain (core st) in
  _ ← ensure (hex_signature_valid (rk_old_pubkey req) (rk_new_pubkey req) (rk_sig_from_old req)) 400%N;
  _ ← ensure (hex_signature_valid (rk_new_pubkey req) (rk_old_pubkey req) (rk_sig_from_new req)) 400%N;
  let last_nonce := default 0%N (publisher_rotation_nonce s (rk_old_pubkey req)) in
  _ ← ensure (last_nonce <? rk_nonce req)%N 400%N;
  _ ← ensure match publisher_last_rotation_time s (rk_old_pubkey req) with
             | Some last_time => ROTATION_COOLDOWN_SECS <=? seconds_since now last_time
             | None => true
             end%Z 429%N;
  _ ← ensure (has_publisher_for_prefix s (rk_canonical_prefix req) (rk_old_pubkey req)) 403%N;
  _ ← ensure open 500%N;
  Ok (RotatePublisherKey (rk_canonical_prefix req) (rk_old_pubkey req) (rk_new_pubkey req)
        (rk_sig_from_old req) (rk_sig_from_new req) now (rk_nonce req)).

(** ** Votes and announcements *)

(** [api::VoteMessage] has the fields of [gossip::VoteGossip]. *)
Definition receive_vote (utc : Z) (st : NodeState) (vote : VoteGossip) : result N NodeState :=
  validator ← ok_or 403%N (find_validator (node_set st) (vg_validator_id vote));
  _ ← ensure (negb (is_empty (val_pubkey validator))) 403%N;
  _ ← ensure (String.eqb (vg_validator_pubkey vote) (val_pubkey validator)) 403%N;
  _ ← ensure (is_consensus_grade_vote (vg_ml_model_version vote) (vg_analysis_bundles vote)
                (vg_evidence_digest vote)) 400%N;
  pubkey_bytes ← ok_or 400%N (hex_decode (vg_validator_pubkey vote));
  vk ← ok_or 400%N (vk_try_from pubkey_bytes);
  sig_bytes ← ok_or 400%N (hex_decode (vg_signature vote));
  sig ← ok_or 400%N (sig_try_from sig_bytes);
  let msg :=
    canonical_vote_message (consensus_subject vote) (vg_content_hash vote) (vg_approved vote)
      (vg_validator_pubkey vote)
      (scanner_profile_digest (vg_ml_model_version vote) (vg_analysis_bundles vote))
      (vg_evidence_digest vote) in
  _ ← ensure (verify vk msg sig) 401%N;
  let signature := {|
    vs_validator_id := vg_validator_id vote; vs_validator_pubkey := vg_validator_pubkey vote;
    vs_signature := vg_signature vote;
    vs_vote := if vg_approved vote then Approve else Reject (default "" (vg_reject_reason vote));
    vs_signed_at := utc; vs_ml_model_version := vg_ml_model_version vote;
    vs_analysis_bundles := vg_analysis_bundles vote; vs_evidence_digest := vg_evidence_digest vote;
    vs_deterministic_risk := vg_deterministic_risk vote |} in
  Ok (set_rounds_pool st
        (record_package_vote utc (package_rounds st) (consensus_subject vote) signature) (pending_pool st)).

Record BlockAnnounceReq := {
  ann_height : N; ann_block_hash : string; ann_proposer : string;
  ann_proposer_pubkey : string; ann_signature : string }.

Definition receive_block_announcement (st : NodeState) (ann : BlockAnnounceReq) : result N unit :=
  let sig_msg := ann_block_hash ann +:+ ":" +:+ fmt_N (ann_height ann) in
  _ ← ensure (hex_signature_valid (ann_proposer_pubkey ann) sig_msg (ann_signature ann)) 401%N;
  ensure (registered_key st (ann_proposer_pubkey ann)) 403%N.

(** ** The list of blocks *)

Record ListBlocksParams := {
  lp_offset : option N; lp_limit : option N; lp_before_height : option N; lp_after_height : option N }.

Record BlockPage := {
  pg_blocks : list Block; pg_tip_height : N; pg_offset : N; pg_limit : N;
  pg_next_before_height : option N; pg_next_after_height : option N }.

Definition list_blocks_paginated (s : ChainStore) (params : ListBlocksParams) : BlockPage :=
  let limit := N.min (default 20%N (lp_limit params)) 100 in
  let tip := tip_height s in
  let '(offset, next_before, next_after) :=
    match lp_before_height params, lp_after_height params with
    | Some before, _ =>
        let start := (before - 1)%N in
        ((tip - start)%N, Some (start - (limit - 1))%N, None)
    | None, Some after =>
        if (tip <=? after)%N then (0%N, None, Some after)
        else
          let window_top := N.min tip (N.min (after + limit) u64_max) in
          ((tip - window_top)%N, None, Some window_top)
    | None, None => (default 0%N (lp_offset params), None, None)
    end in
  let blocks := list_blocks s offset (N.to_nat limit) in
  let next_before_height :=
    match next_before with
    | Some h => Some h
    | None => match lp_before_height params with
              | Some _ => (λ b, height (header b)) <$> last blocks
              | None => None
              end
    end in
  {| pg_blocks := blocks; pg_tip_height := tip; pg_offset := offset; pg_limit := limit;
     pg_next_before_height := next_before_height; pg_next_after_height := next_after |}.

End Handlers.

(** ** Keys and signatures *)

Lemma lor_xor_zero (l r : list N) (acc : N) :
  length l = length r →
  (foldl (λ diff ab, N.lor diff (N.lxor ab.1 ab.2)) acc (zip l r) =? 0)%N
  = bool_decide (acc = 0%N ∧ l = r).
Proof.
  revert r acc. induction l as [|a l IH]; intros [|b r] acc Hlen; try done.
  - cbn. destruct (N.eqb_spec acc 0); [by rewrite bool_decide_eq_true_2|by rewrite bool_decide_eq_false_2; naive_solver].
  - cbn [zip zip_with foldl fst snd]. rewrite IH by (cbn in Hlen; lia). apply bool_decide_ext.
    rewrite N.lor_eq_0_iff, N.lxor_eq_0_iff. naive_solver.
Qed.

(** The comparison in constant time is equality. *)
Lemma constant_time_eq_spec (left right : string) : constant_time_eq left right = String.eqb left right.
Proof.
  unfold constant_time_eq. rewrite !length_fmap.
  assert (∀ s t : string, N_of_ascii <$> of_str s = N_of_ascii <$> of_str t → s = t) as Hinj.
  { intros s t Hst. apply list_fmap_eq_inj in Hst; [|intros a b Hab; rewrite <- (ascii_N_embedding a), Hab; apply ascii_N_embedding].
    by rewrite <- (to_of_str s), Hst, to_of_str. }
  destruct (Nat.eqb_spec (length (of_str left)) (length (of_str right))) as [Hl|Hl]; cbn [negb].
  - rewrite lor_xor_zero by (by rewrite !length_fmap). destruct (String.eqb_spec left right) as [->|Hne].
    + by apply bool_decide_eq_true_2.
    + apply bool_decide_eq_false_2. intros [_ He]. by apply Hinj in He.
  - symmetry. apply String.eqb_neq. by intros ->.
Qed.

(** A private route runs its handler exactly when the operator has configured a secret that
    is not blank and the request carries it, trimmed, in one of the two headers; without a
    secret the routes are locked for everybody. *)
Theorem private_api_exact (env headers : string → option string) :
  private_api_acl_middleware env headers = Ok tt ↔
  ∃ secret, configured_operator_secret env = Some secret ∧ is_empty secret = false ∧
    ((trim <$> headers "x-operator-key") = Some secret ∨
     (trim <$> (headers "authorization" ≫= strip_prefix "Bearer ")) = Some secret).
Proof.
  unfold private_api_acl_middleware, private_api_authorized.
  destruct (configured_operator_secret env) as [secret|] eqn:Hs; [|split; [done|intros (? & ? & _); done]].
  assert (is_empty secret = false) as He.
  { unfold configured_operator_secret in Hs.
    destruct (match env "CREG_OPERATOR_API_KEY" with Some v => Some v | None => _ end) as [v|]; [|done].
    cbn [mbind option_bind] in Hs. destruct (is_empty (trim v)) eqn:Hv; [done|]. by injection Hs as <-. }
  rewrite ensure_Ok, orb_true_iff.
  assert (∀ o : option string, match o with Some value => constant_time_eq (trim value) secret | None => false end = true
            ↔ trim <$> o = Some secret) as Hm.
  { intros [v|]; [|done]. rewrite constant_time_eq_spec, String.eqb_eq. cbn. split; [by intros ->|by intros [= ->]]. }
  rewrite !Hm. split; [|intros (? & [= <-] & _ & H); done]. intros H. by exists secret.
Qed.

Section HandlerProperties.
Context `{!Crypto, !Serde}.

(** A vote posted over HTTP counts exactly as the same vote received by gossip: it is accepted
    in the same cases and leaves the same state. *)
Theorem posted_vote_is_gossip_vote (utc : Z) (st : NodeState) (vote : VoteGossip) :
  match receive_vote utc st vote with
  | Ok st' => validate_vote_gossip_message vote (node_set st) = Ok vote ∧ on_vote utc st vote = st'
  | Err code => (∃ e, validate_vote_gossip_message vote (node_set st) = Err e) ∧ on_vote utc st vote = st
  end.
Proof.
  unfold receive_vote, on_vote, validate_vote_gossip_message.
  destruct (find_validator _ _) as [v|]; cbn [ok_or mbind result_bind]; [|by eauto].
  destruct (negb (is_empty _)); cbn [ensure mbind result_bind]; [|by eauto].
  destruct (String.eqb _ _); cbn [ensure mbind result_bind]; [|by eauto].
  destruct (is_consensus_grade_vote _ _ _); cbn [ensure mbind result_bind]; [|by eauto].
  destruct (hex_decode (vg_validator_pubkey vote)); cbn [ok_or mbind result_bind]; [|by eauto].
  destruct (vk_try_from _); cbn [ok_or mbind result_bind]; [|by eauto].
  destruct (hex_decode (vg_signature vote)); cbn [ok_or mbind result_bind]; [|by eauto].
  destruct (sig_try_from _); cbn [ok_or mbind result_bind]; [|by eauto].
  destruct (verify _ _ _); cbn [ensure mbind result_bind]; by eauto.
Qed.

Lemma insert_single_writer (s : ChainStore) (b : Block) (pre post : list Transaction) (tx : Transaction) (c : string) :
  transactions b = pre ++ tx :: post → Forall (λ t, writes t c = false) pre → Forall (λ t, writes t c = false) post →
  get_package (insert_block s b) c = put_over (get_package s c) (put_effect (get_package s c) (block_hash b) tx c).
Proof.
  intros Htxs Hpre Hpost. unfold get_package. rewrite insert_block_packages, index_block_lookup, Htxs, foldl_app.
  assert (∀ txs cur, Forall (λ t, writes t c = false) txs →
    foldl (λ cur tx, put_over cur (put_effect (packages s !! c) (block_hash b) tx c)) cur txs = cur) as Hskip.
  { induction 1 as [|t txs Ht _ IH]; [done|]. cbn [foldl]. rewrite put_effect_no_write by done. exact IH. }
  cbn [foldl]. by rewrite !Hskip.
Qed.

(** C13. A revocation goes through exactly when it is signed, the key is a registered validator's or
    the publisher's, and the package is known; once a block includes the transaction, and
    nothing else in it writes the package, the package is revoked for the given reason and
    otherwise unchanged. *)
Theorem revocation_exact (st : NodeState) (c : string) (req : RevokeReq) :
  match revoke_package st true c req with
  | Ok tx =>
      ∃ r, get_package (chain (core st)) c = Some r ∧
        hex_signature_valid (rv_revoker_pubkey req) (c +:+ ":revoke:" +:+ rv_reason req) (rv_signature req) = true ∧
        (registered_key st (rv_revoker_pubkey req) = true ∨ rec_publisher_pubkey r = rv_revoker_pubkey req) ∧
        ∀ s b pre post r', transactions b = pre ++ tx :: post →
          Forall (λ t, writes t c = false) pre → Forall (λ t, writes t c = false) post →
          get_package s c = Some r' →
          get_package (insert_block s b) c = Some (set_status r' (Revoked (rv_reason req)))
  | Err code =>
      (code = 401%N ∧ hex_signature_valid (rv_revoker_pubkey req) (c +:+ ":revoke:" +:+ rv_reason req) (rv_signature req) = false) ∨
      (code = 403%N ∧ registered_key st (rv_revoker_pubkey req) = false ∧
       ∀ r, get_package (chain (core st)) c = Some r → rec_publisher_pubkey r ≠ rv_revoker_pubkey req) ∨
      (code = 404%N ∧ get_package (chain (core st)) c = None)
  end.
Proof.
  unfold revoke_package. destruct (hex_signature_valid _ _ _) eqn:Hs; cbn [ensure mbind result_bind]; [|by left].
  destruct (get_package (chain (core st)) c) as [r|] eqn:Hr.
  - destruct (registered_key st _ || _) eqn:Ha; cbn [ensure mbind result_bind ok_or].
    + exists r. split_and!; [done|done| |].
      * apply orb_true_iff in Ha as [Ha|Ha]; [by left|right]. by apply String.eqb_eq.
      * intros s b pre post r' Htxs Hpre Hpost Hr'. rewrite (insert_single_writer s b pre post _ c Htxs Hpre Hpost), Hr'.
        cbn [put_effect]. by rewrite String.eqb_refl.
    + right. left. apply orb_false_iff in Ha as [Ha Hp]. split_and!; [done|done|].
      intros r' [= <-]. by apply String.eqb_neq.
  - rewrite orb_false_r. destruct (registered_key st _) eqn:Ha; cbn [ensure mbind result_bind ok_or].
    + right. by right.
    + right. left. split_and!; [done|done|]. by intros r'.
Qed.

(** ** Key rotation *)

Definition for_prefix (req : RotateKeyRequest) (prefix : string) (nonce : N) : RotateKeyRequest :=
  {| rk_canonical_prefix := prefix; rk_old_pubkey := rk_old_pubkey req; rk_new_pubkey := rk_new_pubkey req;
     rk_sig_from_old := rk_sig_from_old req; rk_sig_from_new := rk_sig_from_new req; rk_nonce := nonce |}.

(** The two signatures of a rotation cover the other key and nothing else: whoever has seen one
    accepted rotation can, once the hour is over, request another one for any prefix under
    which the old key still has packages, and the block that includes it hands them over. *)
Theorem rotation_signatures_reusable (now now' : Z) (st st' : NodeState) (req : RotateKeyRequest) (tx : Transaction)
    (prefix : string) (nonce : N) :
  rotate_publisher_key now st true req = Ok tx →
  let s := chain (core st') in
  (default 0 (publisher_rotation_nonce s (rk_old_pubkey req)) < nonce)%N →
  (∀ t, publisher_last_rotation_time s (rk_old_pubkey req) = Some t → ROTATION_COOLDOWN_SECS <= seconds_since now' t)%Z →
  has_publisher_for_prefix s prefix (rk_old_pubkey req) = true →
  ∃ tx', rotate_publisher_key now' st' true (for_prefix req prefix nonce) = Ok tx' ∧
    ∀ b c r, transactions b = [tx'] → starts_with prefix c = true → get_package s c = Some r →
      rec_publisher_pubkey r = rk_old_pubkey req →
      get_package (insert_block s b) c = Some (set_publisher r (rk_new_pubkey req)).
Proof.
  intros Hr s Hn Ht Hp. unfold rotate_publisher_key in *. res_inv.
  cbn [for_prefix rk_canonical_prefix rk_old_pubkey rk_new_pubkey rk_sig_from_old rk_sig_from_new rk_nonce].
  repeat match goal with H : hex_signature_valid _ _ _ = true |- _ => rewrite H; clear H end.
  cbn [ensure mbind result_bind]. fold s. rewrite (proj2 (N.ltb_lt _ _) Hn). cbn [ensure mbind result_bind].
  destruct (publisher_last_rotation_time s (rk_old_pubkey req)) as [t|].
  - rewrite (proj2 (Z.leb_le _ _)) by (by apply Ht). cbn [ensure mbind result_bind]. rewrite Hp. eexists. split; [done|].
    intros b c r Htxs Hc Hg Ho. rewrite (insert_single_writer s b [] [] _ c Htxs) by constructor. rewrite Hg.
    cbn [put_effect]. by rewrite Hc, Ho, String.eqb_refl.
  - cbn [ensure mbind result_bind]. rewrite Hp. eexists. split; [done|].
    intros b c r Htxs Hc Hg Ho. rewrite (insert_single_writer s b [] [] _ c Htxs) by constructor. rewrite Hg.
    cbn [put_effect]. by rewrite Hc, Ho, String.eqb_refl.
Qed.

(** A request without a nonce is always refused: the default is 0, and so is the nonce of a
    publisher that never rotated. *)
Lemma default_nonce_rejected (now : Z) (st : NodeState) (open : bool) (req : RotateKeyRequest) (tx : Transaction) :
  rk_nonce req = 0%N → rotate_publisher_key now st open req ≠ Ok tx.
Proof.
  intros Hn. unfold rotate_publisher_key. intros Hr. res_inv. rewrite Hn in *.
  match goal with Hlt : (_ <? 0)%N = true |- _ => apply N.ltb_lt in Hlt; lia end.
Qed.

(** ** Paging through the chain *)

Definition before (height limit : N) : ListBlocksParams :=
  {| lp_offset := None; lp_limit := Some limit; lp_before_height := Some height; lp_after_height := None |}.

Definition after (height limit : N) : ListBlocksParams :=
  {| lp_offset := None; lp_limit := Some limit; lp_before_height := None; lp_after_height := Some height |}.

(** The blocks of [n] pages, following the cursor. *)
Fixpoint walk_back (n : nat) (s : ChainStore) (limit height : N) : list Block :=
  match n with
  | O => []
  | S n' =>
      let page := list_blocks_paginated s (before height limit) in
      pg_blocks page ++ match pg_next_before_height page with
                        | Some h => walk_back n' s limit h
                        | None => []
                        end
  end.

Section Pages.
Context (c : list Block) (Hc : contiguous c) (Hnd : NoDup (block_hash <$> c)) (Hlen : 1 < length c).

Let s : ChainStore := insert_all empty_store c.

Lemma store_tip : tip_height s = (N.of_nat (length c) - 1)%N.
Proof using Hc Hnd Hlen.
  destruct (contiguous_store c Hc Hnd) as [Hst1 Hst2]. apply tip_height_unique.
  - destruct (lookup_lt_is_Some_2 c (length c - 1)) as [b Hb]; [lia|].
    destruct (Hst1 _ _ Hb) as [Hx _]. exists (block_hash b). rewrite <- Hx. f_equal. lia.
  - intros h Hh. destruct (decide (h ≤ N.of_nat (length c) - 1)%N); [done|]. rewrite Hst2 in Hh by lia. by destruct Hh.
Qed.

(** The page below a height, wherever the height is. *)
Lemma before_page (height limit : nat) :
  limit ≤ 100 →
  pg_blocks (list_blocks_paginated s (before (N.of_nat height) (N.of_nat limit)))
  = take limit (rev (take (Nat.max 1 height) c)) ∧
  pg_next_before_height (list_blocks_paginated s (before (N.of_nat height) (N.of_nat limit)))
  = Some (N.of_nat (height - 1 - (limit - 1))).
Proof using Hc Hnd Hlen.
  intros Hl. unfold list_blocks_paginated. cbn [before lp_limit lp_before_height lp_after_height from_option id].
  rewrite store_tip. rewrite N.min_l by lia. cbn [pg_blocks pg_next_before_height]. rewrite Nat2N.id.
  split; [|f_equal; lia].
  replace (N.of_nat (length c) - 1 - (N.of_nat height - 1))%N with (N.of_nat (length c - 1 - (height - 1))) by lia.
  unfold s. rewrite list_blocks_descending by done.
  destruct (decide (height ≤ length c)).
  - replace (length c - 1 - (length c - 1 - (height - 1)) + 1) with (Nat.max 1 height) by lia. done.
  - by rewrite !(take_ge c) by lia.
Qed.

(** Following the cursor downwards gives the blocks below the starting height, newest first,
    each exactly once and none left out, for as many pages as it takes to reach genesis. *)
Theorem pages_complete (n limit height : nat) :
  1 ≤ limit ≤ 100 → 1 ≤ height ≤ length c → n * limit < height + limit →
  walk_back n s (N.of_nat limit) (N.of_nat height) = take (n * limit) (rev (take height c)).
Proof using Hc Hnd Hlen.
  intros Hl. revert height. induction n as [|n IH]; intros height Hh Hn; [done|]. cbn [walk_back].
  destruct (before_page height limit) as [-> ->]; [lia|].
  replace (Nat.max 1 height) with height by lia.
  replace (height - 1 - (limit - 1)) with (height - limit) by lia.
  destruct n as [|n]. { by rewrite app_nil_r, Nat.mul_1_l. }
  rewrite IH by lia.
  assert (rev (take height c) = take limit (rev (take height c)) ++ rev (take (height - limit) c)) as Hr.
  { rewrite <- (take_drop limit (rev (take height c))) at 1. f_equal.
    rewrite skipn_rev, length_take, take_take. do 2 f_equal. lia. }
  rewrite Hr at 2. rewrite take_app_ge by (rewrite length_take; lia).
  rewrite length_take, length_rev, length_take. f_equal. f_equal. lia.
Qed.

(** The cursors do not stop at the ends: below genesis the page is genesis again, for ever;
    above the tip the same page comes back until the cursor has fallen to it; and a page of
    the blocks above a height near the tip holds the block at that height too. *)
Theorem cursors_repeat (g : Block) (limit : nat) :
  head c = Some g → 1 ≤ limit ≤ 100 →
  (∀ n, walk_back n s (N.of_nat limit) 0 = replicate n g) ∧
  (∀ height, length c + limit ≤ height →
     walk_back 2 s (N.of_nat limit) (N.of_nat height) = take limit (rev c) ++ take limit (rev c)) ∧
  (∀ height b, c !! height = Some b → height < length c - 1 < height + limit →
     (N.of_nat (length c) ≤ u64_max)%N →
     b ∈ pg_blocks (list_blocks_paginated s (after (N.of_nat height) (N.of_nat limit)))).
Proof using Hc Hnd Hlen.
  intros Hg Hl. split_and!.
  - induction n as [|n IH]; [done|]. cbn [walk_back]. destruct (before_page 0 limit) as [H1 H2]; [lia|].
    change (N.of_nat 0) with 0%N in H1, H2. rewrite H1, H2. replace (N.of_nat (0 - 1 - (limit - 1))) with 0%N by lia. rewrite IH.
    assert (take (Nat.max 1 0) c = [g]) as -> by (clear -Hg; destruct c; [done|]; by injection Hg as ->).
    destruct limit as [|limit]; [lia|]. cbn [rev app]. by rewrite firstn_cons, take_nil.
  - intros height Hh. cbn [walk_back]. destruct (before_page height limit) as [-> ->]; [lia|].
    destruct (before_page (height - 1 - (limit - 1)) limit) as [-> ->]; [lia|].
    rewrite !take_ge with (l := c) by lia. by rewrite app_nil_r.
  - intros height b Hb Hh Hu. unfold list_blocks_paginated. cbn [after lp_limit lp_before_height lp_after_height from_option id].
    rewrite store_tip, (N.min_l (N.of_nat limit) 100) by lia. destruct (N.leb_spec (N.of_nat (length c) - 1) (N.of_nat height)); [lia|].
    cbn [pg_blocks]. rewrite Nat2N.id.
    replace (N.of_nat (length c) - 1 - N.min (N.of_nat (length c) - 1)
               (N.min (N.of_nat height + N.of_nat limit) u64_max))%N with (N.of_nat 0) by lia.
    unfold s. rewrite list_blocks_descending by done.
    rewrite take_ge with (l := c) by lia. rewrite firstn_rev.
    apply list_elem_of_In. rewrite <- in_rev. apply list_elem_of_In, list_elem_of_lookup.
    exists (height - (length c - limit)). rewrite lookup_drop, <- Hb. f_equal. lia.
Qed.

End Pages.
End HandlerProperties.

(** ** Witnesses *)
Module NodeApiWitness.
Import Toy ToySerde.

Definition seller : string := fit 32 "seller".
Definition buyer : string := fit 32 "buyer".

Definition sold (nm : string) : Transaction :=
  Publish (set_publisher (ChainStoreExamples.record nm) (hex_encode seller)).

Definition s1 : ChainStore :=
  insert_all empty_store [ChainStoreExamples.blk 0 "" []; ChainStoreExamples.blk 1 "a" [sold "a"; sold "b"]].

Definition on_chain (s : ChainStore) : NodeState :=
  set_core (NodeExamples.node "v1")
    (set_chain (core (NodeExamples.node "v1")) s (publisher_index (core (NodeExamples.node "v1")))).

(** The sale of the package a. *)
Definition sale : RotateKeyRequest :=
  {| rk_canonical_prefix := "npm:a@"; rk_old_pubkey := hex_encode seller; rk_new_pubkey := hex_encode buyer;
     rk_sig_from_old := hex_encode (sign seller (hex_encode buyer));
     rk_sig_from_new := hex_encode (sign buyer (hex_encode seller)); rk_nonce := 1 |}.

Definition sale_tx : Transaction :=
  match rotate_publisher_key 0 (on_chain s1) true sale with Ok tx => tx | Err _ => ValidatorLeave "" end.

Definition s2 : ChainStore := insert_block s1 (ChainStoreExamples.blk 2 "b" [sale_tx]).

Definition an_hour_later : Z := 3600 * 1000000000.

(** The buyer takes the package b as well. *)
Lemma rotation_signatures_reusable_witness :
  ∃ tx', rotate_publisher_key an_hour_later (on_chain s2) true (for_prefix sale "npm:b@" 2) = Ok tx' ∧
    ∀ b c r, transactions b = [tx'] → starts_with "npm:b@" c = true → get_package s2 c = Some r →
      rec_publisher_pubkey r = hex_encode seller →
      get_package (insert_block s2 b) c = Some (set_publisher r (hex_encode buyer)).
Proof.
  apply (rotation_signatures_reusable 0 an_hour_later (on_chain s1) (on_chain s2) sale sale_tx "npm:b@" 2).
  - vm_compute. reflexivity.
  - vm_compute. reflexivity.
  - intros t Ht. vm_compute in Ht. injection Ht as <-. vm_compute. discriminate.
  - vm_compute. reflexivity.
Defined.

Definition c3 : list Block :=
  [ChainStoreExamples.blk 0 "" []; ChainStoreExamples.blk 1 "a" []; ChainStoreExamples.blk 2 "b" []].

Lemma c3_contiguous : contiguous c3.
Proof. intros [|[|[|i]]] b Hb; try (injection Hb as <-; reflexivity). done. Qed.

Lemma c3_hashes : NoDup (block_hash <$> c3).
Proof. by apply (bool_decide_unpack _); vm_compute. Qed.

Lemma pages_complete_witness :
  walk_back 2 (insert_all empty_store c3) (N.of_nat 2) (N.of_nat 3) = rev c3.
Proof. apply (pages_complete c3 c3_contiguous c3_hashes ltac:(cbn; lia) 2 2 3); cbn; lia. Defined.

Lemma cursors_repeat_witness :
  walk_back 2 (insert_all empty_store c3) (N.of_nat 20) (N.of_nat 100) = rev c3 ++ rev c3.
Proof.
  refine (proj1 (proj2 (cursors_repeat c3 c3_contiguous c3_hashes ltac:(cbn; lia)
                          (ChainStoreExamples.blk 0 "" []) 20 _ _)) 100 _); [reflexivity|lia|cbn; lia].
Defined.

End NodeApiWitness.
