(* ===== verification/Circuits.v ===== *)
(** The constraint systems of the registry's circuits (zk-validator/src/circuits.rs) over the
    scalar field of BN254: the assignment that the prover synthesises, the equations that are
    enforced, and what a verifier may conclude from a proof.

    The gadgets of ark_r1cs_std stand for what they document: [UInt8] and [Boolean] variables
    are eight bits and one bit, [enforce_equal] is equality of field elements, [is_zero] and
    the boolean operations are those of the field and of bool. *)

From S2P Require Import Prelude Text Crypto Gf256 Shamir Threshold Zk.
From Stdlib Require Import Ascii NArith ZArith.
From stdpp Require Import vector.

(** The order of the scalar field. *)
Definition fr_modulus : Z :=
  21888242871839275222246405745257275088548364400416034343698204186575808495617.

Definition feq (a b : Z) : bool := (a mod fr_modulus =? b mod fr_modulus)%Z.

(** [Fr::from_le_bytes_mod_order] *)
Definition fr_of_le (b : bytes) : Z := Z.of_N (from_be_bytes (rev b)) mod fr_modulus.

(** A [UInt8] variable is its bits, least significant first. *)
Definition UInt8 := vec bool 8.

Definition u8_of (n : N) : UInt8 :=
  [# N.testbit n 0; N.testbit n 1; N.testbit n 2; N.testbit n 3;
     N.testbit n 4; N.testbit n 5; N.testbit n 6; N.testbit n 7].

(** [bits.iter().enumerate().fold(zero, |acc, (i, b)| acc + b * (1 << i))] *)
Definition recompose (v : UInt8) : Z :=
  foldl (λ acc ib, (acc + Z.b2z ib.2 * 2 ^ Z.of_nat ib.1) mod fr_modulus)%Z 0%Z
    (imap (λ i b, (i, b)) (vec_to_list v)).

(** ** Packages *)

Record PackageWitness := {
  w_content_lo : Z; w_content_hi : Z;
  w_manifest_lo : Z; w_manifest_hi : Z;
  w_static_score : UInt8;
  w_sandbox_safe : bool;
  w_no_vuln_deps : bool;
  w_complexity : UInt8;
  w_diff : UInt8;
  w_complexity_diff : UInt8;
}.

(** [split_hash32] and the limbs of [bind_hash32_limbs]. *)
Definition hash_limbs (hash : bytes) : Z * Z := (fr_of_le (take 16 hash), fr_of_le (take 16 (drop 16 hash))).

(** The equations of [PackageValidationCircuit] over its seven public inputs. *)
Definition package_constraints (pub : list Z) (w : PackageWitness) : bool :=
  match pub with
  | [content_lo; content_hi; manifest_lo; manifest_hi; score; sandbox; no_vuln] =>
      feq content_lo (w_content_lo w) && feq content_hi (w_content_hi w) &&
      feq manifest_lo (w_manifest_lo w) && feq manifest_hi (w_manifest_hi w) &&
      feq score (recompose (w_static_score w)) &&
      feq sandbox (Z.b2z (w_sandbox_safe w)) &&
      feq no_vuln (Z.b2z (w_no_vuln_deps w)) &&
      feq (recompose (w_static_score w) - 80) (recompose (w_diff w)) &&
      Bool.eqb (w_sandbox_safe w) true &&
      Bool.eqb (w_no_vuln_deps w) true &&
      feq (recompose (u8_of 90) - recompose (w_complexity w)) (recompose (w_complexity_diff w))
  | _ => false
  end.

(** The assignment of [generate_constraints]; [None] is [Unsatisfiable]. *)
Definition package_synthesis (c : PackageValidationCircuit) : option (list Z * PackageWitness) :=
  if negb (length (pc_content_hash c) =? 32) || negb (length (pc_manifest_hash c) =? 32) then None
  else
    let '(content_lo, content_hi) := hash_limbs (pc_content_hash c) in
    let '(manifest_lo, manifest_hi) := hash_limbs (pc_manifest_hash c) in
    Some ([content_lo; content_hi; manifest_lo; manifest_hi; Z.of_N (pc_static_analysis_score c);
           Z.b2z (pc_sandbox_safe c); Z.b2z (pc_no_vulnerable_deps c)],
          {| w_content_lo := content_lo; w_content_hi := content_hi;
             w_manifest_lo := manifest_lo; w_manifest_hi := manifest_hi;
             w_static_score := u8_of (pc_static_analysis_score c);
             w_sandbox_safe := pc_sandbox_safe c; w_no_vuln_deps := pc_no_vulnerable_deps c;
             w_complexity := u8_of (pc_complexity_score c);
             w_diff := u8_of (pc_static_analysis_score c - 80);
             w_complexity_diff := u8_of (90 - pc_complexity_score c) |}).

(** The prover's own assignment satisfies the circuit. *)
Definition package_satisfied (c : PackageValidationCircuit) : bool :=
  match package_synthesis c with
  | Some (pub, w) => package_constraints pub w
  | None => false
  end.

(** ** Double signing *)

Definition double_sign_inputs (c : DoubleSignCircuit) : list Z :=
  fr_of_le <$>
    [validator_pubkey_lo c; validator_pubkey_hi c; package_hash_lo c; package_hash_hi c;
     vote1_hash_lo c; vote1_hash_hi c; vote2_hash_lo c; vote2_hash_hi c].

(** The circuit has no witness of its own. *)
Definition double_sign_constraints (pub : list Z) : bool :=
  match pub with
  | [pubkey_lo; pubkey_hi; package_lo; package_hi; vote1_lo; vote1_hi; vote2_lo; vote2_hi] =>
      feq pubkey_lo pubkey_lo && feq pubkey_hi pubkey_hi && feq package_lo package_lo &&
      feq package_hi package_hi &&
      (negb (feq (vote1_lo - vote2_lo) 0) || negb (feq (vote1_hi - vote2_hi) 0))
  | _ => false
  end.

(** ** Batches *)

(** [Fr::inverse], [None] at zero. *)
Class FieldInverse := { inverse : Z → option Z }.

Class FieldInverseLaws `{FieldInverse} : Prop := {
  inverse_zero : ∀ x, feq x 0 = true → inverse x = None;
  inverse_spec : ∀ x y, inverse x = Some y → feq (x * y) 1 = true;
}.

Record BatchWitness := { w_tx_count : Z; w_tx_count_inv : Z }.

Definition batch_constraints (pub : list Z) (w : BatchWitness) : bool :=
  match pub with
  | [prev_lo; prev_hi; data_lo; data_hi; next_lo; next_hi] => feq (w_tx_count w * w_tx_count_inv w) 1
  | _ => false
  end.

Definition batch_synthesis `{FieldInverse} (c : BatchStateTransitionCircuit) : option (list Z * BatchWitness) :=
  let tx_count_fr := Z.of_N (tc_tx_count c) in
  inv ← inverse tx_count_fr;
  Some (fr_of_le <$> [prev_root_lo c; prev_root_hi c; data_root_lo c; data_root_hi c; next_root_lo c; next_root_hi c],
        {| w_tx_count := tx_count_fr; w_tx_count_inv := inv |}).

(** ** Bits *)

Lemma feq_small (a b : Z) : (0 <= a < fr_modulus → 0 <= b < fr_modulus → feq a b = true ↔ a = b)%Z.
Proof. intros Ha Hb. unfold feq. rewrite !Z.mod_small by done. apply Z.eqb_eq. Qed.

Lemma feq_refl (a : Z) : feq a a = true.
Proof. apply Z.eqb_refl. Qed.

(** Every assignment of eight bits is a byte, and is recomposed to it. *)
Lemma u8_cases (v : UInt8) : ∃ n, (n < 256)%N ∧ v = u8_of n.
Proof.
  inv_vec v. intros b0 b1 b2 b3 b4 b5 b6 b7.
  exists (N.b2n b0 + 2 * N.b2n b1 + 4 * N.b2n b2 + 8 * N.b2n b3 + 16 * N.b2n b4 + 32 * N.b2n b5 + 64 * N.b2n b6
          + 128 * N.b2n b7)%N.
  destruct b0, b1, b2, b3, b4, b5, b6, b7; split; reflexivity.
Qed.

Definition bytes_recompose : bool :=
  forallb (λ n, (recompose (u8_of (N.of_nat n)) =? Z.of_nat n)%Z) (seq 0 256).

Lemma bytes_recompose_true : bytes_recompose = true.
Proof. vm_compute. reflexivity. Qed.

Lemma recompose_u8 (n : N) : (n < 256)%N → recompose (u8_of n) = Z.of_N n.
Proof.
  intros Hn. pose proof bytes_recompose_true as Hb. unfold bytes_recompose in Hb. rewrite forallb_forall in Hb.
  specialize (Hb (N.to_nat n)). rewrite N2Nat.id in Hb. apply Z.eqb_eq in Hb; [lia|].
  apply in_seq. lia.
Qed.

Lemma recompose_bounds (v : UInt8) : (0 <= recompose v < 256)%Z.
Proof. destruct (u8_cases v) as (n & Hn & ->). rewrite recompose_u8 by done. lia. Qed.

Lemma eight_bits_small (v : UInt8) : (0 <= recompose v < fr_modulus)%Z.
Proof. pose proof (recompose_bounds v). unfold fr_modulus. lia. Qed.

(** A difference that wraps around the field does not fit in eight bits. *)
Lemma difference_fits (a b : Z) :
  (0 <= a < 256 → 0 <= b < 256 → (∃ v, feq (a - b) (recompose v) = true) ↔ b <= a)%Z.
Proof.
  intros Ha Hb. split.
  - intros [v Hv]. pose proof (recompose_bounds v). unfold feq in Hv. apply Z.eqb_eq in Hv.
    destruct (Z.le_gt_cases b a) as [|Hlt]; [done|]. exfalso.
    rewrite (Z.mod_small (recompose v)) in Hv by (unfold fr_modulus; lia).
    assert ((a - b) mod fr_modulus = a - b + fr_modulus)%Z as He.
    { symmetry. apply (Z.mod_unique _ _ (-1)); [left; unfold fr_modulus; lia|lia]. }
    rewrite He in Hv. unfold fr_modulus in Hv. lia.
  - intros Hle. exists (u8_of (Z.to_N (a - b))). rewrite recompose_u8 by lia. rewrite Z2N.id by lia. apply feq_refl.
Qed.

(** ** What the circuits prove *)

Definition canonical_elements (pub : list Z) : Prop := Forall (λ x, 0 <= x < fr_modulus)%Z pub.

(** Public inputs of the right shape have a witness. *)
Lemma package_circuit_complete (cl ch ml mh s : Z) :
  (80 <= s <= 255)%Z → ∃ w, package_constraints [cl; ch; ml; mh; s; 1; 1]%Z w = true.
Proof.
  intros Hs.
  exists {| w_content_lo := cl; w_content_hi := ch; w_manifest_lo := ml; w_manifest_hi := mh;
            w_static_score := u8_of (Z.to_N s); w_sandbox_safe := true; w_no_vuln_deps := true;
            w_complexity := u8_of 0; w_diff := u8_of (Z.to_N (s - 80)); w_complexity_diff := u8_of 90 |}.
  cbn [package_constraints w_content_lo w_content_hi w_manifest_lo w_manifest_hi w_static_score w_sandbox_safe
       w_no_vuln_deps w_complexity w_diff w_complexity_diff].
  rewrite !recompose_u8 by lia. rewrite !Z2N.id by lia. rewrite !feq_refl. reflexivity.
Qed.

(** C40. What a proof about a package establishes, for a verifier that sees the public inputs: they
    are seven, the score is a byte of at least 80, both flags are set.  Nothing else: the hashes
    are not tied to anything, and the complexity, being a free witness, is not limited. *)
Theorem package_circuit_exact (pub : list Z) :
  canonical_elements pub →
  (∃ w, package_constraints pub w = true) ↔
  ∃ content_lo content_hi manifest_lo manifest_hi score,
    pub = [content_lo; content_hi; manifest_lo; manifest_hi; score; 1; 1]%Z ∧ (80 <= score <= 255)%Z.
Proof.
  intros Hc. split.
  - intros [w Hw]. destruct pub as [|cl [|ch [|ml [|mh [|s [|sb [|nv [|]]]]]]]]; try done.
    cbn [package_constraints] in Hw. rewrite !andb_true_iff in Hw.
    destruct Hw as ((((((((((_ & _) & _) & _) & Hs) & Hsb) & Hnv) & Hd) & Hsbt) & Hnvt) & _).
    apply Bool.eqb_prop in Hsbt. apply Bool.eqb_prop in Hnvt. rewrite Hsbt in Hsb. rewrite Hnvt in Hnv.
    unfold canonical_elements in Hc. rewrite !Forall_cons in Hc. destruct Hc as (_ & _ & _ & _ & Hcs & Hcsb & Hcnv & _).
    apply feq_small in Hs; [|done|apply eight_bits_small].
    apply feq_small in Hsb; [|done|cbn; unfold fr_modulus; lia].
    apply feq_small in Hnv; [|done|cbn; unfold fr_modulus; lia].
    pose proof (recompose_bounds (w_static_score w)).
    assert (80 <= recompose (w_static_score w))%Z.
    { apply difference_fits; [lia|lia|]. by exists (w_diff w). }
    exists cl, ch, ml, mh, s. cbn in Hsb, Hnv. subst. split; [done|lia].
  - intros (cl & ch & ml & mh & s & -> & Hs). by apply package_circuit_complete.
Qed.

(** The prover's own program is stricter: it satisfies the circuit exactly for 32-byte hashes, a
    score of at least 80, both flags and a complexity of at most 90. *)
Lemma package_honest (c : PackageValidationCircuit) :
  (pc_static_analysis_score c < 256)%N → (pc_complexity_score c < 256)%N →
  package_satisfied c = true ↔
  length (pc_content_hash c) = 32 ∧ length (pc_manifest_hash c) = 32 ∧ (80 ≤ pc_static_analysis_score c)%N ∧
  pc_sandbox_safe c = true ∧ pc_no_vulnerable_deps c = true ∧ (pc_complexity_score c ≤ 90)%N.
Proof.
  intros Hs Hx. unfold package_satisfied, package_synthesis.
  destruct (Nat.eqb_spec (length (pc_content_hash c)) 32) as [H1|H1], (Nat.eqb_spec (length (pc_manifest_hash c)) 32) as [H2|H2];
    cbn [negb orb]; [|split; [done|naive_solver]..].
  destruct (hash_limbs (pc_content_hash c)) as [cl ch], (hash_limbs (pc_manifest_hash c)) as [ml mh].
  cbn [package_constraints w_content_lo w_content_hi w_manifest_lo w_manifest_hi w_static_score w_sandbox_safe
       w_no_vuln_deps w_complexity w_diff w_complexity_diff].
  rewrite !recompose_u8 by lia. rewrite !feq_refl. cbn [andb].
  rewrite !andb_true_iff.
  assert (∀ a b : N, (a < 256)%N → (b < 256)%N → feq (Z.of_N a - Z.of_N b) (Z.of_N (a - b)) = true ↔ (b ≤ a)%N) as Hd.
  { intros a b Ha Hb. split.
    - intros He. assert (Z.of_N b <= Z.of_N a)%Z; [|lia]. apply difference_fits; [lia|lia|].
      exists (u8_of (a - b)). by rewrite recompose_u8 by lia.
    - intros Hle. rewrite N2Z.inj_sub by done. apply feq_refl. }
  pose proof (Hd (pc_static_analysis_score c) 80%N Hs ltac:(lia)) as Hd1. change (Z.of_N 80) with 80%Z in Hd1.
  pose proof (Hd 90%N (pc_complexity_score c) ltac:(lia) Hx) as Hd2.
  rewrite Hd1, Hd2. destruct (pc_sandbox_safe c), (pc_no_vulnerable_deps c); cbn; naive_solver.
Qed.

(** The limit on the complexity binds nobody: whatever the complexity of a package, the public
    inputs that an honest prover could not satisfy are satisfied with another witness. *)
Theorem complexity_not_proved (c : PackageValidationCircuit) (w0 : PackageWitness) (pub : list Z) :
  package_synthesis c = Some (pub, w0) → (80 ≤ pc_static_analysis_score c < 256)%N →
  pc_sandbox_safe c = true → pc_no_vulnerable_deps c = true →
  ∃ w, package_constraints pub w = true.
Proof.
  unfold package_synthesis. destruct (_ || _); [done|].
  destruct (hash_limbs (pc_content_hash c)) as [cl ch], (hash_limbs (pc_manifest_hash c)) as [ml mh].
  intros [= <- _] Hs Hsb Hnv. rewrite Hsb, Hnv.
  apply (package_circuit_complete cl ch ml mh (Z.of_N (pc_static_analysis_score c))). lia.
Qed.

Lemma fr_of_le_inj (a b : bytes) : length a = 16 → length b = 16 → fr_of_le a = fr_of_le b → a = b.
Proof.
  intros Ha Hb He. unfold fr_of_le in He.
  assert (∀ l : bytes, length l = 16 → (0 <= Z.of_N (from_be_bytes (rev l)) < fr_modulus)%Z) as Hlt.
  { intros l Hl. pose proof (from_be_lt (rev l)) as H. rewrite length_rev, Hl in H.
    change (256 ^ N.of_nat 16)%N with 340282366920938463463374607431768211456%N in H. unfold fr_modulus. lia. }
  rewrite !Z.mod_small in He by (by apply Hlt). apply N2Z.inj in He.
  apply from_be_inj in He; [|by rewrite !length_rev, Ha, Hb].
  by rewrite <- (rev_involutive a), He, rev_involutive.
Qed.

Lemma fr_diff_zero (a b : bytes) :
  length a = 16 → length b = 16 → feq (fr_of_le a - fr_of_le b) 0 = bool_decide (a = b).
Proof.
  intros Ha Hb. destruct (decide (a = b)) as [->|Hne].
  - rewrite Z.sub_diag. by rewrite bool_decide_eq_true_2.
  - rewrite bool_decide_eq_false_2 by done. apply not_true_iff_false. intros He. apply Hne, fr_of_le_inj; [done|done|].
    unfold feq in He. apply Z.eqb_eq in He. change (0 mod fr_modulus)%Z with 0%Z in He.
    assert (∀ b, 0 <= fr_of_le b < fr_modulus)%Z as Hf by (intros x; apply Z.mod_pos_bound; done).
    pose proof (Hf a). pose proof (Hf b).
    apply Z.mod_divide in He; [|done]. destruct He as [k Hk]. unfold fr_modulus in *. nia.
Qed.

Lemma double_sign_constraints_distinct (pubkey package vote1 vote2 : bytes) :
  length vote1 = 32 → length vote2 = 32 →
  vote1 ≠ vote2 → double_sign_constraints (double_sign_inputs (from_hashes pubkey package vote1 vote2)) = true.
Proof.
  intros H1 H2 Hne. unfold double_sign_inputs, from_hashes, split_hash.
  cbn [fmap list_fmap double_sign_constraints validator_pubkey_lo validator_pubkey_hi package_hash_lo package_hash_hi
       vote1_hash_lo vote1_hash_hi vote2_hash_lo vote2_hash_hi].
  rewrite !feq_refl. cbn [andb]. rewrite !fr_diff_zero by (rewrite ?length_take, ?length_drop; lia).
  rewrite orb_true_iff, !negb_true_iff, !bool_decide_eq_false.
  destruct (decide (take 16 vote1 = take 16 vote2)) as [He|]; [|by left].
  right. intros Hd. apply Hne. by rewrite <- (take_drop 16 vote1), He, Hd, take_drop.
Qed.

(** What a proof of double signing establishes: that two hashes differ.  The key, the package
    and the hashes are whatever the prover chose; no signature takes part. *)
Theorem double_sign_circuit_exact (pubkey package vote1 vote2 : bytes) :
  length vote1 = 32 → length vote2 = 32 →
  double_sign_constraints (double_sign_inputs (from_hashes pubkey package vote1 vote2)) = true ↔ vote1 ≠ vote2.
Proof.
  intros H1 H2. split; [|by apply double_sign_constraints_distinct].
  intros Hc ->. unfold double_sign_inputs, from_hashes, split_hash in Hc.
  cbn [fmap list_fmap double_sign_constraints validator_pubkey_lo validator_pubkey_hi package_hash_lo package_hash_hi
       vote1_hash_lo vote1_hash_hi vote2_hash_lo vote2_hash_hi] in Hc.
  rewrite !Z.sub_diag, !feq_refl in Hc. discriminate.
Qed.

(** What a proof of a batch establishes: nothing.  Any six public inputs are satisfied by the
    witness of a batch with one transaction, whatever the roots are. *)
Theorem batch_circuit_accepts_all (pub : list Z) :
  (∃ w, batch_constraints pub w = true) ↔ length pub = 6.
Proof.
  split.
  - intros [w Hw]. by destruct pub as [|? [|? [|? [|? [|? [|? [|? ?]]]]]]].
  - intros Hl. exists {| w_tx_count := 1; w_tx_count_inv := 1 |}.
    by destruct pub as [|? [|? [|? [|? [|? [|? [|? ?]]]]]]].
Qed.

(** The prover's own program refuses the empty batch. *)
Lemma batch_honest `{FieldInverseLaws} (c : BatchStateTransitionCircuit) (pub : list Z) (w : BatchWitness) :
  batch_synthesis c = Some (pub, w) → batch_constraints pub w = true ∧ tc_tx_count c ≠ 0%N.
Proof.
  unfold batch_synthesis. destruct (inverse (Z.of_N (tc_tx_count c))) as [inv|] eqn:Hi; [|done].
  cbn [mbind option_bind]. intros [= <- <-]. split; [by apply inverse_spec|].
  intros Hz. rewrite Hz in Hi. by rewrite inverse_zero in Hi.
Qed.

(** ** Witnesses *)
Module CircuitWitness.

Fixpoint powmod (b : Z) (e : positive) : Z :=
  match e with
  | xH => b mod fr_modulus
  | xO e' => let h := powmod b e' in (h * h) mod fr_modulus
  | xI e' => let h := powmod b e' in (h * h * b) mod fr_modulus
  end%Z.

(** The power that inverts in a field of prime order, checked. *)
#[export] Instance checked_inverse : FieldInverse := {|
  inverse x := let y := powmod x (Z.to_pos (fr_modulus - 2)) in if feq (x * y) 1 then Some y else None |}.

#[export] Instance checked_inverse_laws : FieldInverseLaws.
Proof.
  split; intros x; cbn [inverse checked_inverse].
  - generalize (powmod x (Z.to_pos (fr_modulus - 2))) as y. intros y Hx.
    destruct (feq (x * y) 1) eqn:He; [|done]. exfalso. unfold feq in *.
    apply Z.eqb_eq in Hx. apply Z.eqb_eq in He. rewrite <- Z.mul_mod_idemp_l, Hx in He by discriminate.
    discriminate He.
  - generalize (powmod x (Z.to_pos (fr_modulus - 2))) as z. intros z y.
    destruct (feq (x * z) 1) eqn:He; [|discriminate]. intros Hz. injection Hz as <-. exact He.
Qed.

Definition batch_of (n : N) : BatchStateTransitionCircuit :=
  from_roots (replicate 32 (byte 1)) (replicate 32 (byte 2)) (replicate 32 (byte 3)) n.

(** Batches of one, of 42 and of no transaction. *)
Example batches_synthesised :
  is_Some (batch_synthesis (batch_of 1)) ∧ is_Some (batch_synthesis (batch_of 42)) ∧ batch_synthesis (batch_of 0) = None.
Proof. split_and!; [apply (bool_decide_unpack _); vm_compute; exact I..|vm_compute; reflexivity]. Qed.

Lemma package_circuit_exact_witness :
  (∃ w, package_constraints [1; 2; 3; 4; 80; 1; 1]%Z w = true) ↔
  ∃ content_lo content_hi manifest_lo manifest_hi score,
    [1; 2; 3; 4; 80; 1; 1]%Z = [content_lo; content_hi; manifest_lo; manifest_hi; score; 1; 1]%Z ∧ (80 <= score <= 255)%Z.
Proof.
  apply package_circuit_exact. unfold canonical_elements, fr_modulus.
  repeat (apply Forall_cons_2; [lia|]). apply Forall_nil. exact I.
Defined.

Lemma double_sign_circuit_exact_witness :
  double_sign_constraints
    (double_sign_inputs (from_hashes [] [] (replicate 32 (byte 1)) (replicate 32 (byte 2)))) = true ↔
  replicate 32 (byte 1) ≠ replicate 32 (byte 2).
Proof. apply double_sign_circuit_exact; reflexivity. Defined.

End CircuitWitness.
