(* ===== verification/DoubleSign.v ===== *)
(** Evidence of double signing (zk-validator/src/slashing.rs): the monitor that collects votes,
    the evidence it makes of two of them, its validation, the proof and its verification.

    Groth16 is the interface of Zk.v, with the coordinates of proofs added here; the current
    time and the random numbers of the prover are arguments. *)

From S2P Require Import Prelude Text Crypto Gf256 Shamir Threshold Zk Circuits.
From Stdlib Require Import Ascii NArith.

(** ** Data *)

Record VoteRecord := {
  vr_validator_id : string;
  vr_package_canonical : string;
  vr_approved : bool;
  vr_timestamp : N;
  vr_block_height : N;
  vr_signature : string;
  vr_pubkey : string;
}.

Record VoteDetails := {
  vd_approved : bool;
  vd_timestamp : N;
  vd_block_height : N;
  vd_signature_hex : string;
}.

Record DoubleSignPublicInputs := {
  validator_pubkey_x : string;
  validator_pubkey_y : string;
  dp_package_hash : string;
  dp_vote1_hash : string;
  dp_vote2_hash : string;
}.

(** The witness of the code holds placeholders and the two signatures again. *)
Record DoubleSignEvidence := {
  de_public_inputs : DoubleSignPublicInputs;
  de_witness_s : string * string;
  de_validator_address : string;
  de_package_canonical : string;
  de_vote1_details : VoteDetails;
  de_vote2_details : VoteDetails;
}.

Inductive SlashError :=
| NotConflicting | PubkeyDecode | InvalidEdPubkey | SignatureFailed | HashDecode | HashLength | EqualHashes
| ProveFailed | SelfVerify | FrDecimal | FqDecimal | VerifyFailed.

(** ** The monitor *)

Abbreviation Monitor := (gmap (string * string) (list VoteRecord)).

Section Monitor.
Context `{!Crypto}.

Definition vote_digest (package_canonical : string) (approved : bool) (n : N) : string :=
  sha256 (package_canonical +:+ ":" +:+ fmt_bool approved +:+ ":" +:+ fmt_N n).

Definition details (v : VoteRecord) : VoteDetails :=
  {| vd_approved := vr_approved v; vd_timestamp := vr_timestamp v; vd_block_height := vr_block_height v;
     vd_signature_hex := vr_signature v |}.

Definition create_evidence (vote1 vote2 : VoteRecord) : DoubleSignEvidence :=
  {| de_public_inputs :=
       {| validator_pubkey_x := vr_pubkey vote1; validator_pubkey_y := "0";
          dp_package_hash := hex_encode (sha256 (vr_package_canonical vote1));
          dp_vote1_hash := hex_encode (vote_digest (vr_package_canonical vote1) (vr_approved vote1) (vr_timestamp vote1));
          dp_vote2_hash := hex_encode (vote_digest (vr_package_canonical vote2) (vr_approved vote2) (vr_timestamp vote2)) |};
     de_witness_s := (vr_signature vote1, vr_signature vote2);
     de_validator_address := vr_validator_id vote1;
     de_package_canonical := vr_package_canonical vote1;
     de_vote1_details := details vote1;
     de_vote2_details := details vote2 |}.

Definition vote_key (v : VoteRecord) : string * string := (vr_validator_id v, vr_package_canonical v).

(** The first stored vote that conflicts. *)
Fixpoint conflicting (existing : list VoteRecord) (vote : VoteRecord) : option VoteRecord :=
  match existing with
  | [] => None
  | e :: rest => if negb (Bool.eqb (vr_approved e) (vr_approved vote)) then Some e else conflicting rest vote
  end.

Definition record_vote (m : Monitor) (vote : VoteRecord) : Monitor * option DoubleSignEvidence :=
  match m !! vote_key vote ≫= λ existing, conflicting existing vote with
  | Some e => (m, Some (create_evidence e vote))
  | None => (<[vote_key vote := default [] (m !! vote_key vote) ++ [vote]]> m, None)
  end.

Definition monitor_run (votes : list VoteRecord) : Monitor := foldl (λ m v, (record_vote m v).1) ∅ votes.

(** ** Validation *)

Definition hex32 (s : string) : result SlashError string :=
  bytes ← ok_or HashDecode (hex_decode (trim_0x s));
  if String.length bytes =? 32 then Ok bytes else Err HashLength.

Definition parse_validator_pubkey (x y : string) : result SlashError string :=
  let y_trim := trim_0x y in
  let x_trim := trim_0x x in
  if is_empty y_trim || String.eqb y_trim "0" then
    bytes ← ok_or PubkeyDecode (hex_decode x_trim);
    Ok (if String.length bytes =? 32 then bytes else sha256 bytes)
  else
    Ok (sha256 (default x (hex_decode x_trim) +:+ default y (hex_decode y_trim))).

(** A signature that is not 64 bytes of hexadecimal is skipped. *)
Definition verify_vote_sig (evidence : DoubleSignEvidence) (pubkey : string) (vote : VoteDetails)
    : result SlashError unit :=
  match hex_decode (trim_0x (vd_signature_hex vote)) with
  | Some b =>
      if String.length b =? 64 then
        let msg := vote_digest (de_package_canonical evidence) (vd_approved vote) (vd_block_height vote) in
        vk ← ok_or InvalidEdPubkey (vk_try_from pubkey);
        sig ← ok_or SignatureFailed (sig_try_from b);
        ensure (verify vk msg sig) SignatureFailed
      else Ok tt
  | None => Ok tt
  end.

(** The distance in time is only logged. *)
Definition validate_double_sign_evidence (evidence : DoubleSignEvidence) : result SlashError unit :=
  _ ← ensure (negb (Bool.eqb (vd_approved (de_vote1_details evidence)) (vd_approved (de_vote2_details evidence))))
        NotConflicting;
  pubkey ← parse_validator_pubkey (validator_pubkey_x (de_public_inputs evidence))
             (validator_pubkey_y (de_public_inputs evidence));
  _ ← verify_vote_sig evidence pubkey (de_vote1_details evidence);
  verify_vote_sig evidence pubkey (de_vote2_details evidence).

Definition compute_nullifier (p : DoubleSignPublicInputs) : string :=
  hex_encode (sha256 (validator_pubkey_x p +:+ ":" +:+ validator_pubkey_y p +:+ ":" +:+ dp_package_hash p +:+ ":" +:+
                      dp_vote1_hash p +:+ ":" +:+ dp_vote2_hash p)).

Definition circuit_from_evidence (evidence : DoubleSignEvidence) : result SlashError DoubleSignCircuit :=
  let p := de_public_inputs evidence in
  validator_pubkey ← parse_validator_pubkey (validator_pubkey_x p) (validator_pubkey_y p);
  package_hash ← hex32 (dp_package_hash p);
  vote1_hash ← hex32 (dp_vote1_hash p);
  vote2_hash ← hex32 (dp_vote2_hash p);
  _ ← ensure (negb (String.eqb vote1_hash vote2_hash)) EqualHashes;
  Ok (from_hashes (of_str validator_pubkey) (of_str package_hash) (of_str vote1_hash) (of_str vote2_hash)).

End Monitor.

(** ** Proofs in decimal *)

(** The affine coordinates of a proof: A.x A.y B.x.c0 B.x.c1 B.y.c0 B.y.c1 C.x C.y. *)
Class ProofText `{Groth16} := {
  coordinates : ZkProof → list N;
  from_coordinates : list N → ZkProof;         (* new_unchecked: a finite point *)
  fq_from_str : string → option N;             (* Fq::from_str *)
  fr_from_str : string → option Fr;            (* Fr::from_str *)
  fr_to_decimal : Fr → string;                 (* into_bigint().to_string() *)
}.

(** Documented behaviour: a field element is read back from its decimal text, the proofs that
    the prover makes have finite points. *)
Class ProofTextLaws `{ProofText} : Prop := {
  fr_text : ∀ x, fr_from_str (fr_to_decimal x) = Some x;
  fq_text : ∀ p n, n ∈ coordinates p → fq_from_str (fmt_N n) = Some n;
  coordinates_length : ∀ p, length (coordinates p) = 8;
  prove_finite : ∀ pk c seed p, g16_prove pk c seed = Some p → from_coordinates (coordinates p) = p;
}.

(** The names of protocol and curve are constants. *)
Record Groth16Proof := {
  gp_a : string * string;
  gp_b : (string * string) * (string * string);
  gp_c : string * string;
}.

Record ZKSlashingProof := {
  sp_proof : Groth16Proof;
  sp_public_inputs : list string;
  sp_offender : string;
  sp_nullifier : string;
  sp_timestamp : N;
}.

Section Proving.
Context `{!Crypto, GR : !Groth16, PT : !ProofText}.

Definition groth16_to_display (p : ZkProof) : Groth16Proof :=
  let c i := fmt_N (default 0%N (coordinates p !! i)) in
  {| gp_a := (c 0, c 1); gp_b := ((c 2, c 3), (c 4, c 5)); gp_c := (c 6, c 7) |}.

Definition display_to_groth16 (p : Groth16Proof) : result SlashError ZkProof :=
  ax ← ok_or FqDecimal (fq_from_str (gp_a p).1); ay ← ok_or FqDecimal (fq_from_str (gp_a p).2);
  bx0 ← ok_or FqDecimal (fq_from_str (gp_b p).1.1); bx1 ← ok_or FqDecimal (fq_from_str (gp_b p).1.2);
  by0 ← ok_or FqDecimal (fq_from_str (gp_b p).2.1); by1 ← ok_or FqDecimal (fq_from_str (gp_b p).2.2);
  cx ← ok_or FqDecimal (fq_from_str (gp_c p).1); cy ← ok_or FqDecimal (fq_from_str (gp_c p).2);
  Ok (from_coordinates [ax; ay; bx0; bx1; by0; by1; cx; cy]).

(** [generate_double_sign_proof] with the keys of the circuit at hand. *)
Definition generate_double_sign_proof (keys : ProvingKey * VerifyingKeyG) (seed now : N)
    (evidence : DoubleSignEvidence) : result SlashError ZKSlashingProof :=
  _ ← validate_double_sign_evidence evidence;
  circuit ← circuit_from_evidence evidence;
  proof ← ok_or ProveFailed (g16_prove keys.1 (DoubleSignC circuit) seed);
  let public_inputs := double_sign_public_inputs circuit in
  ok ← ok_or SelfVerify (g16_verify keys.2 public_inputs proof);
  _ ← ensure ok SelfVerify;
  Ok {| sp_proof := groth16_to_display proof; sp_public_inputs := fr_to_decimal <$> public_inputs;
        sp_offender := de_validator_address evidence;
        sp_nullifier := compute_nullifier (de_public_inputs evidence); sp_timestamp := now |}.

Fixpoint parse_inputs (l : list string) : result SlashError (list Fr) :=
  match l with
  | [] => Ok []
  | s :: l' => x ← ok_or FrDecimal (fr_from_str s); xs ← parse_inputs l'; Ok (x :: xs)
  end.

Definition verify_slashing_proof (keys : ProvingKey * VerifyingKeyG) (p : ZKSlashingProof)
    : result SlashError bool :=
  public_inputs ← parse_inputs (sp_public_inputs p);
  groth ← display_to_groth16 (sp_proof p);
  ok_or VerifyFailed (g16_verify keys.2 public_inputs groth).

End Proving.

(** ** The monitor finds conflicts *)
Section MonitorProperties.
Context `{!Crypto}.

(** The votes that are stored for a key: those that agree with the first one. *)
Definition stored (votes : list VoteRecord) (k : string * string) : list VoteRecord :=
  let mine := filter (λ v, vote_key v = k) votes in
  match mine with
  | [] => []
  | first :: _ => filter (λ v, vr_approved v = vr_approved first) mine
  end.

Lemma conflicting_same (l : list VoteRecord) (b : bool) (v : VoteRecord) :
  Forall (λ e, vr_approved e = b) l →
  conflicting l v = if Bool.eqb b (vr_approved v) then None else head l.
Proof.
  induction 1 as [|e l He _ IH]; cbn [conflicting head]; [by destruct (Bool.eqb _ _)|].
  rewrite He, IH. by destruct (Bool.eqb b (vr_approved v)).
Qed.

(** The first vote of a validator on a package. *)
Definition first_vote (votes : list VoteRecord) (k : string * string) : option VoteRecord :=
  head (filter (λ v, vote_key v = k) votes).

Lemma stored_snoc (votes : list VoteRecord) (v : VoteRecord) (k : string * string) :
  stored (votes ++ [v]) k =
  if decide (vote_key v = k) then
    match first_vote votes k with
    | None => [v]
    | Some f => stored votes k ++ if Bool.eqb (vr_approved f) (vr_approved v) then [v] else []
    end
  else stored votes k.
Proof.
  unfold stored, first_vote. rewrite filter_app, filter_cons, filter_nil.
  destruct (decide (vote_key v = k)) as [Hk|Hk]; [|by rewrite app_nil_r].
  destruct (filter (λ v, vote_key v = k) votes) as [|f l]; cbn [app head].
  - by rewrite filter_cons, decide_True.
  - rewrite app_comm_cons, filter_app. f_equal. rewrite filter_cons, filter_nil.
    destruct (decide (vr_approved v = vr_approved f)) as [He|He].
    + by rewrite He, Bool.eqb_reflx.
    + destruct (Bool.eqb (vr_approved f) (vr_approved v)) eqn:Hb; [|done].
      by apply Bool.eqb_prop in Hb; rewrite Hb in He.
Qed.

Lemma stored_first (votes : list VoteRecord) (k : string * string) :
  head (stored votes k) = first_vote votes k.
Proof.
  unfold stored, first_vote. destruct (filter _ votes) as [|f l]; [done|].
  by rewrite filter_cons, decide_True.
Qed.

Lemma stored_same (votes : list VoteRecord) (k : string * string) (f : VoteRecord) :
  first_vote votes k = Some f → Forall (λ e, vr_approved e = vr_approved f) (stored votes k).
Proof.
  unfold stored, first_vote. destruct (filter _ votes) as [|f' l]; [done|]. intros [= ->].
  apply Forall_forall. intros e He. by apply list_elem_of_filter in He as [He _].
Qed.

Definition entry_of (l : list VoteRecord) : option (list VoteRecord) :=
  match l with [] => None | _ => Some l end.

(** What [record_vote] answers, given the votes that are stored. *)
Lemma record_vote_stored (votes : list VoteRecord) (m : Monitor) (v : VoteRecord) :
  m !! vote_key v = entry_of (stored votes (vote_key v)) →
  record_vote m v =
  match first_vote votes (vote_key v) with
  | Some f => if Bool.eqb (vr_approved f) (vr_approved v)
              then (<[vote_key v := stored votes (vote_key v) ++ [v]]> m, None)
              else (m, Some (create_evidence f v))
  | None => (<[vote_key v := [v]]> m, None)
  end.
Proof.
  intros Hm. unfold record_vote. rewrite Hm. pose proof (stored_first votes (vote_key v)) as Hf.
  destruct (first_vote votes (vote_key v)) as [f|] eqn:Hfv.
  - pose proof (stored_same votes _ f Hfv) as Hs. destruct (stored votes (vote_key v)) as [|e l] eqn:He; [done|].
    injection Hf as ->. cbn [entry_of mbind option_bind default from_option id].
    rewrite (conflicting_same _ _ v Hs). by destruct (Bool.eqb _ _).
  - by destruct (stored votes (vote_key v)).
Qed.

Lemma monitor_state (votes : list VoteRecord) (k : string * string) :
  monitor_run votes !! k = entry_of (stored votes k).
Proof.
  revert k. induction votes as [|v votes IH] using rev_ind; intros k; [done|].
  unfold monitor_run in *. rewrite foldl_app. cbn [foldl]. rewrite (record_vote_stored votes _ v (IH _)), stored_snoc.
  destruct (decide (vote_key v = k)) as [<-|Hk].
  - pose proof (stored_first votes (vote_key v)) as Hf. destruct (first_vote votes (vote_key v)) as [f|].
    + destruct (Bool.eqb _ _); cbn [fst]; [rewrite lookup_insert_eq|by rewrite app_nil_r, IH].
      by destruct (stored votes (vote_key v)).
    + cbn [fst]. by rewrite lookup_insert_eq.
  - destruct (first_vote votes (vote_key v)) as [f|]; [destruct (Bool.eqb _ _)|]; cbn [fst];
      rewrite ?lookup_insert_ne by done; apply IH.
Qed.

(** The monitor reports a vote exactly when it contradicts the first vote of the same validator
    on the same package, whatever was recorded in between, and the evidence is about those two
    votes. *)
Theorem monitor_exact (votes : list VoteRecord) (v : VoteRecord) :
  (record_vote (monitor_run votes) v).2 =
  match first_vote votes (vote_key v) with
  | Some f => if Bool.eqb (vr_approved f) (vr_approved v) then None else Some (create_evidence f v)
  | None => None
  end.
Proof.
  rewrite (record_vote_stored votes _ v (monitor_state _ _)).
  destruct (first_vote votes (vote_key v)) as [f|]; [|done]. by destruct (Bool.eqb _ _).
Qed.

End MonitorProperties.

(** ** What evidence is worth *)
Section Evidence.
Context `{CR : !Crypto, CL : !CryptoLaws, GR : !Groth16, PT : !ProofText, PL : !ProofTextLaws}.

(** Completeness of the proof system for the circuit of Circuits.v: what satisfies it can be
    proved, and the proof verifies. *)
Definition keys_complete (keys : ProvingKey * VerifyingKeyG) : Prop :=
  ∀ c seed, double_sign_constraints (double_sign_inputs c) = true →
    ∃ p, g16_prove keys.1 (DoubleSignC c) seed = Some p ∧
         g16_verify keys.2 (double_sign_public_inputs c) p = Some true.

Lemma parse_inputs_display (l : list Fr) : parse_inputs (fr_to_decimal <$> l) = Ok l.
Proof using PL.
  induction l as [|x l IH]; [done|]. cbn [fmap list_fmap parse_inputs]. rewrite fr_text. cbn [ok_or mbind result_bind].
  by rewrite IH.
Qed.

Lemma display_roundtrip (p : ZkProof) :
  from_coordinates (coordinates p) = p → display_to_groth16 (groth16_to_display p) = Ok p.
Proof using PL.
  intros Hp. pose proof (coordinates_length p) as Hl. pose proof (fq_text p) as Hq.
  unfold display_to_groth16, groth16_to_display. cbn [gp_a gp_b gp_c fst snd].
  destruct (coordinates p) as [|a [|b [|c [|d [|e [|f [|g [|h [|]]]]]]]]]; try done.
  cbn [lookup list_lookup from_option id].
  rewrite !Hq by (rewrite !elem_of_cons; tauto). cbn [ok_or mbind result_bind]. by rewrite Hp.
Qed.

(** A proof that was generated verifies after its way through the decimal text. *)
Theorem slashing_proof_roundtrip (keys : ProvingKey * VerifyingKeyG) (seed now : N) (evidence : DoubleSignEvidence)
    (p : ZKSlashingProof) :
  generate_double_sign_proof keys seed now evidence = Ok p → verify_slashing_proof keys p = Ok true.
Proof using PL.
  unfold generate_double_sign_proof. intros Hg.
  apply bind_Ok in Hg as ([] & _ & Hg). apply bind_Ok in Hg as (c & _ & Hg).
  apply bind_Ok in Hg as (proof & Hp%ok_or_Ok & Hg). apply bind_Ok in Hg as (ok & Hok%ok_or_Ok & Hg).
  apply bind_Ok in Hg as ([] & ->%ensure_Ok & Hg).
  remember (fr_to_decimal <$> double_sign_public_inputs c) as inputs eqn:Hi in Hg. injection Hg as <-.
  unfold verify_slashing_proof. cbn [sp_public_inputs sp_proof]. rewrite Hi, parse_inputs_display. cbn [mbind result_bind].
  rewrite display_roundtrip by (by eapply prove_finite). cbn [mbind result_bind]. by rewrite Hok.
Qed.

(** Evidence against a key, with no signature at all. *)
Definition framing (key validator package hash1 hash2 : string) (height1 height2 : N) : DoubleSignEvidence :=
  {| de_public_inputs :=
       {| validator_pubkey_x := hex_encode key; validator_pubkey_y := "0"; dp_package_hash := hex_encode (sha256 package);
          dp_vote1_hash := hex_encode hash1; dp_vote2_hash := hex_encode hash2 |};
     de_witness_s := ("", ""); de_validator_address := validator; de_package_canonical := package;
     de_vote1_details := {| vd_approved := true; vd_timestamp := 0; vd_block_height := height1; vd_signature_hex := "" |};
     de_vote2_details := {| vd_approved := false; vd_timestamp := 0; vd_block_height := height2; vd_signature_hex := "" |} |}.

Lemma of_str_inj (a b : string) : of_str a = of_str b → a = b.
Proof. intros H. by rewrite <- (to_of_str a), H, to_of_str. Qed.

(** C14. Anybody can be framed: for every public key and every package there is evidence without a
    single signature that is validated, proved and verified as double signing by that key. *)
Theorem anyone_can_be_framed (keys : ProvingKey * VerifyingKeyG) (seed now : N)
    (key validator package hash1 hash2 : string) (height1 height2 : N) :
  keys_complete keys → hex_decode "" = Some "" → (∀ b, trim_0x (hex_encode b) = hex_encode b) →
  String.length key = 32 → String.length hash1 = 32 → String.length hash2 = 32 → hash1 ≠ hash2 →
  ∃ p, generate_double_sign_proof keys seed now (framing key validator package hash1 hash2 height1 height2) = Ok p ∧
       sp_offender p = validator ∧ verify_slashing_proof keys p = Ok true.
Proof using CL PL.
  intros Hk He Hx Hkey H1 H2 Hne.
  set (evidence := framing key validator package hash1 hash2 height1 height2).
  assert (∀ b : string, String.length b = 32 → hex32 (hex_encode b) = Ok b) as H32.
  { intros b Hb. unfold hex32. by rewrite Hx, hex_roundtrip; cbn; rewrite Hb. }
  assert (parse_validator_pubkey (hex_encode key) "0" = Ok key) as Hp.
  { unfold parse_validator_pubkey. rewrite Hx, hex_roundtrip. cbn. by rewrite Hkey. }
  assert (validate_double_sign_evidence evidence = Ok tt) as Hv.
  { unfold validate_double_sign_evidence, evidence, framing.
    cbn [de_public_inputs de_vote1_details de_vote2_details validator_pubkey_x validator_pubkey_y vd_approved].
    rewrite Hp. cbn [ensure negb Bool.eqb mbind result_bind]. unfold verify_vote_sig. cbn [vd_signature_hex].
    change (trim_0x "") with "". by rewrite He. }
  set (c := from_hashes (of_str key) (of_str (sha256 package)) (of_str hash1) (of_str hash2)).
  assert (circuit_from_evidence evidence = Ok c) as Hc.
  { unfold circuit_from_evidence, evidence, framing. cbn [de_public_inputs validator_pubkey_x validator_pubkey_y
      dp_package_hash dp_vote1_hash dp_vote2_hash]. rewrite Hp. cbn [mbind result_bind].
    rewrite !H32 by (done || apply sha256_length). cbn [mbind result_bind].
    by rewrite (proj2 (String.eqb_neq _ _) Hne). }
  destruct (Hk c seed) as (p & Hpr & Hvf).
  { apply double_sign_constraints_distinct; rewrite ?length_of_str; [done|done|]. intros Ho. by apply Hne, of_str_inj. }
  eexists. unfold verify_slashing_proof, generate_double_sign_proof. rewrite Hv. cbn [mbind result_bind].
  rewrite Hc. cbn [mbind result_bind]. rewrite Hpr. cbn [ok_or mbind result_bind]. rewrite Hvf.
  cbn [ok_or mbind result_bind ensure]. split; [done|]. split; [done|].
  cbn [sp_public_inputs sp_proof]. rewrite parse_inputs_display. cbn [mbind result_bind].
  rewrite display_roundtrip by (by eapply prove_finite). cbn [mbind result_bind]. by rewrite Hvf.
Qed.

(** Genuine evidence is refused: the signatures of the votes are over another message than the
    one that is checked, so evidence with two real signatures fails validation, unless a
    signature happens to verify for both. *)
Lemma real_signature_refused (evidence : DoubleSignEvidence) (key sig_bytes : string) (vk : VerifyingKey) (sig : Signature) :
  parse_validator_pubkey (validator_pubkey_x (de_public_inputs evidence))
    (validator_pubkey_y (de_public_inputs evidence)) = Ok key →
  vk_try_from key = Some vk →
  hex_decode (trim_0x (vd_signature_hex (de_vote1_details evidence))) = Some sig_bytes →
  String.length sig_bytes = 64 → sig_try_from sig_bytes = Some sig →
  verify vk (vote_digest (de_package_canonical evidence) (vd_approved (de_vote1_details evidence))
               (vd_block_height (de_vote1_details evidence))) sig = false →
  validate_double_sign_evidence evidence ≠ Ok tt.
Proof.
  intros Hp Hk Hs Hl Ht Hv. unfold validate_double_sign_evidence. rewrite Hp. intros Hok. res_inv.
  match goal with H : verify_vote_sig _ _ (de_vote1_details _) = Ok _ |- _ => unfold verify_vote_sig in H end.
  rewrite Hs, Hl in *. cbn [Nat.eqb] in *. rewrite Hk, Ht in *. res_inv. congruence.
Qed.

End Evidence.

(** ** Witnesses *)
Module DoubleSignWitness.
Import Toy ToyZk.

(** Coordinates are the toy words, the text of a field element its bytes. *)
#[export] Instance toy_proof_text : ProofText := {|
  coordinates := words; from_coordinates l := bool_decide (l = words true);
  fq_from_str := parse_uint u64_max; fr_from_str s := Some (of_str s); fr_to_decimal b := to_str b |}.

#[export] Instance toy_proof_text_laws : ProofTextLaws.
Proof.
  split.
  - intros x. cbn. unfold of_str, to_str. by rewrite String.list_ascii_of_string_of_list_ascii.
  - intros p n Hn. destruct p; cbn in Hn; repeat (apply elem_of_cons in Hn as [->|Hn]; [reflexivity|]);
      by apply not_elem_of_nil in Hn.
  - by intros [].
  - intros pk c seed p Hp. cbn in Hp. destruct (statement c); [|done]. injection Hp as <-. reflexivity.
Qed.

Definition keys0 : ProvingKey * VerifyingKeyG := ([], []).

Lemma toy_keys_complete : keys_complete keys0.
Proof.
  intros c seed Hc. exists true. split; [|done]. cbn [g16_prove toy_groth16 statement].
  rewrite bool_decide_eq_true_2; [done|].
  destruct (decide (vote1_hash_lo c = vote2_hash_lo c)) as [Hl|Hl]; [|by left]. right. intros Hh.
  unfold double_sign_inputs in Hc. cbn [fmap list_fmap double_sign_constraints] in Hc.
  rewrite Hl, Hh, !Z.sub_diag in Hc. by rewrite andb_comm in Hc.
Qed.

Definition victim : string := fit 32 "victim".

Definition frame0 : DoubleSignEvidence :=
  framing victim "v1" "npm:a@1.0.0" (fit 32 "x") (fit 32 "y") 1 2.

Lemma anyone_can_be_framed_witness :
  ∃ p, generate_double_sign_proof keys0 0 0 frame0 = Ok p ∧ sp_offender p = "v1" ∧ verify_slashing_proof keys0 p = Ok true.
Proof.
  apply (anyone_can_be_framed keys0 0 0 victim "v1" "npm:a@1.0.0" (fit 32 "x") (fit 32 "y") 1 2).
  - exact toy_keys_complete.
  - reflexivity.
  - intros b. destruct b as [|c b]; [reflexivity|].
    unfold trim_0x. cbn [hex_encode toy_crypto encode]. destruct c as [[] [] [] [] [] [] [] []]; reflexivity.
  - reflexivity.
  - reflexivity.
  - reflexivity.
  - discriminate.
Defined.

Definition proof0 : ZKSlashingProof :=
  match generate_double_sign_proof keys0 0 0 frame0 with
  | Ok p => p
  | Err _ => {| sp_proof := {| gp_a := ("", ""); gp_b := (("", ""), ("", "")); gp_c := ("", "") |};
                sp_public_inputs := []; sp_offender := ""; sp_nullifier := ""; sp_timestamp := 0 |}
  end.

Lemma slashing_proof_roundtrip_witness : verify_slashing_proof keys0 proof0 = Ok true.
Proof. apply (slashing_proof_roundtrip keys0 0 0 frame0 proof0). vm_compute. reflexivity. Defined.

End DoubleSignWitness.
