(* ===== verification/Risk.v ===== *)
(** How a validator decides on a package (validator/src/risk.rs, reputation.rs, bundle.rs): from
    the findings of the analysis stages and the publisher's record to score, disposition and
    evidence digest.

    The findings and the scores of the stages are arguments; [Report] composes the stages.
    Environment variables are a function.  [i32] arithmetic wraps, as in a release build. *)

From S2P Require Import Prelude Text Crypto Types ChainStore EvidenceVotes PublisherIndex.
From Stdlib Require Import Ascii NArith ZArith.

(** [f64] scores: a literal [dec n k] is the double nearest to [n / 10^k]; [round_u8] is
    [.round().clamp(0.0, 100.0) as u8], [fmt0] and [fmt2] the
    formats [{:.0}] and [{:.2}]. *)
Class Scores := {
  Score : Type;
  dec : N → N → Score;
  score_add : Score → Score → Score;
  score_mul : Score → Score → Score;
  score_div : Score → Score → Score;
  score_max : Score → Score → Score;
  score_min : Score → Score → Score;
  score_eqb : Score → Score → bool;
  score_leb : Score → Score → bool;
  score_ltb : Score → Score → bool;
  score_neg : Score → Score;
  score_log2 : Score → Score;
  round_u8 : Score → N;
  fmt0 : Score → string;
  fmt2 : Score → string;
  parse_f64 : string → option Score;
}.

(** What the doubles satisfy of it: whole numbers up to 100 are exact, rounding is monotone and
    clamped. *)
Class ScoresLaws `{Scores} : Prop := {
  round_u8_le s : (round_u8 s ≤ 100)%N;
  round_u8_max a b : round_u8 (score_max a b) = N.max (round_u8 a) (round_u8 b);
  round_u8_dec n : (n ≤ 100)%N → round_u8 (dec n 0) = n;
}.

Definition i32_wrap (z : Z) : Z := ((z + 2 ^ 31) mod 2 ^ 32 - 2 ^ 31)%Z.

(** [format!("{}", n)] of a signed integer. *)
Definition fmt_Z (z : Z) : string := pretty z.

(** ** Reputation *)

Record ReputationAssessment := {
  confidence_delta : Z;
  revoked_pgp_fps : list string;
}.

(** The answer to [GET /v1/publishers/:pubkey]. *)
Record PublisherRecord := {
  pr_total_packages : N;
  pr_verified_count : N;
  pr_revoked_count : N;
  pr_stake_wei : N;
  pr_first_seen_days : N;
  pr_revoked_pgp_fps : list string;
}.

Definition revocation_delta (rec : PublisherRecord) : Z :=
  if (0 <? pr_revoked_count rec)%N then i32_wrap (i32_wrap (Z.of_N (pr_revoked_count rec)) * -25) else 0%Z.

Definition track_record_delta (rec : PublisherRecord) : Z :=
  if (10 <=? pr_verified_count rec)%N then 20%Z
  else if (3 <=? pr_verified_count rec)%N then 10%Z
  else if (pr_verified_count rec =? 0)%N && (pr_total_packages rec =? 0)%N then (-10)%Z
  else 0%Z.

Definition stake_delta (rec : PublisherRecord) : Z :=
  let stake_eth := (pr_stake_wei rec / 10 ^ 18)%N in
  if (5 <=? stake_eth)%N then 15%Z else if (1 <=? stake_eth)%N then 5%Z else 0%Z.

Definition age_delta (rec : PublisherRecord) : Z :=
  if (365 <=? pr_first_seen_days rec)%N then 10%Z
  else if (pr_first_seen_days rec <? 7)%N then (-15)%Z
  else 0%Z.

Definition clamp (lo hi z : Z) : Z := Z.max lo (Z.min hi z).

(** [bundle.rs]: the identifiers of the analysis artifacts; [epoch] is [osv_bundle_epoch]. *)
Definition env_or (env : string → option string) (key dflt : string) : string :=
  match trim <$> env key with Some value => if is_empty value then dflt else value | None => dflt end.

Definition current_bundles (env : string → option string) (epoch : string) : AnalysisBundleRefs := {|
  policy_bundle_id := env_or env "CREG_POLICY_BUNDLE_ID" "policy-v1";
  feature_schema_id := env_or env "CREG_FEATURE_SCHEMA_ID" "features-v1";
  expert_bundle_id := env_or env "CREG_EXPERT_BUNDLE_ID" "experts-v1";
  embedding_model_id := env_or env "CREG_EMBEDDING_MODEL_ID" "embeddings-v1";
  index_epoch := env_or env "CREG_INDEX_EPOCH" "index-epoch-0";
  threshold_profile_id := env_or env "CREG_THRESHOLD_PROFILE_ID" "thresholds-v1";
  llm_prompt_profile_id := env_or env "CREG_LLM_PROMPT_PROFILE_ID" "llm-prompt-v1";
  osv_snapshot_epoch := epoch;
|}.

Definition build_assessment (rec : PublisherRecord) : ReputationAssessment :=
  let delta := i32_wrap (i32_wrap (i32_wrap (revocation_delta rec + track_record_delta rec) + stake_delta rec)
                         + age_delta rec) in
  {| confidence_delta := clamp (-100) 100 delta; revoked_pgp_fps := pr_revoked_pgp_fps rec |}.

(** One HTTP attempt. *)
Inductive PublisherReply :=
| Found (rec : PublisherRecord)
| Undecodable | NotFound | HttpStatus | TransportError.

(** The loop of three attempts; [reply] gives the answers in order. *)
Fixpoint attempt_publisher (attempts : nat) (reply : nat → PublisherReply) (i : nat) : ReputationAssessment :=
  match attempts with
  | O => {| confidence_delta := -25; revoked_pgp_fps := [] |}
  | S attempts' =>
      match reply i with
      | Found rec => build_assessment rec
      | NotFound => {| confidence_delta := -10; revoked_pgp_fps := [] |}
      | _ => attempt_publisher attempts' reply (S i)
      end
  end.

Definition assess_publisher (reply : nat → PublisherReply) : ReputationAssessment := attempt_publisher 3 reply 0.

(** What the node answers: the statistics of its index ([get_publisher] of api.rs), which have no
    list of revoked PGP keys, so that field is the default. *)
Definition record_of_stats (st : PublisherStats) : PublisherRecord :=
  {| pr_total_packages := total_packages st; pr_verified_count := verified_count st;
     pr_revoked_count := revoked_count st; pr_stake_wei := stake_wei st;
     pr_first_seen_days := first_seen_days st; pr_revoked_pgp_fps := [] |}.

Definition node_reply (ix : PublisherIndex) (pubkey : string) : PublisherReply :=
  match index_get ix pubkey with Some st => Found (record_of_stats st) | None => NotFound end.

(** ** Risk *)

Inductive RiskBand := BandLow | BandGuarded | BandElevated | BandHigh | BandCritical.
Inductive RiskDisposition := RdAccept | RdReview | RdBlock.

#[export] Instance risk_disposition_eq_dec : EqDecision RiskDisposition.
Proof. solve_decision. Defined.

Definition fmt_band (b : RiskBand) : string :=
  match b with
  | BandLow => "low" | BandGuarded => "guarded" | BandElevated => "elevated" | BandHigh => "high"
  | BandCritical => "critical"
  end.

Definition fmt_disposition (d : RiskDisposition) : string :=
  match d with RdAccept => "accept" | RdReview => "review" | RdBlock => "block" end.

(** The bundles of a summary are those of the validator; the fields that only the log uses are
    left out. *)
Record RiskSummary := {
  rs_score : N;
  rs_deterministic_score : N;
  rs_advisory_score : N;
  rs_ensemble_score : N;
  rs_band : RiskBand;
  rs_disposition : RiskDisposition;
  rs_deterministic_block : bool;
  rs_llm_review_recommended : bool;
  rs_llm_review_used : bool;
  rs_deterministic_findings : nat;
  rs_advisory_findings : nat;
  rs_critical_findings : nat;
  rs_high_findings : nat;
  rs_medium_findings : nat;
  rs_low_findings : nat;
  rs_reputation_delta : Z;
  rs_evidence_digest : string;
  rs_reasons : list string;
}.

Record RiskAggregator := { block_threshold : N; review_threshold : N; llm_review_threshold : N }.

Definition env_u8 (env : string → option string) (key : string) (dflt : N) : N :=
  default dflt (env key ≫= parse_uint 255).

Definition env_truthy (env : string → option string) (key : string) : bool :=
  match env key with
  | Some value => String.eqb value "1" || eq_ignore_ascii_case value "true"
  | None => false
  end.

Definition default_aggregator (env : string → option string) : RiskAggregator :=
  {| block_threshold := env_u8 env "CREG_RISK_BLOCK_THRESHOLD" 85;
     review_threshold := env_u8 env "CREG_RISK_REVIEW_THRESHOLD" 55;
     llm_review_threshold := env_u8 env "CREG_RISK_LLM_THRESHOLD" 40 |}.

Definition allow_testnet_dev_sandbox_bypass (env : string → option string) : bool :=
  env_truthy env "CREG_TESTNET" && negb (env_truthy env "CREG_PRODUCTION").

(** [osv_block] is [ml_validator::osv_block_critical_enabled()]. *)
Definition is_deterministic_finding (osv_block : bool) (id : string) : bool :=
  if starts_with "OSV" id then String.eqb id "OSV002" && osv_block
  else negb (String.eqb id "SA011" || String.eqb id "SA012") && negb (starts_with "LLM" id).

Definition severity_rank (s : FindingSeverity) : N :=
  match s with Critical => 4 | High => 3 | Medium => 2 | Low => 1 end.

Definition fmt_severity (s : FindingSeverity) : string :=
  match s with Critical => "Critical" | High => "High" | Medium => "Medium" | Low => "Low" end.

Definition line_of (f : Finding) : N := default 0%N (finding_line f).

(** The order of [sort_by_key]: severity downwards, then identifier, file and line. *)
Definition reason_le (a b : Finding) : bool :=
  let ra := severity_rank (finding_severity a) in
  let rb := severity_rank (finding_severity b) in
  (rb <? ra)%N ||
  (ra =? rb)%N &&
  (str_lt (finding_id a) (finding_id b) ||
   String.eqb (finding_id a) (finding_id b) &&
   (str_lt (finding_file a) (finding_file b) ||
    String.eqb (finding_file a) (finding_file b) && (line_of a <=? line_of b)%N)).

Definition build_reasons (findings : list Finding) (reputation_delta : Z) : list string :=
  let reasons := (λ f, "[" +:+ finding_id f +:+ "] " +:+ finding_title f) <$> take 5 (sort_by reason_le findings) in
  let reasons := reasons ++
    if (reputation_delta <? 0)%Z
    then ["Publisher reputation delta " +:+ fmt_Z reputation_delta +:+ " increases deterministic risk"] else [] in
  match reasons with [] => ["No deterministic blockers detected"] | _ => reasons end.

Definition evidence_item (f : Finding) : string :=
  finding_id f +:+ "|" +:+ fmt_severity (finding_severity f) +:+ "|" +:+ finding_file f +:+ "|" +:+
  fmt_N (line_of f) +:+ "|" +:+ finding_title f.

Definition build_evidence_digest `{!Crypto} (package : PackageId) (findings : list Finding)
    (bundle_set : AnalysisBundleRefs) (reputation_delta : Z) (deterministic_score : N) : string :=
  sha256_hex (join "::"
    [canonical package; policy_bundle_id bundle_set; feature_schema_id bundle_set; expert_bundle_id bundle_set;
     embedding_model_id bundle_set; index_epoch bundle_set; threshold_profile_id bundle_set;
     osv_snapshot_epoch bundle_set; fmt_Z reputation_delta; fmt_N deterministic_score;
     join "||" (sort_strings (evidence_item <$> findings))]).

Definition of_severity (s : FindingSeverity) (findings : list Finding) : list Finding :=
  filter (λ f, finding_severity f = s) findings.

(** [score] before the clamp. *)
Definition raw_score (bypass : bool) (findings : list Finding) (deterministic_score : N) (delta : Z) : Z :=
  let add a b := i32_wrap (a + b)%Z in
  let times n k := i32_wrap (i32_wrap (Z.of_nat n) * k)%Z in
  let blocking f := negb (bypass && String.eqb (finding_id f) "SB012") in
  let score := Z.of_N deterministic_score in
  let score := add score (times (length (of_severity Critical findings)) 25%Z) in
  let score := add score (times (length (filter (λ f, blocking f = true) (of_severity High findings))) 15%Z) in
  let score := add score (times (length (of_severity Medium findings)) 5%Z) in
  let score := add score (i32_wrap (Z.of_nat (length (of_severity Low findings)))) in
  if (delta <? 0)%Z then add score (Z.quot (i32_wrap (i32_wrap (- delta) + 4)) 5)
  else i32_wrap (score - Z.quot delta 20).

Definition band_of (score : N) : RiskBand :=
  if (score <=? 19)%N then BandLow else if (score <=? 44)%N then BandGuarded
  else if (score <=? 69)%N then BandElevated else if (score <=? 89)%N then BandHigh else BandCritical.

Record RiskConfig := { rc_aggregator : RiskAggregator; rc_bypass : bool; rc_osv_block : bool }.

Section Summary.
Context `{!Crypto, !Scores}.

(** [llm_degraded] is the flag of the review, [None] when there is none. *)
Definition summarize (cfg : RiskConfig) (package : PackageId) (findings : list Finding)
    (deterministic_score advisory_score ensemble_score : Score) (llm_degraded : option bool)
    (bundle_set : AnalysisBundleRefs) (reputation : ReputationAssessment) : RiskSummary :=
  let agg := rc_aggregator cfg in
  let deterministic := filter (λ f, is_deterministic_finding (rc_osv_block cfg) (finding_id f) = true) findings in
  let critical := length (of_severity Critical deterministic) in
  let high := length (of_severity High deterministic) in
  let det := round_u8 deterministic_score in
  let adv := round_u8 advisory_score in
  let delta := confidence_delta reputation in
  let score := Z.to_N (clamp 0 100 (raw_score (rc_bypass cfg) deterministic det delta)) in
  let deterministic_block := (0 <? critical)%nat || (block_threshold agg <=? score)%N in
  let llm_used := match llm_degraded with Some degraded => negb degraded | None => false end in
  {| rs_score := score; rs_deterministic_score := det; rs_advisory_score := adv;
     rs_ensemble_score := round_u8 ensemble_score; rs_band := band_of score;
     rs_disposition :=
       if deterministic_block then RdBlock
       else if (review_threshold agg <=? score)%N || (0 <? high)%nat || (review_threshold agg <=? adv)%N
       then RdReview else RdAccept;
     rs_deterministic_block := deterministic_block;
     rs_llm_review_recommended := negb llm_used && (llm_review_threshold agg <=? N.max det adv)%N;
     rs_llm_review_used := llm_used;
     rs_deterministic_findings := length deterministic;
     rs_advisory_findings := length findings - length deterministic;
     rs_critical_findings := critical; rs_high_findings := high;
     rs_medium_findings := length (of_severity Medium deterministic);
     rs_low_findings := length (of_severity Low deterministic);
     rs_reputation_delta := delta;
     rs_evidence_digest := build_evidence_digest package deterministic bundle_set delta det;
     rs_reasons := build_reasons deterministic delta |}.

Definition primary_reason (s : RiskSummary) : string :=
  match rs_reasons s with
  | r :: _ => r
  | [] => "Deterministic risk band '" +:+ fmt_band (rs_band s) +:+ "' (score " +:+ fmt_N (rs_score s) +:+ ")"
  end.

Definition to_common_summary (s : RiskSummary) : DeterministicRiskSummary :=
  {| drs_score := rs_score s; drs_deterministic_score := rs_deterministic_score s;
     drs_advisory_score := rs_advisory_score s; drs_band := fmt_band (rs_band s);
     drs_disposition := fmt_disposition (rs_disposition s);
     drs_deterministic_findings := rs_deterministic_findings s; drs_advisory_findings := rs_advisory_findings s;
     drs_critical_findings := rs_critical_findings s; drs_high_findings := rs_high_findings s;
     drs_medium_findings := rs_medium_findings s; drs_low_findings := rs_low_findings s;
     drs_reasons := rs_reasons s |}.

Inductive FinalDecision :=
| DApprove (confidence : N)
| DApproveWithWarning (warning : string) (confidence : N)
| DReject (reason : string) (confidence : N).

Definition is_reject (d : FinalDecision) : bool := match d with DReject _ _ => true | _ => false end.

Definition decide_risk (s : RiskSummary) : FinalDecision :=
  match rs_disposition s with
  | RdBlock => DReject (primary_reason s) (N.max (rs_score s) 70)
  | RdReview =>
      DApproveWithWarning
        ("Deterministic risk band '" +:+ fmt_band (rs_band s) +:+ "' (score " +:+ fmt_N (rs_score s) +:+
         ") requires review: " +:+ primary_reason s)
        (N.max (90 - rs_score s / 2) 20)
  | RdAccept => DApprove (N.max (95 - rs_score s / 2) 35)
  end.

End Summary.

(** ** Properties *)

Definition disposition_rank (d : RiskDisposition) : nat := match d with RdAccept => 0 | RdReview => 1 | RdBlock => 2 end.

Lemma i32_wrap_id (z : Z) : (- 2 ^ 31 ≤ z < 2 ^ 31)%Z → i32_wrap z = z.
Proof. intros Hz. unfold i32_wrap. rewrite Z.mod_small; lia. Qed.

Definition penalty (delta : Z) : Z := if (delta <? 0)%Z then ((- delta + 4) / 5)%Z else (- (delta / 20))%Z.

Definition blocking_high (bypass : bool) (f : Finding) : bool :=
  bool_decide (finding_severity f = High) && negb (bypass && String.eqb (finding_id f) "SB012").

Definition weight (bypass : bool) (f : Finding) : Z :=
  match finding_severity f with
  | Critical => 25 | High => if bypass && String.eqb (finding_id f) "SB012" then 0 else 15 | Medium => 5 | Low => 1
  end%Z.

(** The sum that [raw_score] computes. *)
Definition total (w : Finding → Z) (l : list Finding) : Z := foldr (λ f z, w f + z)%Z 0%Z l.

Lemma total_bounds (bypass : bool) (l : list Finding) : (0 ≤ total (weight bypass) l ≤ 25 * Z.of_nat (length l))%Z.
Proof.
  induction l as [|f l IH]; cbn [total foldr length]; [lia|]. fold (total (weight bypass) l).
  assert (0 ≤ weight bypass f ≤ 25)%Z; [|lia].
  unfold weight. destruct (finding_severity f); try lia. destruct (_ && _); lia.
Qed.

Lemma total_by_severity (bypass : bool) (l : list Finding) :
  total (weight bypass) l =
    (Z.of_nat (length (of_severity Critical l)) * 25
     + Z.of_nat (length (filter (λ f, negb (bypass && String.eqb (finding_id f) "SB012") = true) (of_severity High l))) * 15
     + Z.of_nat (length (of_severity Medium l)) * 5 + Z.of_nat (length (of_severity Low l)))%Z.
Proof.
  unfold of_severity. induction l as [|f l IH]; [done|]. cbn [total foldr]. fold (total (weight bypass) l).
  rewrite IH. clear IH. unfold weight. rewrite !filter_cons.
  destruct (finding_severity f) eqn:Hs; repeat (destruct decide as [?|?]; [try discriminate|try congruence]);
    try (rewrite filter_cons; destruct (bypass && _)); repeat (destruct decide as [?|?]; [try discriminate|try done]);
    cbn [length negb]; lia.
Qed.

Lemma sublist_counts (s : FindingSeverity) (l : list Finding) : length (of_severity s l) ≤ length l.
Proof. apply length_filter. Qed.

(** Without overflow, the score is the deterministic score of the stages, the weights of the
    findings and the penalty of the publisher. *)
Lemma raw_score_eq (bypass : bool) (l : list Finding) (det : N) (delta : Z) :
  (Z.of_nat (length l) ≤ 2 ^ 24)%Z → (det ≤ 100)%N → (-100 ≤ delta ≤ 100)%Z →
  raw_score bypass l det delta = (Z.of_N det + total (weight bypass) l + penalty delta)%Z.
Proof.
  intros Hl Hd Hr. pose proof (total_bounds bypass l) as Ht. rewrite total_by_severity in *.
  pose proof (sublist_counts Critical l). pose proof (sublist_counts High l).
  pose proof (sublist_counts Medium l). pose proof (sublist_counts Low l).
  unfold raw_score, penalty. cbv zeta.
  pose proof (length_filter (λ f, negb (bypass && String.eqb (finding_id f) "SB012") = true) (of_severity High l)).
  destruct (Z.ltb_spec delta 0); repeat rewrite i32_wrap_id; Z.to_euclidean_division_equations; lia.
Qed.

Lemma total_submseteq (bypass : bool) (l k : list Finding) : l ⊆+ k → (total (weight bypass) l ≤ total (weight bypass) k)%Z.
Proof.
  intros H. apply submseteq_Permutation in H as [r H].
  assert (∀ l1 l2, l1 ≡ₚ l2 → total (weight bypass) l1 = total (weight bypass) l2) as Hp.
  { induction 1; cbn [total foldr] in *; unfold total in *; lia. }
  rewrite (Hp _ _ H). clear Hp H. pose proof (total_bounds bypass r). induction l as [|f l IH]; cbn [total foldr app].
  - apply total_bounds.
  - fold (total (weight bypass) l). fold (total (weight bypass) (l ++ r)). lia.
Qed.

Lemma penalty_antitone (d e : Z) : (d ≤ e)%Z → (penalty e ≤ penalty d)%Z.
Proof. intros H. unfold penalty. destruct (Z.ltb_spec d 0), (Z.ltb_spec e 0); Z.to_euclidean_division_equations; lia. Qed.

Lemma filter_length_submseteq {A : Type} (p : A → Prop) `{∀ x, Decision (p x)} (l k : list A) :
  l ⊆+ k → length (filter p l) ≤ length (filter p k).
Proof.
  intros H0. apply submseteq_Permutation in H0 as [r H0]. rewrite (filter_Permutation p _ _ H0), filter_app, length_app. lia.
Qed.

Lemma filter_submseteq' {A : Type} (p : A → Prop) `{∀ x, Decision (p x)} (l k : list A) :
  l ⊆+ k → filter p l ⊆+ filter p k.
Proof.
  intros H0. apply submseteq_Permutation in H0 as [r H0].
  rewrite (filter_Permutation p _ _ H0), filter_app. by apply submseteq_inserts_r.
Qed.

Lemma clamp_range (z : Z) : (0 ≤ clamp 0 100 z ≤ 100)%Z.
Proof. unfold clamp. lia. Qed.

Lemma clamp_mono (a b : Z) : (a ≤ b)%Z → (clamp 0 100 a ≤ clamp 0 100 b)%Z.
Proof. unfold clamp. lia. Qed.

Section Properties.
Context `{!Crypto, !Scores}.

Definition deterministic_findings (cfg : RiskConfig) (findings : list Finding) : list Finding :=
  filter (λ f, is_deterministic_finding (rc_osv_block cfg) (finding_id f) = true) findings.

Lemma rank_le (d : RiskDisposition) : disposition_rank d ≤ disposition_rank RdBlock.
Proof. destruct d; cbn; lia. Qed.

(** The disposition from the counts of Critical and High findings and the scores. *)
Lemma disposition_mono (block review : N) (c c' h h' : nat) (sc sc' adv adv' : N) :
  c ≤ c' → h ≤ h' → (sc ≤ sc')%N → (adv ≤ adv')%N →
  disposition_rank (if (0 <? c)%nat || (block <=? sc)%N then RdBlock
                    else if (review <=? sc)%N || (0 <? h)%nat || (review <=? adv)%N then RdReview else RdAccept) ≤
  disposition_rank (if (0 <? c')%nat || (block <=? sc')%N then RdBlock
                    else if (review <=? sc')%N || (0 <? h')%nat || (review <=? adv')%N then RdReview else RdAccept).
Proof.
  intros Hc Hh Hs Ha.
  destruct (((0 <? c')%nat || (block <=? sc')%N)) eqn:H1; [apply rank_le|].
  apply orb_false_iff in H1 as [H1 H2]. apply Nat.ltb_ge in H1. apply N.leb_gt in H2.
  rewrite (proj2 (Nat.ltb_ge 0 c)), (proj2 (N.leb_gt block sc)) by lia. cbn [orb].
  destruct ((review <=? sc')%N || (0 <? h')%nat || (review <=? adv')%N) eqn:H3; [case_match; cbn; lia|].
  apply orb_false_iff in H3 as [[H3 H4]%orb_false_iff H5]. apply Nat.ltb_ge in H4. apply N.leb_gt in H3, H5.
  rewrite (proj2 (Nat.ltb_ge 0 h)), (proj2 (N.leb_gt review sc)), (proj2 (N.leb_gt review adv)) by lia. done.
Qed.

(** More evidence never helps a package: if a report has at least the findings of another
    one, and no better scores and no better reputation, then its risk score is not lower and its
    disposition not milder. *)
Theorem more_evidence_never_helps (cfg : RiskConfig) (pkg : PackageId) (l k : list Finding)
    (det det' adv adv' ens ens' : Score) (llm llm' : option bool) (b b' : AnalysisBundleRefs)
    (rep rep' : ReputationAssessment) :
  l ⊆+ k → (Z.of_nat (length k) ≤ 2 ^ 24)%Z →
  (round_u8 det ≤ round_u8 det' ≤ 100)%N → (round_u8 adv ≤ round_u8 adv')%N →
  (-100 ≤ confidence_delta rep' ≤ confidence_delta rep)%Z → (confidence_delta rep ≤ 100)%Z →
  let s := summarize cfg pkg l det adv ens llm b rep in
  let s' := summarize cfg pkg k det' adv' ens' llm' b' rep' in
  (rs_score s ≤ rs_score s')%N ∧ disposition_rank (rs_disposition s) ≤ disposition_rank (rs_disposition s').
Proof.
  intros Hsub Hlen Hdet Hadv Hrep Hrep' s s'.
  pose proof (filter_submseteq' (λ f, is_deterministic_finding (rc_osv_block cfg) (finding_id f) = true) l k Hsub) as Hd.
  fold (deterministic_findings cfg l) in Hd. fold (deterministic_findings cfg k) in Hd.
  assert (rs_score s ≤ rs_score s')%N as Hs.
  { subst s s'. cbn [summarize rs_score]. fold (deterministic_findings cfg l) (deterministic_findings cfg k).
    apply Z2N.inj_le; [apply clamp_range|apply clamp_range|]. apply clamp_mono.
    pose proof (length_filter (λ f, is_deterministic_finding (rc_osv_block cfg) (finding_id f) = true) k) as Hk.
    fold (deterministic_findings cfg k) in Hk. pose proof (submseteq_length _ _ Hd) as Hl.
    rewrite !raw_score_eq by lia.
    pose proof (total_submseteq (rc_bypass cfg) _ _ Hd). pose proof (penalty_antitone _ _ (proj2 Hrep)). lia. }
  split; [done|].
  pose proof (filter_length_submseteq (λ f, finding_severity f = Critical) _ _ Hd) as Hc.
  pose proof (filter_length_submseteq (λ f, finding_severity f = High) _ _ Hd) as Hh.
  subst s s'. cbn [summarize rs_score] in Hs. cbn [summarize rs_disposition].
  unfold of_severity in *. fold (deterministic_findings cfg l) (deterministic_findings cfg k) in *.
  set (sc := Z.to_N (clamp 0 100 (raw_score _ (deterministic_findings cfg l) _ _))) in *.
  set (sc' := Z.to_N (clamp 0 100 (raw_score _ (deterministic_findings cfg k) _ _))) in *.
  by apply disposition_mono.
Qed.

(** The order in which the stages report their findings does not matter: reports with the
    same findings have the same evidence digest, score, band, disposition and counts. *)
Theorem evidence_order_irrelevant (cfg : RiskConfig) (pkg : PackageId) (l k : list Finding)
    (det adv ens : Score) (llm : option bool) (b : AnalysisBundleRefs) (rep : ReputationAssessment) :
  l ≡ₚ k →
  let s := summarize cfg pkg l det adv ens llm b rep in
  let s' := summarize cfg pkg k det adv ens llm b rep in
  rs_evidence_digest s = rs_evidence_digest s' ∧ rs_score s = rs_score s' ∧ rs_band s = rs_band s' ∧
  rs_disposition s = rs_disposition s' ∧ rs_deterministic_block s = rs_deterministic_block s' ∧
  rs_deterministic_findings s = rs_deterministic_findings s' ∧ rs_advisory_findings s = rs_advisory_findings s' ∧
  rs_critical_findings s = rs_critical_findings s' ∧ rs_high_findings s = rs_high_findings s' ∧
  rs_medium_findings s = rs_medium_findings s' ∧ rs_low_findings s = rs_low_findings s'.
Proof.
  intros Hp. cbv zeta.
  pose proof (filter_Permutation (λ f, is_deterministic_finding (rc_osv_block cfg) (finding_id f) = true) _ _ Hp) as Hd.
  fold (deterministic_findings cfg l) (deterministic_findings cfg k) in Hd.
  assert (∀ s, of_severity s (deterministic_findings cfg l) ≡ₚ of_severity s (deterministic_findings cfg k)) as Hs
    by (intros s; by apply filter_Permutation).
  assert (∀ d e, raw_score (rc_bypass cfg) (deterministic_findings cfg l) d e =
                 raw_score (rc_bypass cfg) (deterministic_findings cfg k) d e) as Hr.
  { intros d e. unfold raw_score. rewrite !(λ s, Permutation_length (Hs s)).
    by rewrite (Permutation_length (filter_Permutation (λ f, negb (rc_bypass cfg && String.eqb (finding_id f) "SB012") = true)
                                      _ _ (Hs High))). }
  cbn [summarize rs_evidence_digest rs_score rs_band rs_disposition rs_deterministic_block rs_deterministic_findings
       rs_advisory_findings rs_critical_findings rs_high_findings rs_medium_findings rs_low_findings].
  fold (deterministic_findings cfg l) (deterministic_findings cfg k).
  rewrite Hr, !(λ s, Permutation_length (Hs s)), (Permutation_length Hd), (Permutation_length Hp).
  split; [|done]. unfold build_evidence_digest.
  by rewrite (sort_strings_unique _ _ (fmap_Permutation evidence_item _ _ Hd)).
Qed.

Lemma rs_score_le (cfg : RiskConfig) (pkg : PackageId) (l : list Finding) (det adv ens : Score) (llm : option bool)
    (b : AnalysisBundleRefs) (rep : ReputationAssessment) :
  (rs_score (summarize cfg pkg l det adv ens llm b rep) ≤ 100)%N.
Proof. cbn [summarize rs_score]. unfold clamp. lia. Qed.

Definition confidence (d : FinalDecision) : N :=
  match d with DApprove c | DApproveWithWarning _ c | DReject _ c => c end.

(** Confidence is a percentage, and the vote is a rejection exactly when the package is blocked. *)
Lemma decide_risk_spec (s : RiskSummary) :
  (rs_score s ≤ 100)%N →
  (confidence (decide_risk s) ≤ 100)%N ∧ is_reject (decide_risk s) = bool_decide (rs_disposition s = RdBlock).
Proof.
  intros Hs.
  unfold decide_risk. destruct (rs_disposition s); cbn [confidence is_reject]; (split; [|by case_bool_decide]).
  all: repeat apply N.max_lub; try lia. all: etransitivity; [apply N.le_sub_l|lia].
Qed.

(** A blocked package has a deterministic Critical finding or a score at the threshold, and
    conversely. *)
Lemma blocked_iff (cfg : RiskConfig) (pkg : PackageId) (l : list Finding) (det adv ens : Score) (llm : option bool)
    (b : AnalysisBundleRefs) (rep : ReputationAssessment) :
  let s := summarize cfg pkg l det adv ens llm b rep in
  rs_disposition s = RdBlock ↔
    (∃ f, f ∈ l ∧ is_deterministic_finding (rc_osv_block cfg) (finding_id f) = true ∧ finding_severity f = Critical) ∨
    (block_threshold (rc_aggregator cfg) ≤ rs_score s)%N.
Proof.
  cbv zeta. set (s := summarize _ _ _ _ _ _ _ _ _).
  assert (rs_disposition s = RdBlock ↔ rs_deterministic_block s = true) as ->.
  { subst s. cbn [summarize rs_disposition rs_deterministic_block].
    destruct (_ || (block_threshold _ <=? _)%N); [done|]. split; [|done]. by destruct (_ || _ || _). }
  assert (rs_deterministic_block s =
    (0 <? length (of_severity Critical (deterministic_findings cfg l)))%nat || (block_threshold (rc_aggregator cfg) <=? rs_score s)%N)
    as -> by done.
  rewrite orb_true_iff, Nat.ltb_lt, N.leb_le. f_equiv. unfold of_severity, deterministic_findings. split.
  - intros Hl. destruct (filter _ _) as [|f r] eqn:Hf; [cbn in Hl; lia|].
    assert (f ∈ f :: r) as Hin by left. rewrite <- Hf in Hin.
    apply list_elem_of_filter in Hin as [Hc Hin]. apply list_elem_of_filter in Hin as [Hd Hin]. eauto.
  - intros (f & Hin & Hd & Hc).
    assert (f ∈ filter (λ f, finding_severity f = Critical)
              (filter (λ f, is_deterministic_finding (rc_osv_block cfg) (finding_id f) = true) l)) as Hf.
    { apply list_elem_of_filter. split; [done|]. by apply list_elem_of_filter. }
    destruct (filter _ (filter _ _)); [by apply not_elem_of_nil in Hf|]. cbn. lia.
Qed.

(** Advisory findings of a language model never block. *)
Lemma llm_never_blocks (cfg : RiskConfig) (f : Finding) :
  starts_with "LLM" (finding_id f) = true → is_deterministic_finding (rc_osv_block cfg) (finding_id f) = false.
Proof.
  unfold is_deterministic_finding. intros Hf. rewrite Hf. apply starts_with_app in Hf as [r ->]. cbn.
  by rewrite andb_false_r.
Qed.

(** ** The evidence digest and the publisher's record *)

Lemma pretty_go_free (c : ascii) (n : N) (s : string) :
  (∀ d, pretty_N_char d ≠ c) → free_of c s = true → free_of c (pretty_N_go n s) = true.
Proof.
  intros Hc. revert s. induction (N.lt_wf_0 n) as [n _ IH]; intros s Hs.
  assert (n = 0 ∨ 0 < n)%N as [->|Hn] by lia; [done|].
  rewrite pretty_N_go_step by done. apply IH; [by apply N.div_lt|]. cbn [free_of].
  rewrite Hs, andb_true_r. apply negb_true_iff, Ascii.eqb_neq, Hc.
Qed.

Lemma fmt_N_free (c : ascii) (n : N) : (∀ d, pretty_N_char d ≠ c) → free_of c (fmt_N n) = true.
Proof.
  intros Hc. unfold fmt_N, pretty, pretty_N. destruct (decide _); [|by apply pretty_go_free].
  cbn [free_of]. rewrite andb_true_r. apply negb_true_iff, Ascii.eqb_neq, (Hc 0%N).
Qed.

Lemma pretty_char_colon (d : N) : pretty_N_char d ≠ ":"%char.
Proof. unfold pretty_N_char. by repeat case_match. Qed.

Lemma fmt_Z_free (z : Z) : free_of ":" (fmt_Z z) = true.
Proof.
  pose proof (λ n, fmt_N_free ":" n pretty_char_colon) as Hf. unfold fmt_Z, pretty, pretty_Z.
  destruct z; [done|apply Hf|]. rewrite app_cons_str. cbn [free_of]. apply Hf.
Qed.

(** Two reports that count a publisher's reputation differently never have the same digest, short
    of a collision of SHA-256. *)
Lemma digest_binds_reputation (pkg : PackageId) (l k : list Finding) (b : AnalysisBundleRefs) (d e : Z) (n m : N) :
  build_evidence_digest pkg l b d n = build_evidence_digest pkg k b e m → d = e ∨ collision.
Proof.
  unfold build_evidence_digest. intros Hxy.
  match type of Hxy with
  | sha256_hex ?x = sha256_hex ?y => destruct (decide (x = y)) as [He|He]; [left|right; by exists x, y]
  end.
  cbn [join] in He.
  repeat match type of He with
         | ?a +:+ "::" +:+ _ = ?a +:+ "::" +:+ _ => apply app_inj_l in He; apply (app_inj_l "::") in He
         end.
  apply (sep_split_l ":") in He as [He _]; [|apply fmt_Z_free..]. by apply pretty_Z_inj in He.
Qed.


(** ** The index and the evidence *)

Lemma days_since_small (now ts : Z) (d : Z) :
  (0 ≤ d < 2 ^ 32)%Z → (d * day_nanos ≤ now - ts < (d + 1) * day_nanos)%Z → days_since now ts = Z.to_N d.
Proof.
  intros Hd Hn. unfold days_since, day_nanos in *.
  replace (Z.quot (now - ts) 86400000000000) with d by (Z.to_euclidean_division_equations; lia).
  rewrite Z.max_r by lia. apply N.mod_small. lia.
Qed.

Definition delta_from (ix : PublisherIndex) (pk : string) : Z := confidence_delta (assess_publisher (λ _, node_reply ix pk)).

Lemma first_publish_stats (now : Z) (b : Block) (rec : ChainRecord) :
  transactions b = [Publish rec] →
  index_get (apply_block now index_new b) (rec_publisher_pubkey rec) =
  Some (count_publish now (timestamp (header b)) (default_stats (rec_publisher_pubkey rec))).
Proof.
  intros Hb. unfold apply_block. rewrite Hb. cbn [foldl apply_tx index_get pstats index_new].
  unfold index_get. cbn [pstats]. by rewrite lookup_empty, lookup_insert_eq.
Qed.

(** The age of a publisher is fixed when its last package enters the index.  A validator that
    has run since the first publication gives the publisher -15 forever; one that restarts a year
    later and replays the same chain gives +10.  Their evidence digests for the next package
    differ, so their votes do not count together. *)
Theorem restart_splits_evidence (now1 now2 : Z) (b : Block) (rec : ChainRecord) (pkg : PackageId)
    (findings : list Finding) (bundles : AnalysisBundleRefs) (det : N) (d1 d2 : Z) :
  let pk := rec_publisher_pubkey rec in
  let ts := timestamp (header b) in
  transactions b = [Publish rec] →
  (0 ≤ d1 < 7)%Z → (d1 * day_nanos ≤ now1 - ts < (d1 + 1) * day_nanos)%Z →
  (365 ≤ d2 < 2 ^ 32)%Z → (d2 * day_nanos ≤ now2 - ts < (d2 + 1) * day_nanos)%Z →
  let live := delta_from (apply_block now1 index_new b) pk in
  let restarted := delta_from (rebuild_from_chain now2 index_new [b]) pk in
  live = (-15)%Z ∧ restarted = 10%Z ∧
  (build_evidence_digest pkg findings bundles live det = build_evidence_digest pkg findings bundles restarted det →
   collision).
Proof.
  intros pk ts Hb Hd1 Hn1 Hd2 Hn2 live restarted.
  assert (∀ now d, (0 ≤ d < 2 ^ 32)%Z → (d * day_nanos ≤ now - ts < (d + 1) * day_nanos)%Z →
            delta_from (apply_block now index_new b) pk =
            if (365 <=? d)%Z then 10%Z else if (d <? 7)%Z then (-15)%Z else 0%Z) as Hx.
  { intros now d Hd Hn. unfold delta_from, assess_publisher, attempt_publisher, node_reply.
    cbn [attempt_publisher]. pose proof (first_publish_stats now b rec Hb) as Hf. fold pk in Hf. rewrite Hf.
    unfold build_assessment, age_delta. cbn.
    fold ts. rewrite (days_since_small now ts d) by done.
    destruct (Z.leb_spec 365 d), (N.leb_spec 365 (Z.to_N d)); try lia; [done|].
    destruct (Z.ltb_spec d 7), (N.ltb_spec (Z.to_N d) 7); try lia; done. }
  assert (live = (-15)%Z) as Hl.
  { unfold live. rewrite (Hx now1 d1) by (done || lia).
    destruct (Z.leb_spec 365 d1); [lia|]. by destruct (Z.ltb_spec d1 7); [|lia]. }
  assert (restarted = 10%Z) as Hr.
  { unfold restarted, rebuild_from_chain. cbn [foldl]. rewrite (Hx now2 d2) by (done || lia).
    by destruct (Z.leb_spec 365 d2); [|lia]. }
  split; [done|]. split; [done|]. intros He.
  by destruct (digest_binds_reputation _ _ _ _ _ _ _ _ He) as [?|?]; [lia|].
Qed.

(** No transaction gives a publisher a stake, so the bonus for it is never paid. *)
Lemma stake_never_counts (now : Z) (blocks : list Block) (pk : string) (st : PublisherStats) :
  index_get (rebuild_from_chain now index_new blocks) pk = Some st →
  stake_delta (record_of_stats st) = 0%Z ∧ pr_revoked_pgp_fps (record_of_stats st) = [].
Proof.
  intros Hst. split; [|done].
  assert (∀ ix, map_Forall (λ _ s, stake_wei s = 0%N) (pstats ix) → ∀ b,
            map_Forall (λ _ s, stake_wei s = 0%N) (pstats (apply_block now ix b))) as Hstep.
  { intros ix Hix b. unfold apply_block. revert ix Hix. induction (transactions b) as [|tx txs IH]; intros ix Hix; [done|].
    cbn [foldl]. apply IH. clear IH Hst st. destruct tx; cbn [apply_tx]; try done.
    - apply map_Forall_insert_2; [|done]. cbn. destruct (pstats ix !! _) as [st1|] eqn:Hs; [by apply (Hix _ _ Hs)|done].
    - destruct (canonical_to_pubkey ix !! _); [|done]. cbn [pstats]. intros k st1 Hk.
      apply lookup_alter_Some in Hk as [(-> & st2 & Hs' & ->)|[_ Hs']]; [|by apply (Hix _ _ Hs')].
      apply (Hix _ _ Hs').
    - cbn [pstats]. intros k st1 Hk. apply lookup_alter_Some in Hk as [(-> & st2 & Hs' & ->)|[_ Hs']]; [|by apply (Hix _ _ Hs')].
      cbn. rewrite (Hix _ _ Hs'). lia.
    - destruct (pstats ix !! _) as [st1|] eqn:Hs; [|done]. cbn [pstats].
      apply map_Forall_insert_2; [by apply (Hix _ _ Hs)|]. by apply map_Forall_delete. }
  assert (map_Forall (λ _ s, stake_wei s = 0%N) (pstats (rebuild_from_chain now index_new blocks))) as Hall.
  { clear Hst. unfold rebuild_from_chain. assert (map_Forall (λ _ s, stake_wei s = 0%N) (pstats index_new)) as Hnew by apply map_Forall_empty.
    revert Hnew. generalize index_new. induction blocks as [|b bs IH]; intros ix Hix; [done|]. cbn [foldl]. apply IH, Hstep, Hix. }
  unfold stake_delta, record_of_stats. cbn [pr_stake_wei]. by rewrite (Hall _ _ Hst).
Qed.

End Properties.

(** ** Witnesses, with exact rationals for the doubles *)
From Stdlib Require Import QArith Qround.

Module ToyScores.

Definition q_round (q : Q) : N := Z.to_N (clamp 0 100 (Qfloor (q + (1 # 2)))).

Definition q_max (a b : Q) : Q := if Qle_bool a b then b else a.

#[export] Instance toy_scores : Scores := {|
  Score := Q; dec n k := Z.of_N n # Pos.of_nat (Nat.pow 10 (N.to_nat k));
  score_add := Qplus; score_mul := Qmult; score_div := Qdiv; score_max := q_max;
  score_min := λ a b, if Qle_bool a b then a else b; score_eqb := Qeq_bool; score_leb := Qle_bool;
  score_ltb := λ a b, negb (Qle_bool b a);
  score_neg := Qopp; score_log2 := λ q, - (Z.log2 (Qfloor (/ q)) # 1);
  round_u8 := q_round; fmt0 := λ q, fmt_Z (Qfloor q); fmt2 := λ q, fmt_Z (Qfloor (q * (100 # 1)));
  parse_f64 := λ _, None;
|}.

Lemma q_round_mono (a b : Q) : (a <= b)%Q → (q_round a ≤ q_round b)%N.
Proof.
  intros H. unfold q_round. apply Z2N.inj_le; [apply clamp_range..|]. apply clamp_mono, Qfloor_resp_le.
  by apply Qplus_le_compat; [|apply Qle_refl].
Qed.

#[export] Instance toy_scores_laws : ScoresLaws.
Proof.
  split.
  - intros q. cbn. unfold q_round, clamp. lia.
  - intros a b. cbn. unfold q_max. destruct (Qle_bool a b) eqn:H.
    + apply Qle_bool_iff, q_round_mono in H. lia.
    + assert (b <= a)%Q as Hb by (apply Qnot_lt_le; intros Hlt; apply Qlt_le_weak, Qle_bool_iff in Hlt; congruence).
      apply q_round_mono in Hb. lia.
  - intros n Hn. cbn. unfold q_round. replace (Qfloor _) with (Z.of_N n); [unfold clamp; lia|].
    unfold Qfloor, Qplus. cbn -[Z.add Z.mul Z.div]. change (Pos.of_nat (10 ^ N.to_nat 0)) with 1%positive. Z.to_euclidean_division_equations. lia.
Qed.

End ToyScores.

Module RiskWitness.
Import Toy ToyScores.

Definition cfg0 : RiskConfig :=
  {| rc_aggregator := default_aggregator (λ _, None); rc_bypass := false; rc_osv_block := false |}.

Definition finding (id : string) (s : FindingSeverity) : Finding :=
  {| finding_id := id; finding_title := id; finding_severity := s; finding_description := ""; finding_file := "a.js";
     finding_line := None |}.

Definition pkg0 : PackageId := {| ecosystem := "npm"; name := "pkg"; version := "1.0.0" |}.

Definition rep (d : Z) : ReputationAssessment := {| confidence_delta := d; revoked_pgp_fps := [] |}.

Definition clean : list Finding := [finding "SA005" Low; finding "LLM000" Critical].
Definition dirty : list Finding := [finding "LLM000" Critical; finding "SA001" Critical; finding "SA005" Low].

Lemma more_evidence_never_helps_witness :
  let s := summarize cfg0 pkg0 clean (dec 25 0) (dec 90 0) (dec 0 0) None default_bundles (rep 10) in
  let s' := summarize cfg0 pkg0 dirty (dec 50 0) (dec 90 0) (dec 0 0) None default_bundles (rep (-25)) in
  (rs_score s ≤ rs_score s')%N ∧ disposition_rank (rs_disposition s) ≤ disposition_rank (rs_disposition s').
Proof.
  apply more_evidence_never_helps; try (vm_compute; done).
  etransitivity; [apply submseteq_swap|]. apply submseteq_skip, submseteq_cons. reflexivity.
Defined.

Example summaries :
  rs_disposition (summarize cfg0 pkg0 clean (dec 25 0) (dec 90 0) (dec 0 0) None default_bundles (rep 10)) = RdReview ∧
  rs_disposition (summarize cfg0 pkg0 dirty (dec 50 0) (dec 90 0) (dec 0 0) None default_bundles (rep (-25))) = RdBlock.
Proof. split; vm_compute; reflexivity. Qed.

Lemma evidence_order_irrelevant_witness :
  let s l := summarize cfg0 pkg0 l (dec 25 0) (dec 90 0) (dec 0 0) None default_bundles (rep 10) in
  rs_evidence_digest (s dirty) = rs_evidence_digest (s (reverse dirty)) ∧ rs_score (s dirty) = rs_score (s (reverse dirty)).
Proof.
  destruct (evidence_order_irrelevant cfg0 pkg0 dirty (reverse dirty) (dec 25 0) (dec 90 0) (dec 0 0) None default_bundles (rep 10))
    as (Hd & Hs & _); [symmetry; apply reverse_Permutation|]. split; [exact Hd | exact Hs].
Defined.

Definition b0 : Block := ChainStoreExamples.blk 1 "p" [Publish (ChainStoreExamples.record "a")].

Lemma restart_splits_evidence_witness :
  let live := delta_from (apply_block (2 * day_nanos) index_new b0) "pk" in
  let restarted := delta_from (rebuild_from_chain (400 * day_nanos) index_new [b0]) "pk" in
  live = (-15)%Z ∧ restarted = 10%Z ∧
  build_evidence_digest pkg0 dirty default_bundles live 50 ≠ build_evidence_digest pkg0 dirty default_bundles restarted 50.
Proof.
  destruct (restart_splits_evidence (2 * day_nanos) (400 * day_nanos) b0 (ChainStoreExamples.record "a")
              pkg0 dirty default_bundles 50 2 400) as (H1 & H2 & _);
    [reflexivity | lia | vm_compute; split; congruence | lia | vm_compute; split; congruence |].
  split; [exact H1|]. split; [exact H2|]. vm_compute. congruence.
Defined.

End RiskWitness.
