(* ===== verification/Sandbox.v ===== *)
(** The behavioural sandbox of the validator (validator/src/sandbox.rs) and the comparison with the
    previous version (diff.rs): the observations read from the logs of the engines, the check
    against the publisher's manifest, the fallback chain of engines with its result cache, and the
    run in several phases.

    The engines are programs: what they print on the standard error (after [from_utf8_lossy]) is
    an argument ([Engines]).  Temporary files and wall-clock times are left out.  A text that the
    code slices outside of a character's boundary panics: [None]. *)

From S2P Require Import Prelude Text Crypto Types.
From Stdlib Require Import Ascii NArith ZArith.

Record Observations := {
  network_hosts : list string;
  fs_writes : list string;
  process_spawns : list string;
  exit_code : Z;
}.

Definition no_observations : Observations :=
  {| network_hosts := []; fs_writes := []; process_spawns := []; exit_code := 0 |}.

Definition push_host (o : Observations) (h : string) : Observations :=
  {| network_hosts := network_hosts o ++ [h]; fs_writes := fs_writes o; process_spawns := process_spawns o;
     exit_code := exit_code o |}.

Definition push_write (o : Observations) (p : string) : Observations :=
  {| network_hosts := network_hosts o; fs_writes := fs_writes o ++ [p]; process_spawns := process_spawns o;
     exit_code := exit_code o |}.

Definition push_spawn (o : Observations) (b : string) : Observations :=
  {| network_hosts := network_hosts o; fs_writes := fs_writes o; process_spawns := process_spawns o ++ [b];
     exit_code := exit_code o |}.

Definition set_exit_code (o : Observations) (c : Z) : Observations :=
  {| network_hosts := network_hosts o; fs_writes := fs_writes o; process_spawns := process_spawns o; exit_code := c |}.

Definition merge_observations (primary additional : Observations) : Observations :=
  {| network_hosts := foldl push_new (network_hosts primary) (network_hosts additional);
     fs_writes := foldl push_new (fs_writes primary) (fs_writes additional);
     process_spawns := foldl push_new (process_spawns primary) (process_spawns additional);
     exit_code := exit_code primary |}.

(** ** The logs *)

Fixpoint sanitize_control_characters (s : string) : string :=
  match s with
  | EmptyString => EmptyString
  | String c s' =>
      let keep := negb (is_control c) || Ascii.eqb c (byte 10) || Ascii.eqb c (byte 13) || Ascii.eqb c (byte 9) in
      String (if keep then c else "?"%char) (sanitize_control_characters s')
  end.

Definition MAX_OBSERVED_NET_HOSTS : nat := 500.
Definition MAX_OBSERVED_FS_WRITES : nat := 1000.
Definition MAX_OBSERVED_SPAWNS : nat := 500.

Definition apostrophe : string := String (byte 39) EmptyString.

(** What stands between the first two quotes. *)
Definition between (q line : string) : option string :=
  start ← find_str q line;
  let rest := drop_str (start + 1) line in
  stop ← find_str q rest;
  Some (take_str stop rest).

Definition nonempty (o : option string) : option string := s ← o; if is_empty s then None else Some s.

Definition addr_char (c : ascii) : bool := is_digit c || Ascii.eqb c ".".

Definition nsjail_addr (line : string) : option string :=
  start ← find_str "addr=" line;
  let addr := take_while addr_char (drop_str (start + 5) line) in
  if negb (is_empty addr) && str_contains "." addr then Some addr else None.

(** The parts of the loop's body; the flag says that the line ends there ([continue]). *)
Definition nsjail_network (o : Observations) (line : string) : Observations * bool :=
  if str_contains "connect(" line then
    if (MAX_OBSERVED_NET_HOSTS <=? length (network_hosts o))%nat then (o, true)
    else
      match nsjail_addr line with
      | Some addr => (push_host o addr, true)
      | None =>
          match nonempty (between quote line) with
          | Some host => (push_host o host, true)
          | None => (push_host o ("unknown-egress (raw: " +:+ trim line +:+ ")"), false)
          end
      end
  else (o, false).

Definition write_flags (line : string) : bool :=
  str_contains "O_WRONLY" line || str_contains "O_RDWR" line || str_contains "O_CREAT" line.

Definition nsjail_write (o : Observations) (line : string) : Observations * bool :=
  if str_contains "open(" line && write_flags line then
    if (MAX_OBSERVED_FS_WRITES <=? length (fs_writes o))%nat then (o, true)
    else
      match nonempty (between quote line) with
      | Some path => (push_write o path, true)
      | None => (push_write o ("unknown-write (raw: " +:+ trim line +:+ ")"), false)
      end
  else (o, false).

Definition nsjail_spawn (o : Observations) (line : string) : Observations :=
  if str_contains "execve(" line then
    if (MAX_OBSERVED_SPAWNS <=? length (process_spawns o))%nat then o
    else
      match nonempty (between quote line) with
      | Some binary => push_spawn o binary
      | None => push_spawn o ("unknown-spawn (raw: " +:+ trim line +:+ ")")
      end
  else o.

Definition nsjail_line (o : Observations) (line : string) : Observations :=
  let (o, done) := nsjail_network o line in
  if done then o
  else
    let (o, done) := nsjail_write o line in
    if done then o else nsjail_spawn o line.

Definition parse_nsjail_output (stderr : string) : Observations :=
  foldl nsjail_line no_observations (lines (sanitize_control_characters stderr)).

(** strace: lines that start with the call, or with [[pid n] call]. *)
Definition is_call (call line : string) : bool :=
  starts_with (call +:+ "(") line || str_contains ("] " +:+ call +:+ "(") line.

Definition after_quote (needle line : string) : option string :=
  start ← find_str needle line;
  let rest := drop_str (start + String.length needle) line in
  stop ← find_str quote rest;
  nonempty (Some (take_str stop rest)).

Definition strace_connect (o : Observations) (line : string) : Observations :=
  if is_call "connect" line && (length (network_hosts o) <? MAX_OBSERVED_NET_HOSTS)%nat
  then match after_quote ("inet_addr(" +:+ quote) line with Some ip => push_host o ip | None => o end else o.

Definition strace_openat (o : Observations) (line : string) : Observations :=
  if is_call "openat" line && write_flags line && negb (ends_with "= -1 EROFS" line) &&
     negb (ends_with "= -1 EACCES" line) && (length (fs_writes o) <? MAX_OBSERVED_FS_WRITES)%nat
  then match after_quote quote line with Some path => push_write o path | None => o end else o.

Definition strace_execve (o : Observations) (line : string) : Observations :=
  if is_call "execve" line && str_contains "= 0" line && (length (process_spawns o) <? MAX_OBSERVED_SPAWNS)%nat
  then match after_quote quote line with Some binary => push_spawn o binary | None => o end else o.

Definition strace_line (o : Observations) (line : string) : Observations :=
  strace_execve (strace_openat (strace_connect o line) line) line.

Definition parse_strace_output (stderr : string) : Observations :=
  foldl strace_line no_observations (lines (sanitize_control_characters stderr)).

(** [&s[n..]]: a panic inside of a character or past the end. *)
Definition slice_from (n : nat) (s : string) : option string :=
  if (String.length s <? n)%nat then None
  else
    match drop_str n s with
    | String c _ as rest => if ((128 <=? N_of_ascii c) && (N_of_ascii c <? 192))%N then None else Some rest
    | EmptyString => Some EmptyString
    end.

Section Sandbox.
Context `{!Crypto, !Std}.

Definition docker_network (o : Observations) (lower line : string) : option (Observations * bool) :=
  if str_contains "econnrefused" lower || str_contains "enetunreach" lower || str_contains "getaddrinfo" lower ||
     str_contains "dns resolution" lower || str_contains "network is unreachable" lower then
    if (length (network_hosts o) <? MAX_OBSERVED_NET_HOSTS)%nat then
      let raw := (push_host o ("network-attempt-detected (raw: " +:+ trim line +:+ ")"), false) in
      match find_str "enotfound " lower with
      | Some idx =>
          rest ← slice_from (idx + 10) line;
          let host := take_non_space rest in
          Some (if is_empty host then raw else (push_host o host, true))
      | None => Some raw
      end
    else Some (o, false)
  else Some (o, false).

Definition docker_write (o : Observations) (lower line : string) : Observations * bool :=
  if str_contains "erofs" lower || str_contains "read-only file system" lower then
    if (length (fs_writes o) <? MAX_OBSERVED_FS_WRITES)%nat then
      match between apostrophe line with
      | Some path => (push_write o path, true)
      | None => (push_write o ("write-attempted (raw: " +:+ trim line +:+ ")"), false)
      end
    else (o, false)
  else (o, false).

Definition docker_spawn (o : Observations) (lower line : string) : Observations :=
  if (str_contains "spawn" lower || str_contains "child_process" lower || str_contains "exec(" lower) &&
     (length (process_spawns o) <? MAX_OBSERVED_SPAWNS)%nat
  then push_spawn o ("process-spawn-detected (raw: " +:+ trim line +:+ ")") else o.

Definition docker_line (o : Observations) (line : string) : option Observations :=
  let lower := to_lowercase line in
  '(o, done) ← docker_network o lower line;
  Some (if (done : bool) then o
        else
          let (o, done) := docker_write o lower line in
          if done then o else docker_spawn o lower line).

Definition parse_docker_output (stderr : string) : option Observations :=
  foldl (λ o line, o ≫= λ o, docker_line o line) (Some no_observations) (lines (sanitize_control_characters stderr)).

(** ** The manifest *)

Definition sandbox_finding (id title : string) (severity : FindingSeverity) (description file : string) : Finding :=
  {| finding_id := id; finding_title := title; finding_severity := severity; finding_description := description;
     finding_file := file; finding_line := None |}.

Definition host_allowed (manifest : PackageManifest) (resolved_ips : gset string) (host : string) : bool :=
  if is_ip_addr host then bool_decide (host ∈ resolved_ips)
  else existsb (λ declared, String.eqb host declared || ends_with ("." +:+ declared) host)
         (allowed_network_hosts manifest).

Definition write_allowed (manifest : PackageManifest) (path : string) : bool :=
  existsb (λ declared, String.eqb path declared || starts_with (declared +:+ "/") path ||
                       starts_with (declared +:+ String (byte 92) EmptyString) path)
    (allowed_fs_writes manifest).

Definition check_spawn (manifest : PackageManifest) (spawn : string) : list Finding :=
  if spawns_processes manifest then
    match allowed_process_spawns manifest with
    | [] => []
    | declared =>
        if existsb (λ d, String.eqb spawn d || String.eqb (file_name spawn) d) declared then []
        else [sandbox_finding "SB004" "Process spawn not in allowlist" High
                ("Process '" +:+ spawn +:+ "' spawned but not in allowed_process_spawns: " +:+ debug_strings declared)
                "install-hook"]
    end
  else [sandbox_finding "SB003" "Undeclared process spawn" Critical
          ("Undeclared child process spawn: '" +:+ spawn +:+ "'") "install-hook"].

Definition check_host (manifest : PackageManifest) (resolved_ips : gset string) (host : string) : list Finding :=
  if host_allowed manifest resolved_ips host then []
  else [sandbox_finding "SB001" "Undeclared network access" High
          ("Undeclared network access to '" +:+ host +:+ "'") "install-hook"].

Definition check_write (manifest : PackageManifest) (path : string) : list Finding :=
  if write_allowed manifest path then []
  else [sandbox_finding "SB002" "Undeclared filesystem write" High
          ("Undeclared filesystem write to '" +:+ path +:+ "'") "install-hook"].

Definition check_against_manifest (obs : Observations) (manifest : PackageManifest) (resolved_ips : gset string)
    : list Finding :=
  (network_hosts obs ≫= check_host manifest resolved_ips) ++ (fs_writes obs ≫= check_write manifest) ++
  (process_spawns obs ≫= check_spawn manifest).

(** [lookup] resolves a host and a port to addresses, [None] when that fails. *)
Definition resolve_host (lookup : string → option (list string)) (host : string) : list string :=
  if is_ip_addr host then [host]
  else default [] (lookup (host +:+ ":443")) ++ default [] (lookup (host +:+ ":80")).

Definition resolve_manifest_domains (lookup : string → option (list string)) (hosts : list string) : gset string :=
  list_to_set (hosts ≫= resolve_host lookup).

(** ** The engines *)

Record SandboxResult := {
  sb_findings : list Finding;
  observed_network_hosts : list string;
  observed_fs_writes : list string;
  observed_process_spawns : list string;
  engine_used : string;
  sb_exit_code : Z;
  observations_count : nat;
  findings_count : nat;
}.

Inductive NetworkMode := Isolated | ManifestOnly | Full.

Record SandboxConfig := { timeout_secs : N; memory_mb : N; network_mode : NetworkMode }.

Definition default_config : SandboxConfig := {| timeout_secs := 120; memory_mb := 512; network_mode := ManifestOnly |}.

(** [n.to_le_bytes()] of [k] bytes *)
Fixpoint le_bytes (k : nat) (n : N) : string :=
  match k with O => EmptyString | S k' => String (byte (n mod 256)) (le_bytes k' (n / 256)) end.

Definition network_mode_byte (m : NetworkMode) : N := match m with Isolated => 0 | ManifestOnly => 1 | Full => 2 end.

Definition compute_cache_key (tarball ecosystem : string) (config : SandboxConfig) : string :=
  sha256_hex (tarball +:+ ecosystem +:+ le_bytes 8 (timeout_secs config) +:+ le_bytes 4 (memory_mb config) +:+
              String (byte (network_mode_byte (network_mode config))) EmptyString).

(** A program's run: its standard error and exit code, or the error of starting it. *)
Definition Run : Type := result string (string * Z).

(** The host: for each engine whether it is ready and what it does with a tarball of an
    ecosystem; the WASM engine with its own result; the network. *)
Record Engines := {
  nsjail : option (string → string → Run);
  gvisor : option (string → string → Run);
  docker : option (string → string → Run);
  has_wasm : string → bool;
  wasm : string → PackageId → PackageManifest → result string SandboxResult;
  dev_sandbox : bool;
  lookup_host : string → option (list string);
}.

Inductive SandboxError := EngineError (e : string) | NoEngine | Panicked.

Definition engine_result (engine : string) (obs : Observations) (findings : list Finding) (code : Z) : SandboxResult :=
  {| sb_findings := findings; observed_network_hosts := network_hosts obs; observed_fs_writes := fs_writes obs;
     observed_process_spawns := process_spawns obs; engine_used := engine; sb_exit_code := code;
     observations_count := length (network_hosts obs) + length (fs_writes obs) + length (process_spawns obs);
     findings_count := length findings |}.

Definition run_nsjail_sandbox (run : Run) (manifest : PackageManifest) (ips : gset string)
    : result SandboxError SandboxResult :=
  match run with
  | Err e => Err (EngineError e)
  | Ok (stderr, code) =>
      let obs := parse_nsjail_output stderr in
      Ok (engine_result "nsjail" obs (check_against_manifest obs manifest ips) code)
  end.

Definition run_gvisor_sandbox (run : Run) (manifest : PackageManifest) (ips : gset string)
    : result SandboxError SandboxResult :=
  match run with
  | Err e => Err (EngineError e)
  | Ok (stderr, code) =>
      obs ← ok_or Panicked (parse_docker_output stderr);
      Ok (engine_result "gvisor" obs
            (check_against_manifest obs manifest ips ++
             [sandbox_finding "SB013" "gVisor sandbox used" Low
                "Package was analysed using gVisor (runsc) — userspace syscall interception provides strong isolation."
                "sandbox-engine"]) code)
  end.

Definition run_docker_sandbox (run : Run) : result SandboxError Observations :=
  match run with
  | Err e => Err (EngineError e)
  | Ok (stderr, code) =>
      obs ← ok_or Panicked (parse_docker_output stderr);
      Ok (set_exit_code (merge_observations obs (parse_strace_output stderr)) code)
  end.

Definition docker_result (run : Run) (manifest : PackageManifest) (ips : gset string)
    : result SandboxError SandboxResult :=
  obs ← run_docker_sandbox run;
  Ok (engine_result "docker" obs
        (check_against_manifest obs manifest ips ++
         [sandbox_finding "SB010" "Degraded sandbox isolation" Medium
            "Package was analysed using Docker instead of nsjail — kernel-level syscall filtering is not active."
            "sandbox-engine"]) (exit_code obs)).

Definition dev_result : SandboxResult :=
  {| sb_findings := [sandbox_finding "SB012" "Dev sandbox bypass active" High
       "CREG_DEV_SANDBOX=true: Behavioural analysis was skipped. Operator opted in to an unsafe local-development bypass."
       "sandbox-engine"];
     observed_network_hosts := []; observed_fs_writes := []; observed_process_spawns := [];
     engine_used := "dev-bypass"; sb_exit_code := 0; observations_count := 0; findings_count := 1 |}.

Definition wasm_metrics (r : SandboxResult) : SandboxResult :=
  {| sb_findings := sb_findings r; observed_network_hosts := observed_network_hosts r;
     observed_fs_writes := observed_fs_writes r; observed_process_spawns := observed_process_spawns r;
     engine_used := "wasm"; sb_exit_code := 0;
     observations_count := length (observed_network_hosts r) + length (observed_fs_writes r) +
                           length (observed_process_spawns r);
     findings_count := length (sb_findings r) |}.

Definition Cache : Type := gmap string SandboxResult.

(** [max] is [sandbox_cache_max()]. *)
Definition cache_result (max : nat) (cache : Cache) (key : string) (result : SandboxResult) : Cache :=
  let cache := if (max <=? size cache)%nat then ∅ else cache in
  <[key := result]> cache.

(** An engine's result goes into the cache, its error does not. *)
Definition cached (max : nat) (cache : Cache) (key : string) (r : result SandboxError SandboxResult)
    : Cache * result SandboxError SandboxResult :=
  match r with Ok result => (cache_result max cache key result, r) | Err _ => (cache, r) end.

Definition run (w : Engines) (max : nat) (cache : Cache) (pkg_id : PackageId) (tarball : string)
    (manifest : PackageManifest) : Cache * result SandboxError SandboxResult :=
  let key := compute_cache_key tarball (ecosystem pkg_id) default_config in
  match cache !! key with
  | Some hit => (cache, Ok hit)
  | None =>
      let ips := resolve_manifest_domains (lookup_host w) (allowed_network_hosts manifest) in
      match nsjail w with
      | Some exec => cached max cache key (run_nsjail_sandbox (exec tarball (ecosystem pkg_id)) manifest ips)
      | None =>
          if dev_sandbox w then (cache, Ok dev_result)
          else
            match gvisor w, docker w with
            | Some exec, _ => cached max cache key (run_gvisor_sandbox (exec tarball (ecosystem pkg_id)) manifest ips)
            | None, Some exec => cached max cache key (docker_result (exec tarball (ecosystem pkg_id)) manifest ips)
            | None, None =>
                if ends_with "-wasm" (name pkg_id) || has_wasm w tarball then
                  match wasm w tarball pkg_id manifest with
                  | Ok r => cached max cache key (Ok (wasm_metrics r))
                  | Err _ => (cache, Err NoEngine)
                  end
                else (cache, Err NoEngine)
            end
      end
  end.

Definition extend_new (l more : list string) : list string := foldl push_new l more.

Definition is_critical (f : Finding) : bool := match finding_severity f with Critical => true | _ => false end.

Definition without_network (m : PackageManifest) : PackageManifest :=
  {| allowed_network_hosts := []; allowed_fs_writes := allowed_fs_writes m; spawns_processes := spawns_processes m;
     allowed_process_spawns := allowed_process_spawns m; description := description m |}.

Definition combine_phases (phase1 phase2 : SandboxResult) : SandboxResult :=
  {| sb_findings := sb_findings phase1 ++ sb_findings phase2;
     observed_network_hosts := extend_new (observed_network_hosts phase1) (observed_network_hosts phase2);
     observed_fs_writes := extend_new (observed_fs_writes phase1) (observed_fs_writes phase2);
     observed_process_spawns := extend_new (observed_process_spawns phase1) (observed_process_spawns phase2);
     engine_used := engine_used phase1; sb_exit_code := sb_exit_code phase1;
     observations_count := observations_count phase1; findings_count := findings_count phase1 |}.

Definition run_multiphase (w : Engines) (max : nat) (cache : Cache) (pkg_id : PackageId) (tarball : string)
    (manifest : PackageManifest) : Cache * result SandboxError SandboxResult :=
  match run w max cache pkg_id tarball manifest with
  | (cache1, Ok phase1) =>
      if existsb is_critical (sb_findings phase1) then (cache1, Ok phase1)
      else
        match run w max cache1 pkg_id tarball (without_network manifest) with
        | (cache2, Ok phase2) => (cache2, Ok (combine_phases phase1 phase2))
        | (cache2, Err e) => (cache2, Err e)
        end
  | (cache1, Err e) => (cache1, Err e)
  end.

(** The results by canonical, for the comparison with the next version. *)
Definition store_result (store : Cache) (canonical : string) (r : SandboxResult) : Cache := <[canonical := r]> store.
Definition get_result (store : Cache) (canonical : string) : option SandboxResult := store !! canonical.

(** ** diff.rs *)

Record DiffResult := { df_findings : list Finding; new_hosts : list string; new_paths : list string }.

(** The entries of [now] that [before] lacks. *)
Definition added (now before : list string) : list string := filter (λ x, x ∉ before) now.

Definition manifest_diff (cur prev : PackageManifest) : DiffResult :=
  let hosts := added (allowed_network_hosts cur) (allowed_network_hosts prev) in
  let paths := added (allowed_fs_writes cur) (allowed_fs_writes prev) in
  {| df_findings :=
       ((λ host, sandbox_finding "DF001" "New network host" Medium
                   ("New undeclared network host access: " +:+ host) "manifest") <$> hosts) ++
       ((λ path, sandbox_finding "DF002" "New fs write path" Medium
                   ("New undeclared filesystem write path: " +:+ path) "manifest") <$> paths) ++
       (if spawns_processes cur && negb (spawns_processes prev)
        then [sandbox_finding "DF003" "Permission escalation: process-spawn" High
                "Package now requests child process execution (previously disabled)" "manifest"] else []);
     new_hosts := hosts; new_paths := paths |}.

Definition runtime_diff (cur prev : SandboxResult) : DiffResult :=
  let hosts := added (observed_network_hosts cur) (observed_network_hosts prev) in
  let paths := added (observed_fs_writes cur) (observed_fs_writes prev) in
  let spawns := added (observed_process_spawns cur) (observed_process_spawns prev) in
  {| df_findings :=
       ((λ host, sandbox_finding "DF005" "Runtime behavior change: new network host" High
                   ("Sandbox observed contact with '" +:+ host +:+ "' — not seen in previous version's sandbox run")
                   "sandbox") <$> hosts) ++
       ((λ path, sandbox_finding "DF006" "Runtime behavior change: new fs write path" Medium
                   ("Sandbox observed write to '" +:+ path +:+ "' — not seen in previous version's sandbox run")
                   "sandbox") <$> paths) ++
       ((λ proc, sandbox_finding "DF007" "Runtime behavior change: new process spawn" High
                   ("Sandbox observed spawn of '" +:+ proc +:+ "' — not seen in previous version's sandbox run")
                   "sandbox") <$> spawns);
     new_hosts := hosts; new_paths := paths |}.

Definition append_diff (a b : DiffResult) : DiffResult :=
  {| df_findings := df_findings a ++ df_findings b; new_hosts := new_hosts a ++ new_hosts b;
     new_paths := new_paths a ++ new_paths b |}.

Definition no_diff : DiffResult := {| df_findings := []; new_hosts := []; new_paths := [] |}.

Definition undeclared_egress (cur : SandboxResult) (manifest : PackageManifest) : list Finding :=
  (λ host, sandbox_finding "DF004" "Sandbox violation: Undeclared host egress" High
             ("Suspicious behavior: Real-world access to '" +:+ host +:+ "' detected in sandbox but not in manifest")
             "sandbox") <$> added (observed_network_hosts cur) (allowed_network_hosts manifest).

Definition analyze (manifest : PackageManifest) (sandbox : SandboxResult) (prev_manifest : option PackageManifest)
    (prev_sandbox : option SandboxResult) : DiffResult :=
  let d := append_diff (from_option (manifest_diff manifest) no_diff prev_manifest)
             (from_option (runtime_diff sandbox) no_diff prev_sandbox) in
  {| df_findings := df_findings d ++ undeclared_egress sandbox manifest; new_hosts := new_hosts d;
     new_paths := new_paths d |}.

End Sandbox.

(** ** Properties *)

Section Properties.
Context `{CR : !Crypto, SD : !Std}.

(** *** The cache *)

Definition key_of (pkg : PackageId) (tarball : string) : string :=
  compute_cache_key tarball (ecosystem pkg) default_config.

Definition bypassed (w : Engines) : bool := bool_decide (is_Some (nsjail w)) || negb (dev_sandbox w).

Lemma cached_Ok (max : nat) (cache cache' : Cache) (key : string) (r : result SandboxError SandboxResult)
    (x : SandboxResult) :
  cached max cache key r = (cache', Ok x) → r = Ok x ∧ cache' !! key = Some x.
Proof. unfold cached, cache_result. destruct r; [|done]. intros [= <- <-]. split; [done|]. apply lookup_insert_eq. Qed.

Lemma run_hit (w : Engines) (max : nat) (cache : Cache) (pkg : PackageId) (tarball : string) (m : PackageManifest)
    (r : SandboxResult) :
  cache !! key_of pkg tarball = Some r → run w max cache pkg tarball m = (cache, Ok r).
Proof. intros H1. unfold run. fold (key_of pkg tarball). by rewrite H1. Qed.

Lemma run_caches (w : Engines) (max : nat) (cache cache' : Cache) (pkg : PackageId) (tarball : string)
    (m : PackageManifest) (r : SandboxResult) :
  bypassed w = true → run w max cache pkg tarball m = (cache', Ok r) → cache' !! key_of pkg tarball = Some r.
Proof.
  unfold run, bypassed. fold (key_of pkg tarball). intros Hw Hrun.
  destruct (cache !! key_of pkg tarball) as [hit|] eqn:Hc; [by injection Hrun as <- <-|].
  destruct (nsjail w) as [exec|]; [by apply cached_Ok in Hrun as [_ ?]|].
  rewrite bool_decide_eq_false_2 in Hw by (by intros [? ?]). destruct (dev_sandbox w); [discriminate Hw|].
  destruct (gvisor w) as [exec|]; [by apply cached_Ok in Hrun as [_ ?]|].
  destruct (docker w) as [exec|]; [by apply cached_Ok in Hrun as [_ ?]|].
  clear Hw. destruct (_ || _); [|done]. destruct (wasm w tarball pkg m); [|done]. by apply cached_Ok in Hrun as [_ ?].
Qed.

(** The cache of results has no manifest in its key: once a tarball has been analysed, every
    package of the ecosystem with that tarball gets the same findings, whatever its manifest
    declares and whatever an engine would report now. *)
Theorem cached_verdict_ignores_manifest (w : Engines) (max : nat) (cache cache' : Cache) (pkg : PackageId)
    (tarball : string) (m : PackageManifest) (r : SandboxResult) :
  bypassed w = true → run w max cache pkg tarball m = (cache', Ok r) →
  ∀ w' pkg' m', ecosystem pkg' = ecosystem pkg → run w' max cache' pkg' tarball m' = (cache', Ok r).
Proof.
  intros Hw Hrun w' pkg' m' He. apply run_hit. unfold key_of. rewrite He. by apply (run_caches w max cache cache' pkg tarball m).
Qed.

Lemma extend_new_same (l k : list string) : k ⊆ l → extend_new l k = l.
Proof.
  unfold extend_new. induction k as [|x k IH]; intros Hs; [done|]. cbn [foldl]. unfold push_new at 2.
  rewrite bool_decide_eq_true_2 by set_solver. apply IH. set_solver.
Qed.

(** The second phase of the analysis never runs the install hooks without network: it is
    answered from the cache, so its result is the first one with every finding twice. *)
Theorem second_phase_repeats_first (w : Engines) (max : nat) (cache cache1 : Cache) (pkg : PackageId)
    (tarball : string) (m : PackageManifest) (r : SandboxResult) :
  bypassed w = true → run w max cache pkg tarball m = (cache1, Ok r) → existsb is_critical (sb_findings r) = false →
  ∃ r', run_multiphase w max cache pkg tarball m = (cache1, Ok r') ∧
        sb_findings r' = sb_findings r ++ sb_findings r ∧
        observed_network_hosts r' = observed_network_hosts r ∧ observed_fs_writes r' = observed_fs_writes r ∧
        observed_process_spawns r' = observed_process_spawns r.
Proof.
  intros Hw Hrun Hc. unfold run_multiphase. rewrite Hrun, Hc.
  rewrite (run_hit w max cache1 pkg tarball (without_network m) r) by (by eapply run_caches).
  eexists. split; [done|]. cbn [combine_phases sb_findings observed_network_hosts observed_fs_writes observed_process_spawns].
  by rewrite !extend_new_same.
Qed.

Lemma cache_result_size (max : nat) (cache : Cache) (key : string) (r : SandboxResult) :
  1 ≤ max → size cache ≤ max → size (cache_result max cache key r) ≤ max.
Proof.
  unfold cache_result, Cache in *. intros Hm Hs. rewrite map_size_insert. destruct (Nat.leb_spec max (size cache)).
  - rewrite lookup_empty, map_size_empty. unfold id. lia.
  - destruct (cache !! key); unfold id; lia.
Qed.

(** No sandbox, no vote: without an engine, and without the developers' bypass, a package
    that is not in the cache is refused and the cache is left alone. *)
Theorem no_engine_refuses (w : Engines) (max : nat) (cache : Cache) (pkg : PackageId) (tarball : string)
    (m : PackageManifest) :
  cache !! key_of pkg tarball = None → nsjail w = None → gvisor w = None → docker w = None →
  dev_sandbox w = false →
  (ends_with "-wasm" (name pkg) = false ∧ has_wasm w tarball = false ∨ ∃ e, wasm w tarball pkg m = Err e) →
  run w max cache pkg tarball m = (cache, Err NoEngine).
Proof.
  intros Hc Hn Hg Hd Hb Hw. unfold run. fold (key_of pkg tarball). rewrite Hc, Hn, Hb, Hg, Hd.
  destruct Hw as [[-> ->]|[e ->]]; [done|]. by destruct (_ || _).
Qed.

(** *** The manifest *)

Definition host_declared (m : PackageManifest) (ips : gset string) (h : string) : Prop :=
  if is_ip_addr h then h ∈ ips
  else ∃ d, d ∈ allowed_network_hosts m ∧ (h = d ∨ ∃ sub, h = sub +:+ "." +:+ d).

Definition write_declared (m : PackageManifest) (p : string) : Prop :=
  ∃ d, d ∈ allowed_fs_writes m ∧ (p = d ∨ ∃ rest, p = d +:+ "/" +:+ rest ∨ p = d +:+ String (byte 92) rest).

Definition spawn_declared (m : PackageManifest) (s : string) : Prop :=
  spawns_processes m = true ∧
  (allowed_process_spawns m = [] ∨ s ∈ allowed_process_spawns m ∨ file_name s ∈ allowed_process_spawns m).

Lemma host_allowed_spec (m : PackageManifest) (ips : gset string) (h : string) :
  host_allowed m ips h = true ↔ host_declared m ips h.
Proof.
  unfold host_allowed, host_declared. destruct (is_ip_addr h); [apply bool_decide_eq_true|].
  rewrite existsb_elem. f_equiv; intros d. f_equiv. by rewrite orb_true_iff, String.eqb_eq, ends_with_app.
Qed.

Lemma write_allowed_spec (m : PackageManifest) (p : string) : write_allowed m p = true ↔ write_declared m p.
Proof.
  unfold write_allowed, write_declared. rewrite existsb_elem. f_equiv; intros d. f_equiv.
  rewrite !orb_true_iff, String.eqb_eq, !starts_with_app. setoid_rewrite app_assoc_str.
  split.
  - intros [[Hp|[r Hp]]|[r Hp]]; [by left|right; exists r; by left|right; exists r; by right].
  - intros [Hp|[r [Hp|Hp]]]; [by do 2 left|left; right; by exists r|right; by exists r].
Qed.

Lemma check_spawn_spec (m : PackageManifest) (s : string) : check_spawn m s = [] ↔ spawn_declared m s.
Proof.
  unfold check_spawn, spawn_declared. destruct (spawns_processes m); [|by split; [|intros [? _]]].
  destruct (allowed_process_spawns m) as [|d0 ds]; [naive_solver|]. set (l := d0 :: ds).
  destruct (existsb _ l) eqn:He.
  - split; [|done]. intros _. split; [done|]. right. apply existsb_elem in He as (d & Hd & Hs).
    apply orb_true_iff in Hs as [Hs|Hs]; apply String.eqb_eq in Hs as ->; auto.
  - split; [done|]. intros [_ [?|Hs]]; [done|]. exfalso. apply eq_true_false_abs in He; [done|].
    apply existsb_elem. destruct Hs as [Hs|Hs]; eexists; (split; [done|]); rewrite String.eqb_refl; [done|by rewrite orb_true_r].
Qed.

Lemma bind_nil {A B : Type} (f : A → list B) (l : list A) : l ≫= f = [] ↔ Forall (λ x, f x = []) l.
Proof.
  induction l as [|x l IH]; [by split|]. rewrite Forall_cons, <- IH. cbn. rewrite app_nil. done.
Qed.

Lemma nil_if {A : Type} (b : bool) (x : A) : (if b then [] else [x]) = [] ↔ b = true.
Proof. by destruct b. Qed.

(** The check against the manifest finds nothing exactly when everything the sandbox saw is
    declared: hosts by name, subdomain or resolved address, writes under a declared path, and
    processes by the flag and the list. *)
Theorem manifest_check_exact (obs : Observations) (m : PackageManifest) (ips : gset string) :
  check_against_manifest obs m ips = [] ↔
  Forall (host_declared m ips) (network_hosts obs) ∧ Forall (write_declared m) (fs_writes obs) ∧
  Forall (spawn_declared m) (process_spawns obs).
Proof.
  unfold check_against_manifest. rewrite !app_nil, !bind_nil.
  f_equiv; [|f_equiv]; f_equiv; intros x; [|by rewrite <- write_allowed_spec; apply nil_if|apply check_spawn_spec].
  rewrite <- host_allowed_spec. apply nil_if.
Qed.

(** *** The logs *)

Definition within_limits (o : Observations) : Prop :=
  length (network_hosts o) ≤ MAX_OBSERVED_NET_HOSTS ∧ length (fs_writes o) ≤ MAX_OBSERVED_FS_WRITES ∧
  length (process_spawns o) ≤ MAX_OBSERVED_SPAWNS.

Lemma limits_host (o : Observations) (h : string) :
  within_limits o → length (network_hosts o) < MAX_OBSERVED_NET_HOSTS → within_limits (push_host o h).
Proof. unfold within_limits, push_host. cbn. rewrite length_app. cbn. lia. Qed.

Lemma limits_write (o : Observations) (p : string) :
  within_limits o → length (fs_writes o) < MAX_OBSERVED_FS_WRITES → within_limits (push_write o p).
Proof. unfold within_limits, push_write. cbn. rewrite length_app. cbn. lia. Qed.

Lemma limits_spawn (o : Observations) (b : string) :
  within_limits o → length (process_spawns o) < MAX_OBSERVED_SPAWNS → within_limits (push_spawn o b).
Proof. unfold within_limits, push_spawn. cbn. rewrite length_app. cbn. lia. Qed.

Ltac limits :=
  repeat match goal with
    | |- context [(?a <=? ?b)%nat] => destruct (Nat.leb_spec a b)
    | |- context [(?a <? ?b)%nat] => destruct (Nat.ltb_spec a b)
    | |- context [match ?x with _ => _ end] => destruct x
    end; cbn [fst];
  first [done | by apply limits_host | by apply limits_write | by apply limits_spawn | idtac].

Lemma nsjail_line_limits (o : Observations) (line : string) : within_limits o → within_limits (nsjail_line o line).
Proof.
  intros Ho. unfold nsjail_line.
  assert (within_limits (nsjail_network o line).1) as H1 by (unfold nsjail_network; limits).
  destruct (nsjail_network o line) as [o1 []]; [done|]. cbn [fst] in H1.
  assert (within_limits (nsjail_write o1 line).1) as H2 by (unfold nsjail_write; limits).
  destruct (nsjail_write o1 line) as [o2 []]; [done|]. cbn [fst] in H2. unfold nsjail_spawn. limits.
Qed.

Lemma strace_line_limits (o : Observations) (line : string) : within_limits o → within_limits (strace_line o line).
Proof.
  intros Ho. unfold strace_line.
  assert (within_limits (strace_connect o line)) as H1
    by (unfold strace_connect; destruct (is_call _ _); cbn [andb]; [limits|done]).
  assert (within_limits (strace_openat (strace_connect o line) line)) as H2
    by (unfold strace_openat; destruct (is_call _ _ && _ && _ && _); cbn [andb]; [limits|done]).
  unfold strace_execve. destruct (is_call _ _ && _); cbn [andb]; [limits|done].
Qed.

Lemma docker_line_limits (o o' : Observations) (line : string) :
  within_limits o → docker_line o line = Some o' → within_limits o'.
Proof.
  intros Ho. unfold docker_line. set (lower := to_lowercase line). intros Hd.
  destruct (docker_network o lower line) as [[o1 stop]|] eqn:Hn; [|done]. cbn in Hd.
  assert (within_limits o1) as H1.
  { unfold docker_network in Hn. destruct (_ || _); [|by injection Hn as <- <-].
    destruct (Nat.ltb_spec (length (network_hosts o)) MAX_OBSERVED_NET_HOSTS); [|by injection Hn as <- <-].
    destruct (find_str _ _); [|injection Hn as <- <-; by apply limits_host].
    destruct (slice_from _ _); [|done]. cbn in Hn. destruct (is_empty _); injection Hn as <- <-; by apply limits_host. }
  destruct stop; injection Hd as <-; [done|].
  assert (within_limits (docker_write o1 lower line).1) as H2 by (unfold docker_write; limits).
  destruct (docker_write o1 lower line) as [o2 []]; [done|]. cbn [fst] in H2.
  unfold docker_spawn. destruct (_ || _); cbn [andb]; limits.
Qed.

Lemma foldl_limits (f : Observations → string → Observations) (ls : list string) (o : Observations) :
  (∀ o l, within_limits o → within_limits (f o l)) → within_limits o → within_limits (foldl f o ls).
Proof. intros Hf. revert o. induction ls as [|l ls IH]; intros o Ho; [done|]. apply IH, Hf, Ho. Qed.

Lemma no_observations_limits : within_limits no_observations.
Proof. unfold within_limits, MAX_OBSERVED_NET_HOSTS, MAX_OBSERVED_FS_WRITES, MAX_OBSERVED_SPAWNS. cbn. lia. Qed.

(** However long a log is, the parsers keep at most 500 hosts, 1000 writes and 500 processes. *)
Theorem observations_bounded (stderr : string) :
  within_limits (parse_nsjail_output stderr) ∧ within_limits (parse_strace_output stderr) ∧
  ∀ o, parse_docker_output stderr = Some o → within_limits o.
Proof.
  pose proof no_observations_limits as H0. split; [apply foldl_limits, H0; apply nsjail_line_limits|].
  split; [apply foldl_limits, H0; apply strace_line_limits|]. unfold parse_docker_output.
  generalize (lines (sanitize_control_characters stderr)). intros ls.
  cut (∀ s o, (∀ o, s = Some o → within_limits o) →
         foldl (λ o line, o ≫= λ o, docker_line o line) s ls = Some o → within_limits o).
  { intros Hc o. apply Hc. intros ? [= <-]. apply H0. }
  induction ls as [|l ls IH]; intros s o Hs Hd; [by apply Hs|]. cbn [foldl] in Hd. apply (IH _ _) in Hd; [done|].
  intros o' Ho'. destruct s as [s|]; [|done]. cbn in Ho'. eapply docker_line_limits; [by apply Hs|done].
Qed.

(** A line that records a write and nothing before it. *)
Definition write_line (line path : string) : Prop :=
  str_contains "connect(" line = false ∧ str_contains "open(" line = true ∧ write_flags line = true ∧
  between quote line = Some path ∧ path ≠ "".

(** A line that the preparation of the log leaves alone. *)
Definition clean_line (line : string) : Prop :=
  sanitize_control_characters line = line ∧ free_of newline line = true ∧ drop_cr line = line.

Lemma sanitize_app (a b : string) :
  sanitize_control_characters (a +:+ b) = sanitize_control_characters a +:+ sanitize_control_characters b.
Proof.
  induction a as [|c a IH]; [done|]. rewrite app_cons_str. cbn [sanitize_control_characters]. by rewrite IH, app_cons_str.
Qed.

Lemma lines_repeat (line rest : string) (n : nat) :
  clean_line line →
  lines (sanitize_control_characters (repeat_str (line +:+ String newline "") n +:+ rest)) =
  replicate n line ++ lines (sanitize_control_characters rest).
Proof.
  intros (Hs & Hf & Hd). induction n as [|n IH]; [done|]. cbn [repeat_str replicate app].
  rewrite !app_assoc_str, !sanitize_app, Hs. cbn [sanitize_control_characters].
  change (String newline "" +:+ ?x) with (String newline x).
  match goal with |- context [String (if ?b then _ else _) _] => replace (if b then newline else "?"%char) with newline by done end.
  rewrite app_cons_str. change ("" +:+ ?x) with x. unfold lines in *. rewrite split_lines_line by done.
  change ("" +:+ line) with line. rewrite Hd. f_equal. rewrite <- IH. by rewrite sanitize_app.
Qed.

Lemma nsjail_network_writes (o : Observations) (line : string) : fs_writes (nsjail_network o line).1 = fs_writes o.
Proof. unfold nsjail_network. repeat case_match; done. Qed.

Lemma nsjail_spawn_writes (o : Observations) (line : string) : fs_writes (nsjail_spawn o line) = fs_writes o.
Proof. unfold nsjail_spawn. repeat case_match; done. Qed.

Lemma full_writes_stay (o : Observations) (ls : list string) :
  MAX_OBSERVED_FS_WRITES ≤ length (fs_writes o) → fs_writes (foldl nsjail_line o ls) = fs_writes o.
Proof.
  revert o. induction ls as [|line ls IH]; intros o Hl; [done|]. cbn [foldl].
  assert (fs_writes (nsjail_line o line) = fs_writes o) as He; [|rewrite IH; by rewrite He].
  unfold nsjail_line. pose proof (nsjail_network_writes o line) as Hn. destruct (nsjail_network o line) as [o1 stop].
  cbn [fst] in Hn. destruct stop; [done|]. unfold nsjail_write.
  destruct (_ && _); [|by rewrite nsjail_spawn_writes]. rewrite Hn. by destruct (Nat.leb_spec MAX_OBSERVED_FS_WRITES (length (fs_writes o))); [|lia].
Qed.

Lemma write_line_step (o : Observations) (line path : string) :
  write_line line path → length (fs_writes o) < MAX_OBSERVED_FS_WRITES → nsjail_line o line = push_write o path.
Proof.
  intros (Hc & Ho & Hw & Hb & Hp) Hl. unfold nsjail_line, nsjail_network. rewrite Hc. unfold nsjail_write.
  rewrite Ho, Hw. cbn [andb]. destruct (Nat.leb_spec MAX_OBSERVED_FS_WRITES (length (fs_writes o))); [lia|].
  rewrite Hb. cbn. by destruct path.
Qed.

Lemma write_lines (o : Observations) (line path : string) (n : nat) :
  write_line line path → length (fs_writes o) + n ≤ MAX_OBSERVED_FS_WRITES →
  fs_writes (foldl nsjail_line o (replicate n line)) = fs_writes o ++ replicate n path.
Proof.
  intros Hw. revert o. induction n as [|n IH]; intros o Hn; [by rewrite app_nil_r|].
  cbn [replicate foldl]. rewrite (write_line_step o line path) by (done || lia).
  rewrite IH; cbn [push_write fs_writes]; [by rewrite <- app_assoc|]. rewrite length_app. cbn. lia.
Qed.

(** A package that first writes a declared file a thousand times can write anywhere: whatever
    the log of the engine holds after that, the check reports no undeclared write. *)
Theorem flooded_log_hides_writes (m : PackageManifest) (line path rest : string) :
  clean_line line → write_line line path → write_allowed m path = true →
  let obs := parse_nsjail_output (repeat_str (line +:+ String newline "") 1000 +:+ rest) in
  fs_writes obs = replicate 1000 path ∧ fs_writes obs ≫= check_write m = [].
Proof.
  intros Hc Hw Ha. cbv zeta. unfold parse_nsjail_output. rewrite lines_repeat, foldl_app by done.
  assert (fs_writes (foldl nsjail_line no_observations (replicate 1000 line)) = replicate 1000 path) as Hf
    by (rewrite (write_lines no_observations line path); [done|done|]; unfold MAX_OBSERVED_FS_WRITES; cbn [no_observations fs_writes length]; lia).
  rewrite full_writes_stay by (rewrite Hf, length_replicate; unfold MAX_OBSERVED_FS_WRITES; lia). rewrite Hf. split; [done|].
  apply bind_nil, Forall_replicate. unfold check_write. by rewrite Ha.
Qed.

(** [strace -f -o] begins each line with the number of the process.  The parser only knows
    lines that begin with the call, or with [[pid n]], so such a log yields no observation. *)
Theorem strace_log_unread (stderr : string) :
  Forall (λ l, (∃ c l', l = String c l' ∧ is_digit c = true) ∧ str_contains "] " l = false)
    (lines (sanitize_control_characters stderr)) →
  parse_strace_output stderr = no_observations.
Proof.
  unfold parse_strace_output. generalize no_observations as o. induction 1 as [|l ls [(c & l' & -> & Hc) Hb] _ IH]; [done|].
  cbn [foldl]. assert (∀ call d call', call = String d call' → is_digit d = false → is_call call (String c l') = false) as Hn.
  { intros call d call' -> Hd. unfold is_call. apply orb_false_iff. split.
    - rewrite app_cons_str, starts_with_cons. destruct (Ascii.eqb_spec d c); [congruence|done].
    - apply not_true_is_false. intros Hs. apply str_contains_app_l in Hs. congruence. }
  unfold strace_line, strace_connect, strace_openat, strace_execve.
  by rewrite !(Hn "connect" "c"%char "onnect"), !(Hn "openat" "o"%char "penat"), !(Hn "execve" "e"%char "xecve") by done.
Qed.

(** The index of a match in the lower-case line is used in the line itself: if lower-casing made
    the line longer, the slice can end past the line, and the task panics. *)
Lemma lowercase_index_panics (o : Observations) (line : string) (idx : nat) :
  length (network_hosts o) < MAX_OBSERVED_NET_HOSTS →
  str_contains "getaddrinfo" (to_lowercase line) = true → find_str "enotfound " (to_lowercase line) = Some idx →
  String.length line < idx + 10 → docker_line o line = None.
Proof.
  intros Ho Hg Hf Hl. unfold docker_line, docker_network. rewrite Hg, !orb_true_r, Hf. cbn [orb].
  rewrite (proj2 (Nat.ltb_lt _ _) Ho). unfold slice_from. by rewrite (proj2 (Nat.ltb_lt _ _) Hl).
Qed.

(** *** The comparison of versions *)

Lemma added_nil (now before : list string) : added now before = [] ↔ now ⊆ before.
Proof.
  unfold added. split.
  - intros Hn x Hx. destruct (decide (x ∈ before)); [done|]. assert (x ∈ filter (λ x, x ∉ before) now) as Hf
      by (by apply list_elem_of_filter). rewrite Hn in Hf. by apply not_elem_of_nil in Hf.
  - intros Hs. induction now as [|x l IH]; [done|]. rewrite filter_cons_False by set_solver. apply IH. set_solver.
Qed.

Lemma forall_Some {A : Type} (P : A → Prop) (a : A) : (∀ p, Some a = Some p → P p) ↔ P a.
Proof. split; [auto|by intros Ha p [= <-]]. Qed.

Lemma fmap_nil {A B : Type} (f : A → B) (l : list A) : f <$> l = [] ↔ l = [].
Proof. by destruct l. Qed.

(** The comparison with the previous version finds nothing exactly when neither the manifest
    nor the observed behaviour has gained anything, and every host seen is declared by name. *)
Theorem diff_exact (m : PackageManifest) (r : SandboxResult) (pm : option PackageManifest) (pr : option SandboxResult) :
  df_findings (analyze m r pm pr) = [] ↔
  (∀ p, pm = Some p → allowed_network_hosts m ⊆ allowed_network_hosts p ∧ allowed_fs_writes m ⊆ allowed_fs_writes p ∧
                      (spawns_processes m = true → spawns_processes p = true)) ∧
  (∀ p, pr = Some p → observed_network_hosts r ⊆ observed_network_hosts p ∧ observed_fs_writes r ⊆ observed_fs_writes p ∧
                      observed_process_spawns r ⊆ observed_process_spawns p) ∧
  observed_network_hosts r ⊆ allowed_network_hosts m.
Proof.
  assert (∀ p, df_findings (manifest_diff m p) = [] ↔
            allowed_network_hosts m ⊆ allowed_network_hosts p ∧ allowed_fs_writes m ⊆ allowed_fs_writes p ∧
            (spawns_processes m = true → spawns_processes p = true)) as Hm.
  { intros p. cbn [manifest_diff df_findings]. rewrite !app_nil, !fmap_nil, !added_nil. f_equiv. f_equiv.
    destruct (spawns_processes m), (spawns_processes p); cbn; naive_solver. }
  assert (∀ p, df_findings (runtime_diff r p) = [] ↔
            observed_network_hosts r ⊆ observed_network_hosts p ∧ observed_fs_writes r ⊆ observed_fs_writes p ∧
            observed_process_spawns r ⊆ observed_process_spawns p) as Hr.
  { intros p. cbn [runtime_diff df_findings]. by rewrite !app_nil, !fmap_nil, !added_nil. }
  unfold analyze, undeclared_egress. cbn [df_findings append_diff]. rewrite !app_nil, fmap_nil, added_nil.
  rewrite Logic.and_assoc. f_equiv; [|f_equiv].
  - destruct pm as [p|]; cbn [from_option]; [by rewrite Hm, forall_Some|by split].
  - destruct pr as [p|]; cbn [from_option]; [by rewrite Hr, forall_Some|by split].
Qed.

(** A host declared by name is allowed by its resolved address, but the comparison takes the
    address for an undeclared host: contact with any host declared by name is reported. *)
Theorem declared_host_flagged (lookup : string → option (list string)) (m : PackageManifest) (r : SandboxResult)
    (pm : option PackageManifest) (pr : option SandboxResult) (host ip : string) (ips : list string) :
  host ∈ allowed_network_hosts m → is_ip_addr host = false → lookup (host +:+ ":443") = Some ips → ip ∈ ips →
  is_ip_addr ip = true → ip ∉ allowed_network_hosts m → ip ∈ observed_network_hosts r →
  check_host m (resolve_manifest_domains lookup (allowed_network_hosts m)) ip = [] ∧
  ∃ f, f ∈ df_findings (analyze m r pm pr) ∧ finding_id f = "DF004" ∧ finding_severity f = High.
Proof.
  intros Hh Hhn Hl Hi Hip Hni Ho. split.
  - unfold check_host. replace (host_allowed _ _ _) with true; [done|]. symmetry. apply host_allowed_spec.
    unfold host_declared. rewrite Hip. unfold resolve_manifest_domains. apply elem_of_list_to_set, list_elem_of_bind.
    exists host. split; [|done]. unfold resolve_host. rewrite Hhn, Hl. cbn. set_solver.
  - unfold analyze, undeclared_egress. cbn [df_findings]. eexists. split.
    + apply elem_of_app. right. apply list_elem_of_fmap. exists ip. split; [done|]. by apply list_elem_of_filter.
    + done.
Qed.

End Properties.

(** In the documented format of the log the first [addr=] opens the structure, not the address, so
    the address of a connection is never read. *)
Lemma documented_connect_unparsed (ip : string) :
  nsjail_addr ("[SECCOMP] connect(fd, addr={sa_family=AF_INET, addr=" +:+ ip +:+ ", port=443}, ...)") = None.
Proof. reflexivity. Qed.

(** ** Witnesses *)
Module SandboxWitness.
Import Toy.

Fixpoint lower (s : string) : string :=
  match s with
  | String a (String b s' as t) =>
      if (N_of_ascii a =? 196)%N && (N_of_ascii b =? 176)%N
      then String "i" (String (byte 204) (String (byte 135) (lower s')))      (* a dotted capital I *)
      else String (ascii_lower a) (lower t)
  | String a EmptyString => String (ascii_lower a) EmptyString
  | EmptyString => EmptyString
  end.

Fixpoint all_addr (s : string) : bool := match s with EmptyString => true | String c s' => addr_char c && all_addr s' end.

#[export] Instance toy_std : Std := {|
  to_lowercase := lower; is_ip_addr := λ s, all_addr s && str_contains "." s; debug_strings := join ", " |}.

Definition manifest (hosts writes : list string) : PackageManifest :=
  {| allowed_network_hosts := hosts; allowed_fs_writes := writes; spawns_processes := true; allowed_process_spawns := [];
     description := None |}.

Definition pkg (n : string) : PackageId := {| ecosystem := "npm"; name := n; version := "1.0.0" |}.

Definition write_log (path : string) : string := "[SECCOMP] open(" +:+ quote +:+ path +:+ quote +:+ ", O_WRONLY|O_CREAT)".

Definition engines (log : string) : Engines :=
  {| nsjail := Some (λ _ _, Ok (log, 0%Z)); gvisor := None; docker := None; has_wasm := λ _, false;
     wasm := λ _ _ _, Err "no wasm"; dev_sandbox := false; lookup_host := λ _, Some ["1.2.3.4"] |}.

Definition open_pkg : PackageManifest := manifest [] ["/etc"].
Definition strict_pkg : PackageManifest := manifest [] [].

Definition first_run : Cache * result SandboxError SandboxResult :=
  run (engines (write_log "/etc/passwd")) 10 ∅ (pkg "a") "tgz" open_pkg.

Definition no_result : SandboxResult := dev_result.
Definition r0 : SandboxResult := match first_run.2 with Ok r => r | Err _ => no_result end.

(** A second package with the same tarball and an empty manifest gets the clean result. *)
Lemma cached_verdict_ignores_manifest_witness :
  run (engines (write_log "/etc/passwd")) 10 first_run.1 (pkg "b") "tgz" strict_pkg = (first_run.1, Ok r0).
Proof.
  apply (cached_verdict_ignores_manifest (engines (write_log "/etc/passwd")) 10 ∅ first_run.1 (pkg "a") "tgz" open_pkg r0).
  - reflexivity.
  - vm_cast_no_check (@eq_refl _ (first_run.1, Ok (E := SandboxError) r0)).
  - reflexivity.
Defined.

Example strict_manifest_alone :
  sb_findings r0 = [] ∧
  match (run (engines (write_log "/etc/passwd")) 10 ∅ (pkg "b") "tgz" strict_pkg).2 with
  | Ok r => finding_id <$> sb_findings r = ["SB002"] | Err _ => False
  end.
Proof. split; vm_compute; reflexivity. Qed.

Lemma second_phase_repeats_first_witness :
  ∃ r', run_multiphase (engines (write_log "/etc/passwd")) 10 ∅ (pkg "b") "tgz" strict_pkg =
          ((run (engines (write_log "/etc/passwd")) 10 ∅ (pkg "b") "tgz" strict_pkg).1, Ok r') ∧
        finding_id <$> sb_findings r' = ["SB002"; "SB002"].
Proof.
  destruct (run (engines (write_log "/etc/passwd")) 10 ∅ (pkg "b") "tgz" strict_pkg) as [c [r|e]] eqn:Hr.
  - destruct (second_phase_repeats_first (engines (write_log "/etc/passwd")) 10 ∅ c (pkg "b") "tgz" strict_pkg r) as (r' & H1 & H2 & _).
    + vm_compute. reflexivity.
    + exact Hr.
    + apply (f_equal snd) in Hr. vm_compute in Hr. injection Hr as <-. vm_compute. reflexivity.
    + exists r'. split; [exact H1|]. rewrite H2. apply (f_equal snd) in Hr. vm_compute in Hr. injection Hr as <-.
      vm_compute. reflexivity.
  - apply (f_equal snd) in Hr. vm_compute in Hr. discriminate Hr.
Defined.

Definition no_engines : Engines :=
  {| nsjail := None; gvisor := None; docker := None; has_wasm := λ _, true; wasm := λ _ _ _, Err "no module";
     dev_sandbox := false; lookup_host := λ _, None |}.

Lemma no_engine_refuses_witness : run no_engines 10 ∅ (pkg "a") "tgz" open_pkg = (∅, Err NoEngine).
Proof. apply no_engine_refuses; try reflexivity. right. exists "no module". reflexivity. Defined.

Definition flood : string := repeat_str (write_log "/tmp/x" +:+ String newline "") 1000.

Lemma flooded_log_hides_writes_witness :
  fs_writes (parse_nsjail_output (flood +:+ write_log "/etc/passwd")) ≫= check_write (manifest [] ["/tmp"]) = [].
Proof.
  apply (flooded_log_hides_writes (manifest [] ["/tmp"]) (write_log "/tmp/x") "/tmp/x" (write_log "/etc/passwd"));
    repeat split; try (vm_compute; reflexivity). discriminate.
Defined.

Definition strace_log : string :=
  "17  execve(" +:+ quote +:+ "/bin/sh" +:+ quote +:+ ", [], 0x1) = 0" +:+ String newline
  ("18  openat(AT_FDCWD, " +:+ quote +:+ "/tmp/x" +:+ quote +:+ ", O_WRONLY) = 3").

Lemma strace_log_unread_witness : parse_strace_output strace_log = no_observations.
Proof.
  apply strace_log_unread. vm_compute lines. repeat (apply Forall_cons_2; [split; [do 2 eexists; split; reflexivity|reflexivity]|]).
  apply Forall_nil_2.
Defined.

Definition evil_line : string :=
  "getaddrinfo " +:+ String (byte 196) (String (byte 176) (String (byte 196) (String (byte 176) " ENOTFOUND "))).

Example docker_log_panics : parse_docker_output evil_line = None.
Proof. reflexivity. Qed.

Definition contact : SandboxResult :=
  {| sb_findings := []; observed_network_hosts := ["1.2.3.4"]; observed_fs_writes := []; observed_process_spawns := [];
     engine_used := "nsjail"; sb_exit_code := 0; observations_count := 1; findings_count := 0 |}.

Lemma declared_host_flagged_witness :
  check_host (manifest ["cdn.example"] [])
    (resolve_manifest_domains (λ _, Some ["1.2.3.4"]) ["cdn.example"]) "1.2.3.4" = [] ∧
  ∃ f, f ∈ df_findings (analyze (manifest ["cdn.example"] []) contact None None) ∧ finding_id f = "DF004" ∧
       finding_severity f = High.
Proof.
  apply (declared_host_flagged (λ _, Some ["1.2.3.4"]) (manifest ["cdn.example"] []) contact None None "cdn.example" "1.2.3.4"
           ["1.2.3.4"]); try reflexivity; try (cbn; left).
  cbn. intros Hin. apply list_elem_of_singleton in Hin. discriminate Hin.
Defined.

End SandboxWitness.
