(* ===== verification/StaticAnalysis.v ===== *)
(** The static analysis of a package (validator/src/static_analysis.rs) and the typosquat check
    (typosquat.rs): the files of the tarball, the patterns, entropy and escapes, the package's
    identity, the pinned advisories, and the groups of evidence with their scores.

    Arguments: gzip and tar ([TarEntry]s), the JSON of package.json, [strsim::levenshtein], the
    language model, the feature scoring, the deep scan and the advisory lookup of [ml_validator].
    Scores are those of [Risk]. *)

From S2P Require Import Prelude Text Crypto Types Risk.
From Stdlib Require Import Ascii NArith ZArith.

(** ** typosquat.rs *)

Record TyposquatDataset := { ds_version : N; ds_packages : gmap string (list string) }.

Definition merge_names (mine : list string) (more : list string) : list string := foldl push_new mine more.

(** The entries of a [HashMap] in its order, which does not matter here. *)
Definition merge_from (self other : TyposquatDataset) : TyposquatDataset :=
  {| ds_version := N.max (ds_version self) (ds_version other);
     ds_packages := map_fold (λ ecosystem names m, <[ecosystem := merge_names (default [] (m !! ecosystem)) names]> m)
                      (ds_packages self) (ds_packages other) |}.

Record RuntimeState := { rt_dataset : option TyposquatDataset; last_fetched : option N }.

Definition REFRESH_TTL : N := 3600.

(** [maybe_refresh]: [url] is the variable CREG_TYPOSQUAT_URL, [fetched] the remote dataset when
    it could be read, times are seconds. *)
Definition maybe_refresh (baseline : TyposquatDataset) (url : option string) (now : N)
    (fetched : option TyposquatDataset) (state : RuntimeState) : RuntimeState :=
  match url with
  | None | Some EmptyString => state
  | Some _ =>
      let needs_refresh := match last_fetched state with None => true | Some t => (REFRESH_TTL <=? now - t)%N end in
      if needs_refresh then
        {| rt_dataset := match fetched with
                         | Some remote => Some (merge_from baseline remote)
                         | None => rt_dataset state
                         end;
           last_fetched := Some now |}
      else state
  end.

Record TyposquatMatch := { candidate : string; target : string; distance : N; tm_ecosystem : string }.

Fixpoint remove_chars (p : ascii → bool) (s : string) : string :=
  match s with
  | EmptyString => EmptyString
  | String c s' => if p c then remove_chars p s' else String c (remove_chars p s')
  end.

Definition separator_char (c : ascii) : bool := Ascii.eqb c "-" || Ascii.eqb c "_" || Ascii.eqb c ".".

Section Typosquat.
Context `{!Std}.
Variable levenshtein : string → string → N.

Definition normalise (name : string) : string :=
  remove_chars separator_char (default name (last (split "/" (trim_start_matches ["@"] (to_lowercase name))))).

Definition threshold (min_len : nat) : N := if (min_len <? 5)%nat then 0 else if (min_len <? 8)%nat then 1 else 2.

Definition edit_distance (normalised popular : string) : N := levenshtein normalised popular.

(** One popular name: [None] goes on, [Some None] stops at an exact match. *)
Definition check_candidate (name ecosystem popular : string) : option (option TyposquatMatch) :=
  let normalised := normalise name in
  let pop_norm := normalise popular in
  if String.eqb normalised pop_norm then Some None
  else
    let dist := edit_distance normalised pop_norm in
    let t := threshold (String.length normalised `min` String.length pop_norm) in
    if (0 <? dist)%N && (dist <=? t)%N
    then Some (Some {| candidate := name; target := popular; distance := dist; tm_ecosystem := ecosystem |})
    else None.

Fixpoint check_candidates (name ecosystem : string) (candidates : list string) : option TyposquatMatch :=
  match candidates with
  | [] => None
  | popular :: rest =>
      match check_candidate name ecosystem popular with
      | Some answer => answer
      | None => check_candidates name ecosystem rest
      end
  end.

Definition check (baseline : TyposquatDataset) (state : RuntimeState) (name ecosystem : string) : option TyposquatMatch :=
  candidates ← ds_packages (default baseline (rt_dataset state)) !! ecosystem;
  check_candidates name ecosystem candidates.

End Typosquat.

(** ** Patterns *)

Record Pattern := {
  pat_id : string;
  pat_description : string;
  pat_severity : FindingSeverity;
  needle : string;
  pat_ecosystem : option string;
}.

Definition pattern (id description : string) (s : FindingSeverity) (needle : string) (e : option string) : Pattern :=
  {| pat_id := id; pat_description := description; pat_severity := s; needle := needle; pat_ecosystem := e |}.

Definition default_patterns : list Pattern :=
  [ pattern "SA001" "Dynamic eval() of external or user-controlled data" Critical "eval(" (Some "npm");
    pattern "SA002" "Obfuscated base64 string decode at runtime" High "Buffer.from(" (Some "npm");
    pattern "SA003" "exec() / execSync() shell execution" Critical "execSync(" (Some "npm");
    pattern "SA004" "Spawns child processes (child_process.spawn)" Medium "child_process" (Some "npm");
    pattern "SA005" "Reads environment variables (potential credential harvesting)" Low "process.env" (Some "npm");
    pattern "SA006" "Raw HTTP request in install/postinstall hook" High "require('http')" (Some "npm");
    pattern "SA007" "Writes to home directory or system paths" High "os.homedir()" (Some "npm");
    pattern "SA008" "Crypto miner indicators" Critical "CryptoNight" None;
    pattern "SA020" "os.system() shell execution" Critical "os.system(" (Some "pypi");
    pattern "SA021" "subprocess.Popen() shell execution" High "subprocess.Popen(" (Some "pypi");
    pattern "SA022" "eval() in Python code" Critical "eval(" (Some "pypi");
    pattern "SA023" "exec() built-in usage" High "exec(" (Some "pypi");
    pattern "SA024" "Dynamic __import__ call" High "__import__(" (Some "pypi");
    pattern "SA025" "urllib.request or urllib2 HTTP outbound" Medium "urllib.request" (Some "pypi");
    pattern "SA026" "socket.connect() raw TCP" Medium "socket.connect(" (Some "pypi");
    pattern "SA027" "os.environ credential access" Low "os.environ" (Some "pypi");
    pattern "SA030" "std::process::Command shell execution" Medium "std::process::Command" (Some "cargo");
    pattern "SA031" "std::fs::write to suspicious path" Medium "std::fs::write" (Some "cargo");
    pattern "SA032" "unsafe block — may bypass memory safety" Low "unsafe {" (Some "cargo");
    pattern "SA040" "curl pipe to bash — remote code execution" Critical "curl " None;
    pattern "SA041" "wget pipe to shell — remote code execution" Critical "wget " None;
    pattern "SA042" "base64 decode then execute shell pattern" High "base64 -d" None;
    pattern "SA050" "Crypto miner stratum protocol connection" Critical "stratum+tcp://" None;
    pattern "SA051" "Reverse shell netcat pattern" Critical "nc -e" None;
    pattern "SA052" "Python eval-based reverse shell" Critical "pty.spawn" None ].

(** The list loaded from CREG_PATTERNS_FILE, when it could be. *)
Definition patterns (custom : option (list Pattern)) : list Pattern := default default_patterns custom.

Definition str_mem (l : list string) (s : string) : bool := existsb (String.eqb s) l.

Definition is_excused_by_manifest (pat : Pattern) (manifest : PackageManifest) : bool :=
  if str_mem ["SA001"; "SA003"; "SA022"; "SA023"] (pat_id pat) then false
  else if str_mem ["SA004"; "SA030"] (pat_id pat) then spawns_processes manifest
  else if str_mem ["SA006"; "SA025"; "SA026"] (pat_id pat) then negb (bool_decide (allowed_network_hosts manifest = []))
  else if str_mem ["SA007"; "SA031"] (pat_id pat) then negb (bool_decide (allowed_fs_writes manifest = []))
  else false.

Definition is_source_file (path : string) : bool :=
  str_mem ["js"; "ts"; "mjs"; "cjs"; "jsx"; "tsx"; "py"; "pyw"; "rb"; "rs"; "java"; "kt"; "groovy"; "scala";
           "sh"; "bash"; "zsh"; "fish"; "ksh"; "php"; "php5"; "phtml"; "go"; "c"; "cpp"; "cc"; "cxx"; "h"; "hpp";
           "swift"; "m"; "lua"; "ps1"; "psm1"] (extension path).

(** The first index of the list with the property, counted from 1. *)
Fixpoint find_index (p : string → bool) (n : N) (l : list string) : option N :=
  match l with
  | [] => None
  | x :: l' => if p x then Some (n + 1)%N else find_index p (n + 1) l'
  end.

Definition find_line_number (content needle : string) : option N := find_index (str_contains needle) 0 (lines content).

(** ** Escapes *)

Definition is_octal (c : ascii) : bool := ((48 <=? N_of_ascii c) && (N_of_ascii c <=? 55))%N.

Definition backslash : ascii := byte 92.

Definition hex_digits (s : string) : nat := String.length (take_while is_hexdigit s).

(** The length of an escape with braces, from the text after the opening one. *)
Definition braced_len (rest : string) : nat :=
  let digits := hex_digits rest in
  match drop_str digits rest with
  | String c _ => if Ascii.eqb c "}" && (0 <? digits)%nat then digits + 4 else 0
  | EmptyString => 0
  end.

(** The number of bytes of the escape at the start of the text, 0 when there is none. *)
Definition escape_len (s : string) : nat :=
  match s with
  | String b (String next rest) =>
      if Ascii.eqb b backslash then
        if Ascii.eqb next "x" then
          match rest with
          | String h1 (String h2 _) => if is_hexdigit h1 && is_hexdigit h2 then 4 else 0
          | _ => 0
          end
        else if Ascii.eqb next "u" then
          match rest with
          | String h1 (String h2 (String h3 (String h4 _))) =>
              if is_hexdigit h1 && is_hexdigit h2 && is_hexdigit h3 && is_hexdigit h4 then 6
              else if Ascii.eqb h1 "{" then braced_len (drop_str 1 rest) else 0
          | String h1 (String _ _) => if Ascii.eqb h1 "{" then braced_len (drop_str 1 rest) else 0
          | _ => 0
          end
        else if is_octal next then
          match rest with
          | String o1 (String o2 _) => if is_octal o1 then if is_octal o2 then 4 else 3 else 2
          | String o1 EmptyString => if is_octal o1 then 3 else 2
          | EmptyString => 2
          end
        else 0
      else 0
  | _ => 0
  end.

(** The loop, with the length of the line as fuel. *)
Fixpoint count_escapes (fuel : nat) (s : string) : nat * nat :=
  match fuel, s with
  | S fuel', String _ rest =>
      match escape_len s with
      | O => count_escapes fuel' rest
      | n => let (c, b) := count_escapes fuel' (drop_str n s) in (S c, n + b)
      end
  | _, _ => (0, 0)
  end.

Definition check_escape_density (line : string) : option (nat * nat) :=
  let (count, escape_bytes) := count_escapes (String.length line) line in
  if (8 <=? count)%nat then Some (count, escape_bytes) else None.

(** ** Files *)

(** [from_utf8(..).is_ok()] *)
Definition cont (lo hi : N) (c : ascii) : bool := ((lo <=? N_of_ascii c) && (N_of_ascii c <=? hi))%N.

Fixpoint utf8_valid (s : string) : bool :=
  match s with
  | EmptyString => true
  | String a s1 =>
      let n := N_of_ascii a in
      if (n <? 128)%N then utf8_valid s1
      else
        match s1 with
        | EmptyString => false
        | String b s2 =>
            if (194 <=? n)%N && (n <=? 223)%N then cont 128 191 b && utf8_valid s2
            else
              match s2 with
              | EmptyString => false
              | String c s3 =>
                  if (n =? 224)%N then cont 160 191 b && cont 128 191 c && utf8_valid s3
                  else if (n =? 237)%N then cont 128 159 b && cont 128 191 c && utf8_valid s3
                  else if (225 <=? n)%N && (n <=? 239)%N then cont 128 191 b && cont 128 191 c && utf8_valid s3
                  else
                    match s3 with
                    | EmptyString => false
                    | String d s4 =>
                        (if (n =? 240)%N then cont 144 191 b
                         else if (n =? 244)%N then cont 128 143 b
                         else (241 <=? n)%N && (n <=? 243)%N && cont 128 191 b)
                        && cont 128 191 c && cont 128 191 d && utf8_valid s4
                    end
              end
        end
  end.

(** An entry of the archive: path, size in its header, and bytes. *)
Record TarEntry := { te_path : string; te_size : N; te_bytes : string }.

(** [entry.take(n)] *)
Fixpoint take_bytes (n : N) (s : string) : string :=
  match s with
  | EmptyString => EmptyString
  | String c s' => if (n =? 0)%N then EmptyString else String c (take_bytes (n - 1) s')
  end.

(** What the loop does with an entry: a readable file, an oversized path, or nothing. *)
Definition read_entry (limit : N) (e : TarEntry) : option ((string * string) + string) :=
  if (limit <? te_size e)%N then Some (inr (te_path e))
  else
    let content := take_bytes (limit + 1) (te_bytes e) in
    if utf8_valid content && negb (is_empty content)
    then Some (if (limit <? N.of_nat (String.length content))%N then inr (te_path e) else inl (te_path e, content))
    else None.

Definition lefts {A B : Type} (l : list (A + B)) : list A := omap (λ x, match x with inl a => Some a | inr _ => None end) l.
Definition rights {A B : Type} (l : list (A + B)) : list B := omap (λ x, match x with inr b => Some b | inl _ => None end) l.

Definition extract_text_files (limit : N) (entries : list TarEntry) : list (string * string) * list string :=
  let read := omap (read_entry limit) entries in
  (lefts read, rights read).

(** ** Identity *)

Class PackageJson := {
  (** [from_str(content)] is a document whose key holds a string *)
  json_str : string → string → option string;
}.

Definition toml_value (rest : string) : string :=
  trim (trim_end_matches [quote] (trim_start_matches [" "; "="; quote] rest)).

Definition py_value (line : string) : string :=
  let chars := [quote; String (byte 39) EmptyString; " "] in
  let v := match find_str "=" line with Some i => drop_str (S i) line | None => "" end in
  trim_end_matches chars (trim_start_matches chars (trim v)).

(** One line of Cargo.toml: the last name and the first version stay. *)
Definition cargo_line (nv : string * string) (line : string) : string * string :=
  let name := match toml_value <$> strip_prefix "name" line with
              | Some n => if is_empty n then nv.1 else n | None => nv.1 end in
  let version := match toml_value <$> strip_prefix "version" line with
                 | Some v => if negb (is_empty v) && is_empty nv.2 then v else nv.2 | None => nv.2 end in
  (name, version).

Definition python_line (nv : string * string) (line : string) : string * string :=
  let start := trim_start line in
  let n := py_value line in
  ( (if starts_with "name" start && negb (is_empty n) then n else nv.1),
    (if starts_with "version" start && negb (is_empty n) && is_empty nv.2 then n else nv.2) ).

Definition or_zero (version : string) : string := if is_empty version then "0.0.0" else version.

Definition identity_of `{!PackageJson} (file : string * string) : option (string * string * string) :=
  let (path, content) := file in
  let npm :=
    if ends_with "package.json" path
    then (λ name, (name, default "0.0.0" (json_str content "version"), "npm")) <$> json_str content "name" else None in
  let cargo :=
    if ends_with "Cargo.toml" path then
      let (name, version) := foldl cargo_line ("", "") (lines content) in
      if is_empty name then None else Some (name, or_zero version, "cargo")
    else None in
  let python :=
    if ends_with "setup.py" path || ends_with "setup.cfg" path || ends_with "pyproject.toml" path then
      let (name, version) := foldl python_line ("", "") (lines content) in
      if is_empty name then None else Some (name, or_zero version, "pypi")
    else None in
  match npm, cargo with
  | Some i, _ => Some i
  | None, Some i => Some i
  | None, None => python
  end.

Definition extract_package_identity `{!PackageJson} (files : list (string * string)) : string * string * string :=
  default ("", "", "") (head (omap identity_of files)).

(** ** Findings *)

Definition static_finding (id title : string) (s : FindingSeverity) (description file : string) (line : option N)
    : Finding :=
  {| finding_id := id; finding_title := title; finding_severity := s; finding_description := description;
     finding_file := file; finding_line := line |}.

Definition pattern_applies (ecosystem : string) (pat : Pattern) : bool :=
  match pat_ecosystem pat with None => true | Some e => eq_ignore_ascii_case e ecosystem end.

Definition pattern_finding (ecosystem : string) (manifest : PackageManifest) (path content : string) (pat : Pattern)
    : option Finding :=
  if pattern_applies ecosystem pat && str_contains (needle pat) content && negb (is_excused_by_manifest pat manifest)
  then Some (static_finding (pat_id pat) (pat_description pat) (pat_severity pat) (pat_description pat) path
               (find_line_number content (needle pat)))
  else None.

(** The answers of the other crates. *)
Record Features := { eval_count : N; network_calls : N; file_system_ops : N; obfuscation_indicators : N }.

Inductive ThreatClassification := Safe | Suspicious | LikelyMalicious | ConfirmedMalicious | Degraded.

Record OsvVulnerability := { osv_id : string; osv_summary : string; osv_severity : option string }.

Record OsvResult := { queried : bool; vulnerabilities : list OsvVulnerability }.

Definition osv_finding_class (severity : option string) : string * FindingSeverity :=
  let sev := to_ascii_uppercase (default "" severity) in
  if str_contains "CRITICAL" sev then ("OSV002", Critical)
  else if str_contains "HIGH" sev then ("OSV003", High) else ("OSV004", Medium).

Definition osv_finding (vuln : OsvVulnerability) : Finding :=
  let (id, severity) := osv_finding_class (osv_severity vuln) in
  static_finding id ("Known vulnerability: " +:+ osv_id vuln) severity
    (if is_empty (osv_summary vuln) then "Pinned OSV snapshot lists advisory " +:+ osv_id vuln +:+ "."
     else osv_id vuln +:+ " — " +:+ osv_summary vuln) "osv_snapshot" None.

(** [enabled] is [osv_consensus_enabled()], [lookup] the pinned snapshot. *)
Definition pinned_osv_findings (enabled : bool) (lookup : string → string → string → OsvResult)
    (name version ecosystem : string) : list Finding :=
  if negb enabled || is_empty (trim name) then []
  else
    let result := lookup name (if is_empty (trim version) then "0.0.0" else version) ecosystem in
    if negb (queried result) then
      [static_finding "OSV001" "Pinned OSV snapshot unavailable" Medium
         "Consensus OSV is enabled but the local pinned snapshot is missing, unreadable, or epoch-mismatched. Known CVEs were not checked."
         "osv_snapshot" None]
    else osv_finding <$> take 8 (vulnerabilities result).

Definition check_typosquatting_real (m : option TyposquatMatch) : option Finding :=
  (λ m, static_finding "SA010" "Typosquatting detected" Critical
          ("Possible typosquatting: '" +:+ candidate m +:+ "' is edit distance " +:+ fmt_N (distance m) +:+
           " from popular package '" +:+ target m +:+ "'") "package manifest" None) <$> m.

(** ** Groups and scores *)

Inductive EvidenceDeterminism := Deterministic | Advisory.

Section Analysis.
Context `{!Scores, !Std, !PackageJson}.

Record EvidenceGroup := {
  eg_id : string;
  eg_label : string;
  determinism : EvidenceDeterminism;
  eg_score : Score;
  eg_findings : list Finding;
}.

Record StaticAnalysisResult := {
  evidence_groups : list EvidenceGroup;
  st_findings : list Finding;
  deterministic_score : Score;
  advisory_score : Score;
  ensemble_score : Score;
}.

Definition zero_score : Score := dec 0 0.

Definition severity_score (s : FindingSeverity) : Score :=
  match s with Critical => dec 100 0 | High => dec 75 0 | Medium => dec 50 0 | Low => dec 25 0 end.

Definition any_id (id : string) (findings : list Finding) : bool := existsb (λ f, String.eqb (finding_id f) id) findings.

Definition max_of (scores : list Score) : Score := foldl score_max zero_score scores.

Definition group_score (id : string) (findings : list Finding) : Score :=
  if String.eqb id "static-patterns" then
    max_of ((λ f, severity_score (finding_severity f)) <$>
            filter (λ f, negb (str_mem ["SA011"; "SA012"] (finding_id f)) = true) findings)
  else if String.eqb id "rule-ml" then
    if any_id "ML002" findings then dec 85 0 else if any_id "ML003" findings then dec 60 0 else zero_score
  else if String.eqb id "deep-scan" then
    if any_id "DS003" findings then dec 100 0
    else if any_id "DS002" findings then dec 75 0
    else if any_id "DS001" findings then dec 50 0
    else if any_id "ML001" findings then dec 40 0 else zero_score
  else if String.eqb id "snippet-llm" then
    max_of ((λ f, if String.eqb (finding_id f) "SA011"
                  then match finding_severity f with Critical => dec 90 0 | _ => dec 60 0 end
                  else if String.eqb (finding_id f) "SA012" then dec 55 0 else zero_score) <$> findings)
  else if String.eqb id "osv-pinned" then
    if any_id "OSV002" findings then dec 90 0
    else if any_id "OSV003" findings then dec 65 0
    else if any_id "OSV004" findings then dec 40 0
    else if any_id "OSV001" findings then dec 30 0 else zero_score
  else zero_score.

Definition build_evidence_group (id label : string) (d : EvidenceDeterminism) (findings : list Finding)
    : option EvidenceGroup :=
  match findings with
  | [] => None
  | _ => Some {| eg_id := id; eg_label := label; determinism := d; eg_score := group_score id findings;
                 eg_findings := findings |}
  end.

Definition score_for_group (groups : list EvidenceGroup) (id : string) : Score :=
  match find (λ g, String.eqb (eg_id g) id) groups with Some g => eg_score g | None => zero_score end.

(** [osv_block] is [osv_block_critical_enabled()]. *)
Definition compute_deterministic_score (osv_block : bool) (groups : list EvidenceGroup) : Score :=
  let weighted :=
    score_add (score_add (score_mul (score_for_group groups "static-patterns") (dec 30 2))
                         (score_mul (score_for_group groups "rule-ml") (dec 25 2)))
              (score_mul (score_for_group groups "deep-scan") (dec 30 2)) in
  let weight_sum := dec 85 2 in
  let '(weighted, weight_sum) :=
    if osv_block && existsb (λ g, String.eqb (eg_id g) "osv-pinned" && any_id "OSV002" (eg_findings g)) groups
    then (score_add weighted (score_mul (score_for_group groups "osv-pinned") (dec 15 2)), score_add weight_sum (dec 15 2))
    else (weighted, weight_sum) in
  if score_eqb weighted zero_score then zero_score else score_min (score_div weighted weight_sum) (dec 100 0).

Definition compute_advisory_score (groups : list EvidenceGroup) : Score :=
  score_max (score_for_group groups "snippet-llm") (score_for_group groups "osv-pinned").

Definition compute_ensemble_score (det adv : Score) : Score :=
  score_min (score_add (score_mul det (dec 85 2)) (score_mul adv (dec 15 2))) (dec 100 0).

(** ** Entropy *)

Definition entropy_threshold (env : string → option string) : Score :=
  default (dec 55 1) (env "CREG_ENTROPY_THRESHOLD" ≫= parse_f64).

Fixpoint count_byte (c : ascii) (s : string) : nat :=
  match s with EmptyString => 0 | String a s' => (if Ascii.eqb a c then 1 else 0) + count_byte c s' end.

Definition all_bytes : list ascii := (λ n, byte (N.of_nat n)) <$> seq 0 256.

Definition shannon_entropy (s : string) : Score :=
  let len := dec (N.of_nat (String.length s)) 0 in
  foldl score_add zero_score
    ((λ c, let p := score_div (dec (N.of_nat c) 0) len in score_mul (score_neg p) (score_log2 p)) <$>
     filter (λ c, 0 < c) ((λ b, count_byte b s) <$> all_bytes)).

Definition high_entropy (threshold : Score) (line : string) : bool :=
  score_ltb threshold (shannon_entropy line) && (80 <? String.length line)%nat.

Definition dense_escapes (line : string) : bool :=
  match check_escape_density line with
  | Some (_, escape_bytes) =>
      (0 <? String.length line)%nat &&
      score_leb (dec 15 2) (score_div (dec (N.of_nat escape_bytes) 0) (dec (N.of_nat (String.length line)) 0))
  | None => false
  end.

(** ** The run *)

Record Prediction := { threat_score : N; pred_confidence : Score; pred_features : Features; pred_entropy : Score }.

Record DeepScan := {
  is_mock : bool;
  model_version : string;
  malicious_probability : Score;
  classification : ThreatClassification;
}.

Record Environment := {
  env : string → option string;
  custom_patterns : option (list Pattern);
  predict_intent : string → result string (option N);
  predict : string → string → option Prediction;             (* features and score; [None]: the extraction failed *)
  osv_consensus : bool;
  osv_block : bool;
  osv_lookup : string → string → string → OsvResult;
  typosquat_check : string → string → option TyposquatMatch;
}.

Definition max_file_bytes (w : Environment) : N := default (5 * 1024 * 1024)%N (env w "CREG_STATIC_MAX_FILE_BYTES" ≫= parse_uint u64_max).

Definition oversized_finding (w : Environment) (path : string) : Finding :=
  static_finding "SA013" "File too large for static analysis" Medium
    ("'" +:+ path +:+ "' exceeds the static analysis file size limit (" +:+
     fmt0 (score_div (dec (max_file_bytes w) 0) (dec (1024 * 1024) 0)) +:+
     " MiB). The file was not pattern-scanned or entropy-checked. Increase CREG_STATIC_MAX_FILE_BYTES or investigate manually.")
    path None.

Definition intent_finding (answer : result string (option N)) (path : string) : list Finding :=
  match answer with
  | Ok (Some score) =>
      if (80 <=? score)%N then
        [static_finding "SA011" "AI-Verified Malicious Intent" Critical
           ("LLM semantic analysis indicates high probability (score: " +:+ fmt_N score +:+
            ") of malicious intent in obfuscated logic.") path None]
      else if (50 <=? score)%N then
        [static_finding "SA011" "AI-Suspicious Obfuscation" Medium
           ("LLM analysis flagged suspicious but inconclusive obfuscated logic (score: " +:+ fmt_N score +:+ ").") path None]
      else []
  | Ok None =>
      [static_finding "SA012" "LLM unavailable for obfuscated code" High
         "High-entropy code was flagged but the LLM semantic analyser was unavailable. Treating as unverified." path None]
  | Err e =>
      [static_finding "SA012" "LLM error for obfuscated code" High
         ("High-entropy code was flagged but the LLM semantic analyser returned an error: " +:+ e +:+
          ". Treating as unverified.") path None]
  end.

(** The findings of one source file, deterministic ones and those of the language model. *)
Definition scan_file (w : Environment) (ecosystem : string) (manifest : PackageManifest) (file : string * string)
    : list Finding * list Finding :=
  let (path, content) := file in
  let by_pattern := omap (pattern_finding ecosystem manifest path content) (patterns (custom_patterns w)) in
  let entropy_line := find_index (high_entropy (entropy_threshold (env w))) 0 (lines content) in
  let escape_line := find_index dense_escapes 0 (lines content) in
  ( by_pattern ++
    match entropy_line with
    | Some n => [static_finding "SA009" "High-entropy string detected" High
                   "High-entropy string — possible obfuscated payload" path (Some n)]
    | None => []
    end ++
    match escape_line with
    | Some n => [static_finding "SA014" "High character escape density" High
                   "Line contains high density of hex, unicode, or octal escape sequences, indicating possible code obfuscation."
                   path (Some n)]
    | None => []
    end,
    match entropy_line with Some _ => intent_finding (predict_intent w content) path | None => [] end ).

Definition rule_ml_findings (w : Environment) (ecosystem all_code : string) : list Finding :=
  if is_empty all_code then []
  else
    let extract_ecosystem := if String.eqb ecosystem "npm" || is_empty ecosystem then "npm" else ecosystem in
    match predict w extract_ecosystem all_code with
    | Some p =>
        let f := pred_features p in
        if (76 <=? threat_score p)%N then
          [static_finding "ML002" "Rule-Based ML: Malicious Threat Score" High
             ("Rule-based ML scoring detected malicious threat level (score: " +:+ fmt_N (threat_score p) +:+
              "/100, confidence: " +:+ fmt2 (pred_confidence p) +:+ "). Indicators: eval=" +:+ fmt_N (eval_count f) +:+
              ", network=" +:+ fmt_N (network_calls f) +:+ ", fs_ops=" +:+ fmt_N (file_system_ops f) +:+
              ", obfuscation=" +:+ fmt_N (obfuscation_indicators f) +:+ ", entropy=" +:+ fmt2 (pred_entropy p))
             "rule-based-ml" None]
        else if (51 <=? threat_score p)%N then
          [static_finding "ML003" "Rule-Based ML: Suspicious Threat Score" Medium
             ("Rule-based ML scoring flagged suspicious patterns (score: " +:+ fmt_N (threat_score p) +:+
              "/100, confidence: " +:+ fmt2 (pred_confidence p) +:+ ").") "rule-based-ml" None]
        else []
    | None => []
    end.

(** [deep] is the answer of [deep_scan], or the error of the scan or of its task, with the words
    that name it. *)
Definition deep_scan_findings (deep : result (string * string) DeepScan) : list Finding :=
  match deep with
  | Ok d =>
      (if is_mock d then
         [static_finding "ML001" "ML Deep Scan: Degraded Mode" Medium
            ("Multi-layer scan ran in degraded mode (version: " +:+ model_version d +:+
             "). Detection layers (YARA/OSV/ThreatIntel) may be partially unavailable.") "deep_scan" None] else []) ++
      match classification d with
      | ConfirmedMalicious =>
          [static_finding "DS003" "AI Deep Scan: Confirmed Malicious" Critical
             ("Multi-layer scan (YARA+OSV+ThreatIntel) indicates high probability (" +:+ fmt2 (malicious_probability d) +:+
              ") of malicious content.") "deep_scan" None]
      | LikelyMalicious =>
          [static_finding "DS002" "AI Deep Scan: Likely Malicious" High
             ("Multi-layer scan (YARA+OSV+ThreatIntel) indicates likely malicious content (probability: " +:+
              fmt2 (malicious_probability d) +:+ ").") "deep_scan" None]
      | Suspicious =>
          [static_finding "DS001" "AI Deep Scan: Suspicious" Medium
             ("Multi-layer scan (YARA+OSV+ThreatIntel) flagged suspicious patterns (probability: " +:+
              fmt2 (malicious_probability d) +:+ ").") "deep_scan" None]
      | Safe | Degraded => []
      end
  | Err (what, e) =>
      [static_finding "ML001" "ML Deep Scan: Unavailable" Medium
         (what +:+ ": " +:+ e +:+
          ". YARA/OSV/ThreatIntel detection was not performed. Package was analyzed with static rules only.")
         "deep_scan" None]
  end.

Definition opt_list {A : Type} (o : option A) : list A := match o with Some a => [a] | None => [] end.

Definition run (w : Environment) (entries : list TarEntry) (deep : string → result (string * string) DeepScan)
    (manifest : PackageManifest) : StaticAnalysisResult :=
  let (files, oversized) := extract_text_files (max_file_bytes w) entries in
  let '(pkg_name, pkg_version, ecosystem) := extract_package_identity files in
  let sources := filter (λ f, is_source_file f.1 = true) files in
  let scans := scan_file w ecosystem manifest <$> sources in
  let deterministic :=
    (oversized_finding w <$> oversized) ++ concat scans.*1 ++
    (if is_empty pkg_name then [] else opt_list (check_typosquatting_real (typosquat_check w pkg_name ecosystem))) in
  let snippet_llm := concat scans.*2 in
  let osv := pinned_osv_findings (osv_consensus w) (osv_lookup w) pkg_name pkg_version ecosystem in
  let rule_ml := rule_ml_findings w ecosystem (join (String newline EmptyString) sources.*2) in
  let groups :=
    omap id
      [build_evidence_group "static-patterns" "Static pattern and manifest evidence" Deterministic deterministic;
       build_evidence_group "snippet-llm" "Snippet-level semantic review" Advisory snippet_llm;
       build_evidence_group "osv-pinned" "Pinned OSV vulnerability advisories" Advisory osv;
       build_evidence_group "rule-ml" "Rule-based ML scoring" Deterministic rule_ml;
       build_evidence_group "deep-scan" "Deep scan threat classification" Deterministic
         (deep_scan_findings (deep ecosystem))] in
  let det := compute_deterministic_score (osv_block w) groups in
  let adv := compute_advisory_score groups in
  {| evidence_groups := groups; st_findings := groups ≫= eg_findings; deterministic_score := det; advisory_score := adv;
     ensemble_score := compute_ensemble_score det adv |}.

End Analysis.

(** ** Properties *)

Section Properties.
Context `{CR : !Crypto, SC : !Scores, SD : !Std, PJ : !PackageJson}.

(** *** Files *)

Lemma take_bytes_all (n : N) (s : string) : (N.of_nat (String.length s) ≤ n)%N → take_bytes n s = s.
Proof.
  revert n. induction s as [|c s IH]; intros n Hn; [done|]. cbn [take_bytes String.length] in *.
  destruct (N.eqb_spec n 0); [lia|]. by rewrite IH by lia.
Qed.

(** A file that is not valid UTF-8 is skipped without a trace: the static analysis of a
    package is the same with the file and without it. *)
Theorem invalid_text_unseen (w : Environment) (l1 l2 : list TarEntry) (e : TarEntry)
    (deep : string → result (string * string) DeepScan) (m : PackageManifest) :
  (te_size e ≤ max_file_bytes w)%N → utf8_valid (take_bytes (max_file_bytes w + 1) (te_bytes e)) = false →
  run w (l1 ++ e :: l2) deep m = run w (l1 ++ l2) deep m.
Proof.
  intros Hs Hu. assert (read_entry (max_file_bytes w) e = None) as Hr.
  { unfold read_entry. destruct (N.ltb_spec (max_file_bytes w) (te_size e)); [lia|]. by rewrite Hu. }
  assert (extract_text_files (max_file_bytes w) (l1 ++ e :: l2) = extract_text_files (max_file_bytes w) (l1 ++ l2)) as He.
  { unfold extract_text_files. rewrite !omap_app. cbn [omap list_omap]. by rewrite Hr. }
  unfold run. by rewrite He.
Qed.

(** *** The origin of findings *)

Definition fixed_ids : list string :=
  ["SA009"; "SA010"; "SA011"; "SA012"; "SA013"; "SA014"; "OSV001"; "OSV002"; "OSV003"; "OSV004";
   "ML001"; "ML002"; "ML003"; "DS001"; "DS002"; "DS003"].

Definition the_files (w : Environment) (entries : list TarEntry) : list (string * string) :=
  (extract_text_files (max_file_bytes w) entries).1.

Definition the_ecosystem (w : Environment) (entries : list TarEntry) : string :=
  (extract_package_identity (the_files w entries)).2.

Lemma group_findings (id label : string) (d : EvidenceDeterminism) (l : list Finding) (f : Finding) :
  f ∈ opt_list (build_evidence_group id label d l) ≫= eg_findings ↔ f ∈ l.
Proof. destruct l; cbn; [done|]. by rewrite app_nil_r. Qed.

Lemma omap_id_cons {A : Type} (o : option A) (l : list (option A)) : omap id (o :: l) = opt_list o ++ omap id l.
Proof. by destruct o. Qed.

(** The findings of a run are those of its five groups. *)
Lemma run_findings (w : Environment) (entries : list TarEntry) (deep : string → result (string * string) DeepScan)
    (m : PackageManifest) (f : Finding) :
  let files := the_files w entries in
  let '(n, v, eco) := extract_package_identity files in
  let scans := scan_file w eco m <$> filter (λ f, is_source_file f.1 = true) files in
  f ∈ st_findings (run w entries deep m) ↔
    (f ∈ oversized_finding w <$> (extract_text_files (max_file_bytes w) entries).2 ∨ f ∈ concat scans.*1 ∨
     f ∈ (if is_empty n then [] else opt_list (check_typosquatting_real (typosquat_check w n eco)))) ∨
    f ∈ concat scans.*2 ∨ f ∈ pinned_osv_findings (osv_consensus w) (osv_lookup w) n v eco ∨
    f ∈ rule_ml_findings w eco (join (String newline EmptyString) (filter (λ f, is_source_file f.1 = true) files).*2) ∨
    f ∈ deep_scan_findings (deep eco).
Proof.
  cbv zeta. unfold run, the_files.
  destruct (extract_text_files (max_file_bytes w) entries) as [files oversized]. cbn [fst snd].
  destruct (extract_package_identity files) as [[n v] eco]. cbn [st_findings].
  rewrite !omap_id_cons. cbn [omap list_omap]. rewrite !bind_app, !elem_of_app, !group_findings, !elem_of_app.
  cbn [mbind list_bind]. rewrite elem_of_nil. naive_solver.
Qed.

Ltac fixed_id H :=
  repeat (apply elem_of_app in H as [H|H]);
  first [ by apply elem_of_nil in H
        | apply list_elem_of_singleton in H as ->; apply (bool_decide_unpack _); vm_compute; exact I ].

Lemma intent_ids (answer : result string (option N)) (path : string) (f : Finding) :
  f ∈ intent_finding answer path → finding_id f ∈ fixed_ids.
Proof. unfold intent_finding. intros Hf. repeat case_match; fixed_id Hf. Qed.

Lemma osv_ids (b : bool) (lookup : string → string → string → OsvResult) (n v e : string) (f : Finding) :
  f ∈ pinned_osv_findings b lookup n v e → finding_id f ∈ fixed_ids.
Proof.
  unfold pinned_osv_findings. intros Hf. case_match; [fixed_id Hf|]. case_match; [fixed_id Hf|].
  apply list_elem_of_fmap in Hf as (vuln & -> & _). unfold osv_finding, osv_finding_class.
  repeat case_match; simplify_eq/=; apply (bool_decide_unpack _); vm_compute; exact I.
Qed.

Lemma rule_ml_ids (w : Environment) (e code : string) (f : Finding) : f ∈ rule_ml_findings w e code → finding_id f ∈ fixed_ids.
Proof. unfold rule_ml_findings. intros Hf. repeat case_match; fixed_id Hf. Qed.

Lemma deep_ids (d : result (string * string) DeepScan) (f : Finding) : f ∈ deep_scan_findings d → finding_id f ∈ fixed_ids.
Proof. unfold deep_scan_findings. intros Hf. repeat case_match; fixed_id Hf. Qed.

Definition by_pattern (w : Environment) (eco : string) (m : PackageManifest) (files : list (string * string)) (f : Finding)
    : Prop :=
  ∃ path content pat, (path, content) ∈ files ∧ is_source_file path = true ∧ pat ∈ patterns (custom_patterns w) ∧
    pattern_finding eco m path content pat = Some f.

Lemma elem_of_concat {A : Type} (x : A) (ls : list (list A)) : x ∈ concat ls ↔ ∃ l, x ∈ l ∧ l ∈ ls.
Proof. rewrite list_elem_of_In, in_concat. setoid_rewrite list_elem_of_In. naive_solver. Qed.

Lemma scan_origin (w : Environment) (eco : string) (m : PackageManifest) (files : list (string * string)) (f : Finding) :
  let scans := scan_file w eco m <$> filter (λ f, is_source_file f.1 = true) files in
  f ∈ concat scans.*1 ∨ f ∈ concat scans.*2 → by_pattern w eco m files f ∨ finding_id f ∈ fixed_ids.
Proof.
  cbv zeta. intros Hf.
  assert (∃ path content, (path, content) ∈ files ∧ is_source_file path = true ∧
            (f ∈ (scan_file w eco m (path, content)).1 ∨ f ∈ (scan_file w eco m (path, content)).2))
    as (path & content & Hin & Hsrc & Hs).
  { destruct Hf as [Hf|Hf]; apply elem_of_concat in Hf as (l & Hf & Hl);
      apply list_elem_of_fmap in Hl as (s & -> & Hl); apply list_elem_of_fmap in Hl as ([path content] & -> & Hl);
      apply list_elem_of_filter in Hl as [Hsrc Hin]; exists path, content; auto. }
  unfold scan_file in Hs. cbn [fst snd] in Hs. destruct Hs as [Hs|Hs].
  - apply elem_of_app in Hs as [Hs|Hs].
    + left. apply list_elem_of_omap in Hs as (pat & Hp & Hpf). by exists path, content, pat.
    + right. apply elem_of_app in Hs as [Hs|Hs]; case_match; fixed_id Hs.
  - right. case_match; [by eapply intent_ids|by apply elem_of_nil in Hs].
Qed.

(** Every finding of the stage is a pattern in a source file, or one of sixteen fixed ones. *)
Lemma finding_origin (w : Environment) (entries : list TarEntry) (deep : string → result (string * string) DeepScan)
    (m : PackageManifest) (f : Finding) :
  f ∈ st_findings (run w entries deep m) →
  by_pattern w (the_ecosystem w entries) m (the_files w entries) f ∨ finding_id f ∈ fixed_ids.
Proof.
  pose proof (run_findings w entries deep m f) as Hr. cbv zeta in Hr. unfold the_ecosystem.
  destruct (extract_package_identity (the_files w entries)) as [[n v] eco]. cbn [snd]. rewrite Hr. clear Hr.
  intros [[Hf|[Hf|Hf]]|[Hf|[Hf|[Hf|Hf]]]].
  - right. apply list_elem_of_fmap in Hf as (p & -> & _). cbn. set_solver.
  - apply (scan_origin w eco m). by left.
  - right. destruct (is_empty n); [by apply elem_of_nil in Hf|].
    destruct (typosquat_check w n eco); cbn in Hf; [|by apply elem_of_nil in Hf].
    apply list_elem_of_singleton in Hf as ->. cbn. set_solver.
  - apply (scan_origin w eco m). by right.
  - right. by eapply osv_ids.
  - right. by eapply rule_ml_ids.
  - right. by eapply deep_ids.
Qed.
(** *** Patterns *)

(** The default patterns that only apply to npm or PyPI packages. *)
Definition scoped_ids : list string :=
  pat_id <$> filter (λ p, pat_ecosystem p = Some "npm" ∨ pat_ecosystem p = Some "pypi") default_patterns.

Lemma scoped_not_cargo :
  forallb (λ p, negb (pattern_applies "cargo" p) || negb (str_mem scoped_ids (pat_id p))) default_patterns = true.
Proof. vm_compute. reflexivity. Qed.

Lemma str_mem_spec (l : list string) (s : string) : str_mem l s = true ↔ s ∈ l.
Proof.
  unfold str_mem. rewrite existsb_elem. setoid_rewrite String.eqb_eq. naive_solver.
Qed.

Lemma forallb_elem {A : Type} (p : A → bool) (l : list A) (x : A) : forallb p l = true → x ∈ l → p x = true.
Proof. rewrite forallb_forall. intros Hf Hx. apply Hf. by apply list_elem_of_In. Qed.

(** The ecosystem of a package is taken from the first manifest file in its tarball, not from
    the request.  A Cargo.toml in front switches off every pattern for npm and for PyPI, whatever
    the other files hold. *)
Theorem foreign_manifest_hides_patterns (w : Environment) (e : TarEntry) (rest : list TarEntry)
    (deep : string → result (string * string) DeepScan) (m : PackageManifest) (file : string * string) (n v : string) :
  custom_patterns w = None → read_entry (max_file_bytes w) e = Some (inl file) →
  identity_of file = Some (n, v, "cargo") →
  ∀ f, f ∈ st_findings (run w (e :: rest) deep m) → finding_id f ∉ scoped_ids.
Proof.
  intros Hw He Hi f Hf. apply finding_origin in Hf as [Hf|Hf].
  - assert (the_ecosystem w (e :: rest) = "cargo") as Heco.
    { unfold the_ecosystem, the_files, extract_text_files, extract_package_identity. cbn [omap list_omap fst].
      rewrite He. cbn [lefts omap list_omap]. by rewrite Hi. }
    rewrite Heco in Hf. destruct Hf as (path & content & pat & _ & _ & Hp & Hpf).
    unfold patterns in Hp. rewrite Hw in Hp. cbn [default] in Hp. unfold pattern_finding in Hpf.
    destruct (pattern_applies "cargo" pat) eqn:Ha; [|done]. destruct (_ && negb _); [|done]. injection Hpf as <-.
    pose proof (forallb_elem _ _ _ scoped_not_cargo Hp) as Hs. cbn beta in Hs. rewrite Ha in Hs. cbn [negb orb] in Hs.
    apply negb_true_iff in Hs. intros Hin. apply str_mem_spec in Hin. unfold static_finding in Hin.
    cbn [finding_id] in Hin. congruence.
  - assert (forallb (λ i, negb (str_mem scoped_ids i)) fixed_ids = true) as Hd by (vm_compute; reflexivity).
    pose proof (forallb_elem _ _ _ Hd Hf) as Hs. cbn beta in Hs.
    apply negb_true_iff in Hs. intros Hin. apply str_mem_spec in Hin. congruence.
Qed.

Lemma pattern_reported (w : Environment) (entries : list TarEntry) (deep : string → result (string * string) DeepScan)
    (m : PackageManifest) (path content : string) (pat : Pattern) (f : Finding) :
  (path, content) ∈ the_files w entries → is_source_file path = true → pat ∈ patterns (custom_patterns w) →
  pattern_finding (the_ecosystem w entries) m path content pat = Some f → f ∈ st_findings (run w entries deep m).
Proof.
  intros Hin Hsrc Hp Hf. pose proof (run_findings w entries deep m f) as Hr. cbv zeta in Hr. unfold the_ecosystem in Hf.
  destruct (extract_package_identity (the_files w entries)) as [[n v] eco]. cbn [snd] in Hf. apply Hr. left; right; left.
  apply elem_of_concat. exists (scan_file w eco m (path, content)).1. split.
  - unfold scan_file. cbn [fst]. apply elem_of_app. left. apply list_elem_of_omap. by exists pat.
  - apply list_elem_of_fmap. eexists. split; [done|]. apply list_elem_of_fmap. eexists. split; [done|].
    by apply list_elem_of_filter.
Qed.

Lemma default_ids_deterministic (b : bool) :
  forallb (λ p, is_deterministic_finding b (pat_id p)) default_patterns = true.
Proof. destruct b; vm_compute; reflexivity. Qed.

(** A source file with the text of a default Critical pattern for the package's ecosystem
    blocks the package: whatever the other stages find and score, and whoever publishes it, the
    validator's disposition is to block. *)
Theorem critical_pattern_blocks (w : Environment) (entries : list TarEntry)
    (deep : string → result (string * string) DeepScan) (m : PackageManifest) (path content : string) (pat : Pattern)
    (cfg : RiskConfig) (pkg : PackageId) (more : list Finding) (det adv ens : Score) (llm : option bool)
    (b : AnalysisBundleRefs) (rep : ReputationAssessment) :
  custom_patterns w = None → (path, content) ∈ the_files w entries → is_source_file path = true →
  pat ∈ default_patterns → pat_severity pat = Critical →
  pattern_applies (the_ecosystem w entries) pat = true → str_contains (needle pat) content = true →
  is_excused_by_manifest pat m = false →
  rs_disposition (summarize cfg pkg (st_findings (run w entries deep m) ++ more) det adv ens llm b rep) = RdBlock.
Proof.
  intros Hw Hin Hsrc Hp Hsev Ha Hc He. apply blocked_iff. left.
  assert (pattern_finding (the_ecosystem w entries) m path content pat =
    Some (static_finding (pat_id pat) (pat_description pat) (pat_severity pat) (pat_description pat) path
            (find_line_number content (needle pat)))) as Hf by (unfold pattern_finding; by rewrite Ha, Hc, He).
  eexists. split; [apply elem_of_app; left; eapply (pattern_reported w entries deep m path content pat); try done|].
  { unfold patterns. by rewrite Hw. }
  split; [|done]. exact (forallb_elem _ _ _ (default_ids_deterministic _) Hp).
Qed.

(** Only the first eight advisories of a package are looked at: a Critical one after them
    has no effect. *)
Theorem later_advisories_dropped (name version ecosystem : string) (l rest : list OsvVulnerability) :
  length l = 8 →
  pinned_osv_findings true (λ _ _ _, {| queried := true; vulnerabilities := l ++ rest |}) name version ecosystem =
  pinned_osv_findings true (λ _ _ _, {| queried := true; vulnerabilities := l |}) name version ecosystem.
Proof.
  intros Hl. unfold pinned_osv_findings. cbn [negb orb queried vulnerabilities].
  by rewrite <- Hl, take_app_length, firstn_all.
Qed.

(** *** Escapes *)

Lemma length_drop_str (n : nat) (s : string) : String.length (drop_str n s) = String.length s - n.
Proof. revert s. induction n as [|n IH]; intros [|c s]; cbn [drop_str String.length]; [done..|]. rewrite IH. lia. Qed.

Lemma length_take_while (p : ascii → bool) (s : string) : String.length (take_while p s) ≤ String.length s.
Proof. induction s as [|c s IH]; cbn; [lia|]. destruct (p c); cbn; lia. Qed.

Lemma braced_len_bounds (rest : string) : braced_len rest = 0 ∨ 4 < braced_len rest ≤ String.length rest + 3.
Proof.
  unfold braced_len, hex_digits. set (d := String.length (take_while is_hexdigit rest)).
  pose proof (length_drop_str d rest) as Hl. destruct (drop_str d rest) as [|c r]; [by left|]. cbn in Hl.
  destruct (Ascii.eqb c "}"); cbn [andb]; [|by left]. destruct (Nat.ltb_spec 0 d); [right; lia|by left].
Qed.

Lemma escape_len_bounds (s : string) : escape_len s = 0 ∨ 2 ≤ escape_len s ≤ String.length s.
Proof.
  unfold escape_len. destruct s as [|b [|next rest]]; try (by left).
  destruct (Ascii.eqb b backslash); [|by left]. destruct (Ascii.eqb next "x").
  { destruct rest as [|h1 [|h2 r]]; try (by left). destruct (_ && _); [right; cbn; lia|by left]. }
  destruct (Ascii.eqb next "u").
  { destruct rest as [|h1 [|h2 r]]; try (by left).
    assert (∀ q, (if Ascii.eqb h1 "{" then braced_len (drop_str 1 (String h1 q)) else 0) = 0 ∨
                 2 ≤ (if Ascii.eqb h1 "{" then braced_len (drop_str 1 (String h1 q)) else 0) ≤ String.length q + 3) as Hb.
    { intros q. destruct (Ascii.eqb h1 "{"); [|by left]. cbn [drop_str]. pose proof (braced_len_bounds q). lia. }
    destruct r as [|h3 [|h4 r]].
    - pose proof (Hb (String h2 "")) as Hq. cbn [String.length] in *. lia.
    - pose proof (Hb (String h2 (String h3 ""))) as Hq. cbn [String.length] in *. lia.
    - pose proof (Hb (String h2 (String h3 (String h4 r)))) as Hq. cbn [String.length] in *.
      destruct (_ && _ && _ && _); lia. }
  destruct (is_octal next); [|by left]. right. destruct rest as [|o1 [|o2 r]]; [cbn; lia|destruct (is_octal o1); cbn; lia|].
  destruct (is_octal o1), (is_octal o2); cbn; lia.
Qed.

(** The scan of a line for escapes ends with the length of the line as fuel, and what it
    counts fits: each escape has two bytes or more, and all lie within the line. *)
Theorem escape_scan_total (fuel : nat) (line : string) :
  String.length line ≤ fuel →
  count_escapes fuel line = count_escapes (String.length line) line ∧
  (let (c, b) := count_escapes fuel line in 2 * c ≤ b ≤ String.length line).
Proof.
  assert (∀ f g s, String.length s ≤ f → String.length s ≤ g →
            count_escapes f s = count_escapes g s ∧ let (c, b) := count_escapes f s in 2 * c ≤ b ≤ String.length s) as Hx.
  { intros f. induction f as [|f IH]; intros g s Hf Hg.
    { destruct s; [|cbn in Hf; lia]. destruct g; cbn; (split; [done|lia]). }
    destruct s as [|a r]; [destruct g; cbn; (split; [done|lia])|]. destruct g as [|g]; [cbn in Hg; lia|].
    cbn [count_escapes]. cbn [String.length] in Hf, Hg.
    destruct (escape_len_bounds (String a r)) as [He|He].
    - rewrite He. destruct (IH g r) as [Hi Hb]; [lia|lia|]. split; [done|].
      destruct (count_escapes f r). cbn [String.length]. lia.
    - destruct (escape_len (String a r)) as [|n] eqn:Hn; [lia|]. cbn [String.length] in He.
      pose proof (length_drop_str (S n) (String a r)) as Hd. cbn [String.length] in Hd.
      destruct (IH g (drop_str (S n) (String a r))) as [Hi Hb]; [lia|lia|]. rewrite Hi in *. split; [done|].
      destruct (count_escapes g _) as [c b]. cbn [String.length]. lia. }
  intros Hl. by apply Hx.
Qed.

(** *** Typosquats *)

Lemma merge_from_lookup (self other : TyposquatDataset) (e : string) :
  ds_packages (merge_from self other) !! e =
    match ds_packages other !! e with
    | Some names => Some (merge_names (default [] (ds_packages self !! e)) names)
    | None => ds_packages self !! e
    end.
Proof.
  unfold merge_from. cbn [ds_packages]. revert e.
  apply (map_fold_weak_ind (λ r m, ∀ e, r !! e = match m !! e with
    | Some names => Some (merge_names (default [] (ds_packages self !! e)) names) | None => ds_packages self !! e end)).
  - intros e. by rewrite lookup_empty.
  - intros i names m r Hi IH e. destruct (decide (i = e)) as [->|Hne].
    + rewrite !lookup_insert_eq, IH, Hi. done.
    + by rewrite !lookup_insert_ne, IH by done.
Qed.

Definition listed (ds : TyposquatDataset) (e n : string) : Prop := ∃ l, ds_packages ds !! e = Some l ∧ n ∈ l.

(** Merging is union: nothing of the baseline is lost, everything remote is added. *)
Lemma listed_merge (self other : TyposquatDataset) (e n : string) :
  listed (merge_from self other) e n ↔ listed self e n ∨ listed other e n.
Proof.
  unfold listed. rewrite merge_from_lookup. destruct (ds_packages other !! e) as [names|] eqn:Ho.
  - split.
    + intros (l & [= <-] & Hn). apply foldl_push_new in Hn as [Hn|Hn]; [|right; by exists names].
      left. destruct (ds_packages self !! e); [by eexists|by apply elem_of_nil in Hn].
    + intros Hn. eexists. split; [done|]. apply foldl_push_new. destruct Hn as [(l & -> & Hn)|(l & [= ->] & Hn)]; auto.
  - split; [by left|]. by intros [?|(l & ? & _)].
Qed.

(** The requests to refresh the dataset: time, URL and what was fetched. *)
Definition refreshes (baseline : TyposquatDataset) (evs : list (N * option string * option TyposquatDataset))
    (s : RuntimeState) : RuntimeState :=
  foldl (λ s ev, maybe_refresh baseline ev.1.2 ev.1.1 ev.2 s) s evs.

Definition start : RuntimeState := {| rt_dataset := None; last_fetched := None |}.

(** No refresh can shrink the list of protected names: whatever was fetched, and however the
    fetches failed, every name compiled into the validator is in the dataset that is used. *)
Theorem refresh_keeps_baseline (baseline : TyposquatDataset) (evs : list (N * option string * option TyposquatDataset))
    (e n : string) :
  listed baseline e n → listed (default baseline (rt_dataset (refreshes baseline evs start))) e n.
Proof.
  intros Hn. assert (∀ s, listed (default baseline (rt_dataset s)) e n →
    listed (default baseline (rt_dataset (refreshes baseline evs s))) e n) as Hx; [|by apply Hx].
  unfold refreshes. induction evs as [|[[now url] fetched] evs IH]; intros s Hs; [done|]. cbn [foldl fst snd]. apply IH.
  unfold maybe_refresh. destruct url as [[|c u]|]; [done| |done].
  destruct (match last_fetched s with Some t => _ | None => _ end); [|done]. cbn [rt_dataset].
  destruct fetched; [|done]. cbn [default]. apply listed_merge. by left.
Qed.

Lemma check_candidates_Some (lev : string → string → N) (name eco : string) (l : list string) (m : TyposquatMatch) :
  check_candidates lev name eco l = Some m ↔
  ∃ l1 p l2, l = l1 ++ p :: l2 ∧ Forall (λ q, check_candidate lev name eco q = None) l1 ∧
             check_candidate lev name eco p = Some (Some m).
Proof.
  induction l as [|q l IH]; cbn [check_candidates].
  - split; [done|]. intros (l1 & p & l2 & Hl & _). by destruct l1.
  - destruct (check_candidate lev name eco q) as [a|] eqn:Hq.
    + split.
      * intros ->. exists [], q, l. done.
      * intros (l1 & p & l2 & Hl & Hf & Hp). destruct l1 as [|q' l1]; injection Hl as <- ->; [congruence|].
        apply Forall_cons in Hf as [Hf _]. congruence.
    + rewrite IH. split.
      * intros (l1 & p & l2 & -> & Hf & Hp). exists (q :: l1), p, l2. auto.
      * intros (l1 & p & l2 & Hl & Hf & Hp). destruct l1 as [|q' l1]; injection Hl as <- ->; [congruence|].
        apply Forall_cons in Hf as [_ Hf]. by exists l1, p, l2.
Qed.

(** A name is reported as a typosquat exactly for the first listed name of its ecosystem
    within the edit distance for their length, provided that no name before it in the list is the
    same after normalisation. *)
Theorem typosquat_exact (lev : string → string → N) (baseline : TyposquatDataset) (s : RuntimeState) (name eco : string)
    (m : TyposquatMatch) :
  check lev baseline s name eco = Some m ↔
  ∃ l1 p l2, ds_packages (default baseline (rt_dataset s)) !! eco = Some (l1 ++ p :: l2) ∧
    let close q := (0 < lev (normalise name) (normalise q) ≤
                    threshold (String.length (normalise name) `min` String.length (normalise q)))%N in
    Forall (λ q, normalise name ≠ normalise q ∧ ¬ close q) l1 ∧ normalise name ≠ normalise p ∧ close p ∧
    m = {| candidate := name; target := p; distance := lev (normalise name) (normalise p); tm_ecosystem := eco |}.
Proof.
  unfold check. assert (∀ q, check_candidate lev name eco q = None ↔
    normalise name ≠ normalise q ∧
    ¬ (0 < lev (normalise name) (normalise q) ≤
       threshold (String.length (normalise name) `min` String.length (normalise q)))%N) as Hnone.
  { intros q. unfold check_candidate, edit_distance. destruct (String.eqb_spec (normalise name) (normalise q)); [naive_solver|].
    destruct (N.ltb_spec 0 (lev (normalise name) (normalise q))), (N.leb_spec (lev (normalise name) (normalise q))
      (threshold (String.length (normalise name) `min` String.length (normalise q)))); cbn [andb];
      (split; [done || (intros _; split; [done|lia])|done || (intros [_ Hx]; exfalso; apply Hx; lia)]). }
  destruct (ds_packages _ !! eco) as [l|]; cbn [mbind option_bind].
  - rewrite check_candidates_Some. split.
    + intros (l1 & p & l2 & -> & Hf & Hp). exists l1, p, l2. split; [done|]. cbv zeta.
      split; [eapply Forall_impl; [done|]; intros q; apply Hnone|].
      unfold check_candidate, edit_distance in Hp. destruct (String.eqb_spec (normalise name) (normalise p)); [done|].
      split; [done|]. destruct (N.ltb_spec 0 (lev (normalise name) (normalise p))); [|done].
      destruct (N.leb_spec (lev (normalise name) (normalise p)) (threshold (String.length (normalise name) `min` String.length (normalise p)))); [|done].
      cbn in Hp. by injection Hp as <-.
    + intros (l1 & p & l2 & [= ->] & Hf & Hne & Hc & ->). exists l1, p, l2. split; [done|].
      split; [eapply Forall_impl; [done|]; intros q; apply Hnone|].
      unfold check_candidate, edit_distance. destruct (String.eqb_spec (normalise name) (normalise p)); [done|].
      rewrite (proj2 (N.ltb_lt _ _)), (proj2 (N.leb_le _ _)) by lia. done.
  - split; [done|]. by intros (l1 & p & l2 & ? & _).
Qed.

End Properties.

(** ** Witnesses *)
Module StaticWitness.
Import Toy ToyScores.

#[export] Instance toy_std : Std :=
  {| to_lowercase := to_ascii_lowercase; is_ip_addr := λ _, false; debug_strings := join ", " |}.

(** A stand-in for the JSON: the document is the name. *)
#[export] Instance toy_json : PackageJson := {| json_str doc key := if String.eqb key "name" then Some doc else None |}.

(** Levenshtein's distance with fuel, as in a textbook. *)
Fixpoint lev_fuel (fuel : nat) (a b : string) : N :=
  match fuel, a, b with
  | O, _, _ => 0
  | S _, EmptyString, _ => N.of_nat (String.length b)
  | S _, _, EmptyString => N.of_nat (String.length a)
  | S f, String x a', String y b' =>
      if Ascii.eqb x y then lev_fuel f a' b'
      else (1 + N.min (lev_fuel f a' b') (N.min (lev_fuel f a' b) (lev_fuel f a b')))%N
  end.

Definition lev (a b : string) : N := lev_fuel (S (String.length a + String.length b)) a b.

Definition w0 : Environment :=
  {| env := λ _, None; custom_patterns := None; predict_intent := λ _, Ok None; predict := λ _ _, None;
     osv_consensus := false; osv_block := false; osv_lookup := λ _ _ _, {| queried := false; vulnerabilities := [] |};
     typosquat_check := λ _ _, None |}.

Definition entry (path bytes : string) : TarEntry :=
  {| te_path := path; te_size := N.of_nat (String.length bytes); te_bytes := bytes |}.

Definition no_deep : string → result (string * string) DeepScan :=
  λ _, Ok {| is_mock := false; model_version := "1"; malicious_probability := dec 0 0; classification := Safe |}.

Definition no_manifest : PackageManifest :=
  {| allowed_network_hosts := []; allowed_fs_writes := []; spawns_processes := false; allowed_process_spawns := [];
     description := None |}.

Definition npm : TarEntry := entry "package/package.json" "evil".
Definition evil : TarEntry := entry "package/index.js" "eval(payload)".
Definition decoy : TarEntry := entry "a/Cargo.toml" ("name = " +:+ quote +:+ "x" +:+ quote).
Definition garbled : TarEntry := entry "package/index.js" ("eval(payload) //" +:+ String (byte 255) EmptyString).

Definition ids (entries : list TarEntry) : list string := finding_id <$> st_findings (run w0 entries no_deep no_manifest).

Example seen : ids [npm; evil] = ["SA001"] ∧ ids [decoy; npm; evil] = [] ∧ ids [npm; garbled] = [].
Proof. repeat split; vm_compute; reflexivity. Qed.

Lemma invalid_text_unseen_witness : run w0 [npm; garbled] no_deep no_manifest = run w0 [npm] no_deep no_manifest.
Proof. apply (invalid_text_unseen w0 [npm] [] garbled); [vm_compute; congruence | vm_compute; reflexivity]. Defined.

Lemma foreign_manifest_hides_patterns_witness :
  Forall (λ f, finding_id f ∉ scoped_ids) (st_findings (run w0 [decoy; npm; evil] no_deep no_manifest)).
Proof.
  apply Forall_forall.
  apply (foreign_manifest_hides_patterns w0 decoy [npm; evil] no_deep no_manifest (te_path decoy, te_bytes decoy) "x" "0.0.0");
    vm_compute; reflexivity.
Defined.

Definition sa001 : Pattern :=
  pattern "SA001" "Dynamic eval() of external or user-controlled data" Critical "eval(" (Some "npm").

Lemma critical_pattern_blocks_witness :
  rs_disposition (summarize RiskWitness.cfg0 RiskWitness.pkg0 (st_findings (run w0 [npm; evil] no_deep no_manifest) ++ [])
                    (dec 0 0) (dec 0 0) (dec 0 0) None default_bundles (RiskWitness.rep 100)) = RdBlock.
Proof.
  apply (critical_pattern_blocks w0 [npm; evil] no_deep no_manifest "package/index.js" "eval(payload)" sa001); try reflexivity.
  - vm_compute. right. left.
  - left.
Defined.

Definition advisory (id : string) (s : string) : OsvVulnerability := {| osv_id := id; osv_summary := ""; osv_severity := Some s |}.

Lemma later_advisories_dropped_witness :
  pinned_osv_findings true
    (λ _ _ _, {| queried := true; vulnerabilities := replicate 8 (advisory "A" "LOW") ++ [advisory "B" "CRITICAL"] |}) "p" "1" "npm" =
  pinned_osv_findings true (λ _ _ _, {| queried := true; vulnerabilities := replicate 8 (advisory "A" "LOW") |}) "p" "1" "npm".
Proof. apply later_advisories_dropped. reflexivity. Defined.

Lemma escape_scan_total_witness : count_escapes 100 "\x41" = count_escapes (String.length "\x41") "\x41".
Proof. destruct (escape_scan_total 100 "\x41") as [He _]; [cbn; lia | exact He]. Defined.

Definition base : TyposquatDataset := {| ds_version := 1; ds_packages := {[ "npm" := ["express"; "react"] ]} |}.

Lemma refresh_keeps_baseline_witness :
  listed (default base (rt_dataset (refreshes base [(0%N, Some "u", Some {| ds_version := 2; ds_packages := ∅ |}); (9%N, Some "u", None)] start)))
    "npm" "express".
Proof. apply refresh_keeps_baseline. exists ["express"; "react"]. split; [reflexivity | left]. Defined.

Example typosquats :
  target <$> check lev base start "expres" "npm" = Some "express" ∧ check lev base start "express" "npm" = None ∧
  check lev base start "recat" "npm" = None.
Proof. repeat split; vm_compute; reflexivity. Qed.

End StaticWitness.
