(* ===== verification/Report.v ===== *)
(** A validator's report and vote (validator/src/report.rs, pgp.rs and lib.rs): the stages applied
    in order, the risk summary, the external auditor and the vote.

    The stages are those of [StaticAnalysis], [Sandbox] and [Risk]; the language model's review,
    the OpenPGP library, the tar archive and the answers over HTTP are arguments. *)

From S2P Require Import Prelude Text Crypto Types ChainStore EvidenceVotes PublisherIndex Risk Sandbox StaticAnalysis.
From Stdlib Require Import Ascii NArith ZArith.

(** The OpenPGP library: armoured or binary keys and detached signatures. *)
Class Pgp := {
  PgpKey : Type;
  PgpSignature : Type;
  pgp_parse_key : string → result string PgpKey;
  pgp_parse_signature : string → result string PgpSignature;
  pgp_fingerprint : PgpKey → string;
  pgp_verify : PgpSignature → PgpKey → string → result string unit;
}.

Inductive RiskTier := TierClean | TierSuspicious | TierLikelyMalicious | TierConfirmedMalicious.

Definition fmt_tier (t : RiskTier) : string :=
  match t with
  | TierClean => "clean" | TierSuspicious => "suspicious" | TierLikelyMalicious => "likely_malicious"
  | TierConfirmedMalicious => "confirmed_malicious"
  end.

Definition from_score (score : N) : RiskTier :=
  if (score <=? 30)%N then TierClean else if (score <=? 59)%N then TierSuspicious
  else if (score <=? 79)%N then TierLikelyMalicious else TierConfirmedMalicious.

Record AuditProof := { ap_signature : string; ap_auditor_pubkey : string; ap_verdict : string }.

Record PgpResult := { pgp_findings : list Finding; fingerprint : option string }.

Section Report.
Context `{!Crypto, !Scores, !Std, !PackageJson, !Pgp}.

Record EntropyAlert := { ea_path : string; ea_entropy : Score; llm_analysed : bool }.

Record LlmReview := {
  maliciousness_score : N;
  risk_tier : RiskTier;
  package_summary : string;
  lr_findings : list Finding;
  high_entropy_files : list EntropyAlert;
  injection_patterns : list string;
  model_used : string;
  degraded : bool;
  degraded_reason : option string;
}.

Record ValidationReport := {
  vr_package : PackageId;
  vr_findings : list Finding;
  vr_bundles : AnalysisBundleRefs;
  vr_groups : list EvidenceGroup;
  vr_deterministic : Score;
  vr_advisory : Score;
  vr_ensemble : Score;
  vr_llm_review : option LlmReview;
}.

Definition report_new (package : PackageId) (bundles : AnalysisBundleRefs) : ValidationReport :=
  {| vr_package := package; vr_findings := []; vr_bundles := bundles; vr_groups := []; vr_deterministic := zero_score;
     vr_advisory := zero_score; vr_ensemble := zero_score; vr_llm_review := None |}.

Definition apply_static (r : ValidationReport) (s : StaticAnalysisResult) : ValidationReport :=
  {| vr_package := vr_package r; vr_findings := vr_findings r ++ st_findings s; vr_bundles := vr_bundles r;
     vr_groups := evidence_groups s; vr_deterministic := deterministic_score s; vr_advisory := advisory_score s;
     vr_ensemble := ensemble_score s; vr_llm_review := vr_llm_review r |}.

Definition max_deterministic_finding_score (findings : list Finding) : Score :=
  foldl score_max zero_score
    ((λ f, severity_score (finding_severity f)) <$>
     filter (λ f, negb (starts_with "LLM" (finding_id f)) && negb (str_mem ["SA011"; "SA012"] (finding_id f)) = true) findings).

(** [apply_sandbox], [apply_diff] and [apply_pgp] do the same with the findings of their stage. *)
Definition apply_findings (r : ValidationReport) (findings : list Finding) : ValidationReport :=
  let det := score_max (vr_deterministic r) (max_deterministic_finding_score findings) in
  {| vr_package := vr_package r; vr_findings := vr_findings r ++ findings; vr_bundles := vr_bundles r;
     vr_groups := vr_groups r; vr_deterministic := det; vr_advisory := vr_advisory r;
     vr_ensemble := score_max (vr_ensemble r) det; vr_llm_review := vr_llm_review r |}.

Definition apply_sandbox (r : ValidationReport) (s : SandboxResult) : ValidationReport := apply_findings r (sb_findings s).
Definition apply_diff (r : ValidationReport) (d : DiffResult) : ValidationReport := apply_findings r (df_findings d).
Definition apply_pgp (r : ValidationReport) (p : PgpResult) : ValidationReport := apply_findings r (pgp_findings p).

Definition report_finding (id title : string) (s : FindingSeverity) (description file : string) : Finding :=
  {| finding_id := id; finding_title := title; finding_severity := s; finding_description := description;
     finding_file := file; finding_line := None |}.

Definition newlines : string := String newline (String newline EmptyString).

Definition llm_assessment (review : LlmReview) : list Finding :=
  if (60 <=? maliciousness_score review)%N ||
     match risk_tier review with TierLikelyMalicious | TierConfirmedMalicious => true | _ => false end
  then
    [report_finding "LLM000"
       ("LLM Assessment: " +:+ fmt_tier (risk_tier review) +:+ " (score " +:+ fmt_N (maliciousness_score review) +:+ ")")
       (if (80 <=? maliciousness_score review)%N then Critical else High)
       ("Model '" +:+ model_used review +:+ "' assessed this package as '" +:+ fmt_tier (risk_tier review) +:+
        "' with a maliciousness score of " +:+ fmt_N (maliciousness_score review) +:+ "." +:+ newlines +:+
        "Summary: " +:+ package_summary review +:+ newlines +:+ "Injection patterns detected: " +:+
        match injection_patterns review with [] => "none" | ps => join ", " ps end) "llm-review"]
  else [].

Definition unverified_entropy (alert : EntropyAlert) : option Finding :=
  if llm_analysed alert then None
  else Some (report_finding "LLM-ENT" "High-entropy file not LLM-verified" Medium
    ("File '" +:+ ea_path alert +:+ "' has Shannon entropy " +:+ fmt2 (ea_entropy alert) +:+
     " bits/byte (threshold: 7.0) and was not submitted for LLM analysis (file limit reached or binary). Manual inspection recommended.")
    (ea_path alert)).

Definition skipped_entropy (alert : EntropyAlert) : Finding :=
  report_finding "LLM-ENT" "High-entropy file (LLM stage skipped)" Medium
    ("File '" +:+ ea_path alert +:+ "' has Shannon entropy " +:+ fmt2 (ea_entropy alert) +:+
     " bits/byte — possible obfuscated or encrypted payload. LLM stage was not available to verify intent.")
    (ea_path alert).

Definition llm_findings (review : LlmReview) : list Finding :=
  if negb (degraded review) then
    llm_assessment review ++ lr_findings review ++ omap unverified_entropy (high_entropy_files review)
  else
    report_finding "LLM-SKIP" "LLM Stage 4 skipped" Low
      ("The LLM-assisted review stage (Stage 4) was not executed: " +:+ default "unknown" (degraded_reason review) +:+
       ". Static analysis, sandbox, and ML stages still ran. Enable CREG_LLM_ENABLED=true and configure a provider key to activate deep semantic analysis.")
      "llm-review" :: (skipped_entropy <$> high_entropy_files review).

Definition apply_llm (r : ValidationReport) (review : LlmReview) : ValidationReport :=
  let adv := if degraded review then vr_advisory r else score_max (vr_advisory r) (dec (maliciousness_score review) 0) in
  {| vr_package := vr_package r; vr_findings := vr_findings r ++ llm_findings review; vr_bundles := vr_bundles r;
     vr_groups := vr_groups r; vr_deterministic := vr_deterministic r; vr_advisory := adv;
     vr_ensemble := if degraded review then vr_ensemble r
                    else score_add (score_mul (vr_deterministic r) (dec 6 1)) (score_mul adv (dec 4 1));
     vr_llm_review := Some review |}.

Definition grave (f : Finding) : bool :=
  match finding_severity f with Critical | High => true | _ => false end.

Definition has_critical_findings (findings : list Finding) : bool := existsb grave findings.

Definition critical_finding_summary (findings : list Finding) : string :=
  join "; " ((λ f, "[" +:+ finding_id f +:+ "] " +:+ finding_description f) <$> filter (λ f, grave f = true) findings).

(** ** pgp.rs *)

Definition verify_signature (tarball signature_bytes public_key_bytes : string) : PgpResult :=
  match pgp_parse_key public_key_bytes with
  | Err e =>
      {| pgp_findings := [report_finding "PGP001" "Invalid PGP public key" High
                            ("Could not parse publisher PGP public key: " +:+ e) "pgp"]; fingerprint := None |}
  | Ok pubkey =>
      match pgp_parse_signature signature_bytes with
      | Err e =>
          {| pgp_findings := [report_finding "PGP002" "Invalid PGP signature format" High
                                ("Could not parse PGP detached signature: " +:+ e) "pgp"]; fingerprint := None |}
      | Ok sig =>
          let fp := hex_encode (pgp_fingerprint pubkey) in
          match pgp_verify sig pubkey tarball with
          | Ok _ => {| pgp_findings := []; fingerprint := Some fp |}
          | Err e =>
              {| pgp_findings := [report_finding "PGP003" "PGP signature verification failed" Critical
                                    ("Tarball signature does not match public key (fp " +:+ fp +:+ "): " +:+ e) "pgp"];
                 fingerprint := Some fp |}
          end
      end
  end.

(** The fifth stage: it runs when the request has a signature and a key that decode. *)
Definition pgp_stage (req : PublishRequest) (tarball : string) : option PgpResult :=
  sig_hex ← req_pgp_signature req;
  pubk_hex ← req_pgp_public_key req;
  sig_bytes ← hex_decode sig_hex;
  pubk_bytes ← hex_decode pubk_hex;
  Some (verify_signature tarball sig_bytes pubk_bytes).

Definition pgp_revoked_finding (fp : string) : Finding :=
  report_finding "PGP004" "Revoked PGP key used for signing" Critical
    ("Package was signed with PGP key " +:+ fp +:+
     " which the publisher has declared revoked. This key may have been compromised. Reject until re-signed with a valid key.")
    "pgp".

(** The revocation check on the key that signed. *)
Definition check_pgp_revocation (fp : option string) (rep : ReputationAssessment) (findings : list Finding)
    : list Finding :=
  match fp with
  | Some fp => if existsb (λ r, eq_ignore_ascii_case r fp) (revoked_pgp_fps rep)
               then findings ++ [pgp_revoked_finding fp] else findings
  | None => findings
  end.

(** ** The auditor *)

Definition aaa_message (canonical content_hash verdict : string) : string :=
  "creg-aaa-v1|" +:+ canonical +:+ "|" +:+ content_hash +:+ "|" +:+ verdict.

Definition verify_aaa_proof (env : string → option string) (proof : AuditProof) (canonical content_hash : string)
    : bool :=
  match env "CREG_AAA_PUBKEY" with
  | None => false
  | Some pinned =>
      negb (is_empty (ap_signature proof)) && negb (is_empty (ap_auditor_pubkey proof)) &&
      eq_ignore_ascii_case (ap_auditor_pubkey proof) (trim pinned) &&
      default false (
        pubkey_bytes ← hex_decode (trim (ap_auditor_pubkey proof));
        vk ← vk_try_from pubkey_bytes;
        sig_bytes ← hex_decode (ap_signature proof);
        sig ← sig_try_from sig_bytes;
        Some (verify vk (aaa_message canonical content_hash (ap_verdict proof)) sig))
  end.

Definition aaa_enabled (env : string → option string) : bool :=
  match env "CREG_AAA_ENABLED" with Some v => String.eqb v "true" || String.eqb v "1" | None => false end.

(** The decision after the audit; [audit] is the auditor's answer on the report. *)
Definition after_audit (env : string → option string) (audit : list Finding → option AuditProof)
    (findings : list Finding) (canonical content_hash : string) (decision : FinalDecision) : FinalDecision :=
  if is_reject decision && aaa_enabled env then
    match audit findings with
    | Some proof =>
        if verify_aaa_proof env proof canonical content_hash && String.eqb (ap_verdict proof) "cleared"
        then DApprove 85 else decision
    | None => decision
    end
  else decision.

(** ** The pipeline *)

(** What the validator meets: its configuration, the archive, the engines, the review (given the
    earlier findings), the publisher's record, the auditor. *)
Record World := {
  w_env : string → option string;
  w_cfg : RiskConfig;
  w_epoch : string;
  w_untar : string → result string (list TarEntry);
  w_static : Environment;
  w_deep : string → result (string * string) DeepScan;
  w_engines : Engines;
  w_cache_max : nat;
  w_review : list Finding → LlmReview;
  w_publisher : nat → PublisherReply;
  w_audit : list Finding → option AuditProof;
}.

Record ValidationResult := {
  vote : ValidatorVote;
  pgp_fp : option string;
  v_findings : list Finding;
  analysis_bundles : AnalysisBundleRefs;
  v_risk : RiskSummary;
}.

(** The report after the first five stages. *)
Definition stage_report (w : World) (req : PublishRequest) (tarball : string) (static : StaticAnalysisResult)
    (sandbox : SandboxResult) (prev_manifest : option PackageManifest) (prev_sandbox : option SandboxResult)
    : ValidationReport :=
  let r := report_new (req_id req) (current_bundles (w_env w) (w_epoch w)) in
  let r := apply_static r static in
  let r := apply_sandbox r sandbox in
  let r := apply_diff r (analyze (req_manifest req) sandbox prev_manifest prev_sandbox) in
  let r := apply_llm r (w_review w (vr_findings r)) in
  from_option (apply_pgp r) r (pgp_stage req tarball).

Definition vote_of (decision : FinalDecision) (findings : list Finding) : ValidatorVote :=
  match decision with
  | DReject base _ =>
      Reject (if has_critical_findings findings then base +:+ "; " +:+ critical_finding_summary findings else base)
  | _ => Approve
  end.

Definition summary_of (w : World) (pkg : PackageId) (r : ValidationReport) (findings : list Finding)
    (rep : ReputationAssessment) : RiskSummary :=
  summarize (w_cfg w) pkg findings (vr_deterministic r) (vr_advisory r) (vr_ensemble r)
    (degraded <$> vr_llm_review r) (vr_bundles r) rep.

(** The decision on a report. *)
Definition conclude (w : World) (req : PublishRequest) (r : ValidationReport) (fp : option string)
    (rep : ReputationAssessment) : ValidationResult :=
  let findings := check_pgp_revocation fp rep (vr_findings r) in
  let risk := summary_of w (req_id req) r findings rep in
  let decision := after_audit (w_env w) (w_audit w) findings (canonical (req_id req)) (req_content_hash req)
                    (decide_risk risk) in
  {| vote := vote_of decision findings; pgp_fp := fp; v_findings := findings; analysis_bundles := vr_bundles r;
     v_risk := risk |}.

(** [validate_package], with the sandbox's cache and store as state. *)
Definition validate_package (w : World) (cache store : Cache) (req : PublishRequest) (tarball : string)
    (prev_manifest : option PackageManifest) (prev_sandbox : option SandboxResult)
    : (Cache * Cache) * result string ValidationResult :=
  match w_untar w tarball with
  | Err e => ((cache, store), Err e)
  | Ok entries =>
      let static := StaticAnalysis.run (w_static w) entries (w_deep w) (req_manifest req) in
      match Sandbox.run (w_engines w) (w_cache_max w) cache (req_id req) tarball (req_manifest req) with
      | (cache, Err _) => ((cache, store), Err "sandbox")
      | (cache, Ok sandbox) =>
          let store := store_result store (canonical (req_id req)) sandbox in
          let r := stage_report w req tarball static sandbox prev_manifest prev_sandbox in
          let fp := pgp_stage req tarball ≫= fingerprint in
          ((cache, store), Ok (conclude w req r fp (assess_publisher (w_publisher w))))
      end
  end.

End Report.

(** ** Properties *)

Section Properties.
Context `{CR : !Crypto, SC : !Scores, SD : !Std, PJ : !PackageJson, PG : !Pgp}.

Definition approves (v : ValidatorVote) : bool := match v with Approve => true | _ => false end.

Lemma validate_Ok (w : World) (cache store : Cache) (req : PublishRequest) (tarball : string)
    (pm : option PackageManifest) (ps : option SandboxResult) (st : Cache * Cache) (v : ValidationResult) :
  validate_package w cache store req tarball pm ps = (st, Ok v) →
  ∃ entries cache' sandbox,
    w_untar w tarball = Ok entries ∧
    Sandbox.run (w_engines w) (w_cache_max w) cache (req_id req) tarball (req_manifest req) = (cache', Ok sandbox) ∧
    st = (cache', store_result store (canonical (req_id req)) sandbox) ∧
    v = conclude w req
          (stage_report w req tarball (StaticAnalysis.run (w_static w) entries (w_deep w) (req_manifest req)) sandbox pm ps)
          (pgp_stage req tarball ≫= fingerprint) (assess_publisher (w_publisher w)).
Proof.
  unfold validate_package. destruct (w_untar w tarball) as [entries|e]; [|done].
  destruct (Sandbox.run _ _ _ _ _ _) as [cache' [sandbox|e]] eqn:Hs; [|done]. intros [= <- <-].
  exists entries, cache', sandbox. auto.
Qed.

Lemma vote_approves (d : FinalDecision) (l : list Finding) : approves (vote_of d l) = negb (is_reject d).
Proof. by destruct d. Qed.

Lemma decide_block (s : RiskSummary) : is_reject (decide_risk s) = true ↔ rs_disposition s = RdBlock.
Proof. unfold decide_risk. by destruct (rs_disposition s). Qed.

Lemma summary_block (w : World) (pkg : PackageId) (r : ValidationReport) (l : list Finding) (rep : ReputationAssessment) :
  rs_disposition (summary_of w pkg r l rep) = RdBlock ↔
    (∃ f, f ∈ l ∧ is_deterministic_finding (rc_osv_block (w_cfg w)) (finding_id f) = true ∧ finding_severity f = Critical) ∨
    (block_threshold (rc_aggregator (w_cfg w)) ≤ rs_score (summary_of w pkg r l rep))%N.
Proof.
  exact (blocked_iff (w_cfg w) pkg l (vr_deterministic r) (vr_advisory r) (vr_ensemble r) (degraded <$> vr_llm_review r)
           (vr_bundles r) rep).
Qed.

Lemma verify_aaa_sound (env : string → option string) (proof : AuditProof) (c h : string) :
  verify_aaa_proof env proof c h = true →
  ∃ pinned vk sig, env "CREG_AAA_PUBKEY" = Some pinned ∧
    eq_ignore_ascii_case (ap_auditor_pubkey proof) (trim pinned) = true ∧
    hex_decode (trim (ap_auditor_pubkey proof)) ≫= vk_try_from = Some vk ∧
    verify vk (aaa_message c h (ap_verdict proof)) sig = true.
Proof.
  unfold verify_aaa_proof. destruct (env "CREG_AAA_PUBKEY") as [pinned|]; [|done].
  rewrite !andb_true_iff. intros [[_ Hp] Hv]. exists pinned.
  destruct (hex_decode (trim (ap_auditor_pubkey proof))) as [kb|]; [|done]. cbn in *.
  destruct (vk_try_from kb) as [vk|]; [|done]. cbn in *.
  destruct (hex_decode (ap_signature proof)) as [sb|]; [|done]. cbn in *.
  destruct (sig_try_from sb) as [sig|]; [|done]. cbn in Hv. exists vk, sig. auto.
Qed.

(** C15. What an approval means: either the score is below the threshold and no finding that counts
    is Critical, or the auditor is enabled and signed, with the pinned key, that this very package
    with this very content is cleared. *)
Theorem approval_sound (w : World) (cache store : Cache) (req : PublishRequest) (tarball : string)
    (pm : option PackageManifest) (ps : option SandboxResult) (st : Cache * Cache) (v : ValidationResult) :
  validate_package w cache store req tarball pm ps = (st, Ok v) → vote v = Approve →
  ((rs_score (v_risk v) < block_threshold (rc_aggregator (w_cfg w)))%N ∧
   ∀ f, f ∈ v_findings v → is_deterministic_finding (rc_osv_block (w_cfg w)) (finding_id f) = true →
        finding_severity f ≠ Critical) ∨
  (aaa_enabled (w_env w) = true ∧ ∃ pinned vk sig,
     w_env w "CREG_AAA_PUBKEY" = Some pinned ∧
     (∃ key, eq_ignore_ascii_case key (trim pinned) = true ∧ hex_decode (trim key) ≫= vk_try_from = Some vk) ∧
     verify vk (aaa_message (canonical (req_id req)) (req_content_hash req) "cleared") sig = true).
Proof.
  intros (entries & cache' & sandbox & _ & _ & _ & ->)%validate_Ok Hv. revert Hv.
  set (r := stage_report _ _ _ _ _ _ _). set (fp := _ ≫= fingerprint). set (rep := assess_publisher _).
  unfold conclude. cbn [vote v_risk v_findings]. set (findings := check_pgp_revocation fp rep (vr_findings r)).
  set (risk := summary_of w (req_id req) r findings rep). intros Hv.
  assert (approves (vote_of (after_audit (w_env w) (w_audit w) findings (canonical (req_id req)) (req_content_hash req)
            (decide_risk risk)) findings) = true) as Ha by (by rewrite Hv).
  rewrite vote_approves in Ha. unfold after_audit in Ha.
  destruct (is_reject (decide_risk risk)) eqn:Hd.
  - right. cbn [andb] in Ha. destruct (aaa_enabled (w_env w)); [|by rewrite Hd in Ha]. split; [done|].
    destruct (w_audit w findings) as [proof|]; [|by rewrite Hd in Ha].
    destruct (verify_aaa_proof _ _ _ _ && _) eqn:Hp; [|by rewrite Hd in Ha].
    apply andb_true_iff in Hp as [Hp Hc]. apply String.eqb_eq in Hc.
    apply verify_aaa_sound in Hp as (pinned & vk & sig & Hpin & Hk & Hvk & Hs). rewrite Hc in Hs. by eauto 10.
  - left. assert (rs_disposition risk ≠ RdBlock) as Hn by (rewrite <- decide_block; congruence).
    unfold risk in Hn. rewrite summary_block in Hn. split; [apply N.nle_gt; auto|]. intros f Hf Hdet Hcrit. apply Hn. eauto.
Qed.

Lemma apply_findings_keeps (r : ValidationReport) (l : list Finding) (f : Finding) :
  f ∈ vr_findings r → f ∈ vr_findings (apply_findings r l).
Proof. intros Hf. apply elem_of_app. by left. Qed.

Lemma apply_llm_keeps (r : ValidationReport) (review : LlmReview) (f : Finding) :
  f ∈ vr_findings r → f ∈ vr_findings (apply_llm r review).
Proof. intros Hf. apply elem_of_app. by left. Qed.

Lemma stage_report_static (w : World) (req : PublishRequest) (tarball : string) (static : StaticAnalysisResult)
    (sandbox : SandboxResult) (pm : option PackageManifest) (ps : option SandboxResult) (f : Finding) :
  f ∈ st_findings static → f ∈ vr_findings (stage_report w req tarball static sandbox pm ps).
Proof.
  intros Hf. unfold stage_report. set (r := apply_static _ _).
  assert (f ∈ vr_findings r) as Hr by (apply elem_of_app; by right). clearbody r.
  set (r' := apply_diff (apply_sandbox r sandbox) _).
  assert (f ∈ vr_findings r') as Hr' by (by do 2 apply apply_findings_keeps). clearbody r'.
  destruct (pgp_stage req tarball); cbn [from_option]; [apply apply_findings_keeps|]; by apply apply_llm_keeps.
Qed.

(** C16. A source file of the package with the text of a Critical pattern in force (the default ones,
    or those of CREG_PATTERNS_FILE) for its ecosystem, which the manifest does not excuse and
    whose identifier counts, as those of all default patterns do, makes the validator reject it,
    whatever the other stages, the review and the publisher's record say.  Only the auditor can
    change that: when CREG_AAA_ENABLED is on, by an answer to this report's findings that clears
    this package with this content under a signature of the pinned key. *)
Theorem malware_rejected (w : World) (cache store : Cache) (req : PublishRequest) (tarball : string)
    (pm : option PackageManifest) (ps : option SandboxResult) (st : Cache * Cache) (v : ValidationResult)
    (entries : list TarEntry) (path content : string) (pat : Pattern) :
  validate_package w cache store req tarball pm ps = (st, Ok v) →
  w_untar w tarball = Ok entries →
  (path, content) ∈ the_files (w_static w) entries → is_source_file path = true →
  pat ∈ patterns (custom_patterns (w_static w)) → pat_severity pat = Critical →
  (pat ∈ default_patterns ∨ is_deterministic_finding (rc_osv_block (w_cfg w)) (pat_id pat) = true) →
  pattern_applies (the_ecosystem (w_static w) entries) pat = true → str_contains (needle pat) content = true →
  is_excused_by_manifest pat (req_manifest req) = false →
  (∃ reason, vote v = Reject reason) ∨
  (aaa_enabled (w_env w) = true ∧ ∃ proof, w_audit w (v_findings v) = Some proof ∧ ap_verdict proof = "cleared" ∧
     verify_aaa_proof (w_env w) proof (canonical (req_id req)) (req_content_hash req) = true).
Proof.
  intros (entries' & cache' & sandbox & Hun & _ & _ & ->)%validate_Ok Hun' Hin Hsrc Hp Hsev Hid Ha Hc He.
  rewrite Hun' in Hun. injection Hun as <-. set (static := StaticAnalysis.run _ _ _ _).
  set (f := static_finding (pat_id pat) (pat_description pat) (pat_severity pat) (pat_description pat) path
              (find_line_number content (needle pat))).
  assert (f ∈ st_findings static) as Hf.
  { apply (pattern_reported (w_static w) entries (w_deep w) (req_manifest req) path content pat f); try done.
    unfold pattern_finding. by rewrite Ha, Hc, He. }
  assert (f ∈ vr_findings (stage_report w req tarball static sandbox pm ps)) as Hr.
  { by apply stage_report_static. }
  set (r := stage_report _ _ _ _ _ _ _) in *. set (fp := _ ≫= fingerprint). set (rep := assess_publisher _).
  unfold conclude. cbn [vote v_findings]. set (findings := check_pgp_revocation fp rep (vr_findings r)).
  assert (f ∈ findings) as Hff.
  { unfold findings, check_pgp_revocation. destruct fp; [|done]. destruct (existsb _ _); [|done]. apply elem_of_app. by left. }
  assert (is_reject (decide_risk (summary_of w (req_id req) r findings rep)) = true) as Hd.
  { apply decide_block, summary_block. left. exists f. split; [done|]. split; [|done].
    destruct Hid as [Hid|Hid]; [exact (forallb_elem _ _ _ (default_ids_deterministic _) Hid)|exact Hid]. }
  unfold after_audit. rewrite Hd. cbn [andb].
  assert (∀ d, is_reject d = true → ∃ reason, vote_of d findings = Reject reason) as Hv by (intros []; cbn; eauto; done).
  destruct (aaa_enabled (w_env w)); [|by left; apply Hv]. destruct (w_audit w findings) as [proof|]; [|by left; apply Hv].
  destruct (verify_aaa_proof _ _ _ _ && _) eqn:Hproof; [|by left; apply Hv].
  apply andb_true_iff in Hproof as [Hproof Hcl%String.eqb_eq]. right. split; [done|]. by exists proof.
Qed.

(** *** The language model *)

Definition with_review (w : World) (review : list Finding → LlmReview) : World :=
  {| w_env := w_env w; w_cfg := w_cfg w; w_epoch := w_epoch w; w_untar := w_untar w; w_static := w_static w;
     w_deep := w_deep w; w_engines := w_engines w; w_cache_max := w_cache_max w; w_review := review;
     w_publisher := w_publisher w; w_audit := w_audit w |}.

(** The findings of the model's files are numbered LLM001, LLM002 and so on. *)
Definition numbered (review : list Finding → LlmReview) : Prop :=
  ∀ l f, f ∈ lr_findings (review l) → starts_with "LLM" (finding_id f) = true.

Lemma llm_findings_advisory (review : LlmReview) :
  (∀ f, f ∈ lr_findings review → starts_with "LLM" (finding_id f) = true) →
  ∀ f, f ∈ llm_findings review → starts_with "LLM" (finding_id f) = true.
Proof.
  intros Hr f. unfold llm_findings. destruct (negb (degraded review)).
  - rewrite !elem_of_app. intros [Hf|[Hf|Hf]]; [|by apply Hr|].
    + unfold llm_assessment in Hf. destruct (_ || _); [|by apply elem_of_nil in Hf].
      by apply list_elem_of_singleton in Hf as ->.
    + apply list_elem_of_omap in Hf as (a & _ & Hf). unfold unverified_entropy in Hf.
      destruct (llm_analysed a); [done|]. by injection Hf as <-.
  - intros [->|Hf]%elem_of_cons; [done|]. by apply list_elem_of_fmap in Hf as (a & -> & _).
Qed.

Lemma deterministic_drops (cfg : RiskConfig) (l : list Finding) :
  (∀ f, f ∈ l → starts_with "LLM" (finding_id f) = true) → deterministic_findings cfg l = [].
Proof.
  intros Hl. unfold deterministic_findings. induction l as [|f l IH]; [done|].
  rewrite filter_cons_False; [apply IH; intros g Hg; apply Hl; by right|].
  rewrite llm_never_blocks by (apply Hl; by left). done.
Qed.

(** Score, digest and block depend on the deterministic findings and score only. *)
Lemma summarize_deterministic (cfg : RiskConfig) (pkg : PackageId) (l k : list Finding) (det adv ens adv' ens' : Score)
    (llm llm' : option bool) (b : AnalysisBundleRefs) (rep : ReputationAssessment) :
  deterministic_findings cfg l = deterministic_findings cfg k →
  let s := summarize cfg pkg l det adv ens llm b rep in
  let s' := summarize cfg pkg k det adv' ens' llm' b rep in
  rs_score s = rs_score s' ∧ rs_evidence_digest s = rs_evidence_digest s' ∧
  (rs_disposition s = RdBlock ↔ rs_disposition s' = RdBlock).
Proof.
  intros Hd. cbv zeta. rewrite !blocked_iff.
  assert (rs_score (summarize cfg pkg l det adv ens llm b rep) = rs_score (summarize cfg pkg k det adv' ens' llm' b rep)) as Hs.
  { cbn [summarize rs_score]. unfold deterministic_findings in Hd. by rewrite Hd. }
  split; [done|]. split; [cbn [summarize rs_evidence_digest]; unfold deterministic_findings in Hd; by rewrite Hd|].
  rewrite Hs. f_equiv. split; intros (f & Hf & Hdet & Hc); exists f.
  - assert (f ∈ deterministic_findings cfg l) as Hx by (by apply list_elem_of_filter).
    rewrite Hd in Hx. by apply list_elem_of_filter in Hx as [_ Hx].
  - assert (f ∈ deterministic_findings cfg k) as Hx by (by apply list_elem_of_filter).
    rewrite <- Hd in Hx. by apply list_elem_of_filter in Hx as [_ Hx].
Qed.

(** The report with the deterministic findings and score of its other stages. *)
Lemma stage_report_deterministic (w : World) (req : PublishRequest) (tarball : string) (static : StaticAnalysisResult)
    (sandbox : SandboxResult) (pm : option PackageManifest) (ps : option SandboxResult)
    (rev1 rev2 : list Finding → LlmReview) :
  numbered rev1 → numbered rev2 →
  let r1 := stage_report (with_review w rev1) req tarball static sandbox pm ps in
  let r2 := stage_report (with_review w rev2) req tarball static sandbox pm ps in
  vr_deterministic r1 = vr_deterministic r2 ∧ vr_bundles r1 = vr_bundles r2 ∧
  ∀ more, deterministic_findings (w_cfg w) (vr_findings r1 ++ more) = deterministic_findings (w_cfg w) (vr_findings r2 ++ more).
Proof.
  intros H1 H2. cbv zeta. unfold stage_report. cbn [with_review w_review w_env w_epoch].
  generalize (apply_diff (apply_sandbox (apply_static (report_new (req_id req) (current_bundles (w_env w) (w_epoch w))) static)
                sandbox) (analyze (req_manifest req) sandbox pm ps)). intros base.
  assert (∀ rev, numbered rev → deterministic_findings (w_cfg w) (llm_findings (rev (vr_findings base))) = []) as Hn.
  { intros rev Hrev. apply deterministic_drops, llm_findings_advisory, Hrev. }
  pose proof (Hn rev1 H1) as Hn1. pose proof (Hn rev2 H2) as Hn2. clear Hn H1 H2.
  revert Hn1 Hn2. generalize (rev1 (vr_findings base)) (rev2 (vr_findings base)). intros l1 l2 Hn1 Hn2.
  assert (∀ k more, deterministic_findings (w_cfg w) ((vr_findings base ++ llm_findings k) ++ more) =
                    deterministic_findings (w_cfg w) (vr_findings base) ++ deterministic_findings (w_cfg w) (llm_findings k) ++
                    deterministic_findings (w_cfg w) more) as Happ.
  { intros k more. unfold deterministic_findings. by rewrite !filter_app, <- app_assoc. }
  destruct (pgp_stage req tarball) as [p|]; unfold apply_pgp, apply_findings, apply_llm;
    cbn [from_option vr_deterministic vr_bundles vr_findings]; (split; [reflexivity|]); (split; [reflexivity|]); intros more.
  - by rewrite <- !(app_assoc (_ ++ _) (pgp_findings p) more), !Happ, Hn1, Hn2.
  - by rewrite !Happ, Hn1, Hn2.
Qed.

(** C17. The language model advises only: two reviews of the same package, however different, give
    the same risk score and the same evidence digest, and without the auditor the same vote up to
    the wording of a rejection. *)
Theorem language_model_never_decides (w : World) (rev1 rev2 : list Finding → LlmReview) (cache store : Cache)
    (req : PublishRequest) (tarball : string) (pm : option PackageManifest) (ps : option SandboxResult)
    (st1 st2 : Cache * Cache) (v1 v2 : ValidationResult) :
  numbered rev1 → numbered rev2 →
  validate_package (with_review w rev1) cache store req tarball pm ps = (st1, Ok v1) →
  validate_package (with_review w rev2) cache store req tarball pm ps = (st2, Ok v2) →
  st1 = st2 ∧ rs_score (v_risk v1) = rs_score (v_risk v2) ∧
  rs_evidence_digest (v_risk v1) = rs_evidence_digest (v_risk v2) ∧
  (aaa_enabled (w_env w) = false → approves (vote v1) = approves (vote v2)).
Proof.
  intros Hn1 Hn2 (e1 & c1 & s1 & Hu1 & Hs1 & -> & ->)%validate_Ok (e2 & c2 & s2 & Hu2 & Hs2 & -> & ->)%validate_Ok.
  cbn [with_review w_untar w_engines w_cache_max w_static w_deep w_publisher] in *.
  rewrite Hu1 in Hu2. injection Hu2 as <-. rewrite Hs1 in Hs2. injection Hs2 as <- <-. split; [done|].
  set (static := StaticAnalysis.run _ _ _ _). set (fp := _ ≫= fingerprint). set (rep := assess_publisher _).
  destruct (stage_report_deterministic w req tarball static s1 pm ps rev1 rev2 Hn1 Hn2) as (Hdet & Hb & Hf).
  set (r1 := stage_report (with_review w rev1) _ _ _ _ _ _) in *. set (r2 := stage_report (with_review w rev2) _ _ _ _ _ _) in *.
  assert (∃ more, ∀ l, check_pgp_revocation fp rep l = l ++ more) as [more Hmore].
  { unfold check_pgp_revocation. destruct fp as [x|]; [|exists []; intros l; by rewrite app_nil_r].
    destruct (existsb _ _); [by eexists|]. exists []; intros l; by rewrite app_nil_r. }
  destruct (summarize_deterministic (w_cfg w) (req_id req) (vr_findings r1 ++ more) (vr_findings r2 ++ more)
              (vr_deterministic r1) (vr_advisory r1) (vr_ensemble r1) (vr_advisory r2) (vr_ensemble r2)
              (degraded <$> vr_llm_review r1) (degraded <$> vr_llm_review r2) (vr_bundles r1) rep (Hf more)) as (Hsc & Hdg & Hbl).
  unfold conclude. cbn [v_risk vote]. rewrite !Hmore. unfold summary_of. cbn [with_review w_cfg w_env w_audit].
  rewrite <- Hdet, <- Hb. split; [done|]. split; [done|]. intros Haaa. unfold after_audit. rewrite Haaa, !andb_false_r, !vote_approves.
  f_equal. apply eq_true_iff_eq. by rewrite !decide_block.
Qed.

(** *** Revoked PGP keys *)

(** The revocation of a PGP key is never noticed: the node's answer about a publisher has no
    list of revoked keys, so whatever it has recorded, the check adds no finding. *)
Theorem pgp_revocation_never_seen (ix : PublisherIndex) (pk : string) (fp : option string) (l : list Finding) :
  check_pgp_revocation fp (assess_publisher (λ _, node_reply ix pk)) l = l.
Proof.
  assert (revoked_pgp_fps (assess_publisher (λ _, node_reply ix pk)) = []) as Hr.
  { unfold assess_publisher, node_reply. by destruct (index_get ix pk). }
  unfold check_pgp_revocation. rewrite Hr. by destruct fp.
Qed.

(** An auditor's signature fits one package, one content and one verdict. *)
Lemma aaa_message_inj (c c' h h' v v' : string) :
  free_of "|"%char c = true → free_of "|"%char c' = true → free_of "|"%char h = true → free_of "|"%char h' = true →
  aaa_message c h v = aaa_message c' h' v' → c = c' ∧ h = h' ∧ v = v'.
Proof.
  unfold aaa_message. intros Hc Hc' Hh Hh' He. apply app_inj_l in He.
  apply (sep_split_l "|"%char) in He as [-> He]; [|done..]. by apply (sep_split_l "|"%char) in He as [-> He].
Qed.

End Properties.

(** ** Witnesses *)
Module ReportWitness.
Import Toy ToyScores StaticWitness.

#[export] Instance toy_pgp : Pgp :=
  {| PgpKey := string; PgpSignature := string; pgp_parse_key := λ k, Ok k; pgp_parse_signature := λ s, Ok s;
     pgp_fingerprint := id; pgp_verify := λ s k m, if String.eqb s (k +:+ m) then Ok tt else Err "mismatch" |}.

Definition ok_file : TarEntry := entry "package/index.js" "module.exports = 1".

Definition skipped : LlmReview :=
  {| maliciousness_score := 0; risk_tier := TierClean; package_summary := ""; lr_findings := []; high_entropy_files := [];
     injection_patterns := []; model_used := ""; degraded := true; degraded_reason := Some "disabled" |}.

Definition hostile : LlmReview :=
  {| maliciousness_score := 100; risk_tier := TierConfirmedMalicious; package_summary := "bad";
     lr_findings := [report_finding "LLM001" "t" Critical "d" "f"]; high_entropy_files := []; injection_patterns := [];
     model_used := "m"; degraded := false; degraded_reason := None |}.

Definition world (files : list TarEntry) : World :=
  {| w_env := λ _, None; w_cfg := RiskWitness.cfg0; w_epoch := "osv-off"; w_untar := λ _, Ok files; w_static := w0;
     w_deep := no_deep; w_engines := SandboxWitness.engines ""; w_cache_max := 10; w_review := λ _, skipped;
     w_publisher := λ _, NotFound; w_audit := λ _, None |}.

Definition request : PublishRequest := {|
  req_id := RiskWitness.pkg0; req_ipfs_cid := "cid"; req_content_hash := "h"; req_publisher_address := ""; req_publisher_pubkey := "pk"; req_signature := "";
  req_manifest := no_manifest; req_submitted_at := 0; req_shielded := false; req_key_bundle := None;
  req_pgp_signature := None; req_pgp_public_key := None; req_threshold := 1; req_publisher_pubkeys := []; req_signatures := [] |}.

Definition validate (w : World) := validate_package w ∅ ∅ request "tgz" None None.

Lemma approval_sound_witness :
  match (validate (world [npm; ok_file])).2 with
  | Ok v => vote v = Approve ∧
            ((rs_score (v_risk v) < 85)%N ∧
             (∀ f, f ∈ v_findings v → is_deterministic_finding false (finding_id f) = true → finding_severity f ≠ Critical) ∨
             False)
  | Err _ => False
  end.
Proof.
  assert (match (validate (world [npm; ok_file])).2 with Ok v => vote v = Approve | Err _ => False end) as Hv
    by (vm_compute; reflexivity).
  destruct (validate (world [npm; ok_file])) as [st [v|e]] eqn:Hr; [|exact Hv]. split; [exact Hv|].
  destruct (approval_sound (world [npm; ok_file]) ∅ ∅ request "tgz" None None st v Hr Hv) as [Hs|[Ha _]];
    [left; exact Hs | discriminate Ha].
Defined.

(** A pattern file in force, and an auditor that is enabled and answers without a signature. *)
Definition audited_world (files : list TarEntry) : World :=
  {| w_env := λ k, if String.eqb k "CREG_AAA_ENABLED" then Some "1" else None; w_cfg := RiskWitness.cfg0; w_epoch := "osv-off";
     w_untar := λ _, Ok files;
     w_static := {| env := env w0; custom_patterns := Some [pattern "X1" "payload" Critical "payload" None];
                    predict_intent := predict_intent w0; predict := predict w0; osv_consensus := false; osv_block := false;
                    osv_lookup := osv_lookup w0; typosquat_check := typosquat_check w0 |};
     w_deep := no_deep; w_engines := SandboxWitness.engines ""; w_cache_max := 10; w_review := λ _, skipped;
     w_publisher := λ _, NotFound;
     w_audit := λ _, Some {| ap_signature := ""; ap_auditor_pubkey := "pk"; ap_verdict := "cleared" |} |}.

Lemma malware_rejected_witness :
  match (validate (audited_world [npm; evil])).2 with
  | Ok v => (∃ reason, vote v = Reject reason) ∨ false = true
  | Err _ => False
  end.
Proof.
  set (w := audited_world [npm; evil]).
  assert (match (validate w).2 with Ok v => True | Err _ => False end) as Hv by (vm_compute; exact I).
  destruct (validate w) as [st [v|e]] eqn:Hr; [|exact Hv].
  destruct (malware_rejected w ∅ ∅ request "tgz" None None st v [npm; evil] "package/index.js" "eval(payload)"
              (pattern "X1" "payload" Critical "payload" None) Hr) as [H|(_ & proof & Ha & _ & Hs)]; try reflexivity;
    [vm_compute; right; left|left|right; reflexivity|left; exact H|].
  right. injection Ha as <-. vm_compute in Hs. exact Hs.
Defined.

Lemma language_model_never_decides_witness :
  match (validate (with_review (world [npm; ok_file]) (λ _, skipped))).2,
        (validate (with_review (world [npm; ok_file]) (λ _, hostile))).2 with
  | Ok v1, Ok v2 => rs_evidence_digest (v_risk v1) = rs_evidence_digest (v_risk v2) ∧
                    approves (vote v1) = approves (vote v2)
  | _, _ => False
  end.
Proof.
  assert (match (validate (with_review (world [npm; ok_file]) (λ _, skipped))).2,
                (validate (with_review (world [npm; ok_file]) (λ _, hostile))).2 with Ok _, Ok _ => True | _, _ => False end) as Hv
    by (vm_compute; exact I).
  destruct (validate (with_review (world [npm; ok_file]) (λ _, skipped))) as [st1 [v1|e]] eqn:Hr1; [|exact Hv].
  destruct (validate (with_review (world [npm; ok_file]) (λ _, hostile))) as [st2 [v2|e]] eqn:Hr2; [|exact Hv].
  destruct (language_model_never_decides (world [npm; ok_file]) (λ _, skipped) (λ _, hostile) ∅ ∅ request "tgz" None None
              st1 st2 v1 v2) as (_ & _ & Hd & Ha); [| |exact Hr1|exact Hr2|split; [exact Hd | exact (Ha eq_refl)]].
  - intros l f Hf. apply elem_of_nil in Hf. destruct Hf.
  - intros l f Hf. apply list_elem_of_singleton in Hf as ->. reflexivity.
Defined.

End ReportWitness.
