(* ===== verification/Json.v ===== *)
(** JSON values (serde_json) and their canonical text (common/src/chain_spec.rs).

    A [Value] holds the texts of its numbers.  [to_jcs_canonical_json] writes a value without
    spaces and with sorted keys; it is proved to determine the value up to the order of keys. *)

From S2P Require Import Prelude Text Threshold.
From Stdlib Require Import Ascii NArith.

(** serde_json::Value *)
Inductive Value :=
| VNull | VBool (b : bool) | VNumber (n : string) | VString (s : string)
| VArray (l : list Value) | VObject (m : list (string * Value)).

(** ** Writing *)

(** The lower-case hexadecimal digit of a number below 16. *)
Definition hex_char (n : N) : ascii := if (n <? 10)%N then byte (48 + n) else byte (87 + n).

(** The characters of a string between its quotes; a character outside ASCII is copied byte by
    byte. *)
Definition write_char (c : ascii) : string :=
  let n := N_of_ascii c in
  let escaped k := String (byte 92) (String k EmptyString) in
  if (n =? 34)%N then escaped (byte 34)
  else if (n =? 92)%N then escaped (byte 92)
  else if (n =? 8)%N then escaped "b"%char
  else if (n =? 12)%N then escaped "f"%char
  else if (n =? 10)%N then escaped "n"%char
  else if (n =? 13)%N then escaped "r"%char
  else if (n =? 9)%N then escaped "t"%char
  else if (n <? 16)%N then String (byte 92) ("u000" +:+ String (hex_char n) EmptyString)
  else String c EmptyString.

Fixpoint write_chars (s : string) : string :=
  match s with
  | EmptyString => EmptyString
  | String c s' => write_char c +:+ write_chars s'
  end.

Definition write_jcs_string (s : string) : string := quote +:+ write_chars s +:+ quote.

(** Items with a comma before each but the first. *)
Definition comma_tail (l : list string) : string := foldr (λ s acc, "," +:+ s +:+ acc) "" l.

Definition comma_list (l : list string) : string :=
  match l with
  | [] => ""
  | s :: l' => s +:+ comma_tail l'
  end.

(** The value of a key in the entries of an object. *)
Definition entry_of {A : Type} (k : string) (m : list (string * A)) : option A :=
  snd <$> head (filter (λ kv, kv.1 = k) m).

(** [keys.sort()], and the entry of each key. *)
Definition sorted_entries {A : Type} (d : A) (m : list (string * A)) : list (string * A) :=
  map (λ k, (k, default d (entry_of k m))) (sort_strings (map fst m)).

Definition write_entry (kv : string * string) : string := write_jcs_string kv.1 +:+ ":" +:+ kv.2.

Fixpoint write_jcs_value (v : Value) : string :=
  match v with
  | VNull => "null"
  | VBool b => if b then "true" else "false"
  | VNumber n => n
  | VString s => write_jcs_string s
  | VArray l => "[" +:+ comma_list (map write_jcs_value l) +:+ "]"
  | VObject m => "{" +:+ comma_list (map write_entry (sorted_entries "" (map (λ kv, (kv.1, write_jcs_value kv.2)) m))) +:+ "}"
  end.

(** [to_jcs_canonical_json], from the value that serde makes of its argument. *)
Definition to_jcs_canonical_json (v : Value) : string := write_jcs_value v.

(** ** Induction on values *)
Section ValueInd.
Context (P : Value → Prop).
Context (Hnull : P VNull) (Hbool : ∀ b, P (VBool b)) (Hnum : ∀ n, P (VNumber n)) (Hstr : ∀ s, P (VString s)).
Context (Harr : ∀ l, Forall P l → P (VArray l)) (Hobj : ∀ m, Forall (λ kv, P kv.2) m → P (VObject m)).

Fixpoint Value_nested_ind (v : Value) : P v :=
  match v with
  | VNull => Hnull
  | VBool b => Hbool b
  | VNumber n => Hnum n
  | VString s => Hstr s
  | VArray l => Harr l ((fix go l := match l return Forall P l with
                                     | [] => @Forall_nil_2 _ P
                                     | x :: l' => @Forall_cons_2 _ P x l' (Value_nested_ind x) (go l')
                                     end) l)
  | VObject m => Hobj m ((fix go m := match m return Forall (λ kv, P kv.2) m with
                                      | [] => @Forall_nil_2 _ (λ kv, P kv.2)
                                      | x :: m' => @Forall_cons_2 _ (λ kv, P kv.2) x m' (Value_nested_ind x.2) (go m')
                                      end) m)
  end.
End ValueInd.

(** ** Normal forms *)

(** The value with the keys of every object sorted. *)
Fixpoint norm (v : Value) : Value :=
  match v with
  | VArray l => VArray (map norm l)
  | VObject m => VObject (sorted_entries VNull (map (λ kv, (kv.1, norm kv.2)) m))
  | v => v
  end.

(** The text of a value with its keys in the order they are in. *)
Fixpoint flat (v : Value) : string :=
  match v with
  | VNull => "null"
  | VBool b => if b then "true" else "false"
  | VNumber n => n
  | VString s => write_jcs_string s
  | VArray l => "[" +:+ comma_list (map flat l) +:+ "]"
  | VObject m => "{" +:+ comma_list (map (λ kv, write_entry (kv.1, flat kv.2)) m) +:+ "}"
  end.

Lemma entry_of_map {A B : Type} (f : A → B) (k : string) (m : list (string * A)) :
  entry_of k (map (λ kv, (kv.1, f kv.2)) m) = f <$> entry_of k m.
Proof.
  unfold entry_of. induction m as [|[k' v] m IH]; [done|]. cbn [map]. rewrite !filter_cons. cbn [fst].
  case_decide; [done|exact IH].
Qed.

Lemma keys_map {A B : Type} (f : A → B) (m : list (string * A)) : map fst (map (λ kv, (kv.1, f kv.2)) m) = map fst m.
Proof. induction m as [|[k v] m IH]; [done|]. cbn. by rewrite IH. Qed.

Lemma entry_of_key {A : Type} (k : string) (m : list (string * A)) : k ∈ map fst m → ∃ v, entry_of k m = Some v ∧ (k, v) ∈ m.
Proof.
  unfold entry_of. induction m as [|[k' v] m IH]; cbn [map]; [by intros ?%elem_of_nil|]. rewrite filter_cons. cbn [fst].
  intros Hk. case_decide as Hd; [subst; exists v; split; [done|by left]|].
  apply elem_of_cons in Hk as [->|Hk]; [done|]. destruct (IH Hk) as (w & Hw & Hin). exists w. split; [done|by right].
Qed.

Lemma entry_of_NoDup {A : Type} (k : string) (v : A) (m : list (string * A)) :
  NoDup (map fst m) → (k, v) ∈ m → entry_of k m = Some v.
Proof.
  unfold entry_of. induction m as [|[k' w] m IH]; cbn [map]; [by intros _ ?%elem_of_nil|]. rewrite filter_cons. cbn [fst].
  intros [Hk Hnd]%NoDup_cons [Heq|Hin]%elem_of_cons.
  - injection Heq as -> ->. by rewrite decide_True.
  - case_decide as Hd; [|by apply IH]. subst. exfalso. apply Hk. apply list_elem_of_In, in_map_iff. exists (k, v).
    split; [done|]. by apply list_elem_of_In.
Qed.

(** Writing is printing the normal form. *)
Lemma write_flat (v : Value) : write_jcs_value v = flat (norm v).
Proof.
  induction v as [|b|n|s|l IH|m IH] using Value_nested_ind; try done; cbn [write_jcs_value norm flat].
  - do 2 f_equal. f_equal. rewrite map_map. induction IH as [|x l Hx _ IHl]; [done|]. cbn. by rewrite Hx, IHl.
  - do 2 f_equal. f_equal. unfold sorted_entries. rewrite !keys_map, !map_map.
    apply map_ext_in. intros k Hk%list_elem_of_In. cbn [fst snd]. f_equal. f_equal. rewrite !entry_of_map.
    rewrite (sort_by_Permutation str_le) in Hk. destruct (entry_of_key k m Hk) as (w & -> & Hin). cbn.
    rewrite Forall_forall in IH. apply (IH _ Hin).
Qed.

(** ** The text determines the value *)

(** A string character read back from the text. *)
Definition unescape (s : string) : option (ascii * string) :=
  match s with
  | String b s' =>
      if Ascii.eqb b (byte 92) then
        match s' with
        | String k rest =>
            if Ascii.eqb k (byte 34) then Some (byte 34, rest)
            else if Ascii.eqb k (byte 92) then Some (byte 92, rest)
            else if Ascii.eqb k "b"%char then Some (byte 8, rest)
            else if Ascii.eqb k "f"%char then Some (byte 12, rest)
            else if Ascii.eqb k "n"%char then Some (byte 10, rest)
            else if Ascii.eqb k "r"%char then Some (byte 13, rest)
            else if Ascii.eqb k "t"%char then Some (byte 9, rest)
            else match rest with
                 | String _ (String _ (String _ (String h rest'))) =>
                     let n := N_of_ascii h in
                     Some (byte (if (n <? 58)%N then n - 48 else n - 87), rest')
                 | _ => None
                 end
        | EmptyString => None
        end
      else Some (b, s')
  | EmptyString => None
  end.

Lemma unescape_write (c : ascii) (r : string) : unescape (write_char c +:+ r) = Some (c, r).
Proof. by destruct c as [[] [] [] [] [] [] [] []]. Qed.

Lemma write_char_head (c : ascii) (r r' : string) : write_char c +:+ r ≠ quote +:+ r'.
Proof.
  intros H. pose proof (f_equal unescape H) as Hu. rewrite unescape_write in Hu. injection Hu as -> _. discriminate H.
Qed.

Lemma write_chars_inj (s1 s2 r1 r2 : string) :
  write_chars s1 +:+ quote +:+ r1 = write_chars s2 +:+ quote +:+ r2 → s1 = s2 ∧ r1 = r2.
Proof.
  revert s2. induction s1 as [|c1 s1 IH]; intros [|c2 s2] H; cbn [write_chars] in H; rewrite ?app_assoc_str in H.
  - split; [done|]. by apply (app_inj_l quote) in H.
  - symmetry in H. by apply write_char_head in H.
  - by apply write_char_head in H.
  - apply (f_equal unescape) in H. rewrite !unescape_write in H. injection H as -> H.
    by destruct (IH s2 H) as [-> ->].
Qed.

Lemma write_string_inj (s1 s2 r1 r2 : string) :
  write_jcs_string s1 +:+ r1 = write_jcs_string s2 +:+ r2 → s1 = s2 ∧ r1 = r2.
Proof. unfold write_jcs_string. rewrite !app_assoc_str. intros H. by apply app_inj_l, write_chars_inj in H. Qed.

(** The characters of a number. *)
Definition number_char (c : ascii) : bool :=
  is_digit c || Ascii.eqb c "-"%char || Ascii.eqb c "+"%char || Ascii.eqb c "."%char || Ascii.eqb c "e"%char || Ascii.eqb c "E"%char.

Definition number_text (s : string) : bool :=
  match s with
  | String c s' => (is_digit c || Ascii.eqb c "-"%char) && forallb number_char (of_str s')
  | EmptyString => false
  end.

(** Values whose numbers are written as numbers. *)
Fixpoint json_ok (v : Value) : bool :=
  match v with
  | VNumber n => number_text n
  | VArray l => forallb json_ok l
  | VObject m => forallb (λ kv, json_ok kv.2) m
  | _ => true
  end.

(** What may follow a value: nothing, or a character that no number has. *)
Definition ends (r : string) : bool := match r with EmptyString => true | String c _ => negb (number_char c) end.

Lemma number_split (n1 n2 r1 r2 : string) :
  forallb number_char (of_str n1) = true → forallb number_char (of_str n2) = true → ends r1 = true → ends r2 = true →
  n1 +:+ r1 = n2 +:+ r2 → n1 = n2 ∧ r1 = r2.
Proof.
  intros H1 H2 E1 E2. revert n2 H2. induction n1 as [|c1 n1 IH]; intros [|c2 n2] H2 H.
  - done.
  - exfalso. change (r1 = String c2 (n2 +:+ r2)) in H. subst r1. cbn in E1, H2. by destruct (number_char c2).
  - exfalso. change (String c1 (n1 +:+ r1) = r2) in H. subst r2. cbn in E2, H1. by destruct (number_char c1).
  - cbn in H1, H2. apply andb_prop in H1 as [_ H1], H2 as [_ H2]. rewrite !app_cons_str in H. injection H as -> H.
    by destruct (IH H1 n2 H2 H) as [-> ->].
Qed.

Lemma number_text_chars (s : string) : number_text s = true → forallb number_char (of_str s) = true.
Proof.
  destruct s as [|c s]; [done|]. cbn [number_text]. intros [Hc Hs]%andb_prop.
  change (number_char c && forallb number_char (of_str s) = true). rewrite Hs, andb_true_r. unfold number_char.
  apply orb_true_iff in Hc as [->| ->]; by rewrite ?orb_true_r.
Qed.

(** The first character of a value. *)
Definition head_kind (v : Value) (s : string) : bool :=
  match s with
  | EmptyString => false
  | String c _ =>
      match v with
      | VNull => Ascii.eqb c "n"%char
      | VBool b => Ascii.eqb c (if b then "t"%char else "f"%char)
      | VNumber _ => is_digit c || Ascii.eqb c "-"%char
      | VString _ => Ascii.eqb c (byte 34)
      | VArray _ => Ascii.eqb c "["%char
      | VObject _ => Ascii.eqb c "{"%char
      end
  end.

Lemma flat_head (v : Value) (r : string) : json_ok v = true → head_kind v (flat v +:+ r) = true.
Proof.
  destruct v as [|[]|n|s|l|m]; cbn [json_ok flat]; intros Hv; try done.
  destruct n as [|c n]; [done|]. cbn in Hv. apply andb_prop in Hv as [Hc _]. exact Hc.
Qed.

Definition same_kind (v w : Value) : bool :=
  match v, w with
  | VNull, VNull | VNumber _, VNumber _ | VString _, VString _ | VArray _, VArray _ | VObject _, VObject _ => true
  | VBool a, VBool b => Bool.eqb a b
  | _, _ => false
  end.

Lemma head_kind_unique (v w : Value) (s : string) : head_kind v s = true → head_kind w s = true → same_kind v w = true.
Proof.
  destruct s as [|c s]; [done|].
  destruct v as [|[]|?|?|?|?], w as [|[]|?|?|?|?]; try done; cbn;
    destruct c as [[] [] [] [] [] [] [] []]; done.
Qed.

(** The items of a list, each followed by the rest of the text, are read back one by one. *)
Lemma comma_tail_inj {A : Type} (f : A → string) (close : ascii) (l1 l2 : list A) (r1 r2 : string) :
  close ≠ ","%char → number_char close = false →
  Forall (λ x, ∀ y r r', y ∈ l2 → ends r = true → ends r' = true → f x +:+ r = f y +:+ r' → x = y ∧ r = r') l1 →
  comma_tail (map f l1) +:+ String close r1 = comma_tail (map f l2) +:+ String close r2 → l1 = l2 ∧ r1 = r2.
Proof.
  intros Hclose Hnum Hf. 
  assert (Hends : ∀ l r, ends (comma_tail (map f l) +:+ String close r) = true).
  { intros [|x l] r; [change (negb (number_char close) = true); by rewrite Hnum|done]. }
  revert l2 Hf. induction l1 as [|x l1 IH]; intros [|y l2] Hf H; cbn [map comma_tail foldr] in H.
  - by injection H as ->.
  - exfalso. injection H as H _. congruence.
  - exfalso. injection H as H _. congruence.
  - apply Forall_cons in Hf as [Hx Hf]. rewrite !app_assoc_str in H. apply app_inj_l in H.
    apply Hx in H as [-> H]; [|by left|apply Hends|apply Hends].
    destruct (IH l2) as [-> ->]; [|exact H|done].
    eapply Forall_impl; [exact Hf|]. cbn. intros z Hz y' r r' Hy. apply Hz. by right.
Qed.

Lemma comma_list_inj {A : Type} (f : A → string) (close : ascii) (l1 l2 : list A) (r1 r2 : string) :
  close ≠ ","%char → number_char close = false →
  Forall (λ x, ∀ y r r', y ∈ l2 → ends r = true → ends r' = true → f x +:+ r = f y +:+ r' → x = y ∧ r = r') l1 →
  (∀ x r, x ∈ l1 ∨ x ∈ l2 → ∀ t, f x +:+ r ≠ String close t) →
  comma_list (map f l1) +:+ String close r1 = comma_list (map f l2) +:+ String close r2 → l1 = l2 ∧ r1 = r2.
Proof.
  intros Hclose Hnum Hf Hhead H.
  assert (Hends : ∀ l r, ends (comma_tail (map f l) +:+ String close r) = true).
  { intros [|x l] r; [change (negb (number_char close) = true); by rewrite Hnum|done]. }
  destruct l1 as [|x l1], l2 as [|y l2]; cbn [map comma_list] in H; rewrite ?app_assoc_str in H.
  - by injection H as ->.
  - exfalso. symmetry in H. eapply Hhead; [|exact H]. right. by left.
  - exfalso. eapply Hhead; [|exact H]. left. by left.
  - apply Forall_cons in Hf as [Hx Hf]. apply Hx in H as [-> H]; [|by left|apply Hends|apply Hends].
    apply comma_tail_inj in H as [-> ->]; [done|done|done|].
    eapply Forall_impl; [exact Hf|]. cbn. intros z Hz y' r r' Hy. apply Hz. by right.
Qed.

Lemma flat_inj (v1 v2 : Value) (r1 r2 : string) :
  json_ok v1 = true → json_ok v2 = true → ends r1 = true → ends r2 = true →
  flat v1 +:+ r1 = flat v2 +:+ r2 → v1 = v2 ∧ r1 = r2.
Proof.
  revert v2 r1 r2. induction v1 as [|b|n|s|l IH|m IH] using Value_nested_ind; intros v2 r1 r2 H1 H2 E1 E2 H.
  all: pose proof (flat_head _ r1 H1) as K1; rewrite H in K1; pose proof (flat_head _ r2 H2) as K2;
    pose proof (head_kind_unique _ _ _ K1 K2) as Hk; clear K1 K2.
  all: destruct v2 as [|b2|n2|s2|l2|m2]; try done.
  - split; [done|]. by apply app_inj_l in H.
  - apply Bool.eqb_prop in Hk as ->. split; [done|]. by apply app_inj_l in H.
  - cbn [flat] in H. apply number_split in H as [-> ->]; try done; by apply number_text_chars.
  - cbn [flat] in H. by apply write_string_inj in H as [-> ->].
  - cbn [flat json_ok] in *. rewrite !app_assoc_str in H. apply app_inj_l in H.
    rewrite forallb_forall in H1, H2. setoid_rewrite <- list_elem_of_In in H1. setoid_rewrite <- list_elem_of_In in H2.
    apply (comma_list_inj flat "]"%char l l2) in H as [-> ->]; [done|done|done| |].
    + rewrite Forall_forall in IH |- *. intros x Hx y r r' Hy Hr Hr'. by apply IH; auto.
    + intros x r Hx t Ht. assert (Hox : json_ok x = true) by (destruct Hx; auto).
      pose proof (flat_head x r Hox) as K. rewrite Ht in K. by destruct x as [|[]| | | |].
  - cbn [flat json_ok] in *. rewrite !app_assoc_str in H. apply app_inj_l in H.
    rewrite forallb_forall in H1, H2. setoid_rewrite <- list_elem_of_In in H1. setoid_rewrite <- list_elem_of_In in H2.
    apply (comma_list_inj (λ kv, write_entry (kv.1, flat kv.2)) "}"%char m m2) in H as [-> ->]; [done|done|done| |].
    + rewrite Forall_forall in IH |- *. intros [k v] Hx [k' v'] r r' Hy Hr Hr'. unfold write_entry. cbn [fst snd].
      rewrite !app_assoc_str. intros [Hkk He]%write_string_inj. subst k'. apply app_inj_l in He.
      apply (IH (k, v) Hx v' r r') in He as [<- ->]; [done|exact (H1 _ Hx)|exact (H2 _ Hy)|done|done].
    + intros [k v] r _ t. done.
Qed.

Lemma norm_ok (v : Value) : json_ok v = true → json_ok (norm v) = true.
Proof.
  induction v as [|b|n|s|l IH|m IH] using Value_nested_ind; try done; cbn [json_ok norm]; rewrite !forallb_forall; intros H.
  - intros y (x & <- & Hx)%in_map_iff. rewrite Forall_forall in IH. apply IH; [by apply list_elem_of_In|by apply H].
  - intros [k w] (k' & [= <- <-] & Hk)%in_map_iff. cbn [snd]. rewrite entry_of_map.
    rewrite keys_map in Hk. apply list_elem_of_In in Hk. rewrite (sort_by_Permutation str_le) in Hk.
    destruct (entry_of_key _ _ Hk) as (w & -> & Hin). cbn. rewrite Forall_forall in IH. apply (IH _ Hin).
    by apply (H (k', w)), list_elem_of_In.
Qed.

Lemma canonical_norm (v1 v2 : Value) :
  json_ok v1 = true → json_ok v2 = true → to_jcs_canonical_json v1 = to_jcs_canonical_json v2 → norm v1 = norm v2.
Proof.
  unfold to_jcs_canonical_json. intros H1 H2 H. rewrite !write_flat in H.
  apply (flat_inj _ _ "" ""); [by apply norm_ok|by apply norm_ok|done|done|by rewrite !app_nil_r_str].
Qed.

(** The canonical text of a value determines it, up to the order in which the keys of its objects
    are listed. *)
Theorem jcs_injective (v1 v2 : Value) :
  json_ok v1 = true → json_ok v2 = true → to_jcs_canonical_json v1 = to_jcs_canonical_json v2 → norm v1 = norm v2.
Proof. apply canonical_norm. Qed.

(** A control character from U+0010 to U+001F is written as it is, which JSON and RFC 8785 do not
    allow: the canonical text is not JSON. *)
Theorem high_controls_unescaped (c : ascii) :
  (16 <= N_of_ascii c < 32)%N → write_jcs_value (VString (String c "")) = quote +:+ String c "" +:+ quote.
Proof.
  intros Hc. cbn [write_jcs_value]. unfold write_jcs_string. cbn [write_chars]. unfold write_char.
  destruct c as [[] [] [] [] [] [] [] []]; try done; exfalso; cbv in Hc; destruct Hc; done.
Qed.

(** ** Witnesses *)
Module JsonWitness.

Definition v1 : Value := VObject [("b", VNumber "1"); ("a", VArray [VNull; VString "x"])].
Definition v2 : Value := VObject [("a", VArray [VNull; VString "x"]); ("b", VNumber "1")].

Lemma jcs_injective_witness : norm v1 = norm v2.
Proof. apply (jcs_injective v1 v2); by vm_compute. Defined.

Lemma high_controls_unescaped_witness : write_jcs_value (VString (String (byte 31) "")) = quote +:+ String (byte 31) "" +:+ quote.
Proof. by apply (high_controls_unescaped (byte 31)). Defined.

End JsonWitness.
