(* ===== verification/Float.v ===== *)
(** IEEE doubles ([f64]), with the operations of the Standard Library's specification of floating
    point, and what the limiter of gossip messages and the insurance use of them.

    A Rust literal is [f_lit]: the quotient of two integers below 2^53 is the double nearest to the
    decimal fraction. *)

From S2P Require Import Prelude.
From Stdlib Require Import ZArith SpecFloat.

Abbreviation f64 := spec_float.

(** ** Operations *)

(** [n as f64] *)
Definition f_of (z : Z) : f64 := binary_normalize 53 1024 z 0 false.
Definition fadd : f64 → f64 → f64 := SFadd 53 1024.
Definition fsub : f64 → f64 → f64 := SFsub 53 1024.
Definition fmul : f64 → f64 → f64 := SFmul 53 1024.
Definition fdiv : f64 → f64 → f64 := SFdiv 53 1024.

(** The literal of [n] over a power of ten. *)
Definition f_lit (n d : Z) : f64 := fdiv (f_of n) (f_of d).

Definition is_nan (x : f64) : bool := match x with S754_nan => true | _ => false end.

(** [f64::min] and [f64::max]: a NaN gives the other argument. *)
Definition fmin (x y : f64) : f64 := if is_nan x then y else if is_nan y then x else if SFleb x y then x else y.
Definition fmax (x y : f64) : f64 := if is_nan x then y else if is_nan y then x else if SFleb x y then y else x.

(** [f64::clamp]: a NaN stays. *)
Definition fclamp (lo hi x : f64) : f64 := if SFltb x lo then lo else if SFltb hi x then hi else x.

(** [x as u32] truncates and saturates; a NaN gives zero. *)
Definition as_u32 (x : f64) : N :=
  match x with
  | S754_finite false m e =>
      N.min u32_max (Z.to_N (if (0 <=? e)%Z then Z.pos m * 2 ^ e else Z.pos m / 2 ^ (- e)))
  | S754_infinity false => u32_max
  | _ => 0%N
  end.

(** The same of [f32]: 24 bits, exponents below 128. *)
Abbreviation f32 := spec_float.
Definition f32_of (z : Z) : f32 := binary_normalize 24 128 z 0 false.
Definition f32_add : f32 → f32 → f32 := SFadd 24 128.
Definition f32_sub : f32 → f32 → f32 := SFsub 24 128.
Definition f32_mul : f32 → f32 → f32 := SFmul 24 128.
Definition f32_div : f32 → f32 → f32 := SFdiv 24 128.
Definition f32_lit (n d : Z) : f32 := f32_div (f32_of n) (f32_of d).

Definition fsum (l : list f64) : f64 := foldl fadd (f_of 0) l.

(** ** NaN *)

Lemma fadd_nan_l (y : f64) : fadd S754_nan y = S754_nan.
Proof. done. Qed.
Lemma fadd_nan_r (x : f64) : fadd x S754_nan = S754_nan.
Proof. by destruct x. Qed.
Lemma fsub_nan_l (y : f64) : fsub S754_nan y = S754_nan.
Proof. done. Qed.
Lemma fdiv_nan_r (x : f64) : fdiv x S754_nan = S754_nan.
Proof. by destruct x. Qed.
Lemma fmul_nan_l (y : f64) : fmul S754_nan y = S754_nan.
Proof. done. Qed.
Lemma fltb_nan_l (y : f64) : SFltb S754_nan y = false.
Proof. done. Qed.
Lemma fltb_nan_r (x : f64) : SFltb x S754_nan = false.
Proof. by destruct x. Qed.
Lemma fleb_nan_l (y : f64) : SFleb S754_nan y = false.
Proof. done. Qed.
Lemma fleb_nan_r (x : f64) : SFleb x S754_nan = false.
Proof. by destruct x. Qed.

#[export] Hint Rewrite fadd_nan_l fadd_nan_r fsub_nan_l fdiv_nan_r fmul_nan_l fltb_nan_l fltb_nan_r fleb_nan_l fleb_nan_r
  : creg_simp.

(** ** Order *)

Lemma compare_antisym (x y : f64) : SFcompare y x = CompOpp <$> SFcompare x y.
Proof.
  destruct x as [[]|[]| |[] m1 e1], y as [[]|[]| |[] m2 e2]; try done; cbn; do 2 f_equal.
  all: rewrite (Z.compare_antisym e1 e2); destruct (e1 ?= e2)%Z; cbn; try done.
  all: change (Pos.compare_cont Eq) with Pos.compare; by rewrite (Pos.compare_antisym m1 m2).
Qed.

Lemma compare_None (x y : f64) : SFcompare x y = None ↔ is_nan x = true ∨ is_nan y = true.
Proof. destruct x as [[]|[]| |[] m1 e1], y as [[]|[]| |[] m2 e2]; cbn; split; try naive_solver; intros [|]; done. Qed.

Lemma fltb_fleb (x y : f64) : SFltb x y = true → SFleb x y = true.
Proof. unfold SFltb, SFleb. by destruct (SFcompare x y) as [[]|]. Qed.

Lemma fleb_total (x y : f64) : is_nan x = false → is_nan y = false → SFleb x y = false → SFltb y x = true.
Proof.
  intros Hx Hy. unfold SFleb, SFltb. rewrite (compare_antisym x y).
  destruct (SFcompare x y) as [[]|] eqn:Hc; try done. apply compare_None in Hc as [H|H]; congruence.
Qed.

Lemma fltb_total (x y : f64) : is_nan x = false → is_nan y = false → SFltb x y = false → SFleb y x = true.
Proof.
  intros Hx Hy. unfold SFleb, SFltb. rewrite (compare_antisym x y).
  destruct (SFcompare x y) as [[]|] eqn:Hc; try done. apply compare_None in Hc as [H|H]; congruence.
Qed.

Lemma fleb_refl (x : f64) : is_nan x = false → SFleb x x = true.
Proof.
  unfold SFleb. pose proof (compare_antisym x x) as H. destruct (SFcompare x x) as [[]|] eqn:Hc; try done.
  apply compare_None in Hc as [Hn|Hn]; congruence.
Qed.

(** The cut to an interval that ignores a NaN, as the source writes it for premiums. *)
Lemma cut_range (lo hi x : f64) :
  SFleb lo hi = true → SFleb lo (fmin (fmax x lo) hi) = true ∧ SFleb (fmin (fmax x lo) hi) hi = true.
Proof.
  intros Hlh. assert (is_nan lo = false ∧ is_nan hi = false) as [Hl Hh] by (destruct lo, hi; done).
  unfold fmax. rewrite Hl. destruct (is_nan x) eqn:Hx; [|destruct (SFleb x lo) eqn:Hxl].
  1,2: unfold fmin; rewrite Hl, Hh, Hlh; by auto using fleb_refl.
  unfold fmin. rewrite Hx, Hh. destruct (SFleb x hi) eqn:Hxh; [|by auto using fleb_refl].
  split; [|done]. by apply fltb_fleb, fleb_total.
Qed.

Lemma fclamp_range (lo hi x : f64) :
  SFleb lo hi = true → is_nan x = false → SFleb lo (fclamp lo hi x) = true ∧ SFleb (fclamp lo hi x) hi = true.
Proof.
  intros Hlh Hx. assert (is_nan lo = false ∧ is_nan hi = false) as [Hl Hh] by (destruct lo, hi; done).
  unfold fclamp. destruct (SFltb x lo) eqn:H1; [by auto using fleb_refl|].
  destruct (SFltb hi x) eqn:H2; [by auto using fleb_refl|]. by auto using fltb_total.
Qed.

(** ** Signs *)

Definition nonneg (x : f64) : bool := negb (SFltb x (f_of 0)).

Definition nonneg_form (x : f64) : bool := match x with S754_finite true _ _ | S754_infinity true => false | _ => true end.

Lemma nonneg_forms (x : f64) : nonneg x = nonneg_form x.
Proof. by destruct x as [[]|[]| |[]]. Qed.

Lemma round_nonneg (m e : Z) (l : location) : nonneg (binary_round_aux 53 1024 false m e l) = true.
Proof.
  rewrite nonneg_forms. unfold binary_round_aux. destruct (shr_fexp _ _ _ _ _) as [mrs e'].
  destruct (shr_fexp _ _ _ _ loc_Exact) as [mrs' e'']. destruct (shr_m mrs'); try done. by case_match.
Qed.

Lemma normalize_nonneg (m e : Z) : (0 <= m)%Z → nonneg (binary_normalize 53 1024 m e false) = true.
Proof.
  intros Hm. destruct m; cbn [binary_normalize]; [done| |lia]. unfold binary_round. destruct (shl_align _ _ _). apply round_nonneg.
Qed.

Lemma iter_xO (m d : positive) : Z.pos (Pos.iter xO m d) = (Z.pos m * 2 ^ Z.pos d)%Z.
Proof.
  induction d as [|d IH] using Pos.peano_ind; [cbn; lia|]. rewrite Pos.iter_succ, Pos2Z.inj_succ, Z.pow_succ_r by lia.
  rewrite Pos2Z.inj_xO, IH. lia.
Qed.

Lemma align_value (m : positive) (e e' : Z) :
  (e' <= e)%Z → Z.pos (shl_align m e e').1 = (Z.pos m * 2 ^ (e - e'))%Z.
Proof.
  intros He. unfold shl_align. destruct (e' - e)%Z as [|d|d] eqn:Hd; [|lia|]; cbn [fst].
  - replace (e - e')%Z with 0%Z by lia. lia.
  - rewrite iter_xO. f_equal. f_equal. lia.
Qed.

Lemma digits_bounds (m : positive) :
  (2 ^ (Z.pos (digits2_pos m) - 1) <= Z.pos m < 2 ^ Z.pos (digits2_pos m))%Z.
Proof.
  induction m as [m IH|m IH|]; cbn [digits2_pos]; [| |done].
  all: rewrite Pos2Z.inj_succ; replace (Z.succ (Z.pos (digits2_pos m)) - 1)%Z with (Z.succ (Z.pos (digits2_pos m) - 1)) by lia.
  all: rewrite !Z.pow_succ_r by lia; lia.
Qed.

Definition valid_f64 : f64 → bool := valid_binary 53 1024.

Lemma canonical_bounds (s : bool) (m : positive) (e : Z) :
  valid_f64 (S754_finite s m e) = true → (Z.pos m < 2 ^ 53 ∧ -1074 <= e ∧ (-1074 < e → 2 ^ 52 <= Z.pos m))%Z.
Proof.
  unfold valid_f64. cbn. intros [Hc%Z.eqb_eq _]%andb_true_iff. unfold fexp, emin in Hc.
  pose proof (digits_bounds m) as [Hlo Hhi]. set (d := Z.pos (digits2_pos m)) in *.
  assert (d <= 53)%Z by lia. split; [|split; [lia|]].
  - eapply Z.lt_le_trans; [exact Hhi|]. by apply Z.pow_le_mono_r.
  - intros He. replace d with 53%Z in Hlo by lia. done.
Qed.

(** Two canonical numbers with the exponents in order are in order, whatever their mantissas. *)
Lemma aligned_lt (m1 m2 : positive) (e1 e2 : Z) :
  (Z.pos m1 < 2 ^ 53)%Z → (2 ^ 52 <= Z.pos m2)%Z → (e1 < e2)%Z → (Z.pos m1 <= Z.pos m2 * 2 ^ (e2 - e1))%Z.
Proof.
  intros H1 H2 He. assert (2 ^ 1 <= 2 ^ (e2 - e1))%Z by (apply Z.pow_le_mono_r; lia).
  change (2 ^ 53)%Z with (2 ^ 52 * 2)%Z in H1. nia.
Qed.

Lemma fsub_magnitudes (m1 m2 : positive) (e1 e2 : Z) :
  valid_f64 (S754_finite false m1 e1) = true → valid_f64 (S754_finite false m2 e2) = true →
  SFleb (S754_finite false m2 e2) (S754_finite false m1 e1) = true →
  let ez := Z.min e1 e2 in (Z.pos (shl_align m2 e2 ez).1 <= Z.pos (shl_align m1 e1 ez).1)%Z.
Proof.
  intros (H1 & He1 & Hn1)%canonical_bounds (H2 & He2 & Hn2)%canonical_bounds Hle. cbv zeta.
  rewrite !align_value by lia. unfold SFleb in Hle. cbn in Hle.
  destruct (Z.compare_spec e2 e1) as [->|Hlt|]; [|clear Hle|done].
  - rewrite Z.min_id, Z.sub_diag. change (2 ^ 0)%Z with 1%Z.
    change (Pos.compare_cont Eq m2 m1) with (m2 ?= m1)%positive in Hle. destruct (Pos.compare_spec m2 m1); subst; try done; lia.
  - rewrite Z.min_r, Z.sub_diag by lia. change (2 ^ 0)%Z with 1%Z.
    pose proof (aligned_lt m2 m1 e2 e1 H2 (Hn1 ltac:(lia)) Hlt). lia.
Qed.

(** Taking at most what is there leaves nothing negative. *)
Lemma fsub_nonneg (x y : f64) :
  valid_f64 x = true → valid_f64 y = true → nonneg x = true → SFleb y x = true → nonneg (fsub x y) = true.
Proof.
  intros Hx Hy Hn Hle. rewrite nonneg_forms in Hn.
  destruct x as [[]|[]| |[] m1 e1], y as [[]|[]| |[] m2 e2]; try done.
  all: unfold fsub, SFsub; cbn [cond_Zopp]; apply normalize_nonneg.
  - lia.
  - pose proof (fsub_magnitudes m1 m2 e1 e2 Hx Hy Hle). cbv zeta in *. lia.
Qed.

Lemma fadd_nonneg (x y : f64) : nonneg x = true → nonneg y = true → nonneg (fadd x y) = true.
Proof.
  intros Hx Hy. rewrite nonneg_forms in Hx, Hy. destruct x as [[]|[]| |[] m1 e1], y as [[]|[]| |[] m2 e2]; try done.
  unfold fadd, SFadd. cbn [cond_Zopp]. by apply normalize_nonneg.
Qed.
