(* ===== verification/ChainSpec.v ===== *)
(** The chain specification (common/src/chain_spec.rs), its validation by the command-line client
    (cli/src/chain_spec.rs) and the fingerprints of hot keys (common/src/hot_key.rs).

    A specification is signed and hashed over its canonical JSON ([Json]).  [Serialize] is the
    interface of serde: a type whose values are determined by the JSON they are written as.  Every
    type of a specification is an instance, so that the genesis hash is proved to bind what goes
    into it and the signature to bind the whole specification. *)

From S2P Require Import Prelude Text Crypto Types ValidatorSet Threshold Json.
From Stdlib Require Import Ascii NArith.

(** ** Equality of JSON values

    Two values are the same when they differ in the order of keys only. *)
Definition json_eq (v w : Value) : Prop := norm v = norm w.

#[export] Instance json_eq_equiv : Equivalence json_eq.
Proof. split; [done|by intros ? ? ?|by intros ? ? ? H ?; etransitivity]. Qed.

(** [serde::Serialize] *)
Class Serialize (A : Type) := {
  to_value : A → Value;
  to_value_ok : ∀ a, json_ok (to_value a) = true;
  to_value_inj : ∀ a b, json_eq (to_value a) (to_value b) → a = b;
}.

(** The value of each key is the same in both of two equal objects. *)
Lemma object_lookup (m1 m2 : list (string * Value)) (k : string) :
  json_eq (VObject m1) (VObject m2) → NoDup (map fst m1) → NoDup (map fst m2) →
  norm <$> entry_of k m1 = norm <$> entry_of k m2.
Proof.
  unfold json_eq. cbn [norm]. intros [= H] N1 N2.
  assert (Hs : ∀ m, NoDup (map fst m) → entry_of k (sorted_entries VNull (map (λ kv, (kv.1, norm kv.2)) m)) = norm <$> entry_of k m).
  { intros m Hnd. unfold sorted_entries. rewrite keys_map. destruct (decide (k ∈ map fst m)) as [Hk|Hk].
    - destruct (entry_of_key k m Hk) as (v & Hv & Hin). rewrite Hv. apply entry_of_NoDup.
      + rewrite map_map, map_id. unfold sort_strings. by rewrite sort_by_Permutation.
      + apply list_elem_of_In, in_map_iff. exists k. rewrite entry_of_map, Hv. split; [done|].
        apply list_elem_of_In. unfold sort_strings. by rewrite sort_by_Permutation.
    - destruct (entry_of k m) as [v|] eqn:Hv.
      { exfalso. apply Hk. unfold entry_of in Hv. destruct (filter _ m) as [|x l] eqn:Hf; [done|].
        assert (x ∈ filter (λ kv, kv.1 = k) m) as [<- Hx]%list_elem_of_filter by (rewrite Hf; by left).
        apply list_elem_of_In, in_map_iff. exists x. split; [done|]. by apply list_elem_of_In. }
      destruct (entry_of k (map _ _)) as [w|] eqn:Hw; [|done]. exfalso. unfold entry_of in Hw.
      destruct (filter _ _) as [|x l] eqn:Hf; [done|].
      match type of Hf with filter ?P ?l' = _ => assert (x ∈ filter P l') as [Hx Hin]%list_elem_of_filter by (rewrite Hf; by left) end.
      apply list_elem_of_In, in_map_iff in Hin as (k' & <- & Hk'%list_elem_of_In). cbn in Hx. subst k'.
      unfold sort_strings in Hk'. by rewrite sort_by_Permutation in Hk'. }
  rewrite <- (Hs m1 N1), <- (Hs m2 N2). by rewrite H.
Qed.

Lemma map_lookup {A B : Type} (f : A → B) (l : list A) (i : nat) : map f l !! i = f <$> l !! i.
Proof. revert i. induction l as [|x l IH]; intros [|i]; try done. apply IH. Qed.

(** Objects with the same keys: their fields are equal one by one. *)
Lemma object_fields (m1 m2 : list (string * Value)) :
  json_eq (VObject m1) (VObject m2) → map fst m1 = map fst m2 → bool_decide (NoDup (map fst m1)) = true →
  Forall2 (λ a b, json_eq a.2 b.2) m1 m2.
Proof.
  intros H Hk Hnd%bool_decide_eq_true. apply Forall2_same_length_lookup. split.
  { by rewrite <- (length_map fst m1), Hk, length_map. }
  intros i [k1 v1] [k2 v2] H1 H2.
  assert (k1 = k2) as ->.
  { pose proof (f_equal (lookup i) Hk) as Hi. rewrite !map_lookup, H1, H2 in Hi. by injection Hi. }
  pose proof (object_lookup m1 m2 k2 H Hnd) as Hv. rewrite <- Hk in Hv. specialize (Hv Hnd).
  rewrite (entry_of_NoDup k2 v1 m1 Hnd) in Hv by (by apply list_elem_of_lookup_2 in H1).
  rewrite (entry_of_NoDup k2 v2 m2) in Hv; [by injection Hv|by rewrite <- Hk|by apply list_elem_of_lookup_2 in H2].
Qed.

(** Closes the two laws of a record that is written with one entry per field. *)
Ltac by_fields :=
  let a := fresh "a" in let b := fresh "b" in let H := fresh in
  intros a b H;
  match type of H with json_eq (?f a) (?f b) => unfold f in H end;
  apply object_fields in H; [|reflexivity|by vm_compute];
  repeat match goal with
  | H : Forall2 _ (_ :: _) (_ :: _) |- _ => apply Forall2_cons_1 in H as [? H]
  end; cbn [snd] in *;
  repeat match goal with H : json_eq (to_value _) (to_value _) |- _ => apply to_value_inj in H end;
  destruct a, b; cbn in *; congruence.

Ltac by_ok :=
  let a := fresh "a" in
  intros a; match goal with |- json_ok (?f a) = true => unfold f end;
  cbn [json_ok forallb snd]; by rewrite ?to_value_ok.

(** ** Scalars and containers *)

#[export, refine] Instance serialize_string : Serialize string := {| to_value := VString |}.
Proof. - done. - unfold json_eq. cbn. by intros a b [= ->]. Defined.

#[export, refine] Instance serialize_bool : Serialize bool := {| to_value := VBool |}.
Proof. - done. - unfold json_eq. cbn. by intros a b [= ->]. Defined.

(** The digits of a number are characters of a number. *)
Lemma pretty_go_chars (n : N) (s : string) :
  forallb is_digit (of_str s) = true → forallb is_digit (of_str (pretty_N_go n s)) = true.
Proof.
  revert s. induction n as [n IH] using (well_founded_ind N.lt_wf_0). intros s Hs.
  destruct (decide (n = 0)%N) as [->|Hn]; [by rewrite pretty_N_go_0|]. rewrite pretty_N_go_step by lia.
  apply IH; [apply N.div_lt; lia|]. cbn [of_str String.list_ascii_of_string forallb]. apply andb_true_iff. split; [|exact Hs].
  assert (n `mod` 10 < 10)%N as Hd by (apply N.mod_lt; lia). destruct (n `mod` 10)%N as [|p]; [done|].
  do 4 (destruct p as [p|p|]; try done; try lia).
Qed.

Lemma digits_number (s : string) : s ≠ "" → forallb is_digit (of_str s) = true → number_text s = true.
Proof.
  destruct s as [|c s]; [done|]. intros _ Hall. change (is_digit c && forallb is_digit (of_str s) = true) in Hall.
  apply andb_prop in Hall as [Hc Hs]. cbn [number_text]. rewrite Hc. cbn [orb andb].
  apply forallb_forall. rewrite forallb_forall in Hs. intros x Hx%Hs. unfold number_char. by rewrite Hx.
Qed.

Lemma pretty_nonempty (n : N) : (0 < n)%N → pretty_N_go n "" ≠ "".
Proof. intros Hn. by destruct (pretty_head n "" Hn) as (d & t & ->). Qed.

Lemma pretty_number (n : N) : number_text (fmt_N n) = true.
Proof.
  unfold fmt_N, pretty, pretty_N. case_decide as Hn; [done|]. apply digits_number; [apply pretty_nonempty; lia|].
  by apply pretty_go_chars.
Qed.

(** u8 to u64 *)
#[export, refine] Instance serialize_N : Serialize N := {| to_value := λ n, VNumber (fmt_N n) |}.
Proof. - apply pretty_number. - unfold json_eq. cbn. intros a b [= H]. by apply (inj pretty) in H. Defined.

(** i32 *)
#[export, refine] Instance serialize_Z : Serialize Z := {| to_value := λ z, VNumber (pretty z) |}.
Proof.
  - intros [|p|p]; [done|apply pretty_number|]. cbn [json_ok]. unfold pretty, pretty_Z.
    pose proof (pretty_number (N.pos p)) as H. apply number_text_chars in H. unfold fmt_N in H.
    rewrite app_cons_str. cbn [number_text]. exact H.
  - unfold json_eq. cbn. intros a b [= H]. by apply (inj pretty) in H.
Defined.

#[export, refine] Instance serialize_option : Serialize (option string) :=
  {| to_value := λ o, match o with Some s => to_value s | None => VNull end |}.
Proof. - by intros []. - unfold json_eq. cbn. intros [] [] H; by simplify_eq/=. Defined.

#[export, refine] Instance serialize_list {A : Type} `{!Serialize A} : Serialize (list A) :=
  {| to_value := λ l, VArray (map to_value l) |}.
Proof.
  - intros l. cbn. induction l as [|x l IH]; [done|]. cbn. by rewrite to_value_ok, IH.
  - unfold json_eq. cbn. intros l1 l2 [= H]. revert l2 H. induction l1 as [|x l1 IH]; intros [|y l2] H; try done.
    cbn in H. injection H as H1 H2. apply to_value_inj in H1 as ->. f_equal. by apply IH.
Defined.

(** [BTreeMap<String, A>] *)
#[export, refine] Instance serialize_map {A : Type} `{!Serialize A} : Serialize (gmap string A) :=
  {| to_value := λ m, VObject (map (λ kv, (kv.1, to_value kv.2)) (map_to_list m)) |}.
Proof.
  - intros m. cbn. apply forallb_forall. intros [k v] (x & [= _ <-] & _)%in_map_iff. apply to_value_ok.
  - assert (Hnd : ∀ m : gmap string A, NoDup (map fst (map (λ kv, (kv.1, to_value kv.2)) (map_to_list m)))).
    { intros m. rewrite keys_map. apply NoDup_fst_map_to_list. }
    intros m1 m2 H. apply map_eq. intros k. pose proof (object_lookup _ _ k H (Hnd m1) (Hnd m2)) as Hk.
    rewrite !entry_of_map in Hk.
    assert (He : ∀ m : gmap string A, entry_of k (map_to_list m) = m !! k).
    { intros m. destruct (m !! k) as [v|] eqn:Hv.
      - apply entry_of_NoDup; [apply NoDup_fst_map_to_list|by apply elem_of_map_to_list].
      - destruct (entry_of k (map_to_list m)) as [v|] eqn:Hf; [|done]. exfalso. unfold entry_of in Hf.
        destruct (filter _ _) as [|[k' w] l] eqn:Hl; [done|].
        assert ((k', w) ∈ filter (λ kv, kv.1 = k) (map_to_list m)) as [Hk' Hin]%list_elem_of_filter by (rewrite Hl; by left).
        apply elem_of_map_to_list in Hin. cbn in Hk'. by simplify_eq. }
    rewrite !He in Hk. destruct (m1 !! k) as [v1|], (m2 !! k) as [v2|]; try done. cbn in Hk. injection Hk as Hk.
    by apply to_value_inj in Hk as ->.
Defined.

(** The tuple of a validator in the hash. *)
#[export, refine] Instance serialize_tuple : Serialize (string * string * string * N) :=
  {| to_value := λ '(a, b, c, n), VArray [to_value a; to_value b; to_value c; to_value n] |}.
Proof.
  - intros [[[a b] c] n]. cbn [json_ok forallb]. by rewrite !to_value_ok.
  - intros [[[a1 b1] c1] n1] [[[a2 b2] c2] n2] H. unfold json_eq in H. cbn [norm map] in H. injection H as H1 H2 H3 H4.
    apply (inj pretty) in H4. by subst.
Defined.

(** ** The specification *)

Inductive Network := Testnet | Staging | Mainnet.

Inductive Phase := Alpha | Beta | GA.

Record ConsensusParams := {
  cpr_block_time_seconds : N;
  cpr_vote_timeout_ms : N;
  cpr_quorum_percentage : N;
  cpr_min_validator_stake_wei : string;
  cpr_min_publisher_stake_wei : string;
  cpr_unbonding_period_seconds : N;
  cpr_slash_penalty_low_bp : N;
  cpr_slash_penalty_medium_bp : N;
  cpr_slash_penalty_critical_bp : N;
  cpr_max_validators : N;
}.

Record FeatureFlags := {
  ff_zk_validation : bool;
  ff_ml_validation : bool;
  ff_wasm_sandbox : bool;
  ff_private_registries : bool;
  ff_cross_chain : bool;
  ff_insurance : bool;
  ff_threshold_encryption : bool;
}.

Record L1Config := {
  l1c_name : string;
  l1c_chain_id : N;
  l1c_block_explorer : string;
  l1c_min_finality_blocks : N;
}.

Record Bootnode := { bn_id : string; bn_operator : string; bn_region : string; bn_multiaddr : string }.

Record ValidatorSpecEntry := {
  vse_id : string;
  vse_alias : string;
  vse_pubkey : string;
  vse_eth_address : string;
  vse_stake : N;
  vse_reputation : N;
  vse_status : string;
}.

Record ValidatorSetSpec := {
  vss_version : N;
  vss_last_updated : string;
  vss_epoch_block_height : N;
  vss_validators : list ValidatorSpecEntry;
}.

Record Services := {
  svc_ipfs_gateway : string; svc_ipfs_api : string; svc_faucet : string; svc_explorer : string; svc_metrics : string;
}.

Record Support := {
  su_matrix : option string; su_discord : option string; su_issues : option string; su_security : option string;
}.

(** [Support::is_empty] *)
Definition support_is_empty (s : Support) : bool :=
  bool_decide (su_matrix s = None) && bool_decide (su_discord s = None) && bool_decide (su_issues s = None)
  && bool_decide (su_security s = None).

Record Signing := {
  sgn_signature_algorithm : string; sgn_signing_key_pubkey_hex : string; sgn_detached_signature_url : string;
}.

Record ChainSpec := {
  spec_version : Z;
  spec_chain_id : string;
  spec_network : Network;
  spec_phase : Phase;
  spec_genesis_time : string;
  spec_genesis_hash : string;
  spec_consensus_params : ConsensusParams;
  spec_feature_flags : FeatureFlags;
  spec_l1 : L1Config;
  spec_contracts : gmap string string;
  spec_bootnodes : list Bootnode;
  spec_validator_set : ValidatorSetSpec;
  spec_services : Services;
  spec_support : Support;
  spec_signing : Signing;
}.

Definition CURRENT_SPEC_VERSION : Z := 1.
Definition SPEC_SIGNATURE_DOMAIN : string := "creg-chain-spec-v1".

(** ** What serde writes *)

Definition network_name (n : Network) : string :=
  match n with Testnet => "testnet" | Staging => "staging" | Mainnet => "mainnet" end.

Definition phase_name (p : Phase) : string := match p with Alpha => "alpha" | Beta => "beta" | GA => "gA" end.

Definition consensus_params_value (c : ConsensusParams) : Value :=
  VObject [("block_time_seconds", to_value (cpr_block_time_seconds c));
           ("vote_timeout_ms", to_value (cpr_vote_timeout_ms c));
           ("quorum_percentage", to_value (cpr_quorum_percentage c));
           ("min_validator_stake_wei", to_value (cpr_min_validator_stake_wei c));
           ("min_publisher_stake_wei", to_value (cpr_min_publisher_stake_wei c));
           ("unbonding_period_seconds", to_value (cpr_unbonding_period_seconds c));
           ("slash_penalty_low_bp", to_value (cpr_slash_penalty_low_bp c));
           ("slash_penalty_medium_bp", to_value (cpr_slash_penalty_medium_bp c));
           ("slash_penalty_critical_bp", to_value (cpr_slash_penalty_critical_bp c));
           ("max_validators", to_value (cpr_max_validators c))].

Definition feature_flags_value (f : FeatureFlags) : Value :=
  VObject [("zk_validation", to_value (ff_zk_validation f)); ("ml_validation", to_value (ff_ml_validation f));
           ("wasm_sandbox", to_value (ff_wasm_sandbox f)); ("private_registries", to_value (ff_private_registries f));
           ("cross_chain", to_value (ff_cross_chain f)); ("insurance", to_value (ff_insurance f));
           ("threshold_encryption", to_value (ff_threshold_encryption f))].

Definition l1_value (l : L1Config) : Value :=
  VObject [("name", to_value (l1c_name l)); ("chain_id", to_value (l1c_chain_id l));
           ("block_explorer", to_value (l1c_block_explorer l));
           ("min_finality_blocks", to_value (l1c_min_finality_blocks l))].

Definition bootnode_value (b : Bootnode) : Value :=
  VObject [("id", to_value (bn_id b)); ("operator", to_value (bn_operator b)); ("region", to_value (bn_region b));
           ("multiaddr", to_value (bn_multiaddr b))].

Definition validator_entry_value (v : ValidatorSpecEntry) : Value :=
  VObject [("id", to_value (vse_id v)); ("alias", to_value (vse_alias v)); ("pubkey", to_value (vse_pubkey v));
           ("eth_address", to_value (vse_eth_address v)); ("stake", to_value (vse_stake v));
           ("reputation", to_value (vse_reputation v)); ("status", to_value (vse_status v))].

Definition services_value (s : Services) : Value :=
  VObject [("ipfs_gateway", to_value (svc_ipfs_gateway s)); ("ipfs_api", to_value (svc_ipfs_api s));
           ("faucet", to_value (svc_faucet s)); ("explorer", to_value (svc_explorer s));
           ("metrics", to_value (svc_metrics s))].

Definition support_value (s : Support) : Value :=
  VObject [("matrix", to_value (su_matrix s)); ("discord", to_value (su_discord s)); ("issues", to_value (su_issues s));
           ("security", to_value (su_security s))].

Definition signing_value (s : Signing) : Value :=
  VObject [("signature_algorithm", to_value (sgn_signature_algorithm s));
           ("signing_key_pubkey_hex", to_value (sgn_signing_key_pubkey_hex s));
           ("detached_signature_url", to_value (sgn_detached_signature_url s))].

#[export, refine] Instance serialize_network : Serialize Network := {| to_value := λ n, VString (network_name n) |}.
Proof. - done. - unfold json_eq. by intros [] []. Defined.

#[export, refine] Instance serialize_phase : Serialize Phase := {| to_value := λ p, VString (phase_name p) |}.
Proof. - done. - unfold json_eq. by intros [] []. Defined.

#[export, refine] Instance serialize_params : Serialize ConsensusParams := {| to_value := consensus_params_value |}.
Proof. - by_ok. - by_fields. Defined.

#[export, refine] Instance serialize_flags : Serialize FeatureFlags := {| to_value := feature_flags_value |}.
Proof. - by_ok. - by_fields. Defined.

#[export, refine] Instance serialize_l1 : Serialize L1Config := {| to_value := l1_value |}.
Proof. - by_ok. - by_fields. Defined.

#[export, refine] Instance serialize_bootnode : Serialize Bootnode := {| to_value := bootnode_value |}.
Proof. - by_ok. - by_fields. Defined.

#[export, refine] Instance serialize_entry : Serialize ValidatorSpecEntry := {| to_value := validator_entry_value |}.
Proof. - by_ok. - by_fields. Defined.

#[export, refine] Instance serialize_services : Serialize Services := {| to_value := services_value |}.
Proof. - by_ok. - by_fields. Defined.

#[export, refine] Instance serialize_support : Serialize Support := {| to_value := support_value |}.
Proof. - by_ok. - by_fields. Defined.

#[export, refine] Instance serialize_signing : Serialize Signing := {| to_value := signing_value |}.
Proof. - by_ok. - by_fields. Defined.

Definition validator_set_value (s : ValidatorSetSpec) : Value :=
  VObject [("version", to_value (vss_version s)); ("last_updated", to_value (vss_last_updated s));
           ("epoch_block_height", to_value (vss_epoch_block_height s)); ("validators", to_value (vss_validators s))].

#[export, refine] Instance serialize_validator_set : Serialize ValidatorSetSpec := {| to_value := validator_set_value |}.
Proof. - by_ok. - by_fields. Defined.

(** [skip_serializing_if = Support::is_empty] *)
Definition support_fields (s : Support) : list (string * Value) :=
  if support_is_empty s then [] else [("support", to_value s)].

Definition chain_spec_fields (s : ChainSpec) : list (string * Value) :=
  [("spec_version", to_value (spec_version s)); ("chain_id", to_value (spec_chain_id s));
   ("network", to_value (spec_network s)); ("phase", to_value (spec_phase s));
   ("genesis_time", to_value (spec_genesis_time s)); ("genesis_hash", to_value (spec_genesis_hash s));
   ("consensus_params", to_value (spec_consensus_params s)); ("feature_flags", to_value (spec_feature_flags s));
   ("l1", to_value (spec_l1 s)); ("contracts", to_value (spec_contracts s));
   ("bootnodes", to_value (spec_bootnodes s)); ("validator_set", to_value (spec_validator_set s));
   ("services", to_value (spec_services s)); ("signing", to_value (spec_signing s))]
  ++ support_fields (spec_support s).

Definition chain_spec_value (s : ChainSpec) : Value := VObject (chain_spec_fields s).

Lemma support_none (s : Support) :
  support_is_empty s = true → s = {| su_matrix := None; su_discord := None; su_issues := None; su_security := None |}.
Proof.
  unfold support_is_empty. destruct s. cbn. rewrite !andb_true_iff, !bool_decide_eq_true. by intros [[[-> ->] ->] ->].
Qed.

Lemma spec_keys (s : ChainSpec) : NoDup (map fst (chain_spec_fields s)).
Proof.
  unfold chain_spec_fields, support_fields. rewrite map_app.
  destruct (support_is_empty (spec_support s)); apply (bool_decide_eq_true_1 _); by vm_compute.
Qed.

Lemma spec_support_inj (s1 s2 : ChainSpec) :
  json_eq (chain_spec_value s1) (chain_spec_value s2) →
  spec_support s1 = spec_support s2.
Proof.
  intros H. pose proof (object_lookup _ _ "support" H (spec_keys s1) (spec_keys s2)) as Hk.
  assert (He : ∀ s, entry_of "support" (chain_spec_fields s) = if support_is_empty (spec_support s) then None else Some (to_value (spec_support s))).
  { intros s. unfold chain_spec_fields, support_fields. by destruct (support_is_empty (spec_support s)). }
  rewrite !He in Hk. destruct (support_is_empty (spec_support s1)) eqn:E1, (support_is_empty (spec_support s2)) eqn:E2; try done.
  - apply support_none in E1, E2. by rewrite E1, E2.
  - apply to_value_inj. unfold json_eq. by apply (inj Some) in Hk.
Qed.

#[export, refine] Instance serialize_chain_spec : Serialize ChainSpec := {| to_value := chain_spec_value |}.
Proof.
  - intros s. unfold chain_spec_value, chain_spec_fields, support_fields. cbn [json_ok]. rewrite forallb_app. apply andb_true_iff. split.
    + cbn [forallb snd]. by rewrite !to_value_ok.
    + destruct (support_is_empty (spec_support s)); [done|]. cbn [forallb snd]. by rewrite to_value_ok.
  - intros s1 s2 H. pose proof (spec_support_inj s1 s2 H) as Hs. apply object_fields in H.
    + unfold chain_spec_fields in H. cbn [app] in H.
      repeat match goal with H : Forall2 _ (_ :: _) (_ :: _) |- _ => apply Forall2_cons_1 in H as [? H] end; cbn [snd] in *.
      repeat match goal with H : json_eq (to_value _) (to_value _) |- _ => apply to_value_inj in H end.
      clear - H0 H1 H2 H3 H4 H5 H6 H7 H8 H9 H10 H11 H12 H13 Hs. destruct s1, s2. cbn in *. by subst.
    + unfold chain_spec_fields, support_fields. rewrite Hs. by destruct (support_is_empty (spec_support s2)).
    + apply bool_decide_eq_true_2, spec_keys.
Defined.

(** Equal canonical texts of serialised values come from equal values. *)
Lemma canonical_inj {A : Type} `{!Serialize A} (a b : A) :
  to_jcs_canonical_json (to_value a) = to_jcs_canonical_json (to_value b) → a = b.
Proof. intros H. apply to_value_inj, canonical_norm, H; apply to_value_ok. Qed.

(** ** The genesis hash *)

Record ValidatorSetHashPayload := {
  hp_version : N;
  hp_validators : list (string * string * string * N);
}.

Record GenesisHashPayload := {
  gp_chain_id : string;
  gp_genesis_time : string;
  gp_consensus_params : ConsensusParams;
  gp_feature_flags : FeatureFlags;
  gp_l1_chain_id : N;
  gp_contracts : gmap string string;
  gp_validator_set : ValidatorSetHashPayload;
}.

Definition hash_set_value (s : ValidatorSetHashPayload) : Value :=
  VObject [("version", to_value (hp_version s)); ("validators", to_value (hp_validators s))].

Definition l1_hash_value (id : N) : Value := VObject [("chain_id", to_value id)].

#[export, refine] Instance serialize_hash_set : Serialize ValidatorSetHashPayload := {| to_value := hash_set_value |}.
Proof. - by_ok. - by_fields. Defined.

Definition payload_value (p : GenesisHashPayload) : Value :=
  VObject [("chain_id", to_value (gp_chain_id p)); ("genesis_time", to_value (gp_genesis_time p));
           ("consensus_params", to_value (gp_consensus_params p)); ("feature_flags", to_value (gp_feature_flags p));
           ("l1", l1_hash_value (gp_l1_chain_id p)); ("contracts", to_value (gp_contracts p));
           ("validator_set", to_value (gp_validator_set p))].

Lemma l1_hash_inj (a b : N) : json_eq (l1_hash_value a) (l1_hash_value b) → a = b.
Proof.
  intros H. apply object_fields in H; [|done|by vm_compute]. apply Forall2_cons_1 in H as [H _]. by apply to_value_inj in H.
Qed.

#[export, refine] Instance serialize_payload : Serialize GenesisHashPayload := {| to_value := payload_value |}.
Proof.
  - intros p. unfold payload_value. cbn [json_ok forallb snd l1_hash_value]. by rewrite !to_value_ok.
  - intros a b H. unfold payload_value in H. apply object_fields in H; [|reflexivity|by vm_compute].
    repeat match goal with H : Forall2 _ (_ :: _) (_ :: _) |- _ => apply Forall2_cons_1 in H as [? H] end; cbn [snd] in *.
    repeat match goal with
    | H : json_eq (to_value _) (to_value _) |- _ => apply to_value_inj in H
    | H : json_eq (l1_hash_value _) _ |- _ => apply l1_hash_inj in H
    end.
    destruct a, b; cbn in *; congruence.
Defined.

Definition genesis_payload (s : ChainSpec) : GenesisHashPayload := {|
  gp_chain_id := spec_chain_id s; gp_genesis_time := spec_genesis_time s;
  gp_consensus_params := spec_consensus_params s; gp_feature_flags := spec_feature_flags s;
  gp_l1_chain_id := l1c_chain_id (spec_l1 s); gp_contracts := spec_contracts s;
  gp_validator_set := {|
    hp_version := vss_version (spec_validator_set s);
    hp_validators := (λ v, (vse_id v, vse_pubkey v, vse_eth_address v, vse_stake v)) <$> vss_validators (spec_validator_set s) |} |}.

Section Hashing.
Context `{CR : !Crypto}.

Definition compute_genesis_hash (s : ChainSpec) : string :=
  "0x" +:+ hex_encode (sha256 (to_jcs_canonical_json (to_value (genesis_payload s)))).

(** ** The signature *)

Inductive SpecError :=
| InvalidPubkeyHex | PubkeyLength | InvalidVerifyingKey | InvalidSignatureHex | SignatureLength | SignatureFailed.

#[export] Instance SpecError_eq_dec : EqDecision SpecError.
Proof. solve_decision. Defined.

Definition canonical_json_for_signing (s : ChainSpec) : string := to_jcs_canonical_json (to_value s).

Definition signing_message (s : ChainSpec) : string := SPEC_SIGNATURE_DOMAIN +:+ "|" +:+ canonical_json_for_signing s.

Definition verify_signature (s : ChainSpec) (signature_hex pubkey_hex : string) : result SpecError unit :=
  pubkey_bytes ← ok_or InvalidPubkeyHex (hex_decode (trim_0x pubkey_hex));
  _ ← ensure (String.length pubkey_bytes =? 32)%nat PubkeyLength;
  pubkey ← ok_or InvalidVerifyingKey (vk_try_from pubkey_bytes);
  sig_bytes ← ok_or InvalidSignatureHex (hex_decode (trim_0x signature_hex));
  _ ← ensure (String.length sig_bytes =? 64)%nat SignatureLength;
  signature ← ok_or SignatureLength (sig_try_from sig_bytes);
  ensure (verify pubkey (signing_message s) signature) SignatureFailed.

End Hashing.

(** ** Use at run time *)

Definition runtime_validator (v : ValidatorSpecEntry) : Validator := {|
  val_id := vse_id v; val_alias := vse_alias v; val_pubkey := vse_pubkey v; val_eth_address := vse_eth_address v;
  val_stake := vse_stake v; val_reputation := vse_reputation v; val_status := vse_status v |}.

Definition to_runtime_validator_set (s : ChainSpec) : CommonValidatorSet :=
  {| validators := runtime_validator <$> vss_validators (spec_validator_set s) |}.

Definition p2p_seeds (s : ChainSpec) : list string := bn_multiaddr <$> spec_bootnodes s.

Definition contract (s : ChainSpec) (name : string) : option string := spec_contracts s !! name.

(** ** Validation by the command-line client *)

Inductive CliError :=
| NoSpecFile | InvalidSpecJson | UnknownSpecVersion | EmptyChainId | EmptySigningKey | GenesisHashMismatch
| ConflictingFlags | SignatureRequired | NoSignatureFile | SpecSignature (e : SpecError).

(** [to_lowercase]: no character outside ASCII has a hexadecimal digit as its lower case. *)
Definition normalize_hash (hex : string) : string := to_ascii_lowercase (trim_0x (trim hex)).

Definition default_signature_path (spec_path : string) : string := spec_path +:+ ".sig".

Section Client.
Context `{CR : !Crypto}.
Context (read_to_string : string → option string) (is_file : string → bool).
Context (from_str : string → option ChainSpec).   (* serde_json::from_str *)

Definition load_spec (path : string) : result CliError ChainSpec :=
  json ← ok_or NoSpecFile (read_to_string path);
  ok_or InvalidSpecJson (from_str json).

Definition resolve_signature_path (spec_path : string) (signature : option string) : option string :=
  match signature with
  | Some p => Some p
  | None => let sibling := default_signature_path spec_path in if is_file sibling then Some sibling else None
  end.

Definition check_spec_signature (spec : ChainSpec) (sig_path pubkey : option string) (require_signature skip_signature : bool)
    : result CliError unit :=
  match sig_path, require_signature, skip_signature with
  | _, true, true => Err ConflictingFlags
  | None, true, _ => Err SignatureRequired
  | Some p, _, false =>
      sig_hex ← ok_or NoSignatureFile (read_to_string p);
      map_err SpecSignature (verify_signature spec (trim sig_hex) (default (sgn_signing_key_pubkey_hex (spec_signing spec)) pubkey))
  | _, _, _ => Ok tt
  end.

Definition validate_spec (path : string) (signature pubkey : option string) (require_signature skip_signature : bool)
    : result CliError unit :=
  spec ← load_spec path;
  _ ← ensure (spec_version spec =? CURRENT_SPEC_VERSION)%Z UnknownSpecVersion;
  _ ← ensure (negb (is_empty (trim (spec_chain_id spec)))) EmptyChainId;
  _ ← ensure (negb (is_empty (trim (sgn_signing_key_pubkey_hex (spec_signing spec))))) EmptySigningKey;
  let computed := compute_genesis_hash spec in
  let embedded := trim (spec_genesis_hash spec) in
  _ ← ensure (is_empty embedded || String.eqb (normalize_hash embedded) (normalize_hash computed)) GenesisHashMismatch;
  check_spec_signature spec (resolve_signature_path path signature) pubkey require_signature skip_signature.

End Client.

(** ** Hexadecimal text *)

Definition hex_text (s : string) : bool := forallb is_hexdigit (of_str s).

Lemma hex_text_cons (c : ascii) (s : string) : hex_text (String c s) = is_hexdigit c && hex_text s.
Proof. done. Qed.

Lemma hex_no_0x (s : string) : hex_text s = true → strip_one ["0x"] s = None.
Proof.
  destruct s as [|a [|b s]]; [done| |]; rewrite ?hex_text_cons; cbn [strip_one strip_prefix].
  - by destruct (Ascii.eqb_spec "0"%char a).
  - intros [_ [Hb _]%andb_prop]%andb_prop. destruct (Ascii.eqb "0"%char a); [|done].
    destruct (Ascii.eqb_spec "x"%char b) as [<-|]; [done|done].
Qed.

Lemma hex_trim_0x (s : string) : hex_text s = true → trim_0x s = s.
Proof. intros Hs. by apply strip_all_stop, hex_no_0x. Qed.

Lemma trim_0x_prefixed (s : string) : hex_text s = true → trim_0x ("0x" +:+ s) = s.
Proof.
  intros Hs. change (trim_0x ("0x" +:+ s)) with (strip_all (S (String.length s)) ["0x"] s). by apply strip_all_stop, hex_no_0x.
Qed.

(** No white space starts with a letter, a digit or such. *)
Definition plain_char (c : ascii) : bool := (33 <=? N_of_ascii c)%N && (N_of_ascii c <=? 126)%N.

Lemma plain_start (c : ascii) (s : string) (ps : list string) :
  forallb (λ p, match p with EmptyString => false | String b _ => negb (plain_char b) end) ps = true →
  plain_char c = true → strip_one ps (String c s) = None.
Proof.
  intros Hps Hc. induction ps as [|p ps IH]; [done|]. cbn [forallb] in Hps. apply andb_prop in Hps as [Hp Hps].
  cbn [strip_one]. destruct p as [|b p]; [done|]. cbn [strip_prefix].
  destruct (Ascii.eqb_spec b c) as [->|]; [by rewrite Hc in Hp|by apply IH].
Qed.

Lemma of_str_rev (s : string) : rev (of_str s) = of_str (String.rev s).
Proof.
  induction s as [|c s IH]; [done|]. rewrite rev_str_cons, of_str_app, <- IH. done.
Qed.

Lemma plain_trim (s : string) : forallb plain_char (of_str s) = true → trim s = s.
Proof.
  intros Hs. apply trim_stop.
  - destruct s as [|c s]; [done|]. apply andb_prop in Hs as [Hc _]. by apply plain_start.
  - assert (forallb plain_char (of_str (String.rev s)) = true) as Hr.
    { rewrite forallb_forall in Hs |- *. intros x Hx. apply Hs. by rewrite <- of_str_rev in Hx; apply in_rev in Hx. }
    destruct (String.rev s) as [|c t]; [by vm_compute|]. apply andb_prop in Hr as [Hc _]. by apply plain_start.
Qed.

Lemma hex_plain (s : string) : hex_text s = true → forallb plain_char (of_str s) = true.
Proof.
  unfold hex_text. rewrite !forallb_forall. intros Hs x Hx%Hs. by destruct x as [[] [] [] [] [] [] [] []].
Qed.

(** ** What the genesis hash binds *)
Section Binding.
Context `{CR : !Crypto}.

Lemma genesis_payload_bound (s1 s2 : ChainSpec) :
  compute_genesis_hash s1 = compute_genesis_hash s2 → genesis_payload s1 = genesis_payload s2 ∨ collision.
Proof.
  unfold compute_genesis_hash. intros H%app_inj_l.
  destruct (decide (to_jcs_canonical_json (to_value (genesis_payload s1)) = to_jcs_canonical_json (to_value (genesis_payload s2)))) as [He|He].
  - left. by apply canonical_inj.
  - right. by eexists _, _.
Qed.

(** What a genesis hash is meant to fix. *)
Definition same_genesis (s1 s2 : ChainSpec) : Prop :=
  spec_chain_id s1 = spec_chain_id s2 ∧ spec_genesis_time s1 = spec_genesis_time s2 ∧
  spec_consensus_params s1 = spec_consensus_params s2 ∧ spec_feature_flags s1 = spec_feature_flags s2 ∧
  l1c_chain_id (spec_l1 s1) = l1c_chain_id (spec_l1 s2) ∧ spec_contracts s1 = spec_contracts s2 ∧
  vss_version (spec_validator_set s1) = vss_version (spec_validator_set s2) ∧
  Forall2 (λ v w, vse_id v = vse_id w ∧ vse_pubkey v = vse_pubkey w ∧ vse_eth_address v = vse_eth_address w ∧
                  vse_stake v = vse_stake w)
    (vss_validators (spec_validator_set s1)) (vss_validators (spec_validator_set s2)).

Lemma same_payload (s1 s2 : ChainSpec) : genesis_payload s1 = genesis_payload s2 ↔ same_genesis s1 s2.
Proof.
  unfold genesis_payload, same_genesis. split.
  - intros [= ? ? ? ? ? ? ? Hv]. repeat (split; [done|]).
    revert Hv. generalize (vss_validators (spec_validator_set s2)). induction (vss_validators (spec_validator_set s1)) as [|v l IH];
      intros [|w k] Hv; try done; constructor; [by injection Hv|]. apply IH. by injection Hv.
  - intros (-> & -> & -> & -> & -> & -> & -> & Hv). do 2 f_equal.
    induction Hv as [|v w l k (Hi & Hp & He & Hst) _ IH]; [done|]. rewrite !fmap_cons, IH. by rewrite Hi, Hp, He, Hst.
Qed.

(** C37. Two specifications with the same genesis hash agree on the chain, the time of its genesis, the
    parameters, the feature flags, the chain of the contracts and their addresses and on the
    version, the names, the keys, the addresses and the stakes of the validators, unless a
    collision of SHA-256 is known.  Conversely these decide the hash, whatever the network, the
    phase, the boot nodes and the services of the two are. *)
Theorem genesis_hash_exact (s1 s2 : ChainSpec) :
  (compute_genesis_hash s1 = compute_genesis_hash s2 → same_genesis s1 s2 ∨ collision) ∧
  (same_genesis s1 s2 → compute_genesis_hash s1 = compute_genesis_hash s2).
Proof.
  split.
  - intros [H|H]%genesis_payload_bound; [left; by apply same_payload|by right].
  - intros H%same_payload. unfold compute_genesis_hash. by rewrite H.
Qed.

(** The text that is signed determines the whole specification: a signature of one specification
    is a signature of no other. *)
Theorem signature_binds_spec (s1 s2 : ChainSpec) : signing_message s1 = signing_message s2 ↔ s1 = s2.
Proof.
  split; [|by intros ->]. unfold signing_message, canonical_json_for_signing. intros H%app_inj_l%app_inj_l.
  by apply canonical_inj.
Qed.

(** ** Signed specifications *)
Context `{L : !CryptoLaws}.
Context (hex_lower : ∀ b, hex_text (hex_encode b) = true).    (* hex::encode writes digits *)
Context (vk_length : ∀ k, String.length (vk_bytes k) = 32) (sig_length : ∀ s, String.length (sig_bytes s) = 64).

Definition sign_spec (sk : SigningKey) (s : ChainSpec) : string := hex_encode (sig_bytes (sign sk (signing_message s))).

Lemma verify_signed (sk : SigningKey) (s : ChainSpec) :
  verify_signature s (sign_spec sk s) (hex_encode (vk_bytes (sk_verifying_key sk))) = Ok tt.
Proof.
  unfold verify_signature, sign_spec. rewrite !hex_trim_0x, !hex_roundtrip by apply hex_lower. cbn.
  rewrite vk_length. cbn. rewrite vk_roundtrip. cbn. rewrite sig_length. cbn. rewrite sig_roundtrip. cbn.
  by rewrite sign_verify.
Qed.

(** The specification with another key in it. *)
Definition with_signing_key (pubkey : string) (s : ChainSpec) : ChainSpec := {|
  spec_version := spec_version s; spec_chain_id := spec_chain_id s; spec_network := spec_network s;
  spec_phase := spec_phase s; spec_genesis_time := spec_genesis_time s; spec_genesis_hash := spec_genesis_hash s;
  spec_consensus_params := spec_consensus_params s; spec_feature_flags := spec_feature_flags s; spec_l1 := spec_l1 s;
  spec_contracts := spec_contracts s; spec_bootnodes := spec_bootnodes s; spec_validator_set := spec_validator_set s;
  spec_services := spec_services s; spec_support := spec_support s;
  spec_signing := {| sgn_signature_algorithm := sgn_signature_algorithm (spec_signing s); sgn_signing_key_pubkey_hex := pubkey;
                     sgn_detached_signature_url := sgn_detached_signature_url (spec_signing s) |} |}.
End Binding.

(** ** Validation *)
Section Validation.
Context `{CR : !Crypto}.
Context (read : string → option string) (is_file : string → bool) (from_str : string → option ChainSpec).

(** The signature that validation looks at holds, or none is asked for. *)
Definition signature_accepted (spec : ChainSpec) (path : string) (signature pubkey : option string) (require skip : bool) : Prop :=
  (require && skip = false) ∧
  match resolve_signature_path is_file path signature with
  | None => require = false
  | Some p => skip = true ∨ ∃ text, read p = Some text ∧
      verify_signature spec (trim text) (default (sgn_signing_key_pubkey_hex (spec_signing spec)) pubkey) = Ok tt
  end.

Lemma check_signature_spec (spec : ChainSpec) (path : string) (signature pubkey : option string) (require skip : bool) :
  check_spec_signature read spec (resolve_signature_path is_file path signature) pubkey require skip = Ok tt ↔
  signature_accepted spec path signature pubkey require skip.
Proof.
  unfold check_spec_signature, signature_accepted. destruct (resolve_signature_path is_file path signature) as [p|], require, skip;
    cbn [andb]; try naive_solver.
  all: destruct (read p) as [text|]; cbn; [|naive_solver]; rewrite map_err_Ok; naive_solver.
Qed.

(** The client accepts a file exactly when it holds a specification of the known version that names
    a chain and a key, whose embedded genesis hash is empty or the computed one, and whose
    signature, when one is found and not skipped, verifies under the given key or, without one,
    under the key that the specification itself names; a required signature must be there. *)
Theorem validate_exact (path : string) (signature pubkey : option string) (require skip : bool) :
  validate_spec read is_file from_str path signature pubkey require skip = Ok tt ↔
  ∃ text spec, read path = Some text ∧ from_str text = Some spec ∧ spec_version spec = CURRENT_SPEC_VERSION ∧
    trim (spec_chain_id spec) ≠ "" ∧ trim (sgn_signing_key_pubkey_hex (spec_signing spec)) ≠ "" ∧
    (trim (spec_genesis_hash spec) = "" ∨
     normalize_hash (trim (spec_genesis_hash spec)) = normalize_hash (compute_genesis_hash spec)) ∧
    signature_accepted spec path signature pubkey require skip.
Proof.
  assert (Hne : ∀ s, negb (is_empty s) = true ↔ s ≠ "") by (intros []; naive_solver).
  unfold validate_spec, load_spec. split.
  - intros (spec & (text & Ht & Hs)%bind_Ok & H)%bind_Ok. apply ok_or_Ok in Ht, Hs. exists text, spec.
    rewrite !then_Ok, !ensure_Ok, !Hne, Z.eqb_eq, orb_true_iff, is_empty_spec, String.eqb_eq, check_signature_spec in H.
    naive_solver.
  - intros (text & spec & Ht & Hs & H). rewrite Ht. cbn. rewrite Hs. cbn.
    rewrite !then_Ok, !ensure_Ok, !Hne, Z.eqb_eq, orb_true_iff, is_empty_spec, String.eqb_eq, check_signature_spec. naive_solver.
Qed.

Context `{L : !CryptoLaws}.
Context (hex_lower : ∀ b, hex_text (hex_encode b) = true).
Context (vk_length : ∀ k, String.length (vk_bytes k) = 32) (sig_length : ∀ s, String.length (sig_bytes s) = 64).

(** Without a key of one's own the client trusts the key in the file: whoever takes an accepted
    specification, changes it and signs it anew with a key of his own, naming that key in it, is
    accepted too, also when a signature is required. *)
Theorem resigned_spec_accepted (sk : SigningKey) (spec : ChainSpec) (path sig_path text : string) (require : bool) :
  let forged := with_signing_key (hex_encode (vk_bytes (sk_verifying_key sk))) spec in
  read path = Some text → from_str text = Some forged → read sig_path = Some (sign_spec sk forged) →
  spec_version spec = CURRENT_SPEC_VERSION → trim (spec_chain_id spec) ≠ "" → trim (spec_genesis_hash spec) = "" →
  validate_spec read is_file from_str path (Some sig_path) None require false = Ok tt.
Proof.
  intros forged Ht Hs Hp Hv Hc Hg. unfold validate_spec, load_spec. rewrite Ht. cbn [ok_or mbind result_bind]. rewrite Hs.
  cbn [ok_or mbind result_bind]. assert (Hne : ∀ s, negb (is_empty s) = true ↔ s ≠ "") by (intros []; naive_solver).
  assert (Hk : hex_text (hex_encode (vk_bytes (sk_verifying_key sk))) = true) by apply hex_lower.
  rewrite !then_Ok, !ensure_Ok, !Hne, Z.eqb_eq, orb_true_iff, is_empty_spec.
  split; [done|]. split; [done|]. split.
  { change (trim (hex_encode (vk_bytes (sk_verifying_key sk))) ≠ ""). rewrite plain_trim by by apply hex_plain.
    intros He. apply (f_equal String.length) in He. by rewrite hex_length, vk_length in He. }
  split; [by left|]. cbn [resolve_signature_path]. unfold check_spec_signature. rewrite Hp.
  cbn [ok_or mbind result_bind default]. rewrite plain_trim by apply hex_plain, hex_lower.
  assert (verify_signature forged (sign_spec sk forged) (sgn_signing_key_pubkey_hex (spec_signing forged)) = Ok tt) as Hver
    by by apply verify_signed.
  destruct require; by rewrite Hver.
Qed.

End Validation.

(** ** The validators of a specification *)

(** The states that a specification documents for its validators are active, pending and jailed.
    The consensus counts those that are online or the node itself, so no validator of such a
    specification is a member of the set the node starts with, which is empty. *)
Theorem spec_validators_inactive (s : ChainSpec) :
  Forall (λ v, vse_status v ∈ ["active"; "pending"; "jailed"]) (vss_validators (spec_validator_set s)) →
  vset_len (vset_from (to_runtime_validator_set s)) = 0 ∧
  ∀ id, is_member (vset_from (to_runtime_validator_set s)) id = false.
Proof.
  intros Hs.
  assert (Hm : ∀ id info, vset_from (to_runtime_validator_set s) !! id = Some info → info_is_active info = false).
  { intros id info (v & Hv & _ & ->)%vset_from_lookup_inv. apply list_elem_of_fmap in Hv as (e & -> & He).
    rewrite Forall_forall in Hs. specialize (Hs e He). rewrite !elem_of_cons in Hs. cbn.
    by destruct Hs as [-> | [-> | [-> | ?%elem_of_nil]]]. }
  split.
  - unfold vset_len. apply count_zero, Forall_forall. intros info (id & Hid)%elem_of_hm_values. by apply (Hm id).
  - intros id. unfold is_member. destruct (vset_from _ !! id) as [info|] eqn:Hi; [by apply (Hm id)|done].
Qed.

(** ** Witnesses *)
Module SpecWitness.
Import Toy.

Lemma toy_hex (b : string) : hex_text (hex_encode b) = true.
Proof.
  change (hex_text (Toy.encode b) = true). induction b as [|c b IH]; [done|]. cbn [Toy.encode]. rewrite !hex_text_cons, IH.
  by destruct c as [[] [] [] [] [] [] [] []].
Qed.

Definition params0 : ConsensusParams := {|
  cpr_block_time_seconds := 5; cpr_vote_timeout_ms := 10000; cpr_quorum_percentage := 67;
  cpr_min_validator_stake_wei := "100"; cpr_min_publisher_stake_wei := "1"; cpr_unbonding_period_seconds := 86400;
  cpr_slash_penalty_low_bp := 200; cpr_slash_penalty_medium_bp := 1000; cpr_slash_penalty_critical_bp := 3000;
  cpr_max_validators := 50 |}.

Definition flags0 : FeatureFlags := {|
  ff_zk_validation := true; ff_ml_validation := false; ff_wasm_sandbox := true; ff_private_registries := false;
  ff_cross_chain := false; ff_insurance := false; ff_threshold_encryption := false |}.

Definition entry0 : ValidatorSpecEntry := {|
  vse_id := "core-1"; vse_alias := "Core"; vse_pubkey := "04"; vse_eth_address := "0x38"; vse_stake := 100;
  vse_reputation := 100; vse_status := "active" |}.

Definition spec0 (network : Network) : ChainSpec := {|
  spec_version := 1; spec_chain_id := "creg-testnet-1"; spec_network := network; spec_phase := Alpha;
  spec_genesis_time := "2026-01-01T00:00:00Z"; spec_genesis_hash := ""; spec_consensus_params := params0;
  spec_feature_flags := flags0;
  spec_l1 := {| l1c_name := "sepolia"; l1c_chain_id := 11155111; l1c_block_explorer := ""; l1c_min_finality_blocks := 6 |};
  spec_contracts := {["registry" := "0x01"]}; spec_bootnodes := [];
  spec_validator_set := {| vss_version := 1; vss_last_updated := ""; vss_epoch_block_height := 0; vss_validators := [entry0] |};
  spec_services := {| svc_ipfs_gateway := ""; svc_ipfs_api := ""; svc_faucet := ""; svc_explorer := ""; svc_metrics := "" |};
  spec_support := {| su_matrix := None; su_discord := None; su_issues := None; su_security := None |};
  spec_signing := {| sgn_signature_algorithm := "ed25519"; sgn_signing_key_pubkey_hex := "01"; sgn_detached_signature_url := "" |} |}.

Example canonical_text :
  to_jcs_canonical_json (l1_value (spec_l1 (spec0 Testnet)))
  = "{" +:+ quote +:+ "block_explorer" +:+ quote +:+ ":" +:+ quote +:+ quote +:+ ","
        +:+ quote +:+ "chain_id" +:+ quote +:+ ":11155111,"
        +:+ quote +:+ "min_finality_blocks" +:+ quote +:+ ":6,"
        +:+ quote +:+ "name" +:+ quote +:+ ":" +:+ quote +:+ "sepolia" +:+ quote +:+ "}".
Proof. by vm_compute. Qed.

(** The network is not part of the hash. *)
Example networks_share_hash : compute_genesis_hash (spec0 Testnet) = compute_genesis_hash (spec0 Mainnet).
Proof. by vm_compute. Qed.

Lemma spec_validators_inactive_witness :
  vset_len (vset_from (to_runtime_validator_set (spec0 Testnet))) = 0.
Proof.
  refine (proj1 (spec_validators_inactive (spec0 Testnet) _)). apply Forall_cons. split; [|by apply Forall_nil]. by left.
Defined.

(** The stand-in keys and signatures are of the lengths of Ed25519 when they are cut to it. *)
#[local] Instance sized_crypto : Crypto := {|
  sha256 := digest; hex_encode := encode; hex_decode := decode;
  VerifyingKey := { s : string | String.length s = 32 }; Signature := { s : string | String.length s = 64 };
  SigningKey := { s : string | String.length s = 32 };
  vk_try_from := λ s, match decide (String.length s = 32) with left H => Some (s ↾ H) | right _ => None end;
  sig_try_from := λ s, match decide (String.length s = 64) with left H => Some (s ↾ H) | right _ => None end;
  sk_try_from := λ s, match decide (String.length s = 32) with left H => Some (s ↾ H) | right _ => None end;
  sk_verifying_key := λ sk, sk; vk_bytes := λ k, `k; sig_bytes := λ s, `s;
  sign := λ sk m, fit 64 (`sk +:+ digest m) ↾ length_fit 64 _;
  verify := λ vk m s, String.eqb (`s) (fit 64 (`vk +:+ digest m)) |}.

#[local] Instance sized_laws : CryptoLaws.
Proof.
  split; try done.
  - intros d. apply length_fit.
  - apply length_encode.
  - apply decode_encode.
  - intros [s Hs]. cbn. destruct (decide _) as [H|H]; [|done]. do 2 f_equal. apply (proof_irrel _).
  - intros [s Hs]. cbn. destruct (decide _) as [H|H]; [|done]. do 2 f_equal. apply (proof_irrel _).
  - intros [sk Hsk] m. cbn. apply String.eqb_refl.
Qed.

Lemma sized_vk (k : VerifyingKey) : String.length (vk_bytes k) = 32.
Proof. by destruct k as [k Hk]. Qed.

Lemma sized_sig (s : Signature) : String.length (sig_bytes s) = 64.
Proof. by destruct s as [s Hs]. Qed.

Definition sk1 : SigningKey := "0123456789abcdef0123456789abcdef" ↾ eq_refl.
Definition forged1 : ChainSpec := with_signing_key (hex_encode (vk_bytes (sk_verifying_key sk1))) (spec0 Mainnet).

Definition files1 (path : string) : option string :=
  if String.eqb path "spec.json" then Some "text"
  else if String.eqb path "spec.sig" then Some (sign_spec sk1 forged1) else None.

Lemma resigned_spec_accepted_witness :
  validate_spec files1 (λ _, false) (λ _, Some forged1) "spec.json" (Some "spec.sig") None true false = Ok tt.
Proof.
  apply (resigned_spec_accepted (CR := sized_crypto) files1 (λ _, false) (λ _, Some forged1) toy_hex sized_vk sized_sig
           sk1 (spec0 Mainnet) "spec.json" "spec.sig" "text" true); try reflexivity; vm_compute; discriminate.
Defined.

End SpecWitness.
