(* ===== verification/Secrets.v ===== *)
(** Hot keys (crates/secrets: lib.rs, env.rs, vault.rs; common/src/hot_key.rs).

    A key is read from an environment variable or from HashiCorp Vault, as CREG_SECRETS_BACKEND
    says.  The answers of Vault are an argument.  Errors keep their text, because
    [try_secp256k1_signing_key_hex] decides by it whether a key is absent. *)

From S2P Require Import Prelude Text Crypto Threshold Json.
From Stdlib Require Import Ascii NArith.

(** [std::env::var] *)
Abbreviation Environment := (string → option string).

Inductive HotKeyRole := Bridge | Faucet | Relayer | ValidatorEd25519.

Definition env_var (r : HotKeyRole) : string :=
  match r with
  | Bridge => "CREG_BRIDGE_KEY" | Faucet => "FAUCET_PRIVATE_KEY" | Relayer => "RELAYER_PRIVATE_KEY"
  | ValidatorEd25519 => "CREG_VALIDATOR_KEY"
  end.

Definition default_vault_path (r : HotKeyRole) : string :=
  match r with
  | Bridge => "secret/data/creg/bridge" | Faucet => "secret/data/creg/faucet" | Relayer => "secret/data/creg/relayer"
  | ValidatorEd25519 => "secret/data/creg/validator"
  end.

Definition vault_path_env (r : HotKeyRole) : string :=
  match r with
  | Bridge => "CREG_VAULT_SECRET_PATH_BRIDGE" | Faucet => "CREG_VAULT_SECRET_PATH_FAUCET"
  | Relayer => "CREG_VAULT_SECRET_PATH_RELAYER" | ValidatorEd25519 => "CREG_VAULT_SECRET_PATH_VALIDATOR"
  end.

Definition vault_field_candidates (r : HotKeyRole) : list string :=
  match r with
  | Bridge => ["private_key"; "bridge_key"; "key"] | Faucet => ["private_key"; "faucet_key"; "key"]
  | Relayer => ["private_key"; "relayer_key"; "key"] | ValidatorEd25519 => ["validator_key"; "private_key"; "key"]
  end.

Inductive SecretsBackend := BackendEnv | BackendVault.

#[export] Instance SecretsBackend_eq_dec : EqDecision SecretsBackend.
Proof. solve_decision. Defined.

Inductive ProviderError := UnsupportedBackend (name : string) | VaultAddrUnset | VaultTokenUnset.

Definition parse_backend (raw : option string) : result ProviderError SecretsBackend :=
  let name := to_ascii_lowercase (trim (default "env" raw)) in
  if bool_decide (name ∈ [""; "env"; "environment"]) then Ok BackendEnv
  else if bool_decide (name ∈ ["vault"; "hashicorp"; "hashicorp-vault"]) then Ok BackendVault
  else Err (UnsupportedBackend name).

Record VaultSecretsBackend := { vault_addr : string; vault_token : string }.

(** The text of a status, the success flag, the body and its JSON. *)
Record VaultResponse := { vr_status : string; vr_success : bool; vr_body : string; vr_json : option Value }.

Record SecretsProvider := { sp_backend : SecretsBackend; sp_vault : option VaultSecretsBackend }.

(** [value.get(k)] and [value.as_str()] of a JSON value *)
Definition value_get (k : string) (v : Value) : option Value :=
  match v with VObject m => entry_of k m | _ => None end.

Definition value_str (v : Value) : option string := match v with VString s => Some s | _ => None end.

(** [format!({:?})] of the names of fields. *)
Definition debug_names (l : list string) : string :=
  "[" +:+ join ", " ((λ s, quote +:+ s +:+ quote) <$> l) +:+ "]".

Section Provider.
Context `{CR : !Crypto}.
Context (env : Environment).
Context (get : string → string → option VaultResponse).   (* URL and token *)

Definition vault_from_env : result ProviderError VaultSecretsBackend :=
  let either a b := match env a with Some v => Some v | None => env b end in
  addr ← ok_or VaultAddrUnset (either "VAULT_ADDR" "CREG_VAULT_ADDR");
  token ← ok_or VaultTokenUnset (either "VAULT_TOKEN" "CREG_VAULT_TOKEN");
  Ok {| vault_addr := addr; vault_token := token |}.

Definition provider_from_env : result ProviderError SecretsProvider :=
  backend ← parse_backend (env "CREG_SECRETS_BACKEND");
  match backend with
  | BackendVault => v ← vault_from_env; Ok {| sp_backend := backend; sp_vault := Some v |}
  | BackendEnv => Ok {| sp_backend := backend; sp_vault := None |}
  end.

Definition normalize_secp256k1_hex (key : string) (role : HotKeyRole) : result string string :=
  bytes ← ok_or (env_var role +:+ " is not valid hex") (hex_decode (trim_0x (trim key)));
  _ ← ensure (String.length bytes =? 32)%nat
        (env_var role +:+ " must be 32 bytes (64 hex chars), got " +:+ fmt_N (N.of_nat (String.length bytes)) +:+ " bytes");
  Ok ("0x" +:+ hex_encode bytes).

Definition extract_vault_field (data : Value) (role : HotKeyRole) : option string :=
  let field name := value_get name data ≫= value_str in
  match env "CREG_VAULT_SECRET_FIELD" ≫= field with
  | Some v => Some v
  | None => head (omap field (vault_field_candidates role))
  end.

Definition vault_url (v : VaultSecretsBackend) (path : string) : string :=
  trim_end_matches ["/"] (vault_addr v) +:+ "/v1/" +:+ trim_start_matches ["/"] (trim path).

Definition read_kv2_secret (v : VaultSecretsBackend) (path : string) : result string Value :=
  let url := vault_url v path in
  match get url (vault_token v) with
  | None => Err ("Vault GET " +:+ url +:+ " failed")
  | Some resp =>
      if negb (vr_success resp)
      then Err ("Vault GET " +:+ url +:+ " returned " +:+ vr_status resp +:+ ": " +:+ vr_body resp)
      else
        json ← ok_or "Vault response is not valid JSON" (vr_json resp);
        ok_or "Vault KV v2 response missing data.data" (value_get "data" json ≫= value_get "data")
  end.

Definition vault_path (role : HotKeyRole) : string := default (default_vault_path role) (env (vault_path_env role)).

Definition vault_signing_key_hex (v : VaultSecretsBackend) (role : HotKeyRole) : result string string :=
  let path := vault_path role in
  data ← read_kv2_secret v path;
  raw ← ok_or ("no recognized key field in Vault secret " +:+ path +:+ " (tried " +:+ debug_names (vault_field_candidates role) +:+ ")")
          (extract_vault_field data role);
  normalize_secp256k1_hex raw role.

Definition env_signing_key_hex (role : HotKeyRole) : result string string :=
  raw ← ok_or (env_var role +:+ " is not set") (env (env_var role));
  if is_empty (trim raw) then Err (env_var role +:+ " is empty") else normalize_secp256k1_hex raw role.

Definition secp256k1_signing_key_hex (p : SecretsProvider) (role : HotKeyRole) : result string string :=
  match sp_backend p with
  | BackendEnv => env_signing_key_hex role
  | BackendVault => v ← ok_or "vault backend not initialized" (sp_vault p); vault_signing_key_hex v role
  end.

Definition try_secp256k1_signing_key_hex (p : SecretsProvider) (role : HotKeyRole) : result string (option string) :=
  let unset := match env (env_var role) with None => true | Some v => is_empty (trim v) end in
  if bool_decide (sp_backend p = BackendEnv) && unset then Ok None
  else match secp256k1_signing_key_hex p role with
       | Ok key => Ok (Some key)
       | Err msg =>
           if bool_decide (sp_backend p = BackendVault) && (str_contains "404" msg || str_contains "not found" msg) then Ok None
           else if bool_decide (sp_backend p = BackendEnv) then Ok None
           else Err msg
       end.

(** ** Policies and warnings *)

Inductive SecretsPolicyError := EnvBackendInProduction.

Definition validate_production_secrets_policy (is_testnet : bool) : list SecretsPolicyError :=
  if is_testnet then []
  else match env "CREG_SECRETS_BACKEND" with
       | None => []
       | Some v =>
           let backend := to_ascii_lowercase (trim v) in
           if bool_decide (backend ∈ [""; "env"; "environment"]) then [EnvBackendInProduction] else []
       end.

(** common/src/hot_key.rs *)
Definition secp256k1_key_fingerprint (key_hex : string) : string :=
  let bytes := default "" (hex_decode (trim_0x (trim key_hex))) in
  "0x" +:+ hex_encode (take_str 8 (sha256 bytes)).

(** The fingerprint that is logged, when a warning is. *)
Definition warn_hot_key_from_env (key_hex : string) (testnet_mode : bool) : option string :=
  if testnet_mode || is_empty (trim key_hex) then None else Some (secp256k1_key_fingerprint key_hex).

Definition warn_hot_key_if_env (p : SecretsProvider) (key_hex : string) (testnet_mode : bool) : option string :=
  if bool_decide (sp_backend p = BackendEnv) then warn_hot_key_from_env key_hex testnet_mode else None.

Definition is_testnet_env : bool :=
  match env "CREG_TESTNET" with Some v => String.eqb v "true" || String.eqb v "1" | None => false end.

(** ** Keys of the environment *)

Lemma normalize_Ok (key k : string) (role : HotKeyRole) :
  normalize_secp256k1_hex key role = Ok k ↔
  ∃ b, hex_decode (trim_0x (trim key)) = Some b ∧ String.length b = 32 ∧ k = "0x" +:+ hex_encode b.
Proof.
  unfold normalize_secp256k1_hex. destruct (hex_decode _) as [b|]; cbn; [|naive_solver].
  destruct (Nat.eqb_spec (String.length b) 32); naive_solver.
Qed.

(** With the environment as the backend loading a key never fails: it gives the key of the role's
    variable, decoded and written again, when that is 32 bytes of hexadecimal text, and otherwise
    reads a malformed key as an absent one. *)
Theorem env_key_exact (p : SecretsProvider) (role : HotKeyRole) :
  sp_backend p = BackendEnv →
  ∃ o, try_secp256k1_signing_key_hex p role = Ok o ∧
  ∀ k, o = Some k ↔ ∃ v b, env (env_var role) = Some v ∧ trim v ≠ "" ∧ hex_decode (trim_0x (trim v)) = Some b ∧
                           String.length b = 32 ∧ k = "0x" +:+ hex_encode b.
Proof.
  intros Hp. unfold try_secp256k1_signing_key_hex, secp256k1_signing_key_hex, env_signing_key_hex. rewrite Hp. cbn [bool_decide decide_rel andb].
  destruct (env (env_var role)) as [v|]; cbn; [|eexists; split; [done|naive_solver]].
  destruct (is_empty (trim v)) eqn:Hv; cbn.
  { apply is_empty_spec in Hv. eexists; split; [done|naive_solver]. }
  assert (trim v ≠ "") as Hne by by intros ?%is_empty_spec; congruence.
  destruct (normalize_secp256k1_hex v role) as [k|e] eqn:Hn; (eexists; split; [done|]); intros k'; split; try done.
  - intros [= ->]. apply normalize_Ok in Hn as (b & ? & ? & ?). eauto 10.
  - intros (v' & b & [= <-] & _ & Hb & Hl & ->). f_equal.
    assert (normalize_secp256k1_hex v role = Ok ("0x" +:+ hex_encode b)) by (apply normalize_Ok; eauto). congruence.
  - intros (v' & b & [= <-] & _ & Hb & Hl & ->).
    assert (normalize_secp256k1_hex v role = Ok ("0x" +:+ hex_encode b)) by (apply normalize_Ok; eauto). congruence.
Qed.

(** ** Keys of Vault *)

Lemma starts_with_longer (p s t : string) : starts_with p s = true → starts_with p (s +:+ t) = true.
Proof. rewrite !starts_with_app. intros [r ->]. exists (r +:+ t). by rewrite app_assoc_str. Qed.

Lemma str_contains_unfold (p s : string) :
  str_contains p s = starts_with p s || match s with EmptyString => false | String _ s' => str_contains p s' end.
Proof. by destruct s. Qed.

Lemma str_contains_longer (p s t : string) : str_contains p s = true → str_contains p (s +:+ t) = true.
Proof.
  induction s as [|c s IH]; rewrite str_contains_unfold; intros [H|H]%orb_true_iff; rewrite str_contains_unfold.
  - by rewrite (starts_with_longer p "" t H).
  - done.
  - by rewrite (starts_with_longer p (String c s) t H).
  - rewrite app_cons_str, (IH H). apply orb_true_r.
Qed.

Lemma str_contains_later (p s t : string) : str_contains p t = true → str_contains p (s +:+ t) = true.
Proof.
  intros H. induction s as [|c s IH]; [done|]. rewrite app_cons_str, str_contains_unfold, IH. apply orb_true_r.
Qed.

Lemma vault_absent (p : SecretsProvider) (v : VaultSecretsBackend) (role : HotKeyRole) (msg : string) :
  sp_backend p = BackendVault → sp_vault p = Some v → read_kv2_secret v (vault_path role) = Err msg →
  str_contains "404" msg = true → try_secp256k1_signing_key_hex p role = Ok None.
Proof.
  intros Hb Hv Hr Hm. unfold try_secp256k1_signing_key_hex, secp256k1_signing_key_hex, vault_signing_key_hex.
  rewrite Hb, Hv. cbn [ok_or mbind result_bind]. rewrite Hr. cbn. by rewrite Hm.
Qed.

(** A key that Vault could not be asked for counts as not configured, and no error is seen, as soon
    as the address, the path, the status or the body of the answer has the digits 404 in it, for
    example a server that listens on port 4040 and is down. *)
Theorem unreachable_vault_reads_as_absent (p : SecretsProvider) (v : VaultSecretsBackend) (role : HotKeyRole) :
  sp_backend p = BackendVault → sp_vault p = Some v →
  match get (vault_url v (vault_path role)) (vault_token v) with
  | None => str_contains "404" (vault_url v (vault_path role)) = true
  | Some resp => vr_success resp = false ∧
      (str_contains "404" (vault_url v (vault_path role)) = true ∨ str_contains "404" (vr_status resp) = true ∨
       str_contains "404" (vr_body resp) = true)
  end →
  try_secp256k1_signing_key_hex p role = Ok None.
Proof.
  intros Hb Hv Hg. remember (read_kv2_secret v (vault_path role)) as r eqn:Hr. symmetry in Hr. unfold read_kv2_secret in Hr.
  destruct (get _ _) as [resp|] eqn:Hget.
  - destruct Hg as [Hs Hc]. rewrite Hs in Hr. cbn [negb] in Hr. subst r. eapply vault_absent; [done|done| |].
    { unfold read_kv2_secret. rewrite Hget, Hs. reflexivity. }
    apply str_contains_later. destruct Hc as [Hc|[Hc|Hc]]; [by apply str_contains_longer| |].
    + do 2 apply str_contains_later. by apply str_contains_longer.
    + by do 4 apply str_contains_later.
  - subst r. eapply vault_absent; [done|done| |].
    { unfold read_kv2_secret. rewrite Hget. reflexivity. }
    apply str_contains_later. by apply str_contains_longer.
Qed.

(** A key is loaded from Vault exactly when the answer is successful JSON with an object under
    data.data that has a text in the overriding field or else in one of the fields of the role,
    and the first such text is 32 bytes of hexadecimal text. *)
Theorem vault_key_exact (p : SecretsProvider) (v : VaultSecretsBackend) (role : HotKeyRole) (k : string) :
  sp_backend p = BackendVault → sp_vault p = Some v →
  (try_secp256k1_signing_key_hex p role = Ok (Some k) ↔
   ∃ resp json data raw b, get (vault_url v (vault_path role)) (vault_token v) = Some resp ∧ vr_success resp = true ∧
     vr_json resp = Some json ∧ (value_get "data" json ≫= value_get "data") = Some data ∧
     extract_vault_field data role = Some raw ∧
     hex_decode (trim_0x (trim raw)) = Some b ∧ String.length b = 32 ∧ k = "0x" +:+ hex_encode b).
Proof.
  intros Hb Hv. unfold try_secp256k1_signing_key_hex. rewrite Hb. cbn [bool_decide decide_rel andb].
  assert (Hk : secp256k1_signing_key_hex p role = vault_signing_key_hex v role).
  { unfold secp256k1_signing_key_hex. by rewrite Hb, Hv. }
  rewrite Hk. assert (Hok : vault_signing_key_hex v role = Ok k ↔ ∃ resp json data raw b,
     get (vault_url v (vault_path role)) (vault_token v) = Some resp ∧ vr_success resp = true ∧
     vr_json resp = Some json ∧ (value_get "data" json ≫= value_get "data") = Some data ∧
     extract_vault_field data role = Some raw ∧
     hex_decode (trim_0x (trim raw)) = Some b ∧ String.length b = 32 ∧ k = "0x" +:+ hex_encode b).
  { unfold vault_signing_key_hex, read_kv2_secret. destruct (get _ _) as [resp|]; cbn; [|naive_solver].
    destruct (vr_success resp) eqn:Hs; cbn [negb]; [|naive_solver congruence].
    destruct (vr_json resp) as [json|] eqn:Hj; cbn; [|naive_solver congruence].
    destruct (value_get "data" json ≫= value_get "data") as [data|] eqn:Hd; cbn; [|naive_solver congruence].
    destruct (extract_vault_field data role) as [raw|] eqn:He; cbn; [|naive_solver congruence].
    rewrite normalize_Ok. naive_solver. }
  rewrite <- Hok. destruct (vault_signing_key_hex v role) as [k'|msg]; [naive_solver|].
  clear. split; [|intros H; discriminate H]. rewrite (bool_decide_true (BackendVault = BackendVault)) by done.
  rewrite (bool_decide_false (BackendVault = BackendEnv)) by done. cbn [andb]. destruct (_ || _); intros H; discriminate H.
Qed.

(** The production policy reports nothing exactly when the variable of the backend is unset or
    names something else than the environment.  Unset, the keys do come from the environment,
    which the text of the policy says is not allowed; an unknown name passes as well, and then no
    key is loaded at all. *)
Theorem secrets_policy_exact :
  (validate_production_secrets_policy false = [] ↔
   env "CREG_SECRETS_BACKEND" = None ∨ parse_backend (env "CREG_SECRETS_BACKEND") ≠ Ok BackendEnv) ∧
  (env "CREG_SECRETS_BACKEND" = None →
   provider_from_env = Ok {| sp_backend := BackendEnv; sp_vault := None |}).
Proof.
  split.
  - unfold validate_production_secrets_policy, parse_backend. destruct (env "CREG_SECRETS_BACKEND") as [v|]; [|naive_solver].
    change (default _ (Some v)) with v. cbv zeta. case_bool_decide as Hb; [split; [intros [=]|intros [[=]|[]]; reflexivity]|]. split; [|done]. intros _. right. case_bool_decide; done.
  - intros Hn. unfold provider_from_env, parse_backend. by rewrite Hn.
Qed.

(** All keys that are not hexadecimal text have one fingerprint, that of no bytes. *)
Theorem bad_keys_share_fingerprint (k1 k2 : string) :
  hex_decode (trim_0x (trim k1)) = None → hex_decode (trim_0x (trim k2)) = None →
  secp256k1_key_fingerprint k1 = secp256k1_key_fingerprint k2.
Proof. unfold secp256k1_key_fingerprint. by intros -> ->. Qed.
End Provider.

(** ** Witnesses *)
Module SecretsWitness.
Import Toy.

Definition key0 : string := "0x0102030405060708090a0b0c0d0e0f101112131415161718191a1b1c1d1e1f20".
Definition env0 (k : string) : option string := if String.eqb k "CREG_BRIDGE_KEY" then Some key0 else None.
Definition p_env : SecretsProvider := {| sp_backend := BackendEnv; sp_vault := None |}.
Definition vault0 : VaultSecretsBackend := {| vault_addr := "http://vault:4040"; vault_token := "t" |}.
Definition p_vault : SecretsProvider := {| sp_backend := BackendVault; sp_vault := Some vault0 |}.

Lemma env_key_exact_witness :
  ∃ o, try_secp256k1_signing_key_hex env0 (λ _ _, None) p_env Bridge = Ok o ∧ o = Some key0.
Proof.
  destruct (env_key_exact env0 (λ _ _, None) p_env Bridge eq_refl) as (o & Ho & _).
  exists o. split; [exact Ho|]. vm_compute in Ho. injection Ho as <-. reflexivity.
Defined.

Lemma unreachable_vault_reads_as_absent_witness :
  try_secp256k1_signing_key_hex env0 (λ _ _, None) p_vault Bridge = Ok None.
Proof. apply (unreachable_vault_reads_as_absent env0 (λ _ _, None) p_vault vault0 Bridge); by vm_compute. Defined.

Definition answer0 : VaultResponse := {|
  vr_status := "200 OK"; vr_success := true; vr_body := "";
  vr_json := Some (VObject [("data", VObject [("data", VObject [("bridge_key", VString key0)])])]) |}.

Lemma vault_key_exact_witness :
  try_secp256k1_signing_key_hex env0 (λ _ _, Some answer0) p_vault Bridge = Ok (Some key0).
Proof.
  apply (vault_key_exact env0 (λ _ _, Some answer0) p_vault vault0 Bridge key0); [done|done|].
  eexists answer0, _, _, key0, _. repeat split; by vm_compute.
Defined.

Lemma bad_keys_share_fingerprint_witness : secp256k1_key_fingerprint "zz" = secp256k1_key_fingerprint "my key".
Proof. apply (bad_keys_share_fingerprint "zz" "my key"); by vm_compute. Defined.

End SecretsWitness.
