(* ===== verification/Boot.v ===== *)
(** Start of a node (node/src/config.rs, node/src/chain_spec_boot.rs, node/src/pidlock.rs and the
    first half of main.rs).

    [load] reads the environment, [resolve_chain_spec] finds the specification, [boot] is the
    sequence of checks of [main] up to the lock of the data directory.  What the network, the disk
    and third-party parsers answer is the record [World]. *)

From S2P Require Import Prelude Text Crypto Types ValidatorSet Threshold Json ChainSpec Secrets.
From S2P Require Import Pbft SetSync.
From Stdlib Require Import Ascii NArith.

(** ** Configuration *)

Inductive NodeMode := FullNode | Pruned | Light.

Record PruningConfig := {
  package_retention_days : N; keep_full_blocks : bool; prune_interval : N; max_db_size_gb : N;
}.

Record CorsConfig := {
  allowed_origins : list string; allowed_methods : list string; allow_credentials : bool;
}.

Record NodeConfig := {
  nc_chain_id : string;
  nc_listen_addr : string;
  nc_data_dir : string;
  nc_p2p_listen : string;
  nc_p2p_seeds : list string;
  nc_eth_rpc_url : string;
  nc_registry_addr : string;
  nc_governance_addr : string;
  nc_token_addr : string;
  nc_staking_addr : string;
  nc_node_id : string;
  nc_validator_privkey : option string;
  nc_bridge_privkey : option string;
  nc_is_validator : bool;
  nc_peers : list string;
  nc_block_interval_secs : N;
  nc_vote_timeout_secs : N;
  nc_ipfs_url : string;
  nc_pg_url : string;
  nc_validator_set : CommonValidatorSet;
  nc_mode : NodeMode;
  nc_pruning : PruningConfig;
  nc_max_peers : N;
  nc_cors : CorsConfig;
  nc_is_testnet : bool;
}.

Definition ZERO_ADDR : string := "0x0000000000000000000000000000000000000000".

Definition default_cors_methods : list string := ["GET"; "POST"; "DELETE"; "OPTIONS"].

(** [split(',')], trimmed, without blanks and repetitions. *)
Definition parse_csv (raw : string) : list string :=
  foldl push_new [] (filter (λ v, is_empty v = false) (trim <$> split ","%char raw)).

Definition normalize_cors_origin (origin : string) : string :=
  let trimmed := trim origin in
  if String.eqb trimmed "*" then "*" else trim_end_matches ["/"] trimmed.

Definition from_env_values (origins_raw methods_raw : string) (credentials : bool) : CorsConfig :=
  let parsed := to_ascii_uppercase <$> parse_csv methods_raw in
  {| allowed_origins := normalize_cors_origin <$> parse_csv origins_raw;
     allowed_methods := match parsed with [] => default_cors_methods | _ => parsed end;
     allow_credentials := credentials |}.

(** [std::env::var(key).unwrap_or_else(default)] *)
Definition env_default (env : Environment) (key dflt : string) : string := default dflt (env key).

Definition cors_from_env (env : Environment) : CorsConfig :=
  from_env_values (env_default env "CREG_CORS_ALLOWED_ORIGINS" "")
    (env_default env "CREG_CORS_ALLOWED_METHODS" (join "," default_cors_methods))
    (String.eqb (env_default env "CREG_CORS_ALLOW_CREDENTIALS" "false") "true").

(** [env(key, default).parse().unwrap_or(d)] *)
Definition env_number (env : Environment) (max : N) (key : string) (d : N) : N :=
  match env key with Some v => default d (parse_uint max v) | None => d end.

(** The non-empty parts of a list with commas. *)
Definition env_list (env : Environment) (key : string) : list string :=
  filter (λ s, is_empty s = false) (split ","%char (env_default env key "")).

Definition mode_of (name : string) : NodeMode :=
  if String.eqb name "full" then FullNode else if String.eqb name "light" then Light else Pruned.

Section Load.
Context `{CR : !Crypto}.
Context (env : Environment) (vault_get : string → string → option VaultResponse).
Context (parse_set : string → option CommonValidatorSet) (uuid : string).

Definition load_pruning : PruningConfig := {|
  package_retention_days := env_number env u32_max "CREG_PACKAGE_RETENTION_DAYS" 30;
  keep_full_blocks := String.eqb (env_default env "CREG_KEEP_FULL_BLOCKS" "false") "true";
  prune_interval := env_number env u64_max "CREG_PRUNE_INTERVAL" 1000;
  max_db_size_gb := env_number env u32_max "CREG_MAX_DB_SIZE_GB" 150 |}.

Definition load_env : NodeConfig := {|
  nc_chain_id := env_default env "CREG_CHAIN_ID" "";
  nc_listen_addr := env_default env "CREG_LISTEN" "0.0.0.0:8080";
  nc_data_dir := env_default env "CREG_DATA_DIR" "./data";
  nc_p2p_listen := env_default env "CREG_P2P_LISTEN" "/ip4/0.0.0.0/tcp/4001";
  nc_p2p_seeds := env_list env "CREG_P2P_SEEDS";
  nc_eth_rpc_url := env_default env "CREG_ETH_RPC" "http://127.0.0.1:8545";
  nc_registry_addr := env_default env "CREG_REGISTRY_ADDR" ZERO_ADDR;
  nc_governance_addr := env_default env "CREG_GOVERNANCE_ADDR" ZERO_ADDR;
  nc_token_addr := env_default env "CREG_TOKEN_ADDR" ZERO_ADDR;
  nc_staking_addr := env_default env "CREG_STAKING_ADDR" ZERO_ADDR;
  nc_node_id := env_default env "CREG_NODE_ID" uuid;
  nc_validator_privkey := env "CREG_VALIDATOR_KEY";
  nc_bridge_privkey := None;
  nc_is_validator := String.eqb (env_default env "CREG_IS_VALIDATOR" "false") "true";
  nc_peers := env_list env "CREG_PEERS";
  nc_block_interval_secs := env_number env u64_max "CREG_BLOCK_INTERVAL" 5;
  nc_vote_timeout_secs := env_number env u64_max "CREG_VOTE_TIMEOUT_SECS" 10;
  nc_ipfs_url := env_default env "CREG_IPFS_URL" "http://127.0.0.1:5001";
  nc_pg_url := env_default env "CREG_PG_URL" "";
  nc_validator_set := match env "CREG_VALIDATOR_SET" with
                      | Some json => default {| validators := [] |} (parse_set json)
                      | None => {| validators := [] |}
                      end;
  nc_mode := mode_of (env_default env "CREG_NODE_MODE" "pruned");
  nc_pruning := load_pruning;
  nc_max_peers := env_number env u64_max "CREG_MAX_PEERS" 15;
  nc_cors := cors_from_env env;
  nc_is_testnet := String.eqb (env_default env "CREG_TESTNET" "false") "true" |}.

Definition with_keys (c : NodeConfig) (validator bridge : option string) : NodeConfig := {|
  nc_chain_id := nc_chain_id c; nc_listen_addr := nc_listen_addr c; nc_data_dir := nc_data_dir c;
  nc_p2p_listen := nc_p2p_listen c; nc_p2p_seeds := nc_p2p_seeds c; nc_eth_rpc_url := nc_eth_rpc_url c;
  nc_registry_addr := nc_registry_addr c; nc_governance_addr := nc_governance_addr c; nc_token_addr := nc_token_addr c;
  nc_staking_addr := nc_staking_addr c; nc_node_id := nc_node_id c; nc_validator_privkey := validator;
  nc_bridge_privkey := bridge; nc_is_validator := nc_is_validator c; nc_peers := nc_peers c;
  nc_block_interval_secs := nc_block_interval_secs c; nc_vote_timeout_secs := nc_vote_timeout_secs c;
  nc_ipfs_url := nc_ipfs_url c; nc_pg_url := nc_pg_url c; nc_validator_set := nc_validator_set c; nc_mode := nc_mode c;
  nc_pruning := nc_pruning c; nc_max_peers := nc_max_peers c; nc_cors := nc_cors c; nc_is_testnet := nc_is_testnet c |}.

(** A key of the provider, when there is one; every error is ignored. *)
Definition provided (p : SecretsProvider) (role : HotKeyRole) : option string :=
  match try_secp256k1_signing_key_hex env vault_get p role with Ok (Some k) => Some k | _ => None end.

Definition load : NodeConfig :=
  let config := load_env in
  match provider_from_env env with
  | Err _ => config
  | Ok secrets =>
      with_keys config
        (match nc_validator_privkey config with Some k => Some k | None => provided secrets ValidatorEd25519 end)
        (provided secrets Bridge)
  end.

End Load.

(** ** Validation *)

(** The errors of [NodeConfig::validate] and [CorsConfig::validate], with their texts: the hard ones
    are told by what the text contains. *)
Inductive NodeConfigError :=
| ValidatorKeyMissing | ValidatorKeyLength (n : N) | ValidatorKeyHex | BridgeKeyLength (n : N) | BridgeKeyHex
| ZeroRegistry | ZeroGovernance | ZeroToken | ZeroStaking | EmptyIpfsUrl | BadIpfsUrl (url : string)
| WildcardWithOrigins | CredentialsWithoutOrigin | CredentialsWithWildcard | OriginScheme (origin : string)
| OriginHeader (origin : string) | BadMethod (method : string) | ZeroBlockInterval
| EntryEmptyKey (id : string) | EntryKeyLength (id : string) (n : N) | EntryKeyHex (id : string).

Definition message (e : NodeConfigError) : string :=
  match e with
  | ValidatorKeyMissing => "CREG_IS_VALIDATOR=true but CREG_VALIDATOR_KEY is not set. Generate a key with `creg keygen` and set CREG_VALIDATOR_KEY."
  | ValidatorKeyLength n => "CREG_VALIDATOR_KEY must be 32 bytes (64 hex chars), got " +:+ fmt_N n +:+ " bytes"
  | ValidatorKeyHex => "CREG_VALIDATOR_KEY is not valid hex"
  | BridgeKeyLength n => "CREG_BRIDGE_KEY must be 32 bytes (64 hex chars), got " +:+ fmt_N n +:+ " bytes"
  | BridgeKeyHex => "CREG_BRIDGE_KEY is not valid hex"
  | ZeroRegistry => "CREG_REGISTRY_ADDR is the zero address. Deploy Registry.sol and set CREG_REGISTRY_ADDR for Ethereum bridging."
  | ZeroGovernance => "CREG_GOVERNANCE_ADDR is the zero address. Set CREG_GOVERNANCE_ADDR so the bridge can execute rollup settlement via Governance.sol."
  | ZeroToken => "CREG_TOKEN_ADDR is not set. Wallet balances, faucet wiring, and staking UI will be unavailable until testnet artifacts are synced."
  | ZeroStaking => "CREG_STAKING_ADDR is not set. Validator and publisher staking flows will be unavailable until testnet artifacts are synced."
  | EmptyIpfsUrl => "CREG_IPFS_URL is empty. Set it to the IPFS API endpoint (e.g. http://127.0.0.1:5001) for package pinning and validation."
  | BadIpfsUrl url => "CREG_IPFS_URL (" +:+ url +:+ ") must start with http:// or https://"
  | WildcardWithOrigins => "CREG_CORS_ALLOWED_ORIGINS cannot combine `*` with explicit origins."
  | CredentialsWithoutOrigin => "CREG_CORS_ALLOW_CREDENTIALS=true requires at least one explicit origin in CREG_CORS_ALLOWED_ORIGINS."
  | CredentialsWithWildcard => "CREG_CORS_ALLOW_CREDENTIALS=true cannot be used with wildcard CREG_CORS_ALLOWED_ORIGINS=*; configure explicit origins instead."
  | OriginScheme origin => "CORS origin `" +:+ origin +:+ "` must start with http:// or https://"
  | OriginHeader origin => "CORS origin `" +:+ origin +:+ "` is not a valid header value"
  | BadMethod method => "CORS method `" +:+ method +:+ "` is not a valid HTTP method"
  | ZeroBlockInterval => "CREG_BLOCK_INTERVAL must be > 0 seconds"
  | EntryEmptyKey id => "CREG_VALIDATOR_SET entry id='" +:+ id +:+ "' has empty/zero pubkey — this validator could never be verified by peers. Fix the validator-set entry or remove it."
  | EntryKeyLength id n => "CREG_VALIDATOR_SET entry id='" +:+ id +:+ "' pubkey must be 32 bytes (64 hex chars), got " +:+ fmt_N n +:+ " bytes"
  | EntryKeyHex id => "CREG_VALIDATOR_SET entry id='" +:+ id +:+ "' pubkey is not valid hex"
  end.

Definition is_zero_like (value : string) : bool :=
  let trimmed := trim value in is_empty trimmed || eq_ignore_ascii_case trimmed ZERO_ADDR.

Definition http_url (url : string) : bool := starts_with "http://" url || starts_with "https://" url.

Definition when {A : Type} (b : bool) (l : list A) : list A := if b then l else [].

Section Validate.
Context `{CR : !Crypto}.
Context (header_value method_ok : string → bool).    (* the http crate *)

Definition origin_errors (origin : string) : list NodeConfigError :=
  if String.eqb origin "*" then []
  else if negb (http_url origin) then [OriginScheme origin]
  else when (negb (header_value origin)) [OriginHeader origin].

Definition cors_validate (c : CorsConfig) : list NodeConfigError :=
  let has_wildcard := existsb (String.eqb "*") (allowed_origins c) in
  let none := bool_decide (allowed_origins c = []) in
  when (has_wildcard && (1 <? length (allowed_origins c))%nat) [WildcardWithOrigins]
  ++ when (allow_credentials c && none) [CredentialsWithoutOrigin]
  ++ when (allow_credentials c && has_wildcard) [CredentialsWithWildcard]
  ++ (allowed_origins c ≫= origin_errors)
  ++ (allowed_methods c ≫= λ m, when (negb (method_ok m)) [BadMethod m]).

(** A private key that is set: optional 0x, then 32 bytes. *)
Definition key_errors (too_long : N → NodeConfigError) (bad_hex : NodeConfigError) (key : option string) : list NodeConfigError :=
  match key with
  | None => []
  | Some key =>
      match hex_decode (default key (strip_prefix "0x" key)) with
      | Some bytes => when (negb (String.length bytes =? 32)%nat) [too_long (N.of_nat (String.length bytes))]
      | None => [bad_hex]
      end
  end.

Definition entry_errors (v : Validator) : list NodeConfigError :=
  let trimmed := trim_0x (trim (val_pubkey v)) in
  if forallb (Ascii.eqb "0"%char) (of_str trimmed) then [EntryEmptyKey (val_id v)]
  else match hex_decode trimmed with
       | Some bytes => when (negb (String.length bytes =? 32)%nat) [EntryKeyLength (val_id v) (N.of_nat (String.length bytes))]
       | None => [EntryKeyHex (val_id v)]
       end.

Definition validate (c : NodeConfig) : list NodeConfigError :=
  when (nc_is_validator c && bool_decide (nc_validator_privkey c = None)) [ValidatorKeyMissing]
  ++ key_errors ValidatorKeyLength ValidatorKeyHex (nc_validator_privkey c)
  ++ key_errors BridgeKeyLength BridgeKeyHex (nc_bridge_privkey c)
  ++ when (is_zero_like (nc_registry_addr c)) [ZeroRegistry]
  ++ when (negb (bool_decide (nc_bridge_privkey c = None)) && is_zero_like (nc_governance_addr c)) [ZeroGovernance]
  ++ when (is_zero_like (nc_token_addr c)) [ZeroToken]
  ++ when (is_zero_like (nc_staking_addr c)) [ZeroStaking]
  ++ (if is_empty (nc_ipfs_url c) then [EmptyIpfsUrl] else when (negb (http_url (nc_ipfs_url c))) [BadIpfsUrl (nc_ipfs_url c)])
  ++ cors_validate (nc_cors c)
  ++ when (nc_block_interval_secs c =? 0)%N [ZeroBlockInterval]
  ++ (validators (nc_validator_set c) ≫= entry_errors).

(** The errors that stop [main]. *)
Definition hard_error (e : NodeConfigError) : bool :=
  str_contains "CREG_VALIDATOR_KEY" (message e) || str_contains "CREG_BRIDGE_KEY" (message e)
  || str_contains "CREG_VALIDATOR_SET entry" (message e).

Definition hard_errors (c : NodeConfig) : list NodeConfigError := filter (λ e, hard_error e = true) (validate c).

End Validate.

(** ** Policies of production and of public validators *)

Inductive SecurityError := DevSandboxInProduction | SmallQuorumInProduction | SecretsPolicy | DevSandboxPublic.

Definition env_is (env : Environment) (key value : string) : bool := bool_decide (env key = Some value).

Definition validate_mal001_public_validator (env : Environment) (c : NodeConfig) : list SecurityError :=
  if negb (nc_is_validator c) then []
  else if negb (env_is env "CREG_PUBLIC_VALIDATOR" "true") then []
  else when (env_is env "CREG_DEV_SANDBOX" "true") [DevSandboxPublic].

Definition validate_production_security (env : Environment) (c : NodeConfig) : list SecurityError :=
  if nc_is_testnet c then []
  else when (env_is env "CREG_DEV_SANDBOX" "true") [DevSandboxInProduction]
       ++ when (env_is env "CREG_PBFT_ALLOW_SMALL_CLUSTER_QUORUM" "true") [SmallQuorumInProduction]
       ++ map (λ _, SecretsPolicy) (validate_production_secrets_policy env (nc_is_testnet c)).

(** ** Network identity *)
Section Identity.
Context `{CR : !Crypto}.

Definition id_le (v w : Validator) : bool := str_le (val_id v) (val_id w).

Definition identity_entry (v : Validator) : string :=
  "|" +:+ trim (val_id v) +:+ ":" +:+ to_ascii_lowercase (trim_0x (trim (val_pubkey v))).

Definition address_part (addr : string) : string := "|" +:+ to_ascii_lowercase (trim addr).

(** The text that is hashed ([to_lowercase] on addresses and keys, which are ASCII). *)
Definition identity_text (c : NodeConfig) : string :=
  trim (nc_chain_id c)
  +:+ address_part (nc_registry_addr c) +:+ address_part (nc_governance_addr c)
  +:+ address_part (nc_staking_addr c) +:+ address_part (nc_token_addr c)
  +:+ foldr (λ v acc, identity_entry v +:+ acc) "" (sort_by id_le (validators (nc_validator_set c))).

Definition compute_network_identity_hash (c : NodeConfig) : string := sha256_hex (identity_text c).

(** [Err] carries the computed hash. *)
Definition validate_genesis_hash_value (c : NodeConfig) (expected : option string) : result string string :=
  let computed := compute_network_identity_hash c in
  match expected with
  | Some raw =>
      let v := trim raw in
      if is_empty v then Ok computed
      else if String.eqb (to_ascii_lowercase (trim_0x v)) computed then Ok computed else Err computed
  | None => Ok computed
  end.

Definition validate_genesis_hash (env : Environment) (c : NodeConfig) : result string string :=
  validate_genesis_hash_value c (env "CREG_GENESIS_HASH").

End Identity.

(** ** Applying a specification *)

Definition from_spec (addr : string) (spec_addr : option string) : string :=
  if String.eqb addr ZERO_ADDR || is_empty addr then default addr spec_addr else addr.

Definition apply_chain_spec (env : Environment) (s : ChainSpec) (c : NodeConfig) : NodeConfig := {|
  nc_chain_id := if is_empty (nc_chain_id c) then spec_chain_id s else nc_chain_id c;
  nc_listen_addr := nc_listen_addr c; nc_data_dir := nc_data_dir c; nc_p2p_listen := nc_p2p_listen c;
  nc_p2p_seeds := match nc_p2p_seeds c with [] => p2p_seeds s | l => l end;
  nc_eth_rpc_url := nc_eth_rpc_url c;
  nc_registry_addr := from_spec (nc_registry_addr c) (contract s "registry");
  nc_governance_addr := from_spec (nc_governance_addr c) (contract s "governance");
  nc_token_addr := from_spec (nc_token_addr c) (contract s "creg_token");
  nc_staking_addr := from_spec (nc_staking_addr c) (contract s "staking");
  nc_node_id := nc_node_id c; nc_validator_privkey := nc_validator_privkey c; nc_bridge_privkey := nc_bridge_privkey c;
  nc_is_validator := nc_is_validator c; nc_peers := nc_peers c;
  nc_block_interval_secs :=
    (let t := cpr_block_time_seconds (spec_consensus_params s) in
     if (nc_block_interval_secs c =? 5) && negb (t =? 5) then t else nc_block_interval_secs c)%N;
  nc_vote_timeout_secs :=
    (let ms := cpr_vote_timeout_ms (spec_consensus_params s) in
     if bool_decide (env "CREG_VOTE_TIMEOUT_SECS" = None) && (0 <? ms) then N.max ((ms + 999) / 1000) 1 else nc_vote_timeout_secs c)%N;
  nc_ipfs_url := nc_ipfs_url c; nc_pg_url := nc_pg_url c;
  nc_validator_set := match validators (nc_validator_set c) with [] => to_runtime_validator_set s | _ => nc_validator_set c end;
  nc_mode := nc_mode c; nc_pruning := nc_pruning c; nc_max_peers := nc_max_peers c; nc_cors := nc_cors c;
  nc_is_testnet := nc_is_testnet c |}.

(** ** The lock of the data directory *)

Inductive LockError := LockHeld (pid : N) | LockUnreadable | LockUnwritable.

(** The lock file: absent, unreadable or with a text. *)
Inductive LockFile := NoLock | UnreadableLock | LockText (text : string).

(** [pid as i32], which is what kill gets. *)
Definition as_i32 (pid : N) : Z := if (pid <? 2 ^ 31)%N then Z.of_N pid else (Z.of_N pid - 2 ^ 32)%Z.

(** [signalled] is kill(pid, 0) == 0: false also for a process of another user. *)
Definition lock_check (signalled : Z → bool) (f : LockFile) : result LockError unit :=
  match f with
  | NoLock => Ok tt
  | UnreadableLock => Err LockUnreadable
  | LockText contents =>
      match parse_uint u32_max (trim contents) with
      | Some pid => if signalled (as_i32 pid) then Err (LockHeld pid) else Ok tt
      | None => Ok tt
      end
  end.

(** [PidLock::acquire]; [writable] says whether the directory and the file can be written. *)
Definition acquire (signalled : Z → bool) (writable : bool) (our_pid : N) (f : LockFile) : LockFile * result LockError unit :=
  match lock_check signalled f with
  | Err e => (f, Err e)
  | Ok _ => if writable then (LockText (fmt_N our_pid), Ok tt) else (f, Err LockUnwritable)
  end.

(** [PidLock::release], also when the lock is dropped. *)
Definition release (f : LockFile) : LockFile := NoLock.

(** ** The world around a starting node *)

(** An HTTP answer: the success flag and the text of the body, if it can be read. *)
Record HttpAnswer := { ha_success : bool; ha_text : option string }.

Record World := {
  w_env : Environment;
  w_uuid : string;
  w_pinned_pubkey : option string;                      (* option_env!("CREG_SPEC_SIGNING_PUBKEY") *)
  w_parse_spec : string → option ChainSpec;
  w_parse_set : string → option CommonValidatorSet;
  w_vault_get : string → string → option VaultResponse;
  w_fetch : string → nat → option HttpAnswer;           (* GET of the specification, per attempt *)
  w_cache_file : option (option string);                (* chain-spec.cached.json: exists, and its text *)
  w_cache_writable : bool;
  w_signature : string → option HttpAnswer;             (* GET of the detached signature *)
  w_chain_id : string → option Value;                   (* eth_chainId: the JSON answer *)
  w_code : nat → string → option Value;                 (* eth_getCode, per attempt and address *)
  w_header_value : string → bool;
  w_method_ok : string → bool;
  w_dev_bypass : bool;                                  (* validator::sandbox::engine_status *)
  w_isolated : bool;
  w_lock : LockFile;
  w_lock_writable : bool;
  w_signalled : Z → bool;
  w_pid : N;
}.

Inductive BootError :=
| FetchFailed | BodyUnreadable | FetchedSpecInvalid | CacheUnreadable | CachedSpecInvalid | NoChainSpec
| SignatureUnavailable | SpecSignatureInvalid (e : SpecError) | SpecVersionUnknown | ChainIdMismatch | SpecHashMismatch
| ExpectedChainIdInvalid | ChainIdUnavailable | ChainIdNotHex | L1Mismatch (observed expected : N)
| HardConfigErrors | UnsafeProduction | PublicValidatorPolicy | SandboxBypassed | SandboxNotIsolated
| IdentityMismatch | ContractsInvalid | LockFailed (e : LockError).

(** [fetch_with_retry]: the attempts from [attempt] on. *)
Fixpoint fetch_with_retry (answer : nat → option HttpAnswer) (attempts attempt : nat) : result BootError string :=
  match attempts with
  | O => Err FetchFailed
  | S attempts' =>
      match answer attempt with
      | Some resp => if ha_success resp then ok_or BodyUnreadable (ha_text resp) else fetch_with_retry answer attempts' (S attempt)
      | None => fetch_with_retry answer attempts' (S attempt)
      end
  end.

Definition cached_spec (w : World) : result BootError ChainSpec :=
  match w_cache_file w with
  | Some text => json ← ok_or CacheUnreadable text; ok_or CachedSpecInvalid (w_parse_spec w json)
  | None => Err NoChainSpec
  end.

(** The specification, and the text that the cache holds afterwards when it is written. *)
Definition resolve_chain_spec (w : World) (url : option string) (offline : bool) : result BootError ChainSpec * option string :=
  match (if offline then None else url) with
  | Some url =>
      match fetch_with_retry (w_fetch w url) 3 1 with
      | Ok json =>
          match w_parse_spec w json with
          | Some spec => (Ok spec, if w_cache_writable w then Some json else None)
          | None => (Err FetchedSpecInvalid, None)
          end
      | Err _ => (cached_spec w, None)
      end
  | None => (cached_spec w, None)
  end.

Definition fetch_spec_signature (w : World) (url : string) : result BootError string :=
  match w_signature w url with
  | Some resp => if ha_success resp then trim <$> ok_or SignatureUnavailable (ha_text resp) else Err SignatureUnavailable
  | None => Err SignatureUnavailable
  end.

(** ** L1 *)

Definition expected_chain_id (w : World) (from_spec : option N) : result BootError (option N) :=
  match from_spec with
  | Some id => Ok (Some id)
  | None =>
      match w_env w "CREG_EXPECTED_L1_CHAIN_ID" with
      | Some v => if is_empty (trim v) then Ok None else Some <$> ok_or ExpectedChainIdInvalid (parse_uint u64_max (trim v))
      | None => Ok None
      end
  end.

Definition observed_chain_id (w : World) (rpc_url : string) : result BootError N :=
  raw ← ok_or ChainIdUnavailable ((w_chain_id w rpc_url ≫= value_get "result") ≫= value_str);
  ok_or ChainIdNotHex (parse_radix16 u64_max (trim_0x raw)).

Definition validate_l1_chain_id (w : World) (rpc_url : string) (from_spec : option N) : result BootError unit :=
  expected ← expected_chain_id w from_spec;
  match expected with
  | None => Ok tt
  | Some expected =>
      observed ← observed_chain_id w rpc_url;
      ensure (observed =? expected)%N (L1Mismatch observed expected)
  end.

(** The code at an address; an answer with an error entry is a failure. *)
Definition fetch_contract_code (w : World) (attempt : nat) (address : string) : option string :=
  response ← w_code w attempt address;
  match value_get "error" response with
  | Some _ => None
  | None => value_get "result" response ≫= value_str
  end.

Definition configured_contracts (c : NodeConfig) : list string :=
  filter (λ a, is_zero_like a = false) [nc_registry_addr c; nc_governance_addr c; nc_token_addr c; nc_staking_addr c].

Definition has_code (w : World) (attempt : nat) (address : string) : bool :=
  match fetch_contract_code w attempt address with
  | Some code => negb (String.eqb code "0x") && negb (String.eqb code "0x0")
  | None => false
  end.

(** The attempts from [attempt] on; each asks for all addresses. *)
Fixpoint contract_attempts (w : World) (addresses : list string) (attempts attempt : nat) : result BootError unit :=
  match attempts with
  | O => Err ContractsInvalid
  | S attempts' =>
      if forallb (has_code w attempt) addresses then Ok tt else contract_attempts w addresses attempts' (S attempt)
  end.

Definition validate_contract_addresses (w : World) (c : NodeConfig) : result BootError unit :=
  match configured_contracts c with
  | [] => Ok tt
  | addresses => contract_attempts w addresses 10 1
  end.

(** ** main *)
Section Main.
Context `{CR : !Crypto}.

(** Steps 2 to 5: the checks of a specification. *)
Definition check_signature (w : World) (s : ChainSpec) : result BootError unit :=
  let pinned := default "0000000000000000000000000000000000000000000000000000000000000000" (w_pinned_pubkey w) in
  if forallb (Ascii.eqb "0"%char) (of_str pinned) then Ok tt
  else
    sig ← fetch_spec_signature w (default (sgn_detached_signature_url (spec_signing s)) (w_env w "CREG_SPEC_SIGNATURE_URL"));
    map_err SpecSignatureInvalid (verify_signature s sig pinned).

Definition check_spec (w : World) (c : NodeConfig) (s : ChainSpec) : result BootError unit :=
  _ ← check_signature w s;
  _ ← ensure (spec_version s =? CURRENT_SPEC_VERSION)%Z SpecVersionUnknown;
  _ ← ensure (match w_env w "CREG_CHAIN_ID" with Some expected => String.eqb (spec_chain_id s) expected | None => true end) ChainIdMismatch;
  _ ← ensure (match w_env w "CREG_GENESIS_HASH" with Some expected => String.eqb (compute_genesis_hash s) expected | None => true end)
        SpecHashMismatch;
  validate_l1_chain_id w (nc_eth_rpc_url c) (Some (l1c_chain_id (spec_l1 s))).

(** The checks of the configuration. *)
Definition check_config (w : World) (c : NodeConfig) : result BootError unit :=
  _ ← ensure (bool_decide (length (hard_errors (w_header_value w) (w_method_ok w) c) = 0)) HardConfigErrors;
  _ ← ensure (bool_decide (length (validate_production_security (w_env w) c) = 0)) UnsafeProduction;
  _ ← ensure (bool_decide (length (validate_mal001_public_validator (w_env w) c) = 0)) PublicValidatorPolicy;
  let public := nc_is_validator c && env_is (w_env w) "CREG_PUBLIC_VALIDATOR" "true" in
  _ ← ensure (negb (public && w_dev_bypass w)) SandboxBypassed;
  _ ← ensure (negb public || w_isolated w) SandboxNotIsolated;
  _ ← map_err (λ _, IdentityMismatch) (validate_genesis_hash (w_env w) c);
  Ok tt.

Definition load_config (w : World) : NodeConfig := load (w_env w) (w_vault_get w) (w_parse_set w) (w_uuid w).

(** The specification of the network, or none with the legacy configuration. *)
Definition boot_spec (w : World) : result BootError (option ChainSpec) :=
  let url := w_env w "CREG_CHAIN_SPEC_URL" in
  match (resolve_chain_spec w url (env_is (w_env w) "CREG_CHAIN_SPEC_OFFLINE" "true")).1 with
  | Ok s => Ok (Some s)
  | Err e => match url with None => Ok None | Some _ => Err e end
  end.

Definition boot (w : World) : result BootError NodeConfig :=
  let config := load_config w in
  chain_spec ← boot_spec w;
  _ ← match chain_spec with
      | Some s => check_spec w config s
      | None => validate_l1_chain_id w (nc_eth_rpc_url config) None
      end;
  _ ← check_config w config;
  let config := match chain_spec with Some s => apply_chain_spec (w_env w) s config | None => config end in
  _ ← validate_contract_addresses w config;
  _ ← (if nc_is_testnet config then Ok tt
       else map_err LockFailed (acquire (w_signalled w) (w_lock_writable w) (w_pid w) (w_lock w)).2);
  Ok config.

End Main.

(** ** The CORS layer (build_cors_layer of api.rs)

    [None] is a panic of [expect]. *)

Inductive AllowOrigin := NoOrigin | AnyOrigin | Origins (l : list string).

Record CorsLayer := { cl_methods : list string; cl_credentials : bool; cl_origin : AllowOrigin }.

Definition expect_all (ok : string → bool) (l : list string) : option (list string) := if forallb ok l then Some l else None.

Definition build_cors_layer (header_value method_ok : string → bool) (c : CorsConfig) : option CorsLayer :=
  methods ← expect_all method_ok (allowed_methods c);
  let layer origin := {| cl_methods := methods; cl_credentials := allow_credentials c; cl_origin := origin |} in
  match allowed_origins c with
  | [] => Some (layer NoOrigin)
  | origins =>
      if bool_decide (origins = ["*"]) then Some (layer AnyOrigin)
      else values ← expect_all header_value origins; Some (layer (Origins values))
  end.

(** ** Errors of the configuration *)

Lemma when_nil {A : Type} (b : bool) (x : A) (l : list A) : when b (x :: l) = [] ↔ b = false.
Proof. by destruct b. Qed.

Lemma mbind_nil {A B : Type} (f : A → list B) (l : list A) : l ≫= f = [] ↔ ∀ x, x ∈ l → f x = [].
Proof.
  induction l as [|x l IH]; cbn; [split; [intros _ x Hx%elem_of_nil; done|done]|].
  rewrite app_nil, IH. setoid_rewrite elem_of_cons. naive_solver.
Qed.

Lemma forallb_false {A : Type} (p : A → bool) (l : list A) : forallb p l = false ↔ ∃ x, x ∈ l ∧ p x = false.
Proof.
  induction l as [|x l IH]; cbn; [split; [done|intros (x & Hx%elem_of_nil & _); done]|].
  destruct (p x) eqn:Hp; cbn.
  - rewrite IH. split; intros (y & Hy & Hf); exists y; (split; [|done]); [by right|]. apply elem_of_cons in Hy as [->|]; [congruence|done].
  - split; [intros _; exists x; split; [by left|done]|done].
Qed.

Lemma expect_all_None (p : string → bool) (l : list string) : expect_all p l = None ↔ ∃ x, x ∈ l ∧ p x = false.
Proof. rewrite <- forallb_false. unfold expect_all. by destruct (forallb p l). Qed.

(** A CORS policy without errors builds the layer: the texts that build_cors_layer expects to be
    validated are.  A policy with errors is only warned about at start, so the layer panics for
    exactly the methods and origins that are no header values. *)
Theorem cors_layer_exact (header_value method_ok : string → bool) (c : CorsConfig) :
  header_value "*" = true →
  (cors_validate header_value method_ok c = [] → is_Some (build_cors_layer header_value method_ok c)) ∧
  (build_cors_layer header_value method_ok c = None ↔
   (∃ m, m ∈ allowed_methods c ∧ method_ok m = false) ∨ (∃ o, o ∈ allowed_origins c ∧ header_value o = false)).
Proof.
  intros Hstar.
  assert (Hb : build_cors_layer header_value method_ok c = None ↔
    (∃ m, m ∈ allowed_methods c ∧ method_ok m = false) ∨ (∃ o, o ∈ allowed_origins c ∧ header_value o = false)).
  { unfold build_cors_layer. rewrite <- !expect_all_None. destruct (expect_all method_ok (allowed_methods c)) as [ms|]; cbn; [|naive_solver].
    destruct (allowed_origins c) as [|o os]; [naive_solver|].
    assert (Hd : expect_all header_value ["*"] = Some ["*"]) by (unfold expect_all; cbn; by rewrite Hstar).
    case_bool_decide as Hs; [rewrite Hs, Hd; naive_solver|].
    destruct (expect_all header_value (o :: os)); cbn; naive_solver. }
  split; [|done]. intros Hv. destruct (build_cors_layer header_value method_ok c) eqn:Hl; [done|]. exfalso.
  apply proj1 in Hb. specialize (Hb eq_refl). unfold cors_validate in Hv. rewrite !app_nil, !mbind_nil in Hv. destruct Hv as (_ & _ & _ & Ho & Hm).
  destruct Hb as [(m & Hin & Hbad)|(o & Hin & Hbad)].
  - specialize (Hm m Hin). by rewrite Hbad in Hm.
  - specialize (Ho o Hin). unfold origin_errors in Ho. destruct (String.eqb_spec o "*") as [->|]; [congruence|].
    destruct (http_url o); cbn in Ho; [|done]. by rewrite Hbad in Ho.
Qed.

Section ConfigErrors.
Context `{CR : !Crypto}.
Context (header_value method_ok : string → bool).

(** The text of a key is 32 bytes. *)
Definition key_ok (key : string) : Prop := ∃ b, hex_decode key = Some b ∧ String.length b = 32.

Lemma key_errors_nil (f : N → NodeConfigError) (e : NodeConfigError) (k : option string) :
  key_errors f e k = [] ↔ ∀ key, k = Some key → key_ok (default key (strip_prefix "0x" key)).
Proof.
  unfold key_errors, key_ok. destruct k as [key|]; [|naive_solver].
  destruct (hex_decode _) as [b|] eqn:Hd; [|split; [done|intros H; destruct (H key eq_refl) as (b & Hb & _); congruence]].
  rewrite when_nil, negb_false_iff, Nat.eqb_eq. split.
  - intros Hl key' [= <-]. eauto.
  - intros H. destruct (H key eq_refl) as (b' & Hb & Hl). congruence.
Qed.

(** A validator whose votes can be verified. *)
Definition entry_ok (v : Validator) : Prop :=
  let k := trim_0x (trim (val_pubkey v)) in key_ok k ∧ ∃ c, c ∈ of_str k ∧ c ≠ "0"%char.

Lemma not_all_zero (l : list ascii) : forallb (Ascii.eqb "0"%char) l = false ↔ ∃ c, c ∈ l ∧ c ≠ "0"%char.
Proof.
  rewrite forallb_false. split; intros (c & Hc & Hn); exists c; (split; [done|]).
  - intros ->. by rewrite Ascii.eqb_refl in Hn.
  - by apply Ascii.eqb_neq.
Qed.

Lemma entry_errors_nil (v : Validator) : entry_errors v = [] ↔ entry_ok v.
Proof.
  unfold entry_errors, entry_ok, key_ok. rewrite <- not_all_zero. destruct (forallb _ _); [naive_solver|].
  destruct (hex_decode _) as [b|]; [|naive_solver]. rewrite when_nil, negb_false_iff, Nat.eqb_eq. naive_solver.
Qed.

Lemma hard_by (e : NodeConfigError) :
  str_contains "CREG_VALIDATOR_KEY" (message e) = true ∨ str_contains "CREG_BRIDGE_KEY" (message e) = true ∨
  str_contains "CREG_VALIDATOR_SET entry" (message e) = true → hard_error e = true.
Proof. unfold hard_error. intros [->|[->| ->]]; by rewrite ?orb_true_r. Qed.

Lemma hard_filter (l k : list NodeConfigError) :
  filter (λ e, hard_error e = true) (l ++ k) = [] ↔
  filter (λ e, hard_error e = true) l = [] ∧ filter (λ e, hard_error e = true) k = [].
Proof. rewrite filter_app. apply app_nil. Qed.

Lemma all_hard (l : list NodeConfigError) :
  Forall (λ e, hard_error e = true) l → filter (λ e, hard_error e = true) l = [] ↔ l = [].
Proof. intros H. rewrite (filter_all _ l); [done|]. intros x Hx. rewrite Forall_forall in H. by apply H. Qed.

Lemma soft_when (b : bool) (e : NodeConfigError) : hard_error e = false → filter (λ e, hard_error e = true) (when b [e]) = [].
Proof. intros He. destruct b; [|done]. change (when true [e]) with [e]. rewrite filter_cons, decide_False by congruence. done. Qed.

Lemma key_errors_hard (f : N → NodeConfigError) (e : NodeConfigError) (k : option string) :
  (∀ n, hard_error (f n) = true) → hard_error e = true → Forall (λ e, hard_error e = true) (key_errors f e k).
Proof.
  intros Hf He. unfold key_errors. destruct k as [key|]; [|constructor]. destruct (hex_decode _) as [b|]; [|by constructor].
  unfold when. destruct (negb _); repeat constructor. apply Hf.
Qed.

Lemma entry_errors_hard (v : Validator) : Forall (λ e, hard_error e = true) (entry_errors v).
Proof.
  assert (He : ∀ e, hard_error e = true → Forall (λ e, hard_error e = true) [e]) by by repeat constructor.
  unfold entry_errors, when. repeat case_match; try apply Forall_nil_2; apply He, hard_by; right; right; vm_compute; reflexivity.
Qed.

(** When the IPFS address and the CORS policy are in order, the configuration stops the start of
    the node exactly when a validator has no key, a key is not 32 bytes or a validator of the set
    has a key that is not 32 bytes or is zero.  Everything else that is reported, a block
    interval of zero included, is a warning. *)
Theorem hard_errors_exact (c : NodeConfig) :
  http_url (nc_ipfs_url c) = true → cors_validate header_value method_ok (nc_cors c) = [] →
  (hard_errors header_value method_ok c = [] ↔
   (nc_is_validator c = true → nc_validator_privkey c ≠ None) ∧
   (∀ key, nc_validator_privkey c = Some key ∨ nc_bridge_privkey c = Some key → key_ok (default key (strip_prefix "0x" key))) ∧
   (∀ v, v ∈ validators (nc_validator_set c) → entry_ok v)).
Proof.
  intros Hi Hc. unfold hard_errors, validate. rewrite Hc. rewrite !hard_filter.
  rewrite (all_hard (when _ [ValidatorKeyMissing])) by (destruct (_ && _); repeat constructor).
  rewrite (all_hard (key_errors ValidatorKeyLength ValidatorKeyHex _)) by (apply key_errors_hard; [intros n|]; apply hard_by; left; by vm_compute).
  rewrite (all_hard (key_errors BridgeKeyLength BridgeKeyHex _)) by (apply key_errors_hard; [intros n|]; apply hard_by; right; left; by vm_compute).
  rewrite (all_hard (validators _ ≫= _)).
  2: { apply Forall_forall. intros e (v & He & _)%list_elem_of_bind.
       pose proof (entry_errors_hard v) as Hv. rewrite Forall_forall in Hv. by apply Hv. }
  rewrite !soft_when by by vm_compute. rewrite when_nil, !key_errors_nil, mbind_nil. setoid_rewrite entry_errors_nil.
  assert (is_empty (nc_ipfs_url c) = false) as -> by by destruct (nc_ipfs_url c).
  rewrite Hi. cbn [negb when]. rewrite andb_false_iff, bool_decide_eq_false.
  destruct (nc_is_validator c); naive_solver.
Qed.

End ConfigErrors.

(** ** Keys and policies *)
Section Policies.
Context `{CR : !Crypto}.
Context (env : Environment).

(** The validator key of the environment is taken whatever the backend is, also when the keys are to
    come from Vault; the key of the bridge comes from the provider only.  A provider that cannot
    be built, or that fails, leaves the node without the key and says nothing. *)
Theorem load_keys_exact (vault_get : string → string → option VaultResponse)
    (parse_set : string → option CommonValidatorSet) (uuid : string) :
  let c := load env vault_get parse_set uuid in
  (∀ k, env "CREG_VALIDATOR_KEY" = Some k → nc_validator_privkey c = Some k) ∧
  (∀ k, nc_bridge_privkey c = Some k ↔
        ∃ p, provider_from_env env = Ok p ∧ try_secp256k1_signing_key_hex env vault_get p Secrets.Bridge = Ok (Some k)) ∧
  (∀ k, env "CREG_VALIDATOR_KEY" = None → nc_validator_privkey c = Some k →
        ∃ p, provider_from_env env = Ok p ∧ try_secp256k1_signing_key_hex env vault_get p ValidatorEd25519 = Ok (Some k)).
Proof.
  assert (Hp : ∀ p r k, provided env vault_get p r = Some k ↔ try_secp256k1_signing_key_hex env vault_get p r = Ok (Some k)).
  { intros p r k. unfold provided. destruct (try_secp256k1_signing_key_hex _ _ _ _) as [[k'|]|]; naive_solver. }
  cbv zeta. unfold load. destruct (provider_from_env env) as [p|e].
  - cbn [nc_validator_privkey nc_bridge_privkey with_keys load_env]. split; [by intros k ->|]. split.
    + intros k. rewrite Hp. naive_solver.
    + intros k -> Hk%Hp. eauto.
  - cbn [nc_validator_privkey nc_bridge_privkey load_env]. split; [done|]. split; [naive_solver|]. intros k -> [=].
Qed.

(** Off the testnet the guard passes exactly when the sandbox bypass and the relaxed quorum are not
    set to the text true and the policy on the backend of the keys is silent. *)
Theorem production_guard_exact (c : NodeConfig) :
  validate_production_security env c = [] ↔
  nc_is_testnet c = true ∨
  (env "CREG_DEV_SANDBOX" ≠ Some "true" ∧ env "CREG_PBFT_ALLOW_SMALL_CLUSTER_QUORUM" ≠ Some "true" ∧
   validate_production_secrets_policy env false = []).
Proof.
  unfold validate_production_security, env_is. destruct (nc_is_testnet c); [naive_solver|].
  rewrite !app_nil, !when_nil, !bool_decide_eq_false. 
  assert (∀ l : list SecretsPolicyError, map (λ _, SecretsPolicy) l = [] ↔ l = []) as -> by by intros [].
  naive_solver.
Qed.

(** The engine also takes 1, yes, on and other spellings for the relaxed quorum, which the guard
    does not look for: with them a production node runs with two thirds weakened. *)
Theorem relaxed_quorum_passes_guard (c : NodeConfig) (v : string) :
  env "CREG_PBFT_ALLOW_SMALL_CLUSTER_QUORUM" = Some v → v ≠ "true" →
  to_ascii_lowercase (trim v) ∈ ["1"; "true"; "yes"; "on"] →
  allow_small_cluster_quorum (default_config env) = true ∧
  SmallQuorumInProduction ∉ validate_production_security env c.
Proof.
  intros Hv Hne Ht. split.
  - cbn. unfold env_flag. rewrite Hv. by rewrite bool_decide_true.
  - unfold validate_production_security, env_is. destruct (nc_is_testnet c); [by intros ?%elem_of_nil|].
    rewrite (bool_decide_false (env "CREG_PBFT_ALLOW_SMALL_CLUSTER_QUORUM" = Some "true")) by congruence. cbn [when app].
    rewrite elem_of_app. intros [Hin|Hin].
    + unfold when in Hin. case_match; [|by apply elem_of_nil in Hin]. apply list_elem_of_singleton in Hin. discriminate Hin.
    + apply list_elem_of_In, in_map_iff in Hin as (x & Hx & _). discriminate Hx.
Qed.

End Policies.

(** ** The identity of the network *)
Section IdentityFacts.
Context `{CR : !Crypto}.

Lemma id_le_total (v w : Validator) : id_le v w = true ∨ id_le w v = true.
Proof. apply str_le_total. Qed.

Lemma id_le_trans (u v w : Validator) : id_le u v = true → id_le v w = true → id_le u w = true.
Proof. apply str_le_trans. Qed.

(** Lists of distinct names sort alike in whatever order they are. *)
Lemma sort_ids_unique (l k : list Validator) : l ≡ₚ k → NoDup (val_id <$> l) → sort_by id_le l = sort_by id_le k.
Proof.
  intros Hp Hnd. apply (StronglySorted_unique_strong (leR id_le)).
  - intros v w Hv%elem_of_sort_by Hw%elem_of_sort_by Hvw Hwv. rewrite <- Hp in Hw.
    apply list_elem_of_lookup in Hv as [i Hi], Hw as [j Hj].
    assert (val_id v = val_id w) as He by by apply str_le_antisym.
    assert (i = j) as ->; [|congruence]. eapply (NoDup_lookup _ i j (val_id v) Hnd); rewrite list_lookup_fmap.
    + by rewrite Hi.
    + by rewrite Hj, He.
  - apply sort_by_sorted; [apply id_le_total|apply id_le_trans].
  - apply sort_by_sorted; [apply id_le_total|apply id_le_trans].
  - by rewrite !sort_by_Permutation.
Qed.

(** Two configurations that differ in the order of the validators only. *)
Definition same_network (c d : NodeConfig) : Prop :=
  nc_chain_id c = nc_chain_id d ∧ nc_registry_addr c = nc_registry_addr d ∧ nc_governance_addr c = nc_governance_addr d ∧
  nc_staking_addr c = nc_staking_addr d ∧ nc_token_addr c = nc_token_addr d ∧
  validators (nc_validator_set c) ≡ₚ validators (nc_validator_set d).

(** The order in which the validators are listed does not change the identity of the network, when
    their names are distinct. *)
Theorem identity_order_free (c d : NodeConfig) :
  same_network c d → NoDup (val_id <$> validators (nc_validator_set c)) →
  compute_network_identity_hash c = compute_network_identity_hash d.
Proof.
  intros (H1 & H2 & H3 & H4 & H5 & Hp) Hnd. unfold compute_network_identity_hash, identity_text. rewrite H1, H2, H3, H4, H5.
  assert (sort_by id_le (validators (nc_validator_set c)) = sort_by id_le (validators (nc_validator_set d))) as ->; [|done].
  apply sort_ids_unique; done.
Qed.
End IdentityFacts.

Section Ambiguity.
Context `{CR : !Crypto}.

Definition plain_text (s : string) : bool := forallb plain_char (of_str s).

Lemma plain_text_app (s t : string) : plain_text (s +:+ t) = plain_text s && plain_text t.
Proof. unfold plain_text. by rewrite of_str_app, forallb_app. Qed.

(** The entries of the identity are not separated from each other: two validators, and the one whose
    name runs from the name of the first over its key to the name of the second, make the same
    network. *)
Theorem identity_ambiguous (c d : NodeConfig) (v w joined : Validator) :
  nc_chain_id c = nc_chain_id d → nc_registry_addr c = nc_registry_addr d → nc_governance_addr c = nc_governance_addr d →
  nc_staking_addr c = nc_staking_addr d → nc_token_addr c = nc_token_addr d →
  validators (nc_validator_set c) = [v; w] → str_le (val_id v) (val_id w) = true →
  plain_text (val_id v) = true → plain_text (val_id w) = true →
  hex_text (val_pubkey v) = true → to_ascii_lowercase (val_pubkey v) = val_pubkey v →
  val_id joined = val_id v +:+ ":" +:+ val_pubkey v +:+ "|" +:+ val_id w → val_pubkey joined = val_pubkey w →
  validators (nc_validator_set d) = [joined] →
  compute_network_identity_hash c = compute_network_identity_hash d.
Proof.
  intros H1 H2 H3 H4 H5 Hc Hle Hv Hw Hx Hl Hid Hpk Hd.
  unfold compute_network_identity_hash, identity_text. rewrite H1, H2, H3, H4, H5, Hc, Hd.
  assert (sort_by id_le [v; w] = [v; w]) as ->.
  { unfold sort_by, merge_sort. cbn. by rewrite decide_True by exact Hle. }
  assert (sort_by id_le [joined] = [joined]) as -> by done. cbn [foldr].
  assert (identity_entry v +:+ identity_entry w +:+ "" = identity_entry joined +:+ "") as ->; [|done].
  unfold identity_entry. rewrite Hid, Hpk.
  assert (plain_text (val_pubkey v) = true) as Hp by by apply hex_plain.
  rewrite (plain_trim (val_pubkey v)), hex_trim_0x, Hl by done.
  rewrite (plain_trim (val_id v)), (plain_trim (val_id w)) by done.
  rewrite (plain_trim (_ +:+ _)); [by rewrite !app_assoc_str|].
  change (plain_text (val_id v +:+ ":" +:+ val_pubkey v +:+ "|" +:+ val_id w) = true).
  by rewrite !plain_text_app, Hv, Hw, Hp.
Qed.
End Ambiguity.

(** ** Lock of the data directory *)

Lemma fmt_plain (n : N) : trim (fmt_N n) = fmt_N n.
Proof.
  apply plain_trim. pose proof (number_text_chars _ (pretty_number n)) as Hn. rewrite forallb_forall in Hn |- *.
  intros x Hx%Hn. by destruct x as [[] [] [] [] [] [] [] []].
Qed.

(** While the process of the holder answers to a signal no other node gets the lock, whatever its
    number is. *)
Theorem lock_excludes (signalled : Z → bool) (pid pid' : N) (f f' : LockFile) (writable : bool) :
  (pid ≤ u32_max)%N → acquire signalled true pid f = (f', Ok tt) → signalled (as_i32 pid) = true →
  acquire signalled writable pid' f' = (f', Err (LockHeld pid)).
Proof.
  intros Hpid Ha Hs. unfold acquire in Ha. destruct (lock_check signalled f) as [[]|e]; [|done]. injection Ha as <-.
  unfold acquire, lock_check. by rewrite fmt_plain, parse_uint_fmt, Hs.
Qed.

(** A holder that cannot be signalled, for example because it runs as another user, counts as gone:
    a second node takes the lock, and when the first one ends it removes the lock of the second,
    so that a third gets in beside it. *)
Theorem lock_lost_to_other_user (signalled1 signalled2 signalled3 : Z → bool) (pid1 pid2 pid3 : N) (f1 : LockFile) :
  (pid1 ≤ u32_max)%N → acquire signalled1 true pid1 NoLock = (f1, Ok tt) → signalled2 (as_i32 pid1) = false →
  acquire signalled2 true pid2 f1 = (LockText (fmt_N pid2), Ok tt) ∧
  acquire signalled3 true pid3 (release (LockText (fmt_N pid2))) = (LockText (fmt_N pid3), Ok tt).
Proof.
  intros Hp [= <-] Hs. split; [|done]. unfold acquire, lock_check. by rewrite fmt_plain, parse_uint_fmt, Hs.
Qed.

(** ** Resolving the specification *)

Lemma fetch_failed (answer : nat → option HttpAnswer) (n k : nat) :
  (∀ i, k <= i < k + n → ∀ r, answer i = Some r → ha_success r = false) → fetch_with_retry answer n k = Err FetchFailed.
Proof.
  revert k. induction n as [|n IH]; intros k H; [done|]. cbn [fetch_with_retry].
  destruct (answer k) as [r|] eqn:Hr; [rewrite (H k ltac:(lia) r Hr)|]; apply IH; intros i Hi; apply H; lia.
Qed.

Lemma fetch_first (answer : nat → option HttpAnswer) (n k j : nat) (r : HttpAnswer) :
  k <= j < k + n → answer j = Some r → ha_success r = true →
  (∀ i, k <= i < j → ∀ r, answer i = Some r → ha_success r = false) →
  fetch_with_retry answer n k = ok_or BodyUnreadable (ha_text r).
Proof.
  revert k. induction n as [|n IH]; intros k Hj Hr Hs H; [lia|]. cbn [fetch_with_retry].
  destruct (decide (k = j)) as [->|Hne]; [by rewrite Hr, Hs|].
  destruct (answer k) as [r'|] eqn:Hk; [rewrite (H k ltac:(lia) r' Hk)|]; apply IH; try done; try lia; intros i Hi; apply H; lia.
Qed.

(** The specification is asked for up to three times, and the first successful answer decides: its
    text becomes the cache, unless it is no specification, which is an error although an older
    copy may be there.  The copy is used without a network or when every attempt fails. *)
Theorem resolve_exact (w : World) (url : string) (offline : bool) :
  (offline = true ∨ (∀ i r, 1 <= i <= 3 → w_fetch w url i = Some r → ha_success r = false) →
   resolve_chain_spec w (Some url) offline = (cached_spec w, None)) ∧
  (∀ j r json, offline = false → 1 <= j <= 3 → w_fetch w url j = Some r → ha_success r = true → ha_text r = Some json →
     (∀ i r, 1 <= i < j → w_fetch w url i = Some r → ha_success r = false) →
     resolve_chain_spec w (Some url) offline =
       match w_parse_spec w json with
       | Some spec => (Ok spec, if w_cache_writable w then Some json else None)
       | None => (Err FetchedSpecInvalid, None)
       end).
Proof.
  unfold resolve_chain_spec. split.
  - intros [->|H]; [done|]. destruct offline; [done|]. rewrite fetch_failed; [done|]. intros i Hi r. apply H. lia.
  - intros j r json -> Hj Hr Hs Ht H. rewrite (fetch_first _ 3 1 j r); [by rewrite Ht|lia|done|done|].
    intros i Hi r'. by apply H.
Qed.

(** ** Contracts *)

Lemma attempts_Ok (w : World) (l : list string) (n k : nat) :
  contract_attempts w l n k = Ok tt ↔ ∃ i, k <= i < k + n ∧ ∀ a, a ∈ l → has_code w i a = true.
Proof.
  revert k. induction n as [|n IH]; intros k; cbn [contract_attempts]; [split; [done|intros (i & ? & _); lia]|].
  destruct (forallb (has_code w k) l) eqn:Hf.
  - split; [|done]. intros _. exists k. split; [lia|]. rewrite forallb_forall in Hf. intros a Ha. by apply Hf, list_elem_of_In.
  - rewrite IH. split; intros (i & Hi & H).
    + exists i. split; [lia|done].
    + destruct (decide (i = k)) as [->|Hne]; [|exists i; split; [lia|done]]. exfalso.
      apply not_true_iff_false in Hf. apply Hf, forallb_forall. intros a Ha. by apply H, list_elem_of_In.
Qed.

(** The addresses of the contracts pass exactly when one of ten attempts finds code at all of those
    that are configured; this holds on the testnet too, where a comment promises a warning only. *)
Theorem contract_check_exact (w : World) (c : NodeConfig) :
  validate_contract_addresses w c = Ok tt ↔
  ∃ i, 1 <= i <= 10 ∧ ∀ a, a ∈ configured_contracts c → ∃ code, fetch_contract_code w i a = Some code ∧ code ≠ "0x" ∧ code ≠ "0x0".
Proof.
  assert (Hh : ∀ i a, has_code w i a = true ↔ ∃ code, fetch_contract_code w i a = Some code ∧ code ≠ "0x" ∧ code ≠ "0x0").
  { intros i a. unfold has_code. destruct (fetch_contract_code w i a) as [code|]; [|naive_solver].
    rewrite andb_true_iff, !negb_true_iff, !String.eqb_neq. naive_solver. }
  setoid_rewrite <- Hh. unfold validate_contract_addresses. destruct (configured_contracts c) as [|a l].
  - split; [|done]. intros _. exists 1. split; [lia|]. by intros ? ?%elem_of_nil.
  - rewrite attempts_Ok. split; intros (i & Hi & H); exists i; (split; [lia|done]).
Qed.

(** ** What a started node has checked *)
Section Boot.
Context `{CR : !Crypto}.

Definition configured (w : World) (so : option ChainSpec) : NodeConfig :=
  match so with Some s => apply_chain_spec (w_env w) s (load_config w) | None => load_config w end.

Definition lock_free (w : World) : Prop :=
  nc_is_testnet (load_config w) = true ∨ (acquire (w_signalled w) (w_lock_writable w) (w_pid w) (w_lock w)).2 = Ok tt.

Lemma boot_Ok (w : World) (c : NodeConfig) :
  boot w = Ok c ↔
  ∃ so, boot_spec w = Ok so ∧
    match so with
    | Some s => check_spec w (load_config w) s
    | None => validate_l1_chain_id w (nc_eth_rpc_url (load_config w)) None
    end = Ok tt ∧
    check_config w (load_config w) = Ok tt ∧ c = configured w so ∧ validate_contract_addresses w c = Ok tt ∧ lock_free w.
Proof.
  unfold boot, lock_free. rewrite bind_Ok.
  assert (Hl : ∀ so, (if nc_is_testnet (configured w so) then Ok tt
      else map_err LockFailed (acquire (w_signalled w) (w_lock_writable w) (w_pid w) (w_lock w)).2) = Ok tt ↔
    nc_is_testnet (load_config w) = true ∨ (acquire (w_signalled w) (w_lock_writable w) (w_pid w) (w_lock w)).2 = Ok tt).
  { intros so. assert (nc_is_testnet (configured w so) = nc_is_testnet (load_config w)) as -> by by destruct so.
    destruct (nc_is_testnet (load_config w)); [naive_solver|]. rewrite map_err_Ok. naive_solver. }
  split.
  - intros (so & Hs & H). exists so. change (match so with Some s => _ | None => load_config w end) with (configured w so) in H.
    rewrite !then_Ok, Hl in H. naive_solver.
  - intros (so & Hs & Hc & Hk & -> & Hv & Hlk). exists so. split; [done|].
    change (match so with Some s => apply_chain_spec (w_env w) s (load_config w) | None => load_config w end) with (configured w so).
    rewrite !then_Ok, Hl. done.
Qed.

Lemma check_spec_Ok (w : World) (c : NodeConfig) (s : ChainSpec) :
  check_spec w c s = Ok tt ↔
  check_signature w s = Ok tt ∧ spec_version s = CURRENT_SPEC_VERSION ∧
  (∀ id, w_env w "CREG_CHAIN_ID" = Some id → id = spec_chain_id s) ∧
  (∀ h, w_env w "CREG_GENESIS_HASH" = Some h → h = compute_genesis_hash s) ∧
  observed_chain_id w (nc_eth_rpc_url c) = Ok (l1c_chain_id (spec_l1 s)).
Proof.
  unfold check_spec. rewrite !then_Ok, !ensure_Ok, Z.eqb_eq.
  assert (validate_l1_chain_id w (nc_eth_rpc_url c) (Some (l1c_chain_id (spec_l1 s))) = Ok tt ↔
          observed_chain_id w (nc_eth_rpc_url c) = Ok (l1c_chain_id (spec_l1 s))) as ->.
  { unfold validate_l1_chain_id. cbn. rewrite bind_Ok. setoid_rewrite ensure_Ok. setoid_rewrite N.eqb_eq. naive_solver. }
  assert (H : ∀ (o : option string) t, match o with Some e => String.eqb t e | None => true end = true ↔ ∀ e, o = Some e → e = t).
  { intros [e|] t; [rewrite String.eqb_eq|]; naive_solver. }
  by rewrite !H.
Qed.

Lemma check_signature_Ok (w : World) (s : ChainSpec) (pinned : string) :
  check_signature w s = Ok tt → w_pinned_pubkey w = Some pinned → (∃ ch, ch ∈ of_str pinned ∧ ch ≠ "0"%char) →
  ∃ sig, fetch_spec_signature w (default (sgn_detached_signature_url (spec_signing s)) (w_env w "CREG_SPEC_SIGNATURE_URL")) = Ok sig ∧
         verify_signature s sig pinned = Ok tt.
Proof.
  unfold check_signature. intros H Hp Hz%not_all_zero. rewrite Hp in H. cbn [default from_option id] in H. 
  change (default _ (Some pinned)) with pinned in H. rewrite Hz in H.
  apply bind_Ok in H as (sig & Hs & Hv%map_err_Ok). eauto.
Qed.

(** C32. A node that starts with a specification runs it: its version is the known one, its chain is the
    one that the operator asked for, the L1 endpoint is on the chain it names, its configuration
    is the loaded one with the specification applied, the addresses of the contracts that result
    have code, and with a key pinned in the binary the signature verifies under that key. *)
Theorem booted_spec_checked (w : World) (c : NodeConfig) (s : ChainSpec) :
  boot w = Ok c → boot_spec w = Ok (Some s) →
  c = apply_chain_spec (w_env w) s (load_config w) ∧ spec_version s = CURRENT_SPEC_VERSION ∧
  (∀ id, w_env w "CREG_CHAIN_ID" = Some id → id = spec_chain_id s ∧ (id ≠ "" → nc_chain_id c = id)) ∧
  observed_chain_id w (nc_eth_rpc_url c) = Ok (l1c_chain_id (spec_l1 s)) ∧
  validate_contract_addresses w c = Ok tt ∧
  (∀ pinned, w_pinned_pubkey w = Some pinned → (∃ ch, ch ∈ of_str pinned ∧ ch ≠ "0"%char) →
     ∃ sig, verify_signature s sig pinned = Ok tt).
Proof.
  intros (so & Hs & Hc & _ & -> & Hv & _)%boot_Ok Hs'. rewrite Hs in Hs'. injection Hs' as ->.
  apply check_spec_Ok in Hc as (Hsig & Hver & Hid & _ & Hl1). split; [done|]. split; [done|]. split; [|split; [done|split; [done|]]].
  - intros id He. pose proof (Hid id He) as Hi. split; [done|]. intros Hne.
    assert (nc_chain_id (load_config w) = id) as Hn.
    { unfold load_config, load. destruct (provider_from_env (w_env w)); cbn; unfold env_default; by rewrite He. }
    cbn. rewrite Hn. by destruct id.
  - intros pinned Hp Hz. destruct (check_signature_Ok w s pinned Hsig Hp Hz) as (sig & _ & Hok). eauto.
Qed.

(** ** The pinned genesis hash *)

Lemma load_chain_id (w : World) : nc_chain_id (load_config w) = default "" (w_env w "CREG_CHAIN_ID").
Proof. unfold load_config, load. by destruct (provider_from_env (w_env w)). Qed.

(** The canonical text of a payload is an object. *)
Lemma payload_text (s : ChainSpec) : ∃ r, to_jcs_canonical_json (to_value (genesis_payload s)) = String "{" r.
Proof. by eexists. Qed.

Context (hex_lower : ∀ b, hex_text (hex_encode b) = true ∧ to_ascii_lowercase (hex_encode b) = hex_encode b).

(** CREG_GENESIS_HASH is compared twice, with the genesis hash of the specification and with the
    hash of the identity of the network, which are hashes of different texts: a node that has a
    specification and this pin never starts, short of a collision of SHA-256. *)
Theorem pinned_genesis_never_boots (w : World) (s : ChainSpec) (h : string) :
  boot_spec w = Ok (Some s) → w_env w "CREG_GENESIS_HASH" = Some h →
  starts_with "{" (trim (default "" (w_env w "CREG_CHAIN_ID"))) = false →
  (∃ e, boot w = Err e) ∨ collision.
Proof.
  intros Hs Hh Hb. destruct (boot w) as [c|e] eqn:Hboot; [right|left; eauto].
  apply boot_Ok in Hboot as (so & Hs' & Hc & Hk & _). rewrite Hs in Hs'. injection Hs' as <-.
  apply check_spec_Ok in Hc as (_ & _ & _ & Hg & _). specialize (Hg h Hh).
  unfold check_config in Hk. rewrite !then_Ok in Hk. destruct Hk as (_ & _ & _ & _ & _ & Hk).
  apply bind_Ok in Hk as (computed & Hk%map_err_Ok & _). unfold validate_genesis_hash in Hk. rewrite Hh in Hk.
  unfold validate_genesis_hash_value in Hk. set (t := to_jcs_canonical_json (to_value (genesis_payload s))) in *.
  destruct (hex_lower (sha256 t)) as [Hx Hlow].
  assert (trim h = h) as Ht.
  { apply plain_trim. subst h. change (plain_text ("0x" +:+ hex_encode (sha256 t)) = true). rewrite plain_text_app. apply hex_plain in Hx.
    unfold plain_text at 2. by rewrite Hx. }
  rewrite Ht in Hk. assert (is_empty h = false) as He by by subst h. rewrite He in Hk.
  assert (trim_0x h = hex_encode (sha256 t)) as H0 by (subst h; by apply trim_0x_prefixed).
  rewrite H0, Hlow in Hk. destruct (String.eqb_spec (hex_encode (sha256 t)) (compute_network_identity_hash (load_config w))) as [Heq|]; [|done].
  exists t, (identity_text (load_config w)). split; [|exact Heq]. intros Htext.
  destruct (payload_text s) as [r Hr]. fold t in Hr. rewrite Hr in Htext. unfold identity_text in Htext. rewrite load_chain_id in Htext.
  destruct (trim (default "" (w_env w "CREG_CHAIN_ID"))) as [|ch rest]; [done|]. rewrite app_cons_str in Htext. injection Htext as Hch _. by rewrite <- Hch in Hb.
Qed.
End Boot.

(** ** What is not checked *)
Section Unchecked.
Context `{CR : !Crypto}.

(** The world in which the specification, wherever it comes from, reads as [s]. *)
Definition with_spec (w : World) (s : ChainSpec) : World := {|
  w_env := w_env w; w_uuid := w_uuid w; w_pinned_pubkey := w_pinned_pubkey w; w_parse_spec := λ _, Some s;
  w_parse_set := w_parse_set w; w_vault_get := w_vault_get w; w_fetch := w_fetch w; w_cache_file := w_cache_file w;
  w_cache_writable := w_cache_writable w; w_signature := w_signature w; w_chain_id := w_chain_id w; w_code := w_code w;
  w_header_value := w_header_value w; w_method_ok := w_method_ok w; w_dev_bypass := w_dev_bypass w; w_isolated := w_isolated w;
  w_lock := w_lock w; w_lock_writable := w_lock_writable w; w_signalled := w_signalled w; w_pid := w_pid w |}.

Lemma boot_spec_with (w : World) (s s' : ChainSpec) (so : option ChainSpec) :
  boot_spec (with_spec w s) = Ok so →
  (so = None ∧ boot_spec (with_spec w s') = Ok None) ∨ (so = Some s ∧ boot_spec (with_spec w s') = Ok (Some s')).
Proof.
  unfold boot_spec. cbn [w_env with_spec].
  assert (H : ∀ url off,
    ((resolve_chain_spec (with_spec w s) url off).1 = Ok s ∧ (resolve_chain_spec (with_spec w s') url off).1 = Ok s') ∨
    (∃ e, (resolve_chain_spec (with_spec w s) url off).1 = Err e ∧ (resolve_chain_spec (with_spec w s') url off).1 = Err e)).
  { intros url off. unfold resolve_chain_spec, cached_spec. cbn [w_fetch w_cache_file with_spec].
    destruct (if off then None else url) as [u|]; [destruct (fetch_with_retry (w_fetch w u) 3 1)|];
      try destruct (w_cache_file w) as [[t|]|]; cbn; eauto. }
  destruct (H (w_env w "CREG_CHAIN_SPEC_URL") (env_is (w_env w) "CREG_CHAIN_SPEC_OFFLINE" "true")) as [[-> ->]|(e & -> & ->)].
  - intros [= <-]. by right.
  - destruct (w_env w "CREG_CHAIN_SPEC_URL"); [done|]. intros [= <-]. by left.
Qed.

Lemma boots_with (w : World) (s s' : ChainSpec) (c : NodeConfig) :
  w_pinned_pubkey w = None → w_env w "CREG_GENESIS_HASH" = None →
  spec_version s = spec_version s' → spec_chain_id s = spec_chain_id s' → l1c_chain_id (spec_l1 s) = l1c_chain_id (spec_l1 s') →
  spec_contracts s = spec_contracts s' →
  boot (with_spec w s) = Ok c → is_ok (boot (with_spec w s')) = true.
Proof.
  intros Hp Hg Hv Hi Hl Hc (so & Hs & Hcheck & Hk & -> & Ha & Hlock)%boot_Ok. apply is_ok_Ok.
  destruct (boot_spec_with w s s' so Hs) as [[-> Hs']|[-> Hs']].
  - exists (configured (with_spec w s') None). apply boot_Ok. exists None. by repeat split.
  - exists (configured (with_spec w s') (Some s')). apply boot_Ok. exists (Some s'). split; [done|].
    split; [|split; [done|split; [done|split; [|done]]]].
    + apply check_spec_Ok in Hcheck as (_ & Hver & Hid & _ & Hl1). apply check_spec_Ok.
      split; [unfold check_signature; cbn [w_pinned_pubkey with_spec]; by rewrite Hp|]. rewrite <- Hv, <- Hi, <- Hl.
      split; [done|]. split; [done|]. split; [|done]. intros h Hh. cbn in Hh. congruence.
    + revert Ha. unfold validate_contract_addresses, configured_contracts, configured. cbn [apply_chain_spec nc_registry_addr nc_governance_addr nc_token_addr nc_staking_addr].
      unfold contract. by rewrite Hc.
Qed.

(** In a build without a pinned key and without a pinned hash the outcome of the start depends on
    the version, the chain, the chain of L1 and the contracts of the specification only: the
    validators with their keys, the intervals, the boot nodes and the embedded genesis hash may be
    anything, because the configuration is validated before the specification is applied to it. *)
Theorem spec_values_unchecked (w : World) (s s' : ChainSpec) :
  w_pinned_pubkey w = None → w_env w "CREG_GENESIS_HASH" = None →
  spec_version s = spec_version s' → spec_chain_id s = spec_chain_id s' → l1c_chain_id (spec_l1 s) = l1c_chain_id (spec_l1 s') →
  spec_contracts s = spec_contracts s' →
  is_ok (boot (with_spec w s)) = is_ok (boot (with_spec w s')).
Proof.
  intros Hp Hg Hv Hi Hl Hc.
  assert (Hd : ∀ r r' : result BootError NodeConfig, (∀ c, r = Ok c → is_ok r' = true) → (∀ c, r' = Ok c → is_ok r = true) → is_ok r = is_ok r').
  { intros [a|e] [b|e'] H1 H2; try done; [by rewrite (H1 a eq_refl)|by rewrite (H2 b eq_refl)]. }
  apply Hd; intros c Hb; eapply boots_with; try exact Hb; auto.
Qed.
End Unchecked.

(** ** Witnesses *)
Module BootWitness.
Import Toy SpecWitness.

Lemma toy_lower (b : string) : hex_text (hex_encode b) = true ∧ to_ascii_lowercase (hex_encode b) = hex_encode b.
Proof.
  split; [apply toy_hex|]. change (to_ascii_lowercase (Toy.encode b) = Toy.encode b).
  induction b as [|c b IH]; [done|]. cbn [Toy.encode to_ascii_lowercase]. rewrite IH. by destruct c as [[] [] [] [] [] [] [] []].
Qed.

Definition env1 (k : string) : option string :=
  if String.eqb k "CREG_TESTNET" then Some "true" else if String.eqb k "CREG_CHAIN_SPEC_URL" then Some "https://spec" else None.

Definition code1 : Value := VObject [("result", VString "0x60")].

Definition w1 : World := {|
  w_env := env1; w_uuid := "n"; w_pinned_pubkey := None; w_parse_spec := λ _, Some (spec0 Testnet);
  w_parse_set := λ _, None; w_vault_get := λ _ _, None;
  w_fetch := λ _ i, if (i =? 2)%nat then Some {| ha_success := true; ha_text := Some "text" |} else None;
  w_cache_file := None; w_cache_writable := true; w_signature := λ _, None;
  w_chain_id := λ _, Some (VObject [("result", VString "0xaa36a7")]); w_code := λ _ _, Some code1;
  w_header_value := λ _, true; w_method_ok := λ _, true; w_dev_bypass := false; w_isolated := false;
  w_lock := NoLock; w_lock_writable := true; w_signalled := λ _, false; w_pid := 7 |}.

Definition c1 : NodeConfig := apply_chain_spec env1 (spec0 Testnet) (load_config w1).

Example boots1 : boot w1 = Ok c1.
Proof. by vm_compute. Qed.

(** The node of the specification has no active validator. *)
Example no_validator1 : vset_len (vset_from (nc_validator_set c1)) = 0.
Proof. by vm_compute. Qed.

Lemma booted_spec_checked_witness :
  spec_version (spec0 Testnet) = CURRENT_SPEC_VERSION ∧ validate_contract_addresses w1 c1 = Ok tt.
Proof.
  destruct (booted_spec_checked w1 c1 (spec0 Testnet)) as (_ & Hv & _ & _ & Ha & _); [by vm_compute|by vm_compute|].
  split; [exact Hv|exact Ha].
Defined.

Definition pinned_env (k : string) : option string :=
  if String.eqb k "CREG_GENESIS_HASH" then Some (compute_genesis_hash (spec0 Testnet)) else env1 k.

Definition w2 : World := {|
  w_env := pinned_env; w_uuid := "n"; w_pinned_pubkey := None; w_parse_spec := w_parse_spec w1;
  w_parse_set := w_parse_set w1; w_vault_get := w_vault_get w1; w_fetch := w_fetch w1; w_cache_file := None;
  w_cache_writable := true; w_signature := w_signature w1; w_chain_id := w_chain_id w1; w_code := w_code w1;
  w_header_value := λ _, true; w_method_ok := λ _, true; w_dev_bypass := false; w_isolated := false;
  w_lock := NoLock; w_lock_writable := true; w_signalled := λ _, false; w_pid := 7 |}.

Lemma pinned_genesis_never_boots_witness : (∃ e, boot w2 = Err e) ∨ collision.
Proof.
  apply (pinned_genesis_never_boots toy_lower w2 (spec0 Testnet) (compute_genesis_hash (spec0 Testnet))); by vm_compute.
Defined.

(** A specification with an interval of zero and a validator without a key. *)
Definition bad_params : ConsensusParams := {|
  cpr_block_time_seconds := 0; cpr_vote_timeout_ms := 0; cpr_quorum_percentage := 0;
  cpr_min_validator_stake_wei := ""; cpr_min_publisher_stake_wei := ""; cpr_unbonding_period_seconds := 0;
  cpr_slash_penalty_low_bp := 0; cpr_slash_penalty_medium_bp := 0; cpr_slash_penalty_critical_bp := 0; cpr_max_validators := 0 |}.

Definition bad_spec : ChainSpec := {|
  spec_version := 1; spec_chain_id := "creg-testnet-1"; spec_network := Mainnet; spec_phase := GA;
  spec_genesis_time := ""; spec_genesis_hash := "0xdead"; spec_consensus_params := bad_params; spec_feature_flags := flags0;
  spec_l1 := spec_l1 (spec0 Testnet); spec_contracts := spec_contracts (spec0 Testnet); spec_bootnodes := [];
  spec_validator_set := {| vss_version := 0; vss_last_updated := ""; vss_epoch_block_height := 0;
    vss_validators := [{| vse_id := "v"; vse_alias := ""; vse_pubkey := ""; vse_eth_address := ""; vse_stake := 0; vse_reputation := 0; vse_status := "" |}] |};
  spec_services := spec_services (spec0 Testnet); spec_support := spec_support (spec0 Testnet); spec_signing := spec_signing (spec0 Testnet) |}.

Lemma spec_values_unchecked_witness : is_ok (boot (with_spec w1 (spec0 Testnet))) = is_ok (boot (with_spec w1 bad_spec)).
Proof. apply (spec_values_unchecked w1 (spec0 Testnet) bad_spec); reflexivity. Defined.

(** It starts, with a configuration that the validation would have refused. *)
Example bad_spec_boots :
  ∃ c, boot (with_spec w1 bad_spec) = Ok c ∧ nc_block_interval_secs c = 0%N ∧
       hard_errors (λ _, true) (λ _, true) c = [EntryEmptyKey "v"].
Proof. exists (configured (with_spec w1 bad_spec) (Some bad_spec)). by vm_compute. Qed.

Definition bad_cors : CorsConfig := {| allowed_origins := []; allowed_methods := ["GE T"]; allow_credentials := false |}.
Definition no_space (s : string) : bool := negb (str_contains " " s).

Lemma cors_layer_exact_witness : build_cors_layer (λ _, true) no_space bad_cors = None.
Proof. apply (proj2 (cors_layer_exact (λ _, true) no_space bad_cors eq_refl)). left. exists "GE T". split; [by left|by vm_compute]. Defined.

Definition c2 : NodeConfig := with_keys (load_config w1) (Some "12") None.

Lemma hard_errors_exact_witness : hard_errors (λ _, true) (λ _, true) c2 ≠ [].
Proof.
  intros H. apply (hard_errors_exact (λ _, true) (λ _, true) c2) in H; [|by vm_compute|by vm_compute].
  destruct H as (_ & Hk & _). destruct (Hk "12" (or_introl eq_refl)) as (b & Hb & Hl). vm_compute in Hb. injection Hb as <-. discriminate Hl.
Defined.

Definition relaxed_env (k : string) : option string :=
  if String.eqb k "CREG_PBFT_ALLOW_SMALL_CLUSTER_QUORUM" then Some "1" else None.

Lemma relaxed_quorum_passes_guard_witness :
  allow_small_cluster_quorum (default_config relaxed_env) = true ∧
  SmallQuorumInProduction ∉ validate_production_security relaxed_env c1.
Proof.
  apply (relaxed_quorum_passes_guard relaxed_env c1 "1"); [reflexivity|discriminate|]. by left.
Defined.

Definition validator1 (id pubkey : string) : Validator := {|
  val_id := id; val_alias := ""; val_pubkey := pubkey; val_eth_address := ""; val_stake := 0; val_reputation := 0; val_status := "online" |}.

Definition with_validators (c : NodeConfig) (l : list Validator) : NodeConfig := {|
  nc_chain_id := nc_chain_id c; nc_listen_addr := nc_listen_addr c; nc_data_dir := nc_data_dir c;
  nc_p2p_listen := nc_p2p_listen c; nc_p2p_seeds := nc_p2p_seeds c; nc_eth_rpc_url := nc_eth_rpc_url c;
  nc_registry_addr := nc_registry_addr c; nc_governance_addr := nc_governance_addr c; nc_token_addr := nc_token_addr c;
  nc_staking_addr := nc_staking_addr c; nc_node_id := nc_node_id c; nc_validator_privkey := nc_validator_privkey c;
  nc_bridge_privkey := nc_bridge_privkey c; nc_is_validator := nc_is_validator c; nc_peers := nc_peers c;
  nc_block_interval_secs := nc_block_interval_secs c; nc_vote_timeout_secs := nc_vote_timeout_secs c;
  nc_ipfs_url := nc_ipfs_url c; nc_pg_url := nc_pg_url c; nc_validator_set := {| validators := l |}; nc_mode := nc_mode c;
  nc_pruning := nc_pruning c; nc_max_peers := nc_max_peers c; nc_cors := nc_cors c; nc_is_testnet := nc_is_testnet c |}.

Lemma identity_order_free_witness :
  compute_network_identity_hash (with_validators c1 [validator1 "a" "01"; validator1 "b" "02"])
  = compute_network_identity_hash (with_validators c1 [validator1 "b" "02"; validator1 "a" "01"]).
Proof.
  apply (identity_order_free (with_validators c1 [validator1 "a" "01"; validator1 "b" "02"])
           (with_validators c1 [validator1 "b" "02"; validator1 "a" "01"])).
  - do 5 (split; [reflexivity|]). apply Permutation_swap.
  - apply (bool_decide_eq_true_1 _). by vm_compute.
Defined.

Lemma identity_ambiguous_witness :
  compute_network_identity_hash (with_validators c1 [validator1 "a" "01"; validator1 "b" "02"])
  = compute_network_identity_hash (with_validators c1 [validator1 "a:01|b" "02"]).
Proof.
  apply (identity_ambiguous (with_validators c1 [validator1 "a" "01"; validator1 "b" "02"])
           (with_validators c1 [validator1 "a:01|b" "02"]) (validator1 "a" "01") (validator1 "b" "02") (validator1 "a:01|b" "02"));
    reflexivity.
Defined.

Lemma lock_excludes_witness :
  acquire (λ _, true) true 9 (LockText "7") = (LockText "7", Err (LockHeld 7)).
Proof. apply (lock_excludes (λ _, true) 7 9 NoLock (LockText "7") true); by vm_compute. Defined.

Lemma lock_lost_to_other_user_witness :
  acquire (λ _, false) true 8 (LockText "7") = (LockText "8", Ok tt).
Proof.
  refine (proj1 (lock_lost_to_other_user (λ _, true) (λ _, false) (λ _, true) 7 8 9 (LockText "7") _ _ _)); by vm_compute.
Defined.

Lemma resolve_exact_witness : resolve_chain_spec w1 (Some "https://spec") true = (Err NoChainSpec, None).
Proof. refine (proj1 (resolve_exact w1 "https://spec" true) _). by left. Defined.

End BootWitness.
