(* ===== verification/GossipLimit.v ===== *)
(** The limiter of gossip messages (crates/node/src/p2p_rate_limit.rs) and the gate in front of the
    handlers of p2p.rs.

    Instants and durations are nanoseconds.  Tokens are the doubles of [Float].  A peer is known by the text of its
    identifier.  A counter of violations that reaches 2^32, after as many bans, is not modelled. *)

From S2P Require Import Prelude Text Float.
From Stdlib Require Import ZArith SpecFloat.

Definition nanos_per_second : Z := 10 ^ 9.

(** [Duration::as_secs_f64] *)
Definition as_secs_f64 (d : Z) : f64 := fadd (f_of (d / nanos_per_second)) (fdiv (f_of (d mod nanos_per_second)) (f_of nanos_per_second)).

(** ** Buckets *)

Record P2PRateLimitConfig := {
  p2p_vote_limit : N; p2p_block_limit : N; p2p_general_limit : N; p2p_window : Z; p2p_ban_duration : Z;
}.

Definition default_p2p_config : P2PRateLimitConfig := {|
  p2p_vote_limit := 30; p2p_block_limit := 10; p2p_general_limit := 100;
  p2p_window := 60 * nanos_per_second; p2p_ban_duration := 300 * nanos_per_second |}.

Record TokenBucket := { tokens : f64; last_updated : Z }.

Definition bucket_new (now : Z) : TokenBucket := {| tokens := f_of (-1); last_updated := now |}.

(** [duration_since] is zero for an instant in the future. *)
Definition duration_since (now past : Z) : Z := Z.max 0 (now - past).

(** The tokens before one is taken, [elapsed] after the last update. *)
Definition refilled (limit : N) (window elapsed : Z) (multiplier t : f64) : f64 :=
  let max_capacity := fmul (f_of (Z.of_N limit)) multiplier in
  let refill_rate := fdiv (f_of (Z.of_N limit)) (as_secs_f64 window) in
  let refill_tokens := fmul (fmul (as_secs_f64 elapsed) refill_rate) multiplier in
  fmin (fadd t refill_tokens) max_capacity.

Definition check_and_consume (now : Z) (limit : N) (window : Z) (multiplier : f64) (b : TokenBucket) : TokenBucket * bool :=
  let max_capacity := fmul (f_of (Z.of_N limit)) multiplier in
  let b := if SFltb (tokens b) (f_of 0) then {| tokens := max_capacity; last_updated := now |} else b in
  let elapsed := duration_since now (last_updated b) in
  let t := refilled limit window elapsed multiplier (tokens b) in
  if SFleb (f_of 1) t then ({| tokens := fsub t (f_of 1); last_updated := now |}, true)
  else ({| tokens := t; last_updated := now |}, false).

Record PeerBucket := {
  vote_bucket : TokenBucket; block_bucket : TokenBucket; general_bucket : TokenBucket;
  banned_until : option Z; violation_count : N;
}.

Definition peer_new (now : Z) : PeerBucket := {|
  vote_bucket := bucket_new now; block_bucket := bucket_new now; general_bucket := bucket_new now;
  banned_until := None; violation_count := 0 |}.

Definition bucket_banned (now : Z) (b : PeerBucket) : bool :=
  match banned_until b with Some until => (now <? until)%Z | None => false end.

Definition emptied (b : TokenBucket) : TokenBucket := {| tokens := f_of 0; last_updated := last_updated b |}.

Definition bucket_ban (now duration : Z) (b : PeerBucket) : PeerBucket := {|
  vote_bucket := emptied (vote_bucket b); block_bucket := emptied (block_bucket b);
  general_bucket := emptied (general_bucket b); banned_until := Some (now + duration)%Z;
  violation_count := violation_count b + 1 |}.

(** ** The limiter *)

Record P2PRateLimiter := { p2p_peers : gmap string PeerBucket; p2p_config : P2PRateLimitConfig }.

Definition p2p_new (config : P2PRateLimitConfig) : P2PRateLimiter := {| p2p_peers := ∅; p2p_config := config |}.

Definition set_peer (l : P2PRateLimiter) (peer : string) (b : PeerBucket) : P2PRateLimiter :=
  {| p2p_peers := <[peer := b]> (p2p_peers l); p2p_config := p2p_config l |}.

(** [entry(peer).or_insert_with(PeerBucket::new)] *)
Definition peer_entry (now : Z) (l : P2PRateLimiter) (peer : string) : PeerBucket := default (peer_new now) (p2p_peers l !! peer).

Definition get_multiplier (peer : string) (vals : list (string * N)) : f64 * bool :=
  match head (filter (λ v, v.1 = peer) vals) with
  | Some (_, stake) => (fmax (fdiv (f_of (Z.of_N stake)) (f_of 100)) (f_of 5), true)
  | None => (f_of 1, false)
  end.

Inductive MessageKind := VoteMessage | BlockMessage | GeneralMessage.

Definition limit_of (k : MessageKind) (c : P2PRateLimitConfig) : N :=
  match k with VoteMessage => p2p_vote_limit c | BlockMessage => p2p_block_limit c | GeneralMessage => p2p_general_limit c end.

Definition bucket_of (k : MessageKind) (b : PeerBucket) : TokenBucket :=
  match k with VoteMessage => vote_bucket b | BlockMessage => block_bucket b | GeneralMessage => general_bucket b end.

Definition set_bucket (k : MessageKind) (t : TokenBucket) (b : PeerBucket) : PeerBucket := {|
  vote_bucket := match k with VoteMessage => t | _ => vote_bucket b end;
  block_bucket := match k with BlockMessage => t | _ => block_bucket b end;
  general_bucket := match k with GeneralMessage => t | _ => general_bucket b end;
  banned_until := banned_until b; violation_count := violation_count b |}.

(** What the three checks do to the entry of the peer. *)
Definition check_bucket (k : MessageKind) (now : Z) (c : P2PRateLimitConfig) (mult : f64 * bool) (b : PeerBucket) : PeerBucket * bool :=
  if bucket_banned now b then (b, false)
  else
    let '(multiplier, is_validator) := mult in
    let '(t, allowed) := check_and_consume now (limit_of k c) (p2p_window c) multiplier (bucket_of k b) in
    let b := set_bucket k t b in
    if negb allowed && negb is_validator
    then (bucket_ban now (p2p_ban_duration c * Z.of_N (violation_count b + 1))%Z b, allowed)
    else (b, allowed).

Definition check (k : MessageKind) (now : Z) (l : P2PRateLimiter) (peer : string) (vals : list (string * N)) : P2PRateLimiter * bool :=
  let '(b, allowed) := check_bucket k now (p2p_config l) (get_multiplier peer vals) (peer_entry now l peer) in
  (set_peer l peer b, allowed).

Definition check_vote : Z → P2PRateLimiter → string → list (string * N) → P2PRateLimiter * bool := check VoteMessage.
Definition check_block : Z → P2PRateLimiter → string → list (string * N) → P2PRateLimiter * bool := check BlockMessage.
Definition check_general : Z → P2PRateLimiter → string → list (string * N) → P2PRateLimiter * bool := check GeneralMessage.

Definition p2p_is_banned (now : Z) (l : P2PRateLimiter) (peer : string) : bool :=
  match p2p_peers l !! peer with Some b => bucket_banned now b | None => false end.

Definition get_ban_info (now : Z) (l : P2PRateLimiter) (peer : string) : option (bool * N * option Z) :=
  b ← p2p_peers l !! peer; Some (bucket_banned now b, violation_count b, banned_until b).

Definition ban_peer (now : Z) (l : P2PRateLimiter) (peer : string) (duration : Z) : P2PRateLimiter :=
  set_peer l peer (bucket_ban now duration (peer_entry now l peer)).

Definition lift_ban (b : PeerBucket) : PeerBucket := {|
  vote_bucket := vote_bucket b; block_bucket := block_bucket b; general_bucket := general_bucket b;
  banned_until := None; violation_count := violation_count b |}.

Definition unban_peer (l : P2PRateLimiter) (peer : string) : P2PRateLimiter :=
  {| p2p_peers := alter lift_ban peer (p2p_peers l); p2p_config := p2p_config l |}.

Definition recently_active (now window : Z) (b : PeerBucket) : bool :=
  (duration_since now (last_updated (vote_bucket b)) <? window)%Z
  || (duration_since now (last_updated (block_bucket b)) <? window)%Z
  || (duration_since now (last_updated (general_bucket b)) <? window)%Z.

Definition purge_expired (now : Z) (l : P2PRateLimiter) : P2PRateLimiter :=
  {| p2p_peers := filter (λ kv, recently_active now (p2p_window (p2p_config l)) kv.2 || bucket_banned now kv.2 = true) (p2p_peers l);
     p2p_config := p2p_config l |}.

Record P2PRateLimitStats := { total_peers : nat; banned_peers : nat; total_violations : N }.

Definition get_stats (now : Z) (l : P2PRateLimiter) : P2PRateLimitStats := {|
  total_peers := size (p2p_peers l);
  banned_peers := count (bucket_banned now) (hm_values (p2p_peers l));
  total_violations := foldr (λ b acc, violation_count b + acc)%N 0%N (hm_values (p2p_peers l)) |}.

(** ** The gate of p2p.rs *)

Definition MAX_MESSAGE_BYTES : N := 1024 * 1024.

Definition kind_of_topic (topic : string) : MessageKind :=
  if str_contains "votes" topic then VoteMessage
  else if str_contains "blocks" topic then BlockMessage else GeneralMessage.

(** Whether a message is handed to the handlers; [validators] is [None] when the state of the node is
    locked for writing. *)
Definition gossip_gate (now : Z) (l : P2PRateLimiter) (peer topic : string) (bytes : N) (validators : option (list (string * N)))
    : P2PRateLimiter * bool :=
  let active_validators := default [] validators in
  let '(l, allowed) := check (kind_of_topic topic) now l peer active_validators in
  (l, allowed && negb (MAX_MESSAGE_BYTES <? bytes)%N).

(** ** Histories *)

Inductive LimiterOp :=
| OpMessage (peer topic : string) (bytes : N) (validators : option (list (string * N)))
| OpPurge
| OpBanPeer (peer : string) (duration : Z)
| OpUnbanPeer (peer : string).

Definition limiter_step (now : Z) (l : P2PRateLimiter) (op : LimiterOp) : P2PRateLimiter :=
  match op with
  | OpMessage peer topic bytes vals => (gossip_gate now l peer topic bytes vals).1
  | OpPurge => purge_expired now l
  | OpBanPeer peer duration => ban_peer now l peer duration
  | OpUnbanPeer peer => unban_peer l peer
  end.

Definition limiter_run (l : P2PRateLimiter) (ops : list (Z * LimiterOp)) : P2PRateLimiter :=
  foldl (λ l op, limiter_step op.1 l op.2) l ops.

(** The operations of the operator that concern a peer. *)
Definition op_governs (peer : string) (op : LimiterOp) : bool :=
  match op with OpBanPeer p _ => String.eqb p peer | OpUnbanPeer p => String.eqb p peer | _ => false end.

(** ** One peer at a time *)

Lemma gate_entry (now : Z) (l : P2PRateLimiter) (peer topic : string) (bytes : N) (vals : option (list (string * N))) :
  gossip_gate now l peer topic bytes vals =
  let r := check_bucket (kind_of_topic topic) now (p2p_config l) (get_multiplier peer (default [] vals)) (peer_entry now l peer) in
  (set_peer l peer r.1, r.2 && negb (MAX_MESSAGE_BYTES <? bytes)%N).
Proof. unfold gossip_gate, check. by destruct (check_bucket _ _ _ _ _). Qed.

Lemma step_config (now : Z) (l : P2PRateLimiter) (op : LimiterOp) : p2p_config (limiter_step now l op) = p2p_config l.
Proof. destruct op; cbn [limiter_step]; [by rewrite gate_entry|done..]. Qed.

(** An operation on one peer leaves the entries of the others as they are. *)
Lemma set_peer_other (l : P2PRateLimiter) (p q : string) (b : PeerBucket) :
  p ≠ q → p2p_peers (set_peer l p b) !! q = p2p_peers l !! q.
Proof. intros Hne. cbn. by rewrite lookup_insert_ne. Qed.

Lemma banned_check (k : MessageKind) (now : Z) (c : P2PRateLimitConfig) (mult : f64 * bool) (b : PeerBucket) :
  bucket_banned now b = true → check_bucket k now c mult b = (b, false).
Proof. unfold check_bucket. by intros ->. Qed.

Lemma purge_lookup (now : Z) (l : P2PRateLimiter) (p : string) :
  p2p_peers (purge_expired now l) !! p =
  (b ← p2p_peers l !! p; if recently_active now (p2p_window (p2p_config l)) b || bucket_banned now b then Some b else None).
Proof.
  cbn [purge_expired p2p_peers]. rewrite map_lookup_filter. destruct (p2p_peers l !! p) as [b|]; [|done]. cbn.
  destruct (_ || _) eqn:Hb; by rewrite ?guard_True, ?guard_False by congruence.
Qed.

Lemma ban_step (now until : Z) (l : P2PRateLimiter) (peer : string) (b : PeerBucket) (op : LimiterOp) :
  p2p_peers l !! peer = Some b → banned_until b = Some until → (now < until)%Z → op_governs peer op = false →
  p2p_peers (limiter_step now l op) !! peer = Some b.
Proof.
  intros Hb Hu Hn Hg. assert (Hban : bucket_banned now b = true) by (unfold bucket_banned; rewrite Hu; by apply Z.ltb_lt).
  destruct op as [p topic bytes vals| |p d|p]; cbn [limiter_step].
  - rewrite gate_entry. cbn [fst]. destruct (decide (p = peer)) as [->|Hne]; [|by rewrite set_peer_other].
    unfold peer_entry. rewrite Hb. cbn [default from_option id]. change (default _ (Some b)) with b.
    rewrite banned_check by done. cbn. by rewrite lookup_insert_eq.
  - rewrite purge_lookup, Hb. cbn. by rewrite Hban, orb_true_r.
  - unfold ban_peer. rewrite set_peer_other; [done|]. intros ->. cbn in Hg. by rewrite String.eqb_refl in Hg.
  - unfold unban_peer. cbn [p2p_peers]. rewrite lookup_alter_ne; [done|]. intros ->. cbn in Hg. by rewrite String.eqb_refl in Hg.
Qed.

(** C39. A ban holds: whatever messages of whatever peers arrive before it ends, and however often the
    limiter is purged, as long as the operator does not touch the peer every message of it is
    dropped, and nothing of it is forgotten. *)
Theorem ban_holds (l : P2PRateLimiter) (peer : string) (b : PeerBucket) (until : Z) (ops : list (Z * LimiterOp)) :
  p2p_peers l !! peer = Some b → banned_until b = Some until →
  Forall (λ op, (op.1 < until)%Z ∧ op_governs peer op.2 = false) ops →
  p2p_peers (limiter_run l ops) !! peer = Some b ∧
  ∀ now topic bytes vals, (now < until)%Z → (gossip_gate now (limiter_run l ops) peer topic bytes vals).2 = false.
Proof.
  intros Hb Hu Hops.
  assert (Hr : p2p_peers (limiter_run l ops) !! peer = Some b).
  { revert l Hb. induction Hops as [|[now op] ops [Hn Hg] _ IH]; intros l Hb; [done|]. apply IH. cbn [fst snd] in *.
    by eapply ban_step. }
  split; [done|]. intros now topic bytes vals Hn. rewrite gate_entry. unfold peer_entry. rewrite Hr.
  change (default _ (Some b)) with b. rewrite banned_check; [done|]. unfold bucket_banned. rewrite Hu. by apply Z.ltb_lt.
Qed.

(** ** Validators *)

Lemma listed_multiplier (peer : string) (vals : list (string * N)) :
  peer ∈ vals.*1 → (get_multiplier peer vals).2 = true.
Proof.
  unfold get_multiplier. intros ([p s] & -> & Hv)%list_elem_of_fmap.
  destruct (filter _ vals) as [|[q t] vs] eqn:Hf; [|done]. exfalso.
  assert ((p, s) ∈ filter (λ v, v.1 = p) vals) as Hin by by apply list_elem_of_filter.
  cbn [fst] in Hf. rewrite Hf in Hin. by apply elem_of_nil in Hin.
Qed.

Lemma unlisted_multiplier (peer : string) (vals : list (string * N)) :
  peer ∉ vals.*1 → get_multiplier peer vals = (f_of 1, false).
Proof.
  unfold get_multiplier. intros Hv. destruct (filter _ vals) as [|[q t] vs] eqn:Hf; [done|]. exfalso. apply Hv.
  assert ((q, t) ∈ filter (λ v, v.1 = peer) vals) as [<- Hin]%list_elem_of_filter by (rewrite Hf; by left).
  apply list_elem_of_fmap. by exists (q, t).
Qed.

(** A message of the peer that arrives while the validators are known and the peer is one of them. *)
Definition as_validator (peer : string) (op : LimiterOp) : Prop :=
  match op with OpMessage p _ _ vals => p = peer → ∃ vs, vals = Some vs ∧ peer ∈ vs.*1 | _ => True end.

Definition never_banned (l : P2PRateLimiter) (peer : string) : Prop :=
  ∀ b, p2p_peers l !! peer = Some b → banned_until b = None ∧ violation_count b = 0%N.

Lemma exempt_step (now : Z) (l : P2PRateLimiter) (peer : string) (op : LimiterOp) :
  never_banned l peer → as_validator peer op → op_governs peer op = false → never_banned (limiter_step now l op) peer.
Proof.
  intros Hn Hv Hg. destruct op as [p topic bytes vals| |p d|p]; cbn [limiter_step].
  - rewrite gate_entry. cbn [fst]. destruct (decide (p = peer)) as [->|Hne]; [|intros b; rewrite set_peer_other by done; apply Hn].
    destruct (Hv eq_refl) as (vs & -> & Hin). cbn [default]. change (default [] (Some vs)) with vs.
    pose proof (listed_multiplier peer vs Hin) as Hm.
    intros b Hb. cbn in Hb. rewrite lookup_insert_eq in Hb. injection Hb as <-.
    assert (He : banned_until (peer_entry now l peer) = None ∧ violation_count (peer_entry now l peer) = 0%N).
    { unfold peer_entry. destruct (p2p_peers l !! peer) as [b|] eqn:Hl; [by apply Hn|done]. }
    unfold check_bucket. destruct (bucket_banned now (peer_entry now l peer)); [done|].
    destruct (get_multiplier peer vs) as [m v]. cbn in Hm. subst v.
    destruct (check_and_consume _ _ _ _ _) as [t a]. rewrite andb_false_r. exact He.
  - intros b. rewrite purge_lookup. destruct (p2p_peers l !! peer) as [b'|] eqn:Hl; [|done]. cbn.
    destruct (_ || _); [|done]. intros [= <-]. by apply Hn.
  - unfold ban_peer. intros b. rewrite set_peer_other; [apply Hn|]. intros ->. cbn in Hg. by rewrite String.eqb_refl in Hg.
  - unfold unban_peer. intros b. cbn [p2p_peers]. rewrite lookup_alter_ne; [apply Hn|]. intros ->. cbn in Hg. by rewrite String.eqb_refl in Hg.
Qed.

(** A peer that is listed as a validator with every message it sends is never banned, however much
    it sends; only the operator can ban it. *)
Theorem validators_exempt (c : P2PRateLimitConfig) (peer : string) (ops : list (Z * LimiterOp)) (now : Z) :
  Forall (λ op, as_validator peer op.2 ∧ op_governs peer op.2 = false) ops →
  p2p_is_banned now (limiter_run (p2p_new c) ops) peer = false.
Proof.
  intros Hops. assert (Hr : never_banned (limiter_run (p2p_new c) ops) peer).
  { assert (never_banned (p2p_new c) peer) as H0 by (intros b Hb; cbn in Hb; by rewrite lookup_empty in Hb).
    revert H0. generalize (p2p_new c). induction Hops as [|[t op] ops [Hv Hg] _ IH]; intros l Hl; [done|].
    apply IH. by apply exempt_step. }
  unfold p2p_is_banned, bucket_banned. destruct (p2p_peers _ !! peer) as [b|] eqn:Hb; [|done].
  destruct (Hr b Hb) as [-> _]. done.
Qed.

(** ** Bursts *)

(** [n] messages of a peer at one instant. *)
Fixpoint burst (n : nat) (now : Z) (l : P2PRateLimiter) (peer topic : string) (bytes : N) (vals : option (list (string * N)))
    : P2PRateLimiter * list bool :=
  match n with
  | O => (l, [])
  | S n' =>
      let '(l, a) := gossip_gate now l peer topic bytes vals in
      let '(l, r) := burst n' now l peer topic bytes vals in (l, a :: r)
  end.

(** The tokens of a bucket as messages arrive at one instant, until one is refused. *)
Fixpoint drain (n : nat) (limit : N) (window : Z) (t : f64) : list bool * f64 :=
  match n with
  | O => ([], t)
  | S n' =>
      let t := refilled limit window 0 (f_of 1) t in
      if SFleb (f_of 1) t then let '(r, t') := drain n' limit window (fsub t (f_of 1)) in (true :: r, t') else ([false], t)
  end.

(** No token is ever negative on the way. *)
Fixpoint drain_ok (n : nat) (limit : N) (window : Z) (t : f64) : bool :=
  negb (SFltb t (f_of 0)) &&
  match n with
  | O => true
  | S n' =>
      let t := refilled limit window 0 (f_of 1) t in
      if SFleb (f_of 1) t then drain_ok n' limit window (fsub t (f_of 1)) else (n' =? 0)%nat
  end.

Section Bursts.
Context (c : P2PRateLimitConfig) (peer topic : string) (bytes : N) (vals : option (list (string * N))).
Context (Hvals : peer ∉ (default [] vals).*1) (Hbytes : (bytes ≤ MAX_MESSAGE_BYTES)%N).

Let k : MessageKind := kind_of_topic topic.

Lemma bucket_set_same (t : TokenBucket) (b : PeerBucket) : bucket_of k (set_bucket k t b) = t.
Proof. by destruct k. Qed.

Lemma gate_consumes (now : Z) (l : P2PRateLimiter) (b : PeerBucket) (t : f64) :
  p2p_config l = c → p2p_peers l !! peer = Some b → bucket_banned now b = false → SFltb (tokens (bucket_of k b)) (f_of 0) = false →
  t = refilled (limit_of k c) (p2p_window c) (duration_since now (last_updated (bucket_of k b))) (f_of 1) (tokens (bucket_of k b)) →
  gossip_gate now l peer topic bytes vals =
  if SFleb (f_of 1) t
  then (set_peer l peer (set_bucket k {| tokens := fsub t (f_of 1); last_updated := now |} b), true)
  else (set_peer l peer (bucket_ban now (p2p_ban_duration c * Z.of_N (violation_count b + 1))%Z
          (set_bucket k {| tokens := t; last_updated := now |} b)), false).
Proof.
  intros Hc Hb Hban Ht0 ->. rewrite gate_entry. unfold peer_entry. rewrite Hb, unlisted_multiplier, Hc by done.
  change (default _ (Some b)) with b. fold k. unfold check_bucket. rewrite Hban. unfold check_and_consume. rewrite Ht0.
  assert ((MAX_MESSAGE_BYTES <? bytes)%N = false) as -> by (apply N.ltb_ge; done).
  by destruct (SFleb (f_of 1) _).
Qed.

Lemma set_peer_twice (l : P2PRateLimiter) (b1 b2 : PeerBucket) : set_peer (set_peer l peer b1) peer b2 = set_peer l peer b2.
Proof. unfold set_peer. cbn. by rewrite insert_insert_eq. Qed.

Lemma set_bucket_twice (t1 t2 : TokenBucket) (b : PeerBucket) : set_bucket k t2 (set_bucket k t1 b) = set_bucket k t2 b.
Proof. by destruct k. Qed.

(** A burst that follows a message at the same instant. *)
Lemma burst_drains (n : nat) (now : Z) (l : P2PRateLimiter) (b : PeerBucket) (r : list bool) (t : f64) :
  p2p_config l = c → p2p_peers l !! peer = Some b → bucket_banned now b = false → last_updated (bucket_of k b) = now →
  drain_ok n (limit_of k c) (p2p_window c) (tokens (bucket_of k b)) = true →
  drain n (limit_of k c) (p2p_window c) (tokens (bucket_of k b)) = (r, t) →
  last r = Some false →
  burst n now l peer topic bytes vals =
  (set_peer l peer (bucket_ban now (p2p_ban_duration c * Z.of_N (violation_count b + 1))%Z
     (set_bucket k {| tokens := t; last_updated := now |} b)), r).
Proof.
  revert l b r t. induction n as [|n IH]; intros l b r t Hc Hb Hban Hu Hok Hd Hr; [by injection Hd as <- <-|].
  cbn [drain drain_ok] in Hok, Hd. apply andb_prop in Hok as [Hneg%negb_true_iff Hok]. cbn [burst].
  rewrite (gate_consumes now l b _ Hc Hb Hban Hneg eq_refl). rewrite Hu. unfold duration_since. rewrite Z.sub_diag. change (Z.max 0 0) with 0%Z.
  destruct (SFleb (f_of 1) _) eqn:Hle.
  - destruct (drain n _ _ (fsub _ _)) as [r' t'] eqn:Hd'. injection Hd as <- <-.
    rewrite (IH _ (set_bucket k {| tokens := fsub (refilled (limit_of k c) (p2p_window c) 0 (f_of 1) (tokens (bucket_of k b))) (f_of 1);
                                    last_updated := now |} b) r' t').
    + by rewrite set_peer_twice, set_bucket_twice.
    + done.
    + cbn. by rewrite lookup_insert_eq.
    + exact Hban.
    + by rewrite bucket_set_same.
    + rewrite bucket_set_same. exact Hok.
    + rewrite bucket_set_same. exact Hd'.
    + destruct r' as [|x r']; [done|]. by rewrite last_cons_cons in Hr.
  - apply Nat.eqb_eq in Hok. subst n. by injection Hd as <- <-.
Qed.
End Bursts.

Definition votes_topic : string := "creg/v1/votes".
Definition ban_time : Z := 300 * nanos_per_second.

(** The entry of a peer that was banned for its votes. *)
Definition flooded (now count : Z) (b : PeerBucket) : PeerBucket :=
  bucket_ban now (ban_time * count)%Z (set_bucket VoteMessage {| tokens := f_of 0; last_updated := now |} b).

Lemma burst_after_first (now : Z) (l : P2PRateLimiter) (b : PeerBucket) (peer : string) (bytes : N) (vals : option (list (string * N))) :
  p2p_config l = default_p2p_config → peer ∉ (default [] vals).*1 → (bytes ≤ MAX_MESSAGE_BYTES)%N → banned_until b = None ∨ (∃ u, banned_until b = Some u ∧ u <= now)%Z →
  burst 30 now (set_peer l peer (set_bucket VoteMessage {| tokens := f_of 29; last_updated := now |} b)) peer votes_topic bytes vals
  = (set_peer l peer (flooded now (Z.of_N (violation_count b + 1)) b), repeat true 29 ++ [false]).
Proof.
  intros Hc Hv Hb Hban.
  rewrite (burst_drains default_p2p_config peer votes_topic bytes vals Hv Hb 30 now _
             (set_bucket VoteMessage {| tokens := f_of 29; last_updated := now |} b) (repeat true 29 ++ [false]) (f_of 0)).
  - rewrite set_peer_twice. reflexivity.
  - exact Hc.
  - cbn. by rewrite lookup_insert_eq.
  - unfold bucket_banned. cbn [banned_until set_bucket]. destruct Hban as [->|(u & -> & Hu)]; [done|]. by apply Z.ltb_ge.
  - done.
  - cbn [bucket_of set_bucket vote_bucket tokens]. by vm_compute.
  - cbn [bucket_of set_bucket vote_bucket tokens]. by vm_compute.
  - done.
Qed.

(** A peer that is not listed as a validator may relay thirty votes in an instant; with the next one
    it is banned for five minutes.  Emptying the buckets at the ban, which is meant to prevent a
    burst after it, changes nothing: the time of the ban fills them again, and when it ends the
    peer has thirty votes at once as before. *)
Theorem vote_flood_repeats (now : Z) (l : P2PRateLimiter) (peer : string) (bytes : N) (vals : option (list (string * N))) :
  p2p_config l = default_p2p_config → p2p_peers l !! peer = None → peer ∉ (default [] vals).*1 → (bytes ≤ MAX_MESSAGE_BYTES)%N →
  let r1 := burst 31 now l peer votes_topic bytes vals in
  let r2 := burst 31 (now + ban_time) r1.1 peer votes_topic bytes vals in
  r1.2 = repeat true 30 ++ [false] ∧ r2.2 = repeat true 30 ++ [false] ∧
  ∀ t, (now <= t < now + ban_time)%Z → p2p_is_banned t r1.1 peer = true.
Proof.
  intros Hc Hn Hv Hb.
  assert (H1 : burst 31 now l peer votes_topic bytes vals = (set_peer l peer (flooded now 1 (peer_new now)), repeat true 30 ++ [false])).
  { change (burst 31) with (λ now l peer topic bytes vals, let '(l, a) := gossip_gate now l peer topic bytes vals in
      let '(l, r) := burst 30 now l peer topic bytes vals in (l, a :: r)). cbv beta.
    rewrite gate_entry. unfold peer_entry. rewrite Hn, Hc, unlisted_multiplier by done. cbn [default].
    assert ((MAX_MESSAGE_BYTES <? bytes)%N = false) as -> by by apply N.ltb_ge.
    assert (Hf : check_bucket (kind_of_topic votes_topic) now default_p2p_config (f_of 1, false) (peer_new now) =
      (set_bucket VoteMessage {| tokens := f_of 29; last_updated := now |} (peer_new now), true)).
    { unfold check_bucket. cbn [bucket_banned banned_until peer_new]. unfold check_and_consume.
      cbn [bucket_of kind_of_topic vote_bucket peer_new bucket_new tokens last_updated].
      change (SFltb (f_of (-1)) (f_of 0)) with true. cbn [tokens last_updated]. unfold duration_since. rewrite Z.sub_diag.
      reflexivity. }
    change (default (peer_new now) None) with (peer_new now). rewrite Hf. cbn [fst snd andb negb].
    rewrite burst_after_first by (try done; by left). reflexivity. }
  cbv zeta. rewrite H1. cbn [fst snd]. split; [done|]. split.
  - set (l1 := set_peer l peer (flooded now 1 (peer_new now))).
    assert (Hl1 : p2p_peers l1 !! peer = Some (flooded now 1 (peer_new now))) by (cbn; by rewrite lookup_insert_eq).
    assert (Hu : bucket_banned (now + ban_time) (flooded now 1 (peer_new now)) = false).
    { unfold bucket_banned. cbn. apply Z.ltb_ge. unfold ban_time. lia. }
    change (burst 31) with (λ now l peer topic bytes vals, let '(l, a) := gossip_gate now l peer topic bytes vals in
      let '(l, r) := burst 30 now l peer topic bytes vals in (l, a :: r)). cbv beta.
    rewrite (gate_consumes default_p2p_config peer votes_topic bytes vals Hv Hb (now + ban_time) l1 _ (f_of 30) Hc Hl1 Hu).
    + change (SFleb (f_of 1) (f_of 30)) with true. cbv iota.
      change (fsub (f_of 30) (f_of 1)) with (f_of 29). change (kind_of_topic votes_topic) with VoteMessage.
      rewrite burst_after_first; [done|exact Hc|done|done|]. right. exists (now + ban_time * 1)%Z. split; [done|lia].
    + done.
    + cbn [bucket_of flooded bucket_ban vote_bucket emptied last_updated set_bucket tokens kind_of_topic].
      assert (duration_since (now + ban_time) now = ban_time) as He by (unfold duration_since, ban_time, nanos_per_second; lia).
      change (kind_of_topic votes_topic) with VoteMessage. cbn [bucket_of flooded bucket_ban vote_bucket emptied last_updated set_bucket tokens].
      rewrite He. by vm_compute.
  - intros t Ht. unfold p2p_is_banned. cbn [p2p_peers set_peer]. rewrite lookup_insert_eq. unfold bucket_banned. cbn.
    apply Z.ltb_lt. unfold ban_time in *. lia.
Qed.

(** The penalties are meant to escalate with the violations of a peer, but the count is forgotten:
    while a peer is banned its buckets are not touched, so a ban at least as long as the window
    makes it inactive, and the first purge after the end of the ban removes it; its next
    violation is its first. *)
Theorem escalation_forgotten (l : P2PRateLimiter) (peer : string) (b : PeerBucket) (until now : Z)
    (ops : list (Z * LimiterOp)) :
  p2p_peers l !! peer = Some b → banned_until b = Some until →
  Forall (λ op, (op.1 < until)%Z ∧ op_governs peer op.2 = false) ops →
  (∀ k, last_updated (bucket_of k b) + p2p_window (p2p_config l) <= until)%Z → (until <= now)%Z →
  p2p_peers (purge_expired now (limiter_run l ops)) !! peer = None.
Proof.
  intros Hb Hu Hops Hw Hn.
  assert (Hr : p2p_peers (limiter_run l ops) !! peer = Some b ∧ p2p_config (limiter_run l ops) = p2p_config l).
  { clear Hw. revert l Hb. induction Hops as [|[t op] ops [Ht Hg] _ IH]; intros l Hb; [done|]. cbn [fst snd] in *.
    destruct (IH (limiter_step t l op)) as [IH1 IH2]; [by eapply ban_step|]. split; [exact IH1|].
    change (limiter_run l ((t, op) :: ops)) with (limiter_run (limiter_step t l op) ops). by rewrite IH2, step_config. }
  destruct Hr as [Hr Hc]. rewrite purge_lookup, Hr, Hc. cbn [mbind option_bind].
  assert (recently_active now (p2p_window (p2p_config l)) b = false) as ->.
  { unfold recently_active, duration_since. pose proof (Hw VoteMessage). pose proof (Hw BlockMessage). pose proof (Hw GeneralMessage).
    cbn [bucket_of] in *. rewrite !orb_false_iff, !Z.ltb_ge. lia. }
  unfold bucket_banned. rewrite Hu. assert ((now <? until)%Z = false) as -> by by apply Z.ltb_ge. done.
Qed.

(** The checks of one peer never look at or change the entry of another. *)
Theorem peers_independent (k : MessageKind) (now : Z) (l : P2PRateLimiter) (p q : string) (vals : list (string * N)) :
  p ≠ q →
  p2p_peers (check k now l p vals).1 !! q = p2p_peers l !! q ∧
  ∀ j t vals', (check j t (check k now l p vals).1 q vals').2 = (check j t l q vals').2.
Proof.
  intros Hne. assert (Hq : p2p_peers (check k now l p vals).1 !! q = p2p_peers l !! q).
  { unfold check. destruct (check_bucket _ _ _ _ _). by apply set_peer_other. }
  split; [exact Hq|]. intros j t vals'.
  assert (He : ∀ l', p2p_config l' = p2p_config l → p2p_peers l' !! q = p2p_peers l !! q →
            (check j t l' q vals').2 = (check j t l q vals').2).
  { intros l' Hc Hl. unfold check, peer_entry. rewrite Hc, Hl. by destruct (check_bucket _ _ _ _ _). }
  apply He; [|exact Hq]. unfold check. by destruct (check_bucket _ _ _ _ _).
Qed.

(** ** Witnesses *)
Module GossipLimitWitness.

Definition l0 : P2PRateLimiter := p2p_new default_p2p_config.
Definition flood0 : P2PRateLimiter * list bool := burst 31 5 l0 "12D3KooW" votes_topic 100 (Some [("core-1", 100%N)]).

Lemma vote_flood_repeats_witness : flood0.2 = repeat true 30 ++ [false].
Proof.
  refine (proj1 (vote_flood_repeats 5 l0 "12D3KooW" 100 (Some [("core-1", 100%N)]) eq_refl eq_refl _ _)); [|by vm_compute].
  apply (bool_decide_eq_true_1 _). by vm_compute.
Defined.

Definition banned0 : PeerBucket := bucket_ban 5 ban_time (peer_new 5).
Definition l1 : P2PRateLimiter := set_peer l0 "p" banned0.
Definition ops0 : list (Z * LimiterOp) := [(6%Z, OpPurge); (7%Z, OpMessage "p" votes_topic 1 None)].

Lemma ops0_before : Forall (λ op, (op.1 < 5 + ban_time)%Z ∧ op_governs "p" op.2 = false) ops0.
Proof. repeat (apply Forall_cons_2; [split; reflexivity|]). apply Forall_nil_2. Qed.

Lemma ban_holds_witness : p2p_peers (limiter_run l1 ops0) !! "p" = Some banned0.
Proof. refine (proj1 (ban_holds l1 "p" banned0 (5 + ban_time) ops0 _ _ _)); [reflexivity|reflexivity|exact ops0_before]. Defined.

Lemma escalation_forgotten_witness :
  p2p_peers (purge_expired (5 + ban_time) (limiter_run l1 ops0)) !! "p" = None.
Proof.
  apply (escalation_forgotten l1 "p" banned0 (5 + ban_time)); [reflexivity|reflexivity|exact ops0_before| |reflexivity].
  intros k. destruct k; vm_compute; discriminate.
Defined.

Definition vote0 : Z * LimiterOp := (9%Z, OpMessage "v" votes_topic 1 (Some [("v", 200%N)])).

(** A hundred and fifty votes are within five times the limit, the next ones are dropped without a ban. *)
Example stake_scaled : (burst 152 9 l0 "v" votes_topic 1 (Some [("v", 200%N)])).2 = repeat true 150 ++ [false; false].
Proof. by vm_compute. Qed.

Lemma validators_exempt_witness : p2p_is_banned 9 (limiter_run l0 (repeat vote0 200)) "v" = false.
Proof.
  apply (validators_exempt default_p2p_config "v" (repeat vote0 200) 9). apply Forall_forall. intros op Hop.
  apply list_elem_of_In, repeat_spec in Hop. subst op. split; [|reflexivity]. intros _. exists [("v", 200%N)]. split; [reflexivity|by left].
Defined.

(** The exemption is lost while the state of the node is locked: the list of validators is empty then. *)
Example locked_state_bans : p2p_is_banned 9 (burst 31 9 l0 "v" votes_topic 1 None).1 "v" = true.
Proof. by vm_compute. Qed.

Lemma peers_independent_witness :
  p2p_peers (check VoteMessage 9 l1 "q" []).1 !! "p" = Some banned0.
Proof. refine (proj1 (peers_independent VoteMessage 9 l1 "q" "p" [] _)). discriminate. Defined.

End GossipLimitWitness.
