(* ===== verification/Relayer.v ===== *)
(** The relayer of sponsored transactions (relayer/src/main.rs).

    A wallet asks for a quote, signs a token permit and an intent, and posts both; the relayer
    validates the pair, takes the wallet's nonce and quota, and pays for the staking call.
    The handler suspends once, while it reads the permit nonce from the node, so it is two
    atomic steps, [sponsor_check] and [sponsor_commit], between which other requests run.
    Integers of 256 bits and addresses are [N]; clocks are past 1970.  Sums of 64 bits wrap, as
    they do in a release build. *)

From S2P Require Import Prelude Text Crypto Threshold Staking Json Registrations.
From Stdlib Require Import Ascii NArith.

(** The text formats of alloy and of serde_json. *)
Class RelayTexts := {
  u256_parse : string → option N;                  (* str::parse::<U256> *)
  u256_text : N → string;                          (* U256::to_string *)
  addr_display : N → string;                       (* Address::to_string *)
  nonces_json : gmap string N → string;            (* serde_json::to_vec_pretty *)
  nonces_of_json : string → option (gmap string N);  (* serde_json::from_slice *)
}.

Class RelayTextsLaws `{Ethereum, RelayTexts} : Prop := {
  u256_parse_lt : ∀ s n, u256_parse s = Some n → (n < u256_size)%N;
  u256_parse_text : ∀ n, (n < u256_size)%N → u256_parse (u256_text n) = Some n;
  u256_parse_dec : ∀ n, (n < u256_size)%N → u256_parse (fmt_N n) = Some n;
  addr_parse_display : ∀ a, addr_parse (addr_display a) = Some a;
  nonces_roundtrip : ∀ m, nonces_of_json (nonces_json m) = Some m;
}.

(** ** Policy *)

Inductive SponsoredActionKind := SponsorPublisher | SponsorValidator.

#[export] Instance SponsoredActionKind_eq_dec : EqDecision SponsoredActionKind.
Proof. solve_decision. Defined.

Definition as_str (k : SponsoredActionKind) : string :=
  match k with SponsorPublisher => "publisher" | SponsorValidator => "validator" end.

Definition as_code (k : SponsoredActionKind) : N :=
  match k with SponsorPublisher => 0 | SponsorValidator => 1 end.

Definition from_code (v : N) : option SponsoredActionKind :=
  if (v =? 0)%N then Some SponsorPublisher else if (v =? 1)%N then Some SponsorValidator else None.

Definition from_key (value : string) : option SponsoredActionKind :=
  let lowered := to_ascii_lowercase value in
  if String.eqb lowered "publisher" then Some SponsorPublisher
  else if String.eqb lowered "validator" then Some SponsorValidator else None.

Lemma from_code_as_code (k : SponsoredActionKind) : from_code (as_code k) = Some k.
Proof. by destruct k. Qed.

Lemma from_key_as_str (k : SponsoredActionKind) : from_key (as_str k) = Some k.
Proof. by destruct k. Qed.

#[export] Instance SponsoredActionKind_countable : Countable SponsoredActionKind.
Proof. exact (inj_countable as_code from_code from_code_as_code). Defined.

Record LoadedActionPolicy := { ap_name : string; ap_selector : string; ap_max_amount_wei : N }.

Record LoadedChainPolicy := {
  cp_id : N;
  cp_label : string;
  cp_enabled : bool;
  cp_daily_wallet_quota : N;
  cp_daily_ip_quota : N;
  cp_max_gas_per_request : N;
  cp_allow_contracts : list N;
  cp_actions : gmap SponsoredActionKind LoadedActionPolicy;
}.

Record LoadedPolicy := {
  lp_mode : string;
  lp_scheme : string;
  lp_domain_name : string;
  lp_domain_version : string;
  lp_nonce_scope : string;
  lp_max_expiry_seconds : N;
  lp_chain : LoadedChainPolicy;
}.

(** The file, after the substitution of the environment's variables. *)
Record RawSelectorPolicy := { rs_key : option string; rs_name : string; rs_selector : string; rs_max_amount_wei : string }.

Record RawChainPolicy := {
  rc_id : N; rc_label : string; rc_enabled : bool;
  rc_daily_wallet_quota : N; rc_daily_ip_quota : N; rc_max_gas_per_request : N;
  rc_allow_contracts : list string; rc_allow_selectors : list RawSelectorPolicy;
}.

Record RawPolicyFile := {
  rp_mode : string; rp_chains : list RawChainPolicy;
  rp_scheme : string; rp_domain_name : string; rp_domain_version : string;
  rp_nonce_scope : string; rp_max_expiry_seconds : N;
}.

(** ** Environment variables in the policy *)

(** [result.push(b as char)]: the code point of that number, in UTF-8. *)
Definition push_char (c : ascii) : string :=
  let n := N_of_ascii c in
  if (n <? 128)%N then String c EmptyString
  else String (byte (192 + n / 64)) (String (byte (128 + n mod 64)) EmptyString).

(** The cursor moves forward in every round, so [String.length input] rounds are enough. *)
Fixpoint substitute_from (fuel : nat) (env : string → option string) (s : string) : string :=
  match fuel with
  | O => EmptyString
  | S fuel' =>
      match s with
      | EmptyString => EmptyString
      | String c s' =>
          let copy := push_char c +:+ substitute_from fuel' env s' in
          match strip_prefix "${" s with
          | Some tail =>
              match find_str "}" tail with
              | Some e =>
                  let name := take_str e tail in
                  default ("${" +:+ name +:+ "}") (env name) +:+ substitute_from fuel' env (drop_str (S e) tail)
              | None => copy
              end
          | None => copy
          end
      end
  end.

Definition substitute_env_placeholders (env : string → option string) (input : string) : string :=
  substitute_from (String.length input) env input.

Fixpoint substitute_env_value (env : string → option string) (v : Value) : Value :=
  match v with
  | VString text => VString (substitute_env_placeholders env text)
  | VArray items => VArray (map (substitute_env_value env) items)
  | VObject m => VObject (map (λ kv, (kv.1, substitute_env_value env kv.2)) m)
  | other => other
  end.

Definition infer_action_kind (name : string) : option SponsoredActionKind :=
  let lowered := to_ascii_lowercase name in
  if str_contains "stakeaspublisherwithpermit" lowered then Some SponsorPublisher
  else if str_contains "applytobevalidatorwithpermit" lowered then Some SponsorValidator
  else None.

Section Policy.
Context `{ET : !Ethereum, RT : !RelayTexts}.

(** The action that a selector of the file allows. *)
Definition selector_kind (s : RawSelectorPolicy) : option SponsoredActionKind :=
  match rs_key s ≫= from_key with
  | Some k => Some k
  | None => infer_action_kind (rs_name s)
  end.

(** The loop over [allow_selectors]; [None] is the error of an unreadable amount. *)
Fixpoint load_actions (acc : gmap SponsoredActionKind LoadedActionPolicy) (l : list RawSelectorPolicy)
    : option (gmap SponsoredActionKind LoadedActionPolicy) :=
  match l with
  | [] => Some acc
  | s :: l' =>
      match selector_kind s with
      | None => load_actions acc l'
      | Some key =>
          max ← u256_parse (rs_max_amount_wei s);
          load_actions (<[key := {| ap_name := rs_name s; ap_selector := rs_selector s; ap_max_amount_wei := max |}]> acc) l'
      end
  end.

(** [load_policy], from the deserialised file. *)
Definition load_policy (raw : RawPolicyFile) (active_chain_id : N) : option LoadedPolicy :=
  rc ← head (filter (λ c, rc_id c = active_chain_id) (rp_chains raw));
  actions ← load_actions ∅ (rc_allow_selectors rc);
  Some {| lp_mode := rp_mode raw; lp_scheme := rp_scheme raw; lp_domain_name := rp_domain_name raw;
          lp_domain_version := rp_domain_version raw; lp_nonce_scope := rp_nonce_scope raw;
          lp_max_expiry_seconds := rp_max_expiry_seconds raw;
          lp_chain := {|
            cp_id := rc_id rc; cp_label := rc_label rc; cp_enabled := rc_enabled rc;
            cp_daily_wallet_quota := rc_daily_wallet_quota rc; cp_daily_ip_quota := rc_daily_ip_quota rc;
            cp_max_gas_per_request := rc_max_gas_per_request rc;
            cp_allow_contracts := omap addr_parse (rc_allow_contracts rc); cp_actions := actions |} |}.

End Policy.

(** ** Requests and state *)

Record PermitMessage := { pm_owner : string; pm_spender : string; pm_value : string; pm_nonce : string; pm_deadline : string }.

Record SponsoredStakeIntentMessage := {
  im_owner : string; im_token_contract : string; im_staking_contract : string; im_action : N;
  im_amount : string; im_permit_nonce : string; im_permit_deadline : string;
  im_relayer_nonce : string; im_expires_at : string;
}.

Record QuoteRequest := {
  qr_owner : string; qr_chain_id : N; qr_action : string; qr_amount_wei : string;
  qr_token_contract : string; qr_staking_contract : string;
}.

Record TypedDataDomain := { td_name : string; td_version : string; td_chain_id : N; td_verifying_contract : string }.

Record QuoteResponse := {
  qs_allowed : bool; qs_action : string; qs_relayer_address : string;
  qs_estimated_gas : string; qs_estimated_fee_wei : string;
  qs_permit_domain : TypedDataDomain; qs_permit_message : PermitMessage;
  qs_intent_domain : TypedDataDomain; qs_intent_message : SponsoredStakeIntentMessage;
}.

Record SponsorRequest := {
  sr_action : string; sr_permit_message : PermitMessage; sr_intent_message : SponsoredStakeIntentMessage;
  sr_permit_signature : string; sr_intent_signature : string;
}.

Record ValidatedActionRequest := {
  va_action : SponsoredActionKind; va_owner : N; va_token_contract : N; va_staking_contract : N;
  va_amount : N; va_permit_nonce : N; va_permit_deadline : N; va_relayer_nonce : N; va_expires_at : N;
}.

Record ParsedSignatureParts := { sig_v : N; sig_r : string; sig_s : string }.

Record DailyCounter := { dc_day : string; dc_count : N }.

Record RequestStatusRecord := {
  st_request_id : string; st_status : string; st_action : string; st_owner : string; st_chain_id : N;
  st_tx_hash : option string; st_block_number : option string; st_message : string;
  st_created_at : string; st_updated_at : string;
}.

Record RelayerConfig := { rcf_relayer_address : N; rcf_active_chain_id : N; rcf_trust_proxy : bool }.

(** [AppState], and the file of sponsor nonces ([None]: there is none). *)
Record Relayer := {
  ry_config : RelayerConfig;
  ry_policy : LoadedPolicy;
  ry_statuses : gmap string RequestStatusRecord;
  ry_sponsor_nonces : gmap string N;
  ry_wallet_daily_counts : gmap string DailyCounter;
  ry_ip_daily_counts : gmap string DailyCounter;
  ry_journal : option string;
}.

(** What a handler reads from the clock: [timestamp()], [format("%Y-%m-%d")], [to_rfc3339()]. *)
Record Clock := { ck_secs : N; ck_day : string; ck_text : string }.

(** The messages of the relayer's errors. *)
Inductive RelayError :=
| UnsupportedAction (a : string) | UnsupportedActionCode | ActionMismatch
| InvalidField (field : string) | OwnerMismatch | SpenderMismatch | AmountMismatch
| PermitNonceMismatch | DeadlineMismatch | IntentExpired | PermitExpired | ExpiryTooFar
| NotAllowlisted (label : string) | ActionNotAllowed (a : SponsoredActionKind) | OverCap (a : SponsoredActionKind)
| WrongChain (active requested : N) | SponsoringDisabled (label : string)
| QuotaReached (key : string) | RelayerNonce (expected provided : N)
| SignatureHex | SignatureLength | BadRecoveryId (v : N) | NotRecovered
| IntentSigner (recovered : N) | PermitSigner (recovered : N)
| NodeUnreachable | OnChainNonce (current requested : N).

(** ** Quotas, nonces and clients *)

Definition check_quota (cl : Clock) (store : gmap string DailyCounter) (key : string) (limit : N) : result RelayError unit :=
  match store !! key with
  | Some c => ensure (negb (String.eqb (dc_day c) (ck_day cl) && (limit <=? dc_count c)%N)) (QuotaReached key)
  | None => Ok tt
  end.

Definition record_quota (cl : Clock) (store : gmap string DailyCounter) (key : string) : gmap string DailyCounter :=
  let next_count :=
    match store !! key with
    | Some c => if String.eqb (dc_day c) (ck_day cl) then u64_add (dc_count c) 1 else 1
    | None => 1
    end%N in
  <[key := {| dc_day := ck_day cl; dc_count := next_count |}]> store.

Definition current_nonce (store : gmap string N) (key : string) : N := default 0%N (store !! key).

(** [headers k] is the first value of the header [k], when it is text. *)
Definition extract_client_ip (headers : string → option string) (peer : string) (trust_proxy : bool) : string :=
  if negb trust_proxy then peer
  else
    let forwarded := v ← headers "x-forwarded-for"; trim <$> head (split "," v) in
    let named := match forwarded with Some ip => Some ip | None => trim <$> headers "x-real-ip" end in
    match named with
    | Some ip => if is_empty ip then peer else ip
    | None => peer
    end.

Section Handlers.
Context `{CR : !Crypto, ET : !Ethereum, KR : !K256, RT : !RelayTexts}.

Definition wallet_quota_key (owner : N) (action : SponsoredActionKind) : string :=
  addr_display owner +:+ ":" +:+ as_str action.
Definition ip_quota_key (chain_id : N) (ip : string) : string := fmt_N chain_id +:+ ":" +:+ ip.
Definition sponsor_nonce_key (chain_id owner : N) : string := fmt_N chain_id +:+ ":" +:+ addr_display owner.

Definition parse_address (value field : string) : result RelayError N := ok_or (InvalidField field) (addr_parse value).
Definition parse_u256 (value field : string) : result RelayError N := ok_or (InvalidField field) (u256_parse value).
Definition parse_u64 (value field : string) : result RelayError N := ok_or (InvalidField field) (parse_uint u64_max value).

Definition ensure_contract_allowed (chain : LoadedChainPolicy) (contract : N) (label : string) : result RelayError unit :=
  ensure (bool_decide (contract ∈ cp_allow_contracts chain)) (NotAllowlisted label).

(** ** Signatures *)

Definition EIP712_DOMAIN_TYPE : string :=
  "EIP712Domain(string name,string version,uint256 chainId,address verifyingContract)".
Definition SPONSORED_STAKE_INTENT_TYPE : string :=
  "SponsoredStakeIntent(address owner,address tokenContract,address stakingContract,uint8 action,uint256 amount,uint256 permitNonce,uint256 permitDeadline,uint256 relayerNonce,uint256 expiresAt)".
Definition PERMIT_TYPE : string :=
  "Permit(address owner,address spender,uint256 value,uint256 nonce,uint256 deadline)".
Definition TOKEN_NAME : string := "Chain Registry Token".
Definition TOKEN_VERSION : string := "1".

(** The digest of a structure under a domain, which both functions below build. *)
Definition typed_digest (name version : string) (chain_id contract : N) (type : string) (fields : list N) : string :=
  let domain_separator :=
    keccak256 (keccak256 EIP712_DOMAIN_TYPE +:+ keccak256 name +:+ keccak256 version +:+ word chain_id +:+ word contract) in
  let struct_hash := keccak256 (keccak256 type +:+ foldr (λ v s, word v +:+ s) "" fields) in
  keccak256 (String (byte 25) (String (byte 1) EmptyString) +:+ domain_separator +:+ struct_hash).

Definition hash_sponsored_intent (name version : string) (chain_id relayer : N) (r : ValidatedActionRequest) : string :=
  typed_digest name version chain_id relayer SPONSORED_STAKE_INTENT_TYPE
    [va_owner r; va_token_contract r; va_staking_contract r; as_code (va_action r); va_amount r;
     va_permit_nonce r; va_permit_deadline r; va_relayer_nonce r; va_expires_at r].

Definition hash_permit (chain_id token : N) (r : ValidatedActionRequest) : string :=
  typed_digest TOKEN_NAME TOKEN_VERSION chain_id token PERMIT_TYPE
    [va_owner r; va_staking_contract r; va_amount r; va_permit_nonce r; va_permit_deadline r].

Definition parse_signature_bytes (signature_hex : string) : result RelayError string :=
  decoded ← ok_or SignatureHex (hex_decode (trim_0x (trim signature_hex)));
  _ ← ensure (String.length decoded =? 65) SignatureLength;
  Ok decoded.

Definition normalize_v (v : N) : result RelayError N :=
  if (v =? 0)%N || (v =? 1)%N then Ok v
  else if (v =? 27)%N || (v =? 28)%N then Ok (v - 27)%N
  else Err (BadRecoveryId v).

Definition recover_address_from_signature (digest signature_hex : string) : result RelayError N :=
  bytes ← parse_signature_bytes signature_hex;
  recovery_id ← normalize_v (recovery_byte bytes);
  pubkey ← ok_or NotRecovered (k256_recover digest (to_str (take 64 (of_str bytes))) recovery_id);
  Ok (key_address pubkey).

Definition parse_signature_parts (signature_hex : string) : result RelayError ParsedSignatureParts :=
  bytes ← parse_signature_bytes signature_hex;
  let v := recovery_byte bytes in
  Ok {| sig_v := if (v =? 27)%N || (v =? 28)%N then v else u8_saturating_add v 27;
        sig_r := to_str (take 32 (of_str bytes)); sig_s := to_str (take 32 (drop 32 (of_str bytes))) |}.

Definition verify_intent_signature (st : Relayer) (r : SponsorRequest) (p : ValidatedActionRequest) : result RelayError unit :=
  recovered ← recover_address_from_signature
    (hash_sponsored_intent (lp_domain_name (ry_policy st)) (lp_domain_version (ry_policy st))
       (rcf_active_chain_id (ry_config st)) (rcf_relayer_address (ry_config st)) p) (sr_intent_signature r);
  ensure (recovered =? va_owner p)%N (IntentSigner recovered).

Definition verify_permit_signature (st : Relayer) (r : SponsorRequest) (p : ValidatedActionRequest) : result RelayError unit :=
  recovered ← recover_address_from_signature
    (hash_permit (rcf_active_chain_id (ry_config st)) (va_token_contract p) p) (sr_permit_signature r);
  ensure (recovered =? va_owner p)%N (PermitSigner recovered).

(** ** Validation *)

(** The cap of an action, and the amount against it. *)
Definition check_cap (chain : LoadedChainPolicy) (action : SponsoredActionKind) (amount : N) : result RelayError unit :=
  policy ← ok_or (ActionNotAllowed action) (cp_actions chain !! action);
  ensure (amount <=? ap_max_amount_wei policy)%N (OverCap action).

Definition validate_sponsor_request (now : N) (st : Relayer) (request : SponsorRequest)
    : result RelayError ValidatedActionRequest :=
  let im := sr_intent_message request in
  let pm := sr_permit_message request in
  action ← ok_or (UnsupportedAction (sr_action request)) (from_key (sr_action request));
  intent_action ← ok_or UnsupportedActionCode (from_code (im_action im));
  _ ← ensure (bool_decide (intent_action = action)) ActionMismatch;
  owner ← parse_address (im_owner im) "intent owner";
  permit_owner ← parse_address (pm_owner pm) "permit owner";
  _ ← ensure (owner =? permit_owner)%N OwnerMismatch;
  token_contract ← parse_address (im_token_contract im) "token contract";
  staking_contract ← parse_address (im_staking_contract im) "staking contract";
  permit_spender ← parse_address (pm_spender pm) "permit spender";
  _ ← ensure (permit_spender =? staking_contract)%N SpenderMismatch;
  amount ← parse_u256 (im_amount im) "amount";
  permit_value ← parse_u256 (pm_value pm) "permit value";
  _ ← ensure (amount =? permit_value)%N AmountMismatch;
  permit_nonce ← parse_u256 (im_permit_nonce im) "permit nonce";
  permit_nonce' ← parse_u256 (pm_nonce pm) "permit nonce";
  _ ← ensure (permit_nonce =? permit_nonce')%N PermitNonceMismatch;
  permit_deadline ← parse_u256 (im_permit_deadline im) "permit deadline";
  permit_deadline' ← parse_u256 (pm_deadline pm) "permit deadline";
  _ ← ensure (permit_deadline =? permit_deadline')%N DeadlineMismatch;
  relayer_nonce ← parse_u256 (im_relayer_nonce im) "relayer nonce";
  expires_at ← parse_u256 (im_expires_at im) "intent expiry";
  _ ← ensure (now <? expires_at)%N IntentExpired;
  _ ← ensure (now <? permit_deadline)%N PermitExpired;
  let max_future := (now + lp_max_expiry_seconds (ry_policy st))%N in
  _ ← ensure ((expires_at <=? max_future) && (permit_deadline <=? max_future))%N ExpiryTooFar;
  _ ← ensure_contract_allowed (lp_chain (ry_policy st)) token_contract "token contract";
  _ ← ensure_contract_allowed (lp_chain (ry_policy st)) staking_contract "staking contract";
  _ ← check_cap (lp_chain (ry_policy st)) action amount;
  Ok {| va_action := action; va_owner := owner; va_token_contract := token_contract;
        va_staking_contract := staking_contract; va_amount := amount; va_permit_nonce := permit_nonce;
        va_permit_deadline := permit_deadline; va_relayer_nonce := relayer_nonce; va_expires_at := expires_at |}.

(** ** Quotes *)

(** The gas price and the permit nonce are what the node answers. *)
Definition build_quote (cl : Clock) (st : Relayer) (request : QuoteRequest) (client_ip : string)
    (token_nonce gas_price : result RelayError N) : result RelayError QuoteResponse :=
  let chain := lp_chain (ry_policy st) in
  let active := rcf_active_chain_id (ry_config st) in
  action ← ok_or (UnsupportedAction (qr_action request)) (from_key (qr_action request));
  owner ← parse_address (qr_owner request) "owner";
  token_contract ← parse_address (qr_token_contract request) "token contract";
  staking_contract ← parse_address (qr_staking_contract request) "staking contract";
  amount ← parse_u256 (qr_amount_wei request) "amount";
  _ ← ensure (qr_chain_id request =? active)%N (WrongChain active (qr_chain_id request));
  _ ← ensure (cp_enabled chain) (SponsoringDisabled (cp_label chain));
  _ ← ensure_contract_allowed chain token_contract "token contract";
  _ ← ensure_contract_allowed chain staking_contract "staking contract";
  _ ← check_cap chain action amount;
  _ ← check_quota cl (ry_wallet_daily_counts st) (wallet_quota_key owner action) (cp_daily_wallet_quota chain);
  _ ← check_quota cl (ry_ip_daily_counts st) (ip_quota_key active client_ip) (cp_daily_ip_quota chain);
  permit_nonce ← token_nonce;
  let relayer_nonce := current_nonce (ry_sponsor_nonces st) (sponsor_nonce_key active owner) in
  let permit_deadline := u64_add (ck_secs cl) (lp_max_expiry_seconds (ry_policy st)) in
  let expires_at := u64_add (ck_secs cl) (lp_max_expiry_seconds (ry_policy st)) in
  price ← gas_price;
  let estimated_fee := N.min (u256_size - 1) (price * cp_max_gas_per_request chain) in
  Ok {| qs_allowed := true; qs_action := as_str action;
        qs_relayer_address := addr_display (rcf_relayer_address (ry_config st));
        qs_estimated_gas := fmt_N (cp_max_gas_per_request chain); qs_estimated_fee_wei := u256_text estimated_fee;
        qs_permit_domain := {| td_name := TOKEN_NAME; td_version := TOKEN_VERSION; td_chain_id := active;
                               td_verifying_contract := addr_display token_contract |};
        qs_permit_message := {| pm_owner := addr_display owner; pm_spender := addr_display staking_contract;
                                pm_value := u256_text amount; pm_nonce := u256_text permit_nonce;
                                pm_deadline := u256_text permit_deadline |};
        qs_intent_domain := {| td_name := lp_domain_name (ry_policy st); td_version := lp_domain_version (ry_policy st);
                               td_chain_id := active; td_verifying_contract := addr_display (rcf_relayer_address (ry_config st)) |};
        qs_intent_message := {| im_owner := addr_display owner; im_token_contract := addr_display token_contract;
                                im_staking_contract := addr_display staking_contract; im_action := as_code action;
                                im_amount := u256_text amount; im_permit_nonce := u256_text permit_nonce;
                                im_permit_deadline := u256_text permit_deadline; im_relayer_nonce := fmt_N relayer_nonce;
                                im_expires_at := u256_text expires_at |} |}.

(** ** Sponsoring *)

(** A request between the two steps of its handler. *)
Record Checked := {
  ch_request : SponsorRequest; ch_prepared : ValidatedActionRequest; ch_client_ip : string; ch_expected_nonce : N;
}.

(** A refusal is a status code and a message. *)
Definition refuse {A : Type} (code : N) (r : result RelayError A) : result (N * RelayError) A := map_err (pair code) r.

(** [sponsor_request], up to the call of [fetch_token_nonce]. *)
Definition sponsor_check (cl : Clock) (st : Relayer) (headers : string → option string) (peer : string)
    (request : SponsorRequest) : result (N * RelayError) Checked :=
  let chain := lp_chain (ry_policy st) in
  let active := rcf_active_chain_id (ry_config st) in
  let client_ip := extract_client_ip headers peer (rcf_trust_proxy (ry_config st)) in
  prepared ← refuse 400 (validate_sponsor_request (ck_secs cl) st request);
  _ ← refuse 429 (check_quota cl (ry_wallet_daily_counts st)
                    (wallet_quota_key (va_owner prepared) (va_action prepared)) (cp_daily_wallet_quota chain));
  _ ← refuse 429 (check_quota cl (ry_ip_daily_counts st) (ip_quota_key active client_ip) (cp_daily_ip_quota chain));
  let expected_nonce := current_nonce (ry_sponsor_nonces st) (sponsor_nonce_key active (va_owner prepared)) in
  provided_nonce ← refuse 400 (parse_u64 (im_relayer_nonce (sr_intent_message request)) "relayer nonce");
  _ ← refuse 409 (ensure (provided_nonce =? expected_nonce)%N (RelayerNonce expected_nonce provided_nonce));
  _ ← refuse 400 (verify_intent_signature st request prepared);
  Ok {| ch_request := request; ch_prepared := prepared; ch_client_ip := client_ip; ch_expected_nonce := expected_nonce |}.

(** The call that [send_sponsored_transaction] makes. *)
Record StakingCall := {
  sc_function : string; sc_contract : N; sc_owner : N; sc_amount : N; sc_deadline : N; sc_signature : ParsedSignatureParts;
}.

Definition sponsored_transaction (p : ValidatedActionRequest) (sig : ParsedSignatureParts) : StakingCall := {|
  sc_function := match va_action p with
                 | SponsorPublisher => "stakeAsPublisherWithPermit"
                 | SponsorValidator => "applyToBeValidatorWithPermit"
                 end;
  sc_contract := va_staking_contract p; sc_owner := va_owner p; sc_amount := va_amount p;
  sc_deadline := va_permit_deadline p; sc_signature := sig |}.

(** [persist_sponsor_nonces]: [disk] is whether the file could be written and renamed. *)
Definition persist_sponsor_nonces (disk : bool) (nonces : gmap string N) (journal : option string) : option string :=
  if disk then Some (nonces_json nonces) else journal.

(** [load_sponsor_nonces] *)
Definition load_sponsor_nonces (journal : option string) : gmap string N := default ∅ (journal ≫= nonces_of_json).

(** The rest of [sponsor_request], up to the submission of the transaction. *)
Definition sponsor_commit (cl : Clock) (st : Relayer) (c : Checked) (token_nonce : result RelayError N)
    (disk : bool) (request_id : string) : result (N * RelayError) (Relayer * StakingCall) :=
  let p := ch_prepared c in
  let active := rcf_active_chain_id (ry_config st) in
  on_chain_nonce ← refuse 502 token_nonce;
  _ ← refuse 409 (ensure (on_chain_nonce =? va_permit_nonce p)%N (OnChainNonce on_chain_nonce (va_permit_nonce p)));
  permit_signature ← refuse 400 (parse_signature_parts (sr_permit_signature (ch_request c)));
  _ ← refuse 400 (verify_permit_signature st (ch_request c) p);
  let nonces := <[sponsor_nonce_key active (va_owner p) := u64_add (ch_expected_nonce c) 1]> (ry_sponsor_nonces st) in
  let record := {|
    st_request_id := request_id; st_status := "submitting"; st_action := as_str (va_action p);
    st_owner := addr_display (va_owner p); st_chain_id := active; st_tx_hash := None; st_block_number := None;
    st_message := "Submitting sponsored " +:+ as_str (va_action p) +:+ " transaction.";
    st_created_at := ck_text cl; st_updated_at := ck_text cl |} in
  Ok ({| ry_config := ry_config st; ry_policy := ry_policy st;
         ry_statuses := <[request_id := record]> (ry_statuses st);
         ry_sponsor_nonces := nonces;
         ry_wallet_daily_counts := record_quota cl (ry_wallet_daily_counts st) (wallet_quota_key (va_owner p) (va_action p));
         ry_ip_daily_counts := record_quota cl (ry_ip_daily_counts st) (ip_quota_key active (ch_client_ip c));
         ry_journal := persist_sponsor_nonces disk nonces (ry_journal st) |},
      sponsored_transaction p permit_signature).

(** The two steps with nothing between them. *)
Definition sponsor_request (cl : Clock) (st : Relayer) (headers : string → option string) (peer : string)
    (request : SponsorRequest) (token_nonce : result RelayError N) (disk : bool) (request_id : string)
    : result (N * RelayError) (Relayer * StakingCall) :=
  c ← sponsor_check cl st headers peer request; sponsor_commit cl st c token_nonce disk request_id.

(** A restart keeps the configuration, the policy and the journal. *)
Definition restart (st : Relayer) : Relayer := {|
  ry_config := ry_config st; ry_policy := ry_policy st; ry_statuses := ∅;
  ry_sponsor_nonces := load_sponsor_nonces (ry_journal st);
  ry_wallet_daily_counts := ∅; ry_ip_daily_counts := ∅; ry_journal := ry_journal st |}.

End Handlers.

(** ** Receipts *)

Definition update_status (cl : Clock) (statuses : gmap string RequestStatusRecord) (request_id status message : string)
    (tx_hash block_number : option string) : gmap string RequestStatusRecord :=
  alter (λ e, {| st_request_id := st_request_id e; st_status := status; st_action := st_action e; st_owner := st_owner e;
                 st_chain_id := st_chain_id e;
                 st_tx_hash := match tx_hash with Some h => Some h | None => st_tx_hash e end;
                 st_block_number := match block_number with Some b => Some b | None => st_block_number e end;
                 st_message := message; st_created_at := st_created_at e; st_updated_at := ck_text cl |})
        request_id statuses.

Record RpcReceipt := { rr_block_number : option string; rr_status : option string }.

(** What [watch_request_receipt] makes of a receipt. *)
Definition receipt_status (r : RpcReceipt) : string * string :=
  if bool_decide (rr_status r = Some "0x1") then ("confirmed", "Sponsored transaction confirmed.")
  else ("failed", "Sponsored transaction reverted on-chain.").

(** The loop of [n] polls; [None] is an answer without a receipt or an error. *)
Fixpoint poll_receipt (n : nat) (answers : nat → option RpcReceipt) (i : nat) : option RpcReceipt :=
  match n with
  | O => None
  | S n' => match answers i with Some r => Some r | None => poll_receipt n' answers (S i) end
  end.

Definition watch_request_receipt (cl : Clock) (statuses : gmap string RequestStatusRecord) (request_id tx_hash : string)
    (answers : nat → option RpcReceipt) : gmap string RequestStatusRecord :=
  match poll_receipt 90 answers 0 with
  | Some r => let '(status, message) := receipt_status r in
              update_status cl statuses request_id status message (Some tx_hash) (rr_block_number r)
  | None => update_status cl statuses request_id "timed_out"
              "Timed out while waiting for the sponsored transaction receipt." (Some tx_hash) None
  end.

(** ** Failed submissions *)

Definition extract_revert_reason (err : string) : option string :=
  let marker := "execution reverted: " in
  start ← find_str marker err;
  let tail := drop_str (start + String.length marker) err in
  let e := default (String.length tail) (find_str ", data:" tail) in
  Some (trim (take_str e tail)).

Definition classify_send_error `{!Std} (err : string) : N * string :=
  let lower := to_lowercase err in
  let reason := default err (extract_revert_reason err) in
  if str_contains "erc20: insufficient balance" lower then
    (422%N, "Insufficient tCREG balance to stake the requested amount. Visit the faucet to mint testnet tokens first.")
  else if str_contains "erc20: insufficient allowance" lower || str_contains "erc20permit: invalid signature" lower
          || str_contains "permit:" lower then
    (422%N, "Permit could not be applied on-chain: " +:+ reason)
  else if str_contains "execution reverted" lower then (422%N, "On-chain transaction reverted: " +:+ reason)
  else (502%N, err).

(** The end of [sponsor_request]: the answer to the submission is filed, and a submitted
    transaction is watched. *)
Definition sponsor_finish `{!Std} (cl : Clock) (statuses : gmap string RequestStatusRecord) (request_id : string)
    (action : SponsoredActionKind) (sent : string + string) : gmap string RequestStatusRecord * N :=
  match sent with
  | inl tx_hash =>
      (update_status cl statuses request_id "submitted"
         ("Sponsored " +:+ as_str action +:+ " transaction submitted.") (Some tx_hash) None, 202%N)
  | inr err =>
      let '(code, friendly) := classify_send_error err in
      (update_status cl statuses request_id "failed" ("Relayer send failed: " +:+ friendly) None None, code)
  end.

(** ** Theorems *)
Section Relaying.
Context `{CR : !Crypto, ET : !Ethereum, KR : !K256, RT : !RelayTexts}.

Lemma refuse_Ok {A : Type} (code : N) (r : result RelayError A) (a : A) : refuse code r = Ok a ↔ r = Ok a.
Proof. apply map_err_Ok. Qed.

(** What a request has shown before the nonce of its permit is read: who signed the intent, and
    that the contracts and the amount are in the policy. *)
Record shown (cfg : RelayerConfig) (pol : LoadedPolicy) (request : SponsorRequest) (p : ValidatedActionRequest) : Prop := {
  sh_intent : recover_address_from_signature
                (hash_sponsored_intent (lp_domain_name pol) (lp_domain_version pol) (rcf_active_chain_id cfg)
                   (rcf_relayer_address cfg) p) (sr_intent_signature request) = Ok (va_owner p);
  sh_token : va_token_contract p ∈ cp_allow_contracts (lp_chain pol);
  sh_staking : va_staking_contract p ∈ cp_allow_contracts (lp_chain pol);
  sh_cap : ∃ ap, cp_actions (lp_chain pol) !! va_action p = Some ap ∧ (va_amount p ≤ ap_max_amount_wei ap)%N;
}.

(** A call that the policy and the two signatures of its owner allow. *)
Definition authorised (cfg : RelayerConfig) (pol : LoadedPolicy) (call : StakingCall) : Prop :=
  ∃ request p sig,
    shown cfg pol request p ∧
    recover_address_from_signature (hash_permit (rcf_active_chain_id cfg) (va_token_contract p) p)
      (sr_permit_signature request) = Ok (va_owner p) ∧
    parse_signature_parts (sr_permit_signature request) = Ok sig ∧
    call = sponsored_transaction p sig.

Lemma sponsor_validated (now : N) (st : Relayer) (r : SponsorRequest) (p : ValidatedActionRequest) :
  validate_sponsor_request now st r = Ok p →
  (now < va_expires_at p ≤ now + lp_max_expiry_seconds (ry_policy st))%N ∧
  (now < va_permit_deadline p ≤ now + lp_max_expiry_seconds (ry_policy st))%N ∧
  va_token_contract p ∈ cp_allow_contracts (lp_chain (ry_policy st)) ∧
  va_staking_contract p ∈ cp_allow_contracts (lp_chain (ry_policy st)) ∧
  (∃ ap, cp_actions (lp_chain (ry_policy st)) !! va_action p = Some ap ∧ (va_amount p ≤ ap_max_amount_wei ap)%N) ∧
  u256_parse (im_relayer_nonce (sr_intent_message r)) = Some (va_relayer_nonce p).
Proof.
  unfold validate_sponsor_request, parse_address, parse_u256, ensure_contract_allowed, check_cap. intros Hv. res_inv. cbn.
  repeat match goal with
  | H : (_ && _) = true |- _ => apply andb_true_iff in H as [? ?]
  | H : (_ <=? _)%N = true |- _ => apply N.leb_le in H
  | H : (_ <? _)%N = true |- _ => apply N.ltb_lt in H
  | H : bool_decide _ = true |- _ => apply bool_decide_eq_true in H
  end.
  split_and!; eauto; lia.
Qed.

Lemma check_inv (cl : Clock) (st : Relayer) headers peer request (c : Checked) :
  sponsor_check cl st headers peer request = Ok c →
  validate_sponsor_request (ck_secs cl) st request = Ok (ch_prepared c) ∧
  ch_request c = request ∧
  shown (ry_config st) (ry_policy st) request (ch_prepared c) ∧
  ch_expected_nonce c = current_nonce (ry_sponsor_nonces st)
    (sponsor_nonce_key (rcf_active_chain_id (ry_config st)) (va_owner (ch_prepared c))) ∧
  parse_uint u64_max (im_relayer_nonce (sr_intent_message request)) = Some (ch_expected_nonce c).
Proof.
  unfold sponsor_check. intros Hc.
  repeat (apply bind_Ok in Hc as (? & H & Hc); rewrite ?refuse_Ok in H; revert H). injection Hc as <-. cbn.
  intros Hi Hn Hp _ _ Hv. apply ensure_Ok, N.eqb_eq in Hn as ->.
  unfold parse_u64 in Hp. apply ok_or_Ok in Hp.
  destruct (sponsor_validated _ _ _ _ Hv) as (_ & _ & ? & ? & ? & _).
  unfold verify_intent_signature in Hi. apply bind_Ok in Hi as (r & Hr & Hi). apply ensure_Ok, N.eqb_eq in Hi as ->.
  done.
Qed.

Lemma commit_inv (cl : Clock) (st : Relayer) (c : Checked) answer disk id (st' : Relayer) (call : StakingCall) :
  sponsor_commit cl st c answer disk id = Ok (st', call) →
  answer = Ok (va_permit_nonce (ch_prepared c)) ∧
  ry_config st' = ry_config st ∧ ry_policy st' = ry_policy st ∧
  ry_sponsor_nonces st' =
    <[sponsor_nonce_key (rcf_active_chain_id (ry_config st)) (va_owner (ch_prepared c)) := u64_add (ch_expected_nonce c) 1]>
      (ry_sponsor_nonces st) ∧
  ry_journal st' = persist_sponsor_nonces disk (ry_sponsor_nonces st') (ry_journal st) ∧
  ∃ sig, parse_signature_parts (sr_permit_signature (ch_request c)) = Ok sig ∧
    recover_address_from_signature
      (hash_permit (rcf_active_chain_id (ry_config st)) (va_token_contract (ch_prepared c)) (ch_prepared c))
      (sr_permit_signature (ch_request c)) = Ok (va_owner (ch_prepared c)) ∧
    call = sponsored_transaction (ch_prepared c) sig.
Proof.
  unfold sponsor_commit. intros Hc.
  repeat (apply bind_Ok in Hc as (? & H & Hc); rewrite ?refuse_Ok in H; revert H). injection Hc as <- <-. cbn.
  intros Hp Hs Hn ->. apply ensure_Ok, N.eqb_eq in Hn as ->.
  unfold verify_permit_signature in Hp. apply bind_Ok in Hp as (r & Hr & Hp). apply ensure_Ok, N.eqb_eq in Hp as ->.
  split_and!; try done. eauto.
Qed.

(** The second step reads nothing of the state but the configuration. *)
Lemma commit_elsewhere (cl : Clock) (st st2 : Relayer) (c : Checked) answer disk id (st' : Relayer) (call : StakingCall) :
  ry_config st2 = ry_config st → sponsor_commit cl st c answer disk id = Ok (st', call) →
  ∃ st2', sponsor_commit cl st2 c answer disk id = Ok (st2', call) ∧
    ry_sponsor_nonces st2' =
      <[sponsor_nonce_key (rcf_active_chain_id (ry_config st)) (va_owner (ch_prepared c)) := u64_add (ch_expected_nonce c) 1]>
        (ry_sponsor_nonces st2).
Proof.
  intros Hcfg. unfold sponsor_commit, verify_permit_signature. rewrite Hcfg. intros Hc.
  repeat (apply bind_Ok in Hc as (? & H & Hc); rewrite ?refuse_Ok in H; revert H). injection Hc as <- <-.
  intros Hp Hs Hn ->. cbn. cbn in Hn. rewrite Hn. cbn. rewrite Hs. cbn. rewrite Hp. cbn. eauto.
Qed.

(** ** Interleaved requests *)

(** The relayer with the requests that wait for the node and the calls it has submitted. *)
Record System := { sy_relayer : Relayer; sy_waiting : list Checked; sy_sent : list StakingCall }.

Inductive relayer_step : System → System → Prop :=
| step_check cl st w sent headers peer request c :
    sponsor_check cl st headers peer request = Ok c →
    relayer_step {| sy_relayer := st; sy_waiting := w; sy_sent := sent |}
                 {| sy_relayer := st; sy_waiting := w ++ [c]; sy_sent := sent |}
| step_commit cl st w1 c w2 sent answer disk id st' call :
    sponsor_commit cl st c answer disk id = Ok (st', call) →
    relayer_step {| sy_relayer := st; sy_waiting := w1 ++ c :: w2; sy_sent := sent |}
                 {| sy_relayer := st'; sy_waiting := w1 ++ w2; sy_sent := sent ++ [call] |}
| step_refuse cl st w1 c w2 sent answer disk id e :
    sponsor_commit cl st c answer disk id = Err e →
    relayer_step {| sy_relayer := st; sy_waiting := w1 ++ c :: w2; sy_sent := sent |}
                 {| sy_relayer := st; sy_waiting := w1 ++ w2; sy_sent := sent |}
| step_restart st w sent :
    relayer_step {| sy_relayer := st; sy_waiting := w; sy_sent := sent |}
                 {| sy_relayer := restart st; sy_waiting := []; sy_sent := sent |}.

Definition fresh_system (st : Relayer) : System := {| sy_relayer := st; sy_waiting := []; sy_sent := [] |}.

Definition safe (cfg : RelayerConfig) (pol : LoadedPolicy) (s : System) : Prop :=
  ry_config (sy_relayer s) = cfg ∧ ry_policy (sy_relayer s) = pol ∧
  Forall (λ c, shown cfg pol (ch_request c) (ch_prepared c)) (sy_waiting s) ∧
  Forall (authorised cfg pol) (sy_sent s).

Lemma safe_step (cfg : RelayerConfig) (pol : LoadedPolicy) (s s' : System) :
  relayer_step s s' → safe cfg pol s → safe cfg pol s'.
Proof.
  intros Hs (Hc & Hp & Hw & Ha). destruct Hs as
    [cl st w sent headers peer request c H | cl st w1 c w2 sent answer disk id st' call H
    |cl st w1 c w2 sent answer disk id e H | st w sent]; cbn in *.
  - apply check_inv in H as (_ & <- & Hsh & _). rewrite Hc, Hp in Hsh. split_and!; try done.
    apply Forall_app. by split; [|apply Forall_singleton].
  - apply commit_inv in H as (_ & Hc' & Hp' & _ & _ & sig & Hsig & Hper & ->).
    apply Forall_app in Hw as [Hw1 Hw2]. apply Forall_cons in Hw2 as [Hsh Hw2].
    split_and!; cbn; [congruence|congruence|by apply Forall_app|]. apply Forall_app. split; [done|].
    apply Forall_singleton. eexists _, _, sig. rewrite Hc in Hper. done.
  - apply Forall_app in Hw as [Hw1 Hw2]. apply Forall_cons in Hw2 as [_ Hw2].
    split_and!; try done. by apply Forall_app.
  - by split_and!; try apply Forall_nil.
Qed.

(** C33. Whatever requests arrive, in any interleaving and across restarts, the relayer pays only for
    calls that their owner has signed twice: as an intent for this relayer and chain, and as a
    permit of the token; the contracts called are in the policy and the amount is within its
    cap. *)
Theorem relayer_pays_authorised (st : Relayer) (s : System) :
  rtc relayer_step (fresh_system st) s → Forall (authorised (ry_config st) (ry_policy st)) (sy_sent s).
Proof.
  intros Hr. cut (safe (ry_config st) (ry_policy st) s); [by intros (_ & _ & _ & Ha)|].
  revert s Hr. apply rtc_ind_r; [by split_and!; try apply Forall_nil|].
  intros s1 s2 _ Hstep IH. by apply (safe_step _ _ s1 s2).
Qed.

(** The second step of the handler does not look at the nonce again: a request that arrives
    twice before the first is committed is paid for twice, and the nonce of its owner advances
    by one. *)
Theorem race_pays_twice (cl : Clock) (st : Relayer) headers peer request c (n : N) disk (id id' : string) (st1 : Relayer) call :
  sponsor_check cl st headers peer request = Ok c → sponsor_commit cl st c (Ok n) disk id = Ok (st1, call) →
  ∃ st2, rtc relayer_step (fresh_system st) {| sy_relayer := st2; sy_waiting := []; sy_sent := [call; call] |} ∧
         ry_sponsor_nonces st2 = ry_sponsor_nonces st1.
Proof.
  intros Hc Hm.
  destruct (commit_inv _ _ _ _ _ _ _ _ Hm) as (_ & Hcfg & _ & Hn1 & _).
  assert (Hm' : ∃ st2, sponsor_commit cl st1 c (Ok n) disk id' = Ok (st2, call) ∧ ry_sponsor_nonces st2 = ry_sponsor_nonces st1).
  { destruct (commit_elsewhere cl st st1 c (Ok n) disk id st1 call Hcfg Hm) as (st2 & Hm2 & Hn2).
    unfold sponsor_commit in Hm2 |- *.
    repeat (apply bind_Ok in Hm2 as (? & H & Hm2); rewrite H; cbn; clear H). injection Hm2 as <- <-.
    eexists. split; [done|]. cbn in Hn2 |- *. rewrite Hn2, Hn1. apply insert_insert_eq. }
  destruct Hm' as (st2 & Hm2 & Hn2). exists st2. split; [|done]. unfold fresh_system.
  eapply rtc_l; [by apply (step_check cl st [] [] headers peer request c)|].
  eapply rtc_l; [by apply (step_check cl st [c] [] headers peer request c)|].
  eapply rtc_l; [by apply (step_commit cl st [] c [c] [] (Ok n) disk id st1 call)|].
  eapply rtc_l; [by apply (step_commit cl st1 [] c [] [call] (Ok n) disk id' st2 call)|]. apply rtc_refl.
Qed.

(** A request that waits for the node while others of the same owner are served sets the nonce
    back to one more than it read, so intents that were paid for already are current again. *)
Theorem late_commit_rewinds_nonce (cl : Clock) (st st' : Relayer) c answer disk id call :
  sponsor_commit cl st c answer disk id = Ok (st', call) →
  let key := sponsor_nonce_key (rcf_active_chain_id (ry_config st)) (va_owner (ch_prepared c)) in
  (ch_expected_nonce c + 1 < current_nonce (ry_sponsor_nonces st) key)%N → (ch_expected_nonce c + 1 < u64_size)%N →
  (current_nonce (ry_sponsor_nonces st') key < current_nonce (ry_sponsor_nonces st) key)%N.
Proof.
  intros Hm key Hlt Hb. apply commit_inv in Hm as (_ & _ & _ & Hn & _). rewrite Hn. unfold current_nonce at 1.
  rewrite lookup_insert_eq. cbn. unfold u64_add. by rewrite N.mod_small.
Qed.

(** ** Requests one at a time *)

Record Input := {
  in_clock : Clock; in_headers : string → option string; in_peer : string; in_request : SponsorRequest;
  in_nonce : result RelayError N; in_disk : bool; in_id : string;
}.

Definition serve (st : Relayer) (i : Input) : result (N * RelayError) (Relayer * StakingCall) :=
  sponsor_request (in_clock i) st (in_headers i) (in_peer i) (in_request i) (in_nonce i) (in_disk i) (in_id i).

(** The state after the inputs, and the owner and the nonce of each intent that was paid for. *)
Fixpoint serve_all (st : Relayer) (l : list Input) : Relayer * list (N * N) :=
  match l with
  | [] => (st, [])
  | i :: l' =>
      match sponsor_check (in_clock i) st (in_headers i) (in_peer i) (in_request i) with
      | Ok c =>
          match sponsor_commit (in_clock i) st c (in_nonce i) (in_disk i) (in_id i) with
          | Ok (st', _) =>
              let '(st'', paid) := serve_all st' l' in (st'', (va_owner (ch_prepared c), ch_expected_nonce c) :: paid)
          | Err _ => serve_all st l'
          end
      | Err _ => serve_all st l'
      end
  end.

Definition nonce_of (st : Relayer) (owner : N) : N :=
  current_nonce (ry_sponsor_nonces st) (sponsor_nonce_key (rcf_active_chain_id (ry_config st)) owner).

Context `{RL : !RelayTextsLaws}.

Lemma display_inj (a b : N) : addr_display a = addr_display b → a = b.
Proof. intros H. apply (f_equal addr_parse) in H. rewrite !addr_parse_display in H. congruence. Qed.

Lemma nonce_key_inj (chain a b : N) : sponsor_nonce_key chain a = sponsor_nonce_key chain b → a = b.
Proof. unfold sponsor_nonce_key. intros H. by do 2 apply app_inj_l in H; apply display_inj. Qed.

Lemma commit_nonce (cl : Clock) (st st' : Relayer) c answer disk id call (owner : N) :
  sponsor_commit cl st c answer disk id = Ok (st', call) →
  nonce_of st' owner = if decide (owner = va_owner (ch_prepared c)) then u64_add (ch_expected_nonce c) 1 else nonce_of st owner.
Proof.
  intros (_ & Hcfg & _ & Hn & _)%commit_inv. unfold nonce_of. rewrite Hcfg, Hn. unfold current_nonce at 1.
  case_decide as Hd; [subst; by rewrite lookup_insert_eq|]. rewrite lookup_insert_ne; [done|].
  intros ?%nonce_key_inj. congruence.
Qed.

(** The paid intents of an owner have nonces from the current one upwards, each once. *)
Lemma serve_all_above (st : Relayer) (l : list Input) :
  (∀ owner, nonce_of st owner + N.of_nat (length l) < u64_size)%N →
  NoDup (serve_all st l).2 ∧ ∀ owner n, (owner, n) ∈ (serve_all st l).2 → (nonce_of st owner <= n)%N.
Proof.
  revert st. induction l as [|i l IH]; intros st Hb; cbn [serve_all]; [split; [apply NoDup_nil_2|set_solver]|].
  assert (Hskip : ∀ owner, (nonce_of st owner + N.of_nat (length l) < u64_size)%N).
  { intros owner. specialize (Hb owner). cbn in Hb. lia. }
  destruct (sponsor_check _ _ _ _ _) as [c|] eqn:Hc; [|by apply IH].
  destruct (sponsor_commit _ _ _ _ _ _) as [[st' call]|] eqn:Hm; [|by apply IH].
  apply check_inv in Hc as (_ & _ & _ & He & _).
  change (ch_expected_nonce c = nonce_of st (va_owner (ch_prepared c))) in He.
  pose proof (λ owner, commit_nonce _ _ _ _ _ _ _ _ owner Hm) as Hn.
  assert (Hadd : u64_add (ch_expected_nonce c) 1 = (ch_expected_nonce c + 1)%N).
  { unfold u64_add. apply N.mod_small. rewrite He. specialize (Hb (va_owner (ch_prepared c))). cbn in Hb. lia. }
  destruct (IH st') as [Hnd Hab].
  { intros owner. rewrite Hn. specialize (Hb owner). cbn in Hb. case_decide; subst; rewrite ?Hadd, ?He; lia. }
  destruct (serve_all st' l) as [st'' paid]. cbn in Hnd, Hab |- *. split.
  - apply NoDup_cons. split; [|done]. intros Hin%Hab. rewrite Hn, decide_True, Hadd in Hin by done. lia.
  - intros owner n [[= -> ->]|Hin]%elem_of_cons; [by rewrite He|]. apply Hab in Hin. rewrite Hn in Hin.
    case_decide; [subst; rewrite Hadd, He in Hin; lia|done].
Qed.

(** Served one at a time, no intent is paid for twice: the pairs of owner and relayer nonce of the
    calls are distinct, as long as no nonce reaches 64 bits. *)
Theorem sequential_intents_once (st : Relayer) (l : list Input) :
  (∀ owner, nonce_of st owner + N.of_nat (length l) < u64_size)%N → NoDup (serve_all st l).2.
Proof. intros Hb. by apply serve_all_above. Qed.

(** A served request leaves a journal from which a restart recovers every nonce; when the
    journal cannot be written the request is paid for all the same, and the restart forgets it. *)
Theorem restart_recovers_nonces (cl : Clock) (st st' : Relayer) c answer disk id call :
  sponsor_commit cl st c answer disk id = Ok (st', call) →
  ry_sponsor_nonces (restart st') = if disk then ry_sponsor_nonces st' else load_sponsor_nonces (ry_journal st).
Proof.
  intros (_ & _ & _ & _ & Hj & _)%commit_inv. cbn. rewrite Hj. destruct disk; [|done]. cbn.
  unfold load_sponsor_nonces. cbn. by rewrite nonces_roundtrip.
Qed.

(** ** The policy and the quotas *)

Definition with_enabled (st : Relayer) (b : bool) : Relayer :=
  let pol := ry_policy st in let ch := lp_chain pol in
  {| ry_config := ry_config st;
     ry_policy := {| lp_mode := lp_mode pol; lp_scheme := lp_scheme pol; lp_domain_name := lp_domain_name pol;
                     lp_domain_version := lp_domain_version pol; lp_nonce_scope := lp_nonce_scope pol;
                     lp_max_expiry_seconds := lp_max_expiry_seconds pol;
                     lp_chain := {| cp_id := cp_id ch; cp_label := cp_label ch; cp_enabled := b;
                                    cp_daily_wallet_quota := cp_daily_wallet_quota ch;
                                    cp_daily_ip_quota := cp_daily_ip_quota ch;
                                    cp_max_gas_per_request := cp_max_gas_per_request ch;
                                    cp_allow_contracts := cp_allow_contracts ch; cp_actions := cp_actions ch |} |};
     ry_statuses := ry_statuses st; ry_sponsor_nonces := ry_sponsor_nonces st;
     ry_wallet_daily_counts := ry_wallet_daily_counts st; ry_ip_daily_counts := ry_ip_daily_counts st;
     ry_journal := ry_journal st |}.

(** A chain whose sponsoring is disabled refuses every quote, but sponsoring does not look at
    the switch: a request is checked as if it were enabled. *)
Theorem disabled_policy_still_sponsors (cl : Clock) (st : Relayer) headers peer request :
  sponsor_check cl (with_enabled st false) headers peer request = sponsor_check cl (with_enabled st true) headers peer request ∧
  ∀ q ip tn gp, is_ok (build_quote cl (with_enabled st false) q ip tn gp) = false.
Proof.
  split; [done|]. intros q ip tn gp. destruct (is_ok _) eqn:Ho; [|done]. apply is_ok_Ok in Ho as [r Hr].
  unfold build_quote in Hr. do 6 (apply bind_Ok in Hr as (? & _ & Hr)).
  apply bind_Ok in Hr as (? & He & _). by apply ensure_Ok in He.
Qed.

(** [n] requests in a row against one counter: how many pass. *)
Fixpoint quota_run (cl : Clock) (store : gmap string DailyCounter) (key : string) (limit : N) (n : nat) : nat :=
  match n with
  | O => 0
  | S n' => if is_ok (check_quota cl store key limit) then S (quota_run cl (record_quota cl store key) key limit n')
            else quota_run cl store key limit n'
  end.

Lemma quota_run_from (cl : Clock) (store : gmap string DailyCounter) (key : string) (limit k : N) (n : nat) :
  store !! key = Some {| dc_day := ck_day cl; dc_count := k |} → (k + N.of_nat n < u64_size)%N →
  quota_run cl store key limit n = Nat.min n (N.to_nat (limit - k)).
Proof.
  revert store k. induction n as [|n IH]; intros store k Hk Hb; [done|]. cbn [quota_run].
  assert (is_ok (check_quota cl store key limit) = negb (limit <=? k)%N) as ->.
  { unfold check_quota. rewrite Hk. cbn. rewrite String.eqb_refl. cbn. by destruct (limit <=? k)%N. }
  destruct (N.leb_spec limit k) as [Hl|Hl]; cbn [negb].
  - rewrite (IH store k Hk) by lia. lia.
  - rewrite (IH _ (k + 1)%N); [lia| |lia]. unfold record_quota. rewrite Hk. cbn. rewrite String.eqb_refl, lookup_insert_eq.
    unfold u64_add. by rewrite N.mod_small by lia.
Qed.

(** Of [n] requests of a key on a day, the first [limit] pass; with a limit of zero one does. *)
Theorem quota_exact (cl : Clock) (store : gmap string DailyCounter) (key : string) (limit : N) (n : nat) :
  (∀ c, store !! key = Some c → dc_day c ≠ ck_day cl) → (N.of_nat n < u64_size)%N →
  quota_run cl store key limit n = Nat.min n (Nat.max 1 (N.to_nat limit)).
Proof.
  intros Hc Hn. destruct n as [|n]; [done|]. cbn [quota_run].
  assert (is_ok (check_quota cl store key limit) = true) as ->.
  { unfold check_quota. destruct (store !! key) as [c|] eqn:Hk; [|done].
    by rewrite (proj2 (String.eqb_neq _ _) (Hc c eq_refl)). }
  rewrite (quota_run_from cl _ key limit 1); [lia| |lia]. unfold record_quota. rewrite lookup_insert_eq.
  destruct (store !! key) as [c|] eqn:Hk; [|done]. by rewrite (proj2 (String.eqb_neq _ _) (Hc c eq_refl)).
Qed.

(** Without a trusted proxy the headers do not choose the client that the quota counts. *)
Theorem untrusted_headers_ignored (headers : string → option string) (peer : string) :
  extract_client_ip headers peer false = peer.
Proof. done. Qed.

(** ** Quotes *)

(** The request that answers a quote with two signatures. *)
Definition accept_quote (q : QuoteResponse) (permit_signature intent_signature : string) : SponsorRequest := {|
  sr_action := qs_action q; sr_permit_message := qs_permit_message q; sr_intent_message := qs_intent_message q;
  sr_permit_signature := permit_signature; sr_intent_signature := intent_signature |}.

(** What the messages of a quote say. *)
Definition quoted (st : Relayer) (now : N) (action : SponsoredActionKind) (owner token staking amount permit_nonce : N)
    : ValidatedActionRequest :=
  let deadline := (now + lp_max_expiry_seconds (ry_policy st))%N in
  {| va_action := action; va_owner := owner; va_token_contract := token; va_staking_contract := staking;
     va_amount := amount; va_permit_nonce := permit_nonce; va_permit_deadline := deadline;
     va_relayer_nonce := nonce_of st owner; va_expires_at := deadline |}.

(** Neither the wallet nor the client has used up its quota. *)
Definition quotas_left (cl : Clock) (st : Relayer) (owner : N) (action : SponsoredActionKind) (ip : string) : Prop :=
  check_quota cl (ry_wallet_daily_counts st) (wallet_quota_key owner action)
    (cp_daily_wallet_quota (lp_chain (ry_policy st))) = Ok () ∧
  check_quota cl (ry_ip_daily_counts st) (ip_quota_key (rcf_active_chain_id (ry_config st)) ip)
    (cp_daily_ip_quota (lp_chain (ry_policy st))) = Ok ().

Lemma quote_inv (cl : Clock) (st : Relayer) request ip (permit_nonce : N) gp q :
  build_quote cl st request ip (Ok permit_nonce) gp = Ok q → (permit_nonce < u256_size)%N →
  (ck_secs cl + lp_max_expiry_seconds (ry_policy st) < u64_size)%N → 
  ∃ action owner token staking amount,
    (amount < u256_size)%N ∧ token ∈ cp_allow_contracts (lp_chain (ry_policy st)) ∧
    staking ∈ cp_allow_contracts (lp_chain (ry_policy st)) ∧
    is_ok (check_cap (lp_chain (ry_policy st)) action amount) = true ∧
    quotas_left cl st owner action ip ∧
    qs_action q = as_str action ∧
    qs_permit_message q =
      {| pm_owner := addr_display owner; pm_spender := addr_display staking; pm_value := u256_text amount;
         pm_nonce := u256_text permit_nonce; pm_deadline := u256_text (ck_secs cl + lp_max_expiry_seconds (ry_policy st)) |} ∧
    qs_intent_message q =
      {| im_owner := addr_display owner; im_token_contract := addr_display token; im_staking_contract := addr_display staking;
         im_action := as_code action; im_amount := u256_text amount; im_permit_nonce := u256_text permit_nonce;
         im_permit_deadline := u256_text (ck_secs cl + lp_max_expiry_seconds (ry_policy st));
         im_relayer_nonce := fmt_N (nonce_of st owner);
         im_expires_at := u256_text (ck_secs cl + lp_max_expiry_seconds (ry_policy st)) |}.
Proof.
  unfold build_quote. intros Hq Hp Hb. unfold u64_add in Hq. rewrite N.mod_small in Hq by done.
  apply bind_Ok in Hq as (action & _ & Hq). apply bind_Ok in Hq as (owner & _ & Hq).
  apply bind_Ok in Hq as (token & _ & Hq). apply bind_Ok in Hq as (staking & _ & Hq).
  apply bind_Ok in Hq as (amount & Ha & Hq). do 2 apply bind_Ok in Hq as (? & _ & Hq).
  apply bind_Ok in Hq as (? & Ht & Hq). apply bind_Ok in Hq as (? & Hs & Hq).
  apply bind_Ok in Hq as (? & Hcap & Hq). apply bind_Ok in Hq as ([] & Hw & Hq). apply bind_Ok in Hq as ([] & Hi & Hq).
  apply bind_Ok in Hq as (? & [= <-] & Hq). apply bind_Ok in Hq as (? & _ & [= <-]).
  unfold ensure_contract_allowed in *. apply ensure_Ok, bool_decide_eq_true in Ht, Hs.
  unfold parse_u256 in Ha. apply ok_or_Ok, u256_parse_lt in Ha.
  exists action, owner, token, staking, amount. by split_and!; try done; rewrite Hcap.
Qed.

Lemma quote_validates (cl cl' : Clock) (st st' : Relayer) request ip (permit_nonce : N) gp q psig isig :
  build_quote cl st request ip (Ok permit_nonce) gp = Ok q → (permit_nonce < u256_size)%N →
  (ck_secs cl + lp_max_expiry_seconds (ry_policy st) < u64_size)%N →
  (∀ owner, nonce_of st owner < u64_size)%N →
  ry_policy st' = ry_policy st →
  (ck_secs cl ≤ ck_secs cl' < ck_secs cl + lp_max_expiry_seconds (ry_policy st))%N →
  ∃ action owner token staking amount,
    validate_sponsor_request (ck_secs cl') st' (accept_quote q psig isig) =
      Ok (quoted st (ck_secs cl) action owner token staking amount permit_nonce) ∧
    im_relayer_nonce (qs_intent_message q) = fmt_N (nonce_of st owner) ∧
    quotas_left cl st owner action ip ∧
    pm_owner (qs_permit_message q) = addr_display owner ∧ pm_value (qs_permit_message q) = u256_text amount.
Proof.
  intros Hq Hp Hb Hn Hpol Ht.
  destruct (quote_inv _ _ _ _ _ _ _ Hq Hp Hb) as (action & owner & token & staking & amount & Ha & Hin1 & Hin2 & Hcap & Hq2 & Has & Hpm & Him).
  exists action, owner, token, staking, amount. rewrite Hpm, Him. split; [|done].
  assert (H64 : (u64_size < u256_size)%N) by done.
  unfold validate_sponsor_request, accept_quote, parse_address, parse_u256, ensure_contract_allowed. cbn [sr_action sr_permit_message sr_intent_message].
  rewrite Has, Hpm, Him. cbn [im_owner im_token_contract im_staking_contract im_action im_amount im_permit_nonce im_permit_deadline im_relayer_nonce im_expires_at pm_owner pm_spender pm_value pm_nonce pm_deadline].
  rewrite from_key_as_str, from_code_as_code, !addr_parse_display, !u256_parse_text, u256_parse_dec by (try done; specialize (Hn owner); lia).
  cbn [ok_or mbind result_bind].
  rewrite (bool_decide_eq_true_2 (action = action)) by done. rewrite Hpol, !N.eqb_refl.
  rewrite !(proj2 (N.ltb_lt _ _)) by lia. rewrite !(proj2 (N.leb_le _ _)) by lia. cbn [ensure mbind result_bind andb].
  rewrite !bool_decide_eq_true_2 by done. cbn [ensure mbind result_bind].
  apply is_ok_Ok in Hcap as [u Hcap]. by rewrite Hcap.
Qed.

(** A quote that its owner signs twice is honoured: within the time that it names, and as long
    as the nonces and the quotas are those of the quote, the relayer pays for the quoted amount
    of the quoted owner. *)
Theorem quote_is_honoured (cl cl' : Clock) (st : Relayer) headers peer request (pn : N) gp q psig isig disk id :
  build_quote cl st request (extract_client_ip headers peer (rcf_trust_proxy (ry_config st))) (Ok pn) gp = Ok q →
  (pn < u256_size)%N → (ck_secs cl + lp_max_expiry_seconds (ry_policy st) < u64_size)%N →
  (∀ owner, nonce_of st owner < u64_size)%N →
  ck_day cl' = ck_day cl → (ck_secs cl ≤ ck_secs cl' < ck_secs cl + lp_max_expiry_seconds (ry_policy st))%N →
  (∀ p, validate_sponsor_request (ck_secs cl') st (accept_quote q psig isig) = Ok p →
        verify_intent_signature st (accept_quote q psig isig) p = Ok () ∧
        verify_permit_signature st (accept_quote q psig isig) p = Ok ()) →
  ∃ st' call, sponsor_request cl' st headers peer (accept_quote q psig isig) (Ok pn) disk id = Ok (st', call) ∧
    addr_display (sc_owner call) = pm_owner (qs_permit_message q) ∧
    u256_text (sc_amount call) = pm_value (qs_permit_message q).
Proof.
  intros Hq Hp Hb Hn Hday Ht Hsig.
  destruct (quote_validates cl cl' st st _ _ _ _ _ psig isig Hq Hp Hb Hn eq_refl Ht)
    as (action & owner & token & staking & amount & Hv & Hrn & [Hw Hi] & Ho & Ha).
  destruct (Hsig _ Hv) as [Hint Hper]. set (p := quoted _ _ _ _ _ _ _ _) in *.
  assert (Hparts : ∃ sig, parse_signature_parts psig = Ok sig).
  { unfold verify_permit_signature, recover_address_from_signature in Hper. apply bind_Ok in Hper as (r & Hr & _).
    apply bind_Ok in Hr as (b & Hr & _). cbn [sr_permit_signature accept_quote] in Hr. unfold parse_signature_parts.
    rewrite Hr. cbn. eauto. }
  destruct Hparts as [sig Hparts].
  assert (Hck : ∀ store key limit, check_quota cl' store key limit = check_quota cl store key limit).
  { intros. unfold check_quota. by rewrite Hday. }
  unfold sponsor_request, sponsor_check. rewrite Hv. cbn [refuse map_err mbind result_bind].
  change (va_owner p) with owner. change (va_action p) with action. rewrite !Hck, Hw, Hi. cbn [refuse map_err mbind result_bind].
  unfold parse_u64. cbn [sr_intent_message accept_quote]. rewrite Hrn, parse_uint_fmt by (specialize (Hn owner); unfold u64_max, u64_size in *; lia).
  cbn [ok_or refuse map_err mbind result_bind]. fold (nonce_of st owner). rewrite N.eqb_refl. cbn [ensure refuse map_err mbind result_bind].
  rewrite Hint. cbn [refuse map_err mbind result_bind]. unfold sponsor_commit.
  cbn [refuse map_err mbind result_bind ch_prepared ch_request]. change (va_permit_nonce p) with pn. rewrite N.eqb_refl.
  cbn [ensure refuse map_err mbind result_bind sr_permit_signature accept_quote]. rewrite Hparts.
  cbn [refuse map_err mbind result_bind]. rewrite Hper. cbn [refuse map_err mbind result_bind].
  eexists _, _. split; [done|]. by rewrite Ho, Ha.
Qed.

(** A submitted signature carries the recovery value 27 or 28, which the contract expects. *)
Theorem submitted_v_canonical (cfg : RelayerConfig) (pol : LoadedPolicy) (call : StakingCall) :
  authorised cfg pol call → (sig_v (sc_signature call) = 27 ∨ sig_v (sc_signature call) = 28)%N.
Proof.
  intros (r & p & sig & _ & Hr & Hs & ->). cbn. unfold recover_address_from_signature in Hr.
  apply bind_Ok in Hr as (b & Hb & Hr). apply bind_Ok in Hr as (v & Hv & _).
  unfold parse_signature_parts in Hs. rewrite Hb in Hs. injection Hs as <-. cbn [sig_v].
  unfold normalize_v in Hv.
  destruct (N.eqb_spec (recovery_byte b) 0) as [->|H0]; [auto|].
  destruct (N.eqb_spec (recovery_byte b) 1) as [->|H1]; [auto|].
  destruct (N.eqb_spec (recovery_byte b) 27) as [->|H27]; [auto|].
  destruct (N.eqb_spec (recovery_byte b) 28) as [->|H28]; [auto|done].
Qed.

(** ** Binding of the intents *)

Definition keccak_collision : Prop := ∃ a b, a ≠ b ∧ keccak256 a = keccak256 b.

Lemma keccak_same (a b : string) : keccak256 a = keccak256 b → a = b ∨ keccak_collision.
Proof. intros H. destruct (decide (a = b)); [auto|]. right. by exists a, b. Qed.

Lemma app_inj_len_l (a1 a2 b1 b2 : string) :
  String.length a1 = String.length a2 → a1 +:+ b1 = a2 +:+ b2 → a1 = a2 ∧ b1 = b2.
Proof.
  intros Hl H. apply app_inj_len_r; [|done]. apply (f_equal String.length) in H. rewrite !length_app_str in H. lia.
Qed.

Lemma word_length (v : N) : String.length (word v) = 32.
Proof. unfold word. by rewrite <- length_of_str, of_to_str, length_be_bytes. Qed.

Lemma word_inj (a b : N) : (a < u256_size)%N → (b < u256_size)%N → word a = word b → a = b.
Proof.
  unfold word. intros Ha Hb H. apply (f_equal of_str) in H. rewrite !of_to_str in H.
  apply (f_equal from_be_bytes) in H. rewrite !from_be_bytes_be in H; done.
Qed.

Lemma words_inj (l1 l2 : list N) :
  length l1 = length l2 → Forall (λ v, (v < u256_size)%N) l1 → Forall (λ v, (v < u256_size)%N) l2 →
  foldr (λ v s, word v +:+ s) "" l1 = foldr (λ v s, word v +:+ s) "" l2 → l1 = l2.
Proof.
  revert l2. induction l1 as [|a l1 IH]; intros [|b l2] Hl H1 H2 H; try done. cbn [foldr] in H.
  apply Forall_cons in H1 as [Ha H1], H2 as [Hb H2]. injection Hl as Hl.
  apply app_inj_len_l in H as [Hw H]; [|by rewrite !word_length]. f_equal; [by apply word_inj|by apply IH].
Qed.

Context (keccak_length : ∀ s, String.length (keccak256 s) = 32).

Lemma typed_digest_inj name1 name2 v1 v2 c1 c2 a1 a2 type l1 l2 :
  length l1 = length l2 → Forall (λ v, (v < u256_size)%N) (c1 :: a1 :: l1) → Forall (λ v, (v < u256_size)%N) (c2 :: a2 :: l2) →
  typed_digest name1 v1 c1 a1 type l1 = typed_digest name2 v2 c2 a2 type l2 →
  keccak_collision ∨ (name1 = name2 ∧ v1 = v2 ∧ c1 = c2 ∧ a1 = a2 ∧ l1 = l2).
Proof.
  intros Hl H1 H2 H. rewrite !Forall_cons in H1, H2. destruct H1 as (? & ? & ?), H2 as (? & ? & ?).
  unfold typed_digest in H.
  destruct (keccak_same _ _ H) as [He|]; [|auto]. apply app_inj_l, app_inj_len_l in He as [Hd Hs]; [|by rewrite !keccak_length].
  destruct (keccak_same _ _ Hd) as [Hd'|]; [|auto]. destruct (keccak_same _ _ Hs) as [Hs'|]; [|auto].
  apply app_inj_l, words_inj in Hs' as ->; [|done..]. apply app_inj_l in Hd'.
  apply app_inj_len_l in Hd' as [Hn Hd']; [|by rewrite !keccak_length].
  apply app_inj_len_l in Hd' as [Hv Hd']; [|by rewrite !keccak_length].
  apply app_inj_len_l in Hd' as [Hc Ha]; [|by rewrite !word_length].
  apply word_inj in Hc as ->; [|done..]. apply word_inj in Ha as ->; [|done..].
  destruct (keccak_same _ _ Hn) as [->|]; [|auto]. destruct (keccak_same _ _ Hv) as [->|]; [|auto]. by right.
Qed.

Definition request_words (r : ValidatedActionRequest) : list N :=
  [va_owner r; va_token_contract r; va_staking_contract r; as_code (va_action r); va_amount r;
   va_permit_nonce r; va_permit_deadline r; va_relayer_nonce r; va_expires_at r].

(** A signed intent is for one relayer, one chain, one domain and one request: digests that
    agree come from the same, or exhibit a collision of keccak-256. *)
Theorem intent_binds_request n1 n2 v1 v2 c1 c2 a1 a2 (r1 r2 : ValidatedActionRequest) :
  Forall (λ v, (v < u256_size)%N) (c1 :: a1 :: request_words r1) →
  Forall (λ v, (v < u256_size)%N) (c2 :: a2 :: request_words r2) →
  hash_sponsored_intent n1 v1 c1 a1 r1 = hash_sponsored_intent n2 v2 c2 a2 r2 →
  keccak_collision ∨ (n1 = n2 ∧ v1 = v2 ∧ c1 = c2 ∧ a1 = a2 ∧ r1 = r2).
Proof.
  intros H1 H2 H. apply typed_digest_inj in H as [Hc|(-> & -> & -> & -> & Hl)]; [by left| |done..].
  right. split_and!; try done. destruct r1, r2. cbn in Hl. injection Hl as -> -> -> Hk -> -> -> -> ->.
  apply (f_equal from_code) in Hk. rewrite !from_code_as_code in Hk. by injection Hk as ->.
Qed.

End Relaying.

(** ** Receipts *)

Lemma poll_receipt_spec (n i : nat) (answers : nat → option RpcReceipt) :
  match poll_receipt n answers i with
  | Some r => ∃ j, i <= j < i + n ∧ answers j = Some r ∧ ∀ k, i <= k < j → answers k = None
  | None => ∀ k, i <= k < i + n → answers k = None
  end.
Proof.
  revert i. induction n as [|n IH]; intros i; cbn [poll_receipt]; [lia|].
  destruct (answers i) as [r|] eqn:Hi; [exists i; split_and!; [lia..|done|lia]|].
  specialize (IH (S i)). destruct (poll_receipt n answers (S i)) as [r|].
  - destruct IH as (j & Hj & Hr & Hk). exists j. split_and!; [lia..|done|]. intros k Hki.
    destruct (decide (k = i)) as [->|]; [done|apply Hk; lia].
  - intros k Hk. destruct (decide (k = i)) as [->|]; [done|apply IH; lia].
Qed.

(** A watched request leaves the submitted state after at most 90 polls: it times out exactly when
    none of the 90 answers holds a receipt, and is confirmed exactly when the first receipt says
    so; its transaction is on record. *)
Theorem watched_request_settles (cl : Clock) (statuses : gmap string RequestStatusRecord) (id tx : string) rec answers :
  statuses !! id = Some rec →
  ∃ rec', watch_request_receipt cl statuses id tx answers !! id = Some rec' ∧ st_tx_hash rec' = Some tx ∧
    st_status rec' ∈ ["confirmed"; "failed"; "timed_out"] ∧
    (st_status rec' = "timed_out" ↔ ∀ k, k < 90 → answers k = None) ∧
    (st_status rec' = "confirmed" ↔
     ∃ j r, j < 90 ∧ answers j = Some r ∧ rr_status r = Some "0x1" ∧ ∀ k, k < j → answers k = None).
Proof.
  intros Hid. unfold watch_request_receipt. pose proof (poll_receipt_spec 90 0 answers) as Hp.
  destruct (poll_receipt 90 answers 0) as [r|].
  - destruct Hp as (j & Hj & Hr & Hk). unfold receipt_status.
    assert (Hfirst : ∀ j' r', answers j' = Some r' → (∀ k, k < j' → answers k = None) → r' = r).
    { intros j' r' Hr' Hk'. destruct (lt_eq_lt_dec j j') as [[Hlt|<-]|Hlt]; [|congruence|].
      - by rewrite (Hk' j Hlt) in Hr.
      - by rewrite (Hk j') in Hr' by lia. }
    case_bool_decide as Hs; unfold update_status; rewrite lookup_alter_eq, Hid; cbn; eexists; (split; [done|]); cbn;
      (split; [done|]); (split; [set_solver|]); split.
    + split; [done|]. intros Hn. by rewrite Hn in Hr by lia.
    + split; [|done]. intros _. exists j, r. split_and!; [lia|done|done|]. intros k Hlt. apply Hk. lia.
    + split; [done|]. intros Hn. by rewrite Hn in Hr by lia.
    + split; [done|]. intros (j' & r' & _ & Hr' & Hs' & Hk'). by rewrite (Hfirst _ _ Hr' Hk') in Hs'.
  - unfold update_status. rewrite lookup_alter_eq, Hid. cbn. eexists. split; [done|]. cbn.
    split; [done|]. split; [set_solver|]. split.
    + split; [|done]. intros _ k Hk. apply Hp. lia.
    + split; [done|]. intros (j & r & Hj & Hr & _). by rewrite Hp in Hr by lia.
Qed.

(** ** The policy file *)

Definition is_ascii (s : string) : bool := forallb (λ c, (N_of_ascii c <? 128)%N) (of_str s).

Lemma is_ascii_cons (c : ascii) (s : string) :
  is_ascii (String c s) = true → push_char c = String c "" ∧ is_ascii s = true.
Proof. unfold is_ascii, push_char. cbn. intros [Hc Hs]%andb_prop. by rewrite Hc. Qed.

(** A text of ASCII characters without [${] is kept as it is by the substitution. *)
Theorem substitution_keeps_plain (env : string → option string) (s : string) :
  is_ascii s = true → str_contains "${" s = false → substitute_env_placeholders env s = s.
Proof.
  unfold substitute_env_placeholders. induction s as [|c s IH]; intros Ha Hc; [done|].
  apply is_ascii_cons in Ha as [Hp Ha]. cbn [str_contains] in Hc. apply orb_false_iff in Hc as [Hn Hc].
  cbn [String.length substitute_from]. unfold starts_with in Hn. destruct (strip_prefix _ _); [done|].
  by rewrite Hp, (IH Ha Hc).
Qed.

Lemma find_brace (name rest : string) :
  free_of "}" name = true → find_str "}" (name +:+ String "}" rest) = Some (String.length name).
Proof.
  induction name as [|c name IH]; intros Hn; [done|]. apply free_of_cons in Hn as [Hc Hn].
  rewrite app_cons_str. cbn [find_str String.length]. rewrite starts_with_cons.
  rewrite (proj2 (Ascii.eqb_neq _ _)) by done. cbn. by rewrite IH.
Qed.

Lemma take_drop_app (a b : string) (n : nat) : take_str (String.length a) (a +:+ b) = a ∧ drop_str (String.length a + n) (a +:+ b) = drop_str n b.
Proof.
  induction a as [|c a [IH1 IH2]]; [by destruct b|]. rewrite app_cons_str. cbn. rewrite IH2. by rewrite IH1.
Qed.

(** A placeholder alone is replaced by its variable, and is kept when the variable is not set. *)
Theorem placeholder_substituted (env : string → option string) (name : string) :
  free_of "}" name = true →
  substitute_env_placeholders env ("${" +:+ name +:+ "}") = default ("${" +:+ name +:+ "}") (env name).
Proof.
  intros Hn. unfold substitute_env_placeholders.
  change ("${" +:+ name +:+ "}") with (String "$" (String "{" (name +:+ String "}" ""))) at 1 2.
  cbn [String.length substitute_from].
  change (strip_prefix "${" (String "$" (String "{" (name +:+ String "}" "")))) with (Some (name +:+ String "}" "")).
  cbv iota beta. rewrite find_brace by done. cbv iota beta zeta.
  destruct (take_drop_app name (String "}" "") 1) as [Ht Hd]. rewrite Ht.
  replace (S (String.length name)) with (String.length name + 1) by lia. rewrite Hd. cbn [drop_str].
  apply app_nil_r_str.
Qed.

(** The substitution goes through the bytes of a text, and writes each byte as a character: every
    byte of a character outside ASCII becomes two. *)
Theorem substitution_mangles_non_ascii (env : string → option string) (c : ascii) (s : string) :
  (128 <= N_of_ascii c)%N →
  substitute_env_placeholders env (String c s) =
    String (byte (192 + N_of_ascii c / 64)) (String (byte (128 + N_of_ascii c mod 64)) (substitute_env_placeholders env s)).
Proof.
  intros Hc. unfold substitute_env_placeholders. cbn [String.length substitute_from].
  assert (strip_prefix "${" (String c s) = None) as ->.
  { cbn [strip_prefix]. destruct (Ascii.eqb_spec "$" c) as [<-|]; [exfalso; by apply Hc|done]. }
  unfold push_char. by rewrite (proj2 (N.ltb_ge _ _) Hc).
Qed.

Section Loading.
Context `{CR : !Crypto, ET : !Ethereum, KR : !K256, RT : !RelayTexts}.

Lemma load_actions_last (acc acts : gmap SponsoredActionKind LoadedActionPolicy) (l : list RawSelectorPolicy) (k : SponsoredActionKind) :
  load_actions acc l = Some acts →
  acts !! k = match last (filter (λ s, selector_kind s = Some k) l) with
              | Some s => (λ m, {| ap_name := rs_name s; ap_selector := rs_selector s; ap_max_amount_wei := m |})
                            <$> u256_parse (rs_max_amount_wei s)
              | None => acc !! k
              end.
Proof.
  revert acc. induction l as [|s l IH]; intros acc Hl; cbn [load_actions] in Hl; [by injection Hl as <-|].
  rewrite filter_cons. destruct (selector_kind s) as [k'|] eqn:Hk; [|by rewrite decide_False by done; apply IH].
  destruct (u256_parse (rs_max_amount_wei s)) as [m|] eqn:Hm; [|done]. cbn in Hl. rewrite (IH _ Hl).
  destruct (decide (Some k' = Some k)) as [[= ->]|Hne].
  - rewrite last_cons. destruct (last _) as [s'|]; [done|]. rewrite lookup_insert_eq, Hm. done.
  - destruct (last _); [done|]. rewrite lookup_insert_ne by congruence. done.
Qed.

(** Of the selectors of the file that allow one action, the last one sets its cap; no other
    action is allowed. *)
Theorem last_selector_sets_cap (raw : RawPolicyFile) (chain : N) (pol : LoadedPolicy) (rc : RawChainPolicy) (k : SponsoredActionKind) :
  load_policy raw chain = Some pol → head (filter (λ c, rc_id c = chain) (rp_chains raw)) = Some rc →
  ap_max_amount_wei <$> (cp_actions (lp_chain pol) !! k) =
    (s ← last (filter (λ s, selector_kind s = Some k) (rc_allow_selectors rc)); u256_parse (rs_max_amount_wei s)).
Proof.
  unfold load_policy. intros Hl Hr. rewrite Hr in Hl. cbn in Hl.
  destruct (load_actions ∅ (rc_allow_selectors rc)) as [acts|] eqn:Ha; [|done]. injection Hl as <-. cbn.
  rewrite (load_actions_last _ _ _ k Ha). destruct (last _) as [s|]; [|done]. cbn. by destruct (u256_parse _).
Qed.

(** Contracts of the file that are not addresses, such as placeholders that were not replaced,
    are dropped; when none is left the relayer refuses every request. *)
Theorem unreadable_contracts_fail_closed (raw : RawPolicyFile) (now : N) (st : Relayer) (request : SponsorRequest) (rc : RawChainPolicy) :
  load_policy raw (rcf_active_chain_id (ry_config st)) = Some (ry_policy st) →
  head (filter (λ c, rc_id c = rcf_active_chain_id (ry_config st)) (rp_chains raw)) = Some rc →
  Forall (λ c, addr_parse c = None) (rc_allow_contracts rc) →
  is_ok (validate_sponsor_request now st request) = false.
Proof.
  unfold load_policy. intros Hl Hr Hn. rewrite Hr in Hl. cbn in Hl. destruct (load_actions _ _); [|done]. cbn in Hl.
  injection Hl as Hpol. destruct (is_ok _) eqn:Ho; [|done]. apply is_ok_Ok in Ho as [p Hp].
  apply sponsor_validated in Hp as (_ & _ & Hin & _). rewrite <- Hpol in Hin. cbn in Hin.
  apply list_elem_of_omap in Hin as (c & Hc & Ha). rewrite Forall_forall in Hn. by rewrite (Hn c Hc) in Ha.
Qed.

End Loading.

(** ** Witnesses *)
Module RelayerWitness.
Import Toy RegistrationWitness.

Definition show (n : N) : string := bits (N.succ_pos n).
Definition unshow (s : string) : N := N.pred (Npos (unbits s)).

Lemma unshow_show (n : N) : unshow (show n) = n.
Proof. unfold unshow, show. rewrite unbits_of_bits, N.succ_pos_spec. apply N.pred_succ. Qed.

#[export] Instance toy_eth : Ethereum := {|
  keccak256 := @keccak256 toy_wallets; addr_parse s := unshow <$> strip_prefix "0x" s;
  addr_hex := show; u256_hex := show; u256_from_hex s := Some (unshow s); EthKey := N;
  key_parse := λ _, None; eth_address := id; eth_sign := λ _ d, d; eth_recover := λ _ _, None; sol_recover := λ _ _, 0%N;
|}.

#[export] Instance toy_texts : RelayTexts := {|
  u256_parse := parse_uint (u256_size - 1); u256_text := fmt_N; addr_display a := "0x" +:+ show a;
  nonces_json m := bits (countable.encode m); nonces_of_json s := countable.decode (unbits s);
|}.

#[export] Instance toy_texts_laws : RelayTextsLaws.
Proof.
  split; cbn -[u256_size show unshow strip_prefix].
  - intros s n Hn%parse_uint_le. change u256_size with (u256_size - 1 + 1)%N. lia.
  - intros n Hn. apply parse_uint_fmt. lia.
  - intros n Hn. apply parse_uint_fmt. lia.
  - intros a. rewrite (proj2 (strip_prefix_Some "0x" _ _) eq_refl). cbn -[show unshow]. by rewrite unshow_show.
  - intros m. by rewrite unbits_of_bits, countable.decode_encode.
Qed.

Definition cfg0 : RelayerConfig := {| rcf_relayer_address := 99; rcf_active_chain_id := 5; rcf_trust_proxy := false |}.

Definition raw0 : RawPolicyFile := {|
  rp_mode := "testnet-only"; rp_chains := [{|
    rc_id := 5; rc_label := "five"; rc_enabled := true; rc_daily_wallet_quota := 1; rc_daily_ip_quota := 4;
    rc_max_gas_per_request := 500; rc_allow_contracts := ["0x" +:+ show 1; "0x" +:+ show 2; "${UNSET}"];
    rc_allow_selectors := [{| rs_key := Some "publisher"; rs_name := "old"; rs_selector := "0x1"; rs_max_amount_wei := "10" |};
                           {| rs_key := None; rs_name := "stakeAsPublisherWithPermit(address)"; rs_selector := "0x2";
                              rs_max_amount_wei := "1000" |}] |}];
  rp_scheme := "eip712"; rp_domain_name := "Sponsored"; rp_domain_version := "1"; rp_nonce_scope := "wallet-and-chain";
  rp_max_expiry_seconds := 300 |}.

Definition pol0 : LoadedPolicy := match load_policy raw0 5 with Some p => p | None => {|
  lp_mode := ""; lp_scheme := ""; lp_domain_name := ""; lp_domain_version := ""; lp_nonce_scope := "";
  lp_max_expiry_seconds := 0; lp_chain := {| cp_id := 0; cp_label := ""; cp_enabled := false; cp_daily_wallet_quota := 0;
    cp_daily_ip_quota := 0; cp_max_gas_per_request := 0; cp_allow_contracts := []; cp_actions := ∅ |} |} end.

Lemma pol0_ok : load_policy raw0 5 = Some pol0.
Proof. by vm_compute. Qed.

Definition fresh (pol : LoadedPolicy) : Relayer := {|
  ry_config := cfg0; ry_policy := pol; ry_statuses := ∅; ry_sponsor_nonces := ∅; ry_wallet_daily_counts := ∅;
  ry_ip_daily_counts := ∅; ry_journal := None |}.

Definition at_ (t : N) : Clock := {| ck_secs := t; ck_day := "2026-01-01"; ck_text := "now" |}.
Definition no_headers : string → option string := λ _, None.

Definition ask0 : QuoteRequest := {|
  qr_owner := "0x" +:+ show 7; qr_chain_id := 5; qr_action := "Publisher"; qr_amount_wei := "500";
  qr_token_contract := "0x" +:+ show 1; qr_staking_contract := "0x" +:+ show 2 |}.

Definition quote_at (st : Relayer) : option QuoteResponse :=
  match build_quote (at_ 1000) st ask0 "10.0.0.1" (Ok 3%N) (Ok 20%N) with Ok q => Some q | Err _ => None end.

Definition dummy : QuoteResponse := {|
  qs_allowed := false; qs_action := ""; qs_relayer_address := ""; qs_estimated_gas := ""; qs_estimated_fee_wei := "";
  qs_permit_domain := {| td_name := ""; td_version := ""; td_chain_id := 0; td_verifying_contract := "" |};
  qs_permit_message := {| pm_owner := ""; pm_spender := ""; pm_value := ""; pm_nonce := ""; pm_deadline := "" |};
  qs_intent_domain := {| td_name := ""; td_version := ""; td_chain_id := 0; td_verifying_contract := "" |};
  qs_intent_message := {| im_owner := ""; im_token_contract := ""; im_staking_contract := ""; im_action := 9; im_amount := "";
    im_permit_nonce := ""; im_permit_deadline := ""; im_relayer_nonce := ""; im_expires_at := "" |} |}.

Definition st0 : Relayer := fresh pol0.
Definition q0 : QuoteResponse := default dummy (quote_at st0).

(** The signature of the owner 7 on a digest. *)
Definition sign7 (digest : string) : string := hex_encode (key_of 7 +:+ digest +:+ String (byte 27) "").

Definition prepared0 : ValidatedActionRequest := {|
  va_action := SponsorPublisher; va_owner := 7; va_token_contract := 1; va_staking_contract := 2; va_amount := 500;
  va_permit_nonce := 3; va_permit_deadline := 1300; va_relayer_nonce := 0; va_expires_at := 1300 |}.

Definition psig0 : string := sign7 (hash_permit 5 1 prepared0).
Definition isig0 : string := sign7 (hash_sponsored_intent "Sponsored" "1" 5 99 prepared0).
Definition req0 : SponsorRequest := accept_quote q0 psig0 isig0.

Definition checked0 : option Checked :=
  match sponsor_check (at_ 1001) st0 no_headers "10.0.0.1" req0 with Ok c => Some c | Err _ => None end.

Example request_accepted : validate_sponsor_request 1001 st0 req0 = Ok prepared0 ∧ is_Some checked0.
Proof. split; [by vm_compute|]. vm_compute. eauto. Qed.

Definition c0 : Checked := default {| ch_request := req0; ch_prepared := prepared0; ch_client_ip := ""; ch_expected_nonce := 9 |} checked0.

Lemma check0 : sponsor_check (at_ 1001) st0 no_headers "10.0.0.1" req0 = Ok c0.
Proof. by vm_compute. Qed.

Definition commit0 : option (Relayer * StakingCall) :=
  match sponsor_commit (at_ 1002) st0 c0 (Ok 3%N) true "r1" with Ok x => Some x | Err _ => None end.

Definition st1 : Relayer := default st0 (fst <$> commit0).
Definition call0 : StakingCall := default
  {| sc_function := ""; sc_contract := 0; sc_owner := 0; sc_amount := 0; sc_deadline := 0;
     sc_signature := {| sig_v := 0; sig_r := ""; sig_s := "" |} |} (snd <$> commit0).

Lemma commit0_ok : sponsor_commit (at_ 1002) st0 c0 (Ok 3%N) true "r1" = Ok (st1, call0).
Proof. by vm_compute. Qed.

Lemma relayer_pays_authorised_witness :
  ∃ s, sy_sent s = [call0] ∧ Forall (authorised cfg0 pol0) (sy_sent s).
Proof.
  exists {| sy_relayer := st1; sy_waiting := []; sy_sent := [call0] |}. split; [done|].
  apply (relayer_pays_authorised st0). unfold fresh_system.
  eapply rtc_l; [apply (step_check (at_ 1001) st0 [] [] no_headers "10.0.0.1" req0 c0 check0)|].
  eapply rtc_l; [apply (step_commit (at_ 1002) st0 [] c0 [] [] (Ok 3%N) true "r1" st1 call0 commit0_ok)|]. apply rtc_refl.
Defined.

Lemma race_pays_twice_witness :
  ∃ st2, rtc relayer_step (fresh_system st0) {| sy_relayer := st2; sy_waiting := []; sy_sent := [call0; call0] |} ∧
         ry_sponsor_nonces st2 = ry_sponsor_nonces st1.
Proof.
  apply (race_pays_twice (at_ 1001) st0 no_headers "10.0.0.1" req0 c0 3 true "r1" "r2" st1 call0);
    [exact check0|by vm_compute].
Defined.

(** The owner 7 has been served five times since the request was checked. *)
Definition st_later : Relayer := {|
  ry_config := cfg0; ry_policy := pol0; ry_statuses := ∅;
  ry_sponsor_nonces := {[ sponsor_nonce_key 5 7 := 5%N ]}; ry_wallet_daily_counts := ∅; ry_ip_daily_counts := ∅;
  ry_journal := None |}.

Lemma late_commit_rewinds_nonce_witness :
  ∃ st', (current_nonce (ry_sponsor_nonces st') (sponsor_nonce_key 5 7) < current_nonce (ry_sponsor_nonces st_later) (sponsor_nonce_key 5 7))%N.
Proof.
  destruct (commit_elsewhere (at_ 1002) st0 st_later c0 (Ok 3%N) true "r1" st1 call0 eq_refl commit0_ok) as (st' & Hc & _).
  exists st'. apply (late_commit_rewinds_nonce (at_ 1002) st_later st' c0 (Ok 3%N) true "r1" call0 Hc); by vm_compute.
Defined.

Definition in0 (id : string) : Input := {|
  in_clock := at_ 1001; in_headers := no_headers; in_peer := "10.0.0.1"; in_request := req0;
  in_nonce := Ok 3%N; in_disk := true; in_id := id |}.

Lemma sequential_intents_once_witness :
  (serve_all st0 [in0 "a"; in0 "b"]).2 = [(7, 0)%N] ∧ NoDup (serve_all st0 [in0 "a"; in0 "b"]).2.
Proof.
  split; [by vm_compute|]. apply (sequential_intents_once st0 [in0 "a"; in0 "b"]). intros owner.
  unfold nonce_of, current_nonce. change (ry_sponsor_nonces st0) with (∅ : gmap string N). by rewrite lookup_empty.
Defined.

Lemma restart_recovers_nonces_witness : ry_sponsor_nonces (restart st1) = ry_sponsor_nonces st1 ∧ ry_sponsor_nonces st1 ≠ ∅.
Proof.
  split; [exact (restart_recovers_nonces (at_ 1002) st0 st1 c0 (Ok 3%N) true "r1" call0 commit0_ok)|].
  intros He. apply (f_equal (λ m : gmap string N, bool_decide (m = ∅))) in He. by vm_compute in He.
Defined.

Lemma quota_exact_witness : quota_run (at_ 0) ∅ "k" 0 5 = 1.
Proof. apply (quota_exact (at_ 0) ∅ "k" 0 5); [intros c Hc; by rewrite lookup_empty in Hc|done]. Defined.

Lemma quote_is_honoured_witness :
  ∃ st' call, sponsor_request (at_ 1001) st0 no_headers "10.0.0.1" (accept_quote q0 psig0 isig0) (Ok 3%N) true "r1" = Ok (st', call) ∧
    addr_display (sc_owner call) = pm_owner (qs_permit_message q0) ∧
    u256_text (sc_amount call) = pm_value (qs_permit_message q0).
Proof.
  apply (quote_is_honoured (at_ 1000) (at_ 1001) st0 no_headers "10.0.0.1" ask0 3 (Ok 20%N) q0 psig0 isig0 true "r1").
  - by vm_compute.
  - done.
  - done.
  - intros owner. unfold nonce_of, current_nonce. change (ry_sponsor_nonces st0) with (∅ : gmap string N). by rewrite lookup_empty.
  - done.
  - done.
  - intros p Hp. change (validate_sponsor_request 1001 st0 req0 = Ok p) in Hp. rewrite (proj1 request_accepted) in Hp.
    injection Hp as <-. by vm_compute.
Defined.

Lemma authorised0 : authorised cfg0 pol0 call0.
Proof.
  destruct (check_inv _ _ _ _ _ _ check0) as (_ & _ & Hsh & _).
  destruct (commit_inv _ _ _ _ _ _ _ _ commit0_ok) as (_ & _ & _ & _ & _ & sig & Hs & Hr & Hc).
  exists req0, (ch_prepared c0), sig. split; [exact Hsh|]. split; [exact Hr|]. split; [exact Hs|exact Hc].
Qed.

Lemma submitted_v_canonical_witness : (sig_v (sc_signature call0) = 27 ∨ sig_v (sc_signature call0) = 28)%N.
Proof.
  apply (submitted_v_canonical cfg0 pol0 call0 authorised0).
Defined.

Lemma toy_keccak_length (s : string) : String.length (keccak256 s) = 32.
Proof.
  change (keccak256 s) with (if String.length s =? 64 then to_str (replicate 12 (byte 0) ++ take 20 (of_str s)) else digest s).
  destruct (String.length s =? 64) eqn:Hs; [|apply length_fit].
  apply Nat.eqb_eq in Hs. rewrite <- length_of_str, of_to_str, length_app, length_replicate, length_take, length_of_str, Hs. done.
Qed.

Lemma intent_binds_request_witness :
  keccak_collision ∨ ("Sponsored" = "Sponsored" ∧ "1" = "1" ∧ 5%N = 5%N ∧ 99%N = 99%N ∧ prepared0 = prepared0).
Proof.
  apply (intent_binds_request toy_keccak_length "Sponsored" "Sponsored" "1" "1" 5 5 99 99 prepared0 prepared0);
    [by repeat constructor|by repeat constructor|done].
Defined.

Definition status0 : gmap string RequestStatusRecord := ry_statuses st1.

Lemma watched_request_settles_witness :
  ∃ rec', watch_request_receipt (at_ 1100) status0 "r1" "0xaa" (λ _, None) !! "r1" = Some rec' ∧ st_status rec' = "timed_out".
Proof.
  destruct (watched_request_settles (at_ 1100) status0 "r1" "0xaa"
              (default {| st_request_id := ""; st_status := ""; st_action := ""; st_owner := ""; st_chain_id := 0;
                          st_tx_hash := None; st_block_number := None; st_message := ""; st_created_at := "";
                          st_updated_at := "" |} (status0 !! "r1")) (λ _, None)) as (rec' & Hr & _ & _ & Ht & _);
    [by vm_compute|]. exists rec'. split; [done|]. by apply Ht.
Defined.

Lemma substitution_keeps_plain_witness : substitute_env_placeholders no_headers "0x12$ {}" = "0x12$ {}".
Proof. by apply (substitution_keeps_plain no_headers "0x12$ {}"). Defined.

Lemma placeholder_substituted_witness : substitute_env_placeholders no_headers ("${" +:+ "UNSET" +:+ "}") = "${UNSET}".
Proof. by apply (placeholder_substituted no_headers "UNSET"). Defined.

Lemma substitution_mangles_non_ascii_witness :
  substitute_env_placeholders no_headers (String (byte 195) (String (byte 169) "")) =
    String (byte 195) (String (byte 131) (String (byte 194) (String (byte 169) ""))).
Proof. by apply (substitution_mangles_non_ascii no_headers (byte 195) (String (byte 169) "")). Defined.

Lemma last_selector_sets_cap_witness : ap_max_amount_wei <$> (cp_actions (lp_chain pol0) !! SponsorPublisher) = Some 1000%N.
Proof.
  destruct (head (filter (λ c, rc_id c = 5%N) (rp_chains raw0))) as [rc|] eqn:Hrc; [|by vm_compute in Hrc].
  rewrite (last_selector_sets_cap raw0 5 pol0 rc SponsorPublisher pol0_ok Hrc). injection Hrc as <-. by vm_compute.
Defined.

Definition raw_unset : RawPolicyFile := {|
  rp_mode := "testnet-only"; rp_chains := [{|
    rc_id := 5; rc_label := "five"; rc_enabled := true; rc_daily_wallet_quota := 1; rc_daily_ip_quota := 4;
    rc_max_gas_per_request := 500; rc_allow_contracts := ["${UNSET}"]; rc_allow_selectors := [] |}];
  rp_scheme := "eip712"; rp_domain_name := "Sponsored"; rp_domain_version := "1"; rp_nonce_scope := "wallet-and-chain";
  rp_max_expiry_seconds := 300 |}.

Definition st_unset : Relayer := fresh (default pol0 (load_policy raw_unset 5)).

Lemma unreadable_contracts_fail_closed_witness : is_ok (validate_sponsor_request 1001 st_unset req0) = false.
Proof.
  apply (unreadable_contracts_fail_closed raw_unset 1001 st_unset req0 (default {|
    rc_id := 0; rc_label := ""; rc_enabled := false; rc_daily_wallet_quota := 0; rc_daily_ip_quota := 0;
    rc_max_gas_per_request := 0; rc_allow_contracts := []; rc_allow_selectors := [] |} (head (rp_chains raw_unset)))); by vm_compute; repeat constructor.
Defined.

End RelayerWitness.
