(* ===== verification/Faucet.v ===== *)
(** The testnet faucet (faucet/src/main.rs).

    A drip solves a proof-of-work challenge, passes the cooldowns of its address and of its
    client, and sends tokens and gas to an address that holds too little of them.  Cooldowns are
    kept in memory and, when a database is configured, in a table that outlives the process.
    Instants are nanoseconds of the monotonic clock and [unix] seconds of the wall clock.  The
    handler is split at its suspensions: [drip_check] runs before the balances are read,
    [drip_send] until the transfers end, [drip_record] after them. *)

From S2P Require Import Prelude Text Crypto Threshold Zk Relayer.
From Stdlib Require Import Ascii NArith.

Record FaucetConfig := {
  fc_drip_amount : N;
  fc_native_drip_amount : N;
  fc_cooldown_secs : N;
  fc_ip_cooldown_secs : N;
  fc_max_balance : N;
  fc_native_max_balance : N;
}.

Definition default_faucet : FaucetConfig := {|
  fc_drip_amount := 1000 * 10 ^ 18; fc_native_drip_amount := 10 ^ 17; fc_cooldown_secs := 60;
  fc_ip_cooldown_secs := 60; fc_max_balance := 10000 * 10 ^ 18; fc_native_max_balance := 10 ^ 18 |}.

Record Time := { inst : N; unix : Z }.

Definition secs_ns (s : N) : N := s * 1000000000.

(** ** Cooldowns *)

Record MemoryLimiter := { address_last_request : gmap string N; ip_last_request : gmap string N }.

(** [check_address] and [check_ip] of the memory: the seconds to wait, when there are any. *)
Definition check_memory (now : N) (store : gmap string N) (key : string) (cooldown : N) : result N unit :=
  match store !! key with
  | Some last =>
      let elapsed := (now - last)%N in
      if (elapsed <? secs_ns cooldown)%N then Err (N.max 1 ((secs_ns cooldown - elapsed) / 1000000000)) else Ok tt
  | None => Ok tt
  end.

(** The table of the database, [None] without one; [reachable] is whether a query succeeds. *)
Record PersistentRateLimiter := { memory : MemoryLimiter; pg : option (gmap string Z) }.

(** The query of a key and its comparison, shared by the two checks. *)
Definition check_table (now : Z) (reachable : bool) (table : option (gmap string Z)) (key : string) (cooldown : N)
    : result N unit :=
  match table ≫= (λ t, if reachable then t !! key else None) with
  | Some last_unix =>
      let elapsed_secs := Z.to_N (Z.max (now - last_unix) 0) in
      if (elapsed_secs <? cooldown)%N then Err (cooldown - elapsed_secs)%N else Ok tt
  | None => Ok tt
  end.

Section Faucet.
Context `{CR : !Crypto, SD : !Std}.

Definition check_address (t : Time) (reachable : bool) (l : PersistentRateLimiter) (address : string) (cooldown : N)
    : result N unit :=
  _ ← check_memory (inst t) (address_last_request (memory l)) (to_lowercase address) cooldown;
  check_table (unix t) reachable (pg l) ("addr:" +:+ to_lowercase address) cooldown.

Definition check_ip (t : Time) (reachable : bool) (l : PersistentRateLimiter) (ip : string) (cooldown : N) : result N unit :=
  _ ← check_memory (inst t) (ip_last_request (memory l)) ip cooldown;
  check_table (unix t) reachable (pg l) ("ip:" +:+ ip) cooldown.

(** The two writes of the table succeed or fail on their own. *)
Definition record_request (t : Time) (written_addr written_ip : bool) (l : PersistentRateLimiter) (address ip : string)
    : PersistentRateLimiter :=
  {| memory := {| address_last_request := <[to_lowercase address := inst t]> (address_last_request (memory l));
                  ip_last_request := <[ip := inst t]> (ip_last_request (memory l)) |};
     pg := (λ table,
              let table1 := if written_addr then <["addr:" +:+ to_lowercase address := unix t]> table else table in
              if written_ip then <["ip:" +:+ ip := unix t]> table1 else table1) <$> pg l |}.

(** A restarted process has the table only. *)
Definition restart_limiter (l : PersistentRateLimiter) : PersistentRateLimiter :=
  {| memory := {| address_last_request := ∅; ip_last_request := ∅ |}; pg := pg l |}.

(** ** Proof of work *)

Record PowChallenge := { pc_difficulty : N; pc_created_at : N }.

Definition POW_DIFFICULTY : N := 20.
Definition POW_TTL : N := 120.

(** [u8::leading_zeros] *)
Definition leading_zeros (b : N) : N := 8 - N.size b.

(** The loop over the bytes of the hash; the counter is a [u8]. *)
Fixpoint count_zeros (hash : bytes) (zeros difficulty : N) : N :=
  match hash with
  | [] => zeros
  | c :: hash' =>
      if (N_of_ascii c =? 0)%N then
        let zeros' := ((zeros + 8) mod 256)%N in
        if (difficulty <=? zeros')%N then zeros' else count_zeros hash' zeros' difficulty
      else ((zeros + leading_zeros (N_of_ascii c)) mod 256)%N
  end.

Definition verify_pow (challenge nonce : string) (difficulty : N) : bool :=
  (difficulty <=? count_zeros (of_str (sha256 (challenge +:+ nonce))) 0 difficulty)%N.

(** ** The service *)

Record FaucetStats := {
  total_drips : N; total_distributed : N; total_native_distributed : N; unique_addresses : nat; last_drip : option Z;
}.

Definition no_stats : FaucetStats :=
  {| total_drips := 0; total_distributed := 0; total_native_distributed := 0; unique_addresses := 0; last_drip := None |}.

Record Faucet := {
  f_config : FaucetConfig;
  f_limiter : PersistentRateLimiter;
  f_pow_challenges : gmap string PowChallenge;
  f_stats : FaucetStats;
  f_is_paused : bool;
}.

Definition with_limiter (f : Faucet) (l : PersistentRateLimiter) : Faucet :=
  {| f_config := f_config f; f_limiter := l; f_pow_challenges := f_pow_challenges f; f_stats := f_stats f; f_is_paused := f_is_paused f |}.
Definition with_challenges (f : Faucet) (m : gmap string PowChallenge) : Faucet :=
  {| f_config := f_config f; f_limiter := f_limiter f; f_pow_challenges := m; f_stats := f_stats f; f_is_paused := f_is_paused f |}.
Definition with_stats (f : Faucet) (s : FaucetStats) : Faucet :=
  {| f_config := f_config f; f_limiter := f_limiter f; f_pow_challenges := f_pow_challenges f; f_stats := s; f_is_paused := f_is_paused f |}.
Definition with_paused (f : Faucet) (b : bool) : Faucet :=
  {| f_config := f_config f; f_limiter := f_limiter f; f_pow_challenges := f_pow_challenges f; f_stats := f_stats f; f_is_paused := b |}.

Definition alive (now : N) (c : PowChallenge) : bool := (now - pc_created_at c <? secs_ns POW_TTL)%N.

(** [get_challenge]: [random] are the sixteen bytes drawn. *)
Definition get_challenge (now : N) (random : string) (f : Faucet) : Faucet * string :=
  let challenge := hex_encode random in
  let kept := filter (λ kc, alive now kc.2 = true) (f_pow_challenges f) in
  (with_challenges f (<[challenge := {| pc_difficulty := POW_DIFFICULTY; pc_created_at := now |}]> kept), challenge).

Record DripRequest := { dr_address : string; dr_challenge : option string; dr_nonce : option string }.

Inductive DripRefusal :=
| Paused | MissingChallenge | MissingNonce | InvalidSolution | UnknownChallenge | InvalidAddress
| AddressCooldown (retry_after : N) | IpCooldown (retry_after : N)
| OutOfTokens | OutOfGas | EnoughFunds | TransfersFailed.

Definition refusal_code (r : DripRefusal) : N :=
  match r with
  | Paused | OutOfTokens | OutOfGas => 503
  | AddressCooldown _ | IpCooldown _ => 429
  | TransfersFailed => 500
  | _ => 400
  end.

(** The client of a request, from its headers before its connection. *)
Definition drip_client_ip (headers : string → option string) (peer : string) : string :=
  let forwarded := v ← headers "x-forwarded-for"; trim <$> head (split "," v) in
  match forwarded with
  | Some ip => ip
  | None => default peer (trim <$> headers "x-real-ip")
  end.

(** The proof of work of a request; its challenge is taken out before it is looked at. *)
Definition take_pow (now : N) (f : Faucet) (request : DripRequest) : Faucet * result DripRefusal unit :=
  match dr_challenge request with
  | None => (f, Err MissingChallenge)
  | Some challenge =>
      match dr_nonce request with
      | None => (f, Err MissingNonce)
      | Some nonce =>
          let f' := with_challenges f (delete challenge (f_pow_challenges f)) in
          match f_pow_challenges f !! challenge with
          | Some pc =>
              if alive now pc then (f', ensure (verify_pow challenge nonce (pc_difficulty pc)) InvalidSolution)
              else (f', Err UnknownChallenge)
          | None => (f', Err UnknownChallenge)
          end
      end
  end.

(** A request whose cooldowns have passed. *)
Record Drip := { d_address : string; d_client_ip : string }.

(** [handle_drip], up to the reading of the balances. *)
Definition drip_check (t : Time) (pow_enabled reachable : bool) (f : Faucet) (headers : string → option string)
    (peer : string) (request : DripRequest) : Faucet * result DripRefusal Drip :=
  if f_is_paused f then (f, Err Paused)
  else
    let address := to_lowercase (dr_address request) in
    let '(f', pow) := if pow_enabled then take_pow (inst t) f request else (f, Ok tt : result DripRefusal unit) in
    (f', (_ ← pow;
         _ ← ensure (starts_with "0x" address && (String.length address =? 42)) InvalidAddress;
         let client_ip := drip_client_ip headers peer in
         _ ← map_err AddressCooldown (check_address t reachable (f_limiter f') address (fc_cooldown_secs (f_config f')));
         _ ← map_err IpCooldown (check_ip t reachable (f_limiter f') client_ip (fc_ip_cooldown_secs (f_config f')));
         Ok {| d_address := address; d_client_ip := client_ip |}) : result DripRefusal Drip).

(** What the node answers: the balances of the address and of the faucet, [None] on an error. *)
Record Balances := { b_token : option N; b_native : option N; b_faucet_token : option N; b_faucet_native : option N }.

(** A transfer that was not accepted, was accepted and not confirmed, or was confirmed. *)
Inductive Transfer := NotSent | Unconfirmed (tx : string) | Confirmed (tx : string).

(** What [execute_token_transfer] and [execute_native_transfer] return of it. *)
Definition transfer_hash (t : Transfer) : option string :=
  match t with Confirmed tx => Some tx | _ => None end.

Definition below (limit : N) (balance : option N) : bool :=
  match balance with Some b => (b <? limit)%N | None => true end.

Definition should_send_token (c : FaucetConfig) (b : Balances) : bool := below (fc_max_balance c) (b_token b).

Definition should_send_native (c : FaucetConfig) (b : Balances) : bool :=
  if (fc_native_drip_amount c =? 0)%N then false else below (fc_native_max_balance c) (b_native b).

(** The transfers to attempt, token and gas. *)
Definition drip_plan (c : FaucetConfig) (b : Balances) : result DripRefusal (bool * bool) :=
  let token := should_send_token c b in
  let native := should_send_native c b in
  _ ← ensure (negb (token && match b_faucet_token b with Some n => (n <? fc_drip_amount c)%N | None => false end)) OutOfTokens;
  _ ← ensure (negb (native && match b_faucet_native b with Some n => (n <? fc_native_drip_amount c)%N | None => false end)) OutOfGas;
  _ ← ensure (token || native) EnoughFunds;
  Ok (token, native).

(** The hashes of the transfers that were attempted and confirmed; [token] and [native] are what
    the node makes of a transfer. *)
Definition drip_send (c : FaucetConfig) (b : Balances) (token native : Transfer)
    : result DripRefusal (option string * option string) :=
  match drip_plan c b with
  | Ok (send_token, send_native) =>
      Ok (if send_token then transfer_hash token else None, if send_native then transfer_hash native else None)
  | Err e => Err e
  end.

Definition u128_saturating_add (a b : N) : N := N.min (2 ^ 128 - 1) (a + b).

Record DripResponse := { rs_tx_hash : option string; rs_token_tx_hash : option string; rs_native_tx_hash : option string; rs_cooldown_seconds : N }.

(** The rest of [handle_drip]. *)
Definition drip_record (t : Time) (written_addr written_ip : bool) (f : Faucet) (d : Drip)
    (token_tx native_tx : option string) : Faucet * result DripRefusal DripResponse :=
  if bool_decide (is_Some token_tx) || bool_decide (is_Some native_tx) then
    let l := record_request t written_addr written_ip (f_limiter f) (d_address d) (d_client_ip d) in
    let s := f_stats f in
    let c := f_config f in
    let stats := {|
      total_drips := u64_add (total_drips s) 1;
      total_distributed := if bool_decide (is_Some token_tx) then u128_saturating_add (total_distributed s) (fc_drip_amount c) else total_distributed s;
      total_native_distributed :=
        if bool_decide (is_Some native_tx) then u128_saturating_add (total_native_distributed s) (fc_native_drip_amount c) else total_native_distributed s;
      unique_addresses := size (address_last_request (memory l)); last_drip := Some (unix t) |} in
    (with_stats (with_limiter f l) stats,
     Ok {| rs_tx_hash := match token_tx with Some h => Some h | None => native_tx end;
           rs_token_tx_hash := token_tx; rs_native_tx_hash := native_tx; rs_cooldown_seconds := fc_cooldown_secs c |})
  else (f, Err TransfersFailed).

(** ** Operators *)

(** [check_admin_auth]: the status of a refusal. *)
Definition check_admin_auth (admin_token : string) (authorization : option string) : result N unit :=
  if is_empty admin_token then Err 403%N
  else ensure (String.eqb (default "" authorization) ("Bearer " +:+ admin_token)) 401%N.

Definition admin_set_paused (admin_token : string) (authorization : option string) (b : bool) (f : Faucet) : Faucet * N :=
  match check_admin_auth admin_token authorization with
  | Ok _ => (with_paused f b, 200%N)
  | Err code => (f, code)
  end.

(** A new process: the table is all that is left, and the configuration. *)
Definition restart_faucet (f : Faucet) : Faucet := {|
  f_config := f_config f; f_limiter := restart_limiter (f_limiter f); f_pow_challenges := ∅; f_stats := no_stats;
  f_is_paused := false |}.

(** What happens to a faucet: the handlers, in the parts between which others run, and restarts. *)
Inductive FaucetEvent :=
| FChallenge (random : string)
| FCheck (pow_enabled reachable : bool) (headers : string → option string) (peer : string) (request : DripRequest)
| FRecord (written_addr written_ip : bool) (d : Drip) (token_tx native_tx : option string)
| FPause (admin_token : string) (authorization : option string) (b : bool)
| FRestart.

Definition faucet_step (t : Time) (f : Faucet) (e : FaucetEvent) : Faucet :=
  match e with
  | FChallenge random => (get_challenge (inst t) random f).1
  | FCheck pow reachable headers peer request => (drip_check t pow reachable f headers peer request).1
  | FRecord wa wi d token_tx native_tx => (drip_record t wa wi f d token_tx native_tx).1
  | FPause admin auth b => (admin_set_paused admin auth b f).1
  | FRestart => restart_faucet f
  end.

Definition faucet_run (f : Faucet) (history : list (Time * FaucetEvent)) : Faucet :=
  foldl (λ f e, faucet_step e.1 f e.2) f history.

Definition is_restart (e : FaucetEvent) : bool := match e with FRestart => true | _ => false end.

(** [health_check]: the status code and the word, of the balances of the faucet. *)
Definition health_check (c : FaucetConfig) (token native : option N) : N * string :=
  match token, native with
  | Some balance, Some native_balance =>
      let token_ready := (fc_drip_amount c <=? balance)%N in
      let native_ready := (fc_native_drip_amount c =? 0)%N || (fc_native_drip_amount c <=? native_balance)%N in
      (if token_ready || native_ready then 200%N else 503%N,
       if token_ready && native_ready then "healthy" else if token_ready || native_ready then "degraded" else "unavailable")
  | _, _ => (503%N, "degraded")
  end.

Definition chain_display_name (chain_id : N) : string :=
  if (chain_id =? 11155111)%N then "CREG Testnet (Sepolia)"
  else if (chain_id =? 31337)%N then "CREG Testnet (Anvil)" else "CREG Testnet".

End Faucet.

(** ** Proof of work *)

(** The zero bits at the head of a hash, without the loop's early exit. *)
Fixpoint zero_bits (hash : bytes) : N :=
  match hash with
  | [] => 0
  | c :: hash' => if (N_of_ascii c =? 0)%N then 8 + zero_bits hash' else leading_zeros (N_of_ascii c)
  end.

Lemma leading_zeros_lt (c : ascii) : (N_of_ascii c ≠ 0)%N → (leading_zeros (N_of_ascii c) < 8)%N.
Proof.
  intros Hc. unfold leading_zeros. assert (0 < N.size (N_of_ascii c))%N by (destruct (N_of_ascii c); [done|cbn; lia]). lia.
Qed.

Lemma count_zeros_enough (hash : bytes) (zeros d : N) :
  (zeros < d ≤ 248)%N → (d <=? count_zeros hash zeros d)%N = (d <=? zeros + zero_bits hash)%N.
Proof.
  revert zeros. induction hash as [|c hash IH]; intros zeros Hz; cbn [count_zeros zero_bits]; [by rewrite N.add_0_r|].
  destruct (N.eqb_spec (N_of_ascii c) 0) as [Hc|Hc].
  - rewrite N.mod_small by lia. destruct (N.leb_spec d (zeros + 8)) as [Hle|Hgt].
    + rewrite (proj2 (N.leb_le _ _) Hle). symmetry. apply N.leb_le. lia.
    + rewrite IH by lia. f_equal. lia.
  - pose proof (leading_zeros_lt c Hc). by rewrite N.mod_small by lia.
Qed.

Lemma size_lt (n k : N) : (N.size n ≤ k)%N ↔ (n < 2 ^ k)%N.
Proof.
  destruct (decide (n = 0)%N) as [->|Hn].
  - cbn. split; [|lia]. intros _. pose proof (N.pow_nonzero 2 k). lia.
  - rewrite N.size_log2 by done. rewrite N.le_succ_l. symmetry. apply N.log2_lt_pow2. lia.
Qed.

Lemma from_be_cons (c : ascii) (h : bytes) : from_be_bytes (c :: h) = (N_of_ascii c * 256 ^ N.of_nat (length h) + from_be_bytes h)%N.
Proof. unfold from_be_bytes at 1. cbn [foldl]. rewrite from_be_app. lia. Qed.

Lemma pow_256 (n : nat) : (256 ^ N.of_nat n = 2 ^ (8 * N.of_nat n))%N.
Proof. change 256%N with (2 ^ 8)%N. by rewrite <- N.pow_mul_r. Qed.

Lemma zero_bits_value (h : bytes) (d : N) :
  (d ≤ 8 * N.of_nat (length h))%N → (d ≤ zero_bits h ↔ from_be_bytes h < 2 ^ (8 * N.of_nat (length h) - d))%N.
Proof.
  revert d. induction h as [|c h IH]; intros d Hd; [cbn in *; split; [intros; cbn; lia|lia]|].
  cbn [zero_bits]. rewrite from_be_cons, pow_256. pose proof (from_be_lt h) as Hr. rewrite pow_256 in Hr.
  cbn [length] in Hd |- *. set (k := (8 * N.of_nat (length h))%N) in *. set (r := from_be_bytes h) in *.
  replace (8 * N.of_nat (S (length h)))%N with (k + 8)%N in * by lia.
  destruct (N.eqb_spec (N_of_ascii c) 0) as [->|Hc].
  - rewrite N.mul_0_l, N.add_0_l. destruct (N.le_gt_cases d 8) as [Hle|Hgt].
    + split; [|lia]. intros _. apply (N.lt_le_trans _ _ _ Hr). apply N.pow_le_mono_r; lia.
    + replace (k + 8 - d)%N with (k - (d - 8))%N by lia. rewrite <- IH by lia. lia.
  - unfold leading_zeros. destruct (N.le_gt_cases d 8) as [Hle|Hgt].
    + replace (k + 8 - d)%N with (8 - d + k)%N by lia. rewrite N.pow_add_r.
      pose proof (size_lt (N_of_ascii c) (8 - d)) as Hs.
      pose proof (N.pow_nonzero 2 k ltac:(lia)). set (p := (2 ^ k)%N) in *. set (q := (2 ^ (8 - d))%N) in *.
      pose proof (size_lt (N_of_ascii c) 8) as H8. pose proof (N_ascii_bounded c) as Hb.
      assert (N.size (N_of_ascii c) ≤ 8)%N by (apply H8; exact Hb).
      split; [intros Hz; assert (N_of_ascii c < q)%N by (apply Hs; lia); nia|].
      intros Hz. assert (N_of_ascii c < q)%N as Hq by nia. apply Hs in Hq. lia.
    + assert (8 - N.size (N_of_ascii c) < d)%N by lia. split; [lia|]. intros Hlt. exfalso.
      assert (2 ^ (k + 8 - d) ≤ 2 ^ k)%N by (apply N.pow_le_mono_r; lia). nia.
Qed.

Section Dripping.
Context `{CR : !Crypto, CL : !CryptoLaws, SD : !Std}.

(** A proof of work is accepted exactly when the hash of the challenge and the nonce, read as a
    number of 256 bits, is below [2^(256 - difficulty)]. *)
Theorem pow_exact (challenge nonce : string) (d : N) :
  (d ≤ 248)%N → verify_pow challenge nonce d = true ↔ (from_be_bytes (of_str (sha256 (challenge +:+ nonce))) < 2 ^ (256 - d))%N.
Proof.
  intros Hd. unfold verify_pow. set (h := of_str _).
  assert (Hl : length h = 32) by (unfold h; by rewrite length_of_str, sha256_length).
  assert (Hz := zero_bits_value h d). rewrite Hl in Hz. change (8 * N.of_nat 32)%N with 256%N in Hz. rewrite <- Hz by lia.
  destruct (decide (d = 0)%N) as [->|H0]; [split; [lia|intros; apply N.leb_le; lia]|].
  rewrite count_zeros_enough by lia. apply N.leb_le.
Qed.


(** ** Cooldowns *)

Lemma check_memory_held (t now last cooldown : N) (store : gmap string N) (key : string) :
  store !! key = Some last → (t ≤ last)%N → (t ≤ now < t + secs_ns cooldown)%N →
  is_ok (check_memory now store key cooldown) = false.
Proof. intros Hl Ht Hn. unfold check_memory. rewrite Hl. by rewrite (proj2 (N.ltb_lt _ _)) by lia. Qed.

Lemma check_table_held (t now last : Z) (table : gmap string Z) (key : string) (cooldown : N) :
  table !! key = Some last → (t ≤ last)%Z → (t ≤ now < t + Z.of_N cooldown)%Z →
  is_ok (check_table now true (Some table) key cooldown) = false.
Proof.
  intros Hl Ht Hn. unfold check_table. cbn [mbind option_bind]. rewrite Hl. by rewrite (proj2 (N.ltb_lt _ _)) by lia.
Qed.

Lemma drip_check_limiter (t : Time) (pow reachable : bool) (f : Faucet) headers peer request :
  f_limiter (drip_check t pow reachable f headers peer request).1 = f_limiter f ∧
  f_config (drip_check t pow reachable f headers peer request).1 = f_config f ∧
  f_stats (drip_check t pow reachable f headers peer request).1 = f_stats f.
Proof.
  unfold drip_check, take_pow. destruct (f_is_paused f); [done|].
  destruct pow; [|done]. destruct (dr_challenge request) as [c|]; [|done]. destruct (dr_nonce request); [|done].
  destruct (f_pow_challenges f !! c) as [pc|]; [|done]. by destruct (alive _ _).
Qed.

Lemma drip_check_Ok (t : Time) (pow reachable : bool) (f : Faucet) headers peer request (d : Drip) :
  (drip_check t pow reachable f headers peer request).2 = Ok d →
  f_is_paused f = false ∧ d_address d = to_lowercase (dr_address request) ∧ d_client_ip d = drip_client_ip headers peer ∧
  check_address t reachable (f_limiter f) (d_address d) (fc_cooldown_secs (f_config f)) = Ok () ∧
  check_ip t reachable (f_limiter f) (d_client_ip d) (fc_ip_cooldown_secs (f_config f)) = Ok ().
Proof.
  intros Hd. destruct (drip_check_limiter t pow reachable f headers peer request) as (Hl & Hc & _).
  unfold drip_check in *. destruct (f_is_paused f); [done|].
  destruct (if pow then _ else _) as [f' r]. cbn [fst snd] in *. rewrite Hl, Hc in Hd. res_inv. done.
Qed.

(** Neither the configuration nor, but for a record or a restart, the cooldowns are touched. *)
Lemma faucet_step_limiter (t : Time) (f : Faucet) (e : FaucetEvent) :
  f_config (faucet_step t f e) = f_config f ∧
  (f_limiter (faucet_step t f e) = f_limiter f ∨
   f_limiter (faucet_step t f e) = restart_limiter (f_limiter f) ∧ is_restart e = true ∨
   ∃ wa wi address ip, f_limiter (faucet_step t f e) = record_request t wa wi (f_limiter f) address ip).
Proof.
  destruct e as [random|pow reachable headers peer request|wa wi d x y|admin auth b|]; cbn [faucet_step].
  - auto.
  - destruct (drip_check_limiter t pow reachable f headers peer request) as (-> & -> & _). auto.
  - unfold drip_record. destruct (_ || _); [|auto]. split; [done|]. right; right. by exists wa, wi, (d_address d), (d_client_ip d).
  - unfold admin_set_paused. destruct (check_admin_auth _ _); auto.
  - auto.
Qed.

(** The keys of an address and of a client. *)
Definition addr_key (address : string) : string := "addr:" +:+ to_lowercase address.
Definition ip_key (ip : string) : string := "ip:" +:+ ip.

(** The memory and the table hold a time not before the given one. *)
Definition held_since (t : N) (store : gmap string N) (key : string) : Prop := ∃ last, store !! key = Some last ∧ (t ≤ last)%N.
Definition kept_since (t : Z) (table : option (gmap string Z)) (key : string) : Prop :=
  ∃ m last, table = Some m ∧ m !! key = Some last ∧ (t ≤ last)%Z.

Lemma held_insert (t now : N) (store : gmap string N) (key key' : string) :
  (t ≤ now)%N → held_since t store key → held_since t (<[key' := now]> store) key.
Proof.
  intros Hn (last & Hl & Ht). destruct (decide (key' = key)) as [->|Hk].
  - exists now. by rewrite lookup_insert_eq.
  - exists last. by rewrite lookup_insert_ne.
Qed.

Lemma kept_record (t : Z) (now : Time) wa wi (l : PersistentRateLimiter) address ip (key : string) :
  (t ≤ unix now)%Z → kept_since t (pg l) key → kept_since t (pg (record_request now wa wi l address ip)) key.
Proof.
  intros Hn (m & last & Hm & Hl & Ht). unfold record_request. cbn. rewrite Hm. cbn.
  assert (∀ (w : bool) (m : gmap string Z) k, (∃ last, m !! key = Some last ∧ (t ≤ last)%Z) →
    ∃ last, (if w then <[k := unix now]> m else m) !! key = Some last ∧ (t ≤ last)%Z) as Hi.
  { intros [] m' k (x & Hx & Htx); [|eauto]. destruct (decide (k = key)) as [->|Hk].
    - exists (unix now). by rewrite lookup_insert_eq.
    - exists x. by rewrite lookup_insert_ne. }
  destruct (Hi wi _ ("ip:" +:+ ip) (Hi wa m ("addr:" +:+ to_lowercase address) (ex_intro _ last (conj Hl Ht)))) as (x & Hx).
  by exists (if wi then <["ip:" +:+ ip:=unix now]> (if wa then <["addr:" +:+ to_lowercase address:=unix now]> m else m)
             else if wa then <["addr:" +:+ to_lowercase address:=unix now]> m else m), x.
Qed.

(** What a history keeps: the configuration; in one process, the times in memory; the times in the
    table in any case. *)
Lemma faucet_run_keeps (t : Time) (f : Faucet) (history : list (Time * FaucetEvent)) (address ip tkey : string) :
  let f' := faucet_run f history in
  f_config f' = f_config f ∧
  ((∀ e, e ∈ history → is_restart e.2 = false ∧ (inst t ≤ inst e.1)%N) →
     (held_since (inst t) (address_last_request (memory (f_limiter f))) address →
      held_since (inst t) (address_last_request (memory (f_limiter f'))) address) ∧
     (held_since (inst t) (ip_last_request (memory (f_limiter f))) ip →
      held_since (inst t) (ip_last_request (memory (f_limiter f'))) ip)) ∧
  ((∀ e, e ∈ history → (unix t ≤ unix e.1)%Z) →
     kept_since (unix t) (pg (f_limiter f)) tkey → kept_since (unix t) (pg (f_limiter f')) tkey).
Proof.
  cbn zeta. unfold faucet_run. induction history as [|[te e] history IH] using rev_ind; [auto|].
  rewrite foldl_app. cbn [foldl fst snd]. destruct IH as (Hc & Hm & Ht).
  set (g := foldl _ f history) in *. destruct (faucet_step_limiter te g e) as (Hc' & Hl).
  split; [congruence|]. split.
  - intros He. destruct (He (te, e)) as [Hr Hte]; [set_solver|]. cbn in Hr, Hte.
    destruct Hm as [Hma Hmi]; [intros e' ?; apply He; set_solver|].
    destruct Hl as [->|[(_ & Hr')|(wa & wi & a & i & ->)]]; [auto|congruence|]. cbn. auto using held_insert.
  - intros He Hk. assert (kept_since (unix t) (pg (f_limiter g)) tkey) as Hg by (apply Ht; [intros e' ?; apply He|]; set_solver).
    destruct Hl as [->|[(-> & _)|(wa & wi & a & i & ->)]]; [done|done|]. apply kept_record; [|done]. apply (He (te, e)). set_solver.
Qed.

(** The hold of a cooldown: in one process, while it has not passed on the monotonic clock; across
    restarts, while it has not passed on the wall clock, when there is a table that the drip was
    written to and that the check can read. *)
Definition holds (t t' : Time) (history : list (Time * FaucetEvent)) (table : option (gmap string Z))
    (written reachable : bool) (cooldown : N) : Prop :=
  (∀ e, e ∈ history → is_restart e.2 = false ∧ (inst t ≤ inst e.1)%N) ∧ (inst t ≤ inst t' < inst t + secs_ns cooldown)%N ∨
  (∀ e, e ∈ history → (unix t ≤ unix e.1)%Z) ∧ (unix t ≤ unix t' < unix t + Z.of_N cooldown)%Z ∧
    is_Some table ∧ written = true ∧ reachable = true.

(** C38. A drip with a confirmed transfer stops its address, in any spelling and whoever asks, and
    its client, for whichever address, until the cooldown of either has passed: whatever challenges,
    checks, drips of others and pauses come in between, and across restarts as well when a database
    keeps the drip and answers. *)
Theorem cooldown_enforced (t t' : Time) wa wi pow reachable (f f1 : Faucet) (d : Drip) token_tx native_tx r
    (history : list (Time * FaucetEvent)) headers peer request :
  drip_record t wa wi f d token_tx native_tx = (f1, Ok r) →
  (to_lowercase (dr_address request) = d_address d ∧
     holds t t' history (pg (f_limiter f)) wa reachable (fc_cooldown_secs (f_config f)) ∨
   drip_client_ip headers peer = d_client_ip d ∧
     holds t t' history (pg (f_limiter f)) wi reachable (fc_ip_cooldown_secs (f_config f))) →
  is_ok (drip_check t' pow reachable (faucet_run f1 history) headers peer request).2 = false.
Proof.
  unfold drip_record. destruct (_ || _); [|done]. intros [= Hf1 _] Hcase.
  destruct (is_ok _) eqn:Ho; [|done]. apply is_ok_Ok in Ho as [d' Hd].
  apply drip_check_Ok in Hd as (_ & Ha & Hi & Hca & Hci).
  set (l1 := record_request t wa wi (f_limiter f) (d_address d) (d_client_ip d)) in Hf1.
  assert (f_limiter f1 = l1 ∧ f_config f1 = f_config f) as [Hl1 Hc1] by (by subst f1).
  destruct (faucet_run_keeps t f1 history "" "" "") as (Hcfg & _ & _).
  rewrite Hcfg, Hc1 in Hca, Hci. unfold check_address, check_ip in *.
  apply bind_Ok in Hca as ([] & Hca & Hta). apply bind_Ok in Hci as ([] & Hci & Hti).
  destruct Hcase as [(He & Hh)|(He & Hh)]; [rewrite Ha, He in Hca, Hta|rewrite Hi, He in Hci, Hti].
  - destruct Hh as [(Hp & Ht)|(Hp & Ht & [table Htab] & -> & ->)].
    + destruct (faucet_run_keeps t f1 history (to_lowercase (d_address d)) "" "") as (_ & Hm & _).
      destruct (proj1 (Hm Hp)) as (last & Hl & Hle); [rewrite Hl1; exists (inst t); cbn; by rewrite lookup_insert_eq|].
      pose proof (check_memory_held _ _ _ _ _ _ Hl Hle Ht) as Hn. by rewrite Hca in Hn.
    + destruct (faucet_run_keeps t f1 history "" "" (addr_key (d_address d))) as (_ & _ & Hk).
      destruct (Hk Hp) as (m & last & Hm & Hl & Hle).
      { rewrite Hl1. unfold l1, record_request. cbn. rewrite Htab. cbn. eexists _, (unix t). split; [done|].
        split; [|done]. destruct wi; [rewrite lookup_insert_ne by done|]; apply lookup_insert_eq. }
      rewrite Hm in Hta. pose proof (check_table_held _ _ _ _ _ _ Hl Hle Ht) as Hn. unfold addr_key in Hn. by rewrite Hta in Hn.
  - destruct Hh as [(Hp & Ht)|(Hp & Ht & [table Htab] & -> & ->)].
    + destruct (faucet_run_keeps t f1 history "" (d_client_ip d) "") as (_ & Hm & _).
      destruct (proj2 (Hm Hp)) as (last & Hl & Hle); [rewrite Hl1; exists (inst t); cbn; by rewrite lookup_insert_eq|].
      pose proof (check_memory_held _ _ _ _ _ _ Hl Hle Ht) as Hn. by rewrite Hci in Hn.
    + destruct (faucet_run_keeps t f1 history "" "" (ip_key (d_client_ip d))) as (_ & _ & Hk).
      destruct (Hk Hp) as (m & last & Hm & Hl & Hle).
      { rewrite Hl1. unfold l1, record_request. cbn. rewrite Htab. cbn. eexists _, (unix t). split; [done|].
        split; [|done]. apply lookup_insert_eq. }
      rewrite Hm in Hti. pose proof (check_table_held _ _ _ _ _ _ Hl Hle Ht) as Hn. unfold ip_key in Hn. by rewrite Hti in Hn.
Qed.

(** After a restart the database alone decides: the address of a drip that was written there waits
    until its cooldown has passed on the wall clock; without a database, or when the query
    fails, it does not wait at all. *)
Theorem restart_cooldown (t t' : Time) wi (l : PersistentRateLimiter) (address ip : string) (reachable : bool) (cooldown : N) :
  is_ok (check_address t' reachable (restart_limiter (record_request t true wi l address ip)) address cooldown)
  = negb (bool_decide (is_Some (pg l)) && reachable && (Z.to_N (Z.max (unix t' - unix t) 0) <? cooldown)%N).
Proof.
  assert ("addr:" +:+ to_lowercase address ≠ "ip:" +:+ ip) as Hne by done.
  unfold check_address, check_memory, check_table, record_request. cbn. rewrite lookup_empty. cbn.
  destruct (pg l) as [table|]; [|done]. cbn.
  destruct reachable; [|done]. destruct wi; rewrite ?(lookup_insert_ne _ _ _ _ (not_eq_sym Hne)), lookup_insert_eq; cbn; by destruct (_ <? _)%N.
Qed.

(** The check of a request leaves the cooldowns as they are, and they are written only when the
    transfers have ended: any number of requests for one address pass the check meanwhile. *)
Theorem concurrent_drips_pass (t : Time) reachable (f : Faucet) headers peer (request : DripRequest) (others : list DripRequest) (d : Drip) :
  (drip_check t false reachable f headers peer request).2 = Ok d →
  let f' := foldl (λ g r, (drip_check t true reachable g headers peer r).1) f others in
  (drip_check t false reachable f' headers peer request).2 = Ok d.
Proof.
  intros Hd f'. assert (Hf : f_limiter f' = f_limiter f ∧ f_config f' = f_config f ∧ f_is_paused f' = f_is_paused f).
  { unfold f'. clear f' Hd. revert f. induction others as [|r l IH]; intros f; cbn [foldl]; [done|].
    destruct (IH (drip_check t true reachable f headers peer r).1) as (H1 & H2 & H3).
    destruct (drip_check_limiter t true reachable f headers peer r) as (G1 & G2 & _). rewrite H1, H2, H3, G1, G2.
    split_and!; try done. unfold drip_check, take_pow. destruct (f_is_paused f) eqn:Hp; [done|]. 
    destruct (dr_challenge r) as [c|]; [|done]. destruct (dr_nonce r); [|done].
    destruct (f_pow_challenges f !! c) as [pc|]; [|done]. by destruct (alive _ _). }
  destruct Hf as (Hl & Hc & Hp). unfold drip_check in *. rewrite Hp. destruct (f_is_paused f); [done|].
  cbn [fst snd] in *. by rewrite Hl, Hc.
Qed.

(** ** Challenges *)

(** A challenge answers one request: whatever the request comes to, the challenge is gone, and a
    second request with it is refused. *)
Theorem challenge_single_use (t t' : Time) reachable (f : Faucet) headers peer headers' peer' (request request' : DripRequest) c n n' :
  f_is_paused f = false → dr_challenge request = Some c → dr_nonce request = Some n →
  dr_challenge request' = Some c → dr_nonce request' = Some n' →
  let f' := (drip_check t true reachable f headers peer request).1 in
  f_pow_challenges f' !! c = None ∧ (drip_check t' true reachable f' headers' peer' request').2 = Err UnknownChallenge.
Proof.
  intros Hp Hc Hn Hc' Hn' f'.
  assert (Hf : f_pow_challenges f' !! c = None ∧ f_is_paused f' = false).
  { unfold f', drip_check, take_pow. rewrite Hp, Hc, Hn.
    destruct (f_pow_challenges f !! c) as [pc|] eqn:He; [destruct (alive _ _)|]; cbn; by rewrite lookup_delete_eq. }
  destruct Hf as [Hf Hp']. split; [done|]. unfold drip_check, take_pow. by rewrite Hp', Hc', Hn', Hf.
Qed.

(** With the proof of work on, a request that passes has solved a challenge that the faucet issued
    at most two minutes ago. *)
Theorem passed_drip_solved (t : Time) reachable (f : Faucet) headers peer request (d : Drip) :
  (drip_check t true reachable f headers peer request).2 = Ok d →
  ∃ c n pc, dr_challenge request = Some c ∧ dr_nonce request = Some n ∧ f_pow_challenges f !! c = Some pc ∧
    (inst t - pc_created_at pc < secs_ns POW_TTL)%N ∧ verify_pow c n (pc_difficulty pc) = true.
Proof.
  unfold drip_check, take_pow. destruct (f_is_paused f); [done|].
  destruct (dr_challenge request) as [c|]; [|done]. destruct (dr_nonce request) as [n|]; [|done].
  destruct (f_pow_challenges f !! c) as [pc|] eqn:He; [|done]. destruct (alive _ _) eqn:Ha; [|done].
  cbn [snd]. intros Hd. apply bind_Ok in Hd as (u & Hv & _). apply ensure_Ok in Hv. apply N.ltb_lt in Ha.
  by exists c, n, pc.
Qed.

(** ** Clients *)

Fixpoint xs (n : nat) : string := match n with O => "" | S n' => String "x" (xs n') end.

Lemma xs_snoc (n : nat) : xs n +:+ "x" = String "x" (xs n).
Proof. induction n as [|n IH]; [done|]. cbn [xs]. rewrite app_cons_str. by rewrite IH. Qed.

Lemma rev_xs (n : nat) : String.rev (xs n) = xs n.
Proof. induction n as [|n IH]; [done|]. cbn [xs]. rewrite rev_str_cons, IH. apply xs_snoc. Qed.

Lemma length_xs (n : nat) : String.length (xs n) = n.
Proof. induction n as [|n IH]; [done|]. cbn. by rewrite IH. Qed.

Lemma trim_xs (n : nat) : trim (xs (S n)) = xs (S n).
Proof. apply trim_stop; [done|]. rewrite rev_xs. done. Qed.

Lemma split_xs (acc : string) (n : nat) : split_on "," acc (xs n) = [acc +:+ xs n].
Proof.
  revert acc. induction n as [|n IH]; intros acc; cbn [xs split_on]; [by rewrite app_nil_r_str|].
  change (Ascii.eqb "x" ",") with false. cbv iota. rewrite IH, app_assoc_str. done.
Qed.

Lemma fresh_text (l : list string) : ∃ n, ∀ s, s ∈ l → String.length s < n.
Proof.
  induction l as [|s l [n IH]]; [exists 0; set_solver|]. exists (S (Nat.max n (String.length s))).
  intros s' [->|Hs]%elem_of_cons; [lia|]. specialize (IH s' Hs). lia.
Qed.

(** The client of a request is what its own X-Forwarded-For header says, so there is always a
    header with which the cooldown of clients lets it pass. *)
Theorem forwarded_header_escapes (t : Time) reachable (l : PersistentRateLimiter) (peer : string) (cooldown : N) :
  ∃ headers, check_ip t reachable l (drip_client_ip headers peer) cooldown = Ok ().
Proof.
  destruct (fresh_text (hm_keys (ip_last_request (memory l)) ++ default [] (hm_keys <$> pg l))) as [n Hn].
  exists (λ k, if String.eqb k "x-forwarded-for" then Some (xs (S n)) else None).
  unfold drip_client_ip. change (String.eqb "x-forwarded-for" "x-forwarded-for") with true. cbv iota. cbn [mbind option_bind].
  unfold split. rewrite split_xs. cbn [head fmap option_fmap option_map]. change ("" +:+ xs (S n)) with (xs (S n)).
  rewrite trim_xs. unfold check_ip, check_memory, check_table.
  destruct (ip_last_request (memory l) !! xs (S n)) eqn:Hm.
  - exfalso. assert (xs (S n) ∈ hm_keys (ip_last_request (memory l))) as Hin by (apply elem_of_hm_keys; eauto).
    specialize (Hn (xs (S n)) ltac:(set_solver)). rewrite length_xs in Hn. lia.
  - cbn [mbind result_bind]. destruct (pg l) as [table|] eqn:Hp; [|done]. cbn [mbind option_bind]. destruct reachable; [|done].
    destruct (table !! ("ip:" +:+ xs (S n))) eqn:Ht; [|done]. exfalso.
    assert ("ip:" +:+ xs (S n) ∈ hm_keys table) as Hin by (apply elem_of_hm_keys; eauto).
    specialize (Hn ("ip:" +:+ xs (S n)) ltac:(cbn; set_solver)). rewrite length_app_str, length_xs in Hn. lia.
Qed.

(** ** Payments *)

(** Tokens are sent to an address below the cap, gas to one below its own, as far as the balances
    could be read: a balance that could not be read counts as one that is too low.  The request
    is refused as a whole when the faucet is known to lack either of them. *)
Theorem drip_plan_exact (c : FaucetConfig) (b : Balances) (token native : bool) :
  drip_plan c b = Ok (token, native) ↔
  (token = true ↔ ∀ n, b_token b = Some n → (n < fc_max_balance c)%N) ∧
  (native = true ↔ fc_native_drip_amount c ≠ 0%N ∧ ∀ n, b_native b = Some n → (n < fc_native_max_balance c)%N) ∧
  (token = true → ∀ n, b_faucet_token b = Some n → (fc_drip_amount c ≤ n)%N) ∧
  (native = true → ∀ n, b_faucet_native b = Some n → (fc_native_drip_amount c ≤ n)%N) ∧
  (token = true ∨ native = true).
Proof.
  assert (Hbelow : ∀ limit o, below limit o = true ↔ ∀ n, o = Some n → (n < limit)%N).
  { intros limit [n|]; cbn; [rewrite N.ltb_lt|]; naive_solver. }
  assert (Hlack : ∀ (a : bool) limit (o : option N), negb (a && match o with Some n => (n <? limit)%N | None => false end) = true
                    ↔ (a = true → ∀ n, o = Some n → (limit ≤ n)%N)).
  { intros [] limit [n|]; cbn; [rewrite negb_true_iff, N.ltb_ge|..]; naive_solver. }
  rewrite <- !Hbelow, <- !Hlack.
  assert (Hnat : should_send_native c b = true ↔ fc_native_drip_amount c ≠ 0%N ∧ below (fc_native_max_balance c) (b_native b) = true).
  { unfold should_send_native. destruct (N.eqb_spec (fc_native_drip_amount c) 0); naive_solver. }
  unfold drip_plan. split.
  - intros H. res_inv. unfold should_send_token in *. split_and!; try tauto. by apply orb_true_iff.
  - intros (Ht & Hn & H1 & H2 & H3). fold (should_send_token c b) in Ht.
    assert (should_send_token c b = token) as -> by (destruct token, (should_send_token c b); naive_solver).
    assert (should_send_native c b = native) as -> by (destruct native, (should_send_native c b); naive_solver).
    rewrite H1, H2. cbn. assert (token || native = true) as -> by (by apply orb_true_iff). done.
Qed.

(** A transfer that was sent and whose confirmation failed counts as a failure: the tokens are on
    their way, but the request is refused, and neither the cooldowns nor the statistics know of it. *)
Theorem unconfirmed_drip_unrecorded (t : Time) wa wi (f : Faucet) (b : Balances) (d : Drip) token native sent :
  drip_send (f_config f) b token native = Ok sent →
  (∀ tx, token ≠ Confirmed tx) → (∀ tx, native ≠ Confirmed tx) →
  drip_record t wa wi f d sent.1 sent.2 = (f, Err TransfersFailed).
Proof.
  intros Hs Ht Hn. assert (transfer_hash token = None) as H1 by (destruct token; naive_solver).
  assert (transfer_hash native = None) as H2 by (destruct native; naive_solver).
  unfold drip_send in Hs. rewrite H1, H2 in Hs. destruct (drip_plan _ _) as [[p1 p2]|]; [|done]. injection Hs as <-.
  by destruct p1, p2.
Qed.

(** ** Operators *)

(** The faucet pauses and resumes only for the holder of a token that is not empty, and a paused
    faucet refuses every request and keeps its state. *)
Theorem pause_exact (admin : string) (auth : option string) (f : Faucet) t pow reachable headers peer request :
  (∀ b, f_is_paused (admin_set_paused admin auth b f).1 = if bool_decide (admin ≠ "" ∧ auth = Some ("Bearer " +:+ admin)) then b else f_is_paused f) ∧
  (f_is_paused f = true → drip_check t pow reachable f headers peer request = (f, Err Paused)).
Proof.
  split; [|intros Hp; unfold drip_check; by rewrite Hp]. intros b. unfold admin_set_paused, check_admin_auth.
  destruct (is_empty admin) eqn:He.
  - apply is_empty_spec in He as ->. by rewrite bool_decide_eq_false_2 by naive_solver.
  - assert (admin ≠ "") by (intros ->; done).
    destruct auth as [a|]; cbn [default]; unfold id.
    + destruct (String.eqb_spec a ("Bearer " +:+ admin)) as [->|Hne].
      * by rewrite bool_decide_eq_true_2.
      * rewrite bool_decide_eq_false_2; [done|]. intros [_ [= Hn]]. by apply Hne.
    + destruct (String.eqb_spec "" ("Bearer " +:+ admin)) as [He'|Hne]; [done|]. by rewrite bool_decide_eq_false_2 by naive_solver.
Qed.

(** The health of the faucet is good news exactly when it can pay: "healthy" when both drips can be
    paid, and status 200 when at least one can. *)
Theorem health_exact (c : FaucetConfig) (token native : option N) :
  let pays_token := match token with Some n => (fc_drip_amount c <=? n)%N | None => false end in
  let pays_native := match native with Some n => (fc_native_drip_amount c <=? n)%N | None => false end in
  (health_check c token native).1 = (if bool_decide (is_Some token ∧ is_Some native) && (pays_token || pays_native) then 200%N else 503%N) ∧
  ((health_check c token native).2 = "healthy" ↔ pays_token = true ∧ pays_native = true).
Proof.
  assert (Hz : ∀ n, (fc_native_drip_amount c =? 0)%N || (fc_native_drip_amount c <=? n)%N = (fc_native_drip_amount c <=? n)%N).
  { intros n. destruct (N.eqb_spec (fc_native_drip_amount c) 0) as [->|]; [|done]. symmetry. apply N.leb_le. lia. }
  destruct token as [a|], native as [b|]; cbn; rewrite ?Hz.
  - destruct (_ <=? _)%N, (_ <=? _)%N; cbn; naive_solver.
  - naive_solver.
  - naive_solver.
  - naive_solver.
Qed.

End Dripping.

(** ** Witnesses *)
Module FaucetWitness.
Import Toy.

#[export] Instance toy_std : Std := {|
  to_lowercase := to_ascii_lowercase; is_ip_addr := λ _, true; debug_strings := λ _, "" |}.

Definition addr7 : string := "0x7777777777777777777777777777777777777777".

Definition f0 : Faucet := {|
  f_config := default_faucet;
  f_limiter := {| memory := {| address_last_request := ∅; ip_last_request := ∅ |}; pg := Some ∅ |};
  f_pow_challenges := {[ "aa" := {| pc_difficulty := 2; pc_created_at := 0 |} ]};
  f_stats := no_stats; f_is_paused := false |}.

Definition t0 : Time := {| inst := secs_ns 100; unix := 5000 |}.
Definition t1 : Time := {| inst := secs_ns 130; unix := 5030 |}.
Definition req7 (nonce : string) : DripRequest := {| dr_address := addr7; dr_challenge := Some "aa"; dr_nonce := Some nonce |}.
Definition none : string → option string := λ _, None.
Definition d7 : Drip := {| d_address := addr7; d_client_ip := "10.0.0.1" |}.

Lemma pow_exact_witness :
  verify_pow "aa" "n" 2 = true ↔ (from_be_bytes (of_str (sha256 ("aa" +:+ "n"))) < 2 ^ (256 - 2))%N.
Proof. apply (pow_exact "aa" "n" 2). done. Defined.

(** A nonce that solves the challenge, found by trying the letters. *)
Definition solution : string :=
  match filter (λ n, verify_pow "aa" n 2 = true) ["a"; "b"; "c"; "d"; "e"; "f"; "g"; "h"; "i"; "j"; "k"; "l"; "m"; "o"] with
  | n :: _ => n
  | [] => ""
  end.

Lemma passed0 : (drip_check t0 true true f0 none "10.0.0.1" (req7 solution)).2 = Ok d7.
Proof. by vm_compute. Qed.

Lemma passed_drip_solved_witness :
  ∃ c n pc, dr_challenge (req7 solution) = Some c ∧ dr_nonce (req7 solution) = Some n ∧ f_pow_challenges f0 !! c = Some pc ∧
    (inst t0 - pc_created_at pc < secs_ns POW_TTL)%N ∧ verify_pow c n (pc_difficulty pc) = true.
Proof. apply (passed_drip_solved t0 true f0 none "10.0.0.1" (req7 solution) d7 passed0). Defined.

Definition f1 : Faucet := (drip_record t0 true true f0 d7 (Some "0xaa") None).1.
Definition r1 : DripResponse :=
  {| rs_tx_hash := Some "0xaa"; rs_token_tx_hash := Some "0xaa"; rs_native_tx_hash := None; rs_cooldown_seconds := 60 |}.

Definition other7 : Drip := {| d_address := "0x8888888888888888888888888888888888888888"; d_client_ip := "10.0.0.2" |}.

(** Another drip, a challenge and a restart before the address asks again. *)
Definition meantime : list (Time * FaucetEvent) :=
  [(t1, FRecord true true other7 (Some "0xbb") None); (t1, FChallenge "r"); (t1, FRestart)].

Lemma cooldown_enforced_witness :
  is_ok (drip_check t1 false true (faucet_run f1 meantime) none "10.9.9.9" (req7 "n")).2 = false.
Proof.
  apply (cooldown_enforced t0 t1 true true false true f0 f1 d7 (Some "0xaa") None r1 meantime none "10.9.9.9" (req7 "n")).
  - by vm_compute.
  - left. split; [by vm_compute|]. right. split_and!; try done.
    intros e He. unfold meantime in He. rewrite !elem_of_cons, elem_of_nil in He.
    destruct He as [->|[->|[->|[]]]]; cbn; lia.
Defined.

Lemma restart_cooldown_witness :
  is_ok (check_address t1 true (restart_limiter (record_request t0 true true (f_limiter f0) addr7 "10.0.0.1")) addr7 60) = false ∧
  is_ok (check_address t1 false (restart_limiter (record_request t0 true true (f_limiter f0) addr7 "10.0.0.1")) addr7 60) = true.
Proof.
  split; (etransitivity; [apply (restart_cooldown t0 t1 true (f_limiter f0) addr7 "10.0.0.1")|by vm_compute]).
Defined.

Lemma concurrent_drips_pass_witness :
  (drip_check t0 false true (drip_check t0 true true f0 none "10.0.0.1" (req7 solution)).1 none "10.0.0.1" (req7 "z")).2 = Ok d7.
Proof. apply (concurrent_drips_pass t0 true f0 none "10.0.0.1" (req7 "z") [req7 solution] d7). by vm_compute. Defined.

Lemma challenge_single_use_witness :
  (drip_check t1 true true (drip_check t0 true true f0 none "10.0.0.1" (req7 "bad")).1 none "10.0.0.1" (req7 solution)).2 = Err UnknownChallenge.
Proof.
  apply (challenge_single_use t0 t1 true f0 none "10.0.0.1" none "10.0.0.1" (req7 "bad") (req7 solution) "aa" "bad" solution); done.
Defined.

Definition poor : Balances := {| b_token := None; b_native := Some (10 ^ 19)%N; b_faucet_token := None; b_faucet_native := None |}.

Lemma unconfirmed_drip_unrecorded_witness : drip_record t0 true true f0 d7 None None = (f0, Err TransfersFailed).
Proof.
  apply (unconfirmed_drip_unrecorded t0 true true f0 poor d7 (Unconfirmed "0xaa") NotSent (None, None)); [by vm_compute|done|done].
Defined.

End FaucetWitness.
