(* ===== verification/Premium.v ===== *)
(** The pricing of package insurance (crates/insurance/src/risk_model.rs and the calculator of
    lib.rs), over the packages that a node serves (node/src/api.rs [get_package]).

    Scores and amounts are the doubles of [Float].  The answer of the node, the clock and the text
    of times are arguments.  [None] is a panic, of the index of a weight that is missing.  A count
    of incidents that reaches 2^32 is not modelled. *)

From S2P Require Import Prelude Text Types ChainStore PendingPool PublisherIndex Json Float.
From Stdlib Require Import ZArith SpecFloat.

(** ** Metrics *)

Record RiskFactor := { rf_name : string; rf_weight : f64; rf_score : f64 }.

Definition risk_factor_new (name : string) (weight score : f64) : RiskFactor := {|
  rf_name := name; rf_weight := fclamp (f_of 0) (f_of 1) weight; rf_score := fclamp (f_of 0) (f_of 100) score |}.

Definition contribution (f : RiskFactor) : f64 := fmul (rf_weight f) (rf_score f).

Record PackageMetrics := {
  me_age_days : N; me_dependency_count : N; me_dependent_count : N; me_vulnerability_count : N;
  me_has_audit : bool; me_last_update_days : N; me_complexity_score : f64; me_download_count : N;
  me_maintainer_count : N; me_is_deprecated : bool; me_incident_count : N;
}.

(** A match on ranges that start where the one before ends. *)
Fixpoint up_to (ranges : list (N * Z)) (otherwise : Z) (n : N) : Z :=
  match ranges with
  | [] => otherwise
  | (last, risk) :: ranges => if (n <=? last)%N then risk else up_to ranges otherwise n
  end.

Definition age_risk (m : PackageMetrics) : f64 :=
  f_of (up_to [(30%N, 80); (90%N, 60); (365%N, 40); (730%N, 20)] 10 (me_age_days m))%Z.

Definition dependency_risk (m : PackageMetrics) : f64 :=
  f_of (up_to [(5%N, 10); (20%N, 30); (50%N, 50); (100%N, 70)] 85 (me_dependency_count m))%Z.

Definition popularity_risk (m : PackageMetrics) : f64 :=
  f_of (up_to [(10%N, 10); (100%N, 30); (1000%N, 50); (10000%N, 70)] 90 (me_dependent_count m))%Z.

Definition vulnerability_risk (m : PackageMetrics) : f64 :=
  let base_risk := f_of (up_to [(0%N, 0); (1%N, 30); (5%N, 60)] 90 (me_vulnerability_count m))%Z in
  let recency_factor :=
    if (365 <? me_last_update_days m)%N then f_lit 15 10
    else if (90 <? me_last_update_days m)%N then f_lit 12 10 else f_of 1 in
  fmin (fmul base_risk recency_factor) (f_of 100).

Definition maintenance_risk (m : PackageMetrics) : f64 :=
  let risk := f_of 0 in
  let risk := if (me_maintainer_count m =? 0)%N then fadd risk (f_of 50)
              else if (me_maintainer_count m =? 1)%N then fadd risk (f_of 30) else risk in
  let risk := if (365 <? me_last_update_days m)%N then fadd risk (f_of 40)
              else if (180 <? me_last_update_days m)%N then fadd risk (f_of 20) else risk in
  let risk := if me_is_deprecated m then fadd risk (f_of 80) else risk in
  fmin risk (f_of 100).

Definition complexity_risk (m : PackageMetrics) : f64 := fclamp (f_of 0) (f_of 100) (me_complexity_score m).

Definition audit_benefit (m : PackageMetrics) : f64 := if me_has_audit m then f_of (-20) else f_of 0.

Definition incident_risk (m : PackageMetrics) : f64 :=
  f_of (up_to [(0%N, 0); (1%N, 30); (3%N, 60)] 90 (me_incident_count m))%Z.

(** ** The model *)

Record RiskModel := { weights : gmap string f64; historical_incidents : gmap string N }.

Definition with_weights (w : gmap string f64) : RiskModel := {| weights := w; historical_incidents := ∅ |}.

Definition default_weights : list (string * f64) :=
  [("age", f_lit 15 100); ("dependencies", f_lit 15 100); ("popularity", f_lit 20 100); ("vulnerabilities", f_lit 25 100);
   ("maintenance", f_lit 15 100); ("complexity", f_lit 5 100); ("incidents", f_lit 5 100)].

Definition default_model : RiskModel := with_weights (list_to_map default_weights).

(** The factors with the keys of their weights. *)
Definition risk_factors : list (string * (PackageMetrics → f64)) :=
  [("age", age_risk); ("dependencies", dependency_risk); ("popularity", popularity_risk); ("vulnerabilities", vulnerability_risk);
   ("maintenance", maintenance_risk); ("complexity", complexity_risk); ("incidents", incident_risk)].

Definition weighted (model : RiskModel) (m : PackageMetrics) : option (list (f64 * f64)) :=
  mapM (λ '(k, risk), w ← weights model !! k; Some (w, risk m)) risk_factors.

Definition score_of (factors : list (f64 * f64)) (benefit : f64) : f64 :=
  let '(total_score, total_weight) :=
    foldl (λ '(s, t) '(weight, score), (fadd s (fmul weight score), fadd t weight)) (f_of 0, f_of 0) factors in
  fclamp (f_of 0) (f_of 100) (fdiv (fadd total_score benefit) total_weight).

Definition calculate_from_metrics (model : RiskModel) (m : PackageMetrics) : option f64 :=
  factors ← weighted model m; Some (score_of factors (audit_benefit m)).

Definition add_incident (model : RiskModel) (package : string) : RiskModel := {|
  weights := weights model;
  historical_incidents := <[package := (default 0 (historical_incidents model !! package) + 1)%N]> (historical_incidents model) |}.

Definition get_incidents (model : RiskModel) (package : string) : N := default 0%N (historical_incidents model !! package).

(** ** What the node answers *)

(** [v.get(k)], and [v[k]], which is null where [get] finds nothing. *)
Definition value_get (k : string) (v : Value) : option Value := match v with VObject m => entry_of k m | _ => None end.
Definition value_index (v : Value) (k : string) : Value := default VNull (value_get k v).
Definition as_text (v : Value) : option string := match v with VString s => Some s | _ => None end.
Definition as_items (v : Value) : option (list Value) := match v with VArray l => Some l | _ => None end.

Definition text_or_null (s : option string) : Value := match s with Some s => VString s | None => VNull end.

(** The JSON of [api::get_package]; the texts of the bundles and of the summary are arguments. *)
Definition package_json (rfc3339 : Z → string) (bundles : AnalysisBundleRefs → Value) (risk : DeterministicRiskSummary → Value)
    (s : ChainStore) (pool : PendingPool) (c : string) : Value :=
  match get_package s c with
  | Some record =>
      VObject [("canonical", VString (canonical (rec_id record)));
        ("status", VString match rec_status record with Verified => "verified" | Revoked _ => "revoked" | Pending => "pending" end);
        ("block_hash", VString (rec_block_hash record)); ("content_hash", VString (rec_content_hash record));
        ("ipfs_cid", VString (rec_ipfs_cid record)); ("publisher", VString (rec_publisher_pubkey record));
        ("published_at", VString (rfc3339 (rec_published_at record)));
        ("revocation_reason", text_or_null match rec_status record with Revoked reason => Some reason | _ => None end);
        ("analysis_bundles", bundles (rec_analysis_bundles record)); ("evidence_digest", VString (rec_evidence_digest record));
        ("deterministic_risk", risk (rec_deterministic_risk record))]
  | None =>
      if pool_contains pool c then
        VObject [("canonical", VString c); ("status", VString "pending"); ("analysis_bundles", VNull); ("evidence_digest", VNull);
          ("deterministic_risk", VNull)]
      else VObject [("error", VString ("Package not found: " +:+ c))]
  end.

Section Scoring.
Context (parse_rfc3339 : string → option Z) (now : Z).

Definition unknown_metrics (incidents : N) : PackageMetrics := {|
  me_age_days := 0; me_dependency_count := 0; me_dependent_count := 0; me_vulnerability_count := 0; me_has_audit := false;
  me_last_update_days := 0; me_complexity_score := f_of 50; me_download_count := 0; me_maintainer_count := 1;
  me_is_deprecated := false; me_incident_count := incidents |}.

Definition record_metrics (incidents : N) (rec : Value) : PackageMetrics :=
  let age_days := match (s ← as_text (value_index rec "published_at"); parse_rfc3339 s) with
                  | Some t => days_since now t | None => 0%N end in
  let status := as_text (value_index rec "status") in
  let is_revoked := bool_decide (status = Some "revoked") in
  let vulnerability_count := if is_revoked then 5%N else 0%N in
  let findings_count := match as_items (value_index rec "findings") with
                        | Some l => (N.of_nat (length l) mod 2 ^ 32)%N | None => 0%N end in
  let content_hash_len := match as_text (value_index rec "content_hash") with Some s => String.length s | None => 0 end in
  let complexity_score := fmin (fmul (fdiv (f_of (Z.of_nat content_hash_len)) (f_of 64)) (f_of 50)) (f_of 100) in
  {| me_age_days := age_days; me_dependency_count := findings_count; me_dependent_count := 0;
     me_vulnerability_count := vulnerability_count + findings_count / 3; me_has_audit := bool_decide (status = Some "verified");
     me_last_update_days := age_days; me_complexity_score := complexity_score; me_download_count := 0; me_maintainer_count := 1;
     me_is_deprecated := is_revoked; me_incident_count := incidents |}.

(** [None] is a node that cannot be reached or an answer that is not JSON. *)
Definition fetch_metrics_from_chain (answer : option Value) (model : RiskModel) (package : string) : PackageMetrics :=
  match answer with
  | Some v => match value_get "error" v with
              | None => record_metrics (get_incidents model package) v
              | Some _ => unknown_metrics (get_incidents model package)
              end
  | None => unknown_metrics (get_incidents model package)
  end.

Context (node : string → option Value).

Definition calculate_score (model : RiskModel) (package : string) : option f64 :=
  calculate_from_metrics model (fetch_metrics_from_chain (node package) model package).

(** ** Categories *)

Inductive RiskCategory := VeryLowRisk | LowRisk | MediumRisk | HighRisk | VeryHighRisk.

#[export] Instance RiskCategory_eq_dec : EqDecision RiskCategory.
Proof. solve_decision. Defined.

Definition risk_category (score : f64) : RiskCategory :=
  let n := as_u32 score in
  (if n <=? 20 then VeryLowRisk else if n <=? 40 then LowRisk else if n <=? 60 then MediumRisk
   else if n <=? 80 then HighRisk else VeryHighRisk)%N.

Definition premium_rate (c : RiskCategory) : f64 :=
  match c with
  | VeryLowRisk => f_lit 5 1000 | LowRisk => f_lit 1 100 | MediumRisk => f_lit 25 1000
  | HighRisk => f_lit 5 100 | VeryHighRisk => f_lit 10 100
  end.

(** ** Premiums *)

(** The reason of an insolvent pool, a text with the ratio, is left out. *)
Inductive InsuranceError :=
| InvalidCoverage (coverage : f64) | InvalidPremium (premium : f64) | PolicyNotFound (id : string)
| InvalidClaim (reason : string) | RiskCalculationError (reason : string) | PoolInsolvent.

Record PremiumCalculator := { pc_risk_model : RiskModel; pc_base_rate : f64; pc_min_premium : f64; pc_max_premium : f64 }.

Definition calculator_new (model : RiskModel) : PremiumCalculator := {|
  pc_risk_model := model; pc_base_rate := f_lit 1 100; pc_min_premium := f_lit 1 1000; pc_max_premium := f_of 10 |}.

Definition with_base_rate (c : PremiumCalculator) (rate : f64) : PremiumCalculator := {|
  pc_risk_model := pc_risk_model c; pc_base_rate := rate; pc_min_premium := pc_min_premium c; pc_max_premium := pc_max_premium c |}.

(** The premium before its bounds. *)
Definition raw_premium (c : PremiumCalculator) (coverage score : f64) : f64 :=
  fmul (fmul coverage (pc_base_rate c)) (fadd (f_of 1) (fdiv score (f_of 100))).

Definition calculate (c : PremiumCalculator) (package : string) (coverage : f64) : option (result InsuranceError f64) :=
  if SFleb coverage (f_of 0) then Some (Err (InvalidCoverage coverage))
  else
    risk_score ← calculate_score (pc_risk_model c) package;
    Some (Ok (fmin (fmax (raw_premium c coverage risk_score) (pc_min_premium c)) (pc_max_premium c))).

(** The factors in the order in which the map of the caller lists them. *)
Definition calculate_with_factors (c : PremiumCalculator) (package : string) (coverage : f64) (factors : list (string * f64))
    : option (result InsuranceError f64) :=
  base ← calculate c package coverage;
  Some (base ← base; Ok (fmin (fmul base (foldl fmul (f_of 1) (factors.*2))) (pc_max_premium c))).

Definition batch_calculate (c : PremiumCalculator) (packages : list (string * f64))
    : option (list (string * result InsuranceError f64)) :=
  mapM (λ '(pkg, cov), r ← calculate c pkg cov; Some (pkg, r)) packages.

(** ** Which calls return *)

Lemma weighted_defined (model : RiskModel) (m : PackageMetrics) :
  is_Some (weighted model m) ↔ Forall (λ k, is_Some (weights model !! k)) (risk_factors.*1).
Proof.
  unfold weighted. rewrite mapM_is_Some, Forall_fmap. apply Forall_iff. intros [k risk]. cbn.
  destruct (weights model !! k); cbn; split; intros [? H]; try done; eauto.
Qed.

(** Premiums are computed for every package exactly when the model has a weight for each of its
    seven factors; a model without one panics on every positive coverage. *)
Theorem calculate_total (c : PremiumCalculator) (package : string) (coverage : f64) :
  is_Some (calculate c package coverage) ↔
  SFleb coverage (f_of 0) = true ∨ Forall (λ k, is_Some (weights (pc_risk_model c) !! k)) (risk_factors.*1).
Proof.
  unfold calculate. destruct (SFleb coverage (f_of 0)); [split; [by left|by eauto]|].
  rewrite <- (weighted_defined _ (fetch_metrics_from_chain (node package) (pc_risk_model c) package)).
  unfold calculate_score, calculate_from_metrics. destruct (weighted _ _); cbn; split; try (intros [? ?]; done); eauto.
  intros [|[? ?]]; done.
Qed.

(** ** Bounds *)

(** Whatever the coverage and the score are, not-a-number included, a premium is within the bounds
    of its calculator. *)
Theorem premium_bounded (c : PremiumCalculator) (package : string) (coverage p : f64) :
  SFleb (pc_min_premium c) (pc_max_premium c) = true → calculate c package coverage = Some (Ok p) →
  SFleb (pc_min_premium c) p = true ∧ SFleb p (pc_max_premium c) = true.
Proof.
  intros Hb. unfold calculate. destruct (SFleb coverage _); [done|]. destruct (calculate_score _ _); [|done].
  intros [= <-]. by apply cut_range.
Qed.

(** A coverage that is not a number passes the check of the amount and costs the smallest premium. *)
Theorem nan_coverage_cheapest (c : PremiumCalculator) (package : string) :
  SFleb (pc_min_premium c) (pc_max_premium c) = true →
  Forall (λ k, is_Some (weights (pc_risk_model c) !! k)) (risk_factors.*1) →
  calculate c package S754_nan = Some (Ok (pc_min_premium c)).
Proof.
  intros Hb Hw. destruct (proj2 (calculate_total c package S754_nan) (or_intror Hw)) as [r Hr]. revert Hr. unfold calculate. rewrite fleb_nan_l.
  destruct (calculate_score _ _); [|done]. intros _. cbn [mbind option_bind]. unfold raw_premium. rewrite !fmul_nan_l. unfold fmax, fmin. cbn.
  rewrite Hb. by destruct (pc_min_premium c), (pc_max_premium c).
Qed.

(** ** The scores of what a node serves *)
Context (rfc3339 : Z → string) (bundles : AnalysisBundleRefs → Value) (risk : DeterministicRiskSummary → Value).
Context (rfc3339_text : ∀ t, parse_rfc3339 (rfc3339 t) = Some t).

Lemma entry_of_cons {A : Type} (k k' : string) (v : A) (m : list (string * A)) :
  entry_of k ((k', v) :: m) = if String.eqb k' k then Some v else entry_of k m.
Proof.
  unfold entry_of. destruct (String.eqb_spec k' k) as [->|H]; [by rewrite filter_cons_True|by rewrite filter_cons_False].
Qed.

(** The metrics of a package by what decides them. *)
Definition served (age : N) (revoked verified : bool) (complexity : f64) (incidents : N) : PackageMetrics := {|
  me_age_days := age; me_dependency_count := 0; me_dependent_count := 0; me_vulnerability_count := if revoked then 5 else 0;
  me_has_audit := verified; me_last_update_days := age; me_complexity_score := complexity; me_download_count := 0;
  me_maintainer_count := 1; me_is_deprecated := revoked; me_incident_count := incidents |}.

Definition hash_complexity (len : nat) : f64 := fmin (fmul (fdiv (f_of (Z.of_nat len)) (f_of 64)) (f_of 50)) (f_of 100).

Definition is_revoked (s : PackageStatus) : bool := match s with Revoked _ => true | _ => false end.
Definition is_verified (s : PackageStatus) : bool := match s with Verified => true | _ => false end.

(** The node does not serve the findings of a record: the price of a package depends on its age, its
    status and the length of its hash only. *)
Theorem served_metrics_exact (model : RiskModel) (s : ChainStore) (pool : PendingPool) (c : string) :
  fetch_metrics_from_chain (Some (package_json rfc3339 bundles risk s pool c)) model c =
  match get_package s c with
  | Some r => served (days_since now (rec_published_at r)) (is_revoked (rec_status r)) (is_verified (rec_status r))
                (hash_complexity (String.length (rec_content_hash r))) (get_incidents model c)
  | None => if pool_contains pool c then served 0 false false (hash_complexity 0) (get_incidents model c)
            else unknown_metrics (get_incidents model c)
  end.
Proof.
  unfold package_json, fetch_metrics_from_chain. destruct (get_package s c) as [r|]; [|by destruct (pool_contains pool c)].
  unfold record_metrics, value_index, value_get. rewrite !entry_of_cons.
  cbn. rewrite rfc3339_text. by destruct (rec_status r).
Qed.

(** Ages and counts of incidents matter up to their ranges. *)
Definition age_range (age : N) : N :=
  (if age <=? 30 then 0 else if age <=? 90 then 31 else if age <=? 180 then 91 else if age <=? 365 then 181
   else if age <=? 730 then 366 else 731)%N.

Definition incident_range (n : N) : N := (if n =? 0 then 0 else if n =? 1 then 1 else if n <=? 3 then 2 else 4)%N.

Lemma score_by_range (model : RiskModel) (age : N) (revoked verified : bool) (complexity : f64) (n : N) :
  calculate_from_metrics model (served age revoked verified complexity n) =
  calculate_from_metrics model (served (age_range age) revoked verified complexity (incident_range n)).
Proof.
  unfold calculate_from_metrics. f_equal. unfold weighted, risk_factors. 
  assert (age_risk (served age revoked verified complexity n) =
          age_risk (served (age_range age) revoked verified complexity (incident_range n)) ∧
          vulnerability_risk (served age revoked verified complexity n) =
          vulnerability_risk (served (age_range age) revoked verified complexity (incident_range n)) ∧
          maintenance_risk (served age revoked verified complexity n) =
          maintenance_risk (served (age_range age) revoked verified complexity (incident_range n))) as (Ha & Hv & Hm).
  { unfold age_risk, vulnerability_risk, maintenance_risk, age_range. cbn [served me_age_days me_last_update_days up_to].
    rewrite !N.ltb_antisym.
    destruct (N.leb_spec age 30), (N.leb_spec age 90), (N.leb_spec age 180), (N.leb_spec age 365), (N.leb_spec age 730); try lia; done. }
  assert (incident_risk (served age revoked verified complexity n) =
          incident_risk (served (age_range age) revoked verified complexity (incident_range n))) as Hi.
  { unfold incident_risk, incident_range. cbn [served me_incident_count up_to].
    destruct (N.leb_spec n 0), (N.leb_spec n 1), (N.leb_spec n 3), (N.eqb_spec n 0), (N.eqb_spec n 1); try lia; done. }
  cbn [mapM]. by rewrite Ha, Hv, Hm, Hi.
Qed.

Definition category_of (m : option f64) : option RiskCategory := risk_category <$> m.

Definition in_categories (cs : list RiskCategory) (revoked verified : bool) (complexity : f64) (age n : N) : bool :=
  match category_of (calculate_from_metrics default_model (served age revoked verified complexity n)) with
  | Some k => bool_decide (k ∈ cs)
  | None => false
  end.

Lemma elem_of_ranges (age n : N) : age_range age ∈ [0; 31; 91; 181; 366; 731]%N ∧ incident_range n ∈ [0; 1; 2; 4]%N.
Proof. unfold age_range, incident_range. rewrite !list_elem_of_In. repeat case_match; cbn; tauto. Qed.

Lemma forall_ranges (P : N → N → bool) :
  forallb (λ a, forallb (P a) [0; 1; 2; 4]%N) [0; 31; 91; 181; 366; 731]%N = true →
  ∀ age n, P (age_range age) (incident_range n) = true.
Proof.
  intros H age n. destruct (elem_of_ranges age n) as [Ha Hn]. rewrite forallb_forall in H.
  specialize (H _ (proj1 (list_elem_of_In _ _) Ha)). rewrite forallb_forall in H. apply H. by apply list_elem_of_In.
Qed.

Lemma served_in (model : RiskModel) (cs : list RiskCategory) (age : N) (revoked verified : bool) (complexity : f64) (n : N) :
  weights model = weights default_model →
  forallb (λ a, forallb (in_categories cs revoked verified complexity a) [0; 1; 2; 4]%N) [0; 31; 91; 181; 366; 731]%N = true →
  ∃ k, category_of (calculate_from_metrics model (served age revoked verified complexity n)) = Some k ∧ k ∈ cs.
Proof.
  intros Hw H. rewrite score_by_range. pose proof (forall_ranges _ H age n) as Hin.
  unfold in_categories, calculate_from_metrics, weighted in *. rewrite Hw.
  destruct (category_of _) as [k|]; [|done]. exists k. split; [done|]. by apply bool_decide_eq_true in Hin.
Qed.

Lemma served_is (model : RiskModel) (k : RiskCategory) (age : N) (revoked verified : bool) (complexity : f64) (n : N) :
  weights model = weights default_model →
  forallb (λ a, forallb (in_categories [k] revoked verified complexity a) [0; 1; 2; 4]%N) [0; 31; 91; 181; 366; 731]%N = true →
  category_of (calculate_from_metrics model (served age revoked verified complexity n)) = Some k.
Proof. intros Hw H. destruct (served_in model [k] age revoked verified complexity n Hw H) as (k' & -> & ->%list_elem_of_singleton). done. Qed.

Lemma served_low (model : RiskModel) (age : N) (complexity : f64) (n : N) :
  weights model = weights default_model →
  forallb (λ a, forallb (in_categories [VeryLowRisk; LowRisk] false false complexity a) [0; 1; 2; 4]%N) [0; 31; 91; 181; 366; 731]%N = true →
  category_of (calculate_from_metrics model (served age false false complexity n)) = Some VeryLowRisk ∨
  category_of (calculate_from_metrics model (served age false false complexity n)) = Some LowRisk.
Proof.
  intros Hw H. destruct (served_in model _ age false false complexity n Hw H) as (k & -> & Hk).
  rewrite !elem_of_cons, elem_of_nil in Hk. destruct Hk as [->|[->|[]]]; auto.
Qed.

(** With the default weights and hashes of 64 digits the category of a package on the chain is its
    status: a verified one is a very low risk however young it is, a revoked one a medium risk,
    whatever has happened to it before; nothing that a node serves is ever a high risk, and what
    it does not know, which is meant to count as one, is a low risk. *)
Theorem served_category_exact (model : RiskModel) (s : ChainStore) (pool : PendingPool) (c : string) :
  weights model = weights default_model → node c = Some (package_json rfc3339 bundles risk s pool c) →
  match get_package s c with
  | Some r => String.length (rec_content_hash r) = 64 →
      match rec_status r with
      | Verified => category_of (calculate_score model c) = Some VeryLowRisk
      | Revoked _ => category_of (calculate_score model c) = Some MediumRisk
      | Pending => category_of (calculate_score model c) = Some VeryLowRisk ∨ category_of (calculate_score model c) = Some LowRisk
      end
  | None => category_of (calculate_score model c) = Some VeryLowRisk ∨ category_of (calculate_score model c) = Some LowRisk
  end.
Proof.
  intros Hw Hn. unfold calculate_score. rewrite Hn, served_metrics_exact. destruct (get_package s c) as [r|].
  - intros ->. destruct (rec_status r); [apply served_is|apply served_low|apply served_is]; try done; by vm_compute.
  - change unknown_metrics with (served 0 false false (f_of 50)). destruct (pool_contains pool c); apply served_low; try done; by vm_compute.
Qed.

End Scoring.

(** ** Witnesses *)
Module PremiumWitness.

Definition toy_rfc3339 (t : Z) : string := bits (countable.encode t).
Definition toy_parse (s : string) : option Z := countable.decode (unbits s).

Lemma toy_text (t : Z) : toy_parse (toy_rfc3339 t) = Some t.
Proof. unfold toy_parse, toy_rfc3339. by rewrite unbits_of_bits, countable.decode_encode. Qed.

Definition no_bundles (_ : AnalysisBundleRefs) : Value := VNull.
Definition no_risk (_ : DeterministicRiskSummary) : Value := VNull.

Definition id0 : PackageId := {| ecosystem := "npm"; name := "a"; version := "1" |}.
Definition hash0 : string := "0123456789abcdef0123456789abcdef0123456789abcdef0123456789abcdef".

Definition rec0 (s : PackageStatus) : ChainRecord := {|
  rec_id := id0; rec_content_hash := hash0; rec_ipfs_cid := "cid"; rec_publisher_pubkey := "pk"; rec_block_hash := "b";
  rec_published_at := 5; rec_validator_signatures := []; rec_status := s; rec_shielded := false; rec_key_bundle := None;
  rec_pgp_fingerprint := None; rec_findings := []; rec_analysis_bundles := default_bundles; rec_evidence_digest := "";
  rec_deterministic_risk := default_risk; rec_access_count := 0; rec_last_accessed := None; rec_threshold := 1;
  rec_publisher_pubkeys := []; rec_manifest := None |}.

Definition store0 (s : PackageStatus) : ChainStore :=
  {| blocks_by_hash := ∅; blocks_by_height := ∅; packages := {[ "npm:a@1" := rec0 s ]} |}.

Definition served_by (s : PackageStatus) (c : string) : option Value :=
  Some (package_json toy_rfc3339 no_bundles no_risk (store0 s) (pool_open ∅) c).

Definition later : Z := 400 * day_nanos.

Lemma served_metrics_exact_witness :
  fetch_metrics_from_chain toy_parse later (served_by (Revoked "malware") "npm:a@1") default_model "npm:a@1" =
  served 399 true false (f_of 50) 0.
Proof.
  etransitivity; [apply (served_metrics_exact toy_parse later toy_rfc3339 no_bundles no_risk toy_text)|]. by vm_compute.
Defined.

Lemma served_category_exact_witness :
  category_of (calculate_score toy_parse later (served_by (Revoked "malware")) default_model "npm:a@1") = Some MediumRisk.
Proof.
  exact (served_category_exact toy_parse later (served_by (Revoked "malware")) toy_rfc3339 no_bundles no_risk toy_text
           default_model (store0 (Revoked "malware")) (pool_open ∅) "npm:a@1" eq_refl eq_refl eq_refl).
Defined.

Definition calculator0 : PremiumCalculator := calculator_new default_model.
Definition price (s : PackageStatus) (coverage : f64) : option (result InsuranceError f64) :=
  calculate toy_parse later (served_by s) calculator0 "npm:a@1" coverage.
Definition price0 : f64 := match price Verified (f_of 10) with Some (Ok p) => p | _ => f_of 0 end.

Lemma premium_bounded_witness : SFleb (f_lit 1 1000) price0 = true ∧ SFleb price0 (f_of 10) = true.
Proof.
  apply (premium_bounded toy_parse later (served_by Verified) calculator0 "npm:a@1" (f_of 10) price0); by vm_compute.
Defined.

Lemma nan_coverage_cheapest_witness : price Verified S754_nan = Some (Ok (f_lit 1 1000)).
Proof.
  apply (nan_coverage_cheapest toy_parse later (served_by Verified) calculator0 "npm:a@1"); [by vm_compute|].
  cbn. repeat constructor; by eexists.
Defined.

(** However much is covered, it costs ten at most. *)
Example large_coverage_capped : price (Revoked "malware") (f_of (10 ^ 9)) = Some (Ok (f_of 10)).
Proof. by vm_compute. Qed.

(** A score that is not a number is in the lowest category. *)
Example nan_score_lowest : risk_category S754_nan = VeryLowRisk.
Proof. done. Qed.

End PremiumWitness.
