(* ===== verification/Insurance.v ===== *)
(** Package insurance (crates/insurance/src/lib.rs and claims.rs): policies, the pool, claims and their
    evaluation.  Premiums are in [Premium].

    Amounts are the doubles of [Float], times are nanoseconds.  The addition of days to a time, which
    panics outside of the range of chrono, is an argument.  A pool is changed by the operations of
    [FundOp]; its policies are visited in the order of [hm_values].  Texts for the log and for
    display are left out. *)

From S2P Require Import Prelude Text PublisherIndex Float Premium.
From Stdlib Require Import ZArith Ascii SpecFloat.

(** ** Policies *)

Record Policy := {
  pol_id : string; pol_insured : string; pol_package : string; coverage_amount : f64; pol_premium : f64;
  created_at : Z; expires_at : Z; active : bool; pol_risk_score : f64;
}.

(** [None] is the panic of an expiry out of range. *)
Definition policy_new (add_days : Z → Z → option Z) (now : Z) (id insured package : string) (coverage premium : f64)
    (duration_days : Z) (risk_score : f64) : option Policy :=
  expires ← add_days now duration_days;
  Some {| pol_id := id; pol_insured := insured; pol_package := package; coverage_amount := coverage; pol_premium := premium;
          created_at := now; expires_at := expires; active := true; pol_risk_score := risk_score |}.

Definition is_expired (now : Z) (p : Policy) : bool := (expires_at p <? now)%Z.

(** [num_days] of a duration. *)
Definition num_days (d : Z) : Z := Z.quot d day_nanos.

Definition remaining_days (now : Z) (p : Policy) : Z :=
  if (expires_at p <? now)%Z then 0%Z else num_days (expires_at p - now).

Definition refund_amount (now : Z) (p : Policy) : f64 :=
  if negb (active p) || is_expired now p then f_of 0
  else fmul (fdiv (fmul (pol_premium p) (f_of (remaining_days now p))) (f_of (num_days (expires_at p - created_at p)))) (f_lit 9 10).

(** ** Claims *)

Inductive ClaimStatus := ClaimPending | UnderReview | Approved | Rejected | Paid.

#[export] Instance ClaimStatus_eq_dec : EqDecision ClaimStatus.
Proof. solve_decision. Defined.

Record Claim := {
  cl_id : string; cl_policy_id : string; cl_claimant : string; cl_amount : f64; cl_reason : string; cl_evidence : string;
  cl_status : ClaimStatus; cl_submitted_at : Z; cl_resolved_at : option Z; cl_resolver : option string;
  cl_resolution_notes : option string;
}.

Definition claim_new (now : Z) (id policy_id claimant : string) (amount : f64) (reason evidence : string) : Claim := {|
  cl_id := id; cl_policy_id := policy_id; cl_claimant := claimant; cl_amount := amount; cl_reason := reason;
  cl_evidence := evidence; cl_status := ClaimPending; cl_submitted_at := now; cl_resolved_at := None; cl_resolver := None;
  cl_resolution_notes := None |}.

Definition with_claim_status (c : Claim) (s : ClaimStatus) (at_time : option Z) (resolver notes : option string) : Claim := {|
  cl_id := cl_id c; cl_policy_id := cl_policy_id c; cl_claimant := cl_claimant c; cl_amount := cl_amount c;
  cl_reason := cl_reason c; cl_evidence := cl_evidence c; cl_status := s; cl_submitted_at := cl_submitted_at c;
  cl_resolved_at := at_time; cl_resolver := resolver; cl_resolution_notes := notes |}.

Definition approve (now : Z) (resolver : string) (notes : option string) (c : Claim) : Claim :=
  with_claim_status c Approved (Some now) (Some resolver) notes.

Definition reject (now : Z) (resolver : string) (notes : option string) (c : Claim) : Claim :=
  with_claim_status c Rejected (Some now) (Some resolver) notes.

Definition mark_paid (c : Claim) : Claim :=
  if bool_decide (cl_status c = Approved)
  then with_claim_status c Paid (cl_resolved_at c) (cl_resolver c) (cl_resolution_notes c) else c.

Definition hour_nanos : Z := 3600000000000.
Definition num_hours (d : Z) : Z := Z.quot d hour_nanos.

Definition age_hours (now : Z) (c : Claim) : Z := num_hours (now - cl_submitted_at c).

Definition is_pending (c : Claim) : bool := match cl_status c with ClaimPending | UnderReview => true | _ => false end.

(** ** Evaluation *)

Inductive EvidenceType :=
| SecurityAdvisory | CveReport | MalwareDetection | CodeAnalysis | IncidentReport | OtherEvidence (s : string).

Definition severity_weight (t : EvidenceType) : f64 :=
  match t with
  | SecurityAdvisory => f_lit 8 10 | CveReport => f_of 1 | MalwareDetection => f_of 1 | CodeAnalysis => f_lit 6 10
  | IncidentReport => f_lit 9 10 | OtherEvidence _ => f_lit 5 10
  end.

Record Evidence := {
  ev_evidence_type : EvidenceType; ev_description : string; ev_source : string; ev_timestamp : Z; ev_severity : f64 }.

Definition evidence_score (e : Evidence) : f64 :=
  fmul (fmul (severity_weight (ev_evidence_type e)) (fdiv (ev_severity e) (f_of 10))) (f_of 100).

Record ClaimEvaluator := { min_evidence_score : f64; auto_approval_limit : f64; resolvers : list string }.

Definition default_evaluator : ClaimEvaluator := {| min_evidence_score := f_of 70; auto_approval_limit := f_of 1; resolvers := [] |}.

Definition evaluator_new (min_score limit : f64) : ClaimEvaluator :=
  {| min_evidence_score := min_score; auto_approval_limit := limit; resolvers := [] |}.

Definition add_resolver (e : ClaimEvaluator) (resolver : string) : ClaimEvaluator := {|
  min_evidence_score := min_evidence_score e; auto_approval_limit := auto_approval_limit e;
  resolvers := resolvers e ++ [resolver] |}.

Inductive EvaluationResult :=
| AutoApprove (score confidence : f64)
| ManualReview (score suggested_amount : f64)
| RejectClaim (reason : string) (score : f64).

Definition evaluate (e : ClaimEvaluator) (claim : Claim) (evidence : list Evidence) : EvaluationResult :=
  let score := fsum (evidence_score <$> evidence) in
  if SFleb (min_evidence_score e) score && SFleb (cl_amount claim) (auto_approval_limit e) then AutoApprove score (f_lit 95 100)
  else if SFleb (fmul (min_evidence_score e) (f_lit 7 10)) score then ManualReview score (cl_amount claim)
  else RejectClaim "Insufficient evidence" score.

Definition should_approve (r : EvaluationResult) : bool := match r with AutoApprove _ _ => true | _ => false end.

Definition result_score (r : EvaluationResult) : f64 :=
  match r with AutoApprove score _ => score | ManualReview score _ => score | RejectClaim _ score => score end.

(** The hash of an identifier, in 32 bits. *)
Definition claim_hash (id : string) : N :=
  foldl (λ acc b, ((acc * 31 + N_of_ascii b) mod 2 ^ 32)%N) 0%N (String.list_ascii_of_string id).

Definition assign_resolver (e : ClaimEvaluator) (claim_id : string) : option string :=
  match resolvers e with
  | [] => None
  | l => l !! (N.to_nat (claim_hash claim_id) mod length l)
  end.

Definition batch_evaluate (e : ClaimEvaluator) (claims : list (Claim * list Evidence)) : list (Claim * EvaluationResult) :=
  (λ '(claim, evidence), (claim, evaluate e claim evidence)) <$> claims.

(** ** The claims manager *)

Record ClaimsManager := { evaluator : ClaimEvaluator; mgr_claims : list Claim }.

Definition claims_manager_new (e : ClaimEvaluator) : ClaimsManager := {| evaluator := e; mgr_claims := [] |}.

Definition submit_claim (m : ClaimsManager) (claim : Claim) : result InsuranceError ClaimsManager :=
  _ ← ensure (negb (SFleb (cl_amount claim) (f_of 0))) (InvalidClaim "Invalid claim amount");
  _ ← ensure (negb (is_empty (cl_evidence claim))) (InvalidClaim "No evidence provided");
  Ok {| evaluator := evaluator m; mgr_claims := mgr_claims m ++ [claim] |}.

Definition pending_claims (m : ClaimsManager) : list Claim := filter (λ c, is_pending c = true) (mgr_claims m).

Record ClaimStats := {
  total_claims : N; n_pending : N; n_approved : N; n_rejected : N; n_paid : N; total_paid : f64;
  average_resolution_time_hours : f64;
}.

Definition no_claims : ClaimStats := {|
  total_claims := 0; n_pending := 0; n_approved := 0; n_rejected := 0; n_paid := 0; total_paid := f_of 0;
  average_resolution_time_hours := f_of 0 |}.

(** [+= 1] on [u32]. *)
Definition u32_incr (n : N) : N := ((n + 1) mod 2 ^ 32)%N.
Definition incr_if (b : bool) (n : N) : N := if b then u32_incr n else n.

Definition has_status (s : ClaimStatus) (c : Claim) : bool := bool_decide (cl_status c = s).

Definition count_claim (s : ClaimStats) (c : Claim) : ClaimStats :=
  let total := u32_incr (total_claims s) in
  let paid := has_status Paid c in {|
  total_claims := total;
  n_pending := incr_if (is_pending c) (n_pending s);
  n_approved := incr_if (has_status Approved c) (n_approved s);
  n_rejected := incr_if (has_status Rejected c) (n_rejected s);
  n_paid := incr_if paid (n_paid s);
  total_paid := if paid then fadd (total_paid s) (cl_amount c) else total_paid s;
  average_resolution_time_hours :=
    match cl_resolved_at c with
    | Some resolved =>
        let hours := f_of (num_hours (resolved - cl_submitted_at c)) in
        fdiv (fadd (fmul (average_resolution_time_hours s) (f_of (Z.of_N total - 1))) hours) (f_of (Z.of_N total))
    | None => average_resolution_time_hours s
    end |}.

Definition claim_stats (m : ClaimsManager) : ClaimStats := foldl count_claim no_claims (mgr_claims m).

(** The sum of the counts wraps in 32 bits. *)
Definition approval_rate (s : ClaimStats) : f64 :=
  let decided := ((n_approved s + n_rejected s) mod 2 ^ 32)%N in
  if (decided =? 0)%N then f_of 0 else fdiv (f_of (Z.of_N (n_approved s))) (f_of (Z.of_N decided)).

Definition average_payout (s : ClaimStats) : f64 :=
  if (n_paid s =? 0)%N then f_of 0 else fdiv (total_paid s) (f_of (Z.of_N (n_paid s))).

(** ** The pool *)

Record InsurancePool := {
  balance : f64; total_coverage : f64; policies : gmap string Policy; pool_claims : list Claim; min_solvency_ratio : f64 }.

Definition insurance_pool_new (initial_balance : f64) : InsurancePool := {|
  balance := initial_balance; total_coverage := f_of 0; policies := ∅; pool_claims := []; min_solvency_ratio := f_of 1 |}.

Definition add_policy (p : InsurancePool) (policy : Policy) : result InsuranceError InsurancePool :=
  let new_coverage := fadd (total_coverage p) (coverage_amount policy) in
  let solvency := fdiv (balance p) new_coverage in
  if SFltb solvency (min_solvency_ratio p) then Err PoolInsolvent
  else Ok {| balance := fadd (balance p) (pol_premium policy); total_coverage := new_coverage;
             policies := <[pol_id policy := policy]> (policies p); pool_claims := pool_claims p;
             min_solvency_ratio := min_solvency_ratio p |}.

Definition process_claim (now : Z) (p : InsurancePool) (claim : Claim) (approved : bool)
    : result InsuranceError (InsurancePool * f64) :=
  let closed := with_claim_status claim (if approved then Approved else Rejected) (Some now) (cl_resolver claim) (cl_resolution_notes claim) in
  if approved then
    let amount := cl_amount claim in
    if SFltb (balance p) amount then Err PoolInsolvent
    else Ok ({| balance := fsub (balance p) amount; total_coverage := fsub (total_coverage p) amount; policies := policies p;
                pool_claims := pool_claims p ++ [closed]; min_solvency_ratio := min_solvency_ratio p |}, amount)
  else Ok ({| balance := balance p; total_coverage := total_coverage p; policies := policies p;
              pool_claims := pool_claims p ++ [closed]; min_solvency_ratio := min_solvency_ratio p |}, f_of 0).

Record PoolHealth := {
  ph_balance : f64; ph_total_coverage : f64; solvency_ratio : f64; utilization_rate : f64; active_policies : nat;
  ph_total_claims : nat;
}.

Definition health (p : InsurancePool) : PoolHealth := {|
  ph_balance := balance p; ph_total_coverage := total_coverage p;
  solvency_ratio := if SFltb (f_of 0) (total_coverage p) then fdiv (balance p) (total_coverage p) else f_of 1;
  utilization_rate := if SFltb (f_of 0) (balance p) then fdiv (total_coverage p) (fmul (balance p) (f_of 3)) else f_of 0;
  active_policies := size (policies p); ph_total_claims := length (pool_claims p) |}.

Definition is_healthy (h : PoolHealth) : bool := SFleb (f_of 1) (solvency_ratio h) && SFleb (utilization_rate h) (f_lit 8 10).

Inductive RiskLevel := LevelLow | LevelMedium | LevelHigh | LevelCritical.

Definition risk_level (h : PoolHealth) : RiskLevel :=
  if SFltb (solvency_ratio h) (f_lit 8 10) || SFltb (f_lit 9 10) (utilization_rate h) then LevelCritical
  else if SFltb (solvency_ratio h) (f_of 1) || SFltb (f_lit 8 10) (utilization_rate h) then LevelHigh
  else if SFltb (solvency_ratio h) (f_lit 12 10) then LevelMedium
  else LevelLow.

Definition replenish (p : InsurancePool) (amount : f64) : InsurancePool := {|
  balance := fadd (balance p) amount; total_coverage := total_coverage p; policies := policies p;
  pool_claims := pool_claims p; min_solvency_ratio := min_solvency_ratio p |}.

Definition cleanup_expired (now : Z) (p : InsurancePool) : InsurancePool * nat :=
  let expired := filter (λ q, is_expired now q = true) (hm_values (policies p)) in
  ({| balance := balance p; total_coverage := foldl fsub (total_coverage p) (coverage_amount <$> expired);
      policies := filter (λ kv, is_expired now kv.2 = false) (policies p); pool_claims := pool_claims p;
      min_solvency_ratio := min_solvency_ratio p |}, length expired).

Inductive FundOp :=
| OpPolicy (policy : Policy)
| OpClaim (now : Z) (claim : Claim) (approved : bool)
| OpReplenish (amount : f64)
| OpCleanup (now : Z).

(** A refused call changes nothing. *)
Definition pool_step (p : InsurancePool) (op : FundOp) : InsurancePool :=
  match op with
  | OpPolicy policy => match add_policy p policy with Ok p' => p' | Err _ => p end
  | OpClaim now claim approved => match process_claim now p claim approved with Ok (p', _) => p' | Err _ => p end
  | OpReplenish amount => replenish p amount
  | OpCleanup now => (cleanup_expired now p).1
  end.

Definition pool_run : InsurancePool → list FundOp → InsurancePool := foldl pool_step.

(** ** Solvency *)

Lemma foldl_fsub_nan (l : list f64) : foldl fsub S754_nan l = S754_nan.
Proof. by induction l as [|x l IH]. Qed.

Lemma nan_step (p : InsurancePool) (op : FundOp) : total_coverage p = S754_nan → total_coverage (pool_step p op) = S754_nan.
Proof.
  intros H. destruct op as [q|now c b|x|now]; cbn [pool_step].
  - unfold add_policy. rewrite H, fadd_nan_l, fdiv_nan_r. done.
  - unfold process_claim. rewrite H. by destruct b; [destruct (SFltb _ _)|].
  - done.
  - cbn. rewrite H. apply foldl_fsub_nan.
Qed.

Lemma nan_accepts (p : InsurancePool) (q : Policy) :
  total_coverage p = S754_nan ∨ coverage_amount q = S754_nan →
  ∃ p', add_policy p q = Ok p' ∧ total_coverage p' = S754_nan.
Proof.
  intros H. unfold add_policy. assert (fadd (total_coverage p) (coverage_amount q) = S754_nan) as ->.
  { destruct H as [->| ->]; [done|apply fadd_nan_r]. }
  rewrite fdiv_nan_r, fltb_nan_l. by eexists.
Qed.

(** A policy whose coverage is not a number is accepted by every pool, and switches the check of
    solvency off for good: whatever happens to the pool afterwards, it accepts every policy. *)
Theorem nan_policy_disables_solvency (p : InsurancePool) (q : Policy) :
  coverage_amount q = S754_nan →
  ∃ p', add_policy p q = Ok p' ∧ ∀ ops q', is_ok (add_policy (pool_run p' ops) q') = true.
Proof.
  intros Hq. destruct (nan_accepts p q (or_intror Hq)) as (p' & Hp & Hn). exists p'. split; [done|]. intros ops q'.
  assert (total_coverage (pool_run p' ops) = S754_nan) as Ht.
  { clear Hp. revert p' Hn. induction ops as [|op ops IH]; intros p' Hn; [done|]. cbn. apply IH. by apply nan_step. }
  destruct (nan_accepts (pool_run p' ops) q' (or_introl Ht)) as (p'' & -> & _). done.
Qed.

(** ** Payouts *)

(** An approved claim is paid in full or refused, and what is paid was there: the balance does not
    become negative. *)
Theorem payout_covered (now : Z) (p p' : InsurancePool) (c : Claim) (payout : f64) :
  valid_f64 (balance p) = true → valid_f64 (cl_amount c) = true → nonneg (balance p) = true →
  process_claim now p c true = Ok (p', payout) → payout = cl_amount c ∧ nonneg (balance p') = true.
Proof.
  intros Hv Hc Hn. unfold process_claim. destruct (SFltb _ _) eqn:Hlt; [done|]. intros [= <- <-]. split; [done|]. cbn.
  destruct (is_nan (balance p)) eqn:Hb; [by destruct (balance p)|].
  destruct (is_nan (cl_amount c)) eqn:Ha; [destruct (cl_amount c), (balance p); done|].
  apply fsub_nonneg; try done. by apply fltb_total.
Qed.

(** The pool does not ask which policy a claim is for, nor whether the claim was paid before: an
    approved claim is paid as long as the balance lasts. *)
Theorem unfounded_claim_paid (now : Z) (p : InsurancePool) (c : Claim) :
  policies p !! cl_policy_id c = None → SFltb (balance p) (cl_amount c) = false →
  ∃ p', process_claim now p c true = Ok (p', cl_amount c) ∧ policies p' = policies p ∧
    (SFltb (balance p') (cl_amount c) = false → ∃ p'', process_claim now p' c true = Ok (p'', cl_amount c)).
Proof.
  intros _ Hb. unfold process_claim at 1. rewrite Hb. eexists. split; [done|]. split; [done|]. intros Hb'.
  unfold process_claim. cbn in Hb' |- *. rewrite Hb'. eauto.
Qed.

(** ** Expired policies *)

Lemma expired_split (now : Z) (m : gmap string Policy) :
  length (filter (λ q, is_expired now q = true) (hm_values m)) + size (filter (λ kv, is_expired now kv.2 = false) m) = size m.
Proof.
  rewrite <- !length_map_to_list. unfold hm_values.
  rewrite (map_filter_alt _ m), map_to_list_to_map by (eapply sublist_NoDup; [apply (NoDup_fst_map_to_list m)|apply fmap_sublist, sublist_filter]).
  induction (map_to_list m) as [|[k q] l IH]; [done|]. rewrite fmap_cons, !filter_cons. cbn [snd].
  destruct (is_expired now q) eqn:He; repeat case_decide; try congruence; cbn [length]; lia.
Qed.

(** A cleanup removes the expired policies, keeps the others and reports how many it removed. *)
Theorem cleanup_exact (now : Z) (p : InsurancePool) :
  (∀ id q, policies (cleanup_expired now p).1 !! id = Some q ↔ policies p !! id = Some q ∧ is_expired now q = false) ∧
  (cleanup_expired now p).2 + size (policies (cleanup_expired now p).1) = size (policies p).
Proof.
  split; [|apply expired_split]. intros id q. cbn. by rewrite map_lookup_filter_Some.
Qed.

(** A paid claim takes its amount from the total coverage and leaves the policy, whose expiry takes
    its coverage from it again: the total of a pool without policies is then below zero. *)
Theorem paid_policy_subtracted_twice (now later : Z) (p p1 : InsurancePool) (q : Policy) (c : Claim) (payout : f64) :
  policies p = {[pol_id q := q]} → total_coverage p = coverage_amount q → cl_amount c = coverage_amount q →
  process_claim now p c true = Ok (p1, payout) → is_expired later q = true →
  policies (cleanup_expired later p1).1 = ∅ ∧
  total_coverage (cleanup_expired later p1).1 = fsub (fsub (coverage_amount q) (coverage_amount q)) (coverage_amount q).
Proof.
  intros Hp Ht Hc. unfold process_claim. destruct (SFltb _ _); [done|]. intros [= <- _] He. cbn. rewrite Hp, Ht, Hc. split.
  - rewrite map_filter_singleton. cbn. by rewrite He.
  - unfold hm_values. rewrite map_to_list_singleton. cbn. by rewrite He.
Qed.

(** ** Claims *)

Lemma elem_of_modulo {A : Type} (l : list A) (n : nat) : l ≠ [] → ∃ x, l !! (n mod length l) = Some x ∧ x ∈ l.
Proof.
  intros Hl. destruct (lookup_lt_is_Some_2 l (n mod length l)) as [x Hx].
  { apply Nat.mod_upper_bound. by destruct l. }
  exists x. split; [done|]. by eapply list_elem_of_lookup_2.
Qed.

(** Every claim has a resolver unless there is none. *)
Theorem resolver_assigned (e : ClaimEvaluator) (id : string) :
  match assign_resolver e id with Some r => r ∈ resolvers e | None => resolvers e = [] end.
Proof.
  unfold assign_resolver. destruct (resolvers e) as [|r l]; [done|].
  destruct (elem_of_modulo (r :: l) (N.to_nat (claim_hash id)) ltac:(done)) as (x & -> & Hx). done.
Qed.

Inductive claim_step : Claim → Claim → Prop :=
| step_approve now resolver notes c : claim_step c (approve now resolver notes c)
| step_reject now resolver notes c : claim_step c (reject now resolver notes c)
| step_paid c : claim_step c (mark_paid c).

(** A claim is pending until it is resolved, never under review, and its identity, amount and
    evidence do not change. *)
Theorem claim_lifecycle (now : Z) (id policy_id claimant : string) (amount : f64) (reason evidence : string) (c : Claim) :
  rtc claim_step (claim_new now id policy_id claimant amount reason evidence) c →
  cl_status c ≠ UnderReview ∧ (cl_status c = ClaimPending ↔ cl_resolved_at c = None) ∧
  cl_id c = id ∧ cl_amount c = amount ∧ cl_evidence c = evidence ∧ cl_submitted_at c = now.
Proof.
  revert c. apply rtc_ind_r; [done|]. intros c c' _ Hs (Hu & Hr & Hid & Ha & He & Ht). destruct Hs as [? ? ? c|? ? ? c|c].
  1,2: by cbn.
  unfold mark_paid. case_bool_decide as Hs; [|done]. cbn. rewrite Hs in Hr. naive_solver.
Qed.

(** Neither approval nor payment looks at the status: a claim that was rejected, or paid, is paid
    after one more approval. *)
Theorem paid_claim_pays_again (now : Z) (resolver : string) (notes : option string) (c : Claim) :
  cl_status (mark_paid (approve now resolver notes c)) = Paid ∧
  (cl_status c ≠ Approved → mark_paid c = c).
Proof. split; [done|]. intros H. unfold mark_paid. by rewrite bool_decide_eq_false_2. Qed.

(** ** Statistics *)

Lemma incr_small (b : bool) (n : N) : (n + 1 < 2 ^ 32)%N → incr_if b n = (n + N.b2n b)%N.
Proof. intros H. destruct b; cbn [incr_if N.b2n]; [|lia]. unfold u32_incr. by apply N.mod_small. Qed.

Definition tally_of (f : Claim → bool) (l : list Claim) : N := N.of_nat (count f l).

Lemma tally_snoc (f : Claim → bool) (l : list Claim) (c : Claim) : tally_of f (l ++ [c]) = (tally_of f l + N.b2n (f c))%N.
Proof. unfold tally_of. rewrite count_app, count_cons, count_nil. destruct (f c); cbn [N.b2n]; lia. Qed.

Lemma tally_le (f : Claim → bool) (l : list Claim) : (tally_of f l ≤ N.of_nat (length l))%N.
Proof. unfold tally_of. pose proof (count_le_length f l). lia. Qed.

Lemma tally_partition (l : list Claim) :
  (tally_of is_pending l + tally_of (has_status Approved) l + tally_of (has_status Rejected) l + tally_of (has_status Paid) l =
   N.of_nat (length l))%N.
Proof.
  induction l as [|c l IH]; [done|]. unfold tally_of in *. rewrite !count_cons. cbn [length].
  assert ((if is_pending c then 1 else 0) + (if has_status Approved c then 1 else 0) + (if has_status Rejected c then 1 else 0) +
          (if has_status Paid c then 1 else 0) = 1) by (unfold is_pending, has_status; by destruct (cl_status c)).
  lia.
Qed.

Definition paid_amounts (l : list Claim) : list f64 := cl_amount <$> filter (λ c, has_status Paid c = true) l.

(** The counts are those of the statuses, which add up to all claims, and the total is the sum of
    the paid amounts in order, while there are fewer than 2^32 claims. *)
Theorem stats_exact (m : ClaimsManager) :
  let l := mgr_claims m in
  let s := claim_stats m in
  (N.of_nat (length l) < 2 ^ 32)%N →
  total_claims s = N.of_nat (length l) ∧ n_pending s = tally_of is_pending l ∧ n_approved s = tally_of (has_status Approved) l ∧
  n_rejected s = tally_of (has_status Rejected) l ∧ n_paid s = tally_of (has_status Paid) l ∧
  total_claims s = (n_pending s + n_approved s + n_rejected s + n_paid s)%N ∧ total_paid s = fsum (paid_amounts l).
Proof.
  cbv zeta. unfold claim_stats. generalize (mgr_claims m) as l. intros l Hl.
  cut (let s := foldl count_claim no_claims l in
    total_claims s = N.of_nat (length l) ∧ n_pending s = tally_of is_pending l ∧ n_approved s = tally_of (has_status Approved) l ∧
    n_rejected s = tally_of (has_status Rejected) l ∧ n_paid s = tally_of (has_status Paid) l ∧ total_paid s = fsum (paid_amounts l)).
  { cbv zeta. intros (H1 & H2 & H3 & H4 & H5 & H6). pose proof (tally_partition l). split_and!; try done. rewrite H1, H2, H3, H4, H5. lia. }
  cbv zeta. induction l as [|c l IH] using rev_ind; [done|]. rewrite length_app in *. cbn [length] in *.
  destruct IH as (H1 & H2 & H3 & H4 & H5 & H6); [lia|]. rewrite foldl_snoc. set (s := foldl _ _ _) in *.
  pose proof (tally_le is_pending l). pose proof (tally_le (has_status Approved) l). pose proof (tally_le (has_status Rejected) l).
  pose proof (tally_le (has_status Paid) l). unfold count_claim. cbn [total_claims n_pending n_approved n_rejected n_paid total_paid].
  rewrite !incr_small by lia. rewrite !tally_snoc. unfold u32_incr. rewrite N.mod_small by lia.
  split_and!; try lia. unfold paid_amounts, fsum. rewrite filter_app, fmap_app, foldl_app.
  change (foldl fadd (f_of 0) (cl_amount <$> filter (λ c, has_status Paid c = true) l)) with (fsum (paid_amounts l)).
  rewrite <- H6, filter_cons. by destruct (has_status Paid c); case_decide.
Qed.

(** ** Witnesses *)
Module InsuranceWitness.

Definition policy1 (id : string) (coverage : f64) : Policy := {|
  pol_id := id; pol_insured := "alice"; pol_package := "npm:a@1"; coverage_amount := coverage; pol_premium := f_of 1;
  created_at := 0; expires_at := 10; active := true; pol_risk_score := f_of 50 |}.

Definition claim1 (amount : f64) : Claim := claim_new 0 "c1" "p1" "alice" amount "stolen" "ipfs".

Definition pool0 : InsurancePool := insurance_pool_new (f_of 1000).
Definition nan_pool : InsurancePool := pool_step pool0 (OpPolicy (policy1 "p1" S754_nan)).

(** It accepts a policy a million times its balance. *)
Lemma nan_policy_disables_solvency_witness :
  ∃ p', add_policy pool0 (policy1 "p1" S754_nan) = Ok p' ∧
    is_ok (add_policy (pool_run p' [OpCleanup 20; OpReplenish (f_of 5)]) (policy1 "p2" (f_of (10 ^ 9)))) = true.
Proof.
  destruct (nan_policy_disables_solvency pool0 (policy1 "p1" S754_nan) eq_refl) as (p' & H & Hall).
  exists p'. split; [exact H|]. apply Hall.
Defined.

Definition paid_pool : InsurancePool := pool_step pool0 (OpClaim 1 (claim1 (f_of 300)) true).

Lemma payout_covered_witness : f_of 300 = f_of 300 ∧ nonneg (balance paid_pool) = true.
Proof. apply (payout_covered 1 pool0 paid_pool (claim1 (f_of 300)) (f_of 300)); reflexivity. Defined.

(** There is no policy at all, and the claim is paid twice. *)
Lemma unfounded_claim_paid_witness :
  ∃ p', process_claim 1 pool0 (claim1 (f_of 300)) true = Ok (p', f_of 300) ∧ policies p' = policies pool0 ∧
    (SFltb (balance p') (f_of 300) = false → ∃ p'', process_claim 1 p' (claim1 (f_of 300)) true = Ok (p'', f_of 300)).
Proof. apply (unfounded_claim_paid 1 pool0 (claim1 (f_of 300))); reflexivity. Defined.

Example paid_twice : balance (pool_run pool0 [OpClaim 1 (claim1 (f_of 300)) true; OpClaim 1 (claim1 (f_of 300)) true]) = f_of 400.
Proof. by vm_compute. Qed.

Definition insured_pool : InsurancePool := pool_run pool0 [OpPolicy (policy1 "p1" (f_of 100))].
Definition settled_pool : InsurancePool := pool_run insured_pool [OpClaim 1 (claim1 (f_of 100)) true].

Lemma paid_policy_subtracted_twice_witness :
  policies (cleanup_expired 20 settled_pool).1 = ∅ ∧ total_coverage (cleanup_expired 20 settled_pool).1 = f_of (-100).
Proof.
  apply (paid_policy_subtracted_twice 1 20 insured_pool settled_pool (policy1 "p1" (f_of 100)) (claim1 (f_of 100)) (f_of 100));
    reflexivity.
Defined.

(** The pool that is left, with 901 and no obligations, refuses to insure 50. *)
Example sound_pool_refuses :
  balance (cleanup_expired 20 settled_pool).1 = f_of 901 ∧
  add_policy (cleanup_expired 20 settled_pool).1 (policy1 "p2" (f_of 50)) = Err PoolInsolvent.
Proof. by vm_compute. Qed.

(** A policy that replaces one of the same identifier leaves the coverage of the old one in the total
    for ever. *)
Example replaced_policy_stays_covered :
  let p := pool_run insured_pool [OpPolicy (policy1 "p1" (f_of 10)); OpCleanup 20] in
  policies p = ∅ ∧ total_coverage p = f_of 100.
Proof. by vm_compute. Qed.

(** The severity is not bounded: one opinion is enough for an automatic payment, and so is a weak
    one that is sent twice. *)
Definition opinion (severity : f64) : Evidence :=
  {| ev_evidence_type := OtherEvidence "mail"; ev_description := ""; ev_source := ""; ev_timestamp := 0; ev_severity := severity |}.

Example inflated_severity_approves : should_approve (evaluate default_evaluator (claim1 (f_of 1)) [opinion (f_of 100)]) = true.
Proof. by vm_compute. Qed.

Example repeated_evidence_approves :
  should_approve (evaluate default_evaluator (claim1 (f_of 1)) [opinion (f_of 10)]) = false ∧
  should_approve (evaluate default_evaluator (claim1 (f_of 1)) [opinion (f_of 10); opinion (f_of 10)]) = true.
Proof. by vm_compute. Qed.

Lemma claim_lifecycle_witness :
  let c := mark_paid (approve 5 "bob" None (claim1 (f_of 1))) in
  cl_status c ≠ UnderReview ∧ (cl_status c = ClaimPending ↔ cl_resolved_at c = None) ∧
  cl_id c = "c1" ∧ cl_amount c = f_of 1 ∧ cl_evidence c = "ipfs" ∧ cl_submitted_at c = 0%Z.
Proof.
  apply (claim_lifecycle 0 "c1" "p1" "alice" (f_of 1) "stolen" "ipfs").
  eapply rtc_l; [apply (step_approve 5 "bob" None)|]. eapply rtc_l; [apply step_paid|]. apply rtc_refl.
Defined.

Definition manager1 : ClaimsManager := {|
  evaluator := default_evaluator; mgr_claims := [claim1 (f_of 3); approve (10 * hour_nanos) "bob" None (claim1 (f_of 2))] |}.

Lemma stats_exact_witness :
  let s := claim_stats manager1 in
  total_claims s = 2%N ∧ n_pending s = 1%N ∧ n_approved s = 1%N ∧ n_rejected s = 0%N ∧ n_paid s = 0%N ∧
  total_claims s = (n_pending s + n_approved s + n_rejected s + n_paid s)%N ∧ total_paid s = f_of 0.
Proof. apply (stats_exact manager1). reflexivity. Defined.

(** The average counts the open claims: the only resolved one took ten hours. *)
Example average_counts_open_claims : average_resolution_time_hours (claim_stats manager1) = f_of 5.
Proof. by vm_compute. Qed.

(** A policy for no days has a refund that is not a number. *)
Example zero_day_refund : option_map (refund_amount 0) (policy_new (λ t d, Some (t + d * day_nanos)%Z) 0 "p" "a" "npm:a@1" (f_of 1) (f_of 1) 0 (f_of 0))
  = Some S754_nan.
Proof. by vm_compute. Qed.

End InsuranceWitness.
