(* ===== verification/PinningRewards.v ===== *)
(** The contract that rewards the nodes that pin packages (contracts/PinningRewards.sol), for its
    composition with the manager of [Pinning].

    Addresses and 256-bit integers are [N], a CID is the text of its 32 bytes.  Checked arithmetic
    reverts.  [pw_held] is the balance of the contract in the token; a transfer moves it, or reverts
    the call ([transfer_ok], and where the balance does not suffice).  Roles are sets of addresses,
    events are left out, and so is the reentrancy guard. *)

From S2P Require Import Prelude Text Staking.
From Stdlib Require Import ZArith.

Record Pinner := {
  pn_isRegistered : bool; pn_stakedAmount : N; pn_totalPinnedSize : N; pn_successfulVerifications : N;
  pn_failedVerifications : N; pn_lastRewardClaim : N; pn_cumulativeRewards : N;
}.

Record Pin := { pi_pinner : N; pi_size : N; pi_pinnedAt : N; pi_lastVerified : N; pi_accessCount : N; pi_isActive : bool }.

Record Verification := { vf_cid : string; vf_pinner : N; vf_timestamp : N; vf_success : bool; vf_proofHash : string }.

Definition no_pinner : Pinner := {|
  pn_isRegistered := false; pn_stakedAmount := 0; pn_totalPinnedSize := 0; pn_successfulVerifications := 0;
  pn_failedVerifications := 0; pn_lastRewardClaim := 0; pn_cumulativeRewards := 0 |}.

Definition no_pin : Pin := {| pi_pinner := 0; pi_size := 0; pi_pinnedAt := 0; pi_lastVerified := 0; pi_accessCount := 0; pi_isActive := false |}.

Record PinningRewards := {
  pw_rewardPerGBPerDay : N; pw_popularContentMultiplier : N; pw_verificationFailurePenalty : N; pw_verificationCooldown : N;
  pw_pinners : gmap N Pinner; pw_pins : gmap string Pin; pw_pinnerCids : gmap N (list string);
  pw_cidPinners : gmap string (list N); pw_verifications : list Verification; pw_lastVerificationTime : gmap N N;
  pw_totalRewardsDistributed : N; pw_rewardsPool : N; pw_held : N; pw_admins : gset N; pw_verifiers : gset N;
}.

Definition MIN_STAKE : N := 1000 * 10 ^ 18.

(** The deployed contract: the deployer has every role. *)
Definition rewards_deployed (deployer : N) : PinningRewards := {|
  pw_rewardPerGBPerDay := 10 ^ 16; pw_popularContentMultiplier := 200; pw_verificationFailurePenalty := 100;
  pw_verificationCooldown := 3600; pw_pinners := ∅; pw_pins := ∅; pw_pinnerCids := ∅; pw_cidPinners := ∅; pw_verifications := [];
  pw_lastVerificationTime := ∅; pw_totalRewardsDistributed := 0; pw_rewardsPool := 0; pw_held := 0;
  pw_admins := {[ deployer ]}; pw_verifiers := {[ deployer ]} |}.

Definition pinner_of (s : PinningRewards) (a : N) : Pinner := default no_pinner (pw_pinners s !! a).
Definition pin_of (s : PinningRewards) (cid : string) : Pin := default no_pin (pw_pins s !! cid).
Definition cids_of (s : PinningRewards) (a : N) : list string := default [] (pw_pinnerCids s !! a).

Inductive PinRevert :=
| AlreadyRegistered | InsufficientStake | TransferFailed | NotRegistered | HasActivePins | InvalidSize | AlreadyPinning
| PinNotActive | NotYourPin | MissingRole | CooldownActive | InvalidPin | NoRewards | InsufficientPool | ArithmeticPanic.

(** ** Writing the storage *)

Definition set_pinners (s : PinningRewards) (m : gmap N Pinner) : PinningRewards := {|
  pw_rewardPerGBPerDay := pw_rewardPerGBPerDay s; pw_popularContentMultiplier := pw_popularContentMultiplier s;
  pw_verificationFailurePenalty := pw_verificationFailurePenalty s; pw_verificationCooldown := pw_verificationCooldown s;
  pw_pinners := m; pw_pins := pw_pins s; pw_pinnerCids := pw_pinnerCids s; pw_cidPinners := pw_cidPinners s;
  pw_verifications := pw_verifications s; pw_lastVerificationTime := pw_lastVerificationTime s;
  pw_totalRewardsDistributed := pw_totalRewardsDistributed s; pw_rewardsPool := pw_rewardsPool s; pw_held := pw_held s;
  pw_admins := pw_admins s; pw_verifiers := pw_verifiers s |}.

Definition put_pinner (s : PinningRewards) (a : N) (p : Pinner) : PinningRewards := set_pinners s (<[a := p]> (pw_pinners s)).

Definition set_pins (s : PinningRewards) (pins : gmap string Pin) (cids : gmap N (list string)) (cid_pinners : gmap string (list N))
    : PinningRewards := {|
  pw_rewardPerGBPerDay := pw_rewardPerGBPerDay s; pw_popularContentMultiplier := pw_popularContentMultiplier s;
  pw_verificationFailurePenalty := pw_verificationFailurePenalty s; pw_verificationCooldown := pw_verificationCooldown s;
  pw_pinners := pw_pinners s; pw_pins := pins; pw_pinnerCids := cids; pw_cidPinners := cid_pinners;
  pw_verifications := pw_verifications s; pw_lastVerificationTime := pw_lastVerificationTime s;
  pw_totalRewardsDistributed := pw_totalRewardsDistributed s; pw_rewardsPool := pw_rewardsPool s; pw_held := pw_held s;
  pw_admins := pw_admins s; pw_verifiers := pw_verifiers s |}.

Definition set_verifications (s : PinningRewards) (v : list Verification) (last : gmap N N) : PinningRewards := {|
  pw_rewardPerGBPerDay := pw_rewardPerGBPerDay s; pw_popularContentMultiplier := pw_popularContentMultiplier s;
  pw_verificationFailurePenalty := pw_verificationFailurePenalty s; pw_verificationCooldown := pw_verificationCooldown s;
  pw_pinners := pw_pinners s; pw_pins := pw_pins s; pw_pinnerCids := pw_pinnerCids s; pw_cidPinners := pw_cidPinners s;
  pw_verifications := v; pw_lastVerificationTime := last;
  pw_totalRewardsDistributed := pw_totalRewardsDistributed s; pw_rewardsPool := pw_rewardsPool s; pw_held := pw_held s;
  pw_admins := pw_admins s; pw_verifiers := pw_verifiers s |}.

Definition set_funds (s : PinningRewards) (distributed pool held : N) : PinningRewards := {|
  pw_rewardPerGBPerDay := pw_rewardPerGBPerDay s; pw_popularContentMultiplier := pw_popularContentMultiplier s;
  pw_verificationFailurePenalty := pw_verificationFailurePenalty s; pw_verificationCooldown := pw_verificationCooldown s;
  pw_pinners := pw_pinners s; pw_pins := pw_pins s; pw_pinnerCids := pw_pinnerCids s; pw_cidPinners := pw_cidPinners s;
  pw_verifications := pw_verifications s; pw_lastVerificationTime := pw_lastVerificationTime s;
  pw_totalRewardsDistributed := distributed; pw_rewardsPool := pool; pw_held := held;
  pw_admins := pw_admins s; pw_verifiers := pw_verifiers s |}.

Definition set_params (s : PinningRewards) (rate cooldown penalty multiplier : N) : PinningRewards := {|
  pw_rewardPerGBPerDay := rate; pw_popularContentMultiplier := multiplier;
  pw_verificationFailurePenalty := penalty; pw_verificationCooldown := cooldown;
  pw_pinners := pw_pinners s; pw_pins := pw_pins s; pw_pinnerCids := pw_pinnerCids s; pw_cidPinners := pw_cidPinners s;
  pw_verifications := pw_verifications s; pw_lastVerificationTime := pw_lastVerificationTime s;
  pw_totalRewardsDistributed := pw_totalRewardsDistributed s; pw_rewardsPool := pw_rewardsPool s; pw_held := pw_held s;
  pw_admins := pw_admins s; pw_verifiers := pw_verifiers s |}.

(** Checked arithmetic of Solidity 0.8. *)
Definition checked (n : N) : result PinRevert N := if (n <? u256_size)%N then Ok n else Err ArithmeticPanic.
Definition checked_sub (a b : N) : result PinRevert N := if (b <=? a)%N then Ok (a - b)%N else Err ArithmeticPanic.

(** [transferFrom] to the contract, and [transfer] from it. *)
Definition receive (transfer_ok : bool) (amount : N) (s : PinningRewards) : result PinRevert PinningRewards :=
  _ ← ensure transfer_ok TransferFailed;
  held ← checked (pw_held s + amount);
  Ok (set_funds s (pw_totalRewardsDistributed s) (pw_rewardsPool s) held).

Definition pay (transfer_ok : bool) (amount : N) (s : PinningRewards) : result PinRevert PinningRewards :=
  _ ← ensure (transfer_ok && (amount <=? pw_held s)%N) TransferFailed;
  Ok (set_funds s (pw_totalRewardsDistributed s) (pw_rewardsPool s) (pw_held s - amount)).

(** ** Rewards *)

(** What one pin of a pinner earns in [days]; an inactive pin is skipped. *)
Definition base_reward (s : PinningRewards) (p : Pinner) (days : N) (cid : string) : result PinRevert N :=
  let pin := pin_of s cid in
  if negb (pi_isActive pin) then Ok 0%N
  else
    a ← checked (pi_size pin * days);
    b ← checked (a * pw_rewardPerGBPerDay s);
    let reward := (b / 10 ^ 9)%N in
    reward ← (if (1000 <? pi_accessCount pin)%N
              then r ← checked (reward * pw_popularContentMultiplier s); Ok (r / 100)%N else Ok reward);
    total ← checked (pn_successfulVerifications p + pn_failedVerifications p);
    if (0 <? total)%N then
      hundred ← checked (pn_successfulVerifications p * 100);
      r ← checked (reward * (hundred / total));
      Ok (r / 100)%N
    else Ok reward.

Fixpoint total_rewards (s : PinningRewards) (p : Pinner) (days : N) (cids : list string) (total : N) : result PinRevert N :=
  match cids with
  | [] => Ok total
  | cid :: cids =>
      r ← base_reward s p days cid;
      total ← checked (total + r);
      total_rewards s p days cids total
  end.

Definition calculateRewards (now addr : N) (s : PinningRewards) : result PinRevert N :=
  let p := pinner_of s addr in
  if negb (pn_isRegistered p) then Ok 0%N
  else
    delta ← checked_sub now (pn_lastRewardClaim p);
    total_rewards s p (delta / 86400) (cids_of s addr) 0.

Definition pay_rewards (transfer_ok : bool) (now addr : N) (s : PinningRewards) : result PinRevert PinningRewards :=
  rewards ← calculateRewards now addr s;
  _ ← ensure (0 <? rewards)%N NoRewards;
  _ ← ensure (rewards <=? pw_rewardsPool s)%N InsufficientPool;
  let p := pinner_of s addr in
  cumulative ← checked (pn_cumulativeRewards p + rewards);
  let s := put_pinner s addr {|
    pn_isRegistered := pn_isRegistered p; pn_stakedAmount := pn_stakedAmount p; pn_totalPinnedSize := pn_totalPinnedSize p;
    pn_successfulVerifications := pn_successfulVerifications p; pn_failedVerifications := pn_failedVerifications p;
    pn_lastRewardClaim := now; pn_cumulativeRewards := cumulative |} in
  distributed ← checked (pw_totalRewardsDistributed s + rewards);
  pay transfer_ok rewards (set_funds s distributed (pw_rewardsPool s - rewards) (pw_held s)).

Definition claimRewards (transfer_ok : bool) (now sender : N) (s : PinningRewards) : result PinRevert PinningRewards :=
  pay_rewards transfer_ok now sender s.

(** ** Registration *)

Definition registerPinner (transfer_ok : bool) (now sender stakeAmount : N) (s : PinningRewards) : result PinRevert PinningRewards :=
  _ ← ensure (negb (pn_isRegistered (pinner_of s sender))) AlreadyRegistered;
  _ ← ensure (MIN_STAKE <=? stakeAmount)%N InsufficientStake;
  s ← receive transfer_ok stakeAmount s;
  Ok (put_pinner s sender {|
    pn_isRegistered := true; pn_stakedAmount := stakeAmount; pn_totalPinnedSize := 0; pn_successfulVerifications := 0;
    pn_failedVerifications := 0; pn_lastRewardClaim := now; pn_cumulativeRewards := 0 |}).

Definition unregisterPinner (transfer_ok : bool) (now sender : N) (s : PinningRewards) : result PinRevert PinningRewards :=
  let p := pinner_of s sender in
  _ ← ensure (pn_isRegistered p) NotRegistered;
  _ ← ensure (bool_decide (length (cids_of s sender) = 0)) HasActivePins;
  s ← pay_rewards transfer_ok now sender s;
  pay transfer_ok (pn_stakedAmount p) (set_pinners s (delete sender (pw_pinners s))).

(** ** Pins *)

Definition registerPin (now sender : N) (cid : string) (size : N) (s : PinningRewards) : result PinRevert PinningRewards :=
  let p := pinner_of s sender in
  _ ← ensure (pn_isRegistered p) NotRegistered;
  _ ← ensure (0 <? size)%N InvalidSize;
  _ ← ensure (negb (pi_isActive (pin_of s cid)) || negb (pi_pinner (pin_of s cid) =? sender)%N) AlreadyPinning;
  total ← checked (pn_totalPinnedSize p + size);
  let s := set_pins s
    (<[cid := {| pi_pinner := sender; pi_size := size; pi_pinnedAt := now; pi_lastVerified := 0; pi_accessCount := 0;
                 pi_isActive := true |}]> (pw_pins s))
    (<[sender := cids_of s sender ++ [cid]]> (pw_pinnerCids s))
    (<[cid := default [] (pw_cidPinners s !! cid) ++ [sender]]> (pw_cidPinners s)) in
  Ok (put_pinner s sender {|
    pn_isRegistered := pn_isRegistered p; pn_stakedAmount := pn_stakedAmount p; pn_totalPinnedSize := total;
    pn_successfulVerifications := pn_successfulVerifications p; pn_failedVerifications := pn_failedVerifications p;
    pn_lastRewardClaim := pn_lastRewardClaim p; pn_cumulativeRewards := pn_cumulativeRewards p |}).

(** [_removeCidFromPinner]: the last entry takes the place of the first match. *)
Definition remove_cid (cid : string) (cids : list string) : list string :=
  match list_find (λ c, c = cid) cids with
  | Some (i, _) => take (length cids - 1) (<[i := default "" (last cids)]> cids)
  | None => cids
  end.

Definition pin_with_active (pin : Pin) (b : bool) : Pin := {|
  pi_pinner := pi_pinner pin; pi_size := pi_size pin; pi_pinnedAt := pi_pinnedAt pin; pi_lastVerified := pi_lastVerified pin;
  pi_accessCount := pi_accessCount pin; pi_isActive := b |}.

Definition unregisterPin (sender : N) (cid : string) (s : PinningRewards) : result PinRevert PinningRewards :=
  let pin := pin_of s cid in
  let p := pinner_of s sender in
  _ ← ensure (pi_isActive pin) PinNotActive;
  _ ← ensure (pi_pinner pin =? sender)%N NotYourPin;
  total ← checked_sub (pn_totalPinnedSize p) (pi_size pin);
  let s := set_pins s (<[cid := pin_with_active pin false]> (pw_pins s))
    (<[sender := remove_cid cid (cids_of s sender)]> (pw_pinnerCids s)) (pw_cidPinners s) in
  Ok (put_pinner s sender {|
    pn_isRegistered := pn_isRegistered p; pn_stakedAmount := pn_stakedAmount p; pn_totalPinnedSize := total;
    pn_successfulVerifications := pn_successfulVerifications p; pn_failedVerifications := pn_failedVerifications p;
    pn_lastRewardClaim := pn_lastRewardClaim p; pn_cumulativeRewards := pn_cumulativeRewards p |}).

(** Anyone may report. *)
Definition reportAccess (cid : string) (s : PinningRewards) : result PinRevert PinningRewards :=
  let pin := pin_of s cid in
  _ ← ensure (pi_isActive pin) PinNotActive;
  n ← checked (pi_accessCount pin + 1);
  Ok (set_pins s (<[cid := {| pi_pinner := pi_pinner pin; pi_size := pi_size pin; pi_pinnedAt := pi_pinnedAt pin;
    pi_lastVerified := pi_lastVerified pin; pi_accessCount := n; pi_isActive := true |}]> (pw_pins s))
    (pw_pinnerCids s) (pw_cidPinners s)).

(** ** Verification *)

Definition submitVerification (now sender pinner : N) (cid : string) (success : bool) (proofHash : string) (s : PinningRewards)
    : result PinRevert PinningRewards :=
  _ ← ensure (bool_decide (sender ∈ pw_verifiers s)) MissingRole;
  due ← checked (default 0%N (pw_lastVerificationTime s !! pinner) + pw_verificationCooldown s);
  _ ← ensure (due <=? now)%N CooldownActive;
  let pin := pin_of s cid in
  _ ← ensure (pi_isActive pin && (pi_pinner pin =? pinner)%N) InvalidPin;
  let p := pinner_of s pinner in
  let s := set_verifications s
    (pw_verifications s ++ [{| vf_cid := cid; vf_pinner := pinner; vf_timestamp := now; vf_success := success; vf_proofHash := proofHash |}])
    (<[pinner := now]> (pw_lastVerificationTime s)) in
  if success then
    n ← checked (pn_successfulVerifications p + 1);
    let s := set_pins s (<[cid := {| pi_pinner := pi_pinner pin; pi_size := pi_size pin; pi_pinnedAt := pi_pinnedAt pin;
      pi_lastVerified := now; pi_accessCount := pi_accessCount pin; pi_isActive := true |}]> (pw_pins s))
      (pw_pinnerCids s) (pw_cidPinners s) in
    Ok (put_pinner s pinner {|
      pn_isRegistered := pn_isRegistered p; pn_stakedAmount := pn_stakedAmount p; pn_totalPinnedSize := pn_totalPinnedSize p;
      pn_successfulVerifications := n; pn_failedVerifications := pn_failedVerifications p;
      pn_lastRewardClaim := pn_lastRewardClaim p; pn_cumulativeRewards := pn_cumulativeRewards p |})
  else
    n ← checked (pn_failedVerifications p + 1);
    scaled ← checked (pn_stakedAmount p * pw_verificationFailurePenalty s);
    let penalty := (scaled / 10000)%N in
    staked ← checked_sub (pn_stakedAmount p) penalty;
    pool ← checked (pw_rewardsPool s + penalty);
    Ok (set_funds (put_pinner s pinner {|
      pn_isRegistered := pn_isRegistered p; pn_stakedAmount := staked; pn_totalPinnedSize := pn_totalPinnedSize p;
      pn_successfulVerifications := pn_successfulVerifications p; pn_failedVerifications := n;
      pn_lastRewardClaim := pn_lastRewardClaim p; pn_cumulativeRewards := pn_cumulativeRewards p |})
      (pw_totalRewardsDistributed s) pool (pw_held s)).

(** ** Funds and parameters *)

Definition fundRewardsPool (transfer_ok : bool) (amount : N) (s : PinningRewards) : result PinRevert PinningRewards :=
  s ← receive transfer_ok amount s;
  pool ← checked (pw_rewardsPool s + amount);
  Ok (set_funds s (pw_totalRewardsDistributed s) pool (pw_held s)).

Definition setRewardRate (sender newRate : N) (s : PinningRewards) : result PinRevert PinningRewards :=
  _ ← ensure (bool_decide (sender ∈ pw_admins s)) MissingRole;
  Ok (set_params s newRate (pw_verificationCooldown s) (pw_verificationFailurePenalty s) (pw_popularContentMultiplier s)).

Definition setVerificationParams (sender cooldown penalty multiplier : N) (s : PinningRewards) : result PinRevert PinningRewards :=
  _ ← ensure (bool_decide (sender ∈ pw_admins s)) MissingRole;
  Ok (set_params s (pw_rewardPerGBPerDay s) cooldown penalty multiplier).

(** ** Calls *)

Inductive PinCall :=
| CallRegisterPinner (stakeAmount : N)
| CallUnregisterPinner
| CallRegisterPin (cid : string) (size : N)
| CallUnregisterPin (cid : string)
| CallReportAccess (cid : string)
| CallSubmitVerification (pinner : N) (cid : string) (success : bool) (proofHash : string)
| CallClaimRewards
| CallFund (amount : N)
| CallSetRate (newRate : N)
| CallSetParams (cooldown penalty multiplier : N).

Definition pin_call (transfer_ok : bool) (now sender : N) (c : PinCall) (s : PinningRewards) : result PinRevert PinningRewards :=
  match c with
  | CallRegisterPinner stake => registerPinner transfer_ok now sender stake s
  | CallUnregisterPinner => unregisterPinner transfer_ok now sender s
  | CallRegisterPin cid size => registerPin now sender cid size s
  | CallUnregisterPin cid => unregisterPin sender cid s
  | CallReportAccess cid => reportAccess cid s
  | CallSubmitVerification pinner cid success proof => submitVerification now sender pinner cid success proof s
  | CallClaimRewards => claimRewards transfer_ok now sender s
  | CallFund amount => fundRewardsPool transfer_ok amount s
  | CallSetRate rate => setRewardRate sender rate s
  | CallSetParams cooldown penalty multiplier => setVerificationParams sender cooldown penalty multiplier s
  end.

(** A transaction that reverts changes nothing. *)
Inductive pin_step : PinningRewards → PinningRewards → Prop :=
| step_call transfer_ok now sender c s s' : pin_call transfer_ok now sender c s = Ok s' → pin_step s s'.

(** ** What the calls change *)

Lemma set_pinners_cids (s : PinningRewards) (m : gmap N Pinner) (a : N) : cids_of (set_pinners s m) a = cids_of s a.
Proof. done. Qed.

Lemma put_pinner_same (s : PinningRewards) (a : N) (p : Pinner) : pinner_of (put_pinner s a p) a = p.
Proof. unfold pinner_of, put_pinner. cbn. by rewrite lookup_insert_eq. Qed.

Lemma put_pinner_other (s : PinningRewards) (a b : N) (p : Pinner) : b ≠ a → pinner_of (put_pinner s a p) b = pinner_of s b.
Proof. intros H. unfold pinner_of, put_pinner. cbn. by rewrite lookup_insert_ne. Qed.

Lemma checked_Ok (n m : N) : checked n = Ok m ↔ m = n ∧ (n < u256_size)%N.
Proof. unfold checked. destruct (N.ltb_spec n u256_size); split; [by intros [= <-]|by intros [-> _]|done|intros [_ ?]; lia]. Qed.

Lemma checked_sub_Ok (a b m : N) : checked_sub a b = Ok m ↔ m = (a - b)%N ∧ (b ≤ a)%N.
Proof. unfold checked_sub. destruct (N.leb_spec b a); split; [by intros [= <-]|by intros [-> _]|done|intros [_ ?]; lia]. Qed.

(** The stake of an account after a call, in terms of what was there. *)
Definition registered (s : PinningRewards) (a : N) : Prop := pn_isRegistered (pinner_of s a) = true.

Lemma pay_pinners (ok : bool) (n : N) (s s' : PinningRewards) :
  pay ok n s = Ok s' → pw_pinners s' = pw_pinners s ∧ pw_rewardsPool s' = pw_rewardsPool s ∧ (pw_held s = pw_held s' + n)%N.
Proof.
  unfold pay. rewrite then_Ok, ensure_Ok, andb_true_iff, N.leb_le. intros [[_ Hn] [= <-]]. cbn. split_and!; try done. lia.
Qed.

Lemma no_cids_no_rewards (now a : N) (s : PinningRewards) (r : N) :
  cids_of s a = [] → calculateRewards now a s = Ok r → r = 0%N.
Proof.
  intros Hc. unfold calculateRewards. rewrite Hc. destruct (negb _); [by intros [= <-]|].
  destruct (checked_sub _ _); [|done]. cbn. by intros [= <-].
Qed.

Lemma unregister_reverts (ok : bool) (now a : N) (s : PinningRewards) : is_ok (unregisterPinner ok now a s) = false.
Proof.
  destruct (is_ok _) eqn:H; [|done]. exfalso. apply is_ok_Ok in H as [s' H]. unfold unregisterPinner in H.
  apply then_Ok in H as [_ H]. apply then_Ok in H as [Hc%ensure_Ok%bool_decide_eq_true H].
  apply bind_Ok in H as (s1 & H & _). unfold pay_rewards in H. apply bind_Ok in H as (r & Hr & H).
  apply length_zero_iff_nil in Hc. apply (no_cids_no_rewards _ _ _ _ Hc) in Hr as ->. done.
Qed.

(** ** The ledger *)

(** The effect of a call on the accounts: one account changes at most, it stays registered if it was,
    and the tokens that move are those of its stake and of the pool. *)
Definition ledger_step (s s' : PinningRewards) : Prop :=
  (pw_pinners s' = pw_pinners s ∧ (pw_held s' + pw_rewardsPool s = pw_held s + pw_rewardsPool s')%N) ∨
  ∃ a p', pw_pinners s' = <[a := p']> (pw_pinners s) ∧
    let p := pinner_of s a in
    (pn_isRegistered p' = pn_isRegistered p ∧
     (pn_isRegistered p = false → pn_stakedAmount p = 0%N → pn_stakedAmount p' = 0%N) ∧
     (pw_held s' + pn_stakedAmount p + pw_rewardsPool s = pw_held s + pn_stakedAmount p' + pw_rewardsPool s')%N ∨
     pn_isRegistered p' = true ∧ pn_isRegistered p = false ∧
     (pw_held s' = pw_held s + pn_stakedAmount p' ∧ pw_rewardsPool s' = pw_rewardsPool s)%N).

Ltac call_inv :=
  repeat first
    [ progress res_inv
    | match goal with
      | H : checked _ = Ok _ |- _ => apply checked_Ok in H as [-> ?]
      | H : checked_sub _ _ = Ok _ |- _ => apply checked_sub_Ok in H as [-> ?]
      end ].

Lemma call_ledger (ok : bool) (now sender : N) (c : PinCall) (s s' : PinningRewards) :
  pin_call ok now sender c s = Ok s' → ledger_step s s'.
Proof.
  unfold ledger_step. destruct c; cbn [pin_call]; intros H.
  - unfold registerPinner, receive in H. call_inv. right. exists sender. eexists. split; [done|]. right. cbn.
    by destruct (pn_isRegistered (pinner_of s sender)).
  - pose proof (unregister_reverts ok now sender s) as Hr. by rewrite H in Hr.
  - unfold registerPin in H. call_inv. right. exists sender. eexists. split; [done|]. left. cbn. split_and!; auto; lia.
  - unfold unregisterPin in H. call_inv. right. exists sender. eexists. split; [done|]. left. cbn. split_and!; auto; lia.
  - unfold reportAccess in H. call_inv. left. cbn. split; [done|lia].
  - unfold submitVerification in H. call_inv. right. exists pinner. destruct success; call_inv; eexists; (split; [done|]); left; cbn.
    + split_and!; auto; lia.
    + cbn in *. split_and!; auto; [|lia]. intros _ ->. by rewrite N.mul_0_l.
  - unfold claimRewards, pay_rewards in H. call_inv. apply pay_pinners in H as (Hp & Hpool & Hh). cbn in Hp, Hpool, Hh.
    right. exists sender. eexists. split; [exact Hp|]. left. cbn. 
    match goal with H : (_ <=? pw_rewardsPool s)%N = true |- _ => apply N.leb_le in H end. split_and!; auto. lia.
  - unfold fundRewardsPool, receive in H. call_inv. left. cbn. split; [done|lia].
  - unfold setRewardRate in H. call_inv. left. cbn. split; [done|lia].
  - unfold setVerificationParams in H. call_inv. left. cbn. split; [done|lia].
Qed.

Lemma registered_step (s s' : PinningRewards) (a : N) : pin_step s s' → registered s a → registered s' a.
Proof.
  intros [ok now sender c s0 s1 H%call_ledger]. unfold registered, pinner_of. destruct H as [[-> _]|(b & p' & -> & Hp)]; [done|].
  destruct (decide (b = a)) as [->|Hb]; [|by rewrite lookup_insert_ne]. rewrite lookup_insert_eq. cbn.
  destruct Hp as [(-> & _)|(-> & _)]; done.
Qed.

(** C36. A stake never comes back: unregistering asks for no pins and for rewards to claim, but there are
    rewards for pins only, so the call always reverts, and nothing else ends a registration. *)
Theorem stake_never_returned (s s' : PinningRewards) (a : N) :
  registered s a → rtc pin_step s s' →
  registered s' a ∧ ∀ transfer_ok now, is_ok (unregisterPinner transfer_ok now a s') = false.
Proof.
  intros Ha Hr. split; [|intros; apply unregister_reverts]. revert s' Hr.
  apply rtc_ind_r; [done|]. intros s1 s2 _ Hstep IH. by apply (registered_step s1 s2).
Qed.

Definition add_stake (_ : N) (p : Pinner) (acc : N) : N := (pn_stakedAmount p + acc)%N.
Definition stakes (m : gmap N Pinner) : N := map_fold add_stake 0%N m.

Lemma stakes_fresh (m : gmap N Pinner) (a : N) (p : Pinner) :
  m !! a = None → stakes (<[a := p]> m) = (pn_stakedAmount p + stakes m)%N.
Proof. intros H. unfold stakes. rewrite map_fold_insert_L; [done| |done]. intros. unfold add_stake. lia. Qed.

Lemma stakes_insert (m : gmap N Pinner) (a : N) (p : Pinner) :
  (stakes (<[a := p]> m) + pn_stakedAmount (default no_pinner (m !! a)) = stakes m + pn_stakedAmount p)%N.
Proof.
  destruct (m !! a) as [q|] eqn:Hq; cbn [default from_option id].
  - rewrite <- (insert_id m a q Hq) at 2. rewrite <- !(insert_delete_eq m a), !stakes_fresh by apply lookup_delete_eq. lia.
  - rewrite stakes_fresh by done. cbn. lia.
Qed.

Definition accounts_ok (s : PinningRewards) : Prop :=
  (∀ a, pn_isRegistered (pinner_of s a) = false → pn_stakedAmount (pinner_of s a) = 0%N) ∧
  pw_held s = (stakes (pw_pinners s) + pw_rewardsPool s)%N.

Lemma accounts_step (s s' : PinningRewards) : ledger_step s s' → accounts_ok s → accounts_ok s'.
Proof.
  intros H [Hz Hh]. destruct H as [[Hp He]|(a & p' & Hp & Hc)].
  - split; [|rewrite Hp; lia]. intros a. unfold pinner_of. rewrite Hp. apply Hz.
  - pose proof (stakes_insert (pw_pinners s) a p') as Hs. change (default no_pinner (pw_pinners s !! a)) with (pinner_of s a) in Hs.
    specialize (Hz a) as Hza. split.
    + intros b. unfold pinner_of. rewrite Hp. destruct (decide (a = b)) as [->|Hb]; [|rewrite lookup_insert_ne by done; apply Hz].
      rewrite lookup_insert_eq. cbn [default from_option id]. change (default _ (Some p')) with p'.
      destruct Hc as [(-> & Hs0 & _)|(-> & _)]; [|done]. auto.
    + rewrite Hp. destruct Hc as [(_ & _ & He)|(_ & Hf & He & Hpool)]; [lia|]. rewrite Hza in Hs by done. lia.
Qed.

(** C34. The contract can always pay: in every state that calls lead to from deployment its tokens are the
    stakes of the pinners and the pool of rewards, penalties included. *)
Theorem tokens_accounted (deployer : N) (s : PinningRewards) :
  rtc pin_step (rewards_deployed deployer) s → pw_held s = (stakes (pw_pinners s) + pw_rewardsPool s)%N.
Proof.
  intros Hr. cut (accounts_ok s); [by intros [_ H]|]. revert s Hr.
  apply rtc_ind_r; [split; [done|by vm_compute]|]. intros s1 s2 _ [ok now sender c s0 s3 H%call_ledger] IH. by apply (accounts_step s0).
Qed.

(** ** Two pinners of one CID *)

Definition owns (s : PinningRewards) (a : N) (cid : string) : Prop := pi_isActive (pin_of s cid) = true ∧ pi_pinner (pin_of s cid) = a.

Lemma register_pin_Ok (now a : N) (cid : string) (size : N) (s s' : PinningRewards) :
  registerPin now a cid size s = Ok s' →
  registered s a ∧ (0 < size)%N ∧ ¬ owns s a cid ∧ (pn_totalPinnedSize (pinner_of s a) + size < u256_size)%N ∧
  pin_of s' cid = {| pi_pinner := a; pi_size := size; pi_pinnedAt := now; pi_lastVerified := 0; pi_accessCount := 0; pi_isActive := true |} ∧
  cids_of s' a = cids_of s a ++ [cid] ∧ (∀ b, b ≠ a → cids_of s' b = cids_of s b ∧ pinner_of s' b = pinner_of s b) ∧
  pn_totalPinnedSize (pinner_of s' a) = (pn_totalPinnedSize (pinner_of s a) + size)%N ∧
  registered s' a ∧ pn_lastRewardClaim (pinner_of s' a) = pn_lastRewardClaim (pinner_of s a) ∧
  pn_successfulVerifications (pinner_of s' a) = pn_successfulVerifications (pinner_of s a) ∧
  pn_failedVerifications (pinner_of s' a) = pn_failedVerifications (pinner_of s a) ∧
  pw_rewardPerGBPerDay s' = pw_rewardPerGBPerDay s.
Proof.
  unfold registerPin. intros H. call_inv. unfold registered, owns, pin_of, cids_of in *.
  match goal with H : _ || _ = true |- _ => apply orb_true_iff in H; rewrite !negb_true_iff, N.eqb_neq in H; rename H into H2 end.
  match goal with H : (0 <? size)%N = true |- _ => apply N.ltb_lt in H end.
  rewrite !put_pinner_same. cbn. rewrite !lookup_insert_eq. split_and!; try done.
  { intros [Hx Hy]. by destruct H2 as [H2|H2]; rewrite ?Hx, ?Hy in H2. }
  intros b Hb. rewrite lookup_insert_ne by done. split; [done|]. by rewrite put_pinner_other.
Qed.

Lemma unregister_pin_Ok (a : N) (cid : string) (s s' : PinningRewards) :
  unregisterPin a cid s = Ok s' →
  owns s a cid ∧ pi_isActive (pin_of s' cid) = false ∧
  (pn_totalPinnedSize (pinner_of s' a) ≤ pn_totalPinnedSize (pinner_of s a))%N.
Proof.
  unfold unregisterPin. intros H. call_inv. unfold owns, pin_of in *.
  match goal with H : (_ =? a)%N = true |- _ => apply N.eqb_eq in H end.
  rewrite put_pinner_same. cbn. rewrite lookup_insert_eq. cbn. split_and!; try done. lia.
Qed.

Lemma submit_verification_Ok (now v a : N) (cid : string) (success : bool) (proof : string) (s s' : PinningRewards) :
  submitVerification now v a cid success proof s = Ok s' →
  v ∈ pw_verifiers s ∧ owns s a cid ∧
  (default 0%N (pw_lastVerificationTime s !! a) + pw_verificationCooldown s ≤ now)%N ∧
  pw_lastVerificationTime s' = <[a := now]> (pw_lastVerificationTime s) ∧
  pw_verificationCooldown s' = pw_verificationCooldown s ∧ pw_verifiers s' = pw_verifiers s ∧
  length (pw_verifications s') = S (length (pw_verifications s)).
Proof.
  unfold submitVerification. intros H. call_inv. 
  match goal with H : bool_decide (v ∈ _) = true |- _ => apply bool_decide_eq_true in H end.
  match goal with H : (_ <=? now)%N = true |- _ => apply N.leb_le in H end.
  match goal with H : _ && _ = true |- _ => apply andb_true_iff in H as [? ?%N.eqb_eq] end.
  destruct success; call_inv; cbn; rewrite length_app; cbn; split_and!; try done; lia.
Qed.

(** A CID has one entry, which belongs to the pinner that registered it last: the one before can
    neither unregister its pin nor have it verified, and its list keeps the CID. *)
Theorem second_pinner_takes_pin (now a b : N) (cid : string) (size : N) (s s' : PinningRewards) :
  a ≠ b → owns s a cid → registerPin now b cid size s = Ok s' →
  owns s' b cid ∧ cids_of s' a = cids_of s a ∧ is_ok (unregisterPin a cid s') = false ∧
  ∀ t v success proof, is_ok (submitVerification t v a cid success proof s') = false.
Proof.
  intros Hab _ (_ & _ & _ & _ & Hp & _ & Ho & _)%register_pin_Ok. unfold owns. rewrite Hp. split; [done|].
  split; [by apply Ho|]. split.
  - unfold unregisterPin. rewrite Hp. cbn. by rewrite (proj2 (N.eqb_neq b a) (not_eq_sym Hab)).
  - intros t v success proof. destruct (is_ok _) eqn:H; [|done].
    apply is_ok_Ok in H as [s2 (_ & [_ H] & _)%submit_verification_Ok]. rewrite Hp in H. done.
Qed.

(** Two accounts that register one CID in turns, [n] times each. *)
Fixpoint alternate (now a b : N) (cid : string) (size : N) (n : nat) (s : PinningRewards) : result PinRevert PinningRewards :=
  match n with
  | O => Ok s
  | S n =>
      s ← registerPin now b cid size s;
      s ← registerPin now a cid size s;
      alternate now a b cid size n s
  end.

Lemma register_pin_accepts (now a : N) (cid : string) (size : N) (s : PinningRewards) :
  registered s a → (0 < size)%N → ¬ owns s a cid → (pn_totalPinnedSize (pinner_of s a) + size < u256_size)%N →
  ∃ s', registerPin now a cid size s = Ok s'.
Proof.
  unfold registered, owns. intros Hr Hs Ho Ht. unfold registerPin. rewrite Hr, (proj2 (N.ltb_lt _ _) Hs). cbn.
  assert (negb (pi_isActive (pin_of s cid)) || negb (pi_pinner (pin_of s cid) =? a)%N = true) as ->.
  { destruct (pi_isActive _); [|done]. destruct (N.eqb_spec (pi_pinner (pin_of s cid)) a); naive_solver. }
  cbn. rewrite (proj2 (checked_Ok _ _) (conj eq_refl Ht)). cbn. eauto.
Qed.

Lemma alternate_spec (now a b : N) (cid : string) (size : N) (n : nat) (s : PinningRewards) :
  a ≠ b → (0 < size)%N → registered s a → registered s b → ¬ owns s b cid →
  (pn_totalPinnedSize (pinner_of s a) + N.of_nat n * size < u256_size)%N →
  (pn_totalPinnedSize (pinner_of s b) + N.of_nat n * size < u256_size)%N →
  ∃ s', alternate now a b cid size n s = Ok s' ∧ cids_of s' a = cids_of s a ++ repeat cid n ∧
    registered s' a ∧ pn_lastRewardClaim (pinner_of s' a) = pn_lastRewardClaim (pinner_of s a) ∧
    pn_successfulVerifications (pinner_of s' a) = pn_successfulVerifications (pinner_of s a) ∧
    pn_failedVerifications (pinner_of s' a) = pn_failedVerifications (pinner_of s a) ∧
    pw_rewardPerGBPerDay s' = pw_rewardPerGBPerDay s ∧
    (n ≠ 0 → pin_of s' cid = {| pi_pinner := a; pi_size := size; pi_pinnedAt := now; pi_lastVerified := 0; pi_accessCount := 0; pi_isActive := true |}).
Proof.
  intros Hab Hs. revert s. induction n as [|n IH]; intros s Ha Hb Ho Hta Htb.
  { exists s. cbn. rewrite app_nil_r. done. }
  destruct (register_pin_accepts now b cid size s Hb Hs Ho ltac:(lia)) as (s1 & H1).
  pose proof H1 as (_ & _ & _ & _ & Hp1 & _ & Hother1 & Htot1 & Hreg1 & _ & _ & _ & Hrate1)%register_pin_Ok.
  destruct (Hother1 a Hab) as [Hc1 Hpa1].
  assert (¬ owns s1 a cid) as Ho1 by (unfold owns; rewrite Hp1; cbn; naive_solver).
  assert (registered s1 a) as Ha1 by (unfold registered; by rewrite Hpa1).
  destruct (register_pin_accepts now a cid size s1 Ha1 Hs Ho1 ltac:(rewrite Hpa1; lia)) as (s2 & H2).
  pose proof H2 as (_ & _ & _ & _ & Hp2 & Hc2 & Hother2 & Htot2 & Hreg2 & Hl2 & Hsv2 & Hfv2 & Hrate2)%register_pin_Ok.
  destruct (Hother2 b ltac:(done)) as [_ Hpb2].
  destruct (IH s2) as (s' & H3 & Hc & Hr & Hl & Hsv & Hfv & Hrate & Hp); [done| | | | |].
  - unfold registered. by rewrite Hpb2.
  - unfold owns. rewrite Hp2. cbn. naive_solver.
  - rewrite Htot2, Hpa1. lia.
  - rewrite Hpb2, Htot1. lia.
  - exists s'. cbn [alternate]. rewrite H1. cbn. rewrite H2. cbn. split; [done|].
    rewrite Hc, Hc2, Hc1, <- app_assoc. split; [done|]. rewrite Hl, Hl2, Hsv, Hsv2, Hfv, Hfv2, Hrate, Hrate2, Hpa1. split_and!; try done.
    intros _. destruct n; [by injection H3 as <-|by apply Hp].
Qed.

Lemma repeated_rewards (s : PinningRewards) (p : Pinner) (days r : N) (cid : string) (n : nat) (total : N) :
  base_reward s p days cid = Ok r → (total + N.of_nat n * r < u256_size)%N →
  total_rewards s p days (repeat cid n) total = Ok (total + N.of_nat n * r)%N.
Proof.
  intros Hr. revert total. induction n as [|n IH]; intros total Ht; cbn [repeat total_rewards]; [f_equal; lia|].
  rewrite Hr. cbn. rewrite (proj2 (checked_Ok (total + r) (total + r)) ltac:(split; [done|lia])). cbn. rewrite IH by lia. f_equal. lia.
Qed.

(** The list of a pinner takes a CID again as soon as another account has registered it in between,
    and every entry is rewarded: two accounts that take turns multiply the reward of one file
    whose size they choose. *)
Theorem turns_multiply_rewards (now later a b : N) (cid : string) (size : N) (n : nat) (s : PinningRewards) :
  a ≠ b → (0 < size)%N → (0 < n)%nat → registered s a → registered s b → ¬ owns s b cid → cids_of s a = [] →
  (pn_totalPinnedSize (pinner_of s a) + N.of_nat n * size < u256_size)%N →
  (pn_totalPinnedSize (pinner_of s b) + N.of_nat n * size < u256_size)%N →
  pn_successfulVerifications (pinner_of s a) = 0%N → pn_failedVerifications (pinner_of s a) = 0%N →
  (pn_lastRewardClaim (pinner_of s a) ≤ later)%N →
  let days := ((later - pn_lastRewardClaim (pinner_of s a)) / 86400)%N in
  let once := (size * days * pw_rewardPerGBPerDay s / 10 ^ 9)%N in
  (size * days * pw_rewardPerGBPerDay s < u256_size)%N → (size * days < u256_size)%N → (N.of_nat n * once < u256_size)%N →
  ∃ s', alternate now a b cid size n s = Ok s' ∧ calculateRewards later a s' = Ok (N.of_nat n * once)%N.
Proof.
  intros Hab Hs Hn Ha Hb Ho Hc Hta Htb Hsv Hfv Hl days once Hr Hd Ht.
  destruct (alternate_spec now a b cid size n s Hab Hs Ha Hb Ho Hta Htb) as (s' & H & Hc' & Ha' & Hl' & Hsv' & Hfv' & Hrate & Hp).
  exists s'. split; [done|]. unfold calculateRewards. rewrite Ha'. cbn. rewrite Hl'.
  rewrite (proj2 (checked_sub_Ok _ _ _) (conj eq_refl Hl)). cbn. fold days. rewrite Hc', Hc. cbn.
  rewrite (repeated_rewards s' (pinner_of s' a) days once cid n 0); [f_equal; lia| |lia].
  unfold base_reward. rewrite Hp, Hsv', Hfv', Hsv, Hfv, Hrate by lia. cbn.
  rewrite (proj2 (checked_Ok (size * days) _) (conj eq_refl Hd)). cbn.
  by rewrite (proj2 (checked_Ok _ _) (conj eq_refl Hr)).
Qed.

(** ** Verification *)

(** After a verification of a pinner every other one of the same pinner is refused until the cooldown
    has passed, whichever of its pins it is for and whoever sends it. *)
Theorem cooldown_per_pinner (now now' v v' a : N) (cid cid' : string) (success success' : bool) (proof proof' : string)
    (s s' : PinningRewards) :
  submitVerification now v a cid success proof s = Ok s' → (now' < now + pw_verificationCooldown s)%N →
  is_ok (submitVerification now' v' a cid' success' proof' s') = false.
Proof.
  intros (_ & _ & _ & Hl & Hc & _)%submit_verification_Ok Hn. destruct (is_ok _) eqn:H; [|done].
  apply is_ok_Ok in H as [s2 (_ & _ & H & _)%submit_verification_Ok]. rewrite Hl, lookup_insert_eq, Hc in H. cbn in H. lia.
Qed.

(** ** Witnesses *)
Module PinningRewardsWitness.

(** Transactions as pairs of the time and the sender, with the call; one that reverts changes nothing. *)
Definition run_calls (s : PinningRewards) (l : list (N * N * PinCall)) : PinningRewards :=
  foldl (λ s '(now, sender, c), match pin_call true now sender c s with Ok s' => s' | Err _ => s end) s l.

Lemma run_reaches (l : list (N * N * PinCall)) (s : PinningRewards) : rtc pin_step s (run_calls s l).
Proof.
  revert s. induction l as [|[[now sender] c] l IH]; intros s; [apply rtc_refl|]. cbn.
  destruct (pin_call true now sender c s) as [s'|] eqn:H; [|apply IH]. eapply rtc_l; [by apply (step_call true now sender c)|apply IH].
Qed.

Definition creg : N := 10 ^ 18.

(** Account 1 deploys, verifies and funds; accounts 2 and 3 are pinners. *)
Definition start : PinningRewards := run_calls (rewards_deployed 1)
  [(0, 1, CallFund (5000 * creg)); (0, 2, CallRegisterPinner MIN_STAKE); (0, 3, CallRegisterPinner MIN_STAKE)]%N.

Definition pinned : PinningRewards := run_calls start [(10, 2, CallRegisterPin "cid" (10 ^ 9))]%N.
Definition slashed : PinningRewards := run_calls pinned [(20000, 1, CallSubmitVerification 2 "cid" false "proof")]%N.

Lemma stake_never_returned_witness :
  registered slashed 2 ∧ is_ok (unregisterPinner true 30000 2 (run_calls slashed [(25000, 2, CallUnregisterPin "cid")]%N)) = false.
Proof.
  split; [reflexivity|].
  apply (stake_never_returned slashed (run_calls slashed [(25000, 2, CallUnregisterPin "cid")]%N) 2); [reflexivity|apply run_reaches].
Defined.

(** The penalty is in the pool. *)
Lemma tokens_accounted_witness :
  pw_held slashed = (stakes (pw_pinners slashed) + pw_rewardsPool slashed)%N ∧ pw_rewardsPool slashed = (5010 * creg)%N.
Proof.
  split; [|by vm_compute]. apply (tokens_accounted 1). unfold slashed, pinned, start.
  do 2 (etrans; [|apply run_reaches]). apply run_reaches.
Defined.

Definition taken_over : PinningRewards := run_calls pinned [(11, 3, CallRegisterPin "cid" 1)]%N.

Lemma second_pinner_takes_pin_witness :
  owns taken_over 3 "cid" ∧ cids_of taken_over 2 = ["cid"] ∧ is_ok (unregisterPin 2 "cid" taken_over) = false ∧
  is_ok (submitVerification 20000 1 2 "cid" true "proof" taken_over) = false.
Proof.
  destruct (second_pinner_takes_pin 11 2 3 "cid" 1 pinned taken_over) as (H1 & H2 & H3 & H4); [done|by split|by vm_compute|].
  split_and!; [exact H1|exact H2|exact H3|apply H4].
Defined.

(** A gigabyte that is pinned in three turns earns three times. *)
Lemma turns_multiply_rewards_witness :
  ∃ s', alternate 10 2 3 "cid" (10 ^ 9) 3 start = Ok s' ∧ calculateRewards 86400 2 s' = Ok (3 * 10 ^ 16)%N.
Proof.
  destruct (turns_multiply_rewards 10 86400 2 3 "cid" (10 ^ 9) 3 start) as (s' & H1 & H2);
    [done|done|lia|by vm_compute|by vm_compute|intros [H _]; by vm_compute in H|by vm_compute..|].
  exists s'. split; [exact H1|]. rewrite H2. by vm_compute.
Defined.

Lemma cooldown_per_pinner_witness : is_ok (submitVerification 20001 1 2 "other" true "proof" slashed) = false.
Proof.
  apply (cooldown_per_pinner 20000 20001 1 1 2 "cid" "other" false true "proof" "proof" pinned slashed); by vm_compute.
Defined.

End PinningRewardsWitness.
