(* ===== verification/Pinning.v ===== *)
(** The pinning service (crates/ipfs-pinner/src): the manager of pins (lib.rs), the verifier of their
    availability (verifier.rs) and the client of the contract (contract.rs), composed with the
    contract of [PinningRewards].

    The manager works against the traits of its services, here the classes [IpfsPinner] and
    [PinningContract] over a world of their own; [PinWorld] is the world of the contract and of
    an IPFS node.  A transaction ([transact]) is sent and then watched, and each of the two may
    fail: [Fate] says what becomes of it, what is mined before it included, and those that are
    not mined yet stay in the mempool.  A handler is one step.  The file of the pins is the map
    that it holds; answers of HTTP servers are arguments.  The mocks of the tests are left out,
    and so is [verify_batch], which nothing calls and which returns the results in the order in
    which they end. *)

From S2P Require Import Prelude Text Crypto Threshold Staking Json PinningRewards.
From Stdlib Require Import Ascii ZArith.

(** ** Interfaces *)

(** The calls that the manager makes; [false] and [None] are errors. *)
Class IpfsPinner (W : Type) := {
  ipfs_pin : string → W → W * bool;
  ipfs_unpin : string → W → W * bool;
}.

Class PinningContract (W : Type) := {
  is_registered : W → option bool;
  register_pinner : N → W → W * bool;
  register_pin : string → N → W → W * bool;
  unregister_pin : string → W → W * bool;
  submit_verification : string → bool → string → W → W * bool;
  calculate_rewards : W → option N;
  claim_rewards : W → W * option N;
  get_pinner_cids : W → option (list string);
}.

(** ** The manager *)

Record PinningConfig := {
  pf_min_stake : N; pf_auto_register : bool; pf_verification_interval : N; pf_max_pins : N; pf_db_path : option string }.

Definition default_pinning_config : PinningConfig := {|
  pf_min_stake := 1000 * 10 ^ 18; pf_auto_register := false; pf_verification_interval := 3600; pf_max_pins := 10000;
  pf_db_path := None |}.

Record PinInfo := {
  if_cid : string; if_size : N; if_pinned_at : Z; if_last_verified : option Z; if_access_count : N; if_is_active : bool;
  if_local_path : option string;
}.

Record PinnerStats := {
  ps_total_pins : N; ps_total_size : N; ps_successful_verifications : N; ps_failed_verifications : N;
  ps_cumulative_rewards : N; ps_pending_rewards : N; ps_current_stake : N;
}.

Definition default_pinner_stats : PinnerStats := {|
  ps_total_pins := 0; ps_total_size := 0; ps_successful_verifications := 0; ps_failed_verifications := 0;
  ps_cumulative_rewards := 0; ps_pending_rewards := 0; ps_current_stake := 0 |}.

Inductive PinError := IpfsPinFailed | IpfsUnpinFailed | ContractFailed | RegistrationFailed | RegistrationUnknown.

(** What the verifier answers about a CID. *)
Record VerificationResult := {
  vr_is_available : bool; vr_response_time_ms : N; vr_content_size : option N; vr_proof_hash : string; vr_provider_count : N;
  vr_error : bool;
}.

(** [mg_disk] is the content of the state file. *)
Record PinningManager (W : Type) := {
  mg_config : PinningConfig; mg_world : W; mg_pins : gmap string PinInfo; mg_stats : PinnerStats;
  mg_disk : option (gmap string PinInfo);
}.
Arguments mg_config {W}. Arguments mg_world {W}. Arguments mg_pins {W}. Arguments mg_stats {W}. Arguments mg_disk {W}.

Section Manager.
Context `{CR : !Crypto}.
Context {W : Type} `{IP : !IpfsPinner W} `{PC : !PinningContract W}.

Definition cid_to_bytes32 (cid : string) : string := sha256 cid.

Definition with_world (m : PinningManager W) (w : W) : PinningManager W := {|
  mg_config := mg_config m; mg_world := w; mg_pins := mg_pins m; mg_stats := mg_stats m; mg_disk := mg_disk m |}.

Definition with_pins (m : PinningManager W) (pins : gmap string PinInfo) : PinningManager W := {|
  mg_config := mg_config m; mg_world := mg_world m; mg_pins := pins; mg_stats := mg_stats m; mg_disk := mg_disk m |}.

Definition with_pin_stats (m : PinningManager W) (s : PinnerStats) : PinningManager W := {|
  mg_config := mg_config m; mg_world := mg_world m; mg_pins := mg_pins m; mg_stats := s; mg_disk := mg_disk m |}.

(** A failed write is logged only. *)
Definition save_state (disk_ok : bool) (m : PinningManager W) : PinningManager W := {|
  mg_config := mg_config m; mg_world := mg_world m; mg_pins := mg_pins m; mg_stats := mg_stats m;
  mg_disk := match pf_db_path (mg_config m) with
             | Some _ => if disk_ok then Some (mg_pins m) else mg_disk m
             | None => mg_disk m
             end |}.

Definition count_pin (size : N) (s : PinnerStats) : PinnerStats := {|
  ps_total_pins := ps_total_pins s + 1; ps_total_size := u64_add (ps_total_size s) size;
  ps_successful_verifications := ps_successful_verifications s; ps_failed_verifications := ps_failed_verifications s;
  ps_cumulative_rewards := ps_cumulative_rewards s; ps_pending_rewards := ps_pending_rewards s;
  ps_current_stake := ps_current_stake s |}.

Definition count_verification (success : bool) (s : PinnerStats) : PinnerStats := {|
  ps_total_pins := ps_total_pins s; ps_total_size := ps_total_size s;
  ps_successful_verifications := if success then u64_add (ps_successful_verifications s) 1 else ps_successful_verifications s;
  ps_failed_verifications := if success then ps_failed_verifications s else u64_add (ps_failed_verifications s) 1;
  ps_cumulative_rewards := ps_cumulative_rewards s; ps_pending_rewards := ps_pending_rewards s;
  ps_current_stake := ps_current_stake s |}.

Definition pin_package (now : Z) (disk_ok : bool) (cid : string) (size : N) (m : PinningManager W)
    : PinningManager W * result PinError unit :=
  match mg_pins m !! cid with
  | Some _ => (m, Ok tt)
  | None =>
      let '(w, pinned) := ipfs_pin cid (mg_world m) in
      if negb pinned then (with_world m w, Err IpfsPinFailed)
      else
        let '(w, accepted) := register_pin (cid_to_bytes32 cid) size w in
        let m := with_world m w in
        if negb accepted then (m, Err ContractFailed)
        else
          let info := {| if_cid := cid; if_size := size; if_pinned_at := now; if_last_verified := None; if_access_count := 0;
                         if_is_active := true; if_local_path := None |} in
          let m := with_pin_stats (with_pins m (<[cid := info]> (mg_pins m))) (count_pin size (mg_stats m)) in
          (save_state disk_ok m, Ok tt)
  end.

Definition deactivated (i : PinInfo) : PinInfo := {|
  if_cid := if_cid i; if_size := if_size i; if_pinned_at := if_pinned_at i; if_last_verified := if_last_verified i;
  if_access_count := if_access_count i; if_is_active := false; if_local_path := if_local_path i |}.

Definition unpin_package (disk_ok : bool) (cid : string) (m : PinningManager W) : PinningManager W * result PinError unit :=
  let '(w, unpinned) := ipfs_unpin cid (mg_world m) in
  if negb unpinned then (with_world m w, Err IpfsUnpinFailed)
  else
    let '(w, accepted) := unregister_pin (cid_to_bytes32 cid) w in
    let m := with_world m w in
    if negb accepted then (m, Err ContractFailed)
    else (save_state disk_ok (with_pins m (alter deactivated cid (mg_pins m))), Ok tt).

Definition get_pins (m : PinningManager W) : list PinInfo := hm_values (mg_pins m).

Definition ensure_registered (m : PinningManager W) : PinningManager W * result PinError unit :=
  match is_registered (mg_world m) with
  | None => (m, Err RegistrationUnknown)
  | Some true => (m, Ok tt)
  | Some false =>
      let '(w, accepted) := register_pinner (pf_min_stake (mg_config m)) (mg_world m) in
      (with_world m w, if accepted then Ok tt else Err RegistrationFailed)
  end.

(** The pins that the contract lists are counted for the log only. *)
Definition load_existing_pins (m : PinningManager W) : PinningManager W :=
  match pf_db_path (mg_config m), mg_disk m with
  | Some _, Some saved =>
      with_pin_stats (with_pins m (saved ∪ mg_pins m))
        (foldl (λ s i, count_pin (if_size i) s) (mg_stats m) (hm_values saved))
  | _, _ => m
  end.

(** [PinningManager::new] over a world and what the state file holds. *)
Definition manager_new (config : PinningConfig) (w : W) (disk : option (gmap string PinInfo))
    : PinningManager W * result PinError unit :=
  let m := {| mg_config := config; mg_world := w; mg_pins := ∅; mg_stats := default_pinner_stats; mg_disk := disk |} in
  let '(m, r) := if pf_auto_register config then ensure_registered m else (m, Ok tt) in
  match r with Err e => (m, Err e) | Ok _ => (load_existing_pins m, Ok tt) end.

Definition verified_at (now : Z) (i : PinInfo) : PinInfo := {|
  if_cid := if_cid i; if_size := if_size i; if_pinned_at := if_pinned_at i; if_last_verified := Some now;
  if_access_count := if_access_count i; if_is_active := if_is_active i; if_local_path := if_local_path i |}.

(** One pin of a round; a submission that fails is logged only. *)
Definition verify_pin (now : Z) (verify : string → option VerificationResult) (m : PinningManager W) (cid : string)
    : PinningManager W :=
  match verify cid with
  | Some result =>
      let success := vr_is_available result in
      let '(w, _) := submit_verification (cid_to_bytes32 cid) success (vr_proof_hash result) (mg_world m) in
      let m := with_pin_stats (with_world m w) (count_verification success (mg_stats m)) in
      if success then with_pins m (alter (verified_at now) cid (mg_pins m)) else m
  | None => with_pin_stats m (count_verification false (mg_stats m))
  end.

Definition pins_to_verify (m : PinningManager W) : list string :=
  if_cid <$> filter (λ i, if_is_active i = true) (hm_values (mg_pins m)).

Definition run_verification (now : Z) (verify : string → option VerificationResult) (m : PinningManager W) : PinningManager W :=
  foldl (verify_pin now verify) m (pins_to_verify m).

Definition manager_claim (m : PinningManager W) : PinningManager W * option N :=
  let '(w, r) := claim_rewards (mg_world m) in (with_world m w, r).

End Manager.

(** ** The verifier *)
Section Verifier.
Context `{CR : !Crypto}.

(** [n.to_le_bytes()] of [k] bytes *)
Definition le_text (k : nat) (n : N) : string := to_str (rev (be_bytes k n)).

Definition generate_proof_hash (cid : string) (is_available : bool) (timestamp provider_count : N) : string :=
  sha256 (cid +:+ String (byte (if is_available then 1 else 0)) EmptyString +:+ le_text 8 timestamp +:+ le_text 4 provider_count).

Definition value_field (k : string) (v : Value) : option Value := match v with VObject m => entry_of k m | _ => None end.

(** [as_u64] *)
Definition value_u64 (v : option Value) : option N :=
  match v with Some (VNumber n) => parse_uint u64_max n | _ => None end.

(** The identifiers of one line of the answer of the DHT. *)
Definition line_providers (parse : string → option Value) (line : string) : list string :=
  match (v ← parse line; value_field "Responses" v) with
  | Some (VArray responses) =>
      omap (λ r, match value_field "ID" r with Some (VString id) => Some id | _ => None end) responses
  | _ => []
  end.

(** An HTTP answer: whether its status is a success, and its text. *)
Definition find_providers (parse : string → option Value) (response : option (bool * string)) : option (list string) :=
  match response with
  | Some (true, text) => Some (mbind (line_providers parse) (lines text))
  | _ => None
  end.

Definition check_content_available (parse : string → option Value) (response : option (bool * string)) : option (option N) :=
  match response with
  | Some (true, text) =>
      data ← parse text;
      Some (match value_u64 (value_field "Size" data) with
            | Some n => Some n | None => value_u64 (value_field "CumulativeSize" data) end)
  | _ => None
  end.

(** Availability, number of providers, whether there is an error, and size. *)
Definition assess (providers : option (list string)) (fetch : option (option N)) : bool * N * bool * option N :=
  match providers, fetch with
  | Some ps, Some size => (true, N.of_nat (length ps) mod 2 ^ 32, false, size)%N
  | Some (p :: ps), None => (true, N.of_nat (length (p :: ps)) mod 2 ^ 32, false, None)%N
  | _, _ => (false, 0%N, true, None)
  end.

Definition verify_with_timeout (parse : string → option Value) (cid : string) (timestamp elapsed : N)
    (dht stat : option (bool * string)) : VerificationResult :=
  let '(available, count, error, size) := assess (find_providers parse dht) (check_content_available parse stat) in {|
  vr_is_available := available; vr_response_time_ms := elapsed; vr_content_size := size;
  vr_proof_hash := generate_proof_hash cid available timestamp count; vr_provider_count := count; vr_error := error |}.

End Verifier.

(** ** The client of the contract and the IPFS node *)

(** A transaction of the operator: its call, or for [None] the approval of tokens. *)
Definition OwnTx : Type := option PinCall.

(** What is mined besides the transaction at hand: one of another account, whose token transfers
    succeed or not, or the [k]-th of the operator's own that is still in the mempool. *)
Inductive MinedTx :=
| MinedOther (t : N) (ok : bool) (sender : N) (c : PinCall)
| MinedOwn (t : N) (k : nat).

(** What happens to a transaction that is sent: whether the node takes it, what is mined while it
    waits, when it is mined itself ([None] for not while it is watched), and whether the
    confirmation arrives. *)
Record Fate := { ft_taken : bool; ft_meanwhile : list MinedTx; ft_mined : option N; ft_confirmed : bool }.

(** [w_transfers] is whether the token transfers of the operator succeed, [w_fates] what its next
    transactions meet. *)
Record PinWorld := {
  w_chain : PinningRewards; w_time : N; w_operator : N; w_transfers : bool; w_rpc_up : bool;
  w_mempool : list OwnTx; w_fates : list Fate; w_ipfs : gset string; w_ipfs_up : bool;
}.

Definition with_chain (w : PinWorld) (s : PinningRewards) : PinWorld := {|
  w_chain := s; w_time := w_time w; w_operator := w_operator w; w_transfers := w_transfers w; w_rpc_up := w_rpc_up w;
  w_mempool := w_mempool w; w_fates := w_fates w; w_ipfs := w_ipfs w; w_ipfs_up := w_ipfs_up w |}.

Definition with_mempool (w : PinWorld) (l : list OwnTx) : PinWorld := {|
  w_chain := w_chain w; w_time := w_time w; w_operator := w_operator w; w_transfers := w_transfers w; w_rpc_up := w_rpc_up w;
  w_mempool := l; w_fates := w_fates w; w_ipfs := w_ipfs w; w_ipfs_up := w_ipfs_up w |}.

Definition with_fates (w : PinWorld) (l : list Fate) : PinWorld := {|
  w_chain := w_chain w; w_time := w_time w; w_operator := w_operator w; w_transfers := w_transfers w; w_rpc_up := w_rpc_up w;
  w_mempool := w_mempool w; w_fates := l; w_ipfs := w_ipfs w; w_ipfs_up := w_ipfs_up w |}.

Definition with_ipfs (w : PinWorld) (cids : gset string) : PinWorld := {|
  w_chain := w_chain w; w_time := w_time w; w_operator := w_operator w; w_transfers := w_transfers w; w_rpc_up := w_rpc_up w;
  w_mempool := w_mempool w; w_fates := w_fates w; w_ipfs := cids; w_ipfs_up := w_ipfs_up w |}.

Definition own_call (t : N) (c : OwnTx) (w : PinWorld) : result PinRevert PinningRewards :=
  match c with
  | None => Ok (w_chain w)
  | Some c => pin_call (w_transfers w) t (w_operator w) c (w_chain w)
  end.

(** A transaction that reverts is mined all the same and changes nothing. *)
Definition mined (r : result PinRevert PinningRewards) (w : PinWorld) : PinWorld :=
  match r with Ok s => with_chain w s | Err _ => w end.

Definition mine (w : PinWorld) (e : MinedTx) : PinWorld :=
  match e with
  | MinedOther t ok sender c => mined (pin_call ok t sender c (w_chain w)) w
  | MinedOwn t k =>
      match w_mempool w !! k with
      | Some c => mined (own_call t c w) (with_mempool w (delete k (w_mempool w)))
      | None => w
      end
  end.

Definition next_fate (w : PinWorld) : Fate * list Fate :=
  match w_fates w with
  | f :: fates => (f, fates)
  | [] => ({| ft_taken := true; ft_meanwhile := []; ft_mined := Some (w_time w); ft_confirmed := true |}, [])
  end.

(** [send().await?] and [watch().await?].  The provider estimates the gas first, which fails for a call
    that would revert.  A transaction that is sent is watched until it is mined, and [watch] does
    not look at the status of the receipt; one that is not mined meanwhile, or of which the node
    did not acknowledge that it took it, stays in the mempool. *)
Definition transact (c : OwnTx) (w : PinWorld) : PinWorld * bool :=
  if w_rpc_up w && is_ok (own_call (w_time w) c w) then
    let '(f, fates) := next_fate w in
    let w := with_fates w fates in
    if negb (ft_taken f) then (w, false)
    else
      let w := foldl mine w (ft_meanwhile f) in
      match ft_mined f with
      | Some t => (mined (own_call t c w) w, ft_confirmed f)
      | None => (with_mempool w (w_mempool w ++ [c]), false)
      end
  else (w, false).

Definition client_rewards (w : PinWorld) : option N :=
  if w_rpc_up w then
    match calculateRewards (w_time w) (w_operator w) (w_chain w) with
    | Ok r => if (r <? 2 ^ 128)%N then Some r else None
    | Err _ => None
    end
  else None.

Definition client_claim (w : PinWorld) : PinWorld * option N :=
  match client_rewards w with
  | None => (w, None)
  | Some r =>
      if (r =? 0)%N then (w, Some 0%N)
      else let '(w, ok) := transact (Some CallClaimRewards) w in (w, if ok then Some r else None)
  end.

Definition client_is_registered (w : PinWorld) : option bool :=
  if w_rpc_up w then Some (pn_isRegistered (pinner_of (w_chain w) (w_operator w))) else None.
(** [approve_creg] sends one transaction of its own. *)
Definition client_register_pinner (stake : N) (w : PinWorld) : PinWorld * bool :=
  let '(w, approved) := transact None w in
  if approved then transact (Some (CallRegisterPinner stake)) w else (w, false).
Definition client_register_pin (cid : string) (size : N) : PinWorld → PinWorld * bool := transact (Some (CallRegisterPin cid size)).
Definition client_unregister_pin (cid : string) : PinWorld → PinWorld * bool := transact (Some (CallUnregisterPin cid)).
Definition client_submit_verification (cid : string) (success : bool) (proof : string) (w : PinWorld) : PinWorld * bool :=
  transact (Some (CallSubmitVerification (w_operator w) cid success proof)) w.
Definition client_pinner_cids (w : PinWorld) : option (list string) :=
  if w_rpc_up w then Some (cids_of (w_chain w) (w_operator w)) else None.

#[export] Instance client : PinningContract PinWorld := {|
  is_registered := client_is_registered; register_pinner := client_register_pinner; register_pin := client_register_pin;
  unregister_pin := client_unregister_pin; submit_verification := client_submit_verification;
  calculate_rewards := client_rewards; claim_rewards := client_claim; get_pinner_cids := client_pinner_cids;
|}.

(** The IPFS node that answers [pin/add] and [pin/rm]. *)
Definition api_pin (cid : string) (w : PinWorld) : PinWorld * bool :=
  if w_ipfs_up w then (with_ipfs w (w_ipfs w ∪ {[cid]}), true) else (w, false).
Definition api_unpin (cid : string) (w : PinWorld) : PinWorld * bool :=
  if w_ipfs_up w then (with_ipfs w (w_ipfs w ∖ {[cid]}), true) else (w, false).

#[export] Instance ipfs_node : IpfsPinner PinWorld := {| ipfs_pin := api_pin; ipfs_unpin := api_unpin |}.

Definition Manager : Type := PinningManager PinWorld.

(** ** Proof hashes *)
Section Hashes.
Context `{CR : !Crypto}.

Lemma hash_inj (a b : string) : sha256 a = sha256 b → a = b ∨ collision.
Proof.
  intros H. destruct (decide (a = b)); [by left|right]. exists a, b. split; [done|]. unfold sha256_hex. by rewrite H.
Qed.

Lemma le_text_inj (k : nat) (n m : N) :
  (n < 256 ^ N.of_nat k)%N → (m < 256 ^ N.of_nat k)%N → le_text k n = le_text k m → n = m.
Proof.
  intros Hn Hm H. apply (f_equal of_str) in H. unfold le_text in H. rewrite !of_to_str in H. apply (f_equal (@rev _)) in H.
  rewrite !rev_involutive in H. apply (f_equal from_be_bytes) in H. by rewrite !from_be_bytes_be in H.
Qed.

Lemma length_le_text (k : nat) (n : N) : String.length (le_text k n) = k.
Proof. unfold le_text. rewrite <- length_of_str, of_to_str, length_rev. apply length_be_bytes. Qed.

(** The hash of a proof binds the CID, the verdict, the time and the number of providers. *)
Theorem proof_hash_binds (cid1 cid2 : string) (b1 b2 : bool) (t1 t2 n1 n2 : N) :
  (t1 < 2 ^ 64 → t2 < 2 ^ 64 → n1 < 2 ^ 32 → n2 < 2 ^ 32 →
   generate_proof_hash cid1 b1 t1 n1 = generate_proof_hash cid2 b2 t2 n2 →
   (cid1 = cid2 ∧ b1 = b2 ∧ t1 = t2 ∧ n1 = n2) ∨ collision)%N.
Proof.
  intros H1 H2 H3 H4 [H|H]%hash_inj; [left|by right].
  apply app_inj_len_r in H as [-> H]; [|by rewrite !length_app_str, !length_le_text].
  apply app_inj_len_r in H as [[= Hb] H]; [|by rewrite !length_app_str, !length_le_text].
  apply app_inj_len_r in H as [Ht Hn]; [|by rewrite !length_le_text]. apply le_text_inj in Ht, Hn; try done.
  split_and!; try done. by destruct b1, b2.
Qed.

(** A package is available when the DHT answered and either the stat of the content succeeded or
    somebody provides it.  Content that was found while the DHT does not answer counts as
    unavailable. *)
Theorem availability_exact (providers : option (list string)) (fetch : option (option N)) :
  (assess providers fetch).1.1.1 = true ↔ ∃ ps, providers = Some ps ∧ (ps ≠ [] ∨ is_Some fetch).
Proof.
  destruct providers as [[|p ps]|], fetch as [size|]; cbn; split; try done; try naive_solver.
Qed.

End Hashes.

(** ** Pins and the contract *)
Section Composition.
Context `{CR : !Crypto}.

Lemma mined_same (r : result PinRevert PinningRewards) (w : PinWorld) :
  w_operator (mined r w) = w_operator w ∧ w_ipfs (mined r w) = w_ipfs w ∧ w_mempool (mined r w) = w_mempool w ∧
  w_fates (mined r w) = w_fates w.
Proof. by destruct r. Qed.

Lemma mine_same (w : PinWorld) (e : MinedTx) :
  w_operator (mine w e) = w_operator w ∧ w_ipfs (mine w e) = w_ipfs w ∧ w_mempool (mine w e) ⊆ w_mempool w ∧
  w_fates (mine w e) = w_fates w.
Proof.
  destruct e as [t ok sender c|t k]; cbn [mine].
  - by destruct (mined_same (pin_call ok t sender c (w_chain w)) w) as (-> & -> & -> & ->).
  - destruct (w_mempool w !! k) as [c|]; [|done].
    destruct (mined_same (own_call t c w) (with_mempool w (delete k (w_mempool w)))) as (-> & -> & -> & ->). cbn. split_and!; try done.
    apply list_subseteq_delete.
Qed.

Lemma mine_all_same (l : list MinedTx) (w : PinWorld) :
  w_operator (foldl mine w l) = w_operator w ∧ w_ipfs (foldl mine w l) = w_ipfs w ∧ w_mempool (foldl mine w l) ⊆ w_mempool w ∧
  w_fates (foldl mine w l) = w_fates w.
Proof.
  revert w. induction l as [|e l IH]; intros w; cbn [foldl]; [done|].
  destruct (mine_same w e) as (H1 & H2 & H3 & H4), (IH (mine w e)) as (-> & -> & H5 & ->). split_and!; try done. by etrans.
Qed.

Lemma transact_same (c : OwnTx) (w : PinWorld) :
  let '(w', b) := transact c w in
  w_operator w' = w_operator w ∧ w_ipfs w' = w_ipfs w ∧
  (if b then w_mempool w' ⊆ w_mempool w else w_mempool w' ⊆ w_mempool w ++ [c]).
Proof.
  unfold transact. destruct (_ && _); [|cbn; split_and!; [done..|set_solver]]. destruct (next_fate w) as [f fates].
  destruct (ft_taken f); cbn [negb]; [|cbn; split_and!; [done..|set_solver]].
  destruct (mine_all_same (ft_meanwhile f) (with_fates w fates)) as (H1 & H2 & H3 & _). set (w1 := foldl _ _ _) in *. clearbody w1.
  destruct (ft_mined f) as [t|]; [|cbn in *; split_and!; [congruence..|set_solver]].
  destruct (mined_same (own_call t c w1) w1) as (-> & -> & -> & _). cbn in *. split_and!; try done.
  destruct (ft_confirmed f); set_solver.
Qed.

Lemma transact_ipfs (c : OwnTx) (w : PinWorld) : w_ipfs (transact c w).1 = w_ipfs w.
Proof. pose proof (transact_same c w) as H. destruct (transact c w). apply H. Qed.

Lemma transact_operator (c : OwnTx) (w : PinWorld) : w_operator (transact c w).1 = w_operator w.
Proof. pose proof (transact_same c w) as H. destruct (transact c w). apply H. Qed.

Definition owned (w : PinWorld) (cid : string) : Prop := owns (w_chain w) (w_operator w) (cid_to_bytes32 cid).

(** A package that was unpinned cannot be pinned again: its entry stays in the map, so pinning reports
    success without doing anything, while the node does not have it, and nor does the contract
    when the transaction was mined as it was sent. *)
Theorem repin_does_nothing (now : Z) (disk_ok disk_ok' : bool) (cid : string) (size : N) (i : PinInfo) (m m' : Manager) :
  mg_pins m !! cid = Some i → unpin_package disk_ok cid m = (m', Ok tt) →
  pin_package now disk_ok' cid size m' = (m', Ok tt) ∧ (cid ∉ w_ipfs (mg_world m')) ∧
  (w_fates (mg_world m) = [] → ¬ owned (mg_world m') cid).
Proof.
  intros Hi. unfold unpin_package. cbn [ipfs_unpin ipfs_node unregister_pin client]. unfold client_unregister_pin, api_unpin.
  destruct (w_ipfs_up _) eqn:Hup; [|done]. cbn [negb]. set (w := with_ipfs _ _).
  pose proof (transact_ipfs (Some (CallUnregisterPin (cid_to_bytes32 cid))) w) as Hf.
  destruct (transact _ w) as [w' [|]] eqn:Ht; cbn [negb]; [|done]. intros [= <-]. cbn [fst] in Hf. split_and!.
  - unfold pin_package. cbn. by rewrite lookup_alter_eq, Hi.
  - cbn. rewrite Hf. cbn. set_solver.
  - intros Hn. subst w. unfold transact, next_fate in Ht. cbn [w_rpc_up with_ipfs w_fates own_call] in Ht. rewrite Hn in Ht.
    destruct (w_rpc_up _); [|done]. cbn [andb] in Ht. cbn [pin_call w_operator w_chain w_transfers with_ipfs] in Ht.
    destruct (unregisterPin _ _ _) as [s|e] eqn:Hu; [|done]. cbn in Ht. injection Ht as <-.
    apply unregister_pin_Ok in Hu as (_ & Hu & _). unfold owned, owns. cbn. rewrite Hu. by intros [? _].
Qed.

(** A pin that the contract knows and the manager does not, as after a restart without the state file,
    blocks its package: pinning fails for as long as it is registered. *)
Theorem forgotten_pin_blocks (now : Z) (disk_ok : bool) (cid : string) (size : N) (m : Manager) :
  mg_pins m !! cid = None → owned (mg_world m) cid → (pin_package now disk_ok cid size m).2 ≠ Ok tt.
Proof.
  intros Hn [Ha Ho]. unfold pin_package. rewrite Hn. cbn [ipfs_pin ipfs_node register_pin client]; unfold client_register_pin, api_pin.
  destruct (w_ipfs_up _); [|done]. cbn [negb]. unfold transact. cbn [w_rpc_up with_ipfs own_call pin_call w_operator w_chain w_time].
  assert (is_ok (registerPin (w_time (mg_world m)) (w_operator (mg_world m)) (cid_to_bytes32 cid) size (w_chain (mg_world m))) = false) as ->.
  { unfold registerPin. rewrite Ha, Ho, N.eqb_refl. cbn. destruct (pn_isRegistered _); [|done]. cbn. by destruct (0 <? size)%N. }
  by rewrite andb_false_r.
Qed.

(** An unpinning that is mined without its confirmation: the call fails, so the manager keeps the package
    as active, and neither the node nor the contract has it.  Every later attempt fails as long as
    the contract does not list the pin, because its call would revert. *)
Theorem unconfirmed_unpin_stays_active (disk_ok disk_ok' : bool) (t : N) (fates : list Fate) (cid : string) (m : Manager) :
  let w := mg_world m in
  let m' := (unpin_package disk_ok cid m).1 in
  w_ipfs_up w = true → w_rpc_up w = true → is_ok (unregisterPin (w_operator w) (cid_to_bytes32 cid) (w_chain w)) = true →
  w_fates w = {| ft_taken := true; ft_meanwhile := []; ft_mined := Some t; ft_confirmed := false |} :: fates →
  (unpin_package disk_ok cid m).2 = Err ContractFailed ∧ mg_pins m' = mg_pins m ∧ (cid ∉ w_ipfs (mg_world m')) ∧
  ¬ owned (mg_world m') cid ∧ (unpin_package disk_ok' cid m').2 = Err ContractFailed.
Proof.
  cbv zeta. intros Hi Hr [s Hs]%is_ok_Ok Hf.
  assert (unpin_package disk_ok cid m =
    (with_world m (with_chain (with_fates (with_ipfs (mg_world m) (w_ipfs (mg_world m) ∖ {[cid]})) fates) s), Err ContractFailed)) as ->.
  { unfold unpin_package. cbn [ipfs_unpin ipfs_node unregister_pin client]. unfold client_unregister_pin, api_unpin. rewrite Hi. cbn [negb].
    unfold transact, next_fate. cbn [w_rpc_up with_ipfs w_fates own_call pin_call w_operator w_chain]. rewrite Hr, Hf, Hs. cbn.
    rewrite Hs. done. }
  apply unregister_pin_Ok in Hs as (_ & Hs & _). cbn [fst snd mg_pins with_world mg_world]. split_and!; try done.
  - cbn. set_solver.
  - unfold owned, owns. cbn. rewrite Hs. by intros [? _].
  - unfold unpin_package. cbn [ipfs_unpin ipfs_node unregister_pin client]. unfold client_unregister_pin, api_unpin. cbn [mg_world with_world w_ipfs_up with_chain with_fates with_ipfs].
    rewrite Hi. cbn [negb]. unfold transact. cbn [w_rpc_up with_ipfs with_chain with_fates own_call pin_call w_operator w_chain].
    unfold unregisterPin. rewrite Hs. cbn. by rewrite andb_false_r.
Qed.

(** ** Rounds of verification *)

Definition on_chain (m : Manager) : nat := length (pw_verifications (w_chain (mg_world m))).
Definition counted (m : Manager) : N := (ps_successful_verifications (mg_stats m) + ps_failed_verifications (mg_stats m))%N.

(** Nothing of this operator can be submitted now. *)
Definition submissions_closed (m : Manager) : Prop :=
  let w := mg_world m in
  w_operator w ∉ pw_verifiers (w_chain w) ∨
  (w_time w < default 0 (pw_lastVerificationTime (w_chain w) !! w_operator w) + pw_verificationCooldown (w_chain w))%N.

(** The chain mines what is sent at once. *)
Definition prompt (m : Manager) : Prop := w_fates (mg_world m) = [].

Lemma transact_prompt (c : OwnTx) (w : PinWorld) :
  w_fates w = [] →
  (transact c w).1 = w ∨ ∃ s, own_call (w_time w) c w = Ok s ∧ (transact c w).1 = with_chain w s.
Proof.
  intros Hf. assert (with_fates w [] = w) as Hw by (destruct w; cbn in Hf; by subst).
  unfold transact, next_fate. rewrite Hf. destruct (w_rpc_up w); [|by left]. cbn [andb].
  destruct (own_call (w_time w) c w) as [s|] eqn:Hs; [|by left]. right. exists s. split; [done|].
  cbn [is_ok ft_taken negb ft_meanwhile ft_mined foldl fst]. by rewrite Hw, Hs.
Qed.

Lemma verify_pin_world (now : Z) verify (m : Manager) (cid : string) :
  prompt m →
  mg_world (verify_pin now verify m cid) = mg_world m ∨
  ∃ h success proof s, submitVerification (w_time (mg_world m)) (w_operator (mg_world m)) (w_operator (mg_world m)) h success proof
      (w_chain (mg_world m)) = Ok s ∧ mg_world (verify_pin now verify m cid) = with_chain (mg_world m) s.
Proof.
  intros Hp. unfold verify_pin. destruct (verify cid) as [r|]; [|by left]. cbn [submit_verification client]; unfold client_submit_verification.
  destruct (transact_prompt (Some (CallSubmitVerification (w_operator (mg_world m)) (cid_to_bytes32 cid) (vr_is_available r) (vr_proof_hash r)))
    (mg_world m) Hp) as [H|(s & Hs & H)];
    destruct (transact _ _) as [w b]; cbn [fst] in H; subst w; [left|right; do 4 eexists; split; [exact Hs|]];
    by destruct (vr_is_available r).
Qed.

Lemma closed_step (now : Z) verify (m : Manager) (cid : string) :
  prompt m → submissions_closed m → mg_world (verify_pin now verify m cid) = mg_world m.
Proof.
  intros Hp Hc. destruct (verify_pin_world now verify m cid Hp) as [H|(h & success & proof & s & Hs & _)]; [done|].
  apply submit_verification_Ok in Hs as (Hv & _ & Ht & _). destruct Hc as [Hc|Hc]; [done|lia].
Qed.

Lemma closed_run (now : Z) verify (l : list string) (m : Manager) :
  prompt m → submissions_closed m → mg_world (foldl (verify_pin now verify) m l) = mg_world m.
Proof.
  revert m. induction l as [|cid l IH]; intros m Hp Hc; [done|]. cbn [foldl].
  pose proof (closed_step now verify m cid Hp Hc) as Hw. unfold prompt, submissions_closed in *. by rewrite IH; rewrite ?Hw.
Qed.

Lemma submitted_once (now : Z) verify (l : list string) (m : Manager) :
  prompt m → (0 < pw_verificationCooldown (w_chain (mg_world m)))%N →
  (on_chain (foldl (verify_pin now verify) m l) ≤ S (on_chain m))%nat.
Proof.
  revert m. induction l as [|cid l IH]; intros m Hp Hc; cbn [foldl]; [lia|].
  destruct (verify_pin_world now verify m cid Hp) as [H|(h & success & proof & s & Hs & H)].
  - unfold on_chain, prompt in *. rewrite <- H in Hc, Hp |- *. by apply IH.
  - apply submit_verification_Ok in Hs as (_ & _ & _ & Hl & Hco & _ & Hn). unfold on_chain. rewrite closed_run.
    + rewrite H. cbn. lia.
    + unfold prompt. by rewrite H.
    + right. rewrite H. cbn. rewrite Hl, lookup_insert_eq, Hco. cbn. lia.
Qed.

Lemma u64_add_small (a b : N) : (a + b < u64_size)%N → u64_add a b = (a + b)%N.
Proof. apply N.mod_small. Qed.

Lemma counted_run (now : Z) verify (l : list string) (m : Manager) :
  (counted m + N.of_nat (length l) < u64_size)%N →
  counted (foldl (verify_pin now verify) m l) = (counted m + N.of_nat (length l))%N.
Proof.
  revert m. induction l as [|cid l IH]; intros m Hm; cbn [foldl]; [cbn; lia|]. cbn [length] in Hm.
  assert (counted (verify_pin now verify m cid) = counted m + 1)%N as Hs.
  { unfold counted, verify_pin in *. destruct (verify cid) as [r|].
    - destruct (submit_verification _ _ _ _) as [w b]. destruct (vr_is_available r); cbn; rewrite u64_add_small; lia.
    - cbn. rewrite u64_add_small; lia. }
  rewrite IH, Hs; cbn [length]; lia.
Qed.

(** A round of verification asks about every active pin and counts every answer for itself, but on a
    chain that mines at once the contract records one result at most: the rest meets the cooldown of the pinner, and the
    manager logs the refusals.  An operator without the role of a verifier gets none recorded. *)
Theorem round_records_once (now : Z) (verify : string → option VerificationResult) (m : Manager) :
  prompt m → (0 < pw_verificationCooldown (w_chain (mg_world m)))%N →
  (on_chain (run_verification now verify m) ≤ S (on_chain m))%nat ∧
  (w_operator (mg_world m) ∉ pw_verifiers (w_chain (mg_world m)) → mg_world (run_verification now verify m) = mg_world m) ∧
  ((counted m + N.of_nat (length (pins_to_verify m)) < u64_size)%N →
   counted (run_verification now verify m) = (counted m + N.of_nat (length (pins_to_verify m)))%N).
Proof.
  intros Hp Hc. split; [by apply submitted_once|]. split; [|apply counted_run]. intros Hv. apply closed_run; [done|by left].
Qed.

End Composition.

(** ** The manager's pins are registered *)

Inductive ManagerOp :=
| OpPin (now : Z) (cid : string) (size : N) (disk_ok : bool)
| OpUnpin (cid : string) (disk_ok : bool)
| OpVerify (now : Z) (verify : string → option VerificationResult)
| OpClaim
| OpMined (e : MinedTx)
| OpEnvironment (t : N) (transfers rpc_up : bool) (fates : list Fate) (ipfs : gset string) (ipfs_up : bool).

Lemma owns_call (ok : bool) (now sender : N) (c : PinCall) (s s' : PinningRewards) (a : N) (h : string) :
  pin_call ok now sender c s = Ok s' → owns s a h →
  owns s' a h ∨ (sender ≠ a ∧ ∃ size, c = CallRegisterPin h size) ∨ (sender = a ∧ c = CallUnregisterPin h).
Proof.
  intros H Ho. pose proof Ho as [Ha Hp]. destruct c; cbn [pin_call] in H.
  - unfold registerPinner, receive in H. call_inv. by left.
  - pose proof (unregister_reverts ok now sender s) as Hr. by rewrite H in Hr.
  - destruct (decide (cid = h)) as [->|Hne].
    + apply register_pin_Ok in H as (_ & _ & Hn & _). right. left. split; [intros ->; by apply Hn|by eexists].
    + left. unfold registerPin in H. call_inv. unfold owns, pin_of in *. cbn. by rewrite lookup_insert_ne.
  - unfold unregisterPin in H. call_inv. match goal with H : (_ =? _)%N = true |- _ => apply N.eqb_eq in H as Hown end.
    destruct (decide (cid = h)) as [->|Hne]; [right; right; split; [congruence|done]|].
    left. unfold owns, pin_of in *. cbn. by rewrite lookup_insert_ne.
  - left. unfold reportAccess in H. call_inv. unfold owns, pin_of in *. cbn. destruct (decide (cid = h)) as [->|Hne];
      [by rewrite lookup_insert_eq|by rewrite lookup_insert_ne].
  - left. unfold submitVerification in H. call_inv. unfold owns, pin_of in *. destruct success; call_inv; cbn; [|done].
    destruct (decide (cid = h)) as [->|Hne]; [by rewrite lookup_insert_eq|by rewrite lookup_insert_ne].
  - unfold claimRewards, pay_rewards, pay in H. call_inv. by left.
  - unfold fundRewardsPool, receive in H. call_inv. by left.
  - unfold setRewardRate in H. call_inv. by left.
  - unfold setVerificationParams in H. call_inv. by left.
Qed.

(** The size that a call adds to the pins of its sender, and what waits in a mempool. *)
Definition call_size (c : PinCall) : N := match c with CallRegisterPin _ size => size | _ => 0 end.
Definition own_size (c : OwnTx) : N := from_option call_size 0%N c.
Fixpoint pool_size (l : list OwnTx) : N := match l with [] => 0 | c :: l => own_size c + pool_size l end.

Lemma pool_size_app (l k : list OwnTx) : pool_size (l ++ k) = (pool_size l + pool_size k)%N.
Proof. induction l as [|c l IH]; cbn; [done|]. rewrite IH. lia. Qed.

Lemma pool_size_delete (l : list OwnTx) (k : nat) (c : OwnTx) :
  l !! k = Some c → pool_size l = (own_size c + pool_size (delete k l))%N.
Proof.
  revert k. induction l as [|c' l IH]; intros k; [by rewrite lookup_nil|]. destruct k as [|k]; cbn; [by intros [= ->]|].
  intros H. change (list_delete k l) with (delete k l). rewrite (IH k H), !N.add_assoc, (N.add_comm (own_size c')). done.
Qed.

Definition pinned_size (s : PinningRewards) (a : N) : N := pn_totalPinnedSize (pinner_of s a).

Lemma call_total (ok : bool) (now sender : N) (c : PinCall) (s s' : PinningRewards) (a : N) :
  pin_call ok now sender c s = Ok s' →
  (pinned_size s' a ≤ pinned_size s a + (if (sender =? a)%N then call_size c else 0))%N.
Proof.
  unfold pinned_size. intros H. destruct c; cbn [pin_call call_size] in *.
  - unfold registerPinner, receive in H. call_inv. destruct (decide (a = sender)) as [->|Ha];
      [rewrite put_pinner_same; cbn; lia|rewrite put_pinner_other by done; unfold pinner_of; cbn; destruct (sender =? a)%N; lia].
  - pose proof (unregister_reverts ok now sender s) as Hr. by rewrite H in Hr.
  - apply register_pin_Ok in H as (_ & _ & _ & _ & _ & _ & Ho & Ht & _). destruct (N.eqb_spec sender a) as [->|Ha]; [lia|].
    destruct (Ho a) as [_ ->]; [done|lia].
  - destruct (decide (a = sender)) as [->|Ha]; [apply unregister_pin_Ok in H as (_ & _ & H); lia|].
    unfold unregisterPin in H. call_inv. rewrite put_pinner_other by done. unfold pinner_of. cbn. destruct (sender =? a)%N; lia.
  - unfold reportAccess in H. call_inv. unfold pinner_of. cbn. destruct (sender =? a)%N; lia.
  - unfold submitVerification in H. call_inv. destruct success; call_inv; unfold pinner_of; cbn;
      (destruct (decide (pinner = a)) as [->|Ha]; [rewrite lookup_insert_eq|rewrite lookup_insert_ne by done]); cbn; destruct (_ =? a)%N; lia.
  - unfold claimRewards, pay_rewards in H. call_inv. apply pay_pinners in H as (Hp & _ & _). cbn in Hp. unfold pinner_of. rewrite Hp.
    destruct (decide (sender = a)) as [->|Ha]; [rewrite lookup_insert_eq|rewrite lookup_insert_ne by done]; unfold pinner_of; cbn; destruct (_ =? a)%N; lia.
  - unfold fundRewardsPool, receive in H. call_inv. unfold pinner_of. cbn. destruct (sender =? a)%N; lia.
  - unfold setRewardRate in H. call_inv. unfold pinner_of. cbn. destruct (sender =? a)%N; lia.
  - unfold setVerificationParams in H. call_inv. unfold pinner_of. cbn. destruct (sender =? a)%N; lia.
Qed.

Section Tracking.
Context `{CR : !Crypto}.

Definition manager_step (m : Manager) (op : ManagerOp) : Manager :=
  match op with
  | OpPin now cid size disk_ok => (pin_package now disk_ok cid size m).1
  | OpUnpin cid disk_ok => (unpin_package disk_ok cid m).1
  | OpVerify now verify => run_verification now verify m
  | OpClaim => (manager_claim m).1
  | OpMined e => with_world m (mine (mg_world m) e)
  | OpEnvironment t transfers rpc_up fates ipfs ipfs_up =>
      let w := mg_world m in
      with_world m {| w_chain := w_chain w; w_time := t; w_operator := w_operator w; w_transfers := transfers; w_rpc_up := rpc_up;
                      w_mempool := w_mempool w; w_fates := fates; w_ipfs := ipfs; w_ipfs_up := ipfs_up |}
  end.

(** Other accounts do anything but register pins. *)
Definition quiet_tx (operator : N) (e : MinedTx) : Prop :=
  match e with
  | MinedOther _ _ sender c => sender ≠ operator ∧ ∀ cid size, c ≠ CallRegisterPin cid size
  | MinedOwn _ _ => True
  end.

Definition quiet_fate (operator : N) (f : Fate) : Prop := Forall (quiet_tx operator) (ft_meanwhile f).

Definition undisturbed (operator : N) (op : ManagerOp) : Prop :=
  match op with
  | OpMined e => quiet_tx operator e
  | OpEnvironment _ _ _ fates _ _ => Forall (quiet_fate operator) fates
  | _ => True
  end.

(** An unpinning of the CID failed at the contract. *)
Fixpoint unpin_failed (cid : string) (m : Manager) (ops : list ManagerOp) : bool :=
  match ops with
  | [] => false
  | op :: ops =>
      match op with
      | OpUnpin cid' disk_ok =>
          String.eqb cid' cid && match (unpin_package disk_ok cid' m).2 with Err ContractFailed => true | _ => false end
      | _ => false
      end || unpin_failed cid (manager_step m op) ops
  end.

Definition op_size (op : ManagerOp) : N := match op with OpPin _ _ size _ => size | _ => 0 end.
Fixpoint ops_size (ops : list ManagerOp) : N := match ops with [] => 0 | op :: ops => op_size op + ops_size ops end.

(** The invariant, for the CIDs [doubt] of which an unpinning may still be mined, and with room for
    the sizes that are still to come. *)
Record settled (operator : N) (doubt : string → Prop) (pins : gmap string PinInfo) (room : N) (w : PinWorld) : Prop := {
  sd_operator : w_operator w = operator;
  sd_pins cid i : pins !! cid = Some i → if_is_active i = true → owned w cid ∨ doubt cid ∨ collision;
  sd_mempool h : Some (CallUnregisterPin h) ∈ w_mempool w → ∃ cid, doubt cid ∧ h = cid_to_bytes32 cid;
  sd_fates : Forall (quiet_fate operator) (w_fates w);
  sd_room : (pinned_size (w_chain w) operator + pool_size (w_mempool w) + room < u256_size)%N;
}.

Section Worlds.
Context (operator : N) (doubt : string → Prop) (pins : gmap string PinInfo).

Definition doubted (c : OwnTx) : Prop := ∀ h, c = Some (CallUnregisterPin h) → ∃ cid, doubt cid ∧ h = cid_to_bytes32 cid.

Lemma settled_room (room room' : N) (w : PinWorld) :
  (room' ≤ room)%N → settled operator doubt pins room w →
  settled operator doubt pins room' w.
Proof. intros Hr []. split; try done. lia. Qed.

Lemma settled_call (transfers : bool) (t sender : N) (c : PinCall) (room : N) (w : PinWorld) :
  (sender = operator → doubted (Some c)) → (sender ≠ operator → ∀ cid size, c ≠ CallRegisterPin cid size) →
  settled operator doubt pins ((if (sender =? operator)%N then call_size c else 0) + room)%N w →
  settled operator doubt pins room (mined (pin_call transfers t sender c (w_chain w)) w).
Proof.
  intros Hd Hq Hs. destruct (pin_call transfers t sender c (w_chain w)) as [s|] eqn:Hc; cbn [mined];
    [|eapply settled_room; [|exact Hs]; lia]. destruct Hs as [Ho Hp Hm Hf Hr]. split; try done.
  - intros cid i Hi Ha. destruct (Hp cid i Hi Ha) as [Hown|Hx]; [|by right]. unfold owned in Hown |- *. cbn.
    destruct (owns_call _ _ _ _ _ _ _ _ Hc Hown) as [H|[[Hn [size H]]|[H ->]]]; [by left|by destruct (Hq ltac:(congruence) _ _ H)|].
    destruct (Hd ltac:(congruence) _ eq_refl) as (cid' & Hd' & Hh). apply hash_inj in Hh as [->|Hcol]; auto.
  - apply (call_total _ _ _ _ _ _ operator) in Hc. cbn. lia.
Qed.

Lemma settled_own (t : N) (c : OwnTx) (room : N) (w : PinWorld) :
  doubted c → settled operator doubt pins (own_size c + room)%N w →
  settled operator doubt pins room (mined (own_call t c w) w).
Proof.
  intros Hd Hs. destruct c as [c|]; cbn [own_call]; [|by destruct w]. pose proof (sd_operator _ _ _ _ _ Hs) as Ho.
  apply settled_call; [done|by rewrite Ho|]. by rewrite Ho, N.eqb_refl.
Qed.

Lemma settled_mine (room : N) (w : PinWorld) (e : MinedTx) :
  quiet_tx operator e → settled operator doubt pins room w →
  settled operator doubt pins room (mine w e).
Proof.
  intros Hq Hs. destruct e as [t transfers sender c|t k]; cbn [mine].
  - destruct Hq as [Hn Hq]. apply settled_call; [done|done|]. by rewrite (proj2 (N.eqb_neq _ _) Hn).
  - destruct (w_mempool w !! k) as [c|] eqn:Hk; [|done]. destruct Hs as [Ho Hp Hm Hf Hr].
    change (w_mempool w) with (w_mempool w). apply (settled_own t c room (with_mempool w (delete k (w_mempool w)))).
    + intros h ->. apply Hm. by eapply list_elem_of_lookup_2.
    + split; try done.
      * intros h Hh. apply Hm. by apply (list_subseteq_delete k).
      * rewrite (pool_size_delete _ _ _ Hk) in Hr. cbn. lia.
Qed.

Lemma settled_mine_all (room : N) (l : list MinedTx) (w : PinWorld) :
  Forall (quiet_tx operator) l → settled operator doubt pins room w →
  settled operator doubt pins room (foldl mine w l).
Proof. intros Hq. revert w. induction Hq as [|e l He _ IH]; intros w Hs; cbn [foldl]; [done|]. by apply IH, settled_mine. Qed.

Lemma settled_fate (room : N) (w : PinWorld) :
  settled operator doubt pins room w → quiet_fate operator (next_fate w).1 ∧ settled operator doubt pins room (with_fates w (next_fate w).2).
Proof.
  intros [Ho Hp Hm Hf Hr]. unfold next_fate. destruct (w_fates w) as [|f fates] eqn:He.
  - split; [by apply Forall_nil|]. by split.
  - apply Forall_cons in Hf as [Hf Hfs]. split; [done|]. by split.
Qed.

(** Whatever becomes of a transaction of the operator. *)
Lemma settled_transact (c : OwnTx) (room : N) (w : PinWorld) :
  doubted c → settled operator doubt pins (own_size c + room)%N w → settled operator doubt pins room (transact c w).1.
Proof.
  intros Hd Hs. assert (settled operator doubt pins room w) as Hw by (eapply settled_room; [|done]; lia). unfold transact. destruct (_ && _); [|done].
  apply settled_fate in Hs as [Hq Hs]. destruct (next_fate w) as [f fates]. cbn [fst snd] in *.
  destruct (ft_taken f); cbn [negb]; [|eapply settled_room; [|exact Hs]; lia].
  apply (settled_mine_all _ (ft_meanwhile f)) in Hs; [|done]. destruct (ft_mined f) as [t|]; [by apply settled_own|].
  destruct Hs as [Ho Hp Hm Hf Hr]. split; try done.
  - intros h [H|H%list_elem_of_singleton]%elem_of_app; [by apply Hm|by apply Hd].
  - cbn. rewrite pool_size_app. cbn. lia.
Qed.

End Worlds.

(** Registrations last. *)
Lemma registered_mined (t sender : N) (transfers : bool) (c : PinCall) (w : PinWorld) (a : N) :
  registered (w_chain w) a → registered (w_chain (mined (pin_call transfers t sender c (w_chain w)) w)) a.
Proof.
  destruct (pin_call _ _ _ _ _) as [s|] eqn:H; [|done]. cbn. apply registered_step. by apply (step_call transfers t sender c).
Qed.

Lemma registered_mine_all (l : list MinedTx) (w : PinWorld) (a : N) :
  registered (w_chain w) a → registered (w_chain (foldl mine w l)) a.
Proof.
  revert w. induction l as [|e l IH]; intros w H; cbn [foldl]; [done|]. apply IH. destruct e as [t transfers sender c|t k]; cbn [mine].
  - by apply registered_mined.
  - destruct (w_mempool w !! k) as [[c|]|]; [|done..]. by apply (registered_mined t _ _ c (with_mempool w _)).
Qed.

(** A pin is the operator's once its transaction is confirmed, though [watch] does not look whether it
    reverted: the estimation of the gas leaves that for a pin which is the operator's already. *)
Lemma transact_registers (operator : N) (doubt : string → Prop) (pins : gmap string PinInfo) (h : string) (size room : N) (w w' : PinWorld) :
  settled operator doubt pins (size + room) w → transact (Some (CallRegisterPin h size)) w = (w', true) →
  owns (w_chain w') operator h.
Proof.
  intros Hs. unfold transact. destruct (w_rpc_up w); [|done]. cbn [andb].
  destruct (is_ok _) eqn:He; [|done]. apply is_ok_Ok in He as [s0 He]. cbn [own_call pin_call] in He.
  apply register_pin_Ok in He as (Hreg & Hsize & _). rewrite (sd_operator _ _ _ _ _ Hs) in Hreg.
  apply settled_fate in Hs as [Hq Hs]. destruct (next_fate w) as [f fates]. cbn [fst snd] in *.
  destruct (ft_taken f); cbn [negb]; [|done]. apply (registered_mine_all (ft_meanwhile f) (with_fates w fates)) in Hreg.
  apply (settled_mine_all _ _ _ _ (ft_meanwhile f)) in Hs; [|done]. set (w1 := foldl mine _ _) in *. clearbody w1.
  destruct (ft_mined f) as [t|]; [|done]. intros [= <- _]. cbn [own_call pin_call]. rewrite (sd_operator _ _ _ _ _ Hs).
  destruct (registerPin t operator h size (w_chain w1)) as [s|] eqn:Hr; cbn [mined].
  - apply register_pin_Ok in Hr as (_ & _ & _ & _ & Hp & _). unfold owns. cbn. by rewrite Hp.
  - assert (Decision (owns (w_chain w1) operator h)) as [Ho|Ho] by (unfold owns; apply _); [done|].
    destruct (register_pin_accepts t operator h size (w_chain w1)) as [s Hok]; try done; [|congruence].
    pose proof (sd_room _ _ _ _ _ Hs) as Hroom. unfold pinned_size in Hroom. lia.
Qed.

Definition tracked (operator : N) (doubt : string → Prop) (room : N) (m : Manager) : Prop :=
  settled operator doubt (mg_pins m) room (mg_world m).

Lemma settled_doubt (operator : N) (doubt doubt' : string → Prop) (pins : gmap string PinInfo) (room : N) (w : PinWorld) :
  (∀ cid, doubt cid → doubt' cid) → settled operator doubt pins room w → settled operator doubt' pins room w.
Proof.
  intros Hd [Ho Hp Hm Hf Hr]. split; try done.
  - intros cid i Hi Ha. destruct (Hp cid i Hi Ha) as [|[|]]; auto.
  - intros h Hh. destruct (Hm h Hh) as (cid & ? & ->). eauto.
Qed.

Lemma settled_pins (operator : N) (doubt : string → Prop) (pins pins' : gmap string PinInfo) (room : N) (w : PinWorld) :
  (∀ cid i, pins' !! cid = Some i → if_is_active i = true → (∃ j, pins !! cid = Some j ∧ if_is_active j = true) ∨ owned w cid) →
  settled operator doubt pins room w → settled operator doubt pins' room w.
Proof.
  intros Hp' [Ho Hp Hm Hf Hr]. split; try done. intros cid i Hi Ha.
  destruct (Hp' cid i Hi Ha) as [(j & Hj & Hja)|H]; [by eapply Hp|by left].
Qed.

Lemma settled_ipfs (operator : N) (doubt : string → Prop) (pins : gmap string PinInfo) (room : N) (w : PinWorld) (l : gset string) :
  settled operator doubt pins room w → settled operator doubt pins room (with_ipfs w l).
Proof. intros []. by split. Qed.

Lemma tracked_pin (operator : N) (doubt : string → Prop) (room : N) (m : Manager) now cid size disk_ok :
  tracked operator doubt (size + room) m → tracked operator doubt room (pin_package now disk_ok cid size m).1.
Proof.
  unfold tracked. intros Hs. assert (tracked operator doubt room m) as Hm by (eapply settled_room; [|exact Hs]; lia).
  unfold pin_package. destruct (mg_pins m !! cid) as [j|]; [done|]. cbn [ipfs_pin ipfs_node register_pin client]; unfold client_register_pin, api_pin.
  destruct (w_ipfs_up _); cbn [negb]; [|by destruct m]. apply (settled_ipfs _ _ _ _ _ (w_ipfs (mg_world m) ∪ {[cid]})) in Hs.
  set (w := with_ipfs _ _) in *. clearbody w.
  assert (doubted doubt (Some (CallRegisterPin (cid_to_bytes32 cid) size))) as Hd by (by intros h).
  pose proof (settled_transact operator doubt (mg_pins m) _ room w Hd Hs) as Ht.
  destruct (transact _ w) as [w' [|]] eqn:Hw; cbn [negb fst snd] in *; [|exact Ht].
  apply (transact_registers _ _ _ _ _ _ _ _ Hs) in Hw. cbn. eapply settled_pins; [|exact Ht].
  intros cid' i. destruct (decide (cid = cid')) as [->|Hne]; [|rewrite lookup_insert_ne by done; by eauto].
  intros _ _. right. unfold owned. by rewrite (sd_operator _ _ _ _ _ Ht).
Qed.

Lemma tracked_unpin (operator : N) (doubt : string → Prop) (room : N) (m : Manager) cid disk_ok :
  tracked operator doubt room m →
  tracked operator (λ cid', doubt cid' ∨ cid = cid' ∧ (unpin_package disk_ok cid m).2 = Err ContractFailed) room
    (unpin_package disk_ok cid m).1.
Proof.
  unfold tracked. intros Hs. unfold unpin_package. cbn [ipfs_unpin ipfs_node unregister_pin client]. unfold client_unregister_pin, api_unpin.
  destruct (w_ipfs_up _); cbn [negb]; [|eapply settled_doubt; [|by destruct m]; by left].
  apply (settled_ipfs _ _ _ _ _ (w_ipfs (mg_world m) ∖ {[cid]})) in Hs. set (w := with_ipfs _ _) in *. clearbody w.
  set (c := Some (CallUnregisterPin (cid_to_bytes32 cid))). pose proof (transact_same c w) as Hsame.
  assert (settled operator (λ cid', doubt cid' ∨ cid = cid') (mg_pins m) room (transact c w).1) as Ht.
  { apply settled_transact; [intros h [= <-]; eauto|]. eapply settled_doubt; [|exact Hs]. by left. }
  destruct (transact c w) as [w' [|]]; cbn [negb fst snd] in *.
  - destruct Hsame as (_ & _ & Hsub). destruct Ht as [Ho Hp Hm Hf Hr], Hs as [_ _ Hm0 _ _]. split; try done; cbn.
    + intros cid' i. destruct (decide (cid = cid')) as [->|Hne].
      { rewrite lookup_alter_eq. destruct (mg_pins m !! cid') as [j|]; [|done]. by intros [= <-]. }
      rewrite lookup_alter_ne by done. intros Hi Ha. destruct (Hp cid' i Hi Ha) as [|[[|]|]]; naive_solver.
    + intros h Hh. destruct (Hm0 h (Hsub _ Hh)) as (cid' & ? & ->). eauto.
  - eapply settled_doubt; [|exact Ht]. naive_solver.
Qed.

Lemma tracked_verify (operator : N) (doubt : string → Prop) (room : N) now verify (l : list string) (m : Manager) :
  tracked operator doubt room m → tracked operator doubt room (foldl (verify_pin now verify) m l).
Proof.
  revert m. induction l as [|cid l IH]; intros m Hs; cbn [foldl]; [done|]. apply IH. unfold verify_pin.
  destruct (verify cid) as [r|]; [|exact Hs]. cbn [submit_verification client]; unfold client_submit_verification, tracked in *.
  set (c := Some _). pose proof (settled_transact operator doubt (mg_pins m) c room (mg_world m) ltac:(by intros h) Hs) as Ht.
  destruct (transact c _) as [w b]. cbn [fst] in *. destruct (vr_is_available r); [|exact Ht]. eapply settled_pins; [|exact Ht].
  intros cid' i. cbn. destruct (decide (cid = cid')) as [->|Hne]; [rewrite lookup_alter_eq|rewrite lookup_alter_ne by done; by eauto].
  destruct (mg_pins m !! cid') as [j|] eqn:Hj; [|done]. intros [= <-] Ha. left. by exists j.
Qed.

Lemma tracked_claim (operator : N) (doubt : string → Prop) (room : N) (m : Manager) :
  tracked operator doubt room m → tracked operator doubt room (manager_claim m).1.
Proof.
  unfold tracked. intros Hs. unfold manager_claim. cbn [claim_rewards client]. unfold client_claim. destruct (client_rewards _) as [r|]; [|exact Hs].
  destruct (r =? 0)%N; [exact Hs|].
  pose proof (settled_transact operator doubt (mg_pins m) (Some CallClaimRewards) room (mg_world m) ltac:(by intros h) Hs) as Ht.
  by destruct (transact _ _) as [w b].
Qed.

Lemma tracked_step (operator : N) (doubt : string → Prop) (room : N) (m : Manager) (op : ManagerOp) :
  undisturbed operator op → tracked operator doubt (op_size op + room) m →
  tracked operator (λ cid, doubt cid ∨ unpin_failed cid m [op] = true) room (manager_step m op).
Proof.
  intros Hu Ht. destruct op as [now cid size disk_ok|cid disk_ok|now verify| |e|t tr up fates ipfs iup]; cbn [manager_step op_size] in *.
  - eapply settled_doubt; [|by apply tracked_pin]. by left.
  - eapply settled_doubt; [|by apply tracked_unpin]. intros cid' [H|[-> H]]; [by left|right]. cbn. by rewrite String.eqb_refl, H.
  - eapply settled_doubt; [|by apply tracked_verify]. by left.
  - eapply settled_doubt; [|by apply tracked_claim]. by left.
  - eapply settled_doubt; [|by apply settled_mine]. by left.
  - eapply settled_doubt; [by left|]. by destruct Ht as [Ho Hp Hm Hf Hr].
Qed.

Lemma tracked_run (operator : N) (ops : list ManagerOp) (doubt : string → Prop) (m : Manager) :
  Forall (undisturbed operator) ops → tracked operator doubt (ops_size ops) m →
  tracked operator (λ cid, doubt cid ∨ unpin_failed cid m ops = true) 0 (foldl manager_step m ops).
Proof.
  intros Hops. revert doubt m. induction Hops as [|op ops Hu _ IH]; intros doubt m Ht; cbn [foldl].
  - eapply settled_doubt; [|exact Ht]. by left.
  - eapply settled_doubt; [|apply IH, tracked_step; [exact Hu|exact Ht]]. intros cid [[H|H]|H]; [by left|right..];
      cbn [unpin_failed] in *; rewrite ?orb_false_r in H; by rewrite H, ?orb_true_r.
Qed.

(** A contract and a node as the manager finds them: nothing of the operator waits to be mined. *)
Definition fresh (w : PinWorld) (ops : list ManagerOp) : Prop :=
  w_mempool w = [] ∧ Forall (quiet_fate (w_operator w)) (w_fates w) ∧
  (pinned_size (w_chain w) (w_operator w) + ops_size ops < u256_size)%N.

Lemma tracked_new (config : PinningConfig) (w : PinWorld) (ops : list ManagerOp) :
  fresh w ops → tracked (w_operator w) (λ _, False) (ops_size ops) (manager_new config w None).1.
Proof.
  intros (Hm & Hf & Hr). assert (settled (w_operator w) (λ _, False) ∅ (ops_size ops) w) as Hs.
  { split; try done; rewrite Hm; cbn; [set_solver|lia]. }
  assert (∀ c, own_size c = 0%N → doubted (λ _, False) c → ∀ w', settled (w_operator w) (λ _, False) ∅ (ops_size ops) w' →
    settled (w_operator w) (λ _, False) ∅ (ops_size ops) (transact c w').1) as Ht.
  { intros c Hc Hd w' Hw'. apply settled_transact; [done|]. by rewrite Hc. }
  unfold manager_new, ensure_registered, tracked. cbn [is_registered register_pinner client mg_world mg_config].
  unfold client_register_pinner, load_existing_pins.
  destruct (pf_auto_register config); [|by cbn; destruct (pf_db_path config)].
  destruct (client_is_registered w) as [[|]|]; [by cbn; destruct (pf_db_path config)| |done].
  pose proof (Ht None eq_refl ltac:(by intros h) w Hs) as H1. destruct (transact None w) as [w1 [|]]; cbn [fst] in H1.
  - pose proof (Ht (Some (CallRegisterPinner (pf_min_stake config))) eq_refl ltac:(by intros h) w1 H1) as H2.
    destruct (transact _ w1) as [w2 [|]]; cbn [fst] in H2; cbn; by destruct (pf_db_path config).
  - by cbn.
Qed.

(** C35. What the manager holds for pinned, the contract holds for pinned by its operator, from a fresh
    manager on: through failures of the node and of IPFS at any step, transactions that are not
    taken, that are mined late, after others, reverted or without a confirmation, rounds of
    verification, claims and the transactions of others.  The exceptions are a CID of which an
    unpinning failed at the contract, and a collision of SHA-256.  Nobody else registers pins,
    and the sizes stay below the 256 bits of the contract. *)
Theorem tracked_pins_owned (config : PinningConfig) (w : PinWorld) (ops : list ManagerOp) (cid : string) (i : PinInfo) :
  fresh w ops → Forall (undisturbed (w_operator w)) ops →
  let m0 := (manager_new config w None).1 in
  let m := foldl manager_step m0 ops in
  mg_pins m !! cid = Some i → if_is_active i = true →
  owned (mg_world m) cid ∨ unpin_failed cid m0 ops = true ∨ collision.
Proof.
  intros Hw Hops m0 m Hi Ha. pose proof (tracked_run _ ops _ m0 Hops (tracked_new config w ops Hw)) as [_ Hp _ _ _].
  destruct (Hp cid i Hi Ha) as [|[[[]|]|]]; auto.
Qed.

End Tracking.

(** ** Witnesses *)
Module PinningWitness.
Import Toy PinningRewardsWitness.

Definition world0 : PinWorld := {|
  w_chain := start; w_time := 100; w_operator := 2; w_transfers := true; w_rpc_up := true; w_mempool := []; w_fates := [];
  w_ipfs := ∅; w_ipfs_up := true |}.

Definition manager0 : Manager := (manager_new default_pinning_config world0 None).1.
Definition manager1 : Manager := (pin_package 5 true "a" 10 manager0).1.
Definition manager2 : Manager := (pin_package 6 true "b" 20 manager1).1.

Lemma proof_hash_binds_witness : ("a" = "a" ∧ true = true ∧ 5%N = 5%N ∧ 1%N = 1%N) ∨ collision.
Proof. by apply (proof_hash_binds "a" "a" true true 5 5 1 1). Defined.

Definition unpinned : Manager := (unpin_package true "a" manager1).1.

Lemma repin_does_nothing_witness :
  pin_package 9 true "a" 10 unpinned = (unpinned, Ok tt) ∧ ("a" ∉ w_ipfs (mg_world unpinned)) ∧ ¬ owned (mg_world unpinned) "a".
Proof.
  destruct (mg_pins manager1 !! "a") as [i|] eqn:Hi; [|by vm_compute in Hi].
  destruct (repin_does_nothing 9 true true "a" 10 i manager1 unpinned Hi) as (H1 & H2 & H3); [by vm_compute|].
  split_and!; [exact H1|exact H2|]. apply H3. by vm_compute.
Defined.

(** After a restart without a state file. *)
Definition restarted : Manager := (manager_new default_pinning_config (mg_world manager1) None).1.

Lemma forgotten_pin_blocks_witness : (pin_package 9 true "a" 10 restarted).2 ≠ Ok tt.
Proof. apply (forgotten_pin_blocks 9 true "a" 10 restarted); [by vm_compute|split; by vm_compute]. Defined.

(** The operator verifies: of two pins one is recorded. *)
Definition verifier_world : PinWorld := {|
  w_chain := run_calls (rewards_deployed 1) [(0, 1, CallRegisterPinner MIN_STAKE)]%N; w_time := 5000; w_operator := 1; w_transfers := true;
  w_rpc_up := true; w_mempool := []; w_fates := []; w_ipfs := ∅; w_ipfs_up := true |}.
Definition verifier0 : Manager := (manager_new default_pinning_config verifier_world None).1.
Definition verifier2 : Manager := (pin_package 6 true "b" 20 (pin_package 5 true "a" 10 verifier0).1).1.
Definition found (cid : string) : option VerificationResult :=
  Some (verify_with_timeout (λ _, None) cid 7 3 (Some (true, "")) None).

Lemma round_records_once_witness :
  (on_chain (run_verification 8 found verifier2) ≤ 1)%nat ∧ counted (run_verification 8 found verifier2) = 2%N.
Proof.
  destruct (round_records_once 8 found verifier2) as (H1 & _ & H2); [by vm_compute..|]. split; [exact H1|].
  rewrite H2 by (by vm_compute). by vm_compute.
Defined.

Example one_recorded : on_chain (run_verification 8 found verifier2) = 1.
Proof. by vm_compute. Qed.

Definition unconfirmed (meanwhile : list MinedTx) : Fate :=
  {| ft_taken := true; ft_meanwhile := meanwhile; ft_mined := Some 300%N; ft_confirmed := false |}.

Definition confirmed (meanwhile : list MinedTx) : Fate :=
  {| ft_taken := true; ft_meanwhile := meanwhile; ft_mined := Some 211%N; ft_confirmed := true |}.

(** Pins of "a" and "b"; the unpinning of "b" is mined without its confirmation, and the one of "c" is
    refused before it is sent. *)
Definition ops0 : list ManagerOp :=
  [OpPin 5 "a" 10 true;
   OpEnvironment 200 true true [confirmed [MinedOther 210 true 3 (CallFund 5)];
                                unconfirmed [MinedOther 290 true 3 (CallReportAccess (cid_to_bytes32 "a"))]] ∅ true;
   OpPin 6 "b" 20 true; OpUnpin "b" true; OpUnpin "c" true; OpEnvironment 90000 true true [] ∅ true; OpVerify 7 found].

Definition manager_end : Manager := foldl manager_step manager0 ops0.

Lemma tracked_pins_owned_witness : owned (mg_world manager_end) "a" ∨ collision.
Proof.
  destruct (mg_pins manager_end !! "a") as [i|] eqn:Hi; [|by vm_compute in Hi].
  destruct (tracked_pins_owned default_pinning_config world0 ops0 "a" i) as [H|[H|H]]; [| |exact Hi| |by left| |by right].
  - split_and!; [done|by apply Forall_nil|by vm_compute].
  - repeat constructor; done.
  - vm_compute in Hi. by injection Hi as <-.
  - by vm_compute in H.
Defined.

Example b_in_doubt :
  if_is_active <$> mg_pins manager_end !! "b" = Some true ∧ unpin_failed "b" manager0 ops0 = true.
Proof. by vm_compute. Qed.

Definition manager3 : Manager := with_world manager1 (with_fates (mg_world manager1) [unconfirmed []]).

Lemma unconfirmed_unpin_stays_active_witness :
  let m' := (unpin_package true "a" manager3).1 in
  if_is_active <$> mg_pins m' !! "a" = Some true ∧ ¬ owned (mg_world m') "a" ∧ (unpin_package true "a" m').2 = Err ContractFailed.
Proof.
  destruct (unconfirmed_unpin_stays_active true true 300 [] "a" manager3) as (_ & Hp & _ & Ho & Hu); [by vm_compute..|].
  cbv zeta. rewrite Hp. split_and!; [by vm_compute|exact Ho|exact Hu].
Defined.

End PinningWitness.
