(* ===== verification/Osv.v ===== *)
(** Known vulnerabilities (crates/ml-validator/src/osv_client.rs, osv_snapshot.rs and the command
    that builds a snapshot, cli/src/osv_snapshot.rs).

    The client of OSV.dev with its cache, the pinned snapshot file with the process's copy of it,
    the lookups of validators and of tools, and the builder.  The server is a function from the
    number of the request to its answer, a disk a function from paths to files, the cache of the
    [lru] crate and the JSON of a snapshot are interfaces. *)

From S2P Require Import Prelude Text Types Risk StaticAnalysis Json.
From Stdlib Require Import Ascii NArith.

(** ** Interfaces *)

(** [lru::LruCache<String, OsvResult>]; [lru_view] is what it holds. *)
Class Lru := {
  LruCache : Type;
  lru_new : LruCache;                                             (* capacity MAX_CACHE_SIZE *)
  lru_get : string → LruCache → LruCache * option OsvResult;
  lru_put : string → OsvResult → LruCache → LruCache;
  lru_view : LruCache → gmap string OsvResult;
}.

(** Reading returns what is held and only changes the order of eviction; writing keeps the new entry
    and may drop others. *)
Class LruLaws `{Lru} : Prop := {
  lru_new_view : lru_view lru_new = ∅;
  lru_get_value : ∀ k c, (lru_get k c).2 = lru_view c !! k;
  lru_get_view : ∀ k c, lru_view (lru_get k c).1 = lru_view c;
  lru_put_new : ∀ k v c, lru_view (lru_put k v c) !! k = Some v;
  lru_put_view : ∀ k v c, lru_view (lru_put k v c) ⊆ <[k := v]> (lru_view c);
}.

Record OsvSnapshot := {
  sn_epoch : string; sn_schema : string; sn_source : string; sn_built_at : string;
  sn_entries : gmap string (list OsvVulnerability);
}.

(** [serde_json] on snapshots. *)
Class SnapshotJson := {
  snapshot_from_json : string → option OsvSnapshot;
  snapshot_to_json : OsvSnapshot → string;
}.

Class SnapshotJsonLaws `{SnapshotJson} : Prop := {
  snapshot_json_roundtrip : ∀ s, snapshot_from_json (snapshot_to_json s) = Some s;
}.

(** ** osv_client.rs *)

Record PackageInfo := { pi_name : string; pi_version : string; pi_ecosystem : string }.

#[export] Instance PackageInfo_eq_dec : EqDecision PackageInfo.
Proof. solve_decision. Defined.

Definition unavailable : OsvResult := {| queried := false; vulnerabilities := [] |}.

Record OsvVuln := { ov_id : string; ov_summary : option string; ov_database_specific : option Value }.

(** What a request ends in: no client or no answer, another status than success, a body that is not
    an [OsvResponse], or its vulnerabilities. *)
Inductive OsvReply := OsvUnreachable | OsvStatus | OsvUndecodable | OsvVulns (l : list OsvVuln).

Record OsvQuery := { oq_name : string; oq_ecosystem : string; oq_version : string }.

Section Client.
Context `{!Std}.

Definition map_ecosystem (ecosystem : string) : string :=
  let lower := to_lowercase ecosystem in
  let one_of l := bool_decide (lower ∈ (l : list string)) in
  if one_of ["npm"] then "npm"
  else if one_of ["pypi"; "python"] then "PyPI"
  else if one_of ["crates.io"; "cargo"; "rust"] then "crates.io"
  else if one_of ["go"; "golang"] then "Go"
  else if one_of ["maven"; "java"] then "Maven"
  else if one_of ["rubygems"; "ruby"] then "RubyGems"
  else if one_of ["nuget"; "dotnet"] then "NuGet"
  else if one_of ["packagist"; "php"] then "Packagist"
  else ecosystem.

Definition cache_key (info : PackageInfo) : string :=
  map_ecosystem (pi_ecosystem info) +:+ ":" +:+ pi_name info +:+ "@" +:+ pi_version info.

Definition query_body (info : PackageInfo) : OsvQuery :=
  {| oq_name := pi_name info; oq_ecosystem := map_ecosystem (pi_ecosystem info); oq_version := pi_version info |}.

(** [db.get("severity").and_then(as_str)] *)
Definition severity_of (db : option Value) : option string :=
  match db with
  | Some (VObject m) => match entry_of "severity" m with Some (VString s) => Some s | _ => None end
  | _ => None
  end.

Definition vulnerability_of (v : OsvVuln) : OsvVulnerability :=
  {| osv_id := ov_id v; osv_summary := default "No summary" (ov_summary v); osv_severity := severity_of (ov_database_specific v) |}.

Definition result_of_reply (r : OsvReply) : OsvResult :=
  match r with
  | OsvVulns l => {| queried := true; vulnerabilities := vulnerability_of <$> l |}
  | OsvStatus => {| queried := true; vulnerabilities := [] |}
  | OsvUnreachable | OsvUndecodable => unavailable
  end.

Context `{!Lru}.

(** The cache and the number of requests made. *)
Record OsvClient := { oc_cache : LruCache; oc_requests : nat }.

Definition osv_disabled (env : string → option string) : bool :=
  String.eqb (default "" (env "CREG_OSV_DISABLED")) "true".

Definition query (env : string → option string) (api : nat → OsvQuery → OsvReply) (info : PackageInfo) (c : OsvClient)
    : OsvClient * OsvResult :=
  if osv_disabled env then (c, unavailable)
  else
    let key := cache_key info in
    match lru_get key (oc_cache c) with
    | (cache, Some cached) => ({| oc_cache := cache; oc_requests := oc_requests c |}, cached)
    | (cache, None) =>
        let result := result_of_reply (api (oc_requests c) (query_body info)) in
        ({| oc_cache := lru_put key result cache; oc_requests := S (oc_requests c) |}, result)
    end.

(** ** osv_snapshot.rs *)

Definition DEFAULT_SNAPSHOT_PATH : string := "data/osv_snapshot.json".
Definition SCHEMA_V1 : string := "creg-osv-snapshot-v1".

Definition osv_consensus_enabled (env : string → option string) : bool := env_truthy env "CREG_OSV_CONSENSUS".

Definition osv_block_critical_enabled (env : string → option string) : bool :=
  env_truthy env "CREG_OSV_BLOCK_CRITICAL" && osv_consensus_enabled env.

Definition osv_live_fallback_enabled (env : string → option string) : bool := env_truthy env "CREG_OSV_LIVE_FALLBACK".

Definition bundle_epoch (env : string → option string) : string :=
  if negb (osv_consensus_enabled env) then "osv-off" else env_or env "CREG_OSV_SNAPSHOT_EPOCH" "osv-epoch-0".

Definition snapshot_path (env : string → option string) : string :=
  default DEFAULT_SNAPSHOT_PATH (env "CREG_OSV_SNAPSHOT_PATH").

(** The components of a path, which decide whether two are equal; a dot counts at the start only. *)
Definition components (s : string) : bool * list string :=
  let parts := split "/" s in
  let rest := filter (λ c, c ≠ "" ∧ c ≠ ".") in
  (starts_with "/" s, match parts with "." :: l => "." :: rest l | l => rest l end).

(** A file: the time of its last change, when the system has it, and its text, when it can be read. *)
Record DiskFile := { df_mtime : option Z; df_text : option string }.

Definition file_mtime (disk : string → option DiskFile) (path : string) : option Z := disk path ≫= df_mtime.

Context `{!SnapshotJson}.

Definition load_snapshot_from_disk (disk : string → option DiskFile) (path expected_epoch : string) : option OsvSnapshot :=
  file ← disk path; text ← df_text file; snapshot ← snapshot_from_json text;
  if negb (String.eqb (sn_epoch snapshot) expected_epoch) then None
  else if negb (String.eqb (sn_schema snapshot) SCHEMA_V1) then None
  else Some snapshot.

Record SnapshotCache := {
  sc_path : string; sc_epoch : string; sc_mtime : option Z; sc_snapshot : option OsvSnapshot }.

Definition empty_snapshot_cache : SnapshotCache := {| sc_path := ""; sc_epoch := ""; sc_mtime := None; sc_snapshot := None |}.

(** The time is read before the file: [stat] and [disk] are the disk at the two moments. *)
Definition loaded_snapshot (env : string → option string) (stat disk : string → option DiskFile) (cache : SnapshotCache)
    : SnapshotCache * option OsvSnapshot :=
  if negb (osv_consensus_enabled env) then (cache, None)
  else
    let path := snapshot_path env in
    let epoch := bundle_epoch env in
    let mtime := file_mtime stat path in
    let cache_valid := bool_decide (is_Some (sc_snapshot cache)) && bool_decide (components (sc_path cache) = components path) &&
                       String.eqb (sc_epoch cache) epoch && bool_decide (sc_mtime cache = mtime) in
    if cache_valid then (cache, sc_snapshot cache)
    else
      let snapshot := load_snapshot_from_disk disk path epoch in
      ({| sc_path := path; sc_epoch := epoch; sc_mtime := mtime; sc_snapshot := snapshot |}, snapshot).

Definition snapshot_available (env : string → option string) (stat disk : string → option DiskFile) (cache : SnapshotCache)
    : SnapshotCache * bool :=
  if negb (osv_consensus_enabled env) then (cache, false)
  else let '(cache, s) := loaded_snapshot env stat disk cache in (cache, bool_decide (is_Some s)).

Definition lookup_in_snapshot (snapshot : OsvSnapshot) (info : PackageInfo) : OsvResult :=
  {| queried := true; vulnerabilities := default [] (sn_entries snapshot !! cache_key info) |}.

Definition lookup_pinned (env : string → option string) (stat disk : string → option DiskFile) (info : PackageInfo)
    (cache : SnapshotCache) : SnapshotCache * OsvResult :=
  if negb (osv_consensus_enabled env) then (cache, unavailable)
  else
    let '(cache, loaded) := loaded_snapshot env stat disk cache in
    match loaded with
    | Some snapshot => (cache, lookup_in_snapshot snapshot info)
    | None => (cache, unavailable)
    end.

Record OsvState := { os_snapshots : SnapshotCache; os_client : OsvClient }.

Definition live (env : string → option string) (api : nat → OsvQuery → OsvReply) (info : PackageInfo) (st : OsvState)
    : OsvState * OsvResult :=
  let '(c, r) := query env api info (os_client st) in ({| os_snapshots := os_snapshots st; os_client := c |}, r).

Definition lookup_advisory (env : string → option string) (api : nat → OsvQuery → OsvReply)
    (stat disk : string → option DiskFile) (info : PackageInfo) (st : OsvState) : OsvState * OsvResult :=
  let enabled := osv_consensus_enabled env in
  let fallback := osv_live_fallback_enabled env in
  let '(st, early) :=
    if enabled then
      let '(cache, pinned) := lookup_pinned env stat disk info (os_snapshots st) in
      ({| os_snapshots := cache; os_client := os_client st |},
       if queried pinned then
         if negb (bool_decide (vulnerabilities pinned = [])) || negb fallback then Some pinned else None
       else if negb fallback then Some pinned else None)
    else (st, None) in
  match early with
  | Some pinned => (st, pinned)
  | None => if fallback || negb enabled then live env api info st else (st, unavailable)
  end.

(** ** The builder *)

Definition parse_package_line (line : string) : option PackageInfo :=
  let line := trim line in
  if is_empty line || starts_with "#" line then None
  else
    '(ecosystem, rest) ← split_once ":" line;
    '(name, version) ← rsplit_once "@" rest;
    if is_empty ecosystem || is_empty name || is_empty version then None
    else Some {| pi_name := name; pi_version := version; pi_ecosystem := ecosystem |}.

Inductive BuildError := EmptyEpoch | UnreadableList | NoPackages | OutputFailed.

(** One round of the loop. *)
Definition build_step (env : string → option string) (api : nat → OsvQuery → OsvReply)
    (acc : OsvClient * gmap string (list OsvVulnerability)) (info : PackageInfo)
    : OsvClient * gmap string (list OsvVulnerability) :=
  let '(c, result) := query env api info acc.1 in
  (c, if queried result && negb (bool_decide (vulnerabilities result = []))
      then <[cache_key info := vulnerabilities result]> acc.2 else acc.2).

(** The lines of the file of packages and of the standard input, [None] when they cannot be read. *)
Definition package_keys (packages_file : option (option (list string))) (inline : list string) (stdin : option (list string))
    : result BuildError (list PackageInfo) :=
  from_file ← match packages_file with
              | Some file => ok_or UnreadableList file
              | None => Ok []
              end;
  let keys := omap parse_package_line from_file ++ omap parse_package_line inline in
  keys ← match keys, packages_file with
         | [], None => omap parse_package_line <$> ok_or UnreadableList stdin
         | _, _ => Ok keys
         end;
  match keys with [] => Err NoPackages | _ => Ok keys end.

(** The snapshot that [run_build] writes; [write_ok] is the outcome of writing it. *)
Definition run_build (env : string → option string) (api : nat → OsvQuery → OsvReply) (epoch : string)
    (packages_file : option (option (list string))) (inline : list string) (stdin : option (list string))
    (built_at : string) (write_ok : bool) (c : OsvClient) : result BuildError string :=
  let epoch := trim epoch in
  if is_empty epoch then Err EmptyEpoch
  else
    keys ← package_keys packages_file inline stdin;
    let entries := (foldl (build_step env api) (c, ∅) keys).2 in
    let json := snapshot_to_json {| sn_epoch := epoch; sn_schema := SCHEMA_V1; sn_source := "creg osv-snapshot build";
                                    sn_built_at := built_at; sn_entries := entries |} in
    if write_ok then Ok json else Err OutputFailed.

(** ** The summary for the language model (validator/src/intelligence/mod.rs) *)

Definition info_of (id : PackageId) : PackageInfo :=
  {| pi_name := name id; pi_version := version id; pi_ecosystem := ecosystem id |}.

Definition summarize_osv_advisories (env : string → option string) (api : nat → OsvQuery → OsvReply)
    (stat disk : string → option DiskFile) (id : PackageId) (st : OsvState) : OsvState * string :=
  let '(st, result) := lookup_advisory env api stat disk (info_of id) st in
  (st,
   if negb (queried result) then
     "OSV advisory lookup unavailable (set CREG_OSV_LIVE_FALLBACK or enable pinned snapshot)"
   else if bool_decide (vulnerabilities result = []) then
     "No known OSV advisories for " +:+ canonical id +:+ " (live fallback=" +:+
     fmt_bool (osv_live_fallback_enabled env) +:+ ")"
   else
     fmt_N (N.of_nat (length (vulnerabilities result))) +:+ " OSV advisories for " +:+ canonical id +:+ ": " +:+
     join ", " (osv_id <$> take 6 (vulnerabilities result))).

(** The calls of [loaded_snapshot] by one process, each at a state of the disk. *)
Fixpoint snapshots_seen (env : string → option string) (disks : list (string → option DiskFile)) (cache : SnapshotCache)
    : list (option OsvSnapshot) :=
  match disks with
  | [] => []
  | d :: disks' => let '(cache, s) := loaded_snapshot env d d cache in s :: snapshots_seen env disks' cache
  end.

(** The findings of a validator that reads a fresh copy of the snapshot. *)
Definition validator_osv_findings (env : string → option string) (disk : string → option DiskFile)
    (name version ecosystem : string) : list Finding :=
  pinned_osv_findings (osv_consensus_enabled env)
    (λ n v e, (lookup_pinned env disk disk {| pi_name := n; pi_version := v; pi_ecosystem := e |} empty_snapshot_cache).2)
    name version ecosystem.

End Client.

(** ** Properties *)

Section Properties.
Context `{SD : !Std, LR : !Lru, LL : !LruLaws, SJ : !SnapshotJson, SL : !SnapshotJsonLaws}.

(** *** The client *)

(** What the server says about a package when it answers everyone alike. *)
Definition answer_of (api : OsvQuery → OsvReply) (info : PackageInfo) : OsvResult := result_of_reply (api (query_body info)).

(** The packages that the builder reads: no colon in the ecosystem, no at-sign in the version. *)
Definition plain_info (info : PackageInfo) : Prop :=
  free_of ":" (pi_ecosystem info) = true ∧ free_of "@" (pi_version info) = true.

(** What the cache holds for plain packages is what the server says. *)
Definition cache_sound (api : OsvQuery → OsvReply) (c : OsvClient) : Prop :=
  ∀ info r, plain_info info → lru_view (oc_cache c) !! cache_key info = Some r → r = answer_of api info.

Lemma map_ecosystem_free (e : string) : free_of ":" e = true → free_of ":" (map_ecosystem e) = true.
Proof. intros He. unfold map_ecosystem. by repeat case_bool_decide. Qed.

Lemma cache_key_body (i j : PackageInfo) :
  plain_info i → plain_info j → cache_key i = cache_key j → query_body i = query_body j.
Proof.
  intros [Hi1 Hi2] [Hj1 Hj2]. unfold cache_key, query_body. intros Heq.
  change (":" +:+ ?x) with (String ":" x) in Heq.
  apply sep_split_l in Heq as [He Hr]; [|by apply map_ecosystem_free..].
  apply sep_split_r in Hr as [Hn Hv]; [|done..]. by rewrite He, Hn, Hv.
Qed.

Lemma empty_cache_sound (api : OsvQuery → OsvReply) (n : nat) : cache_sound api {| oc_cache := lru_new; oc_requests := n |}.
Proof. intros info r _. cbn [oc_cache]. by rewrite lru_new_view, lookup_empty. Qed.

Lemma query_sound (env : string → option string) (api : OsvQuery → OsvReply) (info : PackageInfo) (c : OsvClient) :
  osv_disabled env = false → plain_info info → cache_sound api c →
  (query env (λ _, api) info c).2 = answer_of api info ∧ cache_sound api (query env (λ _, api) info c).1.
Proof.
  intros Hd Hi Hc. unfold query. rewrite Hd.
  pose proof (lru_get_value (cache_key info) (oc_cache c)) as Hv. pose proof (lru_get_view (cache_key info) (oc_cache c)) as Hw.
  destruct (lru_get (cache_key info) (oc_cache c)) as [cache [r|]]; cbn in Hv, Hw |- *.
  - split; [by eapply Hc|]. intros j r' Hj. cbn [oc_cache]. rewrite Hw. by apply Hc.
  - split; [done|]. intros j r' Hj Hl. cbn [oc_cache] in Hl.
    pose proof (lookup_weaken _ _ _ _ Hl (lru_put_view _ _ _)) as Hl'. rewrite Hw in Hl'.
    destruct (decide (cache_key info = cache_key j)) as [Hk|Hk].
    + rewrite Hk, lookup_insert_eq in Hl'. injection Hl' as <-. unfold answer_of. by rewrite (cache_key_body info j).
    + rewrite lookup_insert_ne in Hl' by done. by eapply Hc.
Qed.

(** An answer is kept, a failure as well: the next query for the package makes no request. *)
Theorem failure_is_cached (env : string → option string) (api : nat → OsvQuery → OsvReply) (info : PackageInfo) (c : OsvClient) :
  osv_disabled env = false → lru_view (oc_cache c) !! cache_key info = None →
  api (oc_requests c) (query_body info) = OsvUnreachable →
  let c1 := (query env api info c).1 in
  (query env api info c).2 = unavailable ∧ oc_requests c1 = S (oc_requests c) ∧
  (query env api info c1).2 = unavailable ∧ oc_requests (query env api info c1).1 = oc_requests c1.
Proof.
  intros Hd Hn Ha. unfold query at 1 2 3. rewrite Hd.
  pose proof (lru_get_value (cache_key info) (oc_cache c)) as Hv.
  destruct (lru_get (cache_key info) (oc_cache c)) as [cache r]; cbn in Hv. rewrite Hn in Hv. subst r.
  rewrite Ha. cbn [fst snd result_of_reply oc_requests]. do 2 (split; [done|]).
  unfold query. rewrite Hd. cbn [oc_cache].
  pose proof (lru_get_value (cache_key info) (lru_put (cache_key info) unavailable cache)) as Hv.
  destruct (lru_get (cache_key info) (lru_put (cache_key info) unavailable cache)) as [cache' r]; cbn in Hv.
  rewrite lru_put_new in Hv. by subst r.
Qed.

(** *** The copy of the snapshot *)

(** A snapshot that cannot be used is looked for again by every lookup. *)
Lemma loaded_none_retried (env : string → option string) (d : string → option DiskFile) (cache : SnapshotCache) :
  osv_consensus_enabled env = true → sc_snapshot cache = None →
  loaded_snapshot env d d cache =
  ({| sc_path := snapshot_path env; sc_epoch := bundle_epoch env; sc_mtime := file_mtime d (snapshot_path env);
      sc_snapshot := load_snapshot_from_disk d (snapshot_path env) (bundle_epoch env) |},
   load_snapshot_from_disk d (snapshot_path env) (bundle_epoch env)).
Proof. intros He Hn. unfold loaded_snapshot. rewrite He, Hn. done. Qed.

(** Two disks where a file with the same time of change is the same file. *)
Definition same_times_same_files (d d' : string → option DiskFile) : Prop :=
  ∀ p, file_mtime d p = file_mtime d' p → d p = d' p.

(** Spellings of a path that are equal name the same file. *)
Definition disk_proper (d : string → option DiskFile) : Prop := ∀ p q, components p = components q → d p = d q.

(** The copy, if there is one, is what loading its path from the disk [d] gave. *)
Definition copy_of (d : string → option DiskFile) (cache : SnapshotCache) : Prop :=
  ∀ s, sc_snapshot cache = Some s →
    load_snapshot_from_disk d (sc_path cache) (sc_epoch cache) = Some s ∧ sc_mtime cache = file_mtime d (sc_path cache).

Lemma loaded_copy (env : string → option string) (d d' : string → option DiskFile) (cache : SnapshotCache) :
  osv_consensus_enabled env = true → disk_proper d → disk_proper d' → same_times_same_files d' d → copy_of d cache →
  (loaded_snapshot env d' d' cache).2 = load_snapshot_from_disk d' (snapshot_path env) (bundle_epoch env) ∧
  (copy_of d (loaded_snapshot env d' d' cache).1 ∨ copy_of d' (loaded_snapshot env d' d' cache).1).
Proof.
  intros He Hp Hp' Hs Hc. unfold loaded_snapshot. rewrite He. cbn [negb].
  destruct (_ && bool_decide (sc_mtime cache = _)) eqn:Hv.
  - apply andb_true_iff in Hv as [[[[s Hsn]%bool_decide_eq_true Hpath%bool_decide_eq_true]%andb_true_iff Hep%String.eqb_eq]%andb_true_iff
      Hm%bool_decide_eq_true].
    destruct (Hc s Hsn) as [Hl Hmt]. cbn [fst snd]. split; [|by left]. rewrite Hsn, <- Hl, Hep.
    unfold load_snapshot_from_disk. assert (d (sc_path cache) = d' (snapshot_path env)) as ->; [|done].
    rewrite (Hp _ _ Hpath). symmetry. apply Hs. rewrite <- Hm, Hmt. unfold file_mtime. by rewrite (Hp _ _ Hpath).
  - cbn [fst snd]. split; [done|]. right. intros s. by cbn.
Qed.

(** The copy that a process keeps is invisible: whatever the disk goes through, each lookup sees what
    the file says at that moment, as long as a change of the file changes its time. *)
Theorem snapshot_cache_transparent (env : string → option string) (disks : list (string → option DiskFile)) :
  osv_consensus_enabled env = true → Forall disk_proper disks →
  (∀ d d', d ∈ disks → d' ∈ disks → same_times_same_files d d') →
  snapshots_seen env disks empty_snapshot_cache =
  (λ d, load_snapshot_from_disk d (snapshot_path env) (bundle_epoch env)) <$> disks.
Proof.
  intros He Hp Hs.
  assert (∀ l cache, l ⊆ disks → (∃ d, d ∈ disks ∧ copy_of d cache) ∨ sc_snapshot cache = None →
    snapshots_seen env l cache = (λ d, load_snapshot_from_disk d (snapshot_path env) (bundle_epoch env)) <$> l) as H.
  2: { apply H; [done|by right]. }
  induction l as [|d' l IH]; intros cache Hl Hc; [done|]. cbn [snapshots_seen].
  rewrite Forall_forall in Hp. assert (d' ∈ disks) as Hd' by set_solver.
  assert (∃ d, d ∈ disks ∧ copy_of d cache) as (d & Hd & Hcopy).
  { destruct Hc as [Hc|Hc]; [done|]. exists d'. split; [done|]. intros s. by rewrite Hc. }
  destruct (loaded_copy env d d' cache) as [Hval Hcop]; [by auto..|].
  destruct (loaded_snapshot env d' d' cache) as [cache' s]; cbn [fst snd] in *.
  rewrite fmap_cons, Hval. f_equal. apply IH; [set_solver|]. left. naive_solver.
Qed.

(** Without that, a file replaced in the same tick of the clock, or on a system that has no such
    time, is not read again. *)
Theorem snapshot_stale (env : string → option string) (d d' : string → option DiskFile) (s : OsvSnapshot) :
  osv_consensus_enabled env = true → load_snapshot_from_disk d (snapshot_path env) (bundle_epoch env) = Some s →
  file_mtime d (snapshot_path env) = file_mtime d' (snapshot_path env) →
  snapshots_seen env [d; d'] empty_snapshot_cache = [Some s; Some s].
Proof.
  intros He Hl Hm. cbn [snapshots_seen]. rewrite loaded_none_retried, Hl by done. f_equal.
  unfold loaded_snapshot. rewrite He. cbn [negb sc_snapshot sc_path sc_epoch sc_mtime].
  by rewrite String.eqb_refl, !bool_decide_eq_true_2.
Qed.

(** *** The findings of validators *)

Lemma validator_osv_findings_loaded (env : string → option string) (disk : string → option DiskFile) (n v e : string)
    (s : OsvSnapshot) :
  osv_consensus_enabled env = true → is_empty (trim n) = false →
  load_snapshot_from_disk disk (snapshot_path env) (bundle_epoch env) = Some s →
  validator_osv_findings env disk n v e =
  osv_finding <$> take 8 (vulnerabilities (lookup_in_snapshot s
    {| pi_name := n; pi_version := if is_empty (trim v) then "0.0.0" else v; pi_ecosystem := e |})).
Proof.
  intros He Hn Hl. unfold validator_osv_findings, pinned_osv_findings, lookup_pinned. rewrite He, Hn. cbn [negb orb].
  by rewrite loaded_none_retried, Hl by done.
Qed.

Lemma validator_osv_findings_missing (env : string → option string) (disk : string → option DiskFile) (n v e : string) :
  osv_consensus_enabled env = true → is_empty (trim n) = false →
  load_snapshot_from_disk disk (snapshot_path env) (bundle_epoch env) = None →
  finding_id <$> validator_osv_findings env disk n v e = ["OSV001"].
Proof.
  intros He Hn Hl. unfold validator_osv_findings, pinned_osv_findings, lookup_pinned. rewrite He, Hn. cbn [negb orb].
  by rewrite loaded_none_retried, Hl by done.
Qed.

(** The epoch on a vote does not say which advisories were read: a validator without the file signs
    the same bundles as one that has it, and two files of one epoch may differ. *)
Theorem epoch_binds_no_content (env : string → option string) (disk disk' : string → option DiskFile) (n v e : string)
    (s : OsvSnapshot) :
  osv_consensus_enabled env = true → is_empty (trim n) = false →
  load_snapshot_from_disk disk (snapshot_path env) (bundle_epoch env) = Some s →
  load_snapshot_from_disk disk' (snapshot_path env) (bundle_epoch env) = None →
  osv_snapshot_epoch (current_bundles env (bundle_epoch env)) = sn_epoch s ∧
  finding_id <$> validator_osv_findings env disk' n v e = ["OSV001"] ∧
  "OSV001" ∉ finding_id <$> validator_osv_findings env disk n v e.
Proof.
  intros He Hn Hl Hl'. split_and!.
  - unfold load_snapshot_from_disk in Hl. apply bind_Some in Hl as (? & _ & Hl). apply bind_Some in Hl as (? & _ & Hl). apply bind_Some in Hl as (sn & _ & Hx).
    destruct (String.eqb_spec (sn_epoch sn) (bundle_epoch env)) as [Heq|]; [|done]. cbn in Hx.
    destruct (String.eqb _ _); [|done]. injection Hx as <-. by rewrite Heq.
  - by apply validator_osv_findings_missing.
  - rewrite (validator_osv_findings_loaded _ _ _ _ _ _ He Hn Hl). rewrite list_elem_of_fmap.
    intros (f & Hf & (vuln & -> & _)%list_elem_of_fmap). revert Hf. unfold osv_finding, osv_finding_class.
    by repeat case_match; simplify_eq.
Qed.

(** *** The builder *)

Lemma parse_package_line_plain (line : string) (info : PackageInfo) : parse_package_line line = Some info → plain_info info.
Proof.
  unfold parse_package_line. case_match; [done|].
  destruct (split_once ":" (trim line)) as [[e rest]|] eqn:He; [|done]. apply split_once_Some in He as [_ He]. cbn [mbind option_bind].
  destruct (rsplit_once "@" rest) as [[n v]|] eqn:Hv; [|done]. apply rsplit_once_Some in Hv as [_ Hv]. cbn.
  case_match; [done|]. by intros [= <-].
Qed.

(** A canonical identifier is read back, for the packages whose parts can be told apart. *)
Theorem package_line_roundtrip (id : PackageId) :
  separable id = true → trim (canonical id) = canonical id → starts_with "#" (ecosystem id) = false →
  ecosystem id ≠ "" → name id ≠ "" → version id ≠ "" → parse_package_line (canonical id) = Some (info_of id).
Proof.
  intros [Hs1 Hs2]%andb_true_iff Ht Hh He Hn Hv. unfold parse_package_line. rewrite Ht. unfold canonical in *.
  destruct (ecosystem id) as [|c e] eqn:Heco; [done|].
  assert (starts_with "#" (String c e +:+ ":" +:+ name id +:+ "@" +:+ version id) = false) as ->.
  { revert Hh. unfold starts_with. simpl. by destruct c as [[] [] [] [] [] [] [] []]. }
  cbn [is_empty orb]. rewrite <- Heco in *. change (":" +:+ ?x) with (String ":" x). rewrite split_once_app by done.
  cbn [mbind option_bind]. change ("@" +:+ ?x) with (String "@" x). rewrite rsplit_once_app by done. cbn.
  unfold info_of. by destruct (ecosystem id), (name id), (version id).
Qed.

Lemma answer_vulnerabilities (api : OsvQuery → OsvReply) (info : PackageInfo) :
  queried (answer_of api info) = false → vulnerabilities (answer_of api info) = [].
Proof. unfold answer_of. by destruct (api _). Qed.

(** What a process may have entered for plain packages: nothing, or what the server says. *)
Definition entered (api : OsvQuery → OsvReply) (m : gmap string (list OsvVulnerability)) (i : PackageInfo) : Prop :=
  default [] (m !! cache_key i) = vulnerabilities (answer_of api i).

Lemma build_step_entered (env : string → option string) (api : OsvQuery → OsvReply) (c : OsvClient)
    (m : gmap string (list OsvVulnerability)) (k : PackageInfo) :
  osv_disabled env = false → plain_info k → cache_sound api c → m !! cache_key k = None ∨ entered api m k →
  cache_sound api (build_step env (λ _, api) (c, m) k).1 ∧
  entered api (build_step env (λ _, api) (c, m) k).2 k ∧
  (∀ i, plain_info i → m !! cache_key i = None ∨ entered api m i →
     (entered api m i → entered api (build_step env (λ _, api) (c, m) k).2 i) ∧
     ((build_step env (λ _, api) (c, m) k).2 !! cache_key i = None ∨ entered api (build_step env (λ _, api) (c, m) k).2 i)).
Proof.
  intros Hd Hk Hc Hmk. unfold build_step. cbn [fst snd]. destruct (query_sound env api k c Hd Hk Hc) as [Hr Hc'].
  destruct (query env (λ _, api) k c) as [c' r]; cbn [fst snd] in *. subst r. split; [done|].
  destruct (queried (answer_of api k) && _) eqn:Hq.
  - split; [unfold entered; by rewrite lookup_insert_eq|]. intros i Hi Hmi. unfold entered.
    destruct (decide (cache_key k = cache_key i)) as [He|He].
    + rewrite <- He, lookup_insert_eq. unfold answer_of. rewrite (cache_key_body k i) by done. eauto.
    + by rewrite lookup_insert_ne.
  - split; [|eauto]. unfold entered in *. destruct Hmk as [Hmk|Hmk]; [|done]. rewrite Hmk. cbn.
    apply andb_false_iff in Hq as [Hq|Hq]; [by rewrite answer_vulnerabilities|].
    by apply negb_false_iff, bool_decide_eq_true in Hq.
Qed.

Lemma build_entries (env : string → option string) (api : OsvQuery → OsvReply) (keys : list PackageInfo)
    (c : OsvClient) (m : gmap string (list OsvVulnerability)) :
  osv_disabled env = false → Forall plain_info keys → cache_sound api c →
  (∀ i, plain_info i → m !! cache_key i = None ∨ entered api m i) →
  ∀ i, plain_info i → i ∈ keys ∨ entered api m i → entered api (foldl (build_step env (λ _, api)) (c, m) keys).2 i.
Proof.
  intros Hd. revert c m. induction keys as [|k keys IH]; intros c m Hk Hc Hm i Hi Hin; cbn [foldl].
  { destruct Hin as [?%not_elem_of_nil|]; done. }
  apply Forall_cons in Hk as [Hk Hks].
  destruct (build_step_entered env api c m k Hd Hk Hc (Hm k Hk)) as (Hc' & Hkk & Hothers).
  destruct (build_step env (λ _, api) (c, m) k) as [c' m']; cbn [fst snd] in *.
  apply IH; [done|done| |done|].
  - intros j Hj. by apply Hothers, Hm.
  - destruct Hin as [[->|Hin]%elem_of_cons|Hin]; [by right|by left|]. right. by apply Hothers; [|apply Hm|].
Qed.

Lemma package_keys_file (file inline : list string) (stdin : option (list string)) (info : PackageInfo) :
  info ∈ omap parse_package_line (file ++ inline) →
  package_keys (Some (Some file)) inline stdin = Ok (omap parse_package_line (file ++ inline)).
Proof.
  unfold package_keys. cbn [ok_or mbind result_bind]. rewrite <- omap_app.
  destruct (omap parse_package_line (file ++ inline)); [by intros ?%not_elem_of_nil|done].
Qed.

(** A validator that pins a snapshot sees, of every package on the list it was built from, the
    advisories of the server: no more, no less.  A package whose query failed is one of them, with
    no advisories and as if it had been answered. *)
Theorem built_snapshot_exact (env env' : string → option string) (api : OsvQuery → OsvReply) (epoch : string)
    (file : list string) (inline : list string) (stdin : option (list string)) (built_at json : string) (n : nat)
    (disk : string → option DiskFile) (mtime : option Z) (info : PackageInfo) :
  osv_disabled env = false →
  run_build env (λ _, api) epoch (Some (Some file)) inline stdin built_at true {| oc_cache := lru_new; oc_requests := n |} = Ok json →
  osv_consensus_enabled env' = true → bundle_epoch env' = trim epoch →
  disk (snapshot_path env') = Some {| df_mtime := mtime; df_text := Some json |} →
  info ∈ omap parse_package_line (file ++ inline) →
  (lookup_pinned env' disk disk info empty_snapshot_cache).2 =
  {| queried := true; vulnerabilities := vulnerabilities (answer_of api info) |}.
Proof.
  intros Hd Hb He Hep Hdisk Hin. unfold run_build in Hb. destruct (is_empty (trim epoch)) eqn:Htr; [done|].
  rewrite (package_keys_file file inline stdin info Hin) in Hb. cbn [mbind result_bind] in Hb. injection Hb as Hb.
  set (keys := omap parse_package_line (file ++ inline)) in *.
  assert (Forall plain_info keys) as Hplain.
  { apply Forall_forall. intros i (line & _ & Hline)%list_elem_of_omap. by eapply parse_package_line_plain. }
  unfold lookup_pinned. rewrite He. cbn [negb]. rewrite loaded_none_retried by done.
  assert (load_snapshot_from_disk disk (snapshot_path env') (bundle_epoch env') =
    Some {| sn_epoch := trim epoch; sn_schema := SCHEMA_V1; sn_source := "creg osv-snapshot build"; sn_built_at := built_at;
            sn_entries := (foldl (build_step env (λ _, api)) ({| oc_cache := lru_new; oc_requests := n |}, ∅) keys).2 |}) as ->.
  { unfold load_snapshot_from_disk. rewrite Hdisk. cbn [mbind option_bind df_text]. rewrite <- Hb, snapshot_json_roundtrip.
    cbn [mbind option_bind sn_epoch sn_schema]. by rewrite Hep, !String.eqb_refl. }
  unfold lookup_in_snapshot. cbn [sn_entries snd]. f_equal.
  apply (build_entries env api keys _ ∅); [done|done|apply empty_cache_sound|by intros; left; apply lookup_empty| |by left].
  eapply Forall_forall in Hplain; done.
Qed.

(** *** Advisory lookups *)

(** Which source answers: the pinned snapshot when it lists advisories or when there is no fallback,
    the server when the fallback is on or the consensus is off. *)
Theorem advisory_source (env : string → option string) (api : nat → OsvQuery → OsvReply)
    (stat disk : string → option DiskFile) (info : PackageInfo) (st : OsvState) :
  let r := (lookup_advisory env api stat disk info st).2 in
  let pinned := (lookup_pinned env stat disk info (os_snapshots st)).2 in
  let server := (query env api info (os_client st)).2 in
  r = if osv_consensus_enabled env && (negb (osv_live_fallback_enabled env) || negb (bool_decide (vulnerabilities pinned = [])))
      then pinned else server.
Proof.
  unfold lookup_advisory, live. destruct (osv_consensus_enabled env) eqn:He; cbn [andb].
  - assert (queried (lookup_pinned env stat disk info (os_snapshots st)).2 = false →
      vulnerabilities (lookup_pinned env stat disk info (os_snapshots st)).2 = []) as Hq.
    { unfold lookup_pinned. rewrite He. cbn [negb]. by destruct (loaded_snapshot _ _ _ _) as [? []]. }
    destruct (lookup_pinned env stat disk info (os_snapshots st)) as [cache pinned]; cbn [snd] in *.
    destruct (osv_live_fallback_enabled env) eqn:Hf, (queried pinned) eqn:Hqq; cbn [negb orb andb os_client];
      try (rewrite (Hq eq_refl); cbn); try case_bool_decide; cbn; try done; by destruct (query env api info (os_client st)).
  - rewrite orb_true_r. by destruct (query env api info (os_client st)).
Qed.
End Properties.

(** ** Witnesses *)
Module OsvDemo.
Import StaticWitness.

(** A cache of one entry. *)
#[export] Instance one_entry : Lru := {|
  LruCache := option (string * OsvResult);
  lru_new := None;
  lru_get k c := (c, match c with Some (k', v) => if String.eqb k' k then Some v else None | None => None end);
  lru_put k v _ := Some (k, v);
  lru_view c := match c with Some (k, v) => {[k := v]} | None => ∅ end |}.

#[export] Instance one_entry_laws : LruLaws.
Proof.
  split; cbn; [done|..].
  - intros k [[k' v]|]; [|done]. destruct (String.eqb_spec k' k) as [->|]; [by rewrite lookup_singleton_eq|by rewrite lookup_singleton_ne].
  - done.
  - intros k v _. apply lookup_singleton_eq.
  - intros k v c. apply map_singleton_subseteq_l, lookup_insert_eq.
Qed.


Definition vuln_tuple (v : OsvVulnerability) : string * string * option string := (osv_id v, osv_summary v, osv_severity v).
Definition tuple_vuln (t : string * string * option string) : OsvVulnerability :=
  {| osv_id := t.1.1; osv_summary := t.1.2; osv_severity := t.2 |}.

Definition snapshot_tuple (s : OsvSnapshot) : string * string * string * string * gmap string (list (string * string * option string)) :=
  (sn_epoch s, sn_schema s, sn_source s, sn_built_at s, map vuln_tuple <$> sn_entries s).
Definition tuple_snapshot (t : string * string * string * string * gmap string (list (string * string * option string)))
    : OsvSnapshot :=
  {| sn_epoch := t.1.1.1.1; sn_schema := t.1.1.1.2; sn_source := t.1.1.2; sn_built_at := t.1.2;
     sn_entries := map tuple_vuln <$> t.2 |}.

#[export] Instance tuple_json : SnapshotJson := {|
  snapshot_to_json s := bits (countable.encode (snapshot_tuple s));
  snapshot_from_json s := tuple_snapshot <$> countable.decode (unbits s) |}.

#[export] Instance tuple_json_laws : SnapshotJsonLaws.
Proof.
  split. intros [e sc so b m]. unfold snapshot_from_json, snapshot_to_json, tuple_json.
  rewrite unbits_of_bits, countable.decode_encode. cbn. unfold tuple_snapshot. cbn. do 2 f_equal.
  rewrite <- map_fmap_compose. rewrite <- (map_fmap_id m) at 2. apply map_fmap_ext. intros k l _. cbn.
  rewrite List.map_map. rewrite <- (List.map_id l) at 2. apply List.map_ext. by intros [].
Qed.

Definition env0 : string → option string := λ _, None.
Definition env1 : string → option string :=
  λ k, if String.eqb k "CREG_OSV_CONSENSUS" then Some "true" else if String.eqb k "CREG_OSV_SNAPSHOT_EPOCH" then Some "e" else None.

(** One package has an advisory, one gets an answer without any, and for one the server is out of order. *)
Definition api0 (q : OsvQuery) : OsvReply :=
  if String.eqb (oq_name q) "lodash" then
    OsvVulns [{| ov_id := "G"; ov_summary := None; ov_database_specific := Some (VObject [("severity", VString "HIGH")]) |}]
  else if String.eqb (oq_name q) "left" then OsvVulns [] else OsvUnreachable.

Definition lines0 : list string := ["# list"; "npm:lodash@4"; "npm:lost@1"; "npm:left@1"].
Definition lost : PackageInfo := {| pi_name := "lost"; pi_version := "1"; pi_ecosystem := "npm" |}.
Definition lodash : PackageInfo := {| pi_name := "lodash"; pi_version := "4"; pi_ecosystem := "npm" |}.

Definition built : string :=
  match run_build env0 (λ _, api0) " e" (Some (Some lines0)) [] None "now" true {| oc_cache := lru_new; oc_requests := 0 |} with
  | Ok json => json | Err _ => "" end.

Definition disk1 : string → option DiskFile :=
  λ p, if bool_decide (components p = components DEFAULT_SNAPSHOT_PATH) then Some {| df_mtime := Some 1%Z; df_text := Some built |} else None.

Definition no_disk : string → option DiskFile := λ _, None.

Definition snapshot1 : OsvSnapshot :=
  {| sn_epoch := "e"; sn_schema := SCHEMA_V1; sn_source := "creg osv-snapshot build"; sn_built_at := "now";
     sn_entries := {[ "npm:lodash@4" := [{| osv_id := "G"; osv_summary := "No summary"; osv_severity := Some "HIGH" |}] ]} |}.

Example snapshot1_loads : load_snapshot_from_disk disk1 (snapshot_path env1) (bundle_epoch env1) = Some snapshot1.
Proof. vm_compute. reflexivity. Qed.

(** The package whose query failed reads as clean. *)
Lemma built_snapshot_exact_witness :
  answer_of api0 lost = unavailable ∧
  (lookup_pinned env1 disk1 disk1 lost empty_snapshot_cache).2 = {| queried := true; vulnerabilities := [] |}.
Proof.
  split; [done|].
  apply (built_snapshot_exact env0 env1 api0 " e" lines0 [] None "now" built 0 disk1 (Some 1%Z) lost);
    try (vm_compute; reflexivity).
  apply (bool_decide_eq_true_1 (lost ∈ omap parse_package_line (lines0 ++ []))).
  vm_compute. reflexivity.
Defined.

Lemma failure_is_cached_witness :
  let c0 := {| oc_cache := lru_new; oc_requests := 0 |} in
  let c1 := (query env0 (λ _, api0) lost c0).1 in
  (query env0 (λ _, api0) lost c0).2 = unavailable ∧ oc_requests c1 = 1 ∧
  (query env0 (λ n q, OsvVulns []) lost c1).2 = unavailable ∧ oc_requests (query env0 (λ n q, OsvVulns []) lost c1).1 = 1.
Proof.
  pose (api := λ (n : nat) q, if Nat.eqb n 0 then api0 q else OsvVulns []).
  pose proof (failure_is_cached env0 api lost {| oc_cache := lru_new; oc_requests := 0 |} eq_refl eq_refl eq_refl) as H.
  vm_compute in H. vm_compute. exact H.
Defined.

Lemma disk1_proper : disk_proper disk1.
Proof. intros p q Hpq. unfold disk1. by rewrite Hpq. Qed.

Lemma no_disk_proper : disk_proper no_disk.
Proof. done. Qed.

Lemma disks_timed (d d' : string → option DiskFile) : d ∈ [disk1; no_disk] → d' ∈ [disk1; no_disk] → same_times_same_files d d'.
Proof.
  rewrite !elem_of_cons, !elem_of_nil. intros Hd Hd' p. destruct_or!; subst; try done.
  all: unfold file_mtime, disk1, no_disk; by case_bool_decide.
Qed.

(** The file appears and is removed. *)
Lemma snapshot_cache_transparent_witness :
  snapshots_seen env1 [no_disk; disk1; no_disk] empty_snapshot_cache = [None; Some snapshot1; None].
Proof.
  rewrite (snapshot_cache_transparent env1 [no_disk; disk1; no_disk] eq_refl).
  - vm_compute. reflexivity.
  - repeat constructor; auto using disk1_proper, no_disk_proper.
  - intros d d' Hd Hd'. apply disks_timed; set_solver.
Defined.

(** The file is replaced within one tick of the clock: by one that nothing can be read from. *)
Definition disk2 : string → option DiskFile := λ p, (λ f, {| df_mtime := df_mtime f; df_text := None |}) <$> disk1 p.

Lemma snapshot_stale_witness :
  snapshots_seen env1 [disk1; disk2] empty_snapshot_cache = [Some snapshot1; Some snapshot1] ∧
  load_snapshot_from_disk disk2 (snapshot_path env1) (bundle_epoch env1) = None.
Proof.
  split; [apply (snapshot_stale env1 disk1 disk2 snapshot1)|]; vm_compute; reflexivity.
Defined.

Lemma epoch_binds_no_content_witness :
  osv_snapshot_epoch (current_bundles env1 (bundle_epoch env1)) = "e" ∧
  finding_id <$> validator_osv_findings env1 no_disk "lodash" "4" "npm" = ["OSV001"] ∧
  finding_id <$> validator_osv_findings env1 disk1 "lodash" "4" "npm" = ["OSV003"].
Proof.
  destruct (epoch_binds_no_content env1 disk1 no_disk "lodash" "4" "npm" snapshot1) as (H1 & H2 & _);
    [vm_compute; reflexivity..|]. split; [exact H1|]. split; [exact H2|]. vm_compute. reflexivity.
Defined.

Lemma package_line_roundtrip_witness :
  parse_package_line "npm:@scope/pkg@1.2.3" = Some {| pi_name := "@scope/pkg"; pi_version := "1.2.3"; pi_ecosystem := "npm" |}.
Proof.
  apply (package_line_roundtrip {| ecosystem := "npm"; name := "@scope/pkg"; version := "1.2.3" |}); by vm_compute.
Defined.

End OsvDemo.
